(* ===== verification/_CoqProject ===== *)
-Q . S2P
Prelude.v
Bytes.v
UrlText.v
Decoder.v
Db.v
StreamStatus.v
Balances.v
TerminalEvents.v
Persistence.v
HorizonClient.v
StreamIndexer.v
RpcPool.v
CircuitBreaker.v
RateLimit.v
WsStreams.v
Digits.v
TokenAmount.v
JobQueue.v
Backfill.v
AdminBackfill.v
Auth.v
StrKey.v
Idempotency.v
Reconciliation.v
LedgerTime.v
Migrate.v
Health.v
WsClaimable.v
Validation.v
Schedules.v
Webhooks.v
ErrorMessages.v
TxStatus.v
Csv.v
Keyset.v
SponsorDashboard.v
SponsorStreams.v
GraphqlLimits.v
StreamEvents.v
TokenPrice.v
ClaimVested.v
Double.v
Wizard.v
StreamDetails.v
Analytics.v
DoubleOrder.v
StreamSchedule.v
StreamForm.v
AdminRoutes.v
AdminActions.v
CreateForm.v
VestingRoutes.v
AuthV1.v
Acknowledgments.v
SessionTimeout.v
ClaimableAmount.v
WalletBalances.v
CachedStreams.v
Notifications.v
ArraySort.v
Explore.v
DataTable.v
SponsorActions.v
StreamsPage.v
ScheduleVersions.v
NotificationJob.v
PgWire.v
BackupVerify.v
Rotation.v
Shutdown.v
Drain.v
HorizonPool.v
Logger.v
Reconnect.v
WalletSession.v
Startup.v
CliffCountdown.v
