(* ===== verification/Prelude.v ===== *)
(** * Vesting drip-stream backend and client: verification library

    The repository runs a Soroban vesting contract with a TypeScript backend
    that indexes the contract's events into PostgreSQL, serves them over HTTP
    and WebSockets, and a web client.  This library models the backend's event
    pipeline, its protection of upstream services and clients, its job
    processing, and the client's amount arithmetic, as executable definitions,
    and proves what makes each of them correct.  File names below are relative
    to [src/]; a definition carries the name of the function it models.

    ** The program and the files that model it

    Events flow from Horizon through [Decoder] and [Persistence] into the
    tables of [Db], driven by the poll loop of [StreamIndexer]:

    - [Bytes]: Node's [Buffer]: base 64, big-endian reads, UTF-8 decoding.
    - [Decoder] (backend/src/indexer/decoder.ts, types.ts): XDR values and the
      five contract events.  The wire encoding of the file's header is a
      specification here, and decoding is its inverse.
    - [Db] (backend/migrations): the tables the pipeline writes as one record,
      the enum of statuses, the transition check and the audit trigger, and
      [UPDATE vesting_streams] as one operation that runs the trigger per row
      and has no effect when it raises.
    - [StreamStatus] (backend/src/streamStatusService.ts, jobs/streamExpiry.ts):
      guarded transitions and the expiry job.  [db_step] collects the
      operations of the pipeline as a step relation; the audit and
      monotonicity theorems hold along [rtc db_step].
    - [Balances] (indexer/balanceTracker.ts, jobs/balanceReconciliation.ts):
      claimed totals, and their recomputation from the event log.
    - [TerminalEvents] (indexer/terminalEventHandlers.ts): cancellation and
      clawback, against the specification [terminal_spec].
    - [Persistence] (indexer/persistence.ts): the transactional batch upsert
      and the cursor.  The class [EventStore] states what it promises its
      client, the rows a batch adds included, and [db_event_store] discharges it.
    - [HorizonClient], [StreamIndexer] (indexer/horizonClient.ts,
      StreamIndexer.ts): requests, backoff, and the poll cycle, proved against
      any [EventStore].
    - [Backfill] (backend/scripts/backfill_stream_events.ts): the repairing
      replay of a ledger range, with its options and its report, against
      [serves], the documented paging of Horizon.
    - [AdminBackfill] (admin/backfill.ts): the second backfill, started by a
      request and recorded in a job row, against the same [serves].
    - [Reconciliation] (jobs/reconciliationJob.ts): the daily comparison of the
      streams with the contract, in batches.

    Around the pipeline:

    - [RpcPool] (rpcPool.ts), [CircuitBreaker] (horizonCircuitBreaker.ts): node
      selection and quarantine; a breaker whose calls are split at the [await],
      refined to a two-state specification for sequential calls.
    - [RateLimit] (middleware/tokenBucketRateLimit.ts, rateLimit.ts): the Lua
      token bucket over the rationals, the window counter, both middlewares.
    - [WsStreams] (wsStreams.ts): WebSocket connections as a machine over
      events; every [await] of the connection handler is a point where other
      events happen.
    - [JobQueue] (jobs/jobQueue.ts, workers/jobWorker.ts): the Redis queue and
      any number of worker loops as a step relation, with failing commands.
    - [Auth] (auth/keyStore.ts, routes/authV2.ts): signing keys, challenges,
      tokens and middlewares, against the class [Jwt] of what the token library
      documents; overlapping token requests are a step relation.
    - [StrKey], [AuthV1] (routes/authV1.ts): the base-32 decoder of addresses, on
      32-bit integers that wrap, and the older authentication handlers around it,
      with overlapping requests, failing Redis commands and the rate limit.
    - [Idempotency] (middleware/idempotency.ts): cached responses, with
      overlapping requests as a step relation.
    - [Migrate] (migrate.ts): the migration run with its client, lock and
      cached result, and the gate of the bootstrap.
    - [Health] (routes/health.ts): the probes and both endpoints.
    - [WsClaimable] (ws.ts): the subscription registry of the second WebSocket
      server, with its shared sets, snapshots that settle later, and the line
      buffer of the ledger stream.
    - [Validation] (validation.ts, middleware/validate.ts): the request schemas
      as data, with an interpreter for the constructors they use.
    - [Schedules] (routes/schedules.ts): parameters, cursors, cache, and the
      query with its placeholders over a list of rows.
    - [Webhooks] (webhookStore.js, webhookWorker.js, webhookValidator.js):
      registrations, concurrent deliveries with retries as a step relation whose
      histories a theorem can read, signatures, and the address check as the
      pattern it is.
    - [Csv] (routes/schedules-export.ts, frontend/src/utils/exportCsv.ts): CSV
      text, the export query, whose pages order ties as they like, the handler,
      against a reader of RFC 4180.
    - [Keyset], [SponsorDashboard] (routes/sponsorDashboard.ts),
      [SponsorStreams] (routes/streams.ts): the order and the pages of keyset
      pagination, and the two routes that use it, with their cursors, totals
      and cache; the table changes between the pages.
    - [StreamDetails] (routes/streamDetails.ts, streamStatus.ts,
      streamBalance.ts): the routes of one stream over the tables of [Db], the
      cache of its claimable amount, and exact integers in JSON.
    - [Analytics] (routes/analytics.ts, analyticsSummary.ts,
      jobs/analyticsSummaryJob.ts): totals over the tables, their cached answers
      and the job that refreshes them.
    - [VestingRoutes] (routes/vesting.ts, claimableBatch.ts, buildClaimTx.ts):
      routes that ask the contract, with simulations as inputs, and the cache of
      built transactions under overlapping requests.
    - [AdminRoutes] (admin/audit.ts, auditLog.ts, streams.ts, webhooks.ts,
      indexer.ts, middleware/cors.ts): administrative lists and switches, and the
      origin check.
    - [AdminActions] (routes/adminContract.ts, middleware/audit.ts): contract
      calls of administrators behind [Auth], each with its audit record.
    - [ScheduleVersions] (schedule-version-recorder.js, routes/versions.js): the
      numbered changes of a schedule, written by statements that overlap, and
      the route that lists them.
    - [NotificationJob] (jobs/notificationJob.js): the streams a run selects, the
      event it announces, webhooks with retries, mail, and the lock of the run.
    - [Startup] (config.ts, lib.js, contract-version.js, startup.js): the schema
      of the environment, required variables, and the checks at start-up.
    - [GraphqlLimits] (graphql-depth-limit.js): depth and complexity of parsed
      queries, against the nesting an execution does.

    Beside the backend:

    - [PgWire] (infra/lambda/backup-verify/pg.js): a PostgreSQL client: the
      splitting of its byte stream, its messages, both password schemes.
    - [BackupVerify] (infra/lambda/backup-verify/index.js): the run that restores
      the newest snapshot, counts rows and cleans up, over services whose
      answers may depend on everything sent before.
    - [Rotation] (terraform/modules/secrets/rotation/index.js): the four steps
      of a password rotation and the probe that logs in.

    The second server (src/server/):

    - [Shutdown] (shutdown.js): requests in flight, teardown handlers, the end
      of the process.
    - [HorizonPool] (horizon.js): endpoints with failure counts and breakers,
      overlapping requests with failover, the health reports; against the class
      [Breaker] of the library.
    - [Drain] (drain.js): the drain endpoint with its limit.
    - [Logger] (logger.js): levels, children, and the line of a record whose
      objects may be shared or cyclic.

    In the client:

    - [ErrorMessages] (frontend/src/lib/errorMessages.ts, errorMessages.ts):
      the tables of texts and the parsing of network errors.
    - [LedgerTime] (frontend/src/utils/ledgerTime.ts): ledgers, dates and
      durations.
    - [TxStatus] (frontend/src/hooks/useTxStatus.ts): submission, polling and
      recovery after a reload as a transition system.
    - [StreamEvents] (frontend/src/hooks/useStreamEvents.ts): URL parameters,
      payloads, and a hook whose answers may come in any order.
    - [TokenPrice] (frontend/src/hooks/useTokenPrice.ts): the price cache the
      components of a page share.
    - [ClaimVested] (frontend/src/hooks/useClaimVested.ts,
      components/ClaimButton.tsx): a claim with its retries, and the button.
    - [Acknowledgments] (backend routes/acknowledgments.ts, frontend
      hooks/useStreamAcknowledgment.ts, utils/streamAcknowledgments.ts): the
      table, its handlers and the banner's hook as one transition system.
    - [SessionTimeout], [ClaimableAmount], [WalletBalances], [CachedStreams],
      [Notifications] (frontend/src/hooks/): one hook each, as a transition
      system of its effects, timers and answers.
    - [Double], [Wizard] (frontend/src/wizard/): IEEE doubles as far as the
      code computes with them, and the four steps of creating a stream.
    - [DoubleOrder], [StreamSchedule] (frontend/src/utils/streamSchedule.ts,
      streamCompletion.ts), [StreamForm] (components/StreamCreateForm.tsx):
      rounding keeps the order; rates and rate segments; the form that uses them.
    - [CreateForm] (components/CreateStreamForm.tsx): the multi-step form, with
      [parseFloat].
    - [ArraySort]: [Array.prototype.sort]; [UrlText]: text in URLs.
    - [Explore] (app/explore/page.tsx): filters in the address, the page's own
      search, and its timer, requests and navigation as a transition system.
    - [DataTable] (components/DataTable.tsx, SponsorStreamTable.tsx),
      [SponsorActions] (app/sponsor/page.tsx, CancelStreamModal.tsx,
      ClawbackStreamModal.tsx, hooks/useCancelPreview.ts): the sorted and paged
      table, and the page that cancels and claws back from it.
    - [Reconnect] (utils/websocket.ts, hooks/useNotificationWebSocket.ts): a
      socket that reconnects with backoff, and the frames of its hook.
    - [WalletSession] (contexts/WalletContext.tsx): address, provider and
      network, their storage, and [connect] with its waits.
    - [CliffCountdown] (components/CliffCountdown.tsx): the time left until a
      cliff, its polled ledger, and the effects after each render.
    - [StreamsPage] (app/streams/page.tsx, hooks/useStreams.ts): filters,
      selection, bulk cancellation and export.
    - [Digits], [TokenAmount] (frontend/src/utils/tokenAmount.ts): decimal text
      and the parsing and formatting of localised token amounts, against the
      class [WesternFormat] of what [Intl.NumberFormat] documents.

    ** What the theorems show

    - Decoding inverts the wire encoding; nothing is decoded that was not sent.
    - A batch is stored atomically, once per transaction hash, replays are
      no-ops, and claimed totals always equal the sum of the stored claims.
    - Transitions follow the table, the audit trail is a complete chain, and
      statuses only move forward; reconciliation and expiry do exactly their
      work and nothing else.
    - A poll cycle stores the first event of every new transaction of its page
      that is deep enough, or leaves the store alone and backs off within bounds.
    - A backfill terminates; it writes the events it was asked for, or the pages
      before the first event that does not fit its columns, and it is idempotent.
    - Limits hold on every interval and under every interleaving; quarantine,
      fairness and breaker states are as documented for sequential use.
    - A job is taken once and its outcome is final.
    - Tokens go only to wallets that signed a fresh challenge, replays of a used
      nonce are refused, and a token lives an hour and one key rotation.
    - While Redis holds a response, its request is answered with it, and the
      handler runs again only if Redis fails to answer.
    - Amounts shown are read back exactly; addresses, dates and durations
      convert without loss.
    - A server starts only after its migrations, pages of schedules enumerate a
      sponsor's rows and no cache entry crosses sponsors, and what validation
      lets through has the type the handler assumes.
    - The subscription registry is exactly what the messages asked for, and an
      event reaches exactly its subscribers.
    - A webhook delivery belongs to a dispatch and to a registration that asked
      for the event; it makes at most three signed attempts, its log says how
      they ended, and it ends; reserved addresses are refused.
    - The phase a user sees is what the page is doing, one poll at a time; a
      poll ends within thirty rounds, and a reload loses nothing for two minutes.
    - An export reads back as the sponsor's streams of the dates asked for, each
      once, with their exact values, unless two have one time; dashboard
      cursors enumerate a sponsor's streams while new ones arrive, the latest
      request is the one shown, and prices belong to their coin.
    - A stream list shows every stream that keeps its key while rows come, go
      and change;
      a claimable amount is at most thirty seconds old; integers in JSON lose no
      digit.
    - A claim is submitted by one run at a time and retried after timeouts only;
      the wizard lets exactly the well-formed schedules through whose deposit fits;
      a banner is hidden only for a stream somebody answered for, and what was
      signed names every term of it.
    - A derived rate is the least that pays the amount; rate segments are read
      back; every request a form sends has passed its checks.
    - Every administrative call was logged before by an authenticated
      administrator; a walk over the audit log misses no entry while it grows; a
      transaction handed out was built for its recipient within ten seconds.
    - A table, a search and a list show the stable sort of the rows asked for,
      their pages show every row once, and only rows that may be cancelled or
      clawed back are; an operation stops at its first failure and can be
      repeated.
    - Versions of a schedule are numbered without gaps; runs that are close
      enough announce every cliff to the addresses a recipient has.
    - The wire parsers accept exactly what a server sends; a verification run
      touches only what it created; a rotation never loses the password.
    - A server ends after its requests and handlers, in order; a request fails
      over to the first endpoint that serves it; executions of the drain are five
      minutes apart; a call of the logger writes one line; one call of [connect]
      keeps one connection, until it is destroyed for good; a reload restores the
      wallet; an accepted configuration has the types its readers assume; a
      countdown is exact to the second and reports a cliff once per ledger.
    - Where the code does not do what it means to, a theorem says what it does
      instead: batches that can never be stored, skipped events, a backfill
      that loses the rest of its last ledger, a nonce used twice by overlapping
      requests, a reconciliation that reports every active stream, a gap between
      replay and subscription, a leak, a breaker closed by a late success, streams
      of one millisecond lost between pages, failed exports that look complete,
      limits that fragments bypass, prices shown for the wrong coin, totals that
      are always zero, a session that never expires, answers shown for
      another stream or recipient, replays that only report success, forms
      that send unchecked figures, overlapping changes of a schedule of which one
      is lost, a search that stops while a short text is typed, a login that
      never succeeds, a restored database that is never deleted, a probe
      that passes without the password, an endpoint that is lost for good, a
      disconnection that is undone, a drain that submits nothing, and a version
      check that compares nothing or ends the process.

    ** Conventions

    Throwing code is the state monad [M] below: the state survives a throw,
    and [transaction] restores it.  A JavaScript number is [option Z], [None]
    being [NaN]: every number modelled is an integer within 53 bits, except where [Double]
    computes with fractions.  [bigint]
    and PostgreSQL's [numeric] are [Z], columns of fixed width are checked with
    [fits].  Times are integers, in the unit of the code.  A string is its
    UTF-8 bytes.  [fetch], [Math.random], hashes, [JSON.parse], [Number] and
    [Intl.NumberFormat] are parameters; Redis and PostgreSQL are modelled as
    far as the commands issued rely on them.

    Fuel occurs in a few places, each with its bound: [RpcPool.pick_loop] runs
    once per node, [Backfill.page_loop] and [AdminBackfill.page_loop] need one
    unit per record of the history and one more, [Backfill.find_gaps] one per
    ledger of the window, [Reconciliation.chunks] one per stream,
    [TokenAmount.groups3] one per digit, [Schedules.walk] and
    [SponsorDashboard.walk] one per page, [SponsorStreams.walk] one per page of the
    keys there can be and one more, [SessionTimeout.settle] three renders, and [Csv.export_loop] one per page of
    five hundred rows and one more.
    [BackupVerify.poll] takes one round per interval, [PgWire.drain_loop] one per
    five bytes, [Rotation.drain_probe] one per message, [Rotation.wait_loop] one per
    status read, [NotificationJob.attempts] the retries there are.
    [HorizonPool.finish] runs over the endpoints of one request, [Logger.stringify]
    over the nesting of a value and of the objects it may reach ([Logger.enough]).
    [TxStatus.poll_rounds] runs over the rounds it is given; thirty are enough.

    ** What is not modelled

    Logging, metrics, timers as such (a timer is an event that may happen),
    HTTP routing and the SQL of read-only endpoints, React rendering, formatting by
    [Intl], the type inference of query parameters (each has the type of its
    column), and the Rust contract.  The older indexer and its worker, whose
    event upserts do not compile as written, and the caching routes that do
    not parse are left out; the manifest lists every part and its reason. *)
From Stdlib Require Export ZArith Lia Ascii String.
From Stdlib Require Import DecimalString DecimalPos DecimalZ DecimalFacts.
From stdpp Require Export base tactics numbers list option gmap fin_maps strings.

#[global] Open Scope Z_scope.

(** ** Outcomes of code that may throw *)

(** [Ok a] is a normal completion, [Err e] a thrown exception (or a rejected
    promise: the code awaits everything it starts in the modelled paths). *)
Inductive result (E A : Type) : Type :=
| Ok (a : A)
| Err (e : E).
Arguments Ok {E A} a.
Arguments Err {E A} e.

#[global] Instance result_eq_dec `{EqDecision E, EqDecision A} : EqDecision (result E A).
Proof. solve_decision. Defined.

Definition is_ok {E A} (r : result E A) : bool :=
  match r with Ok _ => true | Err _ => false end.

(** Stateful code that may throw.  The state survives a throw, as it does in
    JavaScript: a statement that ran before the exception keeps its effect. *)
Definition M (S E A : Type) : Type := S → result E A * S.

Section monad.
Context {S E : Type}.

Definition ret {A} (a : A) : M S E A := λ s, (Ok a, s).
Definition throw {A} (e : E) : M S E A := λ s, (Err e, s).
Definition bind {A B} (m : M S E A) (f : A → M S E B) : M S E B :=
  λ s, match m s with
       | (Ok a, s') => f a s'
       | (Err e, s') => (Err e, s')
       end.
Definition get : M S E S := λ s, (Ok s, s).
Definition put (s' : S) : M S E unit := λ _, (Ok tt, s').
Definition modify (f : S → S) : M S E unit := λ s, (Ok tt, f s).

(** [try { m } catch (e) { h e }] *)
Definition try_catch {A} (m : M S E A) (h : E → M S E A) : M S E A :=
  λ s, match m s with
       | (Ok a, s') => (Ok a, s')
       | (Err e, s') => h e s'
       end.

(** [BEGIN ... COMMIT] with [ROLLBACK] and rethrow in the catch block: the
    state is the old one when the body throws. *)
Definition transaction {A} (m : M S E A) : M S E A :=
  λ s, match m s with
       | (Ok a, s') => (Ok a, s')
       | (Err e, _) => (Err e, s)
       end.

(** [for (const x of xs) await f(x)] *)
Fixpoint for_each {A} (xs : list A) (f : A → M S E unit) : M S E unit :=
  match xs with
  | [] => ret tt
  | x :: xs' => bind (f x) (λ _, for_each xs' f)
  end.

(** The same loop with a running accumulator. *)
Fixpoint fold_each {A B} (xs : list A) (b : B) (f : B → A → M S E B) : M S E B :=
  match xs with
  | [] => ret b
  | x :: xs' => bind (f b x) (λ b', fold_each xs' b' f)
  end.
End monad.

Declare Scope code_scope.
Delimit Scope code_scope with code.
Notation "'let!' x ':=' m 'in' k" := (bind m (λ x, k))
  (at level 10, x binder, m at level 100, k at level 200) : code_scope.
Notation "m ';;;' k" := (bind m (λ _, k))
  (at level 110, k at level 200, right associativity) : code_scope.
#[global] Open Scope code_scope.

Section monad_lemmas.
Context {S E : Type}.

Lemma bind_ok {A B} (m : M S E A) (f : A → M S E B) s a s' :
  m s = (Ok a, s') → bind m f s = f a s'.
Proof. unfold bind. by intros ->. Qed.

Lemma bind_err {A B} (m : M S E A) (f : A → M S E B) s e s' :
  m s = (Err e, s') → bind m f s = (Err e, s').
Proof. unfold bind. by intros ->. Qed.

Lemma bind_inv_ok {A B} (m : M S E A) (f : A → M S E B) s b s' :
  bind m f s = (Ok b, s') → ∃ a s1, m s = (Ok a, s1) ∧ f a s1 = (Ok b, s').
Proof. unfold bind. destruct (m s) as [[a|e] s1]; naive_solver. Qed.

Lemma bind_inv_err {A B} (m : M S E A) (f : A → M S E B) s e s' :
  bind m f s = (Err e, s') →
  m s = (Err e, s') ∨ ∃ a s1, m s = (Ok a, s1) ∧ f a s1 = (Err e, s').
Proof. unfold bind. destruct (m s) as [[a|e0] s1]; naive_solver. Qed.

Lemma bind_assoc {A B C} (m : M S E A) (f : A → M S E B) (g : B → M S E C) s :
  bind (bind m f) g s = bind m (λ a, bind (f a) g) s.
Proof. unfold bind. by destruct (m s) as [[a|e] s1]. Qed.

Lemma transaction_err {A} (m : M S E A) s e s' :
  transaction m s = (Err e, s') → s' = s.
Proof. unfold transaction. destruct (m s) as [[a|e0] s1]; naive_solver. Qed.

Lemma transaction_ok {A} (m : M S E A) s a s' :
  transaction m s = (Ok a, s') ↔ m s = (Ok a, s').
Proof. unfold transaction. destruct (m s) as [[a0|e0] s1]; naive_solver. Qed.

(** An invariant every iteration keeps is kept by the loop, whether or not
    an iteration throws. *)
Lemma fold_each_invariant {A B} (I : S → Prop) (f : B → A → M S E B) xs :
  (∀ b x s r s', I s → f b x s = (r, s') → I s') →
  ∀ b s r s', I s → fold_each xs b f s = (r, s') → I s'.
Proof.
  intros Hf. induction xs as [|x xs IH]; simpl; intros b s r s' HI Heq.
  - unfold ret in Heq. naive_solver.
  - unfold bind in Heq. destruct (f b x s) as [[b1|e] s1] eqn:Hx; eauto.
    simplify_eq. eauto.
Qed.

Lemma fold_each_app {A B} (f : B → A → M S E B) xs ys b s :
  fold_each (xs ++ ys) b f s = bind (fold_each xs b f) (λ b', fold_each ys b' f) s.
Proof.
  revert b s. induction xs as [|x xs IH]; intros b s; [done|].
  simpl. rewrite bind_assoc. unfold bind.
  destruct (f b x s) as [[b1|e] s1]; [apply IH|done].
Qed.
End monad_lemmas.

(** Case analysis on every [match] in the goal or a hypothesis. *)
Ltac crush_match :=
  repeat (case_match; simplify_eq/=; try done).

(** Invert a run of monadic code that is known to have completed. *)
Ltac inv_run :=
  repeat match goal with
  | H : bind _ _ _ = (Ok _, _) |- _ =>
      let a := fresh "a" in let s := fresh "s" in let Ha := fresh "Hrun" in
      apply bind_inv_ok in H as (a & s & Ha & H)
  | H : ret _ _ = _ |- _ => unfold ret in H; simplify_eq/=
  | H : get _ = _ |- _ => unfold get in H; simplify_eq/=
  | H : put _ _ = _ |- _ => unfold put in H; simplify_eq/=
  | H : modify _ _ = _ |- _ => unfold modify in H; simplify_eq/=
  | H : throw _ _ = (Ok _, _) |- _ => unfold throw in H; discriminate
  end.

(** ** Integers as text *)

(** [BigInt(n).toString(10)] and the integers PostgreSQL prints with [::text]. *)
Definition Z_to_string (z : Z) : string := NilZero.string_of_int (Z.to_int z).

(** [BigInt(s)] on a plain decimal literal, and PostgreSQL's integer-valued
    numeric input; [None] when the text is not one. *)
Definition Z_of_string (s : string) : option Z :=
  Z.of_int <$> NilZero.int_of_string s.

Lemma Z_to_int_nonnil z : Z.to_int z ≠ Decimal.Pos Decimal.Nil ∧ Z.to_int z ≠ Decimal.Neg Decimal.Nil.
Proof.
  destruct z as [|p|p]; simpl; [done|..]; split; intros H; try discriminate H;
    injection H; apply DecimalPos.Unsigned.to_uint_nonnil.
Qed.

Lemma Z_of_to_string z : Z_of_string (Z_to_string z) = Some z.
Proof.
  unfold Z_of_string, Z_to_string.
  destruct (Z_to_int_nonnil z).
  rewrite NilZero.isi by done. simpl. by rewrite DecimalZ.of_to.
Qed.

#[global] Instance Z_to_string_inj : Inj (=) (=) Z_to_string.
Proof.
  intros x y H. apply (f_equal Z_of_string) in H.
  rewrite !Z_of_to_string in H. by simplify_eq.
Qed.

(** ** JavaScript strings

    A JavaScript string is represented by its UTF-8 bytes, one [ascii] per
    byte.  Every test the modelled code makes on a string is about ASCII
    characters, which UTF-8 keeps as single bytes. *)

Definition chars (s : string) : list ascii := list_ascii_of_string s.
Definition of_chars (l : list ascii) : string := string_of_list_ascii l.

Lemma of_chars_chars s : of_chars (chars s) = s.
Proof. apply string_of_list_ascii_of_string. Qed.
Lemma chars_of_chars l : chars (of_chars l) = l.
Proof. apply list_ascii_of_string_of_list_ascii. Qed.

#[export] Hint Rewrite of_chars_chars chars_of_chars Z_of_to_string : code.

Definition code (c : ascii) : Z := Z.of_nat (nat_of_ascii c).
Definition chr (z : Z) : ascii := ascii_of_nat (Z.to_nat z).

Lemma code_range c : 0 <= code c < 256.
Proof. unfold code. pose proof (nat_ascii_bounded c). lia. Qed.
Lemma chr_code c : chr (code c) = c.
Proof. unfold chr, code. by rewrite Nat2Z.id, ascii_nat_embedding. Qed.
Lemma code_chr z : 0 <= z < 256 → code (chr z) = z.
Proof. intros. unfold chr, code. rewrite nat_ascii_embedding by lia. lia. Qed.

Definition str_length (s : string) : Z := Z.of_nat (String.length s).

(** [Boolean(s)] for a string. *)
Definition truthy (s : string) : bool := bool_decide (s ≠ "").

Definition in_range (lo hi : Z) (c : ascii) : bool := (lo <=? code c) && (code c <=? hi).
Definition is_digit : ascii → bool := in_range 48 57.
Definition is_upper : ascii → bool := in_range 65 90.
(** The character class [[A-Z2-7]] of the Stellar base-32 alphabet. *)
Definition is_base32 (c : ascii) : bool := is_upper c || in_range 50 55 c.
Definition is_space (c : ascii) : bool := in_range 9 13 c || (code c =? 32).

(** [s.split(sep)] for a one-character separator: never empty. *)
Fixpoint split_chars (sep : ascii) (l : list ascii) : list (list ascii) :=
  match l with
  | [] => [[]]
  | c :: l' =>
      if decide (c = sep) then [] :: split_chars sep l'
      else match split_chars sep l' with
           | w :: ws => (c :: w) :: ws
           | [] => [[c]]
           end
  end.
Definition split_on (sep : ascii) (s : string) : list string :=
  of_chars <$> split_chars sep (chars s).

Fixpoint drop_while {A} (p : A → bool) (l : list A) : list A :=
  match l with
  | [] => []
  | x :: l' => if p x then drop_while p l' else l
  end.
(** The white space of JavaScript ([trim], [\s], [parseInt]) includes the
    Unicode spaces.  [units] cuts a text into its white space characters,
    marked [true], and single other bytes. *)
Definition space2 (a b : ascii) : bool := (code a =? 194) && (code b =? 160).
Definition space3 (a b c : ascii) : bool :=
  match code a, code b, code c with
  | 225, 154, 128 | 226, 129, 159 | 227, 128, 128 | 239, 187, 191 => true
  | 226, 128, z => (z <=? 138) && (128 <=? z) || (z =? 168) || (z =? 169) || (z =? 175)
  | _, _, _ => false
  end.
Fixpoint units (l : list ascii) : list (bool * list ascii) :=
  match l with
  | [] => []
  | a :: l1 =>
      if is_space a then (true, [a]) :: units l1
      else match l1 with
           | [] => [(false, [a])]
           | b :: l2 =>
               if space2 a b then (true, [a; b]) :: units l2
               else match l2 with
                    | [] => (false, [a]) :: units l1
                    | c :: l3 =>
                        if space3 a b c then (true, [a; b; c]) :: units l3
                        else (false, [a]) :: units l1
                    end
           end
  end.
Definition text_of (us : list (bool * list ascii)) : list ascii := us.*2 ≫= id.
Definition trim_units (us : list (bool * list ascii)) : list (bool * list ascii) :=
  reverse (drop_while fst (reverse (drop_while fst us))).
Definition trim_chars (l : list ascii) : list ascii := text_of (trim_units (units l)).
(** [s.trim()] *)
Definition trim (s : string) : string := of_chars (trim_chars (chars s)).

(** Printable characters other than the space: white space of no kind. *)
Definition plain (c : ascii) : bool := in_range 33 126 c.

Lemma units_plain c l : plain c = true → units (c :: l) = (false, [c]) :: units l.
Proof.
  unfold plain, in_range. intros Hc. cbn [units].
  assert (is_space c = false) as -> by (unfold is_space, in_range; lia).
  destruct l as [|b l]; [done|].
  assert (space2 c b = false) as -> by (unfold space2; lia).
  destruct l as [|d l]; [done|].
  assert (space3 c b d = false) as ->; [|done].
  unfold space3. destruct (code c) as [|p|p] eqn:He; try done.
  assert (p ≠ 225 ∧ p ≠ 226 ∧ p ≠ 227 ∧ p ≠ 239)%positive as Hp by lia. clear -Hp.
  by repeat (destruct p as [p|p|]; try (by exfalso; lia); try done).
Qed.

Lemma text_of_cons u us : text_of (u :: us) = u.2 ++ text_of us.
Proof. done. Qed.

Lemma text_of_units l : text_of (units l) = l.
Proof.
  remember (length l) as n eqn:Hn. revert l Hn.
  induction n as [n IH] using lt_wf_ind. intros l ->.
  assert (Hrec : ∀ l', (length l' < length l)%nat → text_of (units l') = l') by eauto.
  destruct l as [|a l1]; [done|]. cbn [units].
  destruct (is_space a); [by rewrite text_of_cons, Hrec by (simpl; lia)|].
  destruct l1 as [|b l2]; [done|].
  destruct (space2 a b); [by rewrite text_of_cons, Hrec by (simpl; lia)|].
  destruct l2 as [|c l3]; [by rewrite text_of_cons, Hrec by (simpl; lia)|].
  destruct (space3 a b c); rewrite text_of_cons, Hrec by (simpl; lia); done.
Qed.

Lemma units_all_plain l : forallb plain l = true → units l = (λ c, (false, [c])) <$> l.
Proof.
  induction l as [|c l IH]; [done|]. cbn [forallb]. intros [Hc Hl]%andb_true_iff.
  by rewrite units_plain, IH by done.
Qed.
Lemma drop_while_none {A} (p : A → bool) l : forallb (λ x, negb (p x)) l = true → drop_while p l = l.
Proof. destruct l as [|x l]; [done|]. simpl. by destruct (p x). Qed.

(** [trim] leaves a text without white space alone. *)
Lemma trim_plain s : forallb plain (chars s) = true → trim s = s.
Proof.
  intros Hs. unfold trim, trim_chars, trim_units. rewrite units_all_plain by done.
  assert (Hf : ∀ l : list ascii, forallb (λ u : bool * list ascii, negb u.1) ((λ c, (false, [c])) <$> l) = true)
    by (induction l; done).
  rewrite (drop_while_none fst (_ <$> chars s)) by apply Hf.
  rewrite <-fmap_reverse, drop_while_none by apply Hf.
  rewrite <-fmap_reverse, reverse_involutive, <-units_all_plain, text_of_units by done.
  apply of_chars_chars.
Qed.

Lemma split_chars_last sep l : sep ∉ l → split_chars sep l = [l].
Proof.
  induction l as [|c l IH]; [done|]. intros [Hc Hl]%not_elem_of_cons. simpl.
  by rewrite decide_False, IH by congruence.
Qed.
Lemma split_chars_app sep l r : sep ∉ l → split_chars sep (l ++ sep :: r) = l :: split_chars sep r.
Proof.
  induction l as [|c l IH]; simpl; [by rewrite decide_True|]. intros [Hc Hl]%not_elem_of_cons.
  by rewrite decide_False, IH by congruence.
Qed.

Lemma filter_all {A} (P : A → Prop) `{!∀ x, Decision (P x)} (l : list A) : (∀ x, x ∈ l → P x) → filter P l = l.
Proof.
  induction l as [|x l IH]; intros Hp; [done|]. rewrite filter_cons_True by (apply Hp; left).
  f_equal. apply IH. intros y Hy. apply Hp. by right.
Qed.
Lemma filter_none {A} (P : A → Prop) `{!∀ x, Decision (P x)} (l : list A) : (∀ x, x ∈ l → ¬ P x) → filter P l = [].
Proof.
  induction l as [|x l IH]; intros Hp; [done|]. rewrite filter_cons_False by (apply Hp; left).
  apply IH. intros y Hy. apply Hp. by right.
Qed.

(** [l.slice(lo, hi)] for whole numbers: a position from the end when negative,
    within the list. *)
Definition slice_position (n z : Z) : Z := if z <? 0 then Z.max 0 (n + z) else Z.min n z.
Definition slice_Z {A} (lo hi : Z) (l : list A) : list A :=
  let n := Z.of_nat (length l) in
  take (Z.to_nat (slice_position n hi - slice_position n lo)) (drop (Z.to_nat (slice_position n lo)) l).
Lemma slice_Z_window {A} lo n (l : list A) : 0 <= lo → 0 <= n → slice_Z lo (lo + n) l = take (Z.to_nat n) (drop (Z.to_nat lo) l).
Proof.
  intros Hlo Hn. unfold slice_Z, slice_position. destruct (Z.ltb_spec lo 0), (Z.ltb_spec (lo + n) 0); try lia.
  set (len := Z.of_nat (length l)). destruct (decide (lo <= len)) as [Hl|Hl].
  - rewrite (Z.min_r len lo) by lia. destruct (decide (lo + n <= len)).
    + rewrite Z.min_r by lia. by replace (lo + n - lo) with n by lia.
    + rewrite Z.min_l by lia. rewrite !take_ge; [done|rewrite length_drop; unfold len in *; lia..].
  - rewrite !drop_ge by (unfold len in *; lia). by rewrite !take_nil.
Qed.
Lemma pages_cover {A} (l : list A) k n : (0 < k)%nat → (length l ≤ n * k)%nat → mjoin ((λ i, take k (drop (i * k) l)) <$> seq 0 n) = l.
Proof.
  intros Hk. revert l. induction n as [|n IH]; intros l Hl; [by destruct l; [|simpl in Hl; lia]|].
  cbn [seq fmap list_fmap]. change (mjoin (?x :: ?xs)) with (x ++ mjoin xs). rewrite drop_0.
  rewrite <-(take_drop k l) at 2. f_equal. rewrite <-(IH (drop k l)) by (rewrite length_drop; lia).
  rewrite <-fmap_S_seq, <-list_fmap_compose. f_equal. apply list_fmap_ext. intros i x _. cbn. by rewrite drop_drop.
Qed.

Definition lower_char (c : ascii) : ascii := if is_upper c then chr (code c + 32) else c.
(** [s.toLowerCase()] *)
Definition to_lower (s : string) : string := of_chars (lower_char <$> chars s).

(** [s.startsWith(p)] *)
Definition starts_with (p s : string) : bool := String.prefix p s.

(** [raw.split(",").map((x) => x.trim()).filter(Boolean)] *)
Definition comma_list (raw : string) : list string :=
  filter (λ x, truthy x = true) (trim <$> split_on "," raw).

(** ** JavaScript numbers

    Every number the modelled code computes with is an integer well inside the
    53-bit range (ledger sequences, counters, milliseconds), or [NaN], which
    [parseInt] and [Number] return on text that is not a number. *)
Definition number := option Z.
Definition NaN : number := None.

(** A comparison with [NaN] is false. *)
Definition num_test (p : Z → bool) (n : number) : bool :=
  match n with Some z => p z | None => false end.

Fixpoint digits_value (acc : Z) (l : list ascii) : Z :=
  match l with
  | [] => acc
  | c :: l' => digits_value (acc * 10 + (code c - 48)) l'
  end.
Fixpoint take_while {A} (p : A → bool) (l : list A) : list A :=
  match l with
  | [] => []
  | x :: l' => if p x then x :: take_while p l' else []
  end.
Definition parse_digits (l : list ascii) : number :=
  match take_while is_digit l with
  | [] => NaN
  | ds => Some (digits_value 0 ds)
  end.
(** [parseInt(s, 10)]: leading space, an optional sign, then the longest run
    of digits; whatever follows is ignored. *)
Definition parse_int (s : string) : number :=
  match text_of (drop_while fst (units (chars s))) with
  | c :: l =>
      if decide (c = "-"%char) then Z.opp <$> parse_digits l
      else if decide (c = "+"%char) then parse_digits l
      else parse_digits (c :: l)
  | [] => NaN
  end.

Example parse_int_prefix : parse_int " -12px" = Some (-12).
Proof. reflexivity. Qed.
Example comma_list_example : comma_list " a, ,b ,,c" = ["a"; "b"; "c"].
Proof. reflexivity. Qed.

(** [/^G[A-Z2-7]{55}$/] and [/^C[A-Z2-7]{55}$/] *)
Definition strkey_re (c : ascii) (s : string) : bool :=
  match chars s with
  | c0 :: l => bool_decide (c0 = c) && bool_decide (length l = 55%nat) && forallb is_base32 l
  | [] => false
  end.
Definition stellar_address_re : string → bool := strkey_re "G".
Definition contract_address_re : string → bool := strkey_re "C".

(** [lia] on goals with [/] and [mod] by constants. *)
Ltac dm_lia := Z.to_euclidean_division_equations; lia.

(** ** Texts put together *)

Lemma string_app_chars s t : chars (s +:+ t) = chars s ++ chars t.
Proof. unfold chars. induction s as [|c s IH]; simpl; [done|]. by rewrite <-IH. Qed.

(** Joining texts without the separator can be undone. *)
Lemma split_on_concat c l : l ≠ [] → Forall (λ s, c ∉ chars s) l → split_on c (String.concat (String c "") l) = l.
Proof.
  induction l as [|x [|y l] IH]; [done| |]; intros _ [Hx Hl]%Forall_cons.
  - simpl. unfold split_on. rewrite split_chars_last by done. simpl. by rewrite of_chars_chars.
  - assert (Hc : chars (String.concat (String c "") (x :: y :: l)) = chars x ++ c :: chars (String.concat (String c "") (y :: l))).
    { change (String.concat (String c "") (x :: y :: l)) with (x +:+ String c "" +:+ String.concat (String c "") (y :: l)).
      by rewrite !string_app_chars. }
    unfold split_on in *. rewrite Hc, split_chars_app by done. cbn [fmap list_fmap]. rewrite of_chars_chars. f_equal. by apply IH.
Qed.
Lemma text_assoc (a b c : string) : a +:+ b +:+ c = (a +:+ b) +:+ c.
Proof. rewrite <-(of_chars_chars ((a +:+ b) +:+ c)), <-(of_chars_chars (a +:+ b +:+ c)), !string_app_chars. by rewrite app_assoc. Qed.
Lemma starts_with_app p s : starts_with p (p +:+ s) = true.
Proof.
  unfold starts_with. induction p as [|c p IH]; [by destruct s|].
  change (String c p +:+ s) with (String c (p +:+ s)). simpl. destruct (ascii_dec c c); [apply IH|done].
Qed.
Lemma string_app_inj_l a b c : a +:+ b = a +:+ c → b = c.
Proof. intros H. apply (f_equal chars) in H. rewrite !string_app_chars in H. apply (inj (app (chars a))), (f_equal of_chars) in H. by rewrite !of_chars_chars in H. Qed.
Lemma string_app_inj_r a b c : b +:+ a = c +:+ a → b = c.
Proof. intros H. apply (f_equal chars) in H. rewrite !string_app_chars in H. apply app_inv_tail, (f_equal of_chars) in H. by rewrite !of_chars_chars in H. Qed.

(** ** Integers of a database *)

(** [bigint] *)
Definition fits_bigint (z : Z) : bool := (-2 ^ 63 <=? z)%Z && (z <? 2 ^ 63)%Z.
Definition sum_Z (l : list Z) : Z := foldr Z.add 0%Z l.
