(* ===== verification/Bytes.v ===== *)
(** * Node buffers

    The part of Node's [Buffer] the indexers use: [Buffer.from(s, "base64")],
    big-endian integer reads, [subarray] and [toString("utf8")].  A buffer is a
    list of bytes, each a [Z] between 0 and 255. *)
From S2P Require Import Prelude.

Abbreviation buffer := (list Z).
Definition is_byte (b : Z) : Prop := 0 <= b < 256.

Definition buf_length (b : buffer) : Z := Z.of_nat (length b).
(** [buf.subarray(lo)] and [buf.subarray(lo, hi)] for [0 <= lo <= hi]. *)
Definition subarray_from (lo : Z) (b : buffer) : buffer := drop (Z.to_nat lo) b.
Definition subarray (lo hi : Z) (b : buffer) : buffer :=
  take (Z.to_nat (hi - lo)) (drop (Z.to_nat lo) b).

(** ** Base 64 *)

(** Both the standard and the URL-safe alphabet are accepted. *)
Definition sextet (c : ascii) : option Z :=
  let n := code c in
  if in_range 65 90 c then Some (n - 65)
  else if in_range 97 122 c then Some (n - 71)
  else if in_range 48 57 c then Some (n + 4)
  else if (n =? 43) || (n =? 45) then Some 62
  else if (n =? 47) || (n =? 95) then Some 63
  else None.

Fixpoint join_sextets (l : list Z) : buffer :=
  match l with
  | a :: b :: c :: d :: l' =>
      (a * 4 + b / 16) :: (b mod 16 * 16 + c / 4) :: (c mod 4 * 64 + d) :: join_sextets l'
  | [a; b; c] => [a * 4 + b / 16; b mod 16 * 16 + c / 4]
  | [a; b] => [a * 4 + b / 16]
  | _ => []
  end.

(** [Buffer.from(s, "base64")]: characters outside the alphabet (padding,
    white space, stray bytes) are skipped, and a last group that does not fill
    a byte is dropped. *)
Definition from_base64 (s : string) : buffer := join_sextets (omap sextet (chars s)).

Definition base64_char (n : Z) : ascii :=
  if n <? 26 then chr (n + 65)
  else if n <? 52 then chr (n + 71)
  else if n <? 62 then chr (n - 4)
  else if n =? 62 then chr 43 else chr 47.

Fixpoint split_bytes (b : buffer) : list ascii :=
  match b with
  | x :: y :: z :: b' =>
      base64_char (x / 4) :: base64_char (x mod 4 * 16 + y / 16) ::
      base64_char (y mod 16 * 4 + z / 64) :: base64_char (z mod 64) :: split_bytes b'
  | [x; y] =>
      [base64_char (x / 4); base64_char (x mod 4 * 16 + y / 16);
       base64_char (y mod 16 * 4); "="%char]
  | [x] => [base64_char (x / 4); base64_char (x mod 4 * 16); "="%char; "="%char]
  | [] => []
  end.
(** [buf.toString("base64")], the encoding the events arrive in. *)
Definition to_base64 (b : buffer) : string := of_chars (split_bytes b).

Lemma sextet_base64_char n : 0 <= n < 64 → sextet (base64_char n) = Some n.
Proof.
  intros Hn.
  assert (Hall : forallb (λ k, bool_decide (sextet (base64_char (Z.of_nat k)) = Some (Z.of_nat k)))
                   (seq 0 64) = true) by (vm_compute; reflexivity).
  rewrite forallb_forall in Hall.
  specialize (Hall (Z.to_nat n)). rewrite in_seq in Hall.
  specialize (Hall ltac:(lia)). apply bool_decide_eq_true in Hall.
  by rewrite Z2Nat.id in Hall by lia.
Qed.

Lemma sextet_padding : sextet "="%char = None.
Proof. reflexivity. Qed.

Ltac byte_bounds :=
  repeat match goal with
  | H : Forall is_byte (_ :: _) |- _ => inversion_clear H
  | H : is_byte _ |- _ => unfold is_byte in H
  end.

(** Induction three bytes at a time, the way base 64 groups them. *)
Lemma buffer_ind3 (P : buffer → Prop) :
  P [] → (∀ x, P [x]) → (∀ x y, P [x; y]) →
  (∀ x y z b, P b → P (x :: y :: z :: b)) → ∀ b, P b.
Proof.
  intros H0 H1 H2 H3. fix IH 1. intros [|x [|y [|z b]]]; [done|done|done|].
  apply H3, IH.
Qed.

Lemma from_to_base64 b : Forall is_byte b → from_base64 (to_base64 b) = b.
Proof.
  unfold from_base64, to_base64. rewrite chars_of_chars.
  induction b as [|x|x y|x y z b IH] using buffer_ind3; intros Hb; byte_bounds;
    [done| | |]; simpl; rewrite ?sextet_padding, !sextet_base64_char by dm_lia; simpl.
  - f_equal; dm_lia.
  - repeat f_equal; dm_lia.
  - do 3 (f_equal; [dm_lia|]). by apply IH.
Qed.

(** ** Big-endian integers *)

Definition big_endian (b : buffer) : Z := fold_left (λ acc x, acc * 256 + x) b 0.

(** The reads throw a [RangeError] ([None]) when the buffer is too short. *)
Definition read_be (n off : Z) (b : buffer) : option Z :=
  if (0 <=? off) && (off + n <=? buf_length b)
  then Some (big_endian (subarray off (off + n) b)) else None.

Definition readUInt32BE (off : Z) (b : buffer) : option Z := read_be 4 off b.
Definition readBigUInt64BE (off : Z) (b : buffer) : option Z := read_be 8 off b.
(** Two's complement on 64 bits. *)
Definition readBigInt64BE (off : Z) (b : buffer) : option Z :=
  (λ u, if u <? 2 ^ 63 then u else u - 2 ^ 64) <$> read_be 8 off b.

(** [n] bytes of [z] in two's complement, most significant first. *)
Fixpoint to_big_endian (n : nat) (z : Z) : buffer :=
  match n with
  | O => []
  | S n' => to_big_endian n' (z / 256) ++ [z mod 256]
  end.

Lemma to_big_endian_bytes n z : Forall is_byte (to_big_endian n z).
Proof.
  revert z. induction n as [|n IH]; intros z; simpl; [done|].
  apply Forall_app. split; [done|]. constructor; [|done].
  apply Z.mod_pos_bound. lia.
Qed.

Lemma length_to_big_endian n z : length (to_big_endian n z) = n.
Proof. revert z. induction n; intros; simpl; rewrite ?length_app, ?IHn; simpl; lia. Qed.

Lemma big_endian_snoc b x : big_endian (b ++ [x]) = big_endian b * 256 + x.
Proof. unfold big_endian. by rewrite fold_left_app. Qed.

Lemma big_endian_to_big_endian n z :
  big_endian (to_big_endian n z) = z mod 256 ^ Z.of_nat n.
Proof.
  revert z. induction n as [|n IH]; intros z.
  - simpl. by rewrite Z.mod_1_r.
  - cbn [to_big_endian]. rewrite big_endian_snoc, IH.
    rewrite Nat2Z.inj_succ, Z.pow_succ_r by lia.
    rewrite Z.rem_mul_r by lia. lia.
Qed.

Lemma to_big_endian_big_endian b : Forall is_byte b → to_big_endian (length b) (big_endian b) = b.
Proof.
  induction b as [|x b IH] using rev_ind; [done|]. intros [Hb Hx]%Forall_app.
  rewrite Forall_singleton in Hx. unfold is_byte in Hx.
  rewrite length_app, Nat.add_1_r, big_endian_snoc. cbn [to_big_endian].
  replace ((big_endian b * 256 + x) / 256) with (big_endian b) by dm_lia.
  replace ((big_endian b * 256 + x) mod 256) with x by dm_lia. by rewrite IH.
Qed.

Lemma subarray_app_r b1 b2 lo hi :
  lo = buf_length b1 → hi = lo + buf_length b2 → subarray lo hi (b1 ++ b2) = b2.
Proof.
  unfold subarray, buf_length. intros -> ->.
  rewrite Nat2Z.id, drop_app_length. apply take_ge. lia.
Qed.

Lemma subarray_app_l b1 b2 lo hi :
  0 <= lo → hi <= buf_length b1 → subarray lo hi (b1 ++ b2) = subarray lo hi b1.
Proof.
  unfold subarray, buf_length. intros Hlo Hhi.
  destruct (decide (lo <= hi)).
  - rewrite drop_app_le by lia. rewrite take_app_le; [done|].
    rewrite length_drop. lia.
  - replace (Z.to_nat (hi - lo)) with 0%nat by lia. by rewrite !take_0.
Qed.

(** ** [buf.toString("utf8")]

    The WHATWG decoder, folded over the bytes: [needed] continuation bytes
    still missing, the admissible range of the next one, and the bytes of the
    sequence read so far.  A malformed sequence becomes one U+FFFD and the
    offending byte is read again. *)
Record utf8_state := Utf8 {
  u_needed : Z; u_lower : Z; u_upper : Z; u_pending : list Z }.

Definition utf8_start : utf8_state := Utf8 0 128 191 [].
Definition replacement : list Z := [239; 191; 189].

Definition utf8_first (b : Z) : utf8_state * list Z :=
  let within lo hi := (lo <=? b) && (b <=? hi) in
  if b <=? 127 then (utf8_start, [b])
  else if within 194 223 then (Utf8 1 128 191 [b], [])
  else if within 224 239 then
    (Utf8 2 (if b =? 224 then 160 else 128) (if b =? 237 then 159 else 191) [b], [])
  else if within 240 244 then
    (Utf8 3 (if b =? 240 then 144 else 128) (if b =? 244 then 143 else 191) [b], [])
  else (utf8_start, replacement).

Definition utf8_step (st : utf8_state) (b : Z) : utf8_state * list Z :=
  if u_needed st =? 0 then utf8_first b
  else if (u_lower st <=? b) && (b <=? u_upper st) then
    if u_needed st =? 1 then (utf8_start, u_pending st ++ [b])
    else (Utf8 (u_needed st - 1) 128 191 (u_pending st ++ [b]), [])
  else let '(st', out) := utf8_first b in (st', replacement ++ out).

Fixpoint utf8_run (st : utf8_state) (b : buffer) : list Z :=
  match b with
  | [] => if u_needed st =? 0 then [] else replacement
  | x :: b' => let '(st', out) := utf8_step st x in out ++ utf8_run st' b'
  end.

Definition bytes_string (b : buffer) : string := of_chars (chr <$> b).
Definition to_utf8 (b : buffer) : string := bytes_string (utf8_run utf8_start b).

Definition string_bytes (s : string) : buffer := code <$> chars s.

Definition is_ascii_char (c : ascii) : Prop := code c < 128.

Lemma utf8_run_ascii b : Forall (λ x, 0 <= x < 128) b → utf8_run utf8_start b = b.
Proof.
  induction 1 as [|x b Hx Hb IH]; [done|]. simpl.
  unfold utf8_step, utf8_first. simpl.
  destruct (Z.leb_spec x 127); [|lia]. by rewrite IH.
Qed.

Lemma to_utf8_ascii s : Forall is_ascii_char (chars s) → to_utf8 (string_bytes s) = s.
Proof.
  intros Hs. unfold to_utf8, string_bytes, bytes_string.
  rewrite utf8_run_ascii.
  - rewrite <-list_fmap_compose. rewrite (list_fmap_ext _ id).
    + by rewrite list_fmap_id, of_chars_chars.
    + intros. apply chr_code.
  - apply Forall_fmap. eapply Forall_impl; [done|]. intros c. unfold is_ascii_char.
    simpl. pose proof (code_range c). lia.
Qed.

(** [s.replace(/[^\x20-\x7e]/g, "")] *)
Definition strip_nonprintable (s : string) : string :=
  of_chars (filter (λ c, in_range 32 126 c = true) (chars s)).
(** [s.replace(/\0/g, "")] *)
Definition strip_nul (s : string) : string :=
  of_chars (filter (λ c, code c ≠ 0) (chars s)).

(** ** Bounds and concatenation *)

Lemma sextet_bounds c n : sextet c = Some n → 0 <= n < 64.
Proof.
  unfold sextet, in_range. pose proof (code_range c).
  repeat case_match; intros; simplify_eq; lia.
Qed.

Lemma join_sextets_bytes l : Forall (λ n, 0 <= n < 64) l → Forall is_byte (join_sextets l).
Proof.
  revert l. fix IH 1. intros [|a [|b [|c [|d l]]]] Hl; simpl; try done.
  - inversion_clear Hl as [|?? Ha Hl']. inversion_clear Hl'.
    repeat constructor; dm_lia.
  - inversion_clear Hl as [|?? Ha Hl']. inversion_clear Hl' as [|?? Hb Hl''].
    inversion_clear Hl''. repeat constructor; dm_lia.
  - inversion_clear Hl as [|?? Ha Hl']. inversion_clear Hl' as [|?? Hb Hl''].
    inversion_clear Hl'' as [|?? Hc Hl3]. inversion_clear Hl3 as [|?? Hd Hl4].
    do 3 (constructor; [unfold is_byte; dm_lia|]). by apply IH.
Qed.

Lemma from_base64_bytes s : Forall is_byte (from_base64 s).
Proof.
  apply join_sextets_bytes. apply Forall_forall. intros n Hn.
  apply list_elem_of_omap in Hn as (c & _ & Hc). by eapply sextet_bounds.
Qed.

Lemma big_endian_bounds b :
  Forall is_byte b → 0 <= big_endian b < 256 ^ buf_length b.
Proof.
  unfold buf_length. induction b as [|x b IH] using rev_ind; intros Hb; [done|].
  apply Forall_app in Hb as [Hb Hx]. inversion_clear Hx as [|?? Hx' _].
  specialize (IH Hb). unfold is_byte in Hx'.
  rewrite big_endian_snoc, length_app, Nat.add_comm. simpl length.
  rewrite Nat2Z.inj_succ, Z.pow_succ_r by lia. nia.
Qed.

Lemma subarray_bytes lo hi b : Forall is_byte b → Forall is_byte (subarray lo hi b).
Proof. intros. by apply Forall_take, Forall_drop. Qed.

Lemma read_be_bounds n off b z :
  0 <= n → Forall is_byte b → read_be n off b = Some z → 0 <= z < 256 ^ n.
Proof.
  unfold read_be. intros Hn Hb Hr. case_match eqn:Hc; simplify_eq.
  apply andb_true_iff in Hc as [H1 H2].
  apply Z.leb_le in H1, H2.
  pose proof (big_endian_bounds (subarray off (off + n) b) (subarray_bytes _ _ _ Hb)) as Hbe.
  replace (buf_length (subarray off (off + n) b)) with n in Hbe; [done|].
  unfold subarray, buf_length in *. rewrite length_take, length_drop. lia.
Qed.

Lemma buf_length_app b1 b2 : buf_length (b1 ++ b2) = buf_length b1 + buf_length b2.
Proof. unfold buf_length. rewrite length_app. lia. Qed.

Lemma read_be_middle n off b1 b2 b3 :
  off = buf_length b1 → buf_length b2 = n →
  read_be n off (b1 ++ b2 ++ b3) = Some (big_endian b2).
Proof.
  intros -> Hn. unfold read_be. rewrite !buf_length_app.
  assert (0 <= buf_length b1 ∧ 0 <= buf_length b3) as [? ?] by (unfold buf_length; lia).
  destruct (Z.leb_spec 0 (buf_length b1)); [|lia].
  destruct (Z.leb_spec (buf_length b1 + n) (buf_length b1 + (buf_length b2 + buf_length b3)));
    [simpl|lia].
  do 2 f_equal. rewrite (assoc_L (++)), subarray_app_l; [|lia|rewrite buf_length_app; lia].
  apply subarray_app_r; lia.
Qed.

Lemma to_big_endian_app n m z :
  to_big_endian (n + m) z = to_big_endian n (z / 256 ^ Z.of_nat m) ++ to_big_endian m z.
Proof.
  revert z. induction m as [|m IH]; intros z.
  - simpl. by rewrite Nat.add_0_r, Z.div_1_r, app_nil_r.
  - rewrite Nat.add_succ_r. cbn [to_big_endian]. rewrite IH, (assoc_L (++)). do 2 f_equal.
    rewrite Nat2Z.inj_succ, Z.pow_succ_r by lia.
    rewrite Z.div_div by lia. done.
Qed.

(** Gluing a signed high word and an unsigned low word. *)
Lemma lor_shiftl_add hi lo n :
  0 <= n → 0 <= lo < 2 ^ n → Z.lor (Z.shiftl hi n) lo = hi * 2 ^ n + lo.
Proof.
  intros Hn Hlo. rewrite <-Z.shiftl_mul_pow2 by done.
  rewrite <-Z.lxor_lor, Z.add_nocarry_lxor; [done|..];
    apply Z.bits_inj'; intros i Hi; rewrite Z.land_spec, Z.bits_0, Z.shiftl_spec by done;
    (destruct (decide (i < n)); [by rewrite Z.testbit_neg_r by lia|]);
    rewrite (proj1 (Z.bounded_iff_bits_nonneg n lo ltac:(lia) ltac:(lia))) by lia;
    apply andb_false_r.
Qed.

Lemma to_base64_nonempty b : b ≠ [] → truthy (to_base64 b) = true.
Proof. unfold truthy. by destruct b as [|x [|y [|z b]]]. Qed.
