(* ===== verification/UrlText.v ===== *)
(** * Text in URLs

    [encodeURIComponent] and [decodeURIComponent], and the
    [application/x-www-form-urlencoded] text of [URLSearchParams], written and
    read, with their round trips. *)
From S2P Require Import Prelude Bytes.

(** ** Percent encoding *)

Definition hex_digit (z : Z) : ascii := chr (if z <? 10 then 48 + z else 55 + z).
Definition percent (c : ascii) : list ascii := ["%"%char; hex_digit (code c / 16); hex_digit (code c mod 16)].
Definition hex_value (c : ascii) : option Z :=
  if is_digit c then Some (code c - 48)
  else if in_range 65 70 c then Some (code c - 55)
  else if in_range 97 102 c then Some (code c - 87)
  else None.
Fixpoint percent_decode (l : list ascii) : option (list ascii) :=
  match l with
  | [] => Some []
  | c :: l' =>
      if decide (c = "%"%char) then
        match l' with
        | a :: b :: l'' =>
            x ← hex_value a; y ← hex_value b; r ← percent_decode l''; Some (chr (x * 16 + y) :: r)
        | _ => None
        end
      else r ← percent_decode l'; Some (c :: r)
  end.
Definition tail_byte (lo hi : Z) (c : ascii) : bool := in_range lo hi c.
Fixpoint valid_utf8 (l : list ascii) : bool :=
  match l with
  | [] => true
  | c :: l' =>
      if code c <? 128 then valid_utf8 l'
      else if in_range 194 223 c then
        match l' with a :: l'' => tail_byte 128 191 a && valid_utf8 l'' | _ => false end
      else if in_range 224 239 c then
        match l' with
        | a :: b :: l'' =>
            tail_byte (if code c =? 224 then 160 else 128) (if code c =? 237 then 159 else 191) a
            && tail_byte 128 191 b && valid_utf8 l''
        | _ => false
        end
      else if in_range 240 244 c then
        match l' with
        | a :: b :: d :: l'' =>
            tail_byte (if code c =? 240 then 144 else 128) (if code c =? 244 then 143 else 191) a
            && tail_byte 128 191 b && tail_byte 128 191 d && valid_utf8 l''
        | _ => false
        end
      else false
  end.
(** [decodeURIComponent]: [None] when it throws [URIError]. *)
Definition decodeURIComponent (s : string) : option string :=
  l ← percent_decode (chars s); if valid_utf8 l then Some (of_chars l) else None.

Definition uri_safe (c : ascii) : bool :=
  is_digit c || is_upper c || in_range 97 122 c || bool_decide (c ∈ chars "-_.!~*'()").
Definition uri_char (c : ascii) : list ascii := if uri_safe c then [c] else percent c.
(** [encodeURIComponent] *)
Definition encodeURIComponent (s : string) : string := of_chars (chars s ≫= uri_char).

(** ** Form data *)

(** The [application/x-www-form-urlencoded] serializer of [URLSearchParams]. *)
Definition form_safe (c : ascii) : bool :=
  is_digit c || is_upper c || in_range 97 122 c ||
  bool_decide (c = "*"%char) || bool_decide (c = "-"%char) || bool_decide (c = "."%char) ||
  bool_decide (c = "_"%char).
Definition form_char (c : ascii) : list ascii :=
  if form_safe c then [c]
  else if decide (c = " "%char) then ["+"%char]
  else percent c.
Definition form_encode (s : string) : string := of_chars (chars s ≫= form_char).
Fixpoint form_pairs (ps : list (string * string)) : string :=
  match ps with
  | [] => ""
  | [(k, v)] => form_encode k +:+ "=" +:+ form_encode v
  | (k, v) :: ps' => form_encode k +:+ "=" +:+ form_encode v +:+ "&" +:+ form_pairs ps'
  end.

(** Its parser: pairs at the ampersands, a plus sign is a space, and a percent
    sign without two digits stays. *)
Fixpoint percent_bytes (l : list ascii) : list ascii :=
  match l with
  | [] => []
  | c :: l' =>
      if decide (c = "%"%char) then
        match l' with
        | a :: b :: l'' =>
            match hex_value a, hex_value b with
            | Some x, Some y => chr (x * 16 + y) :: percent_bytes l''
            | _, _ => c :: percent_bytes l'
            end
        | _ => c :: percent_bytes l'
        end
      else c :: percent_bytes l'
  end.
Definition unplus (c : ascii) : ascii := if decide (c = "+"%char) then " "%char else c.
Definition form_decode (l : list ascii) : string := to_utf8 (code <$> percent_bytes (unplus <$> l)).
Definition form_pair (l : list ascii) : string * string :=
  match list_find ("="%char =.) l with
  | Some (i, _) => (form_decode (take i l), form_decode (drop (S i) l))
  | None => (form_decode l, "")
  end.
Definition parse_form (s : string) : list (string * string) :=
  form_pair ∘ chars <$> filter (λ p, truthy p = true) (split_on "&" s).

(** [URLSearchParams], in order, and [get]. *)
Definition search := list (string * string).
Definition sp_get (k : string) (sp : search) : option string :=
  (λ x : nat * (string * string), x.2.2) <$> list_find (λ kv : string * string, kv.1 = k) sp.

(** The length of a JavaScript string in UTF-16 units, from its UTF-8 bytes. *)
Definition units16 (c : ascii) : Z :=
  if code c <? 128 then 1 else if code c <? 192 then 0 else if code c <? 240 then 1 else 2.
Definition utf16_length (s : string) : Z := sum_Z (units16 <$> chars s).

(** ** Round trips *)

Lemma percent_decode_uri c l : percent_decode (uri_char c ++ l) = (c ::.) <$> percent_decode l.
Proof. destruct c as [[] [] [] [] [] [] [] []]; reflexivity. Qed.
Lemma decode_encodeURIComponent s : valid_utf8 (chars s) = true → decodeURIComponent (encodeURIComponent s) = Some s.
Proof.
  intros Hs. unfold decodeURIComponent, encodeURIComponent. rewrite chars_of_chars.
  assert (percent_decode (chars s ≫= uri_char) = Some (chars s)) as ->.
  { clear Hs. generalize (chars s). intros l. induction l as [|c l IH]; [done|]. by rewrite bind_cons, percent_decode_uri, IH. }
  cbn [mbind option_bind]. by rewrite Hs, of_chars_chars.
Qed.
(** What is encoded cannot be taken for the syntax of a URL. *)
Lemma encodeURIComponent_chars s : Forall (λ c, uri_safe c = true ∨ c = "%"%char) (chars (encodeURIComponent s)).
Proof.
  unfold encodeURIComponent. rewrite chars_of_chars. induction (chars s) as [|c l IH]; [constructor|].
  rewrite bind_cons, Forall_app. split; [clear IH|done].
  destruct c as [[] [] [] [] [] [] [] []]; repeat (apply Forall_cons_2; [first [by left|by right]|]); apply Forall_nil_2.
Qed.

Lemma form_char_decode c l : percent_bytes (unplus <$> form_char c ++ l) = c :: percent_bytes (unplus <$> l).
Proof. destruct c as [[] [] [] [] [] [] [] []]; reflexivity. Qed.
Lemma form_char_plain c x : x ∈ form_char c → x ≠ "&"%char ∧ x ≠ "="%char.
Proof.
  assert (H : forallb (λ y, negb (bool_decide (y = "&"%char)) && negb (bool_decide (y = "="%char))) (form_char c) = true)
    by (destruct c as [[] [] [] [] [] [] [] []]; reflexivity).
  rewrite forallb_forall in H. intros Hx%list_elem_of_In%H. apply andb_true_iff in Hx as [H1 H2].
  by rewrite negb_true_iff, bool_decide_eq_false in H1, H2.
Qed.
Lemma form_encode_plain s x : x ∈ chars (form_encode s) → x ≠ "&"%char ∧ x ≠ "="%char.
Proof. unfold form_encode. rewrite chars_of_chars. intros (c & Hx & _)%list_elem_of_bind. by eapply form_char_plain. Qed.
(** A text that decoding leaves alone: well-formed UTF-8. *)
Definition well_formed (s : string) : Prop := to_utf8 (string_bytes s) = s.
Lemma form_decode_encode s : well_formed s → form_decode (chars (form_encode s)) = s.
Proof.
  intros Hs. unfold form_decode, form_encode. rewrite chars_of_chars.
  assert (percent_bytes (unplus <$> (chars s ≫= form_char)) = chars s) as ->; [|done].
  generalize (chars s). intros l. induction l as [|c l IH]; [done|]. by rewrite bind_cons, form_char_decode, IH.
Qed.
Definition form_text (kv : string * string) : string := form_encode kv.1 +:+ "=" +:+ form_encode kv.2.
Lemma form_pairs_concat ps : form_pairs ps = String.concat "&" (form_text <$> ps).
Proof.
  induction ps as [|[k v] [|[k' v'] ps] IH]; [done|done|].
  change (form_pairs ((k, v) :: (k', v') :: ps)) with (form_encode k +:+ "=" +:+ form_encode v +:+ "&" +:+ form_pairs ((k', v') :: ps)).
  rewrite IH. cbn [fmap list_fmap String.concat]. unfold form_text. cbn [fst snd].
  by rewrite <-!text_assoc.
Qed.
Lemma form_pair_text kv : well_formed kv.1 → well_formed kv.2 → form_pair (chars (form_text kv)) = kv.
Proof.
  intros Hk Hv. destruct kv as [k v]. unfold form_pair, form_text. cbn [fst snd] in *. rewrite !string_app_chars.
  assert (list_find ("="%char =.) (chars (form_encode k) ++ chars "=" ++ chars (form_encode v)) = Some (length (chars (form_encode k)), "="%char)) as ->.
  { rewrite list_find_app_r; [done|]. apply list_find_None, Forall_forall. intros c Hc <-. by apply form_encode_plain in Hc as [_ ?]. }
  rewrite take_app_length, form_decode_encode by done. f_equal.
  change (chars "=" ++ chars (form_encode v)) with ("="%char :: chars (form_encode v)).
  rewrite drop_app, drop_ge by lia. replace (S (length (chars (form_encode k))) - length (chars (form_encode k)))%nat with 1%nat by lia.
  change ([] ++ drop 1 ("="%char :: chars (form_encode v))) with (chars (form_encode v)). by apply form_decode_encode.
Qed.
Lemma filter_texts l : Forall (λ s, truthy s = true) l → filter (λ s, truthy s = true) l = l.
Proof. induction 1 as [|s l Hs _ IH]; [done|]. by rewrite filter_cons, decide_True, IH. Qed.
(** What [URLSearchParams] writes, it reads. *)
Lemma parse_form_pairs ps : Forall (λ kv : string * string, well_formed kv.1 ∧ well_formed kv.2) ps → parse_form (form_pairs ps) = ps.
Proof.
  intros Hps. rewrite form_pairs_concat. unfold parse_form. destruct ps as [|kv ps]; [done|].
  change "&" with (String "&" ""). rewrite split_on_concat; [|done|].
  - rewrite filter_texts.
    + rewrite <-list_fmap_compose. etrans; [|apply list_fmap_id]. apply Forall_fmap_ext_1. eapply Forall_impl; [exact Hps|].
      intros x [Hk Hv]. by apply form_pair_text.
    + apply Forall_fmap, Forall_true. intros [k v]. apply bool_decide_eq_true. unfold form_text. cbn [fst snd].
      intros E. apply (f_equal chars) in E. rewrite !string_app_chars in E. by destruct (chars (form_encode k)).
  - apply Forall_fmap, Forall_true. intros [k v] Hin. unfold form_text in Hin. cbn [fst snd] in Hin.
    rewrite !string_app_chars, !elem_of_app in Hin. destruct Hin as [Hin|[Hin|Hin]].
    + by apply form_encode_plain in Hin as [? _].
    + apply list_elem_of_singleton in Hin. discriminate.
    + by apply form_encode_plain in Hin as [? _].
Qed.
