(* ===== verification/Decoder.v ===== *)
(** * The XDR event decoder

    [backend/src/indexer/decoder.ts] with the types of
    [backend/src/indexer/types.ts]: a raw Horizon event record becomes a
    [DecodedStreamEvent], or nothing when the record is not one of the five
    vesting events or has no recipient. *)
From S2P Require Import Prelude Bytes.

(** ** Types *)

Inductive StreamEventType :=
| StreamCreated | TokensClaimed | StreamCancelled | StreamClawedBack | StreamDrained.
#[global] Instance StreamEventType_eq_dec : EqDecision StreamEventType.
Proof. solve_decision. Defined.

(** [amount] is the decimal text of an i128, or [null]. *)
Record DecodedStreamEvent := Decoded {
  event_type : StreamEventType;
  recipient : string;
  sponsor : string;
  token : string;
  amount : option string;
  ledger_sequence : number;
  transaction_hash : string }.
#[global] Instance DecodedStreamEvent_eq_dec : EqDecision DecodedStreamEvent.
Proof. solve_decision. Defined.

(** The [ledger] field is a number in the declared type; the code also copes
    with a numeric string and with a missing field. *)
Inductive ledger_field := LedgerNumber (n : Z) | LedgerText (s : string) | LedgerMissing.

(** The [value] field: missing, an array whose non-string elements count as
    the empty string, an object with a string [xdr] field, an object with an
    array of [fields] (and no string [xdr]), or anything else. *)
Inductive event_value :=
| ValueMissing
| ValueArray (vs : list (option string))
| ValueXdr (xdr : string)
| ValueFields (fs : list string)
| ValueOther.

Record HorizonEventRecord := Record_ {
  rec_id : option string;
  rec_paging_token : option string;
  rec_ledger : ledger_field;
  rec_transaction_hash : option string;
  rec_topic : option (list string);
  rec_value : event_value }.

(** ** Symbols, addresses, integers *)

Definition SYMBOL_TO_EVENT_TYPE (s : string) : option StreamEventType :=
  if decide (s = "StreamCreated") then Some StreamCreated
  else if decide (s = "vc_claim") then Some TokensClaimed
  else if decide (s = "vc_cancel") then Some StreamCancelled
  else if decide (s = "vc_claw") then Some StreamClawedBack
  else if decide (s = "vc_drain") then Some StreamDrained
  else None.

Definition decodeSymbol (xdr : string) : string :=
  if negb (truthy xdr) then "" else
  let buf := from_base64 xdr in
  if buf_length buf <? 8 then trim (strip_nonprintable (to_utf8 buf)) else
  match readUInt32BE 4 buf with
  | None => xdr
  | Some len =>
      if (len =? 0) || (buf_length buf <? 8 + len)
      then trim (strip_nonprintable (to_utf8 (subarray_from 8 buf)))
      else to_utf8 (subarray 8 (8 + len) buf)
  end.

(** [/^[GC][A-Z0-9]{55}$/] *)
Definition strkey_like (s : string) : bool :=
  match chars s with
  | c0 :: l =>
      (bool_decide (c0 = "G"%char) || bool_decide (c0 = "C"%char)) &&
      bool_decide (length l = 55%nat) && forallb (λ c, is_upper c || is_digit c) l
  | [] => false
  end.

Definition decodeAddress (xdr : string) : string :=
  if negb (truthy xdr) then "" else if strkey_like xdr then xdr else xdr.

Definition decodeI128 (xdr : option string) : option string :=
  match xdr with
  | None => None
  | Some x =>
      if negb (truthy x) then None else
      let buf := from_base64 x in
      let at_offset hiOffset :=
        match readBigInt64BE hiOffset buf, readBigUInt64BE (hiOffset + 8) buf with
        | Some hi, Some lo => Some (Z_to_string (Z.lor (Z.shiftl hi 64) lo))
        | _, _ => None
        end in
      if buf_length buf =? 20 then at_offset 4
      else if buf_length buf =? 12 then at_offset 4
      else if 16 <=? buf_length buf then at_offset (buf_length buf - 16)
      else None
  end.

Definition extractValueXdrs (value : event_value) : list string :=
  match value with
  | ValueMissing => []
  | ValueArray vs => default "" <$> vs
  | ValueXdr xdr => [xdr]
  | ValueFields fs => fs
  | ValueOther => []
  end.

(** ** Per-event decoders *)

(** [xs[i] ?? ""] *)
Definition nth_or_empty (i : nat) (xs : list string) : string := default "" (xs !! i).

Definition decodeStreamCreated (topics values : list string) (ledger : number) (txHash : string)
    : option DecodedStreamEvent :=
  let sp := decodeAddress (nth_or_empty 1 topics) in
  let rc := decodeAddress (nth_or_empty 2 topics) in
  if negb (truthy rc) then None else
  let tk := decodeAddress (nth_or_empty 0 values) in
  let am := decodeI128 (match values !! 5%nat with Some v => Some v | None => values !! 1%nat end) in
  Some (Decoded StreamCreated rc sp tk am ledger txHash).

Definition decodeTokensClaimed (topics values : list string) (ledger : number) (txHash : string)
    : option DecodedStreamEvent :=
  let rc := decodeAddress (nth_or_empty 1 topics) in
  if negb (truthy rc) then None else
  Some (Decoded TokensClaimed rc "" "" (decodeI128 (values !! 0%nat)) ledger txHash).

Definition decodeStreamCancelled (topics values : list string) (ledger : number) (txHash : string)
    : option DecodedStreamEvent :=
  let rc := decodeAddress (nth_or_empty 1 topics) in
  if negb (truthy rc) then None else
  Some (Decoded StreamCancelled rc "" "" (decodeI128 (values !! 0%nat)) ledger txHash).

Definition decodeStreamClawedBack (topics values : list string) (ledger : number) (txHash : string)
    : option DecodedStreamEvent :=
  let rc := decodeAddress (nth_or_empty 1 topics) in
  if negb (truthy rc) then None else
  let sp := decodeAddress (nth_or_empty 0 values) in
  let tk := decodeAddress (nth_or_empty 1 values) in
  Some (Decoded StreamClawedBack rc sp tk (decodeI128 (values !! 2%nat)) ledger txHash).

Definition decodeStreamDrained (topics values : list string) (ledger : number) (txHash : string)
    : option DecodedStreamEvent :=
  let rc := decodeAddress (nth_or_empty 1 topics) in
  if negb (truthy rc) then None else
  let sp := decodeAddress (nth_or_empty 1 values) in
  let tk := decodeAddress (nth_or_empty 2 values) in
  Some (Decoded StreamDrained rc sp tk (decodeI128 (values !! 3%nat)) ledger txHash).

(** ** The entry point *)

(** [a || b] on a possibly missing string. *)
Definition or_else (a : option string) (b : option string) : option string :=
  match a with
  | Some s => if truthy s then Some s else b
  | None => b
  end.

(** [typeof ledger === "number" ? ledger : parseInt(String(ledger ?? "0"), 10)] *)
Definition ledger_number (l : ledger_field) : number :=
  match l with
  | LedgerNumber n => Some n
  | LedgerText s => parse_int s
  | LedgerMissing => parse_int "0"
  end.

(** The part of an event id before the first dash, the whole id without one. *)
Definition id_hash (id : option string) : option string :=
  match id with
  | None => None
  | Some i =>
      if existsb (λ c, bool_decide (c = "-"%char)) (chars i)
      then split_on "-" i !! 0%nat else Some i
  end.

(** [None] is [null], or the [undefined] that a symbol naming a property every
    object inherits ends in: the callers only test for a value. *)
Definition decodeEvent (record : HorizonEventRecord) : option DecodedStreamEvent :=
  let topics := default [] (rec_topic record) in
  if decide (length topics = 0%nat) then None else
  match SYMBOL_TO_EVENT_TYPE (decodeSymbol (nth_or_empty 0 topics)) with
  | None => None
  | Some eventType =>
      let valueXdrs := extractValueXdrs (rec_value record) in
      let txHash := default ""
        (or_else (rec_transaction_hash record)
          (or_else (id_hash (rec_id record)) (or_else (rec_id record) (Some "")))) in
      let ledger := ledger_number (rec_ledger record) in
      match eventType with
      | StreamCreated => decodeStreamCreated topics valueXdrs ledger txHash
      | TokensClaimed => decodeTokensClaimed topics valueXdrs ledger txHash
      | StreamCancelled => decodeStreamCancelled topics valueXdrs ledger txHash
      | StreamClawedBack => decodeStreamClawedBack topics valueXdrs ledger txHash
      | StreamDrained => decodeStreamDrained topics valueXdrs ledger txHash
      end
  end.

(** ** The wire encoding

    What the file's header says the events carry: a symbol is a 4-byte tag, a
    4-byte big-endian length, the bytes and padding; an i128 is an optional
    tag, a signed high word and an unsigned low word. *)

Definition sc_symbol (tag pad : buffer) (name : string) : string :=
  to_base64 (tag ++ to_big_endian 4 (str_length name) ++ string_bytes name ++ pad).
Definition sc_i128 (tag : buffer) (v : Z) : string :=
  to_base64 (tag ++ to_big_endian 16 v).

Definition i128 (v : Z) : Prop := - 2 ^ 127 <= v < 2 ^ 127.

(** ** Correctness *)

Lemma truthy_true s : truthy s = true ↔ s ≠ "".
Proof. unfold truthy. by rewrite bool_decide_eq_true. Qed.
Lemma truthy_false s : truthy s = false ↔ s = "".
Proof. unfold truthy. rewrite bool_decide_eq_false. split; [apply dec_stable|congruence]. Qed.

Lemma decodeAddress_id xdr : decodeAddress xdr = xdr.
Proof.
  unfold decodeAddress. destruct (truthy xdr) eqn:Ht; simpl; [by case_match|].
  by apply truthy_false in Ht as ->.
Qed.

Lemma string_bytes_bytes s : Forall is_byte (string_bytes s).
Proof. apply Forall_fmap, Forall_forall. intros c _. apply code_range. Qed.

Lemma buf_length_string_bytes s : buf_length (string_bytes s) = str_length s.
Proof.
  unfold buf_length, string_bytes, str_length, chars. rewrite length_fmap. f_equal.
  induction s as [|c s IH]; simpl; congruence.
Qed.

Lemma decodeSymbol_sc_symbol tag pad name :
  Forall is_byte tag → Forall is_byte pad → length tag = 4%nat →
  Forall is_ascii_char (chars name) → name ≠ "" → str_length name < 2 ^ 32 →
  decodeSymbol (sc_symbol tag pad name) = name.
Proof.
  intros Htag Hpad Hlen Hascii Hne Hshort. unfold decodeSymbol, sc_symbol.
  rewrite to_base64_nonempty by (by destruct tag). simpl negb. cbv iota.
  rewrite from_to_base64 by (rewrite !Forall_app; eauto using to_big_endian_bytes, string_bytes_bytes).
  assert (Htag4 : buf_length tag = 4) by (unfold buf_length; by rewrite Hlen).
  assert (Hword : buf_length (to_big_endian 4 (str_length name)) = 4)
    by (unfold buf_length; by rewrite length_to_big_endian).
  assert (0 <= buf_length pad) by (unfold buf_length; lia).
  assert (0 < str_length name) by (unfold str_length; destruct name; [done|simpl; lia]).
  rewrite !buf_length_app, Htag4, Hword, buf_length_string_bytes.
  destruct (Z.ltb_spec (4 + (4 + (str_length name + buf_length pad))) 8); [lia|].
  unfold readUInt32BE. rewrite read_be_middle by done.
  rewrite big_endian_to_big_endian. rewrite Z.mod_small by (split; [lia|done]).
  destruct (Z.eqb_spec (str_length name) 0); [lia|].
  destruct (Z.ltb_spec (4 + (4 + (str_length name + buf_length pad))) (8 + str_length name));
    [lia|cbn [orb]].
  rewrite (assoc_L (++) tag). rewrite (assoc_L (++) _ (string_bytes name)).
  rewrite subarray_app_l by (rewrite ?buf_length_app, ?buf_length_string_bytes; lia).
  rewrite subarray_app_r by (rewrite ?buf_length_app, ?buf_length_string_bytes; lia).
  by apply to_utf8_ascii.
Qed.

Lemma readBigInt64BE_high off b v :
  read_be 8 off b = Some (v mod 2 ^ 64) → - 2 ^ 63 <= v < 2 ^ 63 →
  readBigInt64BE off b = Some v.
Proof.
  intros Hr Hv. unfold readBigInt64BE. rewrite Hr. simpl. f_equal.
  case_match eqn:Hc; [apply Z.ltb_lt in Hc | apply Z.ltb_ge in Hc]; dm_lia.
Qed.

Lemma decodeI128_sc_i128 tag v :
  Forall is_byte tag → i128 v →
  decodeI128 (Some (sc_i128 tag v)) = Some (Z_to_string v).
Proof.
  intros Htag Hv. unfold decodeI128, sc_i128.
  assert (Hlen : buf_length (to_big_endian 16 v) = 16)
    by (unfold buf_length; by rewrite length_to_big_endian).
  assert (0 <= buf_length tag) by (unfold buf_length; lia).
  assert (Hsplit : to_big_endian 16 v = to_big_endian 8 (v / 2 ^ 64) ++ to_big_endian 8 v)
    by apply (to_big_endian_app 8 8).
  rewrite to_base64_nonempty
    by (intros Hnil; apply (f_equal buf_length) in Hnil; rewrite buf_length_app, Hlen in Hnil;
        unfold buf_length in *; simpl in *; lia).
  rewrite from_to_base64 by (apply Forall_app; eauto using to_big_endian_bytes).
  simpl negb. cbv iota zeta. rewrite buf_length_app, Hlen.
  assert (Hat : match readBigInt64BE (buf_length tag) (tag ++ to_big_endian 16 v),
                      readBigUInt64BE (buf_length tag + 8) (tag ++ to_big_endian 16 v) with
                | Some hi, Some lo => Some (Z_to_string (Z.lor (Z.shiftl hi 64) lo))
                | _, _ => None end = Some (Z_to_string v)).
  { assert (H8 : ∀ w, buf_length (to_big_endian 8 w) = 8)
      by (intros; unfold buf_length; by rewrite length_to_big_endian).
    rewrite Hsplit. rewrite (readBigInt64BE_high _ _ (v / 2 ^ 64)).
    - unfold readBigUInt64BE. rewrite (assoc_L (++)), <-(app_nil_r (to_big_endian 8 v)).
      rewrite read_be_middle by (rewrite ?buf_length_app, ?H8; done). rewrite big_endian_to_big_endian.
      rewrite lor_shiftl_add; [|done|apply Z.mod_pos_bound; done].
      do 2 f_equal. change (256 ^ Z.of_nat 8) with (2 ^ 64). dm_lia.
    - rewrite read_be_middle by done. by rewrite big_endian_to_big_endian.
    - unfold i128 in Hv. dm_lia. }
  destruct (Z.eqb_spec (buf_length tag + 16) 20) as [E|_].
  { replace 4 with (buf_length tag) by lia. done. }
  destruct (Z.eqb_spec (buf_length tag + 16) 12); [lia|].
  destruct (Z.leb_spec 16 (buf_length tag + 16)); [|lia].
  replace (buf_length tag + 16 - 16) with (buf_length tag) by lia. done.
Qed.

(** The five events as the contract emits them, and their record on the wire.
    [rest] stands for the trailing values the decoder does not read. *)
Inductive contract_event :=
| EvCreated (sponsor recipient token rate start cliff end_ : string) (total_deposit : Z)
| EvClaimed (recipient : string) (amount : Z) (through : string)
| EvCancelled (recipient : string) (refunded : Z)
| EvClawedBack (recipient sponsor token : string) (amount : Z) (reason : string)
| EvDrained (recipient caller sponsor token : string) (amount : Z).

Definition ev_recipient (ev : contract_event) : string :=
  match ev with
  | EvCreated _ rc _ _ _ _ _ _ | EvClaimed rc _ _ | EvCancelled rc _
  | EvClawedBack rc _ _ _ _ | EvDrained rc _ _ _ _ => rc
  end.
Definition ev_amount (ev : contract_event) : Z :=
  match ev with
  | EvCreated _ _ _ _ _ _ _ am | EvClaimed _ am _ | EvCancelled _ am
  | EvClawedBack _ _ _ am _ | EvDrained _ _ _ _ am => am
  end.

Definition wire_topics (tag pad : buffer) (ev : contract_event) : list string :=
  match ev with
  | EvCreated sp rc _ _ _ _ _ _ => [sc_symbol tag pad "StreamCreated"; sp; rc]
  | EvClaimed rc _ _ => [sc_symbol tag pad "vc_claim"; rc]
  | EvCancelled rc _ => [sc_symbol tag pad "vc_cancel"; rc]
  | EvClawedBack rc _ _ _ _ => [sc_symbol tag pad "vc_claw"; rc]
  | EvDrained rc _ _ _ _ => [sc_symbol tag pad "vc_drain"; rc]
  end.
Definition wire_values (tag : buffer) (ev : contract_event) : list string :=
  match ev with
  | EvCreated _ _ tk rate start cliff end_ am => [tk; rate; start; cliff; end_; sc_i128 tag am]
  | EvClaimed _ am through => [sc_i128 tag am; through]
  | EvCancelled _ am => [sc_i128 tag am]
  | EvClawedBack _ sp tk am reason => [sp; tk; sc_i128 tag am; reason]
  | EvDrained _ caller sp tk am => [caller; sp; tk; sc_i128 tag am]
  end.
Definition wire_record (tag pad : buffer) (id cursor hash : string) (ledger : Z)
    (ev : contract_event) : HorizonEventRecord :=
  Record_ (Some id) (Some cursor) (LedgerNumber ledger) (Some hash)
    (Some (wire_topics tag pad ev)) (ValueArray (Some <$> wire_values tag ev)).

Definition expected (ledger : Z) (hash : string) (ev : contract_event) : DecodedStreamEvent :=
  let am := Some (Z_to_string (ev_amount ev)) in
  match ev with
  | EvCreated sp rc tk _ _ _ _ _ => Decoded StreamCreated rc sp tk am (Some ledger) hash
  | EvClaimed rc _ _ => Decoded TokensClaimed rc "" "" am (Some ledger) hash
  | EvCancelled rc _ => Decoded StreamCancelled rc "" "" am (Some ledger) hash
  | EvClawedBack rc sp tk _ _ => Decoded StreamClawedBack rc sp tk am (Some ledger) hash
  | EvDrained rc _ sp tk _ => Decoded StreamDrained rc sp tk am (Some ledger) hash
  end.

(** The decoder selected by the event type. *)
Definition decode_as (et : StreamEventType) :
    list string → list string → number → string → option DecodedStreamEvent :=
  match et with
  | StreamCreated => decodeStreamCreated
  | TokensClaimed => decodeTokensClaimed
  | StreamCancelled => decodeStreamCancelled
  | StreamClawedBack => decodeStreamClawedBack
  | StreamDrained => decodeStreamDrained
  end.

Lemma decodeEvent_symbol record t ts et :
  rec_topic record = Some (t :: ts) →
  SYMBOL_TO_EVENT_TYPE (decodeSymbol t) = Some et →
  decodeEvent record =
    decode_as et (t :: ts) (extractValueXdrs (rec_value record)) (ledger_number (rec_ledger record))
      (default "" (or_else (rec_transaction_hash record)
          (or_else (id_hash (rec_id record)) (or_else (rec_id record) (Some ""))))).
Proof.
  intros Ht Het. unfold decodeEvent. rewrite Ht. cbn [default from_option].
  rewrite decide_False by done. unfold nth_or_empty at 1. simpl (default _ _).
  rewrite Het. by destruct et.
Qed.

Lemma decodeSymbol_known tag pad name :
  Forall is_byte tag → Forall is_byte pad → length tag = 4%nat →
  name ∈ ["StreamCreated"; "vc_claim"; "vc_cancel"; "vc_claw"; "vc_drain"] →
  decodeSymbol (sc_symbol tag pad name) = name.
Proof.
  intros Htag Hpad Hlen Hname. rewrite !elem_of_cons, elem_of_nil in Hname.
  apply decodeSymbol_sc_symbol; try done; destruct_or?; subst; try done;
    repeat constructor; done.
Qed.

(** C1. The decoder inverts the wire encoding: for each of the five contract
    events, with any 4-byte symbol tag, any padding, any type tag before the
    i128 and any i128 amount, the decoded event carries the event's type,
    addresses, ledger and transaction hash, and the amount as exact decimal
    text. *)
Theorem decodeEvent_wire_record tag pad id cursor hash ledger ev :
  Forall is_byte tag → Forall is_byte pad → length tag = 4%nat →
  i128 (ev_amount ev) → ev_recipient ev ≠ "" → hash ≠ "" →
  decodeEvent (wire_record tag pad id cursor hash ledger ev) = Some (expected ledger hash ev).
Proof.
  intros Htag Hpad Hlen Ham Hrc Hhash.
  pose proof (proj2 (truthy_true _) Hrc) as Hrc'.
  pose proof (proj2 (truthy_true _) Hhash) as Hhash'.
  destruct ev; simpl in Ham, Hrc'; unfold wire_record;
    (erewrite decodeEvent_symbol;
      [|reflexivity|rewrite decodeSymbol_known by (try done; set_solver); reflexivity]);
    cbn [decode_as]; unfold decodeStreamCreated, decodeTokensClaimed, decodeStreamCancelled,
      decodeStreamClawedBack, decodeStreamDrained, nth_or_empty, or_else;
    cbn -[decodeI128 sc_i128 sc_symbol decodeAddress truthy];
    rewrite Hhash', !decodeAddress_id, Hrc'; cbn [negb];
    by rewrite decodeI128_sc_i128.
Qed.

Lemma decodeEvent_wire_record_witness :
  i128 (- 2 ^ 127) ∧
  decodeEvent (wire_record [0; 0; 0; 15] [0; 0] "id-1" "cur" "hash" 77
                 (EvDrained "GR" "GC" "GS" "CT" (- 2 ^ 127)))
  = Some (expected 77 "hash" (EvDrained "GR" "GC" "GS" "CT" (- 2 ^ 127))).
Proof.
  split; [unfold i128; lia|].
  apply decodeEvent_wire_record; try done; try (repeat constructor; lia); unfold i128; simpl; lia.
Defined.

Lemma readBigInt64BE_bounds off b z :
  Forall is_byte b → readBigInt64BE off b = Some z → - 2 ^ 63 <= z < 2 ^ 63.
Proof.
  unfold readBigInt64BE. intros Hb Hr.
  apply fmap_Some in Hr as (u & Hu & ->).
  apply read_be_bounds in Hu; [|done|done]. change (256 ^ 8) with (2 ^ 64) in Hu.
  case_match eqn:Hc; [apply Z.ltb_lt in Hc|apply Z.ltb_ge in Hc]; lia.
Qed.

(** Whatever base-64 text arrives, an amount the decoder accepts is the
    decimal text of an integer in the i128 range. *)
Theorem decodeI128_range xdr s :
  decodeI128 xdr = Some s → ∃ v, s = Z_to_string v ∧ i128 v.
Proof.
  unfold decodeI128. destruct xdr as [x|]; [|done].
  destruct (truthy x); [simpl negb; cbv iota zeta|done].
  pose proof (from_base64_bytes x) as Hb.
  assert (Hat : ∀ off,
    match readBigInt64BE off (from_base64 x), readBigUInt64BE (off + 8) (from_base64 x) with
    | Some hi, Some lo => Some (Z_to_string (Z.lor (Z.shiftl hi 64) lo))
    | _, _ => None end = Some s → ∃ v, s = Z_to_string v ∧ i128 v).
  { intros off Hoff.
    destruct (readBigInt64BE off _) as [hi|] eqn:Hhi; [|done].
    destruct (readBigUInt64BE (off + 8) _) as [lo|] eqn:Hlo; [|done].
    apply readBigInt64BE_bounds in Hhi; [|done].
    apply read_be_bounds in Hlo; [|done|done]. change (256 ^ 8) with (2 ^ 64) in Hlo.
    rewrite lor_shiftl_add in Hoff by done. simplify_eq.
    eexists. split; [done|]. unfold i128. lia. }
  destruct (_ =? 20); [apply Hat|]. destruct (_ =? 12); [apply Hat|].
  destruct (16 <=? _); [apply Hat|done].
Qed.

Lemma decodeI128_range_witness :
  decodeI128 (Some "/////////////////////w==") = Some "-1" ∧
  ∃ v, "-1" = Z_to_string v ∧ i128 v.
Proof. split; [reflexivity|]. apply (decodeI128_range (Some "/////////////////////w==")). reflexivity. Defined.

(** The topic that names the recipient of each event type. *)
Definition recipient_topic (et : StreamEventType) : nat :=
  match et with StreamCreated => 2%nat | _ => 1%nat end.

Lemma default_nonempty (o : option string) : default "" o ≠ "" → o = Some (default "" o).
Proof. by destruct o. Qed.

(** A decoded event is never invented: its type is the one its first topic
    names, its recipient is the (non-empty) recipient topic, its ledger is the
    record's ledger number, and a non-empty transaction hash of the record is
    kept. *)
Theorem decodeEvent_sound record ev :
  decodeEvent record = Some ev →
  ∃ t ts, rec_topic record = Some (t :: ts) ∧
    SYMBOL_TO_EVENT_TYPE (decodeSymbol t) = Some (event_type ev) ∧
    recipient ev ≠ "" ∧ (t :: ts) !! recipient_topic (event_type ev) = Some (recipient ev) ∧
    ledger_sequence ev = ledger_number (rec_ledger record) ∧
    (∀ h, rec_transaction_hash record = Some h → h ≠ "" → transaction_hash ev = h).
Proof.
  destruct (rec_topic record) as [[|t ts]|] eqn:Ht.
  1,3: by unfold decodeEvent; rewrite Ht.
  destruct (SYMBOL_TO_EVENT_TYPE (decodeSymbol t)) as [et|] eqn:Het.
  2: { unfold decodeEvent, nth_or_empty. rewrite Ht. cbn [default from_option].
       rewrite decide_False by done. simpl. by rewrite Het. }
  rewrite (decodeEvent_symbol _ _ _ _ Ht Het). intros Hev. exists t, ts. split; [done|].
  assert (Hhash : ∀ h, rec_transaction_hash record = Some h → h ≠ "" →
    or_else (rec_transaction_hash record) (or_else (id_hash (rec_id record))
      (or_else (rec_id record) (Some ""))) = Some h).
  { intros h -> Hh. simpl. by rewrite (proj2 (truthy_true h) Hh). }
  revert Hhash Hev. generalize (or_else (rec_transaction_hash record)
    (or_else (id_hash (rec_id record)) (or_else (rec_id record) (Some "")))).
  intros h0 Hhash.
  destruct et; cbn [decode_as]; unfold decodeStreamCreated, decodeTokensClaimed,
    decodeStreamCancelled, decodeStreamClawedBack, decodeStreamDrained, nth_or_empty;
    rewrite !decodeAddress_id;
    (destruct (truthy _) eqn:Htr; [cbn [negb]|done]); intros [= <-]; simpl;
    apply truthy_true in Htr; repeat split; try done.
  all: try (by apply default_nonempty).
  all: intros h Hr Hne; by rewrite (Hhash h Hr Hne).
Qed.

Lemma decodeEvent_sound_witness :
  ∃ record ev t ts, decodeEvent record = Some ev ∧ rec_topic record = Some (t :: ts) ∧
    recipient ev ≠ "".
Proof.
  set (r := wire_record [0; 0; 0; 15] [] "id-1" "cur" "hash" 77 (EvCancelled "GR" 5)).
  destruct (decodeEvent_sound r (expected 77 "hash" (EvCancelled "GR" 5)))
    as (t & ts & Ht & _ & Hne & _); [vm_compute; reflexivity|].
  exists r, (expected 77 "hash" (EvCancelled "GR" 5)), t, ts. by repeat split.
Defined.
