(* ===== verification/Db.v ===== *)
(** * The PostgreSQL tables of the event pipeline

    The tables the indexer writes, as the migrations under
    [backend/migrations] create them, and the single-statement operations the
    code issues.  PostgreSQL itself is not modelled beyond what the statements
    rely on: a statement either takes effect or raises and changes nothing, a
    unique key admits one row, [UPDATE] reports the number of rows it matched,
    and the [BEFORE UPDATE OF status] trigger runs once per updated row. *)
From S2P Require Import Prelude Decoder.

(** ** Statuses and the transition check of the trigger *)

(** [CREATE TYPE stream_status_type] with the value migration 008 adds. *)
Inductive StreamStatus :=
| active | pre_cliff | expired | cancelled | drained | clawedback.
#[global] Instance StreamStatus_eq_dec : EqDecision StreamStatus.
Proof. solve_decision. Defined.

Definition all_statuses : list StreamStatus :=
  [active; pre_cliff; expired; cancelled; drained; clawedback].

(** [check_stream_status_transition]: [true] when it returns, [false] when it
    raises [check_violation]. *)
Definition check_stream_status_transition (p_from p_to : StreamStatus) : bool :=
  if decide (p_from = p_to) then true
  else (bool_decide (p_from = active) && bool_decide (p_to ∈ [cancelled; expired; clawedback]))
    || (bool_decide (p_from = pre_cliff) &&
        bool_decide (p_to ∈ [active; cancelled; expired; clawedback]))
    || (bool_decide (p_from = expired) && bool_decide (p_to = drained)).

(** ** Rows *)

(** [vesting_streams], keyed by its unique [recipient_address]. *)
Record stream_row := StreamRow {
  status : StreamStatus;
  status_updated_at : Z;
  sponsor_address : string;
  token_address : string;
  rate_per_ledger : Z;
  start_ledger : Z;
  cliff_ledger : Z;
  end_ledger : Z;
  updated_at : Z;
  cancelled_at : option Z;
  cancelled_at_ledger : option Z;
  refunded_amount : option Z;
  cancellation_tx_hash : option string;
  cancellation_recipient_payout : option Z;
  clawed_at_ledger : option Z;
  clawback_sponsor : option string;
  clawback_amount : option Z;
  clawback_tx_hash : option string;
  drained_at : option Z;
  drain_amount : option Z;
  drain_tx_hash : option string;
  drained_by : option string }.

(** [stream_status_transitions].  The generated uuid is a serial number. *)
Record transition_row := TransitionRow {
  tr_id : nat;
  tr_recipient : string;
  tr_from : StreamStatus;
  tr_to : StreamStatus;
  tr_triggering_event : option string;
  tr_ledger_sequence : option Z;
  tr_created_at : Z }.

(** [stream_events]; [transaction_hash] is unique. *)
Record event_row := EventRow {
  er_event_type : StreamEventType;
  er_recipient : string;
  er_sponsor : string;
  er_token : string;
  er_amount : option Z;
  er_ledger_sequence : Z;
  er_transaction_hash : string }.

(** The text of the [event_type] column. *)
Definition event_type_text (t : StreamEventType) : string :=
  match t with
  | StreamCreated => "StreamCreated" | TokensClaimed => "TokensClaimed" | StreamCancelled => "StreamCancelled"
  | StreamClawedBack => "StreamClawedBack" | StreamDrained => "StreamDrained"
  end.

(** [stream_balances], keyed by its unique [stream_id]. *)
Record balance_row := BalanceRow {
  total_deposit : Z;
  claimed_total : Z;
  remaining : Z;
  rate : option Z;
  total_duration : option Z;
  bal_updated_at : Z }.

(** [indexer_cursors] is its single row [id = 1], if present. *)
Record db := Db {
  vesting_streams : gmap string stream_row;
  stream_status_transitions : list transition_row;
  stream_events : list event_row;
  stream_balances : gmap string balance_row;
  indexer_cursors : option string }.

Definition with_streams (f : gmap string stream_row → gmap string stream_row) (d : db) : db :=
  Db (f (vesting_streams d)) (stream_status_transitions d) (stream_events d)
     (stream_balances d) (indexer_cursors d).
Definition with_transitions (f : list transition_row → list transition_row) (d : db) : db :=
  Db (vesting_streams d) (f (stream_status_transitions d)) (stream_events d)
     (stream_balances d) (indexer_cursors d).
Definition with_events (f : list event_row → list event_row) (d : db) : db :=
  Db (vesting_streams d) (stream_status_transitions d) (f (stream_events d))
     (stream_balances d) (indexer_cursors d).
Definition with_balances (f : gmap string balance_row → gmap string balance_row) (d : db) : db :=
  Db (vesting_streams d) (stream_status_transitions d) (stream_events d)
     (f (stream_balances d)) (indexer_cursors d).
Definition with_cursor (c : option string) (d : db) : db :=
  Db (vesting_streams d) (stream_status_transitions d) (stream_events d)
     (stream_balances d) c.

(** ** Exceptions *)

Inductive pg_error :=
| syntax_error                                        (* 42601 *)
| check_violation (from to : StreamStatus)            (* raised by the trigger *)
| invalid_text_representation (input : string)        (* 22P02 *)
| string_data_right_truncation                        (* 22001: too long for varchar *)
| numeric_value_out_of_range                          (* 22003 *)
| unique_violation.                                   (* 23505 *)

Inductive exn :=
| PgError (e : pg_error)
| StatusTransitionError (from to : StreamStatus)
| StreamNotFoundError (recipientAddress : string)
| HorizonHttpError (status : Z)
| OtherError (message : string).

#[global] Instance pg_error_eq_dec : EqDecision pg_error.
Proof. solve_decision. Defined.
#[global] Instance exn_eq_dec : EqDecision exn.
Proof. solve_decision. Defined.

(** A database operation at transaction time [now()]. *)
Abbreviation dbM A := (M db exn A).

(** ** Parameters of a statement *)

(** A [numeric] parameter.  The amounts the code stores are i128 decimals;
    fractions and the special values of [numeric] do not occur. *)
Definition pg_numeric (s : string) : dbM Z :=
  match Z_of_string s with
  | Some z => ret z
  | None => throw (PgError (invalid_text_representation s))
  end.

(** A nullable [numeric] parameter: [None] on text that is not a number. *)
Definition parse_amount (o : option string) : option (option Z) :=
  match o with None => Some None | Some s => Some <$> Z_of_string s end.
Definition pg_opt_numeric (o : option string) : dbM (option Z) :=
  match o with
  | None => ret None
  | Some s => let! z := pg_numeric s in ret (Some z)
  end.

(** A parameter of a [varchar(n)] column.  Lengths count bytes: the texts
    stored are base64 or strkeys. *)
Definition pg_varchar (n : Z) (s : string) : dbM unit :=
  if str_length s <=? n then ret tt else throw (PgError string_data_right_truncation).

(** An integer parameter of a column of [bits] bits; [NaN] is sent as the text
    [NaN]. *)
Definition fits (bits : Z) (n : number) : bool :=
  num_test (λ z, (- 2 ^ (bits - 1) <=? z) && (z <? 2 ^ (bits - 1))) n.
Definition pg_int (bits : Z) (n : number) : dbM Z :=
  match n with
  | None => throw (PgError (invalid_text_representation "NaN"))
  | Some z => if fits bits n then ret z else throw (PgError numeric_value_out_of_range)
  end.
Definition pg_integer : number → dbM Z := pg_int 32.
#[global] Arguments pg_int : simpl never.
#[global] Arguments fits : simpl never.

(** ** UPDATE vesting_streams *)

(** [SET]: the columns assigned, whether [status] is among them, the [WHERE]
    clause, and whether the statement ends in [ON CONFLICT DO NOTHING], which
    the grammar of [UPDATE] does not have. *)
Record update_streams := UpdateStreams {
  upd_set : stream_row → stream_row;
  upd_sets_status : bool;
  upd_where : string → stream_row → bool;
  upd_on_conflict : bool }.

Definition set_status (st : StreamStatus) (r : stream_row) : stream_row :=
  StreamRow st (status_updated_at r) (sponsor_address r) (token_address r) (rate_per_ledger r)
    (start_ledger r) (cliff_ledger r) (end_ledger r) (updated_at r) (cancelled_at r)
    (cancelled_at_ledger r) (refunded_amount r) (cancellation_tx_hash r)
    (cancellation_recipient_payout r) (clawed_at_ledger r) (clawback_sponsor r)
    (clawback_amount r) (clawback_tx_hash r) (drained_at r) (drain_amount r) (drain_tx_hash r)
    (drained_by r).
Definition set_status_updated_at (t : Z) (r : stream_row) : stream_row :=
  StreamRow (status r) t (sponsor_address r) (token_address r) (rate_per_ledger r)
    (start_ledger r) (cliff_ledger r) (end_ledger r) (updated_at r) (cancelled_at r)
    (cancelled_at_ledger r) (refunded_amount r) (cancellation_tx_hash r)
    (cancellation_recipient_payout r) (clawed_at_ledger r) (clawback_sponsor r)
    (clawback_amount r) (clawback_tx_hash r) (drained_at r) (drain_amount r) (drain_tx_hash r)
    (drained_by r).

(** [fn_stream_status_audit] on one row: validates a change of status, records
    it, and refreshes [status_updated_at]. *)
Definition fn_stream_status_audit (now : Z) (recipient : string) (old new : stream_row)
    (trs : list transition_row) : result pg_error (stream_row * list transition_row) :=
  if decide (status old = status new) then Ok (new, trs)
  else if check_stream_status_transition (status old) (status new) then
    Ok (set_status_updated_at now new,
        TransitionRow (length trs) recipient (status old) (status new) None None now :: trs)
  else Err (check_violation (status old) (status new)).

Definition update_row (now : Z) (u : update_streams) (d : db) (kr : string * stream_row)
    : result pg_error db :=
  let '(k, r) := kr in
  let r' := upd_set u r in
  if upd_sets_status u then
    match fn_stream_status_audit now k r r' (stream_status_transitions d) with
    | Ok (r'', trs) => Ok (with_transitions (λ _, trs) (with_streams <[k := r'']> d))
    | Err e => Err e
    end
  else Ok (with_streams <[k := r']> d).

Fixpoint update_rows (now : Z) (u : update_streams) (d : db) (krs : list (string * stream_row))
    : result pg_error db :=
  match krs with
  | [] => Ok d
  | kr :: krs' =>
      match update_row now u d kr with
      | Ok d' => update_rows now u d' krs'
      | Err e => Err e
      end
  end.

Definition matching (u : update_streams) (d : db) : gmap string stream_row :=
  filter (λ kr, upd_where u kr.1 kr.2 = true) (vesting_streams d).

(** The statement: [rowCount], or an exception and no effect. *)
Definition exec_update (now : Z) (u : update_streams) : dbM Z := λ d,
  if upd_on_conflict u then (Err (PgError syntax_error), d) else
  let krs := map_to_list (matching u d) in
  match update_rows now u d krs with
  | Ok d' => (Ok (Z.of_nat (length krs)), d')
  | Err e => (Err (PgError e), d)
  end.

(** [WHERE recipient_address = $1 AND p] *)
Definition where_recipient (a : string) (p : stream_row → bool) : string → stream_row → bool :=
  λ k r, bool_decide (k = a) && p r.

(** ** Lemmas *)

Lemma map_filter_recipient_empty (a : string) p (m : gmap string stream_row) :
  (∀ r, m !! a = Some r → p r = false) →
  filter (λ kr, bool_decide (kr.1 = a) && p kr.2 = true) m = ∅.
Proof.
  intros Hp. apply map_empty. intros k. apply map_lookup_filter_None. right.
  intros r Hr. simpl. rewrite andb_true_iff, bool_decide_eq_true.
  intros [-> Hpr]. apply Hp in Hr. congruence.
Qed.

Lemma matching_recipient u a p d :
  upd_where u = where_recipient a p →
  map_to_list (matching u d) =
    match vesting_streams d !! a with
    | Some r => if p r then [(a, r)] else []
    | None => []
    end.
Proof.
  intros Hw. unfold matching. rewrite Hw. unfold where_recipient.
  destruct (vesting_streams d !! a) as [r|] eqn:Hr; [destruct (p r) eqn:Hp|].
  - assert (filter (λ kr, bool_decide (kr.1 = a) && p kr.2 = true) (vesting_streams d)
            = {[ a := r ]}) as ->; [|apply map_to_list_singleton].
    apply map_eq. intros k. apply option_eq. intros x.
    rewrite map_lookup_filter_Some, lookup_singleton_Some. simpl.
    rewrite andb_true_iff, bool_decide_eq_true. naive_solver.
  - apply map_to_list_empty_iff, map_filter_recipient_empty. naive_solver congruence.
  - apply map_to_list_empty_iff, map_filter_recipient_empty. naive_solver congruence.
Qed.

(** An [UPDATE] of one recipient's row, spelled out. *)
Lemma exec_update_recipient now set sets_status a p d :
  exec_update now (UpdateStreams set sets_status (where_recipient a p) false) d =
    match vesting_streams d !! a with
    | Some r =>
        if p r then
          match update_row now (UpdateStreams set sets_status (where_recipient a p) false) d (a, r) with
          | Ok d' => (Ok 1, d')
          | Err e => (Err (PgError e), d)
          end
        else (Ok 0, d)
    | None => (Ok 0, d)
    end.
Proof.
  unfold exec_update. cbn [upd_on_conflict].
  rewrite (matching_recipient _ a p) by done.
  destruct (vesting_streams d !! a) as [r|]; [|done].
  destruct (p r); [|done]. cbn [update_rows]. by destruct (update_row _ _ _ _).
Qed.

Lemma pg_int_ok bits z d : fits bits (Some z) = true → pg_int bits (Some z) d = (Ok z, d).
Proof. intros H. unfold pg_int. by rewrite H. Qed.

Lemma pg_int_inv bits n d z d' :
  pg_int bits n d = (Ok z, d') → n = Some z ∧ fits bits n = true ∧ d' = d.
Proof.
  unfold pg_int, ret, throw. destruct n as [x|]; [|done].
  destruct (fits bits (Some x)) eqn:Hf; intros; by simplify_eq.
Qed.

Lemma pg_numeric_inv s d z d' : pg_numeric s d = (Ok z, d') → Z_of_string s = Some z ∧ d' = d.
Proof. unfold pg_numeric, ret, throw. destruct (Z_of_string s); intros; by simplify_eq. Qed.

Lemma pg_opt_numeric_inv o d n d' :
  pg_opt_numeric o d = (Ok n, d') → parse_amount o = Some n ∧ d' = d.
Proof.
  destruct o as [s|]; simpl; intros H; inv_run; [|done].
  apply pg_numeric_inv in Hrun as [-> ->]. done.
Qed.

Lemma exec_update_err now u d e d' : exec_update now u d = (Err e, d') → d' = d.
Proof. unfold exec_update. intros. crush_match. Qed.

(** ** Whole-table updates *)

(** The row an accepted update leaves behind. *)
Definition updated_row (now : Z) (u : update_streams) (r : stream_row) : stream_row :=
  if upd_sets_status u && bool_decide (status r ≠ status (upd_set u r))
  then set_status_updated_at now (upd_set u r) else upd_set u r.

(** The trigger accepts the row's change of status. *)
Definition update_accepted (u : update_streams) (r : stream_row) : bool :=
  negb (upd_sets_status u) ||
  check_stream_status_transition (status r) (status (upd_set u r)).

Lemma check_refl st : check_stream_status_transition st st = true.
Proof. by destruct st. Qed.

Lemma update_row_ok now u d k r :
  update_accepted u r = true →
  ∃ d', update_row now u d (k, r) = Ok d' ∧
    vesting_streams d' = <[k := updated_row now u r]> (vesting_streams d).
Proof.
  unfold update_accepted, update_row, updated_row, fn_stream_status_audit.
  destruct (upd_sets_status u); simpl; [|eauto].
  intros Hc. destruct (decide (status r = status (upd_set u r))) as [E|E].
  - rewrite bool_decide_eq_false_2 by congruence. eauto.
  - rewrite Hc, bool_decide_eq_true_2 by done. eauto.
Qed.

Lemma update_row_inv now u d k r d' :
  update_row now u d (k, r) = Ok d' →
  update_accepted u r = true ∧
  vesting_streams d' = <[k := updated_row now u r]> (vesting_streams d).
Proof.
  unfold update_accepted, update_row, updated_row, fn_stream_status_audit.
  destruct (upd_sets_status u); simpl; [|intros [= <-]; split; done].
  destruct (decide (status r = status (upd_set u r))) as [E|E].
  - rewrite <-E, check_refl. rewrite bool_decide_eq_false_2 by congruence.
    intros [= <-]; split; done.
  - rewrite bool_decide_eq_true_2 by done.
    destruct (check_stream_status_transition _ _); [|done].
    intros [= <-]; split; done.
Qed.

Lemma update_row_err now u d k r e :
  update_row now u d (k, r) = Err e → update_accepted u r = false.
Proof.
  destruct (update_accepted u r) eqn:Ha; [|done].
  destruct (update_row_ok now u d k r Ha) as (d' & -> & _). done.
Qed.

#[global] Arguments update_row : simpl never.

(** Any property the update of one row keeps is kept by the whole statement. *)
Lemma update_rows_ind (I : db → Prop) now u :
  (∀ d k r d', I d → vesting_streams d !! k = Some r →
     update_row now u d (k, r) = Ok d' → I d') →
  ∀ krs d d', NoDup krs.*1 → (∀ k r, (k, r) ∈ krs → vesting_streams d !! k = Some r) →
  I d → update_rows now u d krs = Ok d' → I d'.
Proof.
  intros HI. induction krs as [|[k r] krs IH]; simpl; intros d d' Hnd Hin Hd Hrun; [by simplify_eq|].
  destruct (update_row now u d (k, r)) as [d1|e] eqn:H1; [|done].
  apply NoDup_cons in Hnd as [Hk Hnd].
  refine (IH d1 d' Hnd _ (HI _ _ _ _ Hd (Hin _ _ _) H1) Hrun); [|set_solver].
  intros k' r' Hk'. apply update_row_inv in H1 as [_ ->].
  rewrite lookup_insert_ne; [apply Hin; set_solver|].
  intros ->. apply Hk. apply (list_elem_of_fmap_2 fst) in Hk'. done.
Qed.

Lemma update_rows_lookup now u krs d d' :
  NoDup krs.*1 → update_rows now u d krs = Ok d' →
  ∀ k, vesting_streams d' !! k =
    match (list_to_map krs : gmap string stream_row) !! k with
    | Some r => Some (updated_row now u r)
    | None => vesting_streams d !! k
    end.
Proof.
  revert d. induction krs as [|[k r] krs IH]; simpl; intros d Hnd Hrun k'; [by simplify_eq|].
  destruct (update_row now u d (k, r)) as [d1|e] eqn:H1; [|done].
  apply NoDup_cons in Hnd as [Hk Hnd].
  rewrite (IH _ Hnd Hrun). apply update_row_inv in H1 as [_ ->].
  destruct (decide (k = k')) as [->|Hne].
  - rewrite (not_elem_of_list_to_map_1 krs k') by done. by rewrite !lookup_insert_eq.
  - by rewrite !lookup_insert_ne.
Qed.

Lemma update_rows_accepted now u krs d :
  (∀ k r, (k, r) ∈ krs → update_accepted u r = true) →
  ∃ d', update_rows now u d krs = Ok d'.
Proof.
  revert d. induction krs as [|[k r] krs IH]; simpl; intros d Ha; [eauto|].
  destruct (update_row_ok now u d k r) as (d' & -> & _); [apply (Ha k); set_solver|].
  apply IH. intros k' r' Hin. apply (Ha k'). set_solver.
Qed.

Lemma matching_list_lookup u d k r :
  (k, r) ∈ map_to_list (matching u d) ↔
  vesting_streams d !! k = Some r ∧ upd_where u k r = true.
Proof. rewrite elem_of_map_to_list. apply map_lookup_filter_Some. Qed.

(** The statement, row by row. *)
Lemma exec_update_ok now u d n d' :
  exec_update now u d = (Ok n, d') →
  n = Z.of_nat (size (matching u d)) ∧
  ∀ k, vesting_streams d' !! k =
    (λ r, if upd_where u k r then updated_row now u r else r) <$> vesting_streams d !! k.
Proof.
  unfold exec_update. destruct (upd_on_conflict u); [done|].
  destruct (update_rows _ _ _ _) as [d1|e] eqn:H1; [|done].
  intros; simplify_eq. split; [by rewrite length_map_to_list|]. intros k.
  rewrite (update_rows_lookup _ _ _ _ _ (NoDup_fst_map_to_list _) H1), list_to_map_to_list.
  destruct (vesting_streams d !! k) as [r|] eqn:Hr; simpl.
  - destruct (upd_where u k r) eqn:Hw.
    + assert (matching u d !! k = Some r) as ->; [by apply map_lookup_filter_Some|done].
    + assert (matching u d !! k = None) as ->; [|done].
      apply map_lookup_filter_None. right. intros ? ?. simplify_eq. simpl. congruence.
  - assert (matching u d !! k = None) as ->; [|done].
    apply map_lookup_filter_None. by left.
Qed.

(** A statement without the stray clause succeeds when the trigger accepts
    every row it matches. *)
Lemma exec_update_accepted now u d :
  upd_on_conflict u = false →
  (∀ k r, vesting_streams d !! k = Some r → upd_where u k r = true →
     update_accepted u r = true) →
  ∃ n d', exec_update now u d = (Ok n, d').
Proof.
  intros Hc Ha. unfold exec_update. rewrite Hc.
  destruct (update_rows_accepted now u (map_to_list (matching u d)) d) as (d' & ->).
  - intros k r Hin. apply matching_list_lookup in Hin as [? ?]. eauto.
  - eauto.
Qed.

Lemma exec_update_ind (I : db → Prop) now u d r d' :
  (∀ d k row d', I d → vesting_streams d !! k = Some row →
     update_row now u d (k, row) = Ok d' → I d') →
  I d → exec_update now u d = (r, d') → I d'.
Proof.
  intros HI Hd. unfold exec_update. destruct (upd_on_conflict u); [intros; by simplify_eq|].
  destruct (update_rows _ _ _ _) as [d1|e] eqn:H1; intros; simplify_eq; [|done].
  eapply (update_rows_ind I); [exact HI|apply NoDup_fst_map_to_list| |done|done].
  intros k row Hin. by apply matching_list_lookup in Hin as [? _].
Qed.

(** A completed statement was accepted for every row it matched. *)
Lemma update_rows_accepted_inv now u krs d d' :
  update_rows now u d krs = Ok d' → ∀ k r, (k, r) ∈ krs → update_accepted u r = true.
Proof.
  revert d. induction krs as [|[k r] krs IH]; simpl; intros d Hrun k' r' Hin; [set_solver|].
  destruct (update_row now u d (k, r)) as [d1|e] eqn:H1; [|done].
  apply update_row_inv in H1 as [? _]. apply elem_of_cons in Hin as [Hin|Hin]; [|eauto].
  by simplify_eq.
Qed.

Lemma exec_update_all_accepted now u d n d' :
  exec_update now u d = (Ok n, d') →
  ∀ k r, vesting_streams d !! k = Some r → upd_where u k r = true → update_accepted u r = true.
Proof.
  unfold exec_update. destruct (upd_on_conflict u); [done|].
  destruct (update_rows _ _ _ _) as [d1|e] eqn:H1; [|done]. intros _ k r Hk Hw.
  eapply update_rows_accepted_inv; [exact H1|]. by apply matching_list_lookup.
Qed.

(** A statement on [vesting_streams] leaves the other tables alone. *)
Definition same_rest (d d' : db) : Prop :=
  stream_events d' = stream_events d ∧ stream_balances d' = stream_balances d ∧
  indexer_cursors d' = indexer_cursors d.

Lemma update_row_rest now u d kr d' : update_row now u d kr = Ok d' → same_rest d d'.
Proof.
  destruct kr as [k r]. unfold update_row. destruct (upd_sets_status u); [|by intros [= <-]].
  destruct (fn_stream_status_audit _ _ _ _ _) as [[r' trs]|e]; [by intros [= <-]|done].
Qed.

Lemma exec_update_rest now u d r d' : exec_update now u d = (r, d') → same_rest d d'.
Proof.
  apply (exec_update_ind (same_rest d)); [|done].
  intros d1 k row d2 (? & ? & ?) _ (? & ? & ?)%update_row_rest. split_and!; congruence.
Qed.
