(* ===== verification/StreamStatus.v ===== *)
(** * The stream status state machine

    [backend/src/streamStatusService.ts] and the expiry job that drives it,
    [backend/src/jobs/streamExpiry.ts]: the transition table, the validated
    transition with its audit row, the bulk expiry, and the invariant of the
    audit trail kept by the trigger of [Db]. *)
From S2P Require Import Prelude Db.

(** ** The service *)

Inductive TriggeringEvent :=
| TrStreamCreated | TrTokensClaimed | TrStreamCancelled | TrStreamDrained
| TrStreamClawedBack | TrBackgroundExpiryJob.

Definition TriggeringEvent_text (e : TriggeringEvent) : string :=
  match e with
  | TrStreamCreated => "StreamCreated"
  | TrTokensClaimed => "TokensClaimed"
  | TrStreamCancelled => "StreamCancelled"
  | TrStreamDrained => "StreamDrained"
  | TrStreamClawedBack => "StreamClawedBack"
  | TrBackgroundExpiryJob => "background_expiry_job"
  end.

Record StatusTransitionOptions := TransitionOptions {
  recipientAddress : string;
  toStatus : StreamStatus;
  triggeringEvent : option TriggeringEvent;
  ledgerSequence : option number }.

Record StatusTransitionResult := TransitionResult {
  res_recipientAddress : string;
  res_fromStatus : StreamStatus;
  res_toStatus : StreamStatus;
  res_statusUpdatedAt : Z }.

Definition VALID_TRANSITIONS (st : StreamStatus) : list StreamStatus :=
  match st with
  | active => [cancelled; expired; clawedback]
  | pre_cliff => [active; cancelled; expired; clawedback]
  | expired => [drained]
  | cancelled => []
  | drained => []
  | clawedback => []
  end.

Definition isValidTransition (from to : StreamStatus) : bool :=
  if decide (from = to) then true else bool_decide (to ∈ VALID_TRANSITIONS from).

(** The audit row of one transition of one recipient. *)
Definition tr_matches (a : string) (from to : StreamStatus) (t : transition_row) : bool :=
  bool_decide (tr_recipient t = a) && bool_decide (tr_from t = from) && bool_decide (tr_to t = to).

(** [ORDER BY created_at DESC LIMIT 1]: the table is kept newest first, so a
    row replaces the candidate only when it is strictly later. *)
Definition newest (trs : list transition_row) : option transition_row :=
  foldl (λ best t, match best with
                   | Some b => if tr_created_at b <? tr_created_at t then Some t else best
                   | None => Some t
                   end) None trs.

Definition coalesce {A} (new old : option A) : option A :=
  match new with Some _ => new | None => old end.

Definition annotate_row (ev : option string) (led : option Z) (t : transition_row)
    : transition_row :=
  TransitionRow (tr_id t) (tr_recipient t) (tr_from t) (tr_to t)
    (coalesce ev (tr_triggering_event t)) (coalesce led (tr_ledger_sequence t)) (tr_created_at t).

(** The [UPDATE stream_status_transitions] statement. *)
Definition annotate_newest (ev : option string) (led : option Z) (a : string)
    (from to : StreamStatus) (trs : list transition_row) : list transition_row :=
  match newest (filter (λ t, tr_matches a from to t = true) trs) with
  | None => trs
  | Some b =>
      (λ t, if tr_matches a from to t && bool_decide (tr_id t = tr_id b)
            then annotate_row ev led t else t) <$> trs
  end.

Definition update_status_of (a : string) (st : StreamStatus) : update_streams :=
  UpdateStreams (set_status st) true (where_recipient a (λ _, true)) false.

(** [now] is [now()] of the transaction the caller runs. *)
Definition transitionStreamStatus (now : Z) (opts : StatusTransitionOptions)
    : dbM StatusTransitionResult :=
  let a := recipientAddress opts in
  let! d := get in
  match vesting_streams d !! a with
  | None => throw (StreamNotFoundError a)
  | Some row =>
      let from := status row in
      let to := toStatus opts in
      if decide (from = to) then ret (TransitionResult a from to (status_updated_at row))
      else if negb (isValidTransition from to) then throw (StatusTransitionError from to)
      else
        exec_update now (update_status_of a to) ;;;
        let! d1 := get in
        match vesting_streams d1 !! a with
        | None => throw (OtherError "Cannot read properties of undefined")
        | Some row1 =>
            (if bool_decide (triggeringEvent opts ≠ None)
                || bool_decide (ledgerSequence opts ≠ None)
             then
               let! led := match ledgerSequence opts with
                           | Some n => let! z := pg_integer n in ret (Some z)
                           | None => ret None
                           end in
               modify (with_transitions
                 (annotate_newest (TriggeringEvent_text <$> triggeringEvent opts) led a from to))
             else ret tt) ;;;
            ret (TransitionResult a from to (status_updated_at row1))
        end
  end.

(** The ledger, when given, is one the [integer] column can hold. *)
Definition integer_ledger (opts : StatusTransitionOptions) : bool :=
  match ledgerSequence opts with Some n => fits 32 n | None => true end.

Definition expirable (currentLedger : Z) (r : stream_row) : bool :=
  bool_decide (status r ∈ [active; pre_cliff]) && (end_ledger r <? currentLedger).

Definition expireStreams (now currentLedger : Z) : dbM Z :=
  exec_update now (UpdateStreams (set_status expired) true (λ _, expirable currentLedger) false).

Definition getStreamStatus (d : db) (a : string) : option (StreamStatus * Z) :=
  (λ r, (status r, status_updated_at r)) <$> vesting_streams d !! a.

(** ** The expiry job *)

(** What [fetch] of [getLatestLedger] gives: it throws (network, timeout,
    malformed JSON), or answers with an HTTP status flag, a JSON-RPC error
    member and the sequence. *)
Inductive rpc_answer :=
| RpcThrows
| RpcAnswer (ok : bool) (error : bool) (sequence : option Z).

Definition getCurrentLedger (rpc : string → rpc_answer) (rpcUrl : string) : option Z :=
  match rpc rpcUrl with
  | RpcThrows => None
  | RpcAnswer ok error sequence =>
      if negb ok then None
      else if error then None
      else sequence
  end.

Record ExpiryJobResult := ExpiryResult { job_expired : Z; job_currentLedger : Z }.

(** [SOROBAN_RPC_URLS] split on commas, else [SOROBAN_RPC_URL]. *)
Definition expiry_rpc_url (urls url : option string) : option string :=
  match comma_list (default "" urls) with
  | u :: _ => Some u
  | [] => url
  end.

Definition runExpiryJob (rpc : string → rpc_answer) (urls url : option string) (now : Z)
    : dbM ExpiryJobResult :=
  match expiry_rpc_url urls url with
  | None => ret (ExpiryResult 0 0)
  | Some rpcUrl =>
      if negb (truthy rpcUrl) then ret (ExpiryResult 0 0) else
      match getCurrentLedger rpc rpcUrl with
      | None => ret (ExpiryResult 0 0)
      | Some currentLedger =>
          let! n := expireStreams now currentLedger in
          ret (ExpiryResult n currentLedger)
      end
  end.

(** ** The audit trail *)

Definition history (a : string) (trs : list transition_row) : list transition_row :=
  filter (λ t, tr_recipient t = a) trs.

(** [trs], newest first, is a path of proper legal transitions ending in [st]. *)
Fixpoint path_to (st : StreamStatus) (trs : list transition_row) : Prop :=
  match trs with
  | [] => True
  | t :: trs' =>
      tr_to t = st ∧ tr_from t ≠ st ∧ isValidTransition (tr_from t) st = true ∧
      path_to (tr_from t) trs'
  end.

(** The row's audit trail leads to its status and dates it. *)
Definition audited (r : stream_row) (trs : list transition_row) : Prop :=
  path_to (status r) trs ∧
  match trs with
  | [] => True
  | t :: _ => status_updated_at r = tr_created_at t
  end.

Definition audit_ok (d : db) : Prop :=
  ∀ a, match vesting_streams d !! a with
       | Some r => audited r (history a (stream_status_transitions d))
       | None => history a (stream_status_transitions d) = []
       end.

(** How many transitions a stream can still make. *)
Definition rank (st : StreamStatus) : nat :=
  match st with
  | pre_cliff => 3
  | active => 2
  | expired => 1
  | cancelled | drained | clawedback => 0
  end%nat.

Definition terminal (st : StreamStatus) : bool :=
  bool_decide (VALID_TRANSITIONS st = []).

(** An [UPDATE] that leaves [status_updated_at] to the trigger, and [status]
    alone unless the trigger sees it. *)
Definition well_behaved (u : update_streams) : Prop :=
  ∀ r, status_updated_at (upd_set u r) = status_updated_at r ∧
       (upd_sets_status u = false → status (upd_set u r) = status r).

(** What the operations of the pipeline do to the two status tables: [UPDATE]s
    of [vesting_streams] that complete, metadata written on audit rows, and
    writes to the other tables. *)
Inductive db_step : db → db → Prop :=
| step_update now u d n d' :
    well_behaved u → exec_update now u d = (Ok n, d') → db_step d d'
| step_annotate ev led a from to d :
    db_step d (with_transitions (annotate_newest ev led a from to) d)
| step_frame d d' :
    vesting_streams d' = vesting_streams d →
    stream_status_transitions d' = stream_status_transitions d → db_step d d'.

(** ** Lemmas *)

Lemma isValidTransition_check from to :
  isValidTransition from to = check_stream_status_transition from to.
Proof. by destruct from, to. Qed.

Lemma rank_decreases from to :
  isValidTransition from to = true → from ≠ to → (rank to < rank from)%nat.
Proof. destruct from, to; vm_compute; intros; solve [done | lia]. Qed.

Lemma terminal_no_transition from to :
  terminal from = true → isValidTransition from to = true → to = from.
Proof. by destruct from, to. Qed.

Lemma path_to_rank st trs t : path_to st trs → t ∈ trs → (rank st ≤ rank (tr_to t))%nat.
Proof.
  revert st. induction trs as [|t0 trs IH]; intros st Hp Hin; [by apply elem_of_nil in Hin|].
  destruct Hp as (<- & Hne & Hv & Hp).
  apply elem_of_cons in Hin as [->|Hin]; [lia|].
  pose proof (IH _ Hp Hin). pose proof (rank_decreases _ _ Hv Hne). lia.
Qed.

Lemma path_to_length st trs : path_to st trs → (length trs + rank st ≤ 3)%nat.
Proof.
  revert st. induction trs as [|t trs IH]; intros st Hp; [destruct st; simpl; lia|].
  destruct Hp as (<- & Hne & Hv & Hp). pose proof (IH _ Hp).
  pose proof (rank_decreases _ _ Hv Hne). simpl. lia.
Qed.

(** No row of the trail is a transition that is still to come. *)
Lemma history_fresh a from to trs :
  path_to from (history a trs) → isValidTransition from to = true → from ≠ to →
  filter (λ t, tr_matches a from to t = true) trs = [].
Proof.
  intros Hp Hv Hne. pose proof (rank_decreases _ _ Hv Hne) as Hr.
  destruct (filter _ trs) as [|t l] eqn:Hf; [done|]. exfalso.
  assert (t ∈ filter (λ t, tr_matches a from to t = true) trs) as Hin by (rewrite Hf; left).
  apply list_elem_of_filter in Hin as [Hm Hin].
  unfold tr_matches in Hm. rewrite !andb_true_iff, !bool_decide_eq_true in Hm.
  destruct Hm as [[Ha Hfrom] Hto].
  pose proof (path_to_rank _ _ t Hp). rewrite Hto in H.
  assert (t ∈ history a trs) by (by apply list_elem_of_filter). specialize (H H0). lia.
Qed.

Lemma newest_singleton t : newest [t] = Some t.
Proof. done. Qed.

Lemma fmap_annotate_id P ev led (trs : list transition_row) :
  filter (λ t, P t = true) trs = [] → ∀ q,
  (λ t, if P t && bool_decide (tr_id t = q) then annotate_row ev led t else t) <$> trs = trs.
Proof.
  intros Hf q. rewrite <-(list_fmap_id trs) at 2. apply list_fmap_ext. intros i t Ht.
  apply list_elem_of_lookup_2 in Ht. destruct (P t) eqn:HP; [|done].
  assert (t ∈ filter (λ t, P t = true) trs) as Hin by (by apply list_elem_of_filter).
  rewrite Hf in Hin. by apply elem_of_nil in Hin.
Qed.

(** Annotating right after the transition touches the new row only. *)
Lemma annotate_newest_cons ev led a from to t trs :
  tr_matches a from to t = true →
  filter (λ t, tr_matches a from to t = true) trs = [] →
  annotate_newest ev led a from to (t :: trs) = annotate_row ev led t :: trs.
Proof.
  intros Hm Hf. unfold annotate_newest. rewrite filter_cons_True by done.
  rewrite Hf, newest_singleton. rewrite fmap_cons, Hm, bool_decide_eq_true_2 by done.
  simpl. f_equal. by apply fmap_annotate_id.
Qed.

(** *** The trigger keeps the audit trail *)

Lemma history_cons_eq a t trs : tr_recipient t = a → history a (t :: trs) = t :: history a trs.
Proof. intros. unfold history. by rewrite filter_cons_True. Qed.
Lemma history_cons_ne a t trs : tr_recipient t ≠ a → history a (t :: trs) = history a trs.
Proof. intros. unfold history. by rewrite filter_cons_False. Qed.

Lemma audited_ext r r' trs :
  status r' = status r → status_updated_at r' = status_updated_at r →
  audited r trs → audited r' trs.
Proof. unfold audited. by intros -> ->. Qed.

Lemma audit_ok_insert d k r r' :
  vesting_streams d !! k = Some r →
  audited r' (history k (stream_status_transitions d)) →
  audit_ok d → audit_ok (with_streams <[k := r']> d).
Proof.
  intros Hk Hr Hd a. simpl. destruct (decide (k = a)) as [<-|Hne].
  - by rewrite lookup_insert_eq.
  - rewrite lookup_insert_ne by done. apply (Hd a).
Qed.

Lemma audit_ok_transition now d k r r' ev led id :
  vesting_streams d !! k = Some r →
  status r ≠ status r' → isValidTransition (status r) (status r') = true →
  status_updated_at r' = now →
  audit_ok d →
  audit_ok (with_transitions (cons (TransitionRow id k (status r) (status r') ev led now))
              (with_streams <[k := r']> d)).
Proof.
  intros Hk Hne Hv Hnow Hd a. simpl. destruct (decide (k = a)) as [<-|Hka].
  - rewrite lookup_insert_eq, history_cons_eq by done.
    pose proof (Hd k) as Hdk. rewrite Hk in Hdk. destruct Hdk as [Hp _].
    repeat split; done.
  - rewrite lookup_insert_ne, history_cons_ne by done. apply (Hd a).
Qed.

Lemma update_row_audit now u d k r d' :
  well_behaved u → audit_ok d → vesting_streams d !! k = Some r →
  update_row now u d (k, r) = Ok d' → audit_ok d'.
Proof.
  intros Hu Hd Hk. destruct (Hu r) as [Ht Hs].
  pose proof (Hd k) as Hdk. rewrite Hk in Hdk.
  unfold update_row, fn_stream_status_audit.
  destruct (upd_sets_status u).
  - destruct (decide (status r = status (upd_set u r))) as [E|E].
    + intros [= <-]. eapply (audit_ok_insert d); [done| |done].
      by eapply audited_ext; [| |exact Hdk].
    + destruct (check_stream_status_transition _ _) eqn:Hc; [|done].
      rewrite <-isValidTransition_check in Hc. intros [= <-].
      exact (audit_ok_transition now d k r (set_status_updated_at now (upd_set u r))
               _ _ _ Hk E Hc eq_refl Hd).
  - intros [= <-]. eapply audit_ok_insert; [done| |done].
    eapply audited_ext; [by apply Hs|done|done].
Qed.

Lemma exec_update_audit now u d r d' :
  well_behaved u → audit_ok d → exec_update now u d = (r, d') → audit_ok d'.
Proof.
  intros Hu Hd. apply (exec_update_ind audit_ok); [|done].
  intros. eapply update_row_audit; eauto.
Qed.

Lemma set_status_well_behaved st w : well_behaved (UpdateStreams (set_status st) true w false).
Proof. by intros r. Qed.

Lemma annotate_rows ev led a from to trs :
  ∃ f : transition_row → transition_row, annotate_newest ev led a from to trs = f <$> trs ∧
    ∀ t, tr_recipient (f t) = tr_recipient t ∧ tr_from (f t) = tr_from t ∧
         tr_to (f t) = tr_to t ∧ tr_created_at (f t) = tr_created_at t.
Proof.
  unfold annotate_newest. destruct (newest _) as [b|].
  - eexists; split; [done|]. intros t. simpl. by case_match.
  - exists id. by rewrite list_fmap_id.
Qed.

Lemma history_fmap f a trs :
  (∀ t, tr_recipient (f t) = tr_recipient t) → history a (f <$> trs) = f <$> history a trs.
Proof.
  intros Hf. induction trs as [|t trs IH]; [done|]. rewrite fmap_cons.
  destruct (decide (tr_recipient t = a)) as [E|E].
  - rewrite !history_cons_eq by (rewrite ?Hf; done). by rewrite IH.
  - rewrite !history_cons_ne by (rewrite ?Hf; done). done.
Qed.

Lemma path_to_fmap f st trs :
  (∀ t, tr_from (f t) = tr_from t ∧ tr_to (f t) = tr_to t) →
  path_to st trs → path_to st (f <$> trs).
Proof.
  intros Hf. revert st. induction trs as [|t trs IH]; intros st; [done|]. simpl.
  destruct (Hf t) as [-> ->]. naive_solver.
Qed.

Lemma annotate_audit ev led a from to d :
  audit_ok d → audit_ok (with_transitions (annotate_newest ev led a from to) d).
Proof.
  intros Hd k. pose proof (Hd k) as Hk. simpl.
  destruct (annotate_rows ev led a from to (stream_status_transitions d)) as (f & -> & Hf).
  rewrite history_fmap by (intros; apply Hf). destruct (vesting_streams d !! k) as [r|].
  - destruct Hk as [Hp Ht]. split; [apply path_to_fmap; [|done]; intros; split; apply Hf|].
    destruct (history k _) as [|t ?]; [done|]. simpl. destruct (Hf t) as (_ & _ & _ & ->). done.
  - by rewrite Hk.
Qed.

Lemma step_audit d d' : db_step d d' → audit_ok d → audit_ok d'.
Proof.
  intros [now u d0 n d1 Hu Hrun|ev led a from to d0|d0 d1 Hs Ht] Hd.
  - by eapply exec_update_audit.
  - by apply annotate_audit.
  - intros a. rewrite Hs, Ht. apply (Hd a).
Qed.

(** A completed [UPDATE] moves each status along the table or not at all. *)
Lemma exec_update_status now u d n d' a r :
  well_behaved u → exec_update now u d = (Ok n, d') → vesting_streams d !! a = Some r →
  ∃ r', vesting_streams d' !! a = Some r' ∧ isValidTransition (status r) (status r') = true.
Proof.
  intros Hu Hrun Hr. pose proof (exec_update_ok _ _ _ _ _ Hrun) as [_ Hl].
  rewrite (Hl a), Hr. eexists; split; [done|].
  destruct (upd_where u a r) eqn:Hw; [|by destruct (status r)].
  assert (status (updated_row now u r) = status (upd_set u r)) as ->.
  { unfold updated_row. by case_match. }
  pose proof (exec_update_all_accepted _ _ _ _ _ Hrun _ _ Hr Hw) as Ha.
  unfold update_accepted in Ha. destruct (upd_sets_status u) eqn:Hset.
  - by rewrite isValidTransition_check.
  - destruct (Hu r) as [_ Hs]. rewrite Hs by done. by destruct (status r).
Qed.

Lemma step_status d d' a r :
  db_step d d' → vesting_streams d !! a = Some r →
  ∃ r', vesting_streams d' !! a = Some r' ∧ isValidTransition (status r) (status r') = true.
Proof.
  intros [now u d0 n d1 Hu Hrun|ev led k from to d0|d0 d1 Hs Ht] Hr.
  - by eapply exec_update_status.
  - exists r. split; [done|]. by destruct (status r).
  - exists r. rewrite Hs. split; [done|]. by destruct (status r).
Qed.

Lemma steps_audit d d' : rtc db_step d d' → audit_ok d → audit_ok d'.
Proof. induction 1; eauto using step_audit. Qed.

Lemma steps_status d d' a r :
  rtc db_step d d' → vesting_streams d !! a = Some r →
  ∃ r', vesting_streams d' !! a = Some r' ∧
    rtc (λ s t, isValidTransition s t = true) (status r) (status r').
Proof.
  intros Hs. revert r. induction Hs as [|d d1 d2 H1 _ IH]; intros r Hr; [eauto using rtc_refl|].
  destruct (step_status _ _ _ _ H1 Hr) as (r1 & Hr1 & Hv).
  destruct (IH _ Hr1) as (r2 & Hr2 & Hp). eauto using rtc_l.
Qed.

(** No operation adds a stream. *)
Lemma steps_dom d d' a :
  rtc db_step d d' → vesting_streams d !! a = None → vesting_streams d' !! a = None.
Proof.
  induction 1 as [|d d1 d2 H1 _ IH]; [done|]. intros Hd. apply IH.
  destruct H1 as [now u d0 n d1 _ Hrun|ev led k from to d0|d0 d1 Hs _]; [|done|by rewrite Hs].
  apply exec_update_ok in Hrun as [_ Hl]. by rewrite Hl, Hd.
Qed.

(** A status that admits no transition is kept. *)
Lemma steps_terminal d d' a st :
  rtc db_step d d' → terminal st = true →
  (∀ r, vesting_streams d !! a = Some r → status r = st) →
  ∀ r, vesting_streams d' !! a = Some r → status r = st.
Proof.
  intros Hs Ht Hc r' Hr'. destruct (vesting_streams d !! a) as [r|] eqn:Hr.
  - destruct (steps_status _ _ _ _ Hs Hr) as (r'' & Hr'' & Hp). simplify_eq.
    rewrite (Hc _ eq_refl) in Hp. clear -Hp Ht.
    induction Hp as [|x y z Hv _ IH]; [done|].
    pose proof (terminal_no_transition _ _ Ht Hv) as ->. auto.
  - by rewrite (steps_dom _ _ _ Hs Hr) in Hr'.
Qed.

Lemma expire_accepted L r :
  expirable L r = true →
  update_accepted (UpdateStreams (set_status expired) true (λ _, expirable L) false) r = true.
Proof.
  unfold expirable. rewrite andb_true_iff, bool_decide_eq_true. intros [Hs _].
  unfold update_accepted. simpl.
  rewrite !elem_of_cons, elem_of_nil in Hs. destruct Hs as [->|[->|[]]]; done.
Qed.

Lemma expirable_updated now L r :
  expirable L r = true →
  updated_row now (UpdateStreams (set_status expired) true (λ _, expirable L) false) r
    = set_status_updated_at now (set_status expired r).
Proof.
  unfold expirable. rewrite andb_true_iff, bool_decide_eq_true. intros [Hs _].
  unfold updated_row. rewrite bool_decide_eq_true_2; [done|].
  simpl. rewrite !elem_of_cons, elem_of_nil in Hs. destruct Hs as [->|[->|[]]]; done.
Qed.

Lemma exec_update_none now u d :
  upd_on_conflict u = false →
  (∀ a r, vesting_streams d !! a = Some r → upd_where u a r = false) →
  exec_update now u d = (Ok 0, d).
Proof.
  intros Hc Hn. unfold exec_update. rewrite Hc.
  assert (matching u d = ∅) as ->; [|by rewrite map_to_list_empty].
  apply map_empty. intros a. apply map_lookup_filter_None. right.
  intros r Hr. simpl. rewrite (Hn a r Hr). done.
Qed.

(** The transition on every branch. *)
Lemma transitionStreamStatus_run now opts d :
  audit_ok d → integer_ledger opts = true →
  transitionStreamStatus now opts d =
    let a := recipientAddress opts in
    let to := toStatus opts in
    match vesting_streams d !! a with
    | None => (Err (StreamNotFoundError a), d)
    | Some r =>
        if decide (status r = to) then (Ok (TransitionResult a to to (status_updated_at r)), d)
        else if isValidTransition (status r) to then
          (Ok (TransitionResult a (status r) to now),
           with_transitions
             (cons (TransitionRow (length (stream_status_transitions d)) a (status r) to
                      (TriggeringEvent_text <$> triggeringEvent opts) (mjoin (ledgerSequence opts)) now))
             (with_streams <[a := set_status_updated_at now (set_status to r)]> d))
        else (Err (StatusTransitionError (status r) to), d)
    end.
Proof.
  intros Hd Hled. destruct opts as [a to ev led]. pose proof (Hd a) as Ha.
  unfold transitionStreamStatus, bind, get, ret, throw, modify. cbn -[exec_update update_status_of isValidTransition].
  destruct (vesting_streams d !! a) as [r|] eqn:Hr; [|done].
  case_decide as E; [by rewrite E|].
  destruct (isValidTransition (status r) to) eqn:Hv; [|done]. cbn [negb].
  unfold update_status_of. rewrite exec_update_recipient, Hr.
  unfold update_row, fn_stream_status_audit. cbn [upd_set upd_sets_status status set_status].
  rewrite decide_False by done.
  rewrite <-isValidTransition_check, Hv. cbn [vesting_streams with_transitions with_streams].
  rewrite lookup_insert_eq. destruct Ha as [Hp _].
  pose proof (history_fresh _ _ _ _ Hp Hv E) as Hf.
  unfold integer_ledger in Hled. cbn [ledgerSequence] in Hled.
  destruct ev as [ev|], led as [[z|]|]; try discriminate Hled; cbn [mjoin option_join fmap]; simpl;
    rewrite ?(pg_int_ok _ _ _ Hled); simpl; try done;
    unfold with_transitions; simpl;
    rewrite annotate_newest_cons by
      (try done; unfold tr_matches; simpl; by rewrite !bool_decide_eq_true_2); done.
Qed.

(** ** Properties *)

(** C4. [transitionStreamStatus] on every branch: an unknown recipient and an
    illegal transition throw and leave the database as it was, the identity
    transition returns the stored timestamp and writes nothing, and a legal
    transition updates exactly that row and adds exactly one audit row, which
    carries the triggering event and ledger.  The database's trigger never
    rejects what the application guard accepted, and the [ORDER BY created_at
    DESC LIMIT 1] update always finds the row just written. *)
Theorem transitionStreamStatus_spec now opts d :
  audit_ok d → integer_ledger opts = true →
  transitionStreamStatus now opts d =
    let a := recipientAddress opts in
    let to := toStatus opts in
    match vesting_streams d !! a with
    | None => (Err (StreamNotFoundError a), d)
    | Some r =>
        if decide (status r = to) then (Ok (TransitionResult a to to (status_updated_at r)), d)
        else if isValidTransition (status r) to then
          (Ok (TransitionResult a (status r) to now),
           with_transitions
             (cons (TransitionRow (length (stream_status_transitions d)) a (status r) to
                      (TriggeringEvent_text <$> triggeringEvent opts) (mjoin (ledgerSequence opts)) now))
             (with_streams <[a := set_status_updated_at now (set_status to r)]> d))
        else (Err (StatusTransitionError (status r) to), d)
    end.
Proof. apply transitionStreamStatus_run. Qed.

(** C6. The audit trail is complete: after any sequence of the pipeline's
    operations, the transitions recorded for a stream, newest first, are a
    chain of proper transitions of the table that ends in the stream's current
    status, the newest one dates [status_updated_at], and there are at most
    three of them. *)
Theorem audit_trail_complete d d' a r :
  audit_ok d → rtc db_step d d' → vesting_streams d' !! a = Some r →
  audited r (history a (stream_status_transitions d')) ∧
  (length (history a (stream_status_transitions d')) ≤ 3)%nat.
Proof.
  intros Hd Hs Hr. pose proof (steps_audit _ _ Hs Hd a) as Ha. rewrite Hr in Ha.
  split; [done|]. destruct Ha as [Hp _]. apply path_to_length in Hp. lia.
Qed.

(** Status is monotone: operations of the pipeline never remove a stream,
    never move it back along the order pre_cliff, active, expired, and never
    move it out of cancelled, drained or clawedback. *)
Theorem status_monotone d d' a r :
  rtc db_step d d' → vesting_streams d !! a = Some r →
  ∃ r', vesting_streams d' !! a = Some r' ∧
    (rank (status r') ≤ rank (status r))%nat ∧
    (terminal (status r) = true → status r' = status r).
Proof.
  intros Hs Hr. destruct (steps_status _ _ _ _ Hs Hr) as (r' & Hr' & Hp).
  exists r'. split; [done|]. clear -Hp. split.
  - induction Hp as [|x y z Hv _ IH]; [lia|]. destruct (decide (x = y)) as [->|Hne]; [done|].
    pose proof (rank_decreases _ _ Hv Hne). lia.
  - intros Ht. induction Hp as [|x y z Hv _ IH]; [done|].
    pose proof (terminal_no_transition _ _ Ht Hv) as ->. auto.
Qed.

(** [expireStreams] never fails: it moves exactly the active and pre-cliff
    streams whose [end_ledger] is behind the current ledger to expired, returns
    how many there were, leaves every other row as it is, and a second run at
    the same ledger finds nothing to do. *)
Theorem expireStreams_spec now L d :
  ∃ d', expireStreams now L d
      = (Ok (Z.of_nat (size (filter (λ kr, expirable L kr.2 = true) (vesting_streams d)))), d') ∧
    (∀ a, vesting_streams d' !! a =
       (λ r, if expirable L r then set_status_updated_at now (set_status expired r) else r)
         <$> vesting_streams d !! a) ∧
    (∀ now', expireStreams now' L d' = (Ok 0, d')).
Proof.
  destruct (exec_update_accepted now
              (UpdateStreams (set_status expired) true (λ _, expirable L) false) d)
    as (n & d' & Hrun); [done|by intros; eapply expire_accepted|].
  pose proof (exec_update_ok _ _ _ _ _ Hrun) as [-> Hl]. simpl in Hl.
  exists d'. split; [exact Hrun|]. split.
  - intros a. rewrite (Hl a). destruct (vesting_streams d !! a) as [r|]; [|done]. simpl.
    destruct (expirable L r) eqn:He; [|done]. by rewrite expirable_updated.
  - intros now'. apply exec_update_none; [done|]. intros a r Hr. simpl.
    rewrite (Hl a) in Hr. destruct (vesting_streams d !! a) as [r0|]; simplify_eq/=.
    destruct (expirable L r0) eqn:He; [|done]. by rewrite expirable_updated.
Qed.

(** The expiry job never throws, and a stream changes only when an RPC
    endpoint answered without error with a ledger past its [end_ledger]: the
    stream is then expired.  With no URL, or an endpoint that fails, nothing
    changes. *)
Theorem runExpiryJob_safe rpc urls url now d :
  ∃ res d', runExpiryJob rpc urls url now d = (Ok res, d') ∧
    ∀ a, vesting_streams d' !! a = vesting_streams d !! a ∨
      ∃ r rpcUrl L, vesting_streams d !! a = Some r ∧
        expiry_rpc_url urls url = Some rpcUrl ∧ rpc rpcUrl = RpcAnswer true false (Some L) ∧
        expirable L r = true ∧ job_currentLedger res = L ∧
        vesting_streams d' !! a = Some (set_status_updated_at now (set_status expired r)).
Proof.
  unfold runExpiryJob. destruct (expiry_rpc_url urls url) as [u|] eqn:Hu; [|eauto 6].
  destruct (truthy u); [|by eauto 6]. simpl. unfold getCurrentLedger.
  destruct (rpc u) as [|ok error [L|]] eqn:Hrpc; [by eauto 6| |by destruct ok, error; eauto 6].
  destruct ok; [|by eauto 6]. destruct error; [by eauto 6|]. simpl.
  destruct (exec_update_accepted now
              (UpdateStreams (set_status expired) true (λ _, expirable L) false) d)
    as (n & d' & Hrun); [done|by intros; eapply expire_accepted|].
  pose proof (exec_update_ok _ _ _ _ _ Hrun) as [_ Hl]. simpl in Hl.
  exists (ExpiryResult n L), d'. split; [by unfold expireStreams, bind; rewrite Hrun|].
  intros a. rewrite (Hl a). destruct (vesting_streams d !! a) as [r|] eqn:Hr; [|by left].
  simpl. destruct (expirable L r) eqn:He; [right|by left].
  exists r, u, L. by rewrite expirable_updated.
Qed.

(** ** Witnesses *)

Definition sample_row (st : StreamStatus) (end_ : Z) : stream_row :=
  StreamRow st 10 "GSPONSOR" "CTOKEN" 5 100 150 end_ 10 None None None None None None None None
    None None None None None.
Definition sample_db (st : StreamStatus) : db :=
  Db {[ "GALICE" := sample_row st 200; "GBOB" := sample_row expired 120 ]} [] [] ∅ (Some "7").

Lemma sample_audit st : audit_ok (sample_db st).
Proof. intros a. simpl. by case_match. Qed.

Lemma transitionStreamStatus_spec_witness :
  audit_ok (sample_db active) ∧
  fst (transitionStreamStatus 42
         (TransitionOptions "GALICE" cancelled (Some TrStreamCancelled) (Some (Some 180)))
         (sample_db active))
    = Ok (TransitionResult "GALICE" active cancelled 42).
Proof.
  split; [apply sample_audit|].
  rewrite (transitionStreamStatus_spec 42
             (TransitionOptions "GALICE" cancelled (Some TrStreamCancelled) (Some (Some 180)))
             (sample_db active) (sample_audit active) eq_refl).
  vm_compute. reflexivity.
Defined.

Definition cancelled_db : db :=
  snd (exec_update 42 (update_status_of "GALICE" cancelled) (sample_db pre_cliff)).

Lemma cancelled_step : rtc db_step (sample_db pre_cliff) cancelled_db.
Proof.
  eapply rtc_once, (step_update 42 (update_status_of "GALICE" cancelled) _ 1).
  - apply set_status_well_behaved.
  - vm_compute. reflexivity.
Qed.

Lemma audit_trail_complete_witness :
  ∃ r, vesting_streams cancelled_db !! "GALICE" = Some r ∧ status r = cancelled ∧
    audited r (history "GALICE" (stream_status_transitions cancelled_db)).
Proof.
  eexists. split; [vm_compute; reflexivity|]. split; [reflexivity|].
  refine (proj1 (audit_trail_complete (sample_db pre_cliff) cancelled_db "GALICE" _
                   (sample_audit pre_cliff) cancelled_step _)).
  vm_compute. reflexivity.
Defined.

Lemma status_monotone_witness :
  ∃ r', vesting_streams cancelled_db !! "GBOB" = Some r' ∧
    (rank (status r') ≤ rank expired)%nat ∧ (terminal expired = true → status r' = expired).
Proof.
  exact (status_monotone (sample_db pre_cliff) cancelled_db "GBOB" (sample_row expired 120)
           cancelled_step eq_refl).
Defined.
