(* ===== verification/Balances.v ===== *)
(** * Claimed totals and remaining balances

    [backend/src/indexer/balanceTracker.ts] and the daily reconciliation of
    [backend/src/jobs/balanceReconciliation.ts]: the upserts on
    [stream_balances], the recomputation from [stream_events], and the
    invariants that tie a balance row to the event log. *)
From S2P Require Import Prelude Decoder Db.

(** ** The tracker *)

Record StreamBalance := StreamBalance_ {
  sb_stream_id : string;
  sb_total_deposit : string;
  sb_claimed_total : string;
  sb_remaining : string;
  sb_rate : option string;
  sb_total_duration : option Z;
  sb_updated_at : Z }.

Record BalanceUpdateResult := BalanceUpdate {
  bu_stream_id : string;
  bu_claimed_total : string;
  bu_remaining : string }.

(** [INSERT INTO stream_balances ... ON CONFLICT (stream_id) DO UPDATE ...
    RETURNING]: the row [ins] when there is none, else [upd] of the row. *)
Definition upsert_balance (stream_id : string) (ins : balance_row)
    (upd : balance_row → balance_row) : dbM balance_row :=
  pg_varchar 56 stream_id ;;;
  let! d := get in
  let row := match stream_balances d !! stream_id with Some r => upd r | None => ins end in
  modify (with_balances <[stream_id := row]>) ;;;
  ret row.

Definition initStreamBalance (now : Z) (streamId totalDeposit rate_ : string) (totalDuration : Z)
    : dbM unit :=
  let! deposit := pg_numeric totalDeposit in
  let! rate_n := pg_numeric rate_ in
  upsert_balance streamId
    (BalanceRow deposit 0 deposit (Some rate_n) (Some totalDuration) now)
    (λ r, BalanceRow deposit (claimed_total r) (deposit - claimed_total r)
            (Some rate_n) (Some totalDuration) now) ;;;
  ret tt.

(** [$2] is taken as [numeric], as its column is, in [-$2] too. *)
Definition incrementClaimedTotal (now : Z) (streamId amount : string) : dbM BalanceUpdateResult :=
  let! n := pg_numeric amount in
  let! r := upsert_balance streamId
    (BalanceRow 0 n (- n) None None now)
    (λ r, BalanceRow (total_deposit r) (claimed_total r + n)
            (total_deposit r - (claimed_total r + n)) (rate r) (total_duration r) now) in
  ret (BalanceUpdate streamId (Z_to_string (claimed_total r)) (Z_to_string (remaining r))).

Definition getStreamBalance (d : db) (streamId : string) : option StreamBalance :=
  (λ r, StreamBalance_ streamId (Z_to_string (total_deposit r)) (Z_to_string (claimed_total r))
          (Z_to_string (remaining r)) (Z_to_string <$> rate r) (total_duration r)
          (bal_updated_at r)) <$> stream_balances d !! streamId.

(** [SELECT COALESCE(SUM(amount::numeric), 0) FROM stream_events WHERE
    recipient = $1 AND event_type = 'TokensClaimed'] *)
Definition is_claim_of (streamId : string) (e : event_row) : bool :=
  bool_decide (er_recipient e = streamId) && bool_decide (er_event_type e = TokensClaimed).
Definition claim_amount (streamId : string) (e : event_row) : Z :=
  if is_claim_of streamId e then default 0 (er_amount e) else 0.
Definition claims_total (evs : list event_row) (streamId : string) : Z :=
  foldr (λ e acc, claim_amount streamId e + acc) 0 evs.

(** [BigInt(text)] *)
Definition js_BigInt (s : string) : dbM Z :=
  match Z_of_string s with Some z => ret z | None => throw (OtherError "SyntaxError") end.

Definition read_totals (d : db) (streamId : string) : option BalanceUpdateResult :=
  (λ r, BalanceUpdate streamId (Z_to_string (claimed_total r)) (Z_to_string (remaining r)))
    <$> stream_balances d !! streamId.

Definition recomputeBalance (now : Z) (streamId : string) : dbM (option BalanceUpdateResult) :=
  let! d := get in
  let claimedTotal := Z_to_string (claims_total (stream_events d) streamId) in
  match Z_to_string ∘ total_deposit <$> stream_balances d !! streamId with
  | None =>
      let! n := pg_numeric claimedTotal in
      upsert_balance streamId
        (BalanceRow 0 n (- n) None None now)
        (λ r, BalanceRow (total_deposit r) n (total_deposit r - n) (rate r) (total_duration r) now) ;;;
      ret tt
  | Some totalDeposit =>
      let! a := js_BigInt totalDeposit in
      let! b := js_BigInt claimedTotal in
      let remaining_text := Z_to_string (a - b) in
      let! n := pg_numeric claimedTotal in
      let! m := pg_numeric remaining_text in
      modify (with_balances (alter (λ r, BalanceRow (total_deposit r) n m (rate r)
                                           (total_duration r) now) streamId))
  end ;;;
  let! d' := get in
  ret (read_totals d' streamId).

(** ** The reconciliation job *)

Record ReconciliationResult := Reconciliation { checked : Z; corrected : Z; errors : Z }.

Definition reconcile_row (now : Z) (acc : ReconciliationResult) (row : string * string)
    : dbM ReconciliationResult :=
  let '(stream_id, stored) := row in
  let acc := Reconciliation (checked acc + 1) (corrected acc) (errors acc) in
  try_catch
    (let! recomputed := recomputeBalance now stream_id in
     match recomputed with
     | None => ret acc
     | Some rc =>
         let! storedTotal := js_BigInt stored in
         let! recomputedTotal := js_BigInt (bu_claimed_total rc) in
         if decide (storedTotal = recomputedTotal) then ret acc
         else ret (Reconciliation (checked acc) (corrected acc + 1) (errors acc))
     end)
    (λ _, ret (Reconciliation (checked acc) (corrected acc) (errors acc + 1))).

(** [SELECT stream_id, claimed_total::text FROM stream_balances] *)
Definition stored_total (kr : string * balance_row) : string * string :=
  (kr.1, Z_to_string (claimed_total kr.2)).

(** The outer [catch] guards the initial [SELECT], which does not fail here. *)
Definition runBalanceReconciliation (now : Z) : dbM ReconciliationResult :=
  let! d := get in
  fold_each (stored_total <$> map_to_list (stream_balances d))
    (Reconciliation 0 0 0) (reconcile_row now).

(** ** What the balances mean *)

(** [remaining = total_deposit − claimed_total] on every row. *)
Definition remaining_ok (d : db) : Prop :=
  ∀ k r, stream_balances d !! k = Some r → remaining r = total_deposit r - claimed_total r.

(** The running total of a stream, 0 without a row. *)
Definition claimed (d : db) (k : string) : Z := default 0 (claimed_total <$> stream_balances d !! k).

(** The running total of every stream is the sum of its claim events. *)
Definition claims_ok (d : db) : Prop :=
  ∀ k, claimed d k = claims_total (stream_events d) k.

(** The row after a recomputation from a total of [n] claimed. *)
Definition recomputed (now n : Z) (r : balance_row) : balance_row :=
  BalanceRow (total_deposit r) n (total_deposit r - n) (rate r) (total_duration r) now.

Definition drifted (d : db) (kr : string * balance_row) : bool :=
  negb (bool_decide (claimed_total kr.2 = claims_total (stream_events d) kr.1)).

(** The operations on one stream's balance, in the order they arrive. *)
Inductive balance_op := OpInit (deposit rate_ : Z) (duration : Z) | OpClaim (n : Z).

Definition run_op (now : Z) (k : string) (op : balance_op) : dbM unit :=
  match op with
  | OpInit deposit rate_ dur =>
      initStreamBalance now k (Z_to_string deposit) (Z_to_string rate_) dur
  | OpClaim n => incrementClaimedTotal now k (Z_to_string n) ;;; ret tt
  end.

Definition op_claim (op : balance_op) : Z := match op with OpInit _ _ _ => 0 | OpClaim n => n end.
Definition op_deposit (dep : Z) (op : balance_op) : Z :=
  match op with OpInit deposit _ _ => deposit | OpClaim _ => dep end.

(** ** Lemmas *)

Lemma pg_numeric_text n d : pg_numeric (Z_to_string n) d = (Ok n, d).
Proof. unfold pg_numeric. by rewrite Z_of_to_string. Qed.
Lemma js_BigInt_text n d : js_BigInt (Z_to_string n) d = (Ok n, d).
Proof. unfold js_BigInt. by rewrite Z_of_to_string. Qed.
Lemma pg_varchar_ok n s d : str_length s <= n → pg_varchar n s d = (Ok tt, d).
Proof. intros. unfold pg_varchar. by rewrite (proj2 (Z.leb_le _ _)). Qed.
Lemma pg_varchar_err n s d :
  n < str_length s → pg_varchar n s d = (Err (PgError string_data_right_truncation), d).
Proof. intros. unfold pg_varchar. by rewrite (proj2 (Z.leb_gt _ _)). Qed.

Lemma upsert_balance_ok k ins upd d :
  str_length k <= 56 →
  upsert_balance k ins upd d =
    let row := match stream_balances d !! k with Some r => upd r | None => ins end in
    (Ok row, with_balances <[k := row]> d).
Proof. intros. unfold upsert_balance, bind. by rewrite pg_varchar_ok. Qed.

Lemma upsert_balance_err k ins upd d :
  56 < str_length k →
  upsert_balance k ins upd d = (Err (PgError string_data_right_truncation), d).
Proof. intros. unfold upsert_balance, bind. by rewrite pg_varchar_err. Qed.

Lemma upsert_balance_inv k ins upd d r d' :
  upsert_balance k ins upd d = (Ok r, d') →
  r = (match stream_balances d !! k with Some r => upd r | None => ins end) ∧
  d' = with_balances <[k := r]> d.
Proof.
  destruct (decide (str_length k <= 56)).
  - rewrite upsert_balance_ok by done. cbv zeta. intros; by simplify_eq.
  - rewrite upsert_balance_err by lia. done.
Qed.

Lemma claims_total_cons e evs k :
  claims_total (e :: evs) k = claim_amount k e + claims_total evs k.
Proof. done. Qed.

Lemma claims_total_app evs evs' k :
  claims_total (evs ++ evs') k = claims_total evs k + claims_total evs' k.
Proof.
  induction evs as [|e evs IH]; [done|]. simpl app. rewrite !claims_total_cons, IH. lia.
Qed.

#[global] Hint Rewrite pg_numeric_text js_BigInt_text : code.

(** [recomputeBalance] on a stream that has a row. *)
Lemma recomputeBalance_row now k d r :
  stream_balances d !! k = Some r →
  let n := claims_total (stream_events d) k in
  recomputeBalance now k d =
    (Ok (Some (BalanceUpdate k (Z_to_string n) (Z_to_string (total_deposit r - n)))),
     with_balances <[k := recomputed now n r]> d).
Proof.
  intros Hk n. unfold recomputeBalance, bind, get, modify, ret. rewrite Hk. simpl.
  repeat (autorewrite with code; simpl). unfold read_totals, with_balances.
  simpl. rewrite lookup_alter_eq, Hk. simpl. do 2 f_equal.
  apply map_eq. intros k'. destruct (decide (k = k')) as [<-|Hne].
  - by rewrite lookup_alter_eq, lookup_insert_eq, Hk.
  - by rewrite lookup_alter_ne, lookup_insert_ne.
Qed.

Lemma reconcile_row_ok now acc k c d r :
  stream_balances d !! k = Some r →
  reconcile_row now acc (k, Z_to_string c) d =
    let n := claims_total (stream_events d) k in
    (Ok (Reconciliation (checked acc + 1)
           (corrected acc + if decide (c = n) then 0 else 1) (errors acc)),
     with_balances <[k := recomputed now n r]> d).
Proof.
  intros Hk. unfold reconcile_row, try_catch, bind.
  rewrite (recomputeBalance_row now k d r Hk). simpl.
  repeat (autorewrite with code; simpl).
  case_decide; simpl; by rewrite ?Z.add_0_r.
Qed.

(** The loop over the rows read at the start. *)
Lemma reconcile_rows now rows acc d :
  NoDup rows.*1 → (∀ k r, (k, r) ∈ rows → stream_balances d !! k = Some r) →
  ∃ d', fold_each (stored_total <$> rows) acc (reconcile_row now) d
    = (Ok (Reconciliation (checked acc + Z.of_nat (length rows))
             (corrected acc + Z.of_nat (length (filter (λ kr, drifted d kr = true) rows)))
             (errors acc)), d') ∧
    vesting_streams d' = vesting_streams d ∧
    stream_status_transitions d' = stream_status_transitions d ∧
    stream_events d' = stream_events d ∧ indexer_cursors d' = indexer_cursors d ∧
    ∀ k, stream_balances d' !! k =
      match (list_to_map rows : gmap string balance_row) !! k with
      | Some r => Some (recomputed now (claims_total (stream_events d) k) r)
      | None => stream_balances d !! k
      end.
Proof.
  revert acc d. induction rows as [|[k r] rows IH]; intros acc d Hnd Hin.
  { exists d. simpl. rewrite !Z.add_0_r. by destruct acc. }
  apply NoDup_cons in Hnd as [Hk Hnd]. rewrite fmap_cons. cbn [fold_each]. unfold bind.
  assert (Hr : stream_balances d !! k = Some r) by (apply Hin; left).
  change (stored_total (k, r)) with (k, Z_to_string (claimed_total r)).
  rewrite (reconcile_row_ok now acc k _ d r Hr). cbv zeta.
  set (d1 := with_balances _ d).
  destruct (IH (Reconciliation (checked acc + 1)
     (corrected acc + (if decide (claimed_total r = claims_total (stream_events d) k) then 0 else 1))
     (errors acc)) d1 Hnd) as (d' & -> & Hs & Ht & He & Hc & Hl).
  { intros k' r' Hin'. subst d1. simpl. rewrite lookup_insert_ne; [apply Hin; by right|].
    intros ->. apply Hk. by apply (list_elem_of_fmap_2' fst rows (k', r')). }
  exists d'. split_and!; [|done..|].
  - do 2 f_equal. simpl checked. simpl corrected. simpl errors.
    replace (filter (λ kr, drifted d1 kr = true) rows)
      with (filter (λ kr, drifted d kr = true) rows) by done.
    assert (Hdr : drifted d (k, r)
      = negb (bool_decide (claimed_total r = claims_total (stream_events d) k))) by done.
    destruct (decide (claimed_total r = claims_total (stream_events d) k)) as [E|E].
    + rewrite bool_decide_eq_true_2 in Hdr by done.
      rewrite filter_cons_False by (by rewrite Hdr). f_equal; cbn [length]; lia.
    + rewrite bool_decide_eq_false_2 in Hdr by done.
      rewrite filter_cons_True by (by rewrite Hdr). f_equal; cbn [length]; lia.
  - intros k'. rewrite (Hl k'). simpl. destruct (decide (k = k')) as [<-|Hne].
    + rewrite (not_elem_of_list_to_map_1 rows k) by done. by rewrite !lookup_insert_eq.
    + by rewrite !lookup_insert_ne.
Qed.

Lemma filter_drifted_size d :
  length (filter (λ kr, drifted d kr = true) (map_to_list (stream_balances d)))
  = size (filter (λ kr, drifted d kr = true) (stream_balances d)).
Proof.
  rewrite map_filter_alt, <-length_map_to_list.
  apply Permutation_length. symmetry. apply map_to_list_to_map.
  eapply sublist_NoDup; [apply (NoDup_fst_map_to_list (stream_balances d))|].
  apply fmap_sublist, sublist_filter.
Qed.

(** [run_op] on a stream identifier that fits the column. *)
Lemma run_op_ok now k op d :
  str_length k <= 56 → remaining_ok d →
  ∃ r, run_op now k op d = (Ok tt, with_balances <[k := r]> d) ∧
    claimed_total r = default 0 (claimed_total <$> stream_balances d !! k) + op_claim op ∧
    total_deposit r = op_deposit (default 0 (total_deposit <$> stream_balances d !! k)) op ∧
    remaining r = total_deposit r - claimed_total r.
Proof.
  intros Hk Hd. pose proof (Hd k) as Hdk.
  destruct op as [deposit rt dur|n]; simpl;
    unfold initStreamBalance, incrementClaimedTotal, bind;
    repeat (rewrite ?pg_numeric_text; simpl); rewrite upsert_balance_ok by done; simpl;
    eexists; (split; [done|]); destruct (stream_balances d !! k) as [r|]; simpl; lia.
Qed.

Lemma remaining_ok_insert k r d :
  remaining_ok d → remaining r = total_deposit r - claimed_total r →
  remaining_ok (with_balances <[k := r]> d).
Proof.
  intros Hd Hr k' r'. simpl. rewrite lookup_insert_Some. intros [[<- <-]|[_ ?]]; eauto.
Qed.

(** ** Properties *)

(** The balance row of a stream depends on its claims only through their
    sum and on its creation only through the last deposit: for any interleaving
    of creation and claim events (the claim may arrive first, as
    [incrementClaimedTotal] provides for), [claimed_total] grows by the sum of
    the claims, [total_deposit] is the last deposit, and [remaining] is their
    difference. *)
Theorem balance_ops_total now k ops d :
  str_length k <= 56 → remaining_ok d → ops ≠ [] →
  ∃ d' r, for_each ops (run_op now k) d = (Ok tt, d') ∧
    stream_balances d' !! k = Some r ∧
    claimed_total r = default 0 (claimed_total <$> stream_balances d !! k)
                      + foldr (λ op acc, op_claim op + acc) 0 ops ∧
    total_deposit r = foldl op_deposit (default 0 (total_deposit <$> stream_balances d !! k)) ops ∧
    remaining r = total_deposit r - claimed_total r ∧
    (∀ k', k' ≠ k → stream_balances d' !! k' = stream_balances d !! k').
Proof.
  intros Hk. revert d. induction ops as [|op ops IH]; [done|]. intros d Hd _.
  destruct (run_op_ok now k op d Hk Hd) as (r & Hrun & Hc & Ht & Hr).
  simpl for_each. unfold bind at 1. rewrite Hrun.
  pose proof (remaining_ok_insert k r d Hd Hr) as Hd1.
  destruct ops as [|op' ops].
  - exists (with_balances <[k := r]> d), r. simpl. rewrite lookup_insert_eq, Z.add_0_r.
    split_and!; try done. intros k' Hne. by rewrite lookup_insert_ne.
  - destruct (IH _ Hd1 ltac:(done)) as (d' & r' & Hrun' & Hl & Hc' & Ht' & Hr' & Hf).
    exists d', r'. simpl in Hc', Ht'. rewrite lookup_insert_eq in Hc', Ht'. simpl in *.
    split_and!; [done|done|lia|by rewrite Ht', Ht|done|].
    intros k' Hne. rewrite Hf by done. by apply lookup_insert_ne.
Qed.

(** The reconciliation job, from any state of the tables, completes with no
    error, brings the [claimed_total] and [remaining] of every stream to what
    its claim events say, keeps deposits, rates and every other table, and
    reports as corrected exactly the streams whose total had drifted. *)
Theorem runBalanceReconciliation_spec now d :
  ∃ d', runBalanceReconciliation now d
      = (Ok (Reconciliation (Z.of_nat (size (stream_balances d)))
               (Z.of_nat (size (filter (λ kr, drifted d kr = true) (stream_balances d)))) 0), d') ∧
    (∀ k, stream_balances d' !! k =
       recomputed now (claims_total (stream_events d) k) <$> stream_balances d !! k) ∧
    stream_events d' = stream_events d ∧ vesting_streams d' = vesting_streams d ∧
    indexer_cursors d' = indexer_cursors d.
Proof.
  destruct (reconcile_rows now (map_to_list (stream_balances d)) (Reconciliation 0 0 0) d)
    as (d' & Hrun & Hs & _ & He & Hc & Hl).
  - apply NoDup_fst_map_to_list.
  - intros k r. apply elem_of_map_to_list.
  - exists d'. split_and!; [|intros k|done..].
    + unfold runBalanceReconciliation, bind, get. rewrite Hrun. simpl.
      by rewrite filter_drifted_size, length_map_to_list.
    + rewrite (Hl k), list_to_map_to_list. by destruct (stream_balances d !! k).
Qed.

(** ** Witnesses *)

Lemma balance_ops_total_witness :
  ∃ d' r, for_each [OpClaim 30; OpInit 1000 10 100; OpClaim 12] (run_op 5 "GBOB")
            (Db ∅ [] [] ∅ None) = (Ok tt, d') ∧
    stream_balances d' !! "GBOB" = Some r ∧ remaining r = 958.
Proof.
  destruct (balance_ops_total 5 "GBOB" [OpClaim 30; OpInit 1000 10 100; OpClaim 12]
              (Db ∅ [] [] ∅ None)) as (d' & r & Hrun & Hl & Hc & Ht & Hr & _).
  - vm_compute. discriminate.
  - intros k r. simpl. rewrite lookup_empty. discriminate.
  - discriminate.
  - exists d', r. split; [exact Hrun|]. split; [exact Hl|].
    rewrite Hr, Hc, Ht. vm_compute. reflexivity.
Defined.
