(* ===== verification/TerminalEvents.v ===== *)
(** * Terminal event handlers

    [backend/src/indexer/terminalEventHandlers.ts]: the cancellation and
    clawback handlers, which go through the status state machine and then
    record how the funds were split.  [persistence.ts] does not call them. *)
From S2P Require Import Prelude Decoder Db StreamStatus Balances.

Record TerminalEventResult := TerminalResult {
  ter_recipient : string;
  ter_event_type : StreamEventType;
  status_changed : bool;
  from_status : option StreamStatus;
  to_status : option StreamStatus }.

(** ** The columns the handlers assign *)

Definition set_cancellation (now ledger refund : Z) (hash : string) (r : stream_row) : stream_row :=
  StreamRow (status r) (status_updated_at r) (sponsor_address r) (token_address r)
    (rate_per_ledger r) (start_ledger r) (cliff_ledger r) (end_ledger r) (updated_at r) (Some now)
    (Some ledger) (Some refund) (Some hash) (cancellation_recipient_payout r) (clawed_at_ledger r)
    (clawback_sponsor r) (clawback_amount r) (clawback_tx_hash r) (drained_at r) (drain_amount r)
    (drain_tx_hash r) (drained_by r).
Definition set_recipient_payout (payout : Z) (r : stream_row) : stream_row :=
  StreamRow (status r) (status_updated_at r) (sponsor_address r) (token_address r)
    (rate_per_ledger r) (start_ledger r) (cliff_ledger r) (end_ledger r) (updated_at r)
    (cancelled_at r) (cancelled_at_ledger r) (refunded_amount r) (cancellation_tx_hash r)
    (Some payout) (clawed_at_ledger r) (clawback_sponsor r) (clawback_amount r)
    (clawback_tx_hash r) (drained_at r) (drain_amount r) (drain_tx_hash r) (drained_by r).
Definition set_clawback (ledger : Z) (sponsor_ : string) (amount_ : Z) (hash : string)
    (r : stream_row) : stream_row :=
  StreamRow (status r) (status_updated_at r) (sponsor_address r) (token_address r)
    (rate_per_ledger r) (start_ledger r) (cliff_ledger r) (end_ledger r) (updated_at r)
    (cancelled_at r) (cancelled_at_ledger r) (refunded_amount r) (cancellation_tx_hash r)
    (cancellation_recipient_payout r) (Some ledger) (Some sponsor_) (Some amount_) (Some hash)
    (drained_at r) (drain_amount r) (drain_tx_hash r) (drained_by r).

(** [UPDATE vesting_streams SET ... WHERE recipient_address = $1] *)
Definition update_details (a : string) (set : stream_row → stream_row) : update_streams :=
  UpdateStreams set false (where_recipient a (λ _, true)) false.

(** A [bigint] parameter; [refunded_amount] is one (migration 003). *)
Definition pg_bigint (s : string) : dbM Z :=
  match Z_of_string s with
  | Some z => pg_int 64 (Some z)
  | None => throw (PgError (invalid_text_representation s))
  end.

(** The unique key on [cancellation_tx_hash], for an update of recipient [a]. *)
Definition hash_free (a hash : string) (d : db) : bool :=
  bool_decide (map_Forall (λ k r, k = a ∨ cancellation_tx_hash r ≠ Some hash) (vesting_streams d)).
Definition check_unique_hash (a hash : string) : dbM unit := λ d,
  if hash_free a hash d then (Ok tt, d) else (Err (PgError unique_violation), d).

(** ** The handlers *)

Definition skip_transition_errors (result : TerminalEventResult) (e : exn)
    : dbM TerminalEventResult :=
  match e with
  | StreamNotFoundError _ => ret result
  | StatusTransitionError _ _ => ret result
  | e => throw e
  end.

Definition handleStreamCancelled (now : Z) (ev : DecodedStreamEvent) : dbM TerminalEventResult :=
  let a := recipient ev in
  let result := TerminalResult a StreamCancelled false None None in
  try_catch
    (let! transition := transitionStreamStatus now
       (TransitionOptions a cancelled (Some TrStreamCancelled) (Some (ledger_sequence ev))) in
     let from := res_fromStatus transition in
     let to := res_toStatus transition in
     let result := TerminalResult a StreamCancelled (negb (bool_decide (from = to)))
                     (Some from) (Some to) in
     let sponsorRefund := default "0" (amount ev) in
     let! ledger := pg_integer (ledger_sequence ev) in
     let! refund := pg_bigint sponsorRefund in
     pg_varchar 64 (transaction_hash ev) ;;;
     check_unique_hash a (transaction_hash ev) ;;;
     exec_update now (update_details a (set_cancellation now ledger refund (transaction_hash ev))) ;;;
     (if truthy (sponsor ev) then
        let! d := get in
        exec_update now (update_details a
          (set_recipient_payout (claims_total (stream_events d) a))) ;;;
        ret tt
      else ret tt) ;;;
     ret result)
    (skip_transition_errors result).

Definition handleStreamClawedBack (now : Z) (ev : DecodedStreamEvent) : dbM TerminalEventResult :=
  let a := recipient ev in
  let result := TerminalResult a StreamClawedBack false None None in
  try_catch
    (let! transition := transitionStreamStatus now
       (TransitionOptions a clawedback (Some TrStreamClawedBack) (Some (ledger_sequence ev))) in
     let from := res_fromStatus transition in
     let to := res_toStatus transition in
     let result := TerminalResult a StreamClawedBack (negb (bool_decide (from = to)))
                     (Some from) (Some to) in
     let clawbackAmount := default "0" (amount ev) in
     let! ledger := pg_integer (ledger_sequence ev) in
     let! n := pg_numeric clawbackAmount in
     pg_varchar 56 (sponsor ev) ;;;
     pg_varchar 64 (transaction_hash ev) ;;;
     exec_update now (update_details a
       (set_clawback ledger (sponsor ev) n (transaction_hash ev))) ;;;
     ret result)
    (skip_transition_errors result).

Definition handleTerminalEvent (now : Z) (ev : DecodedStreamEvent)
    : dbM (option TerminalEventResult) :=
  match event_type ev with
  | StreamCancelled => let! r := handleStreamCancelled now ev in ret (Some r)
  | StreamClawedBack => let! r := handleStreamClawedBack now ev in ret (Some r)
  | _ => ret None
  end.

(** ** What the handlers promise *)

(** The parameters of the statements fit the columns they go to. *)
Definition storable (ev : DecodedStreamEvent) (ledger n : Z) : Prop :=
  ledger_sequence ev = Some ledger ∧ fits 32 (Some ledger) = true ∧
  Z_of_string (default "0" (amount ev)) = Some n ∧
  str_length (transaction_hash ev) <= 64 ∧
  match event_type ev with
  | StreamClawedBack => str_length (sponsor ev) <= 56
  | _ => fits 64 (Some n) = true
  end.

Definition terminal_of (et : StreamEventType) : option (StreamStatus * TriggeringEvent) :=
  match et with
  | StreamCancelled => Some (cancelled, TrStreamCancelled)
  | StreamClawedBack => Some (clawedback, TrStreamClawedBack)
  | _ => None
  end.

(** The details a terminal event leaves on the stream's row: every column, as
    it is afterwards. *)
Definition record_details (now ledger n : Z) (evs : list event_row) (ev : DecodedStreamEvent)
    (r : stream_row) : stream_row :=
  let cancels := negb (bool_decide (event_type ev = StreamClawedBack)) in
  {| status := status r; status_updated_at := status_updated_at r; sponsor_address := sponsor_address r;
     token_address := token_address r; rate_per_ledger := rate_per_ledger r; start_ledger := start_ledger r;
     cliff_ledger := cliff_ledger r; end_ledger := end_ledger r; updated_at := updated_at r;
     cancelled_at := if cancels then Some now else cancelled_at r;
     cancelled_at_ledger := if cancels then Some ledger else cancelled_at_ledger r;
     refunded_amount := if cancels then Some n else refunded_amount r;
     cancellation_tx_hash := if cancels then Some (transaction_hash ev) else cancellation_tx_hash r;
     cancellation_recipient_payout :=
       if cancels && negb (bool_decide (sponsor ev = "")) then Some (claims_total evs (recipient ev))
       else cancellation_recipient_payout r;
     clawed_at_ledger := if cancels then clawed_at_ledger r else Some ledger;
     clawback_sponsor := if cancels then clawback_sponsor r else Some (sponsor ev);
     clawback_amount := if cancels then clawback_amount r else Some n;
     clawback_tx_hash := if cancels then clawback_tx_hash r else Some (transaction_hash ev);
     drained_at := drained_at r; drain_amount := drain_amount r; drain_tx_hash := drain_tx_hash r;
     drained_by := drained_by r |}.

(** The specification of one terminal event, given the status it leads to. *)
Definition terminal_spec (now ledger n : Z) (ev : DecodedStreamEvent) (to : StreamStatus)
    (trig : TriggeringEvent) (d : db) : TerminalEventResult * db :=
  let a := recipient ev in
  let skipped := TerminalResult a (event_type ev) false None None in
  match vesting_streams d !! a with
  | None => (skipped, d)
  | Some r =>
      let details := record_details now ledger n (stream_events d) ev in
      if decide (status r = to) then
        (TerminalResult a (event_type ev) false (Some to) (Some to),
         with_streams <[a := details r]> d)
      else if bool_decide (status r = active ∨ status r = pre_cliff) then
        (TerminalResult a (event_type ev) true (Some (status r)) (Some to),
         with_transitions
           (cons (TransitionRow (length (stream_status_transitions d)) a (status r) to
                    (Some (TriggeringEvent_text trig)) (Some ledger) now))
           (with_streams <[a := details (set_status_updated_at now (set_status to r))]> d))
      else (skipped, d)
  end.

(** ** Lemmas *)

Lemma terminal_transition to s : to = cancelled ∨ to = clawedback → s ≠ to →
  bool_decide (s = active ∨ s = pre_cliff) = isValidTransition s to.
Proof. intros [-> | ->] ?; by destruct s. Qed.

Lemma truthy_dec s : (truthy s = false ∧ s = "") ∨ (truthy s = true ∧ s ≠ "").
Proof. destruct s; [left|right]; done. Qed.

Lemma exec_update_details now a set d r :
  vesting_streams d !! a = Some r →
  exec_update now (update_details a set) d = (Ok 1, with_streams <[a := set r]> d).
Proof. intros Hr. unfold update_details. by rewrite exec_update_recipient, Hr. Qed.

Lemma with_streams_insert_twice a r1 r2 d :
  with_streams <[a := r2]> (with_streams <[a := r1]> d) = with_streams <[a := r2]> d.
Proof. unfold with_streams. simpl. by rewrite insert_insert_eq. Qed.

Lemma with_streams_transitions f g d :
  with_streams f (with_transitions g d) = with_transitions g (with_streams f d).
Proof. done. Qed.

Lemma check_unique_hash_ok a hash d :
  hash_free a hash d = true → check_unique_hash a hash d = (Ok tt, d).
Proof. intros H. unfold check_unique_hash. by rewrite H. Qed.

Lemma hash_free_ext a hash d d' :
  (∀ k, k ≠ a → vesting_streams d' !! k = vesting_streams d !! k) →
  hash_free a hash d = true → hash_free a hash d' = true.
Proof.
  intros Hk. unfold hash_free. rewrite !bool_decide_eq_true. intros H k r Hr.
  destruct (decide (k = a)) as [|Hne]; [by left|]. apply (H k). by rewrite <-Hk.
Qed.

Lemma pg_bigint_ok s z d :
  Z_of_string s = Some z → fits 64 (Some z) = true → pg_bigint s d = (Ok z, d).
Proof. intros Hs Hf. unfold pg_bigint. rewrite Hs. by apply pg_int_ok. Qed.

Lemma pg_numeric_ok s z d : Z_of_string s = Some z → pg_numeric s d = (Ok z, d).
Proof. intros Hs. unfold pg_numeric. by rewrite Hs. Qed.

(** What follows a successful transition, on a state where the row exists. *)
Lemma cancelled_details now ledger n ev d r k :
  storable ev ledger n → event_type ev = StreamCancelled →
  vesting_streams d !! recipient ev = Some r →
  hash_free (recipient ev) (transaction_hash ev) d = true →
  (let! ledger := pg_integer (ledger_sequence ev) in
   let! refund := pg_bigint (default "0" (amount ev)) in
   pg_varchar 64 (transaction_hash ev) ;;;
   check_unique_hash (recipient ev) (transaction_hash ev) ;;;
   exec_update now (update_details (recipient ev)
     (set_cancellation now ledger refund (transaction_hash ev))) ;;;
   (if truthy (sponsor ev) then
      let! d := get in
      exec_update now (update_details (recipient ev)
        (set_recipient_payout (claims_total (stream_events d) (recipient ev)))) ;;;
      ret tt
    else ret tt) ;;;
   ret (k : TerminalEventResult)) d
  = (Ok k, with_streams <[recipient ev := record_details now ledger n (stream_events d) ev r]> d).
Proof.
  intros (Hl & Hf & Hn & Hh & H64) Het Hr Hfree. rewrite Het in H64.
  unfold record_details. rewrite Het. unfold bind, get, ret.
  rewrite Hl. unfold pg_integer. rewrite (pg_int_ok _ _ _ Hf).
  rewrite (pg_bigint_ok _ _ _ Hn H64), (pg_varchar_ok _ _ _ Hh), check_unique_hash_ok by done.
  rewrite (exec_update_details _ _ _ _ _ Hr). destruct (truthy_dec (sponsor ev)) as [[-> ->]|[-> Hne]]; [done|].
  rewrite (bool_decide_eq_false_2 (sponsor ev = "")) by done.
  erewrite exec_update_details by apply lookup_insert_eq. by rewrite with_streams_insert_twice.
Qed.

Lemma clawedback_details now ledger n ev d r k :
  storable ev ledger n → event_type ev = StreamClawedBack →
  vesting_streams d !! recipient ev = Some r →
  (let! ledger := pg_integer (ledger_sequence ev) in
   let! n := pg_numeric (default "0" (amount ev)) in
   pg_varchar 56 (sponsor ev) ;;;
   pg_varchar 64 (transaction_hash ev) ;;;
   exec_update now (update_details (recipient ev)
     (set_clawback ledger (sponsor ev) n (transaction_hash ev))) ;;;
   ret (k : TerminalEventResult)) d
  = (Ok k, with_streams <[recipient ev := record_details now ledger n (stream_events d) ev r]> d).
Proof.
  intros (Hl & Hf & Hn & Hh & H56) Het Hr. rewrite Het in H56.
  unfold record_details. rewrite Het. unfold bind, ret.
  rewrite Hl. unfold pg_integer. rewrite (pg_int_ok _ _ _ Hf), (pg_numeric_ok _ _ _ Hn).
  rewrite (pg_varchar_ok _ _ _ H56), (pg_varchar_ok _ _ _ Hh).
  by rewrite (exec_update_details _ _ _ _ _ Hr).
Qed.

(** The transition, with the two errors the handlers swallow. *)
Lemma try_transition now a to trig ledger d result (k : StatusTransitionResult → dbM TerminalEventResult) :
  audit_ok d → fits 32 (Some ledger) = true →
  (let opts := TransitionOptions a to (Some trig) (Some (Some ledger)) in
   try_catch (bind (transitionStreamStatus now opts) k) (skip_transition_errors result) d
   = match vesting_streams d !! a with
     | None => (Ok result, d)
     | Some r =>
         if decide (status r = to) then
           try_catch (k (TransitionResult a to to (status_updated_at r)))
             (skip_transition_errors result) d
         else if isValidTransition (status r) to then
           try_catch (k (TransitionResult a (status r) to now)) (skip_transition_errors result)
             (with_transitions
                (cons (TransitionRow (length (stream_status_transitions d)) a (status r) to
                         (Some (TriggeringEvent_text trig)) (Some ledger) now))
                (with_streams <[a := set_status_updated_at now (set_status to r)]> d))
         else (Ok result, d)
     end).
Proof.
  intros Hd Hf opts. unfold try_catch, bind.
  rewrite transitionStreamStatus_run by done. subst opts. simpl.
  destruct (vesting_streams d !! a) as [r|]; [|done].
  case_decide; [done|]. by destruct (isValidTransition _ _).
Qed.

(** ** Properties *)

(** C35. A terminal event whose parameters fit their columns is handled exactly
    as specified: an unknown stream and a stream in a state that cannot reach
    the event's status are skipped without a write and without an error; an
    active or pre-cliff stream moves to the event's status with one audit row
    naming the event and its ledger, and its details are recorded; a stream
    already in that status keeps it, without an audit row, and its details are
    rewritten with those of the event.  The last case is what the code does,
    not what the handlers' comments and tests say of a stream that is already
    in the terminal state: see [repeated_terminal_event_rewrites]. *)
Theorem handleTerminalEvent_spec now ev d to trig ledger n :
  audit_ok d → terminal_of (event_type ev) = Some (to, trig) → storable ev ledger n →
  (event_type ev = StreamCancelled → hash_free (recipient ev) (transaction_hash ev) d = true) →
  handleTerminalEvent now ev d =
    let '(res, d') := terminal_spec now ledger n ev to trig d in (Ok (Some res), d').
Proof.
  intros Hd Hto Hst Hfree. pose proof Hst as (Hl & Hf & _).
  unfold handleTerminalEvent, terminal_spec. destruct (event_type ev) eqn:Het; simplify_eq/=.
  - unfold bind at 1, handleStreamCancelled. rewrite Hl, try_transition by done.
    destruct (vesting_streams d !! recipient ev) as [r|] eqn:Hr; [|done].
    case_decide as E; [|rewrite (terminal_transition cancelled) by auto; destruct (isValidTransition _ _)]; [| |done];
      unfold try_catch; cbn [res_fromStatus res_toStatus]; rewrite <-Hl.
    + rewrite bool_decide_eq_true_2 by done.
      by rewrite (cancelled_details now ledger n ev d r) by auto.
    + rewrite bool_decide_eq_false_2 by done.
      erewrite (cancelled_details now ledger n ev);
        [|done|done|apply lookup_insert_eq|].
      * cbn [stream_events with_transitions with_streams].
        by rewrite with_streams_transitions, with_streams_insert_twice.
      * eapply hash_free_ext; [|by apply Hfree]. intros k Hk. by apply lookup_insert_ne.
  - unfold bind at 1, handleStreamClawedBack. rewrite Hl, try_transition by done.
    destruct (vesting_streams d !! recipient ev) as [r|] eqn:Hr; [|done].
    case_decide as E; [|rewrite (terminal_transition clawedback) by auto; destruct (isValidTransition _ _)]; [| |done];
      unfold try_catch; cbn [res_fromStatus res_toStatus]; rewrite <-Hl.
    + rewrite bool_decide_eq_true_2 by done.
      by rewrite (clawedback_details now ledger n ev d r) by auto.
    + rewrite bool_decide_eq_false_2 by done.
      erewrite (clawedback_details now ledger n ev); [|done|done|apply lookup_insert_eq].
      cbn [stream_events with_transitions with_streams].
      by rewrite with_streams_transitions, with_streams_insert_twice.
Qed.

(** A second cancellation or clawback of a stream is not skipped: the status
    service returns normally when the status is already the one asked for, and
    the handler then overwrites the ledger, the amount and the transaction
    hash of the first one, although it reports that nothing changed. *)
Theorem repeated_terminal_event_rewrites now ev d to trig ledger n r :
  audit_ok d → terminal_of (event_type ev) = Some (to, trig) → storable ev ledger n →
  (event_type ev = StreamCancelled → hash_free (recipient ev) (transaction_hash ev) d = true) →
  vesting_streams d !! recipient ev = Some r → status r = to →
  ∃ d' r', handleTerminalEvent now ev d =
      (Ok (Some (TerminalResult (recipient ev) (event_type ev) false (Some to) (Some to))), d') ∧
    stream_status_transitions d' = stream_status_transitions d ∧
    vesting_streams d' !! recipient ev = Some r' ∧ status r' = to ∧
    match event_type ev with
    | StreamCancelled => cancelled_at r' = Some now ∧ cancelled_at_ledger r' = Some ledger ∧
        refunded_amount r' = Some n ∧ cancellation_tx_hash r' = Some (transaction_hash ev)
    | _ => clawed_at_ledger r' = Some ledger ∧ clawback_sponsor r' = Some (sponsor ev) ∧
        clawback_amount r' = Some n ∧ clawback_tx_hash r' = Some (transaction_hash ev)
    end.
Proof.
  intros Hd Hto Hst Hfree Hr Hs. pose proof Hst as (Hl & Hf & _).
  exists (with_streams <[recipient ev := record_details now ledger n (stream_events d) ev r]> d),
    (record_details now ledger n (stream_events d) ev r).
  split; [|split_and!; [done|apply lookup_insert_eq|done|unfold record_details; by destruct (event_type ev)]].
  unfold handleTerminalEvent. destruct (event_type ev) eqn:Het; simpl in Hto; try discriminate Hto; injection Hto as <- <-;
    unfold bind at 1, handleStreamCancelled, handleStreamClawedBack; rewrite Hl, try_transition, Hr, Hs by done;
    rewrite decide_True by done; unfold try_catch; cbn [res_fromStatus res_toStatus]; rewrite <-Hl, bool_decide_eq_true_2 by done.
  - by rewrite (cancelled_details now ledger n ev d r) by auto.
  - by rewrite (clawedback_details now ledger n ev d r) by auto.
Qed.

(** A cancellation whose refund does not fit the [bigint] column
    [refunded_amount] is not handled: the amounts of the events are i128, and
    the handler throws after having moved the stream's status. *)
Theorem handleStreamCancelled_refund_overflow now ev d r ledger n :
  audit_ok d → vesting_streams d !! recipient ev = Some r →
  isValidTransition (status r) cancelled = true →
  ledger_sequence ev = Some ledger → fits 32 (Some ledger) = true →
  amount ev = Some (Z_to_string n) → 2 ^ 63 <= n →
  fst (handleStreamCancelled now ev d) = Err (PgError numeric_value_out_of_range).
Proof.
  intros Hd Hr Hv Hl Hf Ha Hn. unfold handleStreamCancelled.
  rewrite Hl, try_transition, Hr by done.
  assert (Hbig : ∀ d, pg_bigint (Z_to_string n) d = (Err (PgError numeric_value_out_of_range), d)).
  { intros d0. unfold pg_bigint. rewrite Z_of_to_string. unfold pg_int.
    replace (fits 64 (Some n)) with false; [done|]. symmetry. unfold fits, num_test. lia. }
  case_decide as E; [|rewrite Hv]; unfold try_catch, bind, pg_integer;
    rewrite (pg_int_ok _ _ _ Hf), Ha; cbn [default]; by rewrite Hbig.
Qed.

(** ** Witnesses *)

Definition cancel_event : DecodedStreamEvent :=
  Decoded StreamCancelled "GALICE" "GSPONSOR" "" (Some "70") (Some 180) "txhash".

Lemma handleTerminalEvent_spec_witness :
  fst (handleTerminalEvent 42 cancel_event (sample_db active))
  = Ok (Some (TerminalResult "GALICE" StreamCancelled true (Some active) (Some cancelled))).
Proof.
  rewrite (handleTerminalEvent_spec 42 cancel_event (sample_db active)
             cancelled TrStreamCancelled 180 70 (sample_audit active) eq_refl);
    [vm_compute; reflexivity|vm_compute; repeat split; discriminate|].
  intros _. vm_compute. reflexivity.
Defined.

(** The cancellation of an already cancelled stream, in another transaction. *)
Lemma repeated_terminal_event_rewrites_witness :
  ∃ r', vesting_streams (snd (handleTerminalEvent 42 cancel_event (sample_db cancelled))) !! "GALICE" = Some r' ∧
    cancellation_tx_hash (sample_row cancelled 200) <> Some "txhash" ∧ cancellation_tx_hash r' = Some "txhash" ∧
    refunded_amount r' = Some 70.
Proof.
  destruct (repeated_terminal_event_rewrites 42 cancel_event (sample_db cancelled) cancelled TrStreamCancelled 180 70
              (sample_row cancelled 200) (sample_audit cancelled) eq_refl) as (d' & r' & Hrun & _ & Hr & _ & _ & _ & Ha & Hh).
  - vm_compute. repeat split; discriminate.
  - intros _. vm_compute. reflexivity.
  - reflexivity.
  - reflexivity.
  - exists r'. rewrite Hrun. split; [exact Hr|]. split; [discriminate|]. split; [exact Hh|exact Ha].
Defined.

Definition big_cancel_event : DecodedStreamEvent :=
  Decoded StreamCancelled "GALICE" "GSPONSOR" "" (Some (Z_to_string (2 ^ 63))) (Some 180) "txhash".

Lemma handleStreamCancelled_refund_overflow_witness :
  fst (handleStreamCancelled 42 big_cancel_event (sample_db active))
  = Err (PgError numeric_value_out_of_range).
Proof.
  apply (handleStreamCancelled_refund_overflow 42 big_cancel_event (sample_db active)
           (sample_row active 200) 180 (2 ^ 63) (sample_audit active));
    [reflexivity..|vm_compute; discriminate].
Defined.
