(* ===== verification/Persistence.v ===== *)
(** * The persistence layer of the event indexer

    [backend/src/indexer/persistence.ts]: the cursor row, the transactional
    batch upsert of decoded events with its balance and status updates, and
    the [EventStore] interface the polling loop is verified against. *)
From S2P Require Import Prelude Decoder Db StreamStatus Balances.

(** ** Cursor *)

Definition readCursor : dbM string :=
  let! d := get in ret (default "" (indexer_cursors d)).

(** [UPDATE ... WHERE id = 1]: nothing happens when the row is missing. *)
Definition writeCursor (cursor : string) : dbM unit :=
  modify (λ d, match indexer_cursors d with Some _ => with_cursor (Some cursor) d | None => d end).

(** ** Event upsert *)

(** [INSERT_SQL]: the row count, 0 when the transaction hash is there. *)
Definition insert_event (ev : DecodedStreamEvent) : dbM Z :=
  let! n := pg_opt_numeric (amount ev) in
  let! ledger := pg_integer (ledger_sequence ev) in
  let! d := get in
  if bool_decide (transaction_hash ev ∈ (er_transaction_hash <$> stream_events d)) then ret 0
  else
    modify (with_events (λ evs, evs ++
      [EventRow (event_type ev) (recipient ev) (sponsor ev) (token ev) n ledger
         (transaction_hash ev)])) ;;;
    ret 1.

(** [if (ev.amount)] *)
Definition truthy_amount (ev : DecodedStreamEvent) : option string :=
  match amount ev with
  | Some s => if truthy s then Some s else None
  | None => None
  end.

(** The balance updates of a row that was inserted. *)
Definition update_balances (now : Z) (ev : DecodedStreamEvent) : dbM unit :=
  (match event_type ev, truthy_amount ev with
   | StreamCreated, Some s =>
       let! deposit := pg_numeric s in
       upsert_balance (recipient ev) (BalanceRow deposit 0 deposit None None now)
         (λ r, BalanceRow deposit (claimed_total r) (deposit - claimed_total r) (rate r)
                 (total_duration r) now) ;;;
       ret tt
   | _, _ => ret tt
   end) ;;;
  (match event_type ev, truthy_amount ev with
   | TokensClaimed, Some s => incrementClaimedTotal now (recipient ev) s ;;; ret tt
   | _, _ => ret tt
   end).

Definition set_drained (now : Z) (n : option Z) (hash by_ : string) (r : stream_row) : stream_row :=
  StreamRow drained (status_updated_at r) (sponsor_address r) (token_address r)
    (rate_per_ledger r) (start_ledger r) (cliff_ledger r) (end_ledger r) now (cancelled_at r)
    (cancelled_at_ledger r) (refunded_amount r) (cancellation_tx_hash r)
    (cancellation_recipient_payout r) (clawed_at_ledger r) (clawback_sponsor r)
    (clawback_amount r) (clawback_tx_hash r) (Some now) n (Some hash) (Some by_).

(** [UPDATE ... ON CONFLICT DO NOTHING]: the statement as written. *)
Definition handleStreamDrainedStateUpdate (now : Z) (ev : DecodedStreamEvent) : dbM unit :=
  exec_update now (UpdateStreams
    (set_drained now (amount ev ≫= Z_of_string) (transaction_hash ev) (sponsor ev)) true
    (where_recipient (recipient ev) (λ r, bool_decide (status r ≠ drained))) true) ;;;
  ret tt.

Definition set_cancelled (now : Z) (r : stream_row) : stream_row :=
  StreamRow cancelled (status_updated_at r) (sponsor_address r) (token_address r)
    (rate_per_ledger r) (start_ledger r) (cliff_ledger r) (end_ledger r) now (Some now)
    (cancelled_at_ledger r) (refunded_amount r) (cancellation_tx_hash r)
    (cancellation_recipient_payout r) (clawed_at_ledger r) (clawback_sponsor r)
    (clawback_amount r) (clawback_tx_hash r) (drained_at r) (drain_amount r) (drain_tx_hash r)
    (drained_by r).

Definition update_cancelled (now : Z) (a : string) : update_streams :=
  UpdateStreams (set_cancelled now) true
    (where_recipient a (λ r, bool_decide (status r ≠ cancelled))) false.

Definition handleStreamCancelledStateUpdate (now : Z) (ev : DecodedStreamEvent) : dbM unit :=
  exec_update now (update_cancelled now (recipient ev)) ;;; ret tt.

(** The body of the loop. *)
Definition upsert_one (now : Z) (inserted : Z) (ev : DecodedStreamEvent) : dbM Z :=
  let! rowCount := insert_event ev in
  (if 0 <? rowCount then update_balances now ev else ret tt) ;;;
  (match event_type ev with
   | StreamDrained => handleStreamDrainedStateUpdate now ev
   | StreamCancelled => handleStreamCancelledStateUpdate now ev
   | _ => ret tt
   end) ;;;
  ret (inserted + rowCount).

Definition upsertStreamEvents (now : Z) (events : list DecodedStreamEvent) : dbM Z :=
  match events with
  | [] => ret 0
  | _ => transaction (fold_each events 0 (upsert_one now))
  end.

(** ** What is stored *)

Definition hashes (d : db) : list string := er_transaction_hash <$> stream_events d.

(** The row a decoded event becomes, when its parameters are valid. *)
Definition row_of (ev : DecodedStreamEvent) : option event_row :=
  ledger ← ledger_sequence ev;
  guard (fits 32 (Some ledger) = true);;
  n ← parse_amount (amount ev);
  Some (EventRow (event_type ev) (recipient ev) (sponsor ev) (token ev) n ledger
          (transaction_hash ev)).

(** The rows a batch adds to a table that holds the hashes [seen]: one row per
    hash not yet seen, the first event of the hash. *)
Fixpoint new_rows (seen : list string) (events : list DecodedStreamEvent) : list event_row :=
  match events with
  | [] => []
  | ev :: events' =>
      if bool_decide (transaction_hash ev ∈ seen) then new_rows seen events'
      else match row_of ev with
           | Some row => row :: new_rows (seen ++ [transaction_hash ev]) events'
           | None => new_rows seen events'
           end
  end.

(** ** The interface the indexer relies on *)

(** What the polling loop needs of its store: a cursor it can read and move,
    and a batch upsert that is atomic, appends the rows of the first events of
    the transactions it does not hold yet, does nothing the second time, and
    leaves the cursor alone. *)
Class EventStore (S E : Type) := {
  es_read : M S E string;
  es_write : string → M S E unit;
  es_upsert : list DecodedStreamEvent → M S E Z;
  es_cursor : S → string;
  es_rows : S → list event_row;
  es_ready : S → Prop;
  es_read_ok : ∀ s, es_read s = (Ok (es_cursor s), s);
  es_write_ok : ∀ c s, es_ready s → ∃ s', es_write c s = (Ok tt, s') ∧
    es_cursor s' = c ∧ es_ready s' ∧ es_rows s' = es_rows s;
  es_upsert_err : ∀ evs s e s', es_upsert evs s = (Err e, s') → s' = s;
  es_upsert_nil : ∀ s, es_upsert [] s = (Ok 0, s);
  es_upsert_ok : ∀ evs s n s', es_upsert evs s = (Ok n, s') →
    es_cursor s' = es_cursor s ∧ (es_ready s → es_ready s') ∧
    Forall (λ ev, is_Some (row_of ev)) evs ∧
    es_rows s' = es_rows s ++ new_rows (er_transaction_hash <$> es_rows s) evs;
  es_upsert_again : ∀ evs s n s', es_upsert evs s = (Ok n, s') → es_upsert evs s' = (Ok 0, s') }.

(** The transaction hashes a store holds. *)
Definition es_stored {S E : Type} `{EventStore S E} (s : S) (h : string) : Prop :=
  h ∈ (er_transaction_hash <$> es_rows s).

(** The status check of [handleStreamCancelledStateUpdate] raises. *)
Definition uncancellable (r : stream_row) : bool :=
  bool_decide (status r ∈ [expired; drained; clawedback]).

(** ** Lemmas *)

Lemma truthy_amount_Some ev s : truthy_amount ev = Some s → amount ev = Some s ∧ truthy s = true.
Proof. unfold truthy_amount. destruct (amount ev) as [s'|]; [|done]. by destruct (truthy s') eqn:H; intros; simplify_eq. Qed.

(** A completed insert: the row is appended unless its hash is there. *)
Lemma insert_event_ok ev d n d' :
  insert_event ev d = (Ok n, d') →
  ∃ row, row_of ev = Some row ∧
    if bool_decide (transaction_hash ev ∈ hashes d) then n = 0 ∧ d' = d
    else n = 1 ∧ d' = with_events (λ evs, evs ++ [row]) d.
Proof.
  unfold insert_event, row_of, hashes. intros H.
  apply bind_inv_ok in H as (m & d1 & Hm & H). apply pg_opt_numeric_inv in Hm as [Hm ->].
  apply bind_inv_ok in H as (l & d2 & Hl & H). apply pg_int_inv in Hl as (-> & Hf & ->).
  simpl. rewrite option_guard_True by done. simpl. rewrite Hm. simpl. eexists; split; [done|].
  unfold bind, get, ret, modify in H. case_bool_decide; by simplify_eq.
Qed.

Lemma row_of_hash ev row : row_of ev = Some row → er_transaction_hash row = transaction_hash ev.
Proof.
  unfold row_of. destruct (ledger_sequence ev) as [l|]; [|done]. simpl. case_guard; [|done].
  destruct (parse_amount (amount ev)); intros; by simplify_eq/=.
Qed.

Lemma row_of_claim ev row k :
  row_of ev = Some row →
  claim_amount k row =
    if bool_decide (recipient ev = k) && bool_decide (event_type ev = TokensClaimed)
    then default 0 (amount ev ≫= Z_of_string) else 0.
Proof.
  unfold row_of. destruct (ledger_sequence ev) as [l|]; [|done]. simpl.
  case_guard; [|done]. simpl. destruct (amount ev) as [s|]; simpl; [destruct (Z_of_string s) eqn:Hs|]; intros; by simplify_eq/=.
Qed.

(** What a claim event adds to the running total of stream [k]. *)
Definition claim_of (ev : DecodedStreamEvent) (k : string) : Z :=
  if bool_decide (recipient ev = k) && bool_decide (event_type ev = TokensClaimed)
  then default 0 (amount ev ≫= Z_of_string) else 0.

Lemma claimed_insert k r d k' :
  claimed (with_balances <[k := r]> d) k' = if decide (k = k') then claimed_total r else claimed d k'.
Proof.
  unfold claimed. simpl. case_decide as E; [subst; by rewrite lookup_insert_eq|].
  by rewrite lookup_insert_ne.
Qed.

(** The balance updates of one inserted event. *)
Definition balances_moved (ev : DecodedStreamEvent) (d d' : db) : Prop :=
  (∃ m, d' = with_balances (λ _, m) d) ∧
  (∀ k, claimed d' k = claimed d k + claim_of ev k) ∧ (remaining_ok d → remaining_ok d').

Lemma balances_unmoved ev d : (∀ k, claim_of ev k = 0) → balances_moved ev d d.
Proof.
  intros H. split_and!; [|by intros; rewrite H, Z.add_0_r|done].
  exists (stream_balances d). by destruct d.
Qed.

Lemma balances_moved_insert ev d k (upd : option balance_row → balance_row) :
  let o := stream_balances d !! k in
  claimed_total (upd o) = default 0 (claimed_total <$> o) + claim_of ev k →
  (∀ k', k' ≠ k → claim_of ev k' = 0) →
  remaining (upd o) = total_deposit (upd o) - claimed_total (upd o) →
  balances_moved ev d (with_balances <[k := upd o]> d).
Proof.
  intros o Hc Hk Hr. split_and!.
  - by exists (<[k := upd o]> (stream_balances d)).
  - intros k'. rewrite claimed_insert. case_decide as E; [by subst|]. rewrite Hk by done. lia.
  - intros Hd. by apply remaining_ok_insert.
Qed.

Lemma claim_of_not_claim ev k : event_type ev ≠ TokensClaimed → claim_of ev k = 0.
Proof. intros. unfold claim_of. rewrite (bool_decide_eq_false_2 (_ = TokensClaimed)) by done. by rewrite andb_false_r. Qed.

Lemma claim_of_other ev k : recipient ev ≠ k → claim_of ev k = 0.
Proof. intros. unfold claim_of. by rewrite bool_decide_eq_false_2. Qed.

Lemma claim_of_claim ev s n :
  event_type ev = TokensClaimed → amount ev = Some s → Z_of_string s = Some n →
  claim_of ev (recipient ev) = n.
Proof. intros Het Ha Hs. unfold claim_of. rewrite !bool_decide_eq_true_2, Ha by done. simpl. by rewrite Hs. Qed.

Lemma claim_of_falsy ev k : truthy_amount ev = None → claim_of ev k = 0.
Proof.
  unfold truthy_amount, claim_of. destruct (amount ev) as [s|]; [|by case_match].
  destruct (truthy s) eqn:Ht; [done|]. intros _. unfold truthy in Ht.
  apply bool_decide_eq_false in Ht. destruct (decide (s = "")) as [->|]; [|done].
  by case_match.
Qed.

(** A claim with an amount goes through only when its recipient fits the
    [varchar(56)] key of [stream_balances]. *)
Lemma update_balances_fits now ev d u d' :
  update_balances now ev d = (Ok u, d') → event_type ev = TokensClaimed →
  is_Some (truthy_amount ev) → str_length (recipient ev) <= 56.
Proof.
  unfold update_balances. intros H Het [s Hs]. rewrite Het, Hs in H.
  apply bind_inv_ok in H as (? & d1 & [= _ <-] & H).
  apply bind_inv_ok in H as (? & d1 & H & _).
  apply bind_inv_ok in H as (n & d2 & Hn & H). apply pg_numeric_inv in Hn as [_ ->].
  apply bind_inv_ok in H as (r & d3 & H & _).
  destruct (decide (str_length (recipient ev) <= 56)) as [|Hl]; [done|].
  by rewrite upsert_balance_err in H by lia.
Qed.

(** The rows the balance table can take. *)
Definition claim_row_fits (row : event_row) : Prop :=
  er_event_type row = TokensClaimed → er_amount row ≠ None → str_length (er_recipient row) <= 56.

Lemma row_of_fits ev row :
  row_of ev = Some row →
  (event_type ev = TokensClaimed → is_Some (truthy_amount ev) → str_length (recipient ev) <= 56) →
  claim_row_fits row.
Proof.
  unfold row_of, truthy_amount. intros Hrow H.
  destruct (ledger_sequence ev) as [l|]; [|done]. simpl in Hrow. case_guard; [|done].
  destruct (parse_amount (amount ev)) as [n|] eqn:Hn; [|done]. simplify_eq/=.
  unfold claim_row_fits. simpl. intros Het Ha. apply H; [done|].
  destruct (amount ev) as [s|]; simpl in Hn; [|by simplify_eq].
  destruct (truthy s) eqn:Ht; [by eexists|]. apply bool_decide_eq_false in Ht.
  destruct (decide (s = "")) as [->|]; done.
Qed.

Lemma update_balances_ok now ev d u d' :
  update_balances now ev d = (Ok u, d') → balances_moved ev d d'.
Proof.
  unfold update_balances. intros H.
  destruct (truthy_amount ev) as [s|] eqn:Hs.
  - apply truthy_amount_Some in Hs as [Ha _].
    destruct (event_type ev) eqn:Het; try (inv_run; apply balances_unmoved; intros;
      apply claim_of_not_claim; congruence).
    + apply bind_inv_ok in H as (? & d1 & H & [= _ <-]). apply bind_inv_ok in H as (n & d2 & Hn & H).
      apply pg_numeric_inv in Hn as [_ ->]. apply bind_inv_ok in H as (r & d3 & H & [= _ <-]).
      apply upsert_balance_inv in H as [-> ->].
      apply (balances_moved_insert ev d _ (λ o, match o with Some r => _ | None => _ end)).
      * rewrite claim_of_not_claim by congruence. destruct (_ !! _); simpl; lia.
      * intros. apply claim_of_not_claim. congruence.
      * destruct (_ !! _); simpl; lia.
    + apply bind_inv_ok in H as (? & d1 & [= _ <-] & H).
      apply bind_inv_ok in H as (? & d1 & H & [= _ <-]).
      unfold incrementClaimedTotal in H. apply bind_inv_ok in H as (n & d2 & Hn & H).
      apply pg_numeric_inv in Hn as [Hn ->]. apply bind_inv_ok in H as (r & d3 & H & [= _ <-]).
      apply upsert_balance_inv in H as [-> ->].
      apply (balances_moved_insert ev d _ (λ o, match o with Some r => _ | None => _ end)).
      * rewrite (claim_of_claim ev s n) by done. destruct (_ !! _); simpl; lia.
      * intros. apply claim_of_other. congruence.
      * destruct (_ !! _); simpl; lia.
  - assert (d' = d) as ->; [|apply balances_unmoved; intros; by apply claim_of_falsy].
    by destruct (event_type ev); inv_run.
Qed.

(** *** One iteration of the loop *)

Lemma drained_update_fails now ev d :
  handleStreamDrainedStateUpdate now ev d = (Err (PgError syntax_error), d).
Proof. done. Qed.

Lemma cancelled_well_behaved now a : well_behaved (update_cancelled now a).
Proof. by intros r. Qed.

Lemma cancelled_update_ok now ev d u d' :
  handleStreamCancelledStateUpdate now ev d = (Ok u, d') →
  same_rest d d' ∧ rtc db_step d d' ∧
  ∀ r, vesting_streams d' !! recipient ev = Some r → status r = cancelled.
Proof.
  intros H. apply bind_inv_ok in H as (n & d1 & H & [= _ <-]).
  split; [by eapply exec_update_rest|]. split.
  { eapply rtc_once, step_update; [apply cancelled_well_behaved|done]. }
  apply exec_update_ok in H as [_ Hl]. intros r. rewrite Hl.
  destruct (vesting_streams d !! recipient ev) as [r0|]; [|done]. simpl.
  unfold where_recipient. rewrite (bool_decide_eq_true_2 (_ = _)) by done.
  case_bool_decide as Hs; simpl; intros; simplify_eq.
  - unfold updated_row. by case_match.
  - destruct (decide (status r = cancelled)); [done|]. by destruct Hs.
Qed.

(** What a completed iteration does. *)
Record iterated (ev : DecodedStreamEvent) (it_row : event_row) (b : Z) (d : db) (n : Z) (d' : db)
    : Prop := Iterated {
  it_row_of : row_of ev = Some it_row;
  it_not_drained : event_type ev ≠ StreamDrained;
  it_count : n = b + (if bool_decide (transaction_hash ev ∈ hashes d) then 0 else 1);
  it_fits : transaction_hash ev ∉ hashes d → claim_row_fits it_row;
  it_events : stream_events d' = stream_events d ++
    (if bool_decide (transaction_hash ev ∈ hashes d) then [] else [it_row]);
  it_cursor : indexer_cursors d' = indexer_cursors d;
  it_claimed : ∀ k, claimed d' k = claimed d k +
    (if bool_decide (transaction_hash ev ∈ hashes d) then 0 else claim_of ev k);
  it_remaining : remaining_ok d → remaining_ok d';
  it_steps : rtc db_step d d';
  it_cancelled : event_type ev = StreamCancelled →
    ∀ r, vesting_streams d' !! recipient ev = Some r → status r = cancelled }.

Lemma status_update_ok now ev d u d' :
  (match event_type ev with
   | StreamDrained => handleStreamDrainedStateUpdate now ev
   | StreamCancelled => handleStreamCancelledStateUpdate now ev
   | _ => ret tt
   end) d = (Ok u, d') →
  event_type ev ≠ StreamDrained ∧ same_rest d d' ∧ rtc db_step d d' ∧
  (event_type ev = StreamCancelled →
   ∀ r, vesting_streams d' !! recipient ev = Some r → status r = cancelled).
Proof.
  destruct (event_type ev) eqn:Het; try (intros [= _ <-]; split_and!; done).
  - intros (? & ? & ?)%cancelled_update_ok. done.
Qed.

Lemma upsert_one_ok now b ev d n d' :
  upsert_one now b ev d = (Ok n, d') → ∃ row, iterated ev row b d n d'.
Proof.
  unfold upsert_one. intros H. apply bind_inv_ok in H as (c & d1 & Hins & H).
  apply insert_event_ok in Hins as (row & Hrow & Hins).
  apply bind_inv_ok in H as ([] & d2 & Hbal & H).
  apply bind_inv_ok in H as ([] & d3 & Hst & [= <- <-]).
  apply status_update_ok in Hst as (Hnd & (He & Hb & Hc) & Hsteps & Hcan).
  assert (Hrem : remaining_ok d2 → remaining_ok d3) by (unfold remaining_ok; by rewrite Hb).
  assert (Hcl : ∀ k, claimed d3 k = claimed d2 k) by (intros; unfold claimed; by rewrite Hb).
  case_bool_decide as Hseen; destruct Hins as [-> ->]; simpl in Hbal.
  - unfold ret in Hbal. simplify_eq.
    exists row. constructor; try done; rewrite ?bool_decide_eq_true_2 by done; rewrite ?app_nil_r; try done.
    intros k. by rewrite Hcl, Z.add_0_r.
  - pose proof (row_of_fits _ _ Hrow (update_balances_fits _ _ _ _ _ Hbal)) as Hfit.
    apply update_balances_ok in Hbal as ((m & ->) & Hcl2 & Hrem2).
    exists row. constructor; try done; rewrite ?bool_decide_eq_false_2 by done; try done.
    + intros k. rewrite Hcl, Hcl2. done.
    + intros Hd. apply Hrem, Hrem2. exact Hd.
    + eapply rtc_l; [|exact Hsteps]. by apply step_frame.
Qed.

(** *** The loop *)

Lemma hashes_app_row d d' ev row :
  row_of ev = Some row →
  stream_events d' = stream_events d ++
    (if bool_decide (transaction_hash ev ∈ hashes d) then [] else [row]) →
  hashes d' = hashes d ++
    (if bool_decide (transaction_hash ev ∈ hashes d) then [] else [transaction_hash ev]).
Proof.
  intros Hrow He. unfold hashes at 1. rewrite He, fmap_app. f_equal.
  case_bool_decide; [done|]. simpl. by rewrite (row_of_hash _ _ Hrow).
Qed.

Lemma it_hashes ev row b d n d' :
  iterated ev row b d n d' → transaction_hash ev ∈ hashes d' ∧
  (∀ h, h ∈ hashes d' ↔ h ∈ hashes d ∨ h = transaction_hash ev).
Proof.
  intros [Hrow _ _ _ He _ _ _ _ _]. pose proof (hashes_app_row _ _ _ _ Hrow He) as Hh.
  rewrite Hh. case_bool_decide as Hin.
  - rewrite app_nil_r. split; [done|]. naive_solver.
  - split; [set_solver|]. set_solver.
Qed.

Record looped (evs : list DecodedStreamEvent) (b : Z) (d : db) (n : Z) (d' : db) : Prop := Looped {
  lo_not_drained : Forall (λ ev, event_type ev ≠ StreamDrained) evs;
  lo_events : stream_events d' = stream_events d ++ new_rows (hashes d) evs;
  lo_fits : Forall claim_row_fits (new_rows (hashes d) evs);
  lo_count : n = b + Z.of_nat (length (new_rows (hashes d) evs));
  lo_hashes : ∀ h, h ∈ hashes d' ↔ h ∈ hashes d ∨ h ∈ (transaction_hash <$> evs);
  lo_cursor : indexer_cursors d' = indexer_cursors d;
  lo_claims : claims_ok d → claims_ok d';
  lo_remaining : remaining_ok d → remaining_ok d';
  lo_steps : rtc db_step d d';
  lo_rows : Forall (λ ev, is_Some (row_of ev)) evs;
  lo_cancelled : Forall (λ ev, event_type ev = StreamCancelled →
    ∀ r, vesting_streams d' !! recipient ev = Some r → status r = cancelled) evs }.

Lemma it_claims ev row b d n d' : iterated ev row b d n d' → claims_ok d → claims_ok d'.
Proof.
  intros [Hrow _ _ _ He _ Hcl _ _ _] Hd k. rewrite Hcl, He, Hd, claims_total_app.
  f_equal. case_bool_decide; [done|]. simpl. rewrite (row_of_claim _ _ _ Hrow). unfold claim_of. lia.
Qed.

Lemma new_rows_seen seen seen' evs :
  (∀ h, h ∈ seen ↔ h ∈ seen') → new_rows seen evs = new_rows seen' evs.
Proof.
  revert seen seen'. induction evs as [|ev evs IH]; intros seen seen' H; [done|]. simpl.
  rewrite (bool_decide_ext _ _ (H (transaction_hash ev))). case_bool_decide; [by apply IH|].
  destruct (row_of ev); [f_equal|]; apply IH; set_solver.
Qed.

(** The rows of a batch, after its first event was handled. *)
Lemma new_rows_step ev row evs d d' :
  row_of ev = Some row →
  hashes d' = hashes d ++
    (if bool_decide (transaction_hash ev ∈ hashes d) then [] else [transaction_hash ev]) →
  new_rows (hashes d) (ev :: evs) =
    (if bool_decide (transaction_hash ev ∈ hashes d) then [] else [row]) ++ new_rows (hashes d') evs.
Proof.
  intros Hrow Hh. rewrite Hh. simpl. case_bool_decide; [by rewrite app_nil_r|]. by rewrite Hrow.
Qed.

Lemma upsert_loop_ok now evs b d n d' :
  fold_each evs b (upsert_one now) d = (Ok n, d') → looped evs b d n d'.
Proof.
  revert b d. induction evs as [|ev evs IH]; intros b d H; simpl in H.
  { unfold ret in H. simplify_eq. constructor; simpl; rewrite ?app_nil_r; try done; try lia; set_solver. }
  apply bind_inv_ok in H as (b1 & d1 & H1 & H). apply upsert_one_ok in H1 as [row H1].
  apply IH in H. pose proof (it_hashes _ _ _ _ _ _ H1) as [Hin Hiff].
  pose proof (it_claims _ _ _ _ _ _ H1) as Hcl.
  destruct H1 as [Hrow Hnd Hn Hfit He Hc _ Hrem Hst Hcan].
  pose proof (hashes_app_row _ _ _ _ Hrow He) as Hh.
  destruct H as [Lnd Lev Lfit Lct Lh Lc Lcl Lrem Lst Lrow Lcan].
  pose proof (new_rows_step ev row evs d d1 Hrow Hh) as Hnew.
  constructor.
  - by constructor.
  - rewrite Lev, He, Hnew. by rewrite app_assoc.
  - rewrite Hnew. apply Forall_app. split; [|done]. case_bool_decide; constructor; auto.
  - rewrite Lct, Hn, Hnew, length_app. case_bool_decide; simpl; lia.
  - intros h. rewrite Lh, Hiff, fmap_cons, elem_of_cons. naive_solver.
  - congruence.
  - auto.
  - auto.
  - by etrans.
  - constructor; [by eexists|done].
  - constructor; [|done]. intros Het. by apply (steps_terminal d1), Hcan.
Qed.

Lemma upsertStreamEvents_ok now evs d n d' :
  upsertStreamEvents now evs d = (Ok n, d') → looped evs 0 d n d'.
Proof.
  destruct evs as [|ev evs]; [apply (upsert_loop_ok now [])|].
  unfold upsertStreamEvents. rewrite transaction_ok. intros H. by apply upsert_loop_ok in H.
Qed.

Lemma upsertStreamEvents_err now evs d e d' :
  upsertStreamEvents now evs d = (Err e, d') → d' = d.
Proof. destruct evs; [done|apply transaction_err]. Qed.

Lemma upsertStreamEvents_steps now evs d r d' :
  upsertStreamEvents now evs d = (r, d') → rtc db_step d d'.
Proof.
  destruct r as [n|e]; [by intros ?%upsertStreamEvents_ok%lo_steps|].
  by intros ->%upsertStreamEvents_err.
Qed.

(** A batch with an event no iteration gets past is rolled back. *)
Lemma upsertStreamEvents_blocked now evs d :
  (∀ n d', upsertStreamEvents now evs d ≠ (Ok n, d')) →
  ∃ e, upsertStreamEvents now evs d = (Err e, d).
Proof.
  intros H. destruct (upsertStreamEvents now evs d) as [[n|e] d'] eqn:Hrun; [by destruct (H n d')|].
  exists e. by rewrite (upsertStreamEvents_err _ _ _ _ _ Hrun).
Qed.

Lemma new_rows_none seen evs :
  (∀ h, h ∈ (transaction_hash <$> evs) → h ∈ seen) → new_rows seen evs = [].
Proof.
  induction evs as [|ev evs IH]; intros H; [done|]. simpl.
  rewrite bool_decide_eq_true_2 by (apply H; left). apply IH. intros h Hh. apply H. by right.
Qed.

Lemma new_rows_hashes seen evs :
  NoDup seen → NoDup (seen ++ (er_transaction_hash <$> new_rows seen evs)).
Proof.
  revert seen. induction evs as [|ev evs IH]; intros seen Hs; simpl; [by rewrite app_nil_r|].
  case_bool_decide as Hin; [by apply IH|]. destruct (row_of ev) as [row|] eqn:Hrow; [|by apply IH].
  rewrite fmap_cons, (row_of_hash _ _ Hrow), cons_middle, app_assoc. apply IH.
  apply NoDup_app. split_and!; [done|set_solver|apply NoDup_singleton].
Qed.

(** The rows a batch adds are of different transactions. *)
Lemma new_rows_fresh seen evs : NoDup (er_transaction_hash <$> new_rows seen evs).
Proof.
  rewrite (new_rows_seen seen (remove_dups seen)) by (intros; by rewrite elem_of_remove_dups).
  pose proof (new_rows_hashes (remove_dups seen) evs (NoDup_remove_dups _)) as H.
  by apply NoDup_app in H as (_ & _ & ?).
Qed.

(** A row a batch adds is that of the first of its events with that hash, and
    the hash was not there before. *)
Lemma new_rows_iff seen evs row :
  Forall (λ ev, is_Some (row_of ev)) evs →
  row ∈ new_rows seen evs ↔ ∃ before ev after, evs = before ++ ev :: after ∧
    row_of ev = Some row ∧ transaction_hash ev ∉ seen ∧
    transaction_hash ev ∉ (transaction_hash <$> before).
Proof.
  revert seen. induction evs as [|ev evs IH]; intros seen Hall.
  { split; [intros []%not_elem_of_nil|]. by intros ([|] & ? & ? & ? & _). }
  apply Forall_cons in Hall as [[row1 Hrow] Hall]. cbn [new_rows].
  case_bool_decide as Hin; [|rewrite Hrow, elem_of_cons]; rewrite IH by done; split.
  - intros (bf & ev1 & af & -> & Hr & Hn & Hb). exists (ev :: bf), ev1, af.
    split_and!; [done..|]. rewrite fmap_cons, not_elem_of_cons. split; [congruence|done].
  - intros ([|e bf] & ev1 & af & Heq & Hr & Hn & Hb); simplify_eq/=; [done|].
    exists bf, ev1, af. rewrite not_elem_of_cons in Hb. by destruct Hb.
  - intros [->|(bf & ev1 & af & -> & Hr & Hn & Hb)].
    + exists [], ev, evs. split_and!; [done..|]. apply not_elem_of_nil.
    + rewrite not_elem_of_app, list_elem_of_singleton in Hn. destruct Hn.
      exists (ev :: bf), ev1, af. split_and!; [done..|]. by rewrite fmap_cons, not_elem_of_cons.
  - intros ([|e bf] & ev1 & af & Heq & Hr & Hn & Hb); simplify_eq/=; [by left|].
    right. rewrite not_elem_of_cons in Hb. destruct Hb. exists bf, ev1, af.
    by rewrite not_elem_of_app, list_elem_of_singleton.
Qed.

Lemma new_rows_stored seen evs h :
  Forall (λ ev, is_Some (row_of ev)) evs →
  h ∈ seen ∨ h ∈ (er_transaction_hash <$> new_rows seen evs) ↔ h ∈ seen ∨ h ∈ (transaction_hash <$> evs).
Proof.
  revert seen. induction evs as [|ev evs IH]; intros seen Hall; [done|].
  apply Forall_cons in Hall as [[row Hrow] Hall]. cbn [new_rows]. rewrite fmap_cons, elem_of_cons.
  case_bool_decide as Hin; [rewrite IH by done; naive_solver|].
  rewrite Hrow, fmap_cons, elem_of_cons, (row_of_hash _ _ Hrow).
  pose proof (IH (seen ++ [transaction_hash ev]) Hall) as H.
  rewrite elem_of_app, list_elem_of_singleton in H. naive_solver.
Qed.

(** Handling again an event whose effects are there changes nothing. *)
Lemma insert_event_again ev d row :
  row_of ev = Some row →
  transaction_hash ev ∈ hashes d → insert_event ev d = (Ok 0, d).
Proof.
  unfold row_of, insert_event, bind. intros Hrow Hin.
  destruct (ledger_sequence ev) as [l|]; [|done]. simpl in Hrow. case_guard as Hf; [|done].
  assert (∃ m, pg_opt_numeric (amount ev) d = (Ok m, d)) as [m ->].
  { destruct (amount ev) as [s|]; simpl in *; [|by eexists].
    destruct (Z_of_string s) as [z|] eqn:Hz; [|done].
    exists (Some z). unfold bind. unfold pg_numeric. by rewrite Hz. }
  unfold pg_integer. rewrite (pg_int_ok _ _ _ Hf). unfold get.
  by rewrite bool_decide_eq_true_2.
Qed.

Lemma cancelled_update_again now ev d :
  (∀ r, vesting_streams d !! recipient ev = Some r → status r = cancelled) →
  handleStreamCancelledStateUpdate now ev d = (Ok tt, d).
Proof.
  intros Hc. unfold handleStreamCancelledStateUpdate, bind.
  rewrite exec_update_none; [done|done|]. intros a r Hr. simpl. unfold where_recipient.
  destruct (decide (a = recipient ev)) as [->|Hne].
  - rewrite (bool_decide_eq_false_2 (status r ≠ _)); [by rewrite andb_false_r|].
    intros H. by apply H, Hc.
  - by rewrite bool_decide_eq_false_2.
Qed.

Lemma upsert_one_again now b ev d row :
  row_of ev = Some row → transaction_hash ev ∈ hashes d →
  event_type ev ≠ StreamDrained →
  (event_type ev = StreamCancelled →
   ∀ r, vesting_streams d !! recipient ev = Some r → status r = cancelled) →
  upsert_one now b ev d = (Ok b, d).
Proof.
  intros Hrow Hin Hnd Hc. unfold upsert_one. rewrite (bind_ok _ _ _ _ _ (insert_event_again _ _ _ Hrow Hin)).
  simpl. unfold bind at 1, ret at 1.
  assert ((match event_type ev with
     | StreamDrained => handleStreamDrainedStateUpdate now ev
     | StreamCancelled => handleStreamCancelledStateUpdate now ev
     | _ => ret tt
     end) d = (Ok tt, d)) as Hst.
  { destruct (event_type ev); try done. by apply cancelled_update_again, Hc. }
  rewrite (bind_ok _ _ _ _ _ Hst). unfold ret. by rewrite Z.add_0_r.
Qed.

Lemma upsert_loop_again now b evs d :
  Forall (λ ev, is_Some (row_of ev)) evs → Forall (λ ev, event_type ev ≠ StreamDrained) evs →
  (∀ h, h ∈ (transaction_hash <$> evs) → h ∈ hashes d) →
  Forall (λ ev, event_type ev = StreamCancelled →
    ∀ r, vesting_streams d !! recipient ev = Some r → status r = cancelled) evs →
  fold_each evs b (upsert_one now) d = (Ok b, d).
Proof.
  induction evs as [|ev evs IH]; intros Hr Hnd Hh Hc; [done|].
  apply Forall_cons in Hr as [[row Hrow] Hr]. apply Forall_cons in Hnd as [Hnd1 Hnd].
  apply Forall_cons in Hc as [Hc1 Hc]. cbn [fold_each].
  rewrite (bind_ok _ _ _ b d); [apply IH; [done..| |done]|].
  - intros h Hin. apply Hh. by right.
  - eapply upsert_one_again; [done| |done|done]. apply Hh. left.
Qed.

Lemma upsertStreamEvents_again now now' evs d n d' :
  upsertStreamEvents now evs d = (Ok n, d') → upsertStreamEvents now' evs d' = (Ok 0, d').
Proof.
  intros H%upsertStreamEvents_ok. destruct H as [Hnd _ _ _ Hh _ _ _ _ Hr Hc].
  destruct evs as [|ev evs]; [done|]. unfold upsertStreamEvents. rewrite transaction_ok.
  apply upsert_loop_again; try done. intros h Hin. apply Hh. by right.
Qed.

(** A cancellation of a stream in a state the trigger does not let go. *)
Lemma uncancellable_steps d d' a r :
  rtc db_step d d' → vesting_streams d !! a = Some r → uncancellable r = true →
  ∀ r', vesting_streams d' !! a = Some r' → status r' ≠ cancelled.
Proof.
  intros Hs Hr Hu r' Hr'. destruct (steps_status _ _ _ _ Hs Hr) as (r'' & Hr'' & Hp). simplify_eq.
  unfold uncancellable in Hu. apply bool_decide_eq_true in Hu. clear -Hu Hp.
  assert (∀ s t, rtc (λ s t, isValidTransition s t = true) s t →
    s ∈ [expired; drained; clawedback] → t ∈ [expired; drained; clawedback]) as Hinv.
  { induction 1 as [|x y z Hv _ IH]; [done|]. intros Hin. apply IH.
    rewrite !elem_of_cons, elem_of_nil in *. destruct Hin as [->|[->|[->|[]]]], y; naive_solver. }
  pose proof (Hinv _ _ Hp Hu) as H. intros Hc. rewrite Hc in H.
  rewrite !elem_of_cons, elem_of_nil in H. naive_solver.
Qed.

(** ** The store as the indexer sees it *)

#[export] Instance db_event_store (now : Z) : EventStore db exn.
Proof.
  refine {| es_read := readCursor; es_write := writeCursor;
            es_upsert := upsertStreamEvents now;
            es_cursor := λ d, default "" (indexer_cursors d);
            es_rows := stream_events;
            es_ready := λ d, is_Some (indexer_cursors d) |}.
  - done.
  - intros c d [c0 Hc]. eexists. split; [done|]. rewrite Hc. simpl. split_and!; [done|by eexists|done].
  - intros evs d e d'. apply upsertStreamEvents_err.
  - done.
  - intros evs d n d' H%upsertStreamEvents_ok. rewrite (lo_cursor _ _ _ _ _ H).
    split_and!; [done|done|apply (lo_rows _ _ _ _ _ H)|apply (lo_events _ _ _ _ _ H)].
  - intros evs d n d'. apply upsertStreamEvents_again.
Defined.

(** ** Properties *)

(** C2. [upsertStreamEvents] is all or nothing.  When it throws, every table
    is as it was.  When it completes, the events table has gained exactly one
    row per transaction hash it did not have, the first event of that hash, the
    count returned is the number of rows gained, hashes stay unique, the cursor
    is untouched, and every stream the batch cancels is cancelled. *)
Theorem upsertStreamEvents_spec now evs d r d' :
  NoDup (hashes d) → upsertStreamEvents now evs d = (r, d') →
  match r with
  | Err _ => d' = d
  | Ok n =>
      stream_events d' = stream_events d ++ new_rows (hashes d) evs ∧
      n = Z.of_nat (length (new_rows (hashes d) evs)) ∧ NoDup (hashes d') ∧
      indexer_cursors d' = indexer_cursors d ∧
      (∀ ev r, ev ∈ evs → event_type ev = StreamCancelled →
         vesting_streams d' !! recipient ev = Some r → status r = cancelled)
  end.
Proof.
  intros Hd H. destruct r as [n|e]; [|by eapply upsertStreamEvents_err].
  apply upsertStreamEvents_ok in H. destruct H as [_ He _ Hn _ Hc _ _ _ _ Hcan].
  split_and!; [done|done| |done|].
  - unfold hashes. rewrite He, fmap_app. by apply new_rows_hashes.
  - rewrite Forall_forall in Hcan. eauto.
Qed.

(** Replaying a batch is a no-op: after a batch was committed, upserting
    the same batch again, at any later time, inserts nothing, re-applies no
    balance and no status, and leaves the whole database as it is. *)
Theorem upsertStreamEvents_idempotent now now' evs d n d' :
  upsertStreamEvents now evs d = (Ok n, d') → upsertStreamEvents now' evs d' = (Ok 0, d').
Proof. apply upsertStreamEvents_again. Qed.

(** C3. Balances and the event log never drift apart: whatever the batch
    contains (duplicates, claims before creations, several claims of one
    stream) and however the call ends, if each [claimed_total] was the sum of
    the stored claim events and each [remaining] the deposit minus that total,
    they still are. *)
Theorem upsertStreamEvents_balances now evs d r d' :
  claims_ok d → remaining_ok d → upsertStreamEvents now evs d = (r, d') →
  claims_ok d' ∧ remaining_ok d'.
Proof.
  intros Hc Hr H. destruct r as [n|e].
  - apply upsertStreamEvents_ok in H. split; [by eapply lo_claims|by eapply lo_remaining].
  - by apply upsertStreamEvents_err in H as ->.
Qed.

(** A batch with a StreamDrained event is never stored: the drain handler's
    [UPDATE ... ON CONFLICT DO NOTHING] is not a statement PostgreSQL accepts,
    so the whole transaction is rolled back, the other events included. *)
Theorem drained_batch_never_commits now evs d :
  StreamDrained ∈ (event_type <$> evs) →
  ∃ e, upsertStreamEvents now evs d = (Err e, d).
Proof.
  intros Hin. apply upsertStreamEvents_blocked. intros n d' H%upsertStreamEvents_ok.
  pose proof (lo_not_drained _ _ _ _ _ H) as Hnd. rewrite Forall_forall in Hnd.
  apply list_elem_of_fmap in Hin as (ev & Het & Hev). by apply (Hnd ev).
Qed.

(** A cancellation that arrives for an expired, drained or clawed-back
    stream is not skipped: the guard of the handler is only [status !=
    'cancelled'], the trigger rejects the update, and the whole batch is
    rolled back, every time it is tried. *)
Theorem late_cancellation_blocks_batch now evs d ev r :
  ev ∈ evs → event_type ev = StreamCancelled →
  vesting_streams d !! recipient ev = Some r → uncancellable r = true →
  ∃ e, upsertStreamEvents now evs d = (Err e, d).
Proof.
  intros Hev Het Hr Hu. apply upsertStreamEvents_blocked. intros n d' H%upsertStreamEvents_ok.
  pose proof (lo_steps _ _ _ _ _ H) as Hs.
  destruct (steps_status _ _ _ _ Hs Hr) as (r' & Hr' & _).
  apply (uncancellable_steps _ _ _ _ Hs Hr Hu _ Hr').
  pose proof (lo_cancelled _ _ _ _ _ H) as Hc. rewrite Forall_forall in Hc. by eapply Hc.
Qed.

(** A claim whose recipient text is longer than the 56 characters of
    [stream_balances.stream_id] cannot be stored, nor can the batch it is in.
    The decoder passes the base64 of the address value through, which is 60
    characters long. *)
Theorem long_recipient_blocks_batch now evs d row :
  row ∈ new_rows (hashes d) evs → er_event_type row = TokensClaimed →
  er_amount row ≠ None → 56 < str_length (er_recipient row) →
  ∃ e, upsertStreamEvents now evs d = (Err e, d).
Proof.
  intros Hin Het Ha Hl. apply upsertStreamEvents_blocked. intros n d' H%upsertStreamEvents_ok.
  pose proof (lo_fits _ _ _ _ _ H) as Hf. rewrite Forall_forall in Hf.
  pose proof (Hf _ Hin Het Ha). lia.
Qed.

(** ** Witnesses *)

Definition claim_event (hash : string) (n : Z) : DecodedStreamEvent :=
  Decoded TokensClaimed "GALICE" "" "" (Some (Z_to_string n)) (Some 180) hash.
Definition sample_batch : list DecodedStreamEvent :=
  [claim_event "h1" 30; Decoded StreamCancelled "GALICE" "GSPONSOR" "" (Some "70") (Some 181) "h2";
   claim_event "h1" 5].
Definition stored_db : db := snd (upsertStreamEvents 42 sample_batch (sample_db active)).

Lemma sample_run : upsertStreamEvents 42 sample_batch (sample_db active) = (Ok 2, stored_db).
Proof. vm_compute. reflexivity. Qed.

Lemma upsertStreamEvents_spec_witness :
  hashes stored_db = ["h1"; "h2"] ∧ NoDup (hashes stored_db).
Proof.
  split; [vm_compute; reflexivity|].
  refine (proj1 (proj2 (proj2 (upsertStreamEvents_spec 42 sample_batch (sample_db active) (Ok 2)
            stored_db _ sample_run)))).
  vm_compute. constructor.
Defined.

Lemma upsertStreamEvents_idempotent_witness :
  upsertStreamEvents 99 sample_batch stored_db = (Ok 0, stored_db).
Proof. exact (upsertStreamEvents_idempotent 42 99 sample_batch _ 2 stored_db sample_run). Defined.

Lemma upsertStreamEvents_balances_witness :
  claims_ok stored_db ∧ remaining_ok stored_db.
Proof.
  refine (upsertStreamEvents_balances 42 sample_batch (sample_db active) (Ok 2) stored_db _ _ sample_run).
  - intros k. reflexivity.
  - intros k r. simpl. rewrite lookup_empty. discriminate.
Defined.

Lemma drained_batch_never_commits_witness :
  ∃ e, upsertStreamEvents 42 [claim_event "h1" 30; Decoded StreamDrained "GALICE" "G" "" None (Some 180) "h2"]
         (sample_db expired) = (Err e, sample_db expired).
Proof. apply drained_batch_never_commits. vm_compute. right. left. Defined.

Lemma late_cancellation_blocks_batch_witness :
  ∃ e, upsertStreamEvents 42 sample_batch (sample_db expired) = (Err e, sample_db expired).
Proof.
  apply (late_cancellation_blocks_batch 42 sample_batch (sample_db expired)
    (Decoded StreamCancelled "GALICE" "GSPONSOR" "" (Some "70") (Some 181) "h2") (sample_row expired 200));
    [right; left|reflexivity..].
Defined.

(** The base64 of an account address value: type, account type and key type
    words, then a 32-byte key. *)
Definition account_xdr : string :=
  "AAAAEgAAAAAAAAAAAAECAwQFBgcICQoLDA0ODxAREhMUFRYXGBkaGxwdHh8=".
Definition long_claim : DecodedStreamEvent :=
  Decoded TokensClaimed account_xdr "" "" (Some "30") (Some 180) "h1".

Lemma long_recipient_blocks_batch_witness :
  ∃ e, upsertStreamEvents 42 [long_claim] (sample_db active) = (Err e, sample_db active).
Proof.
  apply (long_recipient_blocks_batch 42 [long_claim] (sample_db active)
    (EventRow TokensClaimed account_xdr "" "" (Some 30) 180 "h1"));
    [left|reflexivity|discriminate|vm_compute; reflexivity].
Defined.
