(* ===== verification/HorizonClient.v ===== *)
(** * The Horizon client of the indexer

    [backend/src/indexer/horizonClient.ts]: the events request and its URL, the
    latest-ledger request with its degraded answer, and the backoff delay.
    [fetch] is a parameter: a function from the URL to what the network gives. *)
From Stdlib Require Export QArith.
From Stdlib Require Import Qpower Lqa.
From S2P Require Import Prelude Decoder Db UrlText.
#[global] Close Scope Q_scope.
#[global] Open Scope Z_scope.

(** A [fetch] that rejects, or a response whose [json()] may reject too. *)
Inductive http (B : Type) :=
| FetchRejects (e : exn)
| Response (resp_status : Z) (body : option B).
Arguments FetchRejects {B} e.
Arguments Response {B} resp_status body.

(** [resp.ok] *)
Definition http_ok (st : Z) : bool := (200 <=? st) && (st <=? 299).

(** [_embedded?.records], absent or an array. *)
Definition events_body := option (list HorizonEventRecord).
Record ledger_record := LedgerRecord { lr_sequence : option Z; lr_closed_at : option string }.
Definition ledgers_body := option (list ledger_record).

Record FetchPageResult := FetchPage {
  records : list HorizonEventRecord;
  nextCursor : option string;
  latestLedger : Z;
  latestLedgerClosedAt : option string }.

(** ** Requests *)

(** [horizonUrl] is a base that [new URL] leaves as it is. *)
Definition buildEventsUrl (horizonUrl contractId cursor : string) (pageLimit : Z) : string :=
  horizonUrl +:+ "/soroban/events?" +:+ form_pairs
    ([("contract_id", contractId); ("event_type", "contract"); ("order", "asc");
      ("limit", Z_to_string pageLimit)]
     ++ if truthy cursor then [("cursor", cursor)] else []).

Definition fetchLatestLedger (fetch : string → http ledgers_body) (horizonUrl : string)
    : Z * option string :=
  match fetch (horizonUrl +:+ "/ledgers?order=desc&limit=1") with
  | FetchRejects _ => (0, None)
  | Response st body =>
      if negb (http_ok st) then (0, None)
      else match body with
           | None => (0, None)
           | Some rs =>
               let record := rs ≫= head in
               (default 0 (record ≫= lr_sequence), record ≫= lr_closed_at)
           end
  end.

Definition fetchEventsPage (fetch : string → http events_body)
    (fetch_ledgers : string → http ledgers_body)
    (horizonUrl contractId cursor : string) (pageLimit : Z) : result exn FetchPageResult :=
  let url := buildEventsUrl horizonUrl contractId cursor pageLimit in
  let '(sequence, closedAt) := fetchLatestLedger fetch_ledgers horizonUrl in
  match fetch url with
  | FetchRejects e => Err e
  | Response st body =>
      if negb (http_ok st) then Err (HorizonHttpError st)
      else match body with
           | None => Err (OtherError "invalid json")
           | Some rs =>
               let records := default [] rs in
               Ok (FetchPage records (last records ≫= rec_paging_token) sequence closedAt)
           end
  end.

(** ** Backoff *)

(** [Math.min] on delays, in rational milliseconds; [None] is [NaN]. *)
Definition js_min (a b : option Q) : option Q :=
  x ← a; y ← b; Some (if Qle_bool x y then x else y).

(** [random] is the value [Math.random()] returns. *)
Definition computeBackoff (attempt : Z) (httpStatus : option Z) (maxMs : number) (random : Q)
    : option Q :=
  let isHeavyError := bool_decide (httpStatus = Some 429) || bool_decide (httpStatus = Some 503)
                      || bool_decide (httpStatus = Some 504) in
  let baseMs := if isHeavyError then 2000 else 1000 in
  let exponent := Z.min (attempt - 1) 6 in
  let exponential := (inject_Z baseMs * Qpower 2 exponent)%Q in
  let jitter := (random * 1000)%Q in
  js_min (Some (exponential + jitter)%Q) (inject_Z <$> maxMs).

(** ** Lemmas *)

(** The delay before jitter and cap. *)
Definition base_delay (attempt : Z) (httpStatus : option Z) : Z :=
  (if bool_decide (httpStatus ∈ [Some 429; Some 503; Some 504]) then 2000 else 1000)
  * 2 ^ Z.min (attempt - 1) 6.

Lemma heavy_status (st : option Z) :
  bool_decide (st = Some 429) || bool_decide (st = Some 503) || bool_decide (st = Some 504)
  = bool_decide (st ∈ [Some 429; Some 503; Some 504]).
Proof.
  apply eq_true_iff_eq. rewrite !orb_true_iff, !bool_decide_eq_true.
  rewrite !elem_of_cons, elem_of_nil. naive_solver.
Qed.

Lemma computeBackoff_eq attempt httpStatus m random :
  1 <= attempt →
  ∃ x, (x == inject_Z (base_delay attempt httpStatus) + random * 1000)%Q ∧
    computeBackoff attempt httpStatus (Some m) random
    = Some (if Qle_bool x (inject_Z m) then x else inject_Z m).
Proof.
  intros Ha. unfold computeBackoff. rewrite heavy_status. simpl. eexists. split; [|done].
  unfold base_delay. rewrite inject_Z_mult, (Zpower_Qpower 2 (Z.min (attempt - 1) 6)) by lia.
  reflexivity.
Qed.

(** ** Properties *)

(** The backoff delay is capped and never collapses: from the first error
    on it is at most the configured maximum, it is less than a second above the
    base delay (2 s after 429, 503 and 504, 1 s otherwise) doubled per attempt
    up to 64 times, and it is at least that delay, or the maximum when that is
    smaller. *)
Theorem computeBackoff_bounds attempt httpStatus m random :
  1 <= attempt → (0 <= random)%Q → (random < 1)%Q →
  ∃ d, computeBackoff attempt httpStatus (Some m) random = Some d ∧
    (inject_Z (Z.min (base_delay attempt httpStatus) m) <= d)%Q ∧ (d <= inject_Z m)%Q ∧
    (d < inject_Z (base_delay attempt httpStatus + 1000))%Q.
Proof.
  intros Ha H0 H1. destruct (computeBackoff_eq attempt httpStatus m random Ha) as (x & Hx & ->).
  eexists. split; [done|]. set (D := base_delay attempt httpStatus) in *.
  assert (Hmin : (inject_Z (Z.min D m) <= inject_Z D)%Q) by (rewrite <-Zle_Qle; lia).
  assert (Hm : (inject_Z (Z.min D m) <= inject_Z m)%Q) by (rewrite <-Zle_Qle; lia).
  rewrite inject_Z_plus. change (inject_Z 1000) with 1000%Q.
  destruct (Qle_bool x (inject_Z m)) eqn:Hle.
  - apply Qle_bool_iff in Hle. repeat split; [..|done|]; lra.
  - assert (inject_Z m < x)%Q. { apply Qnot_le_lt. intros H. by apply Qle_bool_iff in H; congruence. }
    repeat split; [done|apply Qle_refl|lra].
Qed.

Lemma computeBackoff_bounds_witness :
  ∃ d, computeBackoff 3 (Some 429) (Some 60000) (1 # 2) = Some d ∧ (d <= inject_Z 60000)%Q ∧
    (d < inject_Z 9000)%Q.
Proof.
  destruct (computeBackoff_bounds 3 (Some 429) 60000 (1 # 2)) as (d & Hd & _ & Hm & Hl).
  - vm_compute. discriminate.
  - vm_compute. discriminate.
  - vm_compute. reflexivity.
  - exists d. split; [exact Hd|]. split; [exact Hm|exact Hl].
Defined.
