(* ===== verification/StreamIndexer.v ===== *)
(** * The polling loop of the event indexer

    [backend/src/indexer/StreamIndexer.ts]: configuration, the poll cycle with
    its error handling and scheduling, and the status snapshot, over any
    [EventStore].  The network and [Math.random] are arguments of a tick.  The
    Prometheus gauges of lag and duration are left out. *)
From S2P Require Import Prelude Bytes Decoder Db StreamStatus Balances Persistence HorizonClient.

(** Where an element of a filtered list comes from. *)
Lemma omap_app_inv {A B} (f : A → option B) l before y after :
  omap f l = before ++ y :: after →
  ∃ l1 x l2, l = l1 ++ x :: l2 ∧ f x = Some y ∧ omap f l1 = before ∧ omap f l2 = after.
Proof.
  revert before. induction l as [|x l IH]; intros before H; [by destruct before|]. simpl in H.
  destruct (f x) as [z|] eqn:Hx; [destruct before as [|z' before]; simplify_eq/=|].
  - by exists [], x, l.
  - destruct (IH before) as (l1 & x1 & l2 & -> & Hx1 & <- & <-); [done|].
    exists (x :: l1), x1, l2. split_and!; [done..| |done]. simpl. by rewrite Hx.
  - destruct (IH before) as (l1 & x1 & l2 & -> & Hx1 & <- & <-); [done|].
    exists (x :: l1), x1, l2. split_and!; [done..| |done]. simpl. by rewrite Hx.
Qed.

Record IndexerConfig := Config {
  horizonUrl : string;
  contractId : string;
  pollIntervalMs : number;
  pageLimit : Z;
  maxBackoffMs : number;
  finalityDepth : number;
  metricsPort : number;
  defaultStartLedger : string }.

Definition defaultConfig (env : string → option string) : IndexerConfig :=
  Config (default "https://horizon-testnet.stellar.org" (env "HORIZON_URL"))
    (default "" (env "VESTING_CONTRACT_ID"))
    (parse_int (default "6000" (env "INDEXER_POLL_MS")))
    200
    (parse_int (default "60000" (env "INDEXER_MAX_BACKOFF_MS")))
    (parse_int (default "3" (env "INDEXER_FINALITY_DEPTH")))
    (parse_int (default "9464" (env "METRICS_PORT")))
    (default "" (env "INDEXER_DEFAULT_START_LEDGER")).

(** The fields of the class, with the events counted by [eventsIndexedTotal].
    [timer] is the delay of the pending [setTimeout]; delays may be [NaN]. *)
Record indexer := Indexer {
  running : bool;
  timer : option (option Q);
  backoffMs : option Q;
  errorCount : Z;
  lastLedger : Z;
  chainTip : Z;
  ix_cursor : string;
  eventsIndexed : list StreamEventType }.

Definition new_indexer : indexer := Indexer false None (Some 0%Q) 0 0 0 "" [].

Record IndexerStatus := Status {
  st_running : bool;
  st_lastLedger : Z;
  st_chainTip : Z;
  st_lagLedgers : Z;
  st_cursor : string;
  st_errorCount : Z }.

Definition getStatus (ix : indexer) : IndexerStatus :=
  Status (running ix) (lastLedger ix) (chainTip ix) (Z.max 0 (chainTip ix - lastLedger ix))
    (ix_cursor ix) (errorCount ix).

Definition scheduleNext (delayMs : option Q) (ix : indexer) : indexer :=
  Indexer (running ix) (Some delayMs) (backoffMs ix) (errorCount ix) (lastLedger ix) (chainTip ix)
    (ix_cursor ix) (eventsIndexed ix).
Definition start (ix : indexer) : indexer :=
  scheduleNext (Some 0%Q) (Indexer true (timer ix) (backoffMs ix) (errorCount ix) (lastLedger ix)
    (chainTip ix) (ix_cursor ix) (eventsIndexed ix)).
(** [clearTimeout] only when a timer was set. *)
Definition stop (ix : indexer) : indexer :=
  Indexer false None (backoffMs ix) (errorCount ix) (lastLedger ix) (chainTip ix) (ix_cursor ix)
    (eventsIndexed ix).

Definition set_cursor (c : string) (ix : indexer) : indexer :=
  Indexer (running ix) (timer ix) (backoffMs ix) (errorCount ix) (lastLedger ix) (chainTip ix) c
    (eventsIndexed ix).
Definition set_chainTip (t : Z) (ix : indexer) : indexer :=
  Indexer (running ix) (timer ix) (backoffMs ix) (errorCount ix) (lastLedger ix) t (ix_cursor ix)
    (eventsIndexed ix).
Definition set_lastLedger (l : Z) (ix : indexer) : indexer :=
  Indexer (running ix) (timer ix) (backoffMs ix) (errorCount ix) l (chainTip ix) (ix_cursor ix)
    (eventsIndexed ix).
Definition count_events (ts : list StreamEventType) (ix : indexer) : indexer :=
  Indexer (running ix) (timer ix) (backoffMs ix) (errorCount ix) (lastLedger ix) (chainTip ix)
    (ix_cursor ix) (eventsIndexed ix ++ ts).
Definition set_backoff (b : option Q) (n : Z) (ix : indexer) : indexer :=
  Indexer (running ix) (timer ix) b n (lastLedger ix) (chainTip ix) (ix_cursor ix)
    (eventsIndexed ix).

(** [page.latestLedger - ledger >= finalityDepth]; false on a [NaN]. *)
Definition finalised (depth : number) (tip : Z) (r : HorizonEventRecord) : bool :=
  num_test (λ l, num_test (λ k, k <=? tip - l) depth) (ledger_number (rec_ledger r)).

Definition finalised_records (depth : number) (page : FetchPageResult) : list HorizonEventRecord :=
  filter (λ r, finalised depth (latestLedger page) r = true) (records page).
Definition decode_all (rs : list HorizonEventRecord) : list DecodedStreamEvent := omap decodeEvent rs.

(** What the network answers during one tick. *)
Record network := Network {
  fetch_events : string → http events_body;
  fetch_ledgers : string → http ledgers_body;
  random : Q }.

Section indexer.
Context {S : Type} `{EventStore S exn}.
Context (cfg : IndexerConfig).

Definition on_store {A} (m : M S exn A) : M (S * indexer) exn A := λ '(s, ix),
  let '(r, s') := m s in (r, (s', ix)).
Definition on_ix (f : indexer → indexer) : M (S * indexer) exn unit :=
  modify (λ '(s, ix), (s, f ix)).

(** The [try] block. *)
Definition poll (net : network) : M (S * indexer) exn unit :=
  let! saved := on_store es_read in
  let cursor := if bool_decide (saved = "") && truthy (defaultStartLedger cfg)
                then defaultStartLedger cfg else saved in
  on_ix (set_cursor cursor) ;;;
  let! page := match fetchEventsPage (fetch_events net) (fetch_ledgers net) (horizonUrl cfg)
                       (contractId cfg) cursor (pageLimit cfg) with
               | Ok page => ret page
               | Err e => throw e
               end in
  on_ix (set_chainTip (latestLedger page)) ;;;
  let decoded := decode_all (finalised_records (finalityDepth cfg) page) in
  (if bool_decide (decoded ≠ []) then
     on_store (es_upsert decoded) ;;;
     on_ix (count_events (event_type <$> decoded))
   else ret tt) ;;;
  (match nextCursor page with
   | Some c =>
       if truthy c then
         on_store (es_write c) ;;;
         on_ix (set_cursor c) ;;;
         on_ix (set_lastLedger (latestLedger page))
       else ret tt
   | None => ret tt
   end) ;;;
  on_ix (set_backoff (Some 0%Q) 0).

Definition http_status (e : exn) : option Z :=
  match e with HorizonHttpError st => Some st | _ => None end.

(** The [catch] block. *)
Definition on_error (net : network) (e : exn) : M (S * indexer) exn unit :=
  on_ix (λ ix, let n := errorCount ix + 1 in
               set_backoff (computeBackoff n (http_status e) (maxBackoffMs cfg) (random net)) n ix).

Definition positive (d : option Q) : bool :=
  match d with Some x => negb (Qle_bool x 0) | None => false end.

(** The [finally] block. *)
Definition reschedule (ix : indexer) : indexer :=
  if running ix then
    scheduleNext (if positive (backoffMs ix) then backoffMs ix
                  else inject_Z <$> pollIntervalMs cfg) ix
  else ix.

Definition tick (net : network) : M (S * indexer) exn unit :=
  try_catch (poll net) (on_error net) ;;; on_ix reschedule.

Definition ticks (nets : list network) : M (S * indexer) exn unit := for_each nets tick.

(** The page a tick fetches, and the events it would store. *)
Definition start_cursor (s : S) : string :=
  if bool_decide (es_cursor s = "") && truthy (defaultStartLedger cfg)
  then defaultStartLedger cfg else es_cursor s.
Definition fetched (net : network) (s : S) : result exn FetchPageResult :=
  fetchEventsPage (fetch_events net) (fetch_ledgers net) (horizonUrl cfg) (contractId cfg)
    (start_cursor s) (pageLimit cfg).
Definition batch (page : FetchPageResult) : list DecodedStreamEvent :=
  decode_all (finalised_records (finalityDepth cfg) page).

(** The state of the class after a failed cycle that had read cursor [c]. *)
Definition failed (net : network) (e : exn) (c : string) (tip : Z) (ix : indexer) : indexer :=
  let n := errorCount ix + 1 in
  reschedule (set_backoff (computeBackoff n (http_status e) (maxBackoffMs cfg) (random net)) n
                (set_chainTip tip (set_cursor c ix))).

(** And after a successful one. *)
Definition succeeded (page : FetchPageResult) (c : string) (ix : indexer) : indexer :=
  let ix1 := set_chainTip (latestLedger page) (set_cursor c ix) in
  let ix2 := if bool_decide (batch page ≠ []) then count_events (event_type <$> batch page) ix1
             else ix1 in
  let ix3 := match nextCursor page with
             | Some c' => if truthy c' then set_lastLedger (latestLedger page) (set_cursor c' ix2)
                          else ix2
             | None => ix2
             end in
  reschedule (set_backoff (Some 0%Q) 0 ix3).

(** ** Lemmas *)

Lemma tick_fetch_err net s ix e :
  fetched net s = Err e →
  tick net (s, ix) = (Ok tt, (s, failed net e (start_cursor s) (chainTip ix) ix)).
Proof.
  intros Hf. unfold fetched, start_cursor in Hf. unfold tick, try_catch, poll, bind.
  unfold on_store at 1. rewrite es_read_ok. cbn -[fetchEventsPage]. rewrite Hf. by destruct ix.
Qed.

Lemma tick_upsert_err net s ix page e s' :
  fetched net s = Ok page → es_upsert (batch page) s = (Err e, s') →
  tick net (s, ix) = (Ok tt, (s, failed net e (start_cursor s) (latestLedger page) ix)).
Proof.
  intros Hf Hu. pose proof (es_upsert_err _ _ _ _ Hu) as ->.
  assert (batch page ≠ []) as Hne. { intros Hb. rewrite Hb, es_upsert_nil in Hu. done. }
  unfold fetched, start_cursor in Hf. unfold tick, try_catch, poll, bind.
  unfold on_store at 1. rewrite es_read_ok. cbn -[fetchEventsPage batch bool_decide]. rewrite Hf.
  cbn -[bool_decide]. change (decode_all _) with (batch page). rewrite bool_decide_eq_true_2 by done.
  unfold on_store at 1. by rewrite Hu.
Qed.

(** A cycle whose batch was stored. *)
Lemma tick_success net s ix page n s1 :
  es_ready s → fetched net s = Ok page → es_upsert (batch page) s = (Ok n, s1) →
  ∃ s', tick net (s, ix) = (Ok tt, (s', succeeded page (start_cursor s) ix)) ∧
    es_ready s' ∧ es_rows s' = es_rows s1 ∧
    match nextCursor page with
    | Some c => if truthy c then es_cursor s' = c else s' = s1
    | None => s' = s1
    end.
Proof.
  intros Hrd Hf Hu. pose proof (es_upsert_ok _ _ _ _ Hu) as (_ & Hrd1 & _).
  unfold fetched, start_cursor in Hf. unfold tick, try_catch, poll, bind.
  unfold on_store at 1. rewrite es_read_ok. cbn -[fetchEventsPage bool_decide]. rewrite Hf.
  cbn -[bool_decide]. change (decode_all _) with (batch page). unfold succeeded.
  set (ix0 := set_chainTip _ _).
  assert ((if bool_decide (batch page ≠ []) then
             on_store (es_upsert (batch page)) ;;; on_ix (count_events (event_type <$> batch page))
           else ret tt) (s, ix0)
          = (Ok tt, (s1, if bool_decide (batch page ≠ [])
                         then count_events (event_type <$> batch page) ix0 else ix0))) as Hup.
  { destruct (decide (batch page = [])) as [Hb|Hb].
    - rewrite Hb, es_upsert_nil in Hu. rewrite bool_decide_eq_false_2 by auto. by simplify_eq.
    - rewrite bool_decide_eq_true_2 by done. unfold bind, on_store. cbn -[batch]. by rewrite Hu. }
  unfold bind in Hup. rewrite Hup. set (ix2 := if bool_decide _ then _ else _).
  destruct (nextCursor page) as [c|]; [destruct (truthy c)|].
  - destruct (es_write_ok c s1 (Hrd1 Hrd)) as (s' & Hw & Hc & Hr & Hst).
    exists s'. unfold on_store. by rewrite Hw.
  - exists s1. split_and!; auto.
  - exists s1. split_and!; auto.
Qed.

(** A tick never rejects, whatever the store and the network do. *)
Lemma tick_total net s ix : ∃ s' ix', tick net (s, ix) = (Ok tt, (s', ix')).
Proof.
  unfold tick, try_catch, bind. destruct (poll net (s, ix)) as [[[]|e] [s1 ix1]]; simpl; eauto.
Qed.

(** The record lies at least the finality depth below the tip of the page; a
    depth or a ledger that is not a number is never deep enough. *)
Definition deep_enough (page : FetchPageResult) (r : HorizonEventRecord) : Prop :=
  ∃ depth ledger, finalityDepth cfg = Some depth ∧ ledger_number (rec_ledger r) = Some ledger ∧
    depth <= latestLedger page - ledger.

Lemma finalised_deep page r :
  finalised (finalityDepth cfg) (latestLedger page) r = true ↔ deep_enough page r.
Proof.
  unfold finalised, num_test, deep_enough.
  destruct (ledger_number (rec_ledger r)) as [l|], (finalityDepth cfg) as [k|];
    rewrite ?Z.leb_le; naive_solver.
Qed.

(** A store holds the transactions of a batch it took, and those it held. *)
Lemma stored_after s s' evs h :
  Forall (λ ev, is_Some (row_of ev)) evs →
  es_rows s' = es_rows s ++ new_rows (er_transaction_hash <$> es_rows s) evs →
  es_stored s' h ↔ es_stored s h ∨ h ∈ (transaction_hash <$> evs).
Proof.
  intros Hall Hr. unfold es_stored. rewrite Hr, fmap_app, elem_of_app. by apply new_rows_stored.
Qed.

(** What one record contributes to the batch. *)
Definition contributed (page : FetchPageResult) (r : HorizonEventRecord) : option DecodedStreamEvent :=
  if finalised (finalityDepth cfg) (latestLedger page) r then decodeEvent r else None.

Lemma contributed_Some page r ev :
  contributed page r = Some ev ↔ deep_enough page r ∧ decodeEvent r = Some ev.
Proof. unfold contributed. rewrite <- finalised_deep. destruct (finalised _ _ _); naive_solver. Qed.

Lemma batch_contributed page : batch page = omap (contributed page) (records page).
Proof.
  unfold batch, decode_all, finalised_records, contributed.
  induction (records page) as [|r rs IH]; [done|]. simpl.
  destruct (finalised _ _ r) eqn:Hf.
  - rewrite filter_cons_True by done. simpl. destruct (decodeEvent r); [by f_equal|done].
  - by rewrite filter_cons_False by congruence.
Qed.

Lemma batch_elem page ev :
  ev ∈ batch page ↔ ∃ r, r ∈ records page ∧ deep_enough page r ∧ decodeEvent r = Some ev.
Proof.
  rewrite batch_contributed, list_elem_of_omap.
  split; intros (r & ? & Hc); exists r; (split; [done|]); by apply contributed_Some.
Qed.

(** The first event of a transaction in the batch comes from the first record
    of the page that contributes one. *)
Lemma batch_first page ev (R : string → Prop) :
  (∃ before after, batch page = before ++ ev :: after ∧ R (transaction_hash ev) ∧
     transaction_hash ev ∉ (transaction_hash <$> before)) ↔
  (∃ before r after, records page = before ++ r :: after ∧ deep_enough page r ∧
     decodeEvent r = Some ev ∧ R (transaction_hash ev) ∧
     ∀ r' ev', r' ∈ before → deep_enough page r' → decodeEvent r' = Some ev' →
       transaction_hash ev' ≠ transaction_hash ev).
Proof.
  rewrite batch_contributed. split.
  - intros (bf & af & Hb & HQ & Hn). apply omap_app_inv in Hb as (l1 & r & l2 & -> & Hr & Hbf & _). subst bf.
    apply contributed_Some in Hr as [Hd Hr]. exists l1, r, l2. split_and!; [done..|].
    intros r' ev' Hin Hd' Hr' Heq. apply Hn. rewrite <- Heq.
    apply list_elem_of_fmap_2, list_elem_of_omap. exists r'. split; [done|]. by apply contributed_Some.
  - intros (l1 & r & l2 & -> & Hd & Hr & HQ & Hn).
    exists (omap (contributed page) l1), (omap (contributed page) l2). split_and!; [|done|].
    + rewrite omap_app. simpl. by rewrite (proj2 (contributed_Some page r ev)).
    + intros (ev' & Heq & (r' & Hin & [Hd' Hr']%contributed_Some)%list_elem_of_omap)%list_elem_of_fmap.
      by apply (Hn r' ev').
Qed.

Lemma fetched_next net s page :
  fetched net s = Ok page → nextCursor page = last (records page) ≫= rec_paging_token.
Proof.
  unfold fetched, fetchEventsPage. destruct (fetchLatestLedger _ _) as [sq cl].
  destruct (fetch_events net _) as [e|st b]; [done|]. destruct (negb _); [done|].
  destruct b; [|done]. by intros [= <-].
Qed.

Lemma reschedule_fields ix :
  errorCount (reschedule ix) = errorCount ix ∧ backoffMs (reschedule ix) = backoffMs ix.
Proof. unfold reschedule. by destruct (running ix). Qed.

(** ** Properties of a cycle *)

(** C5. A successful cycle stores what the page makes final: it appends to
    the stored rows exactly one row for each transaction that was not stored
    before, the row of the first record of the page with that transaction that
    is deep enough and decodes; later events of the same transaction are
    dropped, and no other record leaves a row.  So afterwards the transaction
    of every deep enough record that decodes is stored.  The cursor moves to
    the paging token of the last record, errors and backoff are reset. *)
Theorem tick_stores_finalised net s ix page n s1 c :
  es_ready s → fetched net s = Ok page → es_upsert (batch page) s = (Ok n, s1) →
  nextCursor page = Some c → truthy c = true →
  ∃ s' ix' stored, tick net (s, ix) = (Ok tt, (s', ix')) ∧ es_ready s' ∧
    es_rows s' = es_rows s ++ stored ∧ NoDup (er_transaction_hash <$> stored) ∧
    (∀ row, row ∈ stored ↔ ∃ ev, row_of ev = Some row ∧
       ∃ before r after, records page = before ++ r :: after ∧ deep_enough page r ∧
         decodeEvent r = Some ev ∧ ¬ es_stored s (transaction_hash ev) ∧
         ∀ r' ev', r' ∈ before → deep_enough page r' → decodeEvent r' = Some ev' →
           transaction_hash ev' ≠ transaction_hash ev) ∧
    (∀ r ev, r ∈ records page → deep_enough page r → decodeEvent r = Some ev →
       es_stored s' (transaction_hash ev)) ∧
    es_cursor s' = c ∧ last (records page) ≫= rec_paging_token = Some c ∧
    errorCount ix' = 0 ∧ backoffMs ix' = Some 0%Q ∧ ix_cursor ix' = c.
Proof.
  intros Hrd Hf Hu Hn Hc. destruct (tick_success net s ix page n s1 Hrd Hf Hu)
    as (s' & Ht & Hrd' & Hst & Hcur). rewrite Hn, Hc in Hcur.
  destruct (es_upsert_ok _ _ _ _ Hu) as (_ & _ & Hall & Hrows). rewrite <- Hst in Hrows.
  exists s', (succeeded page (start_cursor s) ix), (new_rows (er_transaction_hash <$> es_rows s) (batch page)).
  split_and!; try done.
  - apply new_rows_fresh.
  - intros row. rewrite new_rows_iff by done. split.
    + intros (bf & ev & af & Hb & Hr & Hs & Hd). exists ev. split; [done|].
      apply (batch_first page ev (λ h, ¬ es_stored s h)). by exists bf, af.
    + intros (ev & Hr & Hx). apply (batch_first page ev (λ h, ¬ es_stored s h)) in Hx as (bf & af & Hx).
      destruct Hx as (Hb & Hs & Hd). by exists bf, ev, af.
  - intros r ev Hin Hd Hr. apply (stored_after s s' (batch page)); [done..|].
    right. apply list_elem_of_fmap_2, batch_elem. by exists r.
  - by rewrite <- (fetched_next _ _ _ Hf).
  - unfold succeeded. by rewrite (proj1 (reschedule_fields _)).
  - unfold succeeded. by rewrite (proj2 (reschedule_fields _)).
  - unfold succeeded. rewrite Hn, Hc. unfold reschedule. by case_match.
Qed.

(** C40. A failed cycle is harmless: whether the page could not be fetched or
    the batch could not be stored, the store is exactly as before, the error
    is counted, and, while the indexer runs, the next cycle is scheduled
    after the backoff delay of that many errors. *)
Theorem tick_failure_safe net s ix e :
  (fetched net s = Err e ∨
   ∃ page s', fetched net s = Ok page ∧ es_upsert (batch page) s = (Err e, s')) →
  ∃ ix', tick net (s, ix) = (Ok tt, (s, ix')) ∧ errorCount ix' = errorCount ix + 1 ∧
    let delay := computeBackoff (errorCount ix + 1) (http_status e) (maxBackoffMs cfg) (random net) in
    backoffMs ix' = delay ∧
    (running ix = true →
     timer ix' = Some (if positive delay then delay else inject_Z <$> pollIntervalMs cfg)).
Proof.
  assert (Hfail : ∀ c tip, let ix' := failed net e c tip ix in
    errorCount ix' = errorCount ix + 1 ∧
    let delay := computeBackoff (errorCount ix + 1) (http_status e) (maxBackoffMs cfg) (random net) in
    backoffMs ix' = delay ∧ (running ix = true →
     timer ix' = Some (if positive delay then delay else inject_Z <$> pollIntervalMs cfg))).
  { intros c tip. unfold failed, reschedule. simpl. by destruct (running ix). }
  intros [Hf|(page & s' & Hf & Hu)].
  - eexists. split; [by apply tick_fetch_err|]. apply Hfail.
  - eexists. split; [by eapply tick_upsert_err|]. apply Hfail.
Qed.

(** Events above the finality depth are skipped, not deferred: a record of
    the page that decodes but is not deep enough yet is left out of the
    batch (and so is every record of its transaction), and the cursor still
    moves to the end of the page.  After the cycle the event is not stored,
    and the next cycle asks Horizon for what follows that cursor. *)
Theorem tick_skips_unfinalised net s ix page n s1 c r ev :
  es_ready s → fetched net s = Ok page → es_upsert (batch page) s = (Ok n, s1) →
  nextCursor page = Some c → truthy c = true →
  r ∈ records page → decodeEvent r = Some ev →
  (∀ r' ev', r' ∈ records page → decodeEvent r' = Some ev' →
     transaction_hash ev' = transaction_hash ev →
     finalised (finalityDepth cfg) (latestLedger page) r' = false) →
  ¬ es_stored s (transaction_hash ev) →
  ∃ s' ix', tick net (s, ix) = (Ok tt, (s', ix')) ∧
    start_cursor s' = c ∧ ¬ es_stored s' (transaction_hash ev).
Proof.
  intros Hrd Hf Hu Hn Hc _ _ Hfin Hns. destruct (tick_success net s ix page n s1 Hrd Hf Hu)
    as (s' & Ht & _ & Hst & Hcur). rewrite Hn, Hc in Hcur.
  destruct (es_upsert_ok _ _ _ _ Hu) as (_ & _ & Hall & Hrows). rewrite <- Hst in Hrows.
  exists s', (succeeded page (start_cursor s) ix). split_and!; [done| |].
  - unfold start_cursor. rewrite Hcur. unfold truthy in Hc. apply bool_decide_eq_true in Hc.
    by rewrite bool_decide_eq_false_2.
  - rewrite (stored_after s s' (batch page)) by done. intros [?|Hb]; [done|].
    apply list_elem_of_fmap in Hb as (ev' & Heq & (r' & Hr' & Hd & He)%batch_elem).
    apply finalised_deep in Hd. rewrite (Hfin r' ev') in Hd; done.
Qed.
End indexer.

(** Cycles of an indexer over the database, each at its own time. *)
Definition db_ticks (cfg : IndexerConfig) (runs : list (Z * network)) : M (db * indexer) exn unit :=
  for_each runs (λ '(now, net), tick (S := db) (H := db_event_store now) cfg net).

Definition db_fetched (cfg : IndexerConfig) (net : network) (d : db) : result exn FetchPageResult :=
  fetched (S := db) (H := db_event_store 0) cfg net d.

Lemma tick_drained_stuck cfg now net d ix page :
  db_fetched cfg net d = Ok page → StreamDrained ∈ (event_type <$> batch cfg page) →
  ∃ ix', tick (S := db) (H := db_event_store now) cfg net (d, ix) = (Ok tt, (d, ix')) ∧
    errorCount ix' = errorCount ix + 1.
Proof.
  intros Hf Hin.
  assert (∃ e, upsertStreamEvents now (batch cfg page) d = (Err e, d)) as [e He].
  { apply upsertStreamEvents_blocked. intros n d' H%upsertStreamEvents_ok.
    pose proof (lo_not_drained _ _ _ _ _ H) as Hnd. rewrite Forall_forall in Hnd.
    apply list_elem_of_fmap in Hin as (ev & Het & Hev). by apply (Hnd ev). }
  eexists. split; [by eapply (tick_upsert_err (H := db_event_store now))|].
  unfold failed. by rewrite (proj1 (reschedule_fields _ _)).
Qed.

(** A finalised StreamDrained event stops the indexer for good: as long as
    the page at the saved cursor holds one, no number of cycles stores an event
    or moves the cursor; the error count just grows by one per cycle. *)
Theorem drained_event_stops_indexer cfg runs d ix :
  Forall (λ run, ∃ page, db_fetched cfg run.2 d = Ok page ∧
            StreamDrained ∈ (event_type <$> batch cfg page)) runs →
  ∃ ix', db_ticks cfg runs (d, ix) = (Ok tt, (d, ix')) ∧
    errorCount ix' = errorCount ix + Z.of_nat (length runs).
Proof.
  intros Hall. revert ix. induction Hall as [|[now net] runs (page & Hf & Hin) _ IH]; intros ix.
  { exists ix. split; [done|]. simpl. lia. }
  destruct (tick_drained_stuck cfg now net d ix page Hf Hin) as (ix1 & Ht & He1).
  destruct (IH ix1) as (ix2 & Hts & He2). exists ix2.
  unfold db_ticks. cbn [for_each]. rewrite (bind_ok _ _ _ _ _ Ht). split; [exact Hts|].
  simpl length. lia.
Qed.

(** ** Witnesses *)

Definition sample_cfg : IndexerConfig := defaultConfig (λ _, None).

Definition page_of (evs : list (Z * string * contract_event)) : list HorizonEventRecord :=
  (λ '(l, h, ev), wire_record [0; 0; 0; 15] [] ("id-" +:+ h) ("cur-" +:+ h) h l ev) <$> evs.
Definition sample_net (tip : Z) (evs : list (Z * string * contract_event)) : network :=
  Network (λ _, Response 200 (Some (Some (page_of evs))))
    (λ _, Response 200 (Some (Some [LedgerRecord (Some tip) None]))) (1 # 2).
Definition down_net : network := Network (λ _, Response 503 None) (λ _, FetchRejects (OtherError "down")) 0.

Definition claims_page : list (Z * string * contract_event) :=
  [(100, "h1", EvClaimed "GALICE" 30 ""); (109, "h2", EvClaimed "GALICE" 12 "")].
Definition started : indexer := start new_indexer.

#[local] Existing Instance db_event_store | 0.

(** The page, its batch and the store afterwards, computed. *)
Definition sample_page : FetchPageResult := FetchPage (page_of claims_page) (Some "cur-h2") 110 None.
Definition after_batch : db := snd (upsertStreamEvents 5 (batch sample_cfg sample_page) (sample_db active)).

Lemma sample_fetch :
  fetched (S := db) (H := db_event_store 5) sample_cfg (sample_net 110 claims_page) (sample_db active)
  = Ok sample_page.
Proof. vm_compute. reflexivity. Qed.
Lemma sample_upsert :
  es_upsert (EventStore := db_event_store 5) (batch sample_cfg sample_page) (sample_db active)
  = (Ok 1, after_batch).
Proof. vm_compute. reflexivity. Qed.
Lemma sample_ready : es_ready (EventStore := db_event_store 5) (sample_db active).
Proof. by exists "7". Qed.

Lemma sample_not_stored : "h2" ∉ hashes (sample_db active).
Proof. apply (bool_decide_unpack _). vm_compute. exact I. Qed.
(** The record of [h2] is one ledger below the tip, less than the depth of 3. *)
Definition h2_record : HorizonEventRecord :=
  wire_record [0; 0; 0; 15] [] "id-h2" "cur-h2" "h2" 109 (EvClaimed "GALICE" 12 "").
Definition h1_record : HorizonEventRecord :=
  wire_record [0; 0; 0; 15] [] "id-h1" "cur-h1" "h1" 100 (EvClaimed "GALICE" 30 "").
Lemma h2_in_page : h2_record ∈ records sample_page.
Proof. apply list_elem_of_further, list_elem_of_here. Qed.
Lemma h2_unfinalised r ev :
  r ∈ records sample_page → decodeEvent r = Some ev → transaction_hash ev = "h2" →
  finalised (finalityDepth sample_cfg) (latestLedger sample_page) r = false.
Proof.
  intros [->|[->|[]%not_elem_of_nil]%elem_of_cons]%elem_of_cons; vm_compute; intros Hd; [|done].
  injection Hd as <-. vm_compute. discriminate.
Qed.

Lemma tick_stores_finalised_witness :
  ∃ s' ix', tick (S := db) (H := db_event_store 5) sample_cfg (sample_net 110 claims_page)
              (sample_db active, started) = (Ok tt, (s', ix')) ∧
    es_cursor (EventStore := db_event_store 5) s' = "cur-h2" ∧
    es_stored (H := db_event_store 5) s' "h1".
Proof.
  destruct (tick_stores_finalised (H := db_event_store 5) sample_cfg (sample_net 110 claims_page)
    (sample_db active) started sample_page 1 after_batch "cur-h2" sample_ready sample_fetch
    sample_upsert eq_refl eq_refl) as (s' & ix' & new & Ht & _ & Hr & _ & _ & Hd & Hc & _).
  exists s', ix'. split_and!; [exact Ht|exact Hc|]. apply (Hd h1_record (expected 100 "h1" (EvClaimed "GALICE" 30 ""))).
  - apply list_elem_of_here.
  - exists 3, 100. split_and!; [reflexivity..|]. vm_compute. discriminate.
  - vm_compute. reflexivity.
Defined.

Lemma tick_failure_safe_witness :
  ∃ ix', tick (S := db) (H := db_event_store 5) sample_cfg down_net (sample_db active, started)
         = (Ok tt, (sample_db active, ix')) ∧ errorCount ix' = 1.
Proof.
  destruct (tick_failure_safe (H := db_event_store 5) sample_cfg down_net (sample_db active) started
              (HorizonHttpError 503)) as (ix' & Ht & He & _).
  - left. vm_compute. reflexivity.
  - exists ix'. split; [exact Ht|exact He].
Defined.

Lemma tick_skips_unfinalised_witness :
  ∃ s' ix', tick (S := db) (H := db_event_store 5) sample_cfg (sample_net 110 claims_page)
              (sample_db active, started) = (Ok tt, (s', ix')) ∧
    start_cursor (H := db_event_store 5) sample_cfg s' = "cur-h2" ∧
    ¬ es_stored (H := db_event_store 5) s' "h2".
Proof.
  refine (tick_skips_unfinalised (H := db_event_store 5) sample_cfg (sample_net 110 claims_page)
    (sample_db active) started sample_page 1 after_batch "cur-h2" h2_record
    (expected 109 "h2" (EvClaimed "GALICE" 12 "")) sample_ready sample_fetch sample_upsert
    eq_refl eq_refl h2_in_page eq_refl h2_unfinalised sample_not_stored).
Defined.

Definition drained_runs : list (Z * network) :=
  [(5, sample_net 110 [(100, "h1", EvDrained "GALICE" "GC" "GS" "CT" 9)]);
   (11, sample_net 111 [(100, "h1", EvDrained "GALICE" "GC" "GS" "CT" 9)])].

Lemma drained_event_stops_indexer_witness :
  ∃ ix', db_ticks sample_cfg drained_runs (sample_db expired, started)
         = (Ok tt, (sample_db expired, ix')) ∧ errorCount ix' = 2.
Proof.
  destruct (drained_event_stops_indexer sample_cfg drained_runs (sample_db expired) started)
    as (ix' & Ht & He).
  - unfold drained_runs. repeat constructor; simpl;
      (eexists; split; [vm_compute; reflexivity|vm_compute; left]).
  - exists ix'. split; [exact Ht|]. rewrite He. vm_compute. reflexivity.
Defined.
