(* ===== verification/RpcPool.v ===== *)
(** * The Soroban RPC connection pool

    [backend/src/rpcPool.ts]: round-robin selection with quarantine, success
    and failure reports, the background health checks as the two steps around
    their [await], and the invariant of the node states under any interleaving.
    The timer handle is left out; [Date.now()] is an argument. *)
From S2P Require Import Prelude StreamStatus.

Definition UNHEALTHY_WINDOW_MS : Z := 60000.
Definition FAILURE_THRESHOLD : Z := 3.

Record NodeState := Node {
  url : string;
  healthy : bool;
  unhealthyUntil : Z;
  consecutiveFailures : Z;
  lastChecked : Z }.

(** [gauge] is the Prometheus gauge [rpc_node_health], per URL. *)
Record RpcPool := Pool {
  nodes : list NodeState;
  rrIndex : nat;
  gauge : gmap string Z }.

Record RpcNodeStatus := NodeStatus {
  ns_url : string;
  ns_healthy : bool;
  ns_consecutiveFailures : Z;
  ns_unhealthyUntil : option Z }.

Definition new_pool (urls : list string) : RpcPool :=
  Pool ((λ u, Node u true 0 0 0) <$> urls) 0 (foldl (λ g u, <[u := 1]> g) ∅ urls).

(** Assigning fields of the [i]th node object and setting its gauge. *)
Definition set_node (i : nat) (n : NodeState) (p : RpcPool) : RpcPool :=
  Pool (<[i := n]> (nodes p)) (rrIndex p) (gauge p).
Definition set_gauge (u : string) (v : Z) (p : RpcPool) : RpcPool :=
  Pool (nodes p) (rrIndex p) (<[u := v]> (gauge p)).
Definition set_rrIndex (i : nat) (p : RpcPool) : RpcPool := Pool (nodes p) i (gauge p).

(** ** Selection *)

Definition expired_window (now : Z) (n : NodeState) : bool :=
  negb (healthy n) && (unhealthyUntil n <=? now).
Definition readmit (i : nat) (n : NodeState) (p : RpcPool) : RpcPool :=
  set_gauge (url n) 1 (set_node i (Node (url n) true (unhealthyUntil n) 0 (lastChecked n)) p).

(** One rotation at most. *)
Fixpoint pick_loop (fuel : nat) (now : Z) (p : RpcPool) : option string * RpcPool :=
  match fuel with
  | 0%nat => (None, p)
  | S fuel =>
      let total := length (nodes p) in
      let i := (rrIndex p mod total)%nat in
      match nodes p !! i with
      | None => (None, p)
      | Some node =>
          let p1 := set_rrIndex ((rrIndex p + 1) mod total)%nat p in
          if expired_window now node then (Some (url node), readmit i node p1)
          else if healthy node then (Some (url node), p1)
          else pick_loop fuel now p1
      end
  end.

Definition pick (now : Z) (p : RpcPool) : option string * RpcPool :=
  if decide (length (nodes p) = 0%nat) then (None, p) else pick_loop (length (nodes p)) now p.

(** ** Reports *)

Definition findNode (u : string) (p : RpcPool) : option (nat * NodeState) :=
  list_find (λ n, url n = u) (nodes p).

(** A success: the counter is reset and the node is back in rotation. *)
Definition mark_healthy (i : nat) (n : NodeState) (p : RpcPool) : RpcPool :=
  set_gauge (url n) 1 (set_node i (Node (url n) true 0 0 (lastChecked n)) p).

(** A failure at time [now]: quarantine from the third in a row. *)
Definition count_failure (now : Z) (i : nat) (n : NodeState) (p : RpcPool) : RpcPool :=
  let c := consecutiveFailures n + 1 in
  if (FAILURE_THRESHOLD <=? c) && healthy n then
    set_gauge (url n) 0
      (set_node i (Node (url n) false (now + UNHEALTHY_WINDOW_MS) c (lastChecked n)) p)
  else set_node i (Node (url n) (healthy n) (unhealthyUntil n) c (lastChecked n)) p.

Definition reportSuccess (u : string) (p : RpcPool) : RpcPool :=
  match findNode u p with Some (i, n) => mark_healthy i n p | None => p end.
Definition reportFailure (now : Z) (u : string) (p : RpcPool) : RpcPool :=
  match findNode u p with Some (i, n) => count_failure now i n p | None => p end.

(** ** Observers *)

Definition available (now : Z) (n : NodeState) : bool := healthy n || (unhealthyUntil n <=? now).
Definition status (now : Z) (p : RpcPool) : list RpcNodeStatus :=
  (λ n, NodeStatus (url n) (available now n) (consecutiveFailures n)
          (if 0 <? unhealthyUntil n then Some (unhealthyUntil n) else None)) <$> nodes p.
Definition healthyCount (now : Z) (p : RpcPool) : Z :=
  Z.of_nat (length (filter (λ n, available now n = true) (nodes p))).

(** ** Health checks

    [checkNode] up to its [fetch], and after it with the time read before it.
    Other operations may run in between. *)
Definition checkNode_start (now : Z) (i : nat) (p : RpcPool) : bool * RpcPool :=
  match nodes p !! i with
  | None => (false, p)
  | Some n =>
      (negb (negb (healthy n) && (now <? unhealthyUntil n)),
       set_node i (Node (url n) (healthy n) (unhealthyUntil n) (consecutiveFailures n) now) p)
  end.
Definition check_passes (a : rpc_answer) : bool :=
  match a with
  | RpcThrows => false
  | RpcAnswer ok error sequence => ok && negb error && bool_decide (sequence ≠ None)
  end.
Definition checkNode_finish (now : Z) (i : nat) (a : rpc_answer) (p : RpcPool) : RpcPool :=
  match nodes p !! i with
  | None => p
  | Some n => if check_passes a then mark_healthy i n p else count_failure now i n p
  end.

(** ** Configuration *)

Definition parseRpcUrls (urls url_ : option string) : list string :=
  let multi := comma_list (default "" urls) in
  if bool_decide (0 < length multi)%nat then multi
  else match trim <$> url_ with
       | Some single => if truthy single then [single] else []
       | None => []
       end.

(** ** Steps and invariant *)

(** An operation of the pool at time [now]. *)
Inductive pool_step (now : Z) : RpcPool → RpcPool → Prop :=
| step_pick p : pool_step now p (pick now p).2
| step_success u p : pool_step now p (reportSuccess u p)
| step_failure u p : pool_step now p (reportFailure now u p)
| step_check_start i p : pool_step now p (checkNode_start now i p).2
| step_check_finish began i a p :
    0 <= began <= now → pool_step now p (checkNode_finish began i a p).

(** Operations at non-decreasing times from [t0] to [t]. *)
Inductive pool_reach (t0 : Z) (p0 : RpcPool) : Z → RpcPool → Prop :=
| reach_start : pool_reach t0 p0 t0 p0
| reach_step t t' p p' :
    pool_reach t0 p0 t p → t <= t' → pool_step t' p p' → pool_reach t0 p0 t' p'.

Definition node_ok (now : Z) (n : NodeState) : Prop :=
  0 <= consecutiveFailures n ∧
  (healthy n = true ↔ consecutiveFailures n < FAILURE_THRESHOLD) ∧
  (healthy n = true → unhealthyUntil n <= now) ∧
  unhealthyUntil n <= now + UNHEALTHY_WINDOW_MS.

Definition pool_ok (now : Z) (p : RpcPool) : Prop :=
  NoDup (url <$> nodes p) ∧ (rrIndex p < length (nodes p))%nat ∧
  (∀ n, n ∈ nodes p → node_ok now n ∧ gauge p !! url n = Some (if healthy n then 1 else 0)).

(** ** Lemmas *)

Lemma rotate_cons {A} (l : list A) r x :
  l !! r = Some x →
  ∃ t, rotate r l = x :: t ∧ rotate ((r + 1) mod length l) l = t ++ [x].
Proof.
  intros Hr. pose proof (lookup_lt_Some _ _ _ Hr) as Hlt.
  exists (drop (S r) l ++ take r l). unfold rotate.
  rewrite (Nat.mod_small r) by done. rewrite (drop_S _ _ _ Hr). split; [done|].
  rewrite Nat.Div0.mod_mod. destruct (decide (r + 1 = length l)%nat) as [E|E].
  - rewrite E, Nat.Div0.mod_same. simpl. rewrite (drop_ge l (S r)) by lia. simpl.
    rewrite app_nil_r, <-(take_S_r _ _ _ Hr). by rewrite (take_ge l (S r)) by lia.
  - rewrite Nat.mod_small by lia. replace (r + 1)%nat with (S r) by lia.
    by rewrite (take_S_r _ _ _ Hr), app_assoc.
Qed.

Lemma find_app_not {A} (P : A → Prop) `{∀ x, Decision (P x)} l (x : A) :
  ¬ P x → list_find P (l ++ [x]) = list_find P l.
Proof.
  intros Hx. destruct (list_find P l) as [[i y]|] eqn:Hl.
  - by apply list_find_app_l.
  - rewrite list_find_app_r by done. simpl. by rewrite decide_False.
Qed.

(** The [i]th candidate of the rotation, as a node of the array. *)
Definition nth_from (p : RpcPool) (i : nat) : nat := ((rrIndex p + i) mod length (nodes p))%nat.

(** The pool after [pick] settled on the [i]th candidate [n]. *)
Definition picked (now : Z) (i : nat) (n : NodeState) (p : RpcPool) : RpcPool :=
  let p1 := set_rrIndex (nth_from p (S i)) p in
  if expired_window now n then readmit (nth_from p i) n p1 else p1.

Lemma available_split now n : available now n = expired_window now n || healthy n.
Proof. unfold available, expired_window. by destruct (healthy n), (_ <=? _). Qed.

Lemma nth_from_next p q i :
  (0 < length (nodes p))%nat → nodes q = nodes p → rrIndex q = nth_from p 1 →
  nth_from q i = nth_from p (S i).
Proof.
  intros Hp Hn Hr. unfold nth_from in *. rewrite Hn, Hr.
  rewrite Nat.Div0.add_mod_idemp_l. f_equal. lia.
Qed.

(** The loop looks for the first available node among the next [fuel]. *)
Lemma pick_loop_spec now fuel p :
  (rrIndex p < length (nodes p))%nat → (fuel ≤ length (nodes p))%nat →
  pick_loop fuel now p =
    match list_find (λ n, available now n = true) (take fuel (rotate (rrIndex p) (nodes p))) with
    | Some (i, n) => (Some (url n), picked now i n p)
    | None => (None, set_rrIndex (nth_from p fuel) p)
    end.
Proof.
  revert p. induction fuel as [|fuel IH]; intros p Hr Hf.
  { simpl. unfold nth_from. rewrite Nat.add_0_r, Nat.mod_small by done. by destruct p. }
  destruct (lookup_lt_is_Some_2 _ _ Hr) as [n Hn].
  destruct (rotate_cons _ _ _ Hn) as (t & Hrot & Hrot').
  rewrite Hrot. cbn [pick_loop take list_find].
  rewrite Nat.mod_small, Hn by done. rewrite available_split.
  assert (Ht : (length t + 1 = length (nodes p))%nat).
  { apply (f_equal length) in Hrot. rewrite length_rotate in Hrot. simpl in Hrot. lia. }
  destruct (expired_window now n) eqn:He; simpl.
  { unfold picked, nth_from. rewrite He, Nat.add_0_r. rewrite (Nat.mod_small (rrIndex p)) by done. done. }
  destruct (healthy n) eqn:Hh; simpl.
  { unfold picked, nth_from. by rewrite He. }
  set (q := set_rrIndex _ p).
  rewrite IH; [|subst q; apply Nat.mod_upper_bound; simpl; lia|subst q; simpl; lia].
  change (nodes q) with (nodes p). change (rrIndex q) with (((rrIndex p + 1) mod length (nodes p))%nat).
  rewrite Hrot', take_app_le by lia.
  assert (Hq : ∀ i, nth_from q i = nth_from p (S i)) by (intros; apply nth_from_next; [lia|done..]).
  destruct (list_find _ (take fuel t)) as [[i m]|]; simpl; [|by rewrite Hq].
  f_equal. unfold picked. rewrite !Hq. done.
Qed.

Lemma pick_run now p :
  (rrIndex p < length (nodes p))%nat →
  pick now p =
    match list_find (λ n, available now n = true) (rotate (rrIndex p) (nodes p)) with
    | Some (i, n) => (Some (url n), picked now i n p)
    | None => (None, p)
    end.
Proof.
  intros Hr. unfold pick. rewrite decide_False by lia. rewrite pick_loop_spec by done.
  rewrite take_ge by (by rewrite length_rotate). destruct (list_find _ _) as [[i n]|]; [done|].
  f_equal. unfold nth_from.
  replace (rrIndex p + length (nodes p))%nat with (rrIndex p + 1 * length (nodes p))%nat by lia.
  rewrite Nat.Div0.mod_add, Nat.mod_small by done. by destruct p.
Qed.

Lemma lookup_rotate {A} (l : list A) r i :
  (r < length l)%nat → (i < length l)%nat → rotate r l !! i = l !! ((r + i) mod length l)%nat.
Proof.
  intros Hr Hi. unfold rotate. rewrite (Nat.mod_small r) by done.
  destruct (decide (r + i < length l)%nat) as [Hlt|Hge].
  - rewrite lookup_app_l by (rewrite length_drop; lia). rewrite lookup_drop. by rewrite Nat.mod_small.
  - rewrite lookup_app_r by (rewrite length_drop; lia). rewrite length_drop.
    rewrite lookup_take_lt by lia. f_equal.
    rewrite <-(Nat.mod_small (i - (length l - r)) (length l)) by lia.
    replace (r + i)%nat with (i - (length l - r) + 1 * length l)%nat by lia.
    by rewrite Nat.Div0.mod_add.
Qed.

Lemma picked_candidate now p i n :
  (rrIndex p < length (nodes p))%nat →
  list_find (λ n, available now n = true) (rotate (rrIndex p) (nodes p)) = Some (i, n) →
  nodes p !! nth_from p i = Some n ∧ available now n = true.
Proof.
  intros Hr Hf. apply list_find_Some in Hf as (Hi & Ha & _). split; [|done].
  pose proof (lookup_lt_Some _ _ _ Hi) as Hlt. rewrite length_rotate in Hlt.
  by rewrite <-Hi, lookup_rotate.
Qed.

Lemma node_ok_later now now' n : now <= now' → node_ok now n → node_ok now' n.
Proof. unfold node_ok. intros ? (? & ? & ? & ?). split_and!; try done; intros; lia || (etrans; [by auto|lia]). Qed.

(** Replacing a node by one of the same URL, with the gauge kept in step. *)
Lemma pool_ok_update now now' p i n n' rr g :
  pool_ok now p → now <= now' → nodes p !! i = Some n → url n' = url n → node_ok now' n' →
  (rr < length (nodes p))%nat →
  g !! url n = Some (if healthy n' then 1 else 0) →
  (∀ u, u ≠ url n → g !! u = gauge p !! u) →
  pool_ok now' (Pool (<[i := n']> (nodes p)) rr g).
Proof.
  intros (Hnd & _ & Hn) Hle Hi Hu Hok Hrr Hg Hg'. unfold pool_ok. simpl.
  assert (url <$> <[i:=n']> (nodes p) = url <$> nodes p) as Hurl.
  { rewrite list_fmap_insert, Hu. apply list_insert_id. by rewrite list_lookup_fmap, Hi. }
  rewrite length_insert, Hurl. split_and!; [done|done|].
  intros m Hm. apply list_elem_of_lookup in Hm as [j Hj].
  destruct (decide (i = j)) as [<-|Hne].
  - rewrite list_lookup_insert_eq in Hj by (by eapply lookup_lt_Some). simplify_eq. by rewrite Hu.
  - rewrite list_lookup_insert_ne in Hj by done.
    destruct (Hn m) as [Hm Hgm]; [by eapply list_elem_of_lookup_2|].
    split; [by eapply node_ok_later|]. rewrite Hg'; [done|]. intros E.
    apply Hne. eapply (NoDup_lookup _ i j (url n) Hnd); rewrite list_lookup_fmap, ?Hi, ?Hj; simpl; congruence.
Qed.

Lemma pool_ok_later now now' p : now <= now' → pool_ok now p → pool_ok now' p.
Proof.
  intros Hle (? & ? & Hn). split_and!; [done|done|]. intros n Hin.
  destruct (Hn n Hin). split; [by eapply node_ok_later|done].
Qed.

Lemma pool_ok_rr now p rr :
  pool_ok now p → (rr < length (nodes p))%nat → pool_ok now (set_rrIndex rr p).
Proof. intros (? & ? & ?) ?. by split_and!. Qed.

(** A node of a sound pool, by index. *)
Lemma pool_ok_node now p i n :
  pool_ok now p → nodes p !! i = Some n →
  node_ok now n ∧ gauge p !! url n = Some (if healthy n then 1 else 0).
Proof. intros (_ & _ & Hn) Hi. by eapply Hn, list_elem_of_lookup_2. Qed.

Lemma mark_healthy_ok now p i n :
  0 <= now → pool_ok now p → nodes p !! i = Some n → pool_ok now (mark_healthy i n p).
Proof.
  intros H0 Hp Hi. pose proof Hp as (_ & Hrr & _).
  eapply (pool_ok_update now now p i n); try done; simpl.
  - unfold node_ok, UNHEALTHY_WINDOW_MS, FAILURE_THRESHOLD. simpl. split_and!; [lia|split; [lia|done]|lia|lia].
  - apply lookup_insert_eq.
  - intros. by apply lookup_insert_ne.
Qed.

Lemma readmit_ok now p i n rr :
  pool_ok now p → nodes p !! i = Some n → available now n = true → (rr < length (nodes p))%nat →
  pool_ok now (readmit i n (set_rrIndex rr p)).
Proof.
  intros Hp Hi Ha Hrr. destruct (pool_ok_node _ _ _ _ Hp Hi) as [(Hc & Hh & Hu & Hw) _].
  eapply (pool_ok_update now now p i n); try done; simpl.
  - unfold node_ok. simpl. split_and!; [lia|unfold FAILURE_THRESHOLD; split; [lia|done]| |done].
    intros _. unfold available in Ha. apply orb_true_iff in Ha as [Ha|Ha]; [auto|lia].
  - apply lookup_insert_eq.
  - intros. by apply lookup_insert_ne.
Qed.

Lemma count_failure_ok began now p i n :
  0 <= began <= now → pool_ok now p → nodes p !! i = Some n → pool_ok now (count_failure began i n p).
Proof.
  intros Hb Hp Hi. pose proof Hp as (_ & Hrr & _).
  destruct (pool_ok_node _ _ _ _ Hp Hi) as [(Hc & Hh & Hu & Hw) Hg].
  unfold count_failure. destruct ((FAILURE_THRESHOLD <=? _) && healthy n) eqn:Hq.
  - apply andb_true_iff in Hq as [Hq _].
    eapply (pool_ok_update now now p i n); try done; simpl.
    + unfold node_ok, FAILURE_THRESHOLD, UNHEALTHY_WINDOW_MS in *. simpl. split_and!; [lia|split; [done|lia]|done|lia].
    + apply lookup_insert_eq.
    + intros. by apply lookup_insert_ne.
  - eapply (pool_ok_update now now p i n); try done; simpl.
    unfold node_ok. simpl. split_and!; [lia| |done|done].
    apply andb_false_iff in Hq. unfold FAILURE_THRESHOLD in *. destruct (healthy n).
    + split; [|done]. intros _. destruct Hq as [Hq|Hq]; [lia|done].
    + split; [done|]. intros. assert (consecutiveFailures n < 3) by lia. by apply Hh.
Qed.

Lemma pool_step_ok now p p' : 0 <= now → pool_ok now p → pool_step now p p' → pool_ok now p'.
Proof.
  intros H0 Hp Hs. pose proof Hp as (_ & Hrr & _).
  assert (Hmod : ∀ i, (nth_from p i < length (nodes p))%nat).
  { intros i. apply Nat.mod_upper_bound. lia. }
  destruct Hs as [p|u p|u p|i p|began i a p Hb].
  - rewrite pick_run by done. destruct (list_find _ _) as [[i n]|] eqn:Hf; [|done]. simpl.
    apply picked_candidate in Hf as [Hi Ha]; [|done]. unfold picked.
    destruct (expired_window now n); [by apply readmit_ok|by apply pool_ok_rr].
  - unfold reportSuccess, findNode. destruct (list_find _ _) as [[i n]|] eqn:Hf; [|done].
    apply list_find_Some in Hf as (Hi & _). by apply mark_healthy_ok.
  - unfold reportFailure, findNode. destruct (list_find _ _) as [[i n]|] eqn:Hf; [|done].
    apply list_find_Some in Hf as (Hi & _). by apply count_failure_ok.
  - unfold checkNode_start. destruct (nodes p !! i) as [n|] eqn:Hi; [|done].
    destruct (pool_ok_node _ _ _ _ Hp Hi) as [Hn Hg].
    by eapply (pool_ok_update now now p i n).
  - unfold checkNode_finish. destruct (nodes p !! i) as [n|] eqn:Hi; [|done].
    destruct (check_passes a); [by apply mark_healthy_ok|by apply count_failure_ok].
Qed.

Lemma pool_reach_ok t0 p0 t p :
  0 <= t0 → pool_ok t0 p0 → pool_reach t0 p0 t p → 0 <= t ∧ pool_ok t p.
Proof.
  intros H0 Hp0 Hr. induction Hr as [|t t' p p' _ [IH0 IH] Hle Hs]; [done|].
  split; [lia|]. eapply pool_step_ok; [lia| |done]. by eapply pool_ok_later.
Qed.

Lemma new_pool_gauge (urls : list string) (g : gmap string Z) u :
  u ∈ urls ∨ g !! u = Some 1 → foldl (λ g u, <[u := 1]> g) g urls !! u = Some 1.
Proof.
  revert g. induction urls as [|v urls IH]; intros g H; simpl; [set_solver|]. apply IH.
  destruct (decide (u = v)) as [->|Hne]; [right; apply lookup_insert_eq|].
  rewrite lookup_insert_ne by done. set_solver.
Qed.

Lemma new_pool_ok urls : urls ≠ [] → NoDup urls → pool_ok 0 (new_pool urls).
Proof.
  intros Hne Hnd. unfold pool_ok. simpl. rewrite length_fmap.
  assert (url <$> ((λ u, Node u true 0 0 0) <$> urls) = urls) as ->.
  { rewrite <-list_fmap_compose. apply list_fmap_id. }
  split_and!; [done|destruct urls; simpl; [done|lia]|].
  intros n Hn. apply list_elem_of_fmap in Hn as (u & -> & Hu). split.
  - unfold node_ok, FAILURE_THRESHOLD, UNHEALTHY_WINDOW_MS. simpl. split_and!; [lia|split; [lia|done]|lia|lia].
  - simpl. apply new_pool_gauge. by left.
Qed.

(** [k] calls in a row. *)
Fixpoint picks (k : nat) (now : Z) (p : RpcPool) : list (option string) * RpcPool :=
  match k with
  | 0%nat => ([], p)
  | S k => let '(r, p1) := pick now p in let '(rs, p2) := picks k now p1 in (r :: rs, p2)
  end.

Lemma picks_healthy k now p :
  (rrIndex p < length (nodes p))%nat → (k ≤ length (nodes p))%nat →
  Forall (λ n, healthy n = true) (nodes p) →
  picks k now p = ((λ n, Some (url n)) <$> take k (rotate (rrIndex p) (nodes p)),
                   set_rrIndex (nth_from p k) p).
Proof.
  revert p. induction k as [|k IH]; intros p Hr Hk Hh.
  { simpl. unfold nth_from. rewrite Nat.add_0_r, Nat.mod_small by done. by destruct p. }
  destruct (lookup_lt_is_Some_2 _ _ Hr) as [n Hn].
  destruct (rotate_cons _ _ _ Hn) as (t & Hrot & Hrot').
  assert (Hhn : healthy n = true) by (rewrite Forall_lookup in Hh; eauto).
  assert (Ha : available now n = true) by (unfold available; by rewrite Hhn).
  assert (Ht : (length t + 1 = length (nodes p))%nat).
  { apply (f_equal length) in Hrot. rewrite length_rotate in Hrot. simpl in Hrot. lia. }
  cbn [picks]. rewrite pick_run, Hrot by done. simpl. rewrite decide_True by done.
  assert (Hp : picked now 0 n p = set_rrIndex (nth_from p 1) p).
  { unfold picked, expired_window. by rewrite Hhn. }
  rewrite Hp. rewrite IH; [|apply Nat.mod_upper_bound; simpl; lia|simpl; lia|done].
  cbn [rrIndex nodes set_rrIndex]. unfold nth_from at 1. rewrite Hrot', take_app_le by lia.
  f_equal. rewrite (nth_from_next p) by (done || lia). done.
Qed.

(** ** Properties *)

(** [pick] returns the first available node of the rotation that starts at
    the round-robin index (healthy, or past its quarantine, in which case it is
    re-admitted with a fresh counter), moves the index just past it and touches
    no other node; it returns null only when no node is available. *)
Theorem pick_spec now p :
  (rrIndex p < length (nodes p))%nat →
  pick now p =
    match list_find (λ n, available now n = true) (rotate (rrIndex p) (nodes p)) with
    | Some (i, n) => (Some (url n), picked now i n p)
    | None => (None, p)
    end.
Proof. apply pick_run. Qed.

(** Selection is fair: while every node is healthy, as many calls as there
    are nodes return every node exactly once, in rotation order, and leave the
    pool where it was. *)
Theorem round_robin_fair now p :
  (rrIndex p < length (nodes p))%nat → Forall (λ n, healthy n = true) (nodes p) →
  picks (length (nodes p)) now p = ((λ n, Some (url n)) <$> rotate (rrIndex p) (nodes p), p).
Proof.
  intros Hr Hh. rewrite picks_healthy by done. rewrite take_ge by (by rewrite length_rotate).
  f_equal. unfold nth_from.
  replace (rrIndex p + length (nodes p))%nat with (rrIndex p + 1 * length (nodes p))%nat by lia.
  rewrite Nat.Div0.mod_add, Nat.mod_small by done. by destruct p.
Qed.

(** Health states are sound under any interleaving of picks, reports and
    health checks, whose two halves may be arbitrarily far apart: a node is
    healthy exactly while it has fewer than three consecutive failures, the
    gauge agrees with its health, its quarantine ends at most 60 s from now,
    and [pick] never returns a node inside its quarantine. *)
Theorem pool_quarantine urls t p :
  urls ≠ [] → NoDup urls → pool_reach 0 (new_pool urls) t p →
  pool_ok t p ∧
  ∀ n now u p', n ∈ nodes p → FAILURE_THRESHOLD <= consecutiveFailures n →
    now < unhealthyUntil n → pick now p = (Some u, p') → u ≠ url n.
Proof.
  intros Hne Hnd Hreach.
  destruct (pool_reach_ok 0 (new_pool urls) t p) as [_ Hp]; [done|by apply new_pool_ok|done|].
  split; [done|]. intros n now u p' Hn Hc Hnow Hpick ->.
  destruct Hp as (Hnd' & Hrr & Hall). destruct (Hall n Hn) as [(_ & Hh & _) _].
  rewrite pick_run in Hpick by done. destruct (list_find _ _) as [[i m]|] eqn:Hf; [|done].
  apply picked_candidate in Hf as [Hi Ha]; [|done]. simplify_eq.
  apply list_elem_of_lookup in Hn as [j Hj].
  assert (nth_from p i = j) as <-.
  { eapply (NoDup_lookup _ _ _ (url m) Hnd'); rewrite list_lookup_fmap, ?Hi, ?Hj; simpl; congruence. }
  simplify_eq. unfold available in Ha. apply orb_true_iff in Ha as [Ha|Ha]; [|lia].
  apply Hh in Ha. lia.
Qed.

(** ** Witnesses *)

Definition sample_pool : RpcPool := new_pool ["a"; "b"; "c"].

Lemma pick_spec_witness : fst (pick 7 (set_rrIndex 2 sample_pool)) = Some "c".
Proof. rewrite (pick_spec 7 (set_rrIndex 2 sample_pool)); [reflexivity|simpl; lia]. Defined.

Lemma round_robin_fair_witness :
  picks 3 7 (set_rrIndex 2 sample_pool) = ([Some "c"; Some "a"; Some "b"], set_rrIndex 2 sample_pool).
Proof.
  apply (round_robin_fair 7 (set_rrIndex 2 sample_pool)); [simpl; lia|repeat constructor].
Defined.

(** Three failures of [b] at time 10. *)
Definition quarantined_pool : RpcPool :=
  reportFailure 10 "b" (reportFailure 10 "b" (reportFailure 10 "b" sample_pool)).

Lemma quarantined_reach : pool_reach 0 sample_pool 10 quarantined_pool.
Proof. do 3 (eapply reach_step; [|shelve|apply step_failure]). apply reach_start. Unshelve. all: lia. Qed.

Lemma pool_quarantine_witness :
  pool_ok 10 quarantined_pool ∧ fst (pick 11 (set_rrIndex 1 quarantined_pool)) = Some "c".
Proof.
  split; [|vm_compute; reflexivity].
  refine (proj1 (pool_quarantine ["a"; "b"; "c"] 10 quarantined_pool _ _ quarantined_reach)).
  - discriminate.
  - apply (bool_decide_unpack _). vm_compute. exact I.
Defined.
