(* ===== verification/CircuitBreaker.v ===== *)
(** * The Horizon circuit breaker

    [backend/src/horizonCircuitBreaker.ts]: the breaker object with its lazy
    half-open transition, a call split at its [await], the documented state
    machine as a specification, and the refinement of it by sequential calls. *)
From S2P Require Import Prelude.

Inductive CircuitState := closed | open | half_open.
#[global] Instance CircuitState_eq_dec : EqDecision CircuitState.
Proof. solve_decision. Defined.

(** Options from [parseInt] may be [NaN]. *)
Record CircuitBreaker := Breaker {
  state : CircuitState;
  consecutiveFailures : Z;
  openedAt : Z;
  threshold : number;
  halfOpenAfterMs : number }.

Definition new_breaker (threshold_ halfOpenAfterMs_ : option number) : CircuitBreaker :=
  Breaker closed 0 0 (default (Some 5) threshold_) (default (Some 30000) halfOpenAfterMs_).

Definition horizonCircuitBreaker (env : string → option string) : CircuitBreaker :=
  new_breaker (Some (parse_int (default "5" (env "HORIZON_CB_THRESHOLD"))))
              (Some (parse_int (default "30000" (env "HORIZON_CB_HALF_OPEN_MS")))).

Definition set_state (st : CircuitState) (b : CircuitBreaker) : CircuitBreaker :=
  Breaker st (consecutiveFailures b) (openedAt b) (threshold b) (halfOpenAfterMs b).

(** [getState] moves an open breaker to half-open when the wait is over. *)
Definition getState (now : Z) (b : CircuitBreaker) : CircuitState * CircuitBreaker :=
  if bool_decide (state b = open) && num_test (λ w, w <=? now - openedAt b) (halfOpenAfterMs b)
  then (half_open, set_state half_open b)
  else (state b, b).

Definition onSuccess (b : CircuitBreaker) : CircuitBreaker :=
  Breaker closed 0 0 (threshold b) (halfOpenAfterMs b).

Definition onFailure (now : Z) (b : CircuitBreaker) : CircuitBreaker :=
  let c := consecutiveFailures b + 1 in
  if bool_decide (state b = half_open) || num_test (λ t, t <=? c) (threshold b)
  then Breaker open 0 now (threshold b) (halfOpenAfterMs b)
  else Breaker (state b) c (openedAt b) (threshold b) (halfOpenAfterMs b).

Definition reset (b : CircuitBreaker) : CircuitBreaker :=
  Breaker closed 0 0 (threshold b) (halfOpenAfterMs b).
Definition forceOpen (now : Z) (b : CircuitBreaker) : CircuitBreaker :=
  Breaker open 0 now (threshold b) (halfOpenAfterMs b).

Record stats := Stats {
  stat_state : CircuitState;
  stat_consecutiveFailures : Z;
  stat_openedAt : Z;
  stat_threshold : number;
  stat_halfOpenAfterMs : number }.
Definition getStats (now : Z) (b : CircuitBreaker) : stats * CircuitBreaker :=
  let '(st, b') := getState now b in
  (Stats st (consecutiveFailures b') (openedAt b') (threshold b') (halfOpenAfterMs b'), b').

Inductive call_error (E : Type) := CircuitOpenError | CallFailed (e : E).
Arguments CircuitOpenError {E}.
Arguments CallFailed {E} e.

(** [execute] up to the [await fn()] ([false] when it throws at once), and from
    there on. *)
Definition execute_begin (now : Z) (b : CircuitBreaker) : bool * CircuitBreaker :=
  let '(st, b') := getState now b in (negb (bool_decide (st = open)), b').
Definition execute_end {T E} (now : Z) (outcome : result E T) (b : CircuitBreaker)
    : result (call_error E) T * CircuitBreaker :=
  match outcome with
  | Ok v => (Ok v, onSuccess b)
  | Err e => (Err (CallFailed e), onFailure now b)
  end.

(** One call with nothing in between: begun at [t1], settled at [t2]. *)
Definition execute {T E} (t1 t2 : Z) (outcome : result E T) (b : CircuitBreaker)
    : result (call_error E) T * CircuitBreaker :=
  let '(allowed, b1) := execute_begin t1 b in
  if allowed then execute_end t2 outcome b1 else (Err CircuitOpenError, b1).

(** ** The documented state machine *)

(** Closed with a count of consecutive failures, or tripped at a time. *)
Inductive breaker_spec := SClosed (failures : Z) | STripped (at_ : Z).

Definition spec_execute {T E} (thr wait t1 t2 : Z) (outcome : result E T) (s : breaker_spec)
    : result (call_error E) T * breaker_spec :=
  let settle failed := match outcome with
                       | Ok v => (Ok v, SClosed 0)
                       | Err e => (Err (CallFailed e), failed)
                       end in
  match s with
  | SClosed k => settle (if thr <=? k + 1 then STripped t2 else SClosed (k + 1))
  | STripped t => if t1 - t <? wait then (Err CircuitOpenError, s) else settle (STripped t2)
  end.

(** [half_open] stands for a tripped breaker whose wait was seen to be over. *)
Definition represents (now thr wait : Z) (b : CircuitBreaker) (s : breaker_spec) : Prop :=
  threshold b = Some thr ∧ halfOpenAfterMs b = Some wait ∧
  match s with
  | SClosed k => state b = closed ∧ consecutiveFailures b = k ∧ 0 <= k < thr
  | STripped t => consecutiveFailures b = 0 ∧ openedAt b = t ∧
      (state b = open ∨ state b = half_open ∧ wait <= now - t)
  end.

(** A sequence of calls that do not overlap. *)
Fixpoint executes {T E} (calls : list (Z * Z * result E T)) (b : CircuitBreaker)
    : list (result (call_error E) T) * CircuitBreaker :=
  match calls with
  | [] => ([], b)
  | (t1, t2, o) :: calls =>
      let '(r, b1) := execute t1 t2 o b in
      let '(rs, b2) := executes calls b1 in (r :: rs, b2)
  end.
Fixpoint spec_executes {T E} (thr wait : Z) (calls : list (Z * Z * result E T)) (s : breaker_spec)
    : list (result (call_error E) T) * breaker_spec :=
  match calls with
  | [] => ([], s)
  | (t1, t2, o) :: calls =>
      let '(r, s1) := spec_execute thr wait t1 t2 o s in
      let '(rs, s2) := spec_executes thr wait calls s1 in (r :: rs, s2)
  end.

(** The calls happen one after the other from [now] on. *)
Fixpoint in_order {A} (now : Z) (calls : list (Z * Z * A)) : Prop :=
  match calls with
  | [] => True
  | (t1, t2, _) :: calls => now <= t1 ∧ t1 <= t2 ∧ in_order t2 calls
  end.

(** ** Lemmas *)

Lemma represents_later now now' thr wait b s :
  now <= now' → represents now thr wait b s → represents now' thr wait b s.
Proof. intros Hle (Ht & Hw & Hs). split_and!; [done|done|]. destruct s; [done|]. intuition lia. Qed.

Lemma onSuccess_closed now thr wait b s :
  0 < thr → represents now thr wait b s → represents now thr wait (onSuccess b) (SClosed 0).
Proof. intros H0 (Ht & Hw & _). split_and!; try done. Qed.

Lemma execute_refines {T E} now thr wait t1 t2 (o : result E T) b s :
  0 < thr → now <= t1 → t1 <= t2 → represents now thr wait b s →
  let '(r, b') := execute t1 t2 o b in
  let '(r', s') := spec_execute thr wait t1 t2 o s in
  r = r' ∧ represents t2 thr wait b' s'.
Proof.
  intros H0 H1 H2 (Ht & Hw & Hs). unfold execute, execute_begin, getState. rewrite Hw.
  destruct b as [st c at_ thr' w']; simpl in *; subst thr' w'.
  destruct s as [k|t]; simpl.
  - destruct Hs as (-> & -> & Hk). simpl. destruct o as [v|e]; simpl.
    + by split.
    + unfold onFailure. simpl. destruct (Z.leb_spec thr (k + 1)); simpl; (split; [done|]);
        unfold represents; simpl; intuition lia.
  - destruct Hs as (-> & -> & Hst). destruct (Z.ltb_spec (t1 - t) wait) as [Hlt|Hge].
    + destruct Hst as [->|[_ Hw]]; [|lia]. simpl.
      destruct (Z.leb_spec wait (t1 - t)); [lia|]. simpl. split; [done|].
      unfold represents; simpl; intuition.
    + assert ((if bool_decide (st = open) && (wait <=? t1 - t) then
                 (half_open, set_state half_open (Breaker st 0 t (Some thr) (Some wait)))
               else (st, Breaker st 0 t (Some thr) (Some wait)))
              = (half_open, Breaker half_open 0 t (Some thr) (Some wait))) as ->.
      { rewrite (proj2 (Z.leb_le _ _) Hge). by destruct Hst as [->|[-> _]]. }
      simpl. destruct o as [v|e]; simpl; (split; [done|]); unfold represents; simpl; intuition lia.
Qed.

(** ** Properties *)

(** C34. Sequential calls implement the documented state machine: a run of
    calls through the breaker gives the same results as the specification, in
    which [threshold] consecutive failures trip the breaker, calls within
    [halfOpenAfterMs] of the trip are rejected without being made, and the
    first later call decides between closed and tripped again. *)
Theorem breaker_refines {T E} now thr wait (calls : list (Z * Z * result E T)) b s :
  0 < thr → represents now thr wait b s → in_order now calls →
  (executes calls b).1 = (spec_executes thr wait calls s).1.
Proof.
  intros H0. revert now b s. induction calls as [|[[t1 t2] o] calls IH]; intros now b s Hb Hord; [done|].
  destruct Hord as (H1 & H2 & Hord). cbn [executes spec_executes].
  pose proof (execute_refines now thr wait t1 t2 o b s H0 H1 H2 Hb) as Href.
  destruct (execute t1 t2 o b) as [r b1], (spec_execute thr wait t1 t2 o s) as [r' s1].
  destruct Href as [-> Hb1]. pose proof (IH t2 b1 s1 Hb1 Hord) as IH1.
  destruct (executes calls b1), (spec_executes thr wait calls s1). simpl in *. by rewrite IH1.
Qed.

(** A call that was let through before the breaker tripped closes it again
    when it succeeds, whatever the wait: with overlapping calls the breaker
    leaves OPEN without the half-open probe its state machine prescribes, and
    the next call goes through. *)
Theorem late_success_closes_open_breaker t1 t2 t3 thr wait b :
  0 < thr → represents t1 thr wait b (SClosed (thr - 1)) → t1 <= t2 → t2 <= t3 →
  let b1 := (execute_begin t1 b).2 in
  let b2 := (execute (T := unit) (E := unit) t1 t2 (Err tt) b1).2 in
  let b3 := (execute_end (E := unit) t3 (Ok tt) b2).2 in
  (execute_begin t1 b).1 = true ∧ state b2 = open ∧ openedAt b2 = t2 ∧
  (execute_begin t3 b3).1 = true.
Proof.
  intros H0 (Ht & Hw & Hs & Hc & _) H1 H2. destruct b as [st c at_ thr' w']. simpl in *. subst.
  unfold execute, execute_begin, getState. simpl. unfold onFailure. simpl.
  replace (thr - 1 + 1) with thr by lia. by rewrite Z.leb_refl.
Qed.

(** ** Witnesses *)

Definition two_strikes : CircuitBreaker := new_breaker (Some (Some 2)) (Some (Some 30)).
Definition failing_calls : list (Z * Z * result string Z) :=
  [(1, 2, Err "e"); (3, 4, Err "e"); (5, 6, Ok 1); (40, 41, Err "e"); (50, 51, Ok 1); (72, 73, Ok 7)].

Lemma breaker_refines_witness :
  (executes failing_calls two_strikes).1
  = [Err (CallFailed "e"); Err (CallFailed "e"); Err CircuitOpenError; Err (CallFailed "e");
     Err CircuitOpenError; Ok 7].
Proof.
  rewrite (breaker_refines 0 2 30 failing_calls two_strikes (SClosed 0)).
  - vm_compute. reflexivity.
  - lia.
  - unfold represents. simpl. repeat split; lia.
  - simpl. lia.
Defined.

Lemma late_success_closes_open_breaker_witness :
  state (execute (T := unit) (E := unit) 1 2 (Err tt)
           (Breaker closed 1 0 (Some 2) (Some 30))).2 = open.
Proof.
  refine (proj1 (proj2 (late_success_closes_open_breaker 1 2 3 2 30
                          (Breaker closed 1 0 (Some 2) (Some 30)) _ _ _ _))).
  - lia.
  - unfold represents. simpl. repeat split; lia.
  - lia.
  - lia.
Defined.
