(* ===== verification/RateLimit.v ===== *)
(** * Rate limiting

    [backend/src/middleware/tokenBucketRateLimit.ts]: the Lua token bucket and
    the middleware around it, and [backend/src/middleware/rateLimit.ts]: the
    Redis counter with a window.  Redis is a map with expiry times read on the
    caller's clock; the script's double arithmetic is exact rational arithmetic
    here.  [digest] (SHA-256), [Number] and [JSON.parse] are parameters. *)
From Stdlib Require Import QArith Qround Lqa.
From S2P Require Import Prelude Bytes.
#[local] Close Scope Q_scope.
#[local] Open Scope Z_scope.

(** ** The token bucket script *)

(** The hash fields of a key and the time [PEXPIRE] removes it. *)
Record bucket := Bucket { tokens : Q; updated_at : Z; expires_at : Z }.

(** [redis.call('HGET', ...)]: nothing once the key has expired. *)
Definition live (now : Z) (b : option bucket) : option bucket :=
  match b with
  | Some k => if expires_at k <=? now then None else Some k
  | None => None
  end.

Definition Qmin (a b : Q) : Q := if Qle_bool a b then a else b.

Record verdict := Verdict { allowed : bool; remaining : Z; retry_ms : Z }.

Definition refill (capacity window_ms now : Z) (b : option bucket) : Q :=
  let t := match b with Some k => tokens k | None => inject_Z capacity end in
  let last := match b with Some k => updated_at k | None => now end in
  (Qmin (inject_Z capacity)
     (t + inject_Z (Z.max 0 (now - last)) * (inject_Z capacity / inject_Z window_ms)))%Q.

Definition TOKEN_BUCKET_SCRIPT (capacity window_ms now : Z) (b : option bucket)
    : verdict * bucket :=
  let refill_rate := (inject_Z capacity / inject_Z window_ms)%Q in
  let t := refill capacity window_ms now (live now b) in
  if Qle_bool 1 t then
    let t' := (t - 1)%Q in
    (Verdict true (Qfloor t') 0, Bucket t' now (now + window_ms * 2))
  else
    (Verdict false (Qfloor t) (Qceiling ((1 - t) / refill_rate)),
     Bucket t now (now + window_ms * 2)).

(** ** The middleware *)

Inductive LimitType := ip | address | jwt_subject.
Definition LimitType_text (t : LimitType) : string :=
  match t with ip => "ip" | address => "address" | jwt_subject => "jwt_subject" end.

(** An address member of the user or the body is absent (or null), [Some None]
    when it is there but not a string, or a string. *)
Record Request := Request_ {
  method : string;
  path : string;
  api_key : option string;
  authorization : option string;
  req_ip : option string;
  remoteAddress : option string;
  user_address : option (option string);
  body_address : option (option string);
  body_recipient : option (option string);
  body_sponsor : option (option string) }.

Record Env := Env_ {
  RATE_LIMIT_WINDOW_SEC : option string;
  RATE_LIMIT_READ_MAX : option string;
  RATE_LIMIT_IP_MAX : option string;
  RATE_LIMIT_BUILD_TX_MAX : option string;
  RATE_LIMIT_WRITE_MAX : option string;
  RATE_LIMIT_ADMIN_MAX : option string;
  RATE_LIMIT_KEY_MAX : option string;
  RATE_LIMIT_BYPASS_IPS : option string;
  RATE_LIMIT_BYPASS_KEYS : option string }.

(** The rate-limit headers of a response: limit, remaining, reset. *)
Record Headers := Headers_ { h_limit : Z; h_remaining : Z; h_reset : Z }.
Inductive outcome :=
| Next (h : option Headers)
| TooManyRequests (h : Headers) (retry_after : Z).

Definition or_undefined {A} (a b : option A) : option A := match a with Some _ => a | None => b end.
(** [a || b] on possibly missing strings. *)
Definition or_empty (a : option string) (b : string) : string :=
  match a with Some s => if truthy s then s else b | None => b end.

Definition clientIp (req : Request) : string := or_empty (req_ip req) (or_empty (remoteAddress req) "unknown").
Definition requestAddress (req : Request) : option string :=
  mjoin (or_undefined (user_address req) (or_undefined (body_address req)
    (or_undefined (body_recipient req) (body_sponsor req)))).

Section token_bucket.
(** [Number(text)] when it is a safe integer. *)
Context (Number : string → option Z).
Context (digest : string → string).
(** [JSON.parse(text).sub] when the text parses and the member is a string. *)
Context (json_sub : string → option string).

Definition positiveLimit (value : option string) (fallback : Z) : Z :=
  match value ≫= Number with
  | Some n => if 0 <? n then n else fallback
  | None => fallback
  end.

Definition jwtSubject (req : Request) : option string :=
  match authorization req with
  | Some a =>
      if starts_with "Bearer " a then
        let token := of_chars (drop 7 (chars a)) in
        let payload := to_utf8 (from_base64 (default "" (split_on "." token !! 1%nat))) in
        match json_sub payload with
        | Some s => if 0 <? str_length s then Some s else None
        | None => None
        end
      else None
  | None => None
  end.

(** [/(?:^|\/)build-tx(?:\/|$)/]: a segment of the path. *)
Definition is_build_path (p : string) : bool := bool_decide ("build-tx" ∈ split_on "/" p).

(** The limit class of a request: type, identity, limit, endpoint. *)
Definition classify (env : Env) (req : Request) : LimitType * string * Z * string :=
  let publicLimit := positiveLimit (or_undefined (RATE_LIMIT_READ_MAX env) (RATE_LIMIT_IP_MAX env)) 60 in
  let buildLimit := positiveLimit (or_undefined (RATE_LIMIT_BUILD_TX_MAX env) (RATE_LIMIT_WRITE_MAX env)) 10 in
  let adminLimit := positiveLimit (RATE_LIMIT_ADMIN_MAX env) 5 in
  let client := clientIp req in
  let p := to_lower (path req) in
  let isAdmin := bool_decide (p = "/admin") || starts_with "/admin/" p in
  let isBuildTx := bool_decide (method req = "POST") && is_build_path p in
  if isAdmin then
    (jwt_subject,
     default ("token:" +:+ digest (default client (authorization req))) (jwtSubject req),
     adminLimit, "admin")
  else if isBuildTx then
    (address, default ("ip:" +:+ client) (requestAddress req), buildLimit, "build_tx")
  else (ip, client, publicLimit, "public_read").

Definition bucket_key (env : Env) (req : Request) : string :=
  let '(type, identity, _, endpoint) := classify env req in
  "rate-limit:" +:+ LimitType_text type +:+ ":" +:+ digest identity +:+ ":" +:+ endpoint.

Definition bypassed (env : Env) (req : Request) : bool :=
  match api_key req with
  | Some k => truthy k && bool_decide (k ∈ comma_list (default "" (RATE_LIMIT_BYPASS_KEYS env)))
  | None => false
  end.

(** [up] is whether [getRedis] gives a client, [eval_ok] whether the script
    runs. *)
Definition rateLimitMiddleware (env : Env) (up eval_ok : bool) (now : Z) (req : Request)
    (redis : gmap string bucket) : outcome * gmap string bucket :=
  if bypassed env req then (Next None, redis)
  else
    let windowSec := positiveLimit (RATE_LIMIT_WINDOW_SEC env) 60 in
    let '(_, _, limit, _) := classify env req in
    if negb up then (Next None, redis)
    else if negb eval_ok then (Next None, redis)
    else
      let key := bucket_key env req in
      let '(v, b) := TOKEN_BUCKET_SCRIPT limit (windowSec * 1000) now (redis !! key) in
      let retryAfter := Z.max 1 (Qceiling (inject_Z (retry_ms v) / 1000)) in
      let h := Headers_ limit (Z.max 0 (remaining v)) retryAfter in
      (if negb (allowed v) then TooManyRequests h retryAfter else Next (Some h),
       <[key := b]> redis).
End token_bucket.

(** ** The counter with a window *)

(** [count] and the time the key expires, if [EXPIRE] was set. *)
Record counter := Counter { count : Z; deadline : option Z }.

Definition live_counter (now : Z) (c : option counter) : counter :=
  match c with
  | Some k => match deadline k with
              | Some t => if t <=? now then Counter 0 None else k
              | None => k
              end
  | None => Counter 0 None
  end.

Record admission := Admission { adm_allowed : bool; adm_remaining : Z; resetAfter : Z }.

(** [INCR], [EXPIRE] on the first, [TTL] (-1 without one), in seconds. *)
Definition isAllowed (now max windowSec : Z) (c : option counter) : admission * counter :=
  let c0 := live_counter now c in
  let n := count c0 + 1 in
  let d := if n =? 1 then Some (now + windowSec) else deadline c0 in
  let ttl := match d with Some t => t - now | None => -1 end in
  (Admission (n <=? max) (Z.max 0 (max - n)) (if 0 <? ttl then ttl else windowSec), Counter n d).

Definition WRITE_PATH_PREFIXES : list string := ["/api/streams"; "/api/cancel"; "/api/claim"].
Definition isWriteEndpoint (p : string) : bool :=
  existsb (λ prefix, starts_with prefix (to_lower p)) WRITE_PATH_PREFIXES.

(** [req.headers["x-forwarded-for"]?.split(",")[0].trim() ?? remoteAddress ?? "unknown"] *)
Definition forwarded_ip (xff remote : option string) : string :=
  match xff with
  | Some h => trim (default "" (split_on "," h !! 0%nat))
  | None => default "unknown" remote
  end.

(** [raw.split(",").filter(Boolean)], without trimming. *)
Definition raw_list (raw : option string) : list string :=
  filter (λ x, truthy x = true) (split_on "," (default "" raw)).

Definition window_key (apiKey : option string) (client p : string) (windowSec : string) : string :=
  match apiKey with
  | Some k => "ratelimit:key:" +:+ k +:+ ":" +:+ windowSec
  | None => if isWriteEndpoint p then "ratelimit:ip:" +:+ client +:+ ":write:" +:+ windowSec
            else "ratelimit:ip:" +:+ client +:+ ":" +:+ windowSec
  end.

(** The middleware with numeric limits: its three checks differ in the key and
    the limit only. *)
Definition windowMiddleware (windowSec ipMax keyMax writeMax : Z) (bypassIps bypassKeys : list string)
    (up : bool) (now : Z) (apiKey xff remote : option string) (p : string)
    (redis : gmap string counter) : outcome * gmap string counter :=
  let client := forwarded_ip xff remote in
  let key_given := match apiKey with Some k => if truthy k then Some k else None | None => None end in
  if bool_decide (client ∈ bypassIps) ||
     match key_given with Some k => bool_decide (k ∈ bypassKeys) | None => false end
  then (Next None, redis)
  else if negb up then (Next None, redis)
  else
    let max := match key_given with
               | Some _ => keyMax
               | None => if isWriteEndpoint p then writeMax else ipMax
               end in
    let key := window_key key_given client p (Z_to_string windowSec) in
    let '(a, c) := isAllowed now max windowSec (redis !! key) in
    let h := Headers_ max (adm_remaining a) (resetAfter a) in
    (if negb (adm_allowed a) then TooManyRequests h (resetAfter a) else Next (Some h),
     <[key := c]> redis).

(** ** Runs *)

(** Calls of the script on one key, at the given times. *)
Fixpoint bucket_run (capacity window_ms : Z) (times : list Z) (b : option bucket)
    : list bool * option bucket :=
  match times with
  | [] => ([], b)
  | t :: times =>
      let '(v, k) := TOKEN_BUCKET_SCRIPT capacity window_ms t b in
      let '(vs, b') := bucket_run capacity window_ms times (Some k) in
      (allowed v :: vs, b')
  end.

Fixpoint window_run (max windowSec : Z) (times : list Z) (c : option counter)
    : list bool * option counter :=
  match times with
  | [] => ([], c)
  | t :: times =>
      let '(a, k) := isAllowed t max windowSec c in
      let '(vs, c') := window_run max windowSec times (Some k) in
      (adm_allowed a :: vs, c')
  end.

Definition passed (vs : list bool) : Z := Z.of_nat (length (filter (λ v, v = true) vs)).

(** Times that do not go back. *)
Fixpoint ascending (t : Z) (times : list Z) : Prop :=
  match times with [] => True | u :: times => t <= u ∧ ascending u times end.

Definition last_time (t : Z) (times : list Z) : Z := default t (last times).

(** A bucket the script wrote at some time. *)
Definition bucket_ok (capacity window_ms : Z) (k : bucket) : Prop :=
  (0 <= tokens k)%Q ∧ (tokens k <= inject_Z capacity)%Q ∧
  expires_at k = updated_at k + window_ms * 2.

(** ** Lemmas *)

Section bucket.
Context (capacity window_ms : Z).
Hypothesis Hcap : 1 <= capacity.
Hypothesis Hwin : 1 <= window_ms.

Definition rate : Q := (inject_Z capacity / inject_Z window_ms)%Q.

Lemma capacity_ge : (1 <= inject_Z capacity)%Q.
Proof. change 1%Q with (inject_Z 1). by rewrite <-Zle_Qle. Qed.
Lemma window_pos : (0 < inject_Z window_ms)%Q.
Proof. change 0%Q with (inject_Z 0). rewrite <-Zlt_Qlt. lia. Qed.
Lemma rate_window : (rate * inject_Z window_ms == inject_Z capacity)%Q.
Proof. unfold rate. pose proof window_pos. field. lra. Qed.
Lemma rate_pos : (0 < rate)%Q.
Proof.
  unfold rate. apply Qlt_shift_div_l; [apply window_pos|]. pose proof capacity_ge. lra.
Qed.

Lemma Qmin_l a b : (Qmin a b <= a)%Q.
Proof.
  unfold Qmin. destruct (Qle_bool a b) eqn:H; [apply Qle_refl|].
  apply Qlt_le_weak, Qnot_le_lt. intros Hle. apply Qle_bool_iff in Hle. congruence.
Qed.
Lemma Qmin_r a b : (Qmin a b <= b)%Q.
Proof. unfold Qmin. destruct (Qle_bool a b) eqn:H; [by apply Qle_bool_iff|apply Qle_refl]. Qed.
Lemma Qmin_glb a b c : (c <= a)%Q → (c <= b)%Q → (c <= Qmin a b)%Q.
Proof. unfold Qmin. by destruct (Qle_bool a b). Qed.

(** What the key is worth at [now], expired or not. *)
Lemma refill_live_le now k :
  bucket_ok capacity window_ms k → updated_at k <= now →
  (refill capacity window_ms now (live now (Some k))
     <= tokens k + inject_Z (now - updated_at k) * rate)%Q.
Proof.
  intros (H0 & H1 & He) Hle. simpl. destruct (Z.leb_spec (expires_at k) now) as [Hexp|Hlive].
  - unfold refill. eapply Qle_trans; [apply Qmin_l|].
    assert (inject_Z (window_ms * 2) <= inject_Z (now - updated_at k))%Q by (rewrite <-Zle_Qle; lia).
    pose proof rate_pos. pose proof rate_window. pose proof capacity_ge. rewrite inject_Z_mult in *.
    change (inject_Z 2) with 2%Q in *. nra.
  - unfold refill. eapply Qle_trans; [apply Qmin_r|]. rewrite Z.max_r by lia. apply Qle_refl.
Qed.

Lemma refill_live_ge now k c :
  bucket_ok capacity window_ms k → updated_at k <= now → (c <= inject_Z capacity)%Q →
  (c <= tokens k + inject_Z (now - updated_at k) * rate)%Q →
  (c <= refill capacity window_ms now (live now (Some k)))%Q.
Proof.
  intros (H0 & H1 & He) Hle Hc Hk. simpl. destruct (expires_at k <=? now).
  - unfold refill. apply Qmin_glb; [done|]. rewrite Z.max_l by lia.
    change (inject_Z 0) with 0%Q. lra.
  - unfold refill. apply Qmin_glb; [done|]. rewrite Z.max_r by lia. exact Hk.
Qed.

Lemma refill_bounds now b :
  match b with Some k => bucket_ok capacity window_ms k ∧ updated_at k <= now | None => True end →
  (0 <= refill capacity window_ms now (live now b))%Q ∧
  (refill capacity window_ms now (live now b) <= inject_Z capacity)%Q.
Proof.
  intros Hb. pose proof capacity_ge. split; [|apply Qmin_l].
  destruct b as [k|].
  - destruct Hb as [Hk Hle]. apply refill_live_ge; [done|done|lra|].
    destruct Hk as (H0 & _). pose proof rate_pos.
    assert (0 <= inject_Z (now - updated_at k))%Q. { change 0%Q with (inject_Z 0). rewrite <-Zle_Qle. lia. }
    nra.
  - simpl. unfold refill. apply Qmin_glb; [lra|]. rewrite Z.max_l by lia. change (inject_Z 0) with 0%Q. lra.
Qed.

(** One call. *)
Lemma script_step now b :
  match b with Some k => bucket_ok capacity window_ms k ∧ updated_at k <= now | None => True end →
  let '(v, k') := TOKEN_BUCKET_SCRIPT capacity window_ms now b in
  bucket_ok capacity window_ms k' ∧ updated_at k' = now ∧
  (tokens k' + (if allowed v then 1 else 0) == refill capacity window_ms now (live now b))%Q.
Proof.
  intros Hb. destruct (refill_bounds now b Hb) as [H0 H1]. pose proof capacity_ge.
  unfold TOKEN_BUCKET_SCRIPT. set (t := refill _ _ _ _) in *.
  destruct (Qle_bool 1 t) eqn:Ht; unfold bucket_ok; simpl.
  - apply Qle_bool_iff in Ht. split_and!; try done; lra.
  - split_and!; try done. lra.
Qed.

Lemma bucket_run_bound times t k :
  bucket_ok capacity window_ms k → ascending (updated_at k) times → updated_at k = t →
  (inject_Z (passed (bucket_run capacity window_ms times (Some k)).1)
     <= tokens k + inject_Z (last_time t times - t) * rate)%Q.
Proof.
  revert t k. induction times as [|u times IH]; intros t k Hk Hasc <-; simpl.
  { unfold last_time, passed. simpl. rewrite Z.sub_diag. destruct Hk as (H0 & _).
    change (inject_Z 0) with 0%Q. change (inject_Z (Z.of_nat 0)) with 0%Q. lra. }
  destruct Hasc as [Hle Hasc]. pose proof (script_step u (Some k) (conj Hk Hle)) as Hs.
  pose proof (refill_live_le u k Hk Hle) as Href.
  destruct (TOKEN_BUCKET_SCRIPT capacity window_ms u (Some k)) as [v k'] eqn:Hv.
  destruct Hs as (Hk' & Hu & Heq). rewrite <-Hu in Hasc.
  pose proof (IH u k' Hk' Hasc Hu) as IH1. destruct (bucket_run _ _ _ _) as [vs b'] eqn:Hrun.
  simpl in IH1. simpl.
  assert (Hlast : last_time (updated_at k) (u :: times) = last_time u times).
  { unfold last_time. rewrite last_cons. by destruct (last times). }
  rewrite Hlast. assert (Hp : (inject_Z (passed (allowed v :: vs)) ==
    (if allowed v then 1 else 0) + inject_Z (passed vs))%Q).
  { unfold passed. rewrite filter_cons. destruct (allowed v); simpl.
    - rewrite Nat2Z.inj_succ. unfold Z.succ. rewrite inject_Z_plus. change (inject_Z 1) with 1%Q. lra.
    - lra. }
  rewrite Hp.
  assert (Hsplit : (inject_Z (last_time u times - updated_at k) ==
    inject_Z (last_time u times - u) + inject_Z (u - updated_at k))%Q).
  { rewrite <-inject_Z_plus. apply inject_Z_injective. lia. }
  rewrite Hsplit. lra.
Qed.
End bucket.

(** The state of a key before a request at [t]: none, or a bucket the script
    wrote earlier. *)
Definition key_ok (capacity window_ms t : Z) (b : option bucket) : Prop :=
  match b with Some k => bucket_ok capacity window_ms k ∧ updated_at k <= t | None => True end.

Lemma bucket_run_from capacity window_ms t times b :
  1 <= capacity → 1 <= window_ms → key_ok capacity window_ms t b → ascending t times →
  (inject_Z (passed (bucket_run capacity window_ms (t :: times) b).1)
     <= inject_Z capacity + inject_Z (last_time t times - t) * rate capacity window_ms)%Q.
Proof.
  intros Hc Hw Hok Hasc. cbn [bucket_run].
  pose proof (script_step capacity window_ms Hc Hw t b Hok) as Hs.
  assert (refill capacity window_ms t (live t b) <= inject_Z capacity)%Q by apply Qmin_l.
  destruct (TOKEN_BUCKET_SCRIPT capacity window_ms t b) as [v k] eqn:Hv.
  destruct Hs as (Hk & Hu & Heq). rewrite <-Hu in Hasc.
  pose proof (bucket_run_bound capacity window_ms Hc Hw times t k Hk Hasc Hu) as Hb.
  destruct (bucket_run _ _ _ _) as [vs b']. simpl in *.
  assert (Hp : (inject_Z (passed (allowed v :: vs)) == (if allowed v then 1 else 0) + inject_Z (passed vs))%Q).
  { unfold passed. rewrite filter_cons. destruct (allowed v); simpl; [|lra].
    rewrite Nat2Z.inj_succ. unfold Z.succ. rewrite inject_Z_plus. change (inject_Z 1) with 1%Q. lra. }
  rewrite Hp. lra.
Qed.

Lemma bucket_run_app capacity window_ms ts us b :
  bucket_run capacity window_ms (ts ++ us) b =
    ((bucket_run capacity window_ms ts b).1 ++ (bucket_run capacity window_ms us (bucket_run capacity window_ms ts b).2).1,
     (bucket_run capacity window_ms us (bucket_run capacity window_ms ts b).2).2).
Proof.
  revert b. induction ts as [|t ts IH]; intros b; simpl; [by destruct (bucket_run _ _ us b)|].
  destruct (TOKEN_BUCKET_SCRIPT _ _ t b) as [v k]. rewrite IH. by destruct (bucket_run _ _ ts (Some k)).
Qed.
Lemma length_bucket_run capacity window_ms ts b : length (bucket_run capacity window_ms ts b).1 = length ts.
Proof.
  revert b. induction ts as [|t ts IH]; intros b; cbn [bucket_run]; [done|].
  destruct (TOKEN_BUCKET_SCRIPT _ _ t b) as [v k]. specialize (IH (Some k)).
  destruct (bucket_run _ _ ts (Some k)). simpl in *. by rewrite IH.
Qed.

Lemma ascending_app t us vs : ascending t (us ++ vs) → ascending t us.
Proof. revert t. induction us as [|u us IH]; intros t; [done|]. intros [? ?]. split; [done|by apply IH]. Qed.

(** Requests in order leave a bucket as the script writes them. *)
Lemma bucket_run_ok capacity window_ms t0 t pre us b :
  1 <= capacity → 1 <= window_ms → key_ok capacity window_ms t0 b → ascending t0 (pre ++ t :: us) →
  key_ok capacity window_ms t (bucket_run capacity window_ms pre b).2 ∧ ascending t us.
Proof.
  intros Hc Hw. revert t0 b. induction pre as [|u pre IH]; intros t0 b Hok; cbn [bucket_run app ascending].
  - intros [Hle Hasc]. split; [|done]. destruct b as [k|]; [|done]. destruct Hok. split; [done|lia].
  - intros [Hle Hasc]. assert (Hok' : key_ok capacity window_ms u b).
    { destruct b as [k|]; [|done]. destruct Hok. split; [done|lia]. }
    pose proof (script_step capacity window_ms Hc Hw u b Hok') as Hs.
    destruct (TOKEN_BUCKET_SCRIPT capacity window_ms u b) as [v k]. destruct Hs as (Hk & Hu & _).
    specialize (IH u (Some k)). destruct (bucket_run _ _ pre (Some k)). apply IH; [split; [done|lia]|done].
Qed.

Lemma positiveLimit_pos Number value fallback : 0 < fallback → 1 <= positiveLimit Number value fallback.
Proof. intros. unfold positiveLimit. destruct (value ≫= Number) as [n|]; [|lia]. destruct (Z.ltb_spec 0 n); lia. Qed.

Lemma classify_limit_pos Number digest json_sub env req :
  1 <= (classify Number digest json_sub env req).1.2.
Proof. unfold classify. by repeat case_match; apply positiveLimit_pos. Qed.

(** A denied call leaves a bucket that lets a call through after [retry_ms]. *)
Lemma script_retry capacity window_ms now now' b v k :
  1 <= capacity → 1 <= window_ms →
  match b with Some k => bucket_ok capacity window_ms k ∧ updated_at k <= now | None => True end →
  TOKEN_BUCKET_SCRIPT capacity window_ms now b = (v, k) → allowed v = false →
  now <= now' → now + retry_ms v <= now' →
  allowed (TOKEN_BUCKET_SCRIPT capacity window_ms now' (Some k)).1 = true.
Proof.
  intros Hc Hw Hb Hrun Hv Hle Hretry. pose proof (script_step capacity window_ms Hc Hw now b Hb) as Hs.
  rewrite Hrun in Hs. destruct Hs as (Hk & Hu & Heq).
  assert (H1 : (1 <= refill capacity window_ms now' (live now' (Some k)))%Q).
  { apply refill_live_ge; [done..|lia|by apply capacity_ge|]. rewrite Hu.
    unfold TOKEN_BUCKET_SCRIPT in Hrun. set (t := refill _ _ now _) in *.
    destruct (Qle_bool 1 t) eqn:Ht; injection Hrun as <- <-; [done|]. simpl in *.
    set (r := (inject_Z capacity / inject_Z window_ms)%Q) in *.
    pose proof (rate_pos capacity window_ms Hc Hw) as Hr. unfold rate in *. fold r in Hr |- *.
    pose proof (Qle_ceiling ((1 - t) / r)) as Hceil.
    assert ((1 - t <= inject_Z (Qceiling ((1 - t) / r)) * r)%Q).
    { apply (Qmult_le_r _ _ r Hr) in Hceil. rewrite Qmult_comm, Qmult_div_r in Hceil by lra. done. }
    assert (inject_Z (Qceiling ((1 - t) / r)) <= inject_Z (now' - now))%Q by (rewrite <-Zle_Qle; lia).
    nra. }
  unfold TOKEN_BUCKET_SCRIPT. by rewrite (proj2 (Qle_bool_iff _ _) H1).
Qed.

Lemma window_run_app max w ts us c :
  window_run max w (ts ++ us) c =
    let '(vs, c1) := window_run max w ts c in let '(ws, c2) := window_run max w us c1 in (vs ++ ws, c2).
Proof.
  revert c. induction ts as [|t ts IH]; intros c; cbn [window_run app]; [by destruct (window_run max w us c)|].
  destruct (isAllowed t max w c) as [a k]. rewrite IH.
  destruct (window_run max w ts (Some k)) as [vs c1]. by destruct (window_run max w us c1).
Qed.

Lemma seqZ_of_S m n : seqZ m (Z.of_nat (S n)) = m :: seqZ (m + 1) (Z.of_nat n).
Proof. rewrite seqZ_cons by lia. do 2 f_equal; lia. Qed.

Lemma window_run_live max w n d times :
  1 <= n → Forall (λ t, t < d) times →
  window_run max w times (Some (Counter n (Some d)))
  = ((λ i, i <=? max) <$> seqZ (n + 1) (Z.of_nat (length times)),
     Some (Counter (n + Z.of_nat (length times)) (Some d))).
Proof.
  intros Hn Ht. revert n Hn. induction Ht as [|t times Ht _ IH]; intros n Hn; simpl.
  { by rewrite Z.add_0_r. }
  unfold isAllowed, live_counter. simpl. destruct (Z.leb_spec d t); [lia|]. simpl.
  destruct (Z.eqb_spec (n + 1) 1); [lia|]. rewrite IH by lia.
  rewrite seqZ_of_S, fmap_cons. by replace (n + Z.of_nat (S (length times)))
    with (n + 1 + Z.of_nat (length times)) by lia.
Qed.

(** A key without a live counter starts a window at its first request. *)
Lemma window_run_start max w t times c :
  1 <= w → live_counter t c = Counter 0 None → Forall (λ u, u < t + w) times →
  window_run max w (t :: times) c
  = ((λ i, i <=? max) <$> seqZ 1 (Z.of_nat (length (t :: times))),
     Some (Counter (Z.of_nat (length (t :: times))) (Some (t + w)))).
Proof.
  intros Hw Hc Ht. cbn [window_run]. unfold isAllowed. rewrite Hc. simpl.
  change (0 + 1) with 1.
  rewrite (window_run_live max w 1 (t + w) times) by (done || lia).
  cbn [length]. rewrite seqZ_of_S, fmap_cons. by replace (Z.of_nat (S (length times)))
    with (1 + Z.of_nat (length times)) by lia.
Qed.

Lemma all_admitted max n : Z.of_nat n <= max →
  (λ i, i <=? max) <$> seqZ 1 (Z.of_nat n) = repeat true n.
Proof.
  intros Hn. apply list_eq_Forall2, Forall2_same_length_lookup_2.
  { rewrite length_fmap, length_seqZ, repeat_length. lia. }
  intros i x y Hx Hy. rewrite list_lookup_fmap in Hx.
  apply list_elem_of_lookup_2, list_elem_of_In, repeat_spec in Hy as ->.
  destruct (seqZ 1 (Z.of_nat n) !! i) as [z|] eqn:Hz; simplify_eq/=.
  apply lookup_seqZ in Hz as [-> Hi]. apply Z.leb_le. lia.
Qed.

(** ** Properties *)

(** C33. The token bucket bounds traffic over every interval: whatever requests
    of a key came before and after, of those from the one at [t] to the last
    of [mid], which arrive over [elapsed] milliseconds, at most
    [capacity * (window + elapsed) / window] pass, whether or not the key
    expires in Redis in between; in particular no more than [capacity] pass at
    one moment, however long the key was not used.  The times are those the
    servers pass to the script, and must not go back; the script's arithmetic
    is taken to be exact. *)
Theorem token_bucket_bound capacity window_ms t0 pre t mid post :
  1 <= capacity → 1 <= window_ms → ascending t0 (pre ++ (t :: mid) ++ post) →
  let answers := (bucket_run capacity window_ms (pre ++ (t :: mid) ++ post) None).1 in
  let elapsed := last_time t mid - t in
  passed (take (length (t :: mid)) (drop (length pre) answers)) * window_ms
    <= capacity * (window_ms + elapsed).
Proof.
  intros Hc Hw Hasc answers elapsed. cbn [app] in Hasc.
  destruct (bucket_run_ok capacity window_ms t0 t pre (mid ++ post) None Hc Hw I Hasc) as [Hok Hmid].
  assert (Hmid' : ascending t mid) by by eapply ascending_app.
  pose proof (bucket_run_from capacity window_ms t mid _ Hc Hw Hok Hmid') as H. fold elapsed in H.
  unfold answers. rewrite bucket_run_app. cbn [fst].
  rewrite drop_app_length' by (by rewrite length_bucket_run).
  rewrite bucket_run_app. cbn [fst]. rewrite take_app_length' by (by rewrite length_bucket_run).
  set (n := passed _) in *. rewrite Zle_Qle, !inject_Z_mult, inject_Z_plus.
  pose proof (rate_window capacity window_ms Hw) as Hr.
  pose proof (window_pos window_ms Hw) as Hp.
  apply (Qmult_le_r _ _ (inject_Z window_ms) Hp) in H.
  assert ((inject_Z capacity + inject_Z elapsed * rate capacity window_ms) * inject_Z window_ms
    == inject_Z capacity * (inject_Z window_ms + inject_Z elapsed))%Q as <-; [|exact H].
  transitivity (inject_Z capacity * inject_Z window_ms
    + inject_Z elapsed * (rate capacity window_ms * inject_Z window_ms))%Q; [ring|].
  rewrite Hr. ring.
Qed.

(** [Retry-After] is honoured: when the middleware answers 429, the same
    client may come back after that many seconds and, if nobody else used its
    bucket meanwhile, the request passes. *)
Theorem retry_after_honoured Number digest json_sub env now now' req redis h ra redis' :
  let mw := rateLimitMiddleware Number digest json_sub env true true in
  match redis !! bucket_key Number digest json_sub env req with
  | Some k => bucket_ok (classify Number digest json_sub env req).1.2
                (positiveLimit Number (RATE_LIMIT_WINDOW_SEC env) 60 * 1000) k ∧ updated_at k <= now
  | None => True
  end →
  mw now req redis = (TooManyRequests h ra, redis') → now + ra * 1000 <= now' →
  ∃ h', (mw now' req redis').1 = Next (Some h').
Proof.
  intros mw Hb Hrun Hle. subst mw. unfold rateLimitMiddleware in *.
  destruct (bypassed env req); [done|]. simpl in *.
  pose proof (classify_limit_pos Number digest json_sub env req) as Hlim.
  destruct (classify Number digest json_sub env req) as [[[type identity] limit] endpoint] eqn:Hcl.
  simpl in *. set (w := positiveLimit Number (RATE_LIMIT_WINDOW_SEC env) 60 * 1000) in *.
  assert (Hw : 1 <= w). { subst w. pose proof (positiveLimit_pos Number (RATE_LIMIT_WINDOW_SEC env) 60). lia. }
  destruct (TOKEN_BUCKET_SCRIPT limit w now _) as [v k] eqn:Hs.
  destruct (allowed v) eqn:Hv; [done|]. simplify_eq/=. rewrite lookup_insert_eq.
  set (ra := Z.max 1 _) in Hle.
  assert (Hra : retry_ms v <= ra * 1000).
  { rewrite Zle_Qle, inject_Z_mult. change (inject_Z 1000) with 1000%Q.
    pose proof (Qle_ceiling (inject_Z (retry_ms v) / 1000)) as Hq.
    assert (inject_Z (Qceiling (inject_Z (retry_ms v) / 1000)) <= inject_Z ra)%Q by (rewrite <-Zle_Qle; subst ra; lia).
    assert (inject_Z (retry_ms v) == inject_Z (retry_ms v) / 1000 * 1000)%Q by field. lra. }
  pose proof (script_retry limit w now now' _ v k Hlim Hw Hb Hs Hv ltac:(subst ra; lia) ltac:(lia)) as Hok.
  destruct (TOKEN_BUCKET_SCRIPT limit w now' (Some k)) as [v' k']. simpl in Hok. rewrite Hok. simpl. eauto.
Qed.

(** The counter of [rateLimit.ts] is exact within its window: from the
    first request of a key on, the requests that arrive before the window ends
    are admitted in order up to the limit, and all later ones are refused. *)
Theorem window_counter_exact max w t times c :
  1 <= w → live_counter t c = Counter 0 None → Forall (λ u, u < t + w) times →
  (window_run max w (t :: times) c).1
  = (λ i, i <=? max) <$> seqZ 1 (Z.of_nat (length (t :: times))).
Proof. intros. by rewrite window_run_start. Qed.

(** The window does not slide: a client that spends its first window's
    allowance at the end of the window is given a full new one a second later,
    so [2 * max - 1] requests pass within one second. *)
Theorem window_counter_burst max w t :
  1 <= max → 2 <= w →
  let n := Z.to_nat max in
  (window_run max w (t :: repeat (t + w - 1) (n - 1) ++ repeat (t + w) n) None).1
  = repeat true (n + n).
Proof.
  intros Hm Hw n. change (t :: ?l ++ ?m) with ((t :: l) ++ m). rewrite window_run_app.
  assert (Hlen : length (t :: repeat (t + w - 1) (n - 1)) = n) by (simpl; rewrite repeat_length; lia).
  rewrite (window_run_start max w t (repeat (t + w - 1) (n - 1)) None);
    [|lia|done|apply Forall_forall; intros u Hu%list_elem_of_In%repeat_spec; lia].
  rewrite Hlen, all_admitted by lia.
  assert (repeat (t + w) n = (t + w) :: repeat (t + w) (n - 1)) as ->.
  { by replace n with (S (n - 1)) at 1 by lia. }
  rewrite (window_run_start max w (t + w) (repeat (t + w) (n - 1)));
    [|lia|simpl; by rewrite Z.leb_refl|apply Forall_forall; intros u Hu%list_elem_of_In%repeat_spec; lia].
  cbn [length]. rewrite repeat_length. replace (S (n - 1)) with n by lia.
  rewrite all_admitted by lia. by rewrite repeat_app.
Qed.

(** ** Witnesses *)

Definition sample_env : Env := Env_ None None None None None None None None None.
Definition sample_req : Request :=
  Request_ "GET" "/admin/streams" None (Some "Bearer a.b.c") (Some "10.0.0.1") None None None None None.
Definition no_sub : string → option string := λ _, None.
Definition no_number : string → option Z := λ _, None.

Lemma token_bucket_bound_witness :
  passed (take 3 (drop 2 (bucket_run 2 1000 [0; 0; 9000; 9000; 9000; 9001] None).1)) * 1000 <= 2 * (1000 + 0).
Proof. apply (token_bucket_bound 2 1000 0 [0; 0] 9000 [9000; 9000] [9001]); simpl; lia. Defined.

(** The sixth admin request within the window. *)
Definition spent : gmap string bucket :=
  {[ bucket_key no_number id no_sub sample_env sample_req := Bucket (1 # 2) 1000 121000 ]}.
Definition denied : outcome * gmap string bucket :=
  rateLimitMiddleware no_number id no_sub sample_env true true 1000 sample_req spent.

Lemma retry_after_honoured_witness :
  ∃ h', (rateLimitMiddleware no_number id no_sub sample_env true true 7000 sample_req denied.2).1
        = Next (Some h').
Proof.
  apply (retry_after_honoured no_number id no_sub sample_env 1000 7000 sample_req spent
           (Headers_ 5 0 6) 6 denied.2).
  - vm_compute. repeat split; discriminate.
  - vm_compute. reflexivity.
  - vm_compute. discriminate.
Defined.

Lemma window_counter_exact_witness :
  (window_run 2 60 [100; 101; 159] (Some (Counter 9 (Some 100)))).1 = [true; true; false].
Proof.
  rewrite (window_counter_exact 2 60 100 [101; 159] (Some (Counter 9 (Some 100))));
    [reflexivity|lia|reflexivity|repeat constructor].
Defined.

Lemma window_counter_burst_witness :
  (window_run 3 60 [0; 59; 59; 60; 60; 60] None).1 = [true; true; true; true; true; true].
Proof. apply (window_counter_burst 3 60 0); lia. Defined.
