(* ===== verification/WsStreams.v ===== *)
(** * The stream WebSocket endpoint

    [backend/src/wsStreams.ts]: the connection handler cut at its [await]s, the
    per-IP limit, the replay buffers, the in-process bus and Redis Pub/Sub, the
    heartbeat and the cleanup, as operations on one server state that may
    interleave in any order.  What a connection was sent is kept as a list.
    Redis and the snapshot call are arguments of the operations; [JSON] text is
    kept as text. *)
From stdpp Require Import gmap.
From S2P Require Import Prelude UrlText.

Definition MAX_MISSED_HEARTBEATS : Z := 2.
Definition EVENT_BUFFER_SIZE : nat := 100.

Definition streamEventChannel (recipient : string) : string := "stream:events:" +:+ recipient.
Definition streamEventBufferKey (recipient : string) : string :=
  "stream:events:buffer:" +:+ recipient.

(** ** Server state *)

(** Where the handler of a connection is: before each of its [await]s, after
    the last one, or returned early. *)
Inductive phase := Snapshotting | Replaying | Subscribing | Live | Rejected.
#[global] Instance phase_eq_dec : EqDecision phase.
Proof. solve_decision. Defined.

(** The variables of one connection's closure, and its socket. *)
Record connection := Conn {
  c_recipient : string;
  c_ip : string;
  c_phase : phase;
  missedHeartbeats : Z;
  heartbeatTimer : bool;
  localCallback : bool;
  subscriberClient : bool;
  closed : bool;
  is_open : bool;
  sent : list string }.

(** [bus] and [channels] hold the connections listening per recipient, in
    process and in Redis; the buffers are newest first. *)
Record server := Server {
  ipCount : gmap string Z;
  bus : gmap string (gset nat);
  channels : gmap string (gset nat);
  localBuffer : gmap string (list string);
  redisBuffer : gmap string (list string);
  conns : gmap nat connection }.

Definition init_server : server := Server ∅ ∅ ∅ ∅ ∅ ∅.

Definition with_ipCount f s := Server (f (ipCount s)) (bus s) (channels s) (localBuffer s) (redisBuffer s) (conns s).
Definition with_bus f s := Server (ipCount s) (f (bus s)) (channels s) (localBuffer s) (redisBuffer s) (conns s).
Definition with_channels f s := Server (ipCount s) (bus s) (f (channels s)) (localBuffer s) (redisBuffer s) (conns s).
Definition with_localBuffer f s := Server (ipCount s) (bus s) (channels s) (f (localBuffer s)) (redisBuffer s) (conns s).
Definition with_redisBuffer f s := Server (ipCount s) (bus s) (channels s) (localBuffer s) (f (redisBuffer s)) (conns s).
Definition with_conns f s := Server (ipCount s) (bus s) (channels s) (localBuffer s) (redisBuffer s) (f (conns s)).

Definition set_phase p c := Conn (c_recipient c) (c_ip c) p (missedHeartbeats c) (heartbeatTimer c) (localCallback c) (subscriberClient c) (closed c) (is_open c) (sent c).
Definition set_missed m c := Conn (c_recipient c) (c_ip c) (c_phase c) m (heartbeatTimer c) (localCallback c) (subscriberClient c) (closed c) (is_open c) (sent c).
Definition set_timer t c := Conn (c_recipient c) (c_ip c) (c_phase c) (missedHeartbeats c) t (localCallback c) (subscriberClient c) (closed c) (is_open c) (sent c).
Definition set_local l c := Conn (c_recipient c) (c_ip c) (c_phase c) (missedHeartbeats c) (heartbeatTimer c) l (subscriberClient c) (closed c) (is_open c) (sent c).
Definition set_subscriber b c := Conn (c_recipient c) (c_ip c) (c_phase c) (missedHeartbeats c) (heartbeatTimer c) (localCallback c) b (closed c) (is_open c) (sent c).
Definition set_closed b c := Conn (c_recipient c) (c_ip c) (c_phase c) (missedHeartbeats c) (heartbeatTimer c) (localCallback c) (subscriberClient c) b (is_open c) (sent c).
Definition set_open b c := Conn (c_recipient c) (c_ip c) (c_phase c) (missedHeartbeats c) (heartbeatTimer c) (localCallback c) (subscriberClient c) (closed c) b (sent c).

(** [ws.send], and the guarded form [if (ws.readyState === OPEN) ws.send]. *)
Definition send (msg : string) c := Conn (c_recipient c) (c_ip c) (c_phase c) (missedHeartbeats c) (heartbeatTimer c) (localCallback c) (subscriberClient c) (closed c) (is_open c) (sent c ++ [msg]).
Definition send_open (msg : string) (c : connection) : connection :=
  if is_open c then send msg c else c.
Definition send_all (msgs : list string) (c : connection) : connection :=
  foldl (λ c m, send_open m c) c msgs.

(** ** Buses and buffers *)

Definition listeners (m : gmap string (gset nat)) (recipient : string) : gset nat :=
  default ∅ (m !! recipient).
Definition subscribe_to (recipient : string) (id : nat) (m : gmap string (gset nat))
    : gmap string (gset nat) := <[recipient := listeners m recipient ∪ {[id]}]> m.
(** The entry goes away with its last listener. *)
Definition unsubscribe_from (recipient : string) (id : nat) (m : gmap string (gset nat))
    : gmap string (gset nat) :=
  match m !! recipient with
  | Some l => let l' := l ∖ {[id]} in
              if decide (l' = ∅) then delete recipient m else <[recipient := l']> m
  | None => m
  end.

Definition localBusSubscribe (recipient : string) (id : nat) : server → server :=
  with_bus (subscribe_to recipient id).
Definition localBusUnsubscribe (recipient : string) (id : nat) : server → server :=
  with_bus (unsubscribe_from recipient id).

(** [unshift] and [pop] past the size; [LPUSH] and [LTRIM 0 99]. *)
Definition push_buffer (msg : string) (buf : list string) : list string :=
  let b := msg :: buf in
  if bool_decide (EVENT_BUFFER_SIZE < length b)%nat then take (length b - 1) b else b.
Definition trim_buffer (msg : string) (buf : list string) : list string :=
  take EVENT_BUFFER_SIZE (msg :: buf).

(** Every listener's callback is the guarded send. *)
Definition deliver (ids : gset nat) (msg : string) (m : gmap nat connection) : gmap nat connection :=
  map_imap (λ id c, Some (if bool_decide (id ∈ ids) then send_open msg c else c)) m.

Definition localBusPublish (recipient msg : string) (s : server) : server :=
  with_conns (deliver (listeners (bus s) recipient) msg)
    (with_localBuffer (λ m, <[recipient := push_buffer msg (default [] (m !! recipient))]> m) s).
Definition localBusGetBuffer (recipient : string) (s : server) : list string :=
  default [] (localBuffer s !! recipient).

(** What Redis does with one publication: both commands go through, or an error
    is thrown with [pushed] and [published] telling which took effect. *)
Inductive redis_publish := RedisOk | RedisFails (pushed published : bool).

Definition redis_push (recipient msg : string) : server → server :=
  with_redisBuffer (λ m, <[streamEventBufferKey recipient :=
    trim_buffer msg (default [] (m !! streamEventBufferKey recipient))]> m).
Definition redis_broadcast (recipient msg : string) (s : server) : server :=
  with_conns (deliver (listeners (channels s) (streamEventChannel recipient)) msg) s.

Definition publishStreamEvent (redis : option redis_publish) (recipient msg : string) (s : server)
    : server :=
  match redis with
  | Some RedisOk => redis_broadcast recipient msg (redis_push recipient msg s)
  | Some (RedisFails pushed published) =>
      let s1 := if pushed then redis_push recipient msg s else s in
      let s2 := if published then redis_broadcast recipient msg s1 else s1 in
      localBusPublish recipient msg s2
  | None => localBusPublish recipient msg s
  end.

(** ** Connection counting *)

Definition incrementIpCount (ip : string) (s : server) : Z * server :=
  let current := default 0 (ipCount s !! ip) in
  (current + 1, with_ipCount <[ip := current + 1]> s).
Definition decrementIpCount (ip : string) (s : server) : server :=
  let current := default 1 (ipCount s !! ip) in
  if current <=? 1 then with_ipCount (delete ip) s
  else with_ipCount <[ip := current - 1]> s.

(** ** Routing *)

Definition isValidStellarAddress : string → bool := stellar_address_re.

Definition path_char (c : ascii) : bool :=
  negb (bool_decide (c = "/"%char) || bool_decide (c = "?"%char) || bool_decide (c = "#"%char)).
(** [url.match(/^\/api\/ws\/streams\/([^/?#]+)/)?.[1]] *)
Definition match_recipient (url : string) : option string :=
  if starts_with "/api/ws/streams/" url then
    match take_while path_char (drop 16 (chars url)) with
    | [] => None
    | l => Some (of_chars l)
    end
  else None.

(** [req.headers["x-forwarded-for"]?.split(",")[0]?.trim() ?? remoteAddress ?? "unknown"] *)
Definition source_ip (xff remote : option string) : string :=
  match xff with
  | Some h => trim (default "" (split_on "," h !! 0%nat))
  | None => default "unknown" remote
  end.

(** ** The connection handler *)

Definition new_conn (recipient ip : string) (p : phase) (opn : bool) (msgs : list string) : connection :=
  Conn recipient ip p 0 false false false false opn msgs.

Definition invalid_recipient_msg : string := "error: Invalid recipient address. Must be a Stellar G... public key.".
Definition too_many_msg : string := "error: Too many connections from this IP".
Definition ping_msg : string := "ping".
Definition invalid_json_msg : string := "error: invalid JSON".

(** Up to the first [await]; [None] when the handler throws. *)
Definition on_connection (maxPerIp : number) (id : nat) (url : string) (xff remote : option string)
    (s : server) : option server :=
  match match_recipient url with
  | None => Some (with_conns <[id := new_conn "" "" Rejected false []]> s)
  | Some m =>
      recipient ← decodeURIComponent m;
      Some (if negb (isValidStellarAddress recipient) then
        with_conns <[id := new_conn recipient "" Rejected false [invalid_recipient_msg]]> s
      else
        let ip := source_ip xff remote in
        let '(count, s1) := incrementIpCount ip s in
        if num_test (λ m, m <? count) maxPerIp then
          with_conns <[id := new_conn recipient ip Rejected false [too_many_msg]]> (decrementIpCount ip s1)
        else with_conns <[id := new_conn recipient ip Snapshotting true []]> s1)
  end.

(** [cleanup]: the handler's own flags decide what is undone. *)
Definition cleanup (id : nat) (s : server) : server :=
  match conns s !! id with
  | None => s
  | Some c =>
      if closed c then s else
      let s1 := decrementIpCount (c_ip c) s in
      let s2 := if subscriberClient c
                then with_channels (unsubscribe_from (streamEventChannel (c_recipient c)) id) s1 else s1 in
      let s3 := if localCallback c then localBusUnsubscribe (c_recipient c) id s2 else s2 in
      with_conns <[id := set_local false (set_subscriber false (set_timer false (set_closed true c)))]> s3
  end.

Definition update_conn (id : nat) (f : connection → connection) : server → server :=
  with_conns (alter f id).

(** Step 1, when the snapshot is there. *)
Definition send_snapshot (id : nat) (msg : string) : server → server :=
  update_conn id (λ c, set_phase Replaying (send_open msg c)).

(** Step 2: the Redis list, or the local buffer without Redis or on an error. *)
Definition replay (id : nat) (redis : bool) (s : server) : server :=
  match conns s !! id with
  | None => s
  | Some c =>
      let buffered :=
        if redis then
          take EVENT_BUFFER_SIZE (default [] (redisBuffer s !! streamEventBufferKey (c_recipient c)))
        else localBusGetBuffer (c_recipient c) s in
      update_conn id (λ c, set_phase Subscribing (send_all (reverse buffered) c)) s
  end.

(** Steps 3 and 4, when the subscription is settled. *)
Definition subscribe (id : nat) (redis : bool) (s : server) : server :=
  match conns s !! id with
  | None => s
  | Some c =>
      let s1 :=
        if redis then
          update_conn id (set_subscriber true)
            (with_channels (subscribe_to (streamEventChannel (c_recipient c)) id) s)
        else update_conn id (set_local true) (localBusSubscribe (c_recipient c) id s) in
      update_conn id (λ c, set_phase Live (set_timer true c)) s1
  end.

(** The interval callback. *)
Definition heartbeat (id : nat) (s : server) : server :=
  match conns s !! id with
  | None => s
  | Some c =>
      if negb (heartbeatTimer c) then s
      else if negb (is_open c) then cleanup id s
      else
        let c1 := set_missed (missedHeartbeats c + 1) c in
        if MAX_MISSED_HEARTBEATS <? missedHeartbeats c1 then
          cleanup id (with_conns <[id := set_open false c1]> s)
        else with_conns <[id := send ping_msg c1]> s
  end.

Inductive client_message := Pong | InvalidJson | OtherMessage.
(** The message listener is installed after the last [await]. *)
Definition on_message (id : nat) (m : client_message) (s : server) : server :=
  match conns s !! id with
  | Some c =>
      if bool_decide (c_phase c = Live) then
        match m with
        | Pong => update_conn id (set_missed 0) s
        | InvalidJson => update_conn id (send invalid_json_msg) s
        | OtherMessage => s
        end
      else s
  | None => s
  end.

(** The socket's [close] and [error] events. *)
Definition on_close (id : nat) (s : server) : server :=
  match conns s !! id with
  | Some c =>
      if bool_decide (c_phase c = Rejected) then s
      else cleanup id (update_conn id (set_open false) s)
  | None => s
  end.

(** ** Traces *)

Inductive event :=
| EConnect (url : string) (xff remote : option string)
| ESnapshot (id : nat) (msg : string)
| EReplay (id : nat) (redis : bool)
| ESubscribe (id : nat) (redis : bool)
| EHeartbeat (id : nat)
| EMessage (id : nat) (m : client_message)
| EClose (id : nat)
| EPublish (redis : option redis_publish) (recipient msg : string).

Definition in_phase (p : phase) (id : nat) (s : server) : bool :=
  match conns s !! id with Some c => bool_decide (c_phase c = p) | None => false end.

(** One event; a continuation only runs where its handler is waiting for it,
    and a connection that throws leaves the state as it is. *)
Definition run_event (maxPerIp : number) (e : event) (s : server) : server :=
  match e with
  | EConnect url xff remote => default s (on_connection maxPerIp (fresh (dom (conns s))) url xff remote s)
  | ESnapshot id msg => if in_phase Snapshotting id s then send_snapshot id msg s else s
  | EReplay id redis => if in_phase Replaying id s then replay id redis s else s
  | ESubscribe id redis => if in_phase Subscribing id s then subscribe id redis s else s
  | EHeartbeat id => heartbeat id s
  | EMessage id m => on_message id m s
  | EClose id => on_close id s
  | EPublish redis recipient msg => publishStreamEvent redis recipient msg s
  end.
Definition run_events (maxPerIp : number) (es : list event) (s : server) : server :=
  foldl (λ s e, run_event maxPerIp e s) s es.

(** ** Specifications *)

(** An accepted connection of [ip] whose cleanup has not run. *)
Definition counted (ip : string) (c : connection) : bool :=
  bool_decide (c_ip c = ip) && negb (bool_decide (c_phase c = Rejected)) && negb (closed c).
Definition open_count (ip : string) (m : gmap nat connection) : Z :=
  Z.of_nat (size (filter (λ kc, counted ip kc.2 = true) m)).

(** The counters are exact, and an entry exists only for a positive count. *)
Definition count_ok (maxPerIp : Z) (s : server) : Prop :=
  ∀ ip, let n := open_count ip (conns s) in
    ipCount s !! ip = (if n =? 0 then None else Some n) ∧ n <= Z.max 0 maxPerIp.

(** The messages of [recipient] that went through the in-process bus. *)
Definition published_locally (recipient : string) (e : event) : option string :=
  match e with
  | EPublish (Some RedisOk) _ _ => None
  | EPublish _ r msg => if bool_decide (r = recipient) then Some msg else None
  | _ => None
  end.

(** [id] has a callback on the in-process bus or a Redis channel. *)
Definition listening (id : nat) (s : server) : Prop :=
  (∃ k, id ∈ listeners (bus s) k) ∨ (∃ k, id ∈ listeners (channels s) k).

Definition is_live (id : nat) (s : server) : Prop :=
  ∃ c, conns s !! id = Some c ∧ c_phase c = Live.

(** Counters are exact, and only connections whose setup is complete listen or
    have a heartbeat. *)
Definition ws_ok (maxPerIp : Z) (s : server) : Prop :=
  count_ok maxPerIp s ∧ (∀ id, listening id s → is_live id s) ∧
  (∀ id c, conns s !! id = Some c → heartbeatTimer c = true → c_phase c = Live).

(** A connection that was cleaned up and still has its timer and callback. *)
Definition leaked (id : nat) (s : server) : Prop :=
  ∃ c, conns s !! id = Some c ∧ closed c = true ∧ heartbeatTimer c = true ∧ c_phase c = Live ∧
    id ∈ listeners (bus s) (c_recipient c).

(** ** Lemmas *)

Lemma open_count_ext ip m m' :
  (∀ i, counted ip <$> m !! i = counted ip <$> m' !! i) → open_count ip m = open_count ip m'.
Proof.
  intros H. unfold open_count. f_equal. rewrite <-!(size_dom (D := gset nat)). f_equal.
  apply set_eq. intros i. rewrite !elem_of_dom. unfold is_Some.
  setoid_rewrite map_lookup_filter_Some. specialize (H i). simpl.
  destruct (m !! i) as [c|], (m' !! i) as [c'|]; simplify_eq/=; [|naive_solver..].
  split; intros (x & [= <-] & Hx); eexists; (split; [done|]); congruence.
Qed.

Lemma open_count_insert ip m i c :
  m !! i = None → open_count ip (<[i := c]> m) = open_count ip m + (if counted ip c then 1 else 0).
Proof.
  intros Hi. unfold open_count. rewrite map_filter_insert. simpl.
  destruct (counted ip c) eqn:Hc.
  - rewrite decide_True, map_size_insert_None;
      [lia|apply map_lookup_filter_None; by left|done].
  - rewrite decide_False by done. rewrite delete_id by done. lia.
Qed.

Lemma open_count_update ip m i c c' :
  m !! i = Some c →
  open_count ip (<[i := c']> m)
  = open_count ip m - (if counted ip c then 1 else 0) + (if counted ip c' then 1 else 0).
Proof.
  intros Hi. rewrite <-insert_delete_eq, open_count_insert by apply lookup_delete_eq.
  assert (open_count ip m = open_count ip (delete i m) + (if counted ip c then 1 else 0)) as ->; [|lia].
  rewrite <-(open_count_insert ip (delete i m) i c) by apply lookup_delete_eq.
  by rewrite insert_delete_id.
Qed.

Lemma count_ok_same m s s' :
  (∀ k, ipCount s' !! k = ipCount s !! k) →
  (∀ ip i, counted ip <$> conns s' !! i = counted ip <$> conns s !! i) →
  count_ok m s → count_ok m s'.
Proof. intros Hi Hc Hs ip. simpl. rewrite Hi, (open_count_ext _ _ _ (Hc ip)). apply (Hs ip). Qed.

Lemma counted_send_open ip msg c : counted ip (send_open msg c) = counted ip c.
Proof. unfold send_open. by destruct (is_open c). Qed.

Definition add_sent (msgs : list string) c := Conn (c_recipient c) (c_ip c) (c_phase c) (missedHeartbeats c) (heartbeatTimer c) (localCallback c) (subscriberClient c) (closed c) (is_open c) (sent c ++ msgs).

Lemma send_all_eq msgs c : send_all msgs c = if is_open c then add_sent msgs c else c.
Proof.
  revert c. induction msgs as [|m msgs IH]; intros c.
  - unfold send_all, add_sent. simpl. rewrite app_nil_r. by destruct c as [???????? []].
  - change (send_all (m :: msgs) c) with (send_all msgs (send_open m c)). rewrite IH.
    unfold send_open. destruct (is_open c) eqn:Ho; [|by rewrite Ho]. simpl. rewrite Ho.
    unfold add_sent, send. simpl. by rewrite <-app_assoc.
Qed.

Lemma lookup_deliver ids msg m i :
  deliver ids msg m !! i = (λ c, if bool_decide (i ∈ ids) then send_open msg c else c) <$> m !! i.
Proof. unfold deliver. rewrite map_lookup_imap. by destruct (m !! i). Qed.

Lemma publish_fields redis r msg s :
  ipCount (publishStreamEvent redis r msg s) = ipCount s ∧
  bus (publishStreamEvent redis r msg s) = bus s ∧
  channels (publishStreamEvent redis r msg s) = channels s.
Proof. by destruct redis as [[|[] []]|]. Qed.

(** A publication sends to listeners and changes nothing else of a connection. *)
Lemma publish_conn redis r msg s i :
  ∃ f, conns (publishStreamEvent redis r msg s) !! i = f <$> conns s !! i ∧
    (∀ c, f c = c ∨ f c = send_open msg c ∨ f c = send_open msg (send_open msg c)) ∧
    ((∀ k, i ∉ listeners (bus s) k) → (∀ k, i ∉ listeners (channels s) k) → ∀ c, f c = c).
Proof.
  destruct redis as [[|pushed published]|].
  - eexists. split; [apply lookup_deliver|]. simpl. split; [intros; case_bool_decide; auto|].
    intros _ H c. rewrite bool_decide_eq_false_2; [done|apply H].
  - destruct published.
    + exists (λ c, (if bool_decide (i ∈ listeners (bus s) r) then send_open msg else id)
        ((if bool_decide (i ∈ listeners (channels s) (streamEventChannel r)) then send_open msg else id) c)).
      split; [|split].
      * destruct pushed; simpl; rewrite !lookup_deliver; (destruct (conns s !! i); simpl; [|done]);
          do 2 case_bool_decide; done.
      * intros c. do 2 case_bool_decide; auto.
      * intros H1 H2 c. rewrite !bool_decide_eq_false_2; [done|apply H2|apply H1].
    + eexists. split; [destruct pushed; apply lookup_deliver|].
      split; [intros; case_bool_decide; auto|].
      intros H _ c. rewrite bool_decide_eq_false_2; [done|]. destruct pushed; apply H.
  - eexists. split; [apply lookup_deliver|]. simpl. split; [intros; case_bool_decide; auto|].
    intros H _ c. rewrite bool_decide_eq_false_2; [done|apply H].
Qed.

(** *** Listeners *)

Lemma listeners_subscribe r id m k :
  listeners (subscribe_to r id m) k = if decide (k = r) then listeners m r ∪ {[id]} else listeners m k.
Proof.
  unfold subscribe_to, listeners. case_decide as E; [subst; by rewrite lookup_insert_eq|].
  by rewrite lookup_insert_ne.
Qed.

Lemma listeners_unsubscribe r id m k :
  listeners (unsubscribe_from r id m) k = if decide (k = r) then listeners m r ∖ {[id]} else listeners m k.
Proof.
  unfold unsubscribe_from, listeners. destruct (m !! r) as [l|] eqn:Hr; simpl.
  - destruct (decide (l ∖ {[id]} = ∅)) as [E|E], (decide (k = r)) as [->|Hne];
      rewrite ?lookup_delete_eq, ?lookup_insert_eq, ?lookup_delete_ne, ?lookup_insert_ne by done; done.
  - destruct (decide (k = r)) as [->|Hne]; [|done]. rewrite Hr. simpl. set_solver.
Qed.

Lemma unsubscribe_sub r id m k i : i ∈ listeners (unsubscribe_from r id m) k → i ∈ listeners m k.
Proof. rewrite listeners_unsubscribe. case_decide; [subst|]; set_solver. Qed.

Lemma unsubscribe_other r id m k i :
  i ≠ id → i ∈ listeners m k → i ∈ listeners (unsubscribe_from r id m) k.
Proof. intros. rewrite listeners_unsubscribe. case_decide; [subst|]; set_solver. Qed.

(** *** Frames *)

Lemma ws_ok_map m (f : nat → connection → connection) s s' :
  (∀ k, ipCount s' !! k = ipCount s !! k) →
  (∀ i, conns s' !! i = f i <$> conns s !! i) →
  (∀ i c, conns s !! i = Some c →
     c_ip (f i c) = c_ip c ∧ closed (f i c) = closed c ∧
     (c_phase (f i c) = Rejected ↔ c_phase c = Rejected) ∧
     (c_phase c = Live → c_phase (f i c) = Live) ∧
     (heartbeatTimer (f i c) = true → heartbeatTimer c = true ∨ c_phase (f i c) = Live)) →
  (∀ i, listening i s' → listening i s ∨ is_live i s') →
  ws_ok m s → ws_ok m s'.
Proof.
  intros Hip Hc Hf Hl (Hcount & Hlis & Htim). split_and!.
  - eapply count_ok_same; [exact Hip| |exact Hcount]. intros ip i. rewrite Hc.
    destruct (conns s !! i) as [c|] eqn:Hi; [|done]. simpl.
    destruct (Hf i c Hi) as (E1 & E2 & E3 & _). f_equal. unfold counted. rewrite E1, E2.
    by rewrite (bool_decide_ext _ _ E3).
  - intros i Hi. destruct (Hl i Hi) as [Hi'|Hi']; [|done]. destruct (Hlis i Hi') as (c & Hci & Hlive).
    exists (f i c). rewrite Hc, Hci. split; [done|]. by apply Hf.
  - intros i c' Hi Ht. rewrite Hc in Hi. destruct (conns s !! i) as [c|] eqn:Hci; simplify_eq/=.
    destruct (Hf i c Hci) as (_ & _ & _ & E4 & E5). destruct (E5 Ht) as [Ht'|]; [|done].
    by apply E4, (Htim i c).
Qed.

Lemma lookup_update_conn id f s i :
  conns (update_conn id f s) !! i = (if decide (i = id) then f else λ c, c) <$> conns s !! i.
Proof.
  simpl. case_decide as E; [subst; by rewrite lookup_alter_eq|].
  rewrite lookup_alter_ne by done. by destruct (conns s !! i).
Qed.

(** Updating one connection's own fields. *)
Lemma ws_ok_update m id f s :
  (∀ c, conns s !! id = Some c →
     c_ip (f c) = c_ip c ∧ closed (f c) = closed c ∧
     (c_phase (f c) = Rejected ↔ c_phase c = Rejected) ∧
     (c_phase c = Live → c_phase (f c) = Live) ∧
     (heartbeatTimer (f c) = true → heartbeatTimer c = true ∨ c_phase (f c) = Live)) →
  ws_ok m s → ws_ok m (update_conn id f s).
Proof.
  intros Hf. apply (ws_ok_map m (λ i, if decide (i = id) then f else λ c, c)).
  - done.
  - intros i. apply lookup_update_conn.
  - intros i c Hc. case_decide as E; [subst; by apply Hf|]. tauto.
  - intros i Hi. by left.
Qed.

Lemma insert_as_update id c s :
  is_Some (conns s !! id) → with_conns <[id := c]> s = update_conn id (λ _, c) s.
Proof.
  intros [c0 Hc]. unfold update_conn, with_conns. f_equal. apply map_eq. intros i.
  destruct (decide (id = i)) as [<-|]; [by rewrite lookup_insert_eq, lookup_alter_eq, Hc|].
  by rewrite lookup_insert_ne, lookup_alter_ne.
Qed.

(** *** Counting *)

Lemma lookup_increment ip s k :
  ipCount (incrementIpCount ip s).2 !! k
  = if decide (k = ip) then Some (default 0 (ipCount s !! ip) + 1) else ipCount s !! k.
Proof. simpl. case_decide; [subst; apply lookup_insert_eq|by apply lookup_insert_ne]. Qed.

Lemma lookup_decrement ip s k :
  ipCount (decrementIpCount ip s) !! k =
  if decide (k = ip) then
    (if default 1 (ipCount s !! ip) <=? 1 then None else Some (default 1 (ipCount s !! ip) - 1))
  else ipCount s !! k.
Proof.
  unfold decrementIpCount. destruct (default 1 _ <=? 1); simpl; case_decide as E; subst.
  - apply lookup_delete_eq.
  - by apply lookup_delete_ne.
  - apply lookup_insert_eq.
  - by apply lookup_insert_ne.
Qed.

Lemma decrement_fields ip s :
  bus (decrementIpCount ip s) = bus s ∧ channels (decrementIpCount ip s) = channels s ∧
  conns (decrementIpCount ip s) = conns s.
Proof. unfold decrementIpCount. by destruct (_ <=? 1). Qed.

Lemma open_count_nonneg ip m : 0 <= open_count ip m.
Proof. unfold open_count. lia. Qed.

Lemma count_default m s ip : count_ok m s → default 0 (ipCount s !! ip) = open_count ip (conns s).
Proof. intros H. destruct (H ip) as [-> _]. simpl. destruct (Z.eqb_spec (open_count ip (conns s)) 0); simpl; lia. Qed.

(** What cleaning up an accepted connection does to the connections. *)
Lemma cleanup_eq id c s :
  conns s !! id = Some c → closed c = false →
  let s' := cleanup id s in
  (∀ k, ipCount s' !! k = ipCount (decrementIpCount (c_ip c) s) !! k) ∧
  conns s' = <[id := set_local false (set_subscriber false (set_timer false (set_closed true c)))]> (conns s) ∧
  (∀ k i, i ∈ listeners (bus s') k → i ∈ listeners (bus s) k) ∧
  (∀ k i, i ∈ listeners (channels s') k → i ∈ listeners (channels s) k) ∧
  (∀ k i, i ≠ id → i ∈ listeners (bus s) k → i ∈ listeners (bus s') k).
Proof.
  intros Hc Hcl s'. subst s'. unfold cleanup. rewrite Hc, Hcl.
  destruct (decrement_fields (c_ip c) s) as (Hb & Hch & Hco).
  destruct (subscriberClient c), (localCallback c); cbn -[decrementIpCount unsubscribe_from];
    rewrite ?Hb, ?Hch, ?Hco; split_and!; try done;
    eauto using unsubscribe_sub, unsubscribe_other.
Qed.

Lemma cleanup_ok m id c s :
  conns s !! id = Some c → c_phase c ≠ Rejected → ws_ok m s → ws_ok m (cleanup id s).
Proof.
  intros Hc Hp (Hcount & Hlis & Htim). destruct (closed c) eqn:Hcl.
  { unfold cleanup. by rewrite Hc, Hcl. }
  destruct (cleanup_eq id c s Hc Hcl) as (Hip & Hco & Hb & Hch & _).
  set (c' := set_local _ _) in Hco. split_and!.
  - intros ip. rewrite Hco, (open_count_update ip _ _ c c') by done. rewrite Hip, lookup_decrement.
    assert (Hc' : counted ip c' = false) by (unfold counted; simpl; by rewrite andb_false_r). rewrite Hc'.
    assert (Hcc : counted ip c = bool_decide (c_ip c = ip)).
    { unfold counted. rewrite Hcl, (bool_decide_eq_false_2 (_ = Rejected)) by done. by rewrite !andb_true_r. }
    rewrite Hcc. pose proof (Hcount ip) as [Hi Hle]. simpl in *.
    pose proof (open_count_nonneg ip (<[id:=c']> (conns s))) as Hnn.
    rewrite (open_count_update ip _ _ c c'), Hcc, Hc' in Hnn by done.
    destruct (decide (ip = c_ip c)) as [->|Hne].
    + rewrite bool_decide_eq_true_2 in * by done. rewrite Hi.
      set (n := open_count _ _) in *. destruct (Z.eqb_spec n 0) as [E|E]; [lia|]. simpl.
      destruct (Z.leb_spec n 1), (Z.eqb_spec (n - 1 + 0) 0); try lia; (split; [|lia]); [done|f_equal; lia].
    + rewrite bool_decide_eq_false_2 in * by done. rewrite Hi. split; [|lia].
      by replace (open_count ip (conns s) - 0 + 0) with (open_count ip (conns s)) by lia.
  - intros i [[k Hk]|[k Hk]].
    + destruct (Hlis i) as (x & Hx & Hl); [left; eauto|]. unfold is_live. rewrite Hco.
      destruct (decide (id = i)) as [<-|]; [|rewrite lookup_insert_ne by done; eauto].
      rewrite lookup_insert_eq. simplify_eq. by eexists.
    + destruct (Hlis i) as (x & Hx & Hl); [right; eauto|]. unfold is_live. rewrite Hco.
      destruct (decide (id = i)) as [<-|]; [|rewrite lookup_insert_ne by done; eauto].
      rewrite lookup_insert_eq. simplify_eq. by eexists.
  - intros i x. rewrite Hco, lookup_insert_Some. intros [[<- <-]|[_ Hx]]; [done|eauto].
Qed.

(** *** Every event keeps the invariant *)

Lemma connect_ok m id url xff remote s s' :
  conns s !! id = None → ws_ok m s →
  on_connection (Some m) id url xff remote s = Some s' → ws_ok m s'.
Proof.
  intros Hid Hok Hrun. pose proof Hok as (Hcount & Hlis & Htim).
  assert (Hadd : ∀ c s1,
    (∀ k, ipCount s1 !! k = ipCount s !! k) → conns s1 = conns s → bus s1 = bus s →
    channels s1 = channels s → c_phase c = Rejected → heartbeatTimer c = false →
    ws_ok m (with_conns <[id := c]> s1)).
  { intros c s1 Hip Hco Hb Hch Hp Ht. split_and!.
    - intros ip. simpl. rewrite Hco, open_count_insert, Hip by done.
      assert (counted ip c = false) as -> by (unfold counted; rewrite Hp; simpl; by rewrite andb_false_r).
      rewrite Z.add_0_r. apply (Hcount ip).
    - intros i Hi. unfold listening in Hi. simpl in Hi. rewrite Hb, Hch in Hi.
      destruct (Hlis i Hi) as (x & Hx & Hl). exists x. simpl. rewrite Hco.
      rewrite lookup_insert_ne by congruence. done.
    - intros i x. simpl. rewrite Hco, lookup_insert_Some. intros [[<- <-]|[_ Hx]]; [congruence|eauto]. }
  unfold on_connection in Hrun. destruct (match_recipient url) as [mt|]; [|simplify_eq; by apply Hadd].
  destruct (decodeURIComponent mt) as [recipient|]; [|done]. simpl in Hrun.
  destruct (isValidStellarAddress recipient); simpl in Hrun; [|simplify_eq; by apply Hadd].
  set (ip := source_ip xff remote) in *. set (s1 := with_ipCount _ s) in *.
  pose proof (count_default m s ip Hcount) as Hdef. pose proof (Hcount ip) as [Hi Hle]. simpl in Hi, Hle.
  pose proof (open_count_nonneg ip (conns s)) as Hnn.
  remember (open_count ip (conns s)) as n eqn:Hn.
  assert (Hs1 : ∀ k, ipCount s1 !! k = if decide (k = ip) then Some (n + 1) else ipCount s !! k).
  { intros k. rewrite <-Hdef. apply (lookup_increment ip s k). }
  rewrite Hdef in Hrun.
  destruct (m <? n + 1) eqn:Hlim; injection Hrun as <-.
  - destruct (decrement_fields ip s1) as (Hfb & Hfc & Hfo). apply Hadd; try done.
    intros k. rewrite lookup_decrement, !Hs1. rewrite (decide_True _ _ (eq_refl ip)). simpl.
    case_decide as E; [subst k|done]. rewrite Hi.
    destruct (Z.leb_spec (n + 1) 1), (Z.eqb_spec n 0); try lia; [done|f_equal; lia].
  - split_and!.
    + intros k. cbv zeta. change (conns (with_conns ?f s1)) with (f (conns s)).
      change (ipCount (with_conns ?f s1)) with (ipCount s1).
      rewrite open_count_insert, (Hs1 k) by done. unfold counted. simpl.
      rewrite andb_true_r. case_decide as E.
      * subst k. rewrite bool_decide_eq_true_2 by done. rewrite <-Hn.
        cbn [andb]. rewrite (proj2 (Z.eqb_neq (n + 1) 0)) by lia. split; [done|]. apply Z.ltb_ge in Hlim. lia.
      * rewrite bool_decide_eq_false_2 by congruence. rewrite Z.add_0_r. apply (Hcount k).
    + intros i Hi'. destruct (Hlis i Hi') as (x & Hx & Hl). exists x. simpl.
      rewrite lookup_insert_ne by congruence. done.
    + intros i x. simpl. rewrite lookup_insert_Some. intros [[<- <-]|[_ Hx]]; [done|eauto].
Qed.

Lemma subscribe_conns id c redis s :
  conns s !! id = Some c →
  ∀ i, conns (subscribe id redis s) !! i =
    (if decide (i = id) then λ c, set_phase Live (set_timer true
        ((if redis then set_subscriber true else set_local true) c)) else λ c, c) <$> conns s !! i.
Proof.
  intros Hc i. unfold subscribe. rewrite Hc, lookup_update_conn.
  destruct redis; rewrite lookup_update_conn; simpl;
    case_decide; destruct (conns s !! i); done.
Qed.

Lemma subscribe_ok m id redis s :
  in_phase Subscribing id s = true → ws_ok m s → ws_ok m (subscribe id redis s).
Proof.
  unfold in_phase. destruct (conns s !! id) as [c|] eqn:Hc; [|done].
  intros Hp%bool_decide_eq_true Hok.
  eapply (ws_ok_map m _ s); [|exact (subscribe_conns id c redis s Hc)| | |exact Hok].
  - intros k. unfold subscribe. rewrite Hc. by destruct redis.
  - intros i x Hx. cbv beta. destruct (decide (i = id)) as [->|]; [|tauto]. simplify_eq.
    destruct redis; simpl; rewrite Hp; intuition congruence.
  - intros i Hi. destruct (decide (i = id)) as [->|Hne].
    + right. exists (set_phase Live (set_timer true
        ((if redis then set_subscriber true else set_local true) c))).
      rewrite (subscribe_conns id c redis s Hc), decide_True, Hc by done. by destruct redis.
    + left. unfold subscribe, listening in *. rewrite Hc in Hi.
      destruct redis; simpl in Hi; [destruct Hi as [?|[k Hk]]|destruct Hi as [[k Hk]|?]];
        [by left| | |by right]; rewrite listeners_subscribe in Hk; [right|left];
        (case_decide; subst; [|by eauto]); (apply elem_of_union in Hk as [Hk|Hk]; [by eauto|]);
        by apply elem_of_singleton in Hk.
Qed.

Lemma fresh_conn s : conns s !! fresh (dom (conns s)) = None.
Proof. apply not_elem_of_dom, is_fresh. Qed.

Lemma heartbeat_ok m id s : ws_ok m s → ws_ok m (heartbeat id s).
Proof.
  intros Hok. unfold heartbeat. destruct (conns s !! id) as [c|] eqn:Hc; [|done].
  destruct (heartbeatTimer c) eqn:Ht; [|done]. simpl.
  assert (Hlive : c_phase c = Live) by (by apply (proj2 (proj2 Hok) id c)).
  destruct (is_open c) eqn:Ho; simpl; [|eapply cleanup_ok; [done|congruence|done]].
  case_match.
  - rewrite insert_as_update by (by eexists).
    eapply (cleanup_ok _ _ (set_open false (set_missed (missedHeartbeats c + 1) c))).
    + by rewrite lookup_update_conn, decide_True, Hc.
    + simpl. congruence.
    + apply ws_ok_update; [|done]. intros x Hx. simplify_eq. simpl. tauto.
  - rewrite insert_as_update by (by eexists). apply ws_ok_update; [|done].
    intros x Hx. simplify_eq. simpl. tauto.
Qed.

Lemma run_event_ok m e s : ws_ok m s → ws_ok m (run_event (Some m) e s).
Proof.
  intros Hok. destruct e as [url xff remote|id msg|id redis|id redis|id|id msg|id|redis r msg]; simpl.
  - destruct (on_connection _ _ _ _ _ _) as [s'|] eqn:Hrun; [|done]. simpl.
    eapply connect_ok; [apply fresh_conn|done|done].
  - unfold in_phase. destruct (conns s !! id) as [c|] eqn:Hc; [|done]. case_bool_decide as Hp; [|done].
    apply ws_ok_update; [|done]. intros x Hx. simplify_eq. unfold send_open.
    destruct (is_open c); simpl; rewrite Hp; intuition congruence.
  - unfold in_phase. destruct (conns s !! id) as [c|] eqn:Hc; [|done]. case_bool_decide as Hp; [|done].
    unfold replay. rewrite Hc. apply ws_ok_update; [|done]. intros x Hx. simplify_eq.
    rewrite send_all_eq. destruct (is_open c); simpl; rewrite Hp; intuition congruence.
  - destruct (in_phase Subscribing id s) eqn:Hp; [by apply subscribe_ok|done].
  - by apply heartbeat_ok.
  - unfold on_message. destruct (conns s !! id) as [c|]; [|done]. case_bool_decide; [|done].
    destruct msg; [| |done]; apply ws_ok_update; try done; intros; simpl; tauto.
  - unfold on_close. destruct (conns s !! id) as [c|] eqn:Hc; [|done]. case_bool_decide as Hp; [done|].
    eapply (cleanup_ok _ _ (set_open false c)); [by rewrite lookup_update_conn, decide_True, Hc|done|].
    apply ws_ok_update; [|done]. intros x Hx. simpl. tauto.
  - destruct (publish_fields redis r msg s) as (Hip & Hb & Hch). split_and!.
    + eapply count_ok_same; [intros; by rewrite Hip| |apply Hok]. intros ip i.
      destruct (publish_conn redis r msg s i) as (f & -> & Hf & _). destruct (conns s !! i) as [c|]; [|done].
      simpl. f_equal. destruct (Hf c) as [->|[->| ->]]; by rewrite ?counted_send_open.
    + intros i Hi. unfold listening in Hi. rewrite Hb, Hch in Hi. destruct (proj1 (proj2 Hok) i Hi) as (c & Hc & Hl).
      destruct (publish_conn redis r msg s i) as (f & Hfi & Hf & _). exists (f c). rewrite Hfi, Hc.
      split; [done|]. destruct (Hf c) as [->|[->| ->]]; unfold send_open; by repeat case_match.
    + intros i x. destruct (publish_conn redis r msg s i) as (f & -> & Hf & _).
      destruct (conns s !! i) as [c|] eqn:Hc; [|done]. intros [= <-].
      pose proof (proj2 (proj2 Hok) i c Hc) as Ht.
      destruct (Hf c) as [->|[->| ->]]; unfold send_open; by repeat case_match.
Qed.

Lemma init_ok m : ws_ok m init_server.
Proof.
  split_and!.
  - intros ip. unfold open_count. simpl. rewrite map_filter_empty, map_size_empty. simpl.
    rewrite lookup_empty. split; [done|lia].
  - intros id [[k Hk]|[k Hk]]; unfold listeners in Hk; simpl in Hk; rewrite lookup_empty in Hk; set_solver.
  - intros id c. simpl. by rewrite lookup_empty.
Qed.

Lemma run_events_ok m es s : ws_ok m s → ws_ok m (run_events (Some m) es s).
Proof. revert s. induction es as [|e es IH]; intros s Hs; [done|]. apply IH. by apply run_event_ok. Qed.

(** *** Buffers *)

Lemma push_buffer_take msg l :
  push_buffer msg (take EVENT_BUFFER_SIZE l) = take EVENT_BUFFER_SIZE (msg :: l).
Proof.
  unfold push_buffer, EVENT_BUFFER_SIZE. simpl length. rewrite length_take.
  case_bool_decide as H.
  - replace (S (100 `min` length l) - 1)%nat with 100%nat by lia.
    change (take 100 (msg :: l)) with (msg :: take 99 l).
    change (take 100 (msg :: take 100 l)) with (msg :: take 99 (take 100 l)).
    by rewrite take_take.
  - change (take 100 (msg :: l)) with (msg :: take 99 l). by rewrite !take_ge by lia.
Qed.

Lemma cleanup_buffer id s : localBuffer (cleanup id s) = localBuffer s.
Proof.
  unfold cleanup. destruct (conns s !! id) as [c|]; [|done]. destruct (closed c); [done|].
  unfold decrementIpCount. by destruct (_ <=? 1), (subscriberClient c), (localCallback c).
Qed.

Lemma connect_buffer m id url xff remote s s' :
  on_connection m id url xff remote s = Some s' → localBuffer s' = localBuffer s.
Proof.
  unfold on_connection, decrementIpCount. intros H.
  destruct (match_recipient url) as [mt|]; [|by simplify_eq].
  destruct (decodeURIComponent mt) as [r|]; [|done]. simpl in H.
  by repeat (case_match; simplify_eq/=).
Qed.

(** Only publications touch the in-process buffers. *)
Lemma run_event_buffer m e s :
  (∀ redis r msg, e ≠ EPublish redis r msg) → localBuffer (run_event m e s) = localBuffer s.
Proof.
  intros Hne. destruct e as [url xff remote|id msg|id redis|id redis|id|id msg|id|redis r msg]; simpl.
  - destruct (on_connection _ _ _ _ _ _) as [s'|] eqn:H; [|done]. by eapply connect_buffer.
  - by case_match.
  - case_match; [|done]. unfold replay. by destruct (conns s !! id).
  - case_match; [|done]. unfold subscribe. destruct (conns s !! id); [|done]. by destruct redis.
  - unfold heartbeat. destruct (conns s !! id) as [c|]; [|done].
    by repeat (case_match; rewrite ?cleanup_buffer).
  - unfold on_message. destruct (conns s !! id); [|done]. by repeat case_match.
  - unfold on_close. destruct (conns s !! id); [|done]. case_match; [done|]. by rewrite cleanup_buffer.
  - by destruct (Hne redis r msg).
Qed.

Lemma publish_buffer redis r msg s k :
  localBusGetBuffer k (publishStreamEvent redis r msg s) =
    match published_locally k (EPublish redis r msg) with
    | Some m => push_buffer m (localBusGetBuffer k s)
    | None => localBusGetBuffer k s
    end.
Proof.
  assert (Hlocal : ∀ s0, localBuffer s0 = localBuffer s →
    localBusGetBuffer k (localBusPublish r msg s0) =
      match (if bool_decide (r = k) then Some msg else None) with
      | Some m => push_buffer m (localBusGetBuffer k s)
      | None => localBusGetBuffer k s
      end).
  { intros s0 Hs. unfold localBusGetBuffer, localBusPublish. simpl. rewrite Hs.
    case_bool_decide as E; [subst; by rewrite lookup_insert_eq|by rewrite lookup_insert_ne]. }
  destruct redis as [[|[] []]|]; simpl; [done|by apply Hlocal..].
Qed.

Lemma local_buffer_spec m es r :
  localBusGetBuffer r (run_events m es init_server)
  = take EVENT_BUFFER_SIZE (reverse (omap (published_locally r) es)).
Proof.
  induction es as [|e es IH] using rev_ind; [done|].
  unfold run_events in *. rewrite foldl_app. simpl. rewrite omap_app, reverse_app. simpl.
  set (s := foldl _ _ _) in *.
  assert (Hstep : localBusGetBuffer r (run_event m e s) =
    match published_locally r e with
    | Some x => push_buffer x (localBusGetBuffer r s)
    | None => localBusGetBuffer r s
    end).
  { destruct e as [| | | | | | |redis r0 msg]; try (unfold localBusGetBuffer; by rewrite run_event_buffer).
    apply publish_buffer. }
  rewrite Hstep, IH. destruct (published_locally r e) as [x|]; simpl; [|done].
  by rewrite push_buffer_take.
Qed.

(** *** Leaks *)

Lemma cleanup_other id j s c :
  id ≠ j → conns s !! id = Some c →
  conns (cleanup j s) !! id = Some c ∧
  (∀ k, id ∈ listeners (bus s) k → id ∈ listeners (bus (cleanup j s)) k).
Proof.
  intros Hne Hc. destruct (conns s !! j) as [x|] eqn:Hj; [|unfold cleanup; by rewrite Hj].
  destruct (closed x) eqn:Hx; [unfold cleanup; by rewrite Hj, Hx|].
  destruct (cleanup_eq j x s Hj Hx) as (_ & -> & _ & _ & Hb). rewrite lookup_insert_ne by done. eauto.
Qed.

Lemma cleanup_leaked id j s : leaked id s → leaked id (cleanup j s).
Proof.
  intros (c & Hc & Hcl & Ht & Hp & Hb). destruct (decide (id = j)) as [<-|Hne].
  - unfold cleanup. rewrite Hc, Hcl. by exists c.
  - destruct (cleanup_other id j s c Hne Hc) as [Hc' Hb']. exists c. eauto 10.
Qed.

(** Updates that keep the flags of the leak. *)
Lemma leaked_map f id s s' :
  conns s' !! id = f <$> conns s !! id →
  (∀ c, conns s !! id = Some c → c_recipient (f c) = c_recipient c ∧ closed (f c) = closed c ∧
        heartbeatTimer (f c) = heartbeatTimer c ∧ c_phase (f c) = c_phase c) →
  (∀ k, id ∈ listeners (bus s) k → id ∈ listeners (bus s') k) →
  leaked id s → leaked id s'.
Proof.
  intros Hf Hsame Hb (c & Hc & Hcl & Ht & Hp & Hin). exists (f c). rewrite Hf, Hc.
  destruct (Hsame c Hc) as (-> & -> & -> & ->). eauto 10.
Qed.

Lemma leaked_update f id j s :
  (∀ c, conns s !! j = Some c → c_recipient (f c) = c_recipient c ∧ closed (f c) = closed c ∧
        heartbeatTimer (f c) = heartbeatTimer c ∧ c_phase (f c) = c_phase c) →
  leaked id s → leaked id (update_conn j f s).
Proof.
  intros Hf. eapply leaked_map; [apply lookup_update_conn| |done].
  intros c Hc. case_decide; [subst; by apply Hf|done].
Qed.

(** Updates of a connection that is in another phase. *)
Lemma leaked_phase f id j p s :
  in_phase p j s = true → p ≠ Live → leaked id s → leaked id (update_conn j f s).
Proof.
  unfold in_phase. intros Hj Hp (c & Hc & Hrest). exists c. rewrite lookup_update_conn.
  rewrite decide_False; [by rewrite Hc|]. intros ->. rewrite Hc in Hj.
  apply bool_decide_eq_true in Hj. intuition congruence.
Qed.

Lemma send_open_fields msg c :
  c_recipient (send_open msg c) = c_recipient c ∧ closed (send_open msg c) = closed c ∧
  heartbeatTimer (send_open msg c) = heartbeatTimer c ∧ c_phase (send_open msg c) = c_phase c.
Proof. unfold send_open. by destruct (is_open c). Qed.

Lemma connect_leaked m j url xff remote s s' id :
  conns s !! j = None → on_connection m j url xff remote s = Some s' → leaked id s → leaked id s'.
Proof.
  intros Hj H (c & Hc & Hrest). exists c.
  assert (conns s' !! id = Some c ∧ bus s' = bus s) as [-> ->]; [|done].
  assert (Hne : j ≠ id) by congruence.
  unfold on_connection in H. destruct (match_recipient url) as [mt|];
    [|simplify_eq; simpl; by rewrite lookup_insert_ne].
  destruct (decodeURIComponent mt) as [r|]; [|done]. simpl in H.
  repeat (case_match; simplify_eq); simpl; rewrite ?lookup_insert_ne by done; try done.
  destruct (decrement_fields (source_ip xff remote)
    (with_ipCount <[source_ip xff remote:=default 0 (ipCount s !! source_ip xff remote) + 1]> s))
    as (-> & _ & ->). done.
Qed.

Lemma run_event_leaked m e id s : leaked id s → leaked id (run_event m e s).
Proof.
  intros Hl. destruct e as [url xff remote|j msg|j redis|j redis|j|j msg|j|redis r msg]; simpl.
  - destruct (on_connection _ _ _ _ _ _) as [s'|] eqn:H; [|done]. simpl.
    eapply connect_leaked; [apply fresh_conn|done|done].
  - destruct (in_phase Snapshotting j s) eqn:Hp; [|done]. by eapply leaked_phase.
  - destruct (in_phase Replaying j s) eqn:Hp; [|done]. unfold replay.
    destruct (conns s !! j); [|done]. by eapply leaked_phase.
  - destruct (in_phase Subscribing j s) eqn:Hp; [|done]. unfold in_phase in Hp.
    destruct (conns s !! j) as [x|] eqn:Hj; [|done]. apply bool_decide_eq_true in Hp.
    pose proof Hl as (c & Hc & _ & _ & Hlive & _). assert (id ≠ j) by congruence.
    eapply (leaked_map (λ c, c)); [|done| |done].
    + rewrite (subscribe_conns j x redis s Hj), decide_False by done. by destruct (conns s !! id).
    + intros k Hk. unfold subscribe. rewrite Hj. destruct redis; simpl; [done|].
      rewrite listeners_subscribe. case_decide; [subst|]; set_solver.
  - unfold heartbeat. destruct (conns s !! j) as [c|] eqn:Hj; [|done].
    destruct (heartbeatTimer c) eqn:Ht; [|done]. simpl.
    destruct (is_open c); simpl; [|by apply cleanup_leaked].
    case_match; [apply cleanup_leaked|]; rewrite insert_as_update by (by eexists);
      (refine (leaked_update _ _ _ _ _ Hl)); intros x Hx; by simplify_eq.
  - unfold on_message. destruct (conns s !! j) as [c|]; [|done]. case_match; [|done].
    destruct msg; [| |done]; by refine (leaked_update _ _ _ _ _ Hl).
  - unfold on_close. destruct (conns s !! j) as [c|]; [|done]. case_match; [done|].
    apply cleanup_leaked. by refine (leaked_update _ _ _ _ _ Hl).
  - destruct (publish_conn redis r msg s id) as (f & Hf & Hc & _).
    destruct (publish_fields redis r msg s) as (_ & Hb & _).
    eapply leaked_map; [exact Hf| |by rewrite Hb|done].
    intros c _. destruct (Hc c) as [->|[->| ->]]; [done|apply send_open_fields|].
    destruct (send_open_fields msg (send_open msg c)) as (-> & -> & -> & ->). apply send_open_fields.
Qed.

Lemma run_events_leaked m es id s : leaked id s → leaked id (run_events m es s).
Proof. revert s. induction es as [|e es IH]; intros s Hs; [done|]. by apply IH, run_event_leaked. Qed.

(** ** Properties *)

(** C7. The per-IP limit holds under every interleaving of connections,
    setups, messages, heartbeats, closes and publications: the number of
    accepted connections of an address that are not cleaned up never exceeds
    the limit, the counter equals that number, and an address without
    connections has no counter. *)
Theorem connection_limit m es ip :
  let s := run_events (Some m) es init_server in
  let n := open_count ip (conns s) in
  n <= Z.max 0 m ∧ ipCount s !! ip = (if n =? 0 then None else Some n).
Proof.
  intros s n. destruct (run_events_ok m es init_server (init_ok m)) as (Hc & _).
  destruct (Hc ip) as [Hi Hle]. done.
Qed.

(** Reconnection replays the recent past in order: a connection that
    replays the in-process buffer is sent the last hundred messages published
    there for its recipient (all of them when fewer), oldest first, whatever
    else the server did in between. *)
Theorem replay_recent_in_order m es id c :
  let s := run_events m es init_server in
  let published := omap (published_locally (c_recipient c)) es in
  conns s !! id = Some c → c_phase c = Replaying → is_open c = true →
  ∃ c', conns (run_event m (EReplay id false) s) !! id = Some c' ∧
    sent c' = sent c ++ drop (length published - EVENT_BUFFER_SIZE) published.
Proof.
  intros s published Hc Hp Ho. simpl. unfold in_phase. rewrite Hc, bool_decide_eq_true_2 by done.
  unfold replay. rewrite Hc, lookup_update_conn, decide_True, Hc by done. simpl.
  eexists. split; [done|]. rewrite send_all_eq, Ho. simpl. f_equal.
  unfold s. rewrite local_buffer_spec. by rewrite take_reverse, reverse_involutive.
Qed.

(** Closing during setup leaks: when a connection was cleaned up while its
    handler was waiting, the handler still installs its callback and its
    heartbeat afterwards, and no later event of the server removes either of
    them. *)
Theorem closed_during_setup_leaks m s id c rest :
  conns s !! id = Some c → c_phase c = Subscribing → closed c = true →
  leaked id (run_events m (ESubscribe id false :: rest) s).
Proof.
  intros Hc Hp Hcl. apply (run_events_leaked m rest). simpl. unfold in_phase.
  rewrite Hc, bool_decide_eq_true_2 by done.
  exists (set_phase Live (set_timer true (set_local true c))).
  rewrite (subscribe_conns id c false s Hc), decide_True, Hc by done. split_and!; try done.
  unfold subscribe. rewrite Hc. simpl. rewrite listeners_subscribe, decide_True by done. set_solver.
Qed.

(** Replay and subscription leave a gap: a message published after a
    connection has replayed the buffer and before its subscription is in place
    is never sent to it, neither by the publication nor by the subscription. *)
Theorem publication_gap_loses_message m es id redis recipient msg rd c :
  let s := run_events (Some m) es init_server in
  conns s !! id = Some c → c_phase c = Subscribing →
  ∃ c', conns (run_events (Some m) [EPublish redis recipient msg; ESubscribe id rd] s) !! id = Some c' ∧
    c_phase c' = Live ∧ sent c' = sent c.
Proof.
  intros s Hc Hp. destruct (run_events_ok m es init_server (init_ok m)) as (_ & Hl & _). fold s in Hl.
  simpl. destruct (publish_conn redis recipient msg s id) as (f & Hf & _ & Hid).
  assert (Hfc : f c = c).
  { apply Hid; intros k Hk; (destruct (Hl id) as (x & Hx & Hlive); [|congruence]); [left|right]; eauto. }
  set (s1 := publishStreamEvent _ _ _ _) in *. rewrite Hc in Hf. simpl in Hf. rewrite Hfc in Hf.
  unfold in_phase. rewrite Hf, bool_decide_eq_true_2 by done.
  rewrite (subscribe_conns id c rd s1 Hf), decide_True, Hf by done. simpl.
  eexists. split; [done|]. by destruct rd.
Qed.

(** ** Witnesses *)

Definition alice : string := "GAAAAAAAAAAAAAAAAAAAAAAAAAAAAAAAAAAAAAAAAAAAAAAAAAAAAAAA".
Definition alice_url : string := "/api/ws/streams/" +:+ alice.

(** Two messages are published, then a client connects. *)
Definition replay_trace : list event :=
  [EPublish None alice "m1"; EPublish None alice "m2"; EConnect alice_url None (Some "10.0.0.1");
   ESnapshot 0 "snap"].
Definition waiting (p : phase) (opn : bool) (msgs : list string) : connection :=
  Conn alice "10.0.0.1" p 0 false false false (negb opn) opn msgs.

Lemma replay_recent_in_order_witness :
  ∃ c', conns (run_event (Some 100) (EReplay 0 false) (run_events (Some 100) replay_trace init_server)) !! 0%nat
        = Some c' ∧ sent c' = ["snap"; "m1"; "m2"].
Proof.
  apply (replay_recent_in_order (Some 100) replay_trace 0 (waiting Replaying true ["snap"]));
    vm_compute; reflexivity.
Defined.

(** The client goes away while the snapshot is fetched. *)
Definition close_trace : list event :=
  [EConnect alice_url None (Some "10.0.0.1"); EClose 0; ESnapshot 0 "snap"; EReplay 0 false].

Lemma closed_during_setup_leaks_witness :
  leaked 0 (run_events (Some 100) [ESubscribe 0 false; EHeartbeat 0; EClose 0]
              (run_events (Some 100) close_trace init_server)).
Proof.
  apply (closed_during_setup_leaks (Some 100) (run_events (Some 100) close_trace init_server) 0
           (waiting Subscribing false []) [EHeartbeat 0; EClose 0]); vm_compute; reflexivity.
Defined.

Lemma publication_gap_loses_message_witness :
  ∃ c', conns (run_events (Some 100) [EPublish None alice "m3"; ESubscribe 0 false]
                (run_events (Some 100) (replay_trace ++ [EReplay 0 false]) init_server)) !! 0%nat = Some c' ∧
    c_phase c' = Live ∧ sent c' = ["snap"; "m1"; "m2"].
Proof.
  apply (publication_gap_loses_message 100 (replay_trace ++ [EReplay 0 false]) 0 None alice "m3" false
           (waiting Subscribing true ["snap"; "m1"; "m2"])); vm_compute; reflexivity.
Defined.
