(* ===== verification/Digits.v ===== *)
(** * Decimal text

    The digits of [Z_to_string] and the value [digits_value] reads back, shared
    by the components that print and parse amounts. *)
From S2P Require Import Prelude Bytes.
From Stdlib Require Import DecimalString DecimalPos DecimalZ DecimalFacts.

Lemma digits_value_app acc l1 l2 :
  digits_value acc (l1 ++ l2) = digits_value (digits_value acc l1) l2.
Proof. revert acc. induction l1 as [|c l1 IH]; intros acc; [done|apply IH]. Qed.

Lemma digits_value_acc acc l :
  digits_value acc l = acc * 10 ^ Z.of_nat (length l) + digits_value 0 l.
Proof.
  revert acc. induction l as [|c l IH]; intros acc; [simpl; lia|].
  cbn [digits_value length]. rewrite (IH (acc * 10 + _)), (IH (0 * 10 + _)).
  rewrite Nat2Z.inj_succ, Z.pow_succ_r by lia. lia.
Qed.

Lemma digits_value_bounds l :
  forallb is_digit l = true → 0 <= digits_value 0 l < 10 ^ Z.of_nat (length l).
Proof.
  induction l as [|c l IH]; [simpl; lia|]. cbn [forallb]. intros [Hc Hl]%andb_true_iff. specialize (IH Hl).
  cbn [digits_value length]. rewrite digits_value_acc, Nat2Z.inj_succ, Z.pow_succ_r by lia.
  unfold is_digit, in_range in Hc. nia.
Qed.

Fixpoint uint_chars (d : Decimal.uint) : list ascii :=
  match d with
  | Decimal.Nil => []
  | Decimal.D0 d => "0"%char :: uint_chars d
  | Decimal.D1 d => "1"%char :: uint_chars d
  | Decimal.D2 d => "2"%char :: uint_chars d
  | Decimal.D3 d => "3"%char :: uint_chars d
  | Decimal.D4 d => "4"%char :: uint_chars d
  | Decimal.D5 d => "5"%char :: uint_chars d
  | Decimal.D6 d => "6"%char :: uint_chars d
  | Decimal.D7 d => "7"%char :: uint_chars d
  | Decimal.D8 d => "8"%char :: uint_chars d
  | Decimal.D9 d => "9"%char :: uint_chars d
  end.

Lemma chars_string_of_uint d : chars (NilEmpty.string_of_uint d) = uint_chars d.
Proof. induction d; simpl; unfold chars in *; simpl; congruence. Qed.

Lemma uint_chars_digits d : forallb is_digit (uint_chars d) = true.
Proof. by induction d. Qed.

Lemma uint_chars_acc d p : digits_value (Z.pos p) (uint_chars d) = Z.pos (Pos.of_uint_acc d p).
Proof.
  revert p. induction d as [|d IH|d IH|d IH|d IH|d IH|d IH|d IH|d IH|d IH|d IH]; intros p;
    cbn [uint_chars digits_value Pos.of_uint_acc]; [done|rewrite <-IH; f_equal..];
    match goal with |- context [code ?c] => let z := eval vm_compute in (code c) in change (code c) with z end; lia.
Qed.

Lemma uint_chars_value d : digits_value 0 (uint_chars d) = Z.of_N (Pos.of_uint d).
Proof.
  induction d as [|d IH|d IH|d IH|d IH|d IH|d IH|d IH|d IH|d IH|d IH];
    cbn [uint_chars digits_value Pos.of_uint]; [done|exact IH|..];
    match goal with |- digits_value ?a _ = _ => let z := eval vm_compute in a in change a with z end;
    by rewrite uint_chars_acc.
Qed.


Lemma Z_to_string_uint n : 0 <= n →
  ∃ d, chars (Z_to_string n) = uint_chars d ∧ Pos.of_uint d = Z.to_N n ∧ d ≠ Decimal.Nil ∧
       (n ≠ 0 → ∀ d', d ≠ Decimal.D0 d').
Proof.
  intros Hn. unfold Z_to_string. destruct n as [|p|p]; [|cbn|lia].
  - by exists (Decimal.D0 Decimal.Nil).
  - exists (Pos.to_uint p). pose proof (DecimalPos.Unsigned.to_uint_nonnil p) as Hnil.
    rewrite <-chars_string_of_uint. split_and!; [|apply DecimalPos.Unsigned.of_to|done|].
    + by destruct (Pos.to_uint p).
    + intros _ d' Hd. pose proof (DecimalPos.Unsigned.to_of (Pos.to_uint p)) as Hto.
      rewrite DecimalPos.Unsigned.of_to in Hto. cbn in Hto.
      pose proof (DecimalPos.Unsigned.to_uint_nonzero p) as Hz. rewrite Hto in Hd, Hz.
      unfold Decimal.unorm in Hd, Hz. destruct (Decimal.nzhead (Pos.to_uint p)) eqn:He; try done.
      by apply (DecimalFacts.nzhead_nonzero _ _ He).
Qed.

(** The decimal digits of a natural number: digits, of that value, without a
    leading zero. *)
Lemma chars_Z_to_string n : 0 <= n →
  forallb is_digit (chars (Z_to_string n)) = true ∧
  digits_value 0 (chars (Z_to_string n)) = n ∧ chars (Z_to_string n) ≠ [].
Proof.
  intros Hn. destruct (Z_to_string_uint n Hn) as (d & -> & Hd & Hnil & _). split_and!.
  - apply uint_chars_digits.
  - rewrite uint_chars_value, Hd. lia.
  - by destruct d.
Qed.
Lemma ascii_digits l : forallb is_digit l = true → Forall is_ascii_char l.
Proof.
  rewrite forallb_forall, Forall_forall. intros Hl c Hc%list_elem_of_In. specialize (Hl c Hc).
  unfold is_digit, in_range, is_ascii_char in *. lia.
Qed.
Lemma digits_ascii n : 0 <= n → Forall is_ascii_char (chars (Z_to_string n)).
Proof. intros Hn. apply ascii_digits. by apply chars_Z_to_string. Qed.


Lemma uint_chars_leading d : d ≠ Decimal.Nil → (∀ d', d ≠ Decimal.D0 d') →
  10 ^ (Z.of_nat (length (uint_chars d)) - 1) <= digits_value 0 (uint_chars d).
Proof.
  intros Hnil Hz. destruct d as [|d|d|d|d|d|d|d|d|d|d]; [done|by destruct (Hz d)|..];
    cbn [uint_chars digits_value length]; rewrite digits_value_acc, Nat2Z.inj_succ, Z.sub_1_r, Z.pred_succ;
    pose proof (digits_value_bounds _ (uint_chars_digits d));
    match goal with |- context [?a * 10 ^ _] => let z := eval vm_compute in a in change a with z end; nia.
Qed.

Lemma Z_to_string_length n k : 0 <= n < 10 ^ Z.of_nat k → (0 < k)%nat →
  (length (chars (Z_to_string n)) ≤ k)%nat.
Proof.
  intros [H0 Hk] Hp. destruct (decide (n = 0)) as [->|Hne]; [simpl; lia|].
  destruct (Z_to_string_uint n H0) as (d & -> & Hd & Hnil & Hz).
  pose proof (uint_chars_leading d Hnil (Hz Hne)) as Hlo. rewrite uint_chars_value, Hd, Z2N.id in Hlo by lia.
  assert (Z.of_nat (length (uint_chars d)) - 1 < Z.of_nat k); [|lia].
  apply (Z.pow_lt_mono_r_iff 10); lia.
Qed.

(** ** [parseInt] *)

Lemma all_digits_plain l : forallb is_digit l = true → forallb plain l = true.
Proof.
  rewrite !forallb_forall. intros Hl c Hc. specialize (Hl c Hc). unfold is_digit, plain, in_range in *. lia.
Qed.
Lemma digit_not_space c : is_digit c = true → is_space c = false.
Proof. unfold is_digit, is_space, in_range. lia. Qed.
Lemma parse_digits_all l : forallb is_digit l = true → l ≠ [] → parse_digits l = Some (digits_value 0 l).
Proof.
  intros Hl Hne. unfold parse_digits.
  assert (take_while is_digit l = l) as ->; [|by destruct l].
  clear Hne. induction l as [|c l IH]; [done|]. simpl in *. apply andb_true_iff in Hl as [Hc Hl]. by rewrite Hc, IH.
Qed.
Lemma parse_int_text n : 0 <= n → parse_int (Z_to_string n) = Some n.
Proof.
  intros Hn. destruct (chars_Z_to_string n Hn) as (Hd & Hv & Hne). unfold parse_int.
  rewrite units_all_plain by by apply all_digits_plain.
  destruct (chars (Z_to_string n)) as [|c l] eqn:Hc; [done|].
  assert (is_digit c = true) as Hdc by (simpl in Hd; by apply andb_true_iff in Hd as [? _]).
  cbn [fmap list_fmap drop_while fst]. rewrite text_of_cons. cbn [snd].
  assert (text_of ((λ c, (false, [c])) <$> l) = l) as ->.
  { clear. induction l as [|c l IH]; [done|]. cbn [fmap list_fmap]. rewrite text_of_cons, IH. done. }
  change ([c] ++ l) with (c :: l). cbv beta match. rewrite decide_False, decide_False by (intros ->; discriminate Hdc).
  rewrite <-Hv. by apply parse_digits_all.
Qed.
