(* ===== verification/TokenAmount.v ===== *)
(** * Token amounts typed and shown in the client

    [frontend/src/utils/tokenAmount.ts]: parsing of localised decimal text into
    a scaled [bigint], and formatting back.  [Intl.NumberFormat] is a class:
    the two separators it reports and the text it gives for a whole number.
    Text is a list of UTF-8 bytes. *)
From S2P Require Import Prelude Digits.

Definition TOKEN_DECIMAL_PLACES : nat := 7.
Definition TOKEN_SCALE : Z := 10000000.
Definition I128_MAX : Z := 170141183460469231731687303715884105727.

Inductive TokenAmountError := negative | precision | range | format.

Record TokenAmountParseResult := ParseResult {
  value : option Z;
  error : option TokenAmountError;
  message : option string }.

Definition ERROR_MESSAGES (e : TokenAmountError) : string :=
  match e with
  | negative => "Amount cannot be negative."
  | precision => "Use no more than 7 decimal places."
  | range => "Amount exceeds the maximum supported i128 value."
  | format => "Enter a valid token amount."
  end.

(** The locale's [Intl.NumberFormat]: the parts [getLocaleSeparators] finds and
    [format] on a whole number.  A part is never empty. *)
Class NumberFormat := {
  decimal : list ascii;
  group : list ascii;
  format_whole : Z → list ascii }.

(** [trimmed.replace(/[\s\u00a0]/g, "")] *)
Definition strip_units (us : list (bool * list ascii)) : list (bool * list ascii) :=
  filter (λ u, u.1 = false) us.

(** ** Splitting *)

(** [value.split(separator)] for a non-empty separator. *)
Fixpoint split_sep (sep : list ascii) (skip : nat) (l : list ascii) : list (list ascii) :=
  match l with
  | [] => [[]]
  | c :: l' =>
      match skip with
      | S k => split_sep sep k l'
      | O =>
          if bool_decide (sep `prefix_of` l) then [] :: split_sep sep (pred (length sep)) l'
          else match split_sep sep 0 l' with
               | w :: ws => (c :: w) :: ws
               | [] => [[c]]
               end
      end
  end.
Definition split (value separator : list ascii) : list (list ascii) := split_sep separator 0 value.
Definition count (value separator : list ascii) : Z := Z.of_nat (length (split value separator)) - 1.
Definition part (i : nat) (parts : list (list ascii)) : list ascii := default [] (parts !! i).

Definition first_group (g : list ascii) : bool :=
  forallb is_digit g && bool_decide (1 ≤ length g ≤ 3)%nat.
Definition next_group (g : list ascii) : bool :=
  forallb is_digit g && bool_decide (length g = 3%nat).
Definition isValidGrouping (value separator : list ascii) : bool :=
  if count value separator =? 0 then true
  else let groups := split value separator in
       first_group (part 0 groups) && forallb next_group (drop 1 groups).
Definition stripGrouping (value separator : list ascii) : list ascii := split value separator ≫= id.

Definition makeResult (value : option Z) (error : option TokenAmountError) : TokenAmountParseResult :=
  ParseResult value error (ERROR_MESSAGES <$> error).

(** ** Parsing *)

Definition amount_char (c : ascii) : bool :=
  is_digit c || bool_decide (c = "."%char) || bool_decide (c = ","%char).

Section locale.
Context `{NumberFormat}.

Definition alternate : list ascii := if decide (decimal = ["."%char]) then [","%char] else ["."%char].

(** The integer and fraction texts, [None] where the code returns a [format]
    error. *)
Definition split_amount (compact : list ascii) : option (list ascii * list ascii) :=
  if count compact decimal =? 1 then
    let parts := split compact decimal in
    let integer := part 0 parts in
    let fraction := part 1 parts in
    if (0 <? count integer group) && negb (isValidGrouping integer group) then None
    else Some (stripGrouping integer group, fraction)
  else if 1 <? count compact decimal then None
  else
    let groupCount := count compact group in
    let alternateCount := if decide (alternate = group) then 0 else count compact alternate in
    '(integer, fraction) ←
      (if 0 <? groupCount then
         if isValidGrouping compact group then Some (stripGrouping compact group, [])
         else if (groupCount =? 1) && (alternateCount =? 0) then
           let parts := split compact group in Some (part 0 parts, part 1 parts)
         else None
       else Some (compact, []));
    if 0 <? count fraction alternate then None
    else
      '(integer, fraction) ←
        (if (0 <? count integer alternate) && bool_decide (alternate ≠ group) then
           let parts := split integer alternate in
           if bool_decide (length parts = 2%nat) then Some (part 0 parts, part 1 parts) else None
         else Some (integer, fraction));
      if 0 <? count integer group then
        if isValidGrouping integer group then Some (stripGrouping integer group, fraction) else None
      else Some (integer, fraction).

(** [text.padEnd(n, "0")] *)
Definition pad_end (n : nat) (l : list ascii) : list ascii := l ++ replicate (n - length l) "0"%char.

Definition scale_amount (integer fraction : list ascii) : TokenAmountParseResult :=
  if negb (forallb is_digit integer) || negb (forallb is_digit fraction) then
    makeResult None (Some format)
  else if bool_decide (integer = []) && bool_decide (fraction = []) then makeResult None (Some format)
  else if bool_decide (TOKEN_DECIMAL_PLACES < length fraction)%nat then makeResult None (Some precision)
  else
    let normalizedInteger := if bool_decide (integer = []) then ["0"%char] else integer in
    let v := digits_value 0 (normalizedInteger ++ pad_end TOKEN_DECIMAL_PLACES fraction) in
    if I128_MAX <? v then makeResult None (Some range) else makeResult (Some v) None.

Definition parseParts (input : list ascii) : TokenAmountParseResult :=
  let trimmed := trim_units (units input) in
  if bool_decide (trimmed = []) then makeResult None None
  else if bool_decide ("-"%char ∈ text_of trimmed) then makeResult None (Some negative)
  else
    let compact := text_of (strip_units trimmed) in
    if negb (forallb amount_char compact && bool_decide (compact ≠ [])) then makeResult None (Some format)
    else match split_amount compact with
         | None => makeResult None (Some format)
         | Some (integer, fraction) => scale_amount integer fraction
         end.

Definition parseTokenAmountResult (input : string) : TokenAmountParseResult := parseParts (chars input).
Definition parseTokenAmount (input : string) : option Z := value (parseParts (chars input)).

(** ** Formatting *)

(** [text.padStart(n, "0")] and [text.replace(/0+$/, "")] *)
Definition pad_start (n : nat) (l : list ascii) : list ascii := replicate (n - length l) "0"%char ++ l.
Definition strip_zeros (l : list ascii) : list ascii :=
  reverse (drop_while (λ c, bool_decide (c = "0"%char)) (reverse l)).

Definition sign_of (v : Z) : list ascii := if v <? 0 then ["-"%char] else [].
Definition format_fraction (f : list ascii) : list ascii := if bool_decide (f = []) then [] else decimal ++ f.

Definition formatTokenAmount (v : Z) : string :=
  let absolute := Z.abs v in
  let whole := absolute / TOKEN_SCALE in
  let fraction := strip_zeros (pad_start TOKEN_DECIMAL_PLACES (chars (Z_to_string (absolute mod TOKEN_SCALE)))) in
  of_chars (sign_of v ++ format_whole whole ++ format_fraction fraction).

Definition abbreviate_with (tokens : Z) (suffix : list ascii) (v : Z) : string :=
  let oneTenth := tokens * TOKEN_SCALE / 10 in
  let roundedTenths := (Z.abs v + oneTenth / 2) / oneTenth in
  let remainder := roundedTenths mod 10 in
  of_chars (sign_of v ++ format_whole (roundedTenths / 10)
              ++ (if remainder =? 0 then [] else decimal ++ chars (Z_to_string remainder)) ++ suffix).

Definition abbreviateTokenAmount (v : Z) : string :=
  if 1000000000 * TOKEN_SCALE <=? Z.abs v then abbreviate_with 1000000000 ["B"%char] v
  else if 1000000 * TOKEN_SCALE <=? Z.abs v then abbreviate_with 1000000 ["M"%char] v
  else if 1000 * TOKEN_SCALE <=? Z.abs v then abbreviate_with 1000 ["K"%char] v
  else formatTokenAmount v.
End locale.

(** ** The number formats of the claims

    Documented behaviour of [Intl.NumberFormat] in the locales with a point or
    a comma as decimal mark, groups of three, and as group mark the other of
    the two or a Unicode space. *)
Fixpoint join (sep : list ascii) (pieces : list (list ascii)) : list ascii :=
  match pieces with
  | [] => []
  | [p] => p
  | p :: ps => p ++ sep ++ join sep ps
  end.
Definition grouped (pieces : list (list ascii)) : bool :=
  match pieces with
  | [] => false
  | [p] => true
  | p :: ps => first_group p && forallb next_group ps
  end.

Class WesternFormat `{NumberFormat} : Prop := {
  decimal_mark : decimal = ["."%char] ∨ decimal = [","%char];
  group_mark : group = alternate ∨ ∀ l, units (group ++ l) = (true, group) :: units l;
  whole_groups n : 0 <= n → ∃ pieces, format_whole n = join group pieces ∧
    concat pieces = chars (Z_to_string n) ∧ grouped pieces = true }.

(** ** Lemmas: whitespace *)

Definition compact_of (l : list ascii) : list ascii := text_of (strip_units (units l)).

Lemma compact_plain l r : forallb plain l = true → compact_of (l ++ r) = l ++ compact_of r.
Proof.
  unfold compact_of. induction l as [|c l IH]; [done|]. cbn [forallb app].
  intros [Hc Hl]%andb_true_iff. rewrite units_plain by done.
  unfold strip_units. rewrite filter_cons_True by done. fold (strip_units (units (l ++ r))).
  cbn. f_equal. by apply IH.
Qed.

Lemma strip_reverse us : strip_units (reverse us) = reverse (strip_units us).
Proof.
  induction us as [|u us IH]; [done|]. rewrite reverse_cons. unfold strip_units in *.
  rewrite filter_app, IH. rewrite !filter_cons, filter_nil.
  case_decide; [by rewrite reverse_cons|by rewrite app_nil_r].
Qed.
Lemma strip_drop_while us : strip_units (drop_while fst us) = strip_units us.
Proof.
  induction us as [|[[] w] us IH]; [done| |done]. cbn [drop_while fst]. rewrite IH.
  unfold strip_units. by rewrite filter_cons_False.
Qed.
Lemma strip_trim us : strip_units (trim_units us) = strip_units us.
Proof.
  unfold trim_units. rewrite strip_reverse, strip_drop_while, strip_reverse, strip_drop_while.
  apply reverse_involutive.
Qed.

Lemma elem_of_drop_while {A} (p : A → bool) x l : x ∈ drop_while p l → x ∈ l.
Proof. induction l as [|y l IH]; [done|]. simpl. case_match; [right; auto|done]. Qed.
Lemma elem_of_trim c us : c ∈ text_of (trim_units us) → c ∈ text_of us.
Proof.
  unfold text_of. rewrite !list_elem_of_bind. intros (w & Hc & Hw). exists w. split; [done|].
  apply list_elem_of_fmap in Hw as (u & -> & Hu). apply list_elem_of_fmap_2.
  unfold trim_units in Hu. rewrite elem_of_reverse in Hu. apply elem_of_drop_while in Hu.
  rewrite elem_of_reverse in Hu. by apply elem_of_drop_while in Hu.
Qed.

(** A text without a minus sign is parsed as its non-blank characters. *)
Lemma parseParts_compact `{NumberFormat} l :
  "-"%char ∉ l → forallb amount_char (compact_of l) = true → compact_of l ≠ [] →
  parseParts l = match split_amount (compact_of l) with
                 | None => makeResult None (Some format)
                 | Some (integer, fraction) => scale_amount integer fraction
                 end.
Proof.
  intros Hm Ha Hne. unfold parseParts. rewrite strip_trim. change (text_of (strip_units (units l))) with (compact_of l).
  rewrite Ha, (bool_decide_eq_true_2 (compact_of l ≠ [])) by done.
  rewrite bool_decide_eq_false_2.
  - rewrite bool_decide_eq_false_2; [done|]. intros Hc%elem_of_trim. by rewrite text_of_units in Hc.
  - intros Ht. apply Hne. unfold compact_of. by rewrite <-strip_trim, Ht.
Qed.

(** ** Lemmas: splitting *)

Lemma split_cons_no c s l :
  split l (c :: s) = [l] → ∀ d, d ≠ c → split (d :: l) (c :: s) = [d :: l].
Proof.
  unfold split. intros Hl d Hd. cbn [split_sep].
  rewrite bool_decide_eq_false_2 by (intros Hp; apply prefix_cons_inv_1 in Hp; congruence).
  by rewrite Hl.
Qed.
Lemma split_absent c s l : c ∉ l → split l (c :: s) = [l].
Proof.
  induction l as [|d l IH]; [done|]. rewrite not_elem_of_cons. intros [Hd Hl].
  apply split_cons_no; auto.
Qed.
Lemma split_at c x y : c ∉ x → split (x ++ c :: y) [c] = x :: split y [c].
Proof.
  unfold split. induction x as [|d x IH]; cbn [app split_sep].
  - intros _. rewrite bool_decide_eq_true_2 by (apply prefix_cons, prefix_nil). done.
  - rewrite not_elem_of_cons. intros [Hd Hx].
    rewrite bool_decide_eq_false_2 by (intros Hp; apply prefix_cons_inv_1 in Hp; congruence).
    by rewrite IH.
Qed.
Lemma split_join c pieces :
  pieces ≠ [] → Forall (λ p, c ∉ p) pieces → split (join [c] pieces) [c] = pieces.
Proof.
  intros Hne Hall. induction Hall as [|p ps Hp _ IH]; [done|]. destruct ps as [|q ps].
  - by apply split_absent.
  - change (join [c] (p :: q :: ps)) with (p ++ c :: join [c] (q :: ps)).
    by rewrite split_at, IH.
Qed.

Lemma count_absent c s l : c ∉ l → count l (c :: s) = 0.
Proof. intros. unfold count. by rewrite split_absent. Qed.
Lemma strip_absent c s l : c ∉ l → stripGrouping l (c :: s) = l.
Proof. intros. unfold stripGrouping. rewrite split_absent by done. simpl. by rewrite app_nil_r. Qed.

Lemma digit_not_mark c l : forallb is_digit l = true → is_digit c = false → c ∉ l.
Proof.
  intros Hl Hc Hin. rewrite forallb_forall in Hl. apply list_elem_of_In, Hl in Hin. congruence.
Qed.

(** ** Lemmas: the integer and fraction of formatted text *)

(** The text [w] is the digits [ds], with or without valid grouping. *)
Definition groups_of `{NumberFormat} (w ds : list ascii) : Prop :=
  stripGrouping w group = ds ∧
  ((w = ds ∧ count w group = 0) ∨ (isValidGrouping w group = true ∧ 0 < count w group)).

Lemma split_amount_groups `{NumberFormat} d a g gs w ds f :
  decimal = [d] → alternate = [a] → group = g :: gs →
  is_digit d = false → is_digit a = false → is_digit g = false →
  forallb is_digit ds = true → forallb is_digit f = true →
  d ∉ w → groups_of w ds →
  split_amount (w ++ format_fraction f) = Some (ds, f).
Proof.
  intros Hd Ha Hg Hdd Hda Hdg Hds Hf Hdw [Hs Hgr].
  pose proof (digit_not_mark d f Hf Hdd) as Hdf. pose proof (digit_not_mark a ds Hds Hda) as Haw.
  pose proof (digit_not_mark g ds Hds Hdg) as Hgw.
  unfold split_amount, format_fraction. destruct (decide (f = [])) as [->|Hne].
  - rewrite bool_decide_eq_true_2, (right_id_L [] (++)), Hd, count_absent by done. simpl.
    assert ((if 0 <? count w group then if isValidGrouping w group
              then Some (stripGrouping w group, []) else
                if (count w group =? 1) && ((if decide (alternate = group) then 0 else count w alternate) =? 0)
                then Some (part 0 (split w group), part 1 (split w group)) else None
             else Some (w, [])) = Some (ds, [])) as ->.
    { destruct Hgr as [[-> ->]|[-> Hc]]; [done|]. rewrite (proj2 (Z.ltb_lt 0 _)) by done. by rewrite Hs. }
    simpl. rewrite Ha, (count_absent a [] ds) by done.
    simpl. by rewrite Hg, count_absent.
  - rewrite bool_decide_eq_false_2, Hd by done. unfold count at 1.
    assert (split (w ++ [d] ++ f) [d] = [w; f]) as Hsp by (simpl; by rewrite split_at, split_absent).
    rewrite Hsp. simpl. unfold part. simpl. rewrite Hs.
    destruct Hgr as [[-> ->]|[-> _]]; [done|]. by rewrite andb_false_r.
Qed.

Lemma forallb_concat {A} (p : A → bool) ls :
  forallb p (concat ls) = true ↔ Forall (λ l, forallb p l = true) ls.
Proof.
  induction ls as [|l ls IH]; simpl; [done|].
  by rewrite forallb_app, andb_true_iff, Forall_cons, IH.
Qed.

Lemma groups_of_join `{NumberFormat} c pieces :
  group = [c] → is_digit c = false → forallb is_digit (concat pieces) = true → grouped pieces = true →
  groups_of (join [c] pieces) (concat pieces).
Proof.
  intros Hg Hc Hds Hgr. apply forallb_concat in Hds.
  assert (pieces ≠ []) as Hne by (by destruct pieces).
  assert (split (join [c] pieces) [c] = pieces) as Hsp.
  { apply split_join; [done|]. eapply Forall_impl; [done|]. intros p Hp. by eapply digit_not_mark. }
  unfold groups_of, stripGrouping, count, isValidGrouping, count. rewrite Hg, Hsp. split.
  - clear. induction pieces as [|p ps IH]; [done|]. simpl. by rewrite <-IH.
  - destruct pieces as [|p [|q ps]]; [done|left|right].
    + split; [simpl; by rewrite (right_id_L [] (++))|done].
    + split; [|simpl length; lia]. case_match; [done|]. exact Hgr.
Qed.

Lemma groups_of_blank `{NumberFormat} g gs ds :
  group = g :: gs → is_digit g = false → forallb is_digit ds = true → groups_of ds ds.
Proof.
  intros Hg Hd Hds. pose proof (digit_not_mark g ds Hds Hd). unfold groups_of.
  rewrite Hg, strip_absent, count_absent by done. auto.
Qed.

Lemma digits_plain l : forallb is_digit l = true → forallb plain l = true.
Proof.
  rewrite !forallb_forall. intros Hl x Hx. specialize (Hl x Hx).
  unfold is_digit, in_range, plain, in_range in *. lia.
Qed.
Lemma digits_amount l : forallb is_digit l = true → forallb amount_char l = true.
Proof.
  rewrite !forallb_forall. intros Hl x Hx. unfold amount_char. by rewrite (Hl x Hx).
Qed.

(** Blank group marks disappear from the compact text. *)
Lemma compact_join_blank `{NumberFormat} pieces r :
  (∀ l, units (group ++ l) = (true, group) :: units l) →
  forallb is_digit (concat pieces) = true →
  compact_of (join group pieces ++ r) = concat pieces ++ compact_of r.
Proof.
  intros Hg Hds. apply forallb_concat in Hds. induction Hds as [|p ps Hp _ IH]; [done|].
  destruct ps as [|q ps].
  - simpl. rewrite (right_id_L [] (++)). by apply compact_plain, digits_plain.
  - change (join group (p :: q :: ps)) with (p ++ group ++ join group (q :: ps)).
    change (concat (p :: q :: ps)) with (p ++ concat (q :: ps)).
    rewrite <-!(assoc_L (++)), compact_plain by (by apply digits_plain). f_equal.
    rewrite <-IH. unfold compact_of. by rewrite Hg.
Qed.

(** ** Lemmas: the scaled value *)

Lemma drop_while_zeros l :
  ∃ k, l = replicate k "0"%char ++ drop_while (λ c, bool_decide (c = "0"%char)) l.
Proof.
  induction l as [|c l [k IH]]; [by exists 0%nat|]. cbn [drop_while]. case_bool_decide as Hc.
  - exists (S k). subst c. simpl. by f_equal.
  - by exists 0%nat.
Qed.
Lemma strip_zeros_pad n l : length l = n → pad_end n (strip_zeros l) = l ∧ (length (strip_zeros l) ≤ n)%nat.
Proof.
  intros Hn. destruct (drop_while_zeros (reverse l)) as [k Hk]. unfold strip_zeros, pad_end.
  set (s := drop_while _ _) in *.
  assert (l = reverse s ++ replicate k "0"%char) as Hl.
  { rewrite <-(reverse_involutive l), Hk, reverse_app, reverse_replicate. done. }
  assert (n = length (reverse s) + k)%nat as Hlen by (by rewrite <-Hn, Hl at 1; rewrite length_app, length_replicate).
  split; [|lia]. replace (n - length (reverse s))%nat with k by lia. done.
Qed.
Lemma strip_zeros_digits l : forallb is_digit l = true → forallb is_digit (strip_zeros l) = true.
Proof.
  intros Hl. destruct (strip_zeros_pad (length l) l eq_refl) as [Hp _].
  rewrite <-Hp in Hl. unfold pad_end in Hl. rewrite forallb_app in Hl. by apply andb_true_iff in Hl as [].
Qed.

(** The fraction text of a value below the scale. *)
Lemma fraction_text n : 0 <= n < TOKEN_SCALE →
  let p := pad_start TOKEN_DECIMAL_PLACES (chars (Z_to_string n)) in
  length p = TOKEN_DECIMAL_PLACES ∧ forallb is_digit p = true ∧ digits_value 0 p = n.
Proof.
  intros Hn p. unfold TOKEN_SCALE in Hn. destruct (chars_Z_to_string n) as (Hd & Hv & _); [lia|].
  pose proof (Z_to_string_length n TOKEN_DECIMAL_PLACES) as Hl. unfold TOKEN_DECIMAL_PLACES in *.
  specialize (Hl ltac:(simpl; lia) ltac:(lia)). subst p. unfold pad_start. split_and!.
  - rewrite length_app, length_replicate. lia.
  - rewrite forallb_app, Hd. by generalize (7 - length (chars (Z_to_string n)))%nat; intros k; induction k.
  - rewrite digits_value_app. enough (∀ k, digits_value 0 (replicate k "0"%char) = 0) as -> by done.
    intros k. by induction k.
Qed.

Lemma scale_amount_value ds f :
  forallb is_digit ds = true → ds ≠ [] → forallb is_digit f = true →
  (length f ≤ TOKEN_DECIMAL_PLACES)%nat →
  let v := digits_value 0 (ds ++ pad_end TOKEN_DECIMAL_PLACES f) in
  v <= I128_MAX → scale_amount ds f = makeResult (Some v) None.
Proof.
  intros Hds Hne Hf Hl v Hv. unfold scale_amount. rewrite Hds, Hf. simpl.
  rewrite !(bool_decide_eq_false_2 (ds = [])) by done. simpl.
  rewrite bool_decide_eq_false_2 by lia. fold v. by rewrite (proj2 (Z.ltb_ge _ _)).
Qed.

Lemma scale_amount_sound i f :
  (∃ v, scale_amount i f = makeResult (Some v) None ∧ 0 <= v <= I128_MAX) ∨
  (∃ e, scale_amount i f = makeResult None (Some e)).
Proof.
  unfold scale_amount. destruct (forallb is_digit i) eqn:Hi; [|by right; eexists].
  destruct (forallb is_digit f) eqn:Hf; [cbn [negb orb]|by right; eexists].
  destruct (_ && _); [by right; eexists|]. destruct (bool_decide (_ < _)%nat); [by right; eexists|].
  set (ds := _ ++ _). destruct (Z.ltb_spec I128_MAX (digits_value 0 ds)); [by right; eexists|].
  left. eexists. split; [done|]. split; [|done]. apply digits_value_bounds. subst ds.
  unfold pad_end. rewrite !forallb_app, Hf.
  assert (∀ k, forallb is_digit (replicate k "0"%char) = true) as -> by (intros k; by induction k).
  case_bool_decide; [done|]. by rewrite Hi.
Qed.

Section western.
Context `{WesternFormat}.

Lemma marks : ∃ d a, decimal = [d] ∧ alternate = [a] ∧ d ≠ a ∧
  is_digit d = false ∧ is_digit a = false ∧ plain d = true ∧ plain a = true ∧
  amount_char d = true ∧ amount_char a = true ∧ d ≠ "-"%char ∧ a ≠ "-"%char.
Proof.
  unfold alternate. destruct decimal_mark as [Hd|Hd]; rewrite Hd.
  - by exists "."%char, ","%char.
  - by exists ","%char, "."%char.
Qed.

Lemma space3_dash a b c : space3 a b c = true → "-"%char ∉ [a; b; c].
Proof.
  intros Hs. rewrite !not_elem_of_cons. split_and!; [intros <-|intros <-|intros <-|apply not_elem_of_nil];
    unfold space3 in Hs; repeat case_match; try done.
Qed.
Lemma units_blank_dash l w us : units l = (true, w) :: us → "-"%char ∉ w.
Proof.
  destruct l as [|a [|b [|c l]]]; cbn [units]; [done|..].
  - destruct (is_space a) eqn:Ha; intros ?; simplify_eq.
    by intros [<-|[]%not_elem_of_nil]%elem_of_cons.
  - destruct (is_space a) eqn:Ha; [|destruct (space2 a b) eqn:H2]; intros ?; simplify_eq.
    + by intros [<-|[]%not_elem_of_nil]%elem_of_cons.
    + intros [<-|[<-|[]%not_elem_of_nil]%elem_of_cons]%elem_of_cons; [done|].
      unfold space2 in H2. rewrite andb_false_r in H2. done.
  - destruct (is_space a) eqn:Ha; [|destruct (space2 a b) eqn:H2; [|destruct (space3 a b c) eqn:H3]];
      intros ?; simplify_eq.
    + by intros [<-|[]%not_elem_of_nil]%elem_of_cons.
    + intros [<-|[<-|[]%not_elem_of_nil]%elem_of_cons]%elem_of_cons; [done|].
      unfold space2 in H2. rewrite andb_false_r in H2. done.
    + by apply space3_dash.
Qed.

Lemma group_blank_head : (∀ l, units (group ++ l) = (true, group) :: units l) →
  ∃ g gs, group = g :: gs ∧ plain g = false.
Proof.
  intros Hg. destruct group as [|g gs]; [by specialize (Hg [])|]. exists g, gs. split; [done|].
  destruct (plain g) eqn:Hp; [|done]. specialize (Hg []).
  rewrite <-app_comm_cons, units_plain in Hg by done. done.
Qed.
Lemma group_dash : (∀ l, units (group ++ l) = (true, group) :: units l) → "-"%char ∉ group.
Proof. intros Hg. specialize (Hg []). by eapply units_blank_dash. Qed.

Lemma dash_absent l : forallb is_digit l = true → "-"%char ∉ l.
Proof. intros Hl. by eapply digit_not_mark. Qed.

Lemma fraction_marks f : forallb is_digit f = true →
  "-"%char ∉ format_fraction f ∧ forallb plain (format_fraction f) = true ∧
  forallb amount_char (format_fraction f) = true.
Proof.
  intros Hf. unfold format_fraction. case_bool_decide; [by split_and!; [apply not_elem_of_nil|..]|].
  destruct marks as (d & a & -> & _ & _ & _ & _ & Hp & _ & Hc & _ & Hm & _).
  cbn [app forallb]. rewrite Hp, Hc, (digits_plain f), (digits_amount f) by done.
  split_and!; [|done..]. rewrite not_elem_of_cons. split; [done|by apply dash_absent].
Qed.

Lemma join_absent c sep pieces : c ∉ sep → is_digit c = false →
  forallb is_digit (concat pieces) = true → c ∉ join sep pieces.
Proof.
  intros Hs Hc Hds. apply forallb_concat in Hds. induction Hds as [|p ps Hp _ IH]; [apply not_elem_of_nil|].
  pose proof (digit_not_mark c p Hp Hc). destruct ps as [|q ps]; [done|].
  change (join sep (p :: q :: ps)) with (p ++ sep ++ join sep (q :: ps)).
  rewrite !elem_of_app. naive_solver.
Qed.

Lemma join_amount a pieces : amount_char a = true → forallb is_digit (concat pieces) = true →
  forallb amount_char (join [a] pieces) = true ∧ forallb plain (join [a] pieces) = true.
Proof.
  intros Ha Hds. apply forallb_concat in Hds.
  assert (plain a = true) as Hpa.
  { unfold amount_char in Ha. unfold is_digit, plain, in_range in *.
    repeat case_bool_decide; subst; simpl in *; try done. lia. }
  induction Hds as [|p ps Hp _ IH]; [done|]. destruct ps as [|q ps]; [split; [by apply digits_amount|by apply digits_plain]|].
  change (join [a] (p :: q :: ps)) with (p ++ a :: join [a] (q :: ps)).
  rewrite !forallb_app. cbn [forallb]. rewrite Ha, Hpa, (digits_amount p), (digits_plain p) by done. by destruct IH as [-> ->].
Qed.

(** The text of a whole number, without blanks. *)
Lemma whole_compact n r : 0 <= n → ∃ w, compact_of (format_whole n ++ r) = w ++ compact_of r ∧
  "-"%char ∉ format_whole n ∧ forallb amount_char w = true ∧
  groups_of w (chars (Z_to_string n)) ∧ (∀ d, decimal = [d] → d ∉ w) ∧ w ≠ [].
Proof.
  intros Hn. destruct (whole_groups n Hn) as (ps & Hw & Hc & Hg).
  destruct (chars_Z_to_string n Hn) as (Hds & _ & Hne). rewrite <-Hc in Hds, Hne |- *. rewrite Hw.
  destruct marks as (d & a & Hd & Ha & Hda & Hdd & Hdig & Hpd & Hpa & Hcd & Hca & Hmd & Hma).
  destruct group_mark as [Hgr|Hgr].
  - rewrite Ha in Hgr. exists (join [a] ps). rewrite Hgr.
    destruct (join_amount a ps Hca Hds) as [Hj1 Hj2].
    assert (Hab : ∀ c, c ≠ a → is_digit c = false → c ∉ join [a] ps).
    { intros c Hca' Hcd'. apply join_absent; [|done..].
      by intros [->|[]%not_elem_of_nil]%elem_of_cons. }
    split_and!; [by apply compact_plain|by apply Hab|done|by apply groups_of_join| |].
    + intros d' Hd'. rewrite Hd in Hd'. simplify_eq. by apply Hab.
    + intros Hj. apply Hne. destruct (groups_of_join a ps Hgr Hdig Hds Hg) as [Hs _].
      rewrite Hj in Hs. by rewrite <-Hs.
  - destruct (group_blank_head Hgr) as (g & gs & Hgg & Hpg).
    assert (is_digit g = false) as Hdg.
    { unfold is_digit, plain, in_range in *. lia. }
    exists (concat ps). split_and!; [by apply compact_join_blank| |by apply digits_amount
      |by eapply groups_of_blank| |done].
    + apply join_absent; [|done..]. apply (group_dash Hgr).
    + intros d' Hd'. rewrite Hd in Hd'. simplify_eq. by eapply digit_not_mark.
Qed.

Lemma group_head : ∃ g gs, group = g :: gs ∧ is_digit g = false.
Proof.
  destruct marks as (d & a & Hd & Ha & _ & _ & Hdig & _). destruct group_mark as [Hg|Hg].
  - exists a, []. by rewrite Hg, Ha.
  - destruct (group_blank_head Hg) as (g & gs & Hgg & Hpg). exists g, gs. split; [done|].
    unfold is_digit, plain, in_range in *. lia.
Qed.

(** The parser reads a formatted whole number with a fraction text. *)
Lemma parse_formatted n f : 0 <= n → forallb is_digit f = true →
  parseParts (format_whole n ++ format_fraction f) = scale_amount (chars (Z_to_string n)) f.
Proof.
  intros Hn Hf. destruct (whole_compact n (format_fraction f) Hn) as (w & Hw & Hdash & Hwa & Hgr & Hdw & Hne).
  destruct (fraction_marks f Hf) as (Hfd & Hfp & Hfa).
  assert (compact_of (format_whole n ++ format_fraction f) = w ++ format_fraction f) as Hc.
  { rewrite Hw. f_equal. pose proof (compact_plain (format_fraction f) [] Hfp) as Hp.
    change (compact_of []) with (@nil ascii) in Hp. by rewrite !(right_id_L [] (++)) in Hp. }
  rewrite parseParts_compact, Hc.
  - destruct marks as (d & a & Hd & Ha & _ & Hdd & Hda & _). destruct group_head as (g & gs & Hg & Hdg).
    destruct (chars_Z_to_string n Hn) as (Hds & _). by rewrite (split_amount_groups d a g gs w (chars (Z_to_string n)) f) by auto.
  - rewrite elem_of_app. naive_solver.
  - by rewrite Hc, forallb_app, Hwa, Hfa.
  - rewrite Hc. by destruct w.
Qed.

Lemma format_value v : 0 <= v → ∃ f,
  chars (formatTokenAmount v) = format_whole (v / TOKEN_SCALE) ++ format_fraction f ∧
  forallb is_digit f = true ∧ (length f ≤ TOKEN_DECIMAL_PLACES)%nat ∧
  digits_value 0 (pad_end TOKEN_DECIMAL_PLACES f) = v mod TOKEN_SCALE ∧
  length (pad_end TOKEN_DECIMAL_PLACES f) = TOKEN_DECIMAL_PLACES.
Proof.
  intros Hv. destruct (fraction_text (v mod TOKEN_SCALE)) as (Hl & Hd & Hval); [by apply Z.mod_pos_bound|].
  set (p := pad_start _ _) in *. destruct (strip_zeros_pad _ p Hl) as [Hp Hlen].
  exists (strip_zeros p). rewrite Hp. split_and!; [|by apply strip_zeros_digits|done..].
  unfold formatTokenAmount. rewrite chars_of_chars, Z.abs_eq by done. fold p.
  unfold sign_of. by rewrite (proj2 (Z.ltb_ge _ _)).
Qed.
End western.

(** ** Properties *)

(** C36. Formatting and parsing are inverse: in every locale with Western
    grouping, whose group mark may be a point, a comma or a Unicode space, the
    text shown for an amount in the i128 range is parsed back to exactly that
    amount, with no error. *)
Theorem parse_formatTokenAmount `{WesternFormat} v :
  0 <= v <= I128_MAX → parseTokenAmountResult (formatTokenAmount v) = makeResult (Some v) None.
Proof.
  intros [Hv0 Hv1]. destruct (format_value v Hv0) as (f & Hf & Hd & Hl & Hval & Hlen).
  unfold parseTokenAmountResult. rewrite Hf, parse_formatted by (done || by apply Z.div_pos).
  destruct (chars_Z_to_string (v / TOKEN_SCALE)) as (Hds & Hw & Hne); [by apply Z.div_pos|].
  assert (digits_value 0 (chars (Z_to_string (v / TOKEN_SCALE)) ++ pad_end TOKEN_DECIMAL_PLACES f) = v) as Hv.
  { rewrite digits_value_app, Hw, digits_value_acc, Hlen, Hval.
    change (10 ^ Z.of_nat TOKEN_DECIMAL_PLACES) with TOKEN_SCALE. pose proof (Z.div_mod v TOKEN_SCALE ltac:(done)). lia. }
  rewrite scale_amount_value; rewrite ?Hv; done.
Qed.

(** Whatever is typed, in whatever locale, an amount that is accepted lies
    between 0 and the i128 maximum and comes without an error, and a rejected
    text comes with an error and its message or is blank. *)
Theorem parseTokenAmountResult_sound `{NumberFormat} input :
  let r := parseTokenAmountResult input in
  message r = ERROR_MESSAGES <$> error r ∧
  match value r with
  | Some v => 0 <= v <= I128_MAX ∧ error r = None
  | None => error r ≠ None ∨ trim_units (units (chars input)) = []
  end.
Proof.
  intros r. subst r. unfold parseTokenAmountResult, parseParts.
  case_bool_decide; [simpl; auto|]. case_bool_decide; [simpl; auto|].
  case_match; [simpl; auto|]. destruct (split_amount _) as [[i f]|]; [|simpl; auto].
  destruct (scale_amount_sound i f) as [(v & -> & Hv)|(e & ->)]; simpl; auto.
Qed.

(** ** The formats of some locales *)

(** Groups of three, as the [en], [de] and [fr] locales write them: the digits
    from the right. *)
Fixpoint groups3 (fuel : nat) (rev_digits : list ascii) : list (list ascii) :=
  match fuel with
  | O => []
  | S fuel =>
      if bool_decide (length rev_digits ≤ 3)%nat then [reverse rev_digits]
      else groups3 fuel (drop 3 rev_digits) ++ [reverse (take 3 rev_digits)]
  end.
Definition group3 (sep : list ascii) (n : Z) : list ascii :=
  let ds := chars (Z_to_string n) in join sep (groups3 (length ds) (reverse ds)).

Definition en : NumberFormat :=
  {| decimal := ["."%char]; group := [","%char]; format_whole := group3 [","%char] |}.
Definition de : NumberFormat :=
  {| decimal := [","%char]; group := ["."%char]; format_whole := group3 ["."%char] |}.
(** U+202F, the narrow no-break space. *)
Definition nnbsp : list ascii := [chr 226; chr 128; chr 175].
Definition fr : NumberFormat :=
  {| decimal := [","%char]; group := nnbsp; format_whole := group3 nnbsp |}.

Lemma forallb_reverse {A} (p : A → bool) l : forallb p (reverse l) = forallb p l.
Proof.
  induction l as [|x l IH]; [done|]. rewrite reverse_cons, forallb_app, IH. simpl.
  rewrite andb_true_r. apply andb_comm.
Qed.

Lemma groups3_spec fuel l : (length l ≤ fuel)%nat → l ≠ [] → forallb is_digit l = true →
  ∃ p ps, groups3 fuel l = p :: ps ∧ concat (p :: ps) = reverse l ∧
    first_group p = true ∧ forallb next_group ps = true.
Proof.
  revert l. induction fuel as [|fuel IH]; intros l Hl Hne Hd; [destruct l; [done|simpl in Hl; lia]|]. cbn [groups3].
  case_bool_decide as Hlen.
  - exists (reverse l), []. simpl. rewrite (right_id_L [] (++)). split_and!; try done.
    unfold first_group. rewrite forallb_reverse, Hd, length_reverse. apply bool_decide_eq_true.
    destruct l; [done|]. simpl in *. lia.
  - rewrite <-(take_drop 3 l), forallb_app in Hd. apply andb_true_iff in Hd as [Ht Hd].
    destruct (IH (drop 3 l)) as (p & ps & Hg & Hc & Hf & Hn); [rewrite length_drop; lia| |done|].
    { intros He%(f_equal length). rewrite length_drop in He. simpl in He. lia. }
    exists p, (ps ++ [reverse (take 3 l)]). rewrite Hg. split_and!; [done| |done|].
    + rewrite app_comm_cons, concat_app, Hc. cbn. rewrite (right_id_L [] (++)), <-reverse_app.
      by rewrite take_drop.
    + rewrite forallb_app, Hn. simpl. unfold next_group. rewrite forallb_reverse, Ht, length_reverse.
      rewrite length_take, bool_decide_eq_true_2; [done|lia].
Qed.

Lemma group3_groups sep n : 0 <= n → ∃ pieces, group3 sep n = join sep pieces ∧
  concat pieces = chars (Z_to_string n) ∧ grouped pieces = true.
Proof.
  intros Hn. destruct (chars_Z_to_string n Hn) as (Hd & _ & Hne). unfold group3.
  set (ds := chars (Z_to_string n)) in *.
  destruct (groups3_spec (length ds) (reverse ds)) as (p & ps & Hg & Hc & Hf & Hnx).
  - by rewrite length_reverse.
  - intros He. apply Hne. by rewrite <-(reverse_involutive ds), He.
  - by rewrite forallb_reverse.
  - exists (p :: ps). rewrite Hg, Hc, reverse_involutive. split_and!; [done..|].
    unfold grouped. destruct ps; [done|]. by rewrite Hf, Hnx.
Qed.

#[local] Instance en_western : WesternFormat (H := en).
Proof. split; [by left|by left|apply group3_groups]. Qed.
#[local] Instance de_western : WesternFormat (H := de).
Proof. split; [by right|by left|apply group3_groups]. Qed.
#[local] Instance fr_western : WesternFormat (H := fr).
Proof. split; [by right|by right|apply group3_groups]. Qed.

Lemma parse_formatTokenAmount_witness :
  parseTokenAmountResult (H := fr) (formatTokenAmount (H := fr) 12345678912345000)
  = makeResult (Some 12345678912345000) None.
Proof. apply (parse_formatTokenAmount (H := fr)). unfold I128_MAX. lia. Defined.

(** Three digits after a lone group mark are a group, even after a zero: with
    [en] separators one more digit changes the amount by a factor of a
    thousand. *)
Example comma_fraction : parseTokenAmount (H := en) "0,12" = Some 1200000.
Proof. vm_compute. reflexivity. Qed.
Example comma_group : parseTokenAmount (H := en) "0,125" = Some 1250000000.
Proof. vm_compute. reflexivity. Qed.

(** Rounding to a tenth of a unit can leave the unit's range. *)
Example thousand_thousands : abbreviateTokenAmount (H := en) 9999999900000 = "1,000K".
Proof. vm_compute. reflexivity. Qed.
