(* ===== verification/JobQueue.v ===== *)
(** * The asynchronous job queue and its worker

    [backend/src/jobs/jobQueue.ts] and [backend/src/workers/jobWorker.ts]: the
    Redis record and list of a job, and the worker loop as a machine that stops
    at every [await], so that several loops and enqueuing requests interleave.
    A Redis command that fails has no effect.  [crypto.randomUUID] never
    returns an id twice. *)
From S2P Require Import Prelude.
#[local] Open Scope Z_scope.

(** ** Jobs *)

Definition JOB_TYPES : list string :=
  ["backfill_ledger_range"; "bulk_webhook_retry"; "export_stream_report"; "db_vacuum"].

Inductive JobStatus := pending | running | completed | failed.
#[global] Instance JobStatus_eq_dec : EqDecision JobStatus.
Proof. solve_decision. Defined.

(** The result objects of the handlers: [{ message, payload }]. *)
Record job_result (J : Type) := JobResult { jr_message : string; jr_payload : J }.
Arguments JobResult {J} _ _.
Arguments jr_message {J} _.
Arguments jr_payload {J} _.

Record Job (J : Type) := Job_ {
  job_id : string;
  type : string;
  payload : J;
  job_status : JobStatus;
  createdAt : Z;
  updatedAt : Z;
  job_res : option (job_result J);
  job_error : option string }.
Arguments Job_ {J} _ _ _ _ _ _ _ _.
Arguments job_id {J} _.
Arguments type {J} _.
Arguments payload {J} _.
Arguments job_status {J} _.
Arguments createdAt {J} _.
Arguments updatedAt {J} _.
Arguments job_res {J} _.
Arguments job_error {J} _.

Definition JOB_TTL_SECONDS : Z := 604800.
Definition jobKey (id : string) : string := "job:" +:+ id.

Definition isValidJobType (value : string) : bool := bool_decide (value ∈ JOB_TYPES).

(** A record of the store: a job, or text that is not JSON, and the time it
    expires at, in seconds. *)
Inductive entry (J : Type) := Stored (job : Job J) | Malformed.
Arguments Stored {J} _.
Arguments Malformed {J}.
Notation job_store J := (gmap string (entry J * Z)).

Section queue.
Context {J : Type}.

Definition set_job (now : Z) (id : string) (job : Job J) : job_store J → job_store J :=
  <[jobKey id := (Stored job, now + JOB_TTL_SECONDS)]>.

Definition getJob (now : Z) (id : string) (s : job_store J) : option (Job J) :=
  match s !! jobKey id with
  | Some (Stored job, expires) => if now <? expires then Some job else None
  | _ => None
  end.

(** The record [enqueueJob] stores, before it pushes the id. *)
Definition new_job (now : Z) (id ty : string) (p : J) : Job J :=
  Job_ id ty p pending now now None None.

(** The record [updateJobStatus] writes over [existing]. *)
Definition updated_job (now : Z) (st : JobStatus) (res : option (job_result J)) (err : option string)
    (existing : Job J) : Job J :=
  Job_ (job_id existing) (type existing) (payload existing) st (createdAt existing) now
    (match res with Some _ => res | None => job_res existing end)
    (match err with Some _ => err | None => job_error existing end).

(** [processJob] with its four handlers. *)
Definition processJob (job : Job J) : result string (job_result J) :=
  let stub name := Ok (JobResult (name +:+ " stub complete") (payload job)) in
  if bool_decide (type job = "backfill_ledger_range") then stub "backfill_ledger_range"
  else if bool_decide (type job = "bulk_webhook_retry") then stub "bulk_webhook_retry"
  else if bool_decide (type job = "export_stream_report") then stub "export_stream_report"
  else if bool_decide (type job = "db_vacuum") then stub "db_vacuum"
  else Err ("[job-worker] unknown job type: " +:+ type job).

(** ** The worker loop *)

(** Where a loop waits.  In [WStart], [WFinish] and [WAbort] it is inside
    [updateJobStatus]: before the [GET] with [None], and before the [SET] with
    the record it read. *)
Inductive phase :=
| WIdle
| WPopped (id : string)
| WStart (id : string) (job : Job J) (existing : option (Job J))
| WRun (id : string) (job : Job J)
| WFinish (id : string) (outcome : result string (job_result J)) (existing : option (Job J))
| WAbort (id message : string) (existing : option (Job J))
| WPause
| WStopped.

Record world := World {
  clock : Z;
  store : job_store J;
  job_queue : list string;
  unpushed : gset string;
  issued : gset string;
  loop_running : bool;
  loops : gmap nat phase }.

Definition with_store f w := World (clock w) (f (store w)) (job_queue w) (unpushed w) (issued w) (loop_running w) (loops w).
Definition with_queue f w := World (clock w) (store w) (f (job_queue w)) (unpushed w) (issued w) (loop_running w) (loops w).
Definition with_unpushed f w := World (clock w) (store w) (job_queue w) (f (unpushed w)) (issued w) (loop_running w) (loops w).
Definition with_issued f w := World (clock w) (store w) (job_queue w) (unpushed w) (f (issued w)) (loop_running w) (loops w).
Definition with_clock t w := World t (store w) (job_queue w) (unpushed w) (issued w) (loop_running w) (loops w).
Definition with_running b w := World (clock w) (store w) (job_queue w) (unpushed w) (issued w) b (loops w).
Definition with_loops f w := World (clock w) (store w) (job_queue w) (unpushed w) (issued w) (loop_running w) (f (loops w)).

Definition init_world : world := World 0 ∅ [] ∅ ∅ false ∅.

Definition at_phase (i : nat) (p : phase) : world → world := with_loops <[i := p]>.

(** The loop condition [while (running)]. *)
Definition next_round (w : world) : phase := if loop_running w then WIdle else WStopped.

(** [updateJobStatus] of the three places that call it. *)
Definition finish_job (now : Z) (outcome : result string (job_result J)) (existing : Job J) : Job J :=
  match outcome with
  | Ok res => updated_job now completed (Some res) None existing
  | Err e => updated_job now failed None (Some e) existing
  end.

(** The resumption of a loop that waits in [p], its command succeeding: the
    phase it waits in next, and what the command does to the world. *)
Definition resume (p : phase) (w : world) : option (phase * world) :=
  let now := clock w in
  match p with
  | WIdle =>
      match last (job_queue w) with
      | Some id => Some (WPopped id, with_queue (λ q, take (pred (length q)) q) w)
      | None => Some (next_round w, w)
      end
  | WPopped id =>
      match getJob now id (store w) with
      | Some job => Some (WStart id job None, w)
      | None => Some (next_round w, w)
      end
  | WStart id job None =>
      match getJob now id (store w) with
      | Some existing => Some (WStart id job (Some existing), w)
      | None => Some (WRun id job, w)
      end
  | WStart id job (Some existing) =>
      Some (WRun id job, with_store (set_job now id (updated_job now running None None existing)) w)
  | WRun id job => Some (WFinish id (processJob job) None, w)
  | WFinish id outcome None =>
      match getJob now id (store w) with
      | Some existing => Some (WFinish id outcome (Some existing), w)
      | None => Some (next_round w, w)
      end
  | WFinish id outcome (Some existing) =>
      Some (next_round w, with_store (set_job now id (finish_job now outcome existing)) w)
  | WAbort id message None =>
      match getJob now id (store w) with
      | Some existing => Some (WAbort id message (Some existing), w)
      | None => Some (WPause, w)
      end
  | WAbort id message (Some existing) =>
      Some (WPause, with_store (set_job now id (finish_job now (Err message) existing)) w)
  | WPause => Some (next_round w, w)
  | WStopped => None
  end.
Definition resume_loop (i : nat) (w : world) : option world :=
  p ← loops w !! i; '(p', w') ← resume p w; Some (at_phase i p' w').

(** The command loop [i] waits for throws [e]. *)
Definition throws (e : string) (p : phase) : option phase :=
  match p with
  | WIdle => Some WPause
  | WPopped id | WStart id _ _ | WFinish id (Err _) _ => Some (WAbort id e None)
  | WFinish id (Ok _) _ => Some (WFinish id (Err e) None)
  | WAbort _ _ _ => Some WPause
  | WRun _ _ | WPause | WStopped => None
  end.

Definition startJobWorker (w : world) : world :=
  if loop_running w then w else at_phase (fresh (dom (loops w))) WIdle (with_running true w).
Definition stopJobWorker : world → world := with_running false.
Definition isJobWorkerRunning : world → bool := loop_running.

(** [enqueueJob]: the [SET], and later the [LPUSH]. *)
Definition enqueue_set (id ty : string) (p : J) (w : world) : world :=
  with_store (set_job (clock w) id (new_job (clock w) id ty p))
    (with_unpushed (λ u, {[id]} ∪ u) (with_issued (λ u, {[id]} ∪ u) w)).
Definition enqueue_push (id : string) (w : world) : world :=
  with_queue (cons id) (with_unpushed (λ u, u ∖ {[id]}) w).

Inductive step : world → world → Prop :=
| StepTick t w : clock w <= t → step w (with_clock t w)
| StepEnqueueSet id ty p w : id ∉ issued w → step w (enqueue_set id ty p w)
| StepEnqueuePush id w : id ∈ unpushed w → step w (enqueue_push id w)
| StepResume i p p' w w' :
    loops w !! i = Some p → resume p w = Some (p', w') → step w (at_phase i p' w')
| StepThrow e i p p' w : loops w !! i = Some p → throws e p = Some p' → step w (at_phase i p' w)
| StepStart w : step w (startJobWorker w)
| StepStop w : step w (stopJobWorker w).

(** ** Where a job is *)

Definition held (p : phase) : option string :=
  match p with
  | WPopped id | WStart id _ _ | WRun id _ | WFinish id _ _ | WAbort id _ _ => Some id
  | WIdle | WPause | WStopped => None
  end.
Definition holds (w : world) (i : nat) (id : string) : Prop :=
  ∃ p, loops w !! i = Some p ∧ held p = Some id.

(** The statuses a job may have while a loop works on it. *)
Definition status_in (p : phase) (st : JobStatus) : Prop :=
  match p with
  | WPopped _ | WStart _ _ _ => st = pending
  | WRun _ _ | WFinish _ _ _ => st = running
  | WAbort _ _ _ => st = pending ∨ st = running
  | WIdle | WPause | WStopped => True
  end.
Definition final (st : JobStatus) : bool := bool_decide (st = completed ∨ st = failed).

Record jobs_ok (w : world) : Prop := JobsOk {
  jo_queue : NoDup (job_queue w);
  jo_one : ∀ i j id, holds w i id → holds w j id → i = j;
  jo_held : ∀ i id, holds w i id → id ∉ job_queue w ∧ id ∉ unpushed w ∧ id ∈ issued w;
  jo_unpushed : ∀ id, id ∈ unpushed w → id ∉ job_queue w ∧ id ∈ issued w;
  jo_issued : ∀ id, id ∈ job_queue w → id ∈ issued w;
  jo_known : ∀ id job, getJob (clock w) id (store w) = Some job → id ∈ issued w;
  jo_waiting : ∀ id job, getJob (clock w) id (store w) = Some job →
    id ∈ job_queue w ∨ id ∈ unpushed w → job_status job = pending;
  jo_working : ∀ i p id job, loops w !! i = Some p → held p = Some id →
    getJob (clock w) id (store w) = Some job → status_in p (job_status job) }.

(** A job that left the queue and is no longer worked on. *)
Definition settled (id : string) (w : world) : Prop :=
  id ∈ issued w ∧ id ∉ job_queue w ∧ id ∉ unpushed w ∧ ∀ i, ¬ holds w i id.

(** ** Lemmas *)

#[global] Instance jobKey_inj : Inj (=) (=) jobKey.
Proof. intros x y H. by simplify_eq/=. Qed.

Lemma getJob_set now now' id id' job s :
  getJob now id (set_job now' id' job s)
  = if decide (id = id') then (if now <? now' + JOB_TTL_SECONDS then Some job else None)
    else getJob now id s.
Proof.
  unfold getJob, set_job. destruct (decide (id = id')) as [->|Hne].
  - by rewrite lookup_insert_eq.
  - rewrite lookup_insert_ne; [done|]. by intros ?%(inj jobKey).
Qed.

Lemma getJob_later now now' id s job : now <= now' →
  getJob now' id s = Some job → getJob now id s = Some job.
Proof.
  intros Hle. unfold getJob. destruct (s !! jobKey id) as [[[j|] e]|]; [|done..].
  destruct (Z.ltb_spec now' e); [|done]. by rewrite (proj2 (Z.ltb_lt now e)) by lia.
Qed.

Lemma holds_at_phase i p w j id :
  holds (at_phase i p w) j id ↔ if decide (j = i) then held p = Some id else holds w j id.
Proof.
  unfold holds, at_phase. simpl. destruct (decide (j = i)) as [->|Hne].
  - rewrite lookup_insert_eq. naive_solver.
  - by rewrite lookup_insert_ne.
Qed.
Lemma holds_loop w i p id : loops w !! i = Some p → holds w i id ↔ held p = Some id.
Proof. intros Hp. unfold holds. rewrite Hp. naive_solver. Qed.

(** A loop that holds [id] goes on to hold it or lets it go, and only the
    record of [id] changes. *)
Lemma jobs_ok_move i p p' id s' w :
  loops w !! i = Some p → held p = Some id → (held p' = Some id ∨ held p' = None) →
  (∀ id', id' ≠ id → getJob (clock w) id' s' = getJob (clock w) id' (store w)) →
  (∀ job, held p' = Some id → getJob (clock w) id s' = Some job → status_in p' (job_status job)) →
  jobs_ok w → jobs_ok (at_phase i p' (with_store (λ _, s') w)).
Proof.
  intros Hp Hh Hh' Hs Hst [Hq H1 Hhd Hu Hi Hkn Hw Hwk].
  assert (Hold : ∀ j id', holds (at_phase i p' (with_store (λ _, s') w)) j id' → holds w j id').
  { intros j id'. rewrite holds_at_phase. case_decide as Hj; [subst j|done].
    intros ?. rewrite (holds_loop w i p) by done. destruct Hh'; congruence. }
  destruct (Hhd i id) as (Hnq & Hnu & Hiss); [by rewrite (holds_loop w i p)|].
  split; cbn [at_phase with_loops with_store clock store job_queue unpushed issued loops]; try done.
  - eauto.
  - intros j id' Hj. by apply (Hhd j), Hold.
  - intros id' job Hg. destruct (decide (id' = id)) as [->|Hne]; [done|].
    apply (Hkn id' job). by rewrite <-Hs.
  - intros id' job Hg Hin. apply (Hw id'); [|done]. rewrite <-Hs; [done|]. intros ->. tauto.
  - intros j q id' job Hj Hq' Hg. destruct (decide (j = i)) as [->|Hne].
    + rewrite lookup_insert_eq in Hj. simplify_eq. destruct Hh' as [Hh'|Hh']; [|congruence].
      assert (id' = id) as -> by congruence. eauto.
    + rewrite lookup_insert_ne in Hj by done. eapply Hwk; [done..|]. rewrite <-Hs; [done|].
      intros ->. apply Hne, (H1 j i id); [by exists q|by exists p].
Qed.

Lemma jobs_ok_free i p p' w :
  loops w !! i = Some p → held p' = None → jobs_ok w → jobs_ok (at_phase i p' w).
Proof.
  intros Hp Hh' Hok. destruct (held p) as [id|] eqn:Hh.
  - apply (jobs_ok_move i p p' id (store w) w); naive_solver.
  - destruct Hok as [Hq H1 Hhd Hu Hi Hkn Hw Hwk].
    assert (Hold : ∀ j id, holds (at_phase i p' w) j id → holds w j id).
    { intros j id. rewrite holds_at_phase. case_decide as Hj; [subst j; congruence|done]. }
    split; try done; [by eauto|by eauto|].
    intros j q id job Hj Hq' Hg. simpl in *. destruct (decide (j = i)) as [->|Hne].
    + rewrite lookup_insert_eq in Hj. congruence.
    + rewrite lookup_insert_ne in Hj by done. eauto.
Qed.

Lemma jobs_ok_new_loop i w : loops w !! i = None → jobs_ok w → jobs_ok (at_phase i WIdle w).
Proof.
  intros Hi [Hq H1 Hhd Hu His Hkn Hw Hwk].
  assert (Hold : ∀ j id, holds (at_phase i WIdle w) j id → holds w j id).
  { intros j id. rewrite holds_at_phase. by case_decide. }
  split; try done; [by eauto|by eauto|].
  intros j q id job Hj Hq' Hg. simpl in *. destruct (decide (j = i)) as [->|Hne].
  - by rewrite lookup_insert_eq in Hj; simplify_eq.
  - rewrite lookup_insert_ne in Hj by done. eauto.
Qed.

Lemma jobs_ok_pop i p id w :
  loops w !! i = Some p → held p = None → last (job_queue w) = Some id → jobs_ok w →
  jobs_ok (at_phase i (WPopped id) (with_queue (λ q, take (pred (length q)) q) w)).
Proof.
  intros Hp Hh Hl [Hq H1 Hhd Hu His Hkn Hw Hwk].
  apply last_Some in Hl as [q Hl]. rewrite Hl in *.
  apply NoDup_app in Hq as (Hq & Hnin & _).
  assert (id ∉ q) as Hidq by (intros Hin; by apply (Hnin id Hin), list_elem_of_singleton).
  assert (id ∈ q ++ [id]) as Hidw by set_solver.
  assert (take (pred (length (q ++ [id]))) (q ++ [id]) = q) as Htake.
  { rewrite length_app, Nat.add_1_r. by apply take_app_length. }
  assert (Hnh : ∀ j, ¬ holds w j id) by (intros j Hj; by destruct (Hhd j id Hj)).
  split; cbn [at_phase with_loops with_queue clock store job_queue unpushed issued loops]; rewrite ?Hl, ?Htake.
  - done.
  - intros j k id'. rewrite !holds_at_phase. repeat case_decide; subst; simpl; intros; simplify_eq; eauto;
      exfalso; by eapply Hnh.
  - intros j id'. rewrite holds_at_phase. case_decide; simpl.
    + intros [= <-]. split_and!; [done| |by apply His]. intros Hin. by destruct (Hu id Hin).
    + intros Hj. destruct (Hhd j id' Hj) as (? & ? & ?). set_solver.
  - intros id' Hin. destruct (Hu id' Hin). set_solver.
  - intros id' Hin. apply His. set_solver.
  - done.
  - intros id' job Hg Hin. apply (Hw id'); [done|]. set_solver.
  - intros j p' id' job Hj Hh' Hg. destruct (decide (j = i)) as [->|Hne].
    + rewrite lookup_insert_eq in Hj. simplify_eq/=. apply (Hw id'); [done|]. by left.
    + rewrite lookup_insert_ne in Hj by done. eauto.
Qed.

Lemma resume_ok i p p' w w' :
  loops w !! i = Some p → resume p w = Some (p', w') → jobs_ok w → jobs_ok (at_phase i p' w').
Proof.
  intros Hp Hr Hok.
  assert (Hstay : ∀ id, held p = Some id → held p' = Some id → w' = w →
    (∀ st, status_in p st → status_in p' st) → jobs_ok (at_phase i p' w')).
  { intros id Hh Hh' -> Himp. apply (jobs_ok_move i p p' id (store w) w); try done; [by left|].
    intros job _ Hg. apply Himp. by eapply (jo_working w Hok). }
  assert (Hset : ∀ id job, held p = Some id → (held p' = Some id ∨ held p' = None) →
    w' = with_store (set_job (clock w) id job) w → status_in p' (job_status job) →
    jobs_ok (at_phase i p' w')).
  { intros id job Hh Hh' -> Hst.
    apply (jobs_ok_move i p p' id (set_job (clock w) id job (store w)) w); try done.
    - intros id' Hne. rewrite getJob_set. by case_decide.
    - intros job' _ Hg. rewrite getJob_set, decide_True in Hg by done. by case_match; simplify_eq. }
  assert (Hround : held (next_round w) = None) by (unfold next_round; by case_match).
  destruct p as [|id|id job [ex|]|id job|id o [ex|]|id msg [ex|]| |]; cbn in Hr.
  - destruct (last (job_queue w)) eqn:Hl; simplify_eq; [by eapply jobs_ok_pop|by eapply jobs_ok_free].
  - case_match; simplify_eq; [by eapply Hstay|by eapply jobs_ok_free].
  - simplify_eq. eapply Hset; try done. by left.
  - case_match eqn:Hg; simplify_eq; [by eapply Hstay|].
    apply (jobs_ok_move i (WStart id job None) (WRun id job) id (store w') w'); try done; [by left|].
    intros job' _ Hg'. congruence.
  - simplify_eq. by eapply Hstay.
  - simplify_eq. eapply Hset; try done; [by right|]. unfold next_round. by case_match.
  - case_match; simplify_eq; [by eapply Hstay|by eapply jobs_ok_free].
  - simplify_eq. eapply Hset; try done. by right.
  - case_match; simplify_eq; [by eapply Hstay|by eapply jobs_ok_free].
  - simplify_eq. by eapply jobs_ok_free.
  - done.
Qed.

Lemma throws_ok e i p p' w :
  loops w !! i = Some p → throws e p = Some p' → jobs_ok w → jobs_ok (at_phase i p' w).
Proof.
  intros Hp Ht Hok.
  assert (Hstay : ∀ id, held p = Some id → held p' = Some id →
    (∀ st, status_in p st → status_in p' st) → jobs_ok (at_phase i p' w)).
  { intros id Hh Hh' Himp. apply (jobs_ok_move i p p' id (store w) w); try done; [by left|].
    intros job _ Hg. apply Himp. by eapply (jo_working w Hok). }
  destruct p as [|id|id job ex|id job|id [r|m] ex|id msg ex| |]; simplify_eq/=;
    try (by eapply jobs_ok_free); eapply Hstay; try done; simpl; auto.
Qed.

Lemma enqueue_set_ok id ty p w : id ∉ issued w → jobs_ok w → jobs_ok (enqueue_set id ty p w).
Proof.
  intros Hid [Hq H1 Hhd Hu His Hkn Hw Hwk].
  split; cbn [enqueue_set with_store with_unpushed with_issued clock store job_queue unpushed issued loops].
  - done.
  - done.
  - intros i id' Hi. destruct (Hhd i id' Hi) as (? & ? & ?). set_solver.
  - intros id'. rewrite elem_of_union, elem_of_singleton. intros [->|Hin].
    + split; [|set_solver]. by intros ?%His.
    + destruct (Hu id' Hin). set_solver.
  - intros id' Hin%His. set_solver.
  - intros id' job. rewrite getJob_set. case_decide as Hd; [set_solver|]. intros Hg%Hkn. set_solver.
  - intros id' job. rewrite getJob_set. case_decide as Hd; [case_match; intros; by simplify_eq|].
    intros Hg Hin. apply (Hw id'); [done|]. set_solver.
  - intros i q id' job Hi Hh. rewrite getJob_set. case_decide as Hd; [|eauto]. subst id'.
    destruct (Hhd i id) as (_ & _ & ?); [by exists q|done].
Qed.

Lemma enqueue_push_ok id w : id ∈ unpushed w → jobs_ok w → jobs_ok (enqueue_push id w).
Proof.
  intros Hid [Hq H1 Hhd Hu His Hkn Hw Hwk]. destruct (Hu id Hid) as [Hnq Hii].
  split; cbn [enqueue_push with_queue with_unpushed clock store job_queue unpushed issued loops]; try done.
  - by constructor.
  - intros i id' Hi. destruct (Hhd i id' Hi) as (? & ? & ?). set_solver.
  - intros id' Hin. destruct (Hu id'); set_solver.
  - intros id' Hin. apply elem_of_cons in Hin as [->|?]; auto.
  - intros id' job Hg Hin. apply (Hw id' job Hg). set_solver.
Qed.

Lemma tick_ok t w : clock w <= t → jobs_ok w → jobs_ok (with_clock t w).
Proof.
  intros Hle [Hq H1 Hhd Hu His Hkn Hw Hwk]. split; try done; simpl.
  - intros id job Hg%(getJob_later (clock w)); [|done]. eauto.
  - intros id job Hg%(getJob_later (clock w)); [|done]. eauto.
  - intros i p id job Hp Hh Hg%(getJob_later (clock w)); [|done]. eauto.
Qed.

Lemma step_ok w w' : step w w' → jobs_ok w → jobs_ok w'.
Proof.
  intros Hs Hok. destruct Hs.
  - by apply tick_ok.
  - by apply enqueue_set_ok.
  - by apply enqueue_push_ok.
  - by eapply resume_ok.
  - by eapply throws_ok.
  - unfold startJobWorker. destruct (loop_running w); [done|].
    apply jobs_ok_new_loop; [|by destruct Hok]. simpl. apply not_elem_of_dom. apply is_fresh.
  - by destruct Hok.
Qed.

Lemma init_jobs_ok : jobs_ok init_world.
Proof.
  split; simpl; try set_solver; [constructor|..]; try by intros i j id (p & Hp & _).
  - by intros i id (p & Hp & _).
Qed.

Lemma reachable_ok w : rtc step init_world w → jobs_ok w.
Proof.
  intros Hr. pose proof init_jobs_ok as Hok. revert Hok.
  induction Hr as [w|w w1 w2 Hs _ IH]; [done|]. intros Hok. apply IH. by eapply step_ok.
Qed.

Lemma resume_places p p' w w' : resume p w = Some (p', w') →
  issued w' = issued w ∧ unpushed w' = unpushed w ∧ job_queue w' ⊆ job_queue w.
Proof.
  intros Hr. destruct p as [|id1|id1 job [ex|]|id1 job|id1 o [ex|]|id1 msg [ex|]| |]; cbn in Hr; simplify_eq/=;
    try (case_match; simplify_eq/=); split_and!; try done.
  intros x Hx. apply elem_of_take in Hx as (n & Hx & _). by eapply list_elem_of_lookup_2.
Qed.
Lemma resume_loops p p' w w' : resume p w = Some (p', w') → loops w' = loops w.
Proof.
  intros Hr. destruct p as [|id1|id1 job [ex|]|id1 job|id1 o [ex|]|id1 msg [ex|]| |]; cbn in Hr; simplify_eq/=;
    try (case_match; simplify_eq/=); done.
Qed.

(** What a resumption does to other jobs. *)
Lemma resume_other p p' w w' id :
  resume p w = Some (p', w') → held p ≠ Some id → id ∉ job_queue w →
  store w' !! jobKey id = store w !! jobKey id ∧ issued w' = issued w ∧ unpushed w' = unpushed w ∧
  job_queue w' ⊆ job_queue w ∧ loops w' = loops w ∧ held p' ≠ Some id.
Proof.
  intros Hr Hh Hq.
  assert (Hset : ∀ id' j, held p = Some id' → set_job (clock w) id' j (store w) !! jobKey id = store w !! jobKey id).
  { intros id' j Hid. apply lookup_insert_ne. intros ?%(inj jobKey). congruence. }
  assert (held (next_round w) ≠ Some id) by (unfold next_round; by case_match).
  destruct p as [|id1|id1 job [ex|]|id1 job|id1 o [ex|]|id1 msg [ex|]| |]; cbn in Hr; simplify_eq/=;
    try (case_match eqn:Hl; simplify_eq/=); split_and!; auto; try done.
  - intros x Hx. apply elem_of_take in Hx as (n & Hx & _). by eapply list_elem_of_lookup_2.
  - intros [= ->]. apply Hq. apply last_Some in Hl as [q ->]. set_solver.
Qed.

(** A job that left the queue stays with the loop that took it. *)
Definition owned (id : string) (i : nat) (w : world) : Prop :=
  id ∈ issued w ∧ id ∉ job_queue w ∧ id ∉ unpushed w ∧ ∀ j, holds w j id → j = i.

Lemma step_owned id i w w' : step w w' → owned id i w → owned id i w'.
Proof.
  intros Hs (Hi & Hq & Hu & Hh).
  destruct Hs as [t w Hle|id' ty pl w Hid|id' w Hid|k p p' w w' Hp Hr|e k p p' w Hp Ht|w|w].
  - done.
  - split_and!; simpl; [set_solver|done|set_solver|done].
  - split_and!; simpl; [done|set_solver|set_solver|done].
  - destruct (decide (held p = Some id)) as [Heq|Hne].
    + assert (k = i) as -> by (apply Hh; by exists p).
      assert (∀ j, holds (at_phase i p' w') j id → j = i) as Hj.
      { intros j. rewrite holds_at_phase. case_decide; [done|]. intros (q & Hlq & Hhq).
        apply Hh. exists q. split; [|done]. by rewrite <-(resume_loops _ _ _ _ Hr). }
      destruct (resume_places _ _ _ _ Hr) as (Hi' & Hu' & Hq').
      split_and!; simpl; rewrite ?Hi', ?Hu'; auto.
    + destruct (resume_other _ _ _ _ id Hr Hne Hq) as (_ & Hi' & Hu' & Hq' & Hl & Hh').
      split_and!; simpl; rewrite ?Hi', ?Hu'; auto. intros j. rewrite holds_at_phase.
      case_decide; [done|]. intros (q & Hlq & Hhq). apply Hh. exists q. by rewrite <-Hl.
  - split_and!; simpl; auto. intros j. rewrite holds_at_phase. case_decide as Hj; [|auto].
    subst j. intros Hh'. apply Hh. exists p. split; [done|].
    destruct p as [|x|x y ex|x y|x [r|m] ex|x msg ex| |]; simplify_eq/=; done.
  - unfold startJobWorker. destruct (loop_running w); [done|]. split_and!; simpl; auto.
    intros j. rewrite holds_at_phase. case_decide; [done|]. apply Hh.
  - done.
Qed.

Lemma steps_owned id i w w' : rtc step w w' → owned id i w → owned id i w'.
Proof. induction 1; eauto using step_owned. Qed.

Lemma step_settled id w w' : step w w' → settled id w →
  settled id w' ∧ store w' !! jobKey id = store w !! jobKey id.
Proof.
  intros Hs (Hi & Hq & Hu & Hh).
  destruct Hs as [t w Hle|id' ty pl w Hid|id' w Hid|k p p' w w' Hp Hr|e k p p' w Hp Ht|w|w].
  - done.
  - split; [split_and!; simpl; [set_solver|done|set_solver|done]|].
    simpl. apply lookup_insert_ne. intros Heq%(inj jobKey). by subst id'.
  - split; [|done]. split_and!; simpl; [done|set_solver|set_solver|done].
  - assert (held p ≠ Some id) as Hne by (intros Hp'; apply (Hh k); by exists p).
    destruct (resume_other _ _ _ _ id Hr Hne Hq) as (Hst & Hi' & Hu' & Hq' & Hl & Hh').
    split; [|done]. split_and!; simpl; rewrite ?Hi', ?Hu'; auto. intros j. rewrite holds_at_phase.
    case_decide; [done|]. intros (q & Hlq & Hhq). apply (Hh j). exists q. by rewrite <-Hl.
  - split; [|done]. split_and!; simpl; auto. intros j. rewrite holds_at_phase. case_decide as Hj; [|auto].
    subst j. intros Hh'. apply (Hh k). exists p. split; [done|].
    destruct p as [|x|x y ex|x y|x [r|m] ex|x msg ex| |]; simplify_eq/=; done.
  - unfold startJobWorker. destruct (loop_running w); [done|]. split; [|done]. split_and!; simpl; auto.
    intros j. rewrite holds_at_phase. case_decide; [done|]. apply Hh.
  - done.
Qed.
Lemma steps_settled id w w' : rtc step w w' → settled id w →
  settled id w' ∧ store w' !! jobKey id = store w !! jobKey id.
Proof.
  induction 1 as [|w w1 w2 Hs _ IH]; [done|]. intros [Hs1 <-]%(step_settled _ _ _ Hs). auto.
Qed.

(** A job with an outcome is settled. *)
Lemma final_settled id job w : jobs_ok w →
  getJob (clock w) id (store w) = Some job → final (job_status job) = true → settled id w.
Proof.
  intros Hok Hg Hf. unfold final in Hf. apply bool_decide_eq_true in Hf.
  assert (job_status job ≠ pending ∧ job_status job ≠ running) as [Hnp Hnr] by (by destruct Hf as [-> | ->]).
  split_and!; [by eapply jo_known| | |].
  - intros Hin. apply Hnp. eapply jo_waiting; eauto.
  - intros Hin. apply Hnp. eapply jo_waiting; eauto.
  - intros i (p & Hp & Hh). pose proof (jo_working w Hok i p id job Hp Hh Hg) as Hst.
    destruct p; simplify_eq/=; tauto.
Qed.

(** Loop [i] resumed [n] times without interference. *)
Fixpoint run_loop (n : nat) (i : nat) (w : world) : option world :=
  match n with
  | O => Some w
  | S n => w' ← resume_loop i w; run_loop n i w'
  end.

Lemma run_loop_S n i p p' w w' :
  loops w !! i = Some p → resume p w = Some (p', w') →
  run_loop (S n) i w = run_loop n i (at_phase i p' w').
Proof. intros Hp Hr. simpl. unfold resume_loop. by rewrite Hp; simpl; rewrite Hr. Qed.
Lemma at_phase_lookup i p w : loops (at_phase i p w) !! i = Some p.
Proof. apply lookup_insert_eq. Qed.
Lemma at_phase_twice i p p' w : at_phase i p' (at_phase i p w) = at_phase i p' w.
Proof. unfold at_phase, with_loops. simpl. by rewrite insert_insert_eq. Qed.

(** The record a loop leaves for a job it took at time [now]. *)
Definition processed (now : Z) (job : Job J) : Job J :=
  if isValidJobType (type job) then
    Job_ (job_id job) (type job) (payload job) completed (createdAt job) now
      (Some (JobResult (type job +:+ " stub complete") (payload job))) (job_error job)
  else
    Job_ (job_id job) (type job) (payload job) failed (createdAt job) now (job_res job)
      (Some ("[job-worker] unknown job type: " +:+ type job)).

Lemma finish_processed now job :
  finish_job now (processJob job) (updated_job now running None None job) = processed now job.
Proof.
  unfold processed, isValidJobType, processJob.
  destruct (decide (type job ∈ JOB_TYPES)) as [Hin|Hni].
  - unfold JOB_TYPES in Hin. rewrite !elem_of_cons in Hin.
    destruct job as [jid ty pl st c u r e]. simpl in Hin.
    destruct Hin as [->|[->|[->|[->|[]%not_elem_of_nil]]]]; vm_compute; reflexivity.
  - rewrite (bool_decide_eq_false_2 (type job ∈ JOB_TYPES)) by done. unfold JOB_TYPES in Hni.
    rewrite !not_elem_of_cons in Hni. destruct Hni as (H1 & H2 & H3 & H4 & _).
    by rewrite !bool_decide_eq_false_2.
Qed.

(** ** Properties *)

(** C38. A job is processed at most once: under every interleaving of
    enqueuing requests, loops, failing commands, restarts and expiry, a job a
    loop has taken is held by no other loop, is never queued again, and no
    other loop ever takes it later. *)
Theorem job_taken_once w i id :
  rtc step init_world w → holds w i id →
  ∀ w', rtc step w w' → id ∉ job_queue w' ∧ id ∉ unpushed w' ∧ ∀ j, holds w' j id → j = i.
Proof.
  intros Hr Hh w' Hs. pose proof (reachable_ok w Hr) as Hok.
  destruct (jo_held w Hok i id Hh) as (Hq & Hu & Hi).
  assert (owned id i w) as Ho by (split_and!; [done..|]; intros j Hj; by eapply jo_one).
  destruct (steps_owned id i w w' Hs Ho) as (_ & ? & ? & ?). done.
Qed.

(** An outcome is final: once a job is recorded as completed or failed its
    record never changes again; it can only expire. *)
Theorem job_outcome_final w w' id job :
  rtc step init_world w → getJob (clock w) id (store w) = Some job → final (job_status job) = true →
  rtc step w w' → getJob (clock w') id (store w') = Some job ∨ getJob (clock w') id (store w') = None.
Proof.
  intros Hr Hg Hf Hs. pose proof (final_settled id job w (reachable_ok w Hr) Hg Hf) as Hset.
  destruct (steps_settled id w w' Hs Hset) as [_ Hst]. revert Hg. unfold getJob. rewrite Hst.
  destruct (store w !! jobKey id) as [[[j|] e]|]; [|done..].
  case_match; intros; simplify_eq. case_match; auto.
Qed.

(** The worker does its work: a loop waiting on the queue whose oldest job
    is stored and unexpired takes it off the queue, in seven resumptions
    records its outcome (completed with the handler's result, or failed with a
    message for an unknown type), touches no other job, and waits again. *)
Theorem worker_processes_job w i q id job :
  loops w !! i = Some WIdle → loop_running w = true → job_queue w = q ++ [id] →
  getJob (clock w) id (store w) = Some job →
  ∃ w', run_loop 7 i w = Some w' ∧ loops w' = <[i := WIdle]> (loops w) ∧ job_queue w' = q ∧
    getJob (clock w) id (store w') = Some (processed (clock w) job) ∧
    ∀ id', id' ≠ id → getJob (clock w) id' (store w') = getJob (clock w) id' (store w).
Proof.
  intros Hp Hrun Hq Hg.
  assert (Hlive : ∀ job', getJob (clock w) id (set_job (clock w) id job' (store w)) = Some job').
  { intros job'. rewrite getJob_set, decide_True by done.
    by rewrite (proj2 (Z.ltb_lt _ _)) by (unfold JOB_TTL_SECONDS; lia). }
  set (w1 := with_queue (λ q, take (pred (length q)) q) w).
  set (ex := updated_job (clock w) running None None job).
  set (w2 := with_store (set_job (clock w) id ex) w1).
  set (w3 := with_store (set_job (clock w) id (finish_job (clock w) (processJob job) ex)) w2).
  exists (at_phase i WIdle w3). split_and!.
  - rewrite (run_loop_S 6 i WIdle (WPopped id) w w1) by (done || (simpl; by rewrite Hq, last_snoc)).
    rewrite (run_loop_S 5 i (WPopped id) (WStart id job None) _ (at_phase i (WPopped id) w1)), at_phase_twice
      by (apply at_phase_lookup || (simpl; by rewrite Hg)).
    rewrite (run_loop_S 4 i (WStart id job None) (WStart id job (Some job)) _ (at_phase i (WStart id job None) w1)), at_phase_twice
      by (apply at_phase_lookup || (simpl; by rewrite Hg)).
    rewrite (run_loop_S 3 i (WStart id job (Some job)) (WRun id job) _ (at_phase i (WStart id job (Some job)) w2)), at_phase_twice
      by (apply at_phase_lookup || done).
    rewrite (run_loop_S 2 i (WRun id job) (WFinish id (processJob job) None) _ (at_phase i (WRun id job) w2)), at_phase_twice
      by (apply at_phase_lookup || done).
    rewrite (run_loop_S 1 i (WFinish id (processJob job) None) (WFinish id (processJob job) (Some ex)) _
      (at_phase i (WFinish id (processJob job) None) w2)), at_phase_twice
      by (apply at_phase_lookup || (simpl; by rewrite Hlive)).
    rewrite (run_loop_S 0 i (WFinish id (processJob job) (Some ex)) WIdle _
      (at_phase i (WFinish id (processJob job) (Some ex)) w3)), at_phase_twice
      by (apply at_phase_lookup || (unfold resume, next_round; simpl; by rewrite Hrun)).
    done.
  - done.
  - simpl. rewrite Hq, length_app, Nat.add_1_r. by apply take_app_length.
  - simpl. unfold ex. rewrite finish_processed, getJob_set, decide_True by done.
    by rewrite (proj2 (Z.ltb_lt _ _)) by (unfold JOB_TTL_SECONDS; lia).
  - intros id' Hne. simpl. by rewrite !getJob_set, !decide_False by done.
Qed.

(** A worker that cannot record a failure strands the job: when the command
    with which a loop marks a job as failed throws, the record stays as it is,
    pending or running, for as long as it lives, and the job is never queued
    again. *)
Theorem stranded_job w i id message ex :
  rtc step init_world w → loops w !! i = Some (WAbort id message ex) →
  ∃ w1, step w w1 ∧ store w1 = store w ∧
    ∀ w2, rtc step w1 w2 → store w2 !! jobKey id = store w !! jobKey id ∧ id ∉ job_queue w2 ∧
      ∀ j, ¬ holds w2 j id.
Proof.
  intros Hr Hp. pose proof (reachable_ok w Hr) as Hok.
  assert (holds w i id) as Hh by (by eexists). destruct (jo_held w Hok i id Hh) as (Hq & Hu & Hi).
  exists (at_phase i WPause w). split; [by apply (StepThrow "redis" i (WAbort id message ex))|].
  split; [done|]. intros w2 Hs.
  destruct (steps_settled id _ w2 Hs) as [(_ & ? & _ & ?) ?]; [|done].
  split_and!; [done..|]. intros j. rewrite holds_at_phase. case_decide as Hj; [done|].
  intros Hh'. apply Hj. by eapply jo_one.
Qed.
End queue.
Arguments phase : clear implicits.
Arguments world : clear implicits.

(** ** Witnesses *)

Definition demo_queued : world string := enqueue_push "j1" (enqueue_set "j1" "db_vacuum" "p" init_world).
Definition demo_started : world string := startJobWorker demo_queued.
Definition demo_taken : world string :=
  at_phase 0 (WPopped "j1") (with_queue (λ q, take (pred (length q)) q) demo_started).

Lemma demo_started_reach : rtc step init_world demo_started.
Proof.
  eapply rtc_l; [apply (StepEnqueueSet "j1" "db_vacuum" "p"); set_solver|].
  eapply rtc_l; [apply (StepEnqueuePush "j1"); set_solver|].
  apply rtc_once, StepStart.
Qed.
Lemma demo_taken_reach : rtc step init_world demo_taken.
Proof.
  eapply rtc_r; [apply demo_started_reach|]. by apply (StepResume 0 WIdle (WPopped "j1")).
Qed.
Definition demo_done : world string := default demo_started (run_loop 7 0 demo_started).
Lemma run_loop_steps {J} n i (w w' : world J) : run_loop n i w = Some w' → rtc step w w'.
Proof.
  revert w. induction n as [|n IH]; intros w; simpl; [by intros [= ->]|].
  unfold resume_loop. destruct (loops w !! i) as [p|] eqn:Hp; simpl; [|done].
  destruct (resume p w) as [[p' w1]|] eqn:Hr; simpl; [|done].
  intros Hw. eapply rtc_l; [by apply (StepResume i p p')|]. by apply IH.
Qed.
Lemma demo_done_reach : rtc step init_world demo_done.
Proof.
  etrans; [apply demo_started_reach|]. apply (run_loop_steps 7 0). vm_compute. reflexivity.
Qed.

Lemma job_taken_once_witness : holds demo_taken 0 "j1" ∧ "j1" ∉ job_queue demo_taken.
Proof.
  assert (holds demo_taken 0 "j1") as Hh by (by exists (WPopped "j1")). split; [exact Hh|].
  destruct (job_taken_once demo_taken 0 "j1" demo_taken_reach Hh demo_taken (rtc_refl step demo_taken)) as [Hq _].
  exact Hq.
Defined.

Definition demo_job : Job string := processed 0 (new_job 0 "j1" "db_vacuum" "p").
Lemma job_outcome_final_witness :
  let w := with_clock 604799 demo_done in
  getJob 604799 "j1" (store w) = Some demo_job ∨ getJob 604799 "j1" (store w) = None.
Proof.
  apply (job_outcome_final demo_done (with_clock 604799 demo_done) "j1" demo_job).
  - exact demo_done_reach.
  - vm_compute. reflexivity.
  - vm_compute. reflexivity.
  - apply rtc_once, StepTick. vm_compute. discriminate.
Defined.

Lemma worker_processes_job_witness :
  ∃ w', run_loop 7 0 demo_started = Some w' ∧ getJob 0 "j1" (store w') = Some demo_job.
Proof.
  destruct (worker_processes_job demo_started 0 [] "j1" (new_job 0 "j1" "db_vacuum" "p"))
    as (w' & Hw & _ & _ & Hg & _); [vm_compute; reflexivity..|].
  exists w'. split; [exact Hw|exact Hg].
Defined.

(** Redis is lost while the loop reads the job it popped. *)
Definition demo_abort : world string := at_phase 0 (WAbort "j1" "redis" None) demo_taken.
Lemma stranded_job_witness :
  ∃ w1, step demo_abort w1 ∧ ∀ w2, rtc step w1 w2 → "j1" ∉ job_queue w2.
Proof.
  destruct (stranded_job demo_abort 0 "j1" "redis" None) as (w1 & Hs & _ & Hw).
  - eapply rtc_r; [apply demo_taken_reach|]. by apply (StepThrow "redis" 0 (WPopped "j1")).
  - vm_compute. reflexivity.
  - exists w1. split; [exact Hs|]. intros w2 H2. apply (Hw w2 H2).
Defined.

(** [stopJobWorker] followed at once by [startJobWorker] leaves two loops
    running: the old one finds the flag set again. *)
Example restart_doubles_loop :
  loops (startJobWorker (stopJobWorker demo_started)) = {[0%nat := WIdle; 1%nat := WIdle]}.
Proof. vm_compute. reflexivity. Qed.
