(* ===== verification/Backfill.v ===== *)
(** * The backfill script

    [backend/scripts/backfill_stream_events.ts]: options, decoding of Horizon
    records, the repairing upsert into the [stream_events] table of migration
    004, the dead-letter table, the reconciliation report and the paging loop.
    [fetch] and [Number] are parameters.  Console output is left out, and the
    process exit of [fatal] is an [Err]. *)
From S2P Require Import Prelude Bytes Decoder Db HorizonClient UrlText.

(** ** Event types and rows *)

Inductive EventType := vc_create | vc_claim | vc_cancel | vc_done | vc_drain.
#[global] Instance EventType_eq_dec : EqDecision EventType.
Proof. solve_decision. Defined.

Definition KNOWN_EVENT_TYPES : list (string * EventType) :=
  [("vc_create", vc_create); ("vc_claim", vc_claim); ("vc_cancel", vc_cancel);
   ("vc_done", vc_done); ("vc_drain", vc_drain)].
(** [KNOWN_EVENT_TYPE_SET.has(s)], with the type [s] names. *)
Definition known_event_type (s : string) : option EventType :=
  (λ p, p.2.2) <$> list_find (λ kt, kt.1 = s) KNOWN_EVENT_TYPES.

Record DecodedEvent := DecodedEvent_ {
  event_type : EventType;
  recipient : string;
  sponsor : option string;
  token : option string;
  amount : option Z;
  ledger_sequence : number;
  tx_hash : string }.

(** ** Command line and environment *)

Record CliOptions := CliOptions_ {
  fromLedger : option Z;
  toLedger : option Z;
  eventTypes : list EventType;
  dryRun : bool;
  reconcile_ : bool;
  help : bool }.

Definition parseLedger (flag : string) (raw : option string) : result string Z :=
  match raw, parse_int (default "" raw) with
  | Some _, Some value =>
      if value <=? 0 then Err (flag +:+ " must be a positive integer") else Ok value
  | _, _ => Err (flag +:+ " must be a positive integer")
  end.

Fixpoint event_type_names (names : list string) : option (list EventType) :=
  match names with
  | [] => Some []
  | n :: names' => t ← known_event_type n; ts ← event_type_names names'; Some (t :: ts)
  end.
(** The requested set, as a list. *)
Definition parseEventTypes (rawValues : list string) : result string (list EventType) :=
  let requested := filter (λ v, truthy v = true)
    ((λ v, to_lower (trim v)) <$> (rawValues ≫= split_on ",")) in
  match event_type_names requested with
  | Some ts => Ok ts
  | None => Err "--event-type must be one of the known types"
  end.

(** The flags seen so far; [--event-type] values are collected in order. *)
Record flags := Flags {
  f_from : option Z;
  f_to : option Z;
  f_types : list string;
  f_dry : bool;
  f_reconcile : bool;
  f_help : bool }.

Fixpoint parse_flags (argv : list string) (f : flags) : result string flags :=
  match argv with
  | [] => Ok f
  | arg :: argv1 =>
      if bool_decide (arg ∈ ["--start-ledger"; "--from-ledger"; "--from_ledger"]) then
        match parseLedger arg (head argv1), argv1 with
        | Ok n, _ :: argv2 =>
            parse_flags argv2 (Flags (Some n) (f_to f) (f_types f) (f_dry f) (f_reconcile f) (f_help f))
        | Err e, _ => Err e
        | Ok _, [] => Ok f
        end
      else if bool_decide (arg ∈ ["--end-ledger"; "--to-ledger"; "--to_ledger"]) then
        match parseLedger arg (head argv1), argv1 with
        | Ok n, _ :: argv2 =>
            parse_flags argv2 (Flags (f_from f) (Some n) (f_types f) (f_dry f) (f_reconcile f) (f_help f))
        | Err e, _ => Err e
        | Ok _, [] => Ok f
        end
      else if bool_decide (arg ∈ ["--event-type"; "--event_type"]) then
        match argv1 with
        | [] => Err "--event-type requires a value"
        | v :: argv2 =>
            parse_flags argv2 (Flags (f_from f) (f_to f) (f_types f ++ [v]) (f_dry f) (f_reconcile f) (f_help f))
        end
      else if bool_decide (arg ∈ ["--dry-run"; "--dry_run"]) then
        parse_flags argv1 (Flags (f_from f) (f_to f) (f_types f) true (f_reconcile f) (f_help f))
      else if bool_decide (arg ∈ ["--no-reconcile"; "--no_reconcile"]) then
        parse_flags argv1 (Flags (f_from f) (f_to f) (f_types f) (f_dry f) false (f_help f))
      else if bool_decide (arg ∈ ["--help"; "-h"]) then
        parse_flags argv1 (Flags (f_from f) (f_to f) (f_types f) (f_dry f) (f_reconcile f) true)
      else parse_flags argv1 f
  end.

Definition parseArgs (argv : list string) : result string CliOptions :=
  match parse_flags argv (Flags None None [] false true false) with
  | Err e => Err e
  | Ok f =>
      if f_help f then Ok (CliOptions_ (f_from f) (f_to f) [] (f_dry f) (f_reconcile f) true)
      else match parseEventTypes (f_types f) with
           | Err e => Err e
           | Ok ts => Ok (CliOptions_ (f_from f) (f_to f) ts (f_dry f) (f_reconcile f) false)
           end
  end.

(** [if (flag === null && env.X) { const parsed = parseInt(env.X, 10); ... }] *)
Definition env_ledger (flag : option Z) (var : option string) : option Z :=
  match flag, var with
  | None, Some v =>
      if truthy v then match parse_int v with Some n => if 0 <? n then Some n else None | None => None end
      else None
  | _, _ => flag
  end.

Definition resolveOptions (argv : list string) (env : string → option string) : result string CliOptions :=
  match parseArgs argv with
  | Err e => Err e
  | Ok cli =>
      if help cli then Ok cli else
      match env_ledger (fromLedger cli) (env "BACKFILL_FROM_LEDGER"),
            env_ledger (toLedger cli) (env "BACKFILL_TO_LEDGER") with
      | None, _ => Err "--start-ledger is required (or set BACKFILL_FROM_LEDGER)"
      | _, None => Err "--end-ledger is required (or set BACKFILL_TO_LEDGER)"
      | Some from, Some to =>
          if to <? from then Err "--start-ledger must be <= --end-ledger" else
          match (if bool_decide (eventTypes cli ≠ []) then Ok (eventTypes cli)
                 else match env "BACKFILL_EVENT_TYPES" with
                      | Some v => if truthy v then parseEventTypes [v] else Ok []
                      | None => Ok []
                      end) with
          | Err e => Err e
          | Ok ts =>
              Ok (CliOptions_ (Some from) (Some to) ts
                    (dryRun cli || bool_decide (env "BACKFILL_DRY_RUN" = Some "1"))
                    (reconcile_ cli && bool_decide (env "BACKFILL_SKIP_RECONCILE" ≠ Some "1"))
                    (help cli))
          end
      end
  end.

(** ** Decoders *)

Definition decodeSymbol (xdr : string) : string :=
  let buf := from_base64 xdr in
  if 8 <? buf_length buf then trim (strip_nul (to_utf8 (subarray_from 8 buf)))
  else trim (strip_nonprintable (to_utf8 buf)).

Definition decodeAddress (xdr : string) : string := xdr.

Definition decodeBigInt (xdr : option string) : option Z :=
  match xdr with
  | None => None
  | Some x =>
      if negb (truthy x) then None else
      let buf := from_base64 x in
      if 8 <=? buf_length buf then readBigInt64BE (buf_length buf - 8) buf else None
  end.

(** [record.value?.xdr ? [record.value.xdr] : Array.isArray(record.value) ? record.value : []],
    an element [null] being [None]. *)
Definition value_fields (value : event_value) : list (option string) :=
  match value with
  | ValueXdr xdr => if truthy xdr then [Some xdr] else []
  | ValueArray vs => vs
  | _ => []
  end.
(** [xs[i] ?? d] *)
Definition field (i : nat) (xs : list (option string)) (d : string) : string :=
  default d (mjoin (xs !! i)).

Record DecodeContext := DecodeContext_ {
  ctx_from : option Z;
  ctx_to : option Z;
  ctx_types : list EventType }.

Definition tx_hash_of (record : HorizonEventRecord) : string :=
  match rec_transaction_hash record with
  | Some h => h
  | None => match rec_id record with
            | Some i => default "" (split_on "-" i !! 0%nat)
            | None => ""
            end
  end.

(** [ledger < fromLedger] and [ledger > toLedger] when the bound is given. *)
Definition out_of_range (ctx : DecodeContext) (ledger : number) : bool :=
  match ctx_from ctx with Some lo => num_test (λ l, l <? lo) ledger | None => false end
  || match ctx_to ctx with Some hi => num_test (λ l, hi <? l) ledger | None => false end.

Definition decodeEvent (record : HorizonEventRecord) (ctx : DecodeContext) : option DecodedEvent :=
  let topics := default [] (rec_topic record) in
  eventType ← known_event_type (decodeSymbol (default "" (topics !! 0%nat)));
  if bool_decide (ctx_types ctx ≠ []) && negb (bool_decide (eventType ∈ ctx_types ctx)) then None else
  let recipient := decodeAddress (default "" (topics !! 1%nat)) in
  let txHash := tx_hash_of record in
  let ledger := ledger_number (rec_ledger record) in
  if out_of_range ctx ledger then None else
  let valueFields := value_fields (rec_value record) in
  let ev sponsor token amount := Some (DecodedEvent_ eventType recipient sponsor token amount ledger txHash) in
  match eventType with
  | vc_create =>
      ev (Some (decodeAddress (match topics !! 2%nat with Some t => t | None => field 0 valueFields "" end)))
         (Some (decodeAddress (field 1 valueFields ""))) None
  | vc_claim | vc_cancel => ev None None (decodeBigInt (mjoin (valueFields !! 0%nat)))
  | vc_drain => ev (Some (decodeAddress (field 0 valueFields ""))) None (decodeBigInt (mjoin (valueFields !! 1%nat)))
  | vc_done => ev None (Some (decodeAddress (field 0 valueFields ""))) None
  end.

(** ** Tables *)

(** [stream_events] keyed by its unique [tx_hash], and [stream_events_dlq]
    keyed by its unique [horizon_event_id], with the columns the queries use. *)
Record bf_row := BfRow {
  row_type : EventType;
  row_recipient : string;
  row_sponsor : option string;
  row_token : option string;
  row_amount : option Z;
  row_ledger : Z }.
Record dlq_row := DlqRow { attempt_count : Z; last_error : string; dlq_created_at : Z; dlq_updated_at : Z }.
Record tables := Tables {
  stream_events : gmap string bf_row;
  stream_events_dlq : gmap string dlq_row }.
Definition with_events f (t : tables) : tables := Tables (f (stream_events t)) (stream_events_dlq t).
Definition with_dlq f (t : tables) : tables := Tables (stream_events t) (f (stream_events_dlq t)).

(** The row an event becomes, or the column that rejects it:
    [varchar(56)] addresses, [varchar(64)] hash, [integer] ledger.  A decoded
    amount always fits [bigint]. *)
Definition short (n : Z) (s : option string) : bool :=
  match s with Some s => str_length s <=? n | None => true end.
Definition row_of (ev : DecodedEvent) : result exn bf_row :=
  if negb (short 56 (Some (recipient ev)) && short 56 (sponsor ev) && short 56 (token ev)
           && short 64 (Some (tx_hash ev)))
  then Err (PgError string_data_right_truncation)
  else match ledger_sequence ev with
       | None => Err (PgError (invalid_text_representation "NaN"))
       | Some l =>
           if fits 32 (Some l) then
             Ok (BfRow (event_type ev) (recipient ev) (sponsor ev) (token ev) (amount ev) l)
           else Err (PgError numeric_value_out_of_range)
       end.

Record UpsertResult := Upserted { inserted : Z; updated : Z }.

(** [INSERT ... ON CONFLICT (tx_hash) DO UPDATE SET ... RETURNING (xmax = 0)] *)
Definition upsert_event (ev : DecodedEvent) : M tables exn bool := λ t,
  match row_of ev with
  | Err e => (Err e, t)
  | Ok row =>
      (Ok (bool_decide (stream_events t !! tx_hash ev = None)), with_events <[tx_hash ev := row]> t)
  end.

Definition upsert_step (acc : UpsertResult) (ev : DecodedEvent) : M tables exn UpsertResult :=
  if negb (truthy (tx_hash ev)) then ret acc else
  let! was_inserted := upsert_event ev in
  ret (if was_inserted then Upserted (inserted acc + 1) (updated acc)
       else Upserted (inserted acc) (updated acc + 1)).

Definition upsertEvents (events : list DecodedEvent) : M tables exn UpsertResult :=
  if bool_decide (events = []) then ret (Upserted 0 0)
  else transaction (fold_each events (Upserted 0 0) upsert_step).

Definition insertDlq (now : Z) (record : HorizonEventRecord) (error : string) : M tables exn unit :=
  modify (with_dlq (λ m,
    let id := default "" (rec_id record) in
    <[id := match m !! id with
            | Some r => DlqRow (attempt_count r + 1) error (dlq_created_at r) now
            | None => DlqRow 1 error now now
            end]> m)).

(** ** Reconciliation report *)

Record ReconciliationReport := Report {
  range_from : Z;
  range_to : Z;
  dbRowCount : Z;
  eventTypeCounts : list (EventType * Z);
  dlqOpen : Z;
  gaps : list Z;
  report_ok : bool }.

Definition in_window (lo hi : Z) (r : bf_row) : bool := (lo <=? row_ledger r) && (row_ledger r <=? hi).
Definition rows_between (lo hi : Z) (t : tables) : list bf_row :=
  filter (λ r, in_window lo hi r = true) (map_to_list (stream_events t)).*2.
Definition count_type (et : EventType) (rows : list bf_row) : Z :=
  Z.of_nat (length (filter (λ r, row_type r = et) rows)).
(** [SELECT event_type, COUNT( * ) ... GROUP BY event_type] *)
Definition type_counts (rows : list bf_row) : list (EventType * Z) :=
  filter (λ p, p.2 ≠ 0) ((λ et, (et, count_type et rows)) <$> [vc_create; vc_claim; vc_cancel; vc_done; vc_drain]).

(** The [for] loop over [ledger..toLedger], cut off at fifty gaps. *)
Fixpoint find_gaps (fuel : nat) (ledger to : Z) (present : list Z) (found : list Z) : list Z :=
  match fuel with
  | O => found
  | S fuel =>
      if to <? ledger then found else
      let found := if bool_decide (ledger ∈ present) then found else found ++ [ledger] in
      if 50 <=? Z.of_nat (length found) then found
      else find_gaps fuel (ledger + 1) to present found
  end.

Definition reconcile (now from to : Z) (t : tables) : ReconciliationReport :=
  let rows := rows_between from to t in
  let counts := type_counts rows in
  let total := foldr (λ p acc, p.2 + acc) 0 counts in
  let open := Z.of_nat (size (filter (λ kr, now - 3600 < dlq_created_at kr.2) (stream_events_dlq t))) in
  let ledgers := row_ledger <$> rows in
  let found :=
    match ledgers with
    | l :: ls =>
        let minLedger := foldr Z.min l ls in
        let start := Z.max minLedger from in
        find_gaps (Z.to_nat (to - start + 1)) start to ledgers []
    | [] => []
    end in
  Report from to total counts open found ((0 <? total) && (open =? 0)).

(** ** The paging loop *)

(** [fetchPage]'s URL; [horizonUrl] is a base that [new URL] leaves as it is. *)
Definition page_url (horizonUrl contractId cursor : string) (pageLimit : number) : string :=
  horizonUrl +:+ "/contracts/" +:+ contractId +:+ "/events?" +:+ form_pairs
    ([("limit", match pageLimit with Some n => Z_to_string (Z.min 200 n) | None => "NaN" end);
      ("order", "asc")]
     ++ if truthy cursor then [("cursor", cursor)] else []).

Definition fetchPage (fetch : string → http events_body) (cursor horizonUrl contractId : string)
    (pageLimit : number) : result exn (list HorizonEventRecord * option string) :=
  match fetch (page_url horizonUrl contractId cursor pageLimit) with
  | FetchRejects e => Err e
  | Response st body =>
      if negb (http_ok st) then Err (HorizonHttpError st)
      else match body with
           | None => Err (OtherError "invalid json")
           | Some rs =>
               let records := default [] rs in
               Ok (records, last records ≫= rec_paging_token)
           end
  end.

Record progress := Progress {
  p_cursor : string;
  p_pages : Z;
  p_fetched : Z;
  p_inserted : Z;
  p_updated : Z;
  p_skipped : Z;
  p_lastLedger : option number;
  p_past : bool;
  p_stoppedEarly : bool }.

Record RunSummary := Summary {
  s_fetched : Z;
  s_inserted : Z;
  s_updated : Z;
  s_skipped : Z;
  s_dlq : Z;
  s_pages : Z;
  s_truncated : bool;
  s_resumeCursor : option string;
  s_lastLedger : option number }.

(** [Math.max(a, b)] *)
Definition js_max (a b : number) : number := x ← a; y ← b; Some (Z.max x y).

Section run.
Context (Number : string → number).
Context (fetch : string → http events_body).
Context (horizonUrl contractId : string) (pageLimit : number).
Context (from to : Z) (types : list EventType) (dry : bool).

Definition ctx : DecodeContext := DecodeContext_ (Some from) (Some to) types.

(** The inner loop over the records of a page.  [decodeEvent] catches what it
    throws, so the dead-letter branch is never taken. *)
Definition decode_page (records : list HorizonEventRecord) : list DecodedEvent :=
  omap (λ r, decodeEvent r ctx) records.
Definition last_ledger (l : option number) (evs : list DecodedEvent) : option number :=
  foldl (λ acc ev, Some (match acc with None => ledger_sequence ev | Some n => js_max n (ledger_sequence ev) end)) l evs.

Definition first_ledger (records : list HorizonEventRecord) : number :=
  match head records with
  | Some r => match rec_ledger r with
              | LedgerNumber n => Some n
              | LedgerText s => Number s
              | LedgerMissing => Some 0
              end
  | None => NaN
  end.

Definition handle_page (records : list HorizonEventRecord) (p : progress) : M tables exn progress :=
  let decoded := decode_page records in
  let! r := (if negb dry && bool_decide (decoded ≠ []) then upsertEvents decoded else ret (Upserted 0 0)) in
  ret (Progress (p_cursor p) (p_pages p) (p_fetched p + Z.of_nat (length records))
    (p_inserted p + inserted r) (p_updated p + updated r)
    (p_skipped p + Z.of_nat (length records - length decoded))
    (last_ledger (p_lastLedger p) decoded)
    (p_past p || existsb (λ ev, num_test (λ l, to <? l) (ledger_sequence ev)) decoded)
    (p_stoppedEarly p || ((p_pages p =? 1) && num_test (λ l, from <? l) (first_ledger records)))).

Definition set_cursor (c : string) (p : progress) : progress :=
  Progress c (p_pages p) (p_fetched p) (p_inserted p) (p_updated p) (p_skipped p) (p_lastLedger p)
    (p_past p) (p_stoppedEarly p).
Definition next_page (p : progress) : progress :=
  Progress (p_cursor p) (p_pages p + 1) (p_fetched p) (p_inserted p) (p_updated p) (p_skipped p)
    (p_lastLedger p) (p_past p) (p_stoppedEarly p).

(** The [while] loop; [None] when the fuel ran out. *)
Fixpoint page_loop (fuel : nat) (p : progress) : M tables exn (option progress) :=
  if p_past p then ret (Some p) else
  match fuel with
  | O => ret None
  | S fuel =>
      let p := next_page p in
      match fetchPage fetch (p_cursor p) horizonUrl contractId pageLimit with
      | Err e => throw e
      | Ok (records, nextCursor) =>
          if bool_decide (records = []) then ret (Some p) else
          let! p := handle_page records p in
          if num_test (λ n, Z.of_nat (length records) <? n) pageLimit then ret (Some p) else
          match nextCursor with
          | Some c => if truthy c then page_loop fuel (set_cursor c p) else ret (Some p)
          | None => ret (Some p)
          end
      end
  end.

Definition start_progress (cursor : string) : progress :=
  Progress cursor 0 0 0 0 0 None false false.

Definition summary (p : progress) : RunSummary :=
  Summary (p_fetched p) (p_inserted p) (p_updated p) (p_skipped p) 0 (p_pages p) (p_stoppedEarly p)
    (if p_past p then None else if truthy (p_cursor p) then Some (p_cursor p) else None)
    (p_lastLedger p).

(** [run], with the configuration resolved; the reconciliation report is the
    [reconcile] of the final tables. *)
Definition run (fuel : nat) (cursor : string) : M tables exn (option RunSummary) :=
  let! p := page_loop fuel (start_progress cursor) in
  ret (summary <$> p).
End run.

(** ** The history a Horizon server holds *)

(** The records after the one with paging token [c], all for the empty
    cursor. *)
Fixpoint after (c : string) (hist : list HorizonEventRecord) : list HorizonEventRecord :=
  match hist with
  | [] => []
  | r :: hist' => if decide (rec_paging_token r = Some c) then hist' else after c hist'
  end.
Definition suffix (c : string) (hist : list HorizonEventRecord) : list HorizonEventRecord :=
  if truthy c then after c hist else hist.

(** Horizon's documented behaviour for one contract: every record has its own
    paging token, and a request answers with the first [limit] records after
    its cursor. *)
Record serves (fetch : string → http events_body) (url : string → string) (limit : nat)
    (hist : list HorizonEventRecord) : Prop := Serves {
  sv_tokens : NoDup (rec_paging_token <$> hist);
  sv_token : Forall (λ r, ∃ c, rec_paging_token r = Some c ∧ truthy c = true) hist;
  sv_page : ∀ c, truthy c = false ∨ Some c ∈ (rec_paging_token <$> hist) →
    fetch (url c) = Response 200 (Some (Some (take limit (suffix c hist)))) }.

(** What the table should hold after the events: the last event of a hash
    wins, and an event without a hash is ignored. *)
Definition put_event (m : gmap string bf_row) (ev : DecodedEvent) : gmap string bf_row :=
  if truthy (tx_hash ev) then match row_of ev with Ok row => <[tx_hash ev := row]> m | Err _ => m end else m.
Definition put_events (m : gmap string bf_row) (evs : list DecodedEvent) : gmap string bf_row :=
  foldl put_event m evs.
Definition storable (ev : DecodedEvent) : bool := negb (truthy (tx_hash ev)) || is_ok (row_of ev).
Definition hashed (evs : list DecodedEvent) : list DecodedEvent := filter (λ ev, truthy (tx_hash ev) = true) evs.

(** ** Lemmas *)

Lemma upsert_step_ok acc ev t : storable ev = true → ∃ acc',
  upsert_step acc ev t = (Ok acc', with_events (λ m, put_event m ev) t) ∧
  inserted acc' + Z.of_nat (size (stream_events t))
    = inserted acc + Z.of_nat (size (put_event (stream_events t) ev)) ∧
  inserted acc' + updated acc' = inserted acc + updated acc + Z.of_nat (length (hashed [ev])).
Proof.
  unfold storable, upsert_step, put_event, hashed. intros Hs. rewrite filter_cons, filter_nil.
  destruct (truthy (tx_hash ev)) eqn:Ht; simpl in Hs |- *.
  - unfold upsert_event, bind. destruct (row_of ev) as [row|e]; [|done].
    case_bool_decide as Hl; (eexists; split; [done|]); simpl.
    + rewrite map_size_insert_None by done. lia.
    + rewrite map_size_insert_Some by (by apply not_eq_None_Some). lia.
  - exists acc. split; [by destruct t|]. lia.
Qed.

Lemma put_events_app m l1 l2 : put_events m (l1 ++ l2) = put_events (put_events m l1) l2.
Proof. apply foldl_app. Qed.
Lemma hashed_app l1 l2 : hashed (l1 ++ l2) = hashed l1 ++ hashed l2.
Proof. apply filter_app. Qed.
Lemma with_events_compose f g t : with_events f (with_events g t) = with_events (λ m, f (g m)) t.
Proof. done. Qed.

Lemma upsert_fold_ok evs acc t : forallb storable evs = true → ∃ acc',
  fold_each evs acc upsert_step t = (Ok acc', with_events (λ m, put_events m evs) t) ∧
  inserted acc' + Z.of_nat (size (stream_events t))
    = inserted acc + Z.of_nat (size (put_events (stream_events t) evs)) ∧
  inserted acc' + updated acc' = inserted acc + updated acc + Z.of_nat (length (hashed evs)).
Proof.
  revert acc t. induction evs as [|ev evs IH]; intros acc t; cbn [forallb].
  - intros _. exists acc. split; [by destruct t|]. simpl. lia.
  - intros [He Hevs]%andb_true_iff. destruct (upsert_step_ok acc ev t He) as (a1 & Hr1 & Hi1 & Hu1).
    destruct (IH a1 (with_events (λ m, put_event m ev) t) Hevs) as (a2 & Hr2 & Hi2 & Hu2).
    exists a2. cbn [fold_each]. rewrite (bind_ok _ _ _ _ _ Hr1), Hr2.
    split; [done|]. change (hashed (ev :: evs)) with (hashed ([ev] ++ evs)).
    rewrite hashed_app, length_app. simpl in Hi2 |- *. lia.
Qed.

Lemma upsertEvents_ok evs t : forallb storable evs = true → ∃ r,
  upsertEvents evs t = (Ok r, with_events (λ m, put_events m evs) t) ∧
  inserted r + Z.of_nat (size (stream_events t)) = Z.of_nat (size (put_events (stream_events t) evs)) ∧
  inserted r + updated r = Z.of_nat (length (hashed evs)).
Proof.
  intros Hs. unfold upsertEvents. case_bool_decide as Hn.
  - subst evs. eexists. split; [by destruct t|]. simpl. lia.
  - destruct (upsert_fold_ok evs (Upserted 0 0) t Hs) as (r & Hr & Hi & Hu).
    exists r. split; [|simpl in *; lia]. by apply transaction_ok.
Qed.

(** One event that does not fit its columns, and the transaction of its page
    is rolled back. *)
Lemma upsert_fold_fails evs acc t : forallb storable evs = false → ∃ e t', fold_each evs acc upsert_step t = (Err e, t').
Proof.
  revert acc t. induction evs as [|ev evs IH]; intros acc t; cbn [forallb]; [done|].
  destruct (storable ev) eqn:He; simpl; intros Hevs.
  - destruct (upsert_step_ok acc ev t He) as (a1 & Hr1 & _). destruct (IH a1 (with_events (λ m, put_event m ev) t) Hevs) as (e & t' & Hr).
    exists e, t'. cbn [fold_each]. by rewrite (bind_ok _ _ _ _ _ Hr1).
  - unfold storable in He. apply orb_false_iff in He as [Ht Hrow]. apply negb_false_iff in Ht.
    destruct (row_of ev) as [row|e] eqn:Hr; [done|]. exists e, t. cbn [fold_each]. apply bind_err.
    unfold upsert_step. rewrite Ht. cbn [negb]. apply bind_err. unfold upsert_event. by rewrite Hr.
Qed.
Lemma upsertEvents_fails evs t : forallb storable evs = false → ∃ e, upsertEvents evs t = (Err e, t).
Proof.
  intros Hs. destruct (upsert_fold_fails evs (Upserted 0 0) t Hs) as (e & t' & Hr). exists e. unfold upsertEvents.
  rewrite bool_decide_eq_false_2 by (by intros ->). unfold transaction. by rewrite Hr.
Qed.

Lemma after_app c l1 r l2 :
  rec_paging_token r = Some c → Some c ∉ (rec_paging_token <$> l1) → after c (l1 ++ r :: l2) = l2.
Proof.
  intros Hr. induction l1 as [|x l1 IH]; simpl; [by rewrite decide_True|].
  rewrite not_elem_of_cons. intros [Hx Hl]. rewrite decide_False by congruence. auto.
Qed.

(** After a page, the server continues where the page ended. *)
Lemma serves_next fetch url limit hist pre page rest c :
  serves fetch url limit hist → hist = pre ++ page ++ rest →
  last page ≫= rec_paging_token = Some c → suffix c hist = rest ∧ truthy c = true ∧
  Some c ∈ (rec_paging_token <$> hist).
Proof.
  intros [Hnd Htok _] -> Hl. destruct (last page) as [r|] eqn:Hr; [|done].
  apply last_Some in Hr as [page' ->]. simpl in Hl.
  assert (truthy c = true) as Hc.
  { rewrite Forall_forall in Htok. destruct (Htok r) as (c' & Hc' & ?); [set_solver|]. congruence. }
  split_and!; [|done|].
  - unfold suffix. rewrite Hc. replace (pre ++ (page' ++ [r]) ++ rest) with ((pre ++ page') ++ r :: rest)
      by (by rewrite <-!(assoc_L (++))).
    apply after_app; [done|].
    replace (pre ++ (page' ++ [r]) ++ rest) with ((pre ++ page') ++ r :: rest) in Hnd
      by (by rewrite <-!(assoc_L (++))).
    rewrite fmap_app, fmap_cons in Hnd. apply NoDup_app in Hnd as (_ & Hd & _).
    intros Hin. apply (Hd _ Hin). rewrite Hl. apply list_elem_of_here.
  - apply list_elem_of_fmap. exists r. split; [done|]. set_solver.
Qed.

Lemma decode_app from to types l1 l2 :
  decode_page from to types (l1 ++ l2) = decode_page from to types l1 ++ decode_page from to types l2.
Proof. apply omap_app. Qed.

Lemma decode_length from to types l : (length (decode_page from to types l) ≤ length l)%nat.
Proof.
  unfold decode_page. induction l as [|r l IH]; cbn [omap list_omap length]; [done|].
  destruct (decodeEvent r _); cbn [length]; lia.
Qed.

(** [decodeEvent] only lets events of the range through, so the loop's
    [pastToLedger] flag is never raised. *)
Lemma decodeEvent_range record ctx ev :
  decodeEvent record ctx = Some ev → out_of_range ctx (ledger_sequence ev) = false.
Proof.
  unfold decodeEvent. destruct (known_event_type _) as [et|]; [|done]. simpl.
  case_match; [done|]. destruct (out_of_range ctx (ledger_number (rec_ledger record))) eqn:Ho; [done|].
  destruct et; intros; by simplify_eq/=.
Qed.
Lemma decode_never_past from to types l :
  existsb (λ ev, num_test (λ n, to <? n) (ledger_sequence ev)) (decode_page from to types l) = false.
Proof.
  unfold decode_page. induction l as [|r l IH]; simpl; [done|].
  destruct (decodeEvent r _) as [ev|] eqn:He; simpl; [|done].
  apply decodeEvent_range in He. unfold out_of_range, ctx in He. simpl in He.
  apply orb_false_iff in He as [_ ->]. done.
Qed.

Section loop.
Context (Number : string → number).
Context (fetch : string → http events_body).
Context (horizonUrl contractId : string) (limit : nat).
Context (from to : Z) (types : list EventType) (dry : bool).
Context (hist : list HorizonEventRecord).
Context (Hlimit : (0 < limit)%nat).
Context (Hserves : serves fetch (λ c, page_url horizonUrl contractId c (Some (Z.of_nat limit))) limit hist).

(** What the loop makes of the records [s] still to come, from [p] to [p']. *)
Record paged (s : list HorizonEventRecord) (p : progress) (t : tables) (p' : progress) (t' : tables) : Prop := Paged {
  pg_rows : t' = with_events (λ m, if dry then m else put_events m (decode_page from to types s)) t;
  pg_fetched : p_fetched p' = p_fetched p + Z.of_nat (length s);
  pg_skipped : p_skipped p' = p_skipped p + Z.of_nat (length s - length (decode_page from to types s));
  pg_inserted : p_inserted p' + Z.of_nat (size (stream_events t))
    = p_inserted p + Z.of_nat (size (stream_events t'));
  pg_written : p_inserted p' + p_updated p' = p_inserted p + p_updated p
    + (if dry then 0 else Z.of_nat (length (hashed (decode_page from to types s))));
  pg_past : p_past p' = false }.

Lemma paged_compose s1 s2 p t p1 t1 p2 t2 :
  paged s1 p t p1 t1 → paged s2 p1 t1 p2 t2 → paged (s1 ++ s2) p t p2 t2.
Proof.
  intros [-> F1 S1 I1 W1 P1] [-> F2 S2 I2 W2 P2].
  pose proof (decode_length from to types s1). pose proof (decode_length from to types s2).
  split; rewrite ?decode_app, ?hashed_app, ?length_app; try done; try lia.
  - destruct dry; [done|]. rewrite with_events_compose. unfold with_events. by rewrite put_events_app.
  - destruct dry; lia.
Qed.

Lemma handle_page_ok page p t :
  p_past p = false → forallb storable (decode_page from to types page) = true →
  ∃ p' t', handle_page Number from to types dry page p t = (Ok p', t') ∧
    paged page p t p' t' ∧ p_cursor p' = p_cursor p.
Proof.
  intros Hpast Hst. set (evs := decode_page from to types page) in *. unfold handle_page. fold evs.
  assert (∃ r, (if negb dry && bool_decide (evs ≠ []) then upsertEvents evs else ret (Upserted 0 0)) t
      = (Ok r, with_events (λ m, if dry then m else put_events m evs) t) ∧
    inserted r + Z.of_nat (size (stream_events t))
      = Z.of_nat (size (if dry then stream_events t else put_events (stream_events t) evs)) ∧
    inserted r + updated r = if dry then 0 else Z.of_nat (length (hashed evs))) as (r & Hr & Hi & Hu).
  { destruct dry; simpl; [by exists (Upserted 0 0); destruct t|].
    case_bool_decide as Hn; [by apply upsertEvents_ok|].
    rewrite Hn. exists (Upserted 0 0). by destruct t. }
  eexists _, _. rewrite (bind_ok _ _ _ _ _ Hr). split; [done|]. split; [|done].
  split; simpl; fold evs; try done; [|destruct dry; lia|].
  - destruct dry; lia.
  - rewrite Hpast. simpl. apply decode_never_past.
Qed.

Lemma fetch_suffix c s :
  (truthy c = false ∨ Some c ∈ (rec_paging_token <$> hist)) → suffix c hist = s →
  fetchPage fetch c horizonUrl contractId (Some (Z.of_nat limit)) = Ok (take limit s, last (take limit s) ≫= rec_paging_token).
Proof. intros Hcur Hsuf. unfold fetchPage. by rewrite (sv_page _ _ _ _ Hserves _ Hcur), Hsuf. Qed.
Lemma page_token pre s : hist = pre ++ s → take limit s ≠ [] → ∃ c, last (take limit s) ≫= rec_paging_token = Some c.
Proof.
  intros Hh Hp. destruct (last (take limit s)) as [r|] eqn:Hl; [|by apply last_None in Hl].
  pose proof (sv_token _ _ _ _ Hserves) as Htok. rewrite Forall_forall in Htok.
  destruct (Htok r) as (c & Hc & _); [|by exists c]. rewrite Hh, <-(take_drop limit s).
  apply last_Some in Hl as [l' ->]. set_solver.
Qed.
Lemma storable_take n s : forallb storable (decode_page from to types s) = true →
  forallb storable (decode_page from to types (take n s)) = true ∧ forallb storable (decode_page from to types (drop n s)) = true.
Proof. rewrite <-(take_drop n s) at 1. rewrite decode_app, forallb_app. apply andb_true_iff. Qed.

Lemma page_loop_ok fuel pre s p t :
  hist = pre ++ s → p_past p = false → suffix (p_cursor p) hist = s →
  (truthy (p_cursor p) = false ∨ Some (p_cursor p) ∈ (rec_paging_token <$> hist)) →
  (length s < fuel)%nat → forallb storable (decode_page from to types s) = true →
  ∃ p' t', page_loop Number fetch horizonUrl contractId (Some (Z.of_nat limit)) from to types dry fuel p t
    = (Ok (Some p'), t') ∧ paged s p t p' t'.
Proof.
  revert pre s p t. induction fuel as [|fuel IH]; intros pre s p t Hh Hpast Hsuf Hcur Hlen Hstorable; [lia|].
  cbn [page_loop]. rewrite Hpast. change (p_cursor (next_page p)) with (p_cursor p).
  rewrite (fetch_suffix _ _ Hcur Hsuf).
  cbv iota beta. set (page := take limit s). case_bool_decide as Hp.
  - assert (s = []) as ->.
    { apply nil_length_inv. apply (f_equal length) in Hp. subst page. rewrite length_take in Hp. simpl in Hp. lia. }
    eexists _, _. split; [done|].
    split; [destruct dry; by destruct t|simpl; try done; try lia..]. destruct dry; simpl; lia.
  - rewrite <-(take_drop limit s) in Hh. fold page in Hh.
    destruct (storable_take limit s Hstorable) as [Hst Hst']. fold page in Hst.
    destruct (handle_page_ok page (next_page p) t Hpast Hst) as (p1 & t1 & Hr1 & Hp1 & Hc1).
    rewrite (bind_ok _ _ _ _ _ Hr1).
    assert (paged page p t p1 t1) as Hp1' by (by destruct Hp1; split).
    cbn [num_test]. destruct (Z.ltb_spec (Z.of_nat (length page)) (Z.of_nat limit)) as [Hlt|Hge].
    + assert (page = s) as Hps by (unfold page in *; rewrite length_take in Hlt; apply take_ge; lia).
      exists p1, t1. rewrite Hps in Hp1'. done.
    + destruct (page_token pre s) as [c Hc]; [by rewrite Hh; unfold page; rewrite take_drop|done|]. fold page in Hc.
      destruct (serves_next _ _ _ _ _ _ _ _ Hserves Hh Hc) as (Hs' & Ht' & Hin).
      rewrite Hc, Ht'.
      destruct (IH (pre ++ page) (drop limit s) (set_cursor c p1) t1) as (p2 & t2 & Hr2 & Hp2).
      * by rewrite Hh, (assoc_L (++)).
      * apply (pg_past _ _ _ _ _ Hp1).
      * exact Hs'.
      * by right.
      * rewrite length_drop. destruct s; [by subst page; rewrite take_nil in Hp|simpl in *; lia].
      * exact Hst'.
      * exists p2, t2. split; [done|]. rewrite <-(take_drop limit s). eapply paged_compose; [exact Hp1'|].
        by destruct Hp2; split.
Qed.

(** The loop ends in an error at the first page with an event that does not
    fit: the pages before it are stored. *)
Lemma page_loop_fails fuel pre s p t :
  dry = false → hist = pre ++ s → p_past p = false → suffix (p_cursor p) hist = s →
  (truthy (p_cursor p) = false ∨ Some (p_cursor p) ∈ (rec_paging_token <$> hist)) →
  (length s < fuel)%nat → forallb storable (decode_page from to types s) = false →
  ∃ e k, let done := take (k * limit) s in
    page_loop Number fetch horizonUrl contractId (Some (Z.of_nat limit)) from to types dry fuel p t
      = (Err e, with_events (λ m, put_events m (decode_page from to types done)) t) ∧ (k * limit < length s)%nat ∧
    forallb storable (decode_page from to types done) = true ∧
    forallb storable (decode_page from to types (take limit (drop (k * limit) s))) = false.
Proof.
  intros Hdry. revert pre s p t.
  induction fuel as [|fuel IH]; intros pre s p t Hh Hpast Hsuf Hcur Hlen Hns; [lia|].
  cbn [page_loop]. rewrite Hpast. change (p_cursor (next_page p)) with (p_cursor p).
  rewrite (fetch_suffix _ _ Hcur Hsuf). cbv iota beta. set (page := take limit s).
  assert (Hne : page ≠ []).
  { unfold page. destruct s; [done|]. destruct limit; [lia|done]. }
  rewrite bool_decide_eq_false_2 by done.
  destruct (forallb storable (decode_page from to types page)) eqn:Hst.
  - destruct (handle_page_ok page (next_page p) t Hpast Hst) as (p1 & t1 & Hr1 & Hp1 & Hc1).
    rewrite (bind_ok _ _ _ _ _ Hr1). cbn [num_test].
    assert (Hfull : length page = limit).
    { unfold page in *. rewrite length_take. destruct (Nat.le_gt_cases limit (length s)); [lia|].
      rewrite take_ge in Hst by lia. congruence. }
    rewrite (proj2 (Z.ltb_ge _ _)) by lia. destruct (page_token pre s Hh Hne) as [c Hc]. fold page in Hc.
    assert (Hh' : hist = pre ++ page ++ drop limit s) by (unfold page; by rewrite take_drop).
    destruct (serves_next _ _ _ _ _ _ _ _ Hserves Hh' Hc) as (Hs' & Ht' & Hin). rewrite Hc, Ht'.
    destruct (IH (pre ++ page) (drop limit s) (set_cursor c p1) t1) as (e & k & Hr & Hk & Hd & Hn).
    + by rewrite Hh', (assoc_L (++)).
    + apply (pg_past _ _ _ _ _ Hp1).
    + exact Hs'.
    + by right.
    + rewrite length_drop. destruct s; [done|simpl in *; lia].
    + rewrite <-(take_drop limit s) in Hns. fold page in Hns. by rewrite decode_app, forallb_app, Hst in Hns.
    + rewrite length_drop in Hk. exists e, (S k). cbv zeta in *. replace (S k * limit)%nat with (limit + k * limit)%nat by lia.
      rewrite <-take_take_drop, decode_app. fold page. split_and!; [|lia|by rewrite forallb_app, Hst|by rewrite <-drop_drop].
      rewrite Hr, (pg_rows _ _ _ _ _ Hp1), Hdry. unfold with_events. simpl. by rewrite put_events_app.
  - destruct (upsertEvents_fails _ t Hst) as [e He]. exists e, 0%nat. cbv zeta. simpl. split_and!; [|destruct s; [done|simpl; lia]|done|done].
    assert (Hev : decode_page from to types page ≠ []) by (by intros H; rewrite H in Hst).
    unfold handle_page. rewrite Hdry, (bool_decide_eq_true_2 _ Hev). cbn [negb andb].
    rewrite (bind_err _ _ _ e t); [by destruct t|]. by rewrite (bind_err _ _ _ e t).
Qed.
End loop.

Lemma put_events_union m evs : put_events m evs = put_events ∅ evs ∪ m.
Proof.
  induction evs as [|ev evs IH] using rev_ind; [simpl; by rewrite (left_id_L ∅ (∪))|].
  rewrite !put_events_app, IH. simpl. unfold put_event. destruct (truthy (tx_hash ev)); [|done].
  destruct (row_of ev); [|done]. by rewrite insert_union_l.
Qed.
Lemma put_events_again m evs : put_events (put_events m evs) evs = put_events m evs.
Proof.
  rewrite (put_events_union m), (put_events_union (_ ∪ m)), (assoc_L (∪)). f_equal. apply map_union_idemp.
Qed.

Lemma find_gaps_spec fuel l to present found :
  (length found < 50)%nat → fuel = Z.to_nat (to - l + 1) →
  find_gaps fuel l to present found
  = take 50 (found ++ filter (λ x, x ∉ present) (seqZ l (to - l + 1))).
Proof.
  intros Hlen ->. remember (Z.to_nat (to - l + 1)) as n eqn:Hn. revert l found Hlen Hn.
  induction n as [|n IH]; intros l found Hlen Hn; cbn [find_gaps].
  - rewrite seqZ_nil, filter_nil, (right_id_L [] (++)), take_ge by lia. done.
  - destruct (Z.ltb_spec to l); [lia|]. rewrite seqZ_cons by lia.
    replace (Z.pred (to - l + 1)) with (to - (l + 1) + 1) by lia.
    rewrite filter_cons. case_bool_decide as Hin.
    + rewrite decide_False by tauto. destruct (Z.leb_spec 50 (Z.of_nat (length found))); [lia|].
      rewrite IH by lia. by rewrite <-Z.add_1_r.
    + rewrite decide_True by done.
      match goal with |- _ = take 50 (found ++ l :: ?r) =>
        replace (found ++ l :: r) with ((found ++ [l]) ++ r) by (by rewrite <-(assoc_L (++))) end.
      destruct (Z.leb_spec 50 (Z.of_nat (length (found ++ [l])))) as [Hge|Hlt].
      * assert (length (found ++ [l]) = 50%nat) as H50 by (rewrite length_app in Hge |- *; simpl in Hge |- *; lia).
        symmetry. by apply take_app_length'.
      * rewrite IH by lia. by rewrite <-Z.add_1_r.
Qed.

Lemma count_type_cons et r rows :
  count_type et (r :: rows) = (if decide (row_type r = et) then 1 else 0) + count_type et rows.
Proof. unfold count_type. rewrite filter_cons. case_decide; cbn [length]; lia. Qed.
Lemma type_counts_total rows : foldr (λ p acc, p.2 + acc) 0 (type_counts rows) = Z.of_nat (length rows).
Proof.
  assert (∀ l : list (EventType * Z),
    foldr (λ p acc, p.2 + acc) 0 (filter (λ p, p.2 ≠ 0) l) = foldr (λ p acc, p.2 + acc) 0 l) as Hf.
  { induction l as [|p l IH]; [done|]. rewrite filter_cons. case_decide; simpl; lia. }
  unfold type_counts. rewrite Hf. clear Hf.
  induction rows as [|r rows IH]; [done|]. cbn [fmap list_fmap foldr snd] in IH |- *.
  rewrite !count_type_cons. cbn [length]. rewrite Nat2Z.inj_succ, <-IH.
  destruct (row_type r); repeat (case_decide; [|try congruence]); try congruence; lia.
Qed.

Lemma parseLedger_pos flag raw n : parseLedger flag raw = Ok n → 0 < n.
Proof.
  unfold parseLedger. destruct raw as [s|]; [|done]. destruct (parse_int _) as [v|]; [|done].
  destruct (Z.leb_spec v 0); intros; by simplify_eq.
Qed.
Definition positive_bound (o : option Z) : Prop := match o with Some n => 0 < n | None => True end.
Lemma parse_flags_pos argv f f' :
  parse_flags argv f = Ok f' → positive_bound (f_from f) → positive_bound (f_to f) →
  positive_bound (f_from f') ∧ positive_bound (f_to f').
Proof.
  remember (length argv) as n eqn:Hn. revert argv f Hn.
  induction n as [n IH] using lt_wf_ind. intros argv f -> Hp Hf Ht.
  assert (Hrec : ∀ l g, (length l < length argv)%nat → parse_flags l g = Ok f' →
    positive_bound (f_from g) → positive_bound (f_to g) →
    positive_bound (f_from f') ∧ positive_bound (f_to f')) by (intros; by eapply IH).
  clear IH. destruct argv as [|a l]; cbn [parse_flags] in Hp; [by simplify_eq|].
  repeat case_bool_decide; try (by eapply Hrec in Hp; simpl; eauto with lia).
  - destruct (parseLedger a (head l)) as [k|] eqn:Hk; [|done]. apply parseLedger_pos in Hk.
    destruct l; [by simplify_eq|]. eapply Hrec in Hp; simpl in *; eauto with lia.
  - destruct (parseLedger a (head l)) as [k|] eqn:Hk; [|done]. apply parseLedger_pos in Hk.
    destruct l; [by simplify_eq|]. eapply Hrec in Hp; simpl in *; eauto with lia.
  - destruct l; [done|]. eapply Hrec in Hp; simpl in *; eauto with lia.
Qed.
Lemma env_ledger_pos flag var : positive_bound flag → positive_bound (env_ledger flag var).
Proof.
  unfold env_ledger. destruct flag, var; try done. case_match; [|done]. case_match; [|done].
  case_match; simpl; [lia|done].
Qed.

(** ** Properties *)

(** *** What a run should store *)

(** The events the operator asked for: those of all records, of the types of
    the options (all when none is given) and in the range of ledgers; a ledger
    that is not a number is in no way out of range. *)
Definition asked_for (from to : Z) (types : list EventType) (ev : DecodedEvent) : Prop :=
  (types = [] ∨ event_type ev ∈ types) ∧ ∀ l, ledger_sequence ev = Some l → from <= l <= to.
#[local] Instance asked_for_dec from to types ev : Decision (asked_for from to types ev).
Proof.
  refine (cast_if (decide ((types = [] ∨ event_type ev ∈ types) ∧
    (match ledger_sequence ev with Some l => (from <=? l) && (l <=? to) | None => true end) = true)));
  abstract (unfold asked_for; destruct (ledger_sequence ev); rewrite ?andb_true_iff, ?Z.leb_le in *; naive_solver).
Defined.
Definition events_asked (from to : Z) (types : list EventType) (hist : list HorizonEventRecord) : list DecodedEvent :=
  filter (asked_for from to types) (omap (λ r, decodeEvent r (DecodeContext_ None None [])) hist).
(** The columns of migration 004: addresses of at most 56 characters, a hash
    of at most 64, a 32-bit ledger; an event without a hash is not written. *)
Definition fits_columns (ev : DecodedEvent) : Prop :=
  tx_hash ev = "" ∨
  str_length (recipient ev) <= 56 ∧ (∀ s, sponsor ev = Some s → str_length s <= 56) ∧
  (∀ s, token ev = Some s → str_length s <= 56) ∧ str_length (tx_hash ev) <= 64 ∧
  ∃ l, ledger_sequence ev = Some l ∧ - 2 ^ 31 <= l < 2 ^ 31.
(** The table after the events, on top of [old]: each hash has the values of
    its last event. *)
Definition rows_after (evs : list DecodedEvent) (old : gmap string bf_row) (hash : string) : option bf_row :=
  match last (filter (λ ev, tx_hash ev = hash) evs) with
  | Some ev =>
      if decide (hash = "") then old !! hash
      else Some (BfRow (event_type ev) (recipient ev) (sponsor ev) (token ev) (amount ev) (default 0 (ledger_sequence ev)))
  | None => old !! hash
  end.

Lemma asked_for_test from to types ev :
  bool_decide (asked_for from to types ev) =
    negb (bool_decide (types ≠ []) && negb (bool_decide (event_type ev ∈ types)))
    && negb (out_of_range (ctx from to types) (ledger_sequence ev)).
Proof.
  apply Bool.eq_true_iff_eq. rewrite bool_decide_eq_true, andb_true_iff, !negb_true_iff, andb_false_iff, negb_false_iff.
  rewrite bool_decide_eq_false, bool_decide_eq_true. unfold asked_for, out_of_range, ctx, num_test. simpl.
  rewrite orb_false_iff. destruct (decide (types = [])), (ledger_sequence ev); rewrite ?Z.ltb_ge; naive_solver lia.
Qed.
Lemma decodeEvent_asked from to types r :
  decodeEvent r (ctx from to types) =
    ev ← decodeEvent r (DecodeContext_ None None []); if decide (asked_for from to types ev) then Some ev else None.
Proof.
  assert (Hif : ∀ ev, (if decide (asked_for from to types ev) then Some ev else None) =
    if bool_decide (types ≠ []) && negb (bool_decide (event_type ev ∈ types)) then None
    else if out_of_range (ctx from to types) (ledger_sequence ev) then None else Some ev).
  { intros ev. pose proof (asked_for_test from to types ev) as H.
    destruct (decide (asked_for from to types ev)); [rewrite bool_decide_eq_true_2 in H by done|rewrite bool_decide_eq_false_2 in H by done];
      destruct (bool_decide (types ≠ []) && _), (out_of_range _ _); done. }
  unfold decodeEvent. destruct (known_event_type _) as [et|]; [|done]. cbn [mbind option_bind ctx_types].
  rewrite (bool_decide_eq_false_2 ([] ≠ [])) by (by intros []). cbn [andb].
  change (out_of_range (DecodeContext_ None None []) _) with false. cbn iota.
  destruct et; cbn [mbind option_bind]; rewrite Hif; cbn [event_type ledger_sequence]; done.
Qed.
Lemma decode_page_asked from to types hist : decode_page from to types hist = events_asked from to types hist.
Proof.
  unfold decode_page, events_asked. induction hist as [|r hist IH]; [done|]. cbn [omap list_omap].
  rewrite decodeEvent_asked, IH. destruct (decodeEvent r _) as [ev|]; [|done]. cbn [mbind option_bind].
  rewrite filter_cons. by destruct (decide (asked_for from to types ev)).
Qed.

Lemma short_iff n o : short n o = true ↔ ∀ s, o = Some s → str_length s <= n.
Proof. unfold short. destruct o as [s|]; [rewrite Z.leb_le|]; naive_solver. Qed.
Lemma row_of_fits_iff ev : is_ok (row_of ev) = true ↔
  short 56 (Some (recipient ev)) = true ∧ short 56 (sponsor ev) = true ∧ short 56 (token ev) = true ∧
  short 64 (Some (tx_hash ev)) = true ∧ ∃ l, ledger_sequence ev = Some l ∧ - 2 ^ 31 <= l < 2 ^ 31.
Proof.
  unfold row_of. destruct (short 56 (Some (recipient ev))), (short 56 (sponsor ev)), (short 56 (token ev)),
    (short 64 (Some (tx_hash ev))); simpl; try naive_solver.
  destruct (ledger_sequence ev) as [l|]; [|naive_solver]. unfold fits, num_test. cbn [Z.sub].
  destruct (_ && _) eqn:Hl; simpl.
  - split; [|done]. intros _. split_and!; try done. exists l. split; [done|lia].
  - split; [done|]. intros (_ & _ & _ & _ & l' & [= <-] & ?). lia.
Qed.
Lemma storable_fits ev : storable ev = true ↔ fits_columns ev.
Proof.
  unfold storable, fits_columns. rewrite orb_true_iff, row_of_fits_iff, !short_iff. unfold truthy. rewrite negb_true_iff, bool_decide_eq_false.
  destruct (decide (tx_hash ev = "")); naive_solver.
Qed.
Lemma forallb_storable evs : forallb storable evs = true ↔ Forall fits_columns evs.
Proof.
  rewrite forallb_forall, Forall_forall. setoid_rewrite storable_fits. by setoid_rewrite list_elem_of_In.
Qed.
Lemma hashed_nonempty evs : hashed evs = filter (λ ev, tx_hash ev ≠ "") evs.
Proof. apply list_filter_iff. intros ev. unfold truthy. by rewrite bool_decide_eq_true. Qed.
Lemma put_events_rows evs m hash : Forall fits_columns evs → put_events m evs !! hash = rows_after evs m hash.
Proof.
  induction evs as [|ev evs IH] using rev_ind; [done|]. intros [Hevs [Hev _]%Forall_cons]%Forall_app.
  rewrite put_events_app. simpl. unfold rows_after. rewrite filter_app, filter_cons, filter_nil.
  apply storable_fits in Hev. unfold storable in Hev. unfold put_event. specialize (IH Hevs). unfold rows_after in IH.
  destruct (truthy (tx_hash ev)) eqn:Ht; unfold truthy in Ht.
  - apply bool_decide_eq_true in Ht. apply row_of_fits_iff in Hev as Hok. destruct Hok as (_ & _ & _ & _ & l & Hl & _).
    simpl in Hev. assert (Hrow : row_of ev = Ok (BfRow (event_type ev) (recipient ev) (sponsor ev) (token ev) (amount ev) l)).
    { unfold row_of in *. rewrite Hl in *. destruct (negb _); [done|]. by destruct (fits 32 (Some l)). }
    rewrite Hrow. destruct (decide (tx_hash ev = hash)) as [<-|Hne].
    + rewrite last_snoc, lookup_insert_eq, decide_False by done. by rewrite Hl.
    + by rewrite lookup_insert_ne, app_nil_r by done.
  - apply bool_decide_eq_false in Ht. apply dec_stable in Ht. rewrite IH, Ht.
    destruct (decide ("" = hash)) as [<-|]; [|by rewrite app_nil_r].
    rewrite last_snoc, decide_True by done. by destruct (last _).
Qed.

(** C37. The backfill terminates, whatever the history: against a Horizon
    server that holds a finite history, with fuel for one request more than
    there are records.  When every event that was asked for (of the given
    types, in the given ledgers) fits the columns of its table, the run
    succeeds, every record was fetched once, each hash has the values of its
    last event and no other row has changed, and the summary counts the
    skipped records, the new rows and the rewritten ones.  When some event does
    not fit, the run throws: it stored exactly the whole pages before the
    first page with such an event.  That is the case for every account
    recipient, see [account_recipient_never_fits]. *)
Theorem run_backfills_history Number fetch horizonUrl contractId limit from to types hist fuel t :
  (0 < limit)%nat →
  serves fetch (λ c, page_url horizonUrl contractId c (Some (Z.of_nat limit))) limit hist →
  (length hist < fuel)%nat →
  let asked := events_asked from to types in
  let answer := run Number fetch horizonUrl contractId (Some (Z.of_nat limit)) from to types false fuel "" t in
  stream_events_dlq answer.2 = stream_events_dlq t ∧
  (Forall fits_columns (asked hist) →
     (∀ hash, stream_events answer.2 !! hash = rows_after (asked hist) (stream_events t) hash) ∧
     ∃ s, answer.1 = Ok (Some s) ∧
       s_fetched s = Z.of_nat (length hist) ∧
       s_skipped s = Z.of_nat (length hist) - Z.of_nat (length (asked hist)) ∧
       s_inserted s = Z.of_nat (size (stream_events answer.2)) - Z.of_nat (size (stream_events t)) ∧
       s_inserted s + s_updated s = Z.of_nat (length (filter (λ ev, tx_hash ev ≠ "") (asked hist)))) ∧
  (¬ Forall fits_columns (asked hist) →
     ∃ e k, answer.1 = Err e ∧ (k * limit < length hist)%nat ∧
       Forall fits_columns (asked (take (k * limit) hist)) ∧
       ¬ Forall fits_columns (asked (take limit (drop (k * limit) hist))) ∧
       ∀ hash, stream_events answer.2 !! hash = rows_after (asked (take (k * limit) hist)) (stream_events t) hash).
Proof.
  intros Hl Hs Hfuel asked answer. unfold asked in *.
  destruct (forallb storable (decode_page from to types hist)) eqn:Hst.
  - destruct (page_loop_ok Number fetch horizonUrl contractId limit from to types false hist Hl Hs
      fuel [] hist (start_progress "") t eq_refl eq_refl eq_refl (or_introl eq_refl) Hfuel Hst)
      as (p & t' & Hr & [-> F S I W Hpast]).
    assert (Ha : answer = (Ok (Some (summary p)), with_events (λ m, put_events m (decode_page from to types hist)) t))
      by (unfold answer, run; by rewrite (bind_ok _ _ _ _ _ Hr)).
    rewrite Ha. rewrite decode_page_asked in *. apply forallb_storable in Hst. simpl in *.
    split_and!; [done| |done]. intros _. split; [intros hash; by apply put_events_rows|].
    exists (summary p). pose proof (decode_length from to types hist) as Hlen. rewrite decode_page_asked in Hlen.
    simpl. split_and!; [done|lia|lia|lia|]. rewrite hashed_nonempty in W. lia.
  - destruct (page_loop_fails Number fetch horizonUrl contractId limit from to types false hist Hl Hs
      fuel [] hist (start_progress "") t eq_refl eq_refl eq_refl eq_refl (or_introl eq_refl) Hfuel Hst)
      as (e & k & Hr & Hk & Hd & Hn).
    assert (Ha : answer = (Err e, with_events (λ m, put_events m (decode_page from to types (take (k * limit) hist))) t))
      by (unfold answer, run; by rewrite (bind_err _ _ _ _ _ Hr)).
    rewrite Ha. rewrite !decode_page_asked in *. simpl. apply not_true_iff_false in Hst, Hn.
    rewrite forallb_storable in Hst, Hn, Hd. split_and!; [done|done|]. intros _. exists e, k.
    split_and!; [done..|]. intros hash. by apply put_events_rows.
Qed.

(** The XDR of the address of an account: the tags of the value, the address
    and the key, and the 32 bytes of the key. *)
Definition account_address (key : list Z) : list Z := [0; 0; 0; 18; 0; 0; 0; 0; 0; 0; 0; 0] ++ key.
Lemma length_of_chars l : String.length (of_chars l) = length l.
Proof. induction l as [|c l IH]; [done|]. simpl. by f_equal. Qed.
Lemma length_split_bytes b : (3 * length (split_bytes b) = 4 * (length b + (3 - length b mod 3) mod 3))%nat.
Proof.
  induction b as [|x|x y|x y z b IH] using buffer_ind3; [done..|]. cbn [split_bytes length].
  replace (S (S (S (length b))) mod 3)%nat with (length b mod 3)%nat by (rewrite <-(Nat.Div0.mod_add (length b) 1 3); f_equal; lia).
  lia.
Qed.

(** The script never stores an event of an account: its recipient column holds
    56 characters, and [decodeAddress] passes on the base 64 text of the
    address, which has 60. *)
Theorem account_recipient_never_fits record ctx ev key sym rest t :
  length key = 32%nat → rec_topic record = Some (sym :: to_base64 (account_address key) :: rest) →
  decodeEvent record ctx = Some ev → truthy (tx_hash ev) = true →
  upsertEvents [ev] t = (Err (PgError string_data_right_truncation), t).
Proof.
  intros Hkey Htop Hev Hh.
  assert (Hr : recipient ev = to_base64 (account_address key)).
  { unfold decodeEvent in Hev. rewrite Htop in Hev. cbn [default from_option id] in Hev.
    destruct (known_event_type _) as [et|]; [|done]. cbn [mbind option_bind] in Hev.
    destruct (_ && _); [done|]. destruct (out_of_range _ _); [done|]. by destruct et; simplify_eq/=. }
  assert (Hlen : str_length (recipient ev) = 60).
  { rewrite Hr. unfold str_length, to_base64. rewrite length_of_chars.
    pose proof (length_split_bytes (account_address key)) as Hl. unfold account_address in *.
    rewrite length_app, Hkey in Hl. simpl in Hl. simpl length. lia. }
  unfold upsertEvents, transaction. rewrite bool_decide_eq_false_2 by done. cbn [fold_each].
  assert (Hstep : upsert_step (Upserted 0 0) ev t = (Err (PgError string_data_right_truncation), t)); [|by rewrite (bind_err _ _ _ _ _ Hstep)].
  unfold upsert_step. rewrite Hh. cbn [negb]. apply bind_err. unfold upsert_event, row_of.
  replace (short 56 (Some (recipient ev))) with false; [done|]. unfold short. rewrite Hlen. done.
Qed.

(** The backfill is idempotent: a second run over the same history inserts
    nothing and leaves the tables as they are. *)
Theorem run_again_inserts_nothing Number fetch horizonUrl contractId limit from to types hist fuel t s t1 :
  (0 < limit)%nat →
  serves fetch (λ c, page_url horizonUrl contractId c (Some (Z.of_nat limit))) limit hist →
  forallb storable (decode_page from to types hist) = true → (length hist < fuel)%nat →
  run Number fetch horizonUrl contractId (Some (Z.of_nat limit)) from to types false fuel "" t
    = (Ok (Some s), t1) →
  ∃ s2, run Number fetch horizonUrl contractId (Some (Z.of_nat limit)) from to types false fuel "" t1
    = (Ok (Some s2), t1) ∧ s_inserted s2 = 0.
Proof.
  intros Hl Hs Hst Hfuel Hrun.
  assert (Hloop : ∀ t, ∃ p t', page_loop Number fetch horizonUrl contractId (Some (Z.of_nat limit)) from to types false
      fuel (start_progress "") t = (Ok (Some p), t') ∧ paged from to types false hist (start_progress "") t p t').
  { intros t0. apply (page_loop_ok Number fetch horizonUrl contractId limit from to types false hist Hl Hs
      fuel [] hist); auto. }
  destruct (Hloop t) as (p & t' & Hr & [Ht' _ _ _ _ _]). unfold run in Hrun.
  rewrite (bind_ok _ _ _ _ _ Hr) in Hrun. injection Hrun as _ Heq.
  destruct (Hloop t1) as (p2 & t2 & Hr2 & [Ht2 _ _ I2 _ _]). exists (summary p2).
  unfold run. rewrite (bind_ok _ _ _ _ _ Hr2).
  assert (t2 = t1) as ->.
  { rewrite Ht2, <-Heq, Ht'. unfold with_events. simpl. by rewrite put_events_again. }
  split; [done|]. simpl in *. lia.
Qed.

(** Options that are accepted are complete: unless help was asked for, both
    ledgers are given, positive and in order. *)
Theorem resolveOptions_valid argv env o :
  resolveOptions argv env = Ok o → help o = false →
  ∃ from to, fromLedger o = Some from ∧ toLedger o = Some to ∧ 0 < from <= to.
Proof.
  unfold resolveOptions. destruct (parseArgs argv) as [cli|] eqn:Hcli; [|done].
  destruct (help cli) eqn:Hh; [intros; simplify_eq; congruence|].
  assert (positive_bound (fromLedger cli) ∧ positive_bound (toLedger cli)) as [Hf Ht].
  { unfold parseArgs in Hcli. destruct (parse_flags _ _) as [f|] eqn:Hp; [|done].
    apply parse_flags_pos in Hp; [|done..]. destruct (f_help f); simplify_eq/=.
    destruct (parseEventTypes _); by simplify_eq/=. }
  apply (env_ledger_pos _ (env "BACKFILL_FROM_LEDGER")) in Hf.
  apply (env_ledger_pos _ (env "BACKFILL_TO_LEDGER")) in Ht.
  destruct (env_ledger (fromLedger cli) _) as [lo|]; [|done].
  destruct (env_ledger (toLedger cli) _) as [hi|]; [|done].
  destruct (Z.ltb_spec hi lo); [done|]. destruct (if bool_decide _ then _ else _); [|done].
  intros [= <-] _. exists lo, hi. simpl in *. split_and!; try done; lia.
Qed.

(** The reconciliation report is right: it counts the rows of the window,
    its per-type counts add up to that number, and the gaps it lists are the
    first fifty ledgers, from the first one with an event to the end of the
    window, that have no event. *)
Theorem reconcile_spec now from to t :
  let r := reconcile now from to t in
  let rows := rows_between from to t in
  dbRowCount r = Z.of_nat (length rows) ∧
  (∀ et n, (et, n) ∈ eventTypeCounts r ↔ n = count_type et rows ∧ n ≠ 0) ∧
  gaps r = (match row_ledger <$> rows with
            | [] => []
            | l :: ls =>
                let start := Z.max (foldr Z.min l ls) from in
                take 50 (filter (λ x, x ∉ l :: ls) (seqZ start (to - start + 1)))
            end).
Proof.
  intros r rows. unfold r, reconcile. fold rows. cbn [dbRowCount eventTypeCounts gaps]. split_and!.
  - apply type_counts_total.
  - intros et n. unfold type_counts. rewrite list_elem_of_filter, list_elem_of_fmap. simpl. split.
    + intros (Hn & et' & ? & _). by simplify_eq.
    + intros [-> Hn]. split; [done|]. exists et. split; [done|]. destruct et; set_solver.
  - destruct (row_ledger <$> rows) as [|l ls]; [done|]. by rewrite find_gaps_spec by (simpl; lia).
Qed.

(** ** Witnesses *)

Definition demo_record (n : string) (ledger : Z) (sym : string) (value : string) : HorizonEventRecord :=
  Record_ (Some (n +:+ "-0")) (Some ("cur-" +:+ n)) (LedgerNumber ledger) None
    (Some [sc_symbol [0; 0; 0; 15] [] sym; "GALICE"]) (ValueXdr value).
Definition demo_amount : string := to_base64 (to_big_endian 16 250).
Definition demo_hist : list HorizonEventRecord :=
  [demo_record "h1" 100 "vc_claim" demo_amount; demo_record "h2" 101 "vc_other" "";
   demo_record "h3" 102 "vc_cancel" demo_amount].
Definition demo_url (c : string) : string := page_url "https://h" "CID" c (Some 2).
Definition demo_fetch (u : string) : http events_body :=
  match list_find (λ c, demo_url c = u) ["cur-h1"; "cur-h2"; "cur-h3"] with
  | Some (_, c) => Response 200 (Some (Some (take 2 (suffix c demo_hist))))
  | None => Response 200 (Some (Some (take 2 demo_hist)))
  end.
Definition demo_number : string → number := λ _, NaN.

Lemma demo_serves : serves demo_fetch (λ c, page_url "https://h" "CID" c (Some (Z.of_nat 2))) 2 demo_hist.
Proof.
  split.
  - apply (bool_decide_unpack _). vm_compute. exact I.
  - repeat constructor; (eexists; split; [reflexivity|vm_compute; reflexivity]).
  - intros c [Hc|Hc].
    + unfold truthy in Hc. apply bool_decide_eq_false in Hc. apply dec_stable in Hc as ->.
      vm_compute. reflexivity.
    + cbn in Hc. rewrite !elem_of_cons in Hc.
      destruct Hc as [[= ->]|[[= ->]|[[= ->]|[]%not_elem_of_nil]]]; vm_compute; reflexivity.
Qed.

Definition empty_tables : tables := Tables ∅ ∅.

Lemma run_backfills_history_witness :
  ∃ s, fst (run demo_number demo_fetch "https://h" "CID" (Some (Z.of_nat 2)) 100 200 [] false 4 "" empty_tables)
    = Ok (Some s) ∧ s_fetched s = 3 ∧ s_skipped s = 1.
Proof.
  destruct (run_backfills_history demo_number demo_fetch "https://h" "CID" 2 100 200 [] demo_hist 4 empty_tables)
    as (_ & Hok & _).
  - lia.
  - exact demo_serves.
  - simpl. lia.
  - destruct Hok as (_ & s & Hr & Hf & Hsk & _).
    + apply forallb_storable. vm_compute. reflexivity.
    + exists s. split; [exact Hr|]. split; [rewrite Hf; reflexivity|]. rewrite Hsk. vm_compute. reflexivity.
Defined.

Lemma account_recipient_never_fits_witness :
  upsertEvents [DecodedEvent_ vc_claim (to_base64 (account_address (replicate 32 7))) None None (Some 250) (Some 100) "h1"]
    empty_tables = (Err (PgError string_data_right_truncation), empty_tables).
Proof.
  apply (account_recipient_never_fits
    (Record_ (Some "h1-0") (Some "c1") (LedgerNumber 100) None
      (Some [sc_symbol [0; 0; 0; 15] [] "vc_claim"; to_base64 (account_address (replicate 32 7))]) (ValueXdr demo_amount))
    (DecodeContext_ None None []) _ (replicate 32 7) (sc_symbol [0; 0; 0; 15] [] "vc_claim") [] empty_tables).
  - reflexivity.
  - reflexivity.
  - vm_compute. reflexivity.
  - vm_compute. reflexivity.
Defined.

Definition demo_tables : tables :=
  snd (run demo_number demo_fetch "https://h" "CID" (Some (Z.of_nat 2)) 100 200 [] false 4 "" empty_tables).
Definition demo_summary : RunSummary := Summary 3 2 0 1 0 2 false (Some "cur-h2") (Some (Some 102)).
Lemma run_again_inserts_nothing_witness :
  ∃ s2, run demo_number demo_fetch "https://h" "CID" (Some (Z.of_nat 2)) 100 200 [] false 4 "" demo_tables
    = (Ok (Some s2), demo_tables) ∧ s_inserted s2 = 0.
Proof.
  apply (run_again_inserts_nothing demo_number demo_fetch "https://h" "CID" 2 100 200 [] demo_hist 4
    empty_tables demo_summary demo_tables).
  - lia.
  - exact demo_serves.
  - vm_compute. reflexivity.
  - simpl. lia.
  - vm_compute. reflexivity.
Defined.

Definition demo_argv : list string := ["--start-ledger"; "5"; "--dry-run"; "--event-type"; "vc_claim, vc_drain"].
Definition demo_env (k : string) : option string := if decide (k = "BACKFILL_TO_LEDGER") then Some "9" else None.
Lemma resolveOptions_valid_witness :
  ∃ o from to, resolveOptions demo_argv demo_env = Ok o ∧ fromLedger o = Some from ∧
    toLedger o = Some to ∧ 0 < from <= to.
Proof.
  exists (CliOptions_ (Some 5) (Some 9) [vc_claim; vc_drain] true true false).
  destruct (resolveOptions_valid demo_argv demo_env (CliOptions_ (Some 5) (Some 9) [vc_claim; vc_drain] true true false))
    as (lo & hi & Hlo & Hhi & H).
  - vm_compute. reflexivity.
  - reflexivity.
  - exists lo, hi. split; [vm_compute; reflexivity|]. split; [exact Hlo|]. split; [exact Hhi|exact H].
Defined.
