(* ===== verification/AdminBackfill.v ===== *)
(** * The backfill endpoint of the admin API

    [backend/src/admin/backfill.ts] with migration [006_create_backfill_jobs.ts]:
    the second backfill of the repository.  It runs in the background of a
    request, inserts with [ON CONFLICT DO NOTHING], and keeps its progress in a
    row of [backfill_jobs].  [fetch] is a parameter, as in [Backfill], whose
    table of migration 004 and whose Horizon history this file shares. *)
From stdpp Require Import sorting.
From S2P Require Import Prelude Bytes Decoder Db HorizonClient Backfill UrlText.

(** ** Event decoding *)

Definition decodeSymbol (xdr : string) : string :=
  let buf := from_base64 xdr in
  if 8 <? buf_length buf then trim (strip_nul (to_utf8 (subarray_from 8 buf)))
  else trim (strip_nonprintable (to_utf8 buf)).

Definition decodeAddress (xdr : string) : string := xdr.

Definition decodeBigInt (xdr : option string) : option Z :=
  match xdr with
  | None => None
  | Some x =>
      if negb (truthy x) then None else
      let buf := from_base64 x in
      if 8 <=? buf_length buf then readBigInt64BE (buf_length buf - 8) buf else None
  end.

Record DecodedEvent := DecodedEvent_ {
  event_type : EventType;
  recipient : string;
  sponsor : option string;
  token : option string;
  amount : option Z;
  ledger_sequence : number;
  tx_hash : string;
  event_index : number }.

(** [typeof value.xdr === "string" ? [value.xdr] : Array.isArray(value) ? value : []] *)
Definition value_fields (value : event_value) : list (option string) :=
  match value with
  | ValueXdr xdr => [Some xdr]
  | ValueArray vs => vs
  | _ => []
  end.

Definition event_index_of (record : HorizonEventRecord) : number :=
  match rec_id record with
  | Some i => parse_int (default "0" (split_on "-" i !! 1%nat))
  | None => Some 0
  end.

Definition decodeEvent (record : HorizonEventRecord) (fromLedger toLedger : Z) : option DecodedEvent :=
  let topics := default [] (rec_topic record) in
  eventType ← known_event_type (decodeSymbol (default "" (topics !! 0%nat)));
  let recipient := decodeAddress (default "" (topics !! 1%nat)) in
  let txHash := tx_hash_of record in
  let eventIndex := event_index_of record in
  let ledger := ledger_number (rec_ledger record) in
  if num_test (λ l, l <? fromLedger) ledger || num_test (λ l, toLedger <? l) ledger then None else
  let valueFields := value_fields (rec_value record) in
  let ev sponsor token amount :=
    Some (DecodedEvent_ eventType recipient sponsor token amount ledger txHash eventIndex) in
  match eventType with
  | vc_create =>
      ev (Some (decodeAddress (match topics !! 2%nat with Some t => t | None => field 0 valueFields "" end)))
         (Some (decodeAddress (field 1 valueFields ""))) None
  | vc_claim | vc_cancel => ev None None (decodeBigInt (mjoin (valueFields !! 0%nat)))
  | vc_drain => ev (Some (decodeAddress (field 0 valueFields ""))) None (decodeBigInt (mjoin (valueFields !! 1%nat)))
  | vc_done => ev None (Some (decodeAddress (field 0 valueFields ""))) None
  end.

(** ** State *)

(** [backfill_job_status] *)
Inductive job_status := pending | running | completed | failed.
#[global] Instance job_status_eq_dec : EqDecision job_status.
Proof. solve_decision. Defined.

Record BackfillJob := Job {
  from_ledger : Z;
  to_ledger : Z;
  job_state : job_status;
  events_fetched : Z;
  events_inserted : Z;
  events_skipped : Z;
  last_cursor : option string;
  created_at : Z;
  started_at : option Z;
  completed_at : option Z;
  error_message : option string }.

(** [stream_events] by [tx_hash], [backfill_jobs] by [id], and the Prometheus
    counter [backfill_events_processed_total]. *)
Record admin := Admin {
  events : gmap string bf_row;
  backfill_jobs : gmap string BackfillJob;
  processed_total : Z }.

Definition with_events f (s : admin) : admin := Admin (f (events s)) (backfill_jobs s) (processed_total s).
Definition with_jobs f (s : admin) : admin := Admin (events s) (f (backfill_jobs s)) (processed_total s).
Definition with_total f (s : admin) : admin := Admin (events s) (backfill_jobs s) (f (processed_total s)).

(** ** Database helpers *)

Definition new_job (now fromLedger toLedger : Z) : BackfillJob :=
  Job fromLedger toLedger running 0 0 0 None now (Some now) None None.

(** [jobId] is what [gen_random_uuid()] gives; both ledgers are [integer]
    columns. *)
Definition createJob (now : Z) (jobId : string) (fromLedger toLedger : Z) : M admin exn BackfillJob :=
  if negb (fits 32 (Some fromLedger) && fits 32 (Some toLedger))
  then throw (PgError numeric_value_out_of_range)
  else
    modify (with_jobs <[jobId := new_job now fromLedger toLedger]>) ;;;
    ret (new_job now fromLedger toLedger).

Definition set_progress (fetched inserted skipped : Z) (lastCursor : option string) (j : BackfillJob) : BackfillJob :=
  Job (from_ledger j) (to_ledger j) (job_state j) fetched inserted skipped lastCursor (created_at j)
    (started_at j) (completed_at j) (error_message j).
Definition updateJobProgress (jobId : string) (fetched inserted skipped : Z) (lastCursor : string)
    : M admin exn unit :=
  modify (with_jobs (alter (set_progress fetched inserted skipped (Some lastCursor)) jobId)).

Definition set_completed (now : Z) (j : BackfillJob) : BackfillJob :=
  Job (from_ledger j) (to_ledger j) completed (events_fetched j) (events_inserted j) (events_skipped j)
    (last_cursor j) (created_at j) (started_at j) (Some now) (error_message j).
Definition completeJob (now : Z) (jobId : string) : M admin exn unit :=
  modify (with_jobs (alter (set_completed now) jobId)).

Definition set_failed (now : Z) (errorMessage : string) (j : BackfillJob) : BackfillJob :=
  Job (from_ledger j) (to_ledger j) failed (events_fetched j) (events_inserted j) (events_skipped j)
    (last_cursor j) (created_at j) (started_at j) (Some now) (Some errorMessage).
Definition failJob (now : Z) (jobId errorMessage : string) : M admin exn unit :=
  modify (with_jobs (alter (set_failed now errorMessage) jobId)).

(** The row of an event, or the column that rejects it; the event index is
    not stored. *)
Definition row_of (ev : DecodedEvent) : result exn bf_row :=
  Backfill.row_of (Backfill.DecodedEvent_ (event_type ev) (recipient ev) (sponsor ev) (token ev)
    (amount ev) (ledger_sequence ev) (tx_hash ev)).

(** [INSERT ... ON CONFLICT (tx_hash) DO NOTHING] and its row count. *)
Definition insert_event (inserted : Z) (ev : DecodedEvent) : M admin exn Z := λ s,
  match row_of ev with
  | Err e => (Err e, s)
  | Ok row =>
      match events s !! tx_hash ev with
      | Some _ => (Ok inserted, s)
      | None => (Ok (inserted + 1), with_events <[tx_hash ev := row]> s)
      end
  end.

Definition upsertEvents (evs : list DecodedEvent) : M admin exn Z :=
  if bool_decide (evs = []) then ret 0 else transaction (fold_each evs 0 insert_event).

(** ** The runner *)

(** [PAGE_LIMIT] *)
Definition page_limit (env : option string) : number := Z.min 200 <$> parse_int (default "200" env).

(** [HORIZON_URL] is a base that [new URL] leaves as it is. *)
Definition page_url (horizonUrl contractId cursor : string) (pageLimit : number) : string :=
  horizonUrl +:+ "/contracts/" +:+ contractId +:+ "/events?" +:+ form_pairs
    ([("limit", match pageLimit with Some n => Z_to_string n | None => "NaN" end); ("order", "asc")]
     ++ if truthy cursor then [("cursor", cursor)] else []).

Definition fetchPage (fetch : string → http events_body) (horizonUrl : string) (pageLimit : number)
    (cursor contractId : string) : result exn (list HorizonEventRecord * option string) :=
  match fetch (page_url horizonUrl contractId cursor pageLimit) with
  | FetchRejects e => Err e
  | Response st body =>
      if negb (http_ok st) then Err (HorizonHttpError st)
      else match body with
           | None => Err (OtherError "invalid json")
           | Some rs =>
               let records := default [] rs in
               Ok (records, last records ≫= rec_paging_token)
           end
  end.

(** The local variables of the loop. *)
Record progress := Progress {
  totalFetched : Z;
  totalInserted : Z;
  totalSkipped : Z;
  cursor : string;
  pastEnd : bool }.

Section run.
Context (fetch : string → http events_body).
Context (horizonUrl : string) (pageLimit : number).
(** The text of an exception. *)
Context (message : exn → string).
Context (now : Z) (contractId jobId : string) (from to : Z).

Definition decode_page (records : list HorizonEventRecord) : list DecodedEvent :=
  omap (λ r, decodeEvent r from to) records.
(** [if (ev.ledger_sequence >= toLedger) pastEnd = true] *)
Definition reaches_end (evs : list DecodedEvent) : bool :=
  existsb (λ ev, num_test (λ l, to <=? l) (ledger_sequence ev)) evs.

(** One page: decoding, the inserts, the metric and the progress row. *)
Definition handle_page (records : list HorizonEventRecord) (nextCursor : option string) (p : progress)
    : M admin exn progress :=
  let decoded := decode_page records in
  let fetched := totalFetched p + Z.of_nat (length records) in
  let skipped := totalSkipped p + Z.of_nat (length records - length decoded) in
  let! insertedThisPage := upsertEvents decoded in
  let inserted := totalInserted p + insertedThisPage in
  (if 0 <? insertedThisPage then modify (with_total (Z.add insertedThisPage)) else ret tt) ;;;
  updateJobProgress jobId fetched inserted skipped (default (cursor p) nextCursor) ;;;
  ret (Progress fetched inserted skipped (cursor p) (pastEnd p || reaches_end decoded)).

Definition set_cursor (c : string) (p : progress) : progress :=
  Progress (totalFetched p) (totalInserted p) (totalSkipped p) c (pastEnd p).

(** The [while] loop; [None] when the fuel ran out. *)
Fixpoint page_loop (fuel : nat) (p : progress) : M admin exn (option progress) :=
  if pastEnd p then ret (Some p) else
  match fuel with
  | O => ret None
  | S fuel =>
      match fetchPage fetch horizonUrl pageLimit (cursor p) contractId with
      | Err e => throw e
      | Ok (records, nextCursor) =>
          if bool_decide (records = []) then ret (Some p) else
          let! p := handle_page records nextCursor p in
          match nextCursor with
          | Some c =>
              if negb (truthy c) || num_test (λ n, Z.of_nat (length records) <? n) pageLimit
              then ret (Some p) else page_loop fuel (set_cursor c p)
          | None => ret (Some p)
          end
      end
  end.

(** The background run.  [false]: the fuel ran out, the job is still running. *)
Definition runBackfill (fuel : nat) : M admin exn bool :=
  if negb (truthy contractId) then failJob now jobId "CONTRACT_ID not configured" ;;; ret true
  else try_catch
    (let! r := page_loop fuel (Progress 0 0 0 "" false) in
     match r with
     | Some _ => completeJob now jobId ;;; ret true
     | None => ret false
     end)
    (λ e, failJob now jobId (message e) ;;; ret true).
End run.

(** ** The request handler *)

(** [parseInt(req.query.x)]: a missing parameter is [NaN]. *)
Definition query_ledger (q : option string) : number := q ≫= parse_int.

(** [POST /admin/backfill]: the status code, and the job whose run the handler
    schedules. *)
Definition startBackfillHandler (now : Z) (jobId : string) (from_q to_q : option string)
    : M admin exn (Z * option BackfillJob) :=
  match query_ledger from_q, query_ledger to_q with
  | None, _ | _, None => ret (400, None)
  | Some from, Some to =>
      if (from <=? 0) || (to <=? 0) || (to <? from) then ret (400, None)
      else try_catch
        (let! job := createJob now jobId from to in ret (202, Some job))
        (λ _, ret (500, None))
  end.

(** [GET /admin/backfill/:id] *)
Definition getBackfillJobHandler (id : string) : M admin exn (Z * option BackfillJob) :=
  if negb (truthy id) then ret (400, None) else
  let! s := get in
  match backfill_jobs s !! id with
  | Some job => ret (200, Some job)
  | None => ret (404, None)
  end.

(** ** What the run should leave *)

(** The first event of a hash wins. *)
Definition put_new (m : gmap string bf_row) (ev : DecodedEvent) : gmap string bf_row :=
  match row_of ev, m !! tx_hash ev with
  | Ok row, None => <[tx_hash ev := row]> m
  | _, _ => m
  end.
Definition put_all (m : gmap string bf_row) (evs : list DecodedEvent) : gmap string bf_row :=
  foldl put_new m evs.
Definition storable (ev : DecodedEvent) : bool := is_ok (row_of ev).

(** ** Lemmas *)

Lemma put_all_app m l1 l2 : put_all m (l1 ++ l2) = put_all (put_all m l1) l2.
Proof. apply foldl_app. Qed.

Lemma admin_insert_event_ok n ev s : storable ev = true →
  insert_event n ev s
  = (Ok (n + (Z.of_nat (size (put_new (events s) ev)) - Z.of_nat (size (events s)))),
     with_events (λ m, put_new m ev) s).
Proof.
  unfold storable, insert_event, put_new. destruct (row_of ev) as [row|]; [intros _|done].
  destruct (events s !! tx_hash ev) eqn:Hl; simpl.
  - destruct s; unfold with_events; simpl in *. rewrite Hl. do 2 f_equal. lia.
  - unfold with_events. rewrite Hl, map_size_insert_None by done. do 2 f_equal. lia.
Qed.

Lemma insert_fold_ok evs n s : forallb storable evs = true →
  fold_each evs n insert_event s
  = (Ok (n + (Z.of_nat (size (put_all (events s) evs)) - Z.of_nat (size (events s)))),
     with_events (λ m, put_all m evs) s).
Proof.
  revert n s. induction evs as [|ev evs IH]; intros n s; cbn [forallb].
  - intros _. unfold fold_each, ret. destruct s; simpl. do 2 f_equal. lia.
  - intros [He Hevs]%andb_true_iff. cbn [fold_each].
    rewrite (bind_ok _ _ _ _ _ (admin_insert_event_ok n ev s He)), IH by done. simpl. do 2 f_equal. lia.
Qed.

Lemma admin_upsertEvents_ok evs s : forallb storable evs = true →
  upsertEvents evs s
  = (Ok (Z.of_nat (size (put_all (events s) evs)) - Z.of_nat (size (events s))),
     with_events (λ m, put_all m evs) s).
Proof.
  intros Hs. unfold upsertEvents. case_bool_decide as Hn.
  - subst evs. unfold ret. destruct s. simpl. do 2 f_equal. lia.
  - apply (proj2 (transaction_ok _ _ _ _)). by rewrite insert_fold_ok by done.
Qed.

Lemma put_new_subseteq m ev : m ⊆ put_new m ev.
Proof.
  unfold put_new. destruct (row_of ev); [|done]. destruct (m !! tx_hash ev) eqn:Hl; [done|].
  by apply insert_subseteq.
Qed.
Lemma put_all_subseteq m evs : m ⊆ put_all m evs.
Proof.
  revert m. induction evs as [|ev evs IH]; intros m; [done|].
  simpl. etrans; [apply put_new_subseteq|apply IH].
Qed.
Lemma put_all_dom m evs h : forallb storable evs = true →
  is_Some (put_all m evs !! h) ↔ is_Some (m !! h) ∨ h ∈ (tx_hash <$> evs).
Proof.
  revert m. induction evs as [|ev evs IH]; intros m; cbn [forallb]; [set_solver|].
  intros [He Hevs]%andb_true_iff. simpl. rewrite (IH _ Hevs), elem_of_cons.
  assert (is_Some (put_new m ev !! h) ↔ is_Some (m !! h) ∨ h = tx_hash ev) as ->; [|tauto].
  unfold put_new. unfold storable in He. destruct (row_of ev) as [row|]; [|done].
  destruct (m !! tx_hash ev) as [x|] eqn:Hl.
  - split; [by left|]. intros [?| ->]; [done|by rewrite Hl].
  - rewrite lookup_insert_is_Some. destruct (decide (tx_hash ev = h)); naive_solver.
Qed.

Lemma admin_decode_app from to l1 l2 : decode_page from to (l1 ++ l2) = decode_page from to l1 ++ decode_page from to l2.
Proof. apply omap_app. Qed.
Lemma admin_decode_length from to l : (length (decode_page from to l) ≤ length l)%nat.
Proof.
  unfold decode_page. induction l as [|r l IH]; cbn [omap list_omap length]; [done|].
  destruct (decodeEvent r _ _); cbn [length]; lia.
Qed.
Lemma reaches_app to l1 l2 : reaches_end to (l1 ++ l2) = reaches_end to l1 || reaches_end to l2.
Proof. apply existsb_app. Qed.

Section loop.
Context (fetch : string → http events_body).
Context (horizonUrl : string) (limit : nat) (message : exn → string).
Context (now : Z) (contractId jobId : string) (from to : Z).
Context (hist : list HorizonEventRecord).
Context (Hlimit : (0 < limit)%nat).
Context (Hserves : serves fetch (λ c, page_url horizonUrl contractId c (Some (Z.of_nat limit))) limit hist).
Context (Hstorable : forallb storable (decode_page from to hist) = true).
Context (s0 : admin) (job : BackfillJob) (Hjob : backfill_jobs s0 !! jobId = Some job).
Context (Hfresh : set_progress 0 0 0 None job = job).

(** The records of the first [k] pages, and whether the run stops after them. *)
Definition first_pages (k : nat) : list HorizonEventRecord := take (k * limit) hist.
Definition stops_after (k : nat) : bool := reaches_end to (decode_page from to (first_pages k)).

(** The variables and the database after [k] pages. *)
Record after_pages (k : nat) (p : progress) (s : admin) : Prop := After {
  ap_events : events s = put_all (events s0) (decode_page from to (first_pages k));
  ap_fetched : totalFetched p = Z.of_nat (length (first_pages k));
  ap_inserted : totalInserted p = Z.of_nat (size (events s)) - Z.of_nat (size (events s0));
  ap_skipped : totalSkipped p = Z.of_nat (length (first_pages k) - length (decode_page from to (first_pages k)));
  ap_total : processed_total s = processed_total s0 + totalInserted p;
  ap_jobs : backfill_jobs s = <[jobId := set_progress (totalFetched p) (totalInserted p) (totalSkipped p)
                (last (first_pages k) ≫= rec_paging_token) job]> (backfill_jobs s0);
  ap_past : pastEnd p = stops_after k }.

Lemma after_start : after_pages 0 (Progress 0 0 0 "" false) s0.
Proof.
  split; try done; unfold first_pages; simpl; try lia.
  by rewrite Hfresh, insert_id.
Qed.

Lemma first_pages_S k : first_pages (S k) = first_pages k ++ take limit (drop (k * limit) hist).
Proof. unfold first_pages. by rewrite take_take_drop, Nat.mul_succ_l. Qed.

Lemma storable_page k : forallb storable (decode_page from to (take limit (drop (k * limit) hist))) = true.
Proof.
  rewrite <-(take_drop (k * limit) hist), <-(take_drop limit (drop (k * limit) hist)) in Hstorable.
  rewrite !admin_decode_app, !forallb_app in Hstorable. by apply andb_true_iff in Hstorable as [_ [??]%andb_true_iff].
Qed.

Lemma admin_handle_page_ok k p s c :
  after_pages k p s → last (first_pages (S k)) ≫= rec_paging_token = Some c → ∃ p' s',
  handle_page jobId from to (take limit (drop (k * limit) hist)) (Some c) p s = (Ok p', s') ∧
  after_pages (S k) p' s' ∧ cursor p' = cursor p.
Proof.
  intros [E F I K T J P] Hc. set (page := take limit _) in *. set (evs := decode_page from to page).
  unfold handle_page. fold evs. rewrite (bind_ok _ _ _ _ _ (admin_upsertEvents_ok evs s (storable_page k))).
  assert (Hd : decode_page from to (first_pages (S k)) = decode_page from to (first_pages k) ++ evs)
    by (unfold evs, page; by rewrite first_pages_S, admin_decode_app).
  assert (Hl : length (first_pages (S k)) = (length (first_pages k) + length page)%nat)
    by (unfold page; by rewrite first_pages_S, length_app).
  pose proof (admin_decode_length from to page) as Hle. fold evs in Hle.
  pose proof (admin_decode_length from to (first_pages k)) as Hle0.
  set (n := Z.of_nat (size (put_all (events s) evs)) - Z.of_nat (size (events s))).
  assert (Hn : 0 <= n).
  { unfold n. pose proof (map_subseteq_size _ _ (put_all_subseteq (events s) evs)). lia. }
  assert (Ht : (if 0 <? n then modify (with_total (Z.add n)) else ret tt : M admin exn unit)
      (with_events (λ m, put_all m evs) s) = (Ok tt, with_total (Z.add n) (with_events (λ m, put_all m evs) s))).
  { destruct (Z.ltb_spec 0 n); [done|]. assert (n = 0) as -> by lia. by destruct s. }
  rewrite (bind_ok _ _ _ _ _ Ht). eexists _, _. split; [done|]. split; [|done].
  split; simpl.
  - by rewrite Hd, put_all_app, E.
  - lia.
  - unfold n. lia.
  - rewrite Hd, length_app. lia.
  - lia.
  - rewrite Hc, J. rewrite alter_insert_eq. f_equal.
  - unfold stops_after. by rewrite P, Hd, reaches_app.
Qed.

Lemma past_the_end k p s : after_pages k p s → (length hist <= k * limit)%nat →
  first_pages k = hist.
Proof. intros _ H. by apply take_ge. Qed.

(** From the state after [k] pages the loop ends after some [k'] pages: the
    first number from [k] on after which the run stops or the history is over. *)
Lemma admin_page_loop_ok fuel k p s :
  after_pages k p s → suffix (cursor p) hist = drop (k * limit) hist →
  (truthy (cursor p) = false ∨ Some (cursor p) ∈ (rec_paging_token <$> hist)) →
  (length (drop (k * limit) hist) < fuel)%nat → ∃ k' p' s',
  page_loop fetch horizonUrl (Some (Z.of_nat limit)) contractId jobId from to fuel p s = (Ok (Some p'), s') ∧
  after_pages k' p' s' ∧ (k ≤ k')%nat ∧ (∀ j, (k ≤ j < k')%nat → stops_after j = false) ∧
  (stops_after k' = true ∨ first_pages k' = hist).
Proof.
  revert k p s. induction fuel as [|fuel IH]; intros k p s Ha Hsuf Hcur Hlen; [lia|].
  cbn [page_loop]. pose proof (ap_past _ _ _ Ha) as Hp. destruct (pastEnd p) eqn:Hpast.
  { exists k, p, s. split_and!; try done; [intros; lia|by left]. }
  assert (fetchPage fetch horizonUrl (Some (Z.of_nat limit)) (cursor p) contractId
    = Ok (take limit (drop (k * limit) hist), last (take limit (drop (k * limit) hist)) ≫= rec_paging_token)) as ->.
  { unfold fetchPage. by rewrite (sv_page _ _ _ _ Hserves _ Hcur), Hsuf. }
  cbv iota beta. set (page := take limit (drop (k * limit) hist)). case_bool_decide as Hpage.
  { exists k, p, s. split_and!; try done; [intros; lia|right]. apply take_ge.
    apply (f_equal length) in Hpage. unfold page in Hpage. rewrite length_take, length_drop in Hpage.
    simpl in Hpage. lia. }
  assert (Hh : hist = first_pages k ++ page ++ drop limit (drop (k * limit) hist))
    by (unfold page; rewrite take_drop; symmetry; apply take_drop).
  assert (∃ c, last page ≫= rec_paging_token = Some c) as [c Hc].
  { destruct (last page) as [r|] eqn:Hl; [|by apply last_None in Hl].
    pose proof (sv_token _ _ _ _ Hserves) as Htok. rewrite Forall_forall in Htok.
    destruct (Htok r) as (c & Hc & _); [|by exists c].
    rewrite Hh. apply last_Some in Hl as [l' ->]. set_solver. }
  assert (Hc' : last (first_pages (S k)) ≫= rec_paging_token = Some c).
  { rewrite first_pages_S. fold page. rewrite last_app. by destruct (last page). }
  destruct (admin_handle_page_ok k p s c Ha Hc') as (p1 & s1 & Hr1 & Ha1 & Hcur1). fold page in Hr1.
  rewrite Hc, (bind_ok _ _ _ _ _ Hr1). cbv iota beta.
  destruct (serves_next _ _ _ _ _ _ _ _ Hserves Hh Hc) as (Hs' & Ht' & Hin). rewrite Ht'. cbn [num_test negb orb].
  assert (Hbefore : ∀ j, (k ≤ j < S k)%nat → stops_after j = false).
  { intros j Hj. by replace j with k by lia. }
  destruct (Z.ltb_spec (Z.of_nat (length page)) (Z.of_nat limit)) as [Hlt|Hge].
  - exists (S k), p1, s1. split_and!; try done; [lia|right]. apply take_ge.
    unfold page in Hlt. rewrite length_take, length_drop in Hlt. lia.
  - destruct (IH (S k) (set_cursor c p1) s1) as (k' & p' & s' & Hr & Ha' & Hk & Hj & Hstop).
    + by destruct Ha1; split.
    + simpl. rewrite Hs', drop_drop. f_equal. lia.
    + by right.
    + unfold page in Hge. rewrite length_take in Hge. rewrite length_drop in *. lia.
    + exists k', p', s'. split_and!; try done; [lia|]. intros j Hjk.
      destruct (decide (j = k)) as [->|]; [done|apply Hj; lia].
Qed.
End loop.

(** An accepted request leaves a fresh job row. *)
Lemma handler_accepted t0 jobId q1 q2 from to s job s1 :
  query_ledger q1 = Some from → query_ledger q2 = Some to →
  startBackfillHandler t0 jobId q1 q2 s = (Ok (202, Some job), s1) →
  job = new_job t0 from to ∧ s1 = with_jobs <[jobId := job]> s ∧ 0 < from <= to.
Proof.
  unfold startBackfillHandler. intros -> ->.
  destruct (Z.leb_spec from 0), (Z.leb_spec to 0), (Z.ltb_spec to from); simpl; try done.
  unfold try_catch, createJob. destruct (fits 32 (Some from) && fits 32 (Some to)); simpl; [|done].
  intros H3. unfold bind, modify, ret in H3. by simplify_eq.
Qed.

Lemma runBackfill_ok fetch horizonUrl limit message now contractId jobId from to hist fuel t0 s0 s1 q1 q2 job :
  (0 < limit)%nat → truthy contractId = true →
  serves fetch (λ c, page_url horizonUrl contractId c (Some (Z.of_nat limit))) limit hist →
  forallb storable (decode_page from to hist) = true → (length hist < fuel)%nat →
  query_ledger q1 = Some from → query_ledger q2 = Some to →
  startBackfillHandler t0 jobId q1 q2 s0 = (Ok (202, Some job), s1) →
  ∃ k p s, runBackfill fetch horizonUrl (Some (Z.of_nat limit)) message now contractId jobId from to fuel s1
    = (Ok true, with_jobs (alter (set_completed now) jobId) s) ∧
  after_pages limit jobId from to hist s1 job k p s ∧
  (∀ j, (j < k)%nat → stops_after limit from to hist j = false) ∧
  (stops_after limit from to hist k = true ∨ first_pages limit hist k = hist).
Proof.
  intros Hl Hc Hs Hst Hfuel H1 H2 Hh.
  destruct (handler_accepted _ _ _ _ _ _ _ _ _ H1 H2 Hh) as (-> & -> & _).
  set (s1 := with_jobs _ s0).
  assert (Hj : backfill_jobs s1 !! jobId = Some (new_job t0 from to)) by (simpl; apply lookup_insert_eq).
  destruct (admin_page_loop_ok fetch horizonUrl limit contractId jobId from to hist Hl Hs Hst s1 _ Hj eq_refl
    fuel 0 (Progress 0 0 0 "" false) s1) as (k & p & s & Hr & Ha & _ & Hbefore & Hstop);
    [by apply after_start|done|by left|simpl; by rewrite drop_0|].
  exists k, p, s. split; [|split; [done|split; [|done]]].
  - unfold runBackfill. rewrite Hc. unfold try_catch. simpl.
    by rewrite (bind_ok _ _ _ _ _ Hr).
  - intros j Hj'. apply Hbefore. lia.
Qed.

(** Stopping is monotone in the number of pages. *)
Lemma stops_after_mono limit from to hist j k :
  (j ≤ k)%nat → stops_after limit from to hist j = true → stops_after limit from to hist k = true.
Proof.
  intros Hjk. unfold stops_after, first_pages.
  replace (k * limit)%nat with (j * limit + (k - j) * limit)%nat by nia.
  rewrite <-take_take_drop, admin_decode_app, reaches_app. by intros ->.
Qed.

(** ** Properties *)

(** A request that is accepted ends in a completed job: against a Horizon
    server that holds a finite history, the background run reads whole pages up
    to the first one with an event at the last ledger of the range, or the
    whole history, and stops there.  The table gains the first event of each
    new hash of those pages and keeps every row it had; the job row carries
    exact counts and the cursor of the last page, and the metric grows by the
    rows inserted. *)
Theorem runBackfill_history fetch horizonUrl limit message now contractId jobId from to hist fuel t0 s0 s1 q1 q2 job :
  (0 < limit)%nat → truthy contractId = true →
  serves fetch (λ c, page_url horizonUrl contractId c (Some (Z.of_nat limit))) limit hist →
  forallb storable (decode_page from to hist) = true → (length hist < fuel)%nat →
  query_ledger q1 = Some from → query_ledger q2 = Some to →
  startBackfillHandler t0 jobId q1 q2 s0 = (Ok (202, Some job), s1) →
  ∃ k s', runBackfill fetch horizonUrl (Some (Z.of_nat limit)) message now contractId jobId from to fuel s1
    = (Ok true, s') ∧
  let done := take (k * limit) hist in
  let evs := decode_page from to done in
  let new := Z.of_nat (size (events s')) - Z.of_nat (size (events s0)) in
  (∀ j, (j < k)%nat → reaches_end to (decode_page from to (take (j * limit) hist)) = false) ∧
  (reaches_end to evs = true ∨ done = hist) ∧
  events s' = put_all (events s0) evs ∧ events s0 ⊆ events s' ∧
  processed_total s' = processed_total s0 + new ∧
  backfill_jobs s' !! jobId = Some (Job from to completed (Z.of_nat (length done)) new
    (Z.of_nat (length done - length evs)) (last done ≫= rec_paging_token) t0 (Some t0) (Some now) None).
Proof.
  intros Hl Hc Hs Hst Hfuel H1 H2 Hh.
  destruct (runBackfill_ok fetch horizonUrl limit message now contractId jobId from to hist fuel t0 s0 s1
    q1 q2 job Hl Hc Hs Hst Hfuel H1 H2 Hh) as (k & p & s & Hr & [E F I K T J P] & Hb & Hstop).
  destruct (handler_accepted _ _ _ _ _ _ _ _ _ H1 H2 Hh) as (-> & -> & _). simpl in *.
  exists k, (with_jobs (alter (set_completed now) jobId) s). split; [exact Hr|]. simpl. split_and!.
  - exact Hb.
  - exact Hstop.
  - exact E.
  - rewrite E. apply put_all_subseteq.
  - lia.
  - rewrite J, alter_insert_eq, lookup_insert_eq, F, I, K. done.
Qed.

(** The run is complete below the end of the range: when the history is in
    ledger order, every decodable event of the range before [to_ledger] is in
    the table when the job is marked completed. *)
Theorem runBackfill_complete_below_end fetch horizonUrl limit message now contractId jobId from to hist fuel t0 s0 s1 q1 q2 job :
  (0 < limit)%nat → truthy contractId = true →
  serves fetch (λ c, page_url horizonUrl contractId c (Some (Z.of_nat limit))) limit hist →
  forallb storable (decode_page from to hist) = true → (length hist < fuel)%nat →
  query_ledger q1 = Some from → query_ledger q2 = Some to →
  startBackfillHandler t0 jobId q1 q2 s0 = (Ok (202, Some job), s1) →
  StronglySorted Z.le (omap ledger_sequence (decode_page from to hist)) →
  ∃ s', runBackfill fetch horizonUrl (Some (Z.of_nat limit)) message now contractId jobId from to fuel s1
    = (Ok true, s') ∧
  ∀ ev l, ev ∈ decode_page from to hist → ledger_sequence ev = Some l → l < to →
    is_Some (events s' !! tx_hash ev).
Proof.
  intros Hl Hc Hs Hst Hfuel H1 H2 Hh Hsorted.
  destruct (runBackfill_ok fetch horizonUrl limit message now contractId jobId from to hist fuel t0 s0 s1
    q1 q2 job Hl Hc Hs Hst Hfuel H1 H2 Hh) as (k & p & s & Hr & [E _ _ _ _ _ _] & _ & Hstop).
  eexists. split; [exact Hr|]. intros ev l Hev Hlev Hlt. simpl. rewrite E.
  assert (Hd : decode_page from to hist = decode_page from to (first_pages limit hist k)
      ++ decode_page from to (drop (k * limit) hist))
    by (unfold first_pages; by rewrite <-admin_decode_app, take_drop).
  rewrite put_all_dom; [right|rewrite Hd, forallb_app in Hst; by apply andb_true_iff in Hst as [??]].
  apply list_elem_of_fmap. exists ev. split; [done|].
  destruct Hstop as [Hstop|Hall]; [|by rewrite Hall].
  rewrite Hd in Hev. apply elem_of_app in Hev as [Hev|Hev]; [done|]. exfalso.
  unfold stops_after, reaches_end in Hstop. apply existsb_exists in Hstop as (x & Hx & Hto).
  apply list_elem_of_In in Hx. destruct (ledger_sequence x) as [lx|] eqn:Hlx; [|done].
  simpl in Hto. apply Z.leb_le in Hto. rewrite Hd, omap_app in Hsorted.
  assert (lx <= l); [|lia].
  apply StronglySorted_app in Hsorted as [Hle _].
  apply Hle; apply list_elem_of_omap; eauto.
Qed.

(** Events of the last ledger that fall on the next page are lost: when a page
    has an event at [to_ledger], the job is marked completed although no event
    of the rest of the history, of the same ledger or not, has been stored. *)
Theorem split_ledger_is_lost fetch horizonUrl limit message now contractId jobId from to pre page rest k fuel t0 s0 s1 q1 q2 job :
  (0 < limit)%nat → truthy contractId = true →
  serves fetch (λ c, page_url horizonUrl contractId c (Some (Z.of_nat limit))) limit (pre ++ page ++ rest) →
  forallb storable (decode_page from to (pre ++ page ++ rest)) = true →
  (length (pre ++ page ++ rest) < fuel)%nat →
  query_ledger q1 = Some from → query_ledger q2 = Some to →
  startBackfillHandler t0 jobId q1 q2 s0 = (Ok (202, Some job), s1) →
  length pre = (k * limit)%nat → length page = limit →
  reaches_end to (decode_page from to pre) = false → reaches_end to (decode_page from to page) = true →
  ∃ s' j, runBackfill fetch horizonUrl (Some (Z.of_nat limit)) message now contractId jobId from to fuel s1
    = (Ok true, s') ∧
  backfill_jobs s' !! jobId = Some j ∧ job_state j = completed ∧
  ∀ ev, ev ∈ decode_page from to rest → events s0 !! tx_hash ev = None →
    tx_hash ev ∉ (tx_hash <$> decode_page from to (pre ++ page)) → events s' !! tx_hash ev = None.
Proof.
  intros Hl Hc Hs Hst Hfuel H1 H2 Hh Hpre Hpage Hno Hyes.
  destruct (runBackfill_ok fetch horizonUrl limit message now contractId jobId from to _ fuel t0 s0 s1
    q1 q2 job Hl Hc Hs Hst Hfuel H1 H2 Hh) as (k' & p & s & Hr & [E _ _ _ _ J _] & Hb & Hstop).
  set (hist := pre ++ page ++ rest) in *.
  assert (Hk : first_pages limit hist k = pre) by (unfold first_pages, hist; by apply take_app_length').
  assert (HSk : first_pages limit hist (S k) = pre ++ page).
  { unfold first_pages, hist. rewrite (assoc_L (++)). apply take_app_length'. rewrite length_app. lia. }
  assert (k' = S k) as ->.
  { assert (stops_after limit from to hist (S k) = true) as HS.
    { unfold stops_after. by rewrite HSk, admin_decode_app, reaches_app, Hyes, orb_true_r. }
    assert (¬ (S k < k')%nat) by (intros Hlt; apply Hb in Hlt; congruence).
    destruct (decide (k' ≤ k)%nat) as [Hle|]; [|lia]. destruct Hstop as [Hstop|Hall].
    - apply (stops_after_mono _ _ _ _ _ _ Hle) in Hstop. unfold stops_after in Hstop.
      rewrite Hk in Hstop. congruence.
    - apply (f_equal length) in Hall. unfold first_pages, hist in Hall.
      rewrite length_take, !length_app in Hall. nia. }
  eexists _, _. split; [exact Hr|]. split; [simpl; by rewrite J, alter_insert_eq, lookup_insert_eq|].
  split; [done|]. intros ev _ Hnew Hnin. simpl.
  destruct (handler_accepted _ _ _ _ _ _ _ _ _ H1 H2 Hh) as (_ & -> & _). simpl in E. rewrite E, HSk.
  apply eq_None_not_Some. rewrite put_all_dom.
  - rewrite Hnew. intros [Hx|Hx]; [by destruct Hx|done].
  - unfold hist in Hst. rewrite (assoc_L (++)), admin_decode_app, forallb_app in Hst.
    by apply andb_true_iff in Hst as [??].
Qed.

(** What a run never touches: rows of the table, other jobs, and everything of
    its own job but the progress. *)
Definition job_core (j : BackfillJob) : Z * Z * job_status * Z * option Z * option Z * option string :=
  (from_ledger j, to_ledger j, job_state j, created_at j, started_at j, completed_at j, error_message j).
Definition keeps (jobId : string) (s s' : admin) : Prop :=
  events s ⊆ events s' ∧ (∀ id, id ≠ jobId → backfill_jobs s' !! id = backfill_jobs s !! id) ∧
  job_core <$> backfill_jobs s' !! jobId = job_core <$> backfill_jobs s !! jobId.
#[global] Instance keeps_preorder jobId : PreOrder (keeps jobId).
Proof.
  split; [by intros s|]. intros s1 s2 s3 (E1 & O1 & C1) (E2 & O2 & C2).
  split_and!; [by etrans|intros id Hid; by rewrite O2, O1|by rewrite C2].
Qed.

Lemma upsertEvents_keeps jobId evs s r s' : upsertEvents evs s = (r, s') → keeps jobId s s'.
Proof.
  assert (Hf : ∀ evs n s r s', fold_each evs n insert_event s = (r, s') → keeps jobId s s').
  { intros l n s2 r2 s2'. apply (fold_each_invariant (keeps jobId s2)); [|done].
    intros b ev s3 r3 s3' Hk Hi. etrans; [exact Hk|]. unfold insert_event in Hi.
    destruct (row_of ev); [|by simplify_eq]. destruct (events s3 !! tx_hash ev) eqn:Hl; simplify_eq; [done|].
    split_and!; try done. by apply insert_subseteq. }
  unfold upsertEvents. case_bool_decide; [unfold ret; intros; by simplify_eq|].
  destruct r as [n|e]; intros H1.
  - apply (proj1 (transaction_ok _ _ _ _)) in H1. by apply Hf in H1.
  - by apply transaction_err in H1 as ->.
Qed.

Lemma progress_keeps jobId f i k c s r s' :
  updateJobProgress jobId f i k c s = (r, s') → keeps jobId s s'.
Proof.
  unfold updateJobProgress, modify. intros [= <- <-]. split_and!; simpl; [done| |].
  - intros id Hid. by rewrite lookup_alter_ne.
  - rewrite lookup_alter_eq. by destruct (backfill_jobs s !! jobId).
Qed.

Lemma handle_page_keeps jobId from to recs c p s r s' :
  handle_page jobId from to recs c p s = (r, s') → keeps jobId s s'.
Proof.
  unfold handle_page, bind. destruct (upsertEvents _ s) as [[n|e] s1] eqn:Hu;
    apply (upsertEvents_keeps jobId) in Hu; [|intros; by simplify_eq].
  destruct (if 0 <? n then _ else _) as [[[]|e] s2] eqn:Ht.
  - assert (keeps jobId s1 s2) as Hk.
    { case_match; unfold modify, ret in Ht; by simplify_eq. }
    destruct (updateJobProgress _ _ _ _ _ s2) as [[[]|e] s3] eqn:Hp; apply progress_keeps in Hp;
      unfold ret; intros; simplify_eq; (etrans; [exact Hu|]; etrans; [exact Hk|]; exact Hp).
  - case_match; unfold modify, ret in Ht; by simplify_eq.
Qed.

Lemma page_loop_keeps fetch url limit contractId jobId from to fuel p s r s' :
  page_loop fetch url limit contractId jobId from to fuel p s = (r, s') → keeps jobId s s'.
Proof.
  revert p s. induction fuel as [|fuel IH]; intros p s; cbn [page_loop];
    (case_match; [unfold ret; intros; by simplify_eq|]); [unfold ret; intros; by simplify_eq|].
  destruct (fetchPage _ _ _ _ _) as [[recs nc]|e]; [|unfold throw; intros; by simplify_eq].
  case_bool_decide; [unfold ret; intros; by simplify_eq|].
  unfold bind. destruct (handle_page _ _ _ _ _ _ s) as [[p1|e] s1] eqn:Hp;
    apply handle_page_keeps in Hp; [|intros; by simplify_eq].
  destruct nc as [c|]; [|unfold ret; intros; by simplify_eq].
  case_match; [unfold ret; intros; by simplify_eq|]. intros H2. etrans; [exact Hp|]. by eapply IH.
Qed.

(** Whatever Horizon answers, a background run never throws, never removes or
    changes a stored event, and never touches another job.  When it ends, its
    job is completed, or failed with the message of the error, and carries the
    time of the end; a run that is still going has the job running. *)
Theorem runBackfill_outcome fetch horizonUrl pageLimit message now contractId jobId from to fuel s r s' job :
  backfill_jobs s !! jobId = Some job → job_state job = running → error_message job = None →
  runBackfill fetch horizonUrl pageLimit message now contractId jobId from to fuel s = (r, s') →
  events s ⊆ events s' ∧ (∀ id, id ≠ jobId → backfill_jobs s' !! id = backfill_jobs s !! id) ∧
  ∃ job', backfill_jobs s' !! jobId = Some job' ∧
  match r with
  | Ok true => completed_at job' = Some now ∧
      (job_state job' = completed ∧ error_message job' = None ∨
       job_state job' = failed ∧ ∃ m, error_message job' = Some m)
  | Ok false => job_state job' = running
  | Err _ => False
  end.
Proof.
  intros Hj Hrun Herr. unfold runBackfill, try_catch, bind, completeJob, failJob, modify, ret.
  assert (Hend : ∀ f s1, keeps jobId s s1 → (∀ j, job_core j = job_core job → ∃ j', f j = j' ∧
      completed_at j' = Some now ∧ (job_state j' = completed ∧ error_message j' = None ∨
       job_state j' = failed ∧ ∃ m, error_message j' = Some m)) →
    let s2 := with_jobs (alter f jobId) s1 in
    events s ⊆ events s2 ∧ (∀ id, id ≠ jobId → backfill_jobs s2 !! id = backfill_jobs s !! id) ∧
    ∃ j', backfill_jobs s2 !! jobId = Some j' ∧ completed_at j' = Some now ∧
      (job_state j' = completed ∧ error_message j' = None ∨
       job_state j' = failed ∧ ∃ m, error_message j' = Some m)).
  { intros f s1 (He & Ho & Hc) Hf. simpl. rewrite Hj in Hc.
    destruct (backfill_jobs s1 !! jobId) as [j|] eqn:Hj1; [|done]. simpl in Hc.
    assert (job_core j = job_core job) as Hcore by congruence.
    destruct (Hf j Hcore) as (j' & <- & H'). split_and!; [done| |].
    - intros id Hid. rewrite lookup_alter_ne by done. by apply Ho.
    - exists (f j). rewrite lookup_alter_eq, Hj1. done. }
  destruct (truthy contractId); simpl; [|intros [= <- <-]; apply Hend; [done|]; naive_solver].
  destruct (page_loop _ _ _ _ _ _ _ _ _ s) as [[[p|]|e] s1] eqn:Hp; apply page_loop_keeps in Hp;
    intros [= <- <-].
  - apply Hend; [done|]. intros j Hcore. eexists. split; [done|]. split; [done|left].
    unfold job_core in Hcore. simpl. split; [done|]. congruence.
  - destruct Hp as (He & Ho & Hc). split_and!; [done..|]. rewrite Hj in Hc.
    destruct (backfill_jobs s1 !! jobId) as [j|]; [|done]. exists j. split; [done|].
    unfold job_core in Hc. simpl in Hc. congruence.
  - apply Hend; [done|]. naive_solver.
Qed.

(** ** Witnesses *)

Definition split_hist : list HorizonEventRecord :=
  [demo_record "x1" 100 "vc_claim" demo_amount; demo_record "x2" 101 "vc_claim" demo_amount;
   demo_record "x3" 101 "vc_cancel" demo_amount].
Definition split_url (c : string) : string := page_url "https://h" "CID" c (Some 2).
Definition split_fetch (u : string) : http events_body :=
  match list_find (λ c, split_url c = u) ["cur-x1"; "cur-x2"; "cur-x3"] with
  | Some (_, c) => Response 200 (Some (Some (take 2 (suffix c split_hist))))
  | None => Response 200 (Some (Some (take 2 split_hist)))
  end.
Lemma split_serves : serves split_fetch (λ c, page_url "https://h" "CID" c (Some (Z.of_nat 2))) 2 split_hist.
Proof.
  split.
  - apply (bool_decide_unpack _). vm_compute. exact I.
  - repeat constructor; (eexists; split; [reflexivity|vm_compute; reflexivity]).
  - intros c [Hc|Hc].
    + unfold truthy in Hc. apply bool_decide_eq_false in Hc. apply dec_stable in Hc as ->.
      vm_compute. reflexivity.
    + cbn in Hc. rewrite !elem_of_cons in Hc.
      destruct Hc as [[= ->]|[[= ->]|[[= ->]|[]%not_elem_of_nil]]]; vm_compute; reflexivity.
Qed.

Definition idle_admin : admin := Admin ∅ ∅ 0.
Definition demo_job (to : Z) : BackfillJob := new_job 7 100 to.
Definition posted (to : Z) : admin := with_jobs <[("J" : string) := demo_job to]> idle_admin.
Definition demo_message : exn → string := λ _, "Horizon HTTP error".
Abbreviation demo_run to := (runBackfill split_fetch "https://h" (Some (Z.of_nat 2)) demo_message 9 "CID" "J" 100 to 4 (posted to)).

Lemma runBackfill_history_witness :
  ∃ s' k j, demo_run 102 = (Ok true, s') ∧ backfill_jobs s' !! ("J" : string) = Some j ∧
    (reaches_end 102 (decode_page 100 102 (take (k * 2) split_hist)) = true ∨ take (k * 2) split_hist = split_hist).
Proof.
  destruct (runBackfill_history split_fetch "https://h" 2 demo_message 9 "CID" "J" 100 102 split_hist 4 7
    idle_admin (posted 102) (Some "100") (Some "102") (demo_job 102))
    as (k & s' & Hr & _ & Hstop & _ & _ & _ & Hj).
  - lia.
  - vm_compute. reflexivity.
  - exact split_serves.
  - vm_compute. reflexivity.
  - simpl. lia.
  - vm_compute. reflexivity.
  - vm_compute. reflexivity.
  - vm_compute. reflexivity.
  - exists s', k. eexists. split; [exact Hr|]. split; [exact Hj|exact Hstop].
Defined.

Lemma runBackfill_complete_below_end_witness :
  ∃ s', demo_run 101 = (Ok true, s') ∧ is_Some (events s' !! ("x1" : string)).
Proof.
  destruct (runBackfill_complete_below_end split_fetch "https://h" 2 demo_message 9 "CID" "J" 100 101 split_hist 4 7
    idle_admin (posted 101) (Some "100") (Some "101") (demo_job 101))
    as (s' & Hr & Hev).
  - lia.
  - vm_compute. reflexivity.
  - exact split_serves.
  - vm_compute. reflexivity.
  - simpl. lia.
  - vm_compute. reflexivity.
  - vm_compute. reflexivity.
  - vm_compute. reflexivity.
  - replace (omap _ _) with [100; 101; 101] by (vm_compute; reflexivity). repeat constructor; lia.
  - exists s'. split; [exact Hr|]. refine (Hev (default (DecodedEvent_ vc_claim "" None None None None "x1" None) (decode_page 100 101 split_hist !! 0%nat)) 100 _ _ _).
    + vm_compute. left.
    + vm_compute. reflexivity.
    + lia.
Defined.

Lemma split_ledger_is_lost_witness :
  ∃ s' j, demo_run 101 = (Ok true, s') ∧ backfill_jobs s' !! ("J" : string) = Some j ∧ job_state j = completed ∧
    events s' !! ("x3" : string) = None.
Proof.
  destruct (split_ledger_is_lost split_fetch "https://h" 2 demo_message 9 "CID" "J" 100 101 []
    (take 2 split_hist) (drop 2 split_hist) 0 4 7
    idle_admin (posted 101) (Some "100") (Some "101") (demo_job 101))
    as (s' & j & Hr & Hj & Hc & Hev).
  - lia.
  - vm_compute. reflexivity.
  - exact split_serves.
  - vm_compute. reflexivity.
  - simpl. lia.
  - vm_compute. reflexivity.
  - vm_compute. reflexivity.
  - vm_compute. reflexivity.
  - reflexivity.
  - reflexivity.
  - vm_compute. reflexivity.
  - vm_compute. reflexivity.
  - exists s', j. split; [exact Hr|]. split; [exact Hj|]. split; [exact Hc|].
    refine (Hev (default (DecodedEvent_ vc_claim "" None None None None "x3" None) (decode_page 100 101 split_hist !! 2%nat)) _ _ _).
    + vm_compute. left.
    + vm_compute. reflexivity.
    + apply (bool_decide_unpack _). vm_compute. exact I.
Defined.

Definition offline_fetch (u : string) : http events_body := Response 503 None.
Lemma runBackfill_outcome_witness :
  ∃ r s' j, runBackfill offline_fetch "https://h" (Some 2) demo_message 9 "CID" "J" 100 101 4 (posted 101) = (r, s') ∧
    backfill_jobs s' !! ("J" : string) = Some j ∧ completed_at j = Some 9.
Proof.
  destruct (runBackfill offline_fetch "https://h" (Some 2) demo_message 9 "CID" "J" 100 101 4 (posted 101))
    as [r s'] eqn:Hr.
  destruct (runBackfill_outcome offline_fetch "https://h" (Some 2) demo_message 9 "CID" "J" 100 101 4
    (posted 101) r s' (demo_job 101)) as (_ & _ & j & Hj & Hout).
  - vm_compute. reflexivity.
  - reflexivity.
  - reflexivity.
  - exact Hr.
  - exists r, s', j. split; [reflexivity|]. split; [exact Hj|].
    assert (r = Ok true) as -> by (apply (f_equal fst) in Hr; vm_compute in Hr; by rewrite <-Hr).
    exact (proj1 Hout).
Defined.
