(* ===== verification/Auth.v ===== *)
(** * Wallet authentication

    [backend/src/auth/keyStore.ts] and [backend/src/routes/authV2.ts]: signing
    keys with one rotation of grace, the challenge, token and refresh handlers,
    and the middlewares that check a token.  The token handler is split at its
    [await]s, so that requests may overlap.  [jsonwebtoken] is the class [Jwt],
    with what it documents as laws; the wallet signature check of the Stellar
    SDK, [Number] and the random values are parameters.  The fields of a
    request body are strings. *)
From S2P Require Import Prelude Bytes.

(** ** Tokens *)

(** The claims the handlers sign and read. *)
Record claims := Claims {
  sub : option string;
  role_claim : option string;
  kid_claim : option string }.
Inductive verified := Verified (c : claims) | TokenExpiredError | JsonWebTokenError.

(** The first part of a token, decoded: not JSON, [null], or a header with an
    optional [kid]. *)
Inductive jwt_header := HeaderMalformed | HeaderNull | Header (kid : option string).

(** [jsonwebtoken] with RS256: a token checks with the key that signed it until
    its expiry, in whole seconds, and with no other key.  [fingerprint] is the
    [kid] of a key. *)
Class Jwt (K : Type) := {
  fingerprint : K → string;
  jwt_sign : K → string → claims → Z → Z → string;
  jwt_verify : K → Z → string → verified;
  jwt_decode_header : string → jwt_header;
  jwt_sign_text : ∀ k h c iat exp, trim (jwt_sign k h c iat exp) = jwt_sign k h c iat exp;
  jwt_sign_parts : ∀ k h c iat exp, ∃ a b d, split_on "." (jwt_sign k h c iat exp) = [a; b; d] ∧
    jwt_decode_header a = Header (Some h);
  jwt_verify_own : ∀ k h c iat exp now, jwt_verify k now (jwt_sign k h c iat exp)
    = if exp <=? now / 1000 then TokenExpiredError else Verified c;
  jwt_verify_other : ∀ k k' h c iat exp now, k ≠ k' →
    jwt_verify k' now (jwt_sign k h c iat exp) = JsonWebTokenError }.

(** ** The key store *)

Section keystore.
Context {K : Type} `{Jwt K}.

Record RsaKeyPair := KeyPair { kid : string; key : K; createdAt : Z }.
Record keyStore := KeyStore { currentKey : option RsaKeyPair; previousKey : option RsaKeyPair }.

(** [k] is what [generateKeyPairSync] gives. *)
Definition generateKeyPair (now : Z) (k : K) : RsaKeyPair := KeyPair (fingerprint k) k now.

(** [env_key]: the key of the PEM variables, when both are set and readable. *)
Definition initKeyStore (now : Z) (env_key : option K) (k : K) (ks : keyStore) : keyStore :=
  match currentKey ks with
  | Some _ => ks
  | None =>
      KeyStore (Some (match env_key with Some e => generateKeyPair now e | None => generateKeyPair now k end))
        (previousKey ks)
  end.

Definition rotateKeys (now : Z) (k : K) (ks : keyStore) : keyStore :=
  KeyStore (Some (generateKeyPair now k)) (currentKey ks).

Definition getPublicKeyByKid (id : string) (ks : keyStore) : option K :=
  match currentKey ks with
  | Some c => if decide (kid c = id) then Some (key c)
              else match previousKey ks with
                   | Some p => if decide (kid p = id) then Some (key p) else None
                   | None => None
                   end
  | None => match previousKey ks with
            | Some p => if decide (kid p = id) then Some (key p) else None
            | None => None
            end
  end.

(** The key identifiers of [/.well-known/jwks.json]. *)
Definition getJwks (ks : keyStore) : list string :=
  kid <$> (option_list (currentKey ks) ++ option_list (previousKey ks)).
End keystore.
Arguments RsaKeyPair K : clear implicits.
Arguments keyStore K : clear implicits.

(** ** Configuration *)

(** [ACCESS_TTL_S], clamped to an hour, and [REFRESH_TTL_S]. *)
Definition ACCESS_TTL_S (env : option string) : Z :=
  Z.min (default 1 (parse_int (default "1" env))) 1 * 3600.
Definition REFRESH_TTL_S (env : option string) : number :=
  (λ d, d * 86400) <$> parse_int (default "30" env).
(** [ADMIN_ADDRESSES] *)
Definition admin_addresses (env : option string) : list string := comma_list (default "" env).

Record auth_config := AuthConfig {
  access_ttl : Z;
  refresh_ttl : number;
  admins : list string }.
Definition authConfig (env : string → option string) : auth_config :=
  AuthConfig (ACCESS_TTL_S (env "AUTH_ACCESS_TOKEN_TTL_H")) (REFRESH_TTL_S (env "AUTH_REFRESH_TOKEN_TTL_DAYS"))
    (admin_addresses (env "ADMIN_ADDRESSES")).

Definition NONCE_TTL_SECONDS : Z := 300.
Definition SIGNATURE_WINDOW_MS : Z := 5 * 60 * 1000.

Definition roleFor (cfg : auth_config) (address : string) : string :=
  if bool_decide (address ∈ admins cfg) then "admin" else "user".

(** ** State *)

(** A key of Redis with a time to live: present until [now] reaches its end. *)
Definition redis_get {A} (now : Z) (k : string) (m : gmap string (A * Z)) : option A :=
  match m !! k with
  | Some (a, expiry) => if now <? expiry then Some a else None
  | None => None
  end.
Definition redis_set {A} (now : Z) (k : string) (a : A) (ttl : Z) (m : gmap string (A * Z)) :
    gmap string (A * Z) := <[k := (a, now + ttl * 1000)]> m.

Section auth.
Context {K : Type} `{Jwt K}.
Context (cfg : auth_config).
Context (Number : string → number).
(** [Keypair.fromPublicKey(address).verify(message, signature)]; [None] when it
    throws. *)
Context (wallet_verify : string → string → buffer → option bool).

(** The clock, the challenges by nonce (the address they were issued to), the
    refresh tokens with address and role, and the keys. *)
Record world := World {
  now : Z;
  nonces : gmap string (string * Z);
  refreshes : gmap string ((string * string) * Z);
  keys : keyStore K }.

Inductive reply :=
| Failure (status : Z) (error : string)
| Challenge (nonce : string) (message : string)
| Tokens (access refresh : string) (role : string)
| Access (access : string) (role : string)
| Unhandled.

(** [signAccessToken] with the current key.  [initKeyStore] runs when the module
    is loaded, so the key [fresh] that [getCurrentKey] would generate is never
    needed. *)
Definition getCurrentKey (fresh : K) (w : world) : RsaKeyPair K :=
  default (generateKeyPair (now w) fresh) (currentKey (keys w)).
Definition signAccessToken (fresh : K) (address role : string) (w : world) : string :=
  let k := getCurrentKey fresh w in
  let iat := now w / 1000 in
  jwt_sign (key k) (kid k) (Claims (Some address) (Some role) (Some (kid k))) iat (iat + access_ttl cfg).

(** ** Handlers *)

Definition message_text (address nonce timestamp : string) : string :=
  address +:+ ":" +:+ nonce +:+ ":" +:+ timestamp.

Definition set_nonces (m : gmap string (string * Z)) (w : world) : world :=
  World (now w) m (refreshes w) (keys w).
Definition set_refreshes (m : gmap string ((string * string) * Z)) (w : world) : world :=
  World (now w) (nonces w) m (keys w).
Definition set_keys (ks : keyStore K) (w : world) : world := World (now w) (nonces w) (refreshes w) ks.
Definition set_now (t : Z) (w : world) : world := World t (nonces w) (refreshes w) (keys w).

(** [POST /challenge]; [nonce] is what [randomUUID()] gives. *)
Definition challengeHandler (raw_address nonce : string) (w : world) : reply * world :=
  let address := trim raw_address in
  if negb (truthy address) then (Failure 400 "address is required", w)
  else if negb (stellar_address_re address)
  then (Failure 400 "address must be a valid Stellar public key (G...)", w)
  else (Challenge nonce (message_text address nonce (Z_to_string (now w))),
        set_nonces (redis_set (now w) nonce address NONCE_TTL_SECONDS (nonces w)) w).

Record token_request := TokenRequest {
  rq_address : string;
  rq_nonce : string;
  rq_timestamp : string;
  rq_signature : string }.

(** Where a [POST /token] request is: before each [await], and answered. *)
Inductive phase :=
| TConnect (rq : token_request)
| TGet (rq : token_request)
| TDel (rq : token_request) (stored : string)
| TVerify (rq : token_request)
| TStore (rq : token_request) (role access refresh : string)
| TDone (rq : token_request) (r : reply).

(** The part before the first [await]. *)
Definition tokenHandler_start (t : Z) (rq : token_request) : phase :=
  if negb (truthy (rq_address rq) && truthy (rq_nonce rq) && truthy (rq_timestamp rq)
           && truthy (rq_signature rq))
  then TDone rq (Failure 400 "address, nonce, timestamp, and signature are required") else
  match Number (rq_timestamp rq) with
  | None => TDone rq (Failure 400 "timestamp must be a valid positive number")
  | Some created =>
      if created <=? 0 then TDone rq (Failure 400 "timestamp must be a valid positive number") else
      let ageMs := t - created in
      if (SIGNATURE_WINDOW_MS <? ageMs) || (ageMs <? -30000)
      then TDone rq (Failure 400 "timestamp is outside the allowed window")
      else TConnect rq
  end.

(** What happens when an [await] completes.  [fresh_key] and [fresh_token] are
    the random values drawn there, if any. *)
Definition tokenHandler_resume (fresh_key : K) (fresh_token : string) (p : phase) (w : world)
    : phase * world :=
  match p with
  | TConnect rq => (TGet rq, w)
  | TGet rq =>
      match redis_get (now w) (rq_nonce rq) (nonces w) with
      | None => (TDone rq (Failure 400 "nonce not found or already used"), w)
      | Some stored => (TDel rq stored, w)
      end
  | TDel rq stored =>
      let w := set_nonces (delete (rq_nonce rq) (nonces w)) w in
      if decide (stored = rq_address rq) then (TVerify rq, w)
      else (TDone rq (Failure 400 "nonce does not belong to the provided address"), w)
  | TVerify rq =>
      match wallet_verify (rq_address rq)
              (message_text (rq_address rq) (rq_nonce rq) (rq_timestamp rq))
              (from_base64 (rq_signature rq)) with
      | None => (TDone rq (Failure 400 "invalid Stellar address or malformed signature"), w)
      | Some false => (TDone rq (Failure 401 "signature verification failed"), w)
      | Some true =>
          let role := roleFor cfg (rq_address rq) in
          (TStore rq role (signAccessToken fresh_key (rq_address rq) role w) fresh_token, w)
      end
  | TStore rq role access refresh =>
      match refresh_ttl cfg with
      | None => (TDone rq Unhandled, w)
      | Some ttl =>
          if ttl <=? 0 then (TDone rq Unhandled, w) else
          (TDone rq (Tokens access refresh role),
           set_refreshes (redis_set (now w) refresh (rq_address rq, role) ttl (refreshes w)) w)
      end
  | TDone rq r => (TDone rq r, w)
  end.

(** A rejected [await]: only the connection and the SDK import are inside a
    [try]. *)
Definition tokenHandler_throws (p : phase) : phase :=
  match p with
  | TConnect rq => TDone rq (Failure 500 "cache unavailable")
  | TVerify rq => TDone rq (Failure 400 "invalid Stellar address or malformed signature")
  | TGet rq | TDel rq _ | TStore rq _ _ _ => TDone rq Unhandled
  | TDone rq r => TDone rq r
  end.

(** [POST /refresh]: the refresh token is kept. *)
Definition refreshHandler (fresh : K) (refresh_token : string) (w : world) : reply :=
  if negb (truthy refresh_token) then Failure 400 "refresh_token is required" else
  match redis_get (now w) refresh_token (refreshes w) with
  | None => Failure 401 "refresh token not found or expired"
  | Some (address, role) => Access (signAccessToken fresh address role w) role
  end.

(** ** Middleware *)

Record user := User { address : string; role : string }.
Inductive verdict := Next (u : user) | Reject (status : Z) (error : string) | Throws.

(** [header.startsWith("Bearer ")] and [header.slice(7).trim()] *)
Definition bearer (header : option string) : option string :=
  let h := default "" header in
  if starts_with "Bearer " h then Some (trim (of_chars (drop 7 (chars h)))) else None.

(** [fresh]: the key generated when the store has none. *)
Definition authMiddleware (fresh : K) (header : option string) (w : world) : verdict :=
  match bearer header with
  | None => Reject 401 "Unauthorized"
  | Some token =>
      match split_on "." token with
      | [h; _; _] =>
          match jwt_decode_header h with
          | HeaderMalformed => Reject 401 "Unauthorized"
          | HeaderNull => Throws
          | Header id =>
              let pubKey := match id with
                            | Some i => if truthy i then getPublicKeyByKid i (keys w)
                                        else Some (key (getCurrentKey fresh w))
                            | None => Some (key (getCurrentKey fresh w))
                            end in
              match pubKey with
              | None => Reject 401 "Unauthorized"
              | Some k =>
                  match jwt_verify k (now w) token with
                  | Verified c => Next (User (default "undefined" (sub c)) (default "user" (role_claim c)))
                  | TokenExpiredError => Reject 401 "TokenExpired"
                  | JsonWebTokenError => Reject 401 "Unauthorized"
                  end
              end
          end
      | _ => Reject 401 "Unauthorized"
      end
  end.

Definition requireRole (r : string) (u : option user) : verdict :=
  match u with
  | None => Reject 401 "Unauthorized"
  | Some u => if decide (role u = r) then Next u else Reject 403 "Forbidden: insufficient role"
  end.

(** ** Overlapping requests *)

(** The server with its token requests, and the nonces it has ever issued, with
    the address each was issued to. *)
Record system := System {
  server : world;
  threads : gmap nat phase;
  issued : gmap string string }.

Definition set_thread (id : nat) (p : phase) (w : world) (s : system) : system :=
  System w (<[id := p]> (threads s)) (issued s).

(** One event.  Random nonces do not repeat. *)
Inductive step (s : system) : system → Prop :=
| step_challenge raw nonce m w' :
    issued s !! nonce = None →
    challengeHandler raw nonce (server s) = (Challenge nonce m, w') →
    step s (System w' (threads s) (<[nonce := trim raw]> (issued s)))
| step_request id rq :
    threads s !! id = None →
    step s (set_thread id (tokenHandler_start (now (server s)) rq) (server s) s)
| step_resume id p p' w' fresh_key fresh_token :
    threads s !! id = Some p →
    tokenHandler_resume fresh_key fresh_token p (server s) = (p', w') →
    step s (set_thread id p' w' s)
| step_throws id p :
    threads s !! id = Some p →
    step s (set_thread id (tokenHandler_throws p) (server s) s)
| step_rotate k :
    step s (System (set_keys (rotateKeys (now (server s)) k (keys (server s))) (server s)) (threads s) (issued s))
| step_time t :
    now (server s) <= t → step s (System (set_now t (server s)) (threads s) (issued s)).

Definition idle (s : system) : Prop := threads s = ∅ ∧ nonces (server s) = ∅ ∧ issued s = ∅.

(** The request of a phase, and whether it is past the deletion of its nonce on
    the way to a token. *)
Definition request_of (p : phase) : token_request :=
  match p with
  | TConnect rq | TGet rq | TDel rq _ | TVerify rq | TStore rq _ _ _ | TDone rq _ => rq
  end.
Definition granted (p : phase) : bool :=
  match p with TDone _ (Tokens _ _ _) => true | _ => false end.
Definition past_del (p : phase) : bool :=
  match p with TVerify _ | TStore _ _ _ _ => true | _ => granted p end.
Definition before_get (p : phase) : bool :=
  match p with TConnect _ | TGet _ => true | TDone _ _ => negb (granted p) | _ => false end.
End auth.
Arguments world K : clear implicits.
Arguments system K : clear implicits.

(** ** Lemmas *)

Section lemmas.
Context {K : Type} `{Jwt K}.
Context (cfg : auth_config).
Context (Number : string → number).
Context (wallet_verify : string → string → buffer → option bool).
Abbreviation step := (step cfg Number wallet_verify).

(** The nonce of a request was issued to its address and is no longer stored. *)
Definition spent (s : system K) (rq : token_request) : Prop :=
  issued s !! rq_nonce rq = Some (rq_address rq) ∧ nonces (server s) !! rq_nonce rq = None.
(** The wallet signed the message of the request. *)
Definition signed (rq : token_request) : Prop :=
  wallet_verify (rq_address rq) (message_text (rq_address rq) (rq_nonce rq) (rq_timestamp rq))
    (from_base64 (rq_signature rq)) = Some true.

Definition phase_ok (s : system K) (p : phase) : Prop :=
  match p with
  | TConnect _ | TGet _ => True
  | TDel rq stored => issued s !! rq_nonce rq = Some stored
  | TVerify rq => spent s rq
  | TStore rq r _ _ => spent s rq ∧ signed rq ∧ r = roleFor cfg (rq_address rq)
  | TDone rq (Tokens _ _ r) => spent s rq ∧ signed rq ∧ r = roleFor cfg (rq_address rq)
  | TDone _ _ => True
  end.
Record auth_ok (s : system K) : Prop := AuthOk {
  ao_nonces : ∀ n a e, nonces (server s) !! n = Some (a, e) → issued s !! n = Some a;
  ao_threads : ∀ id p, threads s !! id = Some p → phase_ok s p }.

(** What no event undoes: a nonce stays issued, and a nonce that is gone stays
    gone. *)
Definition later (s s' : system K) : Prop :=
  issued s ⊆ issued s' ∧
  (∀ n a, issued s !! n = Some a → nonces (server s) !! n = None → nonces (server s') !! n = None).
#[local] Instance later_preorder : PreOrder later.
Proof.
  split; [by intros s; split|]. intros s1 s2 s3 [I1 N1] [I2 N2]. split; [by etrans|].
  intros n a Hi Hn. eapply N2; [by eapply lookup_weaken|by eapply N1].
Qed.

Lemma spent_later s s' rq : later s s' → spent s rq → spent s' rq.
Proof. intros [I N] [Hi Hn]. split; [by eapply lookup_weaken|by eapply N]. Qed.
Lemma phase_ok_later s s' p : later s s' → phase_ok s p → phase_ok s' p.
Proof.
  intros Hl. pose proof (spent_later s s') as Hs. destruct p as [| | | | |? []]; simpl; try done; try naive_solver.
  intros Hi. eapply lookup_weaken; [exact Hi|apply Hl].
Qed.

Lemma start_ok s t rq : phase_ok s (tokenHandler_start Number t rq).
Proof. unfold tokenHandler_start. crush_match. Qed.

Lemma challenge_inv raw nonce (w : world K) m w' : challengeHandler raw nonce w = (Challenge nonce m, w') →
  w' = set_nonces (redis_set (now w) nonce (trim raw) NONCE_TTL_SECONDS (nonces w)) w.
Proof. unfold challengeHandler. crush_match; intros; by simplify_eq. Qed.

Lemma auth_redis_get_Some {A} t n (m : gmap string (A * Z)) a :
  redis_get t n m = Some a → ∃ e, m !! n = Some (a, e) ∧ t < e.
Proof.
  unfold redis_get. destruct (m !! n) as [[a' e]|]; [|done].
  destruct (Z.ltb_spec t e); [|done]. intros [= ->]. eauto.
Qed.

(** One resumption: the store only loses the nonce of the request, and the new
    phase is justified. *)
Lemma auth_resume_ok s id p p' w' k tok :
  auth_ok s → threads s !! id = Some p → tokenHandler_resume cfg wallet_verify k tok p (server s) = (p', w') →
  later s (set_thread id p' w' s) ∧ nonces w' ⊆ nonces (server s) ∧ phase_ok (set_thread id p' w' s) p'.
Proof.
  intros [Hn Ht] Hp Hr. apply Ht in Hp.
  assert (Hsame : ∀ p', nonces w' = nonces (server s) → later s (set_thread id p' w' s)).
  { intros q Hq. split; [done|]. intros n a _. simpl. by rewrite Hq. }
  destruct p as [rq|rq|rq st|rq|rq r acc ref|rq r]; simpl in Hr.
  - simplify_eq. split_and!; [by apply Hsame|done..].
  - destruct (redis_get _ _ _) as [a|] eqn:Hg; simplify_eq; (split_and!; [by apply Hsame|done|]); [|done].
    apply auth_redis_get_Some in Hg as (e & Hg & _). simpl. by eapply Hn.
  - simpl in Hp. case_decide; simplify_eq; (split_and!; [|apply delete_subseteq|]); try done.
    + split; [done|]. intros n a _ Hno. simpl. by rewrite lookup_delete_None, Hno; right.
    + split; simpl; [done|apply lookup_delete_eq].
    + split; [done|]. intros n a _ Hno. simpl. by rewrite lookup_delete_None, Hno; right.
  - simpl in Hp. destruct (wallet_verify _ _ _) as [[]|] eqn:Hw; simplify_eq;
      (split_and!; [by apply Hsame|done|]); try done.
  - case_match; [case_match|]; simplify_eq; (split_and!; [by apply Hsame|done|]); done.
  - simplify_eq. split_and!; [by apply Hsame|done..].
Qed.

Lemma step_later s s' : auth_ok s → step s s' → later s s' ∧ auth_ok s'.
Proof.
  intros Hok Hs. destruct Hs as [raw n m w' Hnew Hc|id rq Hid|id p p' w' k tok Hp Hr|id p Hp|k|t Ht].
  - apply challenge_inv in Hc as ->.
    assert (later s (System (set_nonces (redis_set (now (server s)) n (trim raw) NONCE_TTL_SECONDS (nonces (server s))) (server s))
      (threads s) (<[n := trim raw]> (issued s)))) as Hl.
    { split; simpl; [by apply insert_subseteq|]. intros n' a Hi Hno. unfold redis_set.
      rewrite lookup_insert_ne; [done|congruence]. }
    split; [done|]. split; simpl.
    + intros n' a e. unfold redis_set. destruct (decide (n = n')) as [<-|Hne].
      * rewrite !lookup_insert_eq. naive_solver.
      * rewrite !lookup_insert_ne by done. apply Hok.
    + intros id p Hp. eapply phase_ok_later; [exact Hl|]. by eapply Hok.
  - split; [done|]. split; simpl; [apply Hok|]. intros id' p. destruct (decide (id = id')) as [<-|Hne].
    + rewrite lookup_insert_eq. intros [= <-]. apply start_ok.
    + rewrite lookup_insert_ne by done. apply Hok.
  - destruct (auth_resume_ok s id p p' w' k tok Hok Hp Hr) as (Hl & Hsub & Hp'). split; [done|]. split; simpl.
    + intros n a e Hn. eapply Hok. by eapply lookup_weaken.
    + intros id' q. destruct (decide (id = id')) as [<-|Hne].
      * rewrite lookup_insert_eq. by intros [= <-].
      * rewrite lookup_insert_ne by done. intros Hq. eapply phase_ok_later; [exact Hl|]. by eapply Hok.
  - split; [done|]. split; simpl; [apply Hok|]. intros id' q. destruct (decide (id = id')) as [<-|Hne].
    + rewrite lookup_insert_eq. intros [= <-]. apply (ao_threads _ Hok) in Hp. by destruct p as [| | | | |? []].
    + rewrite lookup_insert_ne by done. apply Hok.
  - split; [done|]. split; simpl; apply Hok.
  - split; [done|]. split; simpl; apply Hok.
Qed.

Lemma steps_later s s' : auth_ok s → rtc step s s' → later s s' ∧ auth_ok s'.
Proof.
  intros Hok Hs. induction Hs as [|s1 s2 s3 H12 _ IH]; [done|].
  destruct (step_later _ _ Hok H12) as [Hl Hok2]. destruct (IH Hok2). split; [by etrans|done].
Qed.

Lemma auth_idle_ok s : idle s → auth_ok s.
Proof. intros (Ht & Hn & _). split; rewrite ?Ht, ?Hn; intros *; by rewrite lookup_empty. Qed.

(** A thread that has not read its nonce yet, once the nonce [n] is gone. *)
Definition harmless (n : string) (o : option phase) : Prop :=
  match o with Some p => before_get p = true ∨ rq_nonce (request_of p) ≠ n | None => True end.

Lemma step_harmless s s' n a id :
  auth_ok s → issued s !! n = Some a → nonces (server s) !! n = None → step s s' →
  harmless n (threads s !! id) → harmless n (threads s' !! id).
Proof.
  intros Hok Hi Hn Hs. destruct Hs as [|id' rq Hid|id' p p' w' k tok Hp Hr|id' p Hp| |]; try done; simpl.
  - destruct (decide (id' = id)) as [->|Hne]; [|by rewrite lookup_insert_ne].
    intros _. rewrite lookup_insert_eq. left. unfold tokenHandler_start. crush_match.
  - destruct (decide (id' = id)) as [->|Hne]; [|by rewrite lookup_insert_ne].
    rewrite Hp, lookup_insert_eq. simpl. intros [Hb|Hb]; [|right].
    + destruct p as [rq|rq| | | |rq r]; simpl in Hr; try done; [by simplify_eq; left| |by simplify_eq; left].
      destruct (decide (rq_nonce rq = n)) as [<-|Hne].
      * unfold redis_get in Hr. rewrite Hn in Hr. simplify_eq. by left.
      * right. case_match; by simplify_eq.
    + destruct p; simpl in Hr, Hb; repeat case_match; by simplify_eq.
  - destruct (decide (id' = id)) as [->|Hne]; [|by rewrite lookup_insert_ne].
    rewrite Hp, lookup_insert_eq. simpl. destruct p; simpl; auto.
Qed.

Lemma steps_harmless s s' n a id :
  auth_ok s → issued s !! n = Some a → nonces (server s) !! n = None → rtc step s s' →
  harmless n (threads s !! id) → harmless n (threads s' !! id).
Proof.
  intros Hok Hi Hn Hs. induction Hs as [|s1 s2 s3 H12 _ IH]; [done|]. intros Hh.
  destruct (step_later _ _ Hok H12) as [[I N] Hok2].
  apply IH; [done|eapply lookup_weaken; [exact Hi|exact I]|eapply N; [exact Hi|exact Hn]|by apply (step_harmless s1 s2 n a id)].
Qed.

Lemma past_del_spent s p : phase_ok s p → past_del p = true → spent s (request_of p).
Proof. destruct p as [| | | | |? []]; simpl; naive_solver. Qed.

Lemma bearer_token t : trim t = t → bearer (Some ("Bearer " +:+ t)) = Some t.
Proof.
  intros Ht. unfold bearer. simpl. replace (starts_with _ _) with true by (by destruct t).
  rewrite drop_0, of_chars_chars. change ("" +:+ t) with t. by rewrite Ht.
Qed.

(** The middleware on a token the server signed. *)
Lemma authMiddleware_signed fresh w a r fresh' w' c :
  currentKey (keys w) = Some c → truthy (kid c) = true →
  authMiddleware fresh' (Some ("Bearer " +:+ signAccessToken cfg fresh a r w)) w'
  = match getPublicKeyByKid (kid c) (keys w') with
    | None => Reject 401 "Unauthorized"
    | Some k =>
        match jwt_verify k (now w') (signAccessToken cfg fresh a r w) with
        | Verified cl => Next (User (default "undefined" (sub cl)) (default "user" (role_claim cl)))
        | TokenExpiredError => Reject 401 "TokenExpired"
        | JsonWebTokenError => Reject 401 "Unauthorized"
        end
    end.
Proof.
  intros Hc Hk. unfold authMiddleware, signAccessToken, getCurrentKey. rewrite Hc. simpl default.
  rewrite bearer_token by apply jwt_sign_text.
  destruct (jwt_sign_parts (key c) (kid c) (Claims (Some a) (Some r) (Some (kid c))) (now w / 1000)
    (now w / 1000 + access_ttl cfg)) as (x & y & z & -> & ->). by rewrite Hk.
Qed.

Lemma signed_verdict fresh a r w t :
  jwt_verify (key (getCurrentKey fresh w)) t (signAccessToken cfg fresh a r w)
  = if now w / 1000 + access_ttl cfg <=? t / 1000 then TokenExpiredError
    else Verified (Claims (Some a) (Some r) (Some (kid (getCurrentKey fresh w)))).
Proof. apply jwt_verify_own. Qed.

(** ** Properties *)

(** C10. Tokens are only given to the owner of the address: in every reachable
    state, a request that was answered with tokens carries a nonce this server
    issued to its address, which is used up, and a signature of the wallet over
    address, nonce and timestamp; the role is the configured one. *)
Theorem grants_are_authenticated s0 s id rq access refresh r :
  idle s0 → rtc step s0 s → threads s !! id = Some (TDone rq (Tokens access refresh r)) →
  issued s !! rq_nonce rq = Some (rq_address rq) ∧ nonces (server s) !! rq_nonce rq = None ∧
  wallet_verify (rq_address rq) (message_text (rq_address rq) (rq_nonce rq) (rq_timestamp rq))
    (from_base64 (rq_signature rq)) = Some true ∧
  r = roleFor cfg (rq_address rq).
Proof.
  intros Hi Hs Ht. destruct (steps_later _ _ (auth_idle_ok _ Hi) Hs) as [_ Hok].
  apply Hok in Ht as ((? & ?) & ? & ?). done.
Qed.

(** Replays are rejected: once some request has deleted its nonce on the way to
    a token, no request that had not read the nonce by then is ever answered
    with tokens for it, whatever the interleaving. *)
Theorem nonce_spent s0 s s' id p id' p' :
  idle s0 → rtc step s0 s → threads s !! id = Some p → past_del p = true →
  rtc step s s' → match threads s !! id' with Some q => before_get q = true | None => True end →
  threads s' !! id' = Some p' → granted p' = true →
  rq_nonce (request_of p') ≠ rq_nonce (request_of p).
Proof.
  intros Hi Hs Hp Hpast Hs' Hq Hp' Hg. destruct (steps_later _ _ (auth_idle_ok _ Hi) Hs) as [_ Hok].
  destruct (past_del_spent s p) as [His Hn]; [by eapply Hok|done|].
  assert (harmless (rq_nonce (request_of p)) (threads s' !! id')) as Hh.
  { eapply steps_harmless; [done..|]. destruct (threads s !! id'); [by left|done]. }
  rewrite Hp' in Hh. destruct Hh as [Hb|?]; [|done].
  destruct p' as [| | | | |? []]; simpl in *; done.
Qed.

(** But the read and the deletion of a nonce are two commands: two requests that
    both read it before either deletes it are both answered with tokens. *)
Theorem nonce_race s id1 id2 rq expiry ttl :
  id1 ≠ id2 → threads s !! id1 = Some (TGet rq) → threads s !! id2 = Some (TGet rq) →
  nonces (server s) !! rq_nonce rq = Some (rq_address rq, expiry) → now (server s) < expiry →
  wallet_verify (rq_address rq) (message_text (rq_address rq) (rq_nonce rq) (rq_timestamp rq))
    (from_base64 (rq_signature rq)) = Some true →
  refresh_ttl cfg = Some ttl → 0 < ttl → inhabited K →
  ∃ s' p1 p2, rtc step s s' ∧ threads s' !! id1 = Some p1 ∧ threads s' !! id2 = Some p2 ∧
    granted p1 = true ∧ granted p2 = true ∧ request_of p1 = request_of p2.
Proof.
  intros Hne H1 H2 Hn Ht Hw Httl Hpos [k].
  assert (Hstep : ∀ s id p p' w', threads s !! id = Some p →
    tokenHandler_resume cfg wallet_verify k "r" p (server s) = (p', w') → step s (set_thread id p' w' s))
    by (intros; by econstructor).
  assert (Hget : redis_get (now (server s)) (rq_nonce rq) (nonces (server s)) = Some (rq_address rq)).
  { unfold redis_get. rewrite Hn. by destruct (Z.ltb_spec (now (server s)) expiry); [|lia]. }
  assert (Hdone : ∀ s id, threads s !! id = Some (TDel rq (rq_address rq)) → ∃ w' p',
    rtc step s (set_thread id p' w' s) ∧ granted p' = true ∧ request_of p' = rq ∧
    server (set_thread id p' w' s) = w').
  { intros s1 id Hid.
    set (w1 := set_nonces (delete (rq_nonce rq) (nonces (server s1))) (server s1)).
    set (acc := signAccessToken cfg k (rq_address rq) (roleFor cfg (rq_address rq)) w1).
    eexists _, (TDone rq (Tokens acc "r" (roleFor cfg (rq_address rq)))). split_and!; [|done..].
    eapply rtc_l; [apply (Hstep _ id _ (TVerify rq) w1 Hid); simpl; by rewrite decide_True|].
    eapply rtc_l; [apply (Hstep _ id (TVerify rq) (TStore rq (roleFor cfg (rq_address rq)) acc "r") w1);
      [apply lookup_insert_eq|simpl; by rewrite Hw]|].
    eapply rtc_l; [eapply (Hstep _ id _ (TDone rq (Tokens acc "r" (roleFor cfg (rq_address rq)))));
      [apply lookup_insert_eq|simpl; rewrite Httl; by destruct (Z.leb_spec ttl 0); [lia|]]|].
    unfold set_thread. simpl. rewrite !insert_insert_eq. apply rtc_refl. }
  set (s1 := set_thread id1 (TDel rq (rq_address rq)) (server s) s).
  set (s2 := set_thread id2 (TDel rq (rq_address rq)) (server s) s1).
  assert (rtc step s s2) as Hs2.
  { eapply rtc_l; [apply (Hstep _ id1 _ (TDel rq (rq_address rq)) (server s) H1); simpl; by rewrite Hget|].
    apply rtc_once. apply (Hstep s1 id2 (TGet rq)); [by simpl; rewrite lookup_insert_ne|].
    simpl. by rewrite Hget. }
  destruct (Hdone s2 id1) as (w3 & p3 & Hs3 & Hg3 & Hr3 & _); [simpl; by rewrite lookup_insert_ne, lookup_insert_eq|].
  destruct (Hdone (set_thread id1 p3 w3 s2) id2) as (w4 & p4 & Hs4 & Hg4 & Hr4 & _);
    [simpl; by rewrite lookup_insert_ne, lookup_insert_eq|].
  eexists _, p3, p4. split_and!; [etrans; [exact Hs2|]; etrans; [exact Hs3|exact Hs4]| | |done..|by rewrite Hr3, Hr4].
  - simpl. by rewrite lookup_insert_ne, lookup_insert_eq.
  - simpl. by rewrite lookup_insert_eq.
Qed.

(** An access token is good for its lifetime and one rotation: the middleware
    accepts it with the address and the role it was signed for until it
    expires, then answers [TokenExpired], as long as the keys were rotated at
    most once; after two rotations it is [Unauthorized].  The lifetime is never
    more than an hour, whatever the environment says. *)
Theorem access_token_lifetime fresh fresh' a r w w' c :
  currentKey (keys w) = Some c → truthy (kid c) = true →
  let answer := authMiddleware fresh' (Some ("Bearer " +:+ signAccessToken cfg fresh a r w)) w' in
  let in_time := if now w / 1000 + access_ttl cfg <=? now w' / 1000 then Reject 401 "TokenExpired"
                 else Next (User a r) in
  (keys w' = keys w → answer = in_time) ∧
  (∀ t k, keys w' = rotateKeys t k (keys w) → fingerprint k ≠ kid c → answer = in_time) ∧
  (∀ t1 k1 t2 k2, keys w' = rotateKeys t2 k2 (rotateKeys t1 k1 (keys w)) →
     fingerprint k1 ≠ kid c → fingerprint k2 ≠ kid c → answer = Reject 401 "Unauthorized") ∧
  (∀ env, access_ttl (authConfig env) <= 3600).
Proof.
  intros Hc Hk answer in_time. unfold answer. rewrite (authMiddleware_signed _ _ _ _ _ _ c Hc Hk).
  assert (Hv : ∀ t, jwt_verify (key c) t (signAccessToken cfg fresh a r w)
    = if now w / 1000 + access_ttl cfg <=? t / 1000 then TokenExpiredError
      else Verified (Claims (Some a) (Some r) (Some (kid c)))).
  { intros t. pose proof (signed_verdict fresh a r w t) as Hs. unfold getCurrentKey in Hs.
    rewrite Hc in Hs. exact Hs. }
  split_and!.
  - intros ->. unfold getPublicKeyByKid. rewrite Hc, decide_True, Hv by done. unfold in_time. by destruct (_ <=? _).
  - intros t k -> Hf. unfold getPublicKeyByKid, rotateKeys. simpl.
    rewrite decide_False by done. rewrite Hc, decide_True, Hv by done. unfold in_time. by destruct (_ <=? _).
  - intros t1 k1 t2 k2 -> H1 H2. unfold getPublicKeyByKid, rotateKeys. simpl. by rewrite !decide_False.
  - intros env. unfold authConfig, ACCESS_TTL_S. simpl. lia.
Qed.
End lemmas.

(** ** Witnesses *)

(** A toy signature scheme: fields in a letter code, the key at the end. *)
Definition letters (c : ascii) : list ascii := [chr (97 + code c / 16); chr (97 + code c mod 16)].
Definition toy_enc (s : string) : list ascii := chars s ≫= letters.
Fixpoint toy_dec (l : list ascii) : list ascii :=
  match l with a :: b :: l' => chr ((code a - 97) * 16 + (code b - 97)) :: toy_dec l' | _ => [] end.
Definition toy_opt (o : option string) : list ascii :=
  match o with Some s => "x"%char :: toy_enc s | None => [] end.
Definition toy_unopt (l : list ascii) : option string :=
  match l with _ :: l' => Some (of_chars (toy_dec l')) | [] => None end.
Definition toy_sign (k : Z) (h : string) (c : claims) (iat exp : Z) : string :=
  of_chars (toy_enc h ++ "."%char :: (toy_opt (sub c) ++ "-"%char :: toy_opt (role_claim c) ++ "-"%char ::
    toy_opt (kid_claim c) ++ "-"%char :: toy_enc (Z_to_string exp)) ++ "."%char :: toy_enc (Z_to_string k)).
Definition toy_verify (k t : Z) (token : string) : verified :=
  match split_on "." token with
  | [_; b; s] =>
      if decide (s = of_chars (toy_enc (Z_to_string k))) then
        match split_chars "-" (chars b) with
        | [f1; f2; f3; f4] =>
            match Z_of_string (of_chars (toy_dec f4)) with
            | Some exp => if exp <=? t / 1000 then TokenExpiredError
                          else Verified (Claims (toy_unopt f1) (toy_unopt f2) (toy_unopt f3))
            | None => JsonWebTokenError
            end
        | _ => JsonWebTokenError
        end
      else JsonWebTokenError
  | _ => JsonWebTokenError
  end.
Definition toy_header (h : string) : jwt_header := Header (Some (of_chars (toy_dec (chars h)))).

Lemma letters_range c x : x ∈ letters c → 97 <= code x <= 112.
Proof.
  pose proof (code_range c). unfold letters. rewrite !elem_of_cons.
  intros [->|[->|[]%not_elem_of_nil]]; rewrite code_chr; dm_lia.
Qed.
Lemma toy_enc_range s x : x ∈ toy_enc s → 97 <= code x <= 112.
Proof. unfold toy_enc. intros (c & Hx & _)%list_elem_of_bind. by eapply letters_range. Qed.
Lemma toy_opt_range o x : x ∈ toy_opt o → 97 <= code x <= 120.
Proof.
  destruct o as [s|]; simpl; [|by intros ?%not_elem_of_nil].
  intros [->|Hx]%elem_of_cons; [vm_compute; split; discriminate|]. apply toy_enc_range in Hx. lia.
Qed.
Lemma toy_dec_enc s : of_chars (toy_dec (toy_enc s)) = s.
Proof.
  unfold toy_enc. rewrite <-(of_chars_chars s) at 2. f_equal. induction (chars s) as [|c l IH]; [done|].
  cbn [mbind list_bind letters app toy_dec]. rewrite IH. pose proof (code_range c).
  rewrite !code_chr by dm_lia. replace ((97 + code c / 16 - 97) * 16 + (97 + code c mod 16 - 97)) with (code c) by dm_lia.
  by rewrite chr_code.
Qed.
Lemma toy_unopt_opt o : toy_unopt (toy_opt o) = o.
Proof. destruct o; simpl; [by rewrite toy_dec_enc|done]. Qed.

Lemma toy_sep (l : list ascii) sep : (∀ x, x ∈ l → 97 <= code x <= 120) → code sep < 97 → sep ∉ l.
Proof. intros Hl Hs Hin. apply Hl in Hin. lia. Qed.

Lemma toy_split k h c iat exp : split_on "." (toy_sign k h c iat exp)
  = [of_chars (toy_enc h); of_chars (toy_opt (sub c) ++ "-"%char :: toy_opt (role_claim c) ++ "-"%char ::
       toy_opt (kid_claim c) ++ "-"%char :: toy_enc (Z_to_string exp)); of_chars (toy_enc (Z_to_string k))].
Proof.
  assert (Hd : code "."%char < 97) by (vm_compute; done).
  assert (He : ∀ s, "."%char ∉ toy_enc s).
  { intros s. apply toy_sep; [|done]. intros x Hx. apply toy_enc_range in Hx. lia. }
  assert (Ho : ∀ o, "."%char ∉ toy_opt o) by (intros o; apply toy_sep; [apply toy_opt_range|done]).
  unfold split_on, toy_sign. rewrite chars_of_chars, split_chars_app by done.
  rewrite split_chars_app; [by rewrite split_chars_last|].
  rewrite !elem_of_app, !elem_of_cons, !elem_of_app, !elem_of_cons, !elem_of_app, !elem_of_cons.
  pose proof (Ho (sub c)). pose proof (Ho (role_claim c)). pose proof (Ho (kid_claim c)).
  pose proof (He (Z_to_string exp)). intuition discriminate.
Qed.

Lemma toy_plain l : (∀ x, x ∈ l → 97 <= code x <= 120 ∨ x = "."%char ∨ x = "-"%char) → forallb plain l = true.
Proof.
  intros Hl. apply forallb_forall. intros x Hx%list_elem_of_In. unfold plain, in_range.
  destruct (Hl x Hx) as [?|[->| ->]]; [lia|done..].
Qed.

#[local] Instance toy_jwt : Jwt Z.
Proof.
  refine {| fingerprint k := Z_to_string k; jwt_sign := toy_sign; jwt_verify := toy_verify;
            jwt_decode_header := toy_header |}.
  - intros k h c iat exp. apply trim_plain. unfold toy_sign. rewrite chars_of_chars. apply toy_plain.
    intros x. rewrite !elem_of_app, !elem_of_cons, !elem_of_app, !elem_of_cons, !elem_of_app, !elem_of_cons,
      !elem_of_app, !elem_of_cons.
    pose proof (toy_opt_range (sub c) x). pose proof (toy_opt_range (role_claim c) x).
    pose proof (toy_opt_range (kid_claim c) x). pose proof (toy_enc_range h x).
    pose proof (toy_enc_range (Z_to_string exp) x). pose proof (toy_enc_range (Z_to_string k) x).
    intuition lia.
  - intros k h c iat exp. eexists _, _, _. split; [apply toy_split|].
    unfold toy_header. by rewrite chars_of_chars, toy_dec_enc.
  - intros k h [c1 c2 c3] iat exp t. unfold toy_verify. rewrite toy_split, decide_True, chars_of_chars by done. simpl.
    assert (He : "-"%char ∉ toy_enc (Z_to_string exp)).
    { apply toy_sep; [|done]. intros x Hx. apply toy_enc_range in Hx. lia. }
    assert (Ho : ∀ o, "-"%char ∉ toy_opt o) by (intros o; apply toy_sep; [apply toy_opt_range|done]).
    rewrite !split_chars_app, split_chars_last by done.
    by rewrite toy_dec_enc, Z_of_to_string, !toy_unopt_opt.
  - intros k k' h c iat exp t Hne. unfold toy_verify. rewrite toy_split. apply decide_False.
    intros Heq. apply Hne. apply (f_equal chars) in Heq. rewrite !chars_of_chars in Heq.
    apply (f_equal (λ l, of_chars (toy_dec l))) in Heq. rewrite !toy_dec_enc in Heq. by apply Z_to_string_inj in Heq.
Defined.

Definition toy_config : auth_config := AuthConfig 3600 (Some 2592000) ["GADMIN"].
(** A wallet whose signature is the message itself. *)
Definition toy_wallet (a m : string) (sig : buffer) : option bool := Some (bool_decide (string_bytes m = sig)).
Definition toy_number (s : string) : number := Z_of_string s.
Definition toy_address : string := "GAAAAAAAAAAAAAAAAAAAAAAAAAAAAAAAAAAAAAAAAAAAAAAAAAAAAAAA".
Definition toy_request : token_request :=
  TokenRequest toy_address "n1" "1000" (to_base64 (string_bytes (message_text toy_address "n1" "1000"))).
Definition toy_world : world Z :=
  World 1000 ∅ ∅ (KeyStore (Some (KeyPair "7" 7 0)) None).
Definition toy_idle : system Z := System toy_world ∅ ∅.
Abbreviation toy_step := (step toy_config toy_number toy_wallet).

(** After a challenge and two requests with its nonce that both wait to read it. *)
Definition toy_challenged : world Z := snd (challengeHandler toy_address "n1" toy_world).
Definition toy_waiting : system Z :=
  System toy_challenged {[0%nat := TGet toy_request; 1%nat := TGet toy_request]} {["n1" := toy_address]}.

Lemma toy_waiting_reachable : rtc toy_step toy_idle toy_waiting.
Proof.
  eapply rtc_l; [eapply (step_challenge _ _ _ toy_idle toy_address "n1"); vm_compute; reflexivity|].
  eapply rtc_l; [apply (step_request _ _ _ _ 0 toy_request); vm_compute; reflexivity|].
  eapply rtc_l; [eapply (step_resume _ _ _ _ 0 _ _ _ 7 "r0"); [vm_compute; reflexivity|reflexivity]|].
  eapply rtc_l; [apply (step_request _ _ _ _ 1 toy_request); vm_compute; reflexivity|].
  eapply rtc_l; [eapply (step_resume _ _ _ _ 1 _ _ _ 7 "r1"); [vm_compute; reflexivity|reflexivity]|].
  replace (set_thread _ _ _ _) with toy_waiting; [apply rtc_refl|vm_compute; reflexivity].
Qed.

(** One of them goes all the way. *)
Definition toy_access : string := signAccessToken toy_config 7 toy_address "user" toy_world.
Definition toy_granted : system Z :=
  System (World 1000 ∅ {["r0" := ((toy_address, "user"), 2592001000)]} (keys toy_world))
    {[0%nat := TDone toy_request (Tokens toy_access "r0" "user"); 1%nat := TGet toy_request]}
    {["n1" := toy_address]}.
Lemma toy_granted_reachable : rtc toy_step toy_waiting toy_granted.
Proof.
  do 4 (eapply rtc_l; [eapply (step_resume _ _ _ _ 0 _ _ _ 7 "r0"); [vm_compute; reflexivity|vm_compute; reflexivity]|]).
  replace (set_thread _ _ _ _) with toy_granted; [apply rtc_refl|vm_compute; reflexivity].
Qed.

Lemma grants_are_authenticated_witness :
  issued toy_granted !! "n1" = Some toy_address ∧ "user" = roleFor toy_config toy_address.
Proof.
  destruct (grants_are_authenticated toy_config toy_number toy_wallet toy_idle toy_granted 0%nat toy_request
    toy_access "r0" "user") as (Hi & _ & _ & Hr).
  - repeat split.
  - etrans; [exact toy_waiting_reachable|exact toy_granted_reachable].
  - vm_compute. reflexivity.
  - split; [exact Hi|exact Hr].
Defined.

(** A third request with the nonce comes too late. *)
Lemma nonce_spent_witness : granted (TDone toy_request (Tokens toy_access "r0" "user")) = true ∧
  ∀ s' p', rtc toy_step toy_granted s' → threads s' !! 2%nat = Some p' → granted p' = true →
    rq_nonce (request_of p') ≠ "n1".
Proof.
  split; [reflexivity|]. intros s' p' Hs Hp Hg.
  apply (nonce_spent toy_config toy_number toy_wallet toy_idle toy_granted s' 0%nat
    (TDone toy_request (Tokens toy_access "r0" "user")) 2%nat p').
  - repeat split.
  - etrans; [exact toy_waiting_reachable|exact toy_granted_reachable].
  - vm_compute. reflexivity.
  - reflexivity.
  - exact Hs.
  - vm_compute. exact I.
  - exact Hp.
  - exact Hg.
Defined.

Lemma nonce_race_witness : ∃ s' p1 p2, rtc toy_step toy_idle s' ∧
  threads s' !! 0%nat = Some p1 ∧ threads s' !! 1%nat = Some p2 ∧ granted p1 = true ∧ granted p2 = true.
Proof.
  destruct (nonce_race toy_config toy_number toy_wallet toy_waiting 0%nat 1%nat toy_request 301000 2592000)
    as (s' & p1 & p2 & Hs & H1 & H2 & G1 & G2 & _).
  - lia.
  - vm_compute. reflexivity.
  - vm_compute. reflexivity.
  - vm_compute. reflexivity.
  - vm_compute. reflexivity.
  - vm_compute. reflexivity.
  - reflexivity.
  - lia.
  - exact (inhabits 7).
  - exists s', p1, p2. split; [etrans; [exact toy_waiting_reachable|exact Hs]|].
    split; [exact H1|]. split; [exact H2|]. split; [exact G1|exact G2].
Defined.

Lemma access_token_lifetime_witness :
  authMiddleware 9 (Some ("Bearer " +:+ signAccessToken toy_config 9 "GA" "admin" toy_world)) toy_world
  = Next (User "GA" "admin").
Proof.
  destruct (access_token_lifetime toy_config 9 9 "GA" "admin" toy_world toy_world (KeyPair "7" 7 0))
    as (Hnow & _).
  - reflexivity.
  - vm_compute. reflexivity.
  - exact (Hnow eq_refl).
Defined.
