(* ===== verification/StrKey.v ===== *)
(** * The base-32 decoder of Stellar addresses

    [verifyEd25519Signature] of [backend/src/routes/authV1.ts]: the decoding of
    an address into bytes and of the public key in it, with the 32-bit wrap of
    JavaScript's shifts written out.  Key import and signature check are
    parameters. *)
From S2P Require Import Prelude Bytes.

(** ** JavaScript's bit operations *)

Definition to_uint32 (z : Z) : Z := z mod 2 ^ 32.
Definition to_int32 (z : Z) : Z :=
  let u := to_uint32 z in if u <? 2 ^ 31 then u else u - 2 ^ 32.
(** [a << n], [a | b] and [a >>> n]; the operands are taken modulo 2^32. *)
Definition js_shl (a n : Z) : Z := to_int32 (Z.shiftl (to_int32 a) n).
Definition js_or (a b : Z) : Z := to_int32 (Z.lor (to_int32 a) (to_int32 b)).
Definition js_ushr (a n : Z) : Z := Z.shiftr (to_uint32 a) n.

(** ** The decoder *)

Definition alphabet : list ascii := chars "ABCDEFGHIJKLMNOPQRSTUVWXYZ234567".

(** [alphabet.indexOf(char)]; [None] is -1. *)
Definition index_of (c : ascii) : option Z := (λ p, Z.of_nat p.1) <$> list_find (c =.) alphabet.

Record base32_state := Base32 { bits : Z; value : Z; bytes : buffer }.

(** One turn of the loop, for a character of index [idx]. *)
Definition base32_step (st : base32_state) (idx : Z) : base32_state :=
  let value := js_or (js_shl (value st) 5) idx in
  let bits := bits st + 5 in
  if 8 <=? bits then Base32 (bits - 8) value (bytes st ++ [Z.land (js_ushr value (bits - 8)) 255])
  else Base32 bits value (bytes st).

Fixpoint base32_loop (l : list ascii) (st : base32_state) : option base32_state :=
  match l with
  | [] => Some st
  | c :: l' => idx ← index_of c; base32_loop l' (base32_step st idx)
  end.

Definition address_bytes (address : string) : option buffer :=
  bytes <$> base32_loop (chars address) (Base32 0 0 []).

Section verify.
Context {Key : Type} (createPublicKey : buffer → option Key) (crypto_verify : Key → buffer → buffer → bool).

Definition verifyEd25519Signature (address : string) (message : buffer) (signatureBase64 : string) : bool :=
  match address_bytes address with
  | None => false
  | Some bs =>
      if buf_length bs <? 35 then false else
      let rawPubKey := subarray 1 33 bs in
      let signature := from_base64 signatureBase64 in
      match createPublicKey rawPubKey with
      | Some keyObject => crypto_verify keyObject message signature
      | None => false
      end
  end.
End verify.

(** ** The encoding *)

(** The number a text stands for in base 32, and the [n] digits of a number. *)
Definition base32_value (idxs : list Z) : Z := fold_left (λ acc i, acc * 32 + i) idxs 0.
Fixpoint base32_digits (n : nat) (z : Z) : list Z :=
  match n with
  | O => []
  | S n' => base32_digits n' (z / 32) ++ [z mod 32]
  end.
Definition base32_char (i : Z) : ascii := default "A"%char (alphabet !! Z.to_nat i).
(** An address: 35 bytes (version, key, checksum) in 56 characters. *)
Definition encode_address (b : buffer) : string :=
  of_chars (base32_char <$> base32_digits 56 (big_endian b)).

(** ** Lemmas *)

Lemma length_chars s : length (chars s) = String.length s.
Proof. unfold chars. induction s; simpl; congruence. Qed.

Lemma uint32_int32 z : to_uint32 (to_int32 z) = to_uint32 z.
Proof.
  unfold to_int32, to_uint32. destruct (Z.ltb_spec (z mod 2 ^ 32) (2 ^ 31)); [by rewrite Zmod_mod|].
  rewrite Zminus_mod, Z_mod_same_full, Z.sub_0_r, !Zmod_mod. done.
Qed.

Lemma low_byte_uint32 z s : 0 <= s <= 24 → Z.land (Z.shiftr (to_uint32 z) s) 255 = (z / 2 ^ s) mod 256.
Proof.
  intros Hs. change 256 with (2 ^ 8). change 255 with (Z.ones 8). unfold to_uint32.
  rewrite <-!Z.land_ones, <-Z.shiftr_div_pow2 by lia.
  apply Z.bits_inj'. intros n Hn. rewrite !Z.land_spec, !Z.shiftr_spec, Z.land_spec, !Z.testbit_ones by lia.
  destruct (Z.leb_spec 0 n), (Z.ltb_spec n 8), (Z.leb_spec 0 (n + s)), (Z.ltb_spec (n + s) 32);
    simpl; rewrite ?andb_true_r, ?andb_false_r; try done; lia.
Qed.

Lemma uint32_shl_or v idx : 0 <= idx < 32 → to_uint32 (js_or (js_shl v 5) idx) = to_uint32 (v * 32 + idx).
Proof.
  intros Hi. unfold js_or, js_shl. rewrite uint32_int32.
  assert (Hlor : ∀ a b, to_uint32 (Z.lor a b) = Z.lor (to_uint32 a) (to_uint32 b)).
  { intros a b. unfold to_uint32. rewrite <-!Z.land_ones by lia. apply Z.land_lor_distr_l. }
  rewrite Hlor, !uint32_int32. unfold to_uint32 at 2. rewrite (Z.mod_small idx) by lia.
  assert (Hsh : to_uint32 (Z.shiftl (to_int32 v) 5) = Z.shiftl (v mod 2 ^ 27) 5).
  { rewrite !Z.shiftl_mul_pow2 by lia. pose proof (uint32_int32 v) as Hv. unfold to_uint32 in *.
    change (2 ^ 32) with (2 ^ 27 * 2 ^ 5) in *. rewrite Z.mul_mod_distr_r by lia. f_equal.
    assert (Hd : (2 ^ 27 | 2 ^ 27 * 2 ^ 5)) by (exists (2 ^ 5); lia).
    by rewrite <-(Z.mod_mod_divide (to_int32 v) _ _ Hd), Hv, Z.mod_mod_divide. }
  rewrite Hsh, lor_shiftl_add by (change (2 ^ 5) with 32; lia).
  unfold to_uint32. change (2 ^ 32) with (2 ^ 27 * 32). change (2 ^ 5) with 32.
  dm_lia.
Qed.

(** The state after the digits [idxs]: the value is right modulo 2^32, and the
    bytes are all the whole bytes of the number read so far. *)
Record reads (idxs : list Z) (st : base32_state) : Prop := Reads {
  rd_value : to_uint32 (value st) = to_uint32 (base32_value idxs);
  rd_bits : 0 <= bits st < 8;
  rd_length : 5 * Z.of_nat (length idxs) = 8 * buf_length (bytes st) + bits st;
  rd_bytes : bytes st = to_big_endian (length (bytes st)) (base32_value idxs / 2 ^ bits st) }.

Lemma base32_value_snoc idxs i : base32_value (idxs ++ [i]) = base32_value idxs * 32 + i.
Proof. unfold base32_value. by rewrite fold_left_app. Qed.

Lemma base32_step_reads idxs st i : 0 <= i < 32 → reads idxs st → reads (idxs ++ [i]) (base32_step st i).
Proof.
  intros Hi [V B L D]. unfold base32_step.
  assert (Hv : to_uint32 (js_or (js_shl (value st) 5) i) = to_uint32 (base32_value (idxs ++ [i]))).
  { rewrite uint32_shl_or, base32_value_snoc by done. unfold to_uint32 in *.
    by rewrite Zplus_mod, Zmult_mod, V, <-Zmult_mod, <-Zplus_mod. }
  assert (Hq : base32_value (idxs ++ [i]) / 2 ^ (bits st + 5) = base32_value idxs / 2 ^ bits st).
  { rewrite base32_value_snoc. replace (2 ^ (bits st + 5)) with (32 * 2 ^ bits st)
      by (rewrite Z.pow_add_r by lia; lia).
    rewrite <-Z.div_div by lia. f_equal. dm_lia. }
  assert (Hl : 5 * Z.of_nat (length (idxs ++ [i])) = 8 * buf_length (bytes st) + (bits st + 5))
    by (rewrite length_app; simpl; lia).
  destruct (Z.leb_spec 8 (bits st + 5)) as [H8|H8].
  - split; simpl; [done|lia|rewrite buf_length_app; unfold buf_length at 2; simpl; lia|].
    rewrite length_app, Nat.add_1_r. cbn [to_big_endian].
    unfold js_ushr. rewrite Hv, low_byte_uint32 by lia. f_equal.
    rewrite Z.div_div by lia. change 256 with (2 ^ 8). rewrite <-Z.pow_add_r by lia.
    replace (bits st + 5 - 8 + 8) with (bits st + 5) by lia. by rewrite Hq.
  - split; simpl; [done|lia|done|]. by rewrite Hq.
Qed.

Lemma base32_loop_reads l idxs0 idxs st :
  Forall (λ i, 0 <= i < 32) idxs → mapM index_of l = Some idxs → reads idxs0 st →
  ∃ st', base32_loop l st = Some st' ∧ reads (idxs0 ++ idxs) st'.
Proof.
  revert idxs0 idxs st. induction l as [|c l IH]; intros idxs0 idxs st Hf; cbn [mapM base32_loop].
  - intros [= <-] Hr. exists st. by rewrite (right_id_L [] (++)).
  - destruct (index_of c) as [i|]; [|done]. simpl. destruct (mapM index_of l) as [js|] eqn:Hm; [|done].
    intros [= <-] Hr. apply Forall_cons in Hf as [Hi Hf].
    destruct (IH (idxs0 ++ [i]) js (base32_step st i) Hf eq_refl) as (st' & Hst & Hr');
      [by apply base32_step_reads|].
    exists st'. split; [done|]. by rewrite <-(assoc_L (++)) in Hr'.
Qed.

Lemma base32_loop_None l st : mapM index_of l = None → base32_loop l st = None.
Proof.
  revert st. induction l as [|c l IH]; intros st; simpl; [done|].
  destruct (index_of c); simpl; [|done]. destruct (mapM index_of l); [done|]. intros _. by apply IH.
Qed.

Lemma index_of_bounds c i : index_of c = Some i → 0 <= i < 32.
Proof.
  unfold index_of. destruct (list_find _ alphabet) as [[n x]|] eqn:Hf; [|done]. intros [= <-]. simpl.
  apply list_find_Some in Hf as [Hn _]. apply lookup_lt_Some in Hn.
  change (length alphabet) with 32%nat in Hn. lia.
Qed.
Lemma mapM_index_bounds l idxs : mapM index_of l = Some idxs → Forall (λ i, 0 <= i < 32) idxs ∧ length idxs = length l.
Proof.
  intros Hm. apply mapM_Some in Hm. split; [|symmetry; by apply Forall2_length in Hm].
  induction Hm as [|c i l idxs Hc _ IH]; constructor; [by eapply index_of_bounds|done].
Qed.

Lemma index_of_char i : 0 <= i < 32 → index_of (base32_char i) = Some i.
Proof.
  intros Hi.
  assert (forallb (λ i, bool_decide (index_of (base32_char i) = Some i)) (seqZ 0 32) = true) as Hall
    by (vm_compute; done).
  rewrite forallb_forall in Hall. specialize (Hall i).
  apply bool_decide_eq_true in Hall; [done|]. apply list_elem_of_In, elem_of_seqZ. lia.
Qed.

Lemma base32_digits_bounds n z : Forall (λ i, 0 <= i < 32) (base32_digits n z).
Proof.
  revert z. induction n as [|n IH]; intros z; simpl; [done|].
  apply Forall_app. split; [done|]. apply Forall_singleton. apply Z.mod_pos_bound. lia.
Qed.
Lemma length_base32_digits n z : length (base32_digits n z) = n.
Proof. revert z. induction n; intros; simpl; rewrite ?length_app, ?IHn; simpl; lia. Qed.
Lemma base32_value_digits n z : base32_value (base32_digits n z) = z mod 32 ^ Z.of_nat n.
Proof.
  revert z. induction n as [|n IH]; intros z.
  - simpl. by rewrite Z.mod_1_r.
  - cbn [base32_digits]. rewrite base32_value_snoc, IH, Nat2Z.inj_succ, Z.pow_succ_r, Z.rem_mul_r by lia. lia.
Qed.
Lemma mapM_index_chars idxs : Forall (λ i, 0 <= i < 32) idxs → mapM index_of (base32_char <$> idxs) = Some idxs.
Proof.
  induction 1 as [|i idxs Hi _ IH]; [done|]. rewrite fmap_cons. cbn [mapM]. rewrite index_of_char by done.
  simpl. by rewrite IH.
Qed.

(** ** Properties *)

(** Addresses are decoded exactly, although the running value wraps at 32 bits:
    a text with a character outside the alphabet is refused, any other text of
    [k] characters gives all whole bytes of the 5k-bit number it writes, and
    every string of 35 bytes is read back from its 56-character address. *)
Theorem address_bytes_exact address :
  match mapM index_of (chars address) with
  | None => address_bytes address = None
  | Some idxs =>
      let k := 5 * str_length address in
      address_bytes address
      = Some (to_big_endian (Z.to_nat (k / 8)) (base32_value idxs / 2 ^ (k mod 8)))
  end ∧
  (∀ b, Forall is_byte b → length b = 35%nat → address_bytes (encode_address b) = Some b).
Proof.
  assert (Hspec : ∀ l idxs, mapM index_of l = Some idxs → ∃ st, base32_loop l (Base32 0 0 []) = Some st ∧
    bytes st = to_big_endian (Z.to_nat (5 * Z.of_nat (length l) / 8))
                 (base32_value idxs / 2 ^ (5 * Z.of_nat (length l) mod 8))).
  { intros l idxs Hm. destruct (mapM_index_bounds _ _ Hm) as [Hf Hl].
    destruct (base32_loop_reads l [] idxs (Base32 0 0 []) Hf Hm) as (st & Hst & [_ B L D]); [by split|].
    exists st. split; [done|]. simpl in D, L. rewrite Hl in L. unfold buf_length in L.
    rewrite D at 1. f_equal; [|f_equal; f_equal]; dm_lia. }
  split.
  - destruct (mapM index_of (chars address)) as [idxs|] eqn:Hm; unfold address_bytes.
    + destruct (Hspec _ _ Hm) as (st & -> & Hb). simpl. f_equal. rewrite Hb. unfold str_length.
      by rewrite length_chars.
    + by rewrite base32_loop_None.
  - intros b Hb Hlen. unfold address_bytes, encode_address. rewrite chars_of_chars.
    destruct (Hspec (base32_char <$> base32_digits 56 (big_endian b)) (base32_digits 56 (big_endian b)))
      as (st & -> & Hst); [apply mapM_index_chars, base32_digits_bounds|].
    simpl. f_equal. rewrite Hst, length_fmap, length_base32_digits, base32_value_digits.
    change (5 * Z.of_nat 56) with 280. change (280 mod 8) with 0. change (Z.to_nat (280 / 8)) with 35%nat.
    pose proof (to_big_endian_big_endian b Hb) as Hback. rewrite Hlen in Hback.
    rewrite Z.pow_0_r, Z.div_1_r, Z.mod_small; [exact Hback|].
    pose proof (big_endian_bounds b Hb) as Hbound. unfold buf_length in Hbound. rewrite Hlen in Hbound.
    change (32 ^ Z.of_nat 56) with (256 ^ Z.of_nat 35). lia.
Qed.
