(* ===== verification/Idempotency.v ===== *)
(** * The idempotency middleware

    [backend/src/middleware/idempotency.ts]: responses to [POST] and [DELETE]
    cached by idempotency key and caller, in Redis or, when Redis cannot be
    reached, in memory.  A request is split at its [await]s and at the run of
    its handler, so that requests overlap.  Handlers answer with [res.json];
    what they answer, and whether Redis does, are inputs of a step. *)
From S2P Require Import Prelude.

Definition TTL_SECONDS : Z := 24 * 60 * 60.
Definition TTL_MS : Z := TTL_SECONDS * 1000.

Record response := Response { status : Z; body : string }.
Record CachedResponse := Cached { cached : response; expiresAt : Z }.

Record request := Request {
  method : string;
  idempotencyKey : option string;
  callerIp : string }.

Definition buildCacheKey (idempotencyKey callerIp : string) : string :=
  "idempotency:" +:+ idempotencyKey +:+ ":" +:+ callerIp.

(** The cache key of a request the middleware deduplicates. *)
Definition cache_key (rq : request) : option string :=
  if negb (bool_decide (method rq = "POST") || bool_decide (method rq = "DELETE")) then None
  else match idempotencyKey rq with
       | Some k => if truthy k then Some (buildCacheKey k (callerIp rq)) else None
       | None => None
       end.

(** [redis] holds a response with the end of its time to live. *)
Record world := World {
  clock : Z;
  redisClient : bool;
  redisUnavailable : bool;
  redis : gmap string (CachedResponse * Z);
  memoryCache : gmap string CachedResponse }.

(** Where the response of a handler is stored. *)
Inductive cache := InRedis | InMemory.

(** A request waits for the connection, for [redis.get], or for its handler,
    whose [res.json] stores the response or not; or it is answered, by replay
    or by its handler. *)
Inductive outcome := Replayed | Ran (store : option cache).
Inductive phase :=
| IConnect (rq : request) (key : string)
| IRead (rq : request) (key : string)
| IRun (rq : request) (store : option cache)
| IDone (rq : request) (r : response) (o : outcome).

Definition set_flags (client unavailable : bool) (w : world) : world :=
  World (clock w) client unavailable (redis w) (memoryCache w).
Definition set_redis (m : gmap string (CachedResponse * Z)) (w : world) : world :=
  World (clock w) (redisClient w) (redisUnavailable w) m (memoryCache w).
Definition set_memory (m : gmap string CachedResponse) (w : world) : world :=
  World (clock w) (redisClient w) (redisUnavailable w) (redis w) m.
Definition set_clock (t : Z) (w : world) : world :=
  World t (redisClient w) (redisUnavailable w) (redis w) (memoryCache w).

Definition redis_get (key : string) (w : world) : option CachedResponse :=
  match redis w !! key with
  | Some (c, expiry) => if clock w <? expiry then Some c else None
  | None => None
  end.

Definition memory_path (rq : request) (key : string) (w : world) : phase * world :=
  match memoryCache w !! key with
  | Some existing =>
      if clock w <? expiresAt existing then (IDone rq (cached existing) Replayed, w)
      else (IRun rq (Some InMemory), set_memory (delete key (memoryCache w)) w)
  | None => (IRun rq (Some InMemory), w)
  end.

(** The middleware up to its first [await] that waits. *)
Definition idempotencyMiddleware (rq : request) (w : world) : phase * world :=
  match cache_key rq with
  | None => (IRun rq None, w)
  | Some key =>
      if redisUnavailable w then memory_path rq key w
      else if redisClient w then (IRead rq key, w) else (IConnect rq key, w)
  end.

(** What the wrapped [res.json] keeps. *)
Definition store_response (rq : request) (store : option cache) (r : response) (set_ok : bool) (w : world) : world :=
  match store, cache_key rq with
  | Some c, Some key =>
      if status r <? 500 then
        let payload := Cached r (clock w + TTL_MS) in
        match c with
        | InRedis => if set_ok then set_redis (<[key := (payload, clock w + TTL_SECONDS * 1000)]> (redis w)) w else w
        | InMemory => set_memory (<[key := payload]> (memoryCache w)) w
        end
      else w
  | _, _ => w
  end.

(** One resumption.  [ok]: whether Redis connects, answers or stores; [r]: the
    answer of the handler. *)
Definition resume (ok : bool) (r : response) (p : phase) (w : world) : phase * world :=
  match p with
  | IConnect rq key =>
      if ok then (IRead rq key, set_flags true (redisUnavailable w) w)
      else memory_path rq key (set_flags (redisClient w) true w)
  | IRead rq key =>
      if ok then match redis_get key w with
                 | Some c => (IDone rq (cached c) Replayed, w)
                 | None => (IRun rq (Some InRedis), w)
                 end
      else (IRun rq None, w)
  | IRun rq store => (IDone rq r (Ran store), store_response rq store r ok w)
  | IDone rq r' o => (IDone rq r' o, w)
  end.

Record system := System { server : world; threads : gmap nat phase }.

(** What happens: a request arrives, one that waits goes on (with what Redis,
    or its handler, answers), time passes. *)
Inductive action := Arrive (id : nat) (rq : request) | Resume (id : nat) (ok : bool) (r : response) | Pass (t : Z).
Inductive step (s : system) : action → system → Prop :=
| step_request id rq p w' :
    threads s !! id = None → idempotencyMiddleware rq (server s) = (p, w') →
    step s (Arrive id rq) (System w' (<[id := p]> (threads s)))
| step_resume id p p' w' ok r :
    threads s !! id = Some p → resume ok r p (server s) = (p', w') →
    step s (Resume id ok r) (System w' (<[id := p']> (threads s)))
| step_time t :
    clock (server s) <= t → step s (Pass t) (System (set_clock t (server s)) (threads s)).

(** A history: what happened, in order, each with the states before and after. *)
Definition occurrence : Type := system * action * system.
Inductive history (s : system) : list occurrence → system → Prop :=
| history_nil : history s [] s
| history_cons a s1 es s' : step s a s1 → history s1 es s' → history s ((s, a, s1) :: es) s'.

Definition idle (s : system) : Prop := threads s = ∅ ∧ redis (server s) = ∅ ∧ memoryCache (server s) = ∅.

Definition request_of (p : phase) : request :=
  match p with IConnect rq _ | IRead rq _ | IRun rq _ | IDone rq _ _ => rq end.

(** ** Lemmas *)

(** A handler answered [r] to a request with the cache key [key]. *)
Definition answered (s : system) (key : string) (r : response) : Prop :=
  status r < 500 ∧ ∃ id rq o, threads s !! id = Some (IDone rq r (Ran o)) ∧ cache_key rq = Some key.

(** The key of a phase is the key of its request, and replays are answers. *)
Definition phase_ok (s : system) (p : phase) : Prop :=
  match p with
  | IConnect rq key | IRead rq key => cache_key rq = Some key
  | IRun rq (Some _) => is_Some (cache_key rq)
  | IRun rq None => True
  | IDone rq r Replayed => ∃ key, cache_key rq = Some key ∧ answered s key r
  | IDone _ _ _ => True
  end.

Record cache_ok (s : system) : Prop := CacheOk {
  co_redis : ∀ key c e, redis (server s) !! key = Some (c, e) →
    answered s key (cached c) ∧ e <= clock (server s) + TTL_MS;
  co_memory : ∀ key c, memoryCache (server s) !! key = Some c → answered s key (cached c);
  co_threads : ∀ id p, threads s !! id = Some p → phase_ok s p }.

(** Answers stay: a thread that is done is done. *)
Definition kept (s s' : system) : Prop :=
  ∀ id rq r o, threads s !! id = Some (IDone rq r o) → threads s' !! id = Some (IDone rq r o).
Lemma answered_kept s s' key r : kept s s' → answered s key r → answered s' key r.
Proof. intros Hk [Hr (id & rq & o & Hid & Hkey)]. split; [done|]. exists id, rq, o. split; [by apply Hk|done]. Qed.
Lemma phase_ok_kept s s' p : kept s s' → phase_ok s p → phase_ok s' p.
Proof.
  intros Hk. destruct p as [| |rq []|rq r []]; simpl; try done.
  intros (key & ? & ?). exists key. split; [done|by eapply answered_kept].
Qed.

Lemma insert_kept s id p p' w : threads s !! id = Some p → (∀ rq r o, p = IDone rq r o → p' = p) →
  kept s (System w (<[id := p']> (threads s))).
Proof.
  intros Hp Hd id' rq r o Hid. simpl. destruct (decide (id = id')) as [<-|Hne].
  - rewrite lookup_insert_eq. rewrite Hp in Hid. simplify_eq. by erewrite Hd.
  - by rewrite lookup_insert_ne.
Qed.
Lemma insert_new_kept s id p w : threads s !! id = None → kept s (System w (<[id := p]> (threads s))).
Proof. intros Hp id' rq r o Hid. simpl. rewrite lookup_insert_ne; [done|congruence]. Qed.

(** A change of one thread that only moves it, or empties some memory. *)
Lemma cache_ok_move s id p w :
  cache_ok s → kept s (System w (<[id := p]> (threads s))) → clock w = clock (server s) →
  redis w = redis (server s) → memoryCache w ⊆ memoryCache (server s) →
  phase_ok (System w (<[id := p]> (threads s))) p → cache_ok (System w (<[id := p]> (threads s))).
Proof.
  intros [Hr Hm Ht] Hk Hc Hre Hme Hp. split; simpl.
  - intros key c e Hl. rewrite Hre in Hl. apply Hr in Hl as [Ha He]. rewrite Hc. split; [by eapply answered_kept|done].
  - intros key c Hl. eapply answered_kept; [exact Hk|]. eapply Hm, lookup_weaken; [exact Hl|exact Hme].
  - intros id' q. destruct (decide (id = id')) as [<-|Hne].
    + rewrite lookup_insert_eq. by intros [= <-].
    + rewrite lookup_insert_ne by done. intros Hq. eapply phase_ok_kept; [exact Hk|]. by eapply Ht.
Qed.

Lemma memory_path_spec s rq key w' p :
  cache_ok s → cache_key rq = Some key → memory_path rq key (server s) = (p, w') →
  clock w' = clock (server s) ∧ redis w' = redis (server s) ∧ memoryCache w' ⊆ memoryCache (server s) ∧
  redisClient w' = redisClient (server s) ∧ redisUnavailable w' = redisUnavailable (server s) ∧ phase_ok s p.
Proof.
  intros [_ Hm _] Hkey. unfold memory_path. destruct (memoryCache (server s) !! key) as [c|] eqn:Hl.
  - case_match; intros; simplify_eq; simpl; split_and!; try done.
    + exists key. split; [done|by apply Hm].
    + apply delete_subseteq.
  - intros; simplify_eq; simpl; split_and!; try done.
Qed.

Lemma idem_redis_get_Some key w c : redis_get key w = Some c → ∃ e, redis w !! key = Some (c, e) ∧ clock w < e.
Proof.
  unfold redis_get. destruct (redis w !! key) as [[c' e]|]; [|done].
  destruct (Z.ltb_spec (clock w) e); [|done]. intros [= ->]. eauto.
Qed.

Lemma idem_resume_ok s id p p' w' ok r :
  cache_ok s → threads s !! id = Some p → resume ok r p (server s) = (p', w') →
  cache_ok (System w' (<[id := p']> (threads s))) ∧ kept s (System w' (<[id := p']> (threads s))).
Proof.
  intros Hok Hp Hr. pose proof (co_threads _ Hok _ _ Hp) as Hph.
  assert (Hk : kept s (System w' (<[id := p']> (threads s)))).
  { apply (insert_kept _ _ p); [done|]. intros rq r' o ->. simpl in Hr. by simplify_eq. }
  split; [|exact Hk].
  assert (Hsame : w' = server s → phase_ok s p' → cache_ok (System w' (<[id := p']> (threads s)))).
  { intros -> Hp'. apply cache_ok_move; try done. by eapply phase_ok_kept. }
  destruct p as [rq key|rq key|rq store|rq r' o]; simpl in Hr, Hph.
  - destruct ok.
    + simplify_eq. by apply cache_ok_move.
    + set (s1 := System (set_flags (redisClient (server s)) true (server s)) (threads s)).
      assert (cache_ok s1) as Hok1 by (by destruct Hok; split).
      destruct (memory_path_spec s1 rq key w' p' Hok1 Hph Hr) as (? & ? & ? & _ & _ & ?).
      apply cache_ok_move; try done. eapply phase_ok_kept; [exact Hk|]. done.
  - destruct ok; [|simplify_eq; by apply Hsame].
    destruct (redis_get key (server s)) as [c|] eqn:Hg; simplify_eq; (apply Hsame; [done|]); simpl; [|by eexists].
    apply idem_redis_get_Some in Hg as (e & Hl & _). exists key. split; [done|].
    by apply (co_redis _ Hok) in Hl as [? _].
  - simplify_eq.
    assert (Hans : ∀ key, cache_key rq = Some key → status r < 500 → ∀ w,
      answered (System w (<[id := IDone rq r (Ran store)]> (threads s))) key r).
    { intros key Hkey Hst w. split; [done|]. exists id, rq, store. simpl. by rewrite lookup_insert_eq. }
    unfold store_response. destruct store as [c|]; [|by apply cache_ok_move].
    destruct (cache_key rq) as [key|] eqn:Hkey; [|by apply cache_ok_move].
    destruct (Z.ltb_spec (status r) 500) as [Hst|Hst]; [|by apply cache_ok_move].
    destruct Hok as [Hr Hm Ht].
    assert (Hthreads : ∀ w, kept s (System w (<[id := IDone rq r (Ran (Some c))]> (threads s))) →
      ∀ id' q, <[id := IDone rq r (Ran (Some c))]> (threads s) !! id' = Some q →
      phase_ok (System w (<[id := IDone rq r (Ran (Some c))]> (threads s))) q).
    { intros w Hkw id' q. destruct (decide (id = id')) as [<-|Hne].
      - rewrite lookup_insert_eq. by intros [= <-].
      - rewrite lookup_insert_ne by done. intros Hq. eapply phase_ok_kept; [exact Hkw|]. by eapply Ht. }
    assert (Hk0 : ∀ w, kept s (System w (<[id := IDone rq r (Ran (Some c))]> (threads s)))).
    { intros w. by apply (insert_kept _ _ (IRun rq (Some c))). }
    destruct c; [destruct ok|]; (split; simpl; [| |by apply Hthreads]);
      try (intros key' c e Hl; destruct (Hr _ _ _ Hl); split; [by eapply answered_kept|done]);
      try (intros key' c Hl; eapply answered_kept; [apply Hk0|by eapply Hm]).
    + intros key' c e. destruct (decide (key = key')) as [<-|Hne].
      * rewrite lookup_insert_eq. intros [= <- <-]. split; [by apply Hans|]. unfold TTL_MS. lia.
      * rewrite lookup_insert_ne by done. intros Hl. destruct (Hr _ _ _ Hl).
        split; [by eapply answered_kept|done].
    + intros key' c. destruct (decide (key = key')) as [<-|Hne].
      * rewrite lookup_insert_eq. intros [= <-]. by apply Hans.
      * rewrite lookup_insert_ne by done. intros Hl. eapply answered_kept; [apply Hk0|by eapply Hm].
  - simplify_eq. apply Hsame; [done|exact Hph].
Qed.

Lemma idem_step_ok s a s' : cache_ok s → step s a s' → cache_ok s'.
Proof.
  intros Hok Hs. destruct Hs as [id rq p w' Hid Hm|id p p' w' ok r Hp Hr|t Ht].
  - assert (Hk : kept s (System w' (<[id := p]> (threads s)))) by (by apply insert_new_kept).
    unfold idempotencyMiddleware in Hm. destruct (cache_key rq) as [key|] eqn:Hkey.
    + destruct (redisUnavailable (server s)).
      * destruct (memory_path_spec s rq key w' p Hok Hkey Hm) as (? & ? & ? & _ & _ & ?).
        apply cache_ok_move; try done. by eapply phase_ok_kept.
      * case_match; simplify_eq; by apply cache_ok_move.
    + simplify_eq. by apply cache_ok_move.
  - by apply (idem_resume_ok _ _ _ _ _ _ _ Hok Hp Hr).
  - destruct Hok as [Hr Hm Hth]. split; simpl; [|done|done].
    intros key c e Hl. destruct (Hr _ _ _ Hl). split; [done|lia].
Qed.
Lemma idem_history_ok s es s' : cache_ok s → history s es s' → cache_ok s'.
Proof. intros Hok Hs. induction Hs; eauto using idem_step_ok. Qed.
Lemma idem_idle_ok s : idle s → cache_ok s.
Proof. intros (Ht & Hr & Hm). split; rewrite ?Ht, ?Hr, ?Hm; intros *; by rewrite lookup_empty. Qed.

Lemma memory_path_clock rq key w p w' : memory_path rq key w = (p, w') → clock w' = clock w.
Proof. unfold memory_path. destruct (memoryCache w !! key); [case_match|]; intros; by simplify_eq. Qed.
Lemma store_clock rq st r b w : clock (store_response rq st r b w) = clock w.
Proof. unfold store_response. by repeat case_match. Qed.
Lemma step_clock s a s' : step s a s' → clock (server s) <= clock (server s').
Proof.
  destruct 1 as [id rq p w' _ Hm|id p p' w' ok r _ Hr|t Ht]; simpl; [| |done].
  - unfold idempotencyMiddleware in Hm. repeat case_match; simplify_eq; try done.
    apply memory_path_clock in Hm. lia.
  - destruct p; simpl in Hr; repeat case_match; simplify_eq; simpl; try done.
    + apply memory_path_clock in Hr. simpl in Hr. lia.
    + rewrite store_clock. done.
Qed.
Lemma history_clock s es s' : history s es s' → clock (server s) <= clock (server s').
Proof. induction 1 as [|s a s1 es s' H1 _ IH]; [done|]. apply step_clock in H1. lia. Qed.

(** Redis is in use and holds an answer for [key] until [e] at least. *)
Record live (key : string) (e : Z) (s : system) : Prop := Live {
  lv_entry : ∃ c e', redis (server s) !! key = Some (c, e') ∧ e <= e';
  lv_client : redisClient (server s) = true;
  lv_available : redisUnavailable (server s) = false;
  lv_connected : ∀ id rq k, threads s !! id ≠ Some (IConnect rq k) }.

Lemma live_request key e s rq p w' : live key e s → idempotencyMiddleware rq (server s) = (p, w') →
  w' = server s ∧ (p = IRun rq None ∧ cache_key rq = None ∨ ∃ k, p = IRead rq k).
Proof.
  intros [_ Hcl Hav _]. unfold idempotencyMiddleware. rewrite Hav, Hcl. destruct (cache_key rq); intros; simplify_eq; eauto.
Qed.
(** While Redis holds an answer, a read of the key that gets through hits. *)
Lemma live_hit key e s : live key e s → clock (server s) < e → redis_get key (server s) ≠ None.
Proof.
  intros [(c & e' & Hl & Hle) _ _ _] Hc. unfold redis_get. rewrite Hl.
  by destruct (Z.ltb_spec (clock (server s)) e'); [|lia].
Qed.

Lemma step_live key e s a s' :
  e <= clock (server s) + TTL_MS → clock (server s) < e → live key e s → step s a s' → live key e s'.
Proof.
  intros He Hc Hlive Hs. pose proof Hlive as [Hent Hcl Hav Hcon].
  destruct Hs as [id' rq p w' Hid Hm|id' p p' w' ok r Hp Hr|t Ht]; [| |by split].
  - destruct (live_request key e s rq p w' Hlive Hm) as [-> Hp]. split; try done. simpl.
    intros id2 rq2 k. destruct (decide (id' = id2)) as [<-|]; [rewrite lookup_insert_eq|by rewrite lookup_insert_ne].
    destruct Hp as [[-> _]|[? ->]]; congruence.
  - assert (Hw : (∃ c e', redis w' !! key = Some (c, e') ∧ e <= e') ∧ redisClient w' = true ∧ redisUnavailable w' = false).
    { destruct p as [rq k|rq k|rq st|rq r' o]; simpl in Hr; [by destruct (Hcon _ _ _ Hp)| | |by simplify_eq].
      - repeat case_match; by simplify_eq.
      - injection Hr as _ <-. unfold store_response. destruct st as [[]|], (cache_key rq) as [k|]; try done;
          case_match; try done. destruct ok; [|done]. simpl. split; [|done].
        destruct (decide (k = key)) as [->|Hne]; [rewrite lookup_insert_eq|by rewrite lookup_insert_ne].
        eexists _, _. split; [done|]. unfold TTL_MS in He. lia. }
    destruct Hw as (Hent' & Hcl' & Hav'). split; try done. simpl.
    intros id2 rq2 k. destruct (decide (id' = id2)) as [<-|]; [rewrite lookup_insert_eq|by rewrite lookup_insert_ne].
    destruct p; simpl in Hr; [by destruct (Hcon _ _ _ Hp)|..]; repeat case_match; congruence.
Qed.

(** No handler whose answer would be stored for [key] is running. *)
Definition nobody_runs (key : string) (s : system) : Prop :=
  ∀ id rq st, threads s !! id = Some (IRun rq (Some st)) → cache_key rq ≠ Some key.
(** Then the answer stays the same one. *)
Definition steady (key : string) (c : CachedResponse) (e : Z) (s : system) : Prop :=
  redis (server s) !! key = Some (c, e) ∧ nobody_runs key s.
Lemma step_steady key c e s a s' : cache_ok s → clock (server s) < e → live key e s → step s a s' →
  steady key c e s → steady key c e s'.
Proof.
  intros Hok Hc Hlive Hs [Hl Hn]. destruct Hs as [id' rq p w' Hid Hm|id' p p' w' ok r Hp Hr|t Ht]; [| |by split].
  - destruct (live_request key e s rq p w' Hlive Hm) as [-> Hp]. split; [done|]. intros id rq' st. simpl.
    destruct (decide (id' = id)) as [<-|]; [rewrite lookup_insert_eq|rewrite lookup_insert_ne by done; by apply Hn].
    destruct Hp as [[-> _]|[? ->]]; congruence.
  - pose proof (co_threads _ Hok _ _ Hp) as Hph. split.
    + simpl. destruct p as [rq k|rq k|rq st|rq r' o]; simpl in Hr; [by destruct (lv_connected _ _ _ Hlive _ _ _ Hp)| | |by simplify_eq].
      * repeat case_match; by simplify_eq.
      * injection Hr as _ <-. unfold store_response. destruct st as [[]|], (cache_key rq) as [k|] eqn:Hk; try done;
          case_match; try done. destruct ok; [|done]. simpl. rewrite lookup_insert_ne; [done|]. intros ->.
        by apply (Hn _ _ _ Hp).
    + intros id rq' st. simpl.
      destruct (decide (id' = id)) as [<-|]; [rewrite lookup_insert_eq|rewrite lookup_insert_ne by done; by apply Hn].
      intros [= ->]. destruct p as [rq k|rq k|rq st'|rq r' o]; simpl in Hr;
        [by destruct (lv_connected _ _ _ Hlive _ _ _ Hp)| |by simplify_eq|by simplify_eq].
      destruct ok; [|by simplify_eq]. destruct (redis_get k (server s)) eqn:Hg; simplify_eq. simpl in Hph.
      rewrite Hph. intros [= ->]. by apply (live_hit _ _ _ Hlive Hc).
Qed.

(** *** What the history says of one request *)

(** Redis failed to answer the read of request [id]. *)
Definition redis_failed (es : list occurrence) (id : nat) : Prop :=
  ∃ s1 s2 r rq k, (s1, Resume id false r, s2) ∈ es ∧ threads s1 !! id = Some (IRead rq k).
(** The handler of request [id] ran. *)
Definition handled (es : list occurrence) (id : nat) : Prop :=
  ∃ s1 s2 ok r rq st, (s1, Resume id ok r, s2) ∈ es ∧ threads s1 !! id = Some (IRun rq st).
(** Request [id] was answered with what Redis held for [key] at that moment. *)
Definition read_answer (es : list occurrence) (id : nat) (key : string) (answer : response) : Prop :=
  ∃ s1 s2 r c e, (s1, Resume id true r, s2) ∈ es ∧ redis (server s1) !! key = Some (c, e) ∧ clock (server s1) < e ∧
    cached c = answer.

Section watch.
Context (key : string) (c : CachedResponse) (e : Z) (id : nat) (P : Prop).

Definition told (es : list occurrence) (o : option phase) : Prop :=
  match o with
  | None => ∀ s1 ok r s2, (s1, Resume id ok r, s2) ∉ es
  | Some (IConnect _ _) => True
  | Some (IRead rq _) => ¬ handled es id
  | Some (IRun rq _) => cache_key rq = Some key → redis_failed es id
  | Some (IDone rq r o) => cache_key rq = Some key → redis_failed es id ∨
      (o = Replayed ∧ ¬ handled es id ∧ read_answer es id key r ∧ (P → r = cached c))
  end.

Lemma redis_failed_mono es o : redis_failed es id → redis_failed (es ++ [o]) id.
Proof. intros (s1 & s2 & r & rq & k & Hin & H). exists s1, s2, r, rq, k. by rewrite elem_of_app; auto. Qed.
Lemma read_answer_mono es o r : read_answer es id key r → read_answer (es ++ [o]) id key r.
Proof. intros (s1 & s2 & r' & c' & e' & Hin & H). exists s1, s2, r', c', e'. by rewrite elem_of_app; auto. Qed.
Lemma not_handled_snoc es s a s' : ¬ handled es id →
  (∀ rq st, threads s !! id ≠ Some (IRun rq st)) ∨ (∀ ok r, a ≠ Resume id ok r) → ¬ handled (es ++ [(s, a, s')]) id.
Proof.
  intros Hn Ha (s1 & s2 & ok & r & rq & st & [Hin|[= <- <- <-]%list_elem_of_singleton]%elem_of_app & Ht).
  - apply Hn. by exists s1, s2, ok, r, rq, st.
  - destruct Ha as [Ha|Ha]; [by eapply Ha|by eapply Ha].
Qed.
(** Nothing is said of a request by what others do. *)
Lemma told_other es s a s' o : (∀ ok r, a ≠ Resume id ok r) → told es o → told (es ++ [(s, a, s')]) o.
Proof.
  intros Ha. destruct o as [[rq k|rq k|rq st|rq r o]|]; simpl; [done|..].
  - intros Hn. apply not_handled_snoc; [done|by right].
  - intros H Hk. by apply redis_failed_mono, H.
  - intros H Hk. destruct (H Hk) as [Hf|(-> & Hn & Hr & HP)]; [left; by apply redis_failed_mono|right].
    split_and!; [done|apply not_handled_snoc; [done|by right]|by apply read_answer_mono|done].
  - intros H s1 ok r s2 [Hin|[= <- <- <-]%list_elem_of_singleton]%elem_of_app; [by eapply H|by eapply Ha].
Qed.

Lemma step_told es s a s' : cache_ok s → clock (server s) < e → live key e s → (P → steady key c e s) → step s a s' →
  told es (threads s !! id) → told (es ++ [(s, a, s')]) (threads s' !! id).
Proof.
  intros Hok Hc Hlive Hsteady Hs Ht. destruct Hs as [id' rq p w' Hid Hm|id' p p' w' ok r Hp Hr|t Hle].
  - destruct (decide (id' = id)) as [<-|Hne]; simpl; [rewrite lookup_insert_eq|rewrite lookup_insert_ne by done; by apply told_other].
    destruct (live_request key e s rq p w' Hlive Hm) as [_ Hp]. rewrite Hid in Ht.
    destruct Hp as [[-> Hk]|[k ->]]; [simpl; by rewrite Hk|]. simpl. apply not_handled_snoc; [|by right].
    intros (s1 & s2 & ok & r & rq' & st & Hin & _). by eapply Ht.
  - destruct (decide (id' = id)) as [->|Hne]; simpl;
      [rewrite lookup_insert_eq|rewrite lookup_insert_ne by done; apply told_other; [congruence|done]].
    pose proof (co_threads _ Hok _ _ Hp) as Hph. rewrite Hp in Ht.
    set (o := (s, Resume id ok r, _)).
    assert (Hin : o ∈ es ++ [o]) by (apply elem_of_app; right; by apply list_elem_of_singleton).
    destruct p as [rq k|rq k|rq st|rq r' st]; simpl in Hr, Hph, Ht; [by destruct (lv_connected _ _ _ Hlive _ _ _ Hp)|..].
    + destruct ok.
      * destruct (redis_get k (server s)) as [c'|] eqn:Hg; simplify_eq; simpl; intros Hk; rewrite Hph in Hk; simplify_eq.
        -- right. apply idem_redis_get_Some in Hg as (e' & Hl & Hlt). split_and!; [done| | |].
           ++ apply not_handled_snoc; [done|left; congruence].
           ++ eexists _, _, _, c', e'. by split_and!.
           ++ intros HP. destruct (Hsteady HP) as [Hl' _]. congruence.
        -- by apply (live_hit _ _ _ Hlive Hc) in Hg.
      * simplify_eq. simpl. intros _. eexists _, _, _, rq, k. by split.
    + simplify_eq. simpl. intros Hk. left. by apply redis_failed_mono, Ht.
    + simplify_eq. simpl. intros Hk. destruct (Ht Hk) as [Hf|(-> & Hn & Hr & HP)]; [left; by apply redis_failed_mono|right].
      split_and!; [done|apply not_handled_snoc; [done|left; congruence]|by apply read_answer_mono|done].
  - by apply told_other.
Qed.

Lemma watch_history s es s' : history s es s' → ∀ pre, cache_ok s → e <= clock (server s) + TTL_MS →
  clock (server s') < e → live key e s → (P → steady key c e s) → told pre (threads s !! id) →
  live key e s' ∧ told (pre ++ es) (threads s' !! id).
Proof.
  induction 1 as [s|s a s1 es s' H1 Hrest IH]; intros pre Hok He Hc Hlive Hst Ht; [by rewrite app_nil_r|].
  pose proof (step_clock _ _ _ H1). pose proof (history_clock _ _ _ Hrest). rewrite cons_middle, (assoc_L (++)). apply IH.
  - by eapply idem_step_ok.
  - lia.
  - done.
  - eapply step_live; [..|exact Hlive|exact H1]; lia.
  - intros HP. eapply step_steady; [done| |exact Hlive|exact H1|by apply Hst]. lia.
  - eapply step_told; [done| |exact Hlive|done|done|done]. lia.
Qed.
End watch.

(** ** Properties *)

(** Replays are authentic: a replayed response is one that a handler gave to a
    request with the same idempotency key and caller, and never a server error. *)
Theorem replay_authentic s0 es s id rq r :
  idle s0 → history s0 es s → threads s !! id = Some (IDone rq r Replayed) →
  status r < 500 ∧ ∃ key id' rq' o, cache_key rq = Some key ∧ cache_key rq' = Some key ∧
    threads s !! id' = Some (IDone rq' r (Ran o)).
Proof.
  intros Hi Hs Ht. apply (idem_history_ok _ _ _ (idem_idle_ok _ Hi)) in Hs as [_ _ Hth].
  apply Hth in Ht as (key & Hk & Hst & id' & rq' & o & Hid & Hk'). split; [done|]. by exists key, id', rq', o.
Qed.

(** C39. A stored answer is final for its day.  Take a state in which Redis is in
    use (connected, and no request still connecting) and holds an answer for a
    key that expires at [e], and any history [es] from there that ends before [e], whatever else happens in it.  The handler
    of a request with the key that arrives in it is reached only if Redis
    failed to answer that request's read.  Otherwise the request is still
    waiting for Redis, or it was answered without a run of its handler, with
    what Redis held for the key when it was read; and that is the stored
    answer, unless a handler for the key was already running. *)
Theorem stored_answer_blocks_rerun s0 es0 s es s' key c e id p :
  idle s0 → history s0 es0 s → redis (server s) !! key = Some (c, e) →
  redisClient (server s) = true → redisUnavailable (server s) = false →
  (∀ id rq k, threads s !! id ≠ Some (IConnect rq k)) →
  threads s !! id = None → history s es s' → clock (server s') < e →
  threads s' !! id = Some p → cache_key (request_of p) = Some key →
  match p with
  | IConnect _ _ => False
  | IRead _ _ => ¬ handled es id
  | IRun _ _ => redis_failed es id
  | IDone _ r o => redis_failed es id ∨
      (o = Replayed ∧ ¬ handled es id ∧ read_answer es id key r ∧ (nobody_runs key s → r = cached c))
  end.
Proof.
  intros Hi Hs Hl Hcl Hav Hcon Hid Hs' He Hp Hkey.
  pose proof (idem_history_ok _ _ _ (idem_idle_ok _ Hi) Hs) as Hok. pose proof (history_clock _ _ _ Hs').
  destruct (watch_history key c e id (nobody_runs key s) s es s' Hs' []) as [[_ _ _ Hcon'] Ht]; try done.
  - by apply (co_redis _ Hok) in Hl as [_ ?].
  - split; try done. exists c, e. done.
  - rewrite Hid. intros s1 ok r s2. apply not_elem_of_nil.
  - rewrite Hp in Ht. destruct p as [| |rq st|rq r o]; simpl in *; [by destruct (Hcon' _ _ _ Hp)|done|by apply Ht|by apply Ht].
Qed.

(** ** Witnesses *)

Definition demo_rq : request := Request "POST" (Some "k1") "10.0.0.1".
Definition demo_key : string := buildCacheKey "k1" "10.0.0.1".
Definition created : response := Response 201 "made".
Definition demo_idle : system := System (World 0 false false ∅ ∅) ∅.
Definition demo_stored : system :=
  System (World 0 true false {[demo_key := (Cached created TTL_MS, TTL_MS)]} ∅)
    {[0%nat := IDone demo_rq created (Ran (Some InRedis))]}.
Definition demo_replayed : system :=
  System (World 5 true false {[demo_key := (Cached created TTL_MS, TTL_MS)]} ∅)
    {[0%nat := IDone demo_rq created (Ran (Some InRedis)); 1%nat := IDone demo_rq created Replayed]}.

Definition demo_step (s : system) (a : action) : system :=
  match a with
  | Arrive id rq => let '(p, w) := idempotencyMiddleware rq (server s) in System w (<[id := p]> (threads s))
  | Resume id ok r =>
      match threads s !! id with
      | Some p => let '(p', w) := resume ok r p (server s) in System w (<[id := p']> (threads s))
      | None => s
      end
  | Pass t => System (set_clock t (server s)) (threads s)
  end.
Fixpoint demo_history (s : system) (acts : list action) : list occurrence :=
  match acts with [] => [] | a :: acts => (s, a, demo_step s a) :: demo_history (demo_step s a) acts end.
(** The actions of a list can happen one after the other. *)
Fixpoint demo_possible (s : system) (acts : list action) : bool :=
  match acts with
  | [] => true
  | a :: acts =>
      match a with
      | Arrive id _ => bool_decide (threads s !! id = None)
      | Resume id _ _ => bool_decide (is_Some (threads s !! id))
      | Pass t => clock (server s) <=? t
      end && demo_possible (demo_step s a) acts
  end.
Lemma demo_plays acts : ∀ s, demo_possible s acts = true → history s (demo_history s acts) (foldl demo_step s acts).
Proof.
  induction acts as [|a acts IH]; intros s; [constructor|]. cbn [demo_possible demo_history foldl].
  intros [Ha Hr]%andb_true_iff. econstructor; [|by apply IH]. clear IH Hr. destruct a as [id rq|id ok r|t]; cbn [demo_step].
  - apply bool_decide_eq_true in Ha. destruct (idempotencyMiddleware rq (server s)) eqn:Hm. by constructor.
  - apply bool_decide_eq_true in Ha as [p Hp]. rewrite Hp. destruct (resume ok r p (server s)) eqn:Hm. by econstructor.
  - constructor. by apply Z.leb_le.
Qed.

Definition demo_first : list action :=
  [Arrive 0 demo_rq; Resume 0 true created; Resume 0 true created; Resume 0 true created].
Definition demo_second : list action := [Pass 5; Arrive 1 demo_rq; Resume 1 true created].
Lemma demo_stored_reachable : history demo_idle (demo_history demo_idle demo_first) demo_stored.
Proof.
  replace demo_stored with (foldl demo_step demo_idle demo_first) by (vm_compute; reflexivity).
  apply demo_plays. vm_compute. reflexivity.
Qed.
Lemma demo_replayed_reachable : history demo_stored (demo_history demo_stored demo_second) demo_replayed.
Proof.
  replace demo_replayed with (foldl demo_step demo_stored demo_second) by (vm_compute; reflexivity).
  apply demo_plays. vm_compute. reflexivity.
Qed.

(** Two requests with the same key that overlap both reach their handlers. *)
Definition demo_overlap : list action :=
  [Arrive 0 demo_rq; Arrive 1 demo_rq; Resume 0 true created; Resume 0 true created; Resume 1 true created;
   Resume 1 true created; Resume 0 true created; Resume 1 true (Response 409 "exists")].
Example overlapping_requests_both_run : ∃ s es r1 r2, history demo_idle es s ∧
  threads s !! 0%nat = Some (IDone demo_rq r1 (Ran (Some InRedis))) ∧
  threads s !! 1%nat = Some (IDone demo_rq r2 (Ran (Some InRedis))) ∧ r1 ≠ r2.
Proof.
  eexists (foldl demo_step demo_idle demo_overlap), _, created, (Response 409 "exists"). split_and!.
  - apply demo_plays. vm_compute. reflexivity.
  - vm_compute. reflexivity.
  - vm_compute. reflexivity.
  - discriminate.
Qed.

Lemma replay_authentic_witness : ∃ key id' rq' o, cache_key demo_rq = Some key ∧ cache_key rq' = Some key ∧
  threads demo_replayed !! id' = Some (IDone rq' created (Ran o)).
Proof.
  destruct (replay_authentic demo_idle (demo_history demo_idle (demo_first ++ demo_second)) demo_replayed 1%nat demo_rq created)
    as (_ & key & id' & rq' & o & H).
  - repeat split.
  - replace demo_replayed with (foldl demo_step demo_idle (demo_first ++ demo_second)) by (vm_compute; reflexivity).
    apply demo_plays. vm_compute. reflexivity.
  - vm_compute. reflexivity.
  - exists key, id', rq', o. exact H.
Defined.

Lemma stored_answer_blocks_rerun_witness :
  threads demo_replayed !! 1%nat = Some (IDone demo_rq created Replayed) ∧
  (redis_failed (demo_history demo_stored demo_second) 1 ∨
   (Replayed = Replayed ∧ ¬ handled (demo_history demo_stored demo_second) 1 ∧
    read_answer (demo_history demo_stored demo_second) 1 demo_key created ∧ (nobody_runs demo_key demo_stored → created = created))).
Proof.
  split; [vm_compute; reflexivity|].
  apply (stored_answer_blocks_rerun demo_idle (demo_history demo_idle demo_first) demo_stored (demo_history demo_stored demo_second)
    demo_replayed demo_key (Cached created TTL_MS) TTL_MS 1%nat (IDone demo_rq created Replayed)).
  - repeat split.
  - exact demo_stored_reachable.
  - vm_compute. reflexivity.
  - reflexivity.
  - reflexivity.
  - intros id rq k. unfold demo_stored. simpl. intros Hl. apply lookup_singleton_Some in Hl as [_ Hl]. discriminate Hl.
  - vm_compute. reflexivity.
  - exact demo_replayed_reachable.
  - vm_compute. reflexivity.
  - vm_compute. reflexivity.
  - vm_compute. reflexivity.
Defined.
