(* ===== verification/Reconciliation.v ===== *)
(** * The on-chain reconciliation job

    [backend/src/jobs/reconciliationJob.ts] with migration
    [008_create_reconciliation_tables.ts]: batching, the comparison of a stream
    with its claimable amount, recording, and the outcome of a run.  The rows
    of [vesting_streams] and the answer of the Slack webhook are arguments; the
    contract call is a stub in the code and an argument of the job here.
    Scheduling and the text of the alert are left out. *)
From S2P Require Import Prelude Db.

(** ** Types *)

Record StreamRecord := Stream {
  recipient_address : string;
  stream_status : string;
  claimed_total : string }.

Inductive failure_type := balance_mismatch | status_mismatch | missing_on_chain | missing_in_db.

Record ReconciliationMismatch := Mismatch {
  mm_recipient : string;
  mm_type : failure_type;
  db_value : option string;
  chain_value : option string;
  mm_error : option string }.

Inductive run_status := rec_running | rec_completed | rec_failed.

Record ReconciliationResult := Result {
  res_jobId : string;
  startedAt : Z;
  completedAt : option Z;
  streamsChecked : Z;
  failuresDetected : Z;
  errorsEncountered : Z;
  res_status : run_status;
  res_error : option string;
  dryRun : bool;
  slackAlertSent : bool }.

(** The tables: failures carry the id of their job. *)
Record rec_tables := RecTables {
  reconciliation_failures : list (string * ReconciliationMismatch);
  reconciliation_runs : list ReconciliationResult }.

(** [batchSize]: between 1 and 20, or [NaN] when the variable is not a number. *)
Definition batch_size (env : option string) : number :=
  (λ n, Z.min 20 (Z.max 1 n)) <$> parse_int (default "20" env).

(** ** Batches *)

Fixpoint chunks {A} (fuel : nat) (b : nat) (l : list A) : list (list A) :=
  match fuel, l with
  | S fuel, _ :: _ => take b l :: chunks fuel b (drop b l)
  | _, _ => []
  end.
(** [for (let i = 0; i < n; i += batchSize)] with [slice(i, i + batchSize)]: with
    [NaN] the slice is empty and the loop ends after it. *)
Definition batches {A} (batchSize : number) (l : list A) : list (list A) :=
  match batchSize with
  | Some b => chunks (length l) (Z.to_nat b) l
  | None => match l with [] => [] | _ => [[]] end
  end.

(** ** Comparison *)

(** The contract call as it is written: an empty answer. *)
Definition getClaimableBatch (recipients : list string) : result exn (gmap string string) := Ok ∅.

(** [stream.claimed_total || 0], as text. *)
Definition db_claimable (s : StreamRecord) : string :=
  if truthy (claimed_total s) then claimed_total s else "0".

(** The comparison of one stream, in the order the mismatches are recorded. *)
Definition compare_stream (claimable : option string) (s : StreamRecord) : list ReconciliationMismatch :=
  (if bool_decide (stream_status s = "active") && bool_decide (claimable = None)
   then [Mismatch (recipient_address s) status_mismatch (Some "active") (Some "missing") None] else [])
  ++ match claimable with
     | Some c =>
         if decide (db_claimable s = c) then []
         else [Mismatch (recipient_address s) balance_mismatch (Some (db_claimable s)) (Some c) None]
     | None => []
     end.

Section run.
Context (message : exn → string).
Context (claimables : list string → result exn (gmap string string)).
Context (jobId : string) (dry : bool).

(** [recordMismatch]: nothing in a dry run. *)
Definition recordMismatch (m : ReconciliationMismatch) : M rec_tables exn unit :=
  if dry then ret tt
  else modify (λ t, RecTables (reconciliation_failures t ++ [(jobId, m)]) (reconciliation_runs t)).

(** The counters of [result] and the list of mismatches. *)
Record tally := Tally {
  t_checked : Z;
  t_errors : Z;
  t_mismatches : list ReconciliationMismatch }.

Definition note (acc : tally) (m : ReconciliationMismatch) : M rec_tables exn tally :=
  recordMismatch m ;;;
  ret (Tally (t_checked acc) (t_errors acc) (t_mismatches acc ++ [m])).

Definition check_stream (answer : gmap string string) (acc : tally) (s : StreamRecord)
    : M rec_tables exn tally :=
  fold_each (compare_stream (answer !! recipient_address s) s)
    (Tally (t_checked acc + 1) (t_errors acc) (t_mismatches acc)) note.

(** One batch; when the call throws, every stream of the batch is recorded. *)
Definition check_batch (acc : tally) (batch : list StreamRecord) : M rec_tables exn tally :=
  match claimables (recipient_address <$> batch) with
  | Ok answer => fold_each batch acc (check_stream answer)
  | Err e =>
      fold_each ((λ s, Mismatch (recipient_address s) status_mismatch None None
                         (Some ("RPC error: " +:+ message e))) <$> batch)
        (Tally (t_checked acc) (t_errors acc + 1) (t_mismatches acc)) note
  end.

(** [saveReconciliationRun], on a connection of its own. *)
Definition saveReconciliationRun (r : ReconciliationResult) : M rec_tables exn unit :=
  if dry then ret tt
  else modify (λ t, RecTables (reconciliation_failures t) (reconciliation_runs t ++ [r])).

(** [rows]: what [fetchAllStreams] gives; [slack]: whether the alert goes out
    when there is something to report. *)
Definition runReconciliation (started now : Z) (batchSize : number) (slack : bool)
    (rows : result exn (list StreamRecord)) : M rec_tables exn ReconciliationResult :=
  match rows with
  | Ok streams =>
      let! t := fold_each (batches batchSize streams) (Tally 0 0 []) check_batch in
      let r := Result jobId started (Some now) (t_checked t) (Z.of_nat (length (t_mismatches t)))
                 (t_errors t) rec_completed None dry (bool_decide (t_mismatches t ≠ []) && slack) in
      saveReconciliationRun r ;;; ret r
  | Err e =>
      let r := Result jobId started (Some now) 0 0 0 rec_failed (Some (message e)) dry false in
      saveReconciliationRun r ;;; ret r
  end.
End run.

(** ** Lemmas *)

Lemma concat_chunks {A} fuel b (l : list A) :
  (0 < b)%nat → (length l ≤ fuel)%nat → concat (chunks fuel b l) = l.
Proof.
  intros Hb. revert l. induction fuel as [|fuel IH]; intros l Hl; [by destruct l; simpl in *; [|lia]|].
  destruct l as [|x l]; [done|]. cbn [chunks concat]. rewrite IH; [apply take_drop|].
  rewrite length_drop. simpl in *. lia.
Qed.
Lemma concat_batches {A} b (l : list A) : 0 < b → concat (batches (Some b) l) = l.
Proof. intros. apply concat_chunks; lia. Qed.

Section run_lemmas.
Context (message : exn → string).
Context (claimables : list string → result exn (gmap string string)).
Context (jobId : string) (dry : bool).

(** What recording the mismatches [ms] makes of the tables. *)
Definition recorded (ms : list ReconciliationMismatch) (t : rec_tables) : rec_tables :=
  if dry then t
  else RecTables (reconciliation_failures t ++ ((λ m, (jobId, m)) <$> ms)) (reconciliation_runs t).

Lemma recorded_nil t : recorded [] t = t.
Proof. unfold recorded. destruct dry, t; simpl; by rewrite ?(right_id_L [] (++)). Qed.
Lemma recorded_app ms1 ms2 t : recorded ms2 (recorded ms1 t) = recorded (ms1 ++ ms2) t.
Proof. unfold recorded. destruct dry; [done|]. simpl. by rewrite fmap_app, (assoc_L (++)). Qed.

Lemma note_all ms c e mm t :
  fold_each ms (Tally c e mm) (note jobId dry) t = (Ok (Tally c e (mm ++ ms)), recorded ms t).
Proof.
  revert mm t. induction ms as [|m ms IH]; intros mm t; cbn [fold_each].
  - by rewrite recorded_nil, (right_id_L [] (++)).
  - assert (note jobId dry (Tally c e mm) m t = (Ok (Tally c e (mm ++ [m])), recorded [m] t)) as Hn.
    { unfold note, recordMismatch, recorded. by destruct dry. }
    rewrite (bind_ok _ _ _ _ _ Hn), IH, recorded_app. by rewrite <-(assoc_L (++)).
Qed.

Definition report (answer : gmap string string) (l : list StreamRecord) : list ReconciliationMismatch :=
  l ≫= λ s, compare_stream (answer !! recipient_address s) s.

Lemma check_streams answer l c e mm t :
  fold_each l (Tally c e mm) (check_stream jobId dry answer) t
  = (Ok (Tally (c + Z.of_nat (length l)) e (mm ++ report answer l)), recorded (report answer l) t).
Proof.
  revert c mm t. induction l as [|s l IH]; intros c mm t; cbn [fold_each].
  - unfold report. simpl. rewrite recorded_nil, (right_id_L [] (++)). unfold ret. do 3 f_equal. lia.
  - assert (check_stream jobId dry answer (Tally c e mm) s t
      = (Ok (Tally (c + 1) e (mm ++ report answer [s])), recorded (report answer [s]) t)) as Hs.
    { unfold check_stream, report. cbn [mbind list_bind t_checked t_errors t_mismatches].
      rewrite (right_id_L [] (++)). apply note_all. }
    rewrite (bind_ok _ _ _ _ _ Hs), IH, recorded_app.
    change (report answer (s :: l)) with (report answer ([s] ++ l)).
    unfold report at 5 6. rewrite !bind_app. fold (report answer l) (report answer [s]).
    rewrite <-(assoc_L (++)). do 3 f_equal. cbn [length]. lia.
Qed.

(** When the contract answers [chain] for every batch, the batches do not
    matter. *)
Lemma check_batches (chain : string → option string) bs c mm t :
  (∀ recipients, ∃ m, claimables recipients = Ok m ∧ ∀ a, a ∈ recipients → m !! a = chain a) →
  let found := concat bs ≫= λ s, compare_stream (chain (recipient_address s)) s in
  fold_each bs (Tally c 0 mm) (check_batch message claimables jobId dry) t
  = (Ok (Tally (c + Z.of_nat (length (concat bs))) 0 (mm ++ found)), recorded found t).
Proof.
  intros Hchain. revert c mm t. induction bs as [|b bs IH]; intros c mm t; cbn [fold_each concat].
  - simpl. rewrite recorded_nil, (right_id_L [] (++)). unfold ret. do 3 f_equal. lia.
  - destruct (Hchain (recipient_address <$> b)) as (m & Hm & Hin).
    assert (report m b = b ≫= λ s, compare_stream (chain (recipient_address s)) s) as Hrep.
    { apply Forall_bind_ext, Forall_forall. intros s Hs. f_equal. apply Hin. by apply list_elem_of_fmap_2. }
    assert (check_batch message claimables jobId dry (Tally c 0 mm) b t
      = (Ok (Tally (c + Z.of_nat (length b)) 0 (mm ++ report m b)), recorded (report m b) t)) as Hb.
    { unfold check_batch. rewrite Hm. apply check_streams. }
    rewrite (bind_ok _ _ _ _ _ Hb), IH, recorded_app, Hrep, bind_app, length_app, <-(assoc_L (++)).
    do 3 f_equal. lia.
Qed.
End run_lemmas.

(** ** Properties *)

(** The report is exactly the list of differences: when the contract answers
    every call with its claimable amounts, a run over any batch size completes,
    has checked every stream once, has found the mismatches a comparison stream
    by stream finds, in the same order, and has recorded them and itself; a dry
    run finds the same and records nothing. *)
Theorem runReconciliation_report message claimables chain jobId dry started now b slack streams t :
  0 < b → (∀ recipients, ∃ m, claimables recipients = Ok m ∧ ∀ a, a ∈ recipients → m !! a = chain a) →
  let found := streams ≫= λ s, compare_stream (chain (recipient_address s)) s in
  let r := Result jobId started (Some now) (Z.of_nat (length streams)) (Z.of_nat (length found)) 0
             rec_completed None dry (bool_decide (found ≠ []) && slack) in
  runReconciliation message claimables jobId dry started now (Some b) slack (Ok streams) t
  = (Ok r, if dry then t
           else RecTables (reconciliation_failures t ++ ((λ m, (jobId, m)) <$> found)) (reconciliation_runs t ++ [r])).
Proof.
  intros Hb Hchain found r. unfold runReconciliation.
  pose proof (check_batches message claimables jobId dry chain (batches (Some b) streams) 0 [] t Hchain) as Hc.
  rewrite concat_batches in Hc by done. rewrite (bind_ok _ _ _ _ _ Hc). cbn [app t_checked t_mismatches t_errors].
  unfold recorded, saveReconciliationRun. by destruct dry.
Qed.

(** With the contract call as it is written, the report says nothing about the
    chain: every active stream is reported as missing on chain and no other
    stream is reported, whatever the chain holds. *)
Theorem stub_reports_every_active_stream message jobId started now b slack streams t :
  0 < b →
  ∃ r, runReconciliation message getClaimableBatch jobId false started now (Some b) slack (Ok streams) t
    = (Ok r, RecTables (reconciliation_failures t ++ ((λ s, (jobId, Mismatch (recipient_address s) status_mismatch
        (Some "active") (Some "missing") None)) <$> filter (λ s, stream_status s = "active") streams))
        (reconciliation_runs t ++ [r])) ∧
  res_status r = rec_completed ∧
  failuresDetected r = Z.of_nat (length (filter (λ s, stream_status s = "active") streams)).
Proof.
  intros Hb.
  assert (Hfound : streams ≫= (λ s, compare_stream None s)
    = (λ s, Mismatch (recipient_address s) status_mismatch (Some "active") (Some "missing") None)
        <$> filter (λ s, stream_status s = "active") streams).
  { induction streams as [|s l IH]; [done|]. rewrite bind_cons, IH, filter_cons.
    unfold compare_stream. rewrite (right_id_L [] (++)). destruct (decide (stream_status s = "active")) as [He|He].
    - rewrite He. done.
    - by rewrite (bool_decide_eq_false_2 _ He). }
  eexists. rewrite (runReconciliation_report message getClaimableBatch (λ _, None) jobId false started now b slack
    streams t Hb) by (intros; exists ∅; done).
  rewrite Hfound. split; [by rewrite <-list_fmap_compose|]. by rewrite length_fmap.
Qed.

(** A batch size that is not a number checks nothing and reports success. *)
Example nan_batch_checks_nothing : let s := Stream "GA" "active" "5" in
  fst (runReconciliation (λ _, "") getClaimableBatch "J" false 1 2 (batch_size (Some "many")) true (Ok [s; s])
    (RecTables [] []))
  = Ok (Result "J" 1 (Some 2) 0 0 0 rec_completed None false false).
Proof. reflexivity. Qed.

(** ** Witnesses *)

Definition demo_streams : list StreamRecord :=
  [Stream "GA" "active" "5"; Stream "GB" "active" ""; Stream "GC" "expired" "7"].
Definition demo_chain (a : string) : option string :=
  if decide (a = "GA") then Some "5" else if decide (a = "GB") then None else Some "8".
Definition demo_call (l : list string) : result exn (gmap string string) :=
  Ok (list_to_map (omap (λ a, (a,.) <$> demo_chain a) l)).
Lemma demo_call_ok recipients : ∃ m, demo_call recipients = Ok m ∧ ∀ a, a ∈ recipients → m !! a = demo_chain a.
Proof.
  eexists. split; [done|]. induction recipients as [|x l IH]; intros a; [by intros ?%not_elem_of_nil|].
  intros Ha. simpl. destruct (decide (x = a)) as [->|Hne].
  - destruct (demo_chain a) eqn:Hc; simpl; [by rewrite lookup_insert_eq|].
    apply not_elem_of_list_to_map. intros (p & -> & Hp)%list_elem_of_fmap.
    apply list_elem_of_omap in Hp as (y & _ & Hy). destruct (demo_chain y) eqn:Hcy; by simplify_eq/=.
  - apply elem_of_cons in Ha as [->|Ha]; [done|].
    destruct (demo_chain x); simpl; [rewrite lookup_insert_ne by done|]; by apply IH.
Qed.
Lemma runReconciliation_report_witness :
  fst (runReconciliation (λ _, "") demo_call "J" false 1 2 (Some 2) true (Ok demo_streams) (RecTables [] []))
  = Ok (Result "J" 1 (Some 2) 3 2 0 rec_completed None false true).
Proof.
  rewrite (runReconciliation_report (λ _, "") demo_call demo_chain "J" false 1 2 2 true demo_streams (RecTables [] [])).
  - vm_compute. reflexivity.
  - lia.
  - exact demo_call_ok.
Defined.
Lemma stub_reports_every_active_stream_witness :
  ∃ r, fst (runReconciliation (λ _, "") getClaimableBatch "J" false 1 2 (Some 2) true (Ok demo_streams) (RecTables [] []))
    = Ok r ∧ failuresDetected r = 2.
Proof.
  destruct (stub_reports_every_active_stream (λ _, "") "J" 1 2 2 true demo_streams (RecTables [] [])) as (r & Hr & _ & Hf).
  - lia.
  - exists r. rewrite Hr. split; [reflexivity|]. rewrite Hf. vm_compute. reflexivity.
Defined.
