(* ===== verification/LedgerTime.v ===== *)
(** * Ledgers and wall-clock time

    [frontend/src/utils/ledgerTime.ts]: ledgers to dates and back, durations in
    words, and durations from the form.  A date is its number of milliseconds;
    the quotients that [Math.round] and [Math.floor] see are far below the
    precision limit of doubles, so they are computed exactly here.
    [formatLedgerWithTime] only adds localised text and is left out. *)
From S2P Require Import Prelude.

Definition SECONDS_PER_LEDGER : Z := 5.

Definition ledgerToDate (targetLedger currentLedger currentTimestamp : Z) : Z :=
  let deltaLedgers := targetLedger - currentLedger in
  let deltaMs := deltaLedgers * SECONDS_PER_LEDGER * 1000 in
  currentTimestamp + deltaMs.

(** [Math.round(n / d)]: halves go up. *)
Definition round_div (n d : Z) : Z := (2 * n + d) / (2 * d).

(** [Math.round(currentLedger + deltaMs / 5000)] *)
Definition dateToLedger (targetDate currentLedger currentTimestamp : Z) : Z :=
  let deltaMs := targetDate - currentTimestamp in
  let ms := SECONDS_PER_LEDGER * 1000 in
  round_div (currentLedger * ms + deltaMs) ms.

(** ** Durations in words *)

Record DurationPart := Part { singular : string; plural : string; seconds : Z }.

(** [plural] holds the text after the number. *)
Definition DURATION_PARTS : list DurationPart :=
  [Part "1 year" " years" (365 * 24 * 3600); Part "1 month" " months" (30 * 24 * 3600);
   Part "1 week" " weeks" (7 * 24 * 3600); Part "1 day" " days" (24 * 3600);
   Part "1 hour" " hours" 3600; Part "1 minute" " minutes" 60; Part "1 second" " seconds" 1].

Definition formatPart (part : DurationPart) (count : Z) : string :=
  if count =? 1 then singular part else Z_to_string count +:+ plural part.

(** The loop over [DURATION_PARTS]: the parts with their counts; [taken] is
    [parts.length]. *)
Fixpoint duration_parts (dps : list DurationPart) (remaining : Z) (taken : nat) : list (DurationPart * Z) :=
  match dps with
  | [] => []
  | dp :: dps' =>
      if remaining <? seconds dp then duration_parts dps' remaining taken
      else
        let count := remaining / seconds dp in
        (dp, count) ::
        if bool_decide (S taken = 2%nat) then [] else duration_parts dps' (remaining - count * seconds dp) (S taken)
  end.

(** [parts.join(" ")] *)
Fixpoint join_words (ws : list string) : string :=
  match ws with
  | [] => ""
  | [w] => w
  | w :: ws' => w +:+ " " +:+ join_words ws'
  end.

Definition ledgerDuration (ledgers : Z) : string :=
  let totalSeconds := Z.abs ledgers * SECONDS_PER_LEDGER in
  if totalSeconds =? 0 then "0 seconds"
  else join_words ((λ p, formatPart p.1 p.2) <$> duration_parts DURATION_PARTS totalSeconds 0).

(** ** Input conversion *)

(** A missing field counts as zero. *)
Record HumanDurationInput := HumanDuration {
  in_days : option Z; in_hours : option Z; in_minutes : option Z; in_seconds : option Z }.

Definition total_seconds (i : HumanDurationInput) : Z :=
  default 0 (in_days i) * 24 * 3600 + default 0 (in_hours i) * 3600 + default 0 (in_minutes i) * 60
  + default 0 (in_seconds i).
Definition humanInputToLedgers (i : HumanDurationInput) : Z :=
  Z.max 0 (round_div (total_seconds i) SECONDS_PER_LEDGER).

Example duration_1 : ledgerDuration 105840 = "6 days 3 hours". Proof. reflexivity. Qed.
Example duration_2 : ledgerDuration 13 = "1 minute 5 seconds". Proof. reflexivity. Qed.
(** The example of the comment, which says six days and three hours. *)
Example duration_comment : ledgerDuration 102240 = "5 days 22 hours". Proof. reflexivity. Qed.

(** ** Lemmas *)

Lemma round_div_nearest n d : 0 < d → 2 * Z.abs (round_div n d * d - n) <= d.
Proof. intros. unfold round_div. pose proof (Z.div_mod (2 * n + d) (2 * d)). pose proof (Z.mod_pos_bound (2 * n + d) (2 * d)). nia. Qed.
Lemma round_div_exact n d : 0 < d → round_div (n * d) d = n.
Proof. intros. unfold round_div. symmetry. apply (Z.div_unique _ _ _ d); lia. Qed.

(** The seconds a list of parts stands for. *)
Definition shown (ps : list (DurationPart * Z)) : Z := foldr (λ p acc, p.2 * seconds p.1 + acc) 0 ps.

(** Units from large to small, below [bound], the last one a second. *)
Fixpoint falling (bound : Z) (dps : list DurationPart) : Prop :=
  match dps with
  | [] => bound <= 1
  | dp :: dps' => 0 < seconds dp < bound ∧ falling (seconds dp) dps'
  end.

(** What the loop gives from a remainder below [bound]: at most two units, all
    counts positive, and nothing is lost but what the second unit cannot say. *)
Lemma duration_parts_spec dps remaining taken bound :
  falling bound dps → 0 <= remaining < bound → (taken < 2)%nat →
  let ps := duration_parts dps remaining taken in
  (length ps + taken ≤ 2)%nat ∧
  Forall (λ p, 0 < p.2 ∧ p.1 ∈ dps) ps ∧
  shown ps <= remaining ∧
  ((length ps + taken < 2)%nat → shown ps = remaining) ∧
  ((length ps + taken = 2)%nat → ∃ p, last ps = Some p ∧ remaining < shown ps + seconds p.1).
Proof.
  revert remaining taken bound. induction dps as [|dp dps IH]; intros remaining taken bound Hf Hr Ht.
  - simpl in *. split_and!; try done; lia.
  - destruct Hf as [Hs Hf]. cbn [duration_parts].
    destruct (Z.ltb_spec remaining (seconds dp)) as [Hlt|Hge].
    + destruct (IH remaining taken (seconds dp) Hf) as (L & F & S & E & T); [lia..|].
      split_and!; try done. eapply Forall_impl; [exact F|]. intros p [? ?]. split; [done|by right].
    + pose proof (Z.div_mod remaining (seconds dp)) as Hdm. pose proof (Z.mod_pos_bound remaining (seconds dp)) as Hm.
      set (count := remaining / seconds dp) in *.
      assert (0 < count) by (apply Z.div_str_pos; lia).
      case_bool_decide as H2.
      * simpl. split_and!; [lia| |nia|lia|].
        -- apply Forall_singleton. split; [done|left].
        -- intros _. eexists. split; [done|]. simpl. nia.
      * destruct (IH (remaining - count * seconds dp) (S taken) (seconds dp) Hf) as (L & F & Sh & E & T); [nia|lia|].
        cbn [shown foldr fst snd length]. fold (shown (duration_parts dps (remaining - count * seconds dp) (S taken))).
        split_and!; [lia| |lia| |].
        -- constructor; [split; [done|by left]|]. eapply Forall_impl; [exact F|]. intros p [? ?]. split; [done|by right].
        -- intros Hl. rewrite E; lia.
        -- intros Hl. destruct T as (p & Hp & Hlt); [lia|]. exists p. split; [|lia].
           destruct (duration_parts _ _ _); [done|exact Hp].
Qed.

(** ** Properties *)

(** Dates and ledgers convert back and forth: a ledger's date gives the ledger
    back, and a date gives the ledger whose date is nearest, never more than
    half a ledger away. *)
Theorem ledger_date_roundtrip target date current timestamp :
  dateToLedger (ledgerToDate target current timestamp) current timestamp = target ∧
  2 * Z.abs (ledgerToDate (dateToLedger date current timestamp) current timestamp - date) <= 5000.
Proof.
  unfold dateToLedger, ledgerToDate, SECONDS_PER_LEDGER. change (5 * 1000) with 5000. split.
  - replace (_ + _) with (target * 5000) by lia. by apply round_div_exact.
  - pose proof (round_div_nearest (current * 5000 + (date - timestamp)) 5000). lia.
Qed.

(** A duration in words is faithful: one or two units with positive counts are
    shown, largest first, they never exceed the duration, with one unit they
    are the duration, and with two the rest is less than the second unit. *)
Theorem ledgerDuration_faithful ledgers :
  let total := Z.abs ledgers * SECONDS_PER_LEDGER in
  let ps := duration_parts DURATION_PARTS total 0 in
  ledgerDuration ledgers
  = (if total =? 0 then "0 seconds" else join_words ((λ p, formatPart p.1 p.2) <$> ps)) ∧
  (total ≠ 0 → 1 <= Z.of_nat (length ps) <= 2) ∧
  Forall (λ p, 0 < p.2 ∧ p.1 ∈ DURATION_PARTS) ps ∧
  shown ps <= total ∧
  ((length ps < 2)%nat → shown ps = total) ∧
  ((length ps = 2)%nat → ∃ p, last ps = Some p ∧ total < shown ps + seconds p.1).
Proof.
  intros total ps. split; [done|].
  destruct (duration_parts_spec DURATION_PARTS total 0 (Z.max (total + 1) (365 * 24 * 3600 + 1))) as (L & F & S & E & T).
  - simpl. lia.
  - unfold total, SECONDS_PER_LEDGER. lia.
  - lia.
  - fold ps in L, F, S, E, T. rewrite Nat.add_0_r in L, E, T. split_and!; try done.
    intros Hne. destruct ps as [|p ps']; [|simpl in *; lia]. simpl in E. destruct Hne. symmetry. apply E. lia.
Qed.

(** Durations from the form: whole ledgers are exact, and any other duration is
    rounded to the nearest number of ledgers, never a negative one. *)
Theorem humanInputToLedgers_nearest i :
  let n := humanInputToLedgers i in
  0 <= n ∧
  (0 <= total_seconds i → 2 * Z.abs (n * SECONDS_PER_LEDGER - total_seconds i) <= SECONDS_PER_LEDGER) ∧
  (∀ k, 0 <= k → total_seconds i = k * SECONDS_PER_LEDGER → n = k).
Proof.
  unfold humanInputToLedgers, SECONDS_PER_LEDGER. simpl. split_and!; [lia| |].
  - intros H. pose proof (round_div_nearest (total_seconds i) 5). lia.
  - intros k Hk ->. rewrite round_div_exact by done. lia.
Qed.
