(* ===== verification/Migrate.v ===== *)
(** * The startup migration runner

    [backend/src/migrate.ts]: the files on disk, the pending list, one run with
    its cached result, and the gate of the bootstrap.  The runner itself is
    [node-pg-migrate], a parameter; [runner_applies] and [runner_keeps] state
    what its documentation says of a run that succeeds and of any run. *)
From S2P Require Import Prelude.
From stdpp Require Import sorting.
#[local] Open Scope Z_scope.

Inductive MigrationStatus := current | pending | failed.
#[global] Instance MigrationStatus_eq_dec : EqDecision MigrationStatus.
Proof. solve_decision. Defined.

(** A JavaScript [Error], with the [code] PostgreSQL's driver adds. *)
Record Error := mkError { message : string; pg_code : option string }.

Record MigrationResult := Result {
  r_status : MigrationStatus;
  r_applied : list string;
  r_pending : list string;
  r_unmanaged : list string;
  r_dryRun : bool;
  r_error : option Error }.

Record Options := mkOptions {
  o_client : bool;                    (* whether the caller passes a client *)
  o_dryRun : option bool;
  o_migrationsTable : option string }.

(** The tables that record migrations, by name, and whether this session holds
    the advisory lock. *)
Record database := Database {
  tables : gmap string (list string);
  advisory : bool }.

(** The database, the two module variables, and the resources of the process. *)
Record world := World {
  db : database;
  _status : MigrationStatus;
  _lastResult : option MigrationResult;
  connections : Z;
  pools : Z }.

Definition with_db (d : database) (w : world) : world := World d (_status w) (_lastResult w) (connections w) (pools w).
Definition with_pools (n : Z) (w : world) : world := World (db w) (_status w) (_lastResult w) (connections w) n.
Definition with_connections (n : Z) (w : world) : world := World (db w) (_status w) (_lastResult w) n (pools w).
Definition keep_result (r : MigrationResult) (w : world) : world :=
  World (db w) (r_status r) (Some r) (connections w) (pools w).

Definition getMigrationStatus (w : world) : MigrationStatus := _status w.
Definition getLastMigrationResult (w : world) : option MigrationResult := _lastResult w.
Definition setMigrationStatus (s : MigrationStatus) (w : world) : world :=
  World (db w) s (_lastResult w) (connections w) (pools w).

Definition isDryRun (env : string → option string) : bool :=
  bool_decide (env "MIGRATE_DRY_RUN" = Some "true") || bool_decide (env "DB_MIGRATE_DRY_RUN" = Some "true").

(** [name.endsWith(".ts")], and [name.slice(0, -3)] for such a name. *)
Definition ends_with_ts (name : string) : bool :=
  bool_decide (drop (length (chars name) - 3)%nat (chars name) = chars ".ts").
Definition slice_ts (name : string) : string :=
  of_chars (take (length (chars name) - 3)%nat (chars name)).

(** [xs.sort()]: UTF-8 keeps the order of the code units for every name on disk. *)
Definition sort (l : list string) : list string := merge_sort String.le l.

Definition listManagedMigrations (dir : list string) : list string :=
  sort (slice_ts <$> filter (λ name, ends_with_ts name = true) dir).
Definition listUnmanagedMigrations (dir : list string) : list string :=
  sort (filter (λ name, ends_with_ts name = false) dir).

Definition computePending (managed : list string) (applied : gset string) : list string :=
  filter (λ name, name ∉ applied) managed.

(** The [log] callback: [/^### MIGRATION (\S+) \(UP\)/.exec(msg.trim())].  The
    name is the longest run of non-spaces for which the rest matches, which the
    space after it makes the run up to the first space. *)
Definition migration_prefix : list ascii := chars "### MIGRATION ".
Definition logged_migration (msg : string) : option string :=
  let t := chars (trim msg) in
  if decide (take (length migration_prefix) t = migration_prefix) then
    let rest := units (drop (length migration_prefix) t) in
    let name := text_of (take_while (λ u : bool * list ascii, negb u.1) rest) in
    let tail := text_of (drop_while (λ u : bool * list ascii, negb u.1) rest) in
    if bool_decide (name ≠ []) && bool_decide (take 5%nat tail = chars " (UP)") then Some (of_chars name) else None
  else None.

(** [/another migration is already running/i.test(message)] *)
Fixpoint contains (needle hay : list ascii) : bool :=
  bool_decide (take (length needle) hay = needle) ||
  match hay with [] => false | _ :: hay' => contains needle hay' end.
Definition lost_race (e : Error) : bool :=
  contains (chars "another migration is already running") (chars (to_lower (message e))).

Section migrate.
(** The directory, or the exception of [readdirSync]; the environment; how the
    connection, the [SELECT] of the applied names and the unlock turn out; and
    the third-party runner: the lines it logs, its outcome, the database. *)
Context (dir : result Error (list string)) (env : string → option string)
  (connect : result Error unit) (select_fails : option Error) (unlock_ok : bool)
  (runner : string → database → list string * result Error unit * database).

Definition readApplied (table : string) : M world Error (gset string) :=
  try_catch
    (λ w, match select_fails with
          | Some e => (Err e, w)
          | None => match tables (db w) !! table with
                    | Some rows => (Ok (list_to_set rows), w)
                    | None => (Err (mkError "relation does not exist" (Some "42P01")), w)
                    end
          end)
    (λ e, if decide (pg_code e = Some "42P01") then ret ∅ else throw e).

Definition keep (r : MigrationResult) : M world Error MigrationResult :=
  modify (keep_result r) ;;; ret r.

Definition run_runner (table : string) : M world Error (list string) := λ w,
  let '(lines, r, d) := runner table (db w) in
  (match r with Ok _ => Ok (omap logged_migration lines) | Err e => Err e end, with_db d w).

(** The [try] block after the client is there. *)
Definition migrate_body (table : string) (dryRun : bool) (managed unmanaged : list string)
    : M world Error MigrationResult :=
  let! applied := readApplied table in
  let pend := computePending managed applied in
  if decide (pend = []) then keep (Result current [] [] unmanaged dryRun None)
  else if dryRun then keep (Result pending [] pend unmanaged dryRun None)
  else
    let! appliedNow := run_runner table in
    keep (Result current (if decide (appliedNow = []) then pend else appliedNow) [] unmanaged false None).

(** The [catch] block; [client] tells whether the variable is set. *)
Definition migrate_catch (client dryRun : bool) (managed unmanaged : list string) (e : Error)
    : M world Error MigrationResult :=
  if lost_race e then keep (Result pending [] managed unmanaged dryRun None)
  else
    (if client && unlock_ok then modify (λ w, with_db (Database (tables (db w)) false) w) else ret tt) ;;;
    keep (Result failed [] managed unmanaged dryRun (Some e)).

(** [new Pool(...)] and [pool.connect()]. *)
Definition open_client : M world Error unit :=
  modify (λ w, with_pools (pools w + 1) w) ;;;
  match connect with
  | Ok _ => modify (λ w, with_connections (connections w + 1) w)
  | Err e => throw e
  end.
(** The [finally] block of a run that owns its client. *)
Definition release_client (w : world) : world :=
  with_pools (pools w - 1) (with_connections (connections w - 1) w).

Definition runMigrations (options : Options) : M world Error MigrationResult := λ w,
  let dryRun := default (isDryRun env) (o_dryRun options) in
  let table := default "pgmigrations" (o_migrationsTable options) in
  match dir with
  | Err e => (Err e, w)
  | Ok names =>
      let unmanaged := listUnmanagedMigrations names in
      let managed := listManagedMigrations names in
      if o_client options then
        try_catch (migrate_body table dryRun managed unmanaged) (migrate_catch true dryRun managed unmanaged) w
      else
        match open_client w with
        | (Err e, w1) => migrate_catch false dryRun managed unmanaged e w1
        | (Ok _, w1) =>
            let '(r, w2) := try_catch (migrate_body table dryRun managed unmanaged)
                              (migrate_catch true dryRun managed unmanaged) w1 in
            (r, release_client w2)
        end
  end.

(** [Some n]: the process exits with [n]. *)
Definition runMigrationsOrExit (options : Options) : M world Error (option Z) :=
  let! result := runMigrations options in
  ret (if decide (r_status result = failed) then Some 1 else None).
End migrate.

(** What the table records as applied. *)
Definition recorded (table : string) (d : database) : gset string :=
  match tables d !! table with Some rows => list_to_set rows | None => ∅ end.

(** The documented contract of a run of [node-pg-migrate]: when it succeeds,
    every migration file is recorded. *)
Definition runner_applies (names : list string)
    (runner : string → database → list string * result Error unit * database) : Prop :=
  ∀ table d lines d', runner table d = (lines, Ok tt, d') →
    ∀ m, m ∈ listManagedMigrations names → m ∈ recorded table d'.

(** ** Lemmas *)

Lemma elem_of_sort x l : x ∈ sort l ↔ x ∈ l.
Proof. unfold sort. by rewrite merge_sort_Permutation. Qed.
Lemma Sorted_sort l : Sorted String.le (sort l).
Proof. apply Sorted_merge_sort, _. Qed.

Lemma chars_append s t : chars (s +:+ t) = chars s ++ chars t.
Proof. unfold chars. induction s as [|c s IH]; simpl; [done|]. by rewrite <-IH. Qed.

Lemma slice_ts_append m : slice_ts (m +:+ ".ts") = m ∧ ends_with_ts (m +:+ ".ts") = true.
Proof.
  unfold slice_ts, ends_with_ts. rewrite chars_append, length_app.
  replace (length (chars m) + length (chars ".ts") - 3)%nat with (length (chars m)) by (simpl; lia).
  rewrite take_app_length, drop_app_length. split; [apply of_chars_chars|by apply bool_decide_eq_true].
Qed.
Lemma append_slice_ts name : ends_with_ts name = true → slice_ts name +:+ ".ts" = name.
Proof.
  unfold ends_with_ts, slice_ts. intros Hd%bool_decide_eq_true.
  rewrite <-(of_chars_chars (_ +:+ _)), chars_append, chars_of_chars, <-Hd, take_drop.
  apply of_chars_chars.
Qed.

(** The managed names are exactly the ones with a [.ts] file. *)
Lemma elem_of_managed m names : m ∈ listManagedMigrations names ↔ m +:+ ".ts" ∈ names.
Proof.
  unfold listManagedMigrations. rewrite elem_of_sort, list_elem_of_fmap. split.
  - intros (name & -> & [Hts Hin]%list_elem_of_filter). by rewrite append_slice_ts.
  - intros Hin. destruct (slice_ts_append m) as [Hs He]. exists (m +:+ ".ts").
    split; [by rewrite Hs|]. by apply list_elem_of_filter.
Qed.

Lemma computePending_nil managed applied :
  computePending managed applied = [] ↔ ∀ m, m ∈ managed → m ∈ applied.
Proof.
  unfold computePending. split.
  - intros Hnil m Hm. destruct (decide (m ∈ applied)) as [|Hn]; [done|].
    assert (m ∈ filter (λ name, name ∉ applied) managed) as Hin by by apply list_elem_of_filter.
    rewrite Hnil in Hin. by apply not_elem_of_nil in Hin.
  - intros Hall. destruct (filter _ managed) as [|m l] eqn:Hf; [done|].
    assert (m ∈ m :: l) as Hm by apply list_elem_of_here. rewrite <-Hf in Hm.
    apply list_elem_of_filter in Hm as [Hn Hm]. by destruct (Hn (Hall _ Hm)).
Qed.

Section migrate_lemmas.
Context (names : list string) (env : string → option string)
  (connect : result Error unit) (select_fails : option Error) (unlock_ok : bool)
  (runner : string → database → list string * result Error unit * database).
Let managed := listManagedMigrations names.
Let unmanaged := listUnmanagedMigrations names.

Lemma readApplied_spec table w :
  readApplied select_fails table w =
    (match select_fails with
     | Some e => if decide (pg_code e = Some "42P01") then Ok ∅ else Err e
     | None => Ok (recorded table (db w))
     end, w).
Proof.
  unfold readApplied, try_catch, recorded. destruct select_fails as [e|]; [by destruct (decide _)|].
  by destruct (tables (db w) !! table).
Qed.

(** What one run leaves behind, whatever it meets. *)
Record outcome (table : string) (dryRun : bool) (w : world) (r : MigrationResult) (w' : world) : Prop := Outcome {
  oc_cached : getMigrationStatus w' = r_status r ∧ getLastMigrationResult w' = Some r;
  oc_unmanaged : r_unmanaged r = unmanaged;
  oc_dry : dryRun = true → tables (db w') = tables (db w) ∧ r_applied r = [];
  oc_status : match r_status r with
    | current => r_error r = None ∧ r_pending r = [] ∧
        ∀ m, m +:+ ".ts" ∈ names → m ∈ recorded table (db w')
    | pending => r_error r = None ∧ r_applied r = [] ∧
        (dryRun = true ∧ db w' = db w ∨ r_pending r = managed)
    | failed => r_pending r = managed ∧ r_applied r = [] ∧ ∃ e, r_error r = Some e ∧ lost_race e = false
    end }.

Lemma catch_outcome table client dryRun e w0 w :
  (dryRun = true → tables (db w) = tables (db w0)) →
  ∃ r w', migrate_catch unlock_ok client dryRun managed unmanaged e w = (Ok r, w') ∧
    connections w' = connections w ∧ pools w' = pools w ∧ outcome table dryRun w0 r w'.
Proof.
  intros Hdry. unfold migrate_catch. destruct (lost_race e) eqn:Hr.
  - eexists _, _. split_and!; [done..|]. split; simpl; auto.
  - destruct (client && unlock_ok); eexists _, _; (split_and!; [done..|]); (split; simpl; eauto).
Qed.

Lemma body_outcome table client dryRun w :
  (∀ e, select_fails = Some e → pg_code e ≠ Some "42P01") → runner_applies names runner →
  ∃ r w', try_catch (migrate_body select_fails runner table dryRun managed unmanaged)
            (migrate_catch unlock_ok client dryRun managed unmanaged) w = (Ok r, w') ∧
    connections w' = connections w ∧ pools w' = pools w ∧ outcome table dryRun w r w'.
Proof.
  intros Hsel Hrun. unfold try_catch, migrate_body, bind at 1. rewrite readApplied_spec.
  destruct select_fails as [e|]; [rewrite decide_False by auto; by apply catch_outcome|].
  destruct (decide _) as [Hnil|Hne].
  { eexists _, _. split_and!; [done..|]. split; simpl; auto. split_and!; [done..|].
    intros m Hm. apply (proj1 (computePending_nil _ _) Hnil). by apply elem_of_managed. }
  destruct dryRun.
  { eexists _, _. split_and!; [done..|]. by split; simpl; auto. }
  unfold bind, run_runner. destruct (runner table (db w)) as [[lines [[]|e]] d] eqn:Hr;
    [|by apply (catch_outcome table client false e w (with_db d w))].
  eexists _, _. split_and!; [done..|]. split; simpl; [done|done|done|]. split_and!; [done..|].
  intros m Hm. apply (Hrun _ _ _ _ Hr). by apply elem_of_managed.
Qed.

(** Every run comes to an end with an outcome, and a client it opened is closed. *)
Lemma runMigrations_spec options w :
  (∀ e, select_fails = Some e → pg_code e ≠ Some "42P01") → runner_applies names runner →
  ∃ r w', runMigrations (Ok names) env connect select_fails unlock_ok runner options w = (Ok r, w') ∧
    connections w' = connections w ∧
    outcome (default "pgmigrations" (o_migrationsTable options)) (default (isDryRun env) (o_dryRun options)) w r w'.
Proof.
  intros Hsel Hrun. unfold runMigrations. destruct (o_client options).
  - destruct (body_outcome (default "pgmigrations" (o_migrationsTable options)) true
      (default (isDryRun env) (o_dryRun options)) w Hsel Hrun) as (r & w' & ? & ? & ? & ?). eauto.
  - unfold open_client. destruct connect as [[]|e]; simpl.
    + edestruct (body_outcome (default "pgmigrations" (o_migrationsTable options)) true
        (default (isDryRun env) (o_dryRun options))) as (r & w' & -> & Hc & _ & [? ? ? ?]); [done..|].
      eexists _, _. split; [done|]. simpl in *. split; [lia|]. by split.
    + edestruct (catch_outcome (default "pgmigrations" (o_migrationsTable options)) false
        (default (isDryRun env) (o_dryRun options)) e w) as (r & w' & -> & Hc & _ & Ho); [|by eauto]. done.
Qed.
End migrate_lemmas.

(** ** Theorems *)

(** The bootstrap gate always comes to a decision: the process exits,
    with code 1, exactly when the run failed, and the status served to health
    checks is the one of this run.  If the status is current, every migration
    file is recorded in the table; a dry run changes no table; a client the run
    opened is closed again. *)
Theorem startup_gate names env connect select_fails unlock_ok runner options w :
  (∀ e, select_fails = Some e → pg_code e ≠ Some "42P01") → runner_applies names runner →
  ∃ x w', runMigrationsOrExit (Ok names) env connect select_fails unlock_ok runner options w = (Ok x, w') ∧
    (x = Some 1 ∧ getMigrationStatus w' = failed ∨ x = None ∧ getMigrationStatus w' ≠ failed) ∧
    (getMigrationStatus w' = current →
      ∀ m, m +:+ ".ts" ∈ names → m ∈ recorded (default "pgmigrations" (o_migrationsTable options)) (db w')) ∧
    (default (isDryRun env) (o_dryRun options) = true → tables (db w') = tables (db w)) ∧
    connections w' = connections w.
Proof.
  intros Hsel Hrun.
  destruct (runMigrations_spec names env connect select_fails unlock_ok runner options w Hsel Hrun)
    as (r & w' & Hr & Hc & [[Hs _] _ Hd Ho]).
  unfold runMigrationsOrExit. rewrite (bind_ok _ _ _ _ _ Hr).
  exists (if decide (r_status r = failed) then Some 1 else None), w'. split; [done|]. rewrite Hs. split_and!.
  - destruct (decide _); auto.
  - intros Hcur. rewrite Hcur in Ho. apply Ho.
  - intros Hdry. by apply Hd.
  - done.
Qed.

(** A schema that was brought up to date stays as it is: after a run that
    ended with the status current, another run with the same table reports
    current again, applies nothing and leaves the database as it was. *)
Theorem rerun_is_noop names env connect unlock_ok runner options options' w w' r :
  runner_applies names runner → connect = Ok tt →
  o_migrationsTable options' = o_migrationsTable options →
  runMigrations (Ok names) env connect None unlock_ok runner options w = (Ok r, w') →
  r_status r = current →
  ∃ r' w'', runMigrations (Ok names) env connect None unlock_ok runner options' w' = (Ok r', w'') ∧
    r_status r' = current ∧ r_applied r' = [] ∧ r_pending r' = [] ∧ db w'' = db w'.
Proof.
  intros Hrun -> Ht Hr Hcur.
  destruct (runMigrations_spec names env (Ok tt) None unlock_ok runner options w ltac:(done) Hrun)
    as (r0 & w0 & Hr0 & _ & [_ _ _ Ho]).
  rewrite Hr0 in Hr. simplify_eq. rewrite Hcur in Ho. destruct Ho as (_ & _ & Ho).
  assert (Hnil : ∀ d, db d = db w' →
    computePending (listManagedMigrations names) (recorded (default "pgmigrations" (o_migrationsTable options')) (db d)) = []).
  { intros d ->. apply computePending_nil. intros m Hm. rewrite Ht. by apply Ho, elem_of_managed. }
  unfold runMigrations, try_catch, migrate_body, bind. simpl.
  destruct (o_client options'); simpl; rewrite readApplied_spec, decide_True by (by apply Hnil);
    eexists _, _; split_and!; done.
Qed.

(** A replica that loses the race for the advisory lock is let through
    at once: there is a runner that meets its contract and a database without
    any recorded migration for which the gate lets the process serve requests
    although nothing has been applied. *)
Theorem lost_race_serves_stale_schema names env table :
  ∃ runner, runner_applies names runner ∧
    ∀ w, tables (db w) !! table = None → listManagedMigrations names ≠ [] →
      ∃ w', runMigrationsOrExit (Ok names) env (Ok tt) None true runner (mkOptions false (Some false) (Some table)) w
              = (Ok None, w') ∧
            getMigrationStatus w' = pending ∧ recorded table (db w') = ∅.
Proof.
  exists (λ _ d, ([], Err (mkError "Another migration is already running" None), d)).
  split; [intros ? ? ? ? [=]|].
  intros w Hw Hne. unfold runMigrationsOrExit, runMigrations, try_catch, migrate_body, bind. simpl.
  rewrite readApplied_spec. unfold recorded. simpl. rewrite Hw.
  destruct (decide _) as [Hnil|_].
  { destruct Hne. apply elem_of_nil_inv. intros m Hm.
    apply (not_elem_of_empty (C := gset string) m). by apply (proj1 (computePending_nil _ _) Hnil). }
  eexists. split_and!; [reflexivity|done|]. unfold recorded. simpl. by rewrite Hw.
Qed.

(** ** Witnesses *)

Definition demo_dir : list string := ["V1__create_schedules.sql"; "002_claims.ts"; "001_streams.ts"].
Definition demo_world : world := World (Database ∅ false) pending None 0 0.
(** A runner that records every file of the directory. *)
Definition demo_runner (table : string) (d : database) : list string * result Error unit * database :=
  (["### MIGRATION 001_streams (UP) ###"; "### MIGRATION 002_claims (UP) ###"], Ok tt,
   Database (<[table := ["001_streams"; "002_claims"]]> (tables d)) false).
Definition no_env : string → option string := λ _, None.
Definition demo_options : Options := mkOptions false None None.

Lemma demo_runner_applies : runner_applies demo_dir demo_runner.
Proof.
  intros table d lines d' [= _ <-] m Hm. unfold recorded. simpl. rewrite lookup_insert_eq.
  apply elem_of_list_to_set. change (listManagedMigrations demo_dir) with ["001_streams"; "002_claims"] in Hm. done.
Qed.

Example demo_run : fst (runMigrations (Ok demo_dir) no_env (Ok tt) None true demo_runner demo_options demo_world)
  = Ok (Result current ["001_streams"; "002_claims"] [] ["V1__create_schedules.sql"] false None).
Proof. vm_compute. reflexivity. Qed.

Lemma startup_gate_witness : ∃ x w',
  runMigrationsOrExit (Ok demo_dir) no_env (Ok tt) None true demo_runner demo_options demo_world = (Ok x, w') ∧
  x = None ∧ "001_streams" ∈ recorded "pgmigrations" (db w').
Proof.
  destruct (startup_gate demo_dir no_env (Ok tt) None true demo_runner demo_options demo_world) as (x & w' & H & _ & Hc & _).
  - intros e [=].
  - apply demo_runner_applies.
  - exists x, w'. split; [exact H|]. vm_compute in H. injection H as <- <-. split; [reflexivity|].
    apply Hc; [reflexivity|]. apply list_elem_of_In. vm_compute. auto.
Defined.

Definition demo_current : world :=
  snd (runMigrations (Ok demo_dir) no_env (Ok tt) None true demo_runner demo_options demo_world).

Lemma rerun_is_noop_witness : ∃ r w2,
  runMigrations (Ok demo_dir) no_env (Ok tt) None true demo_runner demo_options demo_current = (Ok r, w2) ∧
  r_status r = current ∧ r_applied r = [] ∧ db w2 = db demo_current.
Proof.
  destruct (rerun_is_noop demo_dir no_env (Ok tt) true demo_runner demo_options demo_options demo_world demo_current
    (Result current ["001_streams"; "002_claims"] [] ["V1__create_schedules.sql"] false None))
    as (r' & w'' & H & Hc & Ha & _ & Hd).
  - apply demo_runner_applies.
  - reflexivity.
  - reflexivity.
  - vm_compute. reflexivity.
  - reflexivity.
  - exists r', w''. split; [exact H|]. split; [exact Hc|]. split; [exact Ha|exact Hd].
Defined.
