(* ===== verification/Health.v ===== *)
(** * Health and readiness

    [backend/src/routes/health.ts]: the probes of the dependencies with their
    timeouts, and the two endpoints.  What a probe meets outside is an argument:
    a [settled] outcome with the time it takes. *)
From S2P Require Import Prelude CircuitBreaker Migrate.
From Stdlib Require Import QArith.
#[local] Open Scope Z_scope.

(** A promise: settled after some milliseconds, or never. *)
Definition promise (A : Type) : Type := option (Z * result unit A).

(** [withinTimeout(check, timeoutMs)]: the timer is armed after the check was
    started, so a check that settles in time wins the race. *)
Definition withinTimeout {A} (check : promise A) (timeoutMs : Z) : result unit A :=
  match check with
  | Some (t, r) => if t <=? timeoutMs then r else Err tt
  | None => Err tt
  end.
(** The time after which [withinTimeout] settles. *)
Definition settle_time {A} (check : promise A) (timeoutMs : Z) : Z :=
  match check with Some (t, _) => Z.min t timeoutMs | None => timeoutMs end.
Definition caught_false (r : result unit bool) : bool := match r with Ok b => b | Err _ => false end.

(** What the outside world does during one request. *)
Record outside := Outside {
  db_select : promise unit;          (* pool.query("SELECT 1") *)
  rpc_fetch : promise bool;          (* response.ok of getHealth *)
  redis_open : bool;                 (* redis?.isOpen *)
  redis_connect : promise unit;
  redis_ping : promise string;
  lag_query : promise (option (option Q)) }.  (* no row, NULL, or the lag in seconds *)

Definition checkDbHealth (o : outside) : bool :=
  match withinTimeout (db_select o) 900 with Ok _ => true | Err _ => false end.
(** The abort after two seconds makes the pending [fetch] throw. *)
Definition checkRpcHealth (o : outside) : bool := caught_false (withinTimeout (rpc_fetch o) 2000).
Definition checkRedisHealth (o : outside) : bool :=
  match (if redis_open o then Ok tt else withinTimeout (redis_connect o) 2000) with
  | Err _ => false
  | Ok _ => match withinTimeout (redis_ping o) 2000 with
            | Ok s => bool_decide (s = "PONG")
            | Err _ => false
            end
  end.
Definition redis_time (o : outside) : Z :=
  (if redis_open o then 0 else settle_time (redis_connect o) 2000) +
  match (if redis_open o then Ok tt else withinTimeout (redis_connect o) 2000) with
  | Ok _ => settle_time (redis_ping o) 2000
  | Err _ => 0
  end.

Definition text_of_check (b : bool) : string := if b then "ok" else "timeout or unavailable".
Definition runHealthChecks (o : outside) : list (string * string) :=
  [("db", text_of_check (checkDbHealth o));
   ("rpc", text_of_check (caught_false (withinTimeout (Some (settle_time (rpc_fetch o) 2000, Ok (checkRpcHealth o))) 2000)));
   ("redis", text_of_check (caught_false (withinTimeout (Some (redis_time o, Ok (checkRedisHealth o))) 2000)))].
(** The time [Promise.all] takes. *)
Definition checks_time (o : outside) : Z :=
  Z.max (settle_time (db_select o) 900) (Z.max (settle_time (rpc_fetch o) 2000) (Z.min (redis_time o) 2000)).

Record response := Response {
  code_ : Z;
  status_text : string;
  uptime_seconds : Z;
  contract_version : string;
  db_migrations : MigrationStatus;
  checks_ : list (string * string);
  horizon_circuit : CircuitState }.

Record process := Process {
  START_TIME : Z;
  _contractVersion : string;
  migrations : world;
  breaker : CircuitBreaker }.
Definition setContractVersion (v : string) (p : process) : process :=
  Process (START_TIME p) v (migrations p) (breaker p).
Definition uptimeSeconds (now : Z) (p : process) : Z := (now - START_TIME p) / 1000.

(** Reading the breaker's state may move it to half-open. *)
Definition sendHealthResponse (now : Z) (checks : list (string * string)) (p : process) : response * process :=
  let healthy := forallb (λ c : string * string, bool_decide (c.2 = "ok")) checks in
  let '(st, b) := getState now (breaker p) in
  (Response (if healthy then 200 else 503) (if healthy then "ok" else "degraded")
     (uptimeSeconds now p) (_contractVersion p) (getMigrationStatus (migrations p)) checks st,
   Process (START_TIME p) (_contractVersion p) (migrations p) b).

Definition healthHandler (now : Z) (o : outside) (p : process) : response * process :=
  sendHealthResponse (now + checks_time o) (runHealthChecks o) p.

(** [Number(result.rows[0]?.lag_seconds)]: [NaN] without a row, 0 for NULL. *)
Definition indexer_check (lag : option (option Q)) : string :=
  match lag with
  | None => "lag > 60s"
  | Some None => "ok"
  | Some (Some q) => if Qlt_le_dec q 60 then "ok" else "lag > 60s"
  end.
Definition readyHandler (now : Z) (o : outside) (p : process) : response * process :=
  let indexer := match withinTimeout (lag_query o) 2000 with
                 | Ok lag => indexer_check lag
                 | Err _ => "timeout or unavailable"
                 end in
  sendHealthResponse (now + checks_time o + settle_time (lag_query o) 2000)
    (runHealthChecks o ++ [("indexer", indexer)]) p.

(** ** Lemmas *)

Definition in_time {A} (c : promise A) (n : Z) (r : A) : Prop := ∃ t, c = Some (t, Ok r) ∧ t <= n.
Definition durations_ok (o : outside) : Prop :=
  (∀ t r, db_select o = Some (t, r) → 0 <= t) ∧ (∀ t r, rpc_fetch o = Some (t, r) → 0 <= t) ∧
  (∀ t r, redis_connect o = Some (t, r) → 0 <= t) ∧ (∀ t r, redis_ping o = Some (t, r) → 0 <= t) ∧
  (∀ t r, lag_query o = Some (t, r) → 0 <= t).

Lemma withinTimeout_Ok {A} (c : promise A) n r : withinTimeout c n = Ok r ↔ in_time c n r.
Proof.
  unfold withinTimeout, in_time. destruct c as [[t x]|]; [|naive_solver].
  destruct (Z.leb_spec t n); (split; [intros; simplify_eq; eauto|intros (? & ? & ?); simplify_eq; done || lia]).
Qed.
Lemma settle_time_bound {A} (c : promise A) n : settle_time c n <= n.
Proof. destruct c as [[t r]|]; simpl; lia. Qed.
Lemma settle_time_nonneg {A} (c : promise A) n : 0 <= n → (∀ t r, c = Some (t, r) → 0 <= t) → 0 <= settle_time c n.
Proof. intros Hn Hc. destruct c as [[t r]|]; simpl; [|done]. specialize (Hc t r eq_refl). lia. Qed.
Lemma text_of_check_ok b : text_of_check b = "ok" ↔ b = true.
Proof. by destruct b. Qed.

Lemma checkDbHealth_true o : checkDbHealth o = true ↔ in_time (db_select o) 900 tt.
Proof.
  rewrite <-withinTimeout_Ok. unfold checkDbHealth.
  destruct (withinTimeout (db_select o) 900) as [[]|]; naive_solver.
Qed.
Lemma rpc_check_true o :
  caught_false (withinTimeout (Some (settle_time (rpc_fetch o) 2000, Ok (checkRpcHealth o))) 2000) = true ↔
  in_time (rpc_fetch o) 2000 true.
Proof.
  rewrite <-withinTimeout_Ok. unfold withinTimeout at 1. pose proof (settle_time_bound (rpc_fetch o) 2000).
  destruct (Z.leb_spec (settle_time (rpc_fetch o) 2000) 2000); [|lia]. unfold checkRpcHealth. simpl.
  destruct (withinTimeout (rpc_fetch o) 2000) as [[]|]; naive_solver.
Qed.

(** Redis is there: a ping is answered, within two seconds of the start. *)
Definition redis_answers (o : outside) : Prop :=
  ∃ t1 t2, (redis_open o = true ∧ t1 = 0 ∨ redis_open o = false ∧ redis_connect o = Some (t1, Ok tt)) ∧
    redis_ping o = Some (t2, Ok "PONG") ∧ t1 + t2 <= 2000.

Lemma redis_check_true o : durations_ok o →
  caught_false (withinTimeout (Some (redis_time o, Ok (checkRedisHealth o))) 2000) = true ↔ redis_answers o.
Proof.
  intros (_ & _ & Hc & Hp & _). unfold withinTimeout at 1, redis_time, checkRedisHealth, redis_answers.
  destruct (redis_open o), (redis_connect o) as [[t1 [[]|]]|], (redis_ping o) as [[t2 [s|]]|]; simpl;
    repeat case_match; simpl; rewrite ?bool_decide_eq_true;
    try specialize (Hc _ _ eq_refl); try specialize (Hp _ _ eq_refl); simplify_eq;
    (split; [intros; simplify_eq|intros (u1 & u2 & [[? ?]|[? ?]] & ? & ?); simplify_eq]);
    try done; try lia; (do 2 eexists; split_and!; [eauto|done|lia]).
Qed.

(** The dependencies as the checks see them. *)
Definition dependencies_ok (o : outside) : Prop :=
  in_time (db_select o) 900 tt ∧ in_time (rpc_fetch o) 2000 true ∧ redis_answers o.

Lemma runHealthChecks_ok o : durations_ok o →
  forallb (λ c : string * string, bool_decide (c.2 = "ok")) (runHealthChecks o) = true ↔ dependencies_ok o.
Proof.
  intros Hd. unfold runHealthChecks, dependencies_ok. cbn [forallb snd].
  rewrite !andb_true_iff, !bool_decide_eq_true, !text_of_check_ok,
    checkDbHealth_true, rpc_check_true, redis_check_true by done. naive_solver.
Qed.

(** The row of the indexer's cursor is younger than a minute. *)
Definition indexer_fresh (o : outside) : Prop :=
  ∃ lag, in_time (lag_query o) 2000 (Some lag) ∧ ∀ q, lag = Some q → (q < 60)%Q.
Lemma indexer_ok o :
  match withinTimeout (lag_query o) 2000 with
  | Ok lag => indexer_check lag
  | Err _ => "timeout or unavailable"
  end = "ok" ↔ indexer_fresh o.
Proof.
  unfold indexer_fresh. setoid_rewrite <-withinTimeout_Ok.
  destruct (withinTimeout (lag_query o) 2000) as [[[q|]|]|]; simpl; [|naive_solver..].
  destruct (Qlt_le_dec q 60) as [Hq|Hq]; split; [intros _; exists (Some q); naive_solver|naive_solver|done|].
  intros (lag & [= <-] & Hl). exfalso. by apply (Qlt_not_le _ _ (Hl q eq_refl)).
Qed.

(** ** Theorems *)

(** Both endpoints answer within bounded time, whatever hangs: two seconds
    for the checks and two more for the indexer's row.  [/health] answers 200
    exactly when database, RPC node and Redis answered in time, [/ready] when in
    addition the indexer's cursor is younger than a minute; any other outcome is
    503.  The migration status is reported as the startup run left it and does
    not change the answer. *)
Theorem health_and_ready_spec now o p : durations_ok o →
  let '(h, _) := healthHandler now o p in
  let '(r, _) := readyHandler now o p in
  (code_ h = 200 ∨ code_ h = 503) ∧ (code_ h = 200 ↔ dependencies_ok o) ∧
  (code_ r = 200 ∨ code_ r = 503) ∧ (code_ r = 200 ↔ dependencies_ok o ∧ indexer_fresh o) ∧
  db_migrations h = getMigrationStatus (migrations p) ∧ db_migrations r = getMigrationStatus (migrations p) ∧
  0 <= checks_time o <= 2000 ∧ 0 <= settle_time (lag_query o) 2000 <= 2000.
Proof.
  intros Hd. unfold healthHandler, readyHandler, sendHealthResponse.
  destruct (getState (now + checks_time o) (breaker p)) as [st b].
  destruct (getState (now + checks_time o + settle_time (lag_query o) 2000) (breaker p)) as [st' b'].
  cbn [code_ db_migrations]. rewrite forallb_app. cbn [forallb snd]. rewrite andb_true_r.
  pose proof (runHealthChecks_ok o Hd) as Hh. pose proof (indexer_ok o) as Hi.
  pose proof (settle_time_bound (db_select o) 900). pose proof (settle_time_bound (rpc_fetch o) 2000).
  pose proof (settle_time_bound (lag_query o) 2000). destruct Hd as (Hd1 & _ & _ & _ & Hd5).
  pose proof (settle_time_nonneg (db_select o) 900 ltac:(lia) Hd1).
  pose proof (settle_time_nonneg (lag_query o) 2000 ltac:(lia) Hd5).
  destruct (forallb _ (runHealthChecks o)), (bool_decide (_ = "ok")) eqn:Hb; simpl;
    (apply bool_decide_eq_true in Hb || apply bool_decide_eq_false in Hb);
    split_and!; try (unfold checks_time; lia); naive_solver.
Qed.

(** ** Witnesses *)

Definition demo_outside : outside :=
  Outside (Some (3, Ok tt)) (Some (150, Ok true)) false (Some (20, Ok tt)) (Some (1, Ok "PONG")) (Some (5, Ok (Some (Some 7%Q)))).
Definition demo_process : process := Process 0 "1.2.0" demo_world (new_breaker None None).

Lemma health_and_ready_spec_witness :
  code_ (fst (healthHandler 90000 demo_outside demo_process)) = 200 ∧ dependencies_ok demo_outside.
Proof.
  pose proof (health_and_ready_spec 90000 demo_outside demo_process) as H.
  assert (Hd : durations_ok demo_outside) by (repeat split; simpl; intros t r [= <- _]; lia).
  specialize (H Hd). split; [vm_compute; reflexivity|]. apply H. vm_compute. reflexivity.
Defined.
