(* ===== verification/WsClaimable.v ===== *)
(** * The claimable WebSocket endpoint

    [backend/src/ws.ts]: the subscription registry, the connection handler, the
    idle sweep, the publication of events, the ledger snapshots and the parsing
    of Horizon's event stream.  The registry maps recipients to [Set] objects
    that other code keeps references to, so the sets live in a store of their
    own.  [JSON.parse] and the contract call are outside: a message is the view
    of it that the handler takes, and a call settles in a step of its own. *)
From stdpp Require Import gmap.
From S2P Require Import Prelude.
#[local] Open Scope Z_scope.

(** ** Data *)

Inductive StreamEventType :=
| stream_created | tokens_claimed | stream_cancelled | stream_clawed_back | stream_drained.

(** A property of a parsed object, as far as the handler looks at it. *)
Inductive field := Undefined | Str (s : string) | OtherFalsy | OtherTruthy.
(** A received text after [JSON.parse]: not JSON, [null], or a value whose
    properties [type] and [recipient] are read. *)
Inductive received := Invalid | Null | Value (type recipient : field).

Inductive message :=
| Event (t : StreamEventType) (recipient payload : string)
| Snapshot (claimable : string) (ledger : option Z)
| ErrorMessage (text : string).

(** A socket with the closure of its handlers.  [c_open]: [readyState] is OPEN;
    [c_closed]: the close event has been handled. *)
Record client := Client {
  lastActivityAt : Z;
  subscribedRecipient : option string;
  c_open : bool;
  c_closed : bool;
  c_sent : list message }.

(** Calls of [fetchClaimable] under way: for one subscriber, or for the set of
    a recipient, which is kept by reference. *)
Inductive task :=
| OnSubscribe (id : nat) (recipient : string)
| OnLedger (recipient : string) (set : nat) (ledger : Z).

Record server := Server {
  clock : Z;
  clients : gmap nat client;
  subscriptions : gmap string nat;
  sets : gmap nat (gset nat);
  tasks : list task }.

Definition init_server : server := Server 0 ∅ ∅ ∅ [].

Definition with_clients (f : gmap nat client → gmap nat client) (s : server) : server :=
  Server (clock s) (f (clients s)) (subscriptions s) (sets s) (tasks s).
Definition with_registry (r : gmap string nat) (st : gmap nat (gset nat)) (s : server) : server :=
  Server (clock s) (clients s) r st (tasks s).
Definition with_tasks (ts : list task) (s : server) : server :=
  Server (clock s) (clients s) (subscriptions s) (sets s) ts.

Definition send (m : message) (c : client) : client :=
  Client (lastActivityAt c) (subscribedRecipient c) (c_open c) (c_closed c) (c_sent c ++ [m]).
Definition send_open (m : message) (c : client) : client := if c_open c then send m c else c.
Definition touch (now : Z) (c : client) : client :=
  Client now (subscribedRecipient c) (c_open c) (c_closed c) (c_sent c).
Definition set_recipient (r : string) (c : client) : client :=
  Client (lastActivityAt c) (Some r) (c_open c) (c_closed c) (c_sent c).
Definition terminate (c : client) : client :=
  Client (lastActivityAt c) (subscribedRecipient c) false (c_closed c) (c_sent c).
Definition set_closed (c : client) : client :=
  Client (lastActivityAt c) (subscribedRecipient c) false true (c_sent c).

(** The guarded send to every member of a set. *)
Definition send_to (ids : gset nat) (m : message) : gmap nat client → gmap nat client :=
  map_imap (λ id c, Some (if bool_decide (id ∈ ids) then send_open m c else c)).

(** ** The registry *)

Definition members (s : server) (set : nat) : gset nat := default ∅ (sets s !! set).
Definition subscribers (s : server) (recipient : string) : gset nat :=
  match subscriptions s !! recipient with Some l => members s l | None => ∅ end.

Definition removeSubscription (recipient : string) (id : nat) (s : server) : server :=
  match subscriptions s !! recipient with
  | None => s
  | Some l =>
      let ids := members s l ∖ {[id]} in
      with_registry (if decide (ids = ∅) then delete recipient (subscriptions s) else subscriptions s)
        (<[l := ids]> (sets s)) s
  end.

(** [if (!has) set(recipient, new Set()); get(recipient).add(client)] *)
Definition addSubscription (recipient : string) (id : nat) (s : server) : server :=
  match subscriptions s !! recipient with
  | Some l => with_registry (subscriptions s) (<[l := members s l ∪ {[id]}]> (sets s)) s
  | None =>
      let l := fresh (dom (sets s)) in
      with_registry (<[recipient := l]> (subscriptions s)) (<[l := {[id]}]> (sets s)) s
  end.

(** ** Handlers *)

Definition on_connection (id : nat) (s : server) : server :=
  with_clients <[id := Client (clock s) None true false []]> s.

Definition usage : string := "expected { type: subscribe, recipient: G... }".

Definition falsy (f : field) : bool :=
  match f with Undefined | OtherFalsy => true | Str s => negb (truthy s) | OtherTruthy => false end.
Definition isNewProtocol (type : field) : bool :=
  match type with Str s => bool_decide (s = "subscribe") | _ => false end.
Definition isLegacyProtocol (type recipient : field) : bool :=
  match recipient with Str _ => falsy type | _ => false end.

Definition reply (id : nat) (m : message) : server → server := with_clients (alter (send m) id).

Definition subscribe (id : nat) (c : client) (recipient : string) (s : server) : server :=
  let s := match subscribedRecipient c with
           | Some old => if truthy old && bool_decide (old ≠ recipient) then removeSubscription old id s else s
           | None => s
           end in
  let s := with_clients (alter (set_recipient recipient) id) s in
  let s := addSubscription recipient id s in
  with_tasks (tasks s ++ [OnSubscribe id recipient]) s.

(** [None]: the handler throws, and nothing catches it. *)
Definition on_message (id : nat) (c : client) (msg : received) (s : server) : option server :=
  let s := with_clients (alter (touch (clock s)) id) s in
  match msg with
  | Invalid => Some (reply id (ErrorMessage "invalid JSON") s)
  | Null => None
  | Value type recipient =>
      if negb (isNewProtocol type) && negb (isLegacyProtocol type recipient)
      then Some (reply id (ErrorMessage usage) s)
      else match recipient with
           | Str r => if truthy r then Some (subscribe id c r s)
                      else Some (reply id (ErrorMessage "recipient required") s)
           | _ => Some (reply id (ErrorMessage "recipient required") s)
           end
  end.

Definition unsubscribe (id : nat) (c : client) (s : server) : server :=
  match subscribedRecipient c with
  | Some r => if truthy r then removeSubscription r id s else s
  | None => s
  end.
Definition on_close (id : nat) (c : client) (s : server) : server :=
  unsubscribe id c (with_clients (alter set_closed id) s).
Definition on_error (id : nat) (c : client) (s : server) : server := unsubscribe id c s.

Definition publishEvent (t : StreamEventType) (recipient payload : string) (s : server) : server :=
  match subscriptions s !! recipient with
  | None => s
  | Some l => with_clients (send_to (members s l) (Event t recipient payload)) s
  end.

(** ** The idle sweep *)

Definition is_idle (IDLE_TIMEOUT_MS : number) (now : Z) (c : client) : bool :=
  num_test (λ t, t <? now - lastActivityAt c) IDLE_TIMEOUT_MS.
Definition idle_members (timeout : number) (s : server) (ids : gset nat) : gset nat :=
  filter (λ id, match clients s !! id with Some c => is_idle timeout (clock s) c | None => false end = true) ids.
Definition sweep_one (timeout : number) (s : server) (entry : string * nat) : server :=
  let '(recipient, l) := entry in
  let idle := idle_members timeout s (members s l) in
  let rest := members s l ∖ idle in
  with_registry (if decide (rest = ∅) then delete recipient (subscriptions s) else subscriptions s)
    (<[l := rest]> (sets s))
    (with_clients (map_imap (λ id c, Some (if bool_decide (id ∈ idle) then terminate c else c))) s).
Definition idle_sweep (timeout : number) (s : server) : server :=
  foldl (sweep_one timeout) s (map_to_list (subscriptions s)).

(** ** Ledger snapshots *)

Definition broadcast_one (ledger : Z) (s : server) (recipient : string) : server :=
  match subscriptions s !! recipient with
  | None => s
  | Some l => if decide (members s l = ∅) then s
              else with_tasks (tasks s ++ [OnLedger recipient l ledger]) s
  end.
Definition broadcastLedger (ledger : Z) (s : server) : server :=
  foldl (broadcast_one ledger) s (map_to_list (subscriptions s)).*1.

(** A call of [fetchClaimable] settles. *)
Definition settle (t : task) (r : result string string) (s : server) : server :=
  match t, r with
  | OnSubscribe id recipient, Ok claimable => with_clients (alter (send_open (Snapshot claimable None)) id) s
  | OnSubscribe _ _, Err _ => s
  | OnLedger recipient l ledger, Ok claimable => with_clients (send_to (members s l) (Snapshot claimable (Some ledger))) s
  | OnLedger recipient _ _, Err e => with_clients (send_to (subscribers s recipient) (ErrorMessage e)) s
  end.

(** ** The event stream of Horizon *)

(** One chunk: the complete lines, and the rest that stays in the buffer. *)
Definition sse_feed (buf chunk : list ascii) : list (list ascii) * list ascii :=
  let lines := split_chars "010" (buf ++ chunk) in
  (take (length lines - 1) lines, default [] (last lines)).
Definition is_data (line : list ascii) : bool := bool_decide (take 5 line = chars "data:").
(** [sequence_of] parses the text and reads a truthy [sequence]. *)
Definition sse_ledger (sequence_of : string → option Z) (lines : list (list ascii)) : option Z :=
  foldl (λ acc line, if is_data line
                     then match sequence_of (trim (of_chars (drop 5 line))) with Some n => Some n | None => acc end
                     else acc) None lines.
(** The lines a sequence of chunks is cut into, chunk by chunk. *)
Fixpoint sse_run (buf : list ascii) (chunks : list (list ascii)) : list (list (list ascii)) * list ascii :=
  match chunks with
  | [] => ([], buf)
  | c :: cs => let '(lines, buf') := sse_feed buf c in
               let '(rest, b) := sse_run buf' cs in (lines :: rest, b)
  end.

(** How the reader of the stream ends, and what [startHorizonSSE] does then:
    it starts again after a failure that is not an abort. *)
Inductive sse_end := StreamDone | StreamFails | StreamAborted.
Definition sse_restarts (e : sse_end) : bool :=
  match e with StreamFails => true | StreamDone | StreamAborted => false end.

(** ** The server as a machine *)

Inductive event :=
| EConnect (id : nat) | EMessage (id : nat) (m : received) | EClosing (id : nat) | EClose (id : nat) | EError (id : nat)
| EPublish (t : StreamEventType) (recipient payload : string) | ELedger (n : Z)
| ESettle (i : nat) (r : result string string) | ESweep | ETime (t : Z).

Section machine.
Context (timeout : number).

(** [None]: the event cannot happen, or the handler throws. *)
Definition handle (e : event) (s : server) : option server :=
  match e with
  | EConnect id => if decide (clients s !! id = None) then Some (on_connection id s) else None
  | EMessage id m => c ← clients s !! id; if c_closed c then None else on_message id c m s
  | EClosing id => c ← clients s !! id; Some (with_clients (alter terminate id) s)
  | EClose id => c ← clients s !! id; Some (on_close id c s)
  | EError id => c ← clients s !! id; Some (on_error id c s)
  | EPublish t r p => Some (publishEvent t r p s)
  | ELedger n => Some (broadcastLedger n s)
  | ESettle i r => t ← tasks s !! i; Some (settle t r (with_tasks (delete i (tasks s)) s))
  | ESweep => Some (idle_sweep timeout s)
  | ETime t => if clock s <=? t then Some (Server t (clients s) (subscriptions s) (sets s) (tasks s)) else None
  end.

Fixpoint run (es : list event) (s : server) : option server :=
  match es with
  | [] => Some s
  | e :: es => s' ← handle e s; run es s'
  end.
End machine.

(** ** The registry as a map of sets *)

(** Listed sets exist and are not empty, no two recipients share one, and the
    empty text is never listed. *)
Record heap_ok (s : server) : Prop := HeapOk {
  ho_set : ∀ r l, subscriptions s !! r = Some l → ∃ ids, sets s !! l = Some ids ∧ ids ≠ ∅;
  ho_inj : ∀ r r' l, subscriptions s !! r = Some l → subscriptions s !! r' = Some l → r = r';
  ho_name : ∀ r l, subscriptions s !! r = Some l → truthy r = true }.

Lemma subscribers_listed s r l : subscriptions s !! r = Some l → subscribers s r = members s l.
Proof. unfold subscribers. by intros ->. Qed.
Lemma members_insert s reg l l' ids :
  members (with_registry reg (<[l := ids]> (sets s)) s) l' = if decide (l = l') then ids else members s l'.
Proof.
  unfold members. simpl. destruct (decide (l = l')) as [<-|Hne]; [by rewrite lookup_insert_eq|by rewrite lookup_insert_ne].
Qed.

(** Replacing the set of a listed recipient, and dropping it when it is empty. *)
Lemma replace_ok s r l ids : heap_ok s → subscriptions s !! r = Some l →
  let s' := with_registry (if decide (ids = ∅) then delete r (subscriptions s) else subscriptions s)
              (<[l := ids]> (sets s)) s in
  heap_ok s' ∧ ∀ r', subscribers s' r' = if decide (r = r') then ids else subscribers s r'.
Proof.
  intros [Hset Hinj Hname] Hl s'.
  assert (Hsub : ∀ r0 l0, subscriptions s' !! r0 = Some l0 →
    subscriptions s !! r0 = Some l0 ∧ (r0 = r → ids ≠ ∅)).
  { intros r0 l0. simpl. destruct (decide (ids = ∅)); [|done]. intros [? ?]%lookup_delete_Some. done. }
  split; [split|].
  - intros r0 l0 [Hr0 Hne]%Hsub. simpl. destruct (decide (l = l0)) as [<-|Hll].
    + rewrite lookup_insert_eq. exists ids. split; [done|]. apply Hne. by eapply Hinj.
    + rewrite lookup_insert_ne by done. by eapply Hset.
  - intros r0 r1 l0 [H0 _]%Hsub [H1 _]%Hsub. by eapply Hinj.
  - intros r0 l0 [H0 _]%Hsub. by eapply Hname.
  - intros r'. unfold subscribers at 1. destruct (decide (r = r')) as [<-|Hne].
    + simpl. destruct (decide (ids = ∅)) as [->|]; [by rewrite lookup_delete_eq|].
      rewrite Hl. unfold s'. by rewrite members_insert, decide_True.
    + assert (subscriptions s' !! r' = subscriptions s !! r') as ->.
      { simpl. destruct (decide (ids = ∅)); [by rewrite lookup_delete_ne|done]. }
      unfold subscribers. destruct (subscriptions s !! r') as [l'|] eqn:Hr'; [|done].
      unfold s'. rewrite members_insert, decide_False; [done|]. intros <-. by destruct Hne; eapply Hinj.
Qed.

Lemma removeSubscription_ok r id s : heap_ok s →
  heap_ok (removeSubscription r id s) ∧ clients (removeSubscription r id s) = clients s ∧
  ∀ r', subscribers (removeSubscription r id s) r' =
    if decide (r = r') then subscribers s r ∖ {[id]} else subscribers s r'.
Proof.
  intros Hok. unfold removeSubscription. destruct (subscriptions s !! r) as [l|] eqn:Hl.
  - destruct (replace_ok s r l (members s l ∖ {[id]}) Hok Hl) as [? Hsub]. split_and!; [done..|].
    intros r'. by rewrite Hsub, (subscribers_listed s r l Hl).
  - split_and!; [done..|]. intros r'. destruct (decide (r = r')) as [<-|]; [|done].
    unfold subscribers. rewrite Hl. set_solver.
Qed.

Lemma addSubscription_ok r id s : heap_ok s → truthy r = true →
  heap_ok (addSubscription r id s) ∧ clients (addSubscription r id s) = clients s ∧
  ∀ r', subscribers (addSubscription r id s) r' =
    if decide (r = r') then subscribers s r ∪ {[id]} else subscribers s r'.
Proof.
  intros Hok Hr. unfold addSubscription. destruct (subscriptions s !! r) as [l|] eqn:Hl.
  - destruct (replace_ok s r l (members s l ∪ {[id]}) Hok Hl) as [H1 H2].
    rewrite decide_False in H1, H2 by set_solver. split_and!; [done..|].
    intros r'. by rewrite H2, (subscribers_listed s r l Hl).
  - destruct Hok as [Hset Hinj Hname]. set (l := fresh (dom (sets s))).
    assert (Hfresh : ∀ r0, subscriptions s !! r0 ≠ Some l).
    { intros r0 H0. destruct (Hset _ _ H0) as (ids & Hids & _). apply elem_of_dom_2 in Hids. by apply is_fresh in Hids. }
    split; [split|split]; simpl.
    + intros r0 l0 [[<- <-]|[? H0]]%lookup_insert_Some; [rewrite lookup_insert_eq; eexists; split; [done|set_solver]|].
      rewrite lookup_insert_ne by (intros <-; by eapply Hfresh). by eapply Hset.
    + intros r0 r1 l0 [[<- <-]|[? H0]]%lookup_insert_Some [[<- H1]|[? H1]]%lookup_insert_Some;
        try done; [by destruct (Hfresh _ H1)|subst l0; by destruct (Hfresh _ H0)|by eapply Hinj].
    + intros r0 l0 [[<- <-]|[? H0]]%lookup_insert_Some; [done|by eapply Hname].
    + done.
    + intros r'. unfold subscribers at 1. simpl. destruct (decide (r = r')) as [<-|Hne].
      * rewrite lookup_insert_eq, members_insert, decide_True by done. unfold subscribers. rewrite Hl. set_solver.
      * rewrite lookup_insert_ne by done. unfold subscribers.
        destruct (subscriptions s !! r') as [l'|] eqn:Hr'; [|done].
        rewrite members_insert, decide_False; [done|]. intros <-. by destruct (Hfresh _ Hr').
Qed.

(** ** The sweep *)

Lemma sweep_one_ok timeout s r l : heap_ok s → subscriptions s !! r = Some l →
  let s' := sweep_one timeout s (r, l) in
  let idle := idle_members timeout s (subscribers s r) in
  heap_ok s' ∧ clock s' = clock s ∧
  clients s' = map_imap (λ id c, Some (if bool_decide (id ∈ idle) then terminate c else c)) (clients s) ∧
  (∀ r', subscribers s' r' = if decide (r = r') then subscribers s r ∖ idle else subscribers s r') ∧
  ∀ r', r ≠ r' → subscriptions s' !! r' = subscriptions s !! r'.
Proof.
  intros Hok Hl. simpl. rewrite (subscribers_listed s r l Hl).
  set (idle := idle_members timeout s (members s l)).
  set (s1 := with_clients (map_imap (λ id c, Some (if bool_decide (id ∈ idle) then terminate c else c))) s).
  assert (Hok1 : heap_ok s1) by (destruct Hok; by split).
  destruct (replace_ok s1 r l (members s l ∖ idle) Hok1 Hl) as [? Hsub].
  split_and!; [done..|].
  intros r' Hne. simpl. destruct (decide _); [by rewrite lookup_delete_ne|done].
Qed.

Definition idle_client (timeout : number) (s : server) (id : nat) : Prop :=
  ∃ c, clients s !! id = Some c ∧ is_idle timeout (clock s) c = true.
Lemma elem_of_idle_members timeout s ids id :
  id ∈ idle_members timeout s ids ↔ id ∈ ids ∧ idle_client timeout s id.
Proof.
  unfold idle_members, idle_client. rewrite elem_of_filter. destruct (clients s !! id) as [c|]; naive_solver.
Qed.

(** The clients after sweeping the recipients [rs]. *)
Definition swept_client (timeout : number) (s : server) (rs : list string) (id : nat) (o o' : option client) : Prop :=
  match o with
  | None => o' = None
  | Some c => let gone := is_idle timeout (clock s) c = true ∧ ∃ r, r ∈ rs ∧ id ∈ subscribers s r in
              (gone ∧ o' = Some (terminate c)) ∨ (¬ gone ∧ o' = Some c)
  end.

Lemma sweep_all_ok timeout es : ∀ s, heap_ok s → NoDup es.*1 →
  (∀ r l, (r, l) ∈ es → subscriptions s !! r = Some l) →
  let s' := foldl (sweep_one timeout) s es in
  heap_ok s' ∧ clock s' = clock s ∧
  (∀ id, swept_client timeout s es.*1 id (clients s !! id) (clients s' !! id)) ∧
  ∀ r id, id ∈ subscribers s' r ↔ id ∈ subscribers s r ∧ (r ∈ es.*1 → ¬ idle_client timeout s id).
Proof.
  induction es as [|[r l] es IH]; intros s Hok Hnd Hes s'.
  { split_and!; [done..| |intros; set_solver]. intros id. unfold s', swept_client. simpl.
    destruct (clients s !! id); [|done]. right. split; [set_solver|done]. }
  apply NoDup_cons in Hnd as [Hr Hnd].
  destruct (sweep_one_ok timeout s r l Hok (Hes r l (list_elem_of_here _ _))) as (Hok1 & Hc1 & Hcl1 & Hsub1 & Hs1).
  unfold s'. cbn [foldl]. set (s1 := sweep_one timeout s (r, l)) in *.
  destruct (IH s1 Hok1 Hnd) as (Hok2 & Hc2 & Hcl2 & Hsub2).
  { intros r' l' Hin. rewrite Hs1; [by apply Hes, list_elem_of_further|].
    intros <-. destruct Hr. apply list_elem_of_fmap. by exists (r, l'). }
  assert (Hidle : ∀ id, idle_client timeout s1 id ↔ idle_client timeout s id).
  { intros id. unfold idle_client. rewrite Hc1, Hcl1, map_lookup_imap.
    destruct (clients s !! id) as [c|]; simpl; [|naive_solver].
    destruct (bool_decide _); simpl; [|done]. split; intros (c' & [= <-] & H); eauto. }
  assert (Hne : ∀ r', r' ∈ es.*1 → r ≠ r') by (intros r' Hin <-; by destruct Hr).
  split_and!; [done|by rewrite Hc2| |].
  - intros id. specialize (Hcl2 id). rewrite Hcl1, map_lookup_imap in Hcl2.
    destruct (clients s !! id) as [c|] eqn:Hc; simpl in Hcl2; [|done].
    assert (Hex : (∃ r', r' ∈ es.*1 ∧ id ∈ subscribers s1 r') ↔ ∃ r', r' ∈ es.*1 ∧ id ∈ subscribers s r').
    { split; intros (r' & Hin & Hid); exists r'; (split; [done|]);
        specialize (Hsub1 r'); rewrite decide_False in Hsub1 by auto; [by rewrite <-Hsub1|by rewrite Hsub1]. }
    simpl.
    assert (Hi : id ∈ idle_members timeout s (subscribers s r) ↔
                 id ∈ subscribers s r ∧ is_idle timeout (clock s) c = true).
    { rewrite elem_of_idle_members. unfold idle_client. rewrite Hc. naive_solver. }
    destruct (bool_decide (id ∈ idle_members _ _ _)) eqn:Hb; simpl in Hcl2.
    + apply bool_decide_eq_true, Hi in Hb as [Hm Hid]. left. split; [split; [done|]; exists r; set_solver|].
      by destruct Hcl2 as [[_ ->]|[_ ->]].
    + apply bool_decide_eq_false in Hb. rewrite Hi in Hb. rewrite Hex in Hcl2.
      destruct Hcl2 as [[[Hid (r' & Hin & Hm)] ->]|[Hn ->]]; [left|right]; (split; [|done]).
      * split; [done|]. exists r'. set_solver.
      * intros [Hid (r' & [->|Hin]%elem_of_cons & Hm)]; [by apply Hb|]. apply Hn. eauto.
  - intros r' id. rewrite Hsub2, Hidle, Hsub1. cbn [fmap list_fmap fst]. rewrite elem_of_cons.
    destruct (decide (r = r')) as [<-|Hrr]; [rewrite elem_of_difference, elem_of_idle_members|]; naive_solver.
Qed.

Lemma elem_of_recipients s r : r ∈ (map_to_list (subscriptions s)).*1 ↔ is_Some (subscriptions s !! r).
Proof.
  rewrite list_elem_of_fmap. split.
  - intros ([r' l] & -> & H%elem_of_map_to_list). by exists l.
  - intros [l H]. exists (r, l). by rewrite elem_of_map_to_list.
Qed.
Lemma subscribers_recipient s r id : id ∈ subscribers s r → is_Some (subscriptions s !! r).
Proof. unfold subscribers. destruct (subscriptions s !! r); [eauto|set_solver]. Qed.

Lemma idle_sweep_ok timeout s : heap_ok s →
  let s' := idle_sweep timeout s in
  heap_ok s' ∧ clock s' = clock s ∧
  (∀ id, swept_client timeout s (map_to_list (subscriptions s)).*1 id (clients s !! id) (clients s' !! id)) ∧
  ∀ r id, id ∈ subscribers s' r ↔ id ∈ subscribers s r ∧ ¬ idle_client timeout s id.
Proof.
  intros Hok. destruct (sweep_all_ok timeout (map_to_list (subscriptions s)) s Hok) as (H1 & H2 & H3 & H4).
  - apply NoDup_fst_map_to_list.
  - intros r l. by rewrite elem_of_map_to_list.
  - split_and!; [done..|]. intros r id. unfold idle_sweep. rewrite H4, elem_of_recipients.
    split; [|naive_solver]. intros [Hin Hn]. split; [done|]. by eapply Hn, subscribers_recipient.
Qed.

(** ** The invariant of the server *)

(** The recipient a message asks for. *)
Definition asks (m : received) : option string :=
  match m with
  | Value type (Str r) => if (isNewProtocol type || isLegacyProtocol type (Str r)) && truthy r then Some r else None
  | _ => None
  end.
Definition asked (es : list event) (id : nat) (r : string) : Prop := ∃ m, EMessage id m ∈ es ∧ asks m = Some r.

(** A change of the clients that keeps what the registry relies on, and sends
    events only to the clients in [P]. *)
Definition quiet (P : nat → string → Prop) (s s' : server) : Prop :=
  ∀ id c', clients s' !! id = Some c' → ∃ c, clients s !! id = Some c ∧
    subscribedRecipient c' = subscribedRecipient c ∧ c_closed c' = c_closed c ∧
    ∀ t r p, Event t r p ∈ c_sent c' → Event t r p ∈ c_sent c ∨ P id r.

Record server_ok (es : list event) (s : server) : Prop := ServerOk {
  so_heap : heap_ok s;
  so_members : ∀ r id, id ∈ subscribers s r →
    ∃ c, clients s !! id = Some c ∧ subscribedRecipient c = Some r ∧ c_closed c = false;
  so_asked : ∀ id c r, clients s !! id = Some c → subscribedRecipient c = Some r → asked es id r;
  so_events : ∀ id c t r p, clients s !! id = Some c → Event t r p ∈ c_sent c → asked es id r }.

Lemma asked_app es es' id r : asked es id r → asked (es ++ es') id r.
Proof. intros (m & ? & ?). exists m. set_solver. Qed.

Lemma quiet_refl P s : quiet P s s.
Proof. intros id c Hc. eauto 10. Qed.

(** Steps that leave the registry alone. *)
Lemma quiet_ok es es' s s' : server_ok es s → quiet (asked es) s s' →
  subscriptions s' = subscriptions s → sets s' = sets s → dom (clients s) ⊆ dom (clients s') →
  server_ok (es ++ es') s'.
Proof.
  intros [[Hs Hi Hn] Hm Ha He] Hq Hsub Hset Hdom.
  assert (Hsubs : ∀ r, subscribers s' r = subscribers s r).
  { intros r. unfold subscribers, members. by rewrite Hsub, Hset. }
  split; [split; rewrite ?Hsub, ?Hset; done|..].
  - intros r id. rewrite Hsubs. intros (c & Hc & Hr & Hcl)%Hm.
    assert (is_Some (clients s' !! id)) as [c' Hc'] by (apply elem_of_dom, Hdom, elem_of_dom; eauto).
    destruct (Hq _ _ Hc') as (c0 & Hc0 & Hr0 & Hcl0 & _). simplify_eq. exists c'. by rewrite Hr0, Hcl0.
  - intros id c' r Hc' Hr. destruct (Hq _ _ Hc') as (c & Hc & Hr' & _). rewrite Hr' in Hr. eapply asked_app, Ha; eauto.
  - intros id c' t r p Hc' Hin. destruct (Hq _ _ Hc') as (c & Hc & _ & _ & Hsent).
    apply asked_app. destruct (Hsent _ _ _ Hin); eauto.
Qed.

Lemma quiet_alter P s f id : (∀ c, subscribedRecipient (f c) = subscribedRecipient c) →
  (∀ c, c_closed (f c) = c_closed c) → (∀ c m, m ∈ c_sent (f c) → m ∈ c_sent c ∨ ∃ r' e, m = ErrorMessage e ∨ m = Snapshot e r') →
  quiet P s (with_clients (alter f id) s).
Proof.
  intros H1 H2 H3 id' c'. simpl. destruct (decide (id = id')) as [<-|Hne].
  - rewrite lookup_alter_eq. intros (c & Hc & ->)%fmap_Some. exists c. rewrite H1, H2. split_and!; [done..|].
    intros t r p [?|(? & ? & [[=]|[=]])]%H3. by left.
  - rewrite lookup_alter_ne by done. intros Hc. eauto 10.
Qed.
Lemma quiet_send_to P s ids m : (∀ t r p id, m = Event t r p → id ∈ ids → P id r) →
  quiet P s (with_clients (send_to ids m) s).
Proof.
  intros HP id c'. simpl. unfold send_to. rewrite map_lookup_imap.
  intros (c & Hc & [= <-])%bind_Some. exists c. split; [done|]. unfold send_open.
  destruct (bool_decide (id ∈ ids)) eqn:Hb; [|eauto 10]. apply bool_decide_eq_true in Hb.
  destruct (c_open c); [|eauto 10]. simpl. split_and!; [done..|].
  intros t r p [?|Heq%list_elem_of_singleton]%elem_of_app; [by left|]. right. by eapply HP.
Qed.
Lemma dom_send_to ids m s : dom (clients s) ⊆ dom (clients (with_clients (send_to ids m) s)).
Proof.
  intros id [c Hc]%elem_of_dom. apply elem_of_dom. simpl. unfold send_to. rewrite map_lookup_imap, Hc. eauto.
Qed.

Lemma alter_ok es es' s f id : server_ok es s →
  (∀ c, subscribedRecipient (f c) = subscribedRecipient c) → (∀ c, c_closed (f c) = c_closed c) →
  (∀ c m, m ∈ c_sent (f c) → m ∈ c_sent c ∨ ∃ r' e, m = ErrorMessage e ∨ m = Snapshot e r') →
  server_ok (es ++ es') (with_clients (alter f id) s).
Proof.
  intros Hok H1 H2 H3. eapply quiet_ok; [done|by apply quiet_alter|done|done|]. simpl. by rewrite dom_alter_L.
Qed.
Lemma send_to_ok es es' s ids m : server_ok es s →
  (∀ t r p id, m = Event t r p → id ∈ ids → asked es id r) → server_ok (es ++ es') (with_clients (send_to ids m) s).
Proof. intros Hok Hm. eapply quiet_ok; [done|by apply quiet_send_to|done|done|]. apply dom_send_to. Qed.
Lemma same_ok es es' s s' : server_ok es s → clients s' = clients s → subscriptions s' = subscriptions s →
  sets s' = sets s → server_ok (es ++ es') s'.
Proof.
  intros Hok Hc Hs Hset. eapply quiet_ok; [done| |done|done|by rewrite Hc].
  intros id c' Hc'. rewrite Hc in Hc'. eauto 10.
Qed.

Lemma subscriber_asked es s r id : server_ok es s → id ∈ subscribers s r → asked es id r.
Proof. intros Hok (c & Hc & Hr & _)%(so_members _ _ Hok). by eapply (so_asked _ _ Hok). Qed.

Lemma removeSubscription_server_ok es s r id : server_ok es s → server_ok es (removeSubscription r id s).
Proof.
  intros [Hh Hm Ha He]. destruct (removeSubscription_ok r id s Hh) as (Hh' & Hc & Hsub).
  split; rewrite ?Hc; [done| |done|done].
  intros r' id'. rewrite Hsub. destruct (decide _) as [<-|]; [|apply Hm]. intros [? _]%elem_of_difference. by apply Hm.
Qed.
Lemma unsubscribe_server_ok es s id c : server_ok es s → server_ok es (unsubscribe id c s).
Proof.
  intros Hok. unfold unsubscribe. destruct (subscribedRecipient c); [|done].
  destruct (truthy _); [by apply removeSubscription_server_ok|done].
Qed.

Lemma connection_server_ok es s id : server_ok es s → clients s !! id = None → server_ok es (on_connection id s).
Proof.
  intros [[Hs Hi Hn] Hm Ha He] Hid. split; [by split|..]; simpl.
  - intros r id' (c & Hc & Hr & Hcl)%Hm. exists c. rewrite lookup_insert_ne by congruence. done.
  - intros id' c r [[<- <-]|[_ Hc]]%lookup_insert_Some; [done|by apply Ha].
  - intros id' c t r p [[<- <-]|[_ Hc]]%lookup_insert_Some; [by intros ?%not_elem_of_nil|by apply He].
Qed.

Lemma subscribe_server_ok es s id c c0 r : server_ok es s → clients s !! id = Some c0 →
  subscribedRecipient c0 = subscribedRecipient c → c_closed c0 = false → truthy r = true → asked es id r →
  server_ok es (subscribe id c r s).
Proof.
  intros Hok Hc0 Hrec Hcl Hr Hasked. unfold subscribe.
  set (s1 := match subscribedRecipient c with Some old => _ | None => s end).
  assert (server_ok es s1 ∧ clients s1 = clients s ∧ ∀ r', id ∈ subscribers s1 r' → r' = r) as (Hok1 & Hc1 & Hmine).
  { assert (Hmem : ∀ r', id ∈ subscribers s r' → subscribedRecipient c = Some r').
    { intros r' (c1 & ? & ? & _)%(so_members _ _ Hok). simplify_eq. by rewrite <-Hrec. }
    unfold s1. destruct (subscribedRecipient c) as [old|]; [|split_and!; [done..|]; intros r' Hin; by apply Hmem in Hin].
    destruct (removeSubscription_ok old id s (so_heap _ _ Hok)) as (_ & Hcl1 & Hsub).
    destruct (truthy old && _) eqn:Hsw.
    - split_and!; [by apply removeSubscription_server_ok|done|]. intros r'. rewrite Hsub.
      destruct (decide (old = r')) as [<-|Hne]; [set_solver|]. intros Hin%Hmem. congruence.
    - split_and!; [done..|]. intros r' Hin. pose proof (Hmem _ Hin) as [= ->].
      apply andb_false_iff in Hsw as [Hsw|Hsw%bool_decide_eq_false]; [|by destruct (decide (r' = r))].
      apply subscribers_recipient in Hin as [l Hl]. apply (ho_name _ (so_heap _ _ Hok)) in Hl. congruence. }
  clearbody s1. destruct Hok1 as [Hh Hm Ha He].
  set (s2 := with_clients (alter (set_recipient r) id) s1).
  assert (Hh2 : heap_ok s2) by (destruct Hh; by split).
  destruct (addSubscription_ok r id s2 Hh2 Hr) as (Hh3 & Hc3 & Hsub3).
  assert (Hc2 : ∀ id' c', clients s2 !! id' = Some c' → ∃ c1, clients s1 !! id' = Some c1 ∧ c_sent c' = c_sent c1 ∧
    (id' = id ∧ subscribedRecipient c' = Some r ∨ id' ≠ id ∧ c' = c1)).
  { intros id' c'. simpl. destruct (decide (id = id')) as [<-|Hne].
    - rewrite lookup_alter_eq. intros (c1 & ? & ->)%fmap_Some. eauto 10.
    - rewrite lookup_alter_ne by done. eauto 10. }
  split.
  - by destruct Hh3; split.
  - intros r' id'. change (subscribers _ r') with (subscribers (addSubscription r id s2) r'). simpl. rewrite Hc3, Hsub3.
    simpl. intros Hin. destruct (decide (id = id')) as [<-|Hne].
    + rewrite lookup_alter_eq, Hc1, Hc0. exists (set_recipient r c0). split_and!; [done| |done].
      destruct (decide (r = r')) as [<-|Hrr]; [done|]. by rewrite (Hmine r' Hin).
    + rewrite lookup_alter_ne by done. apply Hm. destruct (decide (r = r')) as [<-|Hrr]; [set_solver|done].
  - simpl. rewrite Hc3. intros id' c' r' (c1 & H1 & _ & [[-> H2]|[Hne ->]])%Hc2 Hr'; [congruence|by eapply Ha].
  - simpl. rewrite Hc3. intros id' c' t r' p (c1 & H1 & H2 & _)%Hc2. rewrite H2. by apply He.
Qed.

Lemma close_server_ok es s id c : server_ok es s → clients s !! id = Some c → server_ok es (on_close id c s).
Proof.
  intros [Hh Hm Ha He] Hc. unfold on_close.
  set (s1 := with_clients (alter set_closed id) s).
  assert (Hh1 : heap_ok s1) by (destruct Hh; by split).
  assert (Hcl : ∀ id' c', clients s1 !! id' = Some c' → ∃ c1, clients s !! id' = Some c1 ∧
    c_sent c' = c_sent c1 ∧ subscribedRecipient c' = subscribedRecipient c1).
  { intros id' c'. simpl. destruct (decide (id = id')) as [<-|Hne].
    - rewrite lookup_alter_eq. intros (c1 & ? & ->)%fmap_Some. eauto.
    - rewrite lookup_alter_ne by done. eauto. }
  assert (heap_ok (unsubscribe id c s1) ∧ clients (unsubscribe id c s1) = clients s1 ∧
    ∀ r id', id' ∈ subscribers (unsubscribe id c s1) r → id' ∈ subscribers s r ∧ id' ≠ id) as (Hh2 & Hc2 & Hsub).
  { unfold unsubscribe. assert (Hmem : ∀ r, id ∈ subscribers s r → subscribedRecipient c = Some r).
    { intros r (c1 & ? & ? & _)%Hm. congruence. }
    destruct (subscribedRecipient c) as [r|]; [|split_and!; [done..|]; intros r id' Hin; split; [done|];
      intros ->; by apply Hmem in Hin].
    assert (Hnt : truthy r = false → ∀ r', id ∉ subscribers s r').
    { intros Ht r' Hin. pose proof (Hmem _ Hin) as [= ->]. apply subscribers_recipient in Hin as [l Hl].
      apply (ho_name _ Hh) in Hl. congruence. }
    destruct (truthy r); [|split_and!; [done..|]; intros r' id' Hin; split; [done|]; intros ->; by eapply Hnt].
    destruct (removeSubscription_ok r id s1 Hh1) as (Hh2 & Hc2 & Hsub). split_and!; [done..|].
    intros r' id'. rewrite Hsub. destruct (decide (r = r')) as [<-|Hne]; [set_solver|].
    intros Hin. split; [done|]. intros ->. apply Hmem in Hin. congruence. }
  split; [done|..]; rewrite ?Hc2.
  - intros r id' [Hin Hne]%Hsub. destruct (Hm _ _ Hin) as (c1 & H1 & H2 & H3). exists c1.
    simpl. by rewrite lookup_alter_ne.
  - intros id' c' r (c1 & H1 & _ & ->)%Hcl. by apply Ha.
  - intros id' c' t r p (c1 & H1 & -> & _)%Hcl. by apply He.
Qed.

Lemma sweep_server_ok es timeout s : server_ok es s → server_ok es (idle_sweep timeout s).
Proof.
  intros [Hh Hm Ha He]. destruct (idle_sweep_ok timeout s Hh) as (Hh' & _ & Hcl & Hsub).
  assert (Hback : ∀ id c', clients (idle_sweep timeout s) !! id = Some c' → ∃ c, clients s !! id = Some c ∧
    (c' = c ∨ c' = terminate c)).
  { intros id c' Hc'. specialize (Hcl id). destruct (clients s !! id) as [c|]; simpl in Hcl; [|congruence].
    exists c. destruct Hcl as [[_ Hcl]|[_ Hcl]]; rewrite Hcl in Hc'; simplify_eq; auto. }
  split; [done|..].
  - intros r id [(c & Hc & Hr & Hc0)%Hm _]%Hsub. specialize (Hcl id). rewrite Hc in Hcl.
    destruct Hcl as [[_ ->]|[_ ->]]; eauto.
  - intros id c' r (c & Hc & [-> | ->])%Hback; by apply (Ha _ _ _ Hc).
  - intros id c' t r p (c & Hc & [-> | ->])%Hback; by apply (He _ _ _ _ _ Hc).
Qed.

Lemma broadcastLedger_same n s : clients (broadcastLedger n s) = clients s ∧
  subscriptions (broadcastLedger n s) = subscriptions s ∧ sets (broadcastLedger n s) = sets s.
Proof.
  unfold broadcastLedger. generalize (map_to_list (subscriptions s)).*1. intros rs.
  revert s. induction rs as [|r rs IH]; intros s; [done|]. cbn [foldl].
  destruct (IH (broadcast_one n s r)) as (-> & -> & ->). unfold broadcast_one.
  destruct (subscriptions s !! r); [|done]. by destruct (decide _).
Qed.

Lemma on_message_ok es s id c m s' : server_ok es s → clients s !! id = Some c → c_closed c = false →
  on_message id c m s = Some s' → server_ok (es ++ [EMessage id m]) s'.
Proof.
  intros Hok Hc Hcl. unfold on_message.
  set (s1 := with_clients (alter (touch (clock s)) id) s).
  assert (Hok1 : server_ok (es ++ [EMessage id m]) s1) by (by apply alter_ok; auto).
  assert (Hreply : ∀ text, server_ok (es ++ [EMessage id m]) (reply id (ErrorMessage text) s1)).
  { intros text. rewrite <-(app_nil_r (es ++ _)). apply alter_ok; [done..|].
    intros c' m'. simpl. intros [?| ->%list_elem_of_singleton]%elem_of_app; [by left|right]. exists None, text. by left. }
  assert (Hc1 : clients s1 !! id = Some (touch (clock s) c)) by (simpl; by rewrite lookup_alter_eq, Hc).
  destruct m as [| |type rec]; [intros [= <-]; by apply Hreply|done|].
  destruct (negb _ && negb _) eqn:Hproto; [intros [= <-]; by apply Hreply|].
  destruct rec as [|r| |]; try (intros [= <-]; by apply Hreply).
  destruct (truthy r) eqn:Hr; intros [= <-]; [|by apply Hreply].
  apply (subscribe_server_ok _ _ _ _ (touch (clock s) c)); try done.
  exists (Value type (Str r)). split; [apply elem_of_app; right; apply list_elem_of_here|].
  unfold asks. rewrite Hr. by destruct (isNewProtocol type), (isLegacyProtocol type (Str r)).
Qed.

Lemma server_ok_app es es' s : server_ok es s → server_ok (es ++ es') s.
Proof. intros Hok. by eapply same_ok. Qed.

Lemma settle_ok es es' s t r : server_ok es s → server_ok (es ++ es') (settle t r s).
Proof.
  intros Hok. destruct t as [id rec|rec l n], r as [claimable|e]; simpl; [|by apply server_ok_app|by apply send_to_ok..].
  apply alter_ok; [done|..]; intros c; unfold send_open; destruct (c_open c); try done; [|by left].
  intros m [?| ->%list_elem_of_singleton]%elem_of_app; [by left|right]. exists None, claimable. by right.
Qed.

Lemma handle_ok timeout es e s s' : server_ok es s → handle timeout e s = Some s' → server_ok (es ++ [e]) s'.
Proof.
  intros Hok. destruct e as [id|id m|id|id|id|t r p|n|i r| |t]; simpl.
  - destruct (decide _); [|done]. intros [= <-]. by apply connection_server_ok; [apply server_ok_app|].
  - intros (c & Hc & H)%bind_Some. destruct (c_closed c) eqn:Hcl; [done|]. by eapply on_message_ok.
  - intros (c & Hc & [= <-])%bind_Some. by apply alter_ok; auto.
  - intros (c & Hc & [= <-])%bind_Some. by apply close_server_ok; [apply server_ok_app|].
  - intros (c & Hc & [= <-])%bind_Some. by apply unsubscribe_server_ok, server_ok_app.
  - intros [= <-]. unfold publishEvent. destruct (subscriptions s !! r) as [l|] eqn:Hl; [|by apply server_ok_app].
    apply send_to_ok; [done|]. intros t0 r0 p0 id [= <- <- <-] Hin. apply (subscriber_asked _ s); [done|].
    by rewrite (subscribers_listed _ _ _ Hl).
  - intros [= <-]. destruct (broadcastLedger_same n s) as (? & ? & ?). by eapply same_ok.
  - intros (t & _ & [= <-])%bind_Some. apply settle_ok. by destruct Hok as [[] ? ? ?].
  - intros [= <-]. by apply sweep_server_ok, server_ok_app.
  - destruct (_ <=? _); [|done]. intros [= <-]. by eapply same_ok.
Qed.

Lemma run_ok timeout es : ∀ es0 s s', server_ok es0 s → run timeout es s = Some s' → server_ok (es0 ++ es) s'.
Proof.
  induction es as [|e es IH]; simpl; intros es0 s s' Hok.
  - intros [= <-]. by rewrite app_nil_r.
  - intros (s1 & H1 & H2)%bind_Some. replace (es0 ++ e :: es) with ((es0 ++ [e]) ++ es) by by rewrite <-app_assoc.
    eapply IH; [|done]. by eapply handle_ok.
Qed.
Lemma init_server_ok : server_ok [] init_server.
Proof. by split; [split|..]. Qed.

(** ** Lines across chunks *)

(** Cutting a text in two only joins the last line of the first part with the
    second part. *)
Lemma split_chars_app_last sep l r :
  split_chars sep (l ++ r) = take (length (split_chars sep l) - 1) (split_chars sep l) ++
    split_chars sep (default [] (last (split_chars sep l)) ++ r) ∧
  sep ∉ default [] (last (split_chars sep l)).
Proof.
  induction l as [|c l [IH1 IH2]]; simpl; [split; [done|set_solver]|].
  destruct (split_chars sep l) as [|w ws] eqn:Hw.
  { destruct l as [|b l]; simpl in Hw; [done|]. destruct (decide _); [done|]. by destruct (split_chars sep l). }
  rewrite IH1. destruct (decide (c = sep)) as [->|Hne].
  - split; [|done]. cbn [length]. by rewrite !Nat.sub_succ, !Nat.sub_0_r.
  - destruct ws as [|w' ws]; [|by split].
    split; [|set_solver]. simpl. rewrite decide_False by done. by destruct (split_chars sep (w ++ r)).
Qed.

Lemma size_list_to_set_le (l : list string) : (size (list_to_set l : gset string) ≤ length l)%nat.
Proof.
  induction l as [|x l IH]; [done|]. simpl. destruct (decide (x ∈ (list_to_set l : gset string))).
  - replace ({[x]} ∪ list_to_set l : gset string) with (list_to_set l : gset string) by set_solver. lia.
  - rewrite size_union, size_singleton by set_solver. lia.
Qed.

(** ** Theorems *)

(** C28. Whatever clients connect, send, switch and disconnect, and whenever the
    sweep, publications and snapshots happen: a connection is listed under at
    most one recipient, the one it asked for last, and is still there; no
    recipient is listed without subscribers; and there are never more
    recipients listed than live connections. *)
Theorem subscription_registry_exact timeout es s : run timeout es init_server = Some s →
  (∀ r id, id ∈ subscribers s r → ∃ c, clients s !! id = Some c ∧ subscribedRecipient c = Some r ∧
    c_closed c = false ∧ asked es id r) ∧
  (∀ r, is_Some (subscriptions s !! r) → subscribers s r ≠ ∅) ∧
  (size (subscriptions s) ≤ length (filter (λ ic, c_closed ic.2 = false) (map_to_list (clients s))))%nat.
Proof.
  intros Hrun. pose proof (run_ok timeout es [] _ _ init_server_ok Hrun) as Hok. simpl in Hok.
  assert (Hmem : ∀ r id, id ∈ subscribers s r → ∃ c, clients s !! id = Some c ∧ subscribedRecipient c = Some r ∧
    c_closed c = false ∧ asked es id r).
  { intros r id (c & ? & ? & ?)%(so_members _ _ Hok). exists c. split_and!; [done..|]. by eapply (so_asked _ _ Hok). }
  assert (Hne : ∀ r, is_Some (subscriptions s !! r) → subscribers s r ≠ ∅).
  { intros r [l Hl]. rewrite (subscribers_listed _ _ _ Hl). unfold members.
    by destruct (ho_set _ (so_heap _ _ Hok) _ _ Hl) as (ids & -> & ?). }
  split_and!; [done..|].
  set (live := filter (λ ic : nat * client, c_closed ic.2 = false) (map_to_list (clients s))).
  trans (length (omap (λ ic : nat * client, subscribedRecipient ic.2) live)).
  - rewrite <-size_dom. trans (size (list_to_set (omap (λ ic : nat * client, subscribedRecipient ic.2) live) : gset string)).
    + apply subseteq_size. intros r Hr%elem_of_dom. pose proof (Hne _ Hr) as [id Hid]%set_choose_L.
      destruct (Hmem _ _ Hid) as (c & Hc & Hrec & Hcl & _). apply elem_of_list_to_set, list_elem_of_omap.
      exists (id, c). split; [|done]. apply list_elem_of_filter. by rewrite elem_of_map_to_list.
    + apply size_list_to_set_le.
  - clearbody live. clear. induction live as [|[id c] live IH]; simpl; [done|]. destruct (subscribedRecipient c); simpl; unfold omap in IH; lia.
Qed.

(** An event published for a recipient is sent once to every open socket
    that is subscribed to the recipient at that moment, and nothing else is
    changed; and over any run a client is only ever sent events of recipients
    it asked for. *)
Theorem events_reach_subscribers timeout es s t r p : run timeout es init_server = Some s →
  (∀ id, clients (publishEvent t r p s) !! id =
    (λ c, if bool_decide (id ∈ subscribers s r) && c_open c then send (Event t r p) c else c) <$> clients s !! id) ∧
  (∀ id c t r p, clients s !! id = Some c → Event t r p ∈ c_sent c → asked es id r).
Proof.
  intros Hrun. pose proof (run_ok timeout es [] _ _ init_server_ok Hrun) as Hok. simpl in Hok.
  split; [|apply Hok]. intros id. unfold publishEvent, subscribers.
  destruct (subscriptions s !! r) as [l|]; simpl.
  - unfold send_to. rewrite map_lookup_imap. unfold send_open.
    destruct (clients s !! id) as [c|]; [|done]. simpl. by destruct (bool_decide _), (c_open c).
  - rewrite bool_decide_false by set_solver. simpl. by destruct (clients s !! id).
Qed.

(** One sweep terminates exactly the subscribed connections that have been
    silent for longer than the timeout, takes them out of the registry, and
    leaves every other connection as it was; in particular a connection that
    never subscribed is not touched however long it is silent. *)
Theorem idle_sweep_spec timeout es s : run (Some timeout) es init_server = Some s →
  let s' := idle_sweep (Some timeout) s in
  (∀ id c, clients s !! id = Some c →
    (timeout < clock s - lastActivityAt c ∧ (∃ r, id ∈ subscribers s r) ∧ clients s' !! id = Some (terminate c)) ∨
    ((clock s - lastActivityAt c <= timeout ∨ ∀ r, id ∉ subscribers s r) ∧ clients s' !! id = Some c)) ∧
  (∀ r id, id ∈ subscribers s' r ↔
    id ∈ subscribers s r ∧ ∃ c, clients s !! id = Some c ∧ clock s - lastActivityAt c <= timeout).
Proof.
  intros Hrun s'. pose proof (run_ok _ es [] _ _ init_server_ok Hrun) as Hok. simpl in Hok.
  destruct (idle_sweep_ok (Some timeout) s (so_heap _ _ Hok)) as (_ & _ & Hcl & Hsub).
  split.
  - intros id c Hc. specialize (Hcl id). rewrite Hc in Hcl. simpl in Hcl.
    destruct (Z.ltb_spec timeout (clock s - lastActivityAt c)); simpl in Hcl.
    + destruct Hcl as [[(_ & r & _ & Hr) ?]|[Hn ?]]; [left; eauto|right]. split; [right|done].
      intros r Hr. apply Hn. split; [done|]. exists r. split; [|done].
      by eapply elem_of_recipients, subscribers_recipient.
    + right. split; [by left|]. by destruct Hcl as [[[? _] _]|[_ ?]].
  - intros r id. unfold s'. rewrite Hsub. split; intros [Hin Hi]; (split; [done|]).
    + destruct (so_members _ _ Hok _ _ Hin) as (c & Hc & _). exists c. split; [done|].
      destruct (Z.ltb_spec timeout (clock s - lastActivityAt c)); [|done].
      destruct Hi. exists c. split; [done|]. simpl. by apply Z.ltb_lt.
    + destruct Hi as (c & Hc & Hle). intros (c' & Hc' & Hid). simplify_eq. simpl in Hid. lia.
Qed.

(** The text [null] is valid JSON, and reading a property of it throws in
    an event handler that nobody guards: it is the one message of a client that
    the server does not survive. *)
Theorem null_message_crashes timeout s id c m : clients s !! id = Some c → c_closed c = false →
  handle timeout (EMessage id m) s = None ↔ m = Null.
Proof.
  intros Hc Hcl. simpl. rewrite Hc. simpl. rewrite Hcl. unfold on_message.
  destruct m as [| |type rec]; [naive_solver..|]. split; [|done].
  destruct (negb _ && _); [done|]. destruct rec as [|r| |]; try done. by destruct (truthy r).
Qed.

(** The lines read from Horizon's event stream do not depend on how the
    network cuts it into chunks: the complete lines of all chunks, with the
    rest that is still in the buffer, are the lines of the whole text. *)
Theorem sse_lines_chunking buf chunks : ("010"%char : ascii) ∉ buf →
  concat (sse_run buf chunks).1 ++ [(sse_run buf chunks).2] = split_chars "010" (buf ++ concat chunks).
Proof.
  revert buf. induction chunks as [|c chunks IH]; intros buf Hbuf; simpl.
  - by rewrite app_nil_r, split_chars_last.
  - destruct (split_chars_app_last "010" (buf ++ c) (concat chunks)) as [Heq Hlast].
    specialize (IH _ Hlast). destruct (sse_run _ chunks) as [lines rest] eqn:Hrun. simpl in *.
    by rewrite <-app_assoc, IH, <-Heq, <-app_assoc.
Qed.

Definition subscribe_msg (r : string) : received := Value (Str "subscribe") (Str r).

(** A client that switches from one recipient to another can still be sent
    the first recipient's snapshot afterwards; snapshots do not name their
    recipient, so it is taken for the second one's. *)
Theorem stale_snapshot timeout claimable : ∃ s c,
  run timeout [EConnect 0; EMessage 0 (subscribe_msg "GA"); EMessage 0 (subscribe_msg "GB");
               EPublish tokens_claimed "GB" "p"; ESettle 0 (Ok claimable)] init_server = Some s ∧
  clients s !! 0%nat = Some c ∧ subscribedRecipient c = Some "GB" ∧
  c_sent c = [Event tokens_claimed "GB" "p"; Snapshot claimable None].
Proof. eexists _, _. split; [vm_compute; reflexivity|]. split; [vm_compute; reflexivity|]. done. Qed.

(** ** Witnesses *)

Definition demo_events : list event :=
  [EConnect 0; EConnect 1; EMessage 0 (subscribe_msg "GA"); EMessage 1 (subscribe_msg "GA");
   ETime 200000; EMessage 1 (subscribe_msg "GB"); EPublish stream_created "GA" "{}"; ELedger 7; EClosing 1; ETime 400000].
Definition demo_server : server := default init_server (run (Some 300000) demo_events init_server).
Lemma demo_run_ok : run (Some 300000) demo_events init_server = Some demo_server.
Proof. vm_compute. reflexivity. Qed.

Lemma subscription_registry_exact_witness :
  (size (subscriptions demo_server) ≤ length (filter (λ ic, c_closed ic.2 = false) (map_to_list (clients demo_server))))%nat ∧
  subscribers demo_server "GB" = {[1%nat]}.
Proof.
  split; [|vm_compute; reflexivity].
  destruct (subscription_registry_exact (Some 300000) demo_events demo_server) as (_ & _ & H); [exact demo_run_ok|exact H].
Defined.

Lemma events_reach_subscribers_witness :
  clients (publishEvent stream_drained "GA" "{}" demo_server) !! 0%nat =
    Some (Client 0 (Some "GA") true false [Event stream_created "GA" "{}"; Event stream_drained "GA" "{}"]).
Proof.
  destruct (events_reach_subscribers (Some 300000) demo_events demo_server stream_drained "GA" "{}") as [H _];
    [exact demo_run_ok|]. rewrite (H 0%nat). vm_compute. reflexivity.
Defined.

Lemma idle_sweep_spec_witness :
  clients (idle_sweep (Some 300000) demo_server) !! 0%nat =
    Some (Client 0 (Some "GA") false false [Event stream_created "GA" "{}"]).
Proof.
  destruct (idle_sweep_spec 300000 demo_events demo_server demo_run_ok) as [H _].
  destruct (H 0%nat (Client 0 (Some "GA") true false [Event stream_created "GA" "{}"])) as [(_ & _ & H0)|[[H0|H0] _]].
  - vm_compute. reflexivity.
  - exact H0.
  - exfalso. vm_compute in H0. by apply H0.
  - exfalso. apply (H0 "GA"). assert (subscribers demo_server "GA" = {[0%nat]}) as -> by (vm_compute; reflexivity).
    by apply elem_of_singleton.
Defined.

Lemma null_message_crashes_witness : handle (Some 300000) (EMessage 0 Null) demo_server = None.
Proof.
  apply (null_message_crashes (Some 300000) demo_server 0
    (Client 0 (Some "GA") true false [Event stream_created "GA" "{}"]) Null); vm_compute; reflexivity.
Defined.

Definition demo_chunks : list (list ascii) := [chars "data: 1"; "010"%char :: chars "da"; chars "ta: 2"].
Lemma sse_lines_chunking_witness :
  concat (sse_run [] demo_chunks).1 ++ [(sse_run [] demo_chunks).2] = [chars "data: 1"; chars "data: 2"].
Proof. rewrite (sse_lines_chunking [] demo_chunks (not_elem_of_nil _)). vm_compute. reflexivity. Defined.
