(* ===== verification/Validation.v ===== *)
(** * Request validation

    [backend/src/validation.ts] and [middleware/validate.ts].  The schemas are
    data, as in the source, without their message texts.  [accepts] is the
    documented meaning of the [zod] constructors the file uses: the value a
    schema returns for an input it accepts.  The middleware takes [safeParse]
    as a parameter; [documented] says that it agrees with [accepts] and reports
    at least one issue otherwise. *)
From Stdlib Require Import QArith Qround.
From stdpp Require Import list.
From S2P Require Import Prelude.
#[local] Open Scope Z_scope.

(** ** Values *)

Inductive json :=
| JUndefined
| JNull
| JBool (b : bool)
| JNumber (q : Q)
| JString (s : string)
| JArray (l : list json)
| JObject (fields : list (string * json)).

(** A missing property reads as [undefined]. *)
Definition field (k : string) (fields : list (string * json)) : json :=
  match list_find (λ kv : string * json, kv.1 = k) fields with
  | Some (_, (_, v)) => v
  | None => JUndefined
  end.

Definition is_integer (q : Q) : bool := bool_decide (Z.modulo (Qnum q) (Zpos (Qden q)) = 0).

(** The length of a string in UTF-16 code units, from its UTF-8 bytes. *)
Definition js_length (s : string) : Z :=
  foldr (λ c n, (if in_range 128 191 c then 0 else if 240 <=? code c then 2 else 1) + n) 0 (chars s).

(** ** Schemas *)

Inductive str_check :=
| Regex (re : string → bool) | MinLength (n : Z) | MaxLength (n : Z) | StartsWith (p : string)
| Url | ValidDate.
Inductive num_check := IsInt | Min (n : Z) | Max (n : Z) | Positive.

Inductive schema :=
| SString (checks : list str_check)
| SNumber (checks : list num_check)
| SEnum (values : list string)
| SArray (items : schema) (min : nat)
| SOptional (s : schema)
| SDefault (d : json) (s : schema)
| SPipeNumber (s : schema) (checks : list num_check)        (* s.pipe(z.coerce.number()...) *)
| SObject (fields : list (string * schema))
| SRefine (s : schema) (p : list (string * json) → bool).   (* .refine / .superRefine of an object *)

Section meaning.
(** [new URL(s)] does not throw; [new Date(s)] is valid; [Number(s)], [None]
    being [NaN]. *)
Context (valid_url valid_date : string → bool) (Number : string → option Q).

Definition str_ok (c : str_check) (s : string) : bool :=
  match c with
  | Regex re => re s
  | MinLength n => n <=? js_length s
  | MaxLength n => js_length s <=? n
  | StartsWith p => starts_with p s
  | Url => valid_url s
  | ValidDate => valid_date s
  end.
Definition num_ok (q : Q) (c : num_check) : bool :=
  match c with
  | IsInt => is_integer q
  | Min n => Qle_bool (inject_Z n) q
  | Max n => Qle_bool q (inject_Z n)
  | Positive => negb (Qle_bool q 0)
  end.

(** [z.coerce.number()] on the outcome of the schema before it. *)
Definition coerce_number (v : json) : option Q :=
  match v with JString s => Number s | JNumber q => Some q | _ => None end.

Fixpoint accepts (s : schema) (v : json) : option json :=
  match s with
  | SString checks =>
      match v with
      | JString t => if forallb (λ c, str_ok c t) checks then Some v else None
      | _ => None
      end
  | SNumber checks =>
      match v with
      | JNumber q => if forallb (num_ok q) checks then Some v else None
      | _ => None
      end
  | SEnum values => match v with JString t => if bool_decide (t ∈ values) then Some v else None | _ => None end
  | SArray items min =>
      match v with
      | JArray l =>
          if bool_decide (min ≤ length l)%nat then JArray <$> mapM (accepts items) l else None
      | _ => None
      end
  | SOptional s => match v with JUndefined => Some JUndefined | _ => accepts s v end
  | SDefault d s => match v with JUndefined => accepts s d | _ => accepts s v end
  | SPipeNumber s checks =>
      v' ← accepts s v; q ← coerce_number v';
      if forallb (num_ok q) checks then Some (JNumber q) else None
  | SObject fields =>
      match v with
      | JObject kvs =>
          JObject <$> (fix go (fs : list (string * schema)) : option (list (string * json)) :=
            match fs with
            | [] => Some []
            | (k, s) :: fs => v' ← accepts s (field k kvs); rest ← go fs; Some ((k, v') :: rest)
            end) fields
      | _ => None
      end
  | SRefine s p =>
      v' ← accepts s v;
      match v' with JObject kvs => if p kvs then Some v' else None | _ => None end
  end.

(** The fields of an accepted object, one after the other. *)
Fixpoint accepts_fields (kvs : list (string * json)) (fs : list (string * schema)) : option (list (string * json)) :=
  match fs with
  | [] => Some []
  | (k, s) :: fs => v' ← accepts s (field k kvs); rest ← accepts_fields kvs fs; Some ((k, v') :: rest)
  end.
Lemma accepts_SObject fs kvs : accepts (SObject fs) (JObject kvs) = JObject <$> accepts_fields kvs fs.
Proof.
  simpl. f_equal. induction fs as [|[k s] fs IH]; [done|]. simpl.
  destruct (accepts s (field k kvs)); [|done]. simpl. by rewrite IH.
Qed.
End meaning.

(** ** The schemas of the application *)

Definition StellarAddressSchema : schema := SString [Regex stellar_address_re].
Definition SorobanContractAddressSchema : schema := SString [Regex contract_address_re].
Definition RecipientParamsSchema : schema := SObject [("recipient", StellarAddressSchema)].
Definition SponsorParamsSchema : schema := SObject [("sponsor", StellarAddressSchema)].
Definition AddressParamsSchema : schema := SObject [("address", StellarAddressSchema)].
Definition AcknowledgmentRecipientParamsSchema : schema := SObject [("recipient", StellarAddressSchema)].
Definition CreateAcknowledgmentSchema : schema :=
  SObject [("sponsor", StellarAddressSchema);
           ("token", SString [MinLength 1; MaxLength 56]);
           ("action", SEnum ["acknowledge"; "skip"]);
           ("signedMessage", SOptional (SString [MinLength 1; MaxLength 4096]))].

Definition page_schema : schema := SPipeNumber (SDefault (JString "1") (SOptional (SString []))) [IsInt; Min 1].
Definition limit_schema (d : string) : schema :=
  SPipeNumber (SDefault (JString d) (SOptional (SString []))) [IsInt; Min 1; Max 100].
Definition PaginationQuerySchema : schema :=
  SObject [("page", page_schema); ("limit", limit_schema "25"); ("cursor", SOptional (SString []))].
Definition SponsorStreamsQuerySchema : schema :=
  SObject [("sponsor", StellarAddressSchema);
           ("status", SDefault (JString "all") (SOptional (SEnum ["active"; "cancelled"; "expired"; "drained"; "all"])));
           ("sort", SDefault (JString "created_at") (SOptional (SEnum ["created_at"; "end_ledger"])));
           ("page", page_schema); ("limit", limit_schema "20"); ("cursor", SOptional (SString []))].
Definition EventsQuerySchema : schema := PaginationQuerySchema.

Definition STREAM_STATUSES : list string := ["active"; "pre_cliff"; "expired"; "cancelled"].
Definition SORT_VALUES : list string :=
  ["cliff_asc"; "cliff_desc"; "end_asc"; "end_desc"; "claimable_asc"; "claimable_desc"; "recipient_asc"; "recipient_desc"].
Definition SchedulesQuerySchema : schema :=
  SObject [("sponsor", StellarAddressSchema);
           ("status", SOptional (SEnum STREAM_STATUSES));
           ("sort", SDefault (JString "cliff_asc") (SOptional (SEnum SORT_VALUES)));
           ("page", page_schema); ("limit", limit_schema "25"); ("cursor", SOptional (SString []))].

Definition number_of (v : json) : Q := match v with JNumber q => q | _ => 0%Q end.
Definition text_of_json (v : json) : string := match v with JString s => s | _ => "" end.
(** The two checks of [superRefine]. *)
Definition create_stream_refinement (data : list (string * json)) : bool :=
  negb (Qle_bool (number_of (field "total_duration" data)) (number_of (field "cliff_duration" data))) &&
  negb (bool_decide (text_of_json (field "sponsor" data) = text_of_json (field "recipient" data))).
Definition CreateStreamBodySchema : schema :=
  SRefine
    (SObject [("sponsor", StellarAddressSchema); ("recipient", StellarAddressSchema);
              ("token", SorobanContractAddressSchema);
              ("rate", SNumber [IsInt; Positive]);
              ("cliff_duration", SNumber [IsInt; Min 0]);
              ("total_duration", SNumber [IsInt; Positive])])
    create_stream_refinement.

Definition ExportQuerySchema : schema :=
  SObject [("format", SDefault (JString "json") (SOptional (SEnum ["csv"; "json"])));
           ("from", SOptional (SString [ValidDate])); ("to", SOptional (SString [ValidDate]))].
Definition SUPPORTED_WEBHOOK_EVENTS : list string :=
  ["tokens_claimed"; "stream_cancelled"; "stream_created"; "stream_drained"; "stream_clawed_back"].
Definition WebhookBodySchema : schema :=
  SObject [("url", SString [Url; StartsWith "https://"]);
           ("events", SArray (SEnum SUPPORTED_WEBHOOK_EVENTS) 1);
           ("secret", SOptional (SString [MinLength 8]))].
Definition WebhookHeaderSchema : schema := SObject [("x-sponsor-id", StellarAddressSchema)].

Definition LedgerNumberSchema : schema := SPipeNumber (SString []) [IsInt; Positive].
Definition ledger_order (data : list (string * json)) : bool :=
  match field "since_ledger" data, field "until_ledger" data with
  | JNumber a, JNumber b => Qle_bool a b
  | _, _ => true
  end.
Definition LedgerQuerySchema : schema :=
  SRefine (SObject [("since_ledger", SOptional LedgerNumberSchema); ("until_ledger", SOptional LedgerNumberSchema)])
    ledger_order.
Definition STREAM_STATUS_VALUES : list string := ["active"; "pre_cliff"; "expired"; "cancelled"; "drained"].
Definition StreamStatusSchema : schema := SEnum STREAM_STATUS_VALUES.
Definition BuildClaimTxBodySchema : schema :=
  SObject [("fee_stroops", SOptional (SNumber [IsInt; Positive; Max 100000000]))].
Definition AnalyticsSponsorQuerySchema : schema := SObject [("sponsor", StellarAddressSchema)].

(** ** The middleware *)

Record issue := Issue { path : list string; issue_message : string }.
Record FieldError := mkFieldError { fe_field : string; fe_message : string }.
Record targets := Targets {
  t_params : option schema; t_query : option schema; t_body : option schema; t_headers : option schema }.
Record request := Request { params : json; query : json; body : json; headers : json }.

Fixpoint join (sep : string) (l : list string) : string :=
  match l with
  | [] => ""
  | [x] => x
  | x :: l => x +:+ sep +:+ join sep l
  end.
Definition flattenZodError (issues : list issue) : list FieldError :=
  (λ i, mkFieldError (if decide (path i = []) then "_root" else join "." (path i)) (issue_message i)) <$> issues.

Section middleware.
Context (valid_url valid_date : string → bool) (Number : string → option Q)
  (safeParse : schema → json → result (list issue) json).

(** What [safeParse] documents. *)
Definition documented : Prop := ∀ s v,
  match safeParse s v with
  | Ok v' => accepts valid_url valid_date Number s v = Some v'
  | Err issues => accepts valid_url valid_date Number s v = None ∧ issues ≠ []
  end.

(** One target: the value to write back, and the errors to push. *)
Definition parse_target (t : option schema) (v : json) : json * list FieldError :=
  match t with
  | None => (v, [])
  | Some s => match safeParse s v with
              | Ok v' => (v', [])
              | Err issues => (v, flattenZodError issues)
              end
  end.

Inductive outcome := Next (req : request) | BadRequest (fields : list FieldError).

(** Headers are checked and not written back. *)
Definition validate (t : targets) (req : request) : outcome :=
  let '(p, e1) := parse_target (t_params t) (params req) in
  let '(q, e2) := parse_target (t_query t) (query req) in
  let '(b, e3) := parse_target (t_body t) (body req) in
  let '(_, e4) := parse_target (t_headers t) (headers req) in
  let fieldErrors := e1 ++ e2 ++ e3 ++ e4 in
  if decide (fieldErrors = []) then Next (Request p q b (headers req)) else BadRequest fieldErrors.

(** [validateAddress]: [None] when it throws. *)
Definition validateAddress (value : string) : option string :=
  match safeParse StellarAddressSchema (JString value) with
  | Ok (JString s) => Some (trim s)
  | _ => None
  end.
End middleware.

(** ** Lemmas *)

Definition integer_of (q : Q) : Z := Qnum q / Zpos (Qden q).

Lemma is_integer_spec q : is_integer q = true ↔ (q == inject_Z (integer_of q))%Q.
Proof.
  unfold is_integer, integer_of, Qeq, inject_Z. cbn [Qnum Qden]. rewrite bool_decide_eq_true, Z.mul_1_r. split; intros H.
  - rewrite (Z.div_mod (Qnum q) (Zpos (Qden q))) at 1 by done. rewrite H. ring.
  - rewrite H. apply Z_mod_mult.
Qed.
Lemma Qle_bool_integer n q : is_integer q = true → Qle_bool (inject_Z n) q = (n <=? integer_of q).
Proof.
  intros Hi%is_integer_spec. revert Hi. generalize (integer_of q). intros z Hi.
  apply eq_true_iff_eq. by rewrite Qle_bool_iff, Z.leb_le, Hi, <-Zle_Qle.
Qed.
Lemma Qle_integer_bool n q : is_integer q = true → Qle_bool q (inject_Z n) = (integer_of q <=? n).
Proof.
  intros Hi%is_integer_spec. revert Hi. generalize (integer_of q). intros z Hi.
  apply eq_true_iff_eq. by rewrite Qle_bool_iff, Z.leb_le, Hi, <-Zle_Qle.
Qed.

(** The number checks of the schemas, on the integer they demand. *)
Lemma num_checks_min q n : forallb (num_ok q) [IsInt; Min n] = true ↔ is_integer q = true ∧ n <= integer_of q.
Proof.
  simpl. destruct (is_integer q) eqn:Hi; simpl; [|naive_solver]. rewrite andb_true_r, Qle_bool_integer by done.
  rewrite Z.leb_le. naive_solver.
Qed.
Lemma num_checks_range q n m :
  forallb (num_ok q) [IsInt; Min n; Max m] = true ↔ is_integer q = true ∧ n <= integer_of q <= m.
Proof.
  simpl. destruct (is_integer q) eqn:Hi; simpl; [|naive_solver].
  rewrite andb_true_r, Qle_bool_integer, Qle_integer_bool by done. rewrite andb_true_iff, !Z.leb_le. naive_solver.
Qed.
Lemma num_checks_positive q : forallb (num_ok q) [IsInt; Positive] = true ↔ is_integer q = true ∧ 0 < integer_of q.
Proof.
  simpl. destruct (is_integer q) eqn:Hi; simpl; [|naive_solver].
  rewrite andb_true_r. change 0%Q with (inject_Z 0). rewrite Qle_integer_bool by done.
  rewrite negb_true_iff, Z.leb_gt. naive_solver.
Qed.

(** One case of a characterisation of [accepts]. *)
Ltac accept_case :=
  split; [intros; simplify_eq/=; eauto 10|
          intros Hex; repeat match goal with
          | H : ∃ _, _ |- _ => destruct H
          | H : _ ∧ _ |- _ => destruct H
          | H : _ ∨ _ |- _ => destruct H
          end; simplify_eq/=; try done; try congruence].

Section schemas.
Context (valid_url valid_date : string → bool) (Number : string → option Q).
Abbreviation accepts := (accepts valid_url valid_date Number).

Lemma accepts_StellarAddress v v' : accepts StellarAddressSchema v = Some v' ↔
  ∃ a, v = JString a ∧ v' = JString a ∧ stellar_address_re a = true.
Proof.
  destruct v as [| | | |a| |]; simpl; try by accept_case. rewrite andb_true_r.
  destruct (stellar_address_re a) eqn:Ha; accept_case.
Qed.
Lemma accepts_ContractAddress v v' : accepts SorobanContractAddressSchema v = Some v' ↔
  ∃ a, v = JString a ∧ v' = JString a ∧ contract_address_re a = true.
Proof.
  destruct v as [| | | |a| |]; simpl; try by accept_case. rewrite andb_true_r.
  destruct (contract_address_re a) eqn:Ha; accept_case.
Qed.
Lemma accepts_number checks v v' : accepts (SNumber checks) v = Some v' ↔
  ∃ q, v = JNumber q ∧ v' = JNumber q ∧ forallb (num_ok q) checks = true.
Proof. destruct v as [| | |q| | |]; simpl; try by accept_case. destruct (forallb _ _) eqn:H; accept_case. Qed.
(** A query parameter with a default text that is coerced to a number. *)
Lemma accepts_coerced d checks v v' :
  accepts (SPipeNumber (SDefault (JString d) (SOptional (SString []))) checks) v = Some v' ↔
  ∃ t q, (v = JUndefined ∧ t = d ∨ v = JString t) ∧ Number t = Some q ∧ v' = JNumber q ∧ forallb (num_ok q) checks = true.
Proof.
  destruct v as [| | | |t| |]; simpl; try by accept_case.
  - destruct (Number d) as [q|] eqn:Hn; simpl; [|accept_case]. destruct (forallb _ _) eqn:H; accept_case.
  - destruct (Number t) as [q|] eqn:Hn; simpl; [|accept_case]. destruct (forallb _ _) eqn:H; accept_case.
Qed.
Lemma accepts_enum values v v' : accepts (SEnum values) v = Some v' ↔
  ∃ t, v = JString t ∧ v' = JString t ∧ t ∈ values.
Proof. destruct v as [| | | |t| |]; simpl; try by accept_case. case_bool_decide; accept_case. Qed.
Lemma accepts_fields_cons kvs k s fs l :
  accepts_fields valid_url valid_date Number kvs ((k, s) :: fs) = Some l ↔
  ∃ v' rest, accepts s (field k kvs) = Some v' ∧ accepts_fields valid_url valid_date Number kvs fs = Some rest ∧ l = (k, v') :: rest.
Proof.
  simpl. destruct (accepts s (field k kvs)) as [v'|]; simpl; [|accept_case].
  destruct (accepts_fields _ _ _ kvs fs); accept_case.
Qed.
Lemma accepts_fields_nil kvs l : accepts_fields valid_url valid_date Number kvs [] = Some l ↔ l = [].
Proof. simpl. accept_case. Qed.
Lemma accepts_object fs v v' : accepts (SObject fs) v = Some v' ↔
  ∃ kvs l, v = JObject kvs ∧ accepts_fields valid_url valid_date Number kvs fs = Some l ∧ v' = JObject l.
Proof.
  destruct v as [| | | | | |kvs]; try (simpl; by accept_case). rewrite accepts_SObject.
  destruct (accepts_fields _ _ _ kvs fs) eqn:Hf; simpl; accept_case.
Qed.
Lemma accepts_optional s v v' : accepts (SOptional s) v = Some v' ↔
  v = JUndefined ∧ v' = JUndefined ∨ v ≠ JUndefined ∧ accepts s v = Some v'.
Proof. destruct v; simpl; naive_solver. Qed.
Lemma accepts_default d s v v' : accepts (SDefault d s) v = Some v' ↔
  v = JUndefined ∧ accepts s d = Some v' ∨ v ≠ JUndefined ∧ accepts s v = Some v'.
Proof. destruct v; simpl; naive_solver. Qed.
Lemma accepts_refine s p v v' : accepts (SRefine s p) v = Some v' ↔
  ∃ kvs, accepts s v = Some (JObject kvs) ∧ p kvs = true ∧ v' = JObject kvs.
Proof.
  simpl. destruct (accepts s v) as [[| | | | | |kvs]|]; simpl;
    try (split; [done|by intros (? & ? & ?)]).
  split; [|intros (? & [= <-] & -> & ->); done]. destruct (p kvs) eqn:Hp; [|done]. intros [= <-]. eauto.
Qed.
End schemas.

(** Take an accepted object apart. *)
Ltac inv_fields := repeat match goal with
  | H : accepts_fields _ _ _ _ (_ :: _) = Some _ |- _ =>
      let v := fresh "v" in let Hv := fresh "Hv" in let Hl := fresh "Hl" in
      apply accepts_fields_cons in H as (v & ? & Hv & Hl & ->)
  | H : accepts_fields _ _ _ _ [] = Some _ |- _ => apply accepts_fields_nil in H as ->
  end.

(** The output types of two schemas. *)
Record CreateStreamBody := mkBody {
  cb_sponsor : string; cb_recipient : string; cb_token : string;
  cb_rate : Q; cb_cliff_duration : Q; cb_total_duration : Q }.
Definition body_fields (b : CreateStreamBody) : list (string * json) :=
  [("sponsor", JString (cb_sponsor b)); ("recipient", JString (cb_recipient b)); ("token", JString (cb_token b));
   ("rate", JNumber (cb_rate b)); ("cliff_duration", JNumber (cb_cliff_duration b));
   ("total_duration", JNumber (cb_total_duration b))].
(** A stream that the contract can create. *)
Record body_ok (b : CreateStreamBody) : Prop := BodyOk {
  bo_addresses : stellar_address_re (cb_sponsor b) = true ∧ stellar_address_re (cb_recipient b) = true ∧
    contract_address_re (cb_token b) = true;
  bo_distinct : cb_sponsor b ≠ cb_recipient b;
  bo_integers : is_integer (cb_rate b) = true ∧ is_integer (cb_cliff_duration b) = true ∧
    is_integer (cb_total_duration b) = true;
  bo_rate : 0 < integer_of (cb_rate b);
  bo_durations : 0 <= integer_of (cb_cliff_duration b) < integer_of (cb_total_duration b) }.

Record SchedulesQuery := mkSchedulesQuery {
  sq_sponsor : string; sq_status : option string; sq_sort : string;
  sq_page : Q; sq_limit : Q; sq_cursor : option string }.
Definition opt_json (o : option string) : json := match o with Some s => JString s | None => JUndefined end.
Definition query_fields (q : SchedulesQuery) : list (string * json) :=
  [("sponsor", JString (sq_sponsor q)); ("status", opt_json (sq_status q)); ("sort", JString (sq_sort q));
   ("page", JNumber (sq_page q)); ("limit", JNumber (sq_limit q)); ("cursor", opt_json (sq_cursor q))].
Record query_ok (q : SchedulesQuery) : Prop := QueryOk {
  qo_sponsor : stellar_address_re (sq_sponsor q) = true;
  qo_status : ∀ s, sq_status q = Some s → s ∈ STREAM_STATUSES;
  qo_sort : sq_sort q ∈ SORT_VALUES;
  qo_page : is_integer (sq_page q) = true ∧ 1 <= integer_of (sq_page q);
  qo_limit : is_integer (sq_limit q) = true ∧ 1 <= integer_of (sq_limit q) <= 100 }.

Lemma refinement_true b : is_integer (cb_cliff_duration b) = true → is_integer (cb_total_duration b) = true →
  create_stream_refinement (body_fields b) = true ↔
  integer_of (cb_cliff_duration b) < integer_of (cb_total_duration b) ∧ cb_sponsor b ≠ cb_recipient b.
Proof.
  intros Hc Ht. unfold create_stream_refinement.
  change (field "total_duration" (body_fields b)) with (JNumber (cb_total_duration b)).
  change (field "cliff_duration" (body_fields b)) with (JNumber (cb_cliff_duration b)).
  change (field "sponsor" (body_fields b)) with (JString (cb_sponsor b)).
  change (field "recipient" (body_fields b)) with (JString (cb_recipient b)). cbn [number_of text_of_json].
  rewrite andb_true_iff, !negb_true_iff, bool_decide_eq_false.
  assert (Qle_bool (cb_total_duration b) (cb_cliff_duration b) = false ↔
    integer_of (cb_cliff_duration b) < integer_of (cb_total_duration b)) as ->; [|done].
  apply is_integer_spec in Hc, Ht. revert Hc Ht.
  generalize (integer_of (cb_cliff_duration b)), (integer_of (cb_total_duration b)). intros c t Hc Ht.
  rewrite <-not_true_iff_false, Qle_bool_iff, Hc, Ht, <-Zle_Qle. lia.
Qed.

(** ** Theorems *)

(** C19. The body schema of a new stream accepts exactly the well-formed ones:
    three valid addresses with sponsor and recipient distinct, a positive whole
    rate and whole durations with [0 <= cliff < total]; and what handlers get is
    that typed record. *)
Theorem create_stream_body_type valid_url valid_date Number v v' :
  accepts valid_url valid_date Number CreateStreamBodySchema v = Some v' ↔
  ∃ b kvs, body_ok b ∧ v = JObject kvs ∧ v' = JObject (body_fields b) ∧
    Forall (λ kv, field kv.1 kvs = kv.2) (body_fields b).
Proof.
  unfold CreateStreamBodySchema. rewrite accepts_refine. split.
  - intros (l0 & Ho & Href & ->). apply accepts_object in Ho as (kvs & l & -> & Hl & [= <-]).
    inv_fields.
    apply accepts_StellarAddress in Hv as (a & Ha & -> & Hare), Hv0 as (r & Hrr & -> & Hrre).
    apply accepts_ContractAddress in Hv1 as (t & Ht & -> & Htre).
    apply accepts_number in Hv2 as (rate & Hrate & -> & [Hri Hr0]%num_checks_positive).
    apply accepts_number in Hv3 as (c & Hc & -> & [Hci Hc0]%num_checks_min).
    apply accepts_number in Hv4 as (d & Hd & -> & [Hdi Hd0]%num_checks_positive).
    exists (mkBody a r t rate c d), kvs. apply (refinement_true (mkBody a r t rate c d)) in Href as [Hlt Hne]; [|done..].
    split_and!; [by split|done|done|]. by repeat constructor.
  - intros (b & kvs & [(Ha & Hr & Ht) Hne (Hri & Hci & Hdi) Hr0 [Hc0 Hlt]] & -> & -> & Hf).
    exists (body_fields b). split_and!; [|by apply refinement_true|done].
    apply accepts_object. exists kvs, (body_fields b). split_and!; [done| |done].
    unfold body_fields in *. rewrite !Forall_cons in Hf. destruct Hf as (Hf1 & Hf2 & Hf3 & Hf4 & Hf5 & Hf6 & _).
    cbn [fst snd] in *.
    repeat (apply accepts_fields_cons; eexists _, _; split_and!; [| |reflexivity]); [..|by apply accepts_fields_nil].
    + apply accepts_StellarAddress. by eexists.
    + apply accepts_StellarAddress. by eexists.
    + apply accepts_ContractAddress. by eexists.
    + apply accepts_number. eexists. split_and!; [done..|]. by apply num_checks_positive.
    + apply accepts_number. eexists. split_and!; [done..|]. by apply num_checks_min.
    + apply accepts_number. eexists. split_and!; [done..|]. apply num_checks_positive. split; [done|lia].
Qed.

(** What the schedules handler gets is a typed query: a valid sponsor, a
    known status or none, a known sort order, a whole page number from 1 and a
    whole limit between 1 and 100. *)
Theorem schedules_query_type valid_url valid_date Number v v' :
  accepts valid_url valid_date Number SchedulesQuerySchema v = Some v' →
  ∃ q, query_ok q ∧ v' = JObject (query_fields q).
Proof.
  intros (kvs & l & -> & Hl & ->)%accepts_object. inv_fields.
  apply accepts_StellarAddress in Hv as (a & Ha & -> & Hare).
  apply accepts_coerced in Hv2 as (tp & page & _ & _ & -> & Hp%num_checks_min).
  apply accepts_coerced in Hv3 as (tl & lim & _ & _ & -> & Hlim%num_checks_range).
  assert (∃ st, v0 = opt_json st ∧ ∀ s, st = Some s → s ∈ STREAM_STATUSES) as (st & -> & Hst).
  { apply accepts_optional in Hv0 as [[_ ->]|[_ (t & _ & -> & Ht)%accepts_enum]]; [by exists None|].
    exists (Some t). split; [done|]. by intros s [= <-]. }
  assert (∃ so, v1 = JString so ∧ so ∈ SORT_VALUES) as (so & -> & Hso).
  { apply accepts_default in Hv1 as [[? Hv1]|[? Hv1]]; apply accepts_optional in Hv1 as [[? _]|[_ Hv1]]; try done;
      apply accepts_enum in Hv1 as (t & _ & -> & ?); eauto. }
  assert (∃ cu, v4 = opt_json cu) as (cu & ->).
  { apply accepts_optional in Hv4 as [[_ ->]|[_ Hv4]]; [by exists None|].
    destruct (field "cursor" kvs) as [| | | |c| |]; try done. exists (Some c). by injection Hv4 as <-. }
  exists (mkSchedulesQuery a st so page lim cu). split; [|done]. by split.
Qed.

(** The middleware lets a request through exactly when every target's
    schema accepts its part, and then the handler sees the accepted values
    (headers are checked but left as they were); any other request is answered
    with 400 and at least one field error, and the handler does not run. *)
Theorem validate_spec valid_url valid_date Number safeParse t req :
  documented valid_url valid_date Number safeParse →
  let ok o v v' := match o with None => v' = v | Some s => accepts valid_url valid_date Number s v = Some v' end in
  match validate safeParse t req with
  | Next req' => ok (t_params t) (params req) (params req') ∧ ok (t_query t) (query req) (query req') ∧
      ok (t_body t) (body req) (body req') ∧ headers req' = headers req ∧ ∃ h, ok (t_headers t) (headers req) h
  | BadRequest fields => fields ≠ [] ∧ ¬ ∃ p q b h, ok (t_params t) (params req) p ∧ ok (t_query t) (query req) q ∧
      ok (t_body t) (body req) b ∧ ok (t_headers t) (headers req) h
  end.
Proof.
  intros Hdoc ok.
  assert (Hone : ∀ o v, match parse_target safeParse o v with
    | (v', []) => ok o v v'
    | (_, _ :: _) => ¬ ∃ v', ok o v v'
    end).
  { intros [s|] v; [|done]. specialize (Hdoc s v). simpl. destruct (safeParse s v) as [v'|[|i0 il]]; [done| |].
    - by destruct Hdoc.
    - destruct Hdoc as [Hn _]. simpl. intros (v' & Hv'). congruence. }
  unfold validate.
  pose proof (Hone (t_params t) (params req)) as H1. pose proof (Hone (t_query t) (query req)) as H2.
  pose proof (Hone (t_body t) (body req)) as H3. pose proof (Hone (t_headers t) (headers req)) as H4.
  destruct (parse_target safeParse (t_params t) _) as [p [|e1 es1]], (parse_target safeParse (t_query t) _) as [q [|e2 es2]],
    (parse_target safeParse (t_body t) _) as [b [|e3 es3]], (parse_target safeParse (t_headers t) _) as [h [|e4 es4]]; simpl;
    try (split_and!; eauto; fail); (split; [done|]); intros (p' & q' & b' & h' & K1 & K2 & K3 & K4); eauto.
Qed.

(** ** Witnesses *)

(** Decimal text only. *)
Definition demo_Number (s : string) : option Q := inject_Z <$> Z_of_string s.
Definition no_check (_ : string) : bool := true.
Definition demo_safeParse (s : schema) (v : json) : result (list issue) json :=
  match accepts no_check no_check demo_Number s v with
  | Some v' => Ok v'
  | None => Err [Issue [] "Invalid input"]
  end.
Lemma demo_documented : documented no_check no_check demo_Number demo_safeParse.
Proof. intros s v. unfold demo_safeParse. by destruct (accepts _ _ _ s v). Qed.

Definition demo_sponsor : string := "GAAAAAAAAAAAAAAAAAAAAAAAAAAAAAAAAAAAAAAAAAAAAAAAAAAAAAAA".
Definition demo_query : json := JObject [("limit", JString "50"); ("sponsor", JString demo_sponsor); ("extra", JNull)].

Lemma schedules_query_type_witness : ∃ q, query_ok q ∧
  accepts no_check no_check demo_Number SchedulesQuerySchema demo_query = Some (JObject (query_fields q)) ∧
  sq_limit q = 50%Q.
Proof.
  destruct (schedules_query_type no_check no_check demo_Number demo_query
    (JObject (query_fields (mkSchedulesQuery demo_sponsor None "cliff_asc" 1 50 None)))) as (q & Hq & Heq).
  - vm_compute. reflexivity.
  - exists q. split; [exact Hq|]. rewrite <-Heq. split; [vm_compute; reflexivity|]. by injection Heq as _ _ _ _ <- _.
Defined.

Lemma validate_spec_witness :
  match validate demo_safeParse (Targets None (Some SchedulesQuerySchema) None None)
          (Request JNull demo_query JNull JNull) with
  | Next req' => accepts no_check no_check demo_Number SchedulesQuerySchema demo_query = Some (query req')
  | BadRequest _ => False
  end.
Proof.
  pose proof (validate_spec no_check no_check demo_Number demo_safeParse (Targets None (Some SchedulesQuerySchema) None None)
    (Request JNull demo_query JNull JNull) demo_documented) as H.
  vm_compute in H. vm_compute. apply H.
Defined.
