(* ===== verification/Schedules.v ===== *)
(** * The schedules route

    [backend/src/routes/schedules.ts]: the parameters, the cursor, the query
    with its numbered placeholders, the handler with its cache.  The query runs
    on a list of rows: [arrange] is the order PostgreSQL gives rows of which
    the sort key may not decide, [JSON.parse], the text of a number and that of
    a date are parameters. *)
From Stdlib Require Import QArith.
From stdpp Require Import list gmap sorting.
From S2P Require Import Prelude Bytes Digits Validation.
#[local] Open Scope Z_scope.

(** ** Data *)

Definition CACHE_TTL_MS (env : option string) : number := parse_int (default "5000" env).

Record row := Row {
  recipient_address : string;
  sponsor_address : string;
  token_address : option string;
  rate_per_ledger : Z;
  start_ledger : Z;
  cliff_ledger : Z;
  end_ledger : Z;
  last_claimed_ledger : Z;
  row_status : string;
  row_cancelled_at : option Z;
  row_created_at : Z;
  last_claim_event : option Z }.      (* MAX(ledger_sequence) of the row's vc_claim events *)

(** The [claimable_amount] column of the query. *)
Definition claimable_amount (r : row) : Z :=
  Z.max 0 ((default (start_ledger r) (last_claim_event r) - last_claimed_ledger r) * rate_per_ledger r).

Record ScheduleItem := Item {
  recipient : string;
  sponsor : string;
  token : option string;
  item_rate : string;
  item_start : Z;
  item_cliff : Z;
  item_end : Z;
  status : string;
  cancelled_at : option string;
  item_claimable : string;
  created_at : string }.
Record SchedulesResponse := mkResponse {
  items : list ScheduleItem;
  total : Z;
  page : option Q;
  limit : option Z;
  next_cursor : option string;
  prev_cursor : option string }.

Definition VALID_STATUSES : list string := ["active"; "pre_cliff"; "expired"; "cancelled"].
Definition VALID_SORTS : list string :=
  ["cliff_asc"; "cliff_desc"; "end_asc"; "end_desc"; "claimable_asc"; "claimable_desc"; "recipient_asc"; "recipient_desc"].

(** [SORT_MAP]: the output column [claimable_amount] is a text. *)
Definition row_le (sort : string) (a b : row) : bool :=
  if decide (sort = "cliff_desc") then cliff_ledger b <=? cliff_ledger a
  else if decide (sort = "end_asc") then end_ledger a <=? end_ledger b
  else if decide (sort = "end_desc") then end_ledger b <=? end_ledger a
  else if decide (sort = "claimable_asc") then String.leb (Z_to_string (claimable_amount a)) (Z_to_string (claimable_amount b))
  else if decide (sort = "claimable_desc") then String.leb (Z_to_string (claimable_amount b)) (Z_to_string (claimable_amount a))
  else if decide (sort = "recipient_asc") then String.leb (recipient_address a) (recipient_address b)
  else if decide (sort = "recipient_desc") then String.leb (recipient_address b) (recipient_address a)
  else cliff_ledger a <=? cliff_ledger b.

(** ** Cursors *)

Record CursorPayload := Cursor { c_page : Q; c_offset : Q }.

(** The URL-safe alphabet, without padding. *)
Definition url_char (c : ascii) : ascii :=
  if decide (c = "+"%char) then "-"%char else if decide (c = "/"%char) then "_"%char else c.
Definition to_base64url (b : buffer) : string :=
  of_chars (url_char <$> filter (λ c, c ≠ "="%char) (chars (to_base64 b))).

Definition quote : string := String "034" EmptyString.
Definition quoted (s : string) : string := quote +:+ s +:+ quote.

(** ** The query *)

Inductive value := VText (s : string) | VNum (n : option Q).
(** The placeholders of the statement, numbered from 1. *)
Record statement := Statement {
  sponsor_at : nat;
  status_at : option nat;
  order_by : string;
  limit_at : option nat;
  offset_at : option nat }.
Record query := Query { sql : statement; countSql : statement; values : list value }.

Definition buildQuery (sponsor : string) (status : option string) (sort : string) (limit : option Z) (offset : option Q)
    : query :=
  let values := [VText sponsor] in
  let paramIdx := 2%nat in
  let '(values, filter_at, paramIdx) :=
    match status with
    | Some st => (values ++ [VText (if decide (st = "cancelled") then "cancelled" else st)], Some paramIdx, S paramIdx)
    | None => (values, None, paramIdx)
    end in
  let orderClause := if decide (sort ∈ VALID_SORTS) then sort else "cliff_asc" in
  Query (Statement 1 filter_at orderClause (Some paramIdx) (Some (S paramIdx)))
        (Statement 1 filter_at orderClause None None)
        (values ++ [VNum (inject_Z <$> limit); VNum offset]).

(** *** What PostgreSQL does with a statement *)

Definition placeholders (st : statement) : list nat :=
  sponsor_at st :: option_list (status_at st) ++ option_list (limit_at st) ++ option_list (offset_at st).
Definition arg (values : list value) (i : nat) : option value := values !! (i - 1)%nat.
Definition text_arg (v : option value) : option string := match v with Some (VText s) => Some s | _ => None end.
(** A bigint that may not be negative. *)
Definition count_arg (v : option value) : option nat :=
  match v with
  | Some (VNum (Some q)) =>
      if is_integer q && (0 <=? integer_of q) && (integer_of q <? 2 ^ 63) then Some (Z.to_nat (integer_of q)) else None
  | _ => None
  end.
(** The rows the [WHERE] clause selects; [None] is an error. *)
Definition selected (st : statement) (values : list value) (rows : list row) : option (list row) :=
  if bool_decide (Forall (λ i, 1 ≤ i ≤ length values)%nat (placeholders st)) &&
     bool_decide (foldr Nat.max 0%nat (placeholders st) = length values) then
    sp ← text_arg (arg values (sponsor_at st));
    match status_at st with
    | None => Some (filter (λ r, sponsor_address r = sp) rows)
    | Some i => s ← text_arg (arg values i); Some (filter (λ r, sponsor_address r = sp ∧ row_status r = s) rows)
    end
  else None.

Section route.
Context (arrange : string → list row → list row) (parse : string → option json)
  (number_text : Q → string) (toISO : Z → string).

Definition run_count (q : query) (rows : list row) : option Z :=
  Z.of_nat ∘ length <$> selected (countSql q) (take (length (values q) - 2) (values q)) rows.
Definition run_page (q : query) (rows : list row) : option (list row) :=
  rs ← selected (sql q) (values q) rows;
  lim ← limit_at (sql q) ≫= count_arg ∘ arg (values q);
  off ← offset_at (sql q) ≫= count_arg ∘ arg (values q);
  Some (take lim (drop off (arrange (order_by (sql q)) rs))).

(** [JSON.stringify(payload)] *)
Definition stringify_cursor (p : CursorPayload) : string :=
  "{" +:+ quoted "page" +:+ ":" +:+ number_text (c_page p) +:+ "," +:+
  quoted "offset" +:+ ":" +:+ number_text (c_offset p) +:+ "}".
Definition encodeCursor (p : CursorPayload) : string := to_base64url (string_bytes (stringify_cursor p)).
Definition decodeCursor (cursor : string) : option CursorPayload :=
  match parse (to_utf8 (from_base64 cursor)) with
  | Some (JObject kvs) =>
      match field "page" kvs, field "offset" kvs with
      | JNumber p, JNumber o => Some (Cursor p o)
      | _, _ => None
      end
  | _ => None
  end.

(** ** The handler *)

(** [String(v)] *)
Fixpoint js_string (v : json) : string :=
  match v with
  | JUndefined => "undefined"
  | JNull => "null"
  | JBool b => if b then "true" else "false"
  | JNumber q => number_text q
  | JString s => s
  | JArray l => join "," ((λ x, match x with JUndefined | JNull => "" | _ => js_string x end) <$> l)
  | JObject _ => "[object Object]"
  end.
(** [String(req.query.k ?? d)] *)
Definition param (k d : string) (kvs : list (string * json)) : string :=
  match field k kvs with JUndefined | JNull => d | v => js_string v end.

Definition item_of (r : row) : ScheduleItem :=
  Item (recipient_address r) (sponsor_address r) (token_address r) (Z_to_string (rate_per_ledger r))
    (start_ledger r) (cliff_ledger r) (end_ledger r) (row_status r) (toISO <$> row_cancelled_at r)
    (Z_to_string (claimable_amount r)) (toISO (row_created_at r)).

Definition cacheKey (sponsor : string) (status : option string) (sort : string) (page : option Q) (limit : option Z)
    : string :=
  "schedules:v1:" +:+ sponsor +:+ ":" +:+ default "" status +:+ ":" +:+ sort +:+ ":" +:+
  default "NaN" (number_text <$> page) +:+ ":" +:+ default "NaN" (Z_to_string <$> limit).

Inductive answer :=
| BadParam (error : string)
| Forbidden
| Found (hit : bool) (r : SchedulesResponse)
| ServerError.

(** The cache: entries with their expiry, or no Redis. *)
Abbreviation cache := (option (gmap string (SchedulesResponse * Z))).
Definition cacheGet (now : Z) (key : string) (c : cache) : option SchedulesResponse :=
  m ← c; e ← m !! key; if now <? e.2 then Some e.1 else None.
(** [PX] with a bad time makes Redis refuse the command. *)
Definition cacheSet (ttl : number) (now : Z) (key : string) (r : SchedulesResponse) (c : cache) : cache :=
  match ttl with
  | Some t => if 0 <? t then <[key := (r, now + t)]> <$> c else c
  | None => c
  end.

Definition page_response (page : option Q) (limit : option Z) (offset : option Q) (total : Z) (rs : list row)
    : SchedulesResponse :=
  let hasMore := match offset with
                 | Some o => negb (Qle_bool (inject_Z total) (o + inject_Z (Z.of_nat (length rs))))
                 | None => false
                 end in
  let hasPrev := match page with Some p => negb (Qle_bool p 1) | None => false end in
  let next := match page, limit, offset with
              | Some p, Some l, Some o => Some (encodeCursor (Cursor (p + 1) (o + inject_Z l)))
              | _, _, _ => None
              end in
  let prev := match page, limit, offset with
              | Some p, Some l, Some o =>
                  Some (encodeCursor (Cursor (p - 1) (if Qle_bool 0 (o - inject_Z l) then o - inject_Z l else 0)))
              | _, _, _ => None
              end in
  mkResponse (item_of <$> rs) total page limit (if hasMore then next else None) (if hasPrev then prev else None).

(** After the parameters: the cache, then the two queries. *)
Definition serve (ttl : number) (now : Z) (sponsor : string) (status : option string) (sort : string)
    (page : option Q) (limit : option Z) (rows : list row) (c : cache) : answer * cache :=
  let offset := match page, limit with Some p, Some l => Some ((p - 1) * inject_Z l)%Q | _, _ => None end in
  let key := cacheKey sponsor status sort page limit in
  match cacheGet now key c with
  | Some r => (Found true r, c)
  | None =>
      let q := buildQuery sponsor status sort limit offset in
      match run_count q rows, run_page q rows with
      | Some total, Some rs =>
          let r := page_response page limit offset total rs in
          (Found false r, cacheSet ttl now key r c)
      | _, _ => (ServerError, c)
      end
  end.

Definition schedulesHandler (ttl : number) (now : Z) (user : option string) (q : json) (rows : list row) (c : cache)
    : answer * cache :=
  let kvs := match q with JObject kvs => kvs | _ => [] end in
  let sponsor := trim (param "sponsor" "" kvs) in
  if negb (truthy sponsor) then (BadParam "sponsor query parameter is required", c)
  else if negb (stellar_address_re sponsor) then (BadParam "sponsor must be a valid Stellar public key", c)
  else if match user with Some a => truthy a && bool_decide (a ≠ sponsor) | None => false end then (Forbidden, c)
  else
    let rawStatus := trim (param "status" "" kvs) in
    let status := if decide (rawStatus ∈ VALID_STATUSES) then Some rawStatus else None in
    if truthy rawStatus && bool_decide (status = None) then (BadParam "Invalid status", c)
    else
      let rawSort := trim (param "sort" "cliff_asc" kvs) in
      let sort := if decide (rawSort ∈ VALID_SORTS) then rawSort else "cliff_asc" in
      if truthy rawSort && negb (bool_decide (rawSort ∈ VALID_SORTS)) then (BadParam "Invalid sort", c)
      else
        let page := inject_Z <$> (Z.max 1 <$> parse_int (param "page" "1" kvs)) in
        let limit := (λ n, Z.min 100 (Z.max 1 n)) <$> parse_int (param "limit" "25" kvs) in
        let rawCursor := trim (param "cursor" "" kvs) in
        let page := if truthy rawCursor
                    then match decodeCursor rawCursor with Some p => Some (c_page p) | None => page end
                    else page in
        serve ttl now sponsor status sort page limit rows c.
End route.

(** ** Text and numbers *)

Lemma inject_Z_succ z : (inject_Z z + 1)%Q = inject_Z (z + 1).
Proof. unfold Qplus, inject_Z. simpl. f_equal. lia. Qed.
Lemma inject_Z_plus_L a b : (inject_Z a + inject_Z b)%Q = inject_Z (a + b).
Proof. unfold Qplus, inject_Z. simpl. f_equal. lia. Qed.
Lemma offset_Z p l : ((inject_Z p - 1) * inject_Z l)%Q = inject_Z ((p - 1) * l).
Proof. unfold Qminus, Qplus, Qmult, inject_Z. simpl. f_equal. lia. Qed.
Lemma integer_of_inject z : integer_of (inject_Z z) = z.
Proof. unfold integer_of, inject_Z. simpl. apply Z.div_1_r. Qed.
Lemma is_integer_inject z : is_integer (inject_Z z) = true.
Proof. unfold is_integer, inject_Z. simpl. rewrite Z.mod_1_r. done. Qed.

(** ** Base 64 for URLs *)

Lemma sextet_url_char c : sextet (url_char c) = sextet c.
Proof. unfold url_char. destruct (decide _) as [->|]; [done|]. by destruct (decide _) as [->|]. Qed.
Lemma from_base64url b : Forall is_byte b → from_base64 (to_base64url b) = b.
Proof.
  intros Hb. rewrite <-(from_to_base64 b Hb) at 2. unfold from_base64, to_base64url. rewrite chars_of_chars. f_equal.
  induction (chars (to_base64 b)) as [|c l IH]; [done|]. rewrite filter_cons.
  destruct (decide (c ≠ "="%char)) as [Hc|Hc].
  - rewrite fmap_cons. cbn [omap list_omap]. rewrite sextet_url_char. by destruct (sextet c); rewrite IH.
  - assert (c = "="%char) as -> by by destruct (decide (c = "="%char)). cbn [omap list_omap]. rewrite sextet_padding. done.
Qed.

Lemma base64_char_range n : 0 <= n < 64 → plain (url_char (base64_char n)) = true ∧ base64_char n ≠ "="%char.
Proof.
  intros Hn.
  assert (Hall : forallb (λ k, plain (url_char (base64_char (Z.of_nat k))) &&
    bool_decide (base64_char (Z.of_nat k) ≠ "="%char)) (seq 0 64) = true) by (vm_compute; reflexivity).
  rewrite forallb_forall in Hall. specialize (Hall (Z.to_nat n)). rewrite in_seq in Hall.
  specialize (Hall ltac:(lia)). rewrite Z2Nat.id in Hall by lia.
  apply andb_true_iff in Hall as [? ?%bool_decide_eq_true]. done.
Qed.
Lemma split_bytes_plain b : Forall is_byte b →
  forallb plain (url_char <$> filter (λ c, c ≠ "="%char) (split_bytes b)) = true ∧
  (b ≠ [] → url_char <$> filter (λ c, c ≠ "="%char) (split_bytes b) ≠ []).
Proof.
  assert (Hstep : ∀ n l, 0 <= n < 64 → forallb plain (url_char <$> filter (λ c, c ≠ "="%char) l) = true →
    forallb plain (url_char <$> filter (λ c, c ≠ "="%char) (base64_char n :: l)) = true ∧
    url_char <$> filter (λ c, c ≠ "="%char) (base64_char n :: l) ≠ []).
  { intros n l Hn Hl. destruct (base64_char_range n Hn) as [Hp Hne]. rewrite filter_cons_True by done.
    rewrite fmap_cons. cbn [forallb]. by rewrite Hp, Hl. }
  induction b as [|x|x y|x y z b IH] using buffer_ind3; intros Hb; byte_bounds; cbn [split_bytes].
  - split; [done|by intros ?].
  - destruct (Hstep (x / 4) [base64_char (x mod 4 * 16); "="%char; "="%char]); [dm_lia| |done].
    by apply Hstep; [dm_lia|].
  - destruct (Hstep (x / 4) [base64_char (x mod 4 * 16 + y / 16); base64_char (y mod 16 * 4); "="%char]); [dm_lia| |done].
    by do 2 (apply Hstep; [dm_lia|]).
  - destruct (Hstep (x / 4) (base64_char (x mod 4 * 16 + y / 16) :: base64_char (y mod 16 * 4 + z / 64)
      :: base64_char (z mod 64) :: split_bytes b)); [dm_lia| |done].
    do 3 (apply Hstep; [dm_lia|]). by apply IH.
Qed.

Lemma to_base64url_plain b : Forall is_byte b → b ≠ [] →
  trim (to_base64url b) = to_base64url b ∧ truthy (to_base64url b) = true.
Proof.
  intros Hb Hne. destruct (split_bytes_plain b Hb) as [Hp Hn]. specialize (Hn Hne).
  unfold to_base64url, to_base64 in *. rewrite chars_of_chars in *. split.
  - apply trim_plain. by rewrite chars_of_chars.
  - unfold truthy. apply bool_decide_eq_true. intros Heq. apply (f_equal chars) in Heq.
    rewrite chars_of_chars in Heq. by apply Hn.
Qed.

(** ** The statements *)

Definition matching (sponsor : string) (status : option string) (rows : list row) : list row :=
  match status with
  | None => filter (λ r, sponsor_address r = sponsor) rows
  | Some s => filter (λ r, sponsor_address r = sponsor ∧ row_status r = s) rows
  end.

Lemma count_arg_Z z : 0 <= z < 2 ^ 63 → count_arg (Some (VNum (Some (inject_Z z)))) = Some (Z.to_nat z).
Proof.
  intros Hz. unfold count_arg. rewrite is_integer_inject, integer_of_inject.
  destruct (Z.leb_spec 0 z); [|lia]. destruct (Z.ltb_spec z (2 ^ 63)); [done|lia].
Qed.

Lemma run_page_intro arrange q rows rs i j l o : 0 <= l < 2 ^ 63 → 0 <= o < 2 ^ 63 →
  selected (sql q) (values q) rows = Some rs → limit_at (sql q) = Some i → offset_at (sql q) = Some j →
  arg (values q) i = Some (VNum (Some (inject_Z l))) → arg (values q) j = Some (VNum (Some (inject_Z o))) →
  run_page arrange q rows = Some (take (Z.to_nat l) (drop (Z.to_nat o) (arrange (order_by (sql q)) rs))).
Proof.
  intros Hl Ho Hs Hi Hj Hli Hoj. unfold run_page. rewrite Hs, Hi, Hj. unfold compose.
  cbn [mbind option_bind]. rewrite Hli, Hoj, !count_arg_Z by done. done.
Qed.

Lemma run_page_none arrange q rows j : offset_at (sql q) = Some j → count_arg (arg (values q) j) = None →
  run_page arrange q rows = None.
Proof.
  intros Hj Hn. unfold run_page. destruct (selected _ _ rows); [|done]. cbn [mbind option_bind].
  destruct (limit_at (sql q)) as [i|]; cbn [mbind option_bind]; [|done].
  destruct ((count_arg ∘ arg (values q)) i); [|done]. cbn [mbind option_bind].
  rewrite Hj. unfold compose. cbn [mbind option_bind]. by rewrite Hn.
Qed.

(** The placeholders of both statements are the positions of their values. *)
Lemma run_query_spec arrange sponsor status sort l o rows :
  1 <= l <= 100 → 0 <= o < 2 ^ 63 → sort ∈ VALID_SORTS →
  let q := buildQuery sponsor status sort (Some l) (Some (inject_Z o)) in
  run_count q rows = Some (Z.of_nat (length (matching sponsor status rows))) ∧
  run_page arrange q rows =
    Some (take (Z.to_nat l) (drop (Z.to_nat o) (arrange sort (matching sponsor status rows)))).
Proof.
  intros Hl Ho Hsort. destruct status as [st|].
  - assert (Hst : (if decide (st = "cancelled") then "cancelled" else st) = st) by (by destruct (decide (st = "cancelled"))).
    unfold buildQuery. rewrite decide_True, Hst by done. split; [done|]. by eapply run_page_intro; [lia|..].
  - unfold buildQuery. rewrite decide_True by done. split; [done|]. by eapply run_page_intro; [lia|..].
Qed.

Lemma elem_of_matching sponsor status rows r : r ∈ matching sponsor status rows →
  r ∈ rows ∧ sponsor_address r = sponsor.
Proof. destruct status; simpl; rewrite list_elem_of_filter; naive_solver. Qed.

(** Rows of a page belong to the sponsor, whatever the other parameters are. *)
Lemma run_page_sponsor arrange sponsor status sort l o rows rs :
  (∀ o l, arrange o l ≡ₚ l) → run_page arrange (buildQuery sponsor status sort l o) rows = Some rs →
  Forall (λ r, sponsor_address r = sponsor) rs.
Proof.
  intros Harr (sel & Hsel & (lim & _ & (off & _ & [= <-])%bind_Some)%bind_Some)%bind_Some.
  apply Forall_take, Forall_drop. rewrite Harr.
  assert (sel = matching sponsor (match status with Some st => Some (if decide (st = "cancelled") then "cancelled" else st) | None => None end) rows) as ->.
  { unfold selected in Hsel. destruct (_ && _); [|done]. destruct status as [st|]; simpl in Hsel; by simplify_eq. }
  apply Forall_forall. by intros r [_ ?]%elem_of_matching.
Qed.

(** ** The cache *)

Lemma strkey_plain c s : plain c = true → strkey_re c s = true → forallb plain (chars s) = true.
Proof.
  intros Hc. unfold strkey_re. destruct (chars s) as [|c0 l]; [done|].
  intros [[->%bool_decide_eq_true _]%andb_true_iff Hl]%andb_true_iff. cbn [forallb]. rewrite Hc.
  simpl. rewrite forallb_forall in *. intros x Hx. specialize (Hl x Hx).
  unfold is_base32, is_upper, plain, in_range in *. lia.
Qed.
Lemma address_trim s : stellar_address_re s = true → trim s = s.
Proof. intros Hs. by apply trim_plain, (strkey_plain "G"). Qed.
Lemma address_length s : stellar_address_re s = true → length (chars s) = 56%nat.
Proof.
  unfold stellar_address_re, strkey_re. destruct (chars s) as [|c l]; [done|].
  intros [[_ Hl%bool_decide_eq_true]%andb_true_iff _]%andb_true_iff. simpl. by rewrite Hl.
Qed.
Lemma address_truthy s : stellar_address_re s = true → truthy s = true.
Proof. intros Hs. apply bool_decide_eq_true. by intros ->. Qed.

Lemma cacheKey_sponsor number_text s1 s2 st1 st2 so1 so2 p1 p2 l1 l2 :
  stellar_address_re s1 = true → stellar_address_re s2 = true →
  cacheKey number_text s1 st1 so1 p1 l1 = cacheKey number_text s2 st2 so2 p2 l2 → s1 = s2.
Proof.
  intros H1%address_length H2%address_length Heq. apply (f_equal chars) in Heq. unfold cacheKey in Heq.
  rewrite !(string_app_chars "schedules:v1:"), !(string_app_chars s1), !(string_app_chars s2) in Heq.
  apply app_inv_head in Heq. apply app_inj_1 in Heq as [Heq _]; [|by rewrite H1, H2].
  by rewrite <-(of_chars_chars s1), <-(of_chars_chars s2), Heq.
Qed.

Definition items_of (sp : string) (r : SchedulesResponse) : Prop := Forall (λ it, sponsor it = sp) (items r).
(** Every cached response lists streams of the sponsor in its key. *)
Definition cache_ok (number_text : Q → string) (c : option (gmap string (SchedulesResponse * Z))) : Prop :=
  ∀ m key e, c = Some m → m !! key = Some e → ∃ sp st so p l,
    stellar_address_re sp = true ∧ key = cacheKey number_text sp st so p l ∧ items_of sp e.1.

Lemma cacheSet_ok number_text ttl now sp st so p l r c :
  stellar_address_re sp = true → items_of sp r → cache_ok number_text c →
  cache_ok number_text (cacheSet ttl now (cacheKey number_text sp st so p l) r c).
Proof.
  intros Hsp Hr Hc. unfold cacheSet. destruct ttl as [t|]; [|done]. destruct (0 <? t); [|done].
  intros m key e Hm Hl. destruct c as [m0|]; simplify_eq/=.
  apply lookup_insert_Some in Hl as [[<- <-]|[_ Hl]]; [eauto 10|by eapply Hc].
Qed.

Lemma serve_ok arrange number_text toISO ttl now sp st so p l rows c a c' :
  (∀ o l, arrange o l ≡ₚ l) → stellar_address_re sp = true → cache_ok number_text c →
  serve arrange number_text toISO ttl now sp st so p l rows c = (a, c') →
  cache_ok number_text c' ∧ match a with Found _ r => items_of sp r | _ => True end.
Proof.
  intros Harr Hsp Hc. unfold serve. set (off := match p with Some p0 => _ | None => _ end).
  destruct (cacheGet now _ c) as [r|] eqn:Hget.
  - intros [= <- <-]. split; [done|]. unfold cacheGet in Hget. destruct c as [m|]; simplify_eq/=.
    apply bind_Some in Hget as (e & He & Hr). destruct (now <? e.2); simplify_eq.
    destruct (Hc _ _ _ eq_refl He) as (sp' & st' & so' & p' & l' & Hsp' & Hk & Hi).
    by rewrite (cacheKey_sponsor _ _ _ _ _ _ _ _ _ _ _ Hsp Hsp' Hk).
  - destruct (run_count _ rows) as [total|]; [|by intros [= <- <-]].
    destruct (run_page arrange _ rows) as [rs|] eqn:Hpage; [|by intros [= <- <-]].
    intros [= <- <-]. apply run_page_sponsor in Hpage; [|done].
    assert (items_of sp (page_response number_text toISO p l off total rs)).
    { unfold items_of, page_response. simpl. by apply Forall_fmap. }
    split; [by apply cacheSet_ok|done].
Qed.

(** A request: its time, the wallet of its token, its query, and the table then. *)
Record http_request := Http { at_ : Z; user : option string; query_ : json; table : list row }.
Fixpoint handle_all arrange parse number_text toISO ttl (reqs : list http_request) c : list answer :=
  match reqs with
  | [] => []
  | rq :: reqs =>
      let '(a, c') := schedulesHandler arrange parse number_text toISO ttl (at_ rq) (user rq) (query_ rq) (table rq) c in
      a :: handle_all arrange parse number_text toISO ttl reqs c'
  end.

Lemma handler_ok arrange parse number_text toISO ttl now u q rows c a c' :
  (∀ o l, arrange o l ≡ₚ l) → cache_ok number_text c →
  schedulesHandler arrange parse number_text toISO ttl now u q rows c = (a, c') →
  cache_ok number_text c' ∧ ∀ hit r, a = Found hit r → ∃ sp, stellar_address_re sp = true ∧ items_of sp r ∧
    ∀ w, u = Some w → truthy w = true → w = sp.
Proof.
  intros Harr Hc. unfold schedulesHandler.
  set (kvs := match q with JObject kvs => kvs | _ => [] end). set (sp := trim (param number_text "sponsor" "" kvs)).
  destruct (truthy sp); simpl; [|intros [= <- <-]; by split].
  destruct (stellar_address_re sp) eqn:Hsp; simpl; [|intros [= <- <-]; by split].
  destruct (match u with Some w => _ | None => false end) eqn:Hu; [intros [= <- <-]; by split|].
  destruct (truthy _ && _); [intros [= <- <-]; by split|].
  destruct (truthy _ && _); [intros [= <- <-]; by split|].
  intros Hs. apply serve_ok in Hs as [Hc' Ha]; [|done..]. split; [done|].
  intros hit r ->. exists sp. split_and!; [done..|]. intros w -> Hw. rewrite Hw in Hu.
  apply bool_decide_eq_false in Hu. by destruct (decide (w = sp)).
Qed.

(** ** Walking through the pages *)

(** What [JSON] and [Number.prototype.toString] document, for whole numbers
    within the safe range. *)
Definition safe (z : Z) : Prop := 0 <= z < 2 ^ 53.
Record json_documented (parse : string → option json) (number_text : Q → string) : Prop := JsonDocumented {
  jd_number : ∀ q, is_integer q = true → safe (integer_of q) → number_text q = Z_to_string (integer_of q);
  jd_parse : ∀ p o, safe p → safe o →
    parse (stringify_cursor number_text (Cursor (inject_Z p) (inject_Z o))) =
    Some (JObject [("page", JNumber (inject_Z p)); ("offset", JNumber (inject_Z o))]) }.

(** The order of a query: the rows it is given, sorted by its key. *)
Definition arranges (arrange : string → list row → list row) : Prop :=
  ∀ so l, arrange so l ≡ₚ l ∧ StronglySorted (λ a b, row_le so a b = true) (arrange so l).

(** The query of a client that asks for a page. *)
Definition page_query (sp : string) (st : option string) (so : string) (l : Z) (cursor : option string) : json :=
  JObject [("sponsor", JString sp); ("status", opt_json st); ("sort", JString so);
           ("limit", JString (Z_to_string l)); ("cursor", opt_json cursor)].

Section walk.
Context (arrange : string → list row → list row) (parse : string → option json)
  (number_text : Q → string) (toISO : Z → string).

(** Following [next_cursor] to the end. *)
Fixpoint walk (fuel : nat) (now : Z) (u : option string) (sp : string) (st : option string) (so : string) (l : Z)
    (rows : list row) (cursor : option string) : option (list ScheduleItem) :=
  match fuel with
  | O => None
  | S fuel =>
      match schedulesHandler arrange parse number_text toISO None now u (page_query sp st so l cursor) rows None with
      | (Found _ r, _) =>
          match next_cursor r with
          | None => Some (items r)
          | Some cur => rest ← walk fuel now u sp st so l rows (Some cur); Some (items r ++ rest)
          end
      | _ => None
      end
  end.

Hypothesis Hjson : json_documented parse number_text.

Lemma stringify_ascii p o : safe p → safe o →
  Forall is_ascii_char (chars (stringify_cursor number_text (Cursor (inject_Z p) (inject_Z o)))).
Proof.
  intros Hp Ho. unfold stringify_cursor. cbn [c_page c_offset].
  rewrite !(jd_number _ _ Hjson), !integer_of_inject by (rewrite ?integer_of_inject; done || apply is_integer_inject).
  destruct Hp as [Hp _], Ho as [Ho _].
  destruct (chars_Z_to_string p Hp) as [Hdp _], (chars_Z_to_string o Ho) as [Hdo _].
  repeat rewrite string_app_chars.
  repeat (apply Forall_app; split); try (by apply ascii_digits); repeat constructor; unfold is_ascii_char; done.
Qed.
Lemma string_bytes_ok s : Forall is_byte (string_bytes s).
Proof. unfold string_bytes. apply Forall_fmap, Forall_forall. intros c _. apply code_range. Qed.
Lemma encodeCursor_nonempty p : string_bytes (stringify_cursor number_text p) ≠ [].
Proof. done. Qed.

Lemma encodeCursor_plain p :
  trim (encodeCursor number_text p) = encodeCursor number_text p ∧ truthy (encodeCursor number_text p) = true.
Proof. apply to_base64url_plain; [apply string_bytes_ok|apply encodeCursor_nonempty]. Qed.

Lemma decode_encodeCursor p o : safe p → safe o →
  decodeCursor parse (encodeCursor number_text (Cursor (inject_Z p) (inject_Z o))) = Some (Cursor (inject_Z p) (inject_Z o)).
Proof.
  intros Hp Ho. unfold decodeCursor, encodeCursor.
  rewrite from_base64url by apply string_bytes_ok. rewrite to_utf8_ascii by by apply stringify_ascii.
  by rewrite (jd_parse _ _ Hjson).
Qed.

Lemma status_trim st : st ∈ VALID_STATUSES → trim st = st ∧ truthy st = true.
Proof. intros Hst. repeat (apply elem_of_cons in Hst as [-> |Hst]; [done|]). by apply not_elem_of_nil in Hst. Qed.
Lemma sort_trim so : so ∈ VALID_SORTS → trim so = so ∧ truthy so = true.
Proof. intros Hso. repeat (apply elem_of_cons in Hso as [-> |Hso]; [done|]). by apply not_elem_of_nil in Hso. Qed.

(** A well-formed query gets past every check. *)
Lemma handler_serves ttl now u kvs rows c sp st so pg l cur :
  stellar_address_re sp = true → (∀ s, st = Some s → s ∈ VALID_STATUSES) → so ∈ VALID_SORTS →
  (∀ w, u = Some w → w = sp) →
  param number_text "sponsor" "" kvs = sp → param number_text "status" "" kvs = default "" st →
  param number_text "sort" "cliff_asc" kvs = so → parse_int (param number_text "page" "1" kvs) = Some pg → 1 <= pg →
  parse_int (param number_text "limit" "25" kvs) = Some l → 1 <= l <= 100 →
  trim (param number_text "cursor" "" kvs) = cur →
  schedulesHandler arrange parse number_text toISO ttl now u (JObject kvs) rows c =
    serve arrange number_text toISO ttl now sp st so
      (if truthy cur then match decodeCursor parse cur with Some p => Some (c_page p) | None => Some (inject_Z pg) end
       else Some (inject_Z pg)) (Some l) rows c.
Proof.
  intros Hsp Hst Hso Hu Psp Pst Pso Ppg Hpg Pl Hl Pc. unfold schedulesHandler.
  rewrite Psp, Pst, Pso, Ppg, Pl, Pc, (address_trim sp Hsp), (address_truthy sp Hsp), Hsp. simpl negb. cbv iota.
  assert ((match u with Some w => truthy w && bool_decide (w ≠ sp) | None => false end) = false) as ->.
  { destruct u as [w|]; [|done]. rewrite (Hu w eq_refl). rewrite bool_decide_false by auto. apply andb_false_r. }
  destruct (sort_trim so Hso) as [Ht1 Ht2]. rewrite Ht1, Ht2.
  rewrite (decide_True (P := so ∈ VALID_SORTS)), (bool_decide_true (so ∈ VALID_SORTS)) by done.
  assert (trim (default "" st) = default "" st ∧
    (if decide (default "" st ∈ VALID_STATUSES) then Some (default "" st) else None) = st ∧
    truthy (default "" st) && bool_decide (st = None) = false) as (-> & -> & ->).
  { destruct st as [s|]; [|done]. simpl. destruct (status_trim s (Hst s eq_refl)) as [-> _].
    rewrite decide_True by auto. split_and!; [done..|]. apply andb_false_r. }
  simpl fmap. by rewrite (Z.max_r 1 pg), (Z.max_r 1 l), (Z.min_r 100 l) by lia.
Qed.

Definition cursor_of (p l : Z) : option string :=
  if decide (p = 1) then None
  else Some (encodeCursor number_text (Cursor (inject_Z p) (inject_Z ((p - 1) * l)))).

Lemma handler_page now u sp st so l rows p : stellar_address_re sp = true →
  (∀ s, st = Some s → s ∈ VALID_STATUSES) → so ∈ VALID_SORTS → (∀ w, u = Some w → w = sp) → 1 <= l <= 100 →
  1 <= p → safe p → safe ((p - 1) * l) →
  let L := arrange so (matching sp st rows) in
  schedulesHandler arrange parse number_text toISO None now u (page_query sp st so l (cursor_of p l)) rows None =
    (Found false (page_response number_text toISO (Some (inject_Z p)) (Some l) (Some (inject_Z ((p - 1) * l)))
       (Z.of_nat (length (matching sp st rows))) (take (Z.to_nat l) (drop (Z.to_nat ((p - 1) * l)) L))), None).
Proof.
  intros Hsp Hst Hso Hu Hl Hp Hsafe Hoff L. unfold page_query.
  rewrite (handler_serves None now u _ rows None sp st so 1 l (default "" (cursor_of p l))); try done.
  - replace (if truthy _ then _ else _) with (Some (inject_Z p)).
    + unfold serve. rewrite offset_Z. simpl cacheGet. cbv iota.
      destruct (run_query_spec arrange sp st so l ((p - 1) * l) rows) as [-> ->]; [done|unfold safe in Hoff; lia|done|].
      done.
    + unfold cursor_of. destruct (decide (p = 1)) as [->|Hne]; [done|]. cbn [from_option id].
      destruct (encodeCursor_plain (Cursor (inject_Z p) (inject_Z ((p - 1) * l)))) as [_ ->].
      by rewrite decode_encodeCursor.
  - by destruct st.
  - unfold param. simpl. apply parse_int_text. lia.
  - replace (param _ _ _ _) with (default "" (cursor_of p l)) by by destruct (cursor_of p l).
    unfold cursor_of. destruct (decide (p = 1)); [done|]. apply encodeCursor_plain.
Qed.

Lemma walk_from now u sp st so l rows : stellar_address_re sp = true →
  (∀ s, st = Some s → s ∈ VALID_STATUSES) → so ∈ VALID_SORTS → (∀ w, u = Some w → w = sp) → 1 <= l <= 100 →
  let L := arrange so (matching sp st rows) in
  length L = length (matching sp st rows) → Z.of_nat (length L) + 101 < 2 ^ 53 →
  ∀ fuel p, 1 <= p → (p - 1) * l <= Z.of_nat (length L) → Z.of_nat (length L) - (p - 1) * l < Z.of_nat fuel * l →
  walk fuel now u sp st so l rows (cursor_of p l) = Some (item_of toISO <$> drop (Z.to_nat ((p - 1) * l)) L).
Proof.
  intros Hsp Hst Hso Hu Hl L Hlen Hbig. induction fuel as [|fuel IH]; intros p Hp Hoff Hfuel; [lia|].
  assert (safe p ∧ safe ((p - 1) * l)) as [Hs1 Hs2] by (unfold safe; nia).
  cbn [walk]. rewrite handler_page by done. fold L. rewrite <-Hlen.
  set (off := (p - 1) * l) in *. set (rs := take (Z.to_nat l) (drop (Z.to_nat off) L)).
  assert (Hrs : Z.of_nat (length rs) = Z.min l (Z.of_nat (length L) - off)).
  { unfold rs. rewrite length_take, length_drop. destruct Hs2. clear -Hl Hoff H. lia. }
  unfold page_response. cbn [next_cursor items]. rewrite inject_Z_plus_L, Hrs.
  destruct (Qle_bool _ _) eqn:Hle; cbn [negb].
  - apply Qle_bool_iff in Hle. rewrite <-Zle_Qle in Hle. f_equal. f_equal.
    unfold rs. apply take_ge. rewrite length_drop. lia.
  - apply not_true_iff_false in Hle. rewrite Qle_bool_iff, <-Zle_Qle in Hle.
    rewrite inject_Z_succ, inject_Z_plus_L.
    replace (Some (encodeCursor _ _)) with (cursor_of (p + 1) l).
    2: { unfold cursor_of. rewrite decide_False by lia. do 4 f_equal. unfold off. lia. }
    destruct (cursor_of (p + 1) l) as [cur|] eqn:Hcur.
    2: { unfold cursor_of in Hcur. by rewrite decide_False in Hcur by lia. }
    rewrite <-Hcur, IH by (unfold off in *; nia). simpl. f_equal. rewrite <-fmap_app. f_equal.
    unfold rs. replace (Z.to_nat ((p + 1 - 1) * l)) with (Z.to_nat off + Z.to_nat l)%nat by (unfold off in *; nia).
    by rewrite <-drop_drop, take_drop.
Qed.
End walk.

(** ** Theorems *)

(** A sponsor who follows [next_cursor] from the first page sees every one
    of their streams (with the status asked for) exactly once, in the order
    asked for, and comes to an end, if the database keeps one order of the rows
    over the queries. *)
Theorem pages_enumerate arrange parse number_text toISO now u sp st so l rows fuel :
  json_documented parse number_text → arranges arrange →
  stellar_address_re sp = true → (∀ s, st = Some s → s ∈ VALID_STATUSES) → so ∈ VALID_SORTS →
  (∀ w, u = Some w → w = sp) → 1 <= l <= 100 →
  Z.of_nat (length (matching sp st rows)) + 101 < 2 ^ 53 → (length (matching sp st rows) < fuel)%nat →
  ∃ order, walk arrange parse number_text toISO fuel now u sp st so l rows None = Some (item_of toISO <$> order) ∧
    order ≡ₚ matching sp st rows ∧ StronglySorted (λ a b, row_le so a b = true) order.
Proof.
  intros Hj Harr Hsp Hst Hso Hu Hl Hbig Hfuel. destruct (Harr so (matching sp st rows)) as [Hperm Hsorted].
  pose proof (Permutation_length Hperm) as Hlen.
  exists (arrange so (matching sp st rows)). split_and!; [|done..].
  change None with (cursor_of number_text 1 l) at 1.
  rewrite walk_from; try done; [lia|lia|]. rewrite Z.sub_diag, Z.mul_0_l, Z.sub_0_r. nia.
Qed.

(** C18. Whatever requests the route answers, in whatever order, from the
    database or from the cache: a wallet that is signed in is only ever shown
    its own streams. *)
Theorem sponsor_isolation arrange parse number_text toISO ttl reqs i rq hit r w :
  (∀ o l, arrange o l ≡ₚ l) → reqs !! i = Some rq → user rq = Some w → truthy w = true →
  handle_all arrange parse number_text toISO ttl reqs (Some ∅) !! i = Some (Found hit r) →
  Forall (λ it, sponsor it = w) (items r).
Proof.
  intros Harr.
  assert (Hall : ∀ c, cache_ok number_text c → ∀ i rq, reqs !! i = Some rq → user rq = Some w → truthy w = true →
    handle_all arrange parse number_text toISO ttl reqs c !! i = Some (Found hit r) → items_of w r).
  { induction reqs as [|rq0 reqs IH]; [done|]. intros c Hc j rq' Hj Hu Hw. simpl.
    destruct (schedulesHandler _ _ _ _ _ _ _ _ _ c) as [a c'] eqn:Hh.
    apply handler_ok in Hh as [Hc' Ha]; [|done..]. destruct j as [|j]; simplify_eq/=.
    - intros [= ->]. destruct (Ha _ _ eq_refl) as (sp & _ & Hi & Heq). by rewrite (Heq w Hu Hw).
    - by eapply IH. }
  intros. eapply Hall; [|done..]. intros m key e [= <-] Hl. by apply lookup_empty_Some in Hl.
Qed.

(** A query that the validation schema let through is served as it says:
    the handler's own checks never reject it, and the statements run with the
    validated sponsor, status, order, page and limit. *)
Theorem validated_query_served arrange parse number_text toISO valid_url valid_date Number ttl now u v q rows c :
  json_documented parse number_text →
  accepts valid_url valid_date Number SchedulesQuerySchema v = Some (JObject (query_fields q)) →
  (∀ w, u = Some w → w = sq_sponsor q) → sq_cursor q = None → integer_of (sq_page q) < 2 ^ 53 →
  schedulesHandler arrange parse number_text toISO ttl now u (JObject (query_fields q)) rows c =
    serve arrange number_text toISO ttl now (sq_sponsor q) (sq_status q) (sq_sort q)
      (Some (inject_Z (integer_of (sq_page q)))) (Some (integer_of (sq_limit q))) rows c.
Proof.
  intros Hj Hacc Hu Hcur Hpage.
  apply schedules_query_type in Hacc as (q' & [Hsp Hst Hso [Hpi Hp1] [Hli Hl]] & Heq).
  assert (q = q') as <-.
  { destruct q as [a st so pg lim cu], q' as [a' st' so' pg' lim' cu']. injection Heq as -> Hst' -> -> -> Hcu'.
    simpl in *. f_equal; [by destruct st, st'; simplify_eq/=|by destruct cu, cu'; simplify_eq/=]. }
  rewrite (handler_serves _ _ _ _ ttl now u _ rows c (sq_sponsor q) (sq_status q) (sq_sort q)
    (integer_of (sq_page q)) (integer_of (sq_limit q)) ""); try done.
  - by destruct q as [? [] ? ? ? ?].
  - change (param number_text "page" "1" (query_fields q)) with (number_text (sq_page q)).
    rewrite (jd_number _ _ Hj) by (unfold safe; done || lia). apply parse_int_text. lia.
  - change (param number_text "limit" "25" (query_fields q)) with (number_text (sq_limit q)).
    rewrite (jd_number _ _ Hj) by (unfold safe; done || lia). apply parse_int_text. lia.
  - unfold param, query_fields. rewrite Hcur. done.
Qed.

(** ** What the route does not guarantee *)

Definition demo_address (c : string) : string := of_chars ("G"%char :: repeat "A"%char 54 ++ chars c).
Definition demo_row (r : string) (cliff last rate : Z) : row :=
  Row (demo_address r) (demo_address "S") None rate 100 cliff 1000 last "active" None 0 (Some 200).

(** No column decides between streams with the same cliff: two queries may
    order them differently, and then a stream is on neither of the two pages of
    one stream each. *)
Theorem unstable_order_loses_row : ∃ rows first second lost,
  let q o := buildQuery (demo_address "S") None "cliff_asc" (Some 1) (Some (inject_Z o)) in
  (∀ so, first so rows ≡ₚ rows ∧ StronglySorted (λ a b, row_le "cliff_asc" a b = true) (first so rows)) ∧
  (∀ so, second so rows ≡ₚ rows ∧ StronglySorted (λ a b, row_le "cliff_asc" a b = true) (second so rows)) ∧
  lost ∈ rows ∧ run_count (q 0) rows = Some 2 ∧
  ∀ page1 page2, run_page first (q 0) rows = Some page1 → run_page second (q 1) rows = Some page2 →
    lost ∉ page1 ++ page2.
Proof.
  set (a := demo_row "A" 150 100 5). set (b := demo_row "B" 150 100 5).
  exists [a; b], (λ _ l, l), (λ _ l, reverse l), b. cbv zeta.
  split_and!.
  - intros _. split; [done|]. repeat constructor.
  - intros _. split; [apply reverse_Permutation|]. change (reverse [a; b]) with [b; a]. repeat constructor.
  - apply list_elem_of_further, list_elem_of_here.
  - vm_compute. reflexivity.
  - intros page1 page2 H1 H2.
    assert (page1 = [a]) as -> by (injection H1 as <-; vm_compute; reflexivity).
    assert (page2 = [a]) as -> by (injection H2 as <-; vm_compute; reflexivity).
    intros Hin. repeat (apply elem_of_cons in Hin as [Hin|Hin]; [discriminate Hin|]). by apply not_elem_of_nil in Hin.
Qed.

(** The claimable amount is sorted as a text: 90 comes after 100. *)
Theorem claimable_sort_textual :
  claimable_amount (demo_row "A" 150 191 10) = 90 ∧ claimable_amount (demo_row "B" 150 190 10) = 100 ∧
  row_le "claimable_asc" (demo_row "A" 150 191 10) (demo_row "B" 150 190 10) = false.
Proof. vm_compute. split_and!; reflexivity. Qed.

(** The cursor escapes the check of the page number: a cursor for page 0,
    which any client can write, makes the query fail and the answer a 500. *)
Theorem zero_page_cursor_fails arrange parse number_text toISO now u sp st so l rows :
  json_documented parse number_text → stellar_address_re sp = true →
  (∀ s, st = Some s → s ∈ VALID_STATUSES) → so ∈ VALID_SORTS → (∀ w, u = Some w → w = sp) → 1 <= l <= 100 →
  schedulesHandler arrange parse number_text toISO None now u
    (page_query sp st so l (Some (encodeCursor number_text (Cursor (inject_Z 0) (inject_Z 0))))) rows None =
  (ServerError, None).
Proof.
  intros Hj Hsp Hst Hso Hu Hl. set (cur := encodeCursor number_text (Cursor (inject_Z 0) (inject_Z 0))).
  assert (Hcur : trim cur = cur ∧ truthy cur = true) by apply encodeCursor_plain. destruct Hcur as [Ht1 Ht2].
  unfold page_query. rewrite (handler_serves _ _ _ _ None now u _ rows None sp st so 1 l cur); try done.
  - rewrite Ht2. unfold cur. rewrite decode_encodeCursor by (done || by unfold safe). cbn [c_page].
    unfold serve. rewrite offset_Z. simpl cacheGet. cbv iota.
    assert (run_page arrange (buildQuery sp st so (Some l) (Some (inject_Z ((0 - 1) * l)))) rows = None) as ->.
    { apply (run_page_none _ _ _ (match st with Some _ => 4 | None => 3 end)%nat); [by destruct st|].
      transitivity (count_arg (Some (VNum (Some (inject_Z ((0 - 1) * l)))))); [by destruct st|].
      unfold count_arg. rewrite is_integer_inject, integer_of_inject. by destruct (Z.leb_spec 0 ((0 - 1) * l)); [lia|]. }
    by destruct (run_count _ rows).
  - by destruct st.
  - unfold param. simpl. apply parse_int_text. lia.
Qed.

(** ** Witnesses *)

(** Parameters that read and write whole numbers only. *)
Definition demo_number_text (q : Q) : string := Z_to_string (integer_of q).
Definition drop_prefix (p : string) (l : list ascii) : option (list ascii) :=
  if decide (take (length (chars p)) l = chars p) then Some (drop (length (chars p)) l) else None.
Definition demo_parse (s : string) : option json :=
  l1 ← drop_prefix ("{" +:+ quoted "page" +:+ ":") (chars s);
  l2 ← drop_prefix ("," +:+ quoted "offset" +:+ ":") (drop_while is_digit l1);
  p ← parse_digits l1; o ← parse_digits l2;
  Some (JObject [("page", JNumber (inject_Z p)); ("offset", JNumber (inject_Z o))]).

Lemma digits_then (l r : list ascii) c : forallb is_digit l = true → is_digit c = false →
  take_while is_digit (l ++ c :: r) = l ∧ drop_while is_digit (l ++ c :: r) = c :: r.
Proof.
  intros Hl Hc. induction l as [|x l IH]; simpl; [by rewrite Hc|].
  simpl in Hl. apply andb_true_iff in Hl as [-> Hl]. destruct (IH Hl) as [-> ->]. done.
Qed.
Lemma drop_prefix_app p l : drop_prefix p (chars p ++ l) = Some l.
Proof. unfold drop_prefix. by rewrite take_app_length, decide_True, drop_app_length. Qed.

Lemma demo_json : json_documented demo_parse demo_number_text.
Proof.
  split; [done|]. intros p o [Hp _] [Ho _]. unfold stringify_cursor, demo_number_text. cbn [c_page c_offset].
  rewrite !integer_of_inject. unfold demo_parse.
  destruct (chars_Z_to_string p Hp) as (Hdp & Hvp & Hnp), (chars_Z_to_string o Ho) as (Hdo & Hvo & Hno).
  assert (Hs : chars ("{" +:+ quoted "page" +:+ ":" +:+ Z_to_string p +:+ "," +:+ quoted "offset" +:+ ":" +:+ Z_to_string o +:+ "}")
    = chars ("{" +:+ quoted "page" +:+ ":") ++ chars (Z_to_string p) ++
      chars ("," +:+ quoted "offset" +:+ ":") ++ chars (Z_to_string o) ++ chars "}").
  { rewrite !string_app_chars, <-!app_assoc. done. }
  rewrite Hs, drop_prefix_app. cbn [mbind option_bind].
  destruct (digits_then (chars (Z_to_string p)) (tail (chars ("," +:+ quoted "offset" +:+ ":")) ++ chars (Z_to_string o) ++ chars "}")
    ","%char Hdp eq_refl) as [Ht1 Hd1].
  change (","%char :: tail (chars ("," +:+ quoted "offset" +:+ ":")) ++ ?x)
    with (chars ("," +:+ quoted "offset" +:+ ":") ++ x) in Ht1, Hd1.
  rewrite Hd1, drop_prefix_app. cbn [mbind option_bind].
  destruct (digits_then (chars (Z_to_string o)) [] "}"%char Hdo eq_refl) as [Ht2 _].
  unfold parse_digits. rewrite Ht1. change (chars "}") with ["}"%char]. rewrite Ht2.
  destruct (chars (Z_to_string p)); [done|]. rewrite Hvp.
  destruct (chars (Z_to_string o)); [done|]. by rewrite Hvo.
Qed.

Definition row_rel (so : string) (a b : row) : Prop := row_le so a b = true.
#[global] Instance row_rel_dec so : RelDecision (row_rel so).
Proof. intros a b. unfold row_rel. apply _. Defined.
Definition demo_arrange (so : string) (l : list row) : list row := merge_sort (row_rel so) l.
Lemma row_le_spec so : Transitive (row_rel so) ∧ Total (row_rel so).
Proof.
  assert (Hle : ∀ s1 s2 s3, String.leb s1 s2 = true → String.leb s2 s3 = true → String.leb s1 s3 = true).
  { intros s1 s2 s3 H1 H2. apply Is_true_true. apply (transitivity (R := String.le) (y := s2)); by apply Is_true_true. }
  split.
  - intros a b c. unfold row_rel, row_le. repeat case_decide; try (rewrite !Z.leb_le; lia); eauto.
  - intros a b. unfold row_rel, row_le. repeat case_decide; try (rewrite !Z.leb_le; lia);
      match goal with |- String.leb ?x ?y = true ∨ _ => by destruct (String.leb_total x y); auto end.
Qed.
Lemma demo_arranges : arranges demo_arrange.
Proof.
  intros so l. destruct (row_le_spec so) as [Ht Hto]. split; [apply merge_sort_Permutation|].
  by apply (StronglySorted_merge_sort (row_rel so)).
Qed.

Definition demo_rows : list row :=
  [demo_row "B" 150 100 5; demo_row "A" 130 100 5; demo_row "C" 170 100 5].
Definition demo_iso (_ : Z) : string := "2026-01-01T00:00:00.000Z".

Lemma pages_enumerate_witness : ∃ order,
  walk demo_arrange demo_parse demo_number_text demo_iso 4 0 (Some (demo_address "S"))
    (demo_address "S") (Some "active") "cliff_asc" 2 demo_rows None = Some (item_of demo_iso <$> order) ∧
  order ≡ₚ demo_rows.
Proof.
  destruct (pages_enumerate demo_arrange demo_parse demo_number_text demo_iso 0 (Some (demo_address "S"))
    (demo_address "S") (Some "active") "cliff_asc" 2 demo_rows 4) as (order & Hw & Hp & _).
  - exact demo_json.
  - exact demo_arranges.
  - vm_compute. reflexivity.
  - intros s [= <-]. apply list_elem_of_here.
  - apply list_elem_of_here.
  - intros w [= <-]. reflexivity.
  - lia.
  - vm_compute. reflexivity.
  - vm_compute. lia.
  - exists order. split; [exact Hw|exact Hp].
Defined.

Definition demo_http (at_ : Z) : http_request :=
  Http at_ (Some (demo_address "S")) (page_query (demo_address "S") None "end_desc" 2 None) demo_rows.
(** The second request is answered from the cache. *)
Lemma sponsor_isolation_witness : ∃ r,
  handle_all demo_arrange demo_parse demo_number_text demo_iso (Some 5000) [demo_http 0; demo_http 3000] (Some ∅) !! 1%nat
    = Some (Found true r) ∧ Forall (λ it, sponsor it = demo_address "S") (items r).
Proof.
  eexists. split; [vm_compute; reflexivity|].
  apply (sponsor_isolation demo_arrange demo_parse demo_number_text demo_iso (Some 5000) [demo_http 0; demo_http 3000]
    1 (demo_http 3000) true).
  - intros so l. apply demo_arranges.
  - reflexivity.
  - reflexivity.
  - vm_compute. reflexivity.
  - vm_compute. reflexivity.
Defined.

Definition demo_typed : SchedulesQuery := mkSchedulesQuery (demo_address "S") None "cliff_asc" 1 50 None.
Lemma validated_query_served_witness :
  schedulesHandler demo_arrange demo_parse demo_number_text demo_iso None 0 None (JObject (query_fields demo_typed)) demo_rows None =
  serve demo_arrange demo_number_text demo_iso None 0 (demo_address "S") None "cliff_asc" (Some (inject_Z 1)) (Some 50) demo_rows None.
Proof.
  apply (validated_query_served demo_arrange demo_parse demo_number_text demo_iso no_check no_check demo_Number None 0 None
    (JObject [("sponsor", JString (demo_address "S")); ("limit", JString "50")]) demo_typed demo_rows None).
  - exact demo_json.
  - vm_compute. reflexivity.
  - intros w [=].
  - reflexivity.
  - vm_compute. reflexivity.
Defined.

Lemma zero_page_cursor_fails_witness :
  schedulesHandler demo_arrange demo_parse demo_number_text demo_iso None 0 None
    (page_query (demo_address "S") None "cliff_asc" 25 (Some "eyJwYWdlIjowLCJvZmZzZXQiOjB9")) demo_rows None = (ServerError, None).
Proof.
  apply (zero_page_cursor_fails demo_arrange demo_parse demo_number_text demo_iso 0 None (demo_address "S") None "cliff_asc" 25 demo_rows).
  - exact demo_json.
  - vm_compute. reflexivity.
  - intros s [=].
  - apply list_elem_of_here.
  - intros w [=].
  - lia.
Defined.
