(* ===== verification/Webhooks.v ===== *)
(** * Webhooks

    [backend/src/webhookStore.js], [webhookWorker.js] and [webhookValidator.js]:
    the registrations and delivery logs, the dispatch of an event with its
    concurrent deliveries and retries, the signatures, and the check of webhook
    addresses.  HMAC, [new URL], dates and the network are parameters; every
    [await] of a delivery is a point where other deliveries run. *)
From stdpp Require Import list gmap.
From S2P Require Import Prelude Digits.
#[local] Open Scope Z_scope.

(** ** The store *)

Record WebhookRegistration := Registration {
  reg_id : string;
  sponsorId : string;
  url : string;
  secret : string;
  events : list string }.
Inductive log_status := LogPending | LogSuccess | LogFailed.
#[global] Instance log_status_eq_dec : EqDecision log_status.
Proof. solve_decision. Defined.
Record DeliveryLog := Log {
  webhookId : string;
  log_event : string;
  payload : string;
  status : log_status;
  attempts : Z;
  lastError : option string }.

(** Both maps, the registrations in insertion order; identifiers of logs are
    drawn from [next]. *)
Record store := Store {
  registrations : list WebhookRegistration;
  deliveryLogs : gmap nat DeliveryLog;
  next : nat }.

Definition createRegistration (r : WebhookRegistration) (s : store) : store :=
  Store (registrations s ++ [r]) (deliveryLogs s) (next s).
Definition getRegistration (id : string) (s : store) : option WebhookRegistration :=
  list_find (λ r, reg_id r = id) (registrations s) ≫= λ x, Some x.2.
Definition deleteRegistration (id : string) (s : store) : bool * store :=
  (bool_decide (is_Some (getRegistration id s)),
   Store (filter (λ r, reg_id r ≠ id) (registrations s)) (deliveryLogs s) (next s)).
Definition findRegistrationsByEvent (eventType : string) (s : store) : list WebhookRegistration :=
  filter (λ r, eventType ∈ events r ∨ "*" ∈ events r) (registrations s).

Definition createDeliveryLog (webhookId event payload : string) (s : store) : nat * store :=
  (next s, Store (registrations s)
             (<[next s := Log webhookId event payload LogPending 0 None]> (deliveryLogs s)) (S (next s))).
Definition updateDeliveryLog (id : nat) (attempts : Z) (lastError : option string) (status : log_status) (s : store)
    : store :=
  Store (registrations s)
    (alter (λ l, Log (webhookId l) (log_event l) (payload l) status attempts lastError) id (deliveryLogs s)) (next s).
Definition listDeliveryLogs (id : string) (s : store) : list DeliveryLog :=
  filter (λ l, webhookId l = id) (map_to_list (deliveryLogs s)).*2.

(** ** Signatures *)

Section signatures.
(** The hexadecimal HMAC-SHA256 digest of a text under a secret. *)
Context (hmac : string → string → string).

(** [webhookWorker.js] *)
Definition computeSignature (secret payload : string) : string := "sha256=" +:+ hmac secret payload.

Definition getSigningSecret (env : option string) : option string :=
  match env with Some s => if truthy s then Some s else None | None => None end.

(** [Buffer.from(s, "hex")]: the pairs of digits up to the first that is not one. *)
Definition hex_digit (c : ascii) : option Z :=
  if is_digit c then Some (code c - 48)
  else if in_range 65 70 c then Some (code c - 55)
  else if in_range 97 102 c then Some (code c - 87)
  else None.
Fixpoint from_hex (l : list ascii) : list Z :=
  match l with
  | a :: b :: l' =>
      match hex_digit a, hex_digit b with
      | Some x, Some y => (x * 16 + y) :: from_hex l'
      | _, _ => []
      end
  | _ => []
  end.
(** [webhookValidator.js] *)
Definition validator_computeSignature (payload secret : string) : option string :=
  if truthy secret then Some (hmac secret payload) else None.
Definition validator_verifySignature (payload : string) (signature : option string) (secret : string) : bool :=
  match signature with
  | None => false
  | Some sig =>
      if bool_decide (sig = "") then false
      else match validator_computeSignature payload secret with
           | None => false
           | Some expected =>
               let a := from_hex (chars expected) in
               let b := from_hex (chars sig) in
               if bool_decide (length a ≠ length b) then false else bool_decide (a = b)
           end
  end.
End signatures.

(** ** Deliveries *)

Definition SUPPORTED_EVENTS : list string := ["cliff_reached"; "tokens_claimed"; "stream_cancelled"; "stream_expired"].
Definition MAX_ATTEMPTS : Z := 3.
Definition BASE_DELAY_MS : Z := 1000.
Definition DELIVERY_TIMEOUT_MS : Z := 10000.
Definition BACKFILL_THRESHOLD_MS : Z := 24 * 60 * 60 * 1000.

(** What a receiver is sent. *)
Record post := Post { p_url : string; p_signature : string; p_body : string }.

(** A delivery between two [await]s: before its log exists, waiting for the
    next attempt, with a request under way, and done. *)
Inductive delivery :=
| DStart (reg : WebhookRegistration) (event payload : string)
| DWait (reg : WebhookRegistration) (log : nat) (payload : string) (attempt : Z) (until_ : Z)
| DPost (reg : WebhookRegistration) (log : nat) (payload : string) (attempt : Z) (deadline : Z)
| DDone (log : nat).

Record system := System {
  clock : Z;
  db : store;
  sent : list (nat * post);
  deliveries : gmap nat delivery }.

Definition with_delivery (i : nat) (d : delivery) (s : system) : system :=
  System (clock s) (db s) (sent s) (<[i := d]> (deliveries s)).
Definition with_db (d : store) (s : system) : system := System (clock s) d (sent s) (deliveries s).

Section worker.
Context (hmac : string → string → string).

(** [attemptDelivery] up to its [await]: the signed request goes out. *)
Definition attempt_start (i : nat) (reg : WebhookRegistration) (log : nat) (payload : string) (attempt : Z) (s : system)
    : system :=
  System (clock s) (db s) (sent s ++ [(i, Post (url reg) (computeSignature hmac (secret reg) payload) payload)])
    (<[i := DPost reg log payload attempt (clock s + DELIVERY_TIMEOUT_MS)]> (deliveries s)).

(** The outcome of a request: answered, or an error text. *)
Definition delivery_result := result string (bool * string).
Definition attempt_result (r : delivery_result) : option string :=
  match r with
  | Ok (true, _) => None
  | Ok (false, status_line) => Some ("HTTP " +:+ status_line)
  | Err message => Some message
  end.

(** After the answer: the log is updated, and the loop goes on or ends. *)
Definition attempt_end (i : nat) (reg : WebhookRegistration) (log : nat) (payload : string) (attempt : Z)
    (r : delivery_result) (s : system) : system :=
  let error := attempt_result r in
  let st := match error with
            | None => LogSuccess
            | Some _ => if attempt <? MAX_ATTEMPTS then LogPending else LogFailed
            end in
  let s := with_db (updateDeliveryLog log attempt error st (db s)) s in
  match error with
  | None => with_delivery i (DDone log) s
  | Some _ =>
      if attempt + 1 <=? MAX_ATTEMPTS
      then with_delivery i (DWait reg log payload (attempt + 1) (clock s + BASE_DELAY_MS * 2 ^ (attempt + 1 - 2))) s
      else with_delivery i (DDone log) s
  end.

(** [createDeliveryLog] and the first attempt, which does not wait. *)
Definition delivery_start (i : nat) (reg : WebhookRegistration) (event payload : string) (s : system) : system :=
  let '(log, d) := createDeliveryLog (reg_id reg) event payload (db s) in
  attempt_start i reg log payload 1 (with_db d s).

(** One event of one delivery; [None] when it cannot happen. *)
Definition delivery_step (i : nat) (r : delivery_result) (s : system) : option system :=
  d ← deliveries s !! i;
  match d with
  | DStart reg event payload => Some (delivery_start i reg event payload s)
  | DWait reg log payload attempt until_ =>
      if until_ <=? clock s then Some (attempt_start i reg log payload attempt s) else None
  | DPost reg log payload attempt deadline =>
      Some (attempt_end i reg log payload attempt
              (if clock s <=? deadline then r else Err "This operation was aborted") s)
  | DDone _ => None
  end.

(** [dispatch]: the checks, the backfill guard, and one delivery per subscribed
    registration, numbered from [base]; [None] when it throws. *)
Definition dispatch (base : nat) (eventType : string) (timestamp : number) (payload : string) (s : system)
    : option system :=
  if negb (bool_decide (eventType ∈ SUPPORTED_EVENTS)) then None
  else match timestamp with
       | None => None
       | Some t =>
           if BACKFILL_THRESHOLD_MS <? clock s - t then Some s
           else Some (foldl (λ s ir, with_delivery (base + ir.1)%nat (DStart ir.2 eventType payload) s) s
                        (imap (λ i r, (i, r)) (findRegistrationsByEvent eventType (db s))))
       end.
End worker.

(** ** Addresses *)

Fixpoint strip_prefix (p l : list ascii) : option (list ascii) :=
  match p, l with
  | [], _ => Some l
  | a :: p', b :: l' => if decide (a = b) then strip_prefix p' l' else None
  | _ :: _, [] => None
  end.
Definition has_prefix (p : string) (l : list ascii) : bool := bool_decide (is_Some (strip_prefix (chars p) l)).

(** [\d\d?\d?\.] with the digits the pattern lists: the number before the dot. *)
Definition label2 (test : ascii → ascii → bool) (l : list ascii) : bool :=
  match l with
  | a :: b :: l' => test a b && match l' with c :: _ => bool_decide (c = "."%char) | [] => false end
  | _ => false
  end.
Definition label3 (test : ascii → ascii → ascii → bool) (l : list ascii) : bool :=
  match l with
  | a :: b :: l' =>
      is_digit b && match l' with
                    | c :: l'' => test a b c && match l'' with d :: _ => bool_decide (d = "."%char) | [] => false end
                    | [] => false
                    end
  | _ => false
  end.
Definition after (p : string) (k : list ascii → bool) (l : list ascii) : bool :=
  match strip_prefix (chars p) l with Some r => k r | None => false end.

(** [/^172\.(1[6-9]|2\d|3[01])\./] *)
Definition re_172 : list ascii → bool :=
  after "172." (label2 (λ a b, bool_decide (a = "1"%char) && in_range 54 57 b || bool_decide (a = "2"%char) && is_digit b
                               || bool_decide (a = "3"%char) && in_range 48 49 b)).
(** [/^100\.(6[4-9]|[7-9]\d|1[01]\d|12[0-7])\./] *)
Definition re_100 (l : list ascii) : bool :=
  after "100." (λ r,
    label2 (λ a b, bool_decide (a = "6"%char) && in_range 52 57 b || in_range 55 57 a && is_digit b) r ||
    label3 (λ a b c, bool_decide (a = "1"%char) && (in_range 48 49 b && is_digit c || bool_decide (b = "2"%char) && in_range 48 55 c)) r) l.
Definition private_ipv4 (l : list ascii) : bool :=
  has_prefix "127." l || has_prefix "10." l || re_172 l || has_prefix "192.168." l || has_prefix "169.254." l ||
  has_prefix "0." l || re_100 l.
Definition private_ipv6 (l : list ascii) : bool :=
  let lower := lower_char <$> l in
  bool_decide (l = chars "::1") || has_prefix "fc" lower || has_prefix "fd" lower || has_prefix "fe80" lower.

(** [host.replace(/^\[(.+)\]$/, "$1")] *)
Definition strip_brackets (l : list ascii) : list ascii :=
  match l with
  | c :: l' =>
      if decide (c = "["%char) then
        match reverse l' with
        | d :: m => if decide (d = "]"%char) then if decide (m = []) then l else reverse m else l
        | [] => l
        end
      else l
  | [] => l
  end.
Definition isPrivateIp (host : string) : bool :=
  let h := strip_brackets (chars host) in private_ipv4 h || private_ipv6 h.

Record parsed_url := Url { protocol : string; hostname : string }.
Inductive validity := Valid | Rejected (reason : string).

Section validator.
(** [new URL(raw)], [None] when it throws, and the addresses of a name, [None]
    when the lookup fails. *)
Context (new_URL : string → option parsed_url) (resolve : string → option (list string)).

Definition validateWebhookUrl (raw : string) : validity :=
  match new_URL raw with
  | None => Rejected "URL is not valid"
  | Some u =>
      if bool_decide (protocol u ≠ "https:") then Rejected "Webhook URL must use HTTPS"
      else if negb (truthy (hostname u)) then Rejected "URL has no hostname"
      else if isPrivateIp (hostname u) then Rejected "Webhook URL must not target a private or loopback IP address"
      else if bool_decide (to_lower (hostname u) = "localhost") then Rejected "Webhook URL must not target localhost"
      else Valid
  end.

(** [/^\d+\.\d+\.\d+\.\d+$/] *)
Definition dotted_quad (l : list ascii) : bool :=
  match split_chars "." l with
  | [a; b; c; d] => forallb (λ x, bool_decide (x ≠ []) && forallb is_digit x) [a; b; c; d]
  | _ => false
  end.
Definition validateWebhookUrlDeep (raw : string) : validity :=
  match validateWebhookUrl raw, new_URL raw with
  | Valid, Some u =>
      if dotted_quad (chars (hostname u)) || starts_with "[" (hostname u) then Valid
      else match resolve (hostname u) with
           | Some addresses =>
               match list_find (λ a, isPrivateIp a = true) addresses with
               | Some _ => Rejected "Hostname resolves to a private IP address"
               | None => Valid
               end
           | None => Valid
           end
  | v, _ => v
  end.
End validator.

(** What can happen: a delivery goes on (with what the network answers, when a
    request is under way), an event is dispatched, time passes, registrations
    come and go. *)
Inductive action :=
| Deliver (i : nat) (answer : delivery_result)
| Dispatch (base : nat) (eventType : string) (timestamp : number) (payload : string)
| Pass (until_ : Z)
| Subscribe (reg : WebhookRegistration)
| Unsubscribe (id : string).
Inductive step hmac (s : system) : action → system → Prop :=
| step_delivery i r s' : delivery_step hmac i r s = Some s' → step hmac s (Deliver i r) s'
| step_dispatch base eventType timestamp payload s' :
    (∀ i, (base ≤ i)%nat → deliveries s !! i = None) →
    dispatch base eventType timestamp payload s = Some s' → step hmac s (Dispatch base eventType timestamp payload) s'
| step_time t : clock s <= t → step hmac s (Pass t) (System t (db s) (sent s) (deliveries s))
| step_register r : step hmac s (Subscribe r) (with_db (createRegistration r (db s)) s)
| step_delete id : step hmac s (Unsubscribe id) (with_db (snd (deleteRegistration id (db s))) s).

(** A history: what happened, oldest first, each with the states before and
    after it. *)
Definition occurrence : Type := system * action * system.
Inductive history hmac (s0 : system) : list occurrence → system → Prop :=
| history_nil : history hmac s0 [] s0
| history_snoc es s a s' : history hmac s0 es s → step hmac s a s' → history hmac s0 (es ++ [(s, a, s')]) s'.

Definition idle (s : system) : Prop := sent s = [] ∧ deliveries s = ∅ ∧ deliveryLogs (db s) = ∅.

(** ** Lemmas *)

Definition log_of (d : delivery) : option nat :=
  match d with DStart _ _ _ => None | DWait _ l _ _ _ | DPost _ l _ _ _ | DDone l => Some l end.
Definition posts (s : system) (i : nat) : list post := (filter (λ p, p.1 = i) (sent s)).*2.
Definition signed (hmac : string → string → string) (reg : WebhookRegistration) (payload : string) (p : post) : Prop :=
  p = Post (url reg) (computeSignature hmac (secret reg) payload) payload.

(** What delivery [i] was told, read off the history: an occurrence of [i] that
    puts a request on the wire sets the time it was made, any other one is the
    answer to it.  An answer is no error when it is a success within ten
    seconds. *)
Record ear := Ear { asked_at : Z; answers : list (option string) }.
Definition verdict (asked now : Z) (r : delivery_result) : option string :=
  if 10000 <? now - asked then Some "This operation was aborted"
  else match r with
       | Err message => Some message
       | Ok (ok, line) => if ok : bool then None else Some ("HTTP " +:+ line)
       end.
Definition listen (i : nat) (e : ear) (o : occurrence) : ear :=
  match o.1.2 with
  | Deliver j r =>
      if decide (j = i) then
        if (length (posts o.1.1 i) <? length (posts o.2 i))%nat then Ear (clock o.1.1) (answers e)
        else Ear (asked_at e) (answers e ++ [verdict (asked_at e) (clock o.1.1) r])
      else e
  | _ => e
  end.
Definition heard (i : nat) (es : list occurrence) : ear := foldl (listen i) (Ear 0 []) es.

(** Delivery [i] is the one a dispatch of [ev] in the history, of an event at
    most a day old, made for [reg]: among the registrations of that moment
    that ask for [ev] or for everything, the one of its number. *)
Definition addressed (es : list occurrence) (i : nat) (reg : WebhookRegistration) (ev p : string) : Prop :=
  ∃ sd sd' base t, (sd, Dispatch base ev (Some t) p, sd') ∈ es ∧ clock sd - t <= 24 * 3600 * 1000 ∧ (base ≤ i)%nat ∧
    filter (λ r, ev ∈ events r ∨ "*" ∈ events r) (registrations (db sd)) !! (i - base)%nat = Some reg.

(** A delivery under way agrees with its log, with what was sent and with what
    it was told. *)
Definition pending_ok hmac (es : list occurrence) (s : system) (i : nat) (reg : WebhookRegistration) (l : nat) (p : string)
    (told : nat) : Prop :=
  Forall (signed hmac reg p) (posts s i) ∧ length (answers (heard i es)) = told ∧
  Forall is_Some (answers (heard i es)) ∧
  ∃ ev e, addressed es i reg ev p ∧ deliveryLogs (db s) !! l = Some (Log (reg_id reg) ev p LogPending (Z.of_nat told) e).
Definition delivery_ok hmac (es : list occurrence) (s : system) (i : nat) (d : delivery) : Prop :=
  match d with
  | DStart reg ev p => posts s i = [] ∧ answers (heard i es) = [] ∧ addressed es i reg ev p
  | DWait reg l p a _ => 2 <= a <= MAX_ATTEMPTS ∧ Z.of_nat (length (posts s i)) = a - 1 ∧
      pending_ok hmac es s i reg l p (Z.to_nat (a - 1))
  | DPost reg l p a deadline => 1 <= a <= MAX_ATTEMPTS ∧ Z.of_nat (length (posts s i)) = a ∧
      deadline = asked_at (heard i es) + 10000 ∧ pending_ok hmac es s i reg l p (Z.to_nat (a - 1))
  | DDone l => ∃ reg ev p st failed e, let n := length (posts s i) in
      addressed es i reg ev p ∧
      deliveryLogs (db s) !! l = Some (Log (reg_id reg) ev p st (Z.of_nat n) e) ∧ Z.of_nat n <= MAX_ATTEMPTS ∧
      Forall (signed hmac reg p) (posts s i) ∧ answers (heard i es) = failed ++ [e] ∧
      length (answers (heard i es)) = n ∧ Forall is_Some failed ∧
      (st = LogSuccess ∧ e = None ∨ st = LogFailed ∧ Z.of_nat n = MAX_ATTEMPTS ∧ is_Some e)
  end.
Record system_ok hmac (es : list occurrence) (s : system) : Prop := SystemOk {
  so_delivery : ∀ i d, deliveries s !! i = Some d → delivery_ok hmac es s i d;
  so_logs : ∀ i j d d' l, deliveries s !! i = Some d → deliveries s !! j = Some d' →
    log_of d = Some l → log_of d' = Some l → i = j;
  so_next : ∀ l, is_Some (deliveryLogs (db s) !! l) → (l < next (db s))%nat;
  so_used : ∀ i d l, deliveries s !! i = Some d → log_of d = Some l → is_Some (deliveryLogs (db s) !! l);
  so_sent : ∀ i, deliveries s !! i = None → posts s i = [] ∧ heard i es = Ear 0 [] }.

Lemma heard_snoc i es o : heard i (es ++ [o]) = listen i (heard i es) o.
Proof. unfold heard. by rewrite foldl_app. Qed.
Lemma addressed_mono es o i reg ev p : addressed es i reg ev p → addressed (es ++ [o]) i reg ev p.
Proof. intros (sd & sd' & base & t & Hin & H). exists sd, sd', base, t. split; [|done]. apply elem_of_app. by left. Qed.
Lemma verdict_spec asked s r :
  attempt_result (if clock s <=? asked + 10000 then r else Err "This operation was aborted") = verdict asked (clock s) r.
Proof.
  unfold verdict. destruct (Z.leb_spec (clock s) (asked + 10000)), (Z.ltb_spec 10000 (clock s - asked)); try lia; try done.
Qed.

Lemma posts_app s i ps : posts (System (clock s) (db s) (sent s ++ ps) (deliveries s)) i =
  posts s i ++ (filter (λ p, p.1 = i) ps).*2.
Proof. unfold posts. simpl. by rewrite filter_app, fmap_app. Qed.

(** A delivery that is left alone stays as it was. *)
Lemma delivery_ok_frame hmac es o s s' i d : posts s' i = posts s i → heard i (es ++ [o]) = heard i es →
  (∀ l, log_of d = Some l → deliveryLogs (db s') !! l = deliveryLogs (db s) !! l) →
  delivery_ok hmac es s i d → delivery_ok hmac (es ++ [o]) s' i d.
Proof.
  intros Hp Hh Hl. destruct d as [reg ev p|reg l p a u|reg l p a u|l]; unfold delivery_ok, pending_ok; rewrite Hp, Hh.
  - naive_solver eauto using addressed_mono.
  - rewrite (Hl l eq_refl). naive_solver eauto using addressed_mono.
  - rewrite (Hl l eq_refl). naive_solver eauto using addressed_mono.
  - rewrite (Hl l eq_refl). intros (reg & ev & p & st & failed & e & H & Hr). exists reg, ev, p, st, failed, e.
    split; [by apply addressed_mono|done].
Qed.

(** One delivery moves on: its own entry, its own log and its own requests
    change, and nothing else does. *)
Lemma system_ok_move hmac es s s' i r d d' : system_ok hmac es s → deliveries s !! i = Some d →
  deliveries s' = <[i := d']> (deliveries s) →
  (∀ j, j ≠ i → posts s' j = posts s j) →
  (∀ l, deliveryLogs (db s') !! l = deliveryLogs (db s) !! l ∨ log_of d' = Some l) →
  (∀ l, is_Some (deliveryLogs (db s) !! l) → is_Some (deliveryLogs (db s') !! l)) →
  (∀ l, is_Some (deliveryLogs (db s') !! l) → (l < next (db s'))%nat) →
  (∀ l, log_of d' = Some l → is_Some (deliveryLogs (db s') !! l) ∧
     (log_of d = Some l ∨ deliveryLogs (db s) !! l = None)) →
  delivery_ok hmac (es ++ [(s, Deliver i r, s')]) s' i d' → system_ok hmac (es ++ [(s, Deliver i r, s')]) s'.
Proof.
  intros [Hd Hl Hn Hu Hs] Hi Hdel Hposts Hlogs Hkeep Hnext Hown Hok.
  assert (Hheard : ∀ j, j ≠ i → heard j (es ++ [(s, Deliver i r, s')]) = heard j es).
  { intros j Hj. rewrite heard_snoc. unfold listen. simpl. by rewrite decide_False. }
  assert (Hfresh : ∀ j dj l, j ≠ i → deliveries s !! j = Some dj → log_of dj = Some l → log_of d' ≠ Some l).
  { intros j dj l Hne Hj Hlj Hl'. destruct (Hown l Hl') as [_ [Hold|Hnone]].
    - by destruct Hne; eapply Hl.
    - destruct (Hu _ _ _ Hj Hlj). congruence. }
  split; rewrite ?Hdel.
  - intros j dj [[<- <-]|[Hne Hj]]%lookup_insert_Some; [done|].
    apply (delivery_ok_frame hmac es _ s); [by apply Hposts|by apply Hheard| |by apply Hd].
    intros l Hlj. destruct (Hlogs l) as [|Hl']; [done|]. by destruct (Hfresh j dj l).
  - intros j k dj dk l [[<- <-]|[Hnj Hj]]%lookup_insert_Some [[<- <-]|[Hnk Hk]]%lookup_insert_Some Hlj Hlk; [done|..].
    + by destruct (Hfresh k dk l).
    + by destruct (Hfresh j dj l).
    + by eapply Hl.
  - done.
  - intros j dj l [[<- <-]|[Hne Hj]]%lookup_insert_Some Hlj; [by apply Hown|]. by eapply Hkeep, Hu.
  - intros j [Hj Hne]%lookup_insert_None. rewrite Hposts, Hheard by done. by apply Hs.
Qed.

Lemma posts_attempt hmac i j reg l p a s : posts (attempt_start hmac i reg l p a s) j =
  posts s j ++ (if decide (i = j) then [Post (url reg) (computeSignature hmac (secret reg) p) p] else []).
Proof.
  unfold posts, attempt_start. simpl. rewrite filter_app, fmap_app. f_equal. rewrite filter_cons. simpl.
  by destruct (decide (i = j)).
Qed.

(** What a delivery has heard after it puts a request on the wire, and after
    an answer. *)
Lemma heard_attempt hmac es i r reg l p a s s0 : posts s0 i = posts s i →
  heard i (es ++ [(s0, Deliver i r, attempt_start hmac i reg l p a s)]) = Ear (clock s0) (answers (heard i es)).
Proof.
  intros Hp. rewrite heard_snoc. unfold listen. cbn [fst snd]. rewrite decide_True, posts_attempt, Hp, decide_True by done.
  rewrite length_app. simpl. by destruct (Nat.ltb_spec (length (posts s i)) (length (posts s i) + 1)); [|lia].
Qed.
Lemma heard_answer es i r s s' : posts s' i = posts s i →
  heard i (es ++ [(s, Deliver i r, s')]) =
  Ear (asked_at (heard i es)) (answers (heard i es) ++ [verdict (asked_at (heard i es)) (clock s) r]).
Proof.
  intros Hp. rewrite heard_snoc. unfold listen. cbn [fst snd]. rewrite decide_True, Hp by done. by rewrite Nat.ltb_irrefl.
Qed.

Lemma delivery_start_ok hmac es i r reg ev p s : system_ok hmac es s → deliveries s !! i = Some (DStart reg ev p) →
  system_ok hmac (es ++ [(s, Deliver i r, delivery_start hmac i reg ev p s)]) (delivery_start hmac i reg ev p s).
Proof.
  intros Hok Hi. unfold delivery_start, createDeliveryLog.
  assert (Hnew : deliveryLogs (db s) !! next (db s) = None).
  { apply eq_None_not_Some. intros Hs%(so_next _ _ _ Hok). lia. }
  eapply (system_ok_move hmac es s _ i _ _ (DPost reg (next (db s)) p 1 _)); [done|done|done|..].
  - intros j Hj. rewrite posts_attempt, decide_False by done. apply app_nil_r.
  - intros l. simpl. destruct (decide (next (db s) = l)) as [<-|]; [by right|left]. by rewrite lookup_insert_ne.
  - intros l. simpl. destruct (decide (next (db s) = l)) as [<-|]; [by rewrite lookup_insert_eq; eauto|].
    by rewrite lookup_insert_ne.
  - intros l. simpl. destruct (decide (next (db s) = l)) as [<-|]; [lia|]. rewrite lookup_insert_ne by done.
    intros Hs%(so_next _ _ _ Hok). lia.
  - intros l [= <-]. simpl. rewrite lookup_insert_eq. eauto.
  - destruct (so_delivery _ _ _ Hok _ _ Hi) as (Hp & Hans & Haddr).
    unfold delivery_ok, pending_ok. rewrite heard_attempt by done. rewrite posts_attempt, decide_True by done.
    change (posts (with_db _ s) i) with (posts s i). rewrite Hp. cbn [answers asked_at]. rewrite Hans.
    split_and!; [done|done|done|done|by repeat constructor|done|done|]. simpl. rewrite lookup_insert_eq.
    exists ev, None. split; [by apply addressed_mono|done].
Qed.

Lemma retry_ok hmac es i r reg l p a u s : system_ok hmac es s → deliveries s !! i = Some (DWait reg l p a u) →
  system_ok hmac (es ++ [(s, Deliver i r, attempt_start hmac i reg l p a s)]) (attempt_start hmac i reg l p a s).
Proof.
  intros Hok Hi. destruct (so_delivery _ _ _ Hok _ _ Hi) as (Ha & Hlen & Hsig & Hans & Hall & ev & e & Haddr & Hlog).
  eapply (system_ok_move hmac es s _ i _ _ (DPost reg l p a _)); [done|done|done|..].
  - intros j Hj. rewrite posts_attempt, decide_False by done. apply app_nil_r.
  - by left.
  - done.
  - apply Hok.
  - intros l' [= <-]. split; [by eapply (so_used _ _ _ Hok)|by left].
  - unfold delivery_ok, pending_ok. rewrite heard_attempt by done. rewrite posts_attempt, decide_True, length_app by done.
    simpl length. cbn [answers asked_at]. split_and!; [lia|lia|lia|done|by apply Forall_app; split; [|repeat constructor]|done|done|].
    exists ev, e. split; [by apply addressed_mono|done].
Qed.

Lemma end_ok hmac es i r reg l p a dl s : system_ok hmac es s → deliveries s !! i = Some (DPost reg l p a dl) →
  let s' := attempt_end i reg l p a (if clock s <=? dl then r else Err "This operation was aborted") s in
  system_ok hmac (es ++ [(s, Deliver i r, s')]) s'.
Proof.
  intros Hok Hi. destruct (so_delivery _ _ _ Hok _ _ Hi) as (Ha & Hlen & -> & Hsig & Hans & Hall & ev & e & Haddr & Hlog).
  unfold attempt_end. rewrite verdict_spec. set (v := verdict _ _ r).
  assert (Hmove : ∀ st d', log_of d' = Some l →
    let s' := with_delivery i d' (with_db (updateDeliveryLog l a v st (db s)) s) in
    let es' := es ++ [(s, Deliver i r, s')] in
    (answers (heard i es') = answers (heard i es) ++ [v] → addressed es' i reg ev p →
     deliveryLogs (db s') !! l = Some (Log (reg_id reg) ev p st a v) → delivery_ok hmac es' s' i d') →
    system_ok hmac es' s').
  { intros st d' Hd' s' es' Hd. eapply (system_ok_move hmac es s s' i); [done|done|done|..]; try done.
    - intros l'. simpl. destruct (decide (l = l')) as [<-|]; [by right|left]. by rewrite lookup_alter_ne.
    - intros l'. simpl. rewrite lookup_alter_is_Some. done.
    - intros l'. simpl. rewrite lookup_alter_is_Some. apply Hok.
    - intros l' Hl'. simpl. rewrite lookup_alter_is_Some. rewrite Hd' in Hl'. simplify_eq.
      split; [by eapply (so_used _ _ _ Hok)|by left].
    - apply Hd; [unfold es'; by rewrite heard_answer|by apply addressed_mono|]. simpl. by rewrite lookup_alter_eq, Hlog. }
  destruct v as [err|] eqn:Hv.
  - destruct (Z.leb_spec (a + 1) MAX_ATTEMPTS); (destruct (Z.ltb_spec a MAX_ATTEMPTS); [|try lia]; try lia);
      (apply Hmove; [done|]); intros Hans' Haddr' Hlog'; unfold delivery_ok, pending_ok; rewrite Hans'; cbn [posts];
      change (posts (with_delivery _ _ _) i) with (posts s i).
    + split_and!; [lia|done|lia|done|rewrite length_app; simpl; lia|by apply Forall_app; split; [|repeat constructor]|].
      exists ev, (Some err). split; [done|]. rewrite Hlog'. do 2 f_equal. lia.
    + exists reg, ev, p, LogFailed, (answers (heard i es)), (Some err). rewrite Hlog', Hlen, length_app. simpl.
      split_and!; [done|done|lia|done|done|lia|done|]. right. split_and!; [done|lia|by eexists].
  - apply Hmove; [done|]. intros Hans' Haddr' Hlog'. unfold delivery_ok. rewrite Hans'.
    change (posts (with_delivery _ _ _) i) with (posts s i).
    exists reg, ev, p, LogSuccess, (answers (heard i es)), None. rewrite Hlog', Hlen, length_app. simpl.
    split_and!; [done|done|lia|done|done|lia|done|]. by left.
Qed.

Lemma delivery_step_ok hmac es i r s s' : system_ok hmac es s → delivery_step hmac i r s = Some s' →
  system_ok hmac (es ++ [(s, Deliver i r, s')]) s'.
Proof.
  intros Hok (d & Hi & Hd)%bind_Some. destruct d as [reg ev p|reg l p a u|reg l p a dl|l]; simplify_eq.
  - by eapply delivery_start_ok.
  - destruct (u <=? clock s); simplify_eq. by eapply retry_ok.
  - by eapply end_ok.
Qed.

(** The deliveries of one dispatch. *)
Lemma dispatch_deliveries base ev p regs : ∀ k s,
  let s' := foldl (λ s ir, with_delivery (base + ir.1)%nat (DStart ir.2 ev p) s) s (imap (λ i r, ((k + i)%nat, r)) regs) in
  clock s' = clock s ∧ db s' = db s ∧ sent s' = sent s ∧
  ∀ j, deliveries s' !! j =
    match (if decide (base + k ≤ j)%nat then regs !! (j - (base + k))%nat else None) with
    | Some r => Some (DStart r ev p)
    | None => deliveries s !! j
    end.
Proof.
  induction regs as [|r regs IH]; intros k s.
  { simpl. split_and!; [done..|]. intros j. by destruct (decide _). }
  rewrite imap_cons. cbn [foldl fst snd]. rewrite Nat.add_0_r.
  rewrite (imap_ext _ (λ i r, ((S k + i)%nat, r))) by (intros; simpl; f_equal; lia).
  destruct (IH (S k) (with_delivery (base + k) (DStart r ev p) s)) as (-> & -> & -> & Hd). split_and!; [done..|].
  intros j. rewrite Hd. simpl. destruct (decide (base + k = j)%nat) as [<-|Hne].
  - rewrite decide_False by lia. rewrite decide_True by lia. rewrite Nat.sub_diag. simpl. by rewrite lookup_insert_eq.
  - rewrite lookup_insert_ne by done. destruct (decide (base + S k ≤ j)%nat).
    + rewrite decide_True by lia. replace (j - (base + k))%nat with (S (j - (base + S k))) by lia. done.
    + by rewrite decide_False by lia.
Qed.

Lemma dispatch_unfold base ev ts p s s' : dispatch base ev ts p s = Some s' →
  ∃ t, ts = Some t ∧ ev ∈ SUPPORTED_EVENTS ∧
    (BACKFILL_THRESHOLD_MS < clock s - t ∧ s' = s ∨
     clock s - t <= BACKFILL_THRESHOLD_MS ∧ clock s' = clock s ∧ db s' = db s ∧ sent s' = sent s ∧
       ∀ j, deliveries s' !! j =
         match (if decide (base ≤ j)%nat then findRegistrationsByEvent ev (db s) !! (j - base)%nat else None) with
         | Some r => Some (DStart r ev p)
         | None => deliveries s !! j
         end).
Proof.
  unfold dispatch. destruct (bool_decide (ev ∈ SUPPORTED_EVENTS)) eqn:Hev; [|done]. apply bool_decide_eq_true in Hev.
  cbn [negb]. destruct ts as [t|]; [|done]. destruct (Z.ltb_spec BACKFILL_THRESHOLD_MS (clock s - t)); intros [= <-].
  { exists t. auto. }
  exists t. split_and!; [done..|right]. split; [done|].
  destruct (dispatch_deliveries base ev p (findRegistrationsByEvent ev (db s)) 0 s) as (H1 & H2 & H3 & H4).
  split_and!; [done..|]. intros j. rewrite H4, Nat.add_0_r. done.
Qed.

Lemma dispatch_ok hmac es base ev ts p s s' : system_ok hmac es s → (∀ i, (base ≤ i)%nat → deliveries s !! i = None) →
  dispatch base ev ts p s = Some s' → system_ok hmac (es ++ [(s, Dispatch base ev ts p, s')]) s'.
Proof.
  intros Hok Hfree (t & Hts & _ & Hd)%dispatch_unfold.
  assert (Hheard : ∀ j, heard j (es ++ [(s, Dispatch base ev ts p, s')]) = heard j es) by (intros j; apply heard_snoc).
  assert (Hcase : sent s' = sent s ∧ db s' = db s ∧ (∀ j, deliveries s' !! j = None → deliveries s !! j = None) ∧
    ∀ j d, deliveries s' !! j = Some d → deliveries s !! j = Some d ∨
      (deliveries s !! j = None ∧ ∃ r, d = DStart r ev p ∧ addressed (es ++ [(s, Dispatch base ev ts p, s')]) j r ev p)).
  { destruct Hd as [[_ ->]|(Ht & _ & Hdb & Hsent & Hdel)]; [by split_and!; auto|]. split_and!; [done|done|..].
    - intros j. rewrite Hdel. by destruct (if decide _ then _ else _).
    - intros j d. rewrite Hdel. destruct (decide (base ≤ j)%nat) as [Hj|]; [|by left].
      destruct (findRegistrationsByEvent ev (db s) !! (j - base)%nat) as [r|] eqn:Hr; [|by left].
      intros [= <-]. right. split; [by apply Hfree|]. exists r. split; [done|]. exists s, s', base, t. rewrite Hts.
      split_and!; [by apply elem_of_app; right; apply list_elem_of_singleton|done|done|exact Hr]. }
  destruct Hcase as (Hsent & Hdb & Hnone & Hcase).
  assert (Hposts : ∀ j, posts s' j = posts s j) by (intros j; unfold posts; by rewrite Hsent).
  split; rewrite ?Hdb.
  - intros i d Hi. destruct (Hcase _ _ Hi) as [?|[Hn (r & -> & Haddr)]].
    + apply (delivery_ok_frame hmac es _ s); [done|done|by rewrite Hdb|by apply Hok].
    + destruct (so_sent _ _ _ Hok _ Hn) as [Hp Hh]. simpl. by rewrite Hposts, Hheard, Hh.
  - intros i j d d' l Hi Hj Hl Hl'. destruct (Hcase _ _ Hi) as [?|[_ (r & -> & _)]], (Hcase _ _ Hj) as [?|[_ (r' & -> & _)]]; try done.
    by eapply (so_logs _ _ _ Hok).
  - apply Hok.
  - intros i d l Hi Hl. destruct (Hcase _ _ Hi) as [?|[_ (r & -> & _)]]; [by eapply (so_used _ _ _ Hok)|done].
  - intros i Hi. rewrite Hposts, Hheard. by apply (so_sent _ _ _ Hok), Hnone.
Qed.

Lemma same_deliveries_ok hmac es a s s' : system_ok hmac es s → (∀ i r, a ≠ Deliver i r) → deliveries s' = deliveries s →
  sent s' = sent s → deliveryLogs (db s') = deliveryLogs (db s) → next (db s') = next (db s) →
  system_ok hmac (es ++ [(s, a, s')]) s'.
Proof.
  intros [Hd Hl Hn Hu Hs] Ha H1 H2 H3 H4.
  assert (Hposts : ∀ j, posts s' j = posts s j) by (intros j; unfold posts; by rewrite H2).
  assert (Hheard : ∀ j, heard j (es ++ [(s, a, s')]) = heard j es).
  { intros j. rewrite heard_snoc. unfold listen. simpl. destruct a; try done. by destruct (Ha i answer). }
  split; rewrite ?H1, ?H3, ?H4; try done.
  - intros i d Hi. apply (delivery_ok_frame hmac es _ s); [done|done|by rewrite H3|by apply Hd].
  - intros i Hi. rewrite Hposts, Hheard. by apply Hs.
Qed.

Lemma webhook_step_ok hmac es s a s' : system_ok hmac es s → step hmac s a s' → system_ok hmac (es ++ [(s, a, s')]) s'.
Proof.
  intros Hok Hs. destruct Hs; [by eapply delivery_step_ok|by eapply dispatch_ok|by eapply same_deliveries_ok..].
Qed.
Lemma webhook_idle_ok hmac s : idle s → system_ok hmac [] s.
Proof.
  intros (Hs & Hd & Hl). split; rewrite ?Hd, ?Hl; try (by intros); [by intros l [? H]|].
  intros i _. unfold posts. by rewrite Hs.
Qed.
Lemma webhook_history_ok hmac s0 es s : idle s0 → history hmac s0 es s → system_ok hmac es s.
Proof. intros Hi Hs. induction Hs; eauto using webhook_step_ok, webhook_idle_ok. Qed.

(** *** Signatures *)


(** *** IPv4 addresses *)

Definition octet (z : Z) : Prop := 0 <= z < 256.
Definition octets : list Z := Z.of_nat <$> seq 0 256.
Lemma octet_in z : octet z → In z octets.
Proof.
  intros Hz. unfold octets. apply in_map_iff. exists (Z.to_nat z). unfold octet in Hz. rewrite in_seq. lia.
Qed.
(** The text of an address after its first octets. *)
Definition label (z : Z) (l : list ascii) : list ascii := chars (Z_to_string z) ++ "."%char :: l.

(** The blocks of the comments: 127/8, 10/8, 172.16/12, 192.168/16, 169.254/16,
    0/8 and 100.64/10. *)
Definition reserved (a b : Z) : bool :=
  (a =? 127) || (a =? 10) || (a =? 172) && (16 <=? b) && (b <=? 31) || (a =? 192) && (b =? 168) ||
  (a =? 169) && (b =? 254) || (a =? 0) || (a =? 100) && (64 <=? b) && (b <=? 127).

(** A label and its dot are read off exactly when the label is the same. *)
Lemma strip_prefix_label p t l : "."%char ∉ p → "."%char ∉ t →
  strip_prefix (p ++ ["."%char]) (t ++ "."%char :: l) = if decide (t = p) then Some l else None.
Proof.
  revert t. induction p as [|a p IH]; intros t Hp Ht.
  - destruct t as [|c t]; [done|]. apply not_elem_of_cons in Ht as [Hc _]. cbn [app strip_prefix].
    by rewrite !decide_False by done.
  - apply not_elem_of_cons in Hp as [Ha Hp]. destruct t as [|c t]; cbn [app strip_prefix].
    + by rewrite decide_False.
    + apply not_elem_of_cons in Ht as [_ Ht]. destruct (decide (a = c)) as [->|Hne].
      * rewrite IH by done. destruct (decide (t = p)) as [->|Hn]; [by rewrite decide_True|].
        rewrite decide_False; [done|]. by intros [= ->].
      * rewrite decide_False; [done|]. intros [= -> ->]. done.
Qed.
Lemma strip_prefix_app p q l : strip_prefix (p ++ q) l = strip_prefix p l ≫= strip_prefix q.
Proof. revert l. induction p as [|a p IH]; intros [|b l]; simpl; try done. by destruct (decide _). Qed.

Lemma digits_no_dot z : octet z → "."%char ∉ chars (Z_to_string z).
Proof.
  intros [Hz _] Hin. destruct (chars_Z_to_string z Hz) as [Hd _]. rewrite forallb_forall in Hd.
  apply list_elem_of_In in Hin. by apply Hd in Hin.
Qed.
Lemma chars_Z_inj z n : chars (Z_to_string z) = chars (Z_to_string n) → z = n.
Proof. intros H. apply (inj Z_to_string). by rewrite <-(of_chars_chars (Z_to_string z)), H, of_chars_chars. Qed.

(** Each octet is decided by the text up to its dot. *)
Lemma strip_label n z l : octet n → octet z →
  strip_prefix (chars (Z_to_string n) ++ ["."%char]) (label z l) = if decide (z = n) then Some l else None.
Proof.
  intros Hn Hz. unfold label. rewrite strip_prefix_label by by apply digits_no_dot.
  destruct (decide (z = n)) as [->|Hne]; [by rewrite decide_True|].
  rewrite decide_False; [done|]. by intros ?%chars_Z_inj.
Qed.
Lemma has_prefix_label n z l : octet n → octet z →
  bool_decide (is_Some (strip_prefix (chars (Z_to_string n) ++ ["."%char]) (label z l))) = (z =? n).
Proof.
  intros Hn Hz. rewrite strip_label by done. destruct (decide (z = n)) as [->|Hne].
  - rewrite Z.eqb_refl. by apply bool_decide_eq_true.
  - rewrite (proj2 (Z.eqb_neq z n) Hne). apply bool_decide_eq_false. by intros [? ?].
Qed.
Lemma has_prefix_label2 n m y z l : octet n → octet m → octet y → octet z →
  bool_decide (is_Some (strip_prefix ((chars (Z_to_string n) ++ ["."%char]) ++ chars (Z_to_string m) ++ ["."%char]) (label y (label z l))))
  = (y =? n) && (z =? m).
Proof.
  intros Hn Hm Hy Hz. rewrite strip_prefix_app, strip_label by done. destruct (decide (y = n)) as [->|Hne].
  - rewrite Z.eqb_refl. by apply has_prefix_label.
  - rewrite (proj2 (Z.eqb_neq y n) Hne). apply bool_decide_eq_false. by intros [? ?].
Qed.

Definition test_172 (a b : ascii) : bool :=
  bool_decide (a = "1"%char) && in_range 54 57 b || bool_decide (a = "2"%char) && is_digit b
  || bool_decide (a = "3"%char) && in_range 48 49 b.
Definition test_100 (r : list ascii) : bool :=
  label2 (λ a b, bool_decide (a = "6"%char) && in_range 52 57 b || in_range 55 57 a && is_digit b) r ||
  label3 (λ a b c, bool_decide (a = "1"%char) && (in_range 48 49 b && is_digit c || bool_decide (b = "2"%char) && in_range 48 55 c)) r.
Lemma label_tests : Forall (λ b, ∀ r, label2 test_172 (label b r) = (16 <=? b) && (b <=? 31) ∧
  test_100 (label b r) = (64 <=? b) && (b <=? 127)) octets.
Proof. unfold octets. cbn [seq fmap list_fmap]. repeat (apply Forall_cons; split; [intros r; split; reflexivity|]). apply Forall_nil_2. Qed.

Lemma re_172_label a b r : octet a → octet b → re_172 (label a (label b r)) = (a =? 172) && (16 <=? b) && (b <=? 31).
Proof.
  intros Ha Hb. unfold re_172, after. change (chars "172.") with (chars (Z_to_string 172) ++ ["."%char]).
  rewrite strip_label by (done || by unfold octet). pose proof label_tests as Ht. rewrite Forall_forall in Ht.
  destruct (Ht b (proj2 (list_elem_of_In _ _) (octet_in b Hb)) r) as [Hl _].
  destruct (decide (a = 172)) as [->|Hne]; [by rewrite <-andb_assoc, <-Hl|]. by rewrite (proj2 (Z.eqb_neq a 172) Hne).
Qed.
Lemma re_100_label a b r : octet a → octet b → re_100 (label a (label b r)) = (a =? 100) && (64 <=? b) && (b <=? 127).
Proof.
  intros Ha Hb. unfold re_100, after. change (chars "100.") with (chars (Z_to_string 100) ++ ["."%char]).
  rewrite strip_label by (done || by unfold octet). pose proof label_tests as Ht. rewrite Forall_forall in Ht.
  destruct (Ht b (proj2 (list_elem_of_In _ _) (octet_in b Hb)) r) as [_ Hl].
  destruct (decide (a = 100)) as [->|Hne]; [by rewrite <-andb_assoc, <-Hl|]. by rewrite (proj2 (Z.eqb_neq a 100) Hne).
Qed.

Lemma label_head a l : octet a → ∃ c m, label a l = c :: m ∧ is_digit c = true.
Proof.
  intros [Ha _]. destruct (chars_Z_to_string a Ha) as (Hd & _ & Hne). unfold label.
  destruct (chars (Z_to_string a)) as [|c m]; [done|]. exists c, (m ++ "."%char :: l). split; [done|].
  simpl in Hd. by apply andb_true_iff in Hd as [? _].
Qed.

(** ** Theorems *)


(** Steps a delivery has left. *)
Definition steps_left (d : delivery) : Z :=
  match d with
  | DStart _ _ _ => 2 * MAX_ATTEMPTS
  | DWait _ _ _ a _ => 2 * (MAX_ATTEMPTS - a) + 2
  | DPost _ _ _ a _ => 2 * (MAX_ATTEMPTS - a) + 1
  | DDone _ => 0
  end.
(** Every delivery comes to an end: each of its steps brings it closer, at
    most six are needed, and only a wait of at most two seconds can hold it up. *)
Theorem webhook_delivery_terminates hmac s0 es s i d : idle s0 → history hmac s0 es s → deliveries s !! i = Some d →
  0 <= steps_left d <= 6 ∧ (steps_left d = 0 ↔ ∃ l, d = DDone l) ∧
  (∀ r s', delivery_step hmac i r s = Some s' →
     ∃ d', deliveries s' !! i = Some d' ∧ steps_left d' < steps_left d ∧
       ∀ reg l p a u, d' = DWait reg l p a u → u - clock s' <= 2000) ∧
  (∀ r, delivery_step hmac i r s = None → (∃ l, d = DDone l) ∨ ∃ reg l p a u, d = DWait reg l p a u ∧ clock s < u).
Proof.
  intros Hi Hs Hd. pose proof (webhook_history_ok hmac s0 es s Hi Hs) as Hok.
  pose proof (so_delivery _ _ _ Hok _ _ Hd) as Hdok. unfold delivery_step. rewrite Hd. cbn [mbind option_bind].
  assert (HM : MAX_ATTEMPTS = 3) by done. assert (HB : BASE_DELAY_MS = 1000) by done.
  destruct d as [reg ev p|reg l p a u|reg l p a dl|l]; unfold delivery_ok in Hdok; cbn [steps_left].
  - split_and!; [lia|lia|split; [lia|by intros [? ?]]| |done]. intros r s' [= <-].
    eexists. simpl. rewrite lookup_insert_eq. split_and!; [done|cbn [steps_left]; lia|done].
  - destruct Hdok as (Ha & _). split_and!; [lia|lia|split; [lia|by intros [? ?]]| |].
    + intros r s'. destruct (Z.leb_spec u (clock s)); [|done]. intros [= <-].
      eexists. simpl. rewrite lookup_insert_eq. split_and!; [done|cbn [steps_left]; lia|done].
    + intros r. destruct (Z.leb_spec u (clock s)); [done|]. intros _. right. eauto 10.
  - destruct Hdok as (Ha & _). split_and!; [lia|lia|split; [lia|by intros [? ?]]| |done].
    intros r s' [= <-]. unfold attempt_end. destruct (attempt_result _).
    + destruct (Z.leb_spec (a + 1) MAX_ATTEMPTS); eexists; cbn [with_delivery with_db deliveries]; rewrite lookup_insert_eq;
        (split_and!; [done|cbn [steps_left]; lia|]); [|done].
      intros reg' l' p' a' u' [= <- <- <- <- <-]. cbn [with_delivery with_db clock]. rewrite HB.
      assert (a = 1 ∨ a = 2) as [-> | ->] by lia; simpl; lia.
    + eexists. cbn [with_delivery with_db deliveries]. rewrite lookup_insert_eq. split_and!; [done|cbn [steps_left]; lia|done].
  - split_and!; [lia|lia|split; eauto|done|eauto].
Qed.

(** The text check of webhook addresses refuses exactly the reserved IPv4
    blocks: for every address, written in dotted decimal, it is refused if and
    only if it lies in 127/8, 10/8, 172.16/12, 192.168/16, 169.254/16, 0/8 or
    100.64/10. *)
Theorem private_ipv4_blocks a b c d : octet a → octet b → octet c → octet d →
  isPrivateIp (of_chars (label a (label b (label c (chars (Z_to_string d)))))) = reserved a b.
Proof.
  intros Ha Hb _ _. generalize (label c (chars (Z_to_string d))). intros r.
  destruct (label_head a (label b r) Ha) as (x & m & Hx & Hdig).
  assert (Hx1 : ∀ y, is_digit y = false → x ≠ y) by (intros y Hy ->; congruence).
  unfold isPrivateIp. rewrite chars_of_chars.
  assert (strip_brackets (label a (label b r)) = label a (label b r)) as ->.
  { rewrite Hx. simpl. rewrite decide_False; [done|]. by apply Hx1. }
  assert (private_ipv6 (label a (label b r)) = false) as ->.
  { rewrite Hx. unfold private_ipv6. rewrite fmap_cons.
    assert (lower_char x = x) as -> by (unfold lower_char, is_upper, is_digit, in_range in *; by destruct (65 <=? code x) eqn:?; destruct (code x <=? 90) eqn:?; simpl; try done; lia).
    rewrite bool_decide_false by (intros [= ->]; discriminate Hdig). unfold has_prefix. simpl.
    by rewrite !decide_False by (intros <-; discriminate Hdig). }
  rewrite orb_false_r. unfold private_ipv4, has_prefix.
  change (chars "127.") with (chars (Z_to_string 127) ++ ["."%char]).
  change (chars "10.") with (chars (Z_to_string 10) ++ ["."%char]).
  change (chars "0.") with (chars (Z_to_string 0) ++ ["."%char]).
  change (chars "192.168.") with ((chars (Z_to_string 192) ++ ["."%char]) ++ chars (Z_to_string 168) ++ ["."%char]).
  change (chars "169.254.") with ((chars (Z_to_string 169) ++ ["."%char]) ++ chars (Z_to_string 254) ++ ["."%char]).
  rewrite !has_prefix_label, !has_prefix_label2, re_172_label, re_100_label by (done || by unfold octet).
  done.
Qed.

(** A dispatch starts exactly one delivery for every registration that asks
    for the event (or for all), at the moment it looks, and nothing for events
    more than a day old; it throws for an event type the worker does not know
    and for an invalid date, whatever is registered. *)
Theorem dispatch_spec base eventType timestamp p s : (∀ i, (base ≤ i)%nat → deliveries s !! i = None) →
  match dispatch base eventType timestamp p s with
  | None => eventType ∉ SUPPORTED_EVENTS ∨ timestamp = None
  | Some s' => ∃ t, timestamp = Some t ∧ eventType ∈ SUPPORTED_EVENTS ∧ sent s' = sent s ∧ db s' = db s ∧
      (∀ i, (i < base)%nat → deliveries s' !! i = deliveries s !! i) ∧
      ∀ k, deliveries s' !! (base + k)%nat =
        (if bool_decide (clock s - t <= BACKFILL_THRESHOLD_MS)
         then (λ r, DStart r eventType p) <$> findRegistrationsByEvent eventType (db s) !! k else None)
  end.
Proof.
  intros Hfree. destruct (dispatch base eventType timestamp p s) as [s'|] eqn:Hd.
  - apply dispatch_unfold in Hd as (t & -> & Hev & [[Hold ->]|(Hnew & _ & Hdb & Hsent & Hdel)]); exists t; (split_and!; try done).
    + intros k. rewrite bool_decide_false by lia. apply Hfree. lia.
    + intros i Hi. rewrite Hdel, decide_False by lia. done.
    + intros k. rewrite Hdel, decide_True, bool_decide_true by lia.
      replace (base + k - base)%nat with k by lia. destruct (_ !! k); [done|]. apply Hfree. lia.
  - unfold dispatch in Hd. destruct (bool_decide (eventType ∈ SUPPORTED_EVENTS)) eqn:He; [|left; by apply bool_decide_eq_false in He].
    cbn [negb] in Hd. destruct timestamp; [|by right]. by destruct (_ <? _).
Qed.

(** The check refuses host names that merely begin with the letters of a
    private IPv6 prefix, and lets the IPv4-mapped form of the loopback address
    pass. *)
Theorem private_check_misses :
  isPrivateIp "fcbarcelona.example" = true ∧ isPrivateIp "[::ffff:7f00:1]" = false.
Proof. vm_compute. split; reflexivity. Qed.

(** A signature made by the worker is never accepted by the check of
    [webhookValidator.js], which expects the bare digest. *)
Theorem worker_signature_fails_validator hmac secret payload :
  truthy secret = true → from_hex (chars (hmac secret payload)) ≠ [] →
  validator_verifySignature hmac payload (Some (computeSignature hmac secret payload)) secret = false.
Proof.
  intros Hs Hne. unfold validator_verifySignature, validator_computeSignature. rewrite Hs.
  rewrite bool_decide_false by done.
  assert (from_hex (chars (computeSignature hmac secret payload)) = []) as -> by done.
  rewrite bool_decide_true; [done|]. by destruct (from_hex (chars (hmac secret payload))).
Qed.

(** ** Witnesses *)

Definition demo_hmac (_ _ : string) : string := "00ff".
Definition demo_reg : WebhookRegistration := Registration "w1" "GS" "https://hooks.example/a" "s3cret" ["tokens_claimed"].
Definition demo_idle : system := System 0 (Store [demo_reg] ∅ 0) [] ∅.
Definition demo_body : string := "{}".
Definition demo_post : post := Post "https://hooks.example/a" "sha256=00ff" demo_body.
Definition demo_finished : system :=
  System 1000 (Store [demo_reg] {[0%nat := Log "w1" "tokens_claimed" demo_body LogSuccess 2 None]} 1)
    [(0%nat, demo_post); (0%nat, demo_post)] {[0%nat := DDone 0]}.
(** One event: the first request is answered with an error, the second, a
    second later, with a success. *)
Definition demo_actions : list action :=
  [Dispatch 0 "tokens_claimed" (Some 0) demo_body; Deliver 0 (Err ""); Deliver 0 (Ok (false, "503")); Pass 1000;
   Deliver 0 (Err ""); Deliver 0 (Ok (true, "200"))].
Definition demo_after (a : action) (s : system) : system :=
  match a with
  | Deliver i r => default s (delivery_step demo_hmac i r s)
  | Dispatch base ev ts p => default s (dispatch base ev ts p s)
  | Pass t => System t (db s) (sent s) (deliveries s)
  | _ => s
  end.
Fixpoint demo_history (s : system) (acts : list action) : list occurrence :=
  match acts with
  | [] => []
  | a :: acts => (s, a, demo_after a s) :: demo_history (demo_after a s) acts
  end.
Fixpoint demo_steps (s : system) (acts : list action) : Prop :=
  match acts with [] => True | a :: acts => step demo_hmac s a (demo_after a s) ∧ demo_steps (demo_after a s) acts end.
Lemma demo_delivery_plays s0 acts : ∀ es s, history demo_hmac s0 es s → demo_steps s acts →
  history demo_hmac s0 (es ++ demo_history s acts) (foldl (flip demo_after) s acts).
Proof.
  induction acts as [|a acts IH]; intros es s Hs; [by rewrite app_nil_r|]. intros [Ha Hr]. cbn [demo_history foldl flip].
  rewrite cons_middle, (assoc app). apply IH; [by apply history_snoc|done].
Qed.
Lemma demo_deliveries : history demo_hmac demo_idle (demo_history demo_idle demo_actions) demo_finished.
Proof.
  replace demo_finished with (foldl (flip demo_after) demo_idle demo_actions) by (vm_compute; reflexivity).
  apply (demo_delivery_plays demo_idle demo_actions [] demo_idle); [apply history_nil|]. unfold demo_actions.
  split; [|split; [|split; [|split; [|split; [|split]]]]].
  - apply step_dispatch; [reflexivity|vm_compute; reflexivity].
  - apply step_delivery. vm_compute. reflexivity.
  - apply step_delivery. vm_compute. reflexivity.
  - apply step_time. vm_compute. discriminate.
  - apply step_delivery. vm_compute. reflexivity.
  - apply step_delivery. vm_compute. reflexivity.
  - exact I.
Qed.


Lemma webhook_delivery_terminates_witness : steps_left (DDone 0) = 0 ∧ ∀ r, delivery_step demo_hmac 0 r demo_finished = None.
Proof.
  destruct (webhook_delivery_terminates demo_hmac demo_idle (demo_history demo_idle demo_actions) demo_finished 0 (DDone 0)) as (_ & H & _).
  - repeat split.
  - exact demo_deliveries.
  - vm_compute. reflexivity.
  - split; [apply H; exists 0%nat; reflexivity|]. intros r. reflexivity.
Defined.

Lemma private_ipv4_blocks_witness : isPrivateIp "172.31.255.1" = true ∧ isPrivateIp "172.32.0.1" = false.
Proof.
  split.
  - apply (private_ipv4_blocks 172 31 255 1); split; vm_compute; congruence.
  - apply (private_ipv4_blocks 172 32 0 1); split; vm_compute; congruence.
Defined.

Lemma dispatch_spec_witness : ∃ s', dispatch 0 "tokens_claimed" (Some 0) demo_body demo_idle = Some s' ∧
  deliveries s' !! 0%nat = Some (DStart demo_reg "tokens_claimed" demo_body).
Proof.
  pose proof (dispatch_spec 0 "tokens_claimed" (Some 0) demo_body demo_idle (λ i _, eq_refl)) as H.
  eexists. split; [vm_compute; reflexivity|]. vm_compute. reflexivity.
Defined.

Lemma worker_signature_fails_validator_witness :
  validator_verifySignature demo_hmac demo_body (Some (computeSignature demo_hmac "s3cret" demo_body)) "s3cret" = false.
Proof. apply worker_signature_fails_validator; vm_compute; [reflexivity|discriminate]. Defined.
