(* ===== verification/ErrorMessages.v ===== *)
(** * Error messages

    [frontend/src/lib/errorMessages.ts], [frontend/src/errorMessages.ts] and the
    error parsing of [frontend/src/hooks/useTxStatus.ts]: the tables of texts,
    and how a message from the network becomes one of them.  The codes of the
    contract, [src/error.rs], are data to compare with. *)
From stdpp Require Import list.
From S2P Require Import Prelude Digits.
#[local] Open Scope Z_scope.

Inductive ErrorCategory := network | auth | contract | unexpected.
(** [i18nKey] is missing in the older table. *)
Record ErrorInfo := Info {
  title : string;
  explanation : string;
  action : string;
  category : ErrorCategory;
  retryable : bool;
  faqUrl : option string;
  i18nKey : option string }.

(** [src/error.rs] *)
Definition VestingError : list (string * Z) :=
  [("ScheduleNotFound", 1); ("CliffNotReached", 2); ("InvalidDuration", 3); ("InvalidRate", 4); ("DepositOverflow", 5); ("ScheduleAlreadyExists", 6); ("NothingToClaim", 7); ("StreamNotExpired", 8); ("DrainDelayNotExpired", 9); ("InvalidRecipient", 10); ("TransferFailed", 11); ("InvalidCliffDuration", 12); ("AlreadyInitialized", 13); ("RecipientNotAllowed", 14); ("StreamPaused", 15); ("BatchTooLarge", 16); ("RateTooLow", 17); ("NotInitialized", 18); ("InvalidSegments", 19); ("MetadataTooLong", 20); ("Unauthorized", 21); ("DepositBelowMinimum", 22); ("StreamAlreadyPaused", 23); ("StreamNotPaused", 24); ("VersionOverflow", 25); ("ClawbackNotSupported", 26); ("InvalidToken", 27); ("ReasonTooLong", 28); ("InvalidMilestones", 29); ("Reentrancy", 30)].

Definition key (name : string) : option string := Some ("errors.codes." +:+ name).

(** [lib/errorMessages.ts] *)
Definition VESTING_ERROR_CODES : list (string * Z) :=
  [("ScheduleNotFound", 1); ("CliffNotReached", 2); ("InvalidDuration", 3); ("InvalidRate", 4); ("DepositOverflow", 5); ("ScheduleAlreadyExists", 6); ("NothingToClaim", 7); ("StreamNotExpired", 8); ("TransferFailed", 9); ("DrainDelayNotExpired", 10); ("InvalidRecipient", 11); ("InvalidCliffDuration", 12); ("AlreadyInitialized", 13); ("RecipientNotAllowed", 14); ("StreamPaused", 15); ("BatchTooLarge", 16); ("RateTooLow", 17); ("NotInitialized", 18); ("InvalidSegments", 19); ("MetadataTooLong", 20); ("Unauthorized", 21); ("DepositBelowMinimum", 22); ("StreamAlreadyPaused", 23); ("StreamNotPaused", 24); ("VersionOverflow", 25); ("ClawbackNotSupported", 26); ("InvalidToken", 27)].
Definition errorMessages : list (Z * ErrorInfo) :=
  [(1, Info "No vesting stream found"
      "We couldn't find a vesting stream for this address."
      "Double-check the address, and confirm you're connected with the wallet the stream was created for. If you expect a stream here, ask your sponsor to create one."
      auth false (Some "#error-codes") (key "ScheduleNotFound"));
   (2, Info "Your cliff date hasn't arrived yet"
      "Tokens unlock in a single release once the cliff date passes."
      "Nothing to do right now — check the cliff date on your stream and come back then. Tokens drip linearly from that point onwards."
      auth true (Some "#claiming") (key "CliffNotReached"));
   (3, Info "The durations don't line up"
      "The total duration must be longer than the cliff duration."
      "Increase the total duration or shorten the cliff, so there's time left after the cliff for tokens to drip."
      contract false None (key "InvalidDuration"));
   (4, Info "That rate won't work"
      "The token rate must be a whole number greater than zero."
      "Enter a rate of at least 1 token per ledger."
      contract false None (key "InvalidRate"));
   (5, Info "That deposit is too large"
      "Rate multiplied by duration would exceed the maximum amount the contract can track."
      "Reduce the rate, shorten the duration, or both, so the total deposit stays within the allowed limit."
      contract false (Some "#error-codes") (key "DepositOverflow"));
   (6, Info "A stream already exists for this recipient"
      "Each recipient address can only have one active vesting stream at a time."
      "Cancel the existing stream first, or use a different recipient address."
      contract false None (key "ScheduleAlreadyExists"));
   (7, Info "You've already claimed all available tokens"
      "Your claimable balance is 0 for this ledger. Tokens accrue as the network produces new ledgers."
      "Check back soon for more — there's nothing to do right now."
      contract true None (key "NothingToClaim"));
   (8, Info "This stream hasn't finished yet"
      "This action is only available once the stream has reached its end date."
      "Wait until the stream's end date has passed, then try again."
      contract true None (key "StreamNotExpired"));
   (9, Info "The transfer failed"
      "The token transfer couldn't be completed. Your tokens are safe — nothing was moved."
      "Please try again in a moment. If it keeps failing, check that your account isn't frozen and has enough balance."
      network true (Some "#token-support") (key "TransferFailed"));
   (10, Info "It's too early to recover unclaimed tokens"
      "There's a mandatory waiting period after a stream ends before unclaimed tokens can be recovered by the sponsor."
      "Wait for the full delay period after the end date, then try again."
      contract true None (key "DrainDelayNotExpired"));
   (11, Info "That recipient address won't work"
      "The sponsor and the recipient must be different addresses."
      "Enter a recipient address that isn't your own wallet."
      auth false None (key "InvalidRecipient"));
   (12, Info "The cliff duration isn't valid"
      "The cliff duration must be greater than zero — a stream needs a lock-up period before anything unlocks."
      "Enter a cliff duration of at least 1 ledger."
      contract false None (key "InvalidCliffDuration"));
   (13, Info "This contract is already set up"
      "Initialisation can only happen once, right after deployment."
      "No action needed — the contract is ready to use."
      contract false None (key "AlreadyInitialized"));
   (14, Info "That recipient isn't allowed"
      "This deployment only streams to a configured list of approved recipient addresses."
      "Ask the stream owner to add this address to the allowlist, or use a different recipient."
      auth false None (key "RecipientNotAllowed"));
   (21, Info "You're not allowed to do that"
      "Only the contract administrator or the original sponsor can perform this action."
      "If you started this stream, check that you're connected with the same wallet. Otherwise, ask the sponsor to make the change."
      auth false None (key "Unauthorized"));
   (18, Info "This contract isn't ready yet"
      "The contract hasn't been initialised yet, so it can't accept streams or claims."
      "This is an operator issue — please contact support if it persists."
      contract false None (key "NotInitialized"));
   (15, Info "This stream is paused"
      "The sponsor has temporarily paused this stream, so claims are disabled."
      "Nothing to do — ask the sponsor to resume the stream when you're ready to claim again."
      contract true None (key "StreamPaused"));
   (23, Info "This stream is already paused"
      "You can only pause a stream that isn't already paused."
      "No action needed — the stream is already paused."
      contract false None (key "StreamAlreadyPaused"));
   (24, Info "This stream isn't paused"
      "You can only resume a stream that's currently paused."
      "No action needed — the stream is already running."
      contract false None (key "StreamNotPaused"));
   (16, Info "Too many streams in one go"
      "Batch creation is limited to 20 streams per transaction to keep it affordable and reliable."
      "Split your list into smaller batches of 20 or fewer and submit again."
      contract false None (key "BatchTooLarge"));
   (17, Info "That rate is below the minimum"
      "Rate multiplied by total duration falls under the minimum deposit this contract accepts."
      "Increase the rate, lengthen the duration, or both, so the total deposit meets the minimum."
      contract false None (key "RateTooLow"));
   (22, Info "The deposit is below the minimum"
      "The total deposit doesn't reach the minimum amount this contract accepts."
      "Increase the rate, lengthen the duration, or both, so the total deposit meets the minimum."
      contract false None (key "DepositBelowMinimum"));
   (19, Info "The rate segments aren't valid"
      "Variable-rate streams need at least one segment, in order, each with a rate greater than zero."
      "Check that your segments are listed in chronological order and that every rate is greater than zero."
      contract false None (key "InvalidSegments"));
   (20, Info "That description is too long"
      "Stream metadata is limited to 256 bytes."
      "Shorten the description and try again."
      contract false None (key "MetadataTooLong"));
   (25, Info "The stream has reached its version limit"
      "This stream has been updated more times than the contract can track."
      "Please contact support — the stream needs manual attention before it can be changed again."
      unexpected false None (key "VersionOverflow"));
   (26, Info "This token doesn't support clawback"
      "Clawback requires the token issuer to have enabled it. Most tokens don't support it."
      "Cancel the stream instead to recover the unspent deposit — that works with any standard token."
      contract false (Some "#token-support") (key "ClawbackNotSupported"));
   (27, Info "That token address isn't valid"
      "The token address doesn't appear to be a valid Stellar Asset Contract (SAC). A balance probe failed during stream creation."
      "Double-check the token address. It must be a deployed SAC contract, not a raw asset code or a non-token contract."
      contract false (Some "#token-support") (key "InvalidToken"))].
Definition UNEXPECTED_ERROR : ErrorInfo :=
  Info "Something unexpected happened"
    "We hit an error we don't recognise while processing your request."
    "Try again in a moment. If this keeps happening, refresh the page or contact support."
    unexpected true None (key "Unexpected").

Definition lookup_code {A} (code : Z) (l : list (Z * A)) : option A :=
  (λ x, x.2.2) <$> list_find (λ e : Z * A, e.1 = code) l.
Definition getErrorInfo (code : Z) : ErrorInfo := default UNEXPECTED_ERROR (lookup_code code errorMessages).
Definition getErrorMessage (code : Z) (date address : option string) : string :=
  let info := getErrorInfo code in
  match (if decide (code = 2) then date else None) with
  | Some d => if truthy d
              then "Your cliff date hasn't arrived yet. Tokens will unlock on " +:+ d +:+ ". " +:+ action info
              else title info +:+ ". " +:+ explanation info +:+ " " +:+ action info
  | None =>
      match (if decide (code = 1) then address else None) with
      | Some a => if truthy a then "No vesting stream found for " +:+ a +:+ ". Double-check the address."
                  else title info +:+ ". " +:+ explanation info +:+ " " +:+ action info
      | None => title info +:+ ". " +:+ explanation info +:+ " " +:+ action info
      end
  end.
Definition getErrorName (code : Z) : string :=
  default "Unexpected" ((λ x, x.2.1) <$> list_find (λ e : string * Z, e.2 = code) VESTING_ERROR_CODES).
Definition isKnownErrorCode (code : Z) : bool := bool_decide (is_Some (lookup_code code errorMessages)).

(** [errorMessages.ts], the table the hooks use *)
Definition client_errorMessages : list (Z * ErrorInfo) :=
  [(1, Info "No vesting stream found"
      "We couldn't find an active vesting stream for your wallet address."
      "Make sure you're connected with the right wallet. If you're expecting a stream, ask your sponsor to create one for your address."
      auth false (Some "#faq-schedule-not-found") None);
   (2, Info "Tokens are still locked"
      "Your vesting cliff hasn't been reached yet. Tokens can't be claimed until the cliff date passes."
      "Check the cliff date on your stream and come back then. No action is needed right now."
      auth true (Some "#faq-cliff") None);
   (11, Info "Invalid recipient address"
      "The sponsor and recipient can't be the same wallet address."
      "Enter a different recipient address that is not your own wallet."
      auth false None None);
   (3, Info "Invalid stream duration"
      "The total vesting duration must be longer than the cliff duration."
      "Increase the total duration or shorten the cliff so there's time left after the cliff to drip tokens."
      contract false None None);
   (4, Info "Invalid token rate"
      "The token rate per ledger must be a positive number greater than zero."
      "Enter a rate of at least 1 token per ledger."
      contract false None None);
   (5, Info "Deposit amount too large"
      "The combination of rate and duration would result in a deposit that's too large to process."
      "Reduce the rate, shorten the duration, or both, so the total deposit stays within the allowed limit."
      contract false (Some "#faq-overflow") None);
   (6, Info "Stream already exists"
      "A vesting stream is already active for this recipient address."
      "Cancel the existing stream before creating a new one for the same recipient."
      contract false None None);
   (7, Info "Nothing to claim right now"
      "There are no tokens available to claim at this moment. Tokens accrue every ledger."
      "Wait a moment and try again. Your balance grows automatically with each new ledger."
      contract true None None);
   (8, Info "Stream hasn't ended yet"
      "This action requires the stream to have fully completed, but the end date hasn't passed yet."
      "Wait until the stream's end date has passed before trying this again."
      contract true None None);
   (10, Info "Too early to drain"
      "There's a mandatory waiting period after a stream ends before unclaimed tokens can be recovered."
      "Wait for the full delay period to pass after the stream's end date, then try again."
      contract true (Some "#faq-drain-delay") None);
   (9, Info "Token transfer failed"
      "The token transfer couldn't be completed. This can happen if the account is frozen, has insufficient balance, or the token contract rejected the transfer."
      "Check your account status and token balance, then try again. If the problem persists, contact your token issuer."
      network true None None)].
Definition client_getErrorInfo (code : Z) : ErrorInfo :=
  default (Info "Something unexpected happened" "An unrecognised error occurred while processing your request."
             "Try again in a moment. If this keeps happening, contact support or check the documentation."
             unexpected true None None) (lookup_code code client_errorMessages).

(** ** Messages from the network *)

(** The regular expressions, read from left to right; [p] is in lower case and
    letters match in both cases. *)
Fixpoint strip_ci (p l : list ascii) : option (list ascii) :=
  match p, l with
  | [], _ => Some l
  | a :: p', b :: l' => if decide (lower_char b = a) then strip_ci p' l' else None
  | _ :: _, [] => None
  end.
Definition skip_space (l : list ascii) : list ascii := text_of (drop_while fst (units l)).
Definition some_space (l : list ascii) : option (list ascii) :=
  match units l with (true, _) :: _ => Some (skip_space l) | _ => None end.
(** [[:\s]+] *)
Definition colon_or_space (l : list ascii) : list ascii :=
  text_of (drop_while (λ u : bool * list ascii, u.1 || bool_decide (u.2 = [":"%char])) (units l)).
Definition digits (l : list ascii) : option (Z * list ascii) :=
  match take_while is_digit l with
  | [] => None
  | ds => Some (digits_value 0 ds, drop_while is_digit l)
  end.
(** The first position at which a pattern matches. *)
Fixpoint search {A} (m : list ascii → option A) (l : list ascii) : option A :=
  match m l with
  | Some a => Some a
  | None => match l with [] => None | _ :: l' => search m l' end
  end.

(** [/Error\s*\(\s*Contract\s*,\s*#(\d+)\s*\)/i] *)
Definition match_soroban (l : list ascii) : option Z :=
  l ← strip_ci (chars "error") l; l ← strip_ci (chars "(") (skip_space l);
  l ← strip_ci (chars "contract") (skip_space l); l ← strip_ci (chars ",") (skip_space l);
  l ← strip_ci (chars "#") (skip_space l); r ← digits l;
  _ ← strip_ci (chars ")") (skip_space r.2); Some r.1.
(** [/contract\s+error[:\s]+(\d+)/i] *)
Definition match_contract (l : list ascii) : option Z :=
  l ← strip_ci (chars "contract") l; l ← some_space l; l ← strip_ci (chars "error") l;
  let l' := colon_or_space l in
  if decide (length l' = length l) then None else fst <$> digits l'.
(** [/VestingError\s*\(?\s*(\d+)/i] *)
Definition match_vesting (l : list ascii) : option Z :=
  l ← strip_ci (chars "vestingerror") l;
  let l := skip_space l in
  let l := skip_space (default l (strip_ci (chars "(") l)) in
  fst <$> digits l.

Definition parseContractErrorCode (msg : string) : option Z :=
  match search match_soroban (chars msg) with
  | Some c => Some c
  | None => match search match_contract (chars msg) with
            | Some c => Some c
            | None => search match_vesting (chars msg)
            end
  end.

Definition mentions (words : list string) (msg : string) : bool :=
  existsb (λ w, bool_decide (is_Some (search (strip_ci (chars w)) (chars msg)))) words.
Definition buildErrorMessage (raw : string) : string :=
  match parseContractErrorCode raw with
  | Some code => let info := client_getErrorInfo code in
                 title info +:+ ": " +:+ explanation info +:+ " " +:+ action info
  | None =>
      if mentions ["user rejected"; "user denied"] raw then "Wallet signing was cancelled."
      else if mentions ["network"; "fetch"] raw then "Network error — please check your connection and try again."
      else if truthy raw then raw else "An unexpected error occurred. Please try again."
  end.

(** ** Lemmas *)

Fixpoint contains (needle hay : list ascii) : bool :=
  bool_decide (take (length needle) hay = needle) || match hay with [] => false | _ :: hay' => contains needle hay' end.
Definition texts (i : ErrorInfo) : list string := [title i; explanation i; action i].

Lemma search_here {A} (m : list ascii → option A) l a : m l = Some a → search m l = Some a.
Proof. destruct l; simpl; by intros ->. Qed.
Lemma search_skip {A} (m : list ascii → option A) c l : m (c :: l) = None → search m (c :: l) = search m l.
Proof. simpl. by intros ->. Qed.
Lemma digits_app n l c : 0 <= n → is_digit c = false → digits (chars (Z_to_string n) ++ c :: l) = Some (n, c :: l).
Proof.
  intros Hn Hc. destruct (chars_Z_to_string n Hn) as (Hd & Hv & Hne). unfold digits.
  assert (H : ∀ ds, forallb is_digit ds = true →
    take_while is_digit (ds ++ c :: l) = ds ∧ drop_while is_digit (ds ++ c :: l) = c :: l).
  { induction ds as [|d ds IH]; simpl; [by rewrite Hc|]. intros [-> Hds]%andb_true_iff. destruct (IH Hds) as [-> ->]. done. }
  destruct (H _ Hd) as [-> ->]. destruct (chars (Z_to_string n)); [done|]. by rewrite Hv.
Qed.
Lemma skip_space_plain c l : plain c = true → skip_space (c :: l) = c :: l.
Proof.
  intros Hc. unfold skip_space. rewrite units_plain by done. cbn [drop_while fst].
  rewrite text_of_cons, text_of_units. done.
Qed.

Lemma skip_space_space c l : plain c = true → skip_space (" "%char :: c :: l) = c :: l.
Proof.
  intros Hc. rewrite <-(skip_space_plain c l) at 2 by done. unfold skip_space. f_equal.
Qed.
Lemma strip_ci_app p q l : map lower_char q = p → strip_ci p (q ++ l) = Some l.
Proof. intros <-. induction q as [|c q IH]; simpl; [done|]. by rewrite decide_True. Qed.
Lemma strip_token p c q l : plain c = true → map lower_char (c :: q) = p →
  strip_ci p (skip_space (c :: q ++ l)) = Some l.
Proof. intros Hc Hp. rewrite skip_space_plain by done. by apply (strip_ci_app p (c :: q)). Qed.
Lemma match_soroban_code n l : 0 <= n →
  match_soroban (chars "Error(Contract, #" ++ chars (Z_to_string n) ++ ")"%char :: l) = Some n.
Proof.
  intros Hn. unfold match_soroban.
  change (chars "Error(Contract, #" ++ chars (Z_to_string n) ++ ")"%char :: l) with
    (chars "Error" ++ "("%char :: [] ++ "C"%char :: chars "ontract" ++ ","%char :: [] ++
       " "%char :: "#"%char :: chars (Z_to_string n) ++ ")"%char :: [] ++ l).
  rewrite (strip_ci_app _ (chars "Error")) by done. cbn [option_bind mbind].
  rewrite (strip_token _ "("%char []) by done. cbn [option_bind mbind].
  rewrite (strip_token _ "C"%char (chars "ontract")) by done. cbn [option_bind mbind].
  rewrite (strip_token _ ","%char []) by done. cbn [option_bind mbind].
  rewrite skip_space_space by done. change ("#"%char :: ?x) with (["#"%char] ++ x).
  rewrite (strip_ci_app _ ["#"%char]) by done. cbn [option_bind mbind].
  rewrite digits_app by done. cbn [option_bind mbind fst snd].
  by rewrite (strip_token _ ")"%char []).
Qed.

(** The check of one entry, as a boolean. *)
Definition entry_ok (z : Z) : bool :=
  match lookup_code z ((λ e : string * Z, (e.2, e.1)) <$> VESTING_ERROR_CODES) with
  | Some name => isKnownErrorCode z && bool_decide (getErrorName z = name) && bool_decide (i18nKey (getErrorInfo z) = key name) &&
      forallb (λ t, truthy t && negb (contains (chars (Z_to_string z)) (chars t))) (texts (getErrorInfo z))
  | None => false
  end.
Lemma entry_ok_spec z : entry_ok z = true →
  match lookup_code z ((λ e : string * Z, (e.2, e.1)) <$> VESTING_ERROR_CODES) with
  | Some name => isKnownErrorCode z = true ∧ getErrorName z = name ∧ i18nKey (getErrorInfo z) = key name ∧
      Forall (λ t, t ≠ "" ∧ contains (chars (Z_to_string z)) (chars t) = false) (texts (getErrorInfo z))
  | None => False
  end.
Proof.
  unfold entry_ok. destruct (lookup_code z _) as [name|]; [|done].
  rewrite !andb_true_iff, !bool_decide_eq_true, forallb_forall. intros [[[-> ->] ->] Ht]. split_and!; [done..|].
  apply Forall_forall. intros t Hin%list_elem_of_In%Ht. apply andb_true_iff in Hin as [H1 H2].
  split; [by apply bool_decide_eq_true in H1|by apply negb_true_iff in H2].
Qed.
Lemma codes_in_range {A} (l : list (Z * A)) code : forallb (λ e, (1 <=? e.1) && (e.1 <=? 27)) l = true →
  ¬ 1 <= code <= 27 → lookup_code code l = None.
Proof.
  rewrite forallb_forall. intros Hl Hc. unfold lookup_code. destruct (list_find _ l) as [[i e]|] eqn:Hf; [|done].
  apply list_find_Some in Hf as (Hi & <- & _). apply list_elem_of_lookup_2, list_elem_of_In, Hl in Hi. lia.
Qed.

Definition swapped : list string := ["DrainDelayNotExpired"; "InvalidRecipient"; "TransferFailed"].
Lemma codes_permuted_closed : forallb (λ e : string * Z,
    bool_decide (e ∈ VESTING_ERROR_CODES ↔ e.2 ≤ 27 ∧ e.1 ∉ swapped) &&
    bool_decide (e.2 ≤ 27 → e.1 ∈ swapped → (e.1, 9 + (e.2 - 9 + 1) `mod` 3) ∈ VESTING_ERROR_CODES)) VestingError = true.
Proof. vm_compute. reflexivity. Qed.

(** ** Theorems *)

(** The codes of the client are those of the contract except for three that
    are permuted: the contract's 9, 10 and 11 are the client's 10, 11 and 9; and
    codes 28 to 30 are unknown to the client. *)
Theorem client_codes_permuted : ∀ name code, (name, code) ∈ VestingError →
  ((name, code) ∈ VESTING_ERROR_CODES ↔
   code ≤ 27 ∧ name ∉ swapped) ∧
  (code ≤ 27 → name ∈ swapped →
   (name, 9 + (code - 9 + 1) `mod` 3) ∈ VESTING_ERROR_CODES).
Proof.
  intros name code Hin%list_elem_of_In. pose proof codes_permuted_closed as Hall.
  rewrite forallb_forall in Hall. apply Hall, andb_true_iff in Hin as [H1 H2].
  split; [by apply bool_decide_eq_true in H1|by apply bool_decide_eq_true in H2].
Qed.

(** Every code of the client's list has an entry of its own, under its own
    translation key, none of whose texts shows the number of the code; any other
    code gets the generic entry. *)
Theorem error_table_complete code :
  match lookup_code code ((λ e : string * Z, (e.2, e.1)) <$> VESTING_ERROR_CODES) with
  | Some name => isKnownErrorCode code = true ∧ getErrorName code = name ∧ i18nKey (getErrorInfo code) = key name ∧
      Forall (λ t, t ≠ "" ∧ contains (chars (Z_to_string code)) (chars t) = false) (texts (getErrorInfo code))
  | None => isKnownErrorCode code = false ∧ getErrorName code = "Unexpected" ∧ getErrorInfo code = UNEXPECTED_ERROR
  end.
Proof.
  destruct (decide (1 <= code <= 27)) as [Hc|Hc].
  - assert (Hall : Forall (λ z, match lookup_code z ((λ e : string * Z, (e.2, e.1)) <$> VESTING_ERROR_CODES) with
      | Some name => isKnownErrorCode z = true ∧ getErrorName z = name ∧ i18nKey (getErrorInfo z) = key name ∧
          Forall (λ t, t ≠ "" ∧ contains (chars (Z_to_string z)) (chars t) = false) (texts (getErrorInfo z))
      | None => False end) (Z.of_nat <$> seq 1 27)).
    { cbn [seq fmap list_fmap]. repeat (apply Forall_cons; split; [by apply entry_ok_spec; vm_compute|]).
      apply Forall_nil_2. }
    rewrite Forall_forall in Hall. specialize (Hall code). rewrite list_elem_of_fmap in Hall.
    assert (H : ∃ y, code = Z.of_nat y ∧ y ∈ seq 1 27) by (exists (Z.to_nat code); rewrite elem_of_seq; lia).
    specialize (Hall H). by destruct (lookup_code _ _).
  - rewrite codes_in_range by (done || (vm_compute; reflexivity)).
    unfold isKnownErrorCode, getErrorInfo, getErrorName.
    rewrite (codes_in_range errorMessages) by (done || (vm_compute; reflexivity)). split_and!; [done| |done].
    destruct (list_find _ VESTING_ERROR_CODES) as [[i e]|] eqn:Hf; [|done].
    apply list_find_Some in Hf as (Hi & <- & _). exfalso. apply Hc.
    assert (Hl : forallb (λ e : string * Z, (1 <=? e.2) && (e.2 <=? 27)) VESTING_ERROR_CODES = true) by (vm_compute; reflexivity).
    rewrite forallb_forall in Hl. apply list_elem_of_lookup_2, list_elem_of_In, Hl in Hi. simpl. lia.
Qed.

(** The code the network reports is the code the client reads: in the form
    Soroban writes it, for every number and whatever follows. *)
Theorem contract_code_parsed n rest : 0 <= n →
  parseContractErrorCode ("HostError: Error(Contract, #" +:+ Z_to_string n +:+ ")" +:+ rest) = Some n.
Proof.
  intros Hn. unfold parseContractErrorCode.
  assert (chars ("HostError: Error(Contract, #" +:+ Z_to_string n +:+ ")" +:+ rest) =
    chars "HostError: " ++ chars "Error(Contract, #" ++ chars (Z_to_string n) ++ ")"%char :: chars rest) as ->.
  { assert (Happ : ∀ s t, chars (s +:+ t) = chars s ++ chars t).
    { intros s t. unfold chars. induction s as [|c s IH]; simpl; [done|]. by rewrite <-IH. }
    rewrite !Happ. done. }
  pose proof (match_soroban_code n (chars rest) Hn) as Hm.
  assert (Hs : ∀ l, search match_soroban (chars "HostError: " ++ chars "Error(Contract, #" ++ l) =
    search match_soroban (chars "Error(Contract, #" ++ l)).
  { intros l. cbn [chars list_ascii_of_string app]. do 11 (rewrite search_skip by done). done. }
  rewrite Hs. by rewrite (search_here _ _ _ Hm).
Qed.

(** Because of the permutation, a failed token transfer is explained to the
    user as an invalid recipient, and a drain that is too early as a failed
    transfer. *)
Theorem wrong_explanation_shown :
  buildErrorMessage "HostError: Error(Contract, #11)" =
    "Invalid recipient address: The sponsor and recipient can't be the same wallet address. Enter a different recipient address that is not your own wallet." ∧
  ("TransferFailed", 11) ∈ VestingError ∧ ("DrainDelayNotExpired", 9) ∈ VestingError ∧
  title (client_getErrorInfo 9) = "Token transfer failed" ∧ title (getErrorInfo 9) = "The transfer failed".
Proof.
  split; [vm_compute; reflexivity|]. split; [by apply (bool_decide_unpack _); vm_compute|].
  split; [by apply (bool_decide_unpack _); vm_compute|]. split; vm_compute; reflexivity.
Qed.

(** ** Witnesses *)

Lemma contract_code_parsed_witness : parseContractErrorCode "HostError: Error(Contract, #2)." = Some 2.
Proof. apply (contract_code_parsed 2 "."). discriminate. Defined.
Lemma client_codes_permuted_witness : ("TransferFailed", 9) ∈ VESTING_ERROR_CODES.
Proof.
  destruct (client_codes_permuted "TransferFailed" 11) as [_ H]; [by apply (bool_decide_unpack _); vm_compute|].
  apply H; [discriminate|by apply (bool_decide_unpack _); vm_compute].
Defined.
