(* ===== verification/TxStatus.v ===== *)
(** * Transaction status

    [frontend/src/hooks/useTxStatus.ts]: the reducer, the pending transaction in
    [localStorage], the polling of the RPC endpoint, and the hook as a transition
    system.  A step is what happens between two [await]s: a click, a render, the
    answer of the wallet, a timer, the answer of the endpoint, a reset, the end
    of the component, a reload of the page. *)
From stdpp Require Import list.
From S2P Require Import Prelude ErrorMessages.
#[local] Open Scope Z_scope.

(** ** Status and reducer *)

Inductive TxPhase := idle | submitting | pending | confirmed | failed.
#[global] Instance TxPhase_eq_dec : EqDecision TxPhase.
Proof. solve_decision. Defined.
Record TxStatus := Status {
  phase : TxPhase;
  tx_hash : option string;
  ledger : option Z;
  errorMessage : option string;
  amountClaimed : option Z }.
Definition INITIAL : TxStatus := Status idle None None None None.

Inductive TxAction :=
| SUBMITTING
| PENDING (hash : string)
| CONFIRMED (ledger : Z) (amount : option Z)
| FAILED (message : string)
| RESET
| RECOVER (hash : string).

Definition reducer (state : TxStatus) (action : TxAction) : TxStatus :=
  match action with
  | SUBMITTING => Status submitting None None None None
  | PENDING hash => Status pending (Some hash) (ledger state) (errorMessage state) (amountClaimed state)
  | CONFIRMED l amount => Status confirmed (tx_hash state) (Some l) None amount
  | FAILED message => Status failed (tx_hash state) (ledger state) (Some message) (amountClaimed state)
  | RECOVER hash => Status pending (Some hash) None None None
  | RESET => INITIAL
  end.
Definition is_pending (s : TxStatus) : bool := bool_decide (phase s = submitting) || bool_decide (phase s = pending).

(** ** The pending transaction in [localStorage] *)

Record PersistedTx := Persisted { p_hash : string; submittedAt : Z }.
(** The value under [STORAGE_KEY]: none, text that is not a record, a record. *)
Inductive stored := Absent | Malformed | Present (p : PersistedTx).

Section storage.
(** Whether the browser lets the page use its storage; where it does not, every
    access throws and the code goes on. *)
Context (storage_works : bool).

Definition savePendingTx (now : Z) (hash : string) (st : stored) : stored :=
  if storage_works then Present (Persisted hash now) else st.
Definition clearPendingTx (st : stored) : stored := if storage_works then Absent else st.
Definition loadPendingTx (now : Z) (st : stored) : option PersistedTx * stored :=
  if storage_works then
    match st with
    | Absent | Malformed => (None, st)
    | Present p => if decide (now - submittedAt p > 120000) then (None, Absent) else (Some p, st)
    end
  else (None, st).
End storage.

(** ** Polling *)

Definition POLL_INTERVAL_MS : Z := 2000.
Definition POLL_TIMEOUT_MS : Z := 60000.

Inductive rpc_status := SUCCESS | REJECTED | NOT_FOUND | OTHER (s : string).
#[global] Instance rpc_status_eq_dec : EqDecision rpc_status.
Proof. solve_decision. Defined.
Record RpcGetTransactionResult := RpcResult { r_status : rpc_status; r_ledger : option Z }.
(** What the [fetch] of one round comes to: a body with or without a result, a
    JSON-RPC error, or an exception of [fetch] or of the JSON parser. *)
Inductive reply := Answer (r : option RpcGetTransactionResult) | RpcError | NetworkError.

Inductive outcome := Result (r : RpcGetTransactionResult) | Cancelled | TimedOut.
(** Where [pollTransaction] is suspended: in the timer, in the [fetch]. *)
Inductive poll :=
| PWait (deadline wake : Z)
| PFetch (deadline : Z)
| PEnd (o : outcome).

(** The head of the [while] loop. *)
Definition poll_loop (aborted : bool) (now deadline : Z) : poll :=
  if decide (now < deadline) then
    if aborted then PEnd Cancelled else PWait deadline (now + POLL_INTERVAL_MS)
  else PEnd TimedOut.
Definition poll_start (aborted : bool) (now : Z) : poll := poll_loop aborted now (now + POLL_TIMEOUT_MS).
Definition poll_timer (aborted : bool) (p : poll) : poll :=
  match p with
  | PWait deadline _ => if aborted then PEnd Cancelled else PFetch deadline
  | _ => p
  end.
(** An abort makes the [fetch] throw. *)
Definition poll_reply (aborted : bool) (now : Z) (r : reply) (p : poll) : poll :=
  match p with
  | PFetch deadline =>
      if aborted then PEnd Cancelled
      else match r with
           | RpcError | NetworkError => poll_loop aborted now deadline
           | Answer r =>
               let result := default (RpcResult NOT_FOUND None) r in
               if decide (r_status result = NOT_FOUND) then poll_loop aborted now deadline else PEnd (Result result)
           end
  | _ => p
  end.

(** A poll that nobody aborts, round by round: how late the timer is, how long
    the [fetch] takes, and what it gives. *)
Record round := Round { late : Z; latency : Z; answer : reply }.
Fixpoint poll_rounds (now : Z) (p : poll) (rounds : list round) : poll * Z :=
  match rounds, p with
  | r :: rounds', PWait _ wake =>
      let t := wake + late r + latency r in
      poll_rounds t (poll_reply false t (answer r) (poll_timer false p)) rounds'
  | _, _ => (p, now)
  end.
Definition pollTransaction (now : Z) (rounds : list round) : poll * Z := poll_rounds now (poll_start false now) rounds.

(** ** The hook *)

(** A promise that [begin] or the recovery started: waiting for [submitFn], in
    [pollTransaction] under a controller, or settled. *)
Inductive flow :=
| FSubmit
| FPoll (hash : string) (amount : option Z) (ctrl : nat) (p : poll)
| FDone.
Inductive callback := OnSuccess (ledger : Z) (amount : option Z) | OnError (message : string).

(** The page: the clock, the status, the phase the rendered [begin] closes over,
    the storage, [abortRef], the aborted controllers, the next controller, the
    promises, the callbacks made, and whether the component is mounted. *)
Record hook := Hook {
  now : Z;
  status : TxStatus;
  closure : TxPhase;
  store : stored;
  abortRef : option nat;
  aborted : list nat;
  next : nat;
  flows : list flow;
  callbacks : list callback;
  mounted : bool }.

Definition dispatch (a : TxAction) (h : hook) : hook :=
  Hook (now h) (if mounted h then reducer (status h) a else status h) (closure h) (store h) (abortRef h) (aborted h)
    (next h) (flows h) (callbacks h) (mounted h).
Definition call (c : callback) (h : hook) : hook :=
  Hook (now h) (status h) (closure h) (store h) (abortRef h) (aborted h) (next h) (flows h) (callbacks h ++ [c]) (mounted h).
Definition set_store (st : stored) (h : hook) : hook :=
  Hook (now h) (status h) (closure h) st (abortRef h) (aborted h) (next h) (flows h) (callbacks h) (mounted h).
Definition set_flows (fs : list flow) (h : hook) : hook :=
  Hook (now h) (status h) (closure h) (store h) (abortRef h) (aborted h) (next h) fs (callbacks h) (mounted h).
(** [abortRef.current?.abort()] *)
Definition abort (h : hook) : hook :=
  Hook (now h) (status h) (closure h) (store h) (abortRef h)
    (match abortRef h with Some c => c :: aborted h | None => aborted h end) (next h) (flows h) (callbacks h) (mounted h).
Definition new_controller (h : hook) : nat * hook :=
  (next h, Hook (now h) (status h) (closure h) (store h) (Some (next h)) (aborted h) (S (next h)) (flows h) (callbacks h)
             (mounted h)).
Definition is_aborted (h : hook) (c : nat) : bool := bool_decide (c ∈ aborted h).

Section hook.
Context (storage_works : bool).

(** What follows the [await] of [pollTransaction]. *)
Definition settle (amount : option Z) (o : outcome) (h : hook) : hook :=
  match o with
  | Result r =>
      let h := set_store (clearPendingTx storage_works (store h)) h in
      if decide (r_status r = SUCCESS) then
        let l := default 0 (r_ledger r) in call (OnSuccess l amount) (dispatch (CONFIRMED l amount) h)
      else let msg := "Transaction was rejected by the network." in call (OnError msg) (dispatch (FAILED msg) h)
  | Cancelled => h
  | TimedOut =>
      let h := set_store (clearPendingTx storage_works (store h)) h in
      let msg := buildErrorMessage "Transaction timed out after 60 seconds. It may still confirm — check Stellar Expert." in
      call (OnError msg) (dispatch (FAILED msg) h)
  end.

(** The promise at [i] after a step of its poll. *)
Definition put_poll (i : nat) (hash : string) (amount : option Z) (c : nat) (p : poll) (h : hook) : hook :=
  match p with
  | PEnd o => settle amount o (set_flows (<[i := FDone]> (flows h)) h)
  | _ => set_flows (<[i := FPoll hash amount c p]> (flows h)) h
  end.
(** Abort the previous poll, take a new controller, and poll: [resumePoll] and
    the second half of [begin]. *)
Definition start_poll (i : nat) (hash : string) (amount : option Z) (h : hook) : hook :=
  let '(c, h) := new_controller (abort h) in
  put_poll i hash amount c (poll_start (is_aborted h c) (now h)) h.

Definition begin (h : hook) : hook :=
  if decide (closure h = idle ∨ closure h = failed) then
    let h := dispatch SUBMITTING h in set_flows (flows h ++ [FSubmit]) h
  else h.
Definition submitted (i : nat) (r : (string * option Z) + string) (h : hook) : hook :=
  match flows h !! i with
  | Some FSubmit =>
      match r with
      | inl (hash, amount) =>
          start_poll i hash amount (dispatch (PENDING hash) (set_store (savePendingTx storage_works (now h) hash (store h)) h))
      | inr raw =>
          let msg := buildErrorMessage raw in
          call (OnError msg) (dispatch (FAILED msg) (set_flows (<[i := FDone]> (flows h)) h))
      end
  | _ => h
  end.
Definition timer (i : nat) (h : hook) : hook :=
  match flows h !! i with
  | Some (FPoll hash amount c (PWait deadline wake)) =>
      if decide (wake <= now h) then put_poll i hash amount c (poll_timer (is_aborted h c) (PWait deadline wake)) h else h
  | _ => h
  end.
Definition replied (i : nat) (r : reply) (h : hook) : hook :=
  match flows h !! i with
  | Some (FPoll hash amount c (PFetch deadline)) =>
      put_poll i hash amount c (poll_reply (is_aborted h c) (now h) r (PFetch deadline)) h
  | _ => h
  end.
Definition reset (h : hook) : hook :=
  let h := abort h in dispatch RESET (set_store (clearPendingTx storage_works (store h)) h).
Definition unmount (h : hook) : hook :=
  let h := abort h in
  Hook (now h) (status h) (closure h) (store h) (abortRef h) (aborted h) (next h) (flows h) (callbacks h) false.

(** The first render and the effects of the mount, on a fresh page. *)
Definition mount (t : Z) (st : stored) : hook :=
  let '(persisted, st) := loadPendingTx storage_works t st in
  let s := match persisted with Some p => Status pending (Some (p_hash p)) None None None | None => INITIAL end in
  let h := Hook t s (phase s) st None [] 0 [] [] true in
  match tx_hash s with
  | Some hash =>
      if decide (phase s = pending) then
        if truthy hash then
          let '(persisted, st) := loadPendingTx storage_works t st in
          let h := set_store st h in
          if decide (p_hash <$> persisted = Some hash) then start_poll 0 hash None (set_flows [FDone] h) else h
        else h
      else h
  | None => h
  end.

Inductive event :=
| Pass (d : Z)
| Render
| Begin
| Submitted (i : nat) (r : (string * option Z) + string)
| Timer (i : nat)
| Replied (i : nat) (r : reply)
| Reset
| Unmount
| Reload.

Definition step (e : event) (h : hook) : hook :=
  match e with
  | Pass d => Hook (now h + d) (status h) (closure h) (store h) (abortRef h) (aborted h) (next h) (flows h) (callbacks h)
                (mounted h)
  | Render => Hook (now h) (status h) (phase (status h)) (store h) (abortRef h) (aborted h) (next h) (flows h) (callbacks h)
                (mounted h)
  | Begin => begin h
  | Submitted i r => submitted i r h
  | Timer i => timer i h
  | Replied i r => replied i r h
  | Reset => reset h
  | Unmount => unmount h
  | Reload => mount (now h) (store h)
  end.
Definition run (h : hook) (es : list event) : hook := foldl (λ h e, step e h) h es.
End hook.

(** ** Lemmas on polling *)

Definition conclusive (a : reply) : option RpcGetTransactionResult :=
  match a with
  | Answer (Some x) => if decide (r_status x = NOT_FOUND) then None else Some x
  | _ => None
  end.
Definition round_ms (r : round) : Z := POLL_INTERVAL_MS + late r + latency r.
Definition rounds_ms (rs : list round) : Z := foldr (λ r, Z.add (round_ms r)) 0 rs.
Definition timely (r : round) : Prop := 0 <= late r ∧ 0 <= latency r.

Lemma poll_reply_conclusive t a d :
  poll_reply false t a (PFetch d) = match conclusive a with Some x => PEnd (Result x) | None => poll_loop false t d end.
Proof. destruct a as [[x|]| |]; simpl; repeat case_decide; done. Qed.
Lemma poll_loop_live t d : t < d → poll_loop false t d = PWait d (t + POLL_INTERVAL_MS).
Proof. intros H. unfold poll_loop. by rewrite decide_True. Qed.
Lemma poll_loop_over aborted t d : d <= t → poll_loop aborted t d = PEnd TimedOut.
Proof. intros H. unfold poll_loop. rewrite decide_False by lia. done. Qed.

Lemma poll_rounds_spec rounds : ∀ n t d, Forall timely rounds → t < d → d - t <= POLL_INTERVAL_MS * Z.of_nat n →
  (n <= length rounds)%nat →
  ∃ pre r post, rounds = pre ++ r :: post ∧ (length pre < n)%nat ∧
    Forall (λ r, conclusive (answer r) = None) pre ∧ t + rounds_ms pre < d ∧
    poll_rounds t (PWait d (t + POLL_INTERVAL_MS)) rounds =
      (PEnd (match conclusive (answer r) with Some x => Result x | None => TimedOut end), t + (rounds_ms pre + round_ms r)) ∧
    (conclusive (answer r) = None → d <= t + (rounds_ms pre + round_ms r)).
Proof.
  induction rounds as [|r rounds IH]; intros n t d Hr Ht Hd Hn; [simpl in Hn; unfold POLL_INTERVAL_MS in Hd; lia|].
  apply Forall_cons in Hr as [[Hl Hla] Hr]. cbn [poll_rounds poll_timer].
  rewrite poll_reply_conclusive.
  assert (Heq : t + POLL_INTERVAL_MS + late r + latency r = t + round_ms r) by (unfold round_ms; lia).
  rewrite Heq. assert (Hpos : POLL_INTERVAL_MS <= round_ms r) by (unfold round_ms; lia).
  assert (Hstop : ∀ o, poll_rounds (t + round_ms r) (PEnd o) rounds = (PEnd o, t + round_ms r)) by (by destruct rounds).
  destruct (conclusive (answer r)) as [x|] eqn:Hc.
  - exists [], r, rounds. rewrite Hc, Hstop. simpl. unfold POLL_INTERVAL_MS in *. split_and!; [done|lia|constructor|lia|done|done].
  - destruct (decide (t + round_ms r < d)) as [Hlt|Hge].
    + rewrite poll_loop_live by done.
      destruct (IH (n - 1)%nat (t + round_ms r) d) as (pre & r' & post & -> & Hlen & Hpre & Hb & -> & Hto);
        [done|done|unfold POLL_INTERVAL_MS in *; lia|simpl in Hn; lia|].
      exists (r :: pre), r', post. simpl. split_and!; [done|lia|by constructor|lia|f_equal; lia|intros H; specialize (Hto H); lia].
    + rewrite poll_loop_over, Hstop by lia. exists [], r, rounds. rewrite Hc. simpl.
      unfold POLL_INTERVAL_MS in *. split_and!; [done|lia|constructor|lia|done|lia].
Qed.

(** ** Lemmas on the hook *)

Definition live (h : hook) (i : nat) : Prop :=
  match flows h !! i with
  | Some FSubmit => True
  | Some (FPoll _ _ c _) => c ∉ aborted h
  | _ => False
  end.
(** The controllers of the polls are different, and all but the last are aborted. *)
Record controllers_ok (h : hook) : Prop := {
  ctrl_fresh : ∀ i hs a c p, flows h !! i = Some (FPoll hs a c p) → (c < next h)%nat;
  ctrl_apart : ∀ i j hs a hs' a' c p p', flows h !! i = Some (FPoll hs a c p) → flows h !! j = Some (FPoll hs' a' c p') → i = j;
  ctrl_last : ∀ i hs a c p, flows h !! i = Some (FPoll hs a c p) → c ∉ aborted h → abortRef h = Some c;
  ref_fresh : ∀ c, abortRef h = Some c → (c < next h)%nat;
  aborted_fresh : ∀ c, c ∈ aborted h → (c < next h)%nat }.

Inductive reachable (storage_works : bool) : hook → Prop :=
| reach_mount t st : reachable storage_works (mount storage_works t st)
| reach_step h e : reachable storage_works h → reachable storage_works (step storage_works e h).

(** A step that starts no poll: the promises only move on or settle. *)
Record keeps (h h' : hook) : Prop := {
  keeps_aborted : aborted h' = aborted h;
  keeps_ref : abortRef h' = abortRef h;
  keeps_next : next h' = next h;
  keeps_polls : ∀ i hs a c p, flows h' !! i = Some (FPoll hs a c p) →
    ∃ hs' a' p', flows h !! i = Some (FPoll hs' a' c p') }.
Lemma keeps_controllers h h' : keeps h h' → controllers_ok h → controllers_ok h'.
Proof.
  intros [Ha Hr Hn Hp] [H1 H2 H3 H4 H5]. split; rewrite ?Ha, ?Hr, ?Hn; [|..|done|done].
  - intros i hs a c p (hs' & a' & p' & Hi)%Hp. eauto.
  - intros i j hs a hs' a' c p p' (? & ? & ? & Hi)%Hp (? & ? & ? & Hj)%Hp. eauto.
  - intros i hs a c p (? & ? & ? & Hi)%Hp. eauto.
Qed.
Lemma abort_controllers h : controllers_ok h → controllers_ok (abort h).
Proof.
  intros [H1 H2 H3 H4 H5]. split; simpl; [by eauto..| |done|].
  - intros i hs a c p Hi Hc. destruct (abortRef h) as [c'|] eqn:Hr; [|by eauto].
    rewrite not_elem_of_cons in Hc. destruct Hc as [Hc Hc']. by apply (H3 _ _ _ _ _ Hi).
  - intros c. destruct (abortRef h) as [c'|] eqn:Hr; [|by eauto]. rewrite elem_of_cons. intros [->|Hc]; [|by auto].
    by apply H4.
Qed.
Lemma abort_kills h i hs a c p : controllers_ok h → flows h !! i = Some (FPoll hs a c p) → c ∈ aborted (abort h).
Proof.
  intros [_ _ H3 _ _] Hi. simpl. destruct (decide (c ∈ aborted h)) as [Hc|Hc].
  - destruct (abortRef h); [by right|done].
  - rewrite (H3 _ _ _ _ _ Hi Hc). left.
Qed.

(** What a promise becomes. *)
Lemma lookup_put i j (f : flow) (fs : list flow) g : <[i := f]> fs !! j = Some g → (i = j ∧ g = f ∧ is_Some (fs !! i)) ∨ (i ≠ j ∧ fs !! j = Some g).
Proof.
  intros H. destruct (decide (i = j)) as [->|Hne]; [left|right; by rewrite list_lookup_insert_ne in H].
  destruct (fs !! j) as [x|] eqn:Hj.
  - rewrite list_lookup_insert_eq in H by (by eapply lookup_lt_Some). by simplify_eq.
  - assert (<[j := f]> fs !! j = None) as Hn; [|by rewrite Hn in H].
    apply lookup_ge_None. rewrite length_insert. by apply lookup_ge_None.
Qed.

Section invariants.
Context (storage_works : bool).
Notation settle := (settle storage_works).
Notation put_poll := (put_poll storage_works).
Notation start_poll := (start_poll storage_works).

Lemma settle_fields amount o h :
  flows (settle amount o h) = flows h ∧ aborted (settle amount o h) = aborted h ∧
  abortRef (settle amount o h) = abortRef h ∧ next (settle amount o h) = next h ∧ now (settle amount o h) = now h ∧
  closure (settle amount o h) = closure h ∧ mounted (settle amount o h) = mounted h.
Proof. destruct o as [r| |]; simpl; repeat case_decide; done. Qed.
Lemma put_poll_fields i hs a c p h :
  flows (put_poll i hs a c p h) = <[i := match p with PEnd _ => FDone | _ => FPoll hs a c p end]> (flows h) ∧
  aborted (put_poll i hs a c p h) = aborted h ∧ abortRef (put_poll i hs a c p h) = abortRef h ∧
  next (put_poll i hs a c p h) = next h ∧ mounted (put_poll i hs a c p h) = mounted h.
Proof.
  destruct p as [d w|d|o]; [done..|]. simpl.
  destruct (settle_fields a o (set_flows (<[i:=FDone]> (flows h)) h)) as (-> & -> & -> & -> & _ & _ & ->). done.
Qed.
Lemma put_poll_keeps i hs a c p p0 h : flows h !! i = Some (FPoll hs a c p0) → keeps h (put_poll i hs a c p h).
Proof.
  intros Hi. destruct (put_poll_fields i hs a c p h) as (Hf & Ha & Hr & Hn & _). split; [done..|].
  intros j hs' a' c' p'. rewrite Hf. intros [(-> & Hg & _)|[_ Hj]]%lookup_put; [|by eauto].
  destruct p; simplify_eq; eauto.
Qed.
Lemma start_poll_controllers i hs a h : controllers_ok h → controllers_ok (start_poll i hs a h).
Proof.
  intros Hok. pose proof (abort_controllers h Hok) as [H1 H2 H3 H4 H5].
  unfold TxStatus.start_poll. cbn [new_controller].
  set (h1 := Hook _ _ _ _ (Some (next (abort h))) _ _ _ _ _).
  destruct (put_poll_fields i hs a (next (abort h)) (poll_start (is_aborted h1 (next (abort h))) (now h1)) h1)
    as (Hf & Ha & Hr & Hn & _).
  assert (Hin : ∀ j hs' a' c' p', flows (put_poll i hs a (next (abort h)) (poll_start (is_aborted h1 (next (abort h))) (now h1)) h1)
    !! j = Some (FPoll hs' a' c' p') → (j = i ∧ c' = next h) ∨ flows h !! j = Some (FPoll hs' a' c' p')).
  { intros j hs' a' c' p'. rewrite Hf. intros [(-> & Hg & _)|[_ Hj]]%lookup_put; [left|by right].
    destruct (poll_start _ _); by simplify_eq. }
  split; rewrite ?Ha, ?Hr, ?Hn; subst h1; simpl.
  - intros j hs' a' c' p' [[-> ->]|Hj%H1]%Hin; simpl in *; lia.
  - intros j k hs' a' hs'' a'' c' p' p'' [[-> Hc]|Hj]%Hin [[-> Hc']|Hk]%Hin; [done| | |by eauto];
      [apply H1 in Hk|apply H1 in Hj]; simpl in *; lia.
  - intros j hs' a' c' p' [[-> ->]|Hj]%Hin Hc; [done|].
    destruct Hc. by eapply (abort_kills h).
  - intros c [= <-]. lia.
  - intros c Hc%H5. simpl in Hc. lia.
Qed.

Lemma step_controllers e h : controllers_ok h → controllers_ok (step storage_works e h).
Proof.
  assert (Hmount : ∀ t st, controllers_ok (mount storage_works t st)).
  { intros t st. unfold mount. destruct (loadPendingTx _ _ _) as [ps st'].
    assert (Hnil : ∀ n s cl st'', controllers_ok (Hook n s cl st'' None [] 0 [] [] true)).
    { intros. split; simpl; intros; try done; set_solver. }
    destruct ps as [p|]; cbn [tx_hash phase INITIAL]; [|apply Hnil].
    rewrite decide_True by done. destruct (truthy _); [|apply Hnil]. destruct (loadPendingTx _ _ _) as [ps st''].
    case_decide; [|apply Hnil]. apply start_poll_controllers.
    eapply (keeps_controllers (Hook t INITIAL idle st None [] 0 [] [] true)); [|apply Hnil].
    split; simpl; [done..|]. intros [|[|i]]; simpl; intros; discriminate. }
  intros Hok. destruct e; simpl; [| | | | | | | |done].
  - eapply keeps_controllers; [|exact Hok]. split; simpl; [done..|eauto].
  - eapply keeps_controllers; [|exact Hok]. split; simpl; [done..|eauto].
  - unfold begin. case_decide; [|done]. eapply keeps_controllers; [|exact Hok]. split; simpl; [done..|].
    intros i hs a c p [Hi|[_ Hi]]%lookup_app_Some; [by eauto|]. by apply list_lookup_singleton_Some in Hi as [_ [=]].
  - unfold submitted. destruct (flows h !! i) as [[| |]|] eqn:Hi; [|done..]. destruct r as [[hs a]|raw].
    + apply start_poll_controllers. eapply keeps_controllers; [|exact Hok]. split; simpl; [done..|eauto].
    + eapply keeps_controllers; [|exact Hok]. split; simpl; [done..|].
      intros j hs a c p [(_ & [=] & _)|[_ Hj]]%lookup_put. eauto.
  - unfold timer. destruct (flows h !! i) as [[|hs a c [d w| |]|]|] eqn:Hi; [done| |done..].
    case_decide; [|done]. eapply keeps_controllers; [by eapply put_poll_keeps|done].
  - unfold replied. destruct (flows h !! i) as [[|hs a c [d w|d |]|]|] eqn:Hi; [done|done| |done..].
    eapply keeps_controllers; [by eapply put_poll_keeps|done].
  - eapply keeps_controllers; [|by apply abort_controllers]. split; simpl; [done..|eauto].
  - eapply keeps_controllers; [|by apply abort_controllers]. split; simpl; [done..|eauto].
Qed.
Lemma reachable_controllers h : reachable storage_works h → controllers_ok h.
Proof.
  induction 1 as [t st|h e _ IH]; [|by apply step_controllers].
  apply (step_controllers Reload (Hook t INITIAL idle st None [] 0 [] [] true)). split; simpl; intros; try done; set_solver.
Qed.

Lemma start_poll_eq i hs a h : controllers_ok h →
  start_poll i hs a h =
    set_flows (<[i := FPoll hs a (next h) (PWait (now h + POLL_TIMEOUT_MS) (now h + POLL_INTERVAL_MS))]> (flows h))
      (new_controller (abort h)).2.
Proof.
  intros Hok. unfold TxStatus.start_poll. cbn [new_controller].
  assert (Hf : next h ∉ aborted (abort h)).
  { intros Hin%(aborted_fresh _ (abort_controllers h Hok)). simpl in Hin. lia. }
  unfold is_aborted at 1. cbn [aborted abort] in Hf |- *. rewrite bool_decide_eq_false_2 by done.
  unfold poll_start. rewrite poll_loop_live by (unfold POLL_TIMEOUT_MS; lia). done.
Qed.

(** ** The phase and the promises *)

Definition no_live (h : hook) : Prop := ∀ j, ¬ live h j.
Definition only_live (h : hook) (i : nat) : Prop := ∀ j, live h j → j = i.
Definition phase_mirrors (h : hook) : Prop :=
  match phase (status h) with
  | idle => no_live h
  | submitting => ∃ i, flows h !! i = Some FSubmit ∧ only_live h i
  | pending => ∃ i hs a c p, flows h !! i = Some (FPoll hs a c p) ∧ c ∉ aborted h ∧ only_live h i ∧
                 tx_hash (status h) = Some hs ∧ (storage_works = true → ∃ t, store h = Present (Persisted hs t))
  | confirmed => no_live h ∧ ∃ l cs, ledger (status h) = Some l ∧
                   callbacks h = cs ++ [OnSuccess l (amountClaimed (status h))]
  | failed => no_live h ∧ ∃ m cs, errorMessage (status h) = Some m ∧ callbacks h = cs ++ [OnError m]
  end.
Record mirrors (h : hook) : Prop := {
  m_ok : controllers_ok h;
  m_mounted : mounted h = true;
  m_store : ∀ p, store h = Present p → p_hash p ≠ "";
  m_phase : phase_mirrors h }.

(** A user and a wallet that behave: the button is pressed after the last status
    was rendered, nothing is reset while the wallet is asked, hashes are not
    empty, and the component stays until the page is reloaded. *)
Definition polite (h : hook) (e : event) : Prop :=
  match e with
  | Begin => closure h = phase (status h)
  | Submitted _ (inl (hs, _)) => hs ≠ ""
  | Reset => phase (status h) ≠ submitting
  | Unmount => False
  | _ => True
  end.
Inductive polite_reachable : hook → Prop :=
| polite_mount t st : (∀ p, st = Present p → p_hash p ≠ "") → polite_reachable (mount storage_works t st)
| polite_step h e : polite_reachable h → polite h e → polite_reachable (step storage_works e h).

(** A phase with its promise: the one live promise decides the phase. *)
Lemma mirrors_submit h i : mirrors h → flows h !! i = Some FSubmit → phase (status h) = submitting ∧ only_live h i.
Proof.
  intros [_ _ _ Hp] Hi. assert (Hl : live h i) by (unfold live; by rewrite Hi).
  unfold phase_mirrors in Hp. destruct (phase (status h)) eqn:Hph.
  - by destruct (Hp i).
  - destruct Hp as (j & Hj & Ho). by rewrite (Ho _ Hl).
  - destruct Hp as (j & hs & a & c & p & Hj & _ & Ho & _). rewrite (Ho _ Hl) in Hi. congruence.
  - destruct Hp as [Hn _]. by destruct (Hn i).
  - destruct Hp as [Hn _]. by destruct (Hn i).
Qed.
Lemma mirrors_poll h i hs a c p : mirrors h → flows h !! i = Some (FPoll hs a c p) → c ∉ aborted h →
  phase (status h) = pending ∧ only_live h i ∧ tx_hash (status h) = Some hs ∧
  (storage_works = true → ∃ t, store h = Present (Persisted hs t)).
Proof.
  intros [_ _ _ Hp] Hi Hc. assert (Hl : live h i) by (unfold live; by rewrite Hi).
  unfold phase_mirrors in Hp. destruct (phase (status h)) eqn:Hph.
  - by destruct (Hp i).
  - destruct Hp as (j & Hj & Ho). rewrite (Ho _ Hl) in Hi. congruence.
  - destruct Hp as (j & hs' & a' & c' & p' & Hj & _ & Ho & Hh & Hs). pose proof (Ho _ Hl) as ->.
    rewrite Hi in Hj. by simplify_eq.
  - destruct Hp as [Hn _]. by destruct (Hn i).
  - destruct Hp as [Hn _]. by destruct (Hn i).
Qed.
Lemma live_same h h' j : flows h' !! j = flows h !! j → aborted h' = aborted h → live h' j ↔ live h j.
Proof. unfold live. by intros -> ->. Qed.
Lemma no_live_put h h' i f : flows h' = <[i := f]> (flows h) → aborted h' = aborted h → only_live h i → f = FDone → no_live h'.
Proof.
  intros Hf Ha Ho -> j Hl. destruct (decide (j = i)) as [->|Hne].
  - unfold live in Hl. rewrite Hf in Hl. destruct (<[i := FDone]> (flows h) !! i) as [g|] eqn:Hg; [|done].
    apply lookup_put in Hg as [(_ & -> & _)|[? _]]; done.
  - apply live_same with (h := h) in Hl; [by apply Ho in Hl| |done]. by rewrite Hf, list_lookup_insert_ne.
Qed.
Lemma only_live_put h h' i f : flows h' = <[i := f]> (flows h) → aborted h' = aborted h → only_live h i → only_live h' i.
Proof.
  intros Hf Ha Ho j Hl. destruct (decide (j = i)) as [->|Hne]; [done|].
  apply Ho. apply (live_same h h'); [|done|done]. by rewrite Hf, list_lookup_insert_ne.
Qed.
(** An aborted poll that ends changes nothing else. *)
Lemma mirrors_drop h i hs a c p : mirrors h → flows h !! i = Some (FPoll hs a c p) → c ∈ aborted h →
  mirrors (set_flows (<[i := FDone]> (flows h)) h).
Proof.
  intros Hm Hi Hc.
  assert (Hl : ∀ j, live (set_flows (<[i := FDone]> (flows h)) h) j ↔ live h j).
  { intros j. destruct (decide (j = i)) as [->|Hne]; [|apply live_same; simpl; by rewrite ?list_lookup_insert_ne by done].
    unfold live. simpl. rewrite list_lookup_insert_eq, Hi by (by eapply lookup_lt_Some). naive_solver. }
  destruct Hm as [Hok Hmo Hs Hp]. split; [|done..|].
  - eapply keeps_controllers; [by eapply (put_poll_keeps i hs a c (PEnd Cancelled))|done].
  - unfold phase_mirrors in *. simpl. destruct (phase (status h)).
    + intros j. by rewrite Hl.
    + destruct Hp as (j & Hj & Ho). exists j. split; [|intros k; rewrite Hl; apply Ho].
      rewrite list_lookup_insert_ne; [done|]. intros ->. congruence.
    + destruct Hp as (j & hs' & a' & c' & p' & Hj & Hc' & Ho & Hr). exists j, hs', a', c', p'.
      split; [|by split; [|split; [intros k; rewrite Hl; apply Ho|]]].
      rewrite list_lookup_insert_ne; [done|]. intros ->. congruence.
    + destruct Hp as [Hn Hr]. split; [intros j; by rewrite Hl|done].
    + destruct Hp as [Hn Hr]. split; [intros j; by rewrite Hl|done].
Qed.
Lemma clear_ok st : (∀ p, st = Present p → p_hash p ≠ "") → ∀ p, clearPendingTx storage_works st = Present p → p_hash p ≠ "".
Proof. unfold clearPendingTx. by destruct storage_works. Qed.
Lemma put_poll_mirrors h i hs a c p0 p : mirrors h → flows h !! i = Some (FPoll hs a c p0) → c ∉ aborted h →
  p ≠ PEnd Cancelled → mirrors (put_poll i hs a c p h).
Proof.
  intros Hm Hi Hc Hp. destruct (mirrors_poll _ _ _ _ _ _ Hm Hi Hc) as (Hph & Ho & Hh & Hs).
  destruct (put_poll_fields i hs a c p h) as (Hf & Ha & _ & _ & Hmo).
  assert (Hlen : (i < length (flows h))%nat) by (by eapply lookup_lt_Some).
  split; [eapply keeps_controllers; [by eapply put_poll_keeps|by destruct Hm]|rewrite Hmo; by destruct Hm| |].
  - destruct Hm as [_ _ Hst _]. destruct p as [| |[r| |]]; simpl; [done|done| |done|];
      [case_decide|]; by apply clear_ok.
  - assert (Hend : ∀ o, p = PEnd o → no_live (put_poll i hs a c p h)) by (intros o ->; by eapply no_live_put).
    destruct p as [d w|d|o].
    + unfold phase_mirrors. simpl. rewrite Hph. exists i, hs, a, c, (PWait d w). split; [by apply list_lookup_insert_eq|].
      split; [done|]. split; [by eapply only_live_put|done].
    + unfold phase_mirrors. simpl. rewrite Hph. exists i, hs, a, c, (PFetch d). split; [by apply list_lookup_insert_eq|].
      split; [done|]. split; [by eapply only_live_put|done].
    + specialize (Hend o eq_refl). destruct Hm as [_ Hmt _ _]. unfold phase_mirrors.
      destruct o as [r| |]; [|done|]; simpl in *; repeat case_decide; simpl in *; rewrite Hmt in *; simpl in *;
        (split; [done|by eexists _, _]).
Qed.
Lemma start_poll_mirrors h i hs a : controllers_ok h → mounted h = true → (∀ p, store h = Present p → p_hash p ≠ "") →
  phase (status h) = pending → tx_hash (status h) = Some hs → (storage_works = true → ∃ t, store h = Present (Persisted hs t)) →
  (i < length (flows h))%nat → only_live h i → mirrors (start_poll i hs a h).
Proof.
  intros Hok Hmo Hst Hph Hh Hs Hlen Ho. pose proof (start_poll_controllers i hs a h Hok) as Hok'.
  assert (Hl : ∀ j, live (start_poll i hs a h) j → j = i).
  { intros j. rewrite start_poll_eq by done. unfold live. simpl.
    destruct (<[i := _]> (flows h) !! j) as [f|] eqn:Hf; [|done].
    apply lookup_put in Hf as [(-> & _)|[Hne Hj]]; [done|]. destruct f as [|hs' a' c' p'|]; [| |done].
    - intros _. apply Ho. unfold live. by rewrite Hj.
    - intros Hc. destruct Hc. apply (abort_kills h j hs' a' c' p' Hok Hj). }
  split; [done| | |].
  - by rewrite start_poll_eq.
  - by rewrite start_poll_eq.
  - unfold phase_mirrors. replace (status (start_poll i hs a h)) with (status h) by (by rewrite start_poll_eq).
    rewrite Hph. eexists i, hs, a, (next h), _. rewrite start_poll_eq in Hl |- * by done. simpl.
    split; [by apply list_lookup_insert_eq|]. split; [|done].
    intros Hin%(aborted_fresh _ (abort_controllers h Hok)). simpl in Hin. lia.
Qed.
Lemma loadPendingTx_spec t st o st' : loadPendingTx storage_works t st = (o, st') →
  loadPendingTx storage_works t st' = (o, st') ∧ (∀ p, st' = Present p → st = Present p) ∧
  (∀ p, o = Some p → storage_works = true ∧ st' = Present p ∧ t - submittedAt p <= 120000).
Proof.
  unfold loadPendingTx. destruct storage_works; [|by intros [= <- <-]]. destruct st as [| |p]; [by intros [= <- <-]..|].
  case_decide; intros [= <- <-]; [done|]. rewrite decide_False by done. split_and!; [done..|].
  intros q [= <-]. split_and!; [done..|lia].
Qed.
Lemma no_live_nil h : flows h = [] → no_live h.
Proof. intros Hf j Hl. unfold live in Hl. by rewrite Hf, lookup_nil in Hl. Qed.
Lemma no_controllers n s cl st fs : (∀ i f, fs !! i = Some f → f = FDone) →
  controllers_ok (Hook n s cl st None [] 0 fs [] true).
Proof.
  intros Hfs. split; simpl; [by intros ????? [=]%Hfs|by intros ????????? [=]%Hfs|by intros ????? [=]%Hfs|done|].
  intros c Hc. by apply not_elem_of_nil in Hc.
Qed.
Lemma mount_mirrors t st : (∀ p, st = Present p → p_hash p ≠ "") → mirrors (mount storage_works t st).
Proof.
  intros Hst. unfold mount.
  assert (Hidle : ∀ cl st', (∀ p, st' = Present p → p_hash p ≠ "") → mirrors (Hook t INITIAL cl st' None [] 0 [] [] true)).
  { intros cl st' Hst'. split; [by apply no_controllers|done|done|by apply no_live_nil]. }
  destruct (loadPendingTx storage_works t st) as [[p|] st'] eqn:Hload.
  2:{ apply Hidle. apply loadPendingTx_spec in Hload as (_ & Hst' & _). intros p Hp. by apply Hst, Hst'. }
  pose proof (loadPendingTx_spec _ _ _ _ Hload) as (Hload' & Hst' & Hsome). destruct (Hsome p eq_refl) as (_ & -> & _).
  cbn [tx_hash phase]. rewrite decide_True by done. unfold truthy.
  rewrite bool_decide_eq_true_2 by (by apply Hst, Hst'). rewrite Hload'.
  cbn [option_map fmap option_fmap]. rewrite decide_True by done.
  apply start_poll_mirrors; [|done|intros q Hq; by apply Hst, Hst'|done|done| |simpl; lia|].
  - cbn [set_flows set_store now status closure store abortRef aborted next flows callbacks mounted].
    apply no_controllers. intros [|i] f; simpl; [by intros [= <-]|done].
  - intros _. exists (submittedAt p). simpl. by destruct p.
  - intros [|j]; [done|]. intros Hl. by destruct (no_live_nil (Hook t INITIAL idle Absent None [] 0 [] [] true) eq_refl j).
Qed.
Lemma step_mirrors e h : mirrors h → polite h e → mirrors (step storage_works e h).
Proof.
  intros Hm Hpol. pose proof (m_ok _ Hm) as Hok. pose proof (step_controllers e h Hok) as Hok'.
  pose proof (m_mounted _ Hm) as Hmo. pose proof (m_store _ Hm) as Hst. pose proof (m_phase _ Hm) as Hp.
  destruct e; simpl in *; [by split..| | | | | |done|by apply mount_mirrors].
  - unfold begin in *. case_decide as Hcl; [|done].
    assert (Hn : no_live h).
    { unfold phase_mirrors in Hp. rewrite Hpol in Hcl. destruct Hcl as [Hcl|Hcl]; rewrite Hcl in Hp; tauto. }
    split; [done|done|done|]. unfold phase_mirrors, dispatch in *. simpl. rewrite Hmo. simpl.
    exists (length (flows h)). split; [by apply list_lookup_middle|]. intros j. unfold live. simpl.
    destruct ((flows h ++ [FSubmit]) !! j) as [f|] eqn:Hj; [|done].
    apply lookup_app_Some in Hj as [Hj|[Hge Hj]].
    + intros Hl. destruct (Hn j). unfold live. by rewrite Hj.
    + apply list_lookup_singleton_Some in Hj as [Hj _]. lia.
  - unfold submitted in *. destruct (flows h !! i) as [[| |]|] eqn:Hi; [|done..].
    destruct (mirrors_submit _ _ Hm Hi) as [Hph Ho]. destruct r as [[hs a]|raw].
    + apply start_poll_mirrors; simpl; rewrite ?Hmo; simpl; [|done| |done|done| |by eapply lookup_lt_Some|done].
      * eapply keeps_controllers; [|exact Hok]. split; simpl; [done..|eauto].
      * unfold savePendingTx. destruct storage_works; [by intros p [= <-]|done].
      * unfold savePendingTx. intros ->. eauto.
    + split; [done|done|done|]. unfold phase_mirrors, dispatch. simpl. rewrite Hmo. simpl.
      split; [by eapply no_live_put|by eexists _, _].
  - unfold timer in *. destruct (flows h !! i) as [[|hs a c [d w| |]|]|] eqn:Hi; [done| |done..].
    case_decide; [|done]. unfold poll_timer, is_aborted. case_bool_decide as Hc; [by eapply mirrors_drop|].
    by eapply put_poll_mirrors.
  - unfold replied in *. destruct (flows h !! i) as [[|hs a c [d w|d |]|]|] eqn:Hi; [done|done| |done..].
    unfold is_aborted. case_bool_decide as Hc; [by eapply mirrors_drop|].
    rewrite poll_reply_conclusive. eapply put_poll_mirrors; [done..|]. destruct (conclusive r); [done|].
    unfold poll_loop. by case_decide.
  - split; [done|done|by apply clear_ok|]. unfold phase_mirrors, reset, dispatch. simpl. rewrite Hmo.
    intros j Hl. change (live (abort h) j) in Hl. unfold live in Hl. simpl in Hl.
    destruct (flows h !! j) as [[|hs a c p|]|] eqn:Hj; [| |done..].
    + by destruct (mirrors_submit _ _ Hm Hj) as [? _].
    + destruct Hl. by eapply abort_kills.
Qed.
Lemma polite_mirrors h : polite_reachable h → mirrors h.
Proof. induction 1; [by apply mount_mirrors|by apply step_mirrors]. Qed.
End invariants.

(** ** Theorems *)

(** C29. As long as the user and the wallet behave, the phase says what the page is
    doing: a submission or a poll is under way exactly in the phases the button
    is disabled in, there is then one and it is the one shown; a pending hash is
    in the storage; and a final phase has been reported by its callback. *)
Theorem phase_mirrors_promise storage_works h : polite_reachable storage_works h →
  phase_mirrors storage_works h ∧ (is_pending (status h) = true ↔ ∃ i, live h i) ∧
  (∀ i j, live h i → live h j → i = j).
Proof.
  intros Hr%polite_mirrors. split; [by destruct Hr|]. destruct Hr as [_ _ _ Hp]. unfold phase_mirrors in Hp.
  assert (Hone : ∀ i, live h i → only_live h i → (∃ i, live h i) ∧ ∀ i j, live h i → live h j → i = j).
  { intros i Hl Ho. split; [eauto|]. intros j k ->%Ho ->%Ho. done. }
  assert (Hnone : no_live h → (∀ i j, live h i → live h j → i = j) ∧ ¬ ∃ i, live h i).
  { intros Hn. split; [intros i j Hi; by destruct (Hn i)|]. intros [i Hi]. by destruct (Hn i). }
  unfold is_pending. destruct (phase (status h)); simpl.
  - destruct (Hnone Hp). split; [|done]. split; [done|]. intros. by exfalso.
  - destruct Hp as (i & Hi & Ho). destruct (Hone i) as [He Hu]; [by unfold live; rewrite Hi|done|]. done.
  - destruct Hp as (i & hs & a & c & p & Hi & Hc & Ho & _). destruct (Hone i) as [He Hu]; [by unfold live; rewrite Hi|done|]. done.
  - destruct Hp as [Hn _]. destruct (Hnone Hn). split; [|done]. split; [done|]. intros. by exfalso.
  - destruct Hp as [Hn _]. destruct (Hnone Hn). split; [|done]. split; [done|]. intros. by exfalso.
Qed.

(** Whatever the user does, and in whatever order timers and answers come,
    there is at most one poll that is not aborted. *)
Theorem one_poll_at_most storage_works h i j hs a c p hs' a' c' p' : reachable storage_works h →
  flows h !! i = Some (FPoll hs a c p) → c ∉ aborted h →
  flows h !! j = Some (FPoll hs' a' c' p') → c' ∉ aborted h → i = j.
Proof.
  intros [Hfr Hap Hlast _ _]%reachable_controllers Hi Hc Hj Hc'.
  pose proof (Hlast _ _ _ _ _ Hi Hc) as H1. pose proof (Hlast _ _ _ _ _ Hj Hc') as H2.
  rewrite H1 in H2. injection H2 as <-. by eapply Hap.
Qed.

(** A poll that nobody aborts ends within thirty rounds, with the first
    conclusive answer, or with the timeout once a minute has gone without one;
    no round begins after that minute, and earlier answers are never final. *)
Theorem pollTransaction_ends now rounds : Forall timely rounds → (30 <= length rounds)%nat →
  ∃ pre r post, rounds = pre ++ r :: post ∧ (length pre < 30)%nat ∧
    Forall (λ r, conclusive (answer r) = None) pre ∧ rounds_ms pre < POLL_TIMEOUT_MS ∧
    pollTransaction now rounds =
      (PEnd (match conclusive (answer r) with Some x => Result x | None => TimedOut end),
       now + (rounds_ms pre + round_ms r)) ∧
    (conclusive (answer r) = None → POLL_TIMEOUT_MS <= rounds_ms pre + round_ms r).
Proof.
  intros Hr Hn. unfold pollTransaction, poll_start. rewrite poll_loop_live by (unfold POLL_TIMEOUT_MS; lia).
  destruct (poll_rounds_spec rounds 30 now (now + POLL_TIMEOUT_MS)) as (pre & r & post & He & Hl & Hp & Hb & Hres & Hto);
    [done|unfold POLL_TIMEOUT_MS; lia|unfold POLL_TIMEOUT_MS, POLL_INTERVAL_MS; lia|done|].
  exists pre, r, post. split_and!; [done|done|done|lia|done|]. intros H. specialize (Hto H). unfold POLL_TIMEOUT_MS in *. lia.
Qed.

(** A reload loses nothing for two minutes: the page comes back pending on
    the hash it was pending on, with one poll of a full minute; after two minutes
    the entry is removed and the page is idle. *)
Theorem reload_recovers h : polite_reachable true h → phase (status h) = pending →
  ∃ hs t, tx_hash (status h) = Some hs ∧ store h = Present (Persisted hs t) ∧
    let h' := step true Reload h in
    if decide (now h - t <= 120000) then
      status h' = reducer (status h) (RECOVER hs) ∧ store h' = store h ∧
      flows h' = [FPoll hs None 0 (PWait (now h + POLL_TIMEOUT_MS) (now h + POLL_INTERVAL_MS))] ∧ aborted h' = []
    else status h' = INITIAL ∧ store h' = Absent ∧ flows h' = [].
Proof.
  intros [_ _ Hst Hp]%polite_mirrors Hph. unfold phase_mirrors in Hp. rewrite Hph in Hp.
  destruct Hp as (i & hs & a & c & p & _ & _ & _ & Hh & Hs). destruct (Hs eq_refl) as [t Ht].
  exists hs, t. split; [done|]. split; [done|]. simpl. unfold mount. rewrite Ht. unfold loadPendingTx. simpl.
  destruct (decide (now h - t <= 120000)) as [Hage|Hage].
  - rewrite decide_False by lia. cbn [tx_hash phase]. rewrite decide_True by done. unfold truthy.
    rewrite bool_decide_eq_true_2 by (by apply (Hst _ Ht)).
    cbn [submittedAt]. rewrite decide_False by lia. cbn [option_map fmap option_fmap]. rewrite decide_True by done.
    unfold start_poll. cbn -[POLL_TIMEOUT_MS POLL_INTERVAL_MS poll_start]. unfold poll_start, is_aborted.
    rewrite poll_loop_live by (unfold POLL_TIMEOUT_MS; lia). done.
  - rewrite decide_True by lia. done.
Qed.

(** Without that good behaviour the promises of the header fail: two clicks
    before a render submit twice; a reset while the wallet is asked does not stop
    the submission, whose answer then takes over the page; and a component that
    goes away while the wallet is asked leaves a poll behind that nobody aborts. *)
Theorem impolite_runs :
  let start := mount true 0 Absent in
  flows (run true start [Begin; Begin]) = [FSubmit; FSubmit] ∧
  (let h := run true start [Begin; Render; Reset; Render; Submitted 0 (inl ("ab", None))] in
   phase (status h) = pending ∧ live h 0) ∧
  (let h := run true start [Begin; Render; Unmount; Submitted 0 (inl ("ab", None))] in
   mounted h = false ∧ phase (status h) = submitting ∧ live h 0).
Proof.
  split; [reflexivity|]. split; [split; [reflexivity|]|split; [reflexivity|split; [reflexivity|]]];
    unfold live; cbn; by apply not_elem_of_nil.
Qed.

(** ** Witnesses *)

Definition answered_run : list event :=
  [Begin; Render; Submitted 0 (inl ("ab", Some 5)); Render; Pass 2000; Timer 0; Pass 100;
   Replied 0 (Answer None); Pass 2000; Timer 0; Replied 0 (Answer (Some (RpcResult SUCCESS (Some 77))))].
Fixpoint politeb (storage_works : bool) (h : hook) (es : list event) : Prop :=
  match es with [] => True | e :: es' => polite h e ∧ politeb storage_works (step storage_works e h) es' end.
Lemma politeb_reachable storage_works es : ∀ h, polite_reachable storage_works h → politeb storage_works h es →
  polite_reachable storage_works (run storage_works h es).
Proof. induction es as [|e es IH]; intros h Hh; [done|]. intros [He Hes]. apply IH; [by constructor|done]. Qed.
Lemma start_polite storage_works : polite_reachable storage_works (mount storage_works 0 Absent).
Proof. by apply polite_mount. Qed.

Lemma phase_mirrors_promise_witness :
  let h := run true (mount true 0 Absent) answered_run in
  status h = Status confirmed (Some "ab") (Some 77) None (Some 5) ∧ store h = Absent ∧
  callbacks h = [OnSuccess 77 (Some 5)] ∧ phase_mirrors true h.
Proof.
  split_and!; [reflexivity..|]. eapply (phase_mirrors_promise true (run true (mount true 0 Absent) answered_run)).
  apply politeb_reachable; [apply start_polite|]. cbn. split_and!; done.
Defined.
Lemma one_poll_at_most_witness :
  let h := run true (mount true 0 Absent) [Begin; Submitted 0 (inl ("ab", None))] in
  flows h = [FPoll "ab" None 0 (PWait 60000 2000)] ∧ (0 = 0)%nat.
Proof.
  split; [reflexivity|].
  refine (one_poll_at_most true (run true (mount true 0 Absent) [Begin; Submitted 0 (inl ("ab", None))])
    0 0 _ _ _ _ _ _ _ _ _ eq_refl (not_elem_of_nil _) eq_refl (not_elem_of_nil _)).
  apply reach_step, reach_step, reach_mount.
Defined.
Lemma pollTransaction_ends_witness :
  pollTransaction 0 (replicate 30 (Round 0 0 RpcError)) = (PEnd TimedOut, 60000) ∧
  ∃ pre r post, replicate 30 (Round 0 0 RpcError) = pre ++ r :: post ∧ (length pre < 30)%nat.
Proof.
  split; [vm_compute; reflexivity|].
  destruct (pollTransaction_ends 0 (replicate 30 (Round 0 0 RpcError))) as (pre & r & post & He & Hl & _); [|done|eauto].
  by apply Forall_replicate.
Defined.
Lemma reload_recovers_witness :
  let h := run true (mount true 0 Absent) [Begin; Render; Submitted 0 (inl ("ab", None)); Pass 1000] in
  ∃ hs t, tx_hash (status h) = Some hs ∧ store h = Present (Persisted hs t).
Proof.
  destruct (reload_recovers (run true (mount true 0 Absent) [Begin; Render; Submitted 0 (inl ("ab", None)); Pass 1000]))
    as (hs & t & H1 & H2 & _); [|reflexivity|eauto].
  apply politeb_reachable; [apply start_polite|]. cbn. split_and!; done.
Defined.
