(* ===== verification/Csv.v ===== *)
(** * Exports

    [backend/src/routes/schedules-export.ts] and
    [frontend/src/utils/exportCsv.ts]: CSV text, the export query on the two
    tables it reads, the paging loop, the rate limit and the handler.  What a
    reader of RFC 4180 gets from the text is a specification of this file. *)
From stdpp Require Import list gmap sorting.
From S2P Require Import Prelude Digits.
#[local] Open Scope Z_scope.

(** ** CSV text *)

Definition quote : ascii := chr 34.
Definition newline : ascii := chr 10.
Definition comma : ascii := ","%char.

(** What a column of a row or a property of a stream holds. *)
Inductive value := VNull | VText (s : string) | VNumber (z : Z).
Definition String_of (v : value) : string :=
  match v with VNull => "" | VText s => s | VNumber z => Z_to_string z end.

(** Quotes are doubled. *)
Definition double_quotes (l : list ascii) : list ascii := l ≫= λ c, if decide (c = quote) then [quote; quote] else [c].
Definition enclose (l : list ascii) : list ascii := quote :: double_quotes l ++ [quote].
(** A quote, a comma, a line feed or a carriage return. *)
Definition special (c : ascii) : bool := bool_decide (c ∈ [quote; comma; newline; chr 13]).

Definition quoteCsv (v : value) : list ascii :=
  match v with
  | VNull => []
  | _ => let l := chars (String_of v) in if existsb special l then enclose l else l
  end.
Definition csvCell (v : value) : list ascii := enclose (chars (String_of v)).

Fixpoint join (sep : ascii) (ls : list (list ascii)) : list ascii :=
  match ls with
  | [] => []
  | [l] => l
  | l :: ls' => l ++ sep :: join sep ls'
  end.

Definition CSV_COLUMNS : list string :=
  ["recipient_address"; "token_address"; "rate_per_ledger"; "cliff_ledger"; "end_ledger"; "total_deposit"; "total_claimed";
   "status"].
Definition row := gmap string value.
Definition field (r : row) (col : string) : value := default VNull (r !! col).
Definition rowToCsvLine (r : row) : list ascii := join comma (quoteCsv ∘ field r <$> CSV_COLUMNS).

(** [exportCsv.ts] *)
Definition HEADERS : list string :=
  ["ID"; "Recipient"; "Sponsor"; "Token"; "Rate"; "Claimable"; "Cliff Ledger"; "End Ledger"; "Total Deposit"; "Status"].
Record VestingStream := Stream {
  s_id : value; recipient : value; sponsor : value; token : value; rate : value; claimableAmount : value;
  cliffLedger : value; endLedger : value; totalDeposit : value; s_status : value }.
Definition stream_cells (s : VestingStream) : list value :=
  [s_id s; recipient s; sponsor s; token s; rate s; claimableAmount s; cliffLedger s; endLedger s; totalDeposit s; s_status s].
Definition generateStreamsCsv (streams : list VestingStream) : list ascii :=
  join newline (join comma (csvCell ∘ VText <$> HEADERS) :: ((λ s, join comma (csvCell <$> stream_cells s)) <$> streams)).

(** ** The export query *)

Record stream_row := StreamRow {
  st_id : nat;
  sponsor_address : string;
  recipient_address : string;
  token_address : string;
  rate_per_ledger : Z;
  start_ledger : Z;
  cliff_ledger : Z;
  end_ledger : Z;
  st_status : string;
  created_at : Z }.
Record tables := Tables { vesting_streams : list stream_row; claim_events : list (nat * Z) }.

Definition bigint (z : Z) : bool := (-2 ^ 63 <=? z) && (z <? 2 ^ 63).
Definition sum_claims (id : nat) (cs : list (nat * Z)) : Z := foldr Z.add 0 (filter (λ c : nat * Z, c.1 = id) cs).*2.
(** The selected columns of one stream; a [::bigint] that does not fit is an error. *)
Definition export_row (cs : list (nat * Z)) (s : stream_row) : result string row :=
  let total_deposit := rate_per_ledger s * (end_ledger s - start_ledger s) in
  let total_claimed := sum_claims (st_id s) cs in
  if bigint total_deposit && bigint total_claimed then
    Ok (<["recipient_address" := VText (recipient_address s)]> (<["token_address" := VText (token_address s)]>
        (<["rate_per_ledger" := VText (Z_to_string (rate_per_ledger s))]> (<["cliff_ledger" := VNumber (cliff_ledger s)]>
        (<["end_ledger" := VNumber (end_ledger s)]> (<["total_deposit" := VText (Z_to_string total_deposit)]>
        (<["total_claimed" := VText (Z_to_string total_claimed)]> (<["status" := VText (st_status s)]> ∅))))))))
  else Err "bigint out of range".
Definition within (from to : option Z) (t : Z) : bool :=
  match from with Some f => f <=? t | None => true end && match to with Some f => t <=? f | None => true end.

Fixpoint all_ok {E A} (l : list (result E A)) : result E (list A) :=
  match l with
  | [] => Ok []
  | Err e :: _ => Err e
  | Ok a :: l' => match all_ok l' with Ok as_ => Ok (a :: as_) | Err e => Err e end
  end.

Definition BATCH_SIZE : nat := 500.
Definition EXPORT_RATE_TTL_SECONDS : Z := 60.
Definition EXPORT_RATE_KEY_PREFIX : string := "export_rate:".

Section export.
(** The order PostgreSQL gives the rows of [ORDER BY created_at DESC]: each page
    is a query of its own, which may arrange streams of the same time as it
    likes; [new Date(s)] as its time, where it is valid; [JSON.stringify] of a
    row and of the error record. *)
Context (order : nat → list stream_row → list stream_row) (date : string → option Z) (json : row → string)
  (json_error : string → string).

(** [EXPORT_SQL].  All rows are computed before [LIMIT] and [OFFSET] apply. *)
Definition selected (db : tables) (sponsor : string) (from to : option Z) : list stream_row :=
  filter (λ s, sponsor_address s = sponsor ∧ within from to (created_at s) = true) (vesting_streams db).
Definition EXPORT_SQL (db : tables) (sponsor : string) (from to : option Z) (limit offset : nat) : result string (list row) :=
  match all_ok (export_row (claim_events db) <$> order offset (selected db sponsor from to)) with
  | Ok rows => Ok (take limit (drop offset rows))
  | Err e => Err e
  end.

(** ** The handler *)

Inductive format := Csv | Json.
Record request := Request { user : option string; q_format : option string; q_from : option string; q_to : option string }.
(** An answer: a JSON error, or a stream of chunks. *)
Inductive answer := Refused (status : Z) (error : string) | Streamed (f : format) (chunks : list string).

(** [null] for a blank string and for what is no date. *)
Definition parseDate (v : option string) : option Z :=
  match v with
  | Some s => if truthy (trim s) then date s else None
  | None => None
  end.
Definition bad_date (v : option string) : bool :=
  match v with Some s => truthy s && bool_decide (parseDate v = None) | None => false end.

(** The checks before the rate limit. *)
Definition check_request (r : request) : answer + (string * format * option Z * option Z) :=
  let sponsor := default "" (user r) in
  if negb (truthy sponsor) then inl (Refused 401 "Unauthorized")
  else
    let f := to_lower (default "json" (q_format r)) in
    if negb (bool_decide (f = "csv") || bool_decide (f = "json")) then inl (Refused 400 "format must be 'csv' or 'json'")
    else if bad_date (q_from r) then inl (Refused 400 "from must be a valid ISO 8601 date string")
    else if bad_date (q_to r) then inl (Refused 400 "to must be a valid ISO 8601 date string")
    else inr (sponsor, if decide (f = "csv") then Csv else Json, parseDate (q_from r), parseDate (q_to r)).

(** Redis: the rate keys with the second they expire. *)
Notation redis := (gmap string Z).
Definition redis_get (now : Z) (key : string) (rd : redis) : option Z :=
  e ← rd !! key; if decide (now < e) then Some e else None.
(** [GET], then [SET ... EX]: two commands. [None] for a Redis that is not there:
    the limit is skipped. *)
Definition rate_get (now : Z) (sponsor : string) (rd : option redis) : option answer :=
  rd ← rd; _ ← redis_get now (EXPORT_RATE_KEY_PREFIX +:+ sponsor) rd;
  Some (Refused 429 "Rate limit exceeded. Only one export per minute is allowed.").
Definition rate_set (now : Z) (sponsor : string) (rd : option redis) : option redis :=
  <[EXPORT_RATE_KEY_PREFIX +:+ sponsor := now + EXPORT_RATE_TTL_SECONDS]> <$> rd.

Definition line (l : list ascii) : string := of_chars (l ++ [newline]).
(** The chunks of a batch. *)
Fixpoint write_rows (f : format) (firstRow : bool) (rows : list row) : list string * bool :=
  match rows with
  | [] => ([], firstRow)
  | r :: rows' =>
      match f with
      | Csv => let '(cs, first') := write_rows f firstRow rows' in (line (rowToCsvLine r) :: cs, first')
      | Json => let '(cs, first') := write_rows f false rows' in
                ((if firstRow then [] else [","]) ++ json r :: cs, first')
      end
  end.

(** The [while] loop: the chunks written, whether a row was written, and the
    error that ended it. [query] answers an offset. *)
Fixpoint export_loop (fuel : nat) (query : nat → result string (list row)) (f : format) (offset : nat) (firstRow : bool)
    : option (list string * bool * option string) :=
  match fuel with
  | O => None
  | S fuel =>
      match query offset with
      | Err e => Some ([], firstRow, Some e)
      | Ok rows =>
          if decide (length rows = 0%nat) then Some ([], firstRow, None)
          else
            let '(cs, first') := write_rows f firstRow rows in
            if decide (length rows < BATCH_SIZE)%nat then Some (cs, first', None)
            else match export_loop fuel query f (offset + length rows) first' with
                 | Some (cs', first'', e) => Some (cs ++ cs', first'', e)
                 | None => None
                 end
      end
  end.

Definition export_header (f : format) : string :=
  match f with Csv => line (join comma (chars <$> CSV_COLUMNS)) | Json => "[" end.
(** After the loop. *)
Definition export_end (f : format) (firstRow : bool) (dbError : option string) : list string :=
  match dbError, f with
  | Some e, Json => (if firstRow then [] else [","]) ++ [json_error e]
  | Some _, Csv => []
  | None, Json => ["]"]
  | None, Csv => []
  end.
Definition stream_export (fuel : nat) (query : nat → result string (list row)) (f : format) : option answer :=
  match export_loop fuel query f 0 true with
  | Some (cs, first, e) => Some (Streamed f (export_header f :: cs ++ export_end f first e))
  | None => None
  end.

(** The whole handler, for a request that no other one overlaps. *)
Definition exportHandler (fuel : nat) (now : Z) (db : tables) (r : request) (rd : option redis)
    : option answer * option redis :=
  match check_request r with
  | inl a => (Some a, rd)
  | inr (sponsor, f, from, to) =>
      match rate_get now sponsor rd with
      | Some a => (Some a, rd)
      | None => (stream_export fuel (EXPORT_SQL db sponsor from to BATCH_SIZE) f, rate_set now sponsor rd)
      end
  end.
End export.

(** ** Reading CSV: RFC 4180

    Records end with a line feed or the end of the text, fields with a comma; a
    field that begins with a quote ends with one, and holds two for each of its
    own.  [None] for text that is not CSV. *)

Inductive reading := AtStart | InPlain | InQuotes | AfterQuote.
Fixpoint csv_read (st : reading) (fld : list ascii) (rec : list (list ascii)) (l : list ascii)
    : option (list (list (list ascii))) :=
  match l with
  | [] =>
      match st, rec with
      | InQuotes, _ => None
      | AtStart, [] => Some []
      | _, _ => Some [rec ++ [fld]]
      end
  | c :: l' =>
      match st with
      | InQuotes => if decide (c = quote) then csv_read AfterQuote fld rec l' else csv_read InQuotes (fld ++ [c]) rec l'
      | _ =>
          if decide (c = comma) then csv_read AtStart [] (rec ++ [fld]) l'
          else if decide (c = newline) then cons (rec ++ [fld]) <$> csv_read AtStart [] [] l'
          else if decide (c = quote) then
            match st with
            | AtStart => csv_read InQuotes [] rec l'
            | AfterQuote => csv_read InQuotes (fld ++ [c]) rec l'
            | _ => None
            end
          else match st with AfterQuote => None | _ => csv_read InPlain (fld ++ [c]) rec l' end
      end
  end.
Definition read_csv (l : list ascii) : option (list (list (list ascii))) := csv_read AtStart [] [] l.

Lemma quote_comma : quote ≠ comma.
Proof. by vm_compute. Qed.
Lemma quote_newline : quote ≠ newline.
Proof. by vm_compute. Qed.
Lemma newline_comma : newline ≠ comma.
Proof. by vm_compute. Qed.
Create HintDb csv.
#[local] Hint Resolve quote_comma quote_newline newline_comma : csv.
#[local] Ltac ch := solve [done | auto with csv].

Lemma read_quoted t : ∀ fld rec l,
  csv_read InQuotes fld rec (double_quotes t ++ quote :: l) = csv_read AfterQuote (fld ++ t) rec l.
Proof.
  induction t as [|c t IH]; intros fld rec l; [by rewrite app_nil_r|].
  unfold double_quotes in *. cbn [mbind list_bind app]. destruct (decide (c = quote)) as [->|Hc].
  - cbn -[quote comma newline decide]. rewrite (decide_True _ _ eq_refl), decide_False, decide_False, (decide_True _ _ eq_refl) by ch.
    rewrite IH. by rewrite <-(assoc_L _ fld).
  - cbn -[quote comma newline decide]. rewrite decide_False by done. rewrite IH. by rewrite <-(assoc_L _ fld).
Qed.
Lemma read_enclosed t rec l : csv_read AtStart [] rec (enclose t ++ l) = csv_read AfterQuote t rec l.
Proof.
  unfold enclose. cbn [app]. cbn [csv_read]. rewrite decide_False, decide_False, decide_True by ch.
  rewrite <-(assoc_L _ (double_quotes t)). cbn [app]. by rewrite read_quoted.
Qed.
Lemma read_plain t : ∀ st fld rec l, existsb special t = false → st = AtStart ∨ st = InPlain → (st = AtStart → fld = []) → t ≠ [] →
  csv_read st fld rec (t ++ l) = csv_read InPlain (fld ++ t) rec l.
Proof.
  induction t as [|c t IH]; intros st fld rec l Ht Hst Hfld Hne; [done|].
  cbn [existsb] in Ht. apply orb_false_iff in Ht as [Hc Ht]. unfold special in Hc. apply bool_decide_eq_false in Hc.
  rewrite !not_elem_of_cons in Hc. destruct Hc as (Hq & Hcm & Hn & _).
  cbn [app csv_read]. rewrite !decide_False by done.
  assert (Heq : csv_read InPlain (fld ++ [c]) rec (t ++ l) = csv_read InPlain (fld ++ c :: t) rec l).
  { destruct t as [|d t]; [done|]. rewrite IH by (done || by right). by rewrite <-(assoc_L _ fld). }
  destruct Hst as [-> | ->]; done.
Qed.

(** A cell is read as [t], whatever separator follows. *)
Definition separator (c : ascii) : Prop := c = comma ∨ c = newline.
Definition cell_reads (enc t : list ascii) : Prop := ∀ rec c l, separator c →
  csv_read AtStart [] rec (enc ++ c :: l) = csv_read AfterQuote t rec (c :: l).
Lemma enclose_reads t : cell_reads (enclose t) t.
Proof. intros rec c l _. apply read_enclosed. Qed.
Lemma quoteCsv_reads v : cell_reads (quoteCsv v) (chars (String_of v)).
Proof.
  intros rec c l Hc. assert (Hempty : csv_read AtStart [] rec (c :: l) = csv_read AfterQuote [] rec (c :: l)).
  { cbn [csv_read]. destruct Hc as [-> | ->]; [by rewrite !decide_True by ch|]. by rewrite decide_False, !decide_True by ch. }
  assert (Hplain : ∀ t, existsb special t = false → csv_read AtStart [] rec (t ++ c :: l) = csv_read AfterQuote t rec (c :: l)).
  { intros t Ht. destruct (decide (t = [])) as [->|Hne]; [done|].
    rewrite (read_plain t) by (done || by left). cbn [app csv_read].
    destruct Hc as [-> | ->]; [by rewrite !decide_True by ch|]. by rewrite decide_False, !decide_True by ch. }
  destruct v as [|s|z]; simpl; [done|..]; (destruct (existsb special _) eqn:Hs; [by rewrite read_enclosed|by apply Hplain]).
Qed.
Lemma read_line encs ts : Forall2 cell_reads encs ts → ts ≠ [] → ∀ rec l,
  csv_read AtStart [] rec (join comma encs ++ newline :: l) = cons (rec ++ ts) <$> csv_read AtStart [] [] l.
Proof.
  induction 1 as [|enc t encs ts Ht Hts IH]; intros Hne rec l; [done|]. destruct Hts as [|enc' t' encs' ts' Ht' Hts'].
  - cbn [join]. rewrite Ht by (by right). cbn [csv_read]. by rewrite decide_False, decide_True by ch.
  - change (join comma (enc :: enc' :: encs')) with (enc ++ comma :: join comma (enc' :: encs')).
    rewrite <-(assoc_L _ enc). cbn [app]. rewrite Ht by (by left). cbn [csv_read]. rewrite decide_True by done.
    rewrite IH by done. by rewrite <-(assoc_L _ rec).
Qed.
(** The last line of the client has no line feed. *)
Lemma read_last_line ts : ts ≠ [] → ∀ rec, csv_read AtStart [] rec (join comma (enclose <$> ts)) = Some [rec ++ ts].
Proof.
  induction ts as [|t ts IH]; intros Hne rec; [done|]. destruct ts as [|t' ts].
  - cbn [fmap list_fmap join]. rewrite <-(app_nil_r (enclose t)), read_enclosed. done.
  - change (join comma (enclose <$> t :: t' :: ts)) with (enclose t ++ comma :: join comma (enclose <$> t' :: ts)).
    rewrite read_enclosed. cbn [csv_read]. rewrite decide_True by done. rewrite IH by done. by rewrite <-(assoc_L _ rec).
Qed.
Lemma cells_read {A} (enc t : A → list ascii) (l : list A) : (∀ a, cell_reads (enc a) (t a)) → Forall2 cell_reads (enc <$> l) (t <$> l).
Proof. intros H. induction l; simpl; constructor; done. Qed.

(** ** The order of the pages *)

(** What PostgreSQL documents of the clause: each query arranges all its rows,
    the newest first. *)
Definition newest_first (order : nat → list stream_row → list stream_row) : Prop :=
  ∀ offset l, order offset l ≡ₚ l ∧ StronglySorted (λ a b, created_at b <= created_at a) (order offset l).
Definition no_ties (l : list stream_row) : Prop := NoDup (created_at <$> l).

Lemma no_ties_eq l a b : no_ties l → a ∈ l → b ∈ l → created_at a = created_at b → a = b.
Proof.
  intros Hl Ha Hb Hab. apply list_elem_of_lookup in Ha as [i Hi], Hb as [j Hj].
  assert (i = j) as ->; [|congruence]. eapply (NoDup_lookup _ i j (created_at a)); [exact Hl|..]; rewrite list_lookup_fmap.
  - by rewrite Hi.
  - by rewrite Hj, Hab.
Qed.
(** Without ties there is one such arrangement, the same for every page. *)
Lemma newest_first_unique order l n m : newest_first order → no_ties l → order n l = order m l.
Proof.
  intros Ho Hl. destruct (Ho n l) as [Hn Sn], (Ho m l) as [Hm Sm].
  eapply StronglySorted_unique_strong; [|exact Sn|exact Sm|by rewrite Hn, Hm].
  intros a b Ha Hb H1 H2. cbv beta in H1, H2. rewrite Hn in Ha. rewrite Hm in Hb. apply (no_ties_eq l); [done..|lia].
Qed.
Lemma newest_first_strict order l n : newest_first order → no_ties l →
  StronglySorted (λ a b, created_at b < created_at a) (order n l).
Proof.
  intros Ho Hl. destruct (Ho n l) as [Hn Sn]. assert (Hd : no_ties (order n l)) by (unfold no_ties; by rewrite Hn).
  clear Hn Hl. induction Sn as [|a l' Sl IH Ha]; [constructor|]. apply NoDup_cons in Hd as [Hna Hd].
  constructor; [by apply IH|]. rewrite Forall_forall in *. intros b Hb. specialize (Ha b Hb). simpl in Ha.
  assert (created_at b ≠ created_at a); [|lia]. intros He. apply Hna. rewrite <-He. by apply list_elem_of_fmap_2.
Qed.

Lemma selected_no_ties db sponsor from to :
  (∀ i j s s', vesting_streams db !! i = Some s → vesting_streams db !! j = Some s' →
     sponsor_address s = sponsor → sponsor_address s' = sponsor → created_at s = created_at s' → i = j) →
  no_ties (selected db sponsor from to).
Proof.
  unfold no_ties, selected. generalize (vesting_streams db). intros l. induction l as [|a l IH]; intros Hl; [constructor|].
  assert (Hrest : NoDup (created_at <$> filter (λ s, sponsor_address s = sponsor ∧ within from to (created_at s) = true) l)).
  { apply IH. intros i j s s' Hi Hj H1 H2 H3. specialize (Hl (S i) (S j) s s' Hi Hj H1 H2 H3). lia. }
  rewrite filter_cons. case_decide as Ha; [|done]. cbn [fmap list_fmap]. constructor; [|done].
  intros (s & Hs & Hin)%list_elem_of_fmap. apply list_elem_of_filter in Hin as [[Hsp _] [j Hj]%list_elem_of_lookup].
  by specialize (Hl 0%nat (S j) a s eq_refl Hj (proj1 Ha) Hsp Hs).
Qed.

(** An order that swaps the ends of one list of ties on the later pages. *)
#[local] Instance stream_row_eq_dec : EqDecision stream_row.
Proof. solve_decision. Defined.
Definition newer (a b : stream_row) : Prop := created_at b <= created_at a.
#[local] Instance newer_dec a b : Decision (newer a b) := Z_le_dec (created_at b) (created_at a).
#[local] Instance newer_total : Total newer.
Proof. intros a b. unfold newer. lia. Qed.
#[local] Instance newer_trans : Transitive newer.
Proof. intros a b c. unfold newer. lia. Qed.
Definition swap_ends (a : stream_row) (mid : list stream_row) (z : stream_row) (offset : nat) (l : list stream_row)
    : list stream_row :=
  if decide (l = a :: mid ++ [z]) then if decide (offset = 0%nat) then l else z :: mid ++ [a] else merge_sort newer l.
Lemma tied_sorted t l : Forall (λ s, created_at s = t) l → StronglySorted newer l.
Proof.
  induction 1 as [|a l Ha Hl IH]; [constructor|]. constructor; [done|]. eapply Forall_impl; [exact Hl|].
  intros s Hs. unfold newer. cbv beta in *. lia.
Qed.
Lemma swap_ends_newest_first a mid z t : Forall (λ s, created_at s = t) (a :: mid ++ [z]) → newest_first (swap_ends a mid z).
Proof.
  intros Ht offset l. unfold swap_ends. case_decide as Hl; [|split; [apply merge_sort_Permutation|]].
  - assert (Hp : z :: mid ++ [a] ≡ₚ a :: mid ++ [z]) by solve_Permutation. case_decide.
    + split; [done|]. apply (tied_sorted t). by subst.
    + split; [by subst|]. apply (tied_sorted t). by rewrite Hp.
  - by apply (StronglySorted_merge_sort newer).
Qed.

(** ** Lemmas on the loop *)

Section loop.
Context (json : row → string).
Notation write_rows := (write_rows json).
Notation export_loop := (export_loop json).

Lemma write_rows_app f rows : ∀ rows' first,
  write_rows f first (rows ++ rows') =
    ((write_rows f first rows).1 ++ (write_rows f (write_rows f first rows).2 rows').1,
     (write_rows f (write_rows f first rows).2 rows').2).
Proof.
  induction rows as [|r rows IH]; intros rows' first; simpl; [by destruct (write_rows f first rows')|].
  destruct f; rewrite IH; destruct (write_rows _ _ rows) as [cs b]; simpl; [done|]. by rewrite <-(assoc_L _ _ (json r :: cs)).
Qed.
Lemma export_loop_pages fuel rows query f : ∀ offset first,
  (∀ n, (offset ≤ n)%nat → query n = Ok (take BATCH_SIZE (drop n rows))) → (length (drop offset rows) < fuel * BATCH_SIZE)%nat →
  export_loop fuel query f offset first =
    Some ((write_rows f first (drop offset rows)).1, (write_rows f first (drop offset rows)).2, None).
Proof.
  induction fuel as [|fuel IH]; intros offset first Hq Hf; [lia|]. cbn [Csv.export_loop]. rewrite Hq by done.
  destruct (decide (length (take BATCH_SIZE (drop offset rows)) = 0%nat)) as [H0|H0].
  { rewrite length_take in H0. destruct (drop offset rows); [done|]. unfold BATCH_SIZE in H0. simpl in H0. lia. }
  rewrite length_take in *. case_decide as Hlt.
  - rewrite take_ge by lia. by destruct (write_rows f first (drop offset rows)).
  - assert (Hge : (BATCH_SIZE ≤ length (drop offset rows))%nat) by lia.
    rewrite (Nat.min_l BATCH_SIZE) by done.
    assert (Hall : write_rows f first (drop offset rows) =
      write_rows f first (take BATCH_SIZE (drop offset rows) ++ drop (offset + BATCH_SIZE) rows))
      by (by rewrite <-drop_drop, take_drop).
    rewrite Hall, write_rows_app. destruct (write_rows f first (take BATCH_SIZE (drop offset rows))) as [cs b].
    rewrite IH; [done|intros m Hm; apply Hq; lia|]. rewrite length_drop in *. unfold BATCH_SIZE in *. lia.
Qed.
(** An error at the page that begins at [n]: what came before is written. *)
Lemma export_loop_error fuel rows query f e n : ∀ offset first,
  (∀ m, (m < n)%nat → query m = Ok (take BATCH_SIZE (drop m rows))) → query n = Err e →
  (offset ≤ n ≤ length rows)%nat → (Z.of_nat BATCH_SIZE | Z.of_nat (n - offset)) → (n - offset < fuel * BATCH_SIZE)%nat →
  export_loop fuel query f offset first =
    Some ((write_rows f first (take (n - offset) (drop offset rows))).1,
          (write_rows f first (take (n - offset) (drop offset rows))).2, Some e).
Proof.
  induction fuel as [|fuel IH]; intros offset first Hq He Hn Hd Hf; [lia|]. cbn [Csv.export_loop].
  destruct (decide (offset = n)) as [->|Hne]; [rewrite He, Nat.sub_diag; done|].
  rewrite Hq by lia. destruct Hd as [k Hk].
  assert (Hge : (BATCH_SIZE ≤ n - offset)%nat) by (unfold BATCH_SIZE in *; nia).
  assert (Hlen : length (take BATCH_SIZE (drop offset rows)) = BATCH_SIZE).
  { rewrite length_take, length_drop. lia. }
  rewrite Hlen. rewrite !decide_False by (unfold BATCH_SIZE; lia).
  replace (n - offset)%nat with (BATCH_SIZE + (n - (offset + BATCH_SIZE)))%nat by lia.
  rewrite <-take_take_drop, drop_drop, write_rows_app.
  destruct (write_rows f first (take BATCH_SIZE (drop offset rows))) as [cs b].
  rewrite IH; [done|done|done|lia|exists (k - 1); lia|unfold BATCH_SIZE in *; lia].
Qed.

(** The chunks of a CSV export, as one text. *)
Definition body (cs : list string) : list ascii := cs ≫= chars.
Lemma body_app a b : body (a ++ b) = body a ++ body b.
Proof. unfold body. by rewrite bind_app. Qed.
Lemma body_cons l cs : body (line l :: cs) = l ++ newline :: body cs.
Proof. unfold body, line. cbn [mbind list_bind]. by rewrite chars_of_chars, <-(assoc_L _ l). Qed.
Definition cells (r : row) : list (list ascii) := (λ col, chars (String_of (field r col))) <$> CSV_COLUMNS.
Lemma read_rows rows first : read_csv (body (write_rows Csv first rows).1) = Some (cells <$> rows).
Proof.
  revert first. induction rows as [|r rows IH]; intros first; [done|]. cbn [Csv.write_rows].
  specialize (IH first). destruct (write_rows Csv first rows) as [cs b]. cbn [fst fmap list_fmap] in *. rewrite body_cons. unfold read_csv.
  unfold rowToCsvLine. rewrite (read_line _ (cells r)); [|apply cells_read|done].
  - unfold read_csv in IH. by rewrite IH.
  - intros col. apply quoteCsv_reads.
Qed.
Lemma all_ok_fmap {E A B} (f : A → result E B) (g : A → B) l : Forall (λ a, f a = Ok (g a)) l → all_ok (f <$> l) = Ok (g <$> l).
Proof. induction 1 as [|a l Ha _ IH]; cbn [fmap list_fmap all_ok]; [done|]. by rewrite Ha, IH. Qed.
End loop.

(** ** Theorems *)

(** What the file should say of a stream. *)
Definition stream_record (cs : list (nat * Z)) (s : stream_row) : list (list ascii) :=
  chars <$> [recipient_address s; token_address s; Z_to_string (rate_per_ledger s); Z_to_string (cliff_ledger s);
             Z_to_string (end_ledger s); Z_to_string (rate_per_ledger s * (end_ledger s - start_ledger s));
             Z_to_string (sum_claims (st_id s) cs); st_status s].
Definition exportable (cs : list (nat * Z)) (s : stream_row) : Prop :=
  bigint (rate_per_ledger s * (end_ledger s - start_ledger s)) = true ∧ bigint (sum_claims (st_id s) cs) = true.
Definition row_of (cs : list (nat * Z)) (s : stream_row) : row :=
  match export_row cs s with Ok r => r | Err _ => ∅ end.
Lemma export_row_ok cs s : exportable cs s → export_row cs s = Ok (row_of cs s) ∧ cells (row_of cs s) = stream_record cs s.
Proof. intros [H1 H2]. unfold row_of, export_row. rewrite H1, H2. split; [done|]. reflexivity. Qed.
Lemma EXPORT_SQL_rows order db sponsor from to limit offset :
  Forall (exportable (claim_events db)) (order offset (selected db sponsor from to)) →
  EXPORT_SQL order db sponsor from to limit offset =
    Ok (take limit (drop offset (row_of (claim_events db) <$> order offset (selected db sponsor from to)))).
Proof.
  intros H. unfold EXPORT_SQL. rewrite (all_ok_fmap _ (row_of (claim_events db))); [done|].
  eapply Forall_impl; [exact H|]. intros s Hs. by apply export_row_ok.
Qed.

Lemma columns_read : Forall2 cell_reads (chars <$> CSV_COLUMNS) (chars <$> CSV_COLUMNS).
Proof.
  assert (H : Forall (λ col, existsb special (chars col) = false) CSV_COLUMNS) by (repeat constructor).
  apply Forall2_fmap, Forall_Forall2_diag. eapply Forall_impl; [exact H|]. intros col Hcol.
  pose proof (quoteCsv_reads (VText col)) as Hq. unfold quoteCsv in Hq. cbn [String_of] in Hq. by rewrite Hcol in Hq.
Qed.

(** Lines of enclosed cells, the last without a line feed. *)
Lemma enclosed_lines_read lines : Forall (λ ts, ts ≠ []) lines → lines ≠ [] →
  read_csv (join newline ((λ ts, join comma (enclose <$> ts)) <$> lines)) = Some lines.
Proof.
  intros Hne. induction Hne as [|ts lines Hts Hne IH]; intros Hl; [done|]. destruct lines as [|ts' lines].
  - cbn [fmap list_fmap join]. by apply read_last_line.
  - cbn [fmap list_fmap] in *. change (join newline (?x :: ?y :: ?l)) with (x ++ newline :: join newline (y :: l)).
    unfold read_csv. rewrite (read_line _ ts); [|apply Forall2_fmap_l, Forall2_same_length_lookup_2; [done|]|done].
    + unfold read_csv in IH. by rewrite IH.
    + intros i x y Hx Hy. simplify_eq. apply enclose_reads.
Qed.
(** What the client exports is CSV, and reading it gives back every cell of
    every stream, whatever commas, quotes and line breaks the texts contain. *)
Theorem generateStreamsCsv_reads streams :
  read_csv (generateStreamsCsv streams) =
    Some ((chars <$> HEADERS) :: ((λ s, chars ∘ String_of <$> stream_cells s) <$> streams)).
Proof.
  assert (Hcells : ∀ vs, csvCell <$> vs = enclose <$> (chars ∘ String_of <$> vs)) by (intros vs; by rewrite <-list_fmap_compose).
  pose proof (enclosed_lines_read ((chars <$> HEADERS) :: ((λ s, chars ∘ String_of <$> stream_cells s) <$> streams))) as Hlines.
  rewrite <-Hlines; [|constructor; [done|by apply Forall_fmap, Forall_true]|done].
  unfold generateStreamsCsv. cbn [fmap list_fmap]. f_equal. f_equal. f_equal. rewrite <-list_fmap_compose. apply list_fmap_ext.
  intros _ s _. change (join comma (csvCell <$> stream_cells s) = join comma (enclose <$> (chars ∘ String_of <$> stream_cells s))).
  by rewrite Hcells.
Qed.

(** The file of a list of streams. *)
Lemma read_file json (db : tables) (sel : list stream_row) : Forall (exportable (claim_events db)) sel →
  read_csv (body (export_header Csv :: (write_rows json Csv true (row_of (claim_events db) <$> sel)).1)) =
    Some ((chars <$> CSV_COLUMNS) :: (stream_record (claim_events db) <$> sel)).
Proof.
  intros Hex. cbn [export_header]. rewrite body_cons. unfold read_csv. rewrite (read_line _ _ columns_read) by done.
  pose proof (read_rows json (row_of (claim_events db) <$> sel) true) as Hr. unfold read_csv in Hr. rewrite Hr.
  cbn [fmap option_fmap option_map]. do 2 f_equal. rewrite <-list_fmap_compose.
  apply Forall_fmap_ext_1. eapply Forall_impl; [exact Hex|]. intros s Hs. by apply export_row_ok.
Qed.

(** A date of the request: none or an empty one, or one that [Date] reads. *)
Definition asked_date (date : string → option Z) (q : option string) (t : option Z) : Prop :=
  match q with
  | None => t = None
  | Some s => s = "" ∧ t = None ∨ trim s ≠ "" ∧ date s = t ∧ is_Some t
  end.
Lemma asked_date_parse date q t : asked_date date q t → parseDate date q = t ∧ bad_date date q = false.
Proof.
  unfold asked_date, bad_date, parseDate. destruct q as [s|]; [|done].
  intros [[-> ->]|(Hs & Hd & Ht)]; [done|].
  assert (truthy (trim s) = true) as -> by (by destruct (trim s)). rewrite Hd. split; [done|]. destruct Ht as [z ->].
  by rewrite andb_comm.
Qed.
Lemma check_request_csv date r sponsor f from to : user r = Some sponsor → sponsor ≠ "" → q_format r = Some f →
  to_lower f = "csv" → asked_date date (q_from r) from → asked_date date (q_to r) to →
  check_request date r = inr (sponsor, Csv, from, to).
Proof.
  intros Hu Hs Hf Hl [H1 H2]%asked_date_parse [H3 H4]%asked_date_parse. unfold check_request.
  rewrite Hu, Hf, H2, H4, H1, H3. cbn [from_option id]. rewrite Hl. by destruct sponsor.
Qed.
Lemma no_recent_export now sponsor rd :
  (∀ m e, rd = Some m → m !! ("export_rate:" +:+ sponsor) = Some e → e <= now) → rate_get now sponsor rd = None.
Proof.
  intros H. unfold rate_get, redis_get. destruct rd as [m|]; [|done]. cbn [mbind option_bind].
  change EXPORT_RATE_KEY_PREFIX with "export_rate:".
  destruct (m !! _) as [e|] eqn:He; [|done]. specialize (H m e eq_refl He). cbn [mbind option_bind]. by rewrite decide_False by lia.
Qed.

(** C32. Whatever order PostgreSQL gives streams of the same time in each page,
    a signed-in sponsor who asks for a CSV file, and had none in the last
    minute, gets exactly the streams that are the sponsor's own and were
    created within the dates of the request, provided no two of them were
    created at the same time: reading the file gives the header and one
    record for each such stream, the newest first, with the exact values; and
    the export is noted for sixty seconds.  A page more than the rows is fuel
    enough.  The sums have to fit PostgreSQL's bigint, or the query fails.
    [tied_pages_lose_a_stream] shows what happens on ties. *)
Theorem export_csv_complete order date json json_error fuel now db r rd sponsor f from to :
  newest_first order → user r = Some sponsor → sponsor ≠ "" → q_format r = Some f → to_lower f = "csv" →
  asked_date date (q_from r) from → asked_date date (q_to r) to →
  (∀ m e, rd = Some m → m !! ("export_rate:" +:+ sponsor) = Some e → e <= now) →
  Forall (exportable (claim_events db)) (vesting_streams db) →
  (∀ i j s s', vesting_streams db !! i = Some s → vesting_streams db !! j = Some s' →
     sponsor_address s = sponsor → sponsor_address s' = sponsor → created_at s = created_at s' → i = j) →
  (length (vesting_streams db) < fuel * 500)%nat →
  ∃ chunks sel, exportHandler order date json json_error fuel now db r rd =
      (Some (Streamed Csv chunks), (λ m, <["export_rate:" +:+ sponsor := now + 60]> m) <$> rd) ∧
    read_csv (body chunks) = Some ((chars <$> CSV_COLUMNS) :: (stream_record (claim_events db) <$> sel)) ∧
    StronglySorted (λ a b, created_at b < created_at a) sel ∧
    ∀ s, s ∈ sel ↔ s ∈ vesting_streams db ∧ sponsor_address s = sponsor ∧
      (∀ t, from = Some t → t <= created_at s) ∧ (∀ t, to = Some t → created_at s <= t).
Proof.
  intros Ho Hu Hs Hq Hl Hfr Hto Hrd Hex Hties Hfuel. unfold exportHandler.
  rewrite (check_request_csv _ _ sponsor f from to) by done. rewrite no_recent_export by done.
  assert (Hnt : no_ties (selected db sponsor from to)) by by apply selected_no_ties.
  set (sel := order 0%nat (selected db sponsor from to)).
  assert (Hperm : sel ≡ₚ selected db sponsor from to) by apply Ho.
  assert (Hsel : Forall (exportable (claim_events db)) sel) by (rewrite Hperm; apply Forall_forall; intros s [_ Hin]%list_elem_of_filter; by eapply Forall_forall in Hin).
  unfold stream_export. rewrite (export_loop_pages json fuel (row_of (claim_events db) <$> sel)).
  - eexists _, sel. split; [done|]. cbn [export_end]. rewrite app_nil_r, drop_0. split_and!.
    + by apply read_file.
    + by apply newest_first_strict.
    + intros s. rewrite Hperm. unfold selected. rewrite list_elem_of_filter. unfold within. rewrite andb_true_iff.
      destruct from, to; rewrite ?Z.leb_le; naive_solver.
  - intros n _. rewrite EXPORT_SQL_rows; rewrite (newest_first_unique order _ n 0) by done; done.
  - rewrite drop_0, length_fmap, Hperm. unfold selected. pose proof (length_filter
      (λ s, sponsor_address s = sponsor ∧ within from to (created_at s) = true) (vesting_streams db)).
    unfold BATCH_SIZE. lia.
Qed.

(** A full page and one of a single row. *)
Lemma tied_loop json json_error query rows r : length rows = 500%nat → query 0%nat = Ok rows → query 500%nat = Ok [r] →
  stream_export json json_error 2 query Csv = Some (Streamed Csv
    (export_header Csv :: (write_rows json Csv true (rows ++ [r])).1 ++ export_end json_error Csv (write_rows json Csv true (rows ++ [r])).2 None)).
Proof.
  intros Hlen H0 H1. unfold stream_export. cbn [export_loop]. rewrite H0, Hlen, !decide_False by (unfold BATCH_SIZE; lia).
  rewrite write_rows_app. destruct (write_rows json Csv true rows) as [cs b]. cbn [Nat.add fst snd]. rewrite H1.
  rewrite decide_False, decide_False by (unfold BATCH_SIZE; simpl; lia).
  destruct (write_rows json Csv b [r]) as [cs1 b1]. rewrite decide_True by (unfold BATCH_SIZE; simpl; lia). done.
Qed.

(** Pages of streams of the same time may overlap: with 501 of them, there is
    an order, one PostgreSQL allows, in which one stream is exported twice and
    another not at all. *)
Theorem tied_pages_lose_a_stream date json json_error now db r rd sponsor f a mid z t :
  user r = Some sponsor → sponsor ≠ "" → q_format r = Some f → to_lower f = "csv" → q_from r = None → q_to r = None →
  (∀ m e, rd = Some m → m !! ("export_rate:" +:+ sponsor) = Some e → e <= now) →
  vesting_streams db = a :: mid ++ [z] → length mid = 499%nat →
  Forall (λ s, exportable (claim_events db) s ∧ sponsor_address s = sponsor ∧ created_at s = t) (a :: mid ++ [z]) →
  ∃ order chunks, newest_first order ∧
    (exportHandler order date json json_error 2 now db r rd).1 = Some (Streamed Csv chunks) ∧
    read_csv (body chunks) = Some ((chars <$> CSV_COLUMNS) :: (stream_record (claim_events db) <$> a :: mid ++ [a])).
Proof.
  intros Hu Hs Hq Hl Hfr Hto Hrd Hdb Hmid Hall. rewrite !Forall_and in Hall. destruct Hall as (Hex & Hsp & Ht).
  exists (swap_ends a mid z). assert (Ho := swap_ends_newest_first a mid z t Ht). unfold exportHandler.
  rewrite (check_request_csv _ _ sponsor f None None) by (done || by rewrite ?Hfr, ?Hto). rewrite no_recent_export by done.
  assert (Hsel : selected db sponsor None None = a :: mid ++ [z]).
  { unfold selected. rewrite Hdb. apply filter_all. rewrite Forall_forall in Hsp. intros x Hx. by split; [apply Hsp|]. }
  assert (Hpage : ∀ n, EXPORT_SQL (swap_ends a mid z) db sponsor None None BATCH_SIZE n =
    Ok (take BATCH_SIZE (drop n (row_of (claim_events db) <$> (if decide (n = 0%nat) then a :: mid ++ [z] else z :: mid ++ [a]))))).
  { intros n. rewrite EXPORT_SQL_rows; rewrite Hsel.
    - unfold swap_ends. by rewrite decide_True.
    - by rewrite (proj1 (Ho n _)). }
  set (ro := row_of (claim_events db)) in *.
  assert (H0 : EXPORT_SQL (swap_ends a mid z) db sponsor None None BATCH_SIZE 0 = Ok (ro <$> a :: mid)).
  { rewrite Hpage, decide_True, drop_0, app_comm_cons, fmap_app by done. apply f_equal, take_app_length'.
    rewrite length_fmap. simpl. unfold BATCH_SIZE. lia. }
  assert (H1 : EXPORT_SQL (swap_ends a mid z) db sponsor None None BATCH_SIZE 500 = Ok [ro a]).
  { rewrite Hpage, decide_False, app_comm_cons, fmap_app, drop_app_length' by (done || rewrite length_fmap; simpl; lia). done. }
  rewrite (tied_loop json _ _ (ro <$> a :: mid) (ro a)) by (done || rewrite length_fmap; simpl; lia).
  eexists. split; [done|]. split; [done|]. cbn [export_end]. rewrite app_nil_r.
  change [ro a] with (ro <$> [a]). rewrite <-fmap_app.
  apply (read_file json db (a :: mid ++ [a])). rewrite Forall_cons, Forall_app in Hex.
  destruct Hex as (Ha & Hm & _). by rewrite Forall_cons, Forall_app, Forall_singleton.
Qed.

(** A database error after the first pages leaves a CSV file that reads as a
    complete one with fewer streams: there is no mark of the error in it. *)
Theorem failed_export_looks_complete json json_error fuel query rows n e :
  (∀ m, (m < n)%nat → query m = Ok (take BATCH_SIZE (drop m rows))) → query n = Err e → (n ≤ length rows)%nat →
  (Z.of_nat BATCH_SIZE | Z.of_nat n) → (n < fuel * BATCH_SIZE)%nat →
  ∃ chunks, stream_export json json_error fuel query Csv = Some (Streamed Csv chunks) ∧
    read_csv (body chunks) = Some ((chars <$> CSV_COLUMNS) :: (cells <$> take n rows)).
Proof.
  intros Hq He Hn Hd Hf. unfold stream_export.
  rewrite (export_loop_error json fuel rows query Csv e n 0 true) by (done || lia || by rewrite Nat.sub_0_r).
  rewrite Nat.sub_0_r, drop_0. eexists. split; [done|]. cbn [export_end export_header]. rewrite app_nil_r, body_cons.
  unfold read_csv. rewrite (read_line _ _ columns_read) by done.
  pose proof (read_rows json (take n rows) true) as Hr. unfold read_csv in Hr. by rewrite Hr.
Qed.

(** For requests that do not overlap, the limiter refuses exactly the
    sponsor that had an export less than a minute ago. *)
Theorem one_export_a_minute now now' a b rd :
  rate_get now' b (rate_set now a (Some rd)) ≠ None ↔
    (b = a ∧ now' < now + EXPORT_RATE_TTL_SECONDS) ∨ (b ≠ a ∧ rate_get now' b (Some rd) ≠ None).
Proof.
  unfold rate_get, rate_set, redis_get. cbn [fmap option_fmap option_map mbind option_bind].
  assert (Hkey : EXPORT_RATE_KEY_PREFIX +:+ a = EXPORT_RATE_KEY_PREFIX +:+ b ↔ b = a).
  { split; [|by intros ->]. intros H. by apply (inj (String.append _)) in H. }
  destruct (decide (b = a)) as [->|Hne].
  - rewrite lookup_insert_eq. cbn [mbind option_bind]. case_decide; cbn [mbind option_bind]; [|naive_solver lia].
    split; [by left|done].
  - rewrite lookup_insert_ne by (by rewrite Hkey). naive_solver.
Qed.

(** A JSON export that meets no error is the array of its rows. *)
Theorem export_json_array json json_error fuel query rows :
  (∀ n, query n = Ok (take BATCH_SIZE (drop n rows))) → (length rows < fuel * BATCH_SIZE)%nat →
  ∃ chunks, stream_export json json_error fuel query Json = Some (Streamed Json chunks) ∧
    body chunks = "["%char :: join comma (chars ∘ json <$> rows) ++ ["]"%char].
Proof.
  intros Hq Hf. unfold stream_export. rewrite (export_loop_pages json fuel rows query Json 0 true) by done.
  rewrite drop_0. eexists. split; [done|]. cbn [export_end export_header].
  assert (Hrest : ∀ rs, body (write_rows json Json false rs).1 = rs ≫= λ r, comma :: chars (json r)).
  { induction rs as [|r rs IH]; [done|]. cbn [write_rows]. destruct (write_rows json Json false rs) as [cs b].
    cbn [fst] in *. unfold body in *. cbn [app mbind list_bind]. by rewrite IH. }
  assert (Hjoin : ∀ r rs, join comma (chars ∘ json <$> r :: rs) = chars (json r) ++ (rs ≫= λ r, comma :: chars (json r))).
  { intros r rs. revert r. induction rs as [|r' rs IH]; intros r; [by rewrite app_nil_r|].
    change (join comma (chars ∘ json <$> r :: r' :: rs)) with (chars (json r) ++ comma :: join comma (chars ∘ json <$> r' :: rs)).
    by rewrite IH. }
  destruct rows as [|r rows]; [done|]. cbn [write_rows]. specialize (Hrest rows).
  destruct (write_rows json Json false rows) as [cs b]. cbn [fst app] in *. rewrite Hjoin, <-Hrest.
  unfold body in *. cbn [mbind list_bind]. rewrite bind_app. cbn [mbind list_bind]. rewrite app_nil_r, <-(assoc_L _ (chars (json r))). done.
Qed.

(** The pages of one export are separate queries: a stream that is created
    after the first of them comes first from then on, and the last stream of the
    first page is exported a second time. *)
Theorem stream_created_meanwhile_duplicates json json_error fuel query rows x :
  query 0%nat = Ok (take BATCH_SIZE rows) →
  (∀ n, (BATCH_SIZE ≤ n)%nat → query n = Ok (take BATCH_SIZE (drop n (x :: rows)))) →
  (BATCH_SIZE ≤ length rows)%nat → (length rows < fuel * BATCH_SIZE)%nat →
  ∃ chunks, stream_export json json_error (S fuel) query Csv = Some (Streamed Csv chunks) ∧
    read_csv (body chunks) =
      Some ((chars <$> CSV_COLUMNS) :: (cells <$> take BATCH_SIZE rows) ++ (cells <$> drop (pred BATCH_SIZE) rows)).
Proof.
  intros H0 Hq Hge Hf. unfold stream_export. cbn [export_loop]. rewrite H0.
  assert (Hlen : length (take BATCH_SIZE rows) = BATCH_SIZE) by (rewrite length_take; lia).
  rewrite Hlen, !decide_False by (unfold BATCH_SIZE; lia).
  assert (Hd : drop BATCH_SIZE (x :: rows) = drop (pred BATCH_SIZE) rows) by done.
  pose proof (λ first, export_loop_pages json fuel (x :: rows) query Csv BATCH_SIZE first Hq) as Hl. rewrite Hd in Hl.
  pose proof (read_rows json (take BATCH_SIZE rows ++ drop (pred BATCH_SIZE) rows) true) as Hr.
  rewrite write_rows_app in Hr. destruct (write_rows json Csv true (take BATCH_SIZE rows)) as [cs b].
  rewrite Hl by (rewrite length_drop; unfold BATCH_SIZE in *; simpl; lia). eexists. split; [done|].
  cbn [fst snd export_end export_header] in *. rewrite app_nil_r, body_cons.
  unfold read_csv in *. rewrite (read_line _ _ columns_read) by done. rewrite Hr. cbn [fmap option_fmap option_map].
  by rewrite fmap_app.
Qed.

(** ** Witnesses *)

Definition demo_stream (i : nat) (sponsor recipient : string) : stream_row :=
  StreamRow i sponsor recipient "CTOK" 10 100 200 1100 "active" (Z.of_nat i).
Definition demo_tables : tables :=
  Tables [demo_stream 0 "GS" (String quote (String comma "x")); demo_stream 1 "GT" "GB"; demo_stream 2 "GS" "GC"]
    [(0%nat, 40); (2%nat, 7); (0%nat, 2)].
Definition demo_request : request := Request (Some "GS") (Some "CSV") None None.

Definition demo_order (_ : nat) (l : list stream_row) : list stream_row := merge_sort newer l.
Lemma demo_order_newest_first : newest_first demo_order.
Proof. intros n l. split; [apply merge_sort_Permutation|]. by apply (StronglySorted_merge_sort newer). Qed.

Lemma export_csv_complete_witness :
  ∃ chunks, (exportHandler demo_order (λ _, None) (λ _, "") (λ _, "") 1 0 demo_tables demo_request (Some ∅)).1 =
      Some (Streamed Csv chunks) ∧
    read_csv (body chunks) = Some ((chars <$> CSV_COLUMNS) ::
      [chars <$> ["GC"; "CTOK"; "10"; "200"; "1100"; "10000"; "7"; "active"];
       chars <$> [String quote (String comma "x"); "CTOK"; "10"; "200"; "1100"; "10000"; "42"; "active"]]).
Proof.
  destruct (export_csv_complete demo_order (λ _, None) (λ _, "") (λ _, "") 1 0 demo_tables demo_request (Some ∅) "GS" "CSV" None None)
    as (chunks & sel & Hh & _); try reflexivity; [exact demo_order_newest_first|done|..].
  - intros m e [= <-] H. done.
  - repeat (constructor; [by split|]). constructor.
  - intros [|[|[|i]]] [|[|[|j]]] s s' Hi Hj; vm_compute in Hi, Hj; try discriminate; injection Hi as <-; injection Hj as <-;
      intros _ _ He; vm_compute in He; (reflexivity || discriminate).
  - simpl. lia.
  - exists chunks. rewrite Hh. split; [done|].
    assert (Hc : (exportHandler demo_order (λ _, None) (λ _, "") (λ _, "") 1 0 demo_tables demo_request (Some ∅)).1 =
      Some (Streamed Csv chunks)) by (by rewrite Hh).
    vm_compute in Hc. injection Hc as <-. vm_compute. reflexivity.
Defined.
Definition demo_batch (i : nat) : stream_row := StreamRow i "GS" "GB" "CTOK" 10 100 200 1100 "active" 5.
Lemma tied_pages_lose_a_stream_witness :
  ∃ order chunks, newest_first order ∧
    (exportHandler order (λ _, None) (λ _, "") (λ _, "") 2 0 (Tables (demo_batch <$> seq 0 501) []) demo_request None).1 =
      Some (Streamed Csv chunks).
Proof.
  destruct (tied_pages_lose_a_stream (λ _, None) (λ _, "") (λ _, "") 0 (Tables (demo_batch <$> seq 0 501) []) demo_request None
    "GS" "CSV" (demo_batch 0) (demo_batch <$> seq 1 499) (demo_batch 500) 5) as (order & chunks & Ho & Hh & _); try reflexivity.
  - done.
  - done.
  - apply Forall_forall. intros s Hs. change (demo_batch 0 :: _) with (demo_batch <$> seq 0 501) in Hs.
    apply list_elem_of_fmap in Hs as (i & -> & _). split; [by split|done].
  - by exists order, chunks.
Defined.
Lemma failed_export_looks_complete_witness :
  ∃ chunks, stream_export (λ _, "") (λ _, "") 1 (λ _, Err "connection lost") Csv = Some (Streamed Csv chunks) ∧
    read_csv (body chunks) = Some [chars <$> CSV_COLUMNS].
Proof.
  destruct (failed_export_looks_complete (λ _, "") (λ _, "") 1 (λ _, Err "connection lost") [] 0 "connection lost")
    as (chunks & H1 & H2); [lia|done|simpl; lia|by exists 0|unfold BATCH_SIZE; lia|]. by exists chunks.
Defined.
Lemma export_json_array_witness :
  ∃ chunks, stream_export (λ _, "{}") (λ _, "") 1 (λ n, Ok (take BATCH_SIZE (drop n [∅; ∅ : row]))) Json =
      Some (Streamed Json chunks) ∧ body chunks = chars "[{},{}]".
Proof.
  destruct (export_json_array (λ _, "{}") (λ _, "") 1 (λ n, Ok (take BATCH_SIZE (drop n [∅; ∅ : row]))) [∅; ∅])
    as (chunks & H1 & H2); [done|unfold BATCH_SIZE; simpl; lia|]. exists chunks. split; [done|]. rewrite H2. reflexivity.
Defined.
Lemma stream_created_meanwhile_duplicates_witness :
  let rows := replicate 500 (∅ : row) in
  let query n := if decide (n = 0)%nat then Ok (take BATCH_SIZE rows) else Ok (take BATCH_SIZE (drop n (∅ :: rows))) in
  ∃ chunks, stream_export (λ _, "") (λ _, "") 3 query Csv = Some (Streamed Csv chunks) ∧
    length <$> read_csv (body chunks) = Some 502%nat.
Proof.
  intros rows query.
  destruct (stream_created_meanwhile_duplicates (λ _, "") (λ _, "") 2 query rows ∅) as (chunks & H1 & H2).
  - reflexivity.
  - intros n Hn. unfold query. rewrite decide_False; [done|]. unfold BATCH_SIZE in Hn. lia.
  - unfold rows. rewrite length_replicate. done.
  - unfold rows. rewrite length_replicate. unfold BATCH_SIZE. lia.
  - exists chunks. split; [done|]. rewrite H2. vm_compute. reflexivity.
Defined.
