(* ===== verification/Keyset.v ===== *)
(** * Keyset pagination

    What the paginated routes share: rows ordered by a pair of integers, the
    newest first, pages that continue strictly after the key of the last row
    shown, and the walk over all pages while the table changes between them.
    No source of its own: [SponsorDashboard] and [SponsorStreams] instantiate it
    with their rows and keys. *)
From stdpp Require Import list sorting.
From S2P Require Import Prelude.
#[local] Open Scope Z_scope.

Definition key_lt (a b : Z * Z) : Prop := a.1 < b.1 ∨ (a.1 = b.1 ∧ a.2 < b.2).
#[global] Instance key_lt_dec a b : Decision (key_lt a b).
Proof. unfold key_lt. apply _. Defined.
Lemma key_lt_trans a b c : key_lt a b → key_lt b c → key_lt a c.
Proof. unfold key_lt. lia. Qed.
Lemma key_lt_irrefl a : ¬ key_lt a a.
Proof. unfold key_lt. lia. Qed.
Lemma key_cases a b : key_lt a b ∨ a = b ∨ key_lt b a.
Proof.
  destruct a as [a1 a2], b as [b1 b2]. unfold key_lt. simpl.
  destruct (Z.lt_trichotomy a1 b1) as [|[->|]], (Z.lt_trichotomy a2 b2) as [|[->|]]; auto.
Qed.

Section lists.
Context {A : Type}.
Implicit Types (l : list A) (P Q : A → Prop).
Lemma filter_perm_iff P Q `{!∀ x, Decision (P x)} `{!∀ x, Decision (Q x)} l :
  (∀ x, P x ↔ Q x) → filter P l ≡ₚ filter Q l.
Proof. intros Hiff. by rewrite (list_filter_iff P Q) by done. Qed.
Lemma NoDup_fmap_filter {B} (f : A → B) P `{!∀ x, Decision (P x)} l : NoDup (f <$> l) → NoDup (f <$> filter P l).
Proof. intros Hnd. eapply sublist_NoDup; [apply Hnd|]. apply fmap_sublist, sublist_filter. Qed.
End lists.

Section keyset.
Context {A : Type} (key : A → Z * Z).
Implicit Types (l : list A) (P : A → Prop).

Definition first_in_order (a b : A) : Prop := ¬ key_lt (key a) (key b).
#[global] Instance first_in_order_dec : RelDecision first_in_order.
Proof. intros a b. unfold first_in_order. apply _. Defined.
#[global] Instance first_in_order_total : Total first_in_order.
Proof. intros a b. unfold first_in_order, key_lt. lia. Qed.
#[global] Instance first_in_order_trans : Transitive first_in_order.
Proof. intros a b c. unfold first_in_order, key_lt. lia. Qed.

(** [ORDER BY ... DESC, id DESC] *)
Definition ordered (l : list A) : list A := merge_sort first_in_order l.
Lemma ordered_perm l : ordered l ≡ₚ l.
Proof. apply merge_sort_Permutation. Qed.
Lemma ordered_sorted l : StronglySorted first_in_order (ordered l).
Proof. apply StronglySorted_merge_sort; apply _. Qed.
Lemma elem_of_ordered l x : x ∈ ordered l ↔ x ∈ l.
Proof. by rewrite ordered_perm. Qed.

(** A sorted list without repeated keys is the only one of its rows. *)
Lemma sorted_by_key l1 l2 : NoDup (key <$> l1) → StronglySorted first_in_order l1 → StronglySorted first_in_order l2 →
  l1 ≡ₚ l2 → l1 = l2.
Proof.
  intros Hnd H1 H2 Hp. apply (StronglySorted_unique_strong first_in_order); [|done..].
  intros x y Hx Hy%(elem_of_Permutation_proper _ _ _ (symmetry Hp)) Hxy Hyx.
  assert (Hk : key x = key y) by (destruct (key_cases (key x) (key y)) as [|[]]; done).
  apply list_elem_of_lookup_1 in Hx as [i Hi]. apply list_elem_of_lookup_1 in Hy as [j Hj].
  assert (i = j) as <-; [|congruence].
  eapply (NoDup_lookup (key <$> l1)); [done|by rewrite list_lookup_fmap, Hi|rewrite list_lookup_fmap, Hj; by rewrite Hk].
Qed.
Lemma sort_permutation l1 l2 : NoDup (key <$> l2) → l1 ≡ₚ l2 → ordered l1 = ordered l2.
Proof.
  intros Hnd Hp. apply sorted_by_key; [by rewrite ordered_perm, Hp|apply ordered_sorted..|].
  by rewrite !ordered_perm.
Qed.
Lemma sorted_filter P `{!∀ r, Decision (P r)} l :
  StronglySorted first_in_order l → StronglySorted first_in_order (filter P l).
Proof.
  induction 1 as [|x l Hl IH Hx]; [constructor|]. rewrite filter_cons. destruct (decide (P x)); [|done].
  constructor; [done|]. rewrite Forall_forall in *. intros y [_ Hy]%list_elem_of_filter. by apply Hx.
Qed.
Lemma filter_sort P `{!∀ r, Decision (P r)} l : NoDup (key <$> l) → ordered (filter P l) = filter P (ordered l).
Proof.
  intros Hnd. apply sorted_by_key; [rewrite ordered_perm; by apply NoDup_fmap_filter|apply ordered_sorted| |].
  - apply sorted_filter, ordered_sorted.
  - by rewrite !ordered_perm.
Qed.
(** What is before a row of the list is what comes after it. *)
Lemma filter_after l i x : StronglySorted first_in_order l → NoDup (key <$> l) → l !! i = Some x →
  filter (λ r, key_lt (key r) (key x)) l = drop (S i) l.
Proof.
  revert i. induction l as [|y l IH]; intros i Hs Hnd Hi; [done|].
  apply StronglySorted_cons in Hs as [Hy Hs]. cbn [fmap list_fmap] in Hnd. apply NoDup_cons in Hnd as [Hny Hnd].
  rewrite filter_cons. destruct i as [|i]; simpl in Hi.
  - injection Hi as ->. rewrite decide_False by apply key_lt_irrefl. simpl. rewrite drop_0.
    apply filter_all. intros z Hz. rewrite Forall_forall in Hy. specialize (Hy z Hz).
    destruct (key_cases (key z) (key x)) as [|[Hk|]]; [done| |done]. destruct Hny. rewrite <-Hk. by apply list_elem_of_fmap_2.
  - rewrite decide_False; [by apply IH|]. rewrite Forall_forall in Hy. apply Hy. by eapply list_elem_of_lookup_2.
Qed.

(** ** Pages *)

Definition after (c : option (Z * Z)) (k : Z * Z) : Prop := match c with None => True | Some k0 => key_lt k k0 end.
#[global] Instance after_dec c k : Decision (after c k).
Proof. destruct c; apply _. Defined.
Definition matching P `{!∀ r, Decision (P r)} (c : option (Z * Z)) (rows : list A) : list A :=
  filter (λ r, P r ∧ after c (key r)) rows.
Definition page P `{!∀ r, Decision (P r)} (rows : list A) (c : option (Z * Z)) (n : nat) : list A :=
  take n (ordered (matching P c rows)).

(** The pages of a client that starts behind [c], the [k]-th request finding the
    [k]-th state of the table: it continues after the last row shown as long as
    one more row than [lim] was found. *)
Inductive pages_from P `{!∀ r, Decision (P r)} (dbs : nat → list A) (lim : nat) : nat → option (Z * Z) → list (list A) → Prop :=
| last_page k c : (length (page P (dbs k) c (S lim)) ≤ lim)%nat → pages_from P dbs lim k c [page P (dbs k) c lim]
| more_pages k c x ps : (lim < length (page P (dbs k) c (S lim)))%nat → last (page P (dbs k) c lim) = Some x →
    pages_from P dbs lim (S k) (Some (key x)) ps → pages_from P dbs lim k c (page P (dbs k) c lim :: ps).

Section pages.
Context (P : A → Prop) `{!∀ r, Decision (P r)} (dbs : nat → list A) (lim : nat).
Context (Hlim : (0 < lim)%nat) (Hnd : ∀ k, NoDup (key <$> dbs k)).

Lemma elem_of_key_matching c rows r : r ∈ ordered (matching P c rows) ↔ r ∈ rows ∧ P r ∧ after c (key r).
Proof. unfold matching. rewrite elem_of_ordered, list_elem_of_filter. tauto. Qed.
Lemma NoDup_matching k c : NoDup (key <$> ordered (matching P c (dbs k))).
Proof. rewrite ordered_perm. by apply NoDup_fmap_filter. Qed.
Lemma elem_of_page k c n r : r ∈ page P (dbs k) c n → r ∈ dbs k ∧ P r ∧ after c (key r).
Proof. intros (i & Hi & _)%elem_of_take. apply list_elem_of_lookup_2 in Hi. by apply elem_of_key_matching in Hi. Qed.
Lemma page_full k c : (length (page P (dbs k) c (S lim)) ≤ lim)%nat → page P (dbs k) c lim = ordered (matching P c (dbs k)).
Proof. unfold page. rewrite length_take. intros Hlen. apply take_ge. lia. Qed.
(** What a full page leaves out is exactly what comes after its last row. *)
Lemma page_rest k c x : (lim < length (page P (dbs k) c (S lim)))%nat → last (page P (dbs k) c lim) = Some x →
  length (page P (dbs k) c lim) = lim ∧
  ∀ r, r ∈ ordered (matching P c (dbs k)) → r ∈ page P (dbs k) c lim ∧ ¬ key_lt (key r) (key x) ∨ key_lt (key r) (key x).
Proof.
  unfold page. rewrite !length_take. set (L := ordered (matching P c (dbs k))). intros Hlen Hx.
  split; [lia|]. intros r Hr. rewrite last_lookup, length_take, lookup_take_lt in Hx by lia.
  pose proof (filter_after L _ x (ordered_sorted _) (NoDup_matching k c) Hx) as Hf.
  replace (S (Nat.pred (lim `min` length L))) with lim in Hf by lia.
  destruct (decide (key_lt (key r) (key x))) as [Hlt|Hn]; [by right|left]. split; [|done].
  rewrite <-(take_drop lim L) in Hr. apply elem_of_app in Hr as [|Hr]; [done|].
  rewrite <-Hf in Hr. by apply list_elem_of_filter in Hr as [? _].
Qed.
Lemma sorted_strict l : StronglySorted first_in_order l → NoDup (key <$> l) → StronglySorted (λ a b, key_lt b a) (key <$> l).
Proof.
  induction 1 as [|x l Hl IH Hx]; intros Hnd'; [constructor|]. cbn [fmap list_fmap] in *. apply NoDup_cons in Hnd' as [Hn Hnd'].
  constructor; [by apply IH|]. rewrite Forall_fmap. rewrite Forall_forall in *. intros y Hy. specialize (Hx y Hy).
  destruct (key_cases (key x) (key y)) as [|[Hk|]]; [done| |done]. destruct Hn. rewrite Hk. by apply list_elem_of_fmap_2.
Qed.
Lemma strict_page k c n : StronglySorted (λ a b, key_lt b a) (key <$> page P (dbs k) c n).
Proof.
  unfold page. rewrite fmap_take. assert (Hs := sorted_strict _ (ordered_sorted _) (NoDup_matching k c)).
  revert n. induction Hs as [|y l Hl IH Hy]; intros [|n]; simpl; try constructor; [apply IH|].
  rewrite Forall_forall in *. intros z (i & Hi & _)%elem_of_take. apply Hy. by eapply list_elem_of_lookup_2.
Qed.
Lemma strict_last l x r : StronglySorted (λ a b, key_lt b a) (key <$> l) → last l = Some x → r ∈ l → ¬ key_lt (key r) (key x).
Proof.
  induction l as [|y l IH]; [done|]. cbn [fmap list_fmap]. intros [Hy Hs]%StronglySorted_cons Hx Hr.
  apply elem_of_cons in Hr as [->|Hr].
  - destruct l as [|z l]; [injection Hx as ->; apply key_lt_irrefl|]. rewrite last_cons_cons in Hx.
    rewrite Forall_forall in Hy. apply last_Some_elem_of, (list_elem_of_fmap_2 key), Hy in Hx.
    intros Hlt. eapply key_lt_irrefl, key_lt_trans; eassumption.
  - destruct l as [|z l]; [by apply not_elem_of_nil in Hr|]. rewrite last_cons_cons in Hx. by apply IH.
Qed.

(** However the table changes between the requests: the rows shown descend
    strictly, so none is shown twice; every row shown matched when its page was
    read; and a key that matched at every request is shown. *)
Lemma pages_from_spec k c ps : pages_from P dbs lim k c ps →
  StronglySorted (λ a b, key_lt b a) (key <$> concat ps) ∧
  (∀ r, r ∈ concat ps → after c (key r)) ∧
  (∀ j p, ps !! j = Some p → ∀ r, r ∈ p → r ∈ dbs (k + j)%nat ∧ P r) ∧
  (∀ κ, after c κ → (∀ j, (k ≤ j)%nat → ∃ r, r ∈ dbs j ∧ P r ∧ key r = κ) → ∃ r, r ∈ concat ps ∧ key r = κ).
Proof.
  induction 1 as [k c Hlen|k c x ps Hlen Hx _ (IHs & IHa & IHp & IHc)].
  - simpl. rewrite app_nil_r. split_and!; [apply strict_page|intros r Hr; by apply elem_of_page in Hr as (_ & _ & ?)| |].
    + intros [|j] p' Hj; [|done]. simplify_eq/=. intros r Hr%elem_of_page. rewrite Nat.add_0_r. tauto.
    + intros κ Hκ Hall. destruct (Hall k (le_n k)) as (r & Hr & HPr & <-). exists r. split; [|done].
      rewrite page_full by done. by apply elem_of_key_matching.
  - destruct (page_rest k c x Hlen Hx) as [Hfull Hrest].
    assert (Hlast : ∀ r, r ∈ concat ps → key_lt (key r) (key x)) by exact IHa.
    assert (Hin : x ∈ page P (dbs k) c lim) by by apply last_Some_elem_of in Hx.
    assert (Hxc : after c (key x)) by by apply elem_of_page in Hin as (_ & _ & ?).
    pose proof (λ r, strict_last _ x r (strict_page k c lim) Hx) as Hge.
    cbn [concat]. rewrite fmap_app. split_and!.
    + apply StronglySorted_app. split_and!; [|apply strict_page|exact IHs].
      intros a b Ha Hb. apply list_elem_of_fmap in Ha as (ra & -> & Ha), Hb as (rb & -> & Hb).
      specialize (Hge ra Ha). specialize (Hlast rb Hb). destruct (key_cases (key ra) (key x)) as [|[->|]]; [done|done|by eapply key_lt_trans].
    + intros r [Hr|Hr]%elem_of_app; [by apply elem_of_page in Hr as (_ & _ & ?)|]. specialize (Hlast r Hr).
      destruct c as [c|]; [|done]. simpl in *. by eapply key_lt_trans.
    + intros [|j] p' Hj; simpl in Hj; [simplify_eq; intros r Hr%elem_of_page; rewrite Nat.add_0_r; tauto|].
      rewrite Nat.add_succ_r. by apply IHp.
    + intros κ Hκ Hall. destruct (Hall k (le_n k)) as (r & Hr & HPr & Hk).
      destruct (Hrest r) as [[Hp _]|Hlt]; [apply elem_of_key_matching; split_and!; try done; by rewrite Hk| |].
      * exists r. rewrite elem_of_app. by split; [left|].
      * destruct (IHc κ) as (r' & Hr' & <-); [by rewrite <-Hk|intros j Hj; apply Hall; lia|].
        exists r'. rewrite elem_of_app. by split; [right|].
Qed.

(** Each full page uses up [lim] of the keys there can be. *)
Lemma page_progress (U : list (Z * Z)) k c x : NoDup U → (∀ r, r ∈ dbs k → key r ∈ U) →
  (lim < length (page P (dbs k) c (S lim)))%nat → last (page P (dbs k) c lim) = Some x →
  (length (filter (after (Some (key x))) U) + lim ≤ length (filter (after c) U))%nat.
Proof.
  intros HU Hin Hlen Hx. destruct (page_rest k c x Hlen Hx) as [Hfull Hrest].
  rewrite <-Hfull, <-(length_fmap key (page _ _ _ _)), <-length_app.
  assert (Hxc : after c (key x)) by by apply last_Some_elem_of, elem_of_page in Hx as (_ & _ & ?).
  apply submseteq_length, NoDup_submseteq.
  - apply NoDup_app. split_and!; [by apply NoDup_filter| |].
    + intros κ [Hκ _]%list_elem_of_filter (r & -> & Hr)%list_elem_of_fmap.
      destruct (Hrest r) as [[_ Hn]|Hlt]; [apply elem_of_page in Hr; by apply elem_of_key_matching|done|].
      by eapply strict_last in Hlt; [|apply strict_page|..].
    + unfold page. eapply sublist_NoDup; [apply (NoDup_matching k c)|]. apply fmap_sublist, sublist_take.
  - intros κ [Hκ|Hκ]%elem_of_app.
    + apply list_elem_of_filter in Hκ as [Hlt Hκ]. apply list_elem_of_filter. split; [|done].
      destruct c as [c|]; [|done]. simpl in *. by eapply key_lt_trans.
    + apply list_elem_of_fmap in Hκ as (r & -> & Hr). apply elem_of_page in Hr as (Hr & _ & Hc).
      apply list_elem_of_filter. split; [done|by apply Hin].
Qed.
End pages.
End keyset.
