(* ===== verification/SponsorDashboard.v ===== *)
(** * The sponsor dashboard

    [backend/src/routes/sponsorDashboard.ts]: cursors, the keyset query, the
    totals, the response cache and the handler.  PostgreSQL keeps microseconds,
    a JavaScript date milliseconds.  [JSON.parse] and [JSON.stringify] of a
    cursor and the texts of dates and UUIDs are parameters. *)
From stdpp Require Import list gmap sorting.
From S2P Require Import Prelude Bytes Digits Validation Schedules Keyset.
#[local] Open Scope Z_scope.

(** ** Data *)

Definition CACHE_TTL_SEC : Z := 10.

(** A row of [vesting_streams]: its UUID as a number, [created_at] in
    microseconds. *)
Record row := Row {
  id : Z;
  recipient : string;
  sponsor : string;
  token : string;
  rate_per_ledger : Z;
  start_ledger : Z;
  cliff_ledger : Z;
  end_ledger : Z;
  status : string;
  created_at : Z }.
(** A row of [stream_events]. *)
Record event_row := EventRow { event_type : string; ev_recipient : string; amount : Z }.

Record SponsorStreamItem := Item {
  i_recipient : string;
  i_sponsor : string;
  i_token : string;
  i_rate : string;
  i_start : Z;
  i_cliff : Z;
  i_end : Z;
  i_status : string;
  i_created_at : string }.
Record SponsorDashboardResponse := Response {
  r_sponsor : string;
  active_streams : list SponsorStreamItem;
  cancelled_streams : list SponsorStreamItem;
  terminal_streams : list SponsorStreamItem;
  total_deposited : string;
  total_claimed : string;
  total_remaining : string;
  next_cursor : option string }.
Record StreamCursor := Cursor { c_address : string; c_id : string; c_created_at : string }.

Section dashboard.
Context (stringify : StreamCursor → string) (parse : string → option json)
  (toISO : Z → string) (date_parse : string → option Z) (timestamptz : string → option Z)
  (uuid_text : Z → string) (uuid : string → option Z).

(** ** Cursors *)

Definition encodeCursor (c : StreamCursor) : string := to_base64url (string_bytes (stringify c)).
Definition decodeCursor (value address : string) : option StreamCursor :=
  match parse (to_utf8 (from_base64 value)) with
  | Some (JObject kvs) =>
      match field "address" kvs, field "id" kvs, field "created_at" kvs with
      | JString a, JString i, JString c =>
          if bool_decide (a = address) && bool_decide (is_Some (date_parse c)) then Some (Cursor a i c) else None
      | _, _, _ => None
      end
  | _ => None
  end.

(** ** The queries *)

(** [ORDER BY created_at DESC, id DESC] *)
Definition key (r : row) : Z * Z := (created_at r, id r).

(** The page query; an [id] that is no UUID is an error. *)
Definition page_query (rows : list row) (address : string) (cursor : option StreamCursor) (limit : nat) : option (list row) :=
  match cursor with
  | None => Some (take limit (ordered key (filter (λ r, sponsor r = address) rows)))
  | Some c =>
      t ← timestamptz (c_created_at c); i ← uuid (c_id c);
      Some (take limit (ordered key (filter (λ r, sponsor r = address ∧ key_lt (key r) (t, i)) rows)))
  end.

(** The product is a bigint, the sums are numeric. *)
Definition deposit (r : row) : Z := (end_ledger r - start_ledger r) * rate_per_ledger r.
Definition stats_query (rows : list row) (events : list event_row) (address : string) : option (Z * Z) :=
  let mine := filter (λ r, sponsor r = address) rows in
  if forallb fits_bigint (deposit <$> mine) then
    Some (sum_Z (deposit <$> mine),
          sum_Z (amount <$> filter (λ e, event_type e = "TokensClaimed" ∧ ev_recipient e ∈ recipient <$> mine) events))
  else None.

(** ** The handler *)

(** [new Date(created_at)] drops the microseconds. *)
Definition js_time (r : row) : Z := created_at r / 1000.
Definition item_of (r : row) : SponsorStreamItem :=
  Item (recipient r) (sponsor r) (token r) (Z_to_string (rate_per_ledger r)) (start_ledger r) (cliff_ledger r) (end_ledger r)
    (status r) (toISO (js_time r)).

Definition group_of (r : row) : nat :=
  if decide (status r = "active" ∨ status r = "pre_cliff") then 0%nat
  else if decide (status r = "cancelled") then 1%nat else 2%nat.
Definition grouped (k : nat) (streams : list row) : list SponsorStreamItem :=
  item_of <$> filter (λ r, group_of r = k) streams.

Definition nextCursor (address : string) (hasMore : bool) (streams : list row) : option string :=
  if hasMore then
    (λ r, encodeCursor (Cursor address (uuid_text (id r)) (toISO (js_time r)))) <$> last streams
  else None.

Record request := Request { address : string; limit : Z; cursor : option string }.
Inductive answer := BadCursor | NotFound | Served (hit : bool) (r : SponsorDashboardResponse) | Failed.

Definition cacheKey (rq : request) : string :=
  "sponsor-dashboard:" +:+ address rq +:+ ":" +:+ Z_to_string (limit rq) +:+ ":" +:+ default "" (cursor rq).

(** After a cache miss. *)
Definition serve (rows : list row) (events : list event_row) (rq : request) (decoded : option StreamCursor) : answer :=
  match page_query rows (address rq) decoded (Z.to_nat (limit rq + 1)) with
  | None => Failed
  | Some found =>
      if bool_decide (found = []) && negb (truthy (default "" (cursor rq))) then NotFound
      else
        let hasMore := limit rq <? Z.of_nat (length found) in
        let streams := take (Z.to_nat (limit rq)) found in
        match stats_query rows events (address rq) with
        | None => Failed
        | Some (deposited, claimed) =>
            Served false (Response (address rq) (grouped 0 streams) (grouped 1 streams) (grouped 2 streams)
              (Z_to_string deposited) (Z_to_string claimed) (Z_to_string (deposited - claimed))
              (nextCursor (address rq) hasMore streams))
        end
  end.

(** Redis: the responses with the second they expire; [None] without Redis. *)
Notation redis := (gmap string (SponsorDashboardResponse * Z)).
Definition redis_get (now : Z) (k : string) (rd : redis) : option SponsorDashboardResponse :=
  e ← rd !! k; if decide (now < e.2) then Some e.1 else None.
(** The answer, and whether a response is stored. *)
Definition sponsorStreamsHandler (now : Z) (rows : list row) (events : list event_row) (rq : request) (rd : option redis)
    : answer * option redis :=
  let given := truthy (default "" (cursor rq)) in
  let decoded := if given then decodeCursor (default "" (cursor rq)) (address rq) else None in
  if given && bool_decide (decoded = None) then (BadCursor, rd)
  else
    match rd ≫= redis_get now (cacheKey rq) with
    | Some r => (Served true r, rd)
    | None =>
        match serve rows events rq decoded with
        | Served hit r => (Served hit r, <[cacheKey rq := (r, now + CACHE_TTL_SEC)]> <$> rd)
        | a => (a, rd)
        end
    end.
End dashboard.

(** A number in front of a colon is read unambiguously. *)
Lemma digits_colon d : ∀ d' l l', forallb is_digit d = true → forallb is_digit d' = true →
  d ++ ":"%char :: l = d' ++ ":"%char :: l' → d = d' ∧ l = l'.
Proof.
  induction d as [|c d IH]; intros [|c' d'] l l' Hd Hd' Heq; simpl in *; simplify_eq; [done|].
  apply andb_true_iff in Hd as [_ Hd]. apply andb_true_iff in Hd' as [_ Hd'].
  by destruct (IH d' l l' Hd Hd') as [-> ->].
Qed.
Lemma digits_until n m l l' : 0 <= n → 0 <= m →
  chars (Z_to_string n) ++ ":"%char :: l = chars (Z_to_string m) ++ ":"%char :: l' → n = m ∧ l = l'.
Proof.
  intros Hn Hm Heq. destruct (chars_Z_to_string n Hn) as (Hd & Hv & _), (chars_Z_to_string m Hm) as (Hd' & Hv' & _).
  destruct (digits_colon _ _ _ _ Hd Hd' Heq) as [Hdd ->]. split; [|done]. by rewrite <-Hv, <-Hv', Hdd.
Qed.

(** ** Lemmas on the order *)

Notation first_in_order := (Keyset.first_in_order key).
(** The sponsor's rows, as the dashboard shows them. *)
Definition mine (address : string) (rows : list row) : list row := filter (λ r, sponsor r = address) rows.
Definition shown (address : string) (rows : list row) : list row := ordered key (mine address rows).
Lemma shown_perm a rows : shown a rows ≡ₚ mine a rows.
Proof. apply ordered_perm. Qed.
Lemma shown_sorted a rows : StronglySorted first_in_order (shown a rows).
Proof. apply ordered_sorted. Qed.

Section pages.
Context (stringify : StreamCursor → string) (parse : string → option json)
  (toISO : Z → string) (date_parse : string → option Z) (timestamptz : string → option Z)
  (uuid_text : Z → string) (uuid : string → option Z).
Notation page_query := (page_query timestamptz uuid).
Notation serve := (serve stringify toISO timestamptz uuid_text uuid).
Notation sponsorStreamsHandler := (sponsorStreamsHandler stringify parse toISO date_parse timestamptz uuid_text uuid).
Notation encodeCursor := (encodeCursor stringify).
Notation decodeCursor := (decodeCursor parse date_parse).

(** Streams created since: newer than all the sponsor had. *)
Definition grown (a : string) (rows rows' : list row) : Prop :=
  ∃ new, rows' ≡ₚ new ++ rows ∧ ∀ n r, n ∈ new → sponsor n = a → r ∈ rows → sponsor r = a → key_lt (key r) (key n).

Lemma NoDup_mine a rows : NoDup (key <$> rows) → NoDup (key <$> mine a rows).
Proof. intros H. eapply sublist_NoDup; [apply H|]. apply fmap_sublist, sublist_filter. Qed.
Lemma shown_lookup a rows i x : shown a rows !! i = Some x → x ∈ rows ∧ sponsor x = a.
Proof.
  intros Hx%list_elem_of_lookup_2. rewrite shown_perm in Hx. apply list_elem_of_filter in Hx as [? ?]. done.
Qed.
Lemma page_first a rows n : page_query rows a None n = Some (take n (shown a rows)).
Proof. done. Qed.
Lemma page_after a rows rows' i x c n : NoDup (key <$> rows) → grown a rows rows' → shown a rows !! i = Some x →
  timestamptz (c_created_at c) = Some (created_at x) → uuid (c_id c) = Some (id x) →
  page_query rows' a (Some c) n = Some (take n (drop (S i) (shown a rows))).
Proof.
  intros Hnd (new & Hp & Hnew) Hi Ht Hu. unfold SponsorDashboard.page_query. rewrite Ht, Hu. cbn [mbind option_bind].
  destruct (shown_lookup _ _ _ _ Hi) as [Hx Hxa]. do 2 f_equal.
  change (created_at x, id x) with (key x).
  rewrite <-(filter_after key (shown a rows) i x);
    [|apply shown_sorted|rewrite shown_perm; by apply NoDup_mine|done].
  unfold shown. rewrite <-filter_sort by by apply NoDup_mine. apply (sort_permutation key).
  - eapply sublist_NoDup; [by apply (NoDup_mine a), Hnd|]. apply fmap_sublist, sublist_filter.
  - rewrite Hp, filter_app, filter_none.
    + unfold mine. rewrite list_filter_filter. simpl. apply filter_perm_iff. intros r. tauto.
    + intros y Hy [Hya Hlt]. specialize (Hnew y x Hy Hya Hx Hxa). unfold key_lt in *. lia.
Qed.

Lemma grouped_partition l : grouped toISO 0 l ++ grouped toISO 1 l ++ grouped toISO 2 l ≡ₚ item_of toISO <$> l.
Proof.
  unfold grouped. rewrite <-!fmap_app. apply fmap_Permutation. induction l as [|r l IH]; [done|].
  assert (Hg : group_of r = 0%nat ∨ group_of r = 1%nat ∨ group_of r = 2%nat).
  { unfold group_of. repeat case_decide; tauto. }
  rewrite !filter_cons. destruct Hg as [Hg|[Hg|Hg]]; rewrite !Hg; simpl.
  - by constructor.
  - rewrite <-Permutation_middle. by constructor.
  - rewrite !(assoc_L (++)), <-Permutation_middle, <-!(assoc_L (++)). by constructor.
Qed.

Definition cursor_of (a : string) (r : row) : StreamCursor := Cursor a (uuid_text (id r)) (toISO (js_time r)).
(** What is documented of JSON, dates and UUIDs, for the rows of a table. *)
Record texts_ok (a : string) (rows : list row) : Prop := {
  json_ok : ∀ r, r ∈ rows → parse (stringify (cursor_of a r)) =
    Some (JObject [("address", JString a); ("id", JString (uuid_text (id r))); ("created_at", JString (toISO (js_time r)))]);
  json_ascii : ∀ r, r ∈ rows → Forall is_ascii_char (chars (stringify (cursor_of a r))) ∧ stringify (cursor_of a r) ≠ "";
  date_ok : ∀ r, r ∈ rows → is_Some (date_parse (toISO (js_time r)));
  timestamptz_ok : ∀ r, r ∈ rows → timestamptz (toISO (js_time r)) = Some (1000 * js_time r);
  uuid_ok : ∀ r, r ∈ rows → uuid (uuid_text (id r)) = Some (id r) }.
Lemma decode_encode a rows r : texts_ok a rows → r ∈ rows →
  decodeCursor (encodeCursor (cursor_of a r)) a = Some (cursor_of a r) ∧ truthy (encodeCursor (cursor_of a r)) = true.
Proof.
  intros [Hj Ha Hd _ _] Hr. destruct (Ha r Hr) as [Hasc Hne].
  assert (Hb : Forall is_byte (string_bytes (stringify (cursor_of a r)))) 
    by (unfold string_bytes; apply Forall_fmap, Forall_true; intros c; apply code_range).
  split; [|apply to_base64url_plain; [done|]].
  - unfold SponsorDashboard.decodeCursor, SponsorDashboard.encodeCursor. rewrite from_base64url, to_utf8_ascii, Hj by done.
    change (field "address" _) with (JString a). change (field "id" _) with (JString (uuid_text (id r))).
    change (field "created_at" _) with (JString (toISO (js_time r))). cbv iota beta.
    rewrite !bool_decide_eq_true_2 by (done || by apply Hd). done.
  - intros Hnil. apply Hne. unfold string_bytes in Hnil. apply fmap_nil_inv in Hnil.
    by rewrite <-(of_chars_chars (stringify (cursor_of a r))), Hnil.
Qed.

(** ** Following the cursors *)

Definition items (r : SponsorDashboardResponse) : list SponsorStreamItem :=
  active_streams r ++ cancelled_streams r ++ terminal_streams r.
(** The pages a client gets; the [k]-th request finds the [k]-th state of the database. *)
Fixpoint walk (fuel k : nat) (dbs : nat → list row * list event_row) (a : string) (lim : Z) (cur : option string)
    : option (list (list SponsorStreamItem)) :=
  match fuel with
  | O => None
  | S fuel =>
      match (sponsorStreamsHandler 0 (dbs k).1 (dbs k).2 (Request a lim cur) None).1 with
      | Served _ r =>
          match next_cursor r with
          | None => Some [items r]
          | Some c => cons (items r) <$> walk fuel (S k) dbs a lim (Some c)
          end
      | _ => None
      end
  end.

(** A request with a good cursor, without a cache. *)
Definition good_cursor (a : string) (cur : option string) (decoded : option StreamCursor) : Prop :=
  (cur = None ∧ decoded = None) ∨ ∃ s c, cur = Some s ∧ truthy s = true ∧ decodeCursor s a = Some c ∧ decoded = Some c.
Lemma handler_serve a lim cur decoded rows evs : good_cursor a cur decoded →
  (sponsorStreamsHandler 0 rows evs (Request a lim cur) None).1 = serve rows evs (Request a lim cur) decoded.
Proof.
  intros Hg. unfold SponsorDashboard.sponsorStreamsHandler. cbn [cursor address].
  destruct Hg as [[-> ->]|(s & c & -> & Hs & Hc & ->)]; cbn [from_option Datatypes.id].
  - change (truthy "") with false. cbn [andb mbind option_bind]. by destruct (serve _ _ _ _).
  - rewrite Hs, Hc. cbn [andb]. rewrite bool_decide_eq_false_2 by done. cbn [mbind option_bind].
    by destruct (serve _ _ _ _).
Qed.
Lemma serve_page rows evs a lim cur decoded l : 1 <= lim → l ≠ [] → stats_query rows evs a ≠ None →
  (∀ n, page_query rows a decoded n = Some (take n l)) →
  ∃ r, serve rows evs (Request a lim cur) decoded = Served false r ∧
    items r ≡ₚ item_of toISO <$> take (Z.to_nat lim) l ∧
    next_cursor r = if decide (Z.to_nat lim < length l)%nat
                    then (λ x, encodeCursor (cursor_of a x)) <$> last (take (Z.to_nat lim) l) else None.
Proof.
  intros Hlim Hl Hst Hq. unfold SponsorDashboard.serve. cbn [address limit cursor]. rewrite Hq.
  rewrite bool_decide_eq_false_2; cbn [andb].
  2:{ destruct l; [done|]. by replace (Z.to_nat (lim + 1)) with (S (Z.to_nat lim)) by lia. }
  destruct (stats_query rows evs a) as [[d cl]|]; [|done].
  assert (Htake : take (Z.to_nat lim) (take (Z.to_nat (lim + 1)) l) = take (Z.to_nat lim) l) by (rewrite take_take; f_equal; lia).
  rewrite Htake, length_take. eexists. split; [done|]. split; [apply grouped_partition|]. cbn [next_cursor]. unfold nextCursor.
  destruct (Z.ltb_spec lim (Z.of_nat (Z.to_nat (lim + 1) `min` length l))); case_decide; (done || lia).
Qed.

Section walking.
Context (a : string) (lim : Z) (rows : list row) (dbs : nat → list row * list event_row).
Context (Hlim : 1 <= lim) (Hnd : NoDup (key <$> rows)) (Htexts : texts_ok a rows)
  (Hms : ∀ r, r ∈ rows → created_at r mod 1000 = 0)
  (Hdbs : ∀ k, grown a rows (dbs k).1 ∧ stats_query (dbs k).1 (dbs k).2 a ≠ None).
Notation L := (shown a rows).

Definition chunk_page (p : list SponsorStreamItem) (c : list row) : Prop :=
  p ≡ₚ item_of toISO <$> c ∧ (0 < length c ≤ Z.to_nat lim)%nat.
Lemma dashboard_walk_from fuel : ∀ k i cur decoded, good_cursor a cur decoded →
  (∀ n, page_query (dbs k).1 a decoded n = Some (take n (drop i L))) → (i < length L)%nat →
  (length L - i ≤ fuel * Z.to_nat lim)%nat →
  ∃ pages chunks, walk fuel k dbs a lim cur = Some pages ∧ concat chunks = drop i L ∧ Forall2 chunk_page pages chunks.
Proof.
  induction fuel as [|fuel IH]; intros k i cur decoded Hg Hq Hi Hf; [lia|]. cbn [walk].
  rewrite (handler_serve a lim cur decoded) by done. destruct (Hdbs k) as [Hgr Hst].
  destruct (serve_page (dbs k).1 (dbs k).2 a lim cur decoded (drop i L)) as (r & -> & Hitems & Hnext); [done| |done|done|].
  { intros H. apply (f_equal length) in H. rewrite length_drop in H. simpl in H. lia. }
  rewrite length_drop in Hnext. rewrite Hnext. case_decide as Hmore.
  - destruct (lookup_lt_is_Some_2 L (i + pred (Z.to_nat lim))) as [x Hx]; [lia|].
    assert (Hlast : last (take (Z.to_nat lim) (drop i L)) = Some x).
    { rewrite last_lookup, length_take, length_drop. rewrite Nat.min_l by lia.
      rewrite lookup_take_lt by lia. by rewrite lookup_drop. }
    rewrite Hlast. cbn [fmap option_fmap option_map].
    destruct (shown_lookup a rows _ x Hx) as [Hin _]. destruct (decode_encode a rows x Htexts Hin) as [Hdec Htr].
    destruct (IH (S k) (i + Z.to_nat lim)%nat (Some (encodeCursor (cursor_of a x))) (Some (cursor_of a x)))
      as (pages & chunks & Hw & Hc & Hf2).
    + right. by eexists _, _.
    + intros n. destruct (Hdbs (S k)) as [Hgr' _].
      rewrite (page_after a rows (dbs (S k)).1 _ x _ n Hnd Hgr' Hx);
        [do 3 f_equal; lia| |by apply (uuid_ok _ _ Htexts)].
      simpl. rewrite (timestamptz_ok _ _ Htexts) by done. f_equal. unfold js_time.
      pose proof (Hms x Hin) as Hx0. pose proof (Z.div_mod (created_at x) 1000). lia.
    + lia.
    + lia.
    + rewrite Hw. eexists _, (take (Z.to_nat lim) (drop i L) :: chunks). split; [done|]. split.
      * simpl. by rewrite Hc, <-drop_drop, take_drop.
      * constructor; [|done]. split; [done|]. rewrite length_take, length_drop. lia.
  - eexists _, [drop i L]. split; [done|]. split; [simpl; by rewrite app_nil_r|].
    constructor; [|constructor]. rewrite take_ge in Hitems by (rewrite length_drop; lia).
    split; [done|]. rewrite length_drop. lia.
Qed.
End walking.
End pages.

(** ** Theorems *)

(** Following the cursors from the first page shows every stream of the
    sponsor exactly once, newest first, page by page, even while new streams are
    created between the requests, provided creation times are whole
    milliseconds. *)
Theorem dashboard_pages_enumerate stringify parse toISO date_parse timestamptz uuid_text uuid fuel a lim rows dbs :
  1 <= lim → NoDup (key <$> rows) → mine a rows ≠ [] →
  texts_ok stringify parse toISO date_parse timestamptz uuid_text uuid a rows →
  (∀ r, r ∈ rows → created_at r mod 1000 = 0) → (dbs 0%nat).1 = rows →
  (∀ k, grown a rows (dbs k).1 ∧ stats_query (dbs k).1 (dbs k).2 a ≠ None) →
  (length (mine a rows) ≤ fuel * Z.to_nat lim)%nat →
  ∃ pages chunks, walk stringify parse toISO date_parse timestamptz uuid_text uuid fuel 0 dbs a lim None = Some pages ∧
    concat chunks = shown a rows ∧ Forall2 (chunk_page toISO lim) pages chunks.
Proof.
  intros Hlim Hnd Hne Ht Hms H0 Hdbs Hf.
  assert (Hlen : length (shown a rows) = length (mine a rows)) by (apply Permutation_length, shown_perm).
  apply (dashboard_walk_from stringify parse toISO date_parse timestamptz uuid_text uuid a lim rows dbs Hlim Hnd Ht Hms Hdbs
    fuel 0 0 None None); [by left|intros n; by rewrite H0| |lia].
  rewrite Hlen. destruct (mine a rows); [done|simpl; lia].
Qed.

(** Times that PostgreSQL keeps to the microsecond lose streams: one created
    in the same millisecond as the last of a page, but not at its very start, is
    on no later page. *)
Theorem same_millisecond_lost toISO timestamptz uuid a rows x y n page c :
  timestamptz (toISO (js_time x)) = Some (1000 * js_time x) → c_created_at c = toISO (js_time x) →
  js_time y = js_time x → created_at y mod 1000 ≠ 0 →
  page_query timestamptz uuid rows a (Some c) n = Some page → y ∉ page.
Proof.
  intros Hts Hc Hxy Hy. unfold page_query. rewrite Hc, Hts. cbn [mbind option_bind].
  destruct (uuid (c_id c)) as [i|]; [|done]. cbn [mbind option_bind]. intros [= <-] Hin.
  apply elem_of_take in Hin as (j & Hj & _). apply list_elem_of_lookup_2 in Hj. rewrite ordered_perm in Hj.
  apply list_elem_of_filter in Hj as [[_ Hlt] _]. unfold key_lt, key, js_time in *. simpl in Hlt.
  pose proof (Z.div_mod (created_at y) 1000). pose proof (Z.mod_pos_bound (created_at y) 1000). lia.
Qed.

(** A cursor issued for one sponsor is refused for any other. *)
Theorem cursor_of_another_sponsor stringify parse toISO date_parse timestamptz uuid_text uuid a b rows r now rows' evs lim rd :
  texts_ok stringify parse toISO date_parse timestamptz uuid_text uuid a rows → r ∈ rows → a ≠ b →
  sponsorStreamsHandler stringify parse toISO date_parse timestamptz uuid_text uuid now rows' evs
    (Request b lim (Some (encodeCursor stringify (cursor_of toISO uuid_text a r)))) rd = (BadCursor, rd).
Proof.
  intros Ht Hr Hab. destruct (decode_encode _ _ _ _ _ _ _ a rows r Ht Hr) as [Hd Htr].
  unfold sponsorStreamsHandler. cbn [cursor address from_option Datatypes.id]. rewrite Htr. cbn [andb].
  assert (Hn : decodeCursor parse date_parse (encodeCursor stringify (cursor_of toISO uuid_text a r)) b = None).
  { revert Hd. unfold decodeCursor. destruct (parse _) as [[]|]; try done. repeat (case_match; try done).
    all: intros [= -> ? ?]; repeat match goal with H : _ && _ = true |- _ => apply andb_true_iff in H as [?%bool_decide_eq_true ?] end; congruence. }
  by rewrite Hn.
Qed.

(** Cached responses are not mixed up: two requests share a cache entry only
    when they agree on the sponsor, the limit and the cursor. *)
Theorem cacheKey_exact rq rq' : stellar_address_re (address rq) = true → stellar_address_re (address rq') = true →
  0 <= limit rq → 0 <= limit rq' → cacheKey rq = cacheKey rq' →
  address rq = address rq' ∧ limit rq = limit rq' ∧ default "" (cursor rq) = default "" (cursor rq').
Proof.
  intros Ha Ha' Hl Hl' Hk. unfold cacheKey in Hk.
  apply (inj (String.append "sponsor-dashboard:")), (f_equal chars) in Hk. rewrite !string_app_chars in Hk.
  apply app_inj_1 in Hk as [Hadd Hk]; [|by rewrite !address_length].
  apply (f_equal of_chars) in Hadd. rewrite !of_chars_chars in Hadd. split; [done|].
  change (chars ":" ++ ?l) with (":"%char :: l) in Hk. injection Hk as Hk.
  apply digits_until in Hk as [Hlim Hc]; [|done..].
  split; [done|]. apply (f_equal of_chars) in Hc. by rewrite !of_chars_chars in Hc.
Qed.

(** ** Witnesses *)

Definition demo_stringify (c : StreamCursor) : string := c_address c +:+ "," +:+ c_id c +:+ "," +:+ c_created_at c.
Definition demo_parse (s : string) : option json :=
  match split_on "," s with
  | [a; i; c] => Some (JObject [("address", JString a); ("id", JString i); ("created_at", JString c)])
  | _ => None
  end.
Definition demo_ts (s : string) : option Z := option_map (Z.mul 1000) (Z_of_string s).
Definition demo_row (i : Z) (t : Z) (st : string) : row := Row i "GR" "GS" "C" 10 0 5 100 st t.
Definition demo_rows : list row := [demo_row 1 5000 "active"; demo_row 2 7000 "cancelled"; demo_row 3 7000 "expired"].
Notation demo_walk fuel lim :=
  (walk demo_stringify demo_parse Z_to_string Z_of_string demo_ts Z_to_string Z_of_string
     fuel 0 (λ _, (demo_rows, [])) "GS" lim None).
Lemma demo_texts : texts_ok demo_stringify demo_parse Z_to_string Z_of_string demo_ts
  Z_to_string Z_of_string "GS" demo_rows.
Proof.
  split; intros r Hr; repeat (apply elem_of_cons in Hr as [->|Hr]); try by apply not_elem_of_nil in Hr.
  all: try reflexivity.
  all: try (split; [repeat constructor|done]).
  all: by eexists.
Qed.

Lemma dashboard_pages_enumerate_witness :
  option_map (map (map i_status)) (demo_walk 3 2) = Some [["cancelled"; "expired"]; ["active"]] ∧
  ∃ pages chunks, demo_walk 3 2 = Some pages ∧ concat chunks = shown "GS" demo_rows.
Proof.
  split; [vm_compute; reflexivity|].
  destruct (dashboard_pages_enumerate demo_stringify demo_parse Z_to_string Z_of_string demo_ts
    Z_to_string Z_of_string 3 "GS" 2 demo_rows (λ _, (demo_rows, []))) as (pages & chunks & H1 & H2 & _).
  - lia.
  - by apply (bool_decide_unpack _); vm_compute.
  - done.
  - apply demo_texts.
  - intros r Hr. repeat (apply elem_of_cons in Hr as [->|Hr]; [done|]). by apply not_elem_of_nil in Hr.
  - done.
  - intros k. split; [|by vm_compute]. exists []. split; [done|]. intros n r Hn. by apply not_elem_of_nil in Hn.
  - vm_compute. lia.
  - by exists pages, chunks.
Defined.
Lemma same_millisecond_lost_witness :
  let x := demo_row 2 7300 "active" in let y := demo_row 1 7200 "active" in
  first_in_order x y ∧ y ∉ [demo_row 0 5000 "active"].
Proof.
  intros x y. split; [by apply (bool_decide_unpack _); vm_compute|].
  apply (same_millisecond_lost Z_to_string demo_ts Z_of_string "GS"
    [y; demo_row 0 5000 "active"; x] x y 5 _ (Cursor "GS" "2" "7")); try reflexivity. discriminate.
Defined.
Lemma cursor_of_another_sponsor_witness :
  (sponsorStreamsHandler demo_stringify demo_parse Z_to_string Z_of_string demo_ts
    Z_to_string Z_of_string 0 [] [] (Request "GT" 5
      (Some (encodeCursor demo_stringify (cursor_of Z_to_string Z_to_string "GS" (demo_row 1 5000 "active"))))) None).1 = BadCursor.
Proof.
  rewrite (cursor_of_another_sponsor demo_stringify demo_parse Z_to_string Z_of_string demo_ts
    Z_to_string Z_of_string "GS" "GT" demo_rows (demo_row 1 5000 "active")); [done|apply demo_texts|left|done].
Defined.
Lemma cacheKey_exact_witness :
  let g := of_chars ("G"%char :: replicate 55 "A"%char) in
  address (Request g 25 None) = g ∧ limit (Request g 25 None) = 25.
Proof.
  intros g. destruct (cacheKey_exact (Request g 25 None) (Request g 25 (Some ""))) as (H1 & H2 & _); [done..|]. done.
Defined.
