(* ===== verification/SponsorStreams.v ===== *)
(** * The stream list of a sponsor

    [backend/src/routes/streams.ts]: cursors bound to a sponsor, a status filter
    and an order, the page and count queries and the handler.  The query string
    has passed [SponsorStreamsQuerySchema].  PostgreSQL keeps microseconds, a
    JavaScript date milliseconds.  [JSON.parse] and [JSON.stringify] of a cursor
    and the texts of dates and UUIDs are parameters; page numbers are integers,
    beyond 2^53 as well. *)
From Stdlib Require Import QArith Qround.
From stdpp Require Import list sorting.
From S2P Require Import Prelude Bytes Digits Validation Schedules Keyset.
#[local] Open Scope Z_scope.

(** ** Data *)

Inductive StreamSort := by_created_at | by_end_ledger.
#[global] Instance StreamSort_eq_dec : EqDecision StreamSort.
Proof. solve_decision. Defined.
Definition sort_text (s : StreamSort) : string := match s with by_created_at => "created_at" | by_end_ledger => "end_ledger" end.
Definition sort_of (s : string) : option StreamSort :=
  if decide (s = "created_at") then Some by_created_at else if decide (s = "end_ledger") then Some by_end_ledger else None.
Definition STATUSES : list string := ["active"; "cancelled"; "expired"; "drained"; "all"].

(** A row of [vesting_streams]: its UUID as a number, [created_at] in
    microseconds. *)
Record row := Row {
  id : Z;
  recipient : string;
  sponsor : string;
  token : string;
  rate_per_ledger : Z;
  start_ledger : Z;
  cliff_ledger : Z;
  end_ledger : Z;
  status : string;
  created_at : Z }.
(** Migration 001 makes the status a varchar, 006 an enumeration without
    [completed], 007 a varchar again. *)
Inductive column := Varchar | Enum.

Record StreamCursor := Cursor {
  c_sponsor : string;
  c_status : string;
  c_sort : StreamSort;
  c_page : Z;
  c_id : json;
  c_created_at : string;
  c_end_ledger : Z }.
Record request := Request {
  q_sponsor : string;
  q_status : string;
  q_sort : StreamSort;
  q_page : Z;
  q_limit : Z;
  q_cursor : option string }.
Record item := Item {
  i_recipient : string;
  i_sponsor : string;
  i_token : string;
  i_rate_per_ledger : string;
  i_start_ledger : Z;
  i_cliff_ledger : Z;
  i_end_ledger : Z;
  i_status : string;
  i_created_at : string }.
Record response := Response {
  streams : list item;
  total : Z;
  page_number : Z;
  page_limit : Z;
  next_cursor : option string }.
Inductive answer := BadCursor | Failed | Served (r : response).

(** [/^[0-9a-f]{8}-[0-9a-f]{4}-[1-8][0-9a-f]{3}-[89ab][0-9a-f]{3}-[0-9a-f]{12}$/i] *)
Definition is_hex (c : ascii) : bool := is_digit c || in_range 97 102 (lower_char c).
Definition uuid_re (s : string) : bool :=
  match split_on "-" s with
  | [a; b; c; d; e] =>
      forallb (λ p, forallb is_hex (chars p)) [a; b; c; d; e] &&
      bool_decide (length (chars a) = 8%nat) && bool_decide (length (chars b) = 4%nat) &&
      bool_decide (length (chars c) = 4%nat) && bool_decide (length (chars d) = 4%nat) &&
      bool_decide (length (chars e) = 12%nat) &&
      match chars c with c0 :: _ => in_range 49 56 c0 | [] => false end &&
      match chars d with d0 :: _ => bool_decide (lower_char d0 ∈ ["8"; "9"; "a"; "b"]%char) | [] => false end
  | _ => false
  end.
(** [String(v)] where it can be a UUID: the text of an array of one element is
    that of the element. *)
Fixpoint id_text (v : json) : string :=
  match v with JString s => s | JArray [x] => id_text x | _ => "" end.

Section routes.
Context (stringify : StreamCursor → string) (parse : string → option json)
  (toISO : Z → string) (date_parse : string → option Z) (timestamptz : string → option Z)
  (uuid_text : Z → string) (uuid : string → option Z).

(** ** Cursors *)

Definition encodeCursor (c : StreamCursor) : string := to_base64url (string_bytes (stringify c)).
Definition decodeCursor (value : string) : option StreamCursor :=
  match parse (to_utf8 (from_base64 value)) with
  | Some (JObject kvs) =>
      match field "sponsor" kvs, field "status" kvs, field "sort" kvs, field "page" kvs, field "created_at" kvs, field "end_ledger" kvs with
      | JString a, JString st, JString so, JNumber pg, JString c, JNumber e =>
          so ← sort_of so;
          if bool_decide (st ∈ STATUSES) && is_integer pg && (0 <? Qfloor pg) && uuid_re (id_text (field "id" kvs)) &&
             bool_decide (is_Some (date_parse c)) && is_integer e
          then Some (Cursor a st so (Qfloor pg) (field "id" kvs) c (Qfloor e)) else None
      | _, _, _, _, _, _ => None
      end
  | _ => None
  end.

(** ** The queries *)

Definition matches_status (wanted : string) (r : row) : Prop :=
  if decide (wanted = "all") then True
  else if decide (wanted = "expired") then status r ∈ ["expired"; "completed"] else status r = wanted.
#[global] Instance matches_status_dec w r : Decision (matches_status w r).
Proof. unfold matches_status. repeat case_decide; apply _. Defined.
Definition selected (rq : request) (r : row) : Prop := sponsor r = q_sponsor rq ∧ matches_status (q_status rq) r.
#[global] Instance selected_dec rq r : Decision (selected rq r).
Proof. unfold selected. apply _. Defined.
Definition key (s : StreamSort) (r : row) : Z * Z :=
  (match s with by_created_at => created_at r | by_end_ledger => end_ledger r end, id r).

Definition fits_integer (z : Z) : bool := (-2 ^ 31 <=? z) && (z <? 2 ^ 31).
(** The casts of the cursor; a value that is none is an error of the query. *)
Definition anchor (c : StreamCursor) : option (Z * Z) :=
  v ← match c_sort c with
      | by_created_at => timestamptz (c_created_at c)
      | by_end_ledger => if fits_integer (c_end_ledger c) then Some (c_end_ledger c) else None
      end;
  i ← match c_id c with JString s => uuid s | _ => None end;
  Some (v, i).

Definition stream_query (col : column) (rows : list row) (rq : request) (decoded : option StreamCursor) : option (list row) :=
  match col with
  | Enum => None
  | Varchar =>
      match decoded with
      | Some c => k ← anchor c; Some (page (key (q_sort rq)) (selected rq) rows (Some k) (Z.to_nat (q_limit rq + 1)))
      | None =>
          let offset := (q_page rq - 1) * q_limit rq in
          if fits_bigint offset then
            Some (take (Z.to_nat (q_limit rq + 1)) (drop (Z.to_nat offset) (ordered (key (q_sort rq)) (filter (selected rq) rows))))
          else None
      end
  end.
(** The count of expired streams names [completed] as well. *)
Definition count_query (col : column) (rows : list row) (rq : request) : option Z :=
  match col with
  | Enum => if decide (q_status rq = "expired") then None else Some (Z.of_nat (length (filter (selected rq) rows)))
  | Varchar => Some (Z.of_nat (length (filter (selected rq) rows)))
  end.

(** ** The handler *)

(** [new Date(created_at)] drops the microseconds. *)
Definition js_time (r : row) : Z := created_at r / 1000.
Definition shown_status (r : row) : string := if decide (status r = "completed") then "expired" else status r.
Definition item_of (r : row) : item :=
  Item (recipient r) (sponsor r) (token r) (Z_to_string (rate_per_ledger r)) (start_ledger r) (cliff_ledger r) (end_ledger r)
    (shown_status r) (toISO (js_time r)).
Definition cursor_of (rq : request) (pg : Z) (r : row) : StreamCursor :=
  Cursor (q_sponsor rq) (q_status rq) (q_sort rq) pg (JString (uuid_text (id r))) (toISO (js_time r)) (end_ledger r).

Definition belongs (rq : request) (c : StreamCursor) : bool :=
  bool_decide (c_sponsor c = q_sponsor rq) && bool_decide (c_status c = q_status rq) && bool_decide (c_sort c = q_sort rq).
Definition listSponsorStreams (col : column) (rows : list row) (rq : request) : answer :=
  let given := truthy (default "" (q_cursor rq)) in
  let decoded := if given then decodeCursor (default "" (q_cursor rq)) else None in
  if given && negb (match decoded with Some c => belongs rq c | None => false end) then BadCursor
  else
    let currentPage := match decoded with Some c => c_page c | None => q_page rq end in
    match count_query col rows rq, stream_query col rows rq decoded with
    | Some n, Some found =>
        let hasMore := q_limit rq <? Z.of_nat (length found) in
        let mine := take (Z.to_nat (q_limit rq)) found in
        Served (Response (item_of <$> mine) n currentPage (q_limit rq)
          (if hasMore then (λ r, encodeCursor (cursor_of rq (currentPage + 1) r)) <$> last mine else None))
    | _, _ => Failed
    end.

(** ** Following the cursors *)

(** The responses a client gets; the [k]-th request finds the [k]-th state of
    the table, and the page parameter it sends besides the cursor is any. *)
Fixpoint walk (fuel k : nat) (dbs : nat → list row) (rq : request) (pages : nat → Z) (cur : option string) : option (list response) :=
  match fuel with
  | O => None
  | S fuel =>
      match listSponsorStreams Varchar (dbs k) (Request (q_sponsor rq) (q_status rq) (q_sort rq) (pages k) (q_limit rq) cur) with
      | Served r =>
          match next_cursor r with
          | None => Some [r]
          | Some c => cons r <$> walk fuel (S k) dbs rq pages (Some c)
          end
      | _ => None
      end
  end.
End routes.

(** ** Lemmas *)

Lemma Qfloor_inject z : Qfloor (inject_Z z) = z.
Proof. unfold Qfloor, inject_Z. apply Z.div_1_r. Qed.
Lemma integer_inject z : is_integer (inject_Z z) = true.
Proof. unfold is_integer, inject_Z. simpl. by rewrite Z.mod_1_r. Qed.
Lemma sort_of_text s : sort_of (sort_text s) = Some s.
Proof. by destruct s. Qed.
Lemma NoDup_key s rows : NoDup (id <$> rows) → NoDup (key s <$> rows).
Proof.
  intros Hnd. apply (NoDup_fmap_1 snd). by rewrite <-list_fmap_compose.
Qed.

Section proofs.
Context (stringify : StreamCursor → string) (parse : string → option json)
  (toISO : Z → string) (date_parse : string → option Z) (timestamptz : string → option Z)
  (uuid_text : Z → string) (uuid : string → option Z).
Notation encodeCursor := (encodeCursor stringify).
Notation decodeCursor := (decodeCursor parse date_parse).
Notation anchor := (anchor timestamptz uuid).
Notation stream_query := (stream_query timestamptz uuid).
Notation cursor_of := (cursor_of toISO uuid_text).
Notation listSponsorStreams := (listSponsorStreams stringify parse toISO date_parse timestamptz uuid_text uuid).
Notation walk := (walk stringify parse toISO date_parse timestamptz uuid_text uuid).

(** What is documented of JSON, dates and UUIDs, for the cursors of one row. *)
Record texts_ok (rq : request) (r : row) : Prop := {
  json_ok : ∀ pg, 0 < pg → parse (stringify (cursor_of rq pg r)) =
    Some (JObject [("sponsor", JString (q_sponsor rq)); ("status", JString (q_status rq)); ("sort", JString (sort_text (q_sort rq)));
      ("page", JNumber (inject_Z pg)); ("id", JString (uuid_text (id r))); ("created_at", JString (toISO (js_time r)));
      ("end_ledger", JNumber (inject_Z (end_ledger r)))]);
  json_ascii : ∀ pg, 0 < pg → Forall is_ascii_char (chars (stringify (cursor_of rq pg r))) ∧ stringify (cursor_of rq pg r) ≠ "";
  date_ok : is_Some (date_parse (toISO (js_time r)));
  timestamptz_ok : timestamptz (toISO (js_time r)) = Some (1000 * js_time r);
  uuid_ok : uuid (uuid_text (id r)) = Some (id r) ∧ uuid_re (uuid_text (id r)) = true;
  end_ok : fits_integer (end_ledger r) = true }.

Lemma streams_decode_encode rq pg r : texts_ok rq r → 0 < pg → q_status rq ∈ STATUSES →
  decodeCursor (encodeCursor (cursor_of rq pg r)) = Some (cursor_of rq pg r) ∧ truthy (encodeCursor (cursor_of rq pg r)) = true.
Proof.
  intros [Hj Ha Hd _ [_ Hu] _] Hpg Hst. destruct (Ha pg Hpg) as [Hasc Hne].
  assert (Hb : Forall is_byte (string_bytes (stringify (cursor_of rq pg r))))
    by (unfold string_bytes; apply Forall_fmap, Forall_true; intros c; apply code_range).
  split; [|apply to_base64url_plain; [done|]].
  - unfold SponsorStreams.decodeCursor, SponsorStreams.encodeCursor. rewrite from_base64url, to_utf8_ascii, Hj by done.
    set (kvs := [_; _; _; _; _; _; _]).
    change (field "sponsor" kvs) with (JString (q_sponsor rq)). change (field "status" kvs) with (JString (q_status rq)).
    change (field "sort" kvs) with (JString (sort_text (q_sort rq))). change (field "page" kvs) with (JNumber (inject_Z pg)).
    change (field "id" kvs) with (JString (uuid_text (id r))). change (field "created_at" kvs) with (JString (toISO (js_time r))).
    change (field "end_ledger" kvs) with (JNumber (inject_Z (end_ledger r))). cbv iota beta.
    rewrite sort_of_text, !integer_inject, !Qfloor_inject. cbn [mbind option_bind id_text].
    rewrite !bool_decide_eq_true_2 by done. rewrite Hu. assert (0 <? pg = true) as -> by lia. done.
  - intros Hnil. apply Hne. unfold string_bytes in Hnil. apply fmap_nil_inv in Hnil.
    by rewrite <-(of_chars_chars (stringify (cursor_of rq pg r))), Hnil.
Qed.

(** A cursor of a request, with a limit and a page of any later one. *)
Definition follows (rq : request) (lim pg : Z) (cur : option string) : request :=
  Request (q_sponsor rq) (q_status rq) (q_sort rq) pg lim cur.

(** A cursor that was handed out is accepted for the sponsor, status filter
    and order it was made for, where it decides the page number whatever page
    the query asks for, and refused for any other. *)
Theorem cursor_bound rq pg r rq' rows col : texts_ok rq r → 0 < pg → q_status rq ∈ STATUSES →
  q_cursor rq' = Some (encodeCursor (cursor_of rq pg r)) →
  (listSponsorStreams col rows rq' = BadCursor ↔
     ¬ (q_sponsor rq' = q_sponsor rq ∧ q_status rq' = q_status rq ∧ q_sort rq' = q_sort rq)) ∧
  (∀ a, listSponsorStreams col rows rq' = Served a → page_number a = pg).
Proof.
  intros Ht Hpg Hst Hc. destruct (streams_decode_encode rq pg r Ht Hpg Hst) as [Hd Htr].
  unfold SponsorStreams.listSponsorStreams. rewrite Hc. cbn [from_option]. change (Datatypes.id ?x) with x.
  rewrite Htr, Hd. cbn [andb]. unfold belongs. cbn [c_sponsor c_status c_sort SponsorStreams.cursor_of c_page].
  destruct (bool_decide (q_sponsor rq = q_sponsor rq') && bool_decide (q_status rq = q_status rq') && bool_decide (q_sort rq = q_sort rq')) eqn:E.
  - apply andb_true_iff in E as [[E1%bool_decide_eq_true E2%bool_decide_eq_true]%andb_true_iff E3%bool_decide_eq_true]. cbn [negb].
    repeat case_match; (split; [split; [done|intros Hn; by destruct Hn]|]); intros a Ha; by simplify_eq.
  - cbn [negb]. split; [|done]. split; [|done]. intros _ (H1 & H2 & H3). rewrite H1, H2, H3 in E. by rewrite !bool_decide_eq_true_2 in E.
Qed.

Lemma anchor_ok rq pg r : texts_ok rq r → (q_sort rq = by_created_at → created_at r mod 1000 = 0) →
  anchor (cursor_of rq pg r) = Some (key (q_sort rq) r).
Proof.
  intros [_ _ _ Hts [Hu _] He] Hms. unfold SponsorStreams.anchor, key. cbn [c_sort c_created_at c_end_ledger c_id SponsorStreams.cursor_of].
  destruct (q_sort rq) eqn:E.
  - rewrite Hts. cbn [mbind option_bind]. rewrite Hu. cbn [mbind option_bind]. do 2 f_equal.
    unfold js_time. pose proof (Hms eq_refl). pose proof (Z.div_mod (created_at r) 1000). lia.
  - rewrite He. cbn [mbind option_bind]. by rewrite Hu.
Qed.

(** ** The walk *)

Section walking.
Context (rq : request) (dbs : nat → list row) (pages : nat → Z) (U : list (Z * Z)).
Notation lim := (Z.to_nat (q_limit rq)).
Notation kf := (key (q_sort rq)).
Notation P := (selected rq).
Context (Hlim : 1 <= q_limit rq) (Hst : q_status rq ∈ STATUSES) (Hnd : ∀ k, NoDup (id <$> dbs k)) (HU : NoDup U)
  (Hin : ∀ k r, r ∈ dbs k → kf r ∈ U ∧ texts_ok rq r ∧ (q_sort rq = by_created_at → created_at r mod 1000 = 0)).

(** What the client sends, and where that starts. *)
Definition starts (k : nat) (pg : Z) (cur : option string) (c : option (Z * Z)) : Prop :=
  (cur = None ∧ c = None ∧ pages k = 1 ∧ pg = 1) ∨
  ∃ r, cur = Some (encodeCursor (cursor_of rq pg r)) ∧ c = Some (kf r) ∧ 0 < pg ∧ texts_ok rq r ∧
       (q_sort rq = by_created_at → created_at r mod 1000 = 0).
Lemma selected_follows l pg cur : selected (follows rq l pg cur) = selected rq.
Proof. done. Qed.
Lemma list_page k pg cur c : starts k pg cur c →
  listSponsorStreams Varchar (dbs k) (follows rq (q_limit rq) (pages k) cur) =
    Served (Response (item_of toISO <$> page kf P (dbs k) c lim) (Z.of_nat (length (filter P (dbs k)))) pg (q_limit rq)
      (if decide (lim < length (page kf P (dbs k) c (S lim)))%nat
       then (λ r, encodeCursor (cursor_of rq (pg + 1) r)) <$> last (page kf P (dbs k) c lim) else None)).
Proof.
  intros Hs. assert (Hq : ∃ decoded, stream_query Varchar (dbs k) (follows rq (q_limit rq) (pages k) cur) decoded = Some (page kf P (dbs k) c (S lim)) ∧
    (if truthy (default "" cur) then decodeCursor (default "" cur) else None) = decoded ∧
    truthy (default "" cur) && negb (match decoded with Some c => belongs (follows rq (q_limit rq) (pages k) cur) c | None => false end) = false ∧
    match decoded with Some c => c_page c | None => pages k end = pg).
  { destruct Hs as [(-> & -> & H1 & ->)|(r & -> & -> & Hpg & Ht & Hms)].
    - exists None. split_and!; try done. unfold SponsorStreams.stream_query. cbn [q_page follows q_limit q_sort]. rewrite H1.
      change ((1 - 1) * q_limit rq) with 0. change (fits_bigint 0) with true. cbv iota. rewrite drop_0.
      replace (Z.to_nat (q_limit rq + 1)) with (S lim) by lia. unfold page, matching. do 3 f_equal.
      apply list_filter_iff. intros r. cbn [after]. rewrite selected_follows. tauto.
    - destruct (streams_decode_encode rq pg r Ht Hpg Hst) as [Hd Htr]. cbn [from_option]. change (Datatypes.id ?x) with x.
      exists (Some (cursor_of rq pg r)). rewrite Htr, Hd. split_and!; try done.
      + unfold SponsorStreams.stream_query. rewrite anchor_ok by done. cbn [mbind option_bind follows q_limit q_sort].
        by replace (Z.to_nat (q_limit rq + 1)) with (S lim) by lia.
      + unfold belongs. simpl. by rewrite !bool_decide_eq_true_2. }
  destruct Hq as (decoded & Hq & Hdec & Hb & Hp).
  unfold SponsorStreams.listSponsorStreams. cbn [q_cursor follows]. rewrite Hdec, Hb. cbv iota.
  change (count_query Varchar (dbs k) _) with (Some (Z.of_nat (length (filter P (dbs k))))).
  change (Request (q_sponsor rq) (q_status rq) (q_sort rq) (pages k) (q_limit rq) cur) with (follows rq (q_limit rq) (pages k) cur).
  rewrite Hq. cbn [q_page q_limit follows]. rewrite Hp.
  assert (Htake : take lim (page kf P (dbs k) c (S lim)) = page kf P (dbs k) c lim) by (unfold page; rewrite take_take; f_equal; lia).
  rewrite Htake. do 2 f_equal. destruct (Z.ltb_spec (q_limit rq) (Z.of_nat (length (page kf P (dbs k) c (S lim))))); case_decide; done || lia.
Qed.

(** The responses of a walk, for the pages they show. *)
Definition response_of (k : nat) (j : nat) (chunk : list row) (r : response) : Prop :=
  streams r = item_of toISO <$> chunk ∧ page_number r = Z.of_nat (S k + j) ∧ total r = Z.of_nat (length (filter P (dbs (k + j)%nat))).
Lemma walk_pages fuel : ∀ k cur c, starts k (Z.of_nat (S k)) cur c → (length (filter (after c) U) < fuel * lim)%nat →
  ∃ rs ps, walk fuel k dbs rq pages cur = Some rs ∧ pages_from kf P dbs lim k c ps ∧ length rs = length ps ∧
    ∀ j p r, ps !! j = Some p → rs !! j = Some r → response_of k j p r.
Proof.
  induction fuel as [|fuel IH]; intros k cur c Hs Hf; [lia|]. cbn [SponsorStreams.walk].
  change (Request (q_sponsor rq) (q_status rq) (q_sort rq) (pages k) (q_limit rq) cur) with (follows rq (q_limit rq) (pages k) cur).
  rewrite (list_page k _ cur c Hs). cbn [next_cursor]. case_decide as Hmore.
  - destruct (last (page kf P (dbs k) c lim)) as [x|] eqn:Hx.
    2:{ apply last_None in Hx. unfold page in Hx, Hmore. rewrite length_take in Hmore. apply (f_equal length) in Hx. rewrite length_take in Hx. simpl in Hx. lia. }
    cbn [fmap option_fmap option_map].
    assert (Hxin : x ∈ dbs k) by by apply last_Some_elem_of, elem_of_page in Hx as (? & _).
    destruct (Hin k x Hxin) as (_ & Ht & Hms).
    assert (Hprog := page_progress kf P dbs lim ltac:(lia) (λ k, NoDup_key _ _ (Hnd k)) U k c x HU (λ r Hr, proj1 (Hin k r Hr)) Hmore Hx).
    destruct (IH (S k) (Some (encodeCursor (cursor_of rq (Z.of_nat (S (S k))) x))) (Some (kf x))) as (rs & ps & Hw & Hp & Hl & Hr).
    + right. exists x. split_and!; done || lia.
    + lia.
    + replace (Z.of_nat (S k) + 1) with (Z.of_nat (S (S k))) by lia. rewrite Hw. eexists _, (page kf P (dbs k) c lim :: ps).
      split; [done|]. split; [by eapply more_pages|]. split; [simpl; by rewrite Hl|].
      intros [|j] p r Hpj Hrj; simpl in *; simplify_eq.
      * unfold response_of. rewrite !Nat.add_0_r. done.
      * destruct (Hr j p r Hpj Hrj) as (? & Hn & Htot). unfold response_of. split_and!; [done|rewrite Hn; lia|].
        by rewrite Nat.add_succ_r.
  - eexists _, [page kf P (dbs k) c lim]. split; [done|]. split; [apply last_page; lia|]. split; [done|].
    intros [|j] p r Hpj Hrj; simpl in *; simplify_eq. unfold response_of. rewrite !Nat.add_0_r. done.
Qed.
End walking.

(** Elements told apart by [f] are told apart by a finer [g]. *)
Lemma NoDup_finer {A B C} (f : A → B) (g : A → C) (l : list A) :
  (∀ x y, x ∈ l → y ∈ l → g x = g y → f x = f y) → NoDup (f <$> l) → NoDup (g <$> l).
Proof.
  intros Hfg. rewrite !NoDup_alt. intros Hf i j c. rewrite !list_lookup_fmap, !fmap_Some.
  intros (x & Hx & ->) (y & Hy & Heq). apply (Hf i j (f x)); rewrite list_lookup_fmap; [by rewrite Hx|].
  rewrite Hy. cbn. f_equal. apply Hfg; [by eapply list_elem_of_lookup_2..|done].
Qed.

Lemma key_sorted_NoDup (ks : list (Z * Z)) : StronglySorted (λ a b, key_lt b a) ks → NoDup ks.
Proof.
  induction 1 as [|a l _ IH Ha]; constructor; [|done]. intros Hin. rewrite Forall_forall in Ha. by apply Ha, key_lt_irrefl in Hin.
Qed.
Lemma elem_of_pages {A} (ps : list (list A)) x : x ∈ concat ps → ∃ j p, ps !! j = Some p ∧ x ∈ p.
Proof.
  intros (p & Hp & Hx)%list_elem_of_In%in_concat. apply list_elem_of_In, list_elem_of_lookup in Hp as [j Hj].
  exists j, p. split; [done|]. by apply list_elem_of_In.
Qed.

(** C14. Following the cursors from the first page ends, and shows the streams
    of the sponsor that match the filter, whatever happens to the table between
    the requests and whatever page the later queries ask for: the keys (the
    ordering column and the identifier) descend over all pages, so no stream is
    shown twice while its ordering column stays as it is (one whose end ledger
    is lowered between two pages may be), each stream shown matched when its
    page was read, every stream that matches throughout under one key is shown,
    and the pages are numbered one after the other with the count of the moment.
    Ordered by [end_ledger] this needs nothing of the times; ordered by
    [created_at], that they are whole milliseconds. *)
Theorem streams_walk rq dbs pages U fuel :
  1 <= q_limit rq → q_status rq ∈ STATUSES → pages 0%nat = 1 → (∀ k, NoDup (id <$> dbs k)) → NoDup U →
  (∀ k r, r ∈ dbs k → key (q_sort rq) r ∈ U ∧ texts_ok rq r ∧ (q_sort rq = by_created_at → created_at r mod 1000 = 0)) →
  (length U < fuel * Z.to_nat (q_limit rq))%nat →
  ∃ rs ps, walk fuel 0 dbs rq pages None = Some rs ∧ length rs = length ps ∧
    (∀ j p r, ps !! j = Some p → rs !! j = Some r → response_of rq dbs 0 j p r ∧ ∀ x, x ∈ p → x ∈ dbs j ∧ selected rq x) ∧
    StronglySorted (λ a b, key_lt b a) (key (q_sort rq) <$> concat ps) ∧
    ((∀ k k' x y, x ∈ dbs k → y ∈ dbs k' → id x = id y → key (q_sort rq) x = key (q_sort rq) y) → NoDup (id <$> concat ps)) ∧
    (∀ κ, (∀ j, ∃ x, x ∈ dbs j ∧ selected rq x ∧ key (q_sort rq) x = κ) → ∃ x, x ∈ concat ps ∧ key (q_sort rq) x = κ).
Proof.
  intros Hlim Hst H1 Hnd HU Hin Hf.
  destruct (walk_pages rq dbs pages U Hlim Hst Hnd HU Hin fuel 0 None None) as (rs & ps & Hw & Hp & Hl & Hr); [by left|by rewrite filter_all|].
  apply pages_from_spec in Hp as (Hs & _ & Hm & Hc); [|lia|intros k; apply NoDup_key, Hnd].
  exists rs, ps. split_and!; try done; [| |intros κ Hκ; apply Hc; [done|intros j _; apply Hκ]].
  - intros j p r Hpj Hrj. split; [by apply Hr|]. intros x Hx. by apply (Hm j p Hpj x).
  - intros Hkeys. apply (NoDup_finer (key (q_sort rq))); [|by apply key_sorted_NoDup].
    intros x y (jx & px & Hpx & Hx)%elem_of_pages (jy & py & Hpy & Hy)%elem_of_pages. apply (Hkeys jx jy); [by apply (Hm jx px)|by apply (Hm jy py)].
Qed.
End proofs.

(** With the status an enumeration, as migration 006 leaves it, no request is
    ever answered: [completed] is no value of the type. *)
Theorem enum_column_fails stringify parse toISO date_parse timestamptz uuid_text uuid rows rq r :
  listSponsorStreams stringify parse toISO date_parse timestamptz uuid_text uuid Enum rows rq ≠ Served r.
Proof. unfold listSponsorStreams. by repeat case_match. Qed.

(** ** Witnesses *)

Definition demo_stringify (c : StreamCursor) : string :=
  Z_to_string (c_page c) +:+ foldr (λ a b, "," +:+ a +:+ b) "" [c_sponsor c; c_status c; sort_text (c_sort c); id_text (c_id c); c_created_at c; Z_to_string (c_end_ledger c)].
Definition demo_number (s : string) : json := match Z_of_string s with Some z => JNumber (inject_Z z) | None => JNull end.
Definition demo_parse (s : string) : option json :=
  match split_on "," s with
  | [p; a; st; so; i; c; e] => Some (JObject [("sponsor", JString a); ("status", JString st); ("sort", JString so);
      ("page", demo_number p); ("id", JString i); ("created_at", JString c); ("end_ledger", demo_number e)])
  | _ => None
  end.
Definition demo_ts (s : string) : option Z := option_map (Z.mul 1000) (Z_of_string s).
Definition demo_uuid_text (z : Z) : string := "0000000" +:+ Z_to_string z +:+ "-0000-4000-8000-000000000000".
Definition demo_uuid (s : string) : option Z := match split_on "-" s with a :: _ => Z_of_string a | [] => None end.
Definition demo_row (i t e : Z) (st : string) : row := Row i "GR" "GS" "C" 10 0 5 e st t.
Definition demo_rows : list row := [demo_row 1 5001 100 "active"; demo_row 2 5002 300 "active"; demo_row 3 9000 200 "completed"; demo_row 4 5003 300 "expired"].
(** Between the pages the first stream shown ends and is cancelled. *)
Definition demo_dbs (k : nat) : list row :=
  match k with O => demo_rows | S _ => demo_row 2 5002 300 "cancelled" :: filter (λ r, id r ≠ 2) demo_rows end.
Definition demo_rq (st : string) (so : StreamSort) : request := Request "GS" st so 1 2 None.
Notation demo_walk fuel rq :=
  (walk demo_stringify demo_parse Z_to_string Z_of_string demo_ts demo_uuid_text demo_uuid fuel 0 demo_dbs rq (λ _, 1) None).
Definition demo_keys : list (Z * Z) := key by_end_ledger <$> demo_rows.

(** By end ledger nothing is lost; by creation time, the streams created in one
    millisecond are: the page after the second stream is empty. *)
Example demo_walks :
  option_map (map (λ r, (page_number r, total r, map i_status (streams r)))) (demo_walk 3 (demo_rq "all" by_end_ledger)) =
    Some [(1, 4, ["expired"; "active"]); (2, 4, ["expired"; "active"])] ∧
  option_map (map (λ r, (page_number r, total r, map i_end_ledger (streams r)))) (demo_walk 3 (demo_rq "all" by_created_at)) =
    Some [(1, 4, [200; 300]); (2, 4, [])].
Proof. split; vm_compute; reflexivity. Qed.

(** The text of a cursor is its page and, after a comma, the text of the rest. *)
Lemma demo_parse_page pg rest fields : 0 <= pg → split_on "," rest = fields →
  split_on "," (Z_to_string pg +:+ "," +:+ rest) = Z_to_string pg :: fields.
Proof.
  intros Hpg <-. destruct (chars_Z_to_string pg Hpg) as (Hd & _ & _). unfold split_on. rewrite !string_app_chars.
  change (chars "," ++ ?l) with (","%char :: l). rewrite split_chars_app; [by rewrite fmap_cons, of_chars_chars|].
  intros Hin. apply list_elem_of_In in Hin. rewrite forallb_forall in Hd. by specialize (Hd _ Hin).
Qed.
Lemma demo_ascii pg rest : 0 < pg → Forall is_ascii_char (chars rest) → Forall is_ascii_char (chars (Z_to_string pg +:+ rest)).
Proof.
  intros Hpg Hr. rewrite string_app_chars. apply Forall_app. split; [|done]. apply ascii_digits. by apply chars_Z_to_string; lia.
Qed.
Lemma streams_demo_texts so r : r ∈ demo_rows ++ [demo_row 2 5002 300 "cancelled"] →
  texts_ok demo_stringify demo_parse Z_to_string Z_of_string demo_ts demo_uuid_text demo_uuid (demo_rq "all" so) r.
Proof.
  intros Hr. split.
  - intros pg Hpg. unfold demo_stringify, cursor_of. cbn [c_page c_sponsor c_status c_sort c_id c_created_at c_end_ledger q_sponsor q_status q_sort demo_rq].
    unfold demo_parse. cbn [foldr].
    repeat (apply elem_of_cons in Hr as [->|Hr]); try by apply not_elem_of_nil in Hr.
    all: rewrite (demo_parse_page pg _ _ (Z.lt_le_incl _ _ Hpg) eq_refl).
    all: destruct so; cbn -[demo_number Z_to_string]; unfold demo_number at 1; rewrite Z_of_to_string; reflexivity.
  - intros pg Hpg. assert (Hne : ∀ rest, Z_to_string pg +:+ rest ≠ "").
    { intros rest H. apply (f_equal chars) in H. rewrite string_app_chars in H.
      destruct (chars_Z_to_string pg ltac:(lia)) as (_ & _ & Hn). by destruct (chars (Z_to_string pg)). }
    split; [|apply Hne]. apply demo_ascii; [done|].
    repeat (apply elem_of_cons in Hr as [->|Hr]); try by apply not_elem_of_nil in Hr.
    all: destruct so; repeat constructor.
  - repeat (apply elem_of_cons in Hr as [->|Hr]); try by apply not_elem_of_nil in Hr.
    all: eexists; reflexivity.
  - repeat (apply elem_of_cons in Hr as [->|Hr]); try by apply not_elem_of_nil in Hr.
    all: reflexivity.
  - repeat (apply elem_of_cons in Hr as [->|Hr]); try by apply not_elem_of_nil in Hr.
    all: split; reflexivity.
  - repeat (apply elem_of_cons in Hr as [->|Hr]); try by apply not_elem_of_nil in Hr.
    all: reflexivity.
Qed.

Lemma cursor_bound_witness :
  texts_ok demo_stringify demo_parse Z_to_string Z_of_string demo_ts demo_uuid_text demo_uuid (demo_rq "all" by_end_ledger) (demo_row 2 5002 300 "active") ∧
  listSponsorStreams demo_stringify demo_parse Z_to_string Z_of_string demo_ts demo_uuid_text demo_uuid Varchar demo_rows
    (Request "GS" "active" by_end_ledger 1 2
       (Some (encodeCursor demo_stringify (cursor_of Z_to_string demo_uuid_text (demo_rq "all" by_end_ledger) 2 (demo_row 2 5002 300 "active"))))) = BadCursor.
Proof.
  assert (Ht : texts_ok demo_stringify demo_parse Z_to_string Z_of_string demo_ts demo_uuid_text demo_uuid (demo_rq "all" by_end_ledger) (demo_row 2 5002 300 "active")).
  { apply streams_demo_texts. right. left. }
  split; [exact Ht|]. set (rq' := Request _ _ _ _ _ _).
  assert (Hst : q_status (demo_rq "all" by_end_ledger) ∈ STATUSES) by (apply (bool_decide_unpack _); vm_compute; exact I).
  apply (cursor_bound demo_stringify demo_parse Z_to_string Z_of_string demo_ts demo_uuid_text demo_uuid
    (demo_rq "all" by_end_ledger) 2 (demo_row 2 5002 300 "active") rq' demo_rows Varchar Ht eq_refl Hst eq_refl).
  intros (_ & H & _). discriminate H.
Defined.

Lemma demo_dbs_rows k r : r ∈ demo_dbs k → r ∈ demo_rows ++ [demo_row 2 5002 300 "cancelled"].
Proof. destruct k; simpl; [set_solver|]. rewrite elem_of_cons, list_elem_of_filter. set_solver. Qed.
Lemma demo_keys_fixed k k' x y : x ∈ demo_dbs k → y ∈ demo_dbs k' → id x = id y → key by_end_ledger x = key by_end_ledger y.
Proof.
  intros Hx%demo_dbs_rows Hy%demo_dbs_rows. revert x y Hx Hy.
  assert (Hall : Forall (λ x, Forall (λ y, id x = id y → key by_end_ledger x = key by_end_ledger y)
    (demo_rows ++ [demo_row 2 5002 300 "cancelled"])) (demo_rows ++ [demo_row 2 5002 300 "cancelled"])).
  { apply (bool_decide_unpack _). vm_compute. exact I. }
  intros x y Hx Hy. rewrite Forall_forall in Hall. specialize (Hall x Hx). rewrite Forall_forall in Hall. by apply Hall.
Qed.
Lemma streams_walk_witness :
  ∃ rs ps, demo_walk 3 (demo_rq "all" by_end_ledger) = Some rs ∧ length rs = length ps ∧
    StronglySorted (λ a b, key_lt b a) (key by_end_ledger <$> concat ps) ∧ NoDup (id <$> concat ps) ∧
    ∃ x, x ∈ concat ps ∧ key by_end_ledger x = (200, 3).
Proof.
  destruct (streams_walk demo_stringify demo_parse Z_to_string Z_of_string demo_ts demo_uuid_text demo_uuid
    (demo_rq "all" by_end_ledger) demo_dbs (λ _, 1) demo_keys 3) as (rs & ps & H1 & H2 & _ & H3 & H5 & H4).
  - done.
  - apply (bool_decide_unpack _). vm_compute. exact I.
  - done.
  - intros [|k]; apply (bool_decide_unpack _); vm_compute; exact I.
  - apply (bool_decide_unpack _). vm_compute. exact I.
  - intros k r Hr%demo_dbs_rows. split; [|split; [by apply streams_demo_texts|done]].
    repeat (apply elem_of_cons in Hr as [->|Hr]); try by apply not_elem_of_nil in Hr.
    all: apply (bool_decide_unpack _); vm_compute; exact I.
  - vm_compute. lia.
  - exists rs, ps. split_and!; try done; [apply H5, demo_keys_fixed|]. apply H4. intros j. exists (demo_row 3 9000 200 "completed"). split_and!; [|done..].
    destruct j; vm_compute; repeat constructor.
Defined.
