(* ===== verification/GraphqlLimits.v ===== *)
(** * GraphQL limits

    [backend/src/graphql-depth-limit.js]: the depth and the complexity of a
    parsed document.  Documents and schemas are those of the [graphql] package;
    of a schema only [getType], the fields of a type and the root types are
    used. *)
From stdpp Require Import list gmap.
From S2P Require Import Prelude.
#[local] Open Scope nat_scope.

Definition LIST_MULTIPLIER : nat := 10.

(** ** Documents and schemas *)

Inductive selection :=
| Field (name : string) (selectionSet : option (list selection))
| InlineFragment (selectionSet : list selection)
| FragmentSpread (name : string).
Definition selectionSet (s : selection) : option (list selection) :=
  match s with Field _ sub => sub | InlineFragment sub => Some sub | FragmentSpread _ => None end.

Inductive operation := Query | Mutation | Subscription.
Inductive definition_node :=
| OperationDefinition (op : operation) (sels : list selection)
| FragmentDefinition (name : string) (sels : list selection)
| OtherDefinition.
Definition def_selections (d : definition_node) : option (list selection) :=
  match d with OperationDefinition _ sels | FragmentDefinition _ sels => Some sels | OtherDefinition => None end.
Definition document := list definition_node.

Inductive gql_type := Named (name : string) | ListOf (ofType : gql_type) | NonNull (ofType : gql_type).
(** A type without [getFields] has no entry. *)
Record schema := Schema { types : gmap string (gmap string gql_type); roots : operation → option gql_type }.

Fixpoint unwrapTypeName (t : gql_type) : string :=
  match t with Named n => n | ListOf t' | NonNull t' => unwrapTypeName t' end.
Fixpoint isListType (t : gql_type) : bool :=
  match t with Named _ => false | ListOf _ => true | NonNull t' => isListType t' end.

(** ** Depth *)

(** The contribution of one selection to [max]. *)
Fixpoint depth_of (s : selection) : nat :=
  match s with
  | Field _ (Some sub) | InlineFragment sub => 1 + foldr (λ s m, depth_of s `max` m) 0 sub
  | Field _ None | FragmentSpread _ => 0
  end.
Definition selectionDepth (sels : list selection) : nat := foldr (λ s m, depth_of s `max` m) 0 sels.

Inductive rejection := TooDeep (depth : nat) | TooComplex (cost : nat).
Fixpoint checkDepth (doc : document) (maxDepth : nat) : option rejection :=
  match doc with
  | [] => None
  | d :: doc' =>
      match def_selections d with
      | Some sels => if decide (maxDepth < selectionDepth sels) then Some (TooDeep (selectionDepth sels)) else checkDepth doc' maxDepth
      | None => checkDepth doc' maxDepth
      end
  end.

(** ** Complexity *)

Definition field_type (sch : option schema) (parent : option gql_type) (name : string) : option gql_type :=
  sch ← sch; p ← parent; fields ← types sch !! unwrapTypeName p; fields !! name.
Definition field_cost (t : option gql_type) : nat :=
  match t with Some t => if isListType t then LIST_MULTIPLIER else 1 | None => 1 end.
Fixpoint cost_of (sch : option schema) (parent : option gql_type) (s : selection) : nat :=
  match s with
  | Field name sub =>
      let t := field_type sch parent name in
      field_cost t + match sub with Some sub => foldr (λ s n, cost_of sch t s + n) 0 sub | None => 0 end
  | InlineFragment _ | FragmentSpread _ => 0
  end.
Definition walkSelections (sch : option schema) (parent : option gql_type) (sels : list selection) : nat :=
  foldr (λ s n, cost_of sch parent s + n) 0 sels.
Definition definition_cost (sch : option schema) (d : definition_node) : nat :=
  match d with
  | OperationDefinition op sels => walkSelections sch (sch ← sch; roots sch op) sels
  | FragmentDefinition _ sels => walkSelections sch None sels
  | OtherDefinition => 0
  end.
Definition checkComplexity (doc : document) (sch : option schema) (maxComplexity : nat) : rejection + nat :=
  let totalCost := foldr (λ d n, definition_cost sch d + n) 0 doc in
  if decide (maxComplexity < totalCost) then inl (TooComplex totalCost) else inr totalCost.

(** [opts.maxDepth ?? 5], [opts.maxComplexity ?? 100]; the result is what is thrown. *)
Definition validateQuery (doc : document) (sch : option schema) (maxDepth maxComplexity : option nat) : option rejection :=
  match checkDepth doc (default 5 maxDepth) with
  | Some r => Some r
  | None => match checkComplexity doc sch (default 100 maxComplexity) with inl r => Some r | inr _ => None end
  end.

(** ** Chains of nested selections *)

(** A chain of [n] selection sets, each inside a selection of the one before;
    [follow] is what a selection leads to. *)
Section chains.
Context (follow : selection → option (list selection)).
Inductive chain : list selection → nat → Prop :=
| chain_nil sels : chain sels 0
| chain_cons s sub sels n : s ∈ sels → follow s = Some sub → chain sub n → chain sels (S n).
End chains.

Lemma selectionDepth_elem s sels : s ∈ sels → depth_of s <= selectionDepth sels.
Proof. induction 1 as [s sels|s t sels _ IH]; simpl; lia. Qed.
Lemma depth_of_set s : depth_of s = match selectionSet s with Some sub => S (selectionDepth sub) | None => 0 end.
Proof. by destruct s as [? [?|]| |]. Qed.
Lemma selectionDepth_max sels : selectionDepth sels = 0 ∨ ∃ s, s ∈ sels ∧ depth_of s = selectionDepth sels.
Proof.
  induction sels as [|s sels IH]; [by left|]. simpl. destruct (Nat.max_spec (depth_of s) (selectionDepth sels)) as [[Hlt ->]|[Hle ->]].
  - destruct IH as [H0|(t & Ht & Hd)]; [lia|]. right. exists t. split; [by right|done].
  - right. exists s. split; [left|done].
Qed.
Lemma chain_depth sels n : chain selectionSet sels n → n <= selectionDepth sels.
Proof.
  induction 1 as [sels|s sub sels n Hs Hsub _ IH]; [lia|].
  pose proof (selectionDepth_elem s sels Hs) as Hd. rewrite depth_of_set, Hsub in Hd. lia.
Qed.
Lemma depth_chain n : ∀ sels, selectionDepth sels = n → chain selectionSet sels n.
Proof.
  induction n as [|n IH]; intros sels Hn; [constructor|].
  destruct (selectionDepth_max sels) as [H0|(s & Hs & Hd)]; [lia|].
  rewrite depth_of_set in Hd. destruct (selectionSet s) as [sub|] eqn:Hsub; [|lia].
  eapply chain_cons; [done..|]. apply IH. lia.
Qed.

(** ** Fields, as an execution nests them *)

Fixpoint fragment (doc : document) (name : string) : option (list selection) :=
  match doc with
  | [] => None
  | FragmentDefinition n sels :: doc' => if decide (n = name) then Some sels else fragment doc' name
  | _ :: doc' => fragment doc' name
  end.
(** [n] fields, each in the selection set of the one before, where the fields of
    a fragment count as those of the selection set it is used in. *)
Inductive nested_fields (doc : document) : list selection → nat → Prop :=
| nested_none sels : nested_fields doc sels 0
| nested_field name sub sels n : Field name sub ∈ sels → nested_fields doc (default [] sub) n → nested_fields doc sels (S n)
| nested_inline sub sels n : InlineFragment sub ∈ sels → nested_fields doc sub n → nested_fields doc sels n
| nested_spread name sub sels n :
    FragmentSpread name ∈ sels → fragment doc name = Some sub → nested_fields doc sub n → nested_fields doc sels n.

(** A document without fragment spreads. *)
Fixpoint no_spread (s : selection) : bool :=
  match s with
  | Field _ (Some sub) | InlineFragment sub => forallb no_spread sub
  | Field _ None => true
  | FragmentSpread _ => false
  end.
Lemma nested_empty doc n : nested_fields doc [] n → n = 0.
Proof.
  remember [] as sels eqn:He. destruct 1 as [sels|name sub sels n Hin _|sub sels n Hin _|name sub sels n Hin _ _]; [done|..];
    subst; by apply not_elem_of_nil in Hin.
Qed.
Lemma nested_depth doc sels n : nested_fields doc sels n → forallb no_spread sels = true → n <= S (selectionDepth sels).
Proof.
  induction 1 as [sels|name sub sels n Hin Hsub IH|sub sels n Hin _ IH|name sub sels n Hin _ _ _]; intros Hns; [lia|..];
    rewrite forallb_forall in Hns; pose proof (Hns _ (proj1 (list_elem_of_In _ _) Hin)) as Hs;
    pose proof (selectionDepth_elem _ _ Hin) as Hd; [| |done].
  - destruct sub as [sub|]; cbn [from_option id] in IH.
    + specialize (IH Hs). rewrite depth_of_set in Hd. cbn [selectionSet] in Hd. lia.
    + apply nested_empty in Hsub. lia.
  - specialize (IH Hs). rewrite depth_of_set in Hd. cbn [selectionSet] in Hd. lia.
Qed.

(** ** Fragments that hide a query of any depth *)

Definition frag (i : nat) : string := Z_to_string (Z.of_nat i).
Definition step_frag (i : nat) : definition_node :=
  FragmentDefinition (frag i) [InlineFragment [Field "a" (Some [FragmentSpread (frag (S i))])]].
Definition deep_document (n : nat) : document :=
  OperationDefinition Query [FragmentSpread (frag 0)] :: (step_frag <$> seq 0 n) ++ [FragmentDefinition (frag n) []].
Lemma frag_inj i j : frag i = frag j → i = j.
Proof. intros H. apply (f_equal Z_of_string) in H. unfold frag in H. rewrite !Z_of_to_string in H. simplify_eq. lia. Qed.
Lemma fragment_steps k m i doc : k <= i → i < k + m →
  fragment ((step_frag <$> seq k m) ++ doc) (frag i) = def_selections (step_frag i).
Proof.
  revert k. induction m as [|m IH]; intros k Hk Hi; [lia|]. cbn [seq fmap list_fmap app step_frag fragment].
  destruct (decide (frag k = frag i)) as [->%frag_inj|Hne]; [done|]. apply IH; [|lia].
  assert (k ≠ i) by (intros ->; done). lia.
Qed.
Lemma fragment_last k m doc i : k + m <= i → fragment ((step_frag <$> seq k m) ++ doc) (frag i) = fragment doc (frag i).
Proof.
  revert k. induction m as [|m IH]; intros k Hi; [done|]. cbn [seq fmap list_fmap app step_frag fragment].
  rewrite decide_False by (intros H%frag_inj; lia). apply IH. lia.
Qed.
Lemma deep_nested n d : d <= n → nested_fields (deep_document n) [FragmentSpread (frag (n - d))] d.
Proof.
  induction d as [|d IH]; intros Hd; [constructor|].
  eapply nested_spread; [left|cbn [deep_document fragment]; by apply fragment_steps; lia|].
  eapply nested_inline; [left|]. eapply nested_field; [left|]. cbn [from_option id].
  replace (S (n - S d)) with (n - d) by lia. apply IH. lia.
Qed.
Lemma step_frags_depth n k : checkDepth ((step_frag <$> seq k n) ++ [FragmentDefinition (frag (k + n)) []]) 5 = None.
Proof.
  revert k. induction n as [|n IH]; intros k; [done|]. cbn [seq fmap list_fmap app checkDepth step_frag def_selections].
  rewrite decide_False by (cbn; lia). rewrite <-Nat.add_succ_comm. apply IH.
Qed.
Lemma step_frags_cost n k d : definition_cost None d = 0 →
  foldr (λ d c, definition_cost None d + c) 0 ((step_frag <$> seq k n) ++ [d]) = 0.
Proof.
  intros Hd. revert k. induction n as [|n IH]; intros k; [by simpl; rewrite Hd|].
  cbn [seq fmap list_fmap app foldr]. by rewrite IH.
Qed.

(** ** Theorems *)

(** The depth check accepts a document exactly when no chain of selection
    sets of a definition is longer than the limit. *)
Theorem checkDepth_exact doc maxDepth :
  checkDepth doc maxDepth = None ↔
  ∀ d sels n, d ∈ doc → def_selections d = Some sels → chain selectionSet sels n → n <= maxDepth.
Proof.
  induction doc as [|d doc IH]; [split; [|done]; intros _ d sels n Hd; by apply not_elem_of_nil in Hd|].
  cbn [checkDepth]. split.
  - intros H d' sels n [->|Hd']%elem_of_cons Hs Hc.
    + rewrite Hs in H. case_decide; [done|]. apply chain_depth in Hc. lia.
    + assert (Hrest : checkDepth doc maxDepth = None) by (destruct (def_selections d); [by case_decide|done]).
      by apply (proj1 IH Hrest d' sels n).
  - intros H. assert (Hrest : checkDepth doc maxDepth = None).
    { apply IH. intros d' sels n Hd'. apply H. by right. }
    destruct (def_selections d) as [sels|] eqn:Hs; [|done]. rewrite decide_False; [done|].
    intros Hlt. specialize (H d sels (selectionDepth sels)). apply Nat.lt_nge in Hlt. apply Hlt, H; [left|done|by apply depth_chain].
Qed.

(** For a definition without fragment spreads the limit bounds what an
    execution does: the fields it nests are at most one more than the depth. *)
Theorem accepted_depth_bounds doc maxDepth d sels n : checkDepth doc maxDepth = None →
  d ∈ doc → def_selections d = Some sels → forallb no_spread sels = true → nested_fields doc sels n → n <= S maxDepth.
Proof.
  intros Hc Hd Hs Hns Hn. pose proof (nested_depth _ _ _ Hn Hns).
  pose proof (proj1 (checkDepth_exact doc maxDepth) Hc d sels _ Hd Hs (depth_chain _ sels eq_refl)). lia.
Qed.

(** Spreads are not followed, and fields in inline fragments cost nothing:
    under the default limits a query can nest any number of fields. *)
Theorem limits_bypassed n : validateQuery (deep_document n) None None None = None ∧
  ∃ sels, OperationDefinition Query sels ∈ deep_document n ∧ nested_fields (deep_document n) sels n.
Proof.
  split.
  - unfold validateQuery. unfold deep_document at 1. cbn [checkDepth def_selections from_option id].
    rewrite decide_False by (cbn; lia). pose proof (step_frags_depth n 0) as Hd. cbn [Nat.add] in Hd. rewrite Hd.
    unfold checkComplexity, deep_document. cbn [foldr]. rewrite step_frags_cost by done. done.
  - exists [FragmentSpread (frag 0)]. split; [left|]. pose proof (deep_nested n n (Nat.le_refl n)) as H.
    by rewrite Nat.sub_diag in H.
Qed.

(** ** Witnesses *)

Definition demo_query : document :=
  [OperationDefinition Query [Field "schedule" (Some [Field "rate" None; InlineFragment [Field "token" None]])]].
Lemma accepted_depth_bounds_witness : nested_fields demo_query [Field "schedule" (Some [Field "rate" None])] 2 ∧ 2 <= 3.
Proof.
  assert (Hn : nested_fields demo_query [Field "schedule" (Some [Field "rate" None; InlineFragment [Field "token" None]])] 2).
  { eapply nested_field; [left|]. eapply nested_inline; [right; left|]. eapply nested_field; [left|constructor]. }
  split.
  - eapply nested_field; [left|]. eapply nested_field; [left|constructor].
  - refine (accepted_depth_bounds demo_query 2 (OperationDefinition Query
      [Field "schedule" (Some [Field "rate" None; InlineFragment [Field "token" None]])]) _ 2 _ _ eq_refl _ Hn).
    + reflexivity.
    + left.
    + reflexivity.
Defined.
