(* ===== verification/StreamEvents.v ===== *)
(** * Transaction history

    [frontend/src/hooks/useStreamEvents.ts]: the parameters in the URL, the
    normalisation of the endpoint's payload, the sample rows, and the hook, whose
    effects are numbered: an answer belongs to the effect that asked for it. *)
From Stdlib Require Import QArith Qround.
From stdpp Require Import list.
From S2P Require Import Prelude Digits Validation Schedules UrlText.
#[local] Open Scope Z_scope.

Definition EVENTS_PAGE_SIZE : Z := 20.

Inductive HistoryEventType := created | claimed | cancelled | clawed_back.
#[global] Instance HistoryEventType_eq_dec : EqDecision HistoryEventType.
Proof. solve_decision. Defined.
Inductive EventStatus := confirmed | pending | failed.
Definition HISTORY_FILTERS : list string := ["all"; "created"; "claimed"; "cancelled"; "clawed_back"].
(** What every object inherits, and the [in] operator and a lookup therefore find. *)
Definition Object_prototype : list string :=
  ["constructor"; "__defineGetter__"; "__defineSetter__"; "hasOwnProperty"; "__lookupGetter__"; "__lookupSetter__";
   "isPrototypeOf"; "propertyIsEnumerable"; "toString"; "valueOf"; "__proto__"; "toLocaleString"].

(** A type is one of the four, or what a lookup inherited. *)
Inductive event_type := Known (t : HistoryEventType) | Inherited (name : string).
Record HistoryEvent := Event {
  id : string; ty : event_type; timestamp : string; amount : Q; token : string; status : EventStatus; txHash : string }.
Record HistoryParams := Params { filter_ : string; page : Z }.

Definition TYPE_ALIASES : list (string * HistoryEventType) :=
  [("created", created); ("create", created); ("vc_create", created); ("streamcreated", created);
   ("claimed", claimed); ("claim", claimed); ("vc_claim", claimed); ("tokensclaimed", claimed);
   ("cancelled", cancelled); ("cancel", cancelled); ("vc_cancel", cancelled); ("streamcancelled", cancelled);
   ("clawed_back", clawed_back); ("clawback", clawed_back); ("vc_clawback", clawed_back); ("streamclawedback", clawed_back)].

(** ** URL parameters *)

Section history.
(** [Number] of a text and of a value, [None] for what is not finite; the text
    of a number; [encodeURIComponent]. *)
Context (Number : string → option Q) (to_number : json → option Q) (number_text : Q → string)
  (encodeURIComponent : string → string).

Definition parseHistoryParams (sp : search) : HistoryParams :=
  let rawType := default "" (sp_get "type" sp) in
  let filter := if decide (rawType ∈ HISTORY_FILTERS ∨ rawType ∈ Object_prototype) then rawType else "all" in
  let page := match Number (default "1" (sp_get "page" sp)) with
              | Some q => if Qle_bool 1 q then Qfloor q else 1
              | None => 1
              end in
  Params filter page.
Definition historyParamsToSearch (p : HistoryParams) : search :=
  (if decide (filter_ p ≠ "all") then [("type", filter_ p)] else []) ++
  (if 1 <? page p then [("page", number_text (inject_Z (page p)))] else []).
Definition buildEventsQuery (p : HistoryParams) : string :=
  "page=" +:+ number_text (inject_Z (page p)) +:+ "&limit=" +:+ Z_to_string EVENTS_PAGE_SIZE +:+
  (if decide (filter_ p ≠ "all") then "&type=" +:+ filter_ p else "").
Definition eventsUrl (recipient : string) (p : HistoryParams) : string :=
  "/api/v1/streams/" +:+ encodeURIComponent recipient +:+ "/events?" +:+ buildEventsQuery p.
Definition totalPages (total limit : Z) : Z := if total <=? 0 then 1 else (total + limit - 1) / limit.

(** ** The payload *)

(** [/[\s-]+/g] becomes an underscore. *)
Definition is_sep (u : bool * list ascii) : bool := u.1 || bool_decide (u.2 = ["-"%char]).
Fixpoint underscore (inside : bool) (us : list (bool * list ascii)) : list ascii :=
  match us with
  | [] => []
  | u :: us' => if is_sep u then (if inside then [] else ["_"%char]) ++ underscore true us' else u.2 ++ underscore false us'
  end.
Definition lookup_alias (k : string) : option event_type :=
  match list_find (λ kv : string * HistoryEventType, kv.1 = k) TYPE_ALIASES with
  | Some (_, (_, t)) => Some (Known t)
  | None => if decide (k ∈ Object_prototype) then Some (Inherited k) else None
  end.
Definition normalizeEventType (raw : json) : option event_type :=
  match raw with
  | JString s => lookup_alias (of_chars (underscore false (units (chars (to_lower (trim s))))))
  | _ => None
  end.
Definition normalizeStatus (raw : json) : EventStatus :=
  match raw with
  | JString s =>
      let value := to_lower (trim s) in
      if decide (value = "pending" ∨ value = "submitted") then pending
      else if decide (value = "failed" ∨ value = "error") then failed else confirmed
  | _ => confirmed
  end.

(** [a.k1 ?? a.k2 ?? ... ?? d] *)
Fixpoint coalesce (ks : list string) (kvs : list (string * json)) (d : json) : json :=
  match ks with
  | [] => d
  | k :: ks' => match field k kvs with JUndefined | JNull => coalesce ks' kvs d | v => v end
  end.
Definition fields_of (v : json) : list (string * json) := match v with JObject kvs => kvs | _ => [] end.
Definition to_string (v : json) : string := js_string number_text v.

Definition normalize_row (index : nat) (row : json) : option HistoryEvent :=
  let raw := fields_of row in
  let txHash := to_string (coalesce ["txHash"; "tx_hash"; "hash"] raw (JString "")) in
  match normalizeEventType (coalesce ["type"; "event_type"; "eventType"] raw JUndefined) with
  | None => None
  | Some ty =>
      if truthy txHash then
        Some (Event
          (to_string (coalesce ["id"; "event_id"] raw (JString (txHash +:+ ":" +:+ Z_to_string (Z.of_nat index)))))
          ty
          (to_string (coalesce ["timestamp"; "created_at"; "createdAt"; "date"] raw (JString "")))
          (default 0%Q (to_number (coalesce ["amount"; "value"] raw (JNumber 0))))
          (match field "token" raw with JString t => if truthy t then t else "—" | _ => "—" end)
          (normalizeStatus (field "status" raw))
          txHash)
      else None
  end.
Record NormalizedPage := mkPage { events : list HistoryEvent; total : Q }.
Definition normalizeEvents (payload : json) : NormalizedPage :=
  let body := fields_of payload in
  match coalesce ["events"; "items"; "data"] body (JArray []) with
  | JArray rows =>
      let evs := omap (λ x, x) (imap normalize_row rows) in
      let n := inject_Z (Z.of_nat (length evs)) in
      mkPage evs (match to_number (coalesce ["total"; "count"] body (JNumber n)) with
                  | Some t => if Qle_bool n t then t else n
                  | None => n
                  end)
  | _ => mkPage [] 0
  end.

(** ** Sample rows *)

Definition SAMPLE_TYPES : list HistoryEventType := [created; claimed; claimed; cancelled; clawed_back].
Definition sample_type (i : Z) : HistoryEventType := default created (SAMPLE_TYPES !! Z.to_nat (i mod 5)).
Definition two_digits (n : Z) : string := if n <? 10 then "0" +:+ Z_to_string n else Z_to_string n.
Definition sample_hash (i : Z) : string :=
  two_digits (i + 1) +:+ of_chars (take 62 (chars ("abcdef0123456789" +:+ "abcdef0123456789" +:+ "abcdef0123456789" +:+ "abcdef0123456789"))).
Definition sample_event (toISO : Z → string) (i : Z) : HistoryEvent :=
  Event ("sample-" +:+ Z_to_string (i + 1)) (Known (sample_type i)) (toISO (1767225600000 - i * 6 * 3600000))
    (if decide (sample_type i = claimed) then inject_Z ((i + 1) * 150) else 0%Q) "USDC"
    (if i mod 11 =? 0 then pending else confirmed) (sample_hash i).
Definition SAMPLE_EVENTS (toISO : Z → string) : list HistoryEvent := sample_event toISO ∘ Z.of_nat <$> seq 0 47.

Definition type_name (t : event_type) : string :=
  match t with Known created => "created" | Known claimed => "claimed" | Known cancelled => "cancelled"
             | Known clawed_back => "clawed_back" | Inherited n => n end.
Definition filtered (toISO : Z → string) (f : string) : list HistoryEvent :=
  if decide (f = "all") then SAMPLE_EVENTS toISO else filter (λ e, type_name (ty e) = f) (SAMPLE_EVENTS toISO).
Definition samplePage (toISO : Z → string) (f : string) (page : Z) : NormalizedPage :=
  let fs := filtered toISO f in
  let start := Z.to_nat ((page - 1) * EVENTS_PAGE_SIZE) in
  mkPage (take (Z.to_nat EVENTS_PAGE_SIZE) (drop start fs)) (inject_Z (Z.of_nat (length fs))).
End history.

(** ** The hook *)

(** How a request ends; [Thrown] holds the message of an [Error]. *)
Inductive outcome := Answered (payload : json) | Missing | BadStatus (code : Z) | Thrown (message : option string).
(** An effect: what it asked for, if anything; whether its cleanup ran; how its
    request ended. *)
Record effect := Effect { request : option (string * HistoryParams); stopped : bool; ended : option outcome }.
Record view := View { v_events : list HistoryEvent; v_total : Q; v_error : option string }.
Record hook := Hook {
  recipient : option string;
  params : HistoryParams;
  shown : view;
  loading : bool;
  effects : list effect }.

Section hook.
Context (to_number : json → option Q) (number_text : Q → string) (toISO : Z → string).

Definition page_view (p : NormalizedPage) : view := View (events p) (total p) None.
Definition outcome_view (p : HistoryParams) (o : outcome) : view :=
  match o with
  | Answered payload => page_view (normalizeEvents to_number number_text payload)
  | Missing => page_view (samplePage toISO (filter_ p) (page p))
  | BadStatus code => View [] 0 (Some ("Request failed with status " +:+ Z_to_string code))
  | Thrown message => View [] 0 (Some (default "Failed to load transaction history" message))
  end.

(** The effect with its dependencies, after the cleanup of the one before. *)
Definition stop (e : effect) : effect := Effect (request e) true (ended e).
Definition run_effect (h : hook) : hook :=
  let before := stop <$> effects h in
  match recipient h with
  | Some r =>
      if truthy r then
        Hook (Some r) (params h) (View (v_events (shown h)) (v_total (shown h)) None) true
          (before ++ [Effect (Some (r, params h)) false None])
      else Hook (Some r) (params h) (View [] 0 None) false (before ++ [Effect None false None])
  | None => Hook None (params h) (View [] 0 None) false (before ++ [Effect None false None])
  end.
Definition init (r : option string) (p : HistoryParams) : hook := run_effect (Hook r p (View [] 0 None) true []).

Inductive hook_event := Change (r : option string) (p : HistoryParams) | Refresh | Respond (k : nat) (o : outcome).
Definition step (e : hook_event) (h : hook) : hook :=
  match e with
  | Change r p =>
      if decide (r = recipient h ∧ filter_ p = filter_ (params h) ∧ page p = page (params h)) then h
      else run_effect (Hook r p (shown h) (loading h) (effects h))
  | Refresh => run_effect h
  | Respond k o =>
      match effects h !! k with
      | Some (Effect (Some (r, p)) stopped None) =>
          let es := <[k := Effect (Some (r, p)) stopped (Some o)]> (effects h) in
          if stopped then Hook (recipient h) (params h) (shown h) (loading h) es
          else Hook (recipient h) (params h) (outcome_view p o) false es
      | _ => h
      end
  end.
Definition run (h : hook) (es : list hook_event) : hook := foldl (λ h e, step e h) h es.
End hook.

(** ** Lemmas *)

Definition asked (h : hook) : option (string * HistoryParams) :=
  match recipient h with Some r => if truthy r then Some (r, params h) else None | None => None end.
Record hook_ok (to_number : json → option Q) (number_text : Q → string) (toISO : Z → string) (h : hook) (e : effect) : Prop := {
  ok_last : last (effects h) = Some e;
  ok_stopped : ∀ k e', effects h !! k = Some e' → S k ≠ length (effects h) → stopped e' = true;
  ok_running : stopped e = false;
  ok_request : request e = asked h;
  ok_shown : match request e, ended e with
             | None, _ => loading h = false ∧ shown h = View [] 0 None
             | Some _, None => loading h = true
             | Some (_, p), Some o => loading h = false ∧ shown h = outcome_view to_number number_text toISO p o
             end }.

Lemma run_effect_ok tn nt iso h : ∃ e, hook_ok tn nt iso (run_effect h) e ∧ recipient (run_effect h) = recipient h ∧
  params (run_effect h) = params h.
Proof.
  assert (Hst : ∀ e k e', ((stop <$> effects h) ++ [e]) !! k = Some e' → S k ≠ length ((stop <$> effects h) ++ [e]) → stopped e' = true).
  { intros e k e' Hk Hlen. rewrite length_app, length_fmap in Hlen. simpl in Hlen. apply lookup_app_Some in Hk as [Hk|[Hge Hk]].
    - rewrite list_lookup_fmap in Hk. destruct (effects h !! k); [|done]. by injection Hk as <-.
    - rewrite length_fmap in *. apply list_lookup_singleton_Some in Hk as [Hk _]. lia. }
  unfold run_effect. destruct (recipient h) as [r|] eqn:Hr; [destruct (truthy r) eqn:Ht|].
  - eexists. split; [|by rewrite ?Hr]. split; [by apply last_snoc|apply Hst|done|unfold asked; simpl; by rewrite Ht|done].
  - eexists. split; [|by rewrite ?Hr]. split; [by apply last_snoc|apply Hst|done|unfold asked; simpl; by rewrite Ht|done].
  - eexists. split; [|by rewrite ?Hr]. split; [by apply last_snoc|apply Hst|done..].
Qed.
Lemma step_hook_ok tn nt iso e h ef : hook_ok tn nt iso h ef → ∃ ef', hook_ok tn nt iso (step tn nt iso e h) ef'.
Proof.
  intros Hok. destruct e as [r p| |k o]; simpl.
  - case_decide; [by exists ef|]. destruct (run_effect_ok tn nt iso (Hook r p (shown h) (loading h) (effects h))) as (e & He & _).
    by exists e.
  - destruct (run_effect_ok tn nt iso h) as (e & He & _). by exists e.
  - destruct (effects h !! k) as [[[[r p]|] st [o'|]]|] eqn:Hk; try by exists ef.
    destruct Hok as [Hl Hst Hrun Hreq Hsh]. rewrite last_lookup in Hl.
    assert (Hlt : (k < length (effects h))%nat) by (by eapply lookup_lt_Some).
    assert (Hothers : ∀ x j e', <[k := x]> (effects h) !! j = Some e' → j ≠ k → effects h !! j = Some e').
    { intros x j e' Hj Hne. by rewrite list_lookup_insert_ne in Hj. }
    destruct (decide (k = pred (length (effects h)))) as [->|Hne].
    + rewrite Hl in Hk. injection Hk as ->. simpl in Hrun. subst st.
      exists (Effect (Some (r, p)) false (Some o)). simpl in *. split; simpl.
      * rewrite last_lookup, length_insert. by apply list_lookup_insert_eq.
      * intros j e' Hj Hlen. rewrite length_insert in Hlen. apply (Hst j); [|done]. eapply Hothers; [done|lia].
      * done.
      * by unfold asked in *.
      * done.
    + assert (st = true) as -> by (by apply (Hst k _ Hk); lia). exists ef. split; simpl.
      * rewrite last_lookup, length_insert. by rewrite list_lookup_insert_ne.
      * intros j e' Hj Hlen. rewrite length_insert in Hlen. destruct (decide (j = k)) as [->|Hjk].
        { rewrite list_lookup_insert_eq in Hj by done. by simplify_eq. }
        apply (Hst j); [|done]. by eapply Hothers.
      * done.
      * by unfold asked in *.
      * done.
Qed.
Lemma run_hook_ok tn nt iso r p es : ∃ ef, hook_ok tn nt iso (run tn nt iso (init r p) es) ef.
Proof.
  unfold run. induction es as [|e es IH] using rev_ind.
  - destruct (run_effect_ok tn nt iso (Hook r p (View [] 0 None) true [])) as (ef & Hef & _). by exists ef.
  - rewrite foldl_app. destruct IH as [ef Hef]. simpl. by eapply step_hook_ok.
Qed.

Lemma sample_pages {A} (l : list A) k n : (0 < k)%nat → (length l ≤ n * k)%nat →
  concat ((λ i, take k (drop (i * k) l)) <$> seq 0 n) = l.
Proof.
  intros Hk. revert l. induction n as [|n IH]; intros l Hl; [destruct l; [done|simpl in Hl; lia]|].
  cbn [seq fmap list_fmap concat]. rewrite Nat.mul_0_l, drop_0. rewrite <-(take_drop k l) at 2. f_equal.
  rewrite <-(IH (drop k l)) by (rewrite length_drop; lia). rewrite <-fmap_S_seq, <-list_fmap_compose. f_equal.
  apply list_fmap_ext. intros _ i _. simpl. by rewrite drop_drop.
Qed.

(** ** Theorems *)

(** Whatever the order in which requests are answered: once nothing is
    loading, what is shown is the answer to the latest request, made for the
    recipient, filter and page of now; answers to earlier ones are ignored. *)
Theorem latest_request_shown to_number number_text toISO r p es :
  let h := run to_number number_text toISO (init r p) es in
  loading h = false →
  match asked h with
  | None => shown h = View [] 0 None
  | Some (r', p') => ∃ o, last (effects h) = Some (Effect (Some (r', p')) false (Some o)) ∧
                       shown h = outcome_view to_number number_text toISO p' o
  end.
Proof.
  intros h Hload. destruct (run_hook_ok to_number number_text toISO r p es) as [ef [Hl _ Hrun Hreq Hsh]].
  fold h in Hl, Hreq, Hsh. rewrite <-Hreq. destruct ef as [[[r' p']|] st o]; simpl in *; [|by destruct Hsh].
  subst st. destruct o as [o|]; [|congruence]. destruct Hsh as [_ Hsh]. by exists o.
Qed.

(** The URL holds the state: filter and page are read back from the
    parameters they are written to. *)
Theorem history_params_roundtrip Number number_text p : filter_ p ∈ HISTORY_FILTERS → 1 <= page p →
  Number (number_text (inject_Z (page p))) = Some (inject_Z (page p)) → Number "1" = Some 1%Q →
  parseHistoryParams Number (historyParamsToSearch number_text p) = p.
Proof.
  intros Hf Hp Hn H1. destruct p as [f n]. cbn [filter_ page] in *. unfold parseHistoryParams.
  assert (Hq : Qle_bool 1 (inject_Z n) = true) by (unfold Qle_bool; simpl; lia).
  assert (Htype : sp_get "type" (historyParamsToSearch number_text (Params f n)) = if decide (f ≠ "all") then Some f else None).
  { unfold historyParamsToSearch. cbn [filter_ page]. case_decide; [done|]. by destruct (1 <? n). }
  assert (Hpage : sp_get "page" (historyParamsToSearch number_text (Params f n)) =
    if 1 <? n then Some (number_text (inject_Z n)) else None).
  { unfold historyParamsToSearch. cbn [filter_ page]. case_decide; by destruct (1 <? n). }
  rewrite Htype, Hpage. f_equal.
  - destruct (decide (f ≠ "all")) as [Hne|Heq]; cbn [from_option Datatypes.id]; [by rewrite decide_True by (by left)|].
    rewrite decide_False by (by apply (bool_decide_unpack _); vm_compute). by apply dec_stable in Heq.
  - destruct (Z.ltb_spec 1 n); cbn [from_option Datatypes.id]; [by rewrite Hn, Hq, Qfloor_Z|].
    rewrite H1. change (1 = n). lia.
Qed.

(** A row the endpoint documents is kept as it is. *)
Theorem endpoint_row_kept to_number number_text index i t time a tok st h : truthy tok = true → truthy h = true →
  to_number (JNumber a) = Some a →
  normalize_row to_number number_text index
    (JObject [("id", JString i); ("type", JString (type_name (Known t))); ("timestamp", JString time); ("amount", JNumber a);
              ("token", JString tok); ("status", JString st); ("txHash", JString h)]) =
  Some (Event i (Known t) time a tok (normalizeStatus (JString st)) h).
Proof.
  intros Htok Hh Ha. unfold normalize_row. cbn [fields_of]. unfold coalesce.
  repeat match goal with |- context [field ?k ?l] => let v := eval cbv in (bool_decide (k = k)) in
    first [change (field k l) with (JString i) | change (field k l) with (JString (type_name (Known t)))
      | change (field k l) with (JString time) | change (field k l) with (JNumber a) | change (field k l) with (JString tok)
      | change (field k l) with (JString st) | change (field k l) with (JString h) | change (field k l) with JUndefined] end.
  cbv iota beta. assert (normalizeEventType (JString (type_name (Known t))) = Some (Known t)) as -> by (by destruct t).
  unfold to_string. cbn [js_string]. by rewrite Hh, Ha, Htok.
Qed.

(** What is shown of a payload: every event has a hash, none is made up, and
    the total is never less than the events. *)
Theorem normalizeEvents_bounds to_number number_text payload :
  let r := normalizeEvents to_number number_text payload in
  Forall (λ e, truthy (txHash e) = true) (events r) ∧
  (inject_Z (Z.of_nat (length (events r))) <= total r)%Q ∧
  (∀ rows, coalesce ["events"; "items"; "data"] (fields_of payload) (JArray []) = JArray rows →
     (length (events r) ≤ length rows)%nat).
Proof.
  assert (Hrow : ∀ i row e, normalize_row to_number number_text i row = Some e → truthy (txHash e) = true).
  { intros i row e. unfold normalize_row. destruct (normalizeEventType _); [|done].
    destruct (truthy _) eqn:Ht; [|done]. by intros [= <-]. }
  assert (Hlen : ∀ (l : list (option HistoryEvent)), (length (omap (λ x, x) l) ≤ length l)%nat).
  { induction l as [|[x|] l IH]; cbn [omap list_omap length] in *; lia. }
  unfold normalizeEvents. destruct (coalesce ["events"; "items"; "data"] _ _) as [| | | | |rows|] eqn:Hrows; simpl;
    try (split; [constructor|split; [done|by intros ? [=]]]).
  split_and!.
  - apply Forall_forall. intros e He%list_elem_of_omap. destruct He as (o & Ho & ->).
    apply list_elem_of_lookup in Ho as [i Hi]. rewrite list_lookup_imap in Hi.
    destruct (rows !! i) as [row|]; [|done]. injection Hi as Hi. by apply (Hrow i row).
  - destruct (to_number _) as [q|]; [|apply Qle_refl]. destruct (Qle_bool _ q) eqn:Hq; [|apply Qle_refl].
    by apply Qle_bool_iff in Hq.
  - intros rows' [= <-]. etransitivity; [apply Hlen|]. by rewrite length_imap.
Qed.

(** The pages of the sample rows are all of them, in order, without
    repetition, and no page has more than twenty. *)
Theorem sample_pages_enumerate toISO f :
  let n := totalPages (Z.of_nat (length (filtered toISO f))) EVENTS_PAGE_SIZE in
  concat ((λ i, events (samplePage toISO f (Z.of_nat i + 1))) <$> seq 0 (Z.to_nat n)) = filtered toISO f ∧
  ∀ page, (length (events (samplePage toISO f page)) ≤ 20)%nat.
Proof.
  split.
  - transitivity (concat ((λ i, take 20 (drop (i * 20) (filtered toISO f))) <$>
      seq 0 (Z.to_nat (totalPages (Z.of_nat (length (filtered toISO f))) EVENTS_PAGE_SIZE)))).
    { f_equal. apply list_fmap_ext. intros _ i _. unfold samplePage. cbn [events]. unfold EVENTS_PAGE_SIZE.
      change (Z.to_nat 20) with 20%nat. do 2 f_equal. lia. }
    apply sample_pages; [lia|]. unfold totalPages, EVENTS_PAGE_SIZE.
    destruct (Z.leb_spec (Z.of_nat (length (filtered toISO f))) 0); [lia|].
    pose proof (Z.div_mod (Z.of_nat (length (filtered toISO f)) + 20 - 1) 20).
    pose proof (Z.mod_pos_bound (Z.of_nat (length (filtered toISO f)) + 20 - 1) 20). lia.
  - intros page. unfold samplePage. cbn [events]. rewrite length_take. unfold EVENTS_PAGE_SIZE. lia.
Qed.

(** Lookups find what every object inherits: an event of type constructor is
    not dropped, and the filter toString in a URL is taken for one. *)
Theorem inherited_names_accepted Number number_text to_number :
  normalizeEventType (JString "constructor") = Some (Inherited "constructor") ∧
  filter_ (parseHistoryParams Number [("type", "toString")]) = "toString" ∧
  length (events (normalizeEvents to_number number_text
    (JObject [("events", JArray [JObject [("type", JString "constructor"); ("hash", JString "ab")]])]))) = 1%nat.
Proof. split_and!; reflexivity. Qed.

(** ** Witnesses *)

Definition text_number (s : string) : option Q := inject_Z <$> Z_of_string s.
Definition number_value (v : json) : option Q := match v with JNumber q => Some q | _ => None end.
Definition int_text (q : Q) : string := Z_to_string (Qfloor q).
Lemma latest_request_shown_witness :
  let h := run number_value int_text Z_to_string (init (Some "GA") (Params "all" 1))
             [Change (Some "GA") (Params "all" 2); Respond 1 (BadStatus 500); Respond 0 Missing] in
  v_error (shown h) = Some "Request failed with status 500" ∧ ∃ o, shown h = outcome_view number_value int_text Z_to_string (Params "all" 2) o.
Proof.
  split; [reflexivity|].
  destruct (latest_request_shown number_value int_text Z_to_string (Some "GA") (Params "all" 1)
    [Change (Some "GA") (Params "all" 2); Respond 1 (BadStatus 500); Respond 0 Missing] eq_refl) as (o & _ & Ho). by exists o.
Defined.
Lemma history_params_roundtrip_witness :
  parseHistoryParams text_number (historyParamsToSearch int_text (Params "claimed" 3)) = Params "claimed" 3.
Proof. apply history_params_roundtrip; [by apply (bool_decide_unpack _); vm_compute|done|reflexivity|reflexivity]. Defined.
Lemma endpoint_row_kept_witness :
  normalize_row number_value int_text 0
    (JObject [("id", JString "7"); ("type", JString "claimed"); ("timestamp", JString "t"); ("amount", JNumber 5);
              ("token", JString "USDC"); ("status", JString "submitted"); ("txHash", JString "ab")]) =
  Some (Event "7" (Known claimed) "t" 5 "USDC" pending "ab").
Proof. apply (endpoint_row_kept number_value int_text 0 "7" claimed "t" 5 "USDC" "submitted" "ab"); reflexivity. Defined.
