(* ===== verification/TokenPrice.v ===== *)
(** * Token prices

    [frontend/src/hooks/useTokenPrice.ts]: the cache that all components of the
    page share, the fetch with its [await], and the hook with its interval.  A
    step is what happens between two [await]s. *)
From Stdlib Require Import QArith.
From stdpp Require Import list gmap.
From S2P Require Import Prelude.
#[local] Open Scope Z_scope.

Definition TOKEN_IDS : list (string * string) := [("XLM", "stellar"); ("USDC", "usd-coin"); ("USDT", "tether")].
Definition STALE_MS : Z := 60000.
Definition STALE_INDICATOR_MS : Z := 5 * 60000.

(** [TOKEN_IDS[symbol]] *)
Definition coin_of (symbol : string) : option string :=
  (λ x : nat * (string * string), x.2.2) <$> list_find (λ e : string * string, e.1 = symbol) TOKEN_IDS.
Definition upper_char (c : ascii) : ascii := if in_range 97 122 c then chr (code c - 32) else c.
Definition to_upper (s : string) : string := of_chars (upper_char <$> chars s).
Definition hasPriceFeed (symbol : string) : bool := bool_decide (is_Some (coin_of (to_upper symbol))).

Record CacheEntry := Entry { e_price : Q; e_fetchedAt : Z }.
Notation cache := (gmap string CacheEntry).
Definition getCached (now : Z) (coinId : string) (c : cache) : option CacheEntry :=
  e ← c !! coinId; if decide (now - e_fetchedAt e > STALE_MS) then None else Some e.

Record TokenPriceState := State {
  price : option Q;
  fetchedAt : option Z;
  loading : bool;
  stale : bool;
  error : option string }.

(** How [fetchPrice] ends: a price or none, or the message of an exception. *)
Definition answer := result string (option Q).

(** A mounted component: its coin and state.  A request in flight: the component
    that made it and the coin it asked for.  [next] numbers both. *)
Record component := Component { coin : option string; state : TokenPriceState }.
Record page := Page {
  now : Z;
  prices : cache;
  components : gmap nat component;
  requests : gmap nat (nat * string);
  next : nat }.

Definition set_state (i : nat) (f : TokenPriceState → TokenPriceState) (p : page) : page :=
  Page (now p) (prices p) (alter (λ c, Component (coin c) (f (state c))) i (components p)) (requests p) (next p).
Definition no_coin : TokenPriceState := State None None false false None.

(** [doFetch] up to its [await]. *)
Definition doFetch (i : nat) (coinId : string) (p : page) : page :=
  match getCached (now p) coinId (prices p) with
  | Some e =>
      set_state i (λ _, State (Some (e_price e)) (Some (e_fetchedAt e)) false
        (bool_decide (now p - e_fetchedAt e > STALE_INDICATOR_MS)) None) p
  | None =>
      let p := set_state i (λ s, State (price s) (fetchedAt s) true (stale s) None) p in
      Page (now p) (prices p) (components p) (<[next p := (i, coinId)]> (requests p)) (S (next p))
  end.
(** After the [await]. *)
Definition doFetch_end (i : nat) (coinId : string) (r : answer) (p : page) : page :=
  match r with
  | Ok (Some q) =>
      set_state i (λ _, State (Some q) (Some (now p)) false false None)
        (Page (now p) (<[coinId := Entry q (now p)]> (prices p)) (components p) (requests p) (next p))
  | Ok None => set_state i (λ s, State None (fetchedAt s) false (stale s) None) p
  | Err msg => set_state i (λ s, State (price s) (fetchedAt s) false (stale s) (Some msg)) p
  end.

(** The effect of a new coin. *)
Definition effect (i : nat) (c : option string) (p : page) : page :=
  match c with None => set_state i (λ _, no_coin) p | Some coinId => doFetch i coinId p end.
(** The initial state. *)
Definition initial (now : Z) (c : option string) (ps : cache) : TokenPriceState :=
  match c with
  | None => no_coin
  | Some coinId =>
      let cached := getCached now coinId ps in
      State (e_price <$> cached) (e_fetchedAt <$> cached) (bool_decide (cached = None)) false None
  end.

Inductive event :=
| Pass (d : Z)
| Mount (symbol : string)
| Symbol (i : nat) (symbol : string)
| Interval (i : nat)
| Unmount (i : nat)
| Respond (k : nat) (r : answer).

Definition step (e : event) (p : page) : page :=
  match e with
  | Pass d => Page (now p + Z.max 0 d) (prices p) (components p) (requests p) (next p)
  | Mount symbol =>
      let c := coin_of (to_upper symbol) in
      let i := next p in
      effect i c (Page (now p) (prices p) (<[i := Component c (initial (now p) c (prices p))]> (components p)) (requests p) (S i))
  | Symbol i symbol =>
      match components p !! i with
      | Some cp =>
          let c := coin_of (to_upper symbol) in
          if decide (c = coin cp) then p
          else effect i c (Page (now p) (prices p) (<[i := Component c (state cp)]> (components p)) (requests p) (next p))
      | None => p
      end
  | Interval i =>
      match components p !! i with
      | Some (Component (Some coinId) _) => doFetch i coinId p
      | _ => p
      end
  | Unmount i => Page (now p) (prices p) (delete i (components p)) (requests p) (next p)
  | Respond k r =>
      match requests p !! k with
      | Some (i, coinId) =>
          doFetch_end i coinId r (Page (now p) (prices p) (components p) (delete k (requests p)) (next p))
      | None => p
      end
  end.
Definition start : page := Page 0 ∅ ∅ ∅ 0.
Definition run (p : page) (es : list event) : page := foldl (λ p e, step e p) p es.

(** ** Lemmas *)

Lemma set_state_lookup i f p j c : components (set_state i f p) !! j = Some c →
  (j = i ∧ ∃ c0, components p !! i = Some c0 ∧ c = Component (coin c0) (f (state c0))) ∨ (j ≠ i ∧ components p !! j = Some c).
Proof.
  simpl. destruct (decide (j = i)) as [->|Hne]; [|rewrite lookup_alter_ne by done; by right].
  rewrite lookup_alter_eq. destruct (components p !! i) as [c0|]; [|done]. intros [= <-]. left. eauto.
Qed.
(** A property of states that every new state has. *)
Definition all_states (P : TokenPriceState → Prop) (p : page) : Prop := ∀ i c, components p !! i = Some c → P (state c).
Lemma set_state_all P i f p : (∀ s, P s → P (f s)) → all_states P p → all_states P (set_state i f p).
Proof.
  intros Hf Hp j c [(-> & c0 & Hc0 & ->)|[_ Hc]]%set_state_lookup; [apply Hf; by eapply Hp|by eapply Hp].
Qed.

Definition fresh_price (s : TokenPriceState) : Prop := stale s = false.
Lemma cached_recent t coinId ps e : getCached t coinId ps = Some e → t - e_fetchedAt e <= STALE_MS ∧ ps !! coinId = Some e.
Proof. intros (e' & He & Hd)%bind_Some. case_decide; [done|]. injection Hd as <-. split; [lia|done]. Qed.
Lemma doFetch_fresh i c p : all_states fresh_price p → all_states fresh_price (doFetch i c p).
Proof.
  intros Hp. unfold doFetch. destruct (getCached _ _ _) as [e|] eqn:He.
  - apply set_state_all; [|done]. intros _ _. apply cached_recent in He as [He _]. unfold fresh_price. simpl.
    apply bool_decide_eq_false. unfold STALE_MS, STALE_INDICATOR_MS in *. lia.
  - assert (H : all_states fresh_price (set_state i (λ s, State (price s) (fetchedAt s) true (stale s) None) p))
      by (by apply set_state_all). exact H.
Qed.
Lemma effect_fresh i c p : all_states fresh_price p → all_states fresh_price (effect i c p).
Proof. intros Hp. destruct c as [c|]; [by apply doFetch_fresh|by apply set_state_all]. Qed.
Lemma step_fresh e p : all_states fresh_price p → all_states fresh_price (step e p).
Proof.
  intros Hp. destruct e as [d|symbol|i symbol|i|i|k r]; simpl.
  - exact Hp.
  - apply effect_fresh. intros j c Hj. simpl in Hj. apply lookup_insert_Some in Hj as [[_ <-]|[_ Hj]]; [|by eapply Hp].
    by destruct (coin_of _).
  - destruct (components p !! i) as [cp|] eqn:Hi; [|done]. case_decide; [done|]. apply effect_fresh.
    intros j c Hj. simpl in Hj. apply lookup_insert_Some in Hj as [[_ <-]|[_ Hj]]; [by eapply (Hp i cp)|by eapply Hp].
  - destruct (components p !! i) as [[[c|] s]|]; [by apply doFetch_fresh|done..].
  - intros j c Hj. simpl in Hj. apply lookup_delete_Some in Hj as [_ Hj]. by eapply Hp.
  - destruct (requests p !! k) as [[i c]|]; [|done]. unfold doFetch_end.
    destruct r as [[q|]|msg]; (apply set_state_all; [by intros|exact Hp]).
Qed.

(** ** Prices belong to their coin *)

Section quotes.
(** What the feed quotes. *)
Context (quoted : string → Q → Prop).
(** The answers are quotes of the coin asked for, and no component changes its
    symbol. *)
Definition honest (e : event) (p : page) : Prop :=
  match e with
  | Respond k (Ok (Some q)) => match requests p !! k with Some (_, c) => quoted c q | None => True end
  | Symbol _ _ => False
  | _ => True
  end.
Fixpoint honest_run (es : list event) (p : page) : Prop :=
  match es with [] => True | e :: es' => honest e p ∧ honest_run es' (step e p) end.

Record priced (p : page) : Prop := {
  priced_cache : ∀ c e, prices p !! c = Some e → quoted c (e_price e) ∧ e_fetchedAt e <= now p;
  priced_shown : ∀ i cp q, components p !! i = Some cp → price (state cp) = Some q → ∃ c, coin cp = Some c ∧ quoted c q;
  priced_requests : ∀ k i c cp, requests p !! k = Some (i, c) → components p !! i = Some cp → coin cp = Some c;
  priced_fresh : ∀ i, (next p ≤ i)%nat → components p !! i = None ∧ requests p !! i = None ∧
                   ∀ k c, requests p !! k ≠ Some (i, c) }.

Lemma priced_set_state i f p : priced p →
  (∀ cp q, components p !! i = Some cp → price (f (state cp)) = Some q → price (state cp) = Some q ∨ ∃ c, coin cp = Some c ∧ quoted c q) →
  priced (set_state i f p).
Proof.
  intros [Hc Hs Hr Hf] Hnew. split.
  - exact Hc.
  - intros j cp q [(-> & cp0 & Hi & ->)|[_ Hj]]%set_state_lookup; [|by eapply Hs].
    simpl. intros [Hold|Hq]%(Hnew _ _ Hi); [by eapply Hs|done].
  - intros k j c cp Hk [(-> & cp0 & Hi & ->)|[_ Hj]]%set_state_lookup; simpl; by eapply Hr.
  - intros j Hj. destruct (Hf j Hj) as (H1 & H2 & H3). split; [|done]. simpl.
    apply lookup_alter_None. done.
Qed.
Lemma priced_doFetch i c p cp : priced p → components p !! i = Some cp → coin cp = Some c → priced (doFetch i c p).
Proof.
  intros Hp Hi Hc. unfold doFetch. destruct (getCached _ _ _) as [e|] eqn:He.
  - apply cached_recent in He as [_ He]. apply priced_set_state; [done|]. intros cp' q Hi' [= <-]. right.
    rewrite Hi in Hi'. injection Hi' as <-. exists c. split; [done|]. by apply (priced_cache _ Hp).
  - assert (Hs : priced (set_state i (λ s, State (price s) (fetchedAt s) true (stale s) None) p)).
    { apply priced_set_state; [done|]. intros cp' q _ Hq. by left. }
    assert (Hlt : (i < next p)%nat).
    { destruct (decide (next p ≤ i)%nat) as [Hge|]; [|lia]. destruct (priced_fresh _ Hp i Hge) as [Hn _]. congruence. }
    destruct Hs as [H1 H2 H3 H4]. simpl in *. split; simpl; [done|done| |].
    + intros k j c' cp' Hk Hj. apply lookup_insert_Some in Hk as [[_ [= <- <-]]|[_ Hk]]; [|by eapply H3].
      rewrite lookup_alter_eq, Hi in Hj. by injection Hj as <-.
    + intros j Hj. destruct (H4 j) as (Ha & Hb & Hd); [lia|]. split; [done|]. split.
      * rewrite lookup_insert_ne by lia. done.
      * intros k c'. intros Hk. apply lookup_insert_Some in Hk as [[_ [= <- _]]|[_ Hk]]; [lia|by eapply Hd].
Qed.
Lemma priced_step e p : priced p → honest e p → priced (step e p).
Proof.
  intros Hp He. destruct e as [d|symbol|i symbol|i|i|k r]; simpl in *; [| |done|..].
  - destruct Hp as [H1 H2 H3 H4]. split; simpl; [|done..]. intros c e Hc. destruct (H1 c e Hc). split; [done|lia].
  - destruct (priced_fresh _ Hp (next p)) as (Hn1 & Hn2 & Hn3); [lia|].
    generalize (coin_of (to_upper symbol)). intros c.
    set (p' := Page _ _ _ _ _). assert (Hp' : priced p').
    { destruct Hp as [H1 H2 H3 H4]. split; simpl; [done|..].
      - intros j cp q Hj Hq. apply lookup_insert_Some in Hj as [[_ <-]|[_ Hj]]; [|by eapply H2]. simpl in *.
        destruct c as [c|]; [|done]. simpl in Hq. destruct (getCached _ _ _) as [e|] eqn:Hget; [|done].
        injection Hq as <-. exists c. split; [done|]. apply cached_recent in Hget as [_ Hget]. by apply (H1 c e).
      - intros k j c' cp Hk Hj. apply lookup_insert_Some in Hj as [[<- _]|[_ Hj]]; [by destruct (Hn3 k c')|by eapply H3].
      - intros j Hj. destruct (H4 j) as (Ha & Hb & Hd); [lia|]. split; [|done]. by rewrite lookup_insert_ne by lia. }
    assert (Hi : components p' !! next p = Some (Component c (initial (now p) c (prices p)))) by apply lookup_insert_eq.
    destruct c as [c|]; simpl; [by eapply priced_doFetch|]. by apply priced_set_state.
  - destruct (components p !! i) as [[[c|] s]|] eqn:Hi; [by eapply priced_doFetch|done..].
  - destruct Hp as [H1 H2 H3 H4]. split; simpl; [done|..].
    + intros j cp q Hj. apply lookup_delete_Some in Hj as [_ Hj]. by eapply H2.
    + intros k j c cp Hk Hj. apply lookup_delete_Some in Hj as [_ Hj]. by eapply H3.
    + intros j Hj. destruct (H4 j Hj) as (Ha & Hb). split; [|done]. apply lookup_delete_None. by right.
  - destruct (requests p !! k) as [[i c]|] eqn:Hk; [|done].
    assert (Hp' : priced (Page (now p) (prices p) (components p) (delete k (requests p)) (next p))).
    { destruct Hp as [H1 H2 H3 H4]. split; simpl; [done|done|..].
      - intros k' j c' cp Hk'. apply lookup_delete_Some in Hk' as [_ Hk']. by eapply H3.
      - intros j Hj. destruct (H4 j Hj) as (Ha & Hb & Hd). split; [done|]. split; [apply lookup_delete_None; by right|].
        intros k' c' Hk'. apply lookup_delete_Some in Hk' as [_ Hk']. by eapply Hd. }
    pose proof (λ cp Hi, priced_requests _ Hp k i c cp Hk Hi) as Hcoin.
    destruct r as [[q|]|msg]; simpl in He |- *.
    + apply priced_set_state.
      * destruct Hp' as [H1 H2 H3 H4]. split; simpl in *; [|done..].
        intros c' e He'. apply lookup_insert_Some in He' as [[<- <-]|[_ He']]; [by split; simpl; [|lia]|by apply H1].
      * intros cp q' Hi [= <-]. right. exists c. split; [by apply Hcoin|done].
    + apply priced_set_state; [done|]. by intros.
    + apply priced_set_state; [done|]. intros cp q' Hi Hq. by left.
Qed.
Lemma priced_run es : ∀ p, priced p → honest_run es p → priced (run p es).
Proof. induction es as [|e es IH]; intros p Hp; [done|]. intros [He Hes]. apply IH; [by apply priced_step|done]. Qed.
Lemma priced_start : priced start.
Proof.
  split; simpl; [by intros c e Hc|by intros i cp q Hi|by intros k i c cp Hk|].
  intros i _. split_and!; [done|done|by intros k c].
Qed.
End quotes.

(** ** Theorems *)

(** As long as no component changes its symbol, every price shown and every
    price cached is a quote of the coin it stands for, in whatever order the
    components' requests are answered. *)
Theorem shown_prices_quoted quoted es i cp q : honest_run quoted es start →
  components (run start es) !! i = Some cp → price (state cp) = Some q →
  ∃ c, coin cp = Some c ∧ quoted c q.
Proof. intros Hes. apply priced_shown. by apply priced_run, Hes; apply priced_start. Qed.

(** The staleness badge is never shown: a cached price is used for a minute
    and the badge asks for five. *)
Theorem stale_never_shown es i cp : components (run start es) !! i = Some cp → stale (state cp) = false.
Proof.
  assert (H : all_states fresh_price (run start es)); [|by apply H].
  unfold run. induction es as [|e es IH] using rev_ind; [by intros j c Hj|]. rewrite foldl_app. by apply step_fresh.
Qed.

(** So a price from before an outage of the feed is shown, unmarked, for as
    long as the outage lasts. *)
Theorem outage_price_unmarked q d msg : STALE_MS < d →
  state <$> components (run start [Mount "XLM"; Respond 1 (Ok (Some q)); Pass d; Interval 0; Respond 2 (Err msg)]) !! 0%nat =
    Some (State (Some q) (Some 0) false false (Some msg)).
Proof.
  intros Hd. unfold run, start. cbn [foldl].
  change (step (Mount "XLM") (Page 0 ∅ ∅ ∅ 0)) with
    (Page 0 ∅ {[0%nat := Component (Some "stellar") (State None None true false None)]} {[1%nat := (0%nat, "stellar")]} 2).
  assert (H1 : step (Respond 1 (Ok (Some q)))
      (Page 0 ∅ {[0%nat := Component (Some "stellar") (State None None true false None)]} {[1%nat := (0%nat, "stellar")]} 2) =
    Page 0 {["stellar" := Entry q 0]} {[0%nat := Component (Some "stellar") (State (Some q) (Some 0) false false None)]} ∅ 2)
    by reflexivity.
  rewrite H1. clear H1. cbn [step now prices components requests next].
  assert (Hget : getCached (0 + Z.max 0 d) "stellar" {["stellar" := Entry q 0]} = None).
  { unfold getCached. change (({["stellar" := Entry q 0]} : gmap string CacheEntry) !! "stellar") with (Some (Entry q 0)).
    cbn [mbind option_bind e_fetchedAt]. rewrite decide_True by lia. done. }
  change (({[0%nat := ?x]} : gmap nat component) !! 0%nat) with (Some x). cbv iota. unfold doFetch.
  cbn [now prices]. rewrite Hget. reflexivity.
Qed.

(** A component that changes its symbol while a request is under way shows
    the price of the old coin as that of the new one: the request is not
    aborted, and its answer does not say what it was for. *)
Theorem symbol_change_shows_wrong_price old new :
  components (run start [Mount "XLM"; Symbol 0 "USDC"; Respond 2 (Ok (Some new)); Respond 1 (Ok (Some old))]) !! 0%nat =
    Some (Component (Some "usd-coin") (State (Some old) (Some 0) false false None)).
Proof. reflexivity. Qed.

(** ** Witnesses *)

Lemma shown_prices_quoted_witness :
  let es := [Mount "XLM"; Mount "USDC"; Respond 3 (Ok (Some 1%Q)); Respond 1 (Ok (Some (1 # 8)))] in
  ∃ cp, components (run start es) !! 0%nat = Some cp ∧ price (state cp) = Some (1 # 8) ∧
    ∃ c, coin cp = Some c ∧ (c, (1 # 8)%Q) ∈ [("stellar", (1 # 8)%Q); ("usd-coin", 1%Q)].
Proof.
  intros es. eexists. split; [reflexivity|]. split; [reflexivity|].
  apply (shown_prices_quoted (λ c q, (c, q) ∈ [("stellar", (1 # 8)%Q); ("usd-coin", 1%Q)]) es 0); [|reflexivity|reflexivity].
  split; [done|]. split; [done|]. split; [cbn; right; left|]. split; [cbn; left|done].
Defined.
Lemma stale_never_shown_witness :
  ∃ cp, components (run start [Mount "XLM"; Pass 999999; Interval 0]) !! 0%nat = Some cp ∧ stale (state cp) = false.
Proof.
  eexists. split; [reflexivity|]. by apply (stale_never_shown [Mount "XLM"; Pass 999999; Interval 0] 0).
Defined.
Lemma outage_price_unmarked_witness :
  price <$> (state <$> components (run start [Mount "XLM"; Respond 1 (Ok (Some 2%Q)); Pass 86400000; Interval 0;
    Respond 2 (Err "HTTP 503")]) !! 0%nat) = Some (Some 2%Q).
Proof. rewrite (outage_price_unmarked 2 86400000 "HTTP 503"); [done|reflexivity]. Defined.
