(* ===== verification/ClaimVested.v ===== *)
(** * Claiming vested tokens

    [frontend/src/hooks/useClaimVested.ts] and the button of
    [frontend/src/components/ClaimButton.tsx].  The contract codes are parsed as
    in [ErrorMessages]: both hooks have the same three regular expressions.  The
    hook is a transition system whose steps are what happens between two
    [await]s: a click, a render, the end of one attempt of [claimFn], the end of
    a delay, a reset, the end of the component. *)
From stdpp Require Import list.
From S2P Require Import Prelude ErrorMessages.
#[local] Open Scope Z_scope.

(** ** State machine *)

Inductive ClaimPhase := idle | signing | pending | success | error.
#[global] Instance ClaimPhase_eq_dec : EqDecision ClaimPhase.
Proof. solve_decision. Defined.
Record ClaimState := Claim {
  phase : ClaimPhase;
  amountClaimed : option Z;
  errorMessage : option string;
  errorCode : option Z }.
Definition INITIAL_STATE : ClaimState := Claim idle None None None.

Inductive ClaimAction :=
| SIGNING
| PENDING
| SUCCESS (amount : Z)
| ERROR (message : string) (code : option Z)
| RESET.
Definition reducer (state : ClaimState) (action : ClaimAction) : ClaimState :=
  match action with
  | SIGNING => Claim signing None None None
  | PENDING => Claim pending (amountClaimed state) (errorMessage state) (errorCode state)
  | SUCCESS amount => Claim success (Some amount) None None
  | ERROR message code => Claim error None (Some message) code
  | RESET => INITIAL_STATE
  end.

(** ** Errors *)

(** What a promise rejects with: an [Error] or another object, each perhaps with
    a numeric property [status], or a plain value, given as [String] shows it. *)
Inductive thrown :=
| ErrorObject (message : string) (status : option Z)
| OtherObject (text : string) (status : option Z)
| Primitive (text : string).
(** [err instanceof Error ? err.message : String(err)] *)
Definition text_of_error (e : thrown) : string :=
  match e with ErrorObject m _ => m | OtherObject t _ => t | Primitive t => t end.

(** [toLowerCase] as far as ASCII words are concerned: the Kelvin sign, three
    bytes long, becomes the letter k, no other character becomes ASCII. *)
Fixpoint lower_text (l : list ascii) : list ascii :=
  match l with
  | a :: ((b :: c :: l') as t) =>
      if (code a =? 226) && (code b =? 132) && (code c =? 170) then "k"%char :: lower_text l'
      else lower_char a :: lower_text t
  | a :: t => lower_char a :: lower_text t
  | [] => []
  end.
Definition lower_includes (word : string) (raw : string) : bool := contains (chars word) (lower_text (chars raw)).

Definition buildErrorMessage (err : thrown) : string * option Z :=
  let raw := text_of_error err in
  match parseContractErrorCode raw with
  | Some code => let info := client_getErrorInfo code in
                 (title info +:+ ": " +:+ explanation info +:+ " " +:+ action info, Some code)
  | None =>
      if lower_includes "user rejected" raw || lower_includes "user denied" raw then ("Wallet signing was cancelled.", None)
      else if lower_includes "network" raw || lower_includes "fetch" raw then
        ("Network error — please check your connection and try again.", None)
      else (if truthy raw then raw else "An unexpected error occurred. Please try again.", None)
  end.

(** ** Submission with retries *)

Definition MAX_RETRIES : nat := 3.
Definition RETRY_DELAY_MS : Z := 2000.

(** [/504|timed?\s*out|gateway/i] at one position *)
Definition match_timeout (l : list ascii) : option (list ascii) :=
  match strip_ci (chars "504") l with
  | Some l' => Some l'
  | None =>
      match (l' ← strip_ci (chars "time") l; strip_ci (chars "out") (skip_space (default l' (strip_ci (chars "d") l')))) with
      | Some l' => Some l'
      | None => strip_ci (chars "gateway") l
      end
  end.
Definition isTimeout (err : thrown) : bool :=
  match err with
  | ErrorObject m st => bool_decide (is_Some (search match_timeout (chars m))) || bool_decide (st = Some 504)
  | OtherObject _ st => bool_decide (st = Some 504)
  | Primitive _ => false
  end.

(** How one attempt ends: with an amount or an exception. *)
Notation attempt_end := (Z + thrown)%type.
(** What the loop does with the end of attempt [attempt]: leave, or sleep. *)
Inductive loop_next := Leave (r : attempt_end) | Sleep (ms : Z).
Definition after_attempt (retries attempt : nat) (r : attempt_end) : loop_next :=
  match r with
  | inl _ => Leave r
  | inr err =>
      if negb (isTimeout err) || bool_decide (attempt = retries) then Leave r
      else Sleep (RETRY_DELAY_MS * (Z.of_nat attempt + 1))
  end.

Record submission := Submission { outcome : attempt_end; attempts : nat; slept : Z }.
Fixpoint retry_loop (retries attempt : nat) (waited : Z) (ends : list attempt_end) : option submission :=
  match ends with
  | [] => None
  | r :: ends' =>
      match after_attempt retries attempt r with
      | Leave o => Some (Submission o (S attempt) waited)
      | Sleep ms => retry_loop retries (S attempt) (waited + ms) ends'
      end
  end.
(** [submitWithRetry] on the ends of the successive calls of [submitFn]. *)
Definition submitWithRetry (retries : nat) (ends : list attempt_end) : option submission := retry_loop retries 0 0 ends.

(** ** The hook *)

(** A run of [claim]: in an attempt, in the delay after one, or over. *)
Inductive flow := FTry (attempt : nat) | FSleep (attempt : nat) (wake : Z) | FDone.
#[global] Instance flow_eq_dec : EqDecision flow.
Proof. solve_decision. Defined.

(** The clock, the state, the phase the rendered [claim] closes over, the runs
    of [claim], the calls of [onSuccess], and whether the component is mounted. *)
Record hook := Hook {
  now : Z;
  state : ClaimState;
  closure : ClaimPhase;
  flows : list flow;
  successes : list Z;
  mounted : bool }.
Definition mount (t : Z) : hook := Hook t INITIAL_STATE idle [] [] true.

Definition dispatch (a : ClaimAction) (h : hook) : hook :=
  Hook (now h) (if mounted h then reducer (state h) a else state h) (closure h) (flows h) (successes h) (mounted h).
Definition set_flows (fs : list flow) (h : hook) : hook :=
  Hook (now h) (state h) (closure h) fs (successes h) (mounted h).
Definition fail (err : thrown) (h : hook) : hook :=
  let '(message, code) := buildErrorMessage err in dispatch (ERROR message code) h.

Section hook.
(** What [onSuccess] throws, when it does. *)
Context (onSuccess : Z → option thrown).

Definition claim (h : hook) : hook :=
  if decide (closure h ≠ idle ∧ closure h ≠ error) then h
  else
    let h := dispatch SIGNING h in
    let h := dispatch PENDING h in
    set_flows (flows h ++ [FTry 0]) h.

(** [submitWithRetry] has returned or thrown. *)
Definition settle (r : attempt_end) (h : hook) : hook :=
  match r with
  | inl amount =>
      let h := dispatch (SUCCESS amount) h in
      let h := Hook (now h) (state h) (closure h) (flows h) (successes h ++ [amount]) (mounted h) in
      match onSuccess amount with Some err => fail err h | None => h end
  | inr err => fail err h
  end.
Definition attempted (i : nat) (r : attempt_end) (h : hook) : hook :=
  match flows h !! i with
  | Some (FTry attempt) =>
      match after_attempt MAX_RETRIES attempt r with
      | Leave r => settle r (set_flows (<[i := FDone]> (flows h)) h)
      | Sleep ms => set_flows (<[i := FSleep attempt (now h + ms)]> (flows h)) h
      end
  | _ => h
  end.
Definition woken (i : nat) (h : hook) : hook :=
  match flows h !! i with
  | Some (FSleep attempt wake) =>
      if decide (wake <= now h) then set_flows (<[i := FTry (S attempt)]> (flows h)) h else h
  | _ => h
  end.
Definition reset (h : hook) : hook := dispatch RESET h.

Inductive event :=
| Pass (d : Z)
| Render
| ClickClaim
| Attempted (i : nat) (r : attempt_end)
| Woken (i : nat)
| Reset
| Unmount.
Definition step (e : event) (h : hook) : hook :=
  match e with
  | Pass d => Hook (now h + Z.max 0 d) (state h) (closure h) (flows h) (successes h) (mounted h)
  | Render => Hook (now h) (state h) (phase (state h)) (flows h) (successes h) (mounted h)
  | ClickClaim => claim h
  | Attempted i r => attempted i r h
  | Woken i => woken i h
  | Reset => reset h
  | Unmount => Hook (now h) (state h) (closure h) (flows h) (successes h) false
  end.
Definition run (es : list event) (h : hook) : hook := foldl (λ h e, step e h) h es.

Inductive reachable : hook → Prop :=
| reach_mount t : reachable (mount t)
| reach_step h e : reachable h → reachable (step e h).
(** The user clicks on what is rendered, resets only what is over, and stays. *)
Definition polite (h : hook) (e : event) : Prop :=
  match e with
  | ClickClaim => closure h = phase (state h)
  | Reset => phase (state h) ≠ pending
  | Unmount => False
  | _ => True
  end.
Inductive polite_reachable : hook → Prop :=
| polite_mount t : polite_reachable (mount t)
| polite_step h e : polite_reachable h → polite h e → polite_reachable (step e h).
End hook.

(** ** The button *)

Section button.
Context (toLocaleString formatAmount : Z → string).

(** [seconds] is an integer, and [Math.round] of the quotient is exact. *)
Definition ledgersToHuman (ledgers : Z) : string :=
  let seconds := ledgers * 5 in
  let round d := (2 * seconds + d) / (2 * d) in
  if decide (seconds < 3600) then Z_to_string (round 60) +:+ " minutes"
  else if decide (seconds < 86400) then Z_to_string (round 3600) +:+ " hours"
  else Z_to_string (round 86400) +:+ " days".

Definition phaseLabel (p : ClaimPhase) : string :=
  match p with
  | signing => "Signing…" | pending => "Pending…" | success => "Claimed ✓" | error => "Retry" | idle => "Claim"
  end.

Record ClaimButtonProps := ButtonProps {
  b_phase : ClaimPhase;
  cliffReached : bool;
  ledgersUntilCliff : option Z;
  claimableAmount : Z;
  tokenSymbol : string;
  b_amountClaimed : option Z }.

Definition isInFlight (p : ClaimPhase) : bool := bool_decide (p = signing) || bool_decide (p = pending).
Definition disabledReason (b : ClaimButtonProps) : option string :=
  if isInFlight (b_phase b) || bool_decide (b_phase b = success) then None
  else if negb (cliffReached b) then
    match ledgersUntilCliff b with
    | Some n =>
        if 0 <? n then
          Some ("Cliff not reached yet — approximately " +:+ ledgersToHuman n +:+ " remaining (" +:+ toLocaleString n +:+ " ledgers).")
        else Some "Cliff not reached yet. Your tokens are still locked."
    | None => Some "Cliff not reached yet. Your tokens are still locked."
    end
  else if claimableAmount b <=? 0 then Some "Nothing to claim right now — wait for more tokens to accrue."
  else None.
Definition isDisabled (b : ClaimButtonProps) : bool :=
  isInFlight (b_phase b) || bool_decide (b_phase b = success) || bool_decide (disabledReason b ≠ None).
Definition button_label (b : ClaimButtonProps) : string :=
  match b_amountClaimed b with
  | Some a => if decide (b_phase b = success) then "Claimed " +:+ formatAmount a +:+ " " +:+ tokenSymbol b +:+ " ✓"
              else phaseLabel (b_phase b)
  | None => phaseLabel (b_phase b)
  end.
End button.

Example timeout_1 : isTimeout (ErrorObject "Request Timed out" None) = true. Proof. reflexivity. Qed.
Example timeout_2 : isTimeout (ErrorObject "op_failed" (Some 504)) = true. Proof. reflexivity. Qed.
Example timeout_3 : isTimeout (Primitive "504 Gateway Timeout") = false. Proof. reflexivity. Qed.
Example message_1 : buildErrorMessage (ErrorObject "User Rejected the request" None) = ("Wallet signing was cancelled.", None).
Proof. vm_compute. reflexivity. Qed.

(** ** Lemmas *)

(** The shape of a state between two steps. *)
Definition state_ok (s : ClaimState) : Prop :=
  phase s ≠ signing ∧ (is_Some (amountClaimed s) ↔ phase s = success) ∧
  (is_Some (errorMessage s) ↔ phase s = error) ∧ (is_Some (errorCode s) → phase s = error).
Ltac state_shape := unfold state_ok; cbn; split_and!; try done.
Lemma ok_success a : state_ok (Claim success (Some a) None None). Proof. state_shape. Qed.
Lemma ok_error m c : state_ok (Claim error None (Some m) c). Proof. state_shape. Qed.
Lemma ok_pending : state_ok (Claim pending None None None). Proof. state_shape. Qed.
Lemma ok_initial : state_ok INITIAL_STATE. Proof. state_shape. Qed.
#[local] Hint Resolve ok_success ok_error ok_pending ok_initial : core.

Definition live (h : hook) (i : nat) : Prop := ∃ f, flows h !! i = Some f ∧ f ≠ FDone.
(** A run never has more attempts than it may. *)
Definition flow_ok (f : flow) : Prop :=
  match f with FTry a => (a ≤ MAX_RETRIES)%nat | FSleep a _ => (a < MAX_RETRIES)%nat | FDone => True end.
Record claiming (h : hook) : Prop := Claiming {
  c_mounted : mounted h = true;
  c_flows : Forall flow_ok (flows h);
  c_busy : phase (state h) = pending → ∃ i, live h i ∧ ∀ j, live h j → j = i;
  c_idle : phase (state h) ≠ pending → ∀ j, ¬ live h j }.

Lemma dispatch_mounted a h : mounted h = true → state (dispatch a h) = reducer (state h) a.
Proof. unfold dispatch. simpl. by intros ->. Qed.
Lemma claim_dispatch_ok a h : state_ok (state h) → state_ok (reducer (state h) a) → state_ok (state (dispatch a h)).
Proof. unfold dispatch. simpl. by destruct (mounted h). Qed.
Lemma fail_state err h : fail err h =
  dispatch (ERROR (buildErrorMessage err).1 (buildErrorMessage err).2) h.
Proof. unfold fail. by destruct (buildErrorMessage err). Qed.
Lemma fail_ok err h : state_ok (state h) → state_ok (state (fail err h)).
Proof. intros. rewrite fail_state. apply claim_dispatch_ok; [done|simpl; auto]. Qed.

Section proofs.
Context (onSuccess : Z → option thrown).
Notation step := (step onSuccess). Notation run := (run onSuccess).
Notation reachable := (reachable onSuccess). Notation polite_reachable := (polite_reachable onSuccess).

Lemma claim_settle_fields r h : flows (settle onSuccess r h) = flows h ∧ mounted (settle onSuccess r h) = mounted h ∧
  now (settle onSuccess r h) = now h ∧ closure (settle onSuccess r h) = closure h ∧
  successes (settle onSuccess r h) = successes h ++ (match r with inl a => [a] | inr _ => [] end).
Proof.
  unfold settle. destruct r as [a|e]; [destruct (onSuccess a)|]; rewrite ?fail_state; cbn; by rewrite ?app_nil_r.
Qed.
Lemma claim_settle_ok r h : state_ok (state h) → state_ok (state (settle onSuccess r h)).
Proof.
  intros Hs. unfold settle. destruct r as [a|e]; [|by apply fail_ok].
  assert (Hd : state_ok (state (dispatch (SUCCESS a) h))) by (apply claim_dispatch_ok; simpl; auto).
  destruct (onSuccess a); [by apply fail_ok|done].
Qed.
(** What the page shows when a run of [claim] is over. *)
Definition final_state (r : attempt_end) : ClaimState :=
  let failed err := Claim error None (Some (buildErrorMessage err).1) (buildErrorMessage err).2 in
  match r with
  | inl a => match onSuccess a with Some err => failed err | None => Claim success (Some a) None None end
  | inr err => failed err
  end.
Lemma settle_state r h : mounted h = true → state (settle onSuccess r h) = final_state r.
Proof.
  intros Hm. unfold settle, final_state. destruct r as [a|e]; [destruct (onSuccess a)|];
    rewrite ?fail_state; unfold dispatch; cbn; by rewrite Hm.
Qed.
Lemma final_state_over r : phase (final_state r) ≠ pending.
Proof. unfold final_state. destruct r as [a|]; [|done]. by destruct (onSuccess a). Qed.

Lemma claim_reachable_ok h : reachable h → state_ok (state h) ∧ closure h ≠ signing.
Proof.
  induction 1 as [t|h e _ [Hs Hc]]; [by simpl; auto|]. destruct e as [d| | |i r|i| |]; simpl; try done.
  - split; [done|apply Hs].
  - unfold claim. case_decide; [done|]. simpl. split; [|done]. destruct (mounted h); simpl; auto.
  - unfold attempted. destruct (flows h !! i) as [[a|a w|]|]; try done.
    destruct (after_attempt _ _ _); [|done]. split; [by apply claim_settle_ok|].
    destruct (claim_settle_fields r0 (set_flows (<[i:=FDone]> (flows h)) h)) as (_ & _ & _ & -> & _). done.
  - unfold woken. destruct (flows h !! i) as [[a|a w|]|]; try done. by case_decide.
  - split; [destruct (mounted h); auto|done].
Qed.

Lemma live_put h i f j : flows h !! i = Some f → f ≠ FDone → ∀ g n s c u m, g ≠ FDone →
  live (Hook n s c (<[i := g]> (flows h)) u m) j ↔ live h j.
Proof.
  intros Hi Hf g n s c u m Hg. unfold live. simpl. destruct (decide (i = j)) as [->|Hne].
  - rewrite list_lookup_insert_eq by (by eapply lookup_lt_Some). split; intros _; eauto.
  - by rewrite list_lookup_insert_ne.
Qed.
Lemma live_done h i j n s c u m :
  live (Hook n s c (<[i := FDone]> (flows h)) u m) j → live h j ∧ j ≠ i.
Proof.
  unfold live. simpl. intros (f & Hj & Hf). destruct (decide (i = j)) as [->|Hne].
  - apply list_lookup_insert_Some in Hj as [(_ & <- & _)|[? _]]; done.
  - rewrite list_lookup_insert_ne in Hj by done. split; [eauto|done].
Qed.
Lemma claiming_put h i f g : claiming h → flows h !! i = Some f → f ≠ FDone → g ≠ FDone → flow_ok g →
  claiming (set_flows (<[i := g]> (flows h)) h).
Proof.
  intros [Hm Hf Hb Hn] Hi Hfd Hg Hok. split; simpl; [done|by apply Forall_insert|..].
  - intros Hp. destruct (Hb Hp) as (k & Hk & Hu). exists k. unfold set_flows. rewrite live_put by done. split; [done|].
    intros j. rewrite live_put by done. apply Hu.
  - intros Hp j. unfold set_flows. rewrite live_put by done. by apply Hn.
Qed.
Lemma claiming_settle h i f r : claiming h → flows h !! i = Some f → f ≠ FDone →
  claiming (settle onSuccess r (set_flows (<[i := FDone]> (flows h)) h)).
Proof.
  intros [Hm Hf Hb Hn] Hi Hfd. set (h' := set_flows _ h). destruct (claim_settle_fields r h') as (Hfl & Hmo & _).
  split; [by rewrite Hmo|rewrite Hfl; simpl; by apply Forall_insert|..]; rewrite settle_state by done; intros Hp.
  { by destruct (final_state_over r). }
  intros j (g & Hj & Hne). rewrite Hfl in Hj.
  destruct (live_done h i j (now h) (state h) (closure h) (successes h) (mounted h)) as [Hl Hij]; [by exists g|].
  assert (Hli : live h i) by (by eexists). destruct (decide (phase (state h) = pending)) as [Hp'|Hp'].
  - destruct (Hb Hp') as (k & _ & Hu). apply Hij. by rewrite (Hu j Hl), (Hu i Hli).
  - by destruct (Hn Hp' i).
Qed.
Lemma claiming_claim h : claiming h → closure h = phase (state h) → claiming (claim h).
Proof.
  intros [Hm Hf Hb Hn] Hpol. unfold claim. case_decide as Hc; [by split|].
  assert (Hnone : ∀ j, ¬ live h j) by (apply Hn; rewrite <-Hpol; intros E; apply Hc; by rewrite E).
  split; simpl; [done|apply Forall_app; split; [done|apply Forall_singleton; simpl; lia]|..].
  - intros _. exists (length (flows h)). split.
    + exists (FTry 0). simpl. by rewrite list_lookup_middle.
    + intros j (f & Hj & Hne). simpl in Hj. apply lookup_app_Some in Hj as [Hj|[Hge Hj]].
      * destruct (Hnone j). by exists f.
      * apply list_lookup_singleton_Some in Hj as [Hj _]. lia.
  - by rewrite Hm.
Qed.
Lemma step_claiming h e : claiming h → polite h e → claiming (step e h).
Proof.
  intros Hc Hpol. pose proof Hc as [Hm Hf Hb Hn]. rewrite Forall_forall in Hf.
  destruct e as [d| | |i r|i| |]; simpl in *; try done.
  - split; simpl; [done|by apply Forall_forall|done|done].
  - split; simpl; [done|by apply Forall_forall|done|done].
  - by apply claiming_claim.
  - unfold attempted. destruct (flows h !! i) as [[a|a w|]|] eqn:Hi; [|done..].
    destruct (after_attempt MAX_RETRIES a r) as [o|ms] eqn:Ha; [by eapply claiming_settle|].
    eapply claiming_put; [done..|]. simpl. assert (Hle : (a ≤ MAX_RETRIES)%nat) by (apply (Hf (FTry a)); by eapply list_elem_of_lookup_2).
    unfold after_attempt in Ha. destruct r; [done|]. case_bool_decide; [by rewrite orb_true_r in Ha|lia].
  - unfold woken. destruct (flows h !! i) as [[a|a w|]|] eqn:Hi; [done| |done..]. case_decide; [|done].
    eapply claiming_put; [done..|]. simpl. assert (Hlt : (a < MAX_RETRIES)%nat) by (apply (Hf (FSleep a w)); by eapply list_elem_of_lookup_2).
    lia.
  - split; simpl; rewrite ?Hm; [done|by apply Forall_forall|done|]. intros _. by apply Hn.
Qed.
Lemma polite_claiming h : polite_reachable h → claiming h.
Proof. induction 1; [|by apply step_claiming]. split; simpl; [done|by constructor|done|]. intros _ j (f & Hj & _). discriminate Hj. Qed.

(** ** One run of [claim] *)

Lemma retry_loop_spec ends : ∀ attempt waited, (attempt ≤ MAX_RETRIES)%nat →
  (MAX_RETRIES - attempt < length ends)%nat →
  ∃ pre r post, ends = pre ++ r :: post ∧ (attempt + length pre ≤ MAX_RETRIES)%nat ∧
    Forall (λ r, ∃ err, r = inr err ∧ isTimeout err = true) pre ∧
    (∀ err, r = inr err → isTimeout err = true → (attempt + length pre = MAX_RETRIES)%nat) ∧
    retry_loop MAX_RETRIES attempt waited ends =
      Some (Submission r (S (attempt + length pre))
             (waited + foldr (λ k acc, RETRY_DELAY_MS * (Z.of_nat k + 1) + acc) 0 (seq attempt (length pre)))).
Proof.
  induction ends as [|r ends IH]; simpl; intros attempt waited Ha Hl; [lia|].
  destruct (after_attempt MAX_RETRIES attempt r) as [o|ms] eqn:Hn.
  - exists [], r, ends. simpl. rewrite Nat.add_0_r, Z.add_0_r.
    assert (o = r) as -> by (unfold after_attempt in Hn; destruct r; [by injection Hn|]; destruct (_ || _); by inversion Hn).
    split_and!; try done. intros err -> Ht. unfold after_attempt in Hn. rewrite Ht in Hn. simpl in Hn. by case_bool_decide.
  - unfold after_attempt in Hn. destruct r as [|err]; [done|]. destruct (negb _ || _) eqn:Hb; [done|]. injection Hn as <-.
    apply orb_false_iff in Hb as [Ht%negb_false_iff Hne%bool_decide_eq_false].
    destruct (IH (S attempt) (waited + RETRY_DELAY_MS * (Z.of_nat attempt + 1))) as (pre & r & post & -> & Hle & Hpre & Hlast & Heq); [lia..|].
    exists (inr err :: pre), r, post. simpl. split_and!; [done|lia|constructor; eauto| |].
    + intros e He Hte. specialize (Hlast e He Hte). lia.
    + rewrite Heq. f_equal. f_equal; [f_equal; lia|lia].
Qed.

(** The steps of one run: every attempt ends, and every delay passes. *)
Fixpoint drive (i attempt : nat) (ends : list attempt_end) : list event :=
  match ends with
  | [] => []
  | r :: ends' =>
      Attempted i r ::
      match after_attempt MAX_RETRIES attempt r with
      | Leave _ => []
      | Sleep ms => [Pass ms; Woken i] ++ drive i (S attempt) ends'
      end
  end.
Lemma drive_spec ends : ∀ i attempt waited s h, mounted h = true → flows h !! i = Some (FTry attempt) →
  retry_loop MAX_RETRIES attempt waited ends = Some s →
  let h' := run (drive i attempt ends) h in
  waited + (now h' - now h) = slept s ∧ flows h' = <[i := FDone]> (flows h) ∧ state h' = final_state (outcome s) ∧
  successes h' = successes h ++ (match outcome s with inl a => [a] | inr _ => [] end) ∧ mounted h' = true.
Proof.
  induction ends as [|r ends IH]; intros i attempt waited s h Hm Hi Hs; [done|].
  cbn [drive retry_loop] in *. destruct (after_attempt MAX_RETRIES attempt r) as [o|ms] eqn:Hn.
  - injection Hs as <-. cbn [run foldl step]. unfold attempted. rewrite Hi, Hn.
    set (h1 := set_flows _ h). destruct (claim_settle_fields o h1) as (Hf & Hmo & Hno & _ & Hsu).
    cbn. rewrite Hf, Hmo, Hno, Hsu, settle_state by done. split_and!; try done. simpl. lia.
  - assert (Hms : 0 <= ms).
    { unfold after_attempt, RETRY_DELAY_MS in Hn. destruct r; [done|]. destruct (_ || _); [done|]. injection Hn as <-. lia. }
    cbn [run foldl app step]. unfold attempted. rewrite Hi, Hn. unfold woken, set_flows. cbn [flows now state closure successes mounted].
    rewrite list_lookup_insert_eq by (by eapply lookup_lt_Some). rewrite decide_True by lia. rewrite list_insert_insert_eq.
    match goal with |- context [foldl _ ?x _] => set (h1 := x) end.
    destruct (IH i (S attempt) (waited + ms) s h1) as (Hw & Hf & Hst & Hsu & Hmo);
      [done|simpl; rewrite list_lookup_insert_eq; [done|by eapply lookup_lt_Some]|done|].
    unfold ClaimVested.run in Hw, Hf, Hst, Hsu, Hmo.
    split_and!; [|rewrite Hf; simpl; by rewrite list_insert_insert_eq|done..]. simpl in Hw. lia.
Qed.
End proofs.

(** ** Theorems *)

(** Whatever happens and in whatever order, the page only ever shows states of
    one shape: an amount exactly when the claim succeeded, a message exactly when
    it failed, a code only with a message; and the wallet phase is never shown,
    because the next phase is dispatched before the first [await]. *)
Theorem claim_state_type onSuccess h : reachable onSuccess h → state_ok (state h) ∧ closure h ≠ signing.
Proof. apply claim_reachable_ok. Qed.

(** The submission ends with the end of one attempt: the first that is not a
    timeout, or the fourth; every attempt before it was a timeout, and the delays
    between them are 2, 4 and 6 seconds. *)
Theorem submitWithRetry_spec ends : (4 ≤ length ends)%nat →
  ∃ pre r post, ends = pre ++ r :: post ∧ (length pre ≤ 3)%nat ∧
    Forall (λ r, ∃ err, r = inr err ∧ isTimeout err = true) pre ∧
    (∀ err, r = inr err → isTimeout err = true → length pre = 3%nat) ∧
    submitWithRetry MAX_RETRIES ends =
      Some (Submission r (S (length pre)) (1000 * Z.of_nat (length pre) * (Z.of_nat (length pre) + 1))).
Proof.
  intros Hl. destruct (retry_loop_spec ends 0 0) as (pre & r & post & -> & Hle & Hpre & Hlast & Heq);
    [unfold MAX_RETRIES; lia..|].
  exists pre, r, post. simpl in *. split_and!; [done|exact Hle|done|exact Hlast|].
  unfold submitWithRetry. rewrite Heq. f_equal. f_equal.
  unfold MAX_RETRIES in Hle. destruct pre as [|? [|? [|? [|? pre]]]]; [reflexivity..|simpl in Hle; lia].
Qed.

(** C12. A click does what the promise does: the run it starts makes the attempts of
    [submitWithRetry], takes its delays, ends with its result as the state of
    the page and, on success, one call of the callback; nothing of the earlier
    attempts shows. *)
Theorem claim_run onSuccess h ends s : mounted h = true → closure h = idle ∨ closure h = error →
  submitWithRetry MAX_RETRIES ends = Some s →
  let h' := run onSuccess (ClickClaim :: drive (length (flows h)) 0 ends) h in
  now h' = now h + slept s ∧ flows h' = flows h ++ [FDone] ∧ state h' = final_state onSuccess (outcome s) ∧
  successes h' = successes h ++ match outcome s with inl a => [a] | inr _ => [] end.
Proof.
  intros Hm Hc Hs. set (h1 := claim h). assert (Hc1 : h1 = set_flows (flows h ++ [FTry 0]) (dispatch PENDING (dispatch SIGNING h))).
  { unfold h1, claim. rewrite decide_False; [done|]. destruct Hc; tauto. }
  destruct (drive_spec onSuccess ends (length (flows h)) 0 0 s h1) as (Hw & Hf & Hst & Hsu & _).
  - by rewrite Hc1.
  - rewrite Hc1. simpl. by rewrite list_lookup_middle.
  - exact Hs.
  - change (run onSuccess (ClickClaim :: drive (length (flows h)) 0 ends) h) with
      (run onSuccess (drive (length (flows h)) 0 ends) h1).
    cbv zeta. split_and!; [|rewrite Hf, Hc1; simpl|exact Hst|rewrite Hsu, Hc1; done].
    + assert (now h1 = now h) by (by rewrite Hc1). lia.
    + by rewrite insert_app_r_alt, Nat.sub_diag by done.
Qed.

(** C11. The button and the hook together: for a user who clicks on what is shown, a
    button that can be pressed means that no claim is under way, that the cliff
    has passed and that there is something to claim; and once it is pressed
    there is exactly one run and the button stays disabled until it is over. *)
Theorem button_claims_once onSuccess toLocaleString h b : polite_reachable onSuccess h →
  b_phase b = phase (state h) →
  (isDisabled toLocaleString b = false →
     cliffReached b = true ∧ 0 < claimableAmount b ∧ ∀ i, ¬ live h i) ∧
  ((∃ i, live h i) → isDisabled toLocaleString b = true ∧ ∀ i j, live h i → live h j → i = j).
Proof.
  intros [Hm Hf Hb Hn]%polite_claiming Hp. unfold isDisabled, disabledReason, isInFlight. split.
  - destruct b as [p c l a sy am]. simpl in *. subst p. intros Hd.
    destruct (phase (state h)) eqn:Hph; try done.
    all: destruct c; simpl in Hd; [|by destruct l; [case_match|]].
    all: destruct (Z.leb_spec a 0); [done|]; split_and!; [done|lia|by apply Hn].
  - intros [i Hi]. destruct (decide (phase (state h) = pending)) as [Hpe|Hpe]; [|by destruct (Hn Hpe i)].
    rewrite Hp, Hpe. split; [done|]. destruct (Hb Hpe) as (k & _ & Hu). intros j l Hj Hl. by rewrite (Hu j Hj), (Hu l Hl).
Qed.

(** A claim whose answer is lost is reported as a failure: the gateway times
    out although the transaction went through, the retry finds nothing left to
    claim, and the page shows that as an error, without an amount and without
    calling back. *)
Theorem lost_answer_reported_as_nothing onSuccess :
  let h := run onSuccess [ClickClaim; Attempted 0 (inr (ErrorObject "504 Gateway Timeout" None)); Pass 2000; Woken 0;
    Attempted 0 (inr (ErrorObject "HostError: Error(Contract, #7)" None))] (mount 0) in
  phase (state h) = error ∧ amountClaimed (state h) = None ∧ errorCode (state h) = Some 7 ∧ successes h = [] ∧
  errorMessage (state h) = Some ("Nothing to claim right now: There are no tokens available to claim at this moment. Tokens accrue every ledger. " +:+
    "Wait a moment and try again. Your balance grows automatically with each new ledger.").
Proof. vm_compute. auto. Qed.

(** A user who is faster than the page, or resets while a claim is under way,
    breaks the promise: two clicks before a render claim twice; a reset does not
    stop the claim, whose answer then shows on the page that was reset; and a
    callback that throws turns a claim that went through into an error. *)
Theorem impolite_claims :
  flows (run (λ _, None) [ClickClaim; ClickClaim] (mount 0)) = [FTry 0; FTry 0] ∧
  state (run (λ _, None) [ClickClaim; Render; Reset; Render; Attempted 0 (inl 5)] (mount 0)) = Claim success (Some 5) None None ∧
  state (run (λ _, Some (ErrorObject "render failed" None)) [ClickClaim; Attempted 0 (inl 5)] (mount 0)) =
    Claim error None (Some "render failed") None.
Proof. split_and!; vm_compute; reflexivity. Qed.

(** ** Witnesses *)

Definition timeout : attempt_end := inr (ErrorObject "504 Gateway Timeout" None).
Lemma claim_state_type_witness : state_ok (state (run (λ _, None) [ClickClaim] (mount 0))) ∧ idle ≠ signing.
Proof. apply (claim_state_type (λ _, None) (run (λ _, None) [ClickClaim] (mount 0))). apply reach_step, reach_mount. Defined.
Lemma submitWithRetry_spec_witness :
  submitWithRetry MAX_RETRIES [timeout; timeout; timeout; timeout] = Some (Submission timeout 4 12000) ∧
  ∃ pre r post, [timeout; timeout; timeout; timeout] = pre ++ r :: post ∧ (length pre ≤ 3)%nat.
Proof.
  split; [vm_compute; reflexivity|].
  destruct (submitWithRetry_spec [timeout; timeout; timeout; timeout]) as (pre & r & post & H1 & H2 & _); [simpl; lia|eauto].
Defined.
Lemma claim_run_witness :
  let h' := run (λ _, None) (ClickClaim :: drive 0 0 [timeout; inl 7]) (mount 0) in
  now h' = 2000 ∧ state h' = Claim success (Some 7) None None.
Proof.
  destruct (claim_run (λ _, None) (mount 0) [timeout; inl 7] (Submission (inl 7) 2 2000)) as (H1 & _ & H2 & _);
    [reflexivity|by left|vm_compute; reflexivity|]. split; [exact H1|exact H2].
Defined.
Lemma button_claims_once_witness :
  let h := run (λ _, None) [ClickClaim; Render] (mount 0) in
  isDisabled Z_to_string (ButtonProps pending true None 5 "USDC" None) = true ∧ live h 0.
Proof.
  assert (Hl : live (run (λ _, None) [ClickClaim; Render] (mount 0)) 0) by (by exists (FTry 0)).
  split; [|exact Hl].
  apply (button_claims_once (λ _, None) Z_to_string (run (λ _, None) [ClickClaim; Render] (mount 0))
    (ButtonProps pending true None 5 "USDC" None)); [|reflexivity|by exists 0%nat].
  apply (polite_step _ (run (λ _, None) [ClickClaim] (mount 0)) Render); [|done].
  apply (polite_step _ (mount 0) ClickClaim); [apply polite_mount|done].
Defined.
