(* ===== verification/Double.v ===== *)
(** * Numbers of the page

    The IEEE 754 double-precision numbers of JavaScript as far as the client
    computes with them: rounding to nearest, ties to even, the quotient and the
    product, [Number] of a string, [Math.floor] and [Math.round].  A finite
    double is its rational value in lowest terms; the two zeros are one. *)
From Stdlib Require Import QArith Qabs Qround.
From Stdlib Require Qcanon.
From stdpp Require Import list.
From S2P Require Import Prelude Digits.
#[local] Open Scope Z_scope.

Inductive double := DNaN | DInf (negative : bool) | DFin (q : Q).

(** ** Rounding *)

(** The integer nearest to [n / d], the even one of two. *)
Definition round_half_even (n d : Z) : Z :=
  let f := n / d in
  match 2 * (n mod d) ?= d with
  | Lt => f
  | Eq => if Z.even f then f else f + 1
  | Gt => f + 1
  end.
(** [2 ^ e] as a fraction. *)
Definition up (e : Z) : Z := 2 ^ Z.max e 0.
Definition down (e : Z) : Z := 2 ^ Z.max (- e) 0.
(** The exponent of [n / d]: [2 ^ e <= n / d < 2 ^ (e + 1)]. *)
Definition exponent (n d : Z) : Z :=
  let e := Z.log2 n - Z.log2 d in
  if d * up e <=? n * down e then e else e - 1.
(** The exponent of the last place: 53 digits, fewer for subnormal numbers. *)
Definition last_place (n d : Z) : Z := Z.max (exponent n d - 52) (-1074).
Definition round_pos (n d : Z) : double :=
  let u := last_place n d in
  let m := round_half_even (n * down u) (d * up u) in
  if 2 ^ 1024 <=? m * up u then DInf false else DFin (Qred (m * up u # Z.to_pos (down u))).
Definition negate (x : double) : double :=
  match x with DNaN => DNaN | DInf s => DInf (negb s) | DFin q => DFin (Qred (- q)) end.
Definition round64 (q : Q) : double :=
  match Qnum q with
  | Z0 => DFin 0
  | Zpos n => round_pos (Zpos n) (Zpos (Qden q))
  | Zneg n => negate (round_pos (Zpos n) (Zpos (Qden q)))
  end.
Definition of_Z (n : Z) : double := round64 (inject_Z n).

(** ** Operations *)

Definition negative (q : Q) : bool := Qnum q <? 0.
Definition is_zero (q : Q) : bool := Qnum q =? 0.
Definition div64 (x y : double) : double :=
  match x, y with
  | DNaN, _ | _, DNaN | DInf _, DInf _ => DNaN
  | DInf s, DFin q => DInf (xorb s (negative q))
  | DFin _, DInf _ => DFin 0
  | DFin p, DFin q =>
      if is_zero q then (if is_zero p then DNaN else DInf (negative p)) else round64 (p / q)
  end.
Definition mul64 (x y : double) : double :=
  match x, y with
  | DNaN, _ | _, DNaN => DNaN
  | DInf s, DInf t => DInf (xorb s t)
  | DInf s, DFin q | DFin q, DInf s => if is_zero q then DNaN else DInf (xorb s (negative q))
  | DFin p, DFin q => round64 (p * q)
  end.
Definition is_nan (x : double) : bool := match x with DNaN => true | _ => false end.
(** [x < y] *)
Definition lt64 (x y : double) : bool :=
  match x, y with
  | DNaN, _ | _, DNaN => false
  | DFin p, DFin q => negb (Qle_bool q p)
  | DInf s, DInf t => s && negb t
  | DInf s, DFin _ => s
  | DFin _, DInf t => negb t
  end.
Definition add64 (x y : double) : double :=
  match x, y with
  | DNaN, _ | _, DNaN => DNaN
  | DInf s, DInf t => if Bool.eqb s t then DInf s else DNaN
  | DInf s, DFin _ | DFin _, DInf s => DInf s
  | DFin p, DFin q => round64 (p + q)
  end.
Definition sub64 (x y : double) : double := add64 x (negate y).
(** [x >= y] *)
Definition ge64 (x y : double) : bool := negb (is_nan x) && negb (is_nan y) && negb (lt64 x y).
Definition is_integer64 (x : double) : bool := match x with DFin q => bool_decide (Qnum q mod Zpos (Qden q) = 0) | _ => false end.
Definition round_Q (q : Q) : Z := Qfloor (q + 1 / 2).
Definition math_floor (x : double) : double := match x with DFin q => DFin (inject_Z (Qfloor q)) | _ => x end.
Definition math_ceil (x : double) : double := match x with DFin q => DFin (inject_Z (Qceiling q)) | _ => x end.
Definition is_finite (x : double) : bool := match x with DFin _ => true | _ => false end.
Definition math_round (x : double) : double := match x with DFin q => DFin (inject_Z (round_Q q)) | _ => x end.

(** ** [Number(s)] *)

Definition digit_in (base : Z) (c : ascii) : option Z :=
  let d := if is_digit c then code c - 48 else code (lower_char c) - 87 in
  if (is_digit c || in_range 97 122 (lower_char c)) && (d <? base) then Some d else None.
Definition digits_in (base : Z) (l : list ascii) : option Z :=
  match l with
  | [] => None
  | _ => foldl (λ acc c, a ← acc; d ← digit_in base c; Some (a * base + d)) (Some 0) l
  end.
(** An optional exponent, up to the end. *)
Definition exponent_part (l : list ascii) : option Z :=
  match l with
  | [] => Some 0
  | c :: l' =>
      if decide (lower_char c = "e"%char) then
        match l' with
        | "-"%char :: ds => Z.opp <$> digits_in 10 ds
        | "+"%char :: ds => digits_in 10 ds
        | ds => digits_in 10 ds
        end
      else None
  end.
(** Digits with an optional point and exponent. *)
Definition unsigned_decimal (l : list ascii) : option Q :=
  let whole := take_while is_digit l in
  let rest := drop_while is_digit l in
  let '(frac, rest) :=
    match rest with
    | "."%char :: r => (take_while is_digit r, drop_while is_digit r)
    | _ => ([], rest)
    end in
  match whole ++ frac with
  | [] => None
  | ds =>
      e ← exponent_part rest;
      let k := e - Z.of_nat (length frac) in
      Some (digits_value 0 ds * 10 ^ Z.max k 0 # Z.to_pos (10 ^ Z.max (- k) 0))
  end.
Definition unsigned (l : list ascii) : double :=
  if decide (l = chars "Infinity") then DInf false
  else match unsigned_decimal l with Some q => round64 q | None => DNaN end.
Definition based (base : Z) (l : list ascii) : double :=
  match digits_in base l with Some n => of_Z n | None => DNaN end.
Definition Number (s : string) : double :=
  match trim_chars (chars s) with
  | [] => DFin 0
  | ("0"%char :: c :: ds) as l =>
      if decide (lower_char c = "x"%char) then based 16 ds
      else if decide (lower_char c = "o"%char) then based 8 ds
      else if decide (lower_char c = "b"%char) then based 2 ds
      else unsigned l
  | "-"%char :: l => negate (unsigned l)
  | "+"%char :: l => unsigned l
  | l => unsigned l
  end.

(** The value of the literal [0.2]. *)
Definition fifth : Q := 3602879701896397 # 18014398509481984.
Example number_1 : Number " 17280 " = DFin 17280. Proof. vm_compute. reflexivity. Qed.
Example number_2 : Number "0.2" = DFin fifth. Proof. vm_compute. reflexivity. Qed.
Example number_3 : Number "1e3" = DFin 1000. Proof. vm_compute. reflexivity. Qed.
Example number_4 : Number "-0x10" = DNaN. Proof. vm_compute. reflexivity. Qed.
Example number_5 : Number "9007199254740993" = DFin 9007199254740992. Proof. vm_compute. reflexivity. Qed.
Example number_6 : Number "1e309" = DInf false. Proof. vm_compute. reflexivity. Qed.
Example number_7 : Number "" = DFin 0. Proof. vm_compute. reflexivity. Qed.
Example number_8 : Number "1 2" = DNaN. Proof. vm_compute. reflexivity. Qed.
Example number_9 : Number ".5" = DFin (1 # 2). Proof. vm_compute. reflexivity. Qed.
(** Three tenths are a little less than one and a half fifths. *)
Example three_tenths : div64 (div64 (DFin 300) (DFin 1000)) (DFin fifth) = DFin (6755399441055743 # 4503599627370496).
Proof. vm_compute. reflexivity. Qed.

(** ** Rounding: lemmas *)

Lemma up_pos e : 0 < up e. Proof. unfold up. apply Z.pow_pos_nonneg; lia. Qed.
Lemma down_pos e : 0 < down e. Proof. unfold down. apply Z.pow_pos_nonneg; lia. Qed.
#[local] Hint Resolve up_pos down_pos : core.
Lemma up_down x y : x <= y → up y * down x = 2 ^ (y - x) * (up x * down y).
Proof.
  intros. unfold up, down. rewrite <-!Z.pow_add_r by lia. f_equal. lia.
Qed.
Lemma up_0 e : e <= 0 → up e = 1. Proof. intros. unfold up. by rewrite Z.max_r by lia. Qed.
Lemma down_neg e : e <= 0 → down e = 2 ^ (- e). Proof. intros. unfold down. by rewrite Z.max_l by lia. Qed.

Lemma round_half_even_near n d : 0 < d → 2 * Z.abs (round_half_even n d * d - n) <= d.
Proof.
  intros. unfold round_half_even. pose proof (Z.div_mod n d). pose proof (Z.mod_pos_bound n d).
  destruct (Z.compare_spec (2 * (n mod d)) d); [destruct (Z.even _)|..]; nia.
Qed.
Lemma round_half_even_closest n d m : 0 < d → 2 * Z.abs (m * d - n) < d → round_half_even n d = m.
Proof. intros Hd Hm. pose proof (round_half_even_near n d Hd). nia. Qed.
Lemma round_half_even_exact d m : 0 < d → round_half_even (m * d) d = m.
Proof. intros. apply round_half_even_closest; [done|]. rewrite Z.sub_diag. lia. Qed.

Lemma exponent_spec n d : 0 < n → 0 < d → let e := exponent n d in d * up e <= n * down e < 2 * (d * up e).
Proof.
  intros Hn Hd. unfold exponent. set (e := Z.log2 n - Z.log2 d).
  assert (Hk : ∃ k, 0 <= k ∧ 2 ^ k <= n * down e < 2 ^ (k + 1) ∧ 2 ^ k <= d * up e < 2 ^ (k + 1)).
  { pose proof (Z.log2_spec n Hn). pose proof (Z.log2_spec d Hd). pose proof (Z.log2_nonneg n). pose proof (Z.log2_nonneg d).
    exists (Z.max (Z.log2 n) (Z.log2 d)). rewrite <-!Z.add_1_r in *. unfold up, down. split; [lia|].
    assert (Ha : Z.max (Z.log2 n) (Z.log2 d) = Z.log2 n + Z.max (- e) 0) by (unfold e; lia).
    assert (Hb : Z.max (Z.log2 n) (Z.log2 d) = Z.log2 d + Z.max e 0) by (unfold e; lia).
    split; [rewrite Ha; replace (_ + _ + 1) with ((Z.log2 n + 1) + Z.max (- e) 0) by lia|
            rewrite Hb; replace (_ + _ + 1) with ((Z.log2 d + 1) + Z.max e 0) by lia];
      rewrite !Z.pow_add_r by lia; rewrite Z.pow_add_r in * by lia; pose proof (up_pos e); pose proof (down_pos e);
      unfold up, down in *; nia. }
  destruct Hk as (k & Hk & Hnk & Hdk). rewrite Z.pow_add_r in * by lia.
  destruct (Z.leb_spec (d * up e) (n * down e)) as [Hle|Hlt]; simpl; [lia|].
  pose proof (up_down (e - 1) e ltac:(lia)) as Hud. replace (e - (e - 1)) with 1 in Hud by lia.
  pose proof (up_pos e). pose proof (down_pos e). pose proof (up_pos (e - 1)). pose proof (down_pos (e - 1)).
  change (2 ^ 1) with 2 in *. split.
  - apply (Z.mul_le_mono_pos_r _ _ (2 * down e)); [lia|].
    replace (d * up (e - 1) * (2 * down e)) with (d * up e * down (e - 1)) by (rewrite <-Z.mul_assoc, Hud; ring). nia.
  - apply (Z.mul_lt_mono_pos_r (down e)); [lia|].
    replace (2 * (d * up (e - 1)) * down e) with (d * up e * down (e - 1)) by (rewrite <-Z.mul_assoc, Hud; ring). nia.
Qed.
(** Bounds of the exponent from bounds of the number. *)
Lemma exponent_le n d k : 0 < n → 0 < d → n * down k < d * up k → exponent n d < k.
Proof.
  intros Hn Hd Hk. destruct (exponent_spec n d Hn Hd) as [He _]. set (e := exponent n d) in *.
  destruct (Z.lt_ge_cases e k) as [?|Hge]; [done|exfalso].
  pose proof (up_down k e Hge) as Hud. assert (1 <= 2 ^ (e - k)) by (apply (Z.pow_le_mono_r 2 0); lia).
  pose proof (up_pos k). pose proof (down_pos k). pose proof (up_pos e). pose proof (down_pos e).
  assert (d * up e * down k <= n * down e * down k) by nia.
  assert (n * down k * down e < d * up k * down e) by nia.
  assert (d * (up e * down k) = 2 ^ (e - k) * (d * (up k * down e))) by (rewrite Hud; ring). nia.
Qed.
Lemma exponent_ge n d k : 0 < n → 0 < d → d * up k <= n * down k → k <= exponent n d.
Proof.
  intros Hn Hd Hk. destruct (exponent_spec n d Hn Hd) as [_ He]. set (e := exponent n d) in *.
  destruct (Z.le_gt_cases k e) as [?|Hlt]; [done|exfalso].
  pose proof (up_down e k ltac:(lia)) as Hud. assert (2 <= 2 ^ (k - e)) by (apply (Z.pow_le_mono_r 2 1); lia).
  pose proof (up_pos k). pose proof (down_pos k). pose proof (up_pos e). pose proof (down_pos e).
  assert (n * down e * down k < 2 * (d * up e) * down k) by nia.
  assert (d * up k * down e <= n * down k * down e) by nia.
  assert (d * (up k * down e) = 2 ^ (k - e) * (d * (up e * down k))) by (rewrite Hud; ring). nia.
Qed.

(** A number in the normal range keeps 53 digits. *)
Lemma round_pos_normal n d : 0 < n → 0 < d → -1000 <= exponent n d < 1000 →
  let u := exponent n d - 52 in let m := round_half_even (n * down u) (d * up u) in
  round_pos n d = DFin (Qred (m * up u # Z.to_pos (down u))) ∧ 0 < m ∧
  2 ^ 53 * Z.abs (m * (d * up u) - n * down u) <= n * down u.
Proof.
  intros Hn Hd He. destruct (exponent_spec n d Hn Hd) as [Hlo Hhi]. set (e := exponent n d) in *. intros u m.
  pose proof (up_pos u) as Hup. pose proof (down_pos u) as Hdp. pose proof (up_pos e). pose proof (down_pos e).
  pose proof (up_down u e ltac:(lia)) as Hud. replace (e - u) with 52 in Hud by lia.
  assert (Hlow : 2 ^ 52 * (d * up u) <= n * down u).
  { apply (Z.mul_le_mono_pos_r _ _ (down e)); [done|].
    replace (2 ^ 52 * (d * up u) * down e) with (d * up e * down u) by (rewrite <-Z.mul_assoc, Hud; ring). nia. }
  assert (Hhigh : n * down u < 2 ^ 53 * (d * up u)).
  { apply (Z.mul_lt_mono_pos_r (down e)); [done|].
    replace (2 ^ 53 * (d * up u) * down e) with (2 * (d * up e) * down u) by (rewrite <-!Z.mul_assoc, Hud; ring). nia. }
  pose proof (round_half_even_near (n * down u) (d * up u)) as Hm. fold m in Hm.
  assert (HD : 0 < d * up u) by nia. specialize (Hm HD).
  assert (Hmlo : 0 < m) by nia. assert (Hmhi : m <= 2 ^ 53) by nia.
  split; [|split; [done|nia]].
  unfold round_pos. replace (last_place n d) with u by (unfold last_place; fold e; lia). fold m.
  destruct (Z.leb_spec (2 ^ 1024) (m * up u)) as [Hover|]; [exfalso|done].
  assert (up u <= 2 ^ 947) by (unfold up; apply Z.pow_le_mono_r; lia).
  assert (m * up u <= 2 ^ 53 * 2 ^ 947) by nia. rewrite <-Z.pow_add_r in * by lia.
  assert (2 ^ (53 + 947) < 2 ^ 1024) by (apply Z.pow_lt_mono_r; lia). lia.
Qed.

(** [q] is [x] up to one part in [2 ^ 53]. *)
Definition near (q x : Q) : Prop := (Qabs (q - x) * inject_Z (2 ^ 53) <= x)%Q.
#[global] Instance near_proper : Proper (Qeq ==> Qeq ==> iff) near.
Proof. intros q q' Hq x x' Hx. unfold near. by rewrite Hq, Hx. Qed.

Lemma Qmake_Zdiv a b : 0 < b → (a # Z.to_pos b == inject_Z a / inject_Z b)%Q.
Proof. intros. rewrite Qmake_Qdiv, Z2Pos.id by done. reflexivity. Qed.
Lemma inject_pos z : 0 < z → ~ inject_Z z == 0.
Proof. intros H E. unfold Qeq in E. simpl in E. lia. Qed.

Lemma near_fraction m a b n d : 0 < a → 0 < b → 0 < d →
  2 ^ 53 * Z.abs (m * (d * a) - n * b) <= n * b →
  near (m * a # Z.to_pos b) (n # Z.to_pos d).
Proof.
  intros Ha Hb Hd H. unfold near. rewrite Qabs_Qminus. unfold Qminus, Qopp, Qplus, Qabs, Qmult, Qle, inject_Z. simpl.
  rewrite !Pos2Z.inj_mul, !Z2Pos.id by lia.
  assert (Z.abs (n * b + - (m * a) * d) = Z.abs (m * (d * a) - n * b)) as -> by (rewrite <-Z.abs_opp; f_equal; ring). nia.
Qed.
Lemma round64_near x : (1 # 2 ^ 100 <= x <= inject_Z (2 ^ 100))%Q → ∃ q, round64 x = DFin q ∧ near q x ∧ (0 < q)%Q.
Proof.
  destruct x as [n d]. intros [Hlo Hhi]. unfold Qle in *. cbn [Qnum Qden inject_Z] in *.
  assert (Hn : 0 < n) by lia.
  destruct (round_pos_normal n (Z.pos d) Hn eq_refl) as (Hr & Hm & Herr).
  { assert (H1 : (2 ^ 100)%Z = 1267650600228229401496703205376) by reflexivity. rewrite H1 in *.
    assert (H2 : Z.pos (2 ^ 100) = 1267650600228229401496703205376) by reflexivity. rewrite H2 in *.
    split.
    - transitivity (-100); [done|]. apply exponent_ge; [done..|]. change (up (-100)) with 1. change (down (-100)) with 1267650600228229401496703205376. lia.
    - transitivity 101; [|done]. apply exponent_le; [done..|]. change (down 101) with 1. change (up 101) with (2 * 1267650600228229401496703205376). lia. }
  unfold round64. cbn [Qnum Qden]. destruct n as [|n|]; [done| |done].
  rewrite Hr. eexists. split; [done|]. split.
  - rewrite Qred_correct. rewrite <-(Pos2Z.id d). apply near_fraction; [done..|]. by rewrite Pos2Z.id.
  - rewrite Qred_correct. unfold Qlt. simpl. pose proof (up_pos (exponent (Z.pos n) (Z.pos d) - 52)). nia.
Qed.

Lemma Qred_Z z : Qred (inject_Z z) = inject_Z z.
Proof. apply Qcanon.Qred_identity. simpl. by rewrite Z.gcd_1_r. Qed.
(** Halves are doubles. *)
Lemma round64_half M x : 0 < M < 2 ^ 53 → (x == M # 2)%Q → round64 x = DFin (Qred x).
Proof.
  intros HM Hx. destruct x as [n d]. unfold Qeq in Hx. cbn [Qnum Qden] in Hx.
  assert (Hn : 0 < n) by nia. assert (Hd : 0 < Z.pos d) by done.
  assert (He : -1 <= exponent n (Z.pos d) < 52).
  { split; [apply exponent_ge; [done..|]; change (up (-1)) with 1; change (down (-1)) with 2; nia|].
    apply exponent_le; [done..|]. change (up 52) with (2 ^ 52). change (down 52) with 1.
    assert (2 ^ 53 = 2 * 2 ^ 52) by reflexivity. nia. }
  destruct (round_pos_normal n (Z.pos d) Hn Hd) as (Hr & _); [lia|]. cbv zeta in Hr.
  set (u := exponent n (Z.pos d) - 52) in *. rewrite (up_0 u), (down_neg u) in Hr by lia.
  assert (Hp : 2 ^ (- u) = 2 * 2 ^ (- u - 1)) by (rewrite <-Z.pow_succ_r by lia; f_equal; lia).
  assert (Hpp : 0 < 2 ^ (- u - 1)) by (apply Z.pow_pos_nonneg; lia).
  assert (Hex : round_half_even (n * 2 ^ (- u)) (Z.pos d * 1) = M * 2 ^ (- u - 1)).
  { replace (n * 2 ^ (- u)) with (M * 2 ^ (- u - 1) * (Z.pos d * 1)) by (rewrite Hp; nia). apply round_half_even_exact. lia. }
  rewrite Hex in Hr. unfold round64. cbn [Qnum Qden]. destruct n as [|n|]; [done| |done]. rewrite Hr. f_equal.
  apply Qred_complete. unfold Qeq. cbn [Qnum Qden]. rewrite Z2Pos.id by lia. nia.
Qed.
Lemma of_Z_small n : 0 <= n < 2 ^ 52 → of_Z n = DFin (inject_Z n).
Proof.
  intros Hn. destruct (decide (n = 0)) as [->|]; [done|]. unfold of_Z. rewrite (round64_half (2 * n)).
  - by rewrite Qred_Z.
  - assert (2 ^ 53 = 2 * 2 ^ 52) by reflexivity. lia.
  - unfold Qeq. simpl. lia.
Qed.
(** The literal [0.2] is not a fifth, but an integer divided by it is its
    fivefold exactly: the error is below half a unit in the last place. *)
Lemma div_fifth x : 0 < x → 5 * x <= 2 ^ 53 →
  div64 (DFin (inject_Z x)) (DFin fifth) = DFin (inject_Z (5 * x)).
Proof.
  intros Hx H5. set (D := 3602879701896397). assert (HD : 5 * D = 2 ^ 54 + 1) by reflexivity.
  set (n := x * 2 ^ 54).
  assert (Hdiv : div64 (DFin (inject_Z x)) (DFin fifth) = round_pos n D).
  { destruct x as [|x|]; [done| |done]. reflexivity. }
  rewrite Hdiv. assert (Hn : 0 < n) by (unfold n; nia). assert (Hd : 0 < D) by done.
  assert (H54 : 2 ^ 54 = 18014398509481984) by reflexivity. assert (H53 : 2 ^ 53 = 9007199254740992) by reflexivity.
  assert (He : 2 <= exponent n D < 53).
  { split; [apply exponent_ge; [done..|]; change (up 2) with 4; change (down 2) with 1; unfold n; lia|].
    apply exponent_le; [done..|]. change (up 53) with (2 ^ 53). change (down 53) with 1. unfold n. rewrite H53, H54 in *. lia. }
  destruct (exponent_spec n D Hn Hd) as [_ Hhi]. destruct (round_pos_normal n D Hn Hd) as (Hr & _); [lia|]. cbv zeta in Hr.
  set (e := exponent n D) in *. set (u := e - 52) in *. pose proof (up_down u e ltac:(lia)) as Hud.
  replace (e - u) with 52 in Hud by lia. rewrite (up_0 u) in Hud, Hr by lia. rewrite (down_neg u) in Hud, Hr by lia.
  set (P := 2 ^ (- u)) in *. assert (HP : 0 < P) by (apply Z.pow_pos_nonneg; lia). pose proof (down_pos e) as Hde.
  assert (Hex : round_half_even (n * P) (D * 1) = 5 * x * P).
  { apply round_half_even_closest; [lia|].
    assert (5 * x * P * (D * 1) - n * P = x * P) as -> by (unfold n; nia).
    rewrite Z.abs_eq by nia. rewrite Z.mul_1_r. apply (Z.mul_lt_mono_pos_r (2 ^ 53 * down e)); [lia|].
    assert (E : D * (2 ^ 53 * down e) = 2 * (D * up e) * P).
    { transitivity (2 * D * (up e * P)); [rewrite Hud|]; [|ring]. replace (2 ^ 53) with (2 * 2 ^ 52) by reflexivity. ring. }
    rewrite E. replace (2 * (x * P) * (2 ^ 53 * down e)) with (n * down e * P) by (unfold n; replace (2 ^ 54) with (2 * 2 ^ 53) by reflexivity; ring).
    nia. }
  rewrite Hex in Hr. rewrite Hr. f_equal. rewrite <-(Qred_Z (5 * x)). apply Qred_complete.
  unfold Qeq. cbn [Qnum Qden inject_Z]. rewrite Z2Pos.id by done. ring.
Qed.

(** Rounding [k q] for a double [q] near the fraction [s / d]: the error of the
    double is too small to matter. *)
Lemma round_scaled k s d q : 0 <= k → 0 < s → 0 < d → 2 * k * s < 2 ^ 53 → near q (s # Z.to_pos d) →
  2 * Z.abs (Qfloor (inject_Z k * q + 1 / 2) * d - k * s) <= d.
Proof.
  intros Hk Hs Hd Hb Hn.
  pose proof (Qfloor_le (inject_Z k * q + 1 / 2)) as Hlo. pose proof (Qlt_floor (inject_Z k * q + 1 / 2)) as Hhi.
  revert Hlo Hhi. generalize (Qfloor (inject_Z k * q + 1 / 2)). intros n Hlo Hhi.
  destruct q as [a b]. unfold near, Qle, Qlt, Qabs, Qminus, Qplus, Qmult, Qopp, Qdiv, inject_Z in *. cbn in Hn, Hlo, Hhi.
  rewrite ?Pos2Z.inj_mul, ?Pos.mul_1_r, ?Z.mul_1_r, ?Z2Pos.id in * by lia. cbn in Hn, Hlo, Hhi.
  set (B := Z.pos b) in *. assert (HB : 0 < B) by done.
  assert (H53 : 9007199254740992 = 2 ^ 53) by reflexivity.
  assert (Habs : Z.abs (a * d + - s * B) * 2 ^ 53 <= s * B) by nia.
  assert (Herr : 2 * k * Z.abs (a * d + - s * B) < B).
  { apply (Z.mul_lt_mono_pos_r (2 ^ 53)); [done|].
    pose proof (Z.mul_le_mono_nonneg_l _ _ (2 * k) ltac:(lia) Habs). pose proof (proj1 (Z.mul_lt_mono_pos_r B _ _ HB) Hb).
    set (X := Z.abs _) in *. lia. }
  assert (n * (B * 2) <= (k * a) * 2 + B) by lia. assert ((k * a) * 2 + B < (n + 1) * (B * 2)) by lia.
  clear Hn Hlo Hhi Habs. set (X := a * d + - s * B) in *.
  assert (Hka : k * a * d = k * s * B + k * X) by (unfold X; ring).
  assert (- B < 2 * (k * X) < B) by nia. clearbody X.
  assert (B * (2 * (n * d) - 2 * (k * s) - d) < B * 1) by nia.
  assert (B * (2 * (k * s) - 2 * (n * d) - d) < B * 1) by nia. nia.
Qed.

(** A bound on a multiple of an absolute value is two linear bounds. *)
Lemma Qabs_le_iff a c y : (0 <= c)%Q → (Qabs a * c <= y)%Q ↔ (a * c <= y)%Q ∧ (- a * c <= y)%Q.
Proof.
  intros Hc. split.
  - intros H. split; (eapply Qle_trans; [|exact H]; apply Qmult_le_compat_r; [|done]).
    + apply Qle_Qabs.
    + rewrite <-Qabs_opp. apply Qle_Qabs.
  - intros [H1 H2]. apply Qabs_case; intros _; done.
Qed.

(** ** Integers *)

Definition isSafeInteger (x : double) : bool :=
  match x with DFin q => is_integer64 x && (Z.abs (Qnum q) <? 2 ^ 53 * Zpos (Qden q)) | _ => false end.

Lemma of_Z_opp n : 0 < n → of_Z (- n) = negate (of_Z n).
Proof. by destruct n. Qed.
Lemma round_half_even_ge n d k : 0 < d → k * d <= n → k <= round_half_even n d.
Proof. intros Hd Hk. pose proof (round_half_even_near n d Hd). nia. Qed.
Lemma round64_Z n : 0 < n → of_Z n = round_pos n 1.
Proof. by destruct n. Qed.
(** Integers below [2 ^ 53] are doubles. *)
Lemma of_Z_exact n : 0 <= n < 2 ^ 53 → of_Z n = DFin (inject_Z n).
Proof.
  intros [Hn Hb]. destruct (decide (n = 0)) as [->|Hne]; [done|]. assert (Hp : 0 < n) by lia.
  rewrite round64_Z by done. assert (He : 0 <= exponent n 1 < 53).
  { split; [apply exponent_ge; [done..|]; change (up 0) with 1; change (down 0) with 1; lia|].
    apply exponent_le; [done..|]. change (up 53) with (2 ^ 53). change (down 53) with 1. lia. }
  destruct (round_pos_normal n 1 Hp eq_refl) as (Hr & _); [lia|]. cbv zeta in Hr.
  set (u := exponent n 1 - 52) in *. rewrite (up_0 u), (down_neg u) in Hr by lia.
  assert (Hpp : 0 < 2 ^ (- u)) by (apply Z.pow_pos_nonneg; lia).
  rewrite Z.mul_1_r in Hr. replace (n * 2 ^ (- u)) with ((n * 2 ^ (- u)) * 1) in Hr by lia.
  rewrite round_half_even_exact in Hr by done. rewrite Hr. f_equal. rewrite <-(Qred_Z n). apply Qred_complete.
  unfold Qeq. cbn [Qnum Qden inject_Z]. rewrite Z2Pos.id by lia. lia.
Qed.
Lemma isSafeInteger_negate x : isSafeInteger (negate x) = isSafeInteger x.
Proof.
  destruct x as [| |q]; [done..|]. simpl negate. unfold isSafeInteger, is_integer64.
  assert (Hq : ∀ p r : Q, (p == r)%Q → (bool_decide (Qnum p mod Zpos (Qden p) = 0) && (Z.abs (Qnum p) <? 2 ^ 53 * Zpos (Qden p))) =
    (bool_decide (Qnum r mod Zpos (Qden r) = 0) && (Z.abs (Qnum r) <? 2 ^ 53 * Zpos (Qden r)))).
  { intros [a b] [c d] E. unfold Qeq in E. cbn [Qnum Qden] in *. f_equal.
    - apply bool_decide_ext. rewrite !Z.mod_divide by done. split; intros [k Hk]; exists k; nia.
    - apply Bool.eq_iff_eq_true. rewrite !Z.ltb_lt. nia. }
  rewrite (Hq _ (- q)%Q) by apply Qred_correct. destruct q as [a b]. cbn [Qopp Qnum Qden]. f_equal.
  - apply bool_decide_ext. rewrite !Z.mod_divide by done. split; intros [k Hk]; exists (- k); lia.
  - by rewrite Z.abs_opp.
Qed.
Lemma round_pos_large n : 2 ^ 53 <= n → isSafeInteger (round_pos n 1) = false.
Proof.
  intros Hn. assert (Hp : 0 < n) by (assert (0 < 2 ^ 53) by done; lia).
  assert (He : 53 <= exponent n 1).
  { apply exponent_ge; [done..|]. change (up 53) with (2 ^ 53). change (down 53) with 1. lia. }
  unfold round_pos. set (u := last_place n 1). assert (Hu : u = exponent n 1 - 52) by (unfold u, last_place; lia).
  assert (Hd : down u = 1) by (unfold down; by rewrite Z.max_r by lia).
  destruct (Z.leb_spec (2 ^ 1024) (round_half_even (n * down u) (1 * up u) * up u)); [done|]. rewrite Hd, !Z.mul_1_l, !Z.mul_1_r.
  assert (Hup : up u = 2 ^ u) by (unfold up; by rewrite Z.max_l by lia).
  destruct (exponent_spec n 1 Hp eq_refl) as [Hlo _]. unfold down in Hlo. rewrite Z.max_r, Z.mul_1_l, Z.mul_1_r in Hlo by lia.
  assert (Hupe : up (exponent n 1) = 2 ^ 52 * 2 ^ u) by (unfold up; rewrite Z.max_l by lia; rewrite <-Z.pow_add_r by lia; f_equal; lia).
  assert (2 <= 2 ^ u) by (apply (Z.pow_le_mono_r 2 1); lia).
  assert (Hm : 2 ^ 52 <= round_half_even n (up u)) by (apply round_half_even_ge; [done|rewrite Hup, <-Hupe; lia]).
  set (z := round_half_even n (up u) * up u). assert (Hz : 2 ^ 53 <= z).
  { unfold z. rewrite Hup in *. replace (2 ^ 53) with (2 ^ 52 * 2) by done. nia. }
  change (Z.to_pos 1) with 1%positive. change (z # 1)%Q with (inject_Z z). rewrite (Qred_Z z). unfold isSafeInteger, inject_Z. cbn [Qnum Qden].
  apply andb_false_iff. right. apply Z.ltb_ge. lia.
Qed.
Lemma isSafeInteger_of_Z n : isSafeInteger (of_Z n) = true ↔ Z.abs n < 2 ^ 53.
Proof.
  assert (H0 : ∀ n, 0 <= n → isSafeInteger (of_Z n) = true ↔ n < 2 ^ 53).
  { clear n. intros n Hn. destruct (Z.lt_ge_cases n (2 ^ 53)) as [Hlt|Hge].
    - rewrite of_Z_exact by done. unfold isSafeInteger, is_integer64, inject_Z. cbn [Qnum Qden].
      rewrite Z.mod_1_r. simpl. rewrite Z.ltb_lt. lia.
    - rewrite round64_Z, round_pos_large by (assert (0 < 2 ^ 53) by done; lia). split; [done|lia]. }
  destruct (Z.le_gt_cases 0 n) as [Hn|Hn]; [rewrite Z.abs_eq by done; by apply H0|].
  rewrite Z.abs_neq by lia. replace n with (- - n) at 1 by lia. rewrite of_Z_opp, isSafeInteger_negate by lia. apply H0. lia.
Qed.

(** ** Reading back the text of an integer *)

Lemma take_drop_digits l : forallb is_digit l = true → take_while is_digit l = l ∧ drop_while is_digit l = [].
Proof.
  induction l as [|c l IH]; [done|]. simpl. intros [Hc Hl]%andb_true_iff. destruct (IH Hl) as [Ht Hd]. by rewrite Hc, Ht, Hd.
Qed.
Lemma double_digits_plain l : forallb is_digit l = true → forallb plain l = true.
Proof. rewrite !forallb_forall. intros Hl c Hc. specialize (Hl c Hc). unfold is_digit, plain, in_range in *. lia. Qed.
Lemma trim_chars_plain l : forallb plain l = true → trim_chars l = l.
Proof.
  intros Hl. pose proof (trim_plain (of_chars l)) as H. rewrite chars_of_chars in H. specialize (H Hl).
  unfold trim in H. apply (f_equal chars) in H. by rewrite !chars_of_chars in H.
Qed.
Lemma unsigned_digits l : forallb is_digit l = true → l ≠ [] → unsigned l = of_Z (digits_value 0 l).
Proof.
  intros Hl Hne. unfold unsigned. rewrite decide_False by (intros ->; discriminate Hl).
  unfold unsigned_decimal. destruct (take_drop_digits l Hl) as [-> ->]. rewrite app_nil_r.
  destruct l as [|c l]; [done|]. cbn [exponent_part mbind option_bind length Z.of_nat]. change (0 - 0) with 0.
  change (10 ^ Z.max 0 0) with 1. by rewrite Z.mul_1_r.
Qed.
Lemma Number_digits l : forallb is_digit l = true → l ≠ [] → Number (of_chars l) = of_Z (digits_value 0 l).
Proof.
  intros Hl Hne. rewrite <-unsigned_digits by done. unfold Number. rewrite chars_of_chars, trim_chars_plain by by apply double_digits_plain.
  destruct l as [|c l]; [done|]. simpl in Hl. apply andb_true_iff in Hl as [Hc Hl].
  assert (Hnot : ∀ c', is_digit c' = true → lower_char c' ≠ "x"%char ∧ lower_char c' ≠ "o"%char ∧ lower_char c' ≠ "b"%char).
  { clear. intros c' Hd. assert (lower_char c' = c') as ->.
    { unfold lower_char. assert (is_upper c' = false) as ->; [|done]. unfold is_digit, is_upper, in_range in *. lia. }
    split_and!; intros ->; discriminate Hd. }
  destruct c as [[] [] [] [] [] [] [] []]; try discriminate Hc; cbv iota; try done.
  destruct l as [|c' l]; [done|]. apply andb_true_iff in Hl as [Hc' _]. destruct (Hnot c' Hc') as (H1 & H2 & H3).
  by rewrite !decide_False by done.
Qed.
Lemma chars_negative n : 0 < n → chars (Z_to_string (- n)) = "-"%char :: chars (Z_to_string n).
Proof. intros Hn. destruct n as [|p|]; [lia| |lia]. unfold Z_to_string, chars. simpl. by destruct (Pos.to_uint p). Qed.
Lemma Number_Z n : Number (Z_to_string n) = of_Z n.
Proof.
  destruct (Z.le_gt_cases 0 n) as [Hn|Hn].
  - destruct (chars_Z_to_string n Hn) as (Hd & Hv & Hne). rewrite <-(of_chars_chars (Z_to_string n)), Number_digits, Hv; done.
  - assert (Hp : 0 < - n) by lia. destruct (chars_Z_to_string (- n) ltac:(lia)) as (Hd & Hv & Hne).
    replace n with (- - n) by lia. rewrite of_Z_opp by done. unfold Number. rewrite chars_negative by done.
    rewrite trim_chars_plain by (apply andb_true_iff; split; [done|by apply double_digits_plain]).
    cbv iota. by rewrite unsigned_digits, Hv.
Qed.

(** Small integers add and multiply exactly. *)
Lemma add64_Z a b : 0 <= a + b < 2 ^ 53 → add64 (DFin (inject_Z a)) (DFin (inject_Z b)) = DFin (inject_Z (a + b)).
Proof.
  intros Hab. rewrite <-(of_Z_exact (a + b)) by done. unfold add64. change (inject_Z a + inject_Z b)%Q with (inject_Z (a * 1 + b * 1)).
  by rewrite !Z.mul_1_r.
Qed.
Lemma mul64_Z a b : 0 <= a * b < 2 ^ 53 → mul64 (DFin (inject_Z a)) (DFin (inject_Z b)) = DFin (inject_Z (a * b)).
Proof. intros Hab. by rewrite <-(of_Z_exact (a * b)) by done. Qed.
