(* ===== verification/Wizard.v ===== *)
(** * The wizard that creates a stream

    [frontend/src/wizard]: the state of [useWizard.ts] with its location hash,
    the schemas, and the guards of the steps [StepRecipient.tsx],
    [StepSelectToken.tsx], [StepSchedule.tsx] and [StepReview.tsx] as
    [CreateStreamWizard.tsx] puts them together.  A step of the model is one
    event of the page: an input, a click, a hash change by the user, the
    delivery of a [hashchange] event, the timer of the submission.  Numbers are
    those of [Double].  Styling, texts and the balance hints are left out. *)
From Stdlib Require Import QArith Qabs Qround Lqa.
From stdpp Require Import list gmap strings.
From S2P Require Import Prelude Digits Double LedgerTime.
#[local] Open Scope Z_scope.

(** ** Data and schemas *)

Definition WIZARD_STEPS : list string := ["recipient"; "token"; "schedule"; "review"].
Record WizardFormData := FormData {
  recipient : string;
  tokenAddress : string;
  tokenSymbol : string;
  rate : string;
  cliffDuration : string;
  totalDuration : string;
  walletAddress : string }.
Definition INITIAL_DATA : WizardFormData := FormData "" "" "" "" "" "" "".

(** An issue is the field it is filed under and its message; a check that fails
    does not keep the others from running. *)
Notation issue := (string * string)%type.
Definition check (ok : bool) (path message : string) : list issue := if ok then [] else [(path, message)].

Definition recipientSchema (r : string) : list issue :=
  check (truthy r) "recipient" "Recipient address is required" ++
  check (stellar_address_re r) "recipient" "Must be a valid Stellar address starting with G (56 characters)".
Definition tokenSchema (address symbol : string) : list issue :=
  check (truthy address) "tokenAddress" "Token contract address is required" ++
  check (contract_address_re address) "tokenAddress" "Must be a valid SAC contract address starting with C (56 characters)" ++
  check (truthy symbol) "tokenSymbol" "String must contain at least 1 character(s)".
Definition positive_number (v : string) : bool := negb (is_nan (Number v)) && lt64 (DFin 0) (Number v).
Definition scheduleSchema (rate cliff total : string) : list issue :=
  check (truthy rate) "rate" "Rate is required" ++
  check (is_integer64 (Number rate) && lt64 (DFin 0) (Number rate)) "rate" "Rate must be a positive integer" ++
  check (truthy cliff) "cliffDuration" "Cliff duration is required" ++
  check (positive_number cliff) "cliffDuration" "Cliff must be a positive number" ++
  check (truthy total) "totalDuration" "Total duration is required" ++
  check (positive_number total) "totalDuration" "Total must be a positive number" ++
  check (lt64 (Number cliff) (Number total)) "cliffDuration" "Cliff duration must be less than total duration".
Definition success (issues : list issue) : bool := bool_decide (issues = []).

(** ** Arithmetic *)

Definition LEDGERS_PER_SECOND : double := DFin fifth.
Definition I128_MAX : Z := 170141183460469231731687303715884105727.

Section numbers.
(** The text of a number from [1e21] on, which has an exponent. *)
Context (exponential : Q → string).

(** [`${Math.round(x)}`] *)
Definition rounded_text (x : double) : string :=
  match math_round x with
  | DNaN => "NaN"
  | DInf s => if s then "-Infinity" else "Infinity"
  | DFin q => Z_to_string (Qfloor q)
  end.
(** [x.toFixed(1)]; only positive numbers get here. *)
Definition toFixed1 (x : double) : string :=
  match x with
  | DNaN => "NaN"
  | DInf s => if s then "-Infinity" else "Infinity"
  | DFin q =>
      if Qle_bool (inject_Z (10 ^ 21)) q then exponential q
      else let n := Qfloor (10 * q + 1 / 2) in Z_to_string (n / 10) +:+ "." +:+ Z_to_string (n mod 10)
  end.
Definition ledgersToDuration (ledgers : double) : string :=
  let seconds := div64 ledgers LEDGERS_PER_SECOND in
  let over n := div64 seconds (DFin (inject_Z n)) in
  if lt64 seconds (DFin 60) then rounded_text seconds +:+ "s"
  else if lt64 seconds (DFin 3600) then rounded_text (over 60) +:+ "m"
  else if lt64 seconds (DFin 86400) then rounded_text (over 3600) +:+ "h"
  else if lt64 seconds (DFin (inject_Z (86400 * 30))) then rounded_text (over 86400) +:+ "d"
  else if lt64 seconds (DFin (inject_Z (86400 * 365))) then toFixed1 (over (86400 * 30)) +:+ "mo"
  else toFixed1 (over (86400 * 365)) +:+ "yr".
End numbers.

(** [BigInt] of what is not a finite number throws. *)
Definition BigInt_floor (x : double) : option Z := match x with DFin q => Some (Qfloor q) | _ => None end.
Definition isDepositOverflow (rate totalDuration : double) : bool :=
  let not_positive x := match x with DNaN => false | DInf s => s | DFin q => Qle_bool q 0 end in
  if not_positive rate || not_positive totalDuration then false
  else match BigInt_floor rate, BigInt_floor totalDuration with
       | Some r, Some t => I128_MAX <? r * t
       | _, _ => true
       end.

(** The result is finite because dates are; [Date.parse] is a parameter. *)
Definition dateToLedgers (Date_parse : string → option Z) (now : Z) (value : string) : option Z :=
  ms ← Date_parse value;
  match math_round (div64 (div64 (of_Z (ms - now)) (DFin 1000)) LEDGERS_PER_SECOND) with
  | DFin q => Some (Z.max 1 (Qfloor q))
  | _ => None
  end.

Example duration_sample : map (λ n, ledgersToDuration (λ _, "") (DFin (inject_Z n))) [10; 120; 720; 17280; 518400; 6307200; 719]
  = ["50s"; "10m"; "1h"; "1d"; "1.0mo"; "1.0yr"; "60m"].
Proof. vm_compute. reflexivity. Qed.
Example overflow_sample : isDepositOverflow (DFin 10) (DFin 172800) = false ∧ isDepositOverflow (DInf false) (DFin 1) = true ∧
  isDepositOverflow (DFin (inject_Z (2 ^ 126 + 1))) (DFin 3) = true ∧ isDepositOverflow (DFin 0) (DInf false) = false.
Proof. vm_compute. auto. Qed.

(** ** [useWizard] *)

(** [location.hash] without its first [#]. *)
Definition getStepFromHash (hash : string) : nat :=
  match list_find (λ s, s = hash) WIZARD_STEPS with Some (i, _) => i | None => 0 end.
Definition step_name (i : nat) : string := default "undefined" (WIZARD_STEPS !! i).

(** The state of [StepReview], and [mock] for the hash it shows. *)
Inductive review_state := ReviewIdle | Submitting | Created (txHash : string).
Definition mockHash : string := "a1b2c3d4e5f6a1b2c3d4e5f6a1b2c3d4e5f6a1b2c3d4e5f6a1b2c3d4e5f6a1b2".

(** The hash and the number of [hashchange] events not yet delivered; the state
    of the hook; and of the step component that is mounted: the fields that were
    left, the submission, and a number that tells its instances apart. *)
Record wizard := Wizard {
  hash : string;
  hashchanges : nat;
  stepIndex : nat;
  furthestStep : nat;
  data : WizardFormData;
  touched : gset string;
  blurred : gset string;
  review : review_state;
  instance : nat }.

(** Assigning the hash fires an event if it changes. *)
Definition set_location (s : string) (w : wizard) : wizard :=
  if decide (hash w = s) then w
  else Wizard s (S (hashchanges w)) (stepIndex w) (furthestStep w) (data w) (touched w) (blurred w) (review w) (instance w).
Definition setHash (i : nat) (w : wizard) : wizard := set_location (step_name i) w.
(** The component of another step is mounted afresh. *)
Definition setStepIndex (i : nat) (w : wizard) : wizard :=
  if decide (stepIndex w = i) then w
  else Wizard (hash w) (hashchanges w) i (furthestStep w) (data w) (touched w) ∅ ReviewIdle (S (instance w)).
Definition setFurthest (f : nat) (w : wizard) : wizard :=
  Wizard (hash w) (hashchanges w) (stepIndex w) f (data w) (touched w) (blurred w) (review w) (instance w).
Definition setData (d : WizardFormData) (w : wizard) : wizard :=
  Wizard (hash w) (hashchanges w) (stepIndex w) (furthestStep w) d (touched w) (blurred w) (review w) (instance w).
Definition setFields (t b : gset string) (w : wizard) : wizard :=
  Wizard (hash w) (hashchanges w) (stepIndex w) (furthestStep w) (data w) t b (review w) (instance w).
Definition setReview (r : review_state) (w : wizard) : wizard :=
  Wizard (hash w) (hashchanges w) (stepIndex w) (furthestStep w) (data w) (touched w) (blurred w) r (instance w).

Definition next (w : wizard) : wizard :=
  let nextIdx := Nat.min (stepIndex w + 1) 3 in
  setFurthest (Nat.min (furthestStep w + 1) 3) (setHash nextIdx (setStepIndex nextIdx w)).
Definition back (w : wizard) : wizard :=
  let prevIdx := Nat.pred (stepIndex w) in setHash prevIdx (setStepIndex prevIdx w).
Definition touch (field : string) (w : wizard) : wizard := setFields ({[field]} ∪ touched w) (blurred w) w.
Definition reset (w : wizard) : wizard :=
  setHash 0 (setFields ∅ (blurred w) (setData INITIAL_DATA (setFurthest 0 (setStepIndex 0 w)))).
Definition goToStep (idx : nat) (w : wizard) : wizard := setHash idx (setStepIndex idx w).
(** The first render on a page with this hash, and its effects. *)
Definition mount (h : string) : wizard :=
  let i := getStepFromHash h in setHash i (Wizard h 0 i i INITIAL_DATA ∅ ∅ ReviewIdle 0).

(** ** The steps *)

(** [handleBlur] of every step. *)
Definition handleBlur (field : string) (w : wizard) : wizard :=
  touch field (setFields (touched w) ({[field]} ∪ blurred w) w).
Definition shows_error (field : string) (w : wizard) : bool :=
  bool_decide (field ∈ blurred w) || bool_decide (field ∈ touched w).

Definition recipient_error (w : wizard) : bool :=
  shows_error "recipient" w && negb (success (recipientSchema (recipient (data w)))).
Definition recipient_continue (w : wizard) : bool := truthy (recipient (data w)) && negb (recipient_error w).
Definition token_continue (w : wizard) : bool :=
  success (tokenSchema (tokenAddress (data w)) (tokenSymbol (data w))) && truthy (tokenAddress (data w)).
Definition schedule_ok (d : WizardFormData) : bool := success (scheduleSchema (rate d) (cliffDuration d) (totalDuration d)).
Definition schedule_overflow (d : WizardFormData) : bool :=
  if truthy (rate d) && truthy (totalDuration d) then isDepositOverflow (Number (rate d)) (Number (totalDuration d)) else false.
Definition schedule_continue (d : WizardFormData) : bool := schedule_ok d && negb (schedule_overflow d).
Definition review_overflow (d : WizardFormData) : bool := isDepositOverflow (Number (rate d)) (Number (totalDuration d)).

(** The first six UTF-16 units of a string; a pair that would be cut stays whole. *)
Fixpoint slice_units (n : nat) (l : list ascii) : list ascii :=
  match l with
  | [] => []
  | c :: l' =>
      if in_range 128 191 c then c :: slice_units n l'
      else match n with
           | O => []
           | S n' => c :: slice_units (if 240 <=? code c then Nat.pred n' else n') l'
           end
  end.
Definition slice6 (s : string) : string := of_chars (slice_units 6 (chars s)).

(** A field of the schedule form, a token of the list. *)
Inductive schedule_field := FRate | FCliff | FTotal.
Definition field_name (f : schedule_field) : string :=
  match f with FRate => "rate" | FCliff => "cliffDuration" | FTotal => "totalDuration" end.
Definition update_schedule (f : schedule_field) (v : string) (d : WizardFormData) : WizardFormData :=
  FormData (recipient d) (tokenAddress d) (tokenSymbol d) (if f is FRate then v else rate d)
    (if f is FCliff then v else cliffDuration d) (if f is FTotal then v else totalDuration d) (walletAddress d).
Definition update_recipient (v : string) (d : WizardFormData) : WizardFormData :=
  FormData v (tokenAddress d) (tokenSymbol d) (rate d) (cliffDuration d) (totalDuration d) (walletAddress d).
Definition update_token (address symbol : string) (d : WizardFormData) : WizardFormData :=
  FormData (recipient d) address symbol (rate d) (cliffDuration d) (totalDuration d) (walletAddress d).
Definition PRESETS : list (string * string) :=
  [("USDC", "CBIELTK6YBZJU5UP2WWQEUCYKLPU6AUNZ2BQ4WWFEIE3USCIHMXQDAMA");
   ("XLM", "CDLZFC3SYJYDZT7K67VZ75HPJVIEUVNIXF47ZG2FB2RMQQVU2HHGCYSC")].

(** What the buttons do where they are shown and enabled. *)
Definition next_enabled (w : wizard) : bool :=
  match stepIndex w with
  | 0%nat => recipient_continue w
  | 1%nat => token_continue w
  | 2%nat => schedule_continue (data w)
  | _ => false
  end.
Definition back_enabled (w : wizard) : bool :=
  match stepIndex w with
  | 0%nat => false
  | 3%nat => match review w with ReviewIdle => true | _ => false end
  | _ => true
  end.
(** [submit] up to its [await], and after the timer. *)
Definition submit (w : wizard) : wizard :=
  match stepIndex w, review w with
  | 3%nat, ReviewIdle => if review_overflow (data w) then w else setReview Submitting w
  | _, _ => w
  end.
Definition submit_timer (i : nat) (w : wizard) : wizard :=
  if decide (instance w = i) then
    match review w with Submitting => setReview (Created mockHash) w | _ => w end
  else w.

Inductive event :=
| TypeRecipient (v : string)
| PickToken (i : nat)
| TypeToken (v : string)
| TypeSchedule (f : schedule_field) (v : string)
| LeaveField (field : string)
| ClickNext
| ClickBack
| ClickSubmit
| SubmitTimer (i : nat)
| ClickDone
| UserHash (h : string)
| HashChange.

Definition on_step (i : nat) (f : wizard → wizard) (w : wizard) : wizard := if decide (stepIndex w = i) then f w else w.
Definition fields_of (i : nat) : list string :=
  match i with
  | 0%nat => ["recipient"] | 1%nat => ["tokenAddress"] | 2%nat => field_name <$> [FRate; FCliff; FTotal] | _ => []
  end.
Definition step (e : event) (w : wizard) : wizard :=
  match e with
  | TypeRecipient v => on_step 0 (λ w, setData (update_recipient (trim v) (data w)) w) w
  | PickToken i => on_step 1 (λ w, match PRESETS !! i with Some (s, a) => setData (update_token a s (data w)) w | None => w end) w
  | TypeToken v => on_step 1 (λ w, setData (update_token (trim v) (slice6 (trim v)) (data w)) w) w
  | TypeSchedule f v => on_step 2 (λ w, setData (update_schedule f v (data w)) w) w
  | LeaveField field => if decide (field ∈ fields_of (stepIndex w)) then handleBlur field w else w
  | ClickNext => if next_enabled w then next w else w
  | ClickBack => if back_enabled w then back w else w
  | ClickSubmit => submit w
  | SubmitTimer i => submit_timer i w
  | ClickDone => match stepIndex w, review w with 3%nat, Created _ => reset w | _, _ => w end
  | UserHash h => set_location h w
  | HashChange =>
      match hashchanges w with
      | O => w
      | S n => setStepIndex (getStepFromHash (hash w))
                 (Wizard (hash w) n (stepIndex w) (furthestStep w) (data w) (touched w) (blurred w) (review w) (instance w))
      end
  end.
Definition run (es : list event) (w : wizard) : wizard := foldl (λ w e, step e w) w es.

Inductive reachable : wizard → Prop :=
| reach_mount h : reachable (mount h)
| reach_step w e : reachable w → reachable (step e w).
(** The page is opened at its start and the user leaves the address bar alone. *)
Inductive button_reachable : wizard → Prop :=
| button_mount h : getStepFromHash h = 0%nat → button_reachable (mount h)
| button_step w e : button_reachable w → (∀ h, e ≠ UserHash h) → button_reachable (step e w).

(** ** Lemmas on the wizard *)

Lemma getStepFromHash_bound h : (getStepFromHash h ≤ 3)%nat.
Proof.
  unfold getStepFromHash. destruct (list_find _ _) as [[i s]|] eqn:Hf; [|lia].
  apply list_find_Some in Hf as (Hi & _). apply lookup_lt_Some in Hi. simpl in Hi. lia.
Qed.
Lemma getStepFromHash_name i : (i ≤ 3)%nat → getStepFromHash (step_name i) = i.
Proof. intros. by destruct i as [|[|[|[|i]]]]; [..|lia]. Qed.

(** The fields the setters leave alone. *)
Lemma set_location_step s w : stepIndex (set_location s w) = stepIndex w.
Proof. unfold set_location. by case_decide. Qed.
Lemma setStepIndex_step i w : stepIndex (setStepIndex i w) = i.
Proof. unfold setStepIndex. by case_decide. Qed.
Lemma setHash_hash i w : hash (setHash i w) = step_name i.
Proof. unfold setHash, set_location. by case_decide. Qed.
Lemma goto_fields i w : let w' := setHash i (setStepIndex i w) in
  hash w' = step_name i ∧ stepIndex w' = i ∧ furthestStep w' = furthestStep w ∧ data w' = data w ∧ touched w' = touched w ∧
  (review w' = ReviewIdle ∨ review w' = review w ∧ stepIndex w = i).
Proof.
  simpl. split; [apply setHash_hash|]. unfold setHash, set_location, setStepIndex.
  destruct (decide (stepIndex w = i)) as [He|]; repeat case_decide; simpl; split_and!; try done; try (by right); by left.
Qed.
#[local] Opaque getStepFromHash step_name.

Record mirrored (w : wizard) : Prop := Mirrored {
  m_step : (stepIndex w ≤ 3)%nat;
  m_furthest : (furthestStep w ≤ 3)%nat;
  m_hash : hashchanges w = 0%nat → getStepFromHash (hash w) = stepIndex w;
  m_review : review w ≠ ReviewIdle → stepIndex w = 3%nat }.

(** Events that leave the place and the submission alone. *)
Lemma mirrored_same w w' : mirrored w → stepIndex w' = stepIndex w → furthestStep w' = furthestStep w →
  hash w' = hash w → hashchanges w' = hashchanges w → review w' = review w → mirrored w'.
Proof. intros [? ? Hh ?] Hs Hf Hha Hc Hr. split; rewrite ?Hs, ?Hf, ?Hha, ?Hc, ?Hr; done. Qed.
Lemma mirrored_goto i w : mirrored w → (i ≤ 3)%nat → mirrored (setHash i (setStepIndex i w)).
Proof.
  intros [Hs Hf Hh Hr] Hi. destruct (goto_fields i w) as (Hha & Hst & Hfu & _ & _ & Hrev). split.
  - by rewrite Hst.
  - by rewrite Hfu.
  - intros _. by rewrite Hha, Hst, getStepFromHash_name.
  - rewrite Hst. intros Hne. destruct Hrev as [|[Hrw <-]]; [done|]. rewrite Hrw in Hne. by apply Hr.
Qed.
Lemma mirrored_reset w : mirrored w → mirrored (reset w).
Proof.
  intros Hm. unfold reset.
  assert (Hm0 : mirrored (setHash 0 (setStepIndex 0 (setFields ∅ (blurred w) (setData INITIAL_DATA (setFurthest 0 w)))))).
  { apply mirrored_goto; [|lia]. destruct Hm as [? ? ? ?]. split; simpl; [done|lia|done|done]. }
  revert Hm0. unfold setHash, setFields, setData, setFurthest, setStepIndex. simpl.
  destruct (decide (stepIndex w = 0%nat)); simpl; intros [? ? ? ?]; revert m_hash0 m_review0 m_step0 m_furthest0; unfold set_location;
    repeat case_decide; simpl in *; intros; split; simpl; try done.
Qed.
Lemma step_mirrored e w : mirrored w → mirrored (step e w).
Proof.
  intros Hm. pose proof Hm as [Hs Hf Hh Hr]. destruct e; simpl; unfold on_step, handleBlur, touch.
  - case_decide; [by eapply mirrored_same|done].
  - case_decide; [|done]. destruct (PRESETS !! i) as [[s a]|]; [by eapply mirrored_same|done].
  - case_decide; [by eapply mirrored_same|done].
  - case_decide; [by eapply mirrored_same|done].
  - case_decide; [by eapply mirrored_same|done].
  - destruct (next_enabled w); [|done].
    destruct (mirrored_goto (Nat.min (stepIndex w + 1) 3) w Hm) as [? ? ? ?]; [lia|]. split; simpl; [done|lia|done|done].
  - destruct (back_enabled w); [|done]. apply mirrored_goto; [done|lia].
  - unfold submit. destruct (stepIndex w) as [|[|[|[|n]]]] eqn:Hi; try done. destruct (review w) eqn:Hrw; try done.
    destruct (review_overflow (data w)); [done|]. split; simpl; [lia|done|rewrite Hi; by apply Hh|done].
  - unfold submit_timer. case_decide; [|done]. destruct (review w) eqn:Hrw; [done| |done].
    split; simpl; [done|done|done|]. intros _. by apply Hr.
  - destruct (stepIndex w) as [|[|[|[|n]]]] eqn:Hi; try done. destruct (review w); try done. by apply mirrored_reset.
  - unfold set_location. case_decide; [done|]. split; simpl; try done.
  - destruct (hashchanges w) as [|n] eqn:Hc; [done|]. pose proof (getStepFromHash_bound (hash w)).
    unfold setStepIndex. simpl. case_decide as He; split; simpl; try done.
Qed.
Lemma reachable_mirrored w : reachable w → mirrored w.
Proof.
  induction 1 as [h|w e _ IH]; [|by apply step_mirrored]. pose proof (getStepFromHash_bound h). unfold mount, setHash, set_location.
  simpl. case_decide; split; simpl; try done.
Qed.

(** What the buttons have checked when a step is shown. *)
Record checked (w : wizard) : Prop := Checked {
  c_hash : hash w = step_name (stepIndex w);
  c_step : (stepIndex w ≤ 3)%nat;
  c_recipient : (1 ≤ stepIndex w)%nat → truthy (recipient (data w)) = true ∧
    ("recipient" ∈ touched w → recipientSchema (recipient (data w)) = []);
  c_token : (2 ≤ stepIndex w)%nat → token_continue w = true;
  c_schedule : stepIndex w = 3%nat → schedule_continue (data w) = true }.

Lemma checked_goto i w : checked w → (i ≤ stepIndex w)%nat → checked (setHash i (setStepIndex i w)).
Proof.
  intros [Hh Hs Hr Ht Hc] Hi. destruct (goto_fields i w) as (Hha & Hst & _ & Hd & Hto & _).
  split; unfold token_continue; rewrite ?Hst, ?Hd, ?Hto, ?Hha; [done|lia|..]; intros.
  - apply Hr. lia.
  - apply Ht. lia.
  - apply Hc. lia.
Qed.
Lemma checked_next w : checked w → next_enabled w = true → checked (next w).
Proof.
  intros [Hh Hs Hr Ht Hc] He. unfold next. set (i := Nat.min (stepIndex w + 1) 3).
  destruct (goto_fields i w) as (Hha & Hst & _ & Hd & Hto & _). set (w' := setHash i (setStepIndex i w)) in *.
  unfold next_enabled in He. split; unfold token_continue; simpl; rewrite ?Hst, ?Hd, ?Hto, ?Hha; [done|lia|..]; intros Hi.
  - destruct (stepIndex w) as [|n] eqn:Hw; [|apply Hr; lia].
    unfold recipient_continue in He. apply andb_true_iff in He as [He Hn%negb_true_iff]. split; [done|]. intros Hin.
    unfold recipient_error, shows_error in Hn. rewrite (bool_decide_eq_true_2 (_ ∈ touched w)), orb_true_r in Hn by done.
    simpl in Hn. apply negb_false_iff, bool_decide_eq_true in Hn. done.
  - destruct (stepIndex w) as [|[|n]] eqn:Hw; [simpl in i; lia|done|apply Ht; lia].
  - destruct (stepIndex w) as [|[|[|n]]] eqn:Hw; [simpl in i; lia..|done|apply Hc; simpl in Hs; lia].
Qed.
(** An input changes the data of the step that is shown only. *)
Lemma checked_data w d : checked w →
  ((1 ≤ stepIndex w)%nat → recipient d = recipient (data w)) →
  ((2 ≤ stepIndex w)%nat → tokenAddress d = tokenAddress (data w) ∧ tokenSymbol d = tokenSymbol (data w)) →
  (stepIndex w ≠ 3%nat) → checked (setData d w).
Proof.
  intros [Hh Hs Hr Ht Hc] Hrec Htok Hne. split; simpl; [done|done|..]; intros Hi.
  - rewrite Hrec by done. by apply Hr.
  - unfold token_continue. simpl. destruct (Htok Hi) as [-> ->]. by apply Ht.
  - done.
Qed.
Lemma step_checked e w : checked w → (∀ h, e ≠ UserHash h) → checked (step e w).
Proof.
  intros Hck Hu. pose proof Hck as [Hh Hs Hr Ht Hc]. destruct e; simpl; unfold on_step.
  - case_decide as Hi; [|done]. apply checked_data; rewrite ?Hi; [done|lia|lia|done].
  - case_decide as Hi; [|done]. destruct (PRESETS !! i) as [[s a]|]; [|done]. apply checked_data; rewrite ?Hi; [done|done|lia|done].
  - case_decide as Hi; [|done]. apply checked_data; rewrite ?Hi; [done|done|lia|done].
  - case_decide as Hi; [|done]. apply checked_data; rewrite ?Hi; [done|done|done|done].
  - case_decide as Hin; [|done]. split; simpl; [done|done| |done|done].
    intros Hi. destruct (Hr Hi) as [Htr Hre]. split; [done|]. intros [Hf%elem_of_singleton|?]%elem_of_union; [|by apply Hre].
    rewrite <-Hf in Hin. exfalso. destruct (stepIndex w) as [|[|[|n]]]; [lia|..]; by apply (bool_decide_pack _) in Hin; vm_compute in Hin.
  - destruct (next_enabled w) eqn:He; [by apply checked_next|done].
  - destruct (back_enabled w); [apply checked_goto; [done|lia]|done].
  - unfold submit. destruct (stepIndex w) as [|[|[|[|n]]]] eqn:Hi; try done. destruct (review w); try done.
    destruct (review_overflow (data w)); [done|]. split; simpl; rewrite ?Hi; done.
  - unfold submit_timer. case_decide; [|done]. destruct (review w); [done| |done]. by split.
  - destruct (stepIndex w) as [|[|[|[|n]]]] eqn:Hi; try done. destruct (review w); try done.
    assert (E : stepIndex (reset w) = 0%nat).
    { unfold reset, setHash. rewrite set_location_step. simpl. by rewrite setStepIndex_step. }
    split; rewrite ?E; [apply setHash_hash|lia..|done].
  - by destruct (Hu h).
  - destruct (hashchanges w) as [|n]; [done|]. rewrite Hh, getStepFromHash_name by done.
    unfold setStepIndex. simpl. rewrite decide_True by done. by split.
Qed.
Lemma button_checked w : button_reachable w → checked w.
Proof.
  induction 1 as [h Hh|w e _ IH He]; [|by apply step_checked].
  unfold mount. rewrite Hh. split; unfold setHash; rewrite ?set_location_step; simpl; [apply setHash_hash|lia..].
Qed.

(** ** Lemmas on numbers *)

Lemma lt64_Z a b : lt64 (DFin (inject_Z a)) (DFin (inject_Z b)) = (a <? b).
Proof. unfold lt64, Qle_bool. simpl. rewrite !Z.mul_1_r. by rewrite Z.leb_antisym, negb_involutive. Qed.
Lemma div_Z s n : 0 < s < 2 ^ 53 → 0 < n < 2 ^ 40 →
  ∃ q, div64 (DFin (inject_Z s)) (DFin (inject_Z n)) = DFin q ∧ near q (s # Z.to_pos n) ∧ (0 < q)%Q.
Proof.
  intros Hs Hn. assert (Hx : (inject_Z s / inject_Z n == s # Z.to_pos n)%Q) by (symmetry; apply Qmake_Zdiv; lia).
  assert (H40 : 2 ^ 40 = 1099511627776) by reflexivity. assert (H53 : 2 ^ 53 = 9007199254740992) by reflexivity.
  assert (H100 : 2 ^ 100 = 1267650600228229401496703205376) by reflexivity.
  destruct (round64_near (inject_Z s / inject_Z n)) as (q & Hq & Hnear & Hpos).
  { rewrite Hx. unfold Qle, inject_Z. cbn [Qnum Qden]. rewrite Z2Pos.id by lia.
    assert (Z.pos (2 ^ 100) = 1267650600228229401496703205376) as -> by reflexivity. rewrite H100. lia. }
  exists q. split; [|by rewrite <-Hx]. unfold div64, is_zero. cbn [Qnum inject_Z].
  destruct (Z.eqb_spec n 0); [lia|done].
Qed.
Lemma number_empty : Number "" = DFin 0. Proof. reflexivity. Qed.
Lemma check_nil ok p m : check ok p m = [] ↔ ok = true.
Proof. unfold check. by destruct ok. Qed.
Lemma lt64_zero q : lt64 (DFin 0) (DFin q) = true ↔ (0 < q)%Q.
Proof.
  unfold lt64. rewrite negb_true_iff. split.
  - intros H. apply Qnot_le_lt. intros Hle%Qle_bool_iff. congruence.
  - intros H. destruct (Qle_bool q 0) eqn:E; [|done]. apply Qle_bool_iff in E. by apply Qlt_not_le in H.
Qed.
Lemma lt64_fin p q : lt64 (DFin p) (DFin q) = true ↔ (p < q)%Q.
Proof.
  unfold lt64. rewrite negb_true_iff. split.
  - intros H. apply Qnot_le_lt. intros Hle%Qle_bool_iff. congruence.
  - intros H. destruct (Qle_bool q p) eqn:E; [|done]. apply Qle_bool_iff in E. by apply Qlt_not_le in H.
Qed.
Lemma positive_nonempty v : lt64 (DFin 0) (Number v) = true → truthy v = true.
Proof. intros H. unfold truthy. apply bool_decide_eq_true. by intros ->. Qed.
Lemma scheduleSchema_ok r c t : success (scheduleSchema r c t) = true ↔
  is_integer64 (Number r) = true ∧ lt64 (DFin 0) (Number r) = true ∧ lt64 (DFin 0) (Number c) = true ∧
  lt64 (DFin 0) (Number t) = true ∧ lt64 (Number c) (Number t) = true.
Proof.
  unfold success, scheduleSchema, positive_number. rewrite bool_decide_eq_true.
  assert (Happ : ∀ (l l' : list issue), l ++ l' = [] ↔ l = [] ∧ l' = []) by (intros l l'; destruct l; simpl; naive_solver).
  rewrite !Happ, !check_nil, !andb_true_iff, !negb_true_iff. split; [tauto|].
  intros (Hi & Hr & Hc & Ht & Hlt). pose proof (positive_nonempty _ Hr). pose proof (positive_nonempty _ Hc).
  pose proof (positive_nonempty _ Ht). split_and!; try done; [by destruct (Number c)|by destruct (Number t)].
Qed.

(** The unit a duration is shown in: suffix, seconds, and the parts of the unit
    that are counted. *)
Definition shown_unit (s : Z) : string * Z * Z :=
  if s <? 60 then ("s", 1, 1) else if s <? 3600 then ("m", 60, 1) else if s <? 86400 then ("h", 3600, 1)
  else if s <? 86400 * 30 then ("d", 86400, 1) else if s <? 86400 * 365 then ("mo", 86400 * 30, 10)
  else ("yr", 86400 * 365, 10).
Definition shown_text (scale n : Z) : string :=
  if scale =? 1 then Z_to_string n else Z_to_string (n / 10) +:+ "." +:+ Z_to_string (n mod 10).

Lemma rounded_Z s : rounded_text (DFin (inject_Z s)) = Z_to_string s.
Proof.
  unfold rounded_text, math_round. rewrite Qfloor_Z. f_equal. unfold round_Q, Qfloor. simpl.
  symmetry. apply (Z.div_unique _ _ _ 1); lia.
Qed.
Lemma rounded_near s n : 0 < s <= 2 ^ 48 → 0 < n < 2 ^ 40 →
  ∃ k, rounded_text (div64 (DFin (inject_Z s)) (DFin (inject_Z n))) = shown_text 1 k ∧ 2 * Z.abs (k * n - 1 * s) <= n.
Proof.
  intros Hs Hn. assert (H : 2 ^ 48 < 2 ^ 53) by done. assert (H' : 2 * 1 * 2 ^ 48 < 2 ^ 53) by done.
  destruct (div_Z s n) as (q & -> & Hq & _); [lia..|].
  exists (round_Q q). split; [by unfold rounded_text, math_round, inject_Z, Qfloor; rewrite Z.div_1_r|].
  unfold round_Q. rewrite <-(Qfloor_comp (inject_Z 1 * q + 1 / 2) (q + 1 / 2)) by (change (inject_Z 1) with 1%Q; ring).
  apply round_scaled; [lia..|done].
Qed.
Lemma fixed_near exponential s n : 0 < s <= 2 ^ 48 → 0 < n < 2 ^ 40 →
  ∃ k, toFixed1 exponential (div64 (DFin (inject_Z s)) (DFin (inject_Z n))) = shown_text 10 k ∧ 2 * Z.abs (k * n - 10 * s) <= n.
Proof.
  intros Hs Hn. assert (H : 2 ^ 48 < 2 ^ 53) by done. assert (H' : 2 * 10 * 2 ^ 48 < 2 ^ 53) by done.
  destruct (div_Z s n) as (q & -> & Hq & _); [lia..|]. exists (Qfloor (10 * q + 1 / 2)).
  assert (Hk : 2 * Z.abs (Qfloor (inject_Z 10 * q + 1 / 2) * n - 10 * s) <= n) by (apply round_scaled; [lia..|done]).
  split; [|exact Hk]. unfold toFixed1.
  destruct (Qle_bool (inject_Z (10 ^ 21)) q) eqn:E; [exfalso|done]. apply Qle_bool_iff in E.
  assert (H10 : (inject_Z (10 ^ 22) <= inject_Z 10 * q + 1 / 2)%Q).
  { change (inject_Z (10 ^ 22)) with (10000000000000000000000 # 1)%Q. change (inject_Z (10 ^ 21)) with (1000000000000000000000 # 1)%Q in E.
    change (inject_Z 10) with 10%Q. change (1 / 2)%Q with (1 # 2)%Q. lra. }
  apply Qfloor_resp_le in H10. rewrite Qfloor_Z in H10. change (10 ^ 22) with 10000000000000000000000 in H10.
  assert (2 ^ 48 = 281474976710656) by reflexivity. nia.
Qed.

(** The two quotients of [dateToLedgers], together. *)
Lemma date_quotient D : 0 < D <= 2 ^ 48 → ∃ q,
  div64 (div64 (of_Z D) (DFin 1000)) LEDGERS_PER_SECOND = DFin q ∧
  (Qabs (q - (D # 200)) * inject_Z (2 ^ 51) <= D # 200)%Q.
Proof.
  intros HD. assert (2 ^ 48 < 2 ^ 52) by done. assert (2 ^ 48 < 2 ^ 53) by done. rewrite of_Z_small by lia.
  destruct (div_Z D 1000) as (q1 & Hq1 & Hn1 & Hp1); [lia..|]. change (DFin (inject_Z 1000)) with (DFin 1000) in Hq1. rewrite Hq1.
  set (x := (D # Z.to_pos 1000)%Q) in *. assert (Hx : (D # 200 == 5 * x)%Q) by (unfold x, Qeq; simpl; lia).
  assert (Hxlo : (1 # 1000 <= x)%Q) by (unfold x, Qle; simpl; lia).
  assert (Hxhi : (x <= 281474976710656)%Q) by (unfold x, Qle; simpl; lia).
  unfold near in Hn1. apply Qabs_le_iff in Hn1 as [Ha Hb]; [|done].
  set (y := (q1 / fifth)%Q). assert (Hy : (y * fifth == q1)%Q) by (unfold y; field; done).
  unfold fifth in Hy. change (inject_Z (2 ^ 53)) with (9007199254740992 # 1)%Q in *.
  destruct (round64_near y) as (q & Hq & Hn2 & _).
  { change (1 # 2 ^ 100)%Q with (1 # 1267650600228229401496703205376)%Q.
    change (inject_Z (2 ^ 100)) with (1267650600228229401496703205376 # 1)%Q. split; lra. }
  exists q. split; [exact Hq|]. unfold near in Hn2. apply Qabs_le_iff in Hn2 as [Hc Hd]; [|done].
  change (inject_Z (2 ^ 53)) with (9007199254740992 # 1)%Q in *. change (inject_Z (2 ^ 51)) with (2251799813685248 # 1)%Q.
  rewrite Hx. apply Qabs_le_iff; [done|]. split; lra.
Qed.

(** ** Theorems *)

(** Whoever follows the buttons from the start of the page and sees the review,
    or has submitted, has data the earlier steps accepted: a recipient that is
    not empty, and well formed if its field was ever left, a well-formed token
    contract with a symbol, and a schedule without overflow; and the submission
    only runs on the review. *)
Theorem review_data_checked w : button_reachable w → stepIndex w = 3%nat →
  truthy (recipient (data w)) = true ∧ ("recipient" ∈ touched w → stellar_address_re (recipient (data w)) = true) ∧
  contract_address_re (tokenAddress (data w)) = true ∧ truthy (tokenSymbol (data w)) = true ∧
  schedule_continue (data w) = true ∧ review_overflow (data w) = false.
Proof.
  intros [Hh Hs Hr Ht Hc]%button_checked H3. rewrite H3 in *. destruct (Hr ltac:(lia)) as [Htr Hre].
  specialize (Ht ltac:(lia)). specialize (Hc eq_refl). unfold token_continue, success, tokenSchema in Ht.
  apply andb_true_iff in Ht as [[_ [Hca Hsy]%app_nil]%bool_decide_eq_true%app_nil _]. apply check_nil in Hca, Hsy.
  split_and!; try done.
  - intros [_ ?%check_nil]%Hre%app_nil. done.
  - unfold schedule_continue, schedule_overflow, schedule_ok in Hc.
    apply andb_true_iff in Hc as [(Hi & Hp & _ & Htot & _)%scheduleSchema_ok Hno%negb_true_iff].
    by rewrite (positive_nonempty _ Hp), (positive_nonempty _ Htot) in Hno.
Qed.

(** Whatever the user does to the address bar or the buttons, the page is on one
    of its four steps, never submits outside the review, and, once the pending
    [hashchange] events are delivered, shows the step the address names. *)
Theorem hash_mirrors_step w : reachable w →
  (stepIndex w ≤ 3)%nat ∧ (furthestStep w ≤ 3)%nat ∧ (review w ≠ ReviewIdle → stepIndex w = 3%nat) ∧
  stepIndex (run (replicate (hashchanges w) HashChange) w) = getStepFromHash (hash w).
Proof.
  intros Hm%reachable_mirrored. split_and!; try apply Hm. destruct (hashchanges w) as [|n] eqn:Hc; [by rewrite (m_hash _ Hm)|].
  assert (Hrun : ∀ n w, hashchanges w = n → stepIndex w = getStepFromHash (hash w) →
    stepIndex (run (replicate n HashChange) w) = getStepFromHash (hash w)).
  { clear. induction n as [|n IH]; intros w Hn Hs; [done|]. simpl replicate. cbn [run foldl step]. rewrite Hn.
    unfold setStepIndex. simpl. rewrite decide_True by done.
    exact (IH (Wizard (hash w) n (stepIndex w) _ _ _ _ _ _) eq_refl Hs). }
  simpl replicate. cbn [run foldl step]. rewrite Hc. set (w' := setStepIndex _ _).
  assert (hash w' = hash w ∧ hashchanges w' = n) as [Hh Hn] by (unfold w', setStepIndex; simpl; by case_decide).
  rewrite <-Hh. apply Hrun; [done|]. rewrite Hh. unfold w'. by rewrite setStepIndex_step.
Qed.

(** C22. The schedule step lets exactly these inputs pass: a rate that is a positive
    integer, durations with zero before the cliff before the end, and a deposit
    that fits the 128-bit integer of the contract.  The durations need not be
    integers. *)
Theorem schedule_continue_spec d : schedule_continue d = true ↔
  ∃ r c t, Number (rate d) = DFin r ∧ Number (cliffDuration d) = DFin c ∧ Number (totalDuration d) = DFin t ∧
    Qnum r mod Zpos (Qden r) = 0 ∧ (0 < r)%Q ∧ (0 < c)%Q ∧ (c < t)%Q ∧ Qfloor r * Qfloor t <= I128_MAX.
Proof.
  unfold schedule_continue, schedule_ok. rewrite andb_true_iff, scheduleSchema_ok, negb_true_iff. split.
  - intros [(Hi & Hr & Hc & Ht & Hlt) Ho]. unfold schedule_overflow in Ho.
    rewrite (positive_nonempty _ Hr), (positive_nonempty _ Ht) in Ho. simpl in Ho.
    destruct (Number (rate d)) as [| |r]; [done..|]. apply lt64_zero in Hr.
    destruct (Number (totalDuration d)) as [|[]|t]; [done|done| |].
    { exfalso. unfold isDepositOverflow in Ho. simpl in Ho. destruct (Qle_bool r 0) eqn:E; [|done].
      apply Qle_bool_iff in E. by apply Qlt_not_le in Hr. }
    destruct (Number (cliffDuration d)) as [|[]|c]; [done..|]. apply lt64_zero in Hc.
    apply lt64_zero in Ht. apply lt64_fin in Hlt. exists r, c, t. split_and!; try done.
    + simpl in Hi. by apply bool_decide_eq_true in Hi.
    + unfold isDepositOverflow in Ho. apply lt64_zero in Hr, Ht. unfold lt64 in Hr, Ht. apply negb_true_iff in Hr, Ht.
      rewrite Hr, Ht in Ho. simpl in Ho. lia.
  - intros (r & c & t & Hr & Hc & Ht & Hi & H0r & H0c & Hct & Hle).
    assert (H0t : (0 < t)%Q) by (by eapply Qlt_trans). pose proof (positive_nonempty (rate d)) as Hne1.
    pose proof (positive_nonempty (totalDuration d)) as Hne2. rewrite Hr in Hne1. rewrite Ht in Hne2.
    unfold schedule_overflow. rewrite Hr, Hc, Ht. rewrite Hne1, Hne2 by (by apply lt64_zero). simpl andb.
    split; [split_and!; [by apply bool_decide_eq_true|by apply lt64_zero..|by apply lt64_fin]|].
    unfold isDepositOverflow. apply lt64_zero in H0r, H0t. unfold lt64 in H0r, H0t. apply negb_true_iff in H0r, H0t.
    rewrite H0r, H0t. simpl. lia.
Qed.

(** A number of ledgers, five seconds each, is shown in the unit of its size,
    rounded to the nearest second, minute, hour or day, or the nearest tenth of
    a month or a year: the binary fractions behind it never show. *)
Theorem ledgersToDuration_nearest exponential ledgers : 0 < ledgers → 5 * ledgers <= 2 ^ 48 →
  let '(suffix, size, scale) := shown_unit (5 * ledgers) in
  ∃ k, ledgersToDuration exponential (DFin (inject_Z ledgers)) = shown_text scale k +:+ suffix ∧
    2 * Z.abs (k * size - scale * (5 * ledgers)) <= size.
Proof.
  intros Hl Hb. assert (2 ^ 48 < 2 ^ 53) by done. unfold shown_unit, ledgersToDuration, LEDGERS_PER_SECOND.
  rewrite div_fifth by lia. set (s := 5 * ledgers) in *.
  change (DFin 60) with (DFin (inject_Z 60)). change (DFin 3600) with (DFin (inject_Z 3600)). change (DFin 86400) with (DFin (inject_Z 86400)).
  rewrite !lt64_Z. assert (2 ^ 40 = 1099511627776) by reflexivity.
  destruct (s <? 60).
  { exists s. split; [by rewrite rounded_Z|lia]. }
  destruct (s <? 3600); [|destruct (s <? 86400); [|destruct (s <? 86400 * 30); [|destruct (s <? 86400 * 365)]]].
  1-3: match goal with |- context [rounded_text (div64 _ (DFin (inject_Z ?n)))] =>
    destruct (rounded_near s n) as (k & -> & Hk); [lia..|]; exists k; split; [done|exact Hk] end.
  all: match goal with |- context [toFixed1 _ (div64 _ (DFin (inject_Z ?n)))] =>
    destruct (fixed_near exponential s n) as (k & -> & Hk); [lia..|]; exists k; split; [done|exact Hk] end.
Qed.

(** A cliff chosen by its date comes 25 times too late: the seconds to the date
    are divided by the ledgers per second instead of multiplied.  The ledger the
    chosen number of ledgers leads to, at five seconds each, is that far away,
    up to half a ledger. *)
Theorem cliff_date_25_times Date_parse now value ms current : Date_parse value = Some ms → 1000 <= ms - now <= 2 ^ 48 →
  ∃ ledgers, dateToLedgers Date_parse now value = Some ledgers ∧
    2 * Z.abs (ledgerToDate (current + ledgers) current now - (now + 25 * (ms - now))) <= 5025.
Proof.
  intros Hp HD. unfold dateToLedgers. rewrite Hp. cbn [mbind option_bind].
  destruct (date_quotient (ms - now)) as (q & -> & Hq); [lia|]. set (D := ms - now) in *.
  cbn [math_round]. exists (Z.max 1 (round_Q q)). split; [by unfold inject_Z, Qfloor; rewrite Z.div_1_r|].
  apply Qabs_le_iff in Hq as [Ha Hb]; [|done]. unfold round_Q.
  pose proof (Qfloor_le (q + 1 / 2)) as Hlo. pose proof (Qlt_floor (q + 1 / 2)) as Hhi.
  revert Hlo Hhi. generalize (Qfloor (q + 1 / 2)). intros n Hlo Hhi. change (1 / 2)%Q with (1 # 2)%Q in *.
  change (inject_Z (2 ^ 51)) with (2251799813685248 # 1)%Q in *.
  set (x := (D # 200)%Q) in *. assert (Hx : (200 * x == inject_Z D)%Q) by (unfold x, Qeq, inject_Z; simpl; lia).
  assert (HDq : (inject_Z D <= 281474976710656)%Q) by (unfold Qle, inject_Z; simpl; lia).
  assert (H1 : (400 * inject_Z n < 2 * inject_Z D + 201)%Q) by lra.
  assert (H2 : (2 * inject_Z D - 201 < 400 * inject_Z n)%Q) by (rewrite inject_Z_plus in Hhi; change (inject_Z 1) with 1%Q in Hhi; lra).
  unfold Qlt, Qmult, Qplus, Qminus, Qopp, inject_Z in H1, H2. simpl in H1, H2.
  unfold ledgerToDate, SECONDS_PER_LEDGER. lia.
Qed.

(** What the guards miss.  A page opened at the review, or led there by the
    address bar, submits empty data and reports a stream; a recipient that is
    typed but not left passes unchecked; going back and on again counts twice
    towards the furthest step; and half a ledger is a duration. *)
Theorem guards_bypassed :
  (let w := run [ClickSubmit; SubmitTimer 0] (mount "review") in review w = Created mockHash ∧ data w = INITIAL_DATA) ∧
  (let w := run [UserHash "review"; HashChange; HashChange; ClickSubmit; SubmitTimer 1] (mount "") in
   review w = Created mockHash ∧ data w = INITIAL_DATA) ∧
  (let w := run [TypeRecipient "me"; ClickNext] (mount "") in stepIndex w = 1%nat ∧ recipient (data w) = "me") ∧
  (let w := run [TypeRecipient "me"; ClickNext; ClickBack; ClickNext; ClickBack; ClickNext] (mount "") in
   stepIndex w = 1%nat ∧ furthestStep w = 3%nat) ∧
  schedule_continue (FormData "" "" "" "1" "0.25" "0.5" "") = true.
Proof. vm_compute. repeat split. Qed.

(** ** Witnesses *)

Definition recipient_G : string := "GAAAAAAAAAAAAAAAAAAAAAAAAAAAAAAAAAAAAAAAAAAAAAAAAAAAAAAA".
Definition filled : list event :=
  [TypeRecipient recipient_G; LeaveField "recipient"; HashChange; ClickNext; PickToken 0; ClickNext; HashChange;
   TypeSchedule FRate "10"; TypeSchedule FCliff "17280"; TypeSchedule FTotal "172800"; ClickNext].
Lemma run_button es : forallb (λ e, match e with UserHash _ => false | _ => true end) es = true →
  ∀ w, button_reachable w → button_reachable (run es w).
Proof.
  induction es as [|e es IH]; intros Hes w Hw; [done|]. apply andb_true_iff in Hes as [He Hes]. apply (IH Hes).
  apply button_step; [done|]. by intros h ->.
Qed.
Lemma review_data_checked_witness :
  let w := run filled (mount "") in stepIndex w = 3%nat ∧ stellar_address_re (recipient (data w)) = true ∧
    review_overflow (data w) = false.
Proof.
  set (w := run filled (mount "")). assert (H3 : stepIndex w = 3%nat) by (vm_compute; reflexivity).
  destruct (review_data_checked w) as (_ & Hr & _ & _ & _ & Ho); [|exact H3|].
  { apply run_button; [reflexivity|]. apply button_mount. reflexivity. }
  split; [exact H3|]. split; [|exact Ho]. apply Hr. apply (bool_decide_unpack _). vm_compute. exact I.
Defined.
Lemma hash_mirrors_step_witness :
  let w := run [UserHash "review"; UserHash "token"] (mount "") in
  hashchanges w = 3%nat ∧ stepIndex (run (replicate 3 HashChange) w) = getStepFromHash "token".
Proof.
  split; [vm_compute; reflexivity|].
  destruct (hash_mirrors_step (run [UserHash "review"; UserHash "token"] (mount ""))) as (_ & _ & _ & H);
    [apply reach_step, reach_step, reach_mount|]. exact H.
Defined.
Lemma ledgersToDuration_nearest_witness : ∃ k, ledgersToDuration (λ _, "") (DFin (inject_Z 719)) = shown_text 1 k +:+ "m".
Proof. destruct (ledgersToDuration_nearest (λ _, "") 719) as (k & Hk & _); [reflexivity|discriminate|]. exists k. exact Hk. Defined.
Lemma cliff_date_25_times_witness :
  dateToLedgers (λ _, Some 86400000) 0 "1970-01-02" = Some 432000 ∧
  ∃ ledgers, dateToLedgers (λ _, Some 86400000) 0 "1970-01-02" = Some ledgers.
Proof.
  split; [vm_compute; reflexivity|].
  destruct (cliff_date_25_times (λ _, Some 86400000) 0 "1970-01-02" 86400000 0) as (l & Hl & _); [reflexivity|split; discriminate|].
  exists l. exact Hl.
Defined.
