(* ===== verification/StreamDetails.v ===== *)
(** * The routes of one stream

    [backend/src/routes/streamDetails.ts], [streamStatus.ts] and
    [streamBalance.ts]: the details of a stream with its claimable amount from
    the contract, cached for thirty seconds, its status and its balance.  The
    tables are those of [Db]; the columns [Db] leaves out, the text of a date and
    the answer of the contract are parameters. *)
From stdpp Require Import list gmap.
From S2P Require Import Prelude Digits Double Decoder Db StreamStatus Balances.
#[local] Open Scope Z_scope.

(** ** Numbers in JSON *)

Inductive json_int := JNum (z : Z) | JText (s : string).
Definition jsonInteger (value : option string) : json_int :=
  let text := default "0" value in
  let number := Number text in
  if isSafeInteger number then match number with DFin q => JNum (QArith_base.Qnum q) | _ => JText text end else JText text.
(** What a reader of the JSON gets. *)
Definition json_value (j : json_int) : option Z := match j with JNum z => Some z | JText s => Z_of_string s end.

(** ** The claimable amount *)

Definition CLAIMABLE_TTL_SECONDS : Z := 30.
(** Redis: the amounts with the second they expire; [None] without Redis. *)
Notation redis := (gmap string (string * Z)).
Definition claimable_key (recipient : string) : string := "stream:claimable:" +:+ recipient.
Definition getCachedClaimable (now : Z) (recipient : string) (rd : option redis) : option string :=
  m ← rd; e ← m !! claimable_key recipient; if decide (now < e.2) then Some e.1 else None.
Definition cacheClaimable (now : Z) (recipient amount : string) (rd : option redis) : option redis :=
  <[claimable_key recipient := (amount, now + CLAIMABLE_TTL_SECONDS)]> <$> rd.
(** [chain] is the answer of the simulation, [None] when any step of it throws. *)
Definition getClaimableAmount (now : Z) (recipient : string) (chain : option string) (rd : option redis)
    : option string * option redis :=
  match getCachedClaimable now recipient rd with
  | Some cached => (Some cached, rd)
  | None => match chain with
            | Some amount => (Some amount, cacheClaimable now recipient amount rd)
            | None => (None, rd)
            end
  end.

(** ** The details *)

Definition status_text (s : StreamStatus) : string :=
  match s with
  | active => "active" | pre_cliff => "pre_cliff" | expired => "expired" | cancelled => "cancelled"
  | drained => "drained" | clawedback => "clawedback"
  end.

(** [SUM(amount) FILTER (WHERE event_type = t)], null without a row that counts. *)
Definition sum_events (t recipient : string) (evs : list event_row) : option Z :=
  let amounts := omap (λ e : event_row, if decide (er_recipient e = recipient ∧ event_type_text (er_event_type e) = t) then er_amount e else None) evs in
  match amounts with [] => None | _ => Some (sum_Z amounts) end.

Inductive terminal_event :=
| TStreamCancelled (cancelled_at_ledger : option Z) (sponsor_refund recipient_payout : json_int) (tx_hash : option string) (cancelled_at : option Z)
| TStreamClawedBack (clawed_at_ledger : option Z) (sponsor : option string) (amount : json_int) (reason tx_hash : option string)
| TStreamDrained.
Record details := Details {
  d_recipient : string;
  d_sponsor : string;
  d_token : string;
  d_rate : json_int;
  d_cliff_ledger : Z;
  d_end_ledger : Z;
  total_deposited : json_int;
  total_claimed : json_int;
  d_status : StreamStatus;
  d_created_at : Z;
  claimable_now : json_int;
  d_terminal_event : option terminal_event }.
Inductive answer := StreamNotFound | Unavailable | InternalError | Served (d : details).

Definition isTerminal (s : StreamStatus) : bool := bool_decide (s ∈ [cancelled; drained; clawedback]).

Section routes.
Context (created_at : string → Z) (clawback_reason : string → option string).

Definition terminal_event_of (recipient : string) (r : stream_row) : option terminal_event :=
  match status r with
  | cancelled => Some (TStreamCancelled (cancelled_at_ledger r) (jsonInteger (Z_to_string <$> refunded_amount r))
      (jsonInteger (Z_to_string <$> cancellation_recipient_payout r)) (cancellation_tx_hash r) (cancelled_at r))
  | clawedback => Some (TStreamClawedBack (clawed_at_ledger r) (clawback_sponsor r)
      (jsonInteger (Z_to_string <$> clawback_amount r)) (clawback_reason recipient) (clawback_tx_hash r))
  | drained => Some TStreamDrained
  | _ => None
  end.

(** The two totals of the query: the product is a bigint, and an error when it
    does not fit. *)
Definition totals_query (recipient : string) (r : stream_row) (evs : list event_row) : option (Z * Z) :=
  deposited ← match sum_events "vc_create" recipient evs with
              | Some z => Some z
              | None => let product := (end_ledger r - start_ledger r) * rate_per_ledger r in
                        if fits_bigint product then Some product else None
              end;
  Some (deposited, default 0 (sum_events "vc_claim" recipient evs)).

(** [database] is whether the query works at all. *)
Definition streamDetailsHandler (database : bool) (now : Z) (recipient : string) (d : db) (chain : option string)
    (rd : option redis) : answer * option redis :=
  if negb database then (InternalError, rd)
  else
    match vesting_streams d !! recipient with
    | None => (StreamNotFound, rd)
    | Some r =>
        match totals_query recipient r (stream_events d) with
        | None => (InternalError, rd)
        | Some (deposited, claimed) =>
            let '(claimableNow, rd) := if isTerminal (status r) then (Some "0", rd) else getClaimableAmount now recipient chain rd in
            match claimableNow with
            | None => (Unavailable, rd)
            | Some amount =>
                (Served (Details recipient (sponsor_address r) (token_address r) (jsonInteger (Some (Z_to_string (rate_per_ledger r))))
                   (cliff_ledger r) (end_ledger r) (jsonInteger (Some (Z_to_string deposited))) (jsonInteger (Some (Z_to_string claimed)))
                   (status r) (created_at recipient) (jsonInteger (Some amount)) (terminal_event_of recipient r)), rd)
            end
        end
    end.

(** *** Requests over time *)

(** A request finds a state of the tables and of the contract; requests are
    answered one after the other, with any streams. *)
Record request := Request { at_time : Z; of_recipient : string; tables : db; contract : option string }.
Definition serve_request (rd : option redis) (rq : request) : answer * option redis :=
  streamDetailsHandler true (at_time rq) (of_recipient rq) (tables rq) (contract rq) rd.
Fixpoint serve_all (rd : option redis) (rqs : list request) : list answer * option redis :=
  match rqs with
  | [] => ([], rd)
  | rq :: rqs => let '(a, rd) := serve_request rd rq in let '(ans, rd) := serve_all rd rqs in (a :: ans, rd)
  end.
End routes.

(** ** Status and balance *)

Inductive found {A} := Missing | Found (a : A).
Arguments found : clear implicits.
Definition streamStatusHandler (toISO : Z → string) (d : db) (recipient : string) : found (string * string * string) :=
  match getStreamStatus d recipient with
  | Some (s, t) => Found (recipient, status_text s, toISO t)
  | None => Missing
  end.
Definition streamBalanceHandler (d : db) (recipient : string) : found (string * string * string * string) :=
  match getStreamBalance d recipient with
  | Some b => Found (sb_stream_id b, sb_total_deposit b, sb_claimed_total b, sb_remaining b)
  | None => Missing
  end.

(** ** Proofs *)

(** The integers of the JSON are exact: whatever integer the database or
    the contract answers, the value written denotes it, as a JSON number exactly
    below 2^53 in absolute value and as its decimal text from there on, where a
    number would be rounded by the reader. *)
Theorem jsonInteger_exact n :
  json_value (jsonInteger (Some (Z_to_string n))) = Some n ∧
  ((∃ z, jsonInteger (Some (Z_to_string n)) = JNum z) ↔ Z.abs n < 2 ^ 53).
Proof.
  unfold jsonInteger. cbn [from_option]. unfold id. rewrite Number_Z. pose proof (isSafeInteger_of_Z n) as Hs.
  destruct (isSafeInteger (of_Z n)) eqn:E.
  - assert (Hn : Z.abs n < 2 ^ 53) by by apply Hs.
    assert (∃ q, of_Z n = DFin q ∧ QArith_base.Qnum q = n) as (q & -> & Hq).
    { destruct (Z.le_gt_cases 0 n) as [Hp|Hp]; [rewrite of_Z_exact by lia; by eexists|].
      pose proof (of_Z_opp (- n) ltac:(lia)) as Ho. rewrite Z.opp_involutive, (of_Z_exact (- n)) in Ho by lia. rewrite Ho. eexists. split; [done|].
      change (QArith_base.Qopp (QArith_base.inject_Z (- n))) with (QArith_base.inject_Z (- - n)). rewrite Qred_Z. simpl. lia. }
    simpl. rewrite Hq. split; [done|]. split; [done|]. intros _. by eexists.
  - assert (Hn : ¬ Z.abs n < 2 ^ 53) by (intros H; apply Hs in H; congruence).
    simpl. rewrite Z_of_to_string. split; [done|]. split; [by intros [? ?]|done].
Qed.

Lemma claimable_key_inj a b : claimable_key a = claimable_key b → a = b.
Proof. unfold claimable_key. by intros [= ?]. Qed.

Section proofs.
Context (created_at : string → Z) (clawback_reason : string → option string).
Notation streamDetailsHandler := (streamDetailsHandler created_at clawback_reason).
Notation serve_all := (serve_all created_at clawback_reason).

(** What the details answer, on every branch.  A recipient without a row is
    not found; a stream in a terminal state is served with nothing claimable,
    without the contract and without the cache; any other stream is served with
    the amount of the cache or else of the contract, and is unavailable exactly
    when neither answers.  The terminal event is there exactly for a terminal
    status. *)
Theorem details_spec now recipient d chain rd r totals :
  vesting_streams d !! recipient = Some r → totals_query recipient r (stream_events d) = Some totals →
  match streamDetailsHandler true now recipient d chain rd with
  | (Served s, rd') =>
      d_recipient s = recipient ∧ d_status s = status r ∧
      json_value (total_deposited s) = Some totals.1 ∧ json_value (total_claimed s) = Some totals.2 ∧
      (is_Some (d_terminal_event s) ↔ isTerminal (status r) = true) ∧
      if isTerminal (status r) then claimable_now s = JNum 0 ∧ rd' = rd
      else ∃ amount, claimable_now s = jsonInteger (Some amount) ∧
             (getCachedClaimable now recipient rd = Some amount ∧ rd' = rd ∨
              getCachedClaimable now recipient rd = None ∧ chain = Some amount ∧ rd' = cacheClaimable now recipient amount rd)
  | (Unavailable, rd') => isTerminal (status r) = false ∧ getCachedClaimable now recipient rd = None ∧ chain = None ∧ rd' = rd
  | _ => False
  end.
Proof.
  intros Hr Ht. unfold StreamDetails.streamDetailsHandler. rewrite Hr, Ht. destruct totals as [deposited claimed]. cbn [negb].
  assert (Hterm : is_Some (terminal_event_of clawback_reason recipient r) ↔ isTerminal (status r) = true).
  { unfold terminal_event_of, isTerminal. destruct (status r); simpl; split; intros H; try done; try (by eexists); by destruct H. }
  destruct (isTerminal (status r)) eqn:E.
  { cbn -[jsonInteger]. split_and!; try done; apply jsonInteger_exact. }
  unfold getClaimableAmount. destruct (getCachedClaimable now recipient rd) as [a|] eqn:Hc; [|destruct chain as [a|]].
  - cbn -[jsonInteger getCachedClaimable]. split_and!; try done; try apply jsonInteger_exact. exists a. split; [done|]. by left.
  - cbn -[jsonInteger getCachedClaimable]. split_and!; try done; try apply jsonInteger_exact. exists a. split; [done|]. by right.
  - cbn -[jsonInteger getCachedClaimable]. done.
Qed.

(** The events the indexer stores never carry the names the totals select. *)
Lemma sum_events_vc recipient evs t : t ∈ ["vc_create"; "vc_claim"] → sum_events t recipient evs = None.
Proof.
  intros Ht. unfold sum_events.
  assert (omap (λ e : event_row, if decide (er_recipient e = recipient ∧ event_type_text (er_event_type e) = t) then er_amount e else None) evs = []) as ->; [|done].
  induction evs as [|e evs IH]; [done|]. simpl. rewrite decide_False; [done|]. intros [_ <-].
  destruct (er_event_type e); apply elem_of_cons in Ht as [Ht|Ht%list_elem_of_singleton]; discriminate Ht.
Qed.
(** The totals of the details do not come from the events, whatever was
    indexed: nothing is ever shown as claimed, and the deposit is the product of
    the row's ledgers and rate, which is an error when it is not a bigint. *)
Theorem totals_without_events recipient r evs :
  totals_query recipient r evs =
    let product := (end_ledger r - start_ledger r) * rate_per_ledger r in
    if fits_bigint product then Some (product, 0) else None.
Proof.
  unfold totals_query. rewrite !sum_events_vc by set_solver. cbn zeta. by destruct (fits_bigint _).
Qed.

(** *** Staleness *)

(** Every amount of the cache is what the contract answered to a request of that
    recipient at most its time to live ago. *)
Definition cache_from (past : list request) (rd : option redis) : Prop :=
  ∀ m recipient a e, rd = Some m → m !! claimable_key recipient = Some (a, e) →
    ∃ rq, rq ∈ past ∧ of_recipient rq = recipient ∧ contract rq = Some a ∧ e = at_time rq + CLAIMABLE_TTL_SECONDS.
Definition fresh_amount (past : list request) (now : Z) (recipient a : string) : Prop :=
  ∃ rq, rq ∈ past ∧ of_recipient rq = recipient ∧ contract rq = Some a ∧ now < at_time rq + CLAIMABLE_TTL_SECONDS.
Definition fresh_answer (past : list request) (now : Z) (recipient : string) (a : answer) : Prop :=
  match a with
  | Served s => isTerminal (d_status s) = true ∧ claimable_now s = JNum 0 ∨
                ∃ amount, claimable_now s = jsonInteger (Some amount) ∧ fresh_amount past now recipient amount
  | _ => True
  end.

Lemma cache_from_mono past past' rd : past ⊆ past' → cache_from past rd → cache_from past' rd.
Proof. intros Hs Hc m recipient a e Hm Hl. destruct (Hc m recipient a e Hm Hl) as (rq & ? & ?). exists rq. set_solver. Qed.
Lemma serve_request_fresh past rd rq a rd' :
  cache_from past rd → serve_request created_at clawback_reason rd rq = (a, rd') →
  cache_from (rq :: past) rd' ∧ fresh_answer (rq :: past) (at_time rq) (of_recipient rq) a.
Proof.
  intros Hc Hs. assert (Hc' : cache_from (rq :: past) rd) by (eapply cache_from_mono; [|done]; set_solver).
  unfold serve_request in Hs. set (now := at_time rq) in *. set (recipient := of_recipient rq) in *.
  destruct (vesting_streams (tables rq) !! recipient) as [r|] eqn:Hr.
  2:{ unfold StreamDetails.streamDetailsHandler in Hs. rewrite Hr in Hs. by simplify_eq/=. }
  destruct (totals_query recipient r (stream_events (tables rq))) as [totals|] eqn:Ht.
  2:{ unfold StreamDetails.streamDetailsHandler in Hs. rewrite Hr, Ht in Hs. by simplify_eq/=. }
  pose proof (details_spec now recipient (tables rq) (contract rq) rd r totals Hr Ht) as Hd. rewrite Hs in Hd.
  destruct a as [| | |s]; try done; [by destruct Hd as (_ & _ & _ & ->)|].
  destruct Hd as (_ & Hst & _ & _ & _ & Hd). rewrite <-Hst in Hd. destruct (isTerminal (d_status s)) eqn:E.
  { destruct Hd as [Hz ->]. split; [done|]. by left. }
  destruct Hd as (amount & Hn & [[Hg ->]|(Hg & Hch & ->)]).
  - split; [done|]. right. exists amount. split; [done|]. unfold getCachedClaimable in Hg.
    destruct rd as [m|]; [|done]. simpl in Hg. destruct (m !! claimable_key recipient) as [[a e]|] eqn:Hm; [|done]. simpl in Hg.
    destruct (decide (now < e)) as [Hlt|]; [|done]. simplify_eq. destruct (Hc' m recipient amount e eq_refl Hm) as (rq' & ? & ? & ? & ->).
    exists rq'. split_and!; done.
  - split.
    + intros m recipient' a e Hm Hl. destruct rd as [m0|]; [|done]. simpl in Hm. simplify_eq.
      destruct (decide (recipient' = recipient)) as [->|Hne].
      * rewrite lookup_insert_eq in Hl. simplify_eq. exists rq. split_and!; try done. set_solver.
      * rewrite lookup_insert_ne in Hl by (intros ->%claimable_key_inj; done). eauto.
    + right. exists amount. split; [done|]. exists rq. split_and!; try done; [set_solver|]. unfold now, CLAIMABLE_TTL_SECONDS. lia.
Qed.
(** However requests of any recipients interleave and whatever the contract
    answers in between, a stream that can still be claimed is shown with an
    amount that the contract gave for that same recipient less than thirty
    seconds before, and a terminal one with zero. *)
Theorem claimable_fresh m rqs answers rd' :
  m = None ∨ m = Some ∅ → serve_all m rqs = (answers, rd') →
  ∀ i rq a, rqs !! i = Some rq → answers !! i = Some a → fresh_answer (take (S i) rqs) (at_time rq) (of_recipient rq) a.
Proof.
  intros Hm Hs i rq a Hrq Ha.
  assert (Hc : cache_from [] m) by (intros m0 ? ? ? -> Hl; destruct Hm as [|[= ->]]; [done|]; by rewrite lookup_empty in Hl).
  assert (G : ∀ rqs past rd answers, cache_from past rd → serve_all rd rqs = (answers, rd') →
    ∀ i, rqs !! i = Some rq → answers !! i = Some a → fresh_answer (reverse (take (S i) rqs) ++ past) (at_time rq) (of_recipient rq) a).
  { clear. induction rqs as [|q rqs IH]; intros past rd answers Hc Hs i Hrq Ha; [done|]. simpl in Hs.
    destruct (serve_request created_at clawback_reason rd q) as [b rd1] eqn:H1.
    destruct (StreamDetails.serve_all created_at clawback_reason rd1 rqs) as [bs rd2] eqn:H2. simplify_eq.
    destruct (serve_request_fresh past rd q b rd1 Hc H1) as [Hc1 Hb]. destruct i as [|i]; simplify_eq/=.
    - done.
    - rewrite reverse_cons, <-app_assoc. simpl. by eapply IH. }
  specialize (G rqs [] m answers Hc Hs i Hrq Ha). rewrite app_nil_r in G.
  unfold fresh_answer, fresh_amount in *. destruct a; try done. destruct G as [|(amount & ? & rq' & Hin & ?)]; [by left|right].
  exists amount. split; [done|]. exists rq'. split; [by apply elem_of_reverse|done].
Qed.
End proofs.

(** ** Witnesses *)

Definition sample_row (s : StreamStatus) : stream_row :=
  StreamRow s 0 "GS" "CT" 1000000 100 150 1100 0 None None None None None None None None None None None None None.
Definition sample_db : db :=
  Db {["GA" := sample_row active; "GB" := sample_row drained]} []
     [EventRow TokensClaimed "GA" "GS" "CT" (Some 7) 5 "t1"] ∅ None.
Definition sample_requests : list request :=
  [Request 0 "GA" sample_db (Some "9007199254740993"); Request 29 "GA" sample_db (Some "5"); Request 29 "GB" sample_db None; Request 30 "GA" sample_db None].
Definition sample_answers : list answer * option redis := serve_all (λ _, 0) (λ _, None) (Some ∅) sample_requests.

Example sample_answers_eq :
  (λ a, match a with Served s => Some (total_claimed s, claimable_now s, d_terminal_event s) | _ => None end) <$> sample_answers.1 =
  [Some (JNum 0, JText "9007199254740993", None); Some (JNum 0, JText "9007199254740993", None);
   Some (JNum 0, JNum 0, Some TStreamDrained); None].
Proof. vm_compute. reflexivity. Qed.

Lemma details_spec_witness :
  vesting_streams sample_db !! "GA" = Some (sample_row active) ∧
  totals_query "GA" (sample_row active) (stream_events sample_db) = Some (1000000000, 0) ∧
  (streamDetailsHandler (λ _, 0) (λ _, None) true 0 "GA" sample_db None None).1 = Unavailable ∧
  match streamDetailsHandler (λ _, 0) (λ _, None) true 0 "GA" sample_db (Some "5") None with
  | (Served s, _) => claimable_now s = JNum 5 | _ => False end.
Proof.
  assert (H1 : vesting_streams sample_db !! "GA" = Some (sample_row active)) by reflexivity.
  assert (H2 : totals_query "GA" (sample_row active) (stream_events sample_db) = Some (1000000000, 0)) by (vm_compute; reflexivity).
  pose proof (details_spec (λ _, 0) (λ _, None) 0 "GA" sample_db None None _ _ H1 H2) as H3.
  pose proof (details_spec (λ _, 0) (λ _, None) 0 "GA" sample_db (Some "5") None _ _ H1 H2) as H4.
  split; [exact H1|]. split; [exact H2|]. split; [vm_compute; reflexivity|].
  destruct (streamDetailsHandler _ _ _ _ _ _ (Some "5") _) as [[| | |s] rd]; try exact H4; [destruct H4 as (_ & _ & [=] & _)|].
  destruct H4 as (_ & Hst & _ & _ & _ & Hc). simpl in Hc. destruct Hc as (a & -> & [[[=] _]|(_ & [= <-] & _)]). vm_compute. reflexivity.
Defined.

Lemma claimable_fresh_witness :
  ∃ a, sample_answers.1 !! 1%nat = Some a ∧ fresh_answer (take 2 sample_requests) 29 "GA" a.
Proof.
  destruct (sample_answers.1 !! 1%nat) as [a|] eqn:E; [|vm_compute in E; discriminate E].
  exists a. split; [done|].
  exact (claimable_fresh (λ _, 0) (λ _, None) (Some ∅) sample_requests sample_answers.1 sample_answers.2 (or_intror eq_refl)
    (surjective_pairing sample_answers) 1%nat (Request 29 "GA" sample_db (Some "5")) a eq_refl E).
Defined.
