(* ===== verification/Analytics.v ===== *)
(** * Analytics

    [backend/src/routes/analytics.ts], [analyticsSummary.ts] and
    [jobs/analyticsSummaryJob.ts]: the totals of a sponsor by token, the global
    summaries, their response caches, and the job that keeps one of them warm.
    The tables [schedules] and [claims] are those of migrations V1 and V3.  The
    order of the groups of a query is that of their first row. *)
From stdpp Require Import list gmap.
From S2P Require Import Prelude Decoder Db.
#[local] Open Scope Z_scope.

(** ** Tables *)

Record schedule := Schedule {
  s_recipient : string;
  s_sponsor : string;
  s_token : string;
  total_deposit : Z;
  s_status : string;
  s_created_at : Z }.
Record claim := Claim { c_recipient : string; c_token : string; c_amount : Z }.

(** ** A cache of responses *)

(** Redis: values with the second they expire, [None] without a connection;
    [get_works] and [set_works] are whether a command succeeds. *)
Section cache.
Context {A : Type}.
Notation redis := (option (gmap string (A * Z))).
Definition redis_get (now : Z) (k : string) (rd : redis) : option A :=
  m ← rd; e ← m !! k; if decide (now < e.2) then Some e.1 else None.
Definition redis_setEx (set_works : bool) (k : string) (ttl now : Z) (v : A) (rd : redis) : redis :=
  if set_works then <[k := (v, now + ttl)]> <$> rd else rd.
End cache.

(** ** The totals of a sponsor *)

Definition CACHE_TTL_SEC : Z := 60.
Record token_row := TokenRow { t_token : string; t_active : Z; t_locked : string; t_claimed : string }.

(** The lateral join: what was claimed of the token by the recipient. *)
Definition claimed_by (claims : list claim) (s : schedule) : Z :=
  sum_Z (c_amount <$> filter (λ c, c_recipient c = s_recipient s ∧ c_token c = s_token s) claims).
Definition active_of (address : string) (schedules : list schedule) : list schedule :=
  filter (λ s, s_sponsor s = address ∧ s_status s = "active") schedules.
Definition token_group (claims : list claim) (rows : list schedule) (t : string) : token_row :=
  let g := filter (λ s, s_token s = t) rows in
  TokenRow t (Z.of_nat (length g)) (Z_to_string (sum_Z (total_deposit <$> g))) (Z_to_string (sum_Z (claimed_by claims <$> g))).
Definition sponsor_query (address : string) (schedules : list schedule) (claims : list claim) : list token_row :=
  let rows := active_of address schedules in token_group claims rows <$> remove_dups (s_token <$> rows).

(** [(BigInt(a) + BigInt(b)).toString()]; [None] when [BigInt] throws. *)
Definition add_text (a b : string) : option string := x ← Z_of_string a; y ← Z_of_string b; Some (Z_to_string (x + y)).
Record totals := Totals { active_streams : Z; total_locked : string; total_claimed : string }.
Fixpoint reduce_totals (acc : totals) (rows : list token_row) : option totals :=
  match rows with
  | [] => Some acc
  | r :: rows =>
      l ← add_text (total_locked acc) (t_locked r); c ← add_text (total_claimed acc) (t_claimed r);
      reduce_totals (Totals (active_streams acc + t_active r) l c) rows
  end.
Record payload := Payload { p_sponsor : string; p_totals : totals; by_token : list token_row }.
Inductive answer (A : Type) := Served (a : A) (cached : bool) | Failed | Crashed.
Arguments Served {A}. Arguments Failed {A}. Arguments Crashed {A}.

Definition sponsor_key (address : string) : string := "analytics:sponsor:" +:+ address.
(** [database] is [None] when the query fails. *)
Definition sponsorAnalyticsHandler (now : Z) (get_works set_works : bool) (database : option (list schedule * list claim))
    (address : string) (rd : option (gmap string (payload * Z))) : answer payload * option (gmap string (payload * Z)) :=
  if bool_decide (is_Some rd) && negb get_works then (Failed, rd)
  else
    match redis_get now (sponsor_key address) rd with
    | Some p => (Served p true, rd)
    | None =>
        match database with
        | None => (Failed, rd)
        | Some (schedules, claims) =>
            let rows := sponsor_query address schedules claims in
            match reduce_totals (Totals 0 "0" "0") rows with
            | None => (Failed, rd)
            | Some t =>
                let p := Payload address t rows in
                (Served p false, redis_setEx set_works (sponsor_key address) CACHE_TTL_SEC now p rd)
            end
        end
    end.

(** ** The summary by token *)

Definition SUMMARY_TTL_SEC : Z := 300.
Definition CACHE_KEY_PREFIX : string := "analytics:summary".
Record AnalyticsSummary := Summary {
  total_streams_created : Z;
  active_count : Z;
  total_tokens_locked : gmap string string;
  total_tokens_claimed : gmap string string;
  streams_created_last_30d : Z;
  unique_sponsors : Z;
  unique_recipients : Z }.
Definition thirty_days : Z := 30 * 24 * 3600.
(** The filter of the query string; an empty one is none. *)
Definition wanted (tokenFilter : option string) (t : string) : bool :=
  match tokenFilter with Some f => negb (truthy f) || bool_decide (t = f) | None => true end.
Definition count {A} (p : A → bool) (l : list A) : Z := Z.of_nat (length (filter (λ x, p x = true) l)).
Definition count_distinct (l : list string) : Z := Z.of_nat (length (remove_dups l)).
(** [for (row of rows) if (row.token) object[row.token] = row.sum] over the
    groups of a query. *)
Definition sums_by_token {A} (token_of : A → string) (value : A → Z) (rows : list A) : gmap string string :=
  foldl (λ m t, if truthy t then <[t := Z_to_string (sum_Z (value <$> filter (λ r, token_of r = t) rows))]> m else m) ∅
    (remove_dups (token_of <$> rows)).
Definition computeSummary (now : Z) (tokenFilter : option string) (schedules : list schedule) (events : list event_row) : AnalyticsSummary :=
  let mine := filter (λ s, wanted tokenFilter (s_token s) = true) schedules in
  Summary (Z.of_nat (length mine)) (count (λ s, bool_decide (s_status s = "active")) mine)
    (sums_by_token s_token total_deposit (filter (λ s, s_status s = "active") mine))
    (sums_by_token er_token (λ e, default 0 (er_amount e))
       (filter (λ e, event_type_text (er_event_type e) = "vc_claim" ∧ wanted tokenFilter (er_token e) = true) events))
    (count (λ s, now - thirty_days <=? s_created_at s) mine) (count_distinct (s_sponsor <$> mine)) (count_distinct (s_recipient <$> mine)).

Definition summary_key (tokenFilter : option string) : string :=
  match tokenFilter with
  | Some f => if truthy f then CACHE_KEY_PREFIX +:+ ":token:" +:+ f else CACHE_KEY_PREFIX
  | None => CACHE_KEY_PREFIX
  end.
Notation summaries := (option (gmap string (AnalyticsSummary * Z))).
(** A failing query rejects outside of any [try]. *)
Definition analyticsSummaryHandler (now : Z) (get_works set_works : bool) (database : option (list schedule * list event_row))
    (tokenFilter : option string) (rd : summaries) : answer AnalyticsSummary * summaries :=
  match (if get_works then redis_get now (summary_key tokenFilter) rd else None) with
  | Some s => (Served s true, rd)
  | None =>
      match database with
      | None => (Crashed, rd)
      | Some (schedules, events) =>
          let s := computeSummary now tokenFilter schedules events in
          (Served s false, redis_setEx set_works (summary_key tokenFilter) SUMMARY_TTL_SEC now s rd)
      end
  end.
(** The job: whether it was [ok], and the cache. *)
Definition refreshAnalyticsSummaryCache (now : Z) (set_works : bool) (database : option (list schedule * list event_row)) (rd : summaries)
    : bool * summaries :=
  match database with
  | None => (false, rd)
  | Some (schedules, events) =>
      let s := computeSummary now None schedules events in
      match rd with
      | None => (true, rd)
      | Some _ => (set_works, redis_setEx set_works CACHE_KEY_PREFIX SUMMARY_TTL_SEC now s rd)
      end
  end.

(** Requests and runs of the job, each at its time, with what it finds. *)
Inductive happening :=
| HRequest (tokenFilter : option string) (get_works : bool)
| HJob.
Record moment := Moment { at_time : Z; what : happening; tables : option (list schedule * list event_row); writable : bool }.
Definition live (rd : summaries) (m : moment) : option (answer AnalyticsSummary) * summaries :=
  match what m with
  | HRequest f g => let '(a, rd) := analyticsSummaryHandler (at_time m) g (writable m) (tables m) f rd in (Some a, rd)
  | HJob => (None, (refreshAnalyticsSummaryCache (at_time m) (writable m) (tables m) rd).2)
  end.
Fixpoint live_all (rd : summaries) (ms : list moment) : list (option (answer AnalyticsSummary)) * summaries :=
  match ms with
  | [] => ([], rd)
  | m :: ms => let '(a, rd) := live rd m in let '(ans, rd) := live_all rd ms in (a :: ans, rd)
  end.

(** ** The global summary *)

(** The columns of [vesting_streams] it reads. *)
Record stream := Stream { v_sponsor : string; v_recipient : string; v_status : string; v_end : Z; v_last_claimed : Z; v_start : Z; v_rate : Z }.
Record global_summary := Global {
  g_total_streams : Z;
  g_active_streams : Z;
  g_total_value_locked : string;
  g_total_claimed : string;
  g_unique_sponsors : Z;
  g_unique_recipients : Z;
  g_by_status : gmap string Z }.
Definition is_running (s : stream) : bool := bool_decide (v_status s ∈ ["active"; "pre_cliff"]).
(** Products are bigint: [None] when one overflows. *)
Definition global_query (rows : list stream) : option global_summary :=
  let locked := (λ s, if is_running s then (v_end s - v_last_claimed s) * v_rate s else 0) <$> rows in
  let claimed := (λ s, v_last_claimed s * v_rate s) <$> rows in
  if forallb fits_bigint locked && forallb fits_bigint claimed then
    Some (Global (Z.of_nat (length rows)) (count is_running rows) (Z_to_string (sum_Z locked)) (Z_to_string (sum_Z claimed))
      (count_distinct (v_sponsor <$> rows)) (count_distinct (v_recipient <$> rows))
      (foldl (λ m st, <[st := count (λ s, bool_decide (v_status s = st)) rows]> m) ∅ (remove_dups (v_status <$> rows))))
  else None.

Definition global_key : string := "analytics:summary:v1".
(** The read of the cache is outside of the [try]. *)
Definition globalSummaryHandler (now : Z) (get_works set_works : bool) (database : option (list stream))
    (rd : option (gmap string (global_summary * Z))) : answer global_summary * option (gmap string (global_summary * Z)) :=
  if bool_decide (is_Some rd) && negb get_works then (Crashed, rd)
  else
    match redis_get now global_key rd with
    | Some g => (Served g true, rd)
    | None =>
        match database ≫= global_query with
        | None => (Failed, rd)
        | Some g => (Served g false, redis_setEx set_works global_key CACHE_TTL_SEC now g rd)
        end
    end.

(** ** Sums over groups *)

Lemma sum_Z_cons x l : sum_Z (x :: l) = x + sum_Z l.
Proof. done. Qed.
Lemma sum_Z_app l l' : sum_Z (l ++ l') = sum_Z l + sum_Z l'.
Proof. unfold sum_Z. induction l as [|x l IH]; simpl; lia. Qed.
Lemma sum_Z_perm l l' : l ≡ₚ l' → sum_Z l = sum_Z l'.
Proof. unfold sum_Z. induction 1; simpl; lia. Qed.
(** The groups of a query partition its rows. *)
Lemma groups_perm {A} (f : A → string) (rows : list A) ts : NoDup ts → (∀ r, r ∈ rows → f r ∈ ts) →
  concat ((λ t, filter (λ r, f r = t) rows) <$> ts) ≡ₚ rows.
Proof.
  revert rows. induction ts as [|t ts IH]; intros rows Hnd Hin.
  - destruct rows as [|r rows]; [done|]. by specialize (Hin r ltac:(left)) as ?%not_elem_of_nil.
  - apply NoDup_cons in Hnd as [Ht Hnd]. rewrite fmap_cons. cbn [concat].
    assert (Hrest : concat ((λ t', filter (λ r, f r = t') rows) <$> ts) = concat ((λ t', filter (λ r, f r = t') (filter (λ r, f r ≠ t) rows)) <$> ts)).
    { f_equal. apply list_fmap_ext. intros i t' Hi. rewrite list_filter_filter. apply list_filter_iff. intros r. split; [|tauto].
      intros Hf. split; [done|]. intros Heq. apply Ht. rewrite <-Heq, Hf. by eapply list_elem_of_lookup_2. }
    rewrite Hrest, IH; [|done|].
    + clear. induction rows as [|r rows IH]; [done|]. rewrite !filter_cons. destruct (decide (f r = t)) as [E|E].
      * rewrite decide_False by auto. cbn [app]. by rewrite IH.
      * rewrite decide_True by done. by rewrite <-Permutation_middle, IH.
    + intros r [Hne Hr]%list_elem_of_filter. specialize (Hin r Hr). by apply elem_of_cons in Hin as [|].
Qed.
Lemma sum_groups {A} (f : A → string) (value : A → Z) (rows : list A) :
  sum_Z ((λ t, sum_Z (value <$> filter (λ r, f r = t) rows)) <$> remove_dups (f <$> rows)) = sum_Z (value <$> rows).
Proof.
  transitivity (sum_Z (value <$> concat ((λ t, filter (λ r, f r = t) rows) <$> remove_dups (f <$> rows)))).
  - generalize (remove_dups (f <$> rows)). intros ts. induction ts as [|t ts IH]; [done|].
    cbn [fmap list_fmap concat]. rewrite fmap_app, sum_Z_app, <-IH. done.
  - apply sum_Z_perm, fmap_Permutation, groups_perm; [apply NoDup_remove_dups|].
    intros r Hr. by apply elem_of_remove_dups, list_elem_of_fmap_2.
Qed.
Lemma length_sum {A} (l : list A) : Z.of_nat (length l) = sum_Z ((λ _, 1) <$> l).
Proof. unfold sum_Z. induction l as [|x l IH]; cbn [fmap list_fmap foldr length]; lia. Qed.

(** ** The totals of a sponsor: proofs *)

Lemma add_text_sum x y : add_text (Z_to_string x) (Z_to_string y) = Some (Z_to_string (x + y)).
Proof. unfold add_text. by rewrite !Z_of_to_string. Qed.
Lemma reduce_totals_groups claims rows ts : ∀ a l c,
  reduce_totals (Totals a (Z_to_string l) (Z_to_string c)) (token_group claims rows <$> ts) =
    let g t := filter (λ s, s_token s = t) rows in
    Some (Totals (a + sum_Z ((λ t, Z.of_nat (length (g t))) <$> ts)) (Z_to_string (l + sum_Z ((λ t, sum_Z (total_deposit <$> g t)) <$> ts)))
      (Z_to_string (c + sum_Z ((λ t, sum_Z (claimed_by claims <$> g t)) <$> ts)))).
Proof.
  induction ts as [|t ts IH]; intros a l c; cbn zeta; [cbn; by rewrite !Z.add_0_r|].
  rewrite !fmap_cons, !sum_Z_cons. cbn [reduce_totals token_group total_locked total_claimed t_locked t_claimed t_active active_streams].
  rewrite !add_text_sum. cbn [mbind option_bind]. rewrite IH. cbn zeta. by rewrite !Z.add_assoc.
Qed.

(** The totals of a sponsor are those of its active streams, however the
    query groups them by token: their number, the sum of their deposits, and the
    sum over them of what their recipients claimed of their tokens. *)
Theorem sponsor_totals now get_works set_works schedules claims address :
  let mine := active_of address schedules in
  ∃ rows, sponsorAnalyticsHandler now get_works set_works (Some (schedules, claims)) address None =
    (Served (Payload address (Totals (Z.of_nat (length mine)) (Z_to_string (sum_Z (total_deposit <$> mine)))
       (Z_to_string (sum_Z (claimed_by claims <$> mine)))) rows) false, None) ∧
    NoDup (t_token <$> rows) ∧
    ∀ r, r ∈ rows → let g := filter (λ s, s_token s = t_token r) mine in
      g ≠ [] ∧ t_active r = Z.of_nat (length g) ∧ Z_of_string (t_locked r) = Some (sum_Z (total_deposit <$> g)) ∧
      Z_of_string (t_claimed r) = Some (sum_Z (claimed_by claims <$> g)).
Proof.
  intros mine. exists (sponsor_query address schedules claims). split_and!.
  - unfold sponsorAnalyticsHandler, sponsor_query. cbn [bool_decide]. fold mine.
    change (bool_decide (is_Some None) && negb get_works) with false. cbv iota. cbn [redis_get mbind option_bind].
    change (Totals 0 "0" "0") with (Totals 0 (Z_to_string 0) (Z_to_string 0)). rewrite reduce_totals_groups. cbn zeta.
    assert (Hc : sum_Z ((λ t, Z.of_nat (length (filter (λ s, s_token s = t) mine))) <$> remove_dups (s_token <$> mine)) = Z.of_nat (length mine)).
    { rewrite length_sum, <-(sum_groups s_token (λ _, 1)). f_equal. apply list_fmap_ext. intros i t _. apply length_sum. }
    rewrite !Z.add_0_l, !sum_groups, Hc. by destruct set_works.
  - unfold sponsor_query. fold mine. rewrite <-list_fmap_compose. erewrite list_fmap_ext, list_fmap_id; [apply NoDup_remove_dups|done].
  - intros r (t & -> & Ht)%list_elem_of_fmap. cbn zeta. cbn [token_group t_token t_active t_locked t_claimed]. fold mine.
    rewrite !Z_of_to_string. split_and!; try done. apply elem_of_remove_dups, list_elem_of_fmap in Ht as (s & -> & Hs).
    intros Hg. assert (Hin : s ∈ filter (λ s', s_token s' = s_token s) mine) by by apply list_elem_of_filter.
    rewrite Hg in Hin. by apply not_elem_of_nil in Hin.
Qed.

(** ** The summary by token: proofs *)

Lemma sums_by_token_lookup {A} (f : A → string) (v : A → Z) rows t :
  sums_by_token f v rows !! t =
    if decide (truthy t = true ∧ t ∈ f <$> rows) then Some (Z_to_string (sum_Z (v <$> filter (λ r, f r = t) rows))) else None.
Proof.
  unfold sums_by_token.
  assert (G : ∀ ts (m : gmap string string), foldl (λ m t, if truthy t then <[t := Z_to_string (sum_Z (v <$> filter (λ r, f r = t) rows))]> m else m) m ts !! t =
    if decide (truthy t = true ∧ t ∈ ts) then Some (Z_to_string (sum_Z (v <$> filter (λ r, f r = t) rows))) else m !! t).
  { induction ts as [|t' ts IH]; intros m; simpl; [by rewrite decide_False by set_solver|]. rewrite IH. clear IH.
    destruct (decide (truthy t = true ∧ t ∈ ts)) as [[H1 H2]|Hn]; [rewrite decide_True; [done|set_solver]|].
    destruct (truthy t') eqn:Et, (decide (t' = t)) as [->|Hne].
    - rewrite lookup_insert_eq, decide_True; [done|set_solver].
    - rewrite lookup_insert_ne by done. rewrite decide_False; [done|]. set_solver.
    - rewrite decide_False; [done|]. intros [? _]. congruence.
    - rewrite decide_False; [done|]. set_solver. }
  rewrite G, lookup_empty.
  destruct (decide (truthy t = true ∧ t ∈ f <$> rows)) as [[H1 H2]|Hn].
  - rewrite decide_True; [done|]. split; [done|]. by apply elem_of_remove_dups.
  - rewrite decide_False; [done|]. intros [H1 H2]. apply Hn. split; [done|]. by apply (elem_of_remove_dups (f <$> rows)).
Qed.

(** The active streams of a token. *)
Definition active_of_token (t : string) (schedules : list schedule) : list schedule :=
  filter (λ s, s_token s = t ∧ s_status s = "active") schedules.
(** What is locked, token by token: a token is listed when the filter lets
    it through and one of its streams is active, with the sum of the deposits of
    those; so the summary of one token says of it what the summary of all says.
    Nothing is ever listed as claimed, whatever events were indexed. *)
Theorem summary_by_token now tokenFilter schedules events t :
  let s := computeSummary now tokenFilter schedules events in
  total_tokens_locked s !! t =
    (if decide (truthy t = true ∧ wanted tokenFilter t = true ∧ active_of_token t schedules ≠ [])
     then Some (Z_to_string (sum_Z (total_deposit <$> active_of_token t schedules))) else None) ∧
  total_tokens_claimed s = ∅.
Proof.
  cbn zeta. split.
  - cbn [computeSummary total_tokens_locked]. rewrite sums_by_token_lookup. rewrite !list_filter_filter.
    assert (Hin : t ∈ s_token <$> filter (λ s, s_status s = "active" ∧ wanted tokenFilter (s_token s) = true) schedules ↔
      wanted tokenFilter t = true ∧ active_of_token t schedules ≠ []).
    { split.
      - intros (s & -> & [[H1 H2] H3]%list_elem_of_filter)%list_elem_of_fmap. split; [done|]. intros Hn.
        assert (H : s ∈ active_of_token (s_token s) schedules) by by apply list_elem_of_filter. rewrite Hn in H. by apply not_elem_of_nil in H.
      - intros [Hw Hn]. destruct (active_of_token t schedules) as [|s l] eqn:E; [done|].
        assert (H : s ∈ active_of_token t schedules) by (rewrite E; left). apply list_elem_of_filter in H as [[<- Ha] Hs].
        apply list_elem_of_fmap_2, list_elem_of_filter. done. }
    destruct (decide (truthy t = true ∧ wanted tokenFilter t = true ∧ active_of_token t schedules ≠ [])) as [(H1 & H2)|Hn].
    + rewrite decide_True by (split; [done|by apply Hin]). do 4 f_equal. apply list_filter_iff. intros s. split; [tauto|].
      intros [<- ?]. split; [done|]. tauto.
    + rewrite decide_False; [done|]. intros [H1 H2%Hin]. tauto.
  - cbn [computeSummary total_tokens_claimed].
    assert (filter (λ e : event_row, event_type_text (er_event_type e) = "vc_claim" ∧ wanted tokenFilter (er_token e) = true) events = []) as ->; [|done].
    induction events as [|e events IH]; [done|]. rewrite filter_cons_False; [done|]. intros [He _]. by destruct (er_event_type e).
Qed.

(** *** The cache and the job *)

(** A filter that is empty is none. *)
Definition norm (f : option string) : option string := match f with Some t => if truthy t then f else None | None => None end.
Lemma summary_key_inj f f' : summary_key f = summary_key f' → norm f = norm f'.
Proof.
  unfold summary_key, norm. destruct f as [t|], f' as [t'|]; try destruct (truthy t) eqn:E; try destruct (truthy t') eqn:E'; try done.
  intros H. apply string_app_inj_l, string_app_inj_l in H. by subst.
Qed.
Lemma wanted_norm f t : wanted (norm f) t = wanted f t.
Proof. unfold wanted, norm. destruct f as [x|]; [|done]. by destruct (truthy x) eqn:E; rewrite ?E. Qed.
Lemma computeSummary_norm now f schedules events : computeSummary now (norm f) schedules events = computeSummary now f schedules events.
Proof.
  assert (H1 : filter (λ s, wanted (norm f) (s_token s) = true) schedules = filter (λ s, wanted f (s_token s) = true) schedules).
  { apply list_filter_iff. intros s. by rewrite wanted_norm. }
  assert (H2 : filter (λ e : event_row, event_type_text (er_event_type e) = "vc_claim" ∧ wanted (norm f) (er_token e) = true) events =
    filter (λ e : event_row, event_type_text (er_event_type e) = "vc_claim" ∧ wanted f (er_token e) = true) events).
  { apply list_filter_iff. intros e. by rewrite wanted_norm. }
  unfold computeSummary. by rewrite H1, H2.
Qed.
Definition computed_at (m : moment) (f : option string) (s : AnalyticsSummary) : Prop :=
  ∃ schedules events, tables m = Some (schedules, events) ∧ s = computeSummary (at_time m) f schedules events.
Definition summaries_from (past : list moment) (rd : summaries) : Prop :=
  ∀ mp f s e, rd = Some mp → mp !! summary_key f = Some (s, e) → ∃ m, m ∈ past ∧ computed_at m f s ∧ e = at_time m + SUMMARY_TTL_SEC.
Lemma summaries_from_set past rd m works f schedules events : tables m = Some (schedules, events) → summaries_from past rd →
  summaries_from (m :: past) (redis_setEx works (summary_key f) SUMMARY_TTL_SEC (at_time m) (computeSummary (at_time m) f schedules events) rd).
Proof.
  intros Ht Hp mp f' s e Hm Hl. unfold redis_setEx in Hm. destruct works.
  - destruct rd as [mp0|]; [|done]. simpl in Hm. injection Hm as <-. destruct (decide (summary_key f = summary_key f')) as [E|Hne].
    + rewrite E, lookup_insert_eq in Hl. injection Hl as <- <-. exists m. split; [left|]. split; [|done].
      exists schedules, events. split; [done|]. rewrite <-(computeSummary_norm _ f), <-(computeSummary_norm _ f').
      by rewrite (summary_key_inj f f') by done.
    + rewrite lookup_insert_ne in Hl by done. destruct (Hp mp0 f' s e eq_refl Hl) as (m' & ? & ?). exists m'. split; [by right|done].
  - destruct (Hp mp f' s e Hm Hl) as (m' & ? & ?). exists m'. split; [by right|done].
Qed.
Definition fresh_summary (past : list moment) (m : moment) (a : option (answer AnalyticsSummary)) : Prop :=
  match what m, a with
  | HRequest f _, Some (Served s cached) => ∃ m', m' ∈ past ∧ computed_at m' f s ∧ at_time m < at_time m' + SUMMARY_TTL_SEC
  | _, _ => True
  end.
Lemma live_fresh past rd m a rd' : summaries_from past rd → live rd m = (a, rd') → summaries_from (m :: past) rd' ∧ fresh_summary (m :: past) m a.
Proof.
  intros Hp Hl. assert (Hp' : summaries_from (m :: past) rd).
  { intros mp f s e Hm He. destruct (Hp mp f s e Hm He) as (m' & ? & ?). exists m'. split; [by right|done]. }
  unfold live in Hl. unfold fresh_summary. destruct (what m) as [f g|].
  - unfold analyticsSummaryHandler in Hl. destruct (if g then redis_get (at_time m) (summary_key f) rd else None) as [s|] eqn:Eg.
    + simplify_eq. split; [done|]. destruct g; [|done]. unfold redis_get in Eg. destruct rd' as [mp|]; [|done]. simpl in Eg.
      destruct (mp !! summary_key f) as [[s' e]|] eqn:Em; [|done]. simpl in Eg. destruct (decide (at_time m < e)); [|done]. simplify_eq.
      destruct (Hp' mp f s e eq_refl Em) as (m' & Hin & Hc & ->). by exists m'.
    + destruct (tables m) as [[schedules events]|] eqn:Et; simplify_eq; [|done]. split; [by apply summaries_from_set|].
      exists m. split; [left|]. split; [by exists schedules, events|]. unfold SUMMARY_TTL_SEC. lia.
  - simplify_eq. split; [|done]. unfold refreshAnalyticsSummaryCache. destruct (tables m) as [[schedules events]|] eqn:Et; [|done].
    destruct rd as [mp|]; [|done]. change CACHE_KEY_PREFIX with (summary_key None). by apply summaries_from_set.
Qed.
(** However requests, with and without a token, the job and failures of the
    cache interleave: a summary that is served was computed, for the token that
    was asked for, from the tables less than five minutes before. *)
Theorem summary_fresh rd ms : rd = None ∨ rd = Some ∅ →
  ∀ i m a, ms !! i = Some m → (live_all rd ms).1 !! i = Some a → fresh_summary (take (S i) ms) m a.
Proof.
  intros Hrd.
  assert (H0 : summaries_from [] rd) by (intros mp f s e -> Hl; destruct Hrd as [|[= ->]]; [done|]; by rewrite lookup_empty in Hl).
  assert (G : ∀ ms past rd, summaries_from past rd → ∀ i m a, ms !! i = Some m → (live_all rd ms).1 !! i = Some a →
    fresh_summary (reverse (take (S i) ms) ++ past) m a).
  { clear. induction ms as [|x ms IH]; intros past rd Hp i m a Hm Ha; [done|]. simpl in Ha.
    destruct (live rd x) as [b rd1] eqn:H1. destruct (live_all rd1 ms) as [bs rd2] eqn:H2. simpl in Ha.
    destruct (live_fresh past rd x b rd1 Hp H1) as [Hp1 Hb]. destruct i as [|i]; simplify_eq/=; [done|].
    rewrite reverse_cons, <-app_assoc. simpl. eapply IH; [exact Hp1|done|]. by rewrite H2. }
  intros i m a Hm Ha. specialize (G ms [] rd H0 i m a Hm Ha). rewrite app_nil_r in G. unfold fresh_summary in *.
  destruct (what m); [|done]. destruct a as [[s c| |]|]; try done. destruct G as (m' & Hin & ?). exists m'. split; [by apply elem_of_reverse|done].
Qed.

(** The entry of the whole summary, kept until [e] at least. *)
Definition kept_until (e : Z) (rd : summaries) : Prop := ∃ mp s e', rd = Some mp ∧ mp !! CACHE_KEY_PREFIX = Some (s, e') ∧ e <= e'.
Lemma live_keeps e rd m : e - SUMMARY_TTL_SEC <= at_time m → kept_until e rd → kept_until e (live rd m).2.
Proof.
  intros Ht (mp & s & e' & -> & Hl & He).
  assert (Hset : ∀ works k v, kept_until e (redis_setEx works k SUMMARY_TTL_SEC (at_time m) v (Some mp))).
  { intros works k v. destruct works; [|by exists mp, s, e']. simpl. destruct (decide (k = CACHE_KEY_PREFIX)) as [->|Hne].
    - eexists _, v, _. rewrite lookup_insert_eq. split_and!; [done..|]. lia.
    - eexists _, s, e'. by rewrite lookup_insert_ne. }
  unfold live. destruct (what m) as [f g|].
  - unfold analyticsSummaryHandler. destruct (if g then _ else _); [by exists mp, s, e'|]. destruct (tables m) as [[]|]; [apply Hset|by exists mp, s, e'].
  - unfold refreshAnalyticsSummaryCache. destruct (tables m) as [[]|]; [apply Hset|by exists mp, s, e'].
Qed.
(** The cache is warm for five minutes after a run of the job that worked,
    whatever happens in between: a request for the whole summary that can read
    the cache is answered from it, also while the database is down. *)
Theorem warm_after_job mp0 job between f rq g :
  what job = HJob → tables job ≠ None → writable job = true →
  Forall (λ m, at_time job <= at_time m) between →
  what rq = HRequest f g → g = true → norm f = None → at_time rq < at_time job + SUMMARY_TTL_SEC →
  ∃ s, (live (live_all (live (Some mp0) job).2 between).2 rq).1 = Some (Served s true).
Proof.
  intros Hj Ht Hw Hb Hrq -> Hf Hlt.
  assert (H0 : kept_until (at_time job + SUMMARY_TTL_SEC) (live (Some mp0) job).2).
  { unfold live, refreshAnalyticsSummaryCache. rewrite Hj. destruct (tables job) as [[schedules events]|]; [|done]. rewrite Hw. simpl.
    eexists _, _, _. rewrite lookup_insert_eq. split_and!; [done..|lia]. }
  assert (H1 : kept_until (at_time job + SUMMARY_TTL_SEC) (live_all (live (Some mp0) job).2 between).2).
  { revert H0. generalize (live (Some mp0) job).2. induction Hb as [|m between Hm Hb IH]; intros rd Hk; [done|]. simpl.
    pose proof (live_keeps (at_time job + SUMMARY_TTL_SEC) rd m ltac:(lia) Hk) as Hk'. destruct (live rd m) as [a rd1]. simpl in Hk'.
    specialize (IH rd1 Hk'). by destruct (live_all rd1 between). }
  destruct H1 as (mp & s & e & -> & Hl & He). exists s. unfold live. rewrite Hrq. unfold analyticsSummaryHandler.
  assert (Hk : summary_key f = CACHE_KEY_PREFIX).
  { unfold summary_key. unfold norm in Hf. destruct f as [t|]; [|done]. by destruct (truthy t). }
  rewrite Hk. cbn [redis_get mbind option_bind]. rewrite Hl. cbn [mbind option_bind fst snd]. by rewrite decide_True by lia.
Qed.

(** ** The global summary: proofs *)

(** The claims of the global summary are too high by the start ledger of
    every stream times its rate: what was claimed by a stream is its rate times
    the ledgers since its start. *)
Theorem global_claims_overstated rows g : global_query rows = Some g →
  Z_of_string (g_total_claimed g) =
    Some (sum_Z ((λ s, (v_last_claimed s - v_start s) * v_rate s) <$> rows) + sum_Z ((λ s, v_start s * v_rate s) <$> rows)).
Proof.
  unfold global_query. destruct (_ && _); [|done]. intros [= <-]. cbn [g_total_claimed]. rewrite Z_of_to_string. f_equal.
  induction rows as [|s rows IH]; [done|]. cbn [fmap list_fmap]. rewrite !sum_Z_cons, IH. lia.
Qed.

(** ** Witnesses *)

Definition demo_schedules : list schedule :=
  [Schedule "GA" "GS" "USDC" 100 "active" 0; Schedule "GB" "GS" "EURC" 50 "active" 0; Schedule "GC" "GS" "USDC" 7 "active" 0; Schedule "GD" "GS" "USDC" 900 "cancelled" 0].
Definition demo_claims : list claim := [Claim "GA" "USDC" 30; Claim "GA" "USDC" 12; Claim "GB" "USDC" 1].
Example demo_sponsor :
  sponsor_query "GS" demo_schedules demo_claims = [TokenRow "EURC" 1 "50" "0"; TokenRow "USDC" 2 "107" "42"].
Proof. vm_compute. reflexivity. Qed.
Definition demo_moments : list moment :=
  [Moment 0 HJob (Some (demo_schedules, [])) true; Moment 200 (HRequest (Some "") true) None false; Moment 299 (HRequest None true) None true;
   Moment 300 (HRequest None true) None true].
Example demo_live :
  (λ a, match a with Some (Served s c) => Some (active_count s, c) | _ => None end) <$> (live_all (Some ∅) demo_moments).1 =
  [None; Some (3, true); Some (3, true); None].
Proof. vm_compute. reflexivity. Qed.

Lemma summary_fresh_witness :
  ∃ a, (live_all (Some ∅) demo_moments).1 !! 2%nat = Some a ∧ fresh_summary (take 3 demo_moments) (Moment 299 (HRequest None true) None true) a.
Proof.
  destruct ((live_all (Some ∅) demo_moments).1 !! 2%nat) as [a|] eqn:E; [|vm_compute in E; discriminate E].
  exists a. split; [done|]. exact (summary_fresh (Some ∅) demo_moments (or_intror eq_refl) 2%nat _ a eq_refl E).
Defined.
Lemma warm_after_job_witness :
  ∃ s, (live (live_all (live (Some ∅) (Moment 0 HJob (Some (demo_schedules, [])) true)).2 [Moment 9 HJob None true]).2
         (Moment 299 (HRequest None true) None true)).1 = Some (Served s true).
Proof.
  apply (warm_after_job ∅ (Moment 0 HJob (Some (demo_schedules, [])) true) [Moment 9 HJob None true] None (Moment 299 (HRequest None true) None true) true);
    try done. by apply Forall_singleton.
Defined.
Definition demo_streams : list stream := [Stream "GS" "GA" "active" 1000 150 100 10].
Lemma global_claims_overstated_witness :
  ∃ g, global_query demo_streams = Some g ∧ Z_of_string (g_total_claimed g) = Some (500 + 1000).
Proof.
  destruct (global_query demo_streams) as [g|] eqn:E; [|vm_compute in E; discriminate E].
  exists g. split; [done|]. exact (global_claims_overstated demo_streams g E).
Defined.
