(* ===== verification/DoubleOrder.v ===== *)
(** * Rounding keeps the order

    The double nearest to a number, the quotients and the products of [Double]
    are monotone: what the checks of the forms compare stays ordered once it is
    scaled and rounded. *)
From Stdlib Require Import QArith Qround Lqa.
From stdpp Require Import list.
From S2P Require Import Prelude Digits Double.
#[local] Open Scope Z_scope.
#[local] Hint Resolve up_pos down_pos : core.

Lemma round_half_even_mono n d n' d' : 0 < d → 0 < d' → n * d' <= n' * d →
  round_half_even n d <= round_half_even n' d'.
Proof.
  intros Hd Hd' H. destruct (Z.le_gt_cases (round_half_even n d) (round_half_even n' d')) as [|Hgt]; [done|exfalso].
  pose proof (round_half_even_near n d Hd) as H1. pose proof (round_half_even_near n' d' Hd') as H2.
  set (m := round_half_even n d) in *. set (m' := round_half_even n' d') in *.
  assert (Hlo : (2 * m - 1) * d <= 2 * n) by nia. assert (Hhi : 2 * n' <= (2 * m' + 1) * d') by nia.
  assert (H3 : (2 * m - 1) * d * d' <= 2 * n * d') by nia. assert (H4 : 2 * n' * d <= (2 * m' + 1) * d' * d) by nia.
  assert (H5 : (2 * m - 1) * (d * d') <= (2 * m' + 1) * (d * d')) by lia.
  assert (Hpos : 0 < d * d') by lia. assert (Hm : m = m' + 1) by nia.
  assert (Hn : 2 * n = (2 * m' + 1) * d).
  { apply Z.le_antisymm; [|nia]. apply (Z.mul_le_mono_pos_r _ _ d'); [done|nia]. }
  assert (Hn' : 2 * n' = (2 * m' + 1) * d').
  { apply Z.le_antisymm; [done|]. apply (Z.mul_le_mono_pos_r _ _ d); [done|nia]. }
  assert (Htie : ∀ n d, 0 < d → 2 * n = (2 * m' + 1) * d → round_half_even n d = if Z.even m' then m' else m' + 1).
  { clear. intros n d Hd Hn. unfold round_half_even.
    assert (Hq : n / d = m') by (symmetry; apply (Z.div_unique n d m' (n - d * m')); [left; nia|ring]).
    pose proof (Z.div_mod n d ltac:(lia)) as Hdm. rewrite Hq in *.
    by rewrite (proj2 (Z.compare_eq_iff (2 * (n mod d)) d)) by nia. }
  unfold m, m' in Hm. rewrite (Htie n d Hd Hn), (Htie n' d' Hd' Hn') in Hm. lia.
Qed.

Lemma exponent_mono n d n' d' : 0 < n → 0 < d → 0 < n' → 0 < d' → n * d' <= n' * d → exponent n d <= exponent n' d'.
Proof.
  intros Hn Hd Hn' Hd' H. destruct (exponent_spec n d Hn Hd) as [He _]. set (e := exponent n d) in *.
  apply exponent_ge; [done..|]. pose proof (up_pos e). pose proof (down_pos e).
  apply (Z.mul_le_mono_pos_r _ _ d); [done|]. assert (d * up e * d' <= n * down e * d') by nia. nia.
Qed.

(** The numerator of the rounded number has 53 digits, fewer for a subnormal. *)
Lemma numerator_bounds n d : 0 < n → 0 < d →
  let u := last_place n d in let m := round_half_even (n * down u) (d * up u) in
  0 <= m <= 2 ^ 53 ∧ (-1074 < u → 2 ^ 52 <= m).
Proof.
  intros Hn Hd u m. pose proof (up_pos u). pose proof (down_pos u). assert (HD : 0 < d * up u) by nia.
  pose proof (round_half_even_near (n * down u) (d * up u) HD) as Hm. fold m in Hm.
  destruct (exponent_spec n d Hn Hd) as [Hlo Hhi]. set (e := exponent n d) in *.
  set (N := n * down u) in *. set (D := d * up u) in *. assert (HN : 0 < N) by (unfold N; nia).
  assert (Hhigh : N < 2 ^ 53 * D).
  { destruct (Z.lt_ge_cases (n * down (u + 53)) (d * up (u + 53))) as [Hk|Hk].
    - pose proof (up_down u (u + 53) ltac:(lia)) as Hud. replace (u + 53 - u) with 53 in Hud by lia.
      pose proof (down_pos (u + 53)). apply (Z.mul_lt_mono_pos_r (down (u + 53))); [done|].
      replace (2 ^ 53 * D * down (u + 53)) with (d * up (u + 53) * down u) by (unfold D; rewrite <-Z.mul_assoc, Hud; ring).
      unfold N. nia.
    - exfalso. apply exponent_ge in Hk; [|done..]. fold e in Hk. unfold u, last_place in Hk. fold e in Hk. lia. }
  split; [split; nia|]. intros Hu. assert (Heu : u + 52 = e) by (unfold u, last_place in *; fold e in Hu |- *; lia).
  pose proof (up_down u e ltac:(lia)) as Hud. replace (e - u) with 52 in Hud by lia. pose proof (down_pos e).
  assert (Hlow : 2 ^ 52 * D <= N).
  { apply (Z.mul_le_mono_pos_r _ _ (down e)); [done|].
    replace (2 ^ 52 * D * down e) with (d * up e * down u) by (unfold D; rewrite <-Z.mul_assoc, Hud; ring). unfold N. nia. }
  nia.
Qed.

(** [x <= y] on doubles that are not [NaN]. *)
Definition le64 (x y : double) : Prop :=
  match x, y with
  | DFin p, DFin q => (p <= q)%Q
  | DInf true, DFin _ | DInf true, DInf _ | DFin _, DInf false | DInf false, DInf false => True
  | _, _ => False
  end.

Lemma scaled_mono n d n' d' : 0 < n → 0 < d → 0 < n' → 0 < d' → n * d' <= n' * d →
  let u := last_place n d in let m := round_half_even (n * down u) (d * up u) in
  let u' := last_place n' d' in let m' := round_half_even (n' * down u') (d' * up u') in
  m * up u * down u' <= m' * up u' * down u.
Proof.
  intros Hn Hd Hn' Hd' H u m u' m'. destruct (numerator_bounds n d Hn Hd) as [Hb _]. destruct (numerator_bounds n' d' Hn' Hd') as [Hb' Hl'].
  fold u m in Hb. fold u' m' in Hb', Hl'. pose proof (exponent_mono n d n' d' Hn Hd Hn' Hd' H) as He.
  assert (Huu : u <= u') by (unfold u, u', last_place; lia). pose proof (up_pos u). pose proof (down_pos u). pose proof (up_pos u'). pose proof (down_pos u').
  destruct (decide (u = u')) as [Heq|Hne].
  - assert (Hm : m <= m').
    { unfold m, m'. rewrite <-Heq. apply round_half_even_mono; [nia..|].
      replace (n * down u * (d' * up u)) with (n * d' * (down u * up u)) by ring.
      replace (n' * down u * (d * up u)) with (n' * d * (down u * up u)) by ring. apply Z.mul_le_mono_nonneg_r; nia. }
    rewrite <-Heq. apply Z.mul_le_mono_nonneg_r; [lia|]. nia.
  - assert (-1074 < u') by (unfold u, u', last_place in *; lia). specialize (Hl' ltac:(done)).
    pose proof (up_down u u' Huu) as Hud. assert (2 <= 2 ^ (u' - u)) by (apply (Z.pow_le_mono_r 2 1); lia).
    set (X := up u * down u') in *. assert (0 < X) by (unfold X; nia).
    replace (m * up u * down u') with (m * X) by (unfold X; ring). replace (m' * up u' * down u) with (m' * (up u' * down u)) by ring.
    rewrite Hud. assert (m * X <= 2 ^ 53 * X) by nia. assert (2 ^ 52 * (2 * X) <= m' * (2 ^ (u' - u) * X)); [|lia].
    apply Z.mul_le_mono_nonneg; nia.
Qed.
Lemma round_pos_mono n d n' d' : 0 < n → 0 < d → 0 < n' → 0 < d' → n * d' <= n' * d →
  le64 (round_pos n d) (round_pos n' d').
Proof.
  intros Hn Hd Hn' Hd' H. pose proof (scaled_mono n d n' d' Hn Hd Hn' Hd' H) as Hs. cbv zeta in Hs.
  destruct (numerator_bounds n d Hn Hd) as [Hb _]. unfold round_pos. set (u := last_place n d) in *. set (u' := last_place n' d') in *.
  set (m := round_half_even (n * down u) _) in *. set (m' := round_half_even (n' * down u') _) in *.
  pose proof (down_pos u). pose proof (down_pos u'). pose proof (up_pos u').
  destruct (Z.leb_spec (2 ^ 1024) (m' * up u')) as [|Hfin]; [by destruct (2 ^ 1024 <=? _)|].
  destruct (Z.leb_spec (2 ^ 1024) (m * up u)) as [Hover|]; [exfalso|].
  - assert (Hu : down u = 1).
    { unfold down. destruct (Z.le_gt_cases 0 u); [by rewrite Z.max_r by lia|]. rewrite (up_0 u) in Hover by lia.
      assert (2 ^ 53 < 2 ^ 1024) by (apply Z.pow_lt_mono_r; lia). lia. }
    rewrite Hu in Hs. nia.
  - cbn [le64]. rewrite !Qred_correct. unfold Qle. cbn [Qnum Qden]. by rewrite !Z2Pos.id by done.
Qed.
Lemma round_pos_nonneg n d : 0 < n → 0 < d → le64 (DFin 0) (round_pos n d).
Proof.
  intros Hn Hd. destruct (numerator_bounds n d Hn Hd) as [Hb _]. unfold round_pos. set (u := last_place n d) in *.
  destruct (2 ^ 1024 <=? _); [done|]. cbn [le64]. rewrite Qred_correct. pose proof (up_pos u). pose proof (down_pos u).
  unfold Qle. cbn [Qnum Qden]. nia.
Qed.
(** Rounding numbers that are not negative. *)
Lemma round64_mono p q : (0 <= p)%Q → (p <= q)%Q → le64 (round64 p) (round64 q).
Proof.
  destruct p as [[|n|n] d], q as [[|n'|n'] d']; unfold Qle; cbn [Qnum Qden]; intros Hp Hpq; try lia.
  - done.
  - by apply round_pos_nonneg.
  - by apply round_pos_mono.
Qed.
