(* ===== verification/StreamSchedule.v ===== *)
(** * Rates, durations and rate segments

    [frontend/src/utils/streamSchedule.ts] and [streamCompletion.ts]: ledgers
    from days, the rate derived from an amount, the overflow check, the segments
    typed into the form, and when a stream counts as fully claimed; on the doubles
    of [Double]. *)
From Stdlib Require Import QArith Qabs Qround Lqa.
From stdpp Require Import list.
From S2P Require Import Prelude Bytes Digits Double.
#[local] Open Scope Z_scope.

Definition LEDGERS_PER_SECOND : double := DFin 5.
Definition LEDGERS_PER_DAY : double := math_round (div64 (DFin (24 * 60 * 60)) LEDGERS_PER_SECOND).
Definition RATE_DECIMALS : double := DFin 10000000.
Definition I128_MAX : Z := 170141183460469231731687303715884105727.
Example ledgers_per_day : LEDGERS_PER_DAY = DFin 17280.
Proof. vm_compute. reflexivity. Qed.

(** [x <= 0] and [x > 0]: false for [NaN]. *)
Definition le0 (x : double) : bool := match x with DNaN => false | _ => negb (lt64 (DFin 0) x) end.
Definition gt0 (x : double) : bool := lt64 (DFin 0) x.

Definition daysToLedgers (days : double) : double :=
  if negb (is_finite days) || le0 days then DFin 0 else math_round (mul64 days LEDGERS_PER_DAY).
Definition deriveRate (amount totalLedgers : double) : option double :=
  if negb (is_finite amount) || le0 amount || negb (isSafeInteger totalLedgers) || le0 totalLedgers then None
  else
    let scaledAmount := mul64 amount RATE_DECIMALS in
    if negb (is_finite scaledAmount) then None
    else
      let rate := math_ceil (div64 scaledAmount totalLedgers) in
      if isSafeInteger rate && gt0 rate then Some rate else None.
Definition depositFromRate (rate totalLedgers : double) : double :=
  if negb (is_finite rate) || negb (is_finite totalLedgers) || le0 rate || le0 totalLedgers then DFin 0
  else div64 (mul64 rate totalLedgers) RATE_DECIMALS.
(** [BigInt] of a finite integer does not throw. *)
Definition isRateDepositOverflow (rate totalLedgers : double) : bool :=
  match rate, totalLedgers with
  | DFin r, DFin t =>
      if le0 rate || le0 totalLedgers then false else I128_MAX <? Qfloor r * Qfloor t
  | _, _ => false
  end.

(** ** Segments *)

Record RateSegment := Segment { endLedger : Z; rate : Z }.
(** [value.split(/\r?\n/)]: a carriage return in front of a separator is part
    of it. *)
Definition strip_cr (l : list ascii) : list ascii :=
  match reverse l with "013"%char :: r => reverse r | _ => l end.
Fixpoint split_rows (pieces : list (list ascii)) : list string :=
  match pieces with
  | [] => []
  | [l] => [of_chars l]
  | l :: ls => of_chars (strip_cr l) :: split_rows ls
  end.
Definition rows_of (value : string) : list string :=
  filter (λ r, truthy r = true) (trim <$> split_rows (split_chars "010" (chars value))).
(** [row.split(/[,\t]/)] *)
Definition tab_comma (c : ascii) : ascii := if decide (c = "009"%char) then ","%char else c.
Definition parts_of (row : string) : list string := trim <$> split_on "," (of_chars (tab_comma <$> chars row)).
Definition integer_of (x : double) : option Z :=
  match x with DFin q => if isSafeInteger x && (0 <? Qnum q) then Some (Qfloor q) else None | _ => None end.

Inductive segment_error := TooMany | BadFormat | NotPositive | NotIncreasing.
Fixpoint parse_rows (previousEnd : Z) (rows : list string) : list RateSegment + segment_error :=
  match rows with
  | [] => inl []
  | row :: rows =>
      match parts_of row with
      | [a; b] =>
          if negb (truthy a) || negb (truthy b) then inr BadFormat
          else
            match integer_of (Number a), integer_of (Number b) with
            | Some e, Some r =>
                if e <=? previousEnd then inr NotIncreasing
                else match parse_rows e rows with inl l => inl (Segment e r :: l) | inr x => inr x end
            | _, _ => inr NotPositive
            end
      | _ => inr BadFormat
      end
  end.
Definition parseRateSegments (value : string) : list RateSegment + segment_error :=
  let rows := rows_of value in
  if (10 <? length rows)%nat then inr TooMany else parse_rows 0 rows.

Example segments_1 : parseRateSegments (" 100, 5" +:+ String "013" (String "010" "") +:+ "200" +:+ String "009" "1e3" +:+ String "010" "") =
  inl [Segment 100 5; Segment 200 1000].
Proof. vm_compute. reflexivity. Qed.
Example segments_2 : parseRateSegments ("100,5" +:+ String "010" "100,6") = inr NotIncreasing.
Proof. vm_compute. reflexivity. Qed.

(** ** Completion *)

(** A value that may be missing, a number or a text. *)
Inductive loose := Missing | Num (x : double) | Txt (s : string).
Definition toNumber (v : loose) : option double :=
  let parsed := match v with Missing => DNaN | Num x => x | Txt s => if truthy (trim s) then Number s else DNaN end in
  if is_finite parsed then Some parsed else None.
Record StreamCompletionEvidence := Evidence {
  status : option string;
  currentLedger : loose;
  ev_endLedger : loose;
  claimableAmount : loose;
  totalReceived : loose }.
Definition isExpiredAndFullyClaimed (e : StreamCompletionEvidence) : bool :=
  let terminalStatus := bool_decide (status e ∈ [Some "completed"; Some "expired"; Some "drained"]) in
  let expiredByLedger := match toNumber (currentLedger e), toNumber (ev_endLedger e) with Some c, Some n => negb (lt64 c n) | _, _ => false end in
  if negb terminalStatus && negb expiredByLedger then false
  else match toNumber (claimableAmount e) with
       | Some (DFin q) => is_zero q && match toNumber (totalReceived e) with Some r => gt0 r | None => false end
       | _ => false
       end.

(** ** The derived rate *)

Lemma le0_Z n : 0 < n → le0 (DFin (inject_Z n)) = false.
Proof. intros Hn. unfold le0, lt64. rewrite negb_involutive. unfold Qle_bool. simpl. lia. Qed.
Lemma gt0_Z n : 0 < n → gt0 (DFin (inject_Z n)) = true.
Proof. intros Hn. unfold gt0, lt64, Qle_bool. simpl. lia. Qed.
Lemma isSafeInteger_Z n : 0 < n < 2 ^ 53 → isSafeInteger (DFin (inject_Z n)) = true.
Proof. intros Hn. rewrite <-of_Z_exact by lia. apply isSafeInteger_of_Z. lia. Qed.

Lemma near_between n T m q : 0 < n < 2 ^ 52 → 0 < T → 0 <= m → m * T < n → n < (m + 1) * T → near q (n # Z.to_pos T) →
  (inject_Z m < q <= inject_Z (m + 1))%Q.
Proof.
  intros Hn HT Hm Hlo Hhi Hq. rewrite (Qmake_Zdiv n T HT) in Hq. set (t := inject_Z T) in *. set (x := (inject_Z n / t)%Q) in *.
  assert (Ht : (0 < t)%Q) by (unfold t; change 0%Q with (inject_Z 0); by rewrite <-Zlt_Qlt).
  assert (Hxt : (x * t == inject_Z n)%Q) by (unfold x; field; intros H; rewrite H in Ht; by apply Qlt_irrefl in Ht).
  unfold near in Hq. apply Qabs_le_iff in Hq as [H1 H2]; [|done].
  assert (Hbound : ∀ d, (d * inject_Z (2 ^ 53) <= x)%Q → (d * t < 1)%Q).
  { intros d Hd. apply (Qmult_lt_r _ _ (inject_Z (2 ^ 53))); [done|]. apply (Qle_lt_trans _ (inject_Z n)).
    - rewrite <-Hxt. assert (d * t * inject_Z (2 ^ 53) == d * inject_Z (2 ^ 53) * t)%Q as -> by ring.
      apply Qmult_le_compat_r; [done|by apply Qlt_le_weak].
    - rewrite Qmult_1_l, <-Zlt_Qlt. assert (2 ^ 52 < 2 ^ 53) by done. lia. }
  apply Hbound in H1, H2. assert (Hlo' : (inject_Z m * t <= inject_Z n - 1)%Q).
  { unfold t. rewrite <-inject_Z_mult. assert (inject_Z n - 1 == inject_Z (n - 1))%Q as -> by (unfold Zminus; rewrite inject_Z_plus; reflexivity).
    rewrite <-Zle_Qle. lia. }
  assert (Hhi' : (inject_Z n + 1 <= inject_Z (m + 1) * t)%Q).
  { unfold t. rewrite <-inject_Z_mult. assert (inject_Z n + 1 == inject_Z (n + 1))%Q as -> by (rewrite inject_Z_plus; reflexivity).
    rewrite <-Zle_Qle. lia. }
  split.
  - apply (Qmult_lt_r _ _ t Ht). lra.
  - apply Qlt_le_weak. apply (Qmult_lt_r _ _ t Ht). lra.
Qed.
(** The ceiling of the rounded quotient is that of the exact one: rounding never
    crosses an integer when the dividend has at most 52 bits. *)
Lemma ceil_div n T : 0 < n < 2 ^ 52 → 0 < T < 2 ^ 53 →
  ∃ r, math_ceil (div64 (DFin (inject_Z n)) (DFin (inject_Z T))) = DFin (inject_Z r) ∧ (r - 1) * T < n <= r * T.
Proof.
  intros Hn HT. set (x := (inject_Z n / inject_Z T)%Q).
  assert (Hdiv : div64 (DFin (inject_Z n)) (DFin (inject_Z T)) = round64 x).
  { unfold div64, is_zero. cbn [Qnum inject_Z]. by rewrite (proj2 (Z.eqb_neq T 0)) by lia. }
  assert (Hx : (x == n # Z.to_pos T)%Q) by (unfold x; symmetry; apply Qmake_Zdiv; lia).
  rewrite Hdiv. destruct (decide (n mod T = 0)) as [Hm|Hm].
  - pose proof (Z.div_mod n T ltac:(lia)) as Hd. rewrite Hm, Z.add_0_r in Hd. set (m := n / T) in *.
    assert (Hm0 : 0 < m < 2 ^ 52) by nia.
    assert (Hxm : (x == inject_Z m)%Q) by (rewrite Hx; unfold Qeq, inject_Z; cbn [Qnum Qden]; rewrite Z2Pos.id by lia; nia).
    assert (Hh : round64 x = DFin (Qred x)).
    { apply (round64_half (2 * m)); [assert (2 ^ 53 = 2 * 2 ^ 52) by reflexivity; lia|].
      rewrite Hxm. unfold Qeq, inject_Z. cbn [Qnum Qden]. lia. }
    rewrite Hh, (Qred_complete _ _ Hxm), Qred_Z. exists m. cbn [math_ceil]. rewrite Qceiling_Z. split; [done|nia].
  - destruct (round64_near x) as (q & -> & Hq & _).
    { rewrite Hx. unfold Qle. cbn [Qnum Qden inject_Z]. rewrite Z2Pos.id by lia. assert (2 ^ 52 < 2 ^ 100) by done. assert (2 ^ 53 < 2 ^ 100) by done.
      change (Z.pos (2 ^ 100)) with (2 ^ 100). nia. }
    pose proof (Z.div_mod n T ltac:(lia)) as Hd. pose proof (Z.mod_pos_bound n T ltac:(lia)) as Hb. set (m := n / T) in *.
    assert (Hlt : (inject_Z m < q <= inject_Z (m + 1))%Q).
    { apply (near_between n T); [done|lia|apply Z.div_pos; lia|nia|nia|]. by rewrite <-Hx. }
    exists (m + 1). split; [|nia]. cbn [math_ceil]. do 2 f_equal. apply Z.le_antisymm.
    + rewrite <-(Qceiling_Z (m + 1)). apply Qceiling_resp_le, Hlt.
    + destruct Hlt as [Hlt _]. pose proof (Qle_ceiling q). assert (m < Qceiling q); [|lia]. rewrite Zlt_Qlt. eapply Qlt_le_trans; eassumption.
Qed.

(** C30. For a whole number of tokens whose scaled value has at most 52 bits, the
    derived rate is the least whole rate that pays the amount over the duration:
    the two roundings of the double computation never move it. *)
Theorem deriveRate_exact a T : 0 < a → a * 10000000 < 2 ^ 52 → 0 < T < 2 ^ 53 →
  ∃ r, deriveRate (DFin (inject_Z a)) (DFin (inject_Z T)) = Some (DFin (inject_Z r)) ∧
    0 < r ∧ a * 10000000 <= r * T ∧ ∀ r', a * 10000000 <= r' * T → r <= r'.
Proof.
  intros Ha Hs HT. assert (H52 : 2 ^ 53 = 2 * 2 ^ 52) by reflexivity.
  destruct (ceil_div (a * 10000000) T ltac:(lia) HT) as (r & Hr & Hlo & Hhi).
  assert (Hmul : mul64 (DFin (inject_Z a)) RATE_DECIMALS = DFin (inject_Z (a * 10000000))).
  { by rewrite <-(of_Z_exact (a * 10000000)) by lia. }
  assert (0 < r) by nia. assert (r <= a * 10000000) by nia. exists r. unfold deriveRate.
  rewrite Hmul, Hr, !le0_Z, !isSafeInteger_Z, gt0_Z by lia. cbn. split_and!; [done..|nia|]. intros r' Hr'. nia.
Qed.
Lemma deriveRate_exact_witness : deriveRate (DFin 1000) (DFin 86400) = Some (DFin 115741) ∧
  ∃ r, deriveRate (DFin (inject_Z 1000)) (DFin (inject_Z 86400)) = Some (DFin (inject_Z r)) ∧
    0 < r ∧ 1000 * 10000000 <= r * 86400 ∧ ∀ r', 1000 * 10000000 <= r' * 86400 → r <= r'.
Proof. split; [vm_compute; reflexivity|]. apply (deriveRate_exact 1000 86400); [lia|reflexivity|lia]. Defined.

(** The overflow warning is exact on whole rates and durations; with a rate
    the form accepts and a duration of at most 2^32 - 1 ledgers it never shows. *)
Theorem overflow_exact r T : 0 < r → 0 < T →
  isRateDepositOverflow (DFin (inject_Z r)) (DFin (inject_Z T)) = bool_decide (I128_MAX < r * T) ∧
  (r < 2 ^ 53 → T < 2 ^ 32 → isRateDepositOverflow (DFin (inject_Z r)) (DFin (inject_Z T)) = false).
Proof.
  intros Hr HT. assert (Heq : isRateDepositOverflow (DFin (inject_Z r)) (DFin (inject_Z T)) = (I128_MAX <? r * T)).
  { unfold isRateDepositOverflow. by rewrite !le0_Z, !Qfloor_Z. }
  rewrite Heq. split.
  - destruct (Z.ltb_spec I128_MAX (r * T)); [by rewrite bool_decide_true|rewrite bool_decide_false; [done|lia]].
  - intros Hr' HT'. apply Z.ltb_ge. assert (2 ^ 53 * 2 ^ 32 <= I128_MAX) by done. nia.
Qed.
Lemma overflow_exact_witness : isRateDepositOverflow (DFin (inject_Z (2 ^ 100))) (DFin (inject_Z (2 ^ 31))) = true.
Proof. destruct (overflow_exact (2 ^ 100) (2 ^ 31)) as [-> _]; done. Defined.

(** ** What the segment parser accepts *)

Definition valid_segment (s : RateSegment) : Prop := 0 < endLedger s < 2 ^ 53 ∧ 0 < rate s < 2 ^ 53.
Fixpoint increasing (previousEnd : Z) (l : list RateSegment) : Prop :=
  match l with [] => True | s :: l => previousEnd < endLedger s ∧ increasing (endLedger s) l end.
Definition valid_segments (l : list RateSegment) : Prop := (length l <= 10)%nat ∧ Forall valid_segment l ∧ increasing 0 l.
Definition segment_text (s : RateSegment) : string := Z_to_string (endLedger s) +:+ "," +:+ Z_to_string (rate s).
Definition segments_text (l : list RateSegment) : string := String.concat (String "010" "") (segment_text <$> l).

Lemma integer_of_Some x z : integer_of x = Some z → 0 < z < 2 ^ 53.
Proof.
  unfold integer_of, isSafeInteger, is_integer64. destruct x as [| |[n d]]; [done..|]. cbn [Qnum Qden Qfloor].
  destruct (bool_decide_reflect (n mod Z.pos d = 0)) as [Hm|]; [|done].
  destruct (Z.ltb_spec (Z.abs n) (2 ^ 53 * Z.pos d)) as [Ha|]; [|done]. destruct (Z.ltb_spec 0 n) as [Hn|]; [|done].
  intros [= <-]. pose proof (Z.div_mod n (Z.pos d) ltac:(lia)). set (k := n / Z.pos d) in *. split; nia.
Qed.
Lemma integer_of_text z : 0 < z < 2 ^ 53 → integer_of (Number (Z_to_string z)) = Some z.
Proof.
  intros Hz. rewrite Number_Z, of_Z_exact by lia. unfold integer_of. rewrite isSafeInteger_Z by done.
  cbn [inject_Z Qnum]. rewrite (proj2 (Z.ltb_lt 0 z)) by lia. simpl. by rewrite Z.div_1_r.
Qed.
Lemma parse_rows_sound rows : ∀ p l, parse_rows p rows = inl l →
  length l = length rows ∧ Forall valid_segment l ∧ increasing p l.
Proof.
  induction rows as [|row rows IH]; intros p l; simpl; [by intros [= <-]|].
  destruct (parts_of row) as [|a [|b [|? ?]]]; try done. destruct (negb (truthy a) || negb (truthy b)); [done|].
  destruct (integer_of (Number a)) as [e|] eqn:He; [|done]. destruct (integer_of (Number b)) as [r|] eqn:Hr; [|done].
  destruct (Z.leb_spec e p); [done|]. destruct (parse_rows e rows) as [l'|] eqn:Hl; [|done]. intros [= <-].
  apply IH in Hl as (Hlen & Hv & Hi). apply integer_of_Some in He, Hr. simpl. split_and!; [by rewrite Hlen|by constructor|done..].
Qed.

Lemma digit_list_facts l : forallb is_digit l = true → forallb plain l = true ∧ tab_comma <$> l = l ∧ ","%char ∉ l ∧ "013"%char ∉ l.
Proof.
  intros Hl. split; [by apply double_digits_plain|]. induction l as [|c l IH]; [by split_and!; [done|inversion 1..]|].
  simpl in Hl. apply andb_true_iff in Hl as [Hc Hl]. destruct (IH Hl) as (IH1 & IH2 & IH3). cbn. rewrite IH1.
  split_and!; [|apply not_elem_of_cons; split; [intros <-; discriminate Hc|done]..].
  f_equal. unfold tab_comma. by rewrite decide_False by (intros ->; discriminate Hc).
Qed.
Lemma Z_text_facts z : 0 < z → let l := chars (Z_to_string z) in
  l ≠ [] ∧ trim (Z_to_string z) = Z_to_string z ∧ truthy (Z_to_string z) = true ∧
  forallb plain l = true ∧ tab_comma <$> l = l ∧ ","%char ∉ l ∧ "013"%char ∉ l.
Proof.
  intros Hz. cbn zeta. destruct (chars_Z_to_string z ltac:(lia)) as (Hd & _ & Hne). pose proof (digit_list_facts _ Hd) as (Hp & Hrest).
  split_and!; [done|by apply trim_plain| |done|by apply Hrest..].
  apply bool_decide_eq_true. intros Hs. by rewrite Hs in Hne.
Qed.
Lemma parts_of_text e r : 0 < e → 0 < r → parts_of (Z_to_string e +:+ "," +:+ Z_to_string r) = [Z_to_string e; Z_to_string r].
Proof.
  intros He Hr. destruct (Z_text_facts e He) as (_ & Ht & _ & _ & Hm & Hc & _), (Z_text_facts r Hr) as (_ & Ht' & _ & _ & Hm' & Hc' & _).
  unfold parts_of, split_on. rewrite chars_of_chars, !string_app_chars, !fmap_app, Hm, Hm'. change (tab_comma <$> chars ",") with [","%char].
  cbn [app]. rewrite split_chars_app, split_chars_last by done. cbn [fmap list_fmap]. by rewrite !of_chars_chars, Ht, Ht'.
Qed.
Lemma parse_rows_text l : ∀ p, Forall valid_segment l → increasing p l → parse_rows p (segment_text <$> l) = inl l.
Proof.
  induction l as [|[e r] l IH]; intros p; [done|]. intros [[He Hr] Hl]%Forall_cons. cbn [endLedger rate increasing] in *. intros [Hp Hi].
  cbn [fmap list_fmap parse_rows]. unfold segment_text at 1. cbn [endLedger rate]. rewrite parts_of_text by lia.
  destruct (Z_text_facts e ltac:(lia)) as (_ & _ & -> & _), (Z_text_facts r ltac:(lia)) as (_ & _ & -> & _).
  rewrite !integer_of_text by done. cbn [negb orb]. rewrite (proj2 (Z.leb_gt e p)) by done. rewrite IH by done. done.
Qed.
(** A row of a printed list: visible characters only. *)
Lemma segment_text_plain s : valid_segment s →
  forallb plain (chars (segment_text s)) = true ∧ truthy (segment_text s) = true ∧ ∀ c, plain c = false → c ∉ chars (segment_text s).
Proof.
  intros [He Hr]. destruct (Z_text_facts (endLedger s) ltac:(lia)) as (Hne & _ & _ & Hp & _).
  destruct (Z_text_facts (rate s) ltac:(lia)) as (_ & _ & _ & Hp' & _).
  assert (H : forallb plain (chars (segment_text s)) = true).
  { unfold segment_text. rewrite !string_app_chars, !forallb_app, Hp, Hp'. done. }
  split_and!; [done| |].
  - apply bool_decide_eq_true. unfold segment_text. intros Hs. apply (f_equal chars) in Hs. rewrite !string_app_chars in Hs.
    by destruct (chars (Z_to_string (endLedger s))).
  - intros c Hc Hin. rewrite forallb_forall in H. rewrite H in Hc; [done|]. by apply list_elem_of_In.
Qed.
Lemma strip_cr_plain l : "013"%char ∉ l → strip_cr l = l.
Proof.
  intros Hl. unfold strip_cr. destruct (reverse l) as [|c r] eqn:Hr; [done|].
  assert (Hc : c ≠ "013"%char) by (intros ->; apply Hl; rewrite <-elem_of_reverse, Hr; by left).
  destruct c as [[] [] [] [] [] [] [] []]; done.
Qed.
Lemma split_rows_plain pieces : Forall (λ l, "013"%char ∉ l) pieces → split_rows pieces = of_chars <$> pieces.
Proof.
  induction pieces as [|l pieces IH]; [done|]. intros [Hl Hp]%Forall_cons. destruct pieces as [|l' pieces]; [done|].
  change (split_rows (l :: l' :: pieces)) with (of_chars (strip_cr l) :: split_rows (l' :: pieces)). by rewrite strip_cr_plain, IH.
Qed.
Lemma rows_of_text l : Forall valid_segment l → rows_of (segments_text l) = segment_text <$> l.
Proof.
  intros Hl. destruct (decide (l = [])) as [->|Hne]; [done|]. unfold rows_of.
  assert (Hsplit : of_chars <$> split_chars "010" (chars (segments_text l)) = segment_text <$> l).
  { apply (split_on_concat "010"); [by destruct l|]. rewrite Forall_fmap. eapply Forall_impl; [done|].
    intros s Hs. by apply segment_text_plain. }
  rewrite split_rows_plain, Hsplit.
  - clear Hsplit Hne. induction Hl as [|s l Hs Hl IH]; [done|]. cbn [fmap list_fmap].
    destruct (segment_text_plain s Hs) as (Hp & Ht & _). rewrite (trim_plain _ Hp), filter_cons_True, IH; done.
  - assert (Heq : chars <$> (of_chars <$> split_chars "010" (chars (segments_text l))) = split_chars "010" (chars (segments_text l))).
    { rewrite <-list_fmap_compose. rewrite <-(list_fmap_id (split_chars _ _)) at 2. apply list_fmap_ext. intros i x _. apply chars_of_chars. }
    rewrite <-Heq, Hsplit, <-list_fmap_compose, Forall_fmap. eapply Forall_impl; [done|].
    intros s Hs. by apply segment_text_plain.
Qed.

Lemma parsed_segments_valid v segs : parseRateSegments v = inl segs → valid_segments segs.
Proof.
  unfold parseRateSegments. destruct (Nat.ltb_spec 10 (length (rows_of v))) as [|Hlen]; [done|]. intros H.
  apply parse_rows_sound in H as (Hl & Hv & Hi). split_and!; [lia|done..].
Qed.
(** The segments typed into the form: what is accepted is at most ten
    segments with positive safe integers and strictly increasing end ledgers, and
    every such list is what the parser reads from its own text. *)
Theorem segments_roundtrip segs :
  (∀ v, parseRateSegments v = inl segs → valid_segments segs) ∧
  (valid_segments segs → parseRateSegments (segments_text segs) = inl segs).
Proof.
  split; [intros v; apply parsed_segments_valid|].
  intros (Hlen & Hv & Hi). unfold parseRateSegments. rewrite rows_of_text by done. rewrite length_fmap, (proj2 (Nat.ltb_ge 10 (length segs))) by done.
  by apply parse_rows_text.
Qed.
Lemma segments_roundtrip_witness : let l := [Segment 17280 10000000; Segment 34560 20000000] in
  parseRateSegments (segments_text l) = inl l.
Proof. apply (segments_roundtrip [Segment 17280 10000000; Segment 34560 20000000]).
  unfold valid_segments, valid_segment. cbn. split_and!; [lia| |lia..]. repeat (apply Forall_cons; split; [cbn; lia|]). by apply Forall_nil.
Defined.

(** A stream counts as fully claimed only when it is over (by its status or
    by the ledger), nothing is claimable and something was received; a missing
    figure, or one that is not a number, never counts. *)
Theorem fullyClaimed_iff e : isExpiredAndFullyClaimed e = true ↔
  (status e ∈ [Some "completed"; Some "expired"; Some "drained"] ∨
    ∃ c n, toNumber (currentLedger e) = Some c ∧ toNumber (ev_endLedger e) = Some n ∧ lt64 c n = false) ∧
  (∃ q, toNumber (claimableAmount e) = Some (DFin q) ∧ is_zero q = true) ∧
  ∃ r, toNumber (totalReceived e) = Some r ∧ gt0 r = true.
Proof.
  unfold isExpiredAndFullyClaimed. set (P := status e ∈ _). split.
  - intros H. destruct (negb (bool_decide P) && _) eqn:Hg in H; [done|]. apply andb_false_iff in Hg. split.
    + destruct Hg as [Hg|Hg]; apply negb_false_iff in Hg; [left; by apply bool_decide_eq_true in Hg|right].
      destruct (toNumber (currentLedger e)) as [c|]; [|done]. destruct (toNumber (ev_endLedger e)) as [n|]; [|done].
      exists c, n. by rewrite negb_true_iff in Hg.
    + destruct (toNumber (claimableAmount e)) as [[| |q]|]; try done. apply andb_true_iff in H as [Hq Hr]. split; [by exists q|].
      destruct (toNumber (totalReceived e)) as [r|]; [by exists r|done].
  - intros (Hover & (q & Hq & Hz) & r & Hr & Hg). rewrite Hq, Hr, Hz, Hg. destruct Hover as [Hs|(c & n & Hc & Hn & Hlt)].
    + by rewrite bool_decide_true.
    + rewrite Hc, Hn, Hlt. by rewrite andb_false_r.
Qed.
