(* ===== verification/StreamForm.v ===== *)
(** * The form that creates a stream

    [frontend/src/components/StreamCreateForm.tsx]: its checks, the request it
    builds, and the form as a state machine whose steps are what the user and the
    network do. [utf8ByteLength] is the length of a text, which is its UTF-8
    bytes here. *)
From Stdlib Require Import QArith Qround Lqa.
From stdpp Require Import list.
From S2P Require Import Prelude Bytes Digits Double DoubleOrder ErrorMessages StreamSchedule.
#[local] Open Scope Z_scope.

Inductive field := F_recipient | F_token | F_totalAmount | F_cliffDays | F_totalDays
  | F_rate | F_segments | F_metadata | F_allowlist | F_fee.
#[export] Instance field_eq_dec : EqDecision field.
Proof. solve_decision. Defined.
Record FormValues := Values {
  recipient : string;
  token : string;
  totalAmount : string;
  cliffDays : string;
  totalDays : string;
  custom_rate : string;
  variableRateSegments : string;
  metadata : string;
  allowlistOverride : bool;
  feeOverrideBps : string }.
Definition INITIAL_VALUES : FormValues := Values "" "" "" "" "" "" "" "" false "".
Definition FormErrors : Type := list (field * string).

Definition UINT32_MAX : Z := 4294967295.
Definition MAX_SAFE_INTEGER : Z := 2 ^ 53 - 1.
(** [x > n] for an integer [n]. *)
Definition above (n : Z) (x : double) : bool := lt64 (DFin (inject_Z n)) x.
Definition positiveNumber (value : string) : bool :=
  truthy (trim value) && is_finite (Number value) && gt0 (Number value).
Definition positiveInteger (value : string) : bool :=
  truthy (trim value) && isSafeInteger (Number value) && gt0 (Number value).
Definition durationLedgers (value : string) : double := daysToLedgers (Number value).
(** [x <= y]: false when either is [NaN]. *)
Definition le_num (x y : double) : bool := negb (is_nan x) && negb (is_nan y) && negb (lt64 y x).
Definition too_long (ledgers : double) : bool := negb (isSafeInteger ledgers) || above UINT32_MAX ledgers.

Definition check_recipient (v : FormValues) (sponsor : option string) : option string :=
  if negb (truthy (recipient v)) then Some "Recipient address is required."
  else if negb (stellar_address_re (recipient v)) then Some "Must be a valid Stellar address (G…, 56 chars)."
  else match sponsor with
       | Some s => if truthy s && bool_decide (recipient v = s) then Some "Sponsor and recipient must be different addresses." else None
       | None => None
       end.
Definition check_token (v : FormValues) : option string :=
  if negb (truthy (token v)) then Some "Token contract address is required."
  else if negb (contract_address_re (token v)) then Some "Must be a valid SAC contract address (C…, 56 chars)." else None.
Definition check_amount (v : FormValues) : option string :=
  if negb (positiveNumber (totalAmount v)) then Some "Total amount must be greater than 0."
  else if above MAX_SAFE_INTEGER (Number (totalAmount v)) then Some "Total amount is too large." else None.
Definition check_cliff (v : FormValues) : option string :=
  if negb (positiveNumber (cliffDays v)) then Some "Cliff must be a positive number of days."
  else if too_long (durationLedgers (cliffDays v)) then Some "Cliff duration is too large." else None.
Definition check_total (v : FormValues) : option string :=
  if negb (positiveNumber (totalDays v)) then Some "Total duration must be positive."
  else if too_long (durationLedgers (totalDays v)) then Some "Total duration is too large."
  else if truthy (cliffDays v) && le_num (Number (totalDays v)) (Number (cliffDays v))
       then Some "Total duration must be greater than cliff duration." else None.
Definition check_rate (v : FormValues) : option string :=
  if truthy (custom_rate v) && negb (positiveInteger (custom_rate v)) then Some "Custom rate must be a positive integer." else None.
Definition check_metadata (v : FormValues) : option string :=
  if truthy (metadata v) && (256 <? String.length (metadata v))%nat then Some "Metadata must be 256 UTF-8 bytes or fewer." else None.
Definition check_fee (v : FormValues) : option string :=
  if truthy (feeOverrideBps v) then
    let fee := Number (feeOverrideBps v) in
    if negb (isSafeInteger fee) || lt64 fee (DFin 0) || above 10000 fee
    then Some "Fee override must be between 0 and 10,000 basis points." else None
  else None.
Definition segment_message (e : segment_error) : string :=
  match e with
  | TooMany => "Use no more than 10 rate segments."
  | BadFormat => "Each segment must use the format end ledger, rate."
  | NotPositive => "Segment ledgers and rates must be positive integers."
  | NotIncreasing => "Segment end ledgers must increase in order."
  end.
Definition check_segments (v : FormValues) : option string :=
  let cliffLedgers := durationLedgers (cliffDays v) in
  let totalLedgers := durationLedgers (totalDays v) in
  match parseRateSegments (variableRateSegments v) with
  | inr e => Some (segment_message e)
  | inl segments =>
      match last segments with
      | None => None
      | Some lastSegment =>
          if le_num (DFin (inject_Z (endLedger lastSegment))) cliffLedgers then Some "The final rate segment must end after the cliff."
          else if gt0 totalLedgers && lt64 totalLedgers (DFin (inject_Z (endLedger lastSegment)))
               then Some "Rate segments cannot end after the total duration." else None
      end
  end.
Definition entry (f : field) (e : option string) : FormErrors := match e with Some m => [(f, m)] | None => [] end.
Definition validateStreamCreateForm (v : FormValues) (includeAdvanced : bool) (sponsor : option string) : FormErrors :=
  entry F_recipient (check_recipient v sponsor) ++ entry F_token (check_token v) ++ entry F_totalAmount (check_amount v) ++
  entry F_cliffDays (check_cliff v) ++ entry F_totalDays (check_total v) ++
  if includeAdvanced then
    entry F_rate (check_rate v) ++ entry F_metadata (check_metadata v) ++ entry F_fee (check_fee v) ++ entry F_segments (check_segments v)
  else [].

(** ** The request *)

Record CreateStreamRequest := Request {
  rq_sponsor : string;
  rq_recipient : string;
  rq_token : string;
  rq_amount : double;
  rq_rate : double;
  rq_cliffLedgers : double;
  rq_totalLedgers : double;
  rq_metadata : option string;
  rq_segments : option (list RateSegment);
  rq_allowlistOverride : bool;
  rq_feeOverrideBps : option double }.
Definition customRate (v : FormValues) : option double :=
  if truthy (trim (custom_rate v)) then Some (Number (custom_rate v)) else None.
Definition effectiveRate (v : FormValues) : option double :=
  match customRate v with Some r => Some r | None => deriveRate (Number (totalAmount v)) (durationLedgers (totalDays v)) end.
Definition buildCreateStreamRequest (v : FormValues) (sponsor : string) : CreateStreamRequest :=
  Request sponsor (recipient v) (token v) (Number (totalAmount v)) (default (DFin 0) (effectiveRate v))
    (durationLedgers (cliffDays v)) (durationLedgers (totalDays v))
    (if truthy (metadata v) then Some (metadata v) else None)
    (match parseRateSegments (variableRateSegments v) with inl (s :: l) => Some (s :: l) | _ => None end)
    (allowlistOverride v)
    (if truthy (feeOverrideBps v) then Some (Number (feeOverrideBps v)) else None).

(** ** The form *)

Record form := Form {
  values : FormValues;
  touched : list field;
  advancedOpen : bool;
  submitting : bool;
  txHash : option string;
  contractError : option double;
  liveAnnouncement : string;
  wallet : option string;
  stored : option string;  (** the entry of the local storage *)
  sent : list CreateStreamRequest;  (** latest first *)
  settled : list (string + string) (** latest first: a hash, or a message *) }.
Definition readAdvancedOptions (storage : option string) : bool := bool_decide (storage = Some "true").
Definition bool_text (b : bool) : string := if b then "true" else "false".
(** Mounting runs the effect, which stores what was read. *)
Definition mount (sponsor storage : option string) : form :=
  let open := readAdvancedOptions storage in
  Form INITIAL_VALUES [] open false None None "" sponsor (Some (bool_text open)) [] [].

Definition errors (w : form) : FormErrors := validateStreamCreateForm (values w) (advancedOpen w) (wallet w).
Definition hasErrors (w : form) : bool := negb (bool_decide (errors w = [])).
Definition estimatedDeposit (w : form) : option double :=
  let totalLedgers := durationLedgers (totalDays (values w)) in
  match customRate (values w) with
  | Some r => if (lt64 r (DFin 0) || gt0 r) && gt0 totalLedgers then Some (depositFromRate r totalLedgers)
              else if positiveNumber (totalAmount (values w)) then Some (Number (totalAmount (values w))) else None
  | None => if positiveNumber (totalAmount (values w)) then Some (Number (totalAmount (values w))) else None
  end.
Definition overflow (w : form) : bool :=
  match effectiveRate (values w) with
  | Some r => isRateDepositOverflow r (durationLedgers (totalDays (values w)))
  | None => false
  end.
(** What is shown: the error of a field, the preview, the contract error. *)
Definition shown_error (f : field) (w : form) : option string :=
  if bool_decide (f ∈ touched w) then (λ e : nat * (field * string), e.2.2) <$> list_find (λ e : field * string, e.1 = f) (errors w)
  else None.
Definition preview (w : form) : option double :=
  if negb (hasErrors w) && negb (overflow w) then estimatedDeposit w else None.
Definition contract_error_shown (w : form) : bool :=
  bool_decide (is_Some (contractError w)) && negb (match txHash w with Some h => truthy h | None => false end).

(** ** Steps *)

Definition set_text (f : field) (x : string) (v : FormValues) : FormValues :=
  let 'Values r t a c d q g m o b := v in
  match f with
  | F_recipient => Values x t a c d q g m o b
  | F_token => Values r x a c d q g m o b
  | F_totalAmount => Values r t x c d q g m o b
  | F_cliffDays => Values r t a x d q g m o b
  | F_totalDays => Values r t a c x q g m o b
  | F_rate => Values r t a c d x g m o b
  | F_segments => Values r t a c d q x m o b
  | F_metadata => Values r t a c d q g x o b
  | F_fee => Values r t a c d q g m o x
  | F_allowlist => v
  end.
Definition set_allowlist (x : bool) (v : FormValues) : FormValues :=
  let 'Values r t a c d q g m _ b := v in Values r t a c d q g m x b.
Definition handleChange (v : FormValues) (w : form) : form :=
  Form v (touched w) (advancedOpen w) (submitting w) None None (liveAnnouncement w) (wallet w) (stored w) (sent w) (settled w).
Definition setTouched (l : list field) (w : form) : form :=
  Form (values w) l (advancedOpen w) (submitting w) (txHash w) (contractError w) (liveAnnouncement w) (wallet w) (stored w) (sent w) (settled w).
Definition handleBlur (f : field) (w : form) : form := setTouched (f :: touched w) w.
(** The effect on [advancedOpen] stores it. *)
Definition toggleAdvanced (w : form) : form :=
  let open := negb (advancedOpen w) in
  Form (values w) (touched w) open (submitting w) (txHash w) (contractError w) (liveAnnouncement w) (wallet w) (Some (bool_text open)) (sent w) (settled w).
Definition setWallet (a : option string) (w : form) : form :=
  Form (values w) (touched w) (advancedOpen w) (submitting w) (txHash w) (contractError w) (liveAnnouncement w) a (stored w) (sent w) (settled w).
Definition basic_fields : list field := [F_recipient; F_token; F_totalAmount; F_cliffDays; F_totalDays].
Definition advanced_fields : list field := [F_rate; F_segments; F_metadata; F_allowlist; F_fee].
Definition has_wallet (w : form) : bool := match wallet w with Some s => truthy s | None => false end.
(** Up to the call of [submitCreateStream]. *)
Definition handleSubmit (w : form) : form :=
  let w1 := setTouched (basic_fields ++ if advancedOpen w then advanced_fields else []) w in
  match validateStreamCreateForm (values w) (advancedOpen w) (wallet w), wallet w with
  | [], Some s =>
      if negb (truthy s) then w1
      else
        let request := buildCreateStreamRequest (values w) s in
        if isRateDepositOverflow (rq_rate request) (rq_totalLedgers request) then w1
        else Form (values w) (touched w1) (advancedOpen w) true (txHash w) None "Submitting vesting stream…" (wallet w) (stored w)
               (request :: sent w) (settled w)
  | _, _ => w1
  end.
(** [/code[:\s]+(\d+)/i] and [/error[:\s]+(\d+)/i] *)
Definition match_code (word : string) (l : list ascii) : option Z :=
  l ← strip_ci (chars word) l;
  let l' := colon_or_space l in
  if decide (length l' = length l) then None else fst <$> digits l'.
Definition error_code (message : string) : double :=
  match search (match_code "code") (chars message) with
  | Some c => of_Z c
  | None => match search (match_code "error") (chars message) with Some c => of_Z c | None => DFin 0 end
  end.
(** The rest of [handleSubmit], with the hash or the message of the error. *)
Definition settle (r : string + string) (w : form) : form :=
  match r with
  | inl hash => Form (values w) (touched w) (advancedOpen w) false (Some hash) (contractError w) "Vesting stream created successfully."
                  (wallet w) (stored w) (sent w) (inl hash :: settled w)
  | inr message => Form (values w) (touched w) (advancedOpen w) false (txHash w) (Some (error_code message)) (liveAnnouncement w)
                  (wallet w) (stored w) (sent w) (inr message :: settled w)
  end.

Inductive event :=
  | Change (f : field) (x : string)
  | Toggle_allowlist (x : bool)
  | Blur (f : field)
  | Toggle_advanced
  | Submit
  | Settle (r : string + string)
  | Wallet (a : option string).
(** A control is on the page: those of the panel only while it is open. *)
Definition rendered (f : field) (w : form) : bool := bool_decide (f ∈ basic_fields) || advancedOpen w.
(** The button is disabled while a submission runs or without a wallet. *)
Definition step (e : event) (w : form) : form :=
  match e with
  | Change f x => if rendered f w && negb (bool_decide (f = F_allowlist)) then handleChange (set_text f x (values w)) w else w
  | Toggle_allowlist x => if advancedOpen w then handleChange (set_allowlist x (values w)) w else w
  | Blur f => if rendered f w then handleBlur f w else w
  | Toggle_advanced => toggleAdvanced w
  | Submit => if negb (submitting w) && has_wallet w then handleSubmit w else w
  | Settle r => if submitting w then settle r w else w
  | Wallet a => setWallet a w
  end.
Definition run (es : list event) (w : form) : form := foldl (λ w e, step e w) w es.

(** ** Durations *)

Lemma round_Q_mono p q : (p <= q)%Q → round_Q p <= round_Q q.
Proof. intros H. apply Qfloor_resp_le. by apply Qplus_le_compat; [|apply Qle_refl]. Qed.
Lemma round_Q_nonneg q : (0 <= q)%Q → 0 <= round_Q q.
Proof. intros H. change 0 with (round_Q 0). by apply round_Q_mono. Qed.
Lemma days_mono p q n : (0 < p)%Q → (p <= q)%Q → daysToLedgers (DFin q) = DFin (inject_Z n) →
  ∃ m, daysToLedgers (DFin p) = DFin (inject_Z m) ∧ 0 <= m <= n.
Proof.
  intros Hp Hpq. assert (Hle0 : ∀ q, (0 < q)%Q → le0 (DFin q) = false).
  { intros x Hx. unfold le0, lt64. rewrite negb_involutive. by apply not_true_iff_false; rewrite Qle_bool_iff; apply Qlt_not_le. }
  unfold daysToLedgers. rewrite !Hle0 by lra. cbn [is_finite negb orb]. rewrite ledgers_per_day. unfold mul64.
  assert (H0 : le64 (DFin 0) (round64 (p * 17280))) by (change (DFin 0) with (round64 0); apply round64_mono; lra).
  assert (Hm : le64 (round64 (p * 17280)) (round64 (q * 17280))) by (apply round64_mono; lra).
  destruct (round64 (p * 17280)) as [| |x]; [done|by destruct negative; [|destruct (round64 (q * 17280)) as [|[]|]]|].
  destruct (round64 (q * 17280)) as [| |y]; [done..|]. cbn [math_round le64] in *. intros [= Hn].
  exists (round_Q x). split; [done|]. split; [by apply round_Q_nonneg|]. rewrite <-Hn. by apply round_Q_mono.
Qed.
Lemma positiveNumber_Q v : positiveNumber v = true → ∃ q, Number v = DFin q ∧ (0 < q)%Q.
Proof.
  unfold positiveNumber. destruct (Number v) as [| |q]; rewrite ?andb_false_r; [done..|]. intros [_ Hq]%andb_true_iff. exists q. split; [done|].
  unfold gt0, lt64 in Hq. apply negb_true_iff, not_true_iff_false in Hq. rewrite Qle_bool_iff in Hq. by apply Qnot_le_lt.
Qed.
Lemma durationLedgers_bound v : positiveNumber v = true → too_long (durationLedgers v) = false →
  ∃ n, durationLedgers v = DFin (inject_Z n) ∧ 0 <= n <= UINT32_MAX.
Proof.
  intros (q & Hv & Hq)%positiveNumber_Q Hl. unfold durationLedgers in *. rewrite Hv in *.
  assert (∃ n, daysToLedgers (DFin q) = DFin (inject_Z n)) as [n Hn].
  { unfold daysToLedgers in *. destruct (negb (is_finite (DFin q)) || le0 (DFin q)); [by exists 0|].
    destruct (mul64 (DFin q) LEDGERS_PER_DAY) as [| |x]; [done..|]. by exists (round_Q x). }
  destruct (days_mono q q n Hq (Qle_refl q) Hn) as (m & Hm & Hb). exists n. split; [done|]. split; [lia|].
  rewrite Hn in Hl. unfold too_long, above, lt64 in Hl. apply orb_false_iff in Hl as [_ Hl].
  apply negb_false_iff in Hl. unfold Qle_bool in Hl. simpl in Hl. lia.
Qed.

(** ** What an accepted form sends *)

Record request_ok (rq : CreateStreamRequest) : Prop := Request_ok {
  ok_sponsor : rq_sponsor rq ≠ "";
  ok_recipient : stellar_address_re (rq_recipient rq) = true ∧ rq_recipient rq ≠ rq_sponsor rq;
  ok_token : contract_address_re (rq_token rq) = true;
  ok_amount : ∃ q, rq_amount rq = DFin q ∧ (0 < q <= inject_Z MAX_SAFE_INTEGER)%Q;
  ok_ledgers : ∃ c t, rq_cliffLedgers rq = DFin (inject_Z c) ∧ rq_totalLedgers rq = DFin (inject_Z t) ∧ 0 <= c <= t ∧ t <= UINT32_MAX;
  ok_segments : ∀ l, rq_segments rq = Some l → l ≠ [] ∧ valid_segments l;
  ok_overflow : isRateDepositOverflow (rq_rate rq) (rq_totalLedgers rq) = false }.

Lemma entry_nil f e : entry f e = [] → e = None.
Proof. by destruct e. Qed.
Lemma no_errors v adv sponsor : validateStreamCreateForm v adv sponsor = [] →
  check_recipient v sponsor = None ∧ check_token v = None ∧ check_amount v = None ∧ check_cliff v = None ∧ check_total v = None ∧
  (adv = true → check_rate v = None ∧ check_metadata v = None ∧ check_fee v = None ∧ check_segments v = None).
Proof.
  unfold validateStreamCreateForm. intros (H1%entry_nil & (H2%entry_nil & (H3%entry_nil & (H4%entry_nil & (H5%entry_nil & H6)%app_nil)%app_nil)%app_nil)%app_nil)%app_nil.
  split_and!; [done..|]. intros ->. apply app_nil in H6 as (H6%entry_nil & (H7%entry_nil & (H8%entry_nil & H9%entry_nil)%app_nil)%app_nil). done.
Qed.

(** What the checks let through. *)
Lemma check_recipient_ok v s : truthy s = true → check_recipient v (Some s) = None →
  stellar_address_re (recipient v) = true ∧ recipient v ≠ s.
Proof.
  intros Hs. unfold check_recipient. destruct (negb (truthy (recipient v))); [done|]. destruct (stellar_address_re (recipient v)); [|done].
  rewrite Hs. cbn [negb andb]. by case_bool_decide.
Qed.
Lemma check_token_ok v : check_token v = None → contract_address_re (token v) = true.
Proof. unfold check_token. destruct (negb (truthy (token v))); [done|]. by destruct (contract_address_re (token v)). Qed.
Lemma check_amount_ok v : check_amount v = None → ∃ q, Number (totalAmount v) = DFin q ∧ (0 < q <= inject_Z MAX_SAFE_INTEGER)%Q.
Proof.
  unfold check_amount. destruct (positiveNumber (totalAmount v)) eqn:Hp; [|done]. apply positiveNumber_Q in Hp as (q & -> & Hq).
  cbn [negb]. destruct (above MAX_SAFE_INTEGER (DFin q)) eqn:Ha; [done|]. intros _. exists q. split_and!; [done..|].
  apply negb_false_iff in Ha. by apply Qle_bool_iff in Ha.
Qed.
Lemma check_durations_ok v : check_cliff v = None → check_total v = None →
  ∃ c t, durationLedgers (cliffDays v) = DFin (inject_Z c) ∧ durationLedgers (totalDays v) = DFin (inject_Z t) ∧ 0 <= c <= t ∧ t <= UINT32_MAX.
Proof.
  unfold check_cliff, check_total. destruct (positiveNumber (cliffDays v)) eqn:Hc; [|done]. destruct (positiveNumber (totalDays v)) eqn:Ht; [|done].
  cbn [negb]. destruct (too_long (durationLedgers (cliffDays v))) eqn:Hlc; [done|]. destruct (too_long (durationLedgers (totalDays v))) eqn:Hlt; [done|].
  intros _. destruct (durationLedgers_bound _ Ht Hlt) as (t & Htl & Htb). assert (truthy (cliffDays v) = true) as ->.
  { apply bool_decide_eq_true. intros Hs. by rewrite Hs in Hc. }
  apply positiveNumber_Q in Hc as (p & Hp & Hp0). apply positiveNumber_Q in Ht as (q & Hq & Hq0). rewrite Hp, Hq.
  unfold le_num. cbn [is_nan negb andb]. destruct (lt64 (DFin p) (DFin q)) eqn:Hpq; [|done]. intros _.
  unfold lt64 in Hpq. apply negb_true_iff, not_true_iff_false in Hpq. rewrite Qle_bool_iff in Hpq. apply Qnot_le_lt in Hpq.
  unfold durationLedgers in *. rewrite Hp, Hq in *. destruct (days_mono p q t) as (c & Hcl & Hcb); [done|lra|done|].
  exists c, t. split_and!; [done..|lia|lia|lia].
Qed.
Lemma built_segments v s l : rq_segments (buildCreateStreamRequest v s) = Some l → l ≠ [] ∧ valid_segments l.
Proof.
  cbn. destruct (parseRateSegments (variableRateSegments v)) as [[|x l']|] eqn:Hp; [done| |done]. intros [= <-]. split; [done|].
  by eapply parsed_segments_valid.
Qed.
Lemma built_request_ok v adv s : truthy s = true → validateStreamCreateForm v adv (Some s) = [] →
  let rq := buildCreateStreamRequest v s in isRateDepositOverflow (rq_rate rq) (rq_totalLedgers rq) = false → request_ok rq.
Proof.
  intros Hs (H1 & H2 & H3 & H4 & H5 & _)%no_errors rq Ho. split; [by apply bool_decide_eq_true in Hs|..|done].
  - by apply check_recipient_ok.
  - by apply check_token_ok.
  - by apply check_amount_ok.
  - by apply check_durations_ok.
  - intros l. apply built_segments.
Qed.

(** With the panel open the optional figures are checked too. *)
Record advanced_ok (rq : CreateStreamRequest) (custom : option double) : Prop := Advanced_ok {
  adv_rate : ∀ r, custom = Some r → rq_rate rq = r ∧ ∃ n, integer_of r = Some n;
  adv_metadata : ∀ m, rq_metadata rq = Some m → (String.length m <= 256)%nat;
  adv_fee : ∀ x, rq_feeOverrideBps rq = Some x → isSafeInteger x = true ∧ lt64 x (DFin 0) = false ∧ above 10000 x = false;
  adv_last : ∀ l s, rq_segments rq = Some l → last l = Some s → ∃ c t,
    rq_cliffLedgers rq = DFin (inject_Z c) ∧ rq_totalLedgers rq = DFin (inject_Z t) ∧ c < endLedger s ∧ (0 < t → endLedger s <= t) }.

Lemma positiveInteger_of v : positiveInteger v = true → ∃ n, integer_of (Number v) = Some n.
Proof.
  unfold positiveInteger, integer_of. destruct (Number v) as [| |[n d]]; rewrite ?andb_false_r; try done. destruct (truthy (trim v)); [|done].
  destruct (isSafeInteger (DFin (n # d))); [|done]. unfold gt0, lt64, Qle_bool. cbn. rewrite Z.mul_1_r. intros H.
  rewrite (proj2 (Z.ltb_lt 0 n)) by lia. by eexists.
Qed.
Lemma check_rate_ok v r : check_rate v = None → customRate v = Some r → ∃ n, integer_of r = Some n.
Proof.
  unfold check_rate, customRate. destruct (positiveInteger (custom_rate v)) eqn:Hp.
  - intros _. destruct (truthy (trim (custom_rate v))); [|done]. intros [= <-]. by apply positiveInteger_of.
  - rewrite andb_true_r. destruct (bool_decide_reflect (custom_rate v ≠ "")) as [Ht|Ht]; unfold truthy in *.
    + rewrite bool_decide_true by done. done.
    + apply dec_stable in Ht. by rewrite Ht.
Qed.
Lemma check_segments_ok v l s : check_segments v = None → parseRateSegments (variableRateSegments v) = inl l → last l = Some s →
  le_num (DFin (inject_Z (endLedger s))) (durationLedgers (cliffDays v)) = false ∧
  (gt0 (durationLedgers (totalDays v)) = true → lt64 (durationLedgers (totalDays v)) (DFin (inject_Z (endLedger s))) = false).
Proof.
  unfold check_segments. intros H Hp Hs. rewrite Hp, Hs in H. destruct (le_num _ _); [done|]. split; [done|].
  intros Hg. rewrite Hg in H. by destruct (lt64 _ _).
Qed.
(** With the advanced options open, an accepted form sends a custom rate that
    is a positive safe integer, at most 256 bytes of metadata, a fee between 0 and
    10,000 basis points, and segments whose last one ends after the cliff and not
    after the total duration. *)
Theorem advanced_request v s : validateStreamCreateForm v true (Some s) = [] →
  advanced_ok (buildCreateStreamRequest v s) (customRate v).
Proof.
  intros (_ & _ & _ & H4 & H5 & H)%no_errors. destruct (H eq_refl) as (Hr & Hm & Hf & Hsg). split.
  - intros r Hc. split; [|by eapply check_rate_ok]. cbn. unfold effectiveRate. by rewrite Hc.
  - intros m. cbn. unfold check_metadata in Hm. destruct (truthy (metadata v)); [|done]. intros [= <-].
    destruct (Nat.ltb_spec 256 (String.length (metadata v))); [done|lia].
  - intros x. cbn [rq_feeOverrideBps buildCreateStreamRequest]. unfold check_fee in Hf. destruct (truthy (feeOverrideBps v)); [|done]. intros [= <-].
    revert Hf. by destruct (isSafeInteger _), (lt64 _ (DFin 0)), (above 10000 _).
  - intros l sg Hl Hlast. destruct (check_durations_ok v H4 H5) as (c & t & Hc & Ht & Hb & _). exists c, t. split_and!; [done..| |];
      cbn in Hl; destruct (parseRateSegments (variableRateSegments v)) as [[|x l']|] eqn:Hp; try done; injection Hl as <-;
      destruct (check_segments_ok v _ sg Hsg Hp Hlast) as [H1 H2]; rewrite ?Hc, ?Ht in *.
    + unfold le_num, lt64, Qle_bool in H1. cbn in H1. lia.
    + intros Ht0. rewrite gt0_Z in H2 by done. specialize (H2 eq_refl). unfold lt64, Qle_bool in H2. cbn in H2. lia.
Qed.

Definition address_A : string := "GAAAAAAAAAAAAAAAAAAAAAAAAAAAAAAAAAAAAAAAAAAAAAAAAAAAAAAA".
Definition address_B : string := "GBBBBBBBBBBBBBBBBBBBBBBBBBBBBBBBBBBBBBBBBBBBBBBBBBBBBBBB".
Definition contract_C : string := "CCCCCCCCCCCCCCCCCCCCCCCCCCCCCCCCCCCCCCCCCCCCCCCCCCCCCCCC".
Definition fill (amount cliff total : string) : list event :=
  [Change F_recipient address_A; Change F_token contract_C; Change F_totalAmount amount; Change F_cliffDays cliff; Change F_totalDays total].
Definition sample : FormValues :=
  Values address_A contract_C "1000" "30" "365" "25" (segments_text [Segment 600000 10; Segment 6307200 20]) "grant" true "50".
Lemma advanced_request_witness : advanced_ok (buildCreateStreamRequest sample address_B) (Some (DFin 25)).
Proof. apply (advanced_request sample address_B). vm_compute. reflexivity. Defined.

(** ** Runs of the form *)

Record sound (w : form) : Prop := Sound {
  sound_requests : Forall request_ok (sent w);
  sound_count : (length (sent w) = length (settled w) + if submitting w then 1 else 0)%nat;
  sound_stored : stored w = Some (bool_text (advancedOpen w)) }.
Lemma sound_same w w' : sent w' = sent w → settled w' = settled w → submitting w' = submitting w → stored w' = stored w →
  advancedOpen w' = advancedOpen w → sound w → sound w'.
Proof. intros H1 H2 H3 H4 H5 [? ? ?]. split; by rewrite ?H1, ?H2, ?H3, ?H4, ?H5. Qed.
Lemma handleSubmit_sound w : submitting w = false → sound w → sound (handleSubmit w).
Proof.
  intros Hsub Hw. unfold handleSubmit. destruct (validateStreamCreateForm (values w) (advancedOpen w) (wallet w)) eqn:Hv; [|by eapply sound_same; [..|done]].
  destruct (wallet w) as [s|]; [|by eapply sound_same; [..|done]]. destruct (truthy s) eqn:Hs; [|by eapply sound_same; [..|done]]. cbn [negb].
  destruct (isRateDepositOverflow _ _) eqn:Ho; [by eapply sound_same; [..|done]|]. destruct Hw as [H1 H2 H3]. split; cbn [sent settled submitting stored advancedOpen].
  - apply Forall_cons. split; [|done]. by eapply built_request_ok.
  - rewrite Hsub in H2. cbn [length]. lia.
  - done.
Qed.
Lemma form_step_sound e w : sound w → sound (step e w).
Proof.
  intros Hw. destruct e as [f x|x|f| | |r|a]; cbn [step].
  - destruct (rendered f w && _); [|done]. by eapply sound_same; [..|done].
  - destruct (advancedOpen w) eqn:?; [|done]. by eapply sound_same; [..|done].
  - destruct (rendered f w); [|done]. by eapply sound_same; [..|done].
  - destruct Hw. by split.
  - destruct (submitting w) eqn:Hs; [done|]. destruct (has_wallet w); [|done]. by apply handleSubmit_sound.
  - destruct (submitting w) eqn:Hs; [|done]. destruct Hw as [H1 H2 H3]. rewrite Hs in H2. split; destruct r; cbn; by try lia.
  - by eapply sound_same; [..|done].
Qed.
Lemma form_run_sound es : ∀ w, sound w → sound (run es w).
Proof. induction es as [|e es IH]; intros w Hw; [done|]. by apply IH, form_step_sound. Qed.
(** Whatever is typed, toggled and submitted, and whatever the network
    answers: every request sent has valid and different addresses, a token
    contract, a positive safe amount, a cliff not after the end, both within
    32 bits, valid segments and no deposit overflow; at most one submission is
    under way; and the storage always holds whether the panel is open, so a
    reload finds it as it was. *)
Theorem form_run es sponsor storage : let w := run es (mount sponsor storage) in
  Forall request_ok (sent w) ∧ (length (sent w) = length (settled w) + if submitting w then 1 else 0)%nat ∧
  advancedOpen (mount (wallet w) (stored w)) = advancedOpen w.
Proof.
  cbv zeta. assert (H : sound (run es (mount sponsor storage))).
  { apply form_run_sound. by split. }
  destruct H as [H1 H2 H3]. split_and!; [done..|]. cbn [mount advancedOpen]. rewrite H3. by destruct (advancedOpen _).
Qed.

(** ** What it lets through *)

(** With the panel closed again, what was typed there is sent unchecked. *)
Theorem hidden_rate_sent : let w := run (fill "1000" "30" "365" ++ [Toggle_advanced; Change F_rate "-5"; Change F_fee "abc"; Toggle_advanced; Submit])
    (mount (Some address_B) None) in
  (λ rq, (rq_rate rq, rq_feeOverrideBps rq)) <$> sent w = [(DFin (-5), Some DNaN)].
Proof. vm_compute. reflexivity. Qed.
(** An amount the form accepts whose rate cannot be derived is sent with rate 0. *)
Theorem zero_rate_sent : rq_rate <$> sent (run (fill "9007199254740991" "0.5" "1" ++ [Submit]) (mount (Some address_B) None)) = [DFin 0].
Proof. vm_compute. reflexivity. Qed.
(** Different days may be the same number of ledgers, or none. *)
Theorem equal_ledgers_sent : (λ rq, (rq_cliffLedgers rq, rq_totalLedgers rq)) <$>
    sent (run (fill "1000" "1.00001" "1.00002" ++ [Submit]) (mount (Some address_B) None)) = [(DFin 17280, DFin 17280)].
Proof. vm_compute. reflexivity. Qed.
(** A failure after a success is not shown, and the live region does not
    announce a failure. *)
Theorem failure_not_shown : let w := run (fill "1000" "30" "365" ++ [Submit; Settle (inl "aa"); Submit; Settle (inr "Simulated RPC error: code 7")])
    (mount (Some address_B) None) in
  contractError w = Some (DFin 7) ∧ contract_error_shown w = false ∧ liveAnnouncement w = "Submitting vesting stream…".
Proof. vm_compute. split_and!; reflexivity. Qed.
