(* ===== verification/AdminRoutes.v ===== *)
(** * Administrative lists and switches

    The handlers behind [/admin]: the audit log ([backend/src/admin/audit.ts],
    [auditLog.ts]), the streams ([admin/streams.ts]), the dead letters
    ([admin/webhooks.ts]), the indexer switch ([admin/indexer.ts]) and the origin
    check in front of them ([middleware/cors.ts]).  PostgreSQL keeps
    microseconds, a JavaScript date milliseconds; offsets are integers beyond
    2^53 as well. *)
From stdpp Require Import list sorting gmap strings.
From S2P Require Import Prelude Bytes Keyset.
#[local] Open Scope Z_scope.

(** ** Query parameters *)

(** What [qs] makes of a parameter, and its [String]. *)
Inductive qvalue := QText (s : string) | QList (l : list qvalue) | QObject.
Fixpoint q_string (v : qvalue) : string :=
  match v with
  | QText s => s
  | QList l => String.concat "," (q_string <$> l)
  | QObject => "[object Object]"
  end.
Definition query : Type := gmap string qvalue.
(** [String(req.query[name] ?? default)] *)
Definition q_text (q : query) (name default : string) : string :=
  match q !! name with Some v => q_string v | None => default end.
Definition q_trimmed (q : query) (name : string) : string := trim (q_text q name "").
(** [NaN] stays [NaN] through [Math.min] and [Math.max]. *)
Definition q_limit (most : Z) (def : string) (q : query) : number :=
  (λ n, Z.min most (Z.max 1 n)) <$> parse_int (q_text q "limit" def).
Definition q_offset (q : query) : number := Z.max 0 <$> parse_int (q_text q "offset" "0").
(** [LIMIT l OFFSET o]: [NaN] is no bigint, nor is an offset of 2^63. *)
Definition page {A} (limit offset : number) (rows : list A) : option (list A) :=
  l ← limit; o ← offset;
  if o <? 2 ^ 63 then Some (take (Z.to_nat l) (drop (Z.to_nat o) rows)) else None.

(** ** The audit log *)

(** A row of [audit_log]; [performed_at] in microseconds. *)
Record audit_row := AuditRow {
  a_id : Z;
  actor_address : string;
  action : string;
  parameters : option string;
  result : string;
  ip_address : option string;
  correlation_id : option string;
  performed_at : Z }.
#[global] Instance audit_row_eq_dec : EqDecision audit_row.
Proof. solve_decision. Defined.
Record audit_page := AuditPage {
  ap_total : Z;
  ap_limit : Z;
  ap_offset : Z;
  ap_items : list (audit_row * Z) (** each with the milliseconds shown *) }.
Inductive reply (A : Type) := Bad_request (message : string) | Server_error | Ok_json (a : A).
Arguments Bad_request {A} message.
Arguments Server_error {A}.
Arguments Ok_json {A} a.

(** [/^[a-z_]{1,64}$/] *)
Definition ACTION_RE (s : string) : bool :=
  bool_decide (1 <= String.length s <= 64)%nat && forallb (λ c, in_range 97 122 c || bool_decide (c = "_"%char)) (chars s).

Section audit.
(** [Date.parse], in milliseconds. *)
Context (Date_parse : string → option Z).

Record audit_filter := AuditFilter {
  f_actor : string;
  f_action : string;
  f_from : option Z;
  f_to : option Z }.
Definition at_least (o : option Z) (t : Z) : Prop := match o with Some ms => ms * 1000 <= t | None => True end.
Definition at_most (o : option Z) (t : Z) : Prop := match o with Some ms => t <= ms * 1000 | None => True end.
#[global] Instance at_least_dec o t : Decision (at_least o t).
Proof. unfold at_least. destruct o; apply _. Defined.
#[global] Instance at_most_dec o t : Decision (at_most o t).
Proof. unfold at_most. destruct o; apply _. Defined.
(** The [WHERE] clause. *)
Definition selects (f : audit_filter) (r : audit_row) : Prop :=
  (truthy (f_actor f) = true → actor_address r = f_actor f) ∧ (truthy (f_action f) = true → action r = f_action f) ∧
  at_least (f_from f) (performed_at r) ∧ at_most (f_to f) (performed_at r).
#[global] Instance selects_dec f r : Decision (selects f r).
Proof. unfold selects. apply _. Defined.
Definition audit_key (r : audit_row) : Z * Z := (performed_at r, a_id r).

(** The checks, in order. *)
Definition audit_filter_of (q : query) : audit_filter + string :=
  let rawActor := q_trimmed q "actor_address" in
  let rawAction := q_trimmed q "action" in
  let rawFrom := q_trimmed q "from" in
  let rawTo := q_trimmed q "to" in
  if truthy rawActor && negb (stellar_address_re rawActor) then inr "actor_address must be a valid Stellar public key (G…, 56 chars)"
  else if truthy rawAction && negb (ACTION_RE rawAction) then inr "action must contain only lowercase letters and underscores (max 64 chars)"
  else if truthy rawFrom && negb (bool_decide (is_Some (Date_parse rawFrom))) then inr "from must be a valid ISO-8601 date string"
  else if truthy rawTo && negb (bool_decide (is_Some (Date_parse rawTo))) then inr "to must be a valid ISO-8601 date string"
  else inl (AuditFilter rawActor rawAction (if truthy rawFrom then Date_parse rawFrom else None) (if truthy rawTo then Date_parse rawTo else None)).

(** The count and the page are read by two queries: each has its own table. *)
Definition auditLogHandler (counted listed : list audit_row) (q : query) : reply audit_page :=
  let limit := q_limit 200 "50" q in
  let offset := q_offset q in
  match audit_filter_of q with
  | inr message => Bad_request message
  | inl f =>
      match limit, offset, page limit offset (ordered audit_key (filter (selects f) listed)) with
      | Some l, Some o, Some rows =>
          Ok_json (AuditPage (Z.of_nat (length (filter (selects f) counted))) l o ((λ r, (r, performed_at r / 1000)) <$> rows))
      | _, _, _ => Server_error
      end
  end.
End audit.

Record AuditLogEntry := Entry {
  n_actor : string;
  n_action : string;
  n_parameters : option string;
  n_result : string;
  n_ip : option string;
  n_correlation : option string }.
(** [inet] and [uuid] are the casts of PostgreSQL; [i] is the next value of the
    sequence. *)
Definition writeAuditLog (inet uuid : string → option string) (i now : Z) (e : AuditLogEntry) (t : list audit_row) : option (list audit_row) :=
  ip ← match n_ip e with Some s => Some <$> inet s | None => Some None end;
  c ← match n_correlation e with Some s => Some <$> uuid s | None => Some None end;
  Some (AuditRow i (n_actor e) (n_action e) (n_parameters e) (n_result e) ip c now :: t).
(** [headers["x-forwarded-for"]]: text, or texts when it is repeated. *)
Inductive header_value := One (s : string) | Many (l : list string).
Definition extractIp (xff : option header_value) (remoteAddress : option string) : option string :=
  match xff with
  | Some (One s) => if truthy s then trim <$> head (split_on "," s) else remoteAddress
  | Some (Many l) => trim <$> head l
  | None => remoteAddress
  end.

(** ** The streams *)

Record stream_row := StreamRow {
  s_id : string;
  s_sponsor : string;
  s_recipient : string;
  s_token : string;
  s_rate : Z;
  s_start : Z;
  s_cliff : Z;
  s_end : Z;
  s_status : string;
  s_cancelled_at : option Z;
  s_created_at : Z }.
Record stream_page := StreamPage { sp_total : Z; sp_limit : Z; sp_offset : Z; sp_items : list stream_row }.
Definition VALID_STATUSES : list string := ["active"; "pre_cliff"; "expired"; "cancelled"].
Definition equal_if_given (f x : string) : Prop := truthy f = true → x = f.
#[global] Instance equal_if_given_dec f x : Decision (equal_if_given f x).
Proof. unfold equal_if_given. apply _. Defined.
Definition stream_selected (status sponsor recipient : string) (r : stream_row) : Prop :=
  equal_if_given status (s_status r) ∧ equal_if_given sponsor (s_sponsor r) ∧ equal_if_given recipient (s_recipient r).
#[global] Instance stream_selected_dec a b c r : Decision (stream_selected a b c r).
Proof. unfold stream_selected. apply _. Defined.
(** [arrange]: the order PostgreSQL gives rows created at the same time. *)
Definition streamsHandler (arrange : list stream_row → list stream_row) (counted listed : list stream_row) (q : query) : reply stream_page :=
  let rawStatus := q_trimmed q "status" in
  let rawSponsor := q_trimmed q "sponsor" in
  let rawRecipient := q_trimmed q "recipient" in
  let limit := q_limit 200 "50" q in
  let offset := q_offset q in
  if truthy rawStatus && negb (bool_decide (rawStatus ∈ VALID_STATUSES)) then
    Bad_request ("Invalid status. Allowed: " +:+ String.concat ", " VALID_STATUSES)
  else if truthy rawSponsor && negb (stellar_address_re rawSponsor) then Bad_request "sponsor must be a valid Stellar public key"
  else if truthy rawRecipient && negb (stellar_address_re rawRecipient) then Bad_request "recipient must be a valid Stellar public key"
  else
    let P := stream_selected rawStatus rawSponsor rawRecipient in
    match limit, offset, page limit offset (arrange (filter P listed)) with
    | Some l, Some o, Some rows => Ok_json (StreamPage (Z.of_nat (length (filter P counted))) l o rows)
    | _, _, _ => Server_error
    end.

(** ** Dead letters *)

Record dlq_row := DlqRow {
  d_id : Z;
  webhook_url : string;
  payload : string;
  last_error : string;
  retry_count : Z;
  failed_at : Z;
  last_retry_at : option Z }.
Record dlq_page := DlqPage { dp_total : Z; dp_limit : Z; dp_items : list dlq_row }.
(** [newest_first]: by [failed_at], rows of the same time in any order. *)
Definition dlqListHandler (newest_first : list dlq_row → list dlq_row) (t : list dlq_row) (q : query) : reply dlq_page :=
  match q_limit 500 "100" q with
  | Some l => let rows := take (Z.to_nat l) (newest_first t) in Ok_json (DlqPage (Z.of_nat (length rows)) l rows)
  | None => Server_error
  end.
Record replay_result := Replayed { r_id : Z; r_ok : bool; r_error : option string }.
Record replay_summary := Summary { replayed : Z; succeeded : Z; failed : Z; results : list replay_result }.
Inductive replay_reply := R_bad_id | R_not_found (i : Z) | R_failed | R_ok (s : replay_summary).
Definition ok_count (b : bool) (l : list replay_result) : Z := Z.of_nat (length (filter (λ r, r_ok r = b) l)).
(** [worker.replayDlqItem] and the table it leaves; [None] of a call is an
    exception. *)
Definition replay_fn : Type := Z → list dlq_row → option (bool * option string) * list dlq_row.
Fixpoint replay_all (f : option replay_fn) (ids : list Z) (t : list dlq_row) : option (list replay_result) * list dlq_row :=
  match ids with
  | [] => (Some [], t)
  | i :: ids =>
      match f with
      | Some f =>
          match f i t with
          | (Some (ok, e), t) => let '(rs, t) := replay_all (Some f) ids t in (cons (Replayed i ok e) <$> rs, t)
          | (None, t) => (None, t)
          end
      | None => let '(rs, t) := replay_all None ids t in (cons (Replayed i true None) <$> rs, t)
      end
  end.
Definition replay_ids (f : option replay_fn) (ids : list Z) (t : list dlq_row) : replay_reply * list dlq_row :=
  match ids with
  | [] => (R_ok (Summary 0 0 0 []), t)
  | _ => match replay_all f ids t with
         | (Some rs, t) => (R_ok (Summary (Z.of_nat (length rs)) (ok_count true rs) (ok_count false rs) rs), t)
         | (None, t) => (R_failed, t)
         end
  end.
(** [body_id]: the [String] of the id of the body. *)
Definition dlqReplayHandler (replayDlqItem : option replay_fn) (oldest_first : list dlq_row → list dlq_row) (body_id : option string)
    (t : list dlq_row) : replay_reply * list dlq_row :=
  let singleId := parse_int <$> body_id in
  match singleId with
  | Some None => (R_bad_id, t)
  | Some (Some i) =>
      if i <=? 0 then (R_bad_id, t)
      else if 2 ^ 31 <=? i then (R_failed, t)
      else if bool_decide (i ∈ d_id <$> t) then replay_ids replayDlqItem [i] t else (R_not_found i, t)
  | None => replay_ids replayDlqItem (d_id <$> oldest_first t) t
  end.
(** What [webhookWorker.js] exports. *)
Definition worker_exports : list string := ["dispatch"; "computeSignature"; "verifySignature"; "getSigningSecret"; "SUPPORTED_EVENTS"; "MAX_ATTEMPTS"; "BASE_DELAY_MS"; "BACKFILL_THRESHOLD_MS"].
Definition getReplayFn (f : replay_fn) : option replay_fn :=
  if bool_decide ("replayDlqItem" ∈ worker_exports) then Some f else None.

(** ** The indexer switch *)

Record IndexerStatus := Status {
  i_status : string;
  lastCursor : string;
  lastIndexedLedger : Z;
  chainTipLedger : Z;
  lagLedgers : Z;
  errorCount : Z;
  lastError : option string;
  uptimeSeconds : option Z;
  startedAt : option Z }.
Definition indexerState : IndexerStatus := Status "stopped" "" 0 0 0 0 None None None.
Definition markIndexerStarted (now : Z) (s : IndexerStatus) : IndexerStatus :=
  Status "running" (lastCursor s) (lastIndexedLedger s) (chainTipLedger s) (lagLedgers s) (errorCount s) (lastError s) (uptimeSeconds s) (Some now).
Definition markIndexerStopped (e : option string) (s : IndexerStatus) : IndexerStatus :=
  match e with
  | Some m => if truthy m
      then Status "error" (lastCursor s) (lastIndexedLedger s) (chainTipLedger s) (lagLedgers s) (errorCount s + 1) (Some m) (uptimeSeconds s) None
      else Status "stopped" (lastCursor s) (lastIndexedLedger s) (chainTipLedger s) (lagLedgers s) (errorCount s) (lastError s) (uptimeSeconds s) None
  | None => Status "stopped" (lastCursor s) (lastIndexedLedger s) (chainTipLedger s) (lagLedgers s) (errorCount s) (lastError s) (uptimeSeconds s) None
  end.
(** [cursor]: the answer of the query: it failed, or the row with its cursor, if
    there is one. *)
Definition refreshFromDb (cursor : option (option (option string))) (s : IndexerStatus) : IndexerStatus :=
  match cursor with
  | Some (Some c) => Status (i_status s) (default "" c) (lastIndexedLedger s) (chainTipLedger s) (lagLedgers s) (errorCount s) (lastError s) (uptimeSeconds s) (startedAt s)
  | _ => s
  end.
Definition statusHandler (cursor : option (option (option string))) (now : Z) (s : IndexerStatus) : IndexerStatus :=
  let s := refreshFromDb cursor s in
  match startedAt s with
  | Some t => Status (i_status s) (lastCursor s) (lastIndexedLedger s) (chainTipLedger s) (lagLedgers s) (errorCount s) (lastError s)
                (Some ((now - t) / 1000)) (startedAt s)
  | None => s
  end.
(** [restart]: no function is registered, or what it came to: nothing, or the
    message of its exception. *)
Definition restartHandler (restart : option (option string)) (s : IndexerStatus) : (Z * string) * IndexerStatus :=
  match restart with
  | None => ((200, "Indexer restart signalled (no active indexer)"), markIndexerStopped None s)
  | Some None => ((200, "Indexer restarted successfully"), s)
  | Some (Some msg) => ((500, "Restart failed: " +:+ msg), markIndexerStopped (Some msg) s)
  end.

(** ** Origins *)

Definition buildAllowlist (env : option string) : list string :=
  let raw := default "" env in if truthy (trim raw) then comma_list raw else [].
Definition cors_headers (origin : string) : list (string * string) :=
  [("Access-Control-Allow-Origin", origin); ("Access-Control-Allow-Methods", "GET, POST, OPTIONS");
   ("Access-Control-Allow-Headers", "Content-Type, Authorization, X-Correlation-ID"); ("Access-Control-Allow-Credentials", "true");
   ("Access-Control-Max-Age", "3600"); ("Vary", "Origin")].
Inductive cors_outcome :=
  | Pass (headers : list (string * string))
  | Forbidden
  | No_content (headers : list (string * string)).
Definition corsMiddleware (env origin : option string) (method : string) : cors_outcome :=
  match origin with
  | None => Pass []
  | Some o =>
      if negb (truthy o) then Pass []
      else if negb (bool_decide (o ∈ buildAllowlist env)) then Forbidden
      else if bool_decide (method = "OPTIONS") then No_content (cors_headers o) else Pass (cors_headers o)
  end.

(** ** Pages by offset over a table that only grows *)

Lemma submseteq_filter {A} (P : A → Prop) `{!∀ x, Decision (P x)} l l' : l ⊆+ l' → filter P l ⊆+ filter P l'.
Proof. intros [k ->]%submseteq_Permutation. rewrite filter_app. apply submseteq_inserts_r. done. Qed.

Section offset_pages.
Context {A : Type} (key : A → Z * Z).
Implicit Types (l : list A).

(** The place of a row is the number of rows with a greater key. *)
Definition rank (x : A) (l : list A) : nat := length (filter (λ y, key_lt (key x) (key y)) l).
Lemma rank_lookup l : ∀ i x, StronglySorted (first_in_order key) l → NoDup (key <$> l) → l !! i = Some x → rank x l = i.
Proof.
  unfold rank. induction l as [|y l IH]; intros i x Hs Hnd Hi; [done|]. apply StronglySorted_cons in Hs as [Hy Hs].
  cbn [fmap list_fmap] in Hnd. apply NoDup_cons in Hnd as [Hny Hnd]. rewrite Forall_forall in Hy. destruct i as [|i]; simpl in Hi.
  - injection Hi as ->. rewrite filter_none; [done|]. intros z [->|Hz]%elem_of_cons; [apply key_lt_irrefl|]. by apply Hy.
  - rewrite filter_cons_True; [cbn; f_equal; by apply IH|]. apply list_elem_of_lookup_2 in Hi.
    specialize (Hy x Hi). destruct (key_cases (key x) (key y)) as [|[Hk|]]; [done| |done].
    destruct Hny. rewrite <-Hk. by apply list_elem_of_fmap_2.
Qed.
Lemma rank_ordered x l : rank x (ordered key l) = rank x l.
Proof. unfold rank. by rewrite ordered_perm. Qed.
Lemma rank_grows x l l' : l ⊆+ l' → (rank x l <= rank x l')%nat.
Proof. intros Hl. apply submseteq_length. by apply submseteq_filter. Qed.

Context (t : nat → list A) (L : nat).
Hypothesis grows : ∀ k, t k ⊆+ t (S k).
Hypothesis distinct : ∀ k, NoDup (key <$> t k).
Definition offset_page (k : nat) : list A := take L (drop (k * L) (ordered key (t k))).

Lemma grows_elem k x : x ∈ t 0 → x ∈ t k.
Proof. induction k as [|k IH]; [done|]. intros Hx. eapply elem_of_submseteq; [by apply IH|apply grows]. Qed.
Lemma rank_at k x : x ∈ t 0 → ordered key (t k) !! rank x (t k) = Some x.
Proof.
  intros Hx%(grows_elem k). apply elem_of_ordered with (key := key) in Hx. apply list_elem_of_lookup_1 in Hx as [i Hi].
  rewrite <-rank_ordered. erewrite rank_lookup; [done|apply ordered_sorted| |done]. by rewrite ordered_perm.
Qed.
Lemma on_page k x : x ∈ t 0 → (k * L <= rank x (t k) < S k * L)%nat → x ∈ offset_page k.
Proof.
  intros Hx Hr. apply list_elem_of_lookup. exists (rank x (t k) - k * L)%nat. unfold offset_page.
  rewrite lookup_take_lt, lookup_drop by lia. replace (_ + _)%nat with (rank x (t k)) by lia. by apply rank_at.
Qed.
Lemma found_or_ahead x n : x ∈ t 0 → (∃ k, (k <= n)%nat ∧ x ∈ offset_page k) ∨ (S n * L <= rank x (t n))%nat.
Proof.
  intros Hx. induction n as [|n [(k & Hk & Hp)|Ha]].
  - destruct (Nat.lt_ge_cases (rank x (t 0)) (1 * L)) as [Hr|Hr]; [left|by right]. exists 0%nat. split; [lia|]. apply on_page; [done|lia].
  - left. exists k. split; [lia|done].
  - pose proof (rank_grows x _ _ (grows n)) as Hg.
    destruct (Nat.lt_ge_cases (rank x (t (S n))) (S (S n) * L)) as [Hr|Hr]; [left|by right].
    exists (S n). split; [lia|]. apply on_page; [done|lia].
Qed.
Lemma walk_finds x n : x ∈ t 0 → (length (offset_page n) < L)%nat → ∃ k, (k <= n)%nat ∧ x ∈ offset_page k.
Proof.
  intros Hx Hshort. destruct (found_or_ahead x n Hx) as [?|Ha]; [done|exfalso].
  pose proof (lookup_lt_Some _ _ _ (rank_at n x Hx)) as Hlt. unfold offset_page in Hshort. rewrite length_take, length_drop in Hshort. lia.
Qed.
End offset_pages.

(** ** What the audit endpoint shows *)

Lemma auditLogHandler_ok Date_parse counted listed q pg f : auditLogHandler Date_parse counted listed q = Ok_json pg →
  audit_filter_of Date_parse q = inl f →
  ap_items pg = (λ r, (r, performed_at r / 1000)) <$>
    take (Z.to_nat (ap_limit pg)) (drop (Z.to_nat (ap_offset pg)) (ordered audit_key (filter (selects f) listed))) ∧
  ap_total pg = Z.of_nat (length (filter (selects f) counted)) ∧ 1 <= ap_limit pg <= 200.
Proof.
  unfold auditLogHandler. intros H Hf. rewrite Hf in H. unfold q_limit in H. destruct (parse_int (q_text q "limit" "50")) as [l|]; [|done].
  cbn [fmap option_fmap option_map] in H. destruct (q_offset q) as [o|]; [|done]. unfold page in H. cbn [mbind option_bind] in H.
  destruct (o <? 2 ^ 63); [|done]. injection H as <-. cbn. split_and!; [done..|lia|lia].
Qed.

(** C23. Walking the audit log by offset while entries are added misses no entry
    that was there when the walk began: an entry that matches the filter is on
    one of the pages read until the first short one. *)
Theorem audit_walk_complete Date_parse (counted listed : nat → list audit_row) (q : nat → query) (pages : nat → audit_page) f L n r :
  (∀ k, listed k ⊆+ listed (S k)) → (∀ k, NoDup (a_id <$> listed k)) →
  (∀ k, (k <= n)%nat → audit_filter_of Date_parse (q k) = inl f ∧
    auditLogHandler Date_parse (counted k) (listed k) (q k) = Ok_json (pages k) ∧
    ap_limit (pages k) = Z.of_nat L ∧ ap_offset (pages k) = Z.of_nat (k * L)) →
  (length (ap_items (pages n)) < L)%nat → r ∈ listed 0%nat → selects f r →
  ∃ k, (k <= n)%nat ∧ r ∈ fst <$> ap_items (pages k).
Proof.
  intros Hgrow Hids Hpages Hshort Hr Hs. set (t k := filter (selects f) (listed k)).
  assert (Hitems : ∀ k, (k <= n)%nat → fst <$> ap_items (pages k) = offset_page audit_key t L k).
  { intros k Hk. destruct (Hpages k Hk) as (Hf & Hok & Hl & Ho). destruct (auditLogHandler_ok _ _ _ _ _ _ Hok Hf) as (-> & _).
    rewrite Hl, Ho, !Nat2Z.id, <-list_fmap_compose. apply list_fmap_id. }
  assert (Hgt : ∀ k, t k ⊆+ t (S k)) by (intros k; by apply submseteq_filter).
  assert (Hnd : ∀ k, NoDup (audit_key <$> t k)).
  { intros k. apply NoDup_fmap_filter. apply (NoDup_fmap_1 snd). rewrite <-list_fmap_compose. apply Hids. }
  destruct (walk_finds audit_key t L Hgt Hnd r n) as (k & Hk & Hin).
  - by apply list_elem_of_filter.
  - by rewrite <-Hitems, length_fmap.
  - exists k. by rewrite Hitems.
Qed.
Definition demo_audit (i t : Z) : audit_row := AuditRow i "GADMIN" "pause_stream" None "success" None None t.
Definition demo_logs (k : nat) : list audit_row :=
  (match k with O => [] | _ => [demo_audit 4 9000] end) ++ [demo_audit 3 7000; demo_audit 2 5000; demo_audit 1 5000].
Definition demo_page_query (k : nat) : query := {["limit" := QText "2"; "offset" := QText (Z_to_string (Z.of_nat (k * 2)))]}.
Definition demo_pages (k : nat) : audit_page :=
  match auditLogHandler (λ _, None) (demo_logs k) (demo_logs k) (demo_page_query k) with Ok_json p => p | _ => AuditPage 0 0 0 [] end.
Lemma audit_walk_complete_witness : ap_items (demo_pages 1) = [(demo_audit 2 5000, 5); (demo_audit 1 5000, 5)] ∧
  ∃ k, (k <= 2)%nat ∧ demo_audit 1 5000 ∈ fst <$> ap_items (demo_pages k).
Proof.
  split; [vm_compute; reflexivity|]. apply (audit_walk_complete (λ _, None) demo_logs demo_logs demo_page_query demo_pages (AuditFilter "" "" None None) 2).
  - intros [|k]; cbn; [by apply submseteq_cons|done].
  - intros [|k]; apply (bool_decide_unpack _); vm_compute; exact I.
  - intros [|[|[|k]]] Hk; [vm_compute; split_and!; reflexivity..|lia].
  - vm_compute. lia.
  - apply (bool_decide_unpack _). vm_compute. exact I.
  - apply (bool_decide_unpack _). vm_compute. exact I.
Defined.

(** A page number that is no number reaches the query, which fails. *)
Theorem limit_not_a_number Date_parse counted listed q f : audit_filter_of Date_parse q = inl f → parse_int (q_text q "limit" "50") = None →
  auditLogHandler Date_parse counted listed q = Server_error.
Proof. intros Hf Hl. unfold auditLogHandler, q_limit. by rewrite Hf, Hl. Qed.
Lemma limit_not_a_number_witness : auditLogHandler (λ _, None) [] [] {["limit" := QText "all"]} = Server_error.
Proof. apply (limit_not_a_number (λ _, None) [] [] {["limit" := QText "all"]} (AuditFilter "" "" None None)); vm_compute; reflexivity. Defined.
(** The upper bound is inclusive to the millisecond only in appearance: an entry
    is not found by the time it is shown with. *)
Theorem shown_bound_excludes : let q : query := {["to" := QText "1970-01-01T00:00:00.001Z"]} in
  let Date_parse (s : string) := if decide (s = "1970-01-01T00:00:00.001Z") then Some 1 else None in
  ap_items <$> (match auditLogHandler Date_parse [demo_audit 1 1500] [demo_audit 1 1500] ∅ with Ok_json p => Some p | _ => None end) = Some [(demo_audit 1 1500, 1)] ∧
  ap_items <$> (match auditLogHandler Date_parse [demo_audit 1 1500] [demo_audit 1 1500] q with Ok_json p => Some p | _ => None end) = Some [].
Proof. vm_compute. split; reflexivity. Qed.
(** An entry written is the newest one listed, with the filter of its actor. *)
Theorem written_entry_listed inet uuid i now e t t' : writeAuditLog inet uuid i now e t = Some t' →
  (∀ r, r ∈ t → performed_at r <= now ∧ a_id r < i) →
  ∃ r, head (ordered audit_key t') = Some r ∧ a_id r = i ∧ actor_address r = n_actor e ∧ action r = n_action e ∧ result r = n_result e.
Proof.
  unfold writeAuditLog. intros H Hold. destruct (match n_ip e with Some _ => _ | None => _ end) as [ip|]; [|done]. cbn [mbind option_bind] in H.
  destruct (match n_correlation e with Some _ => _ | None => _ end) as [c|]; [|done]. injection H as <-.
  set (r := AuditRow _ _ _ _ _ _ _ _). exists r. split; [|done].
  assert (Hin : r ∈ ordered audit_key (r :: t)) by (apply elem_of_ordered; by left).
  pose proof (ordered_sorted audit_key (r :: t)) as Hs. destruct (ordered audit_key (r :: t)) as [|x l] eqn:Ho; [by apply elem_of_nil in Hin|].
  apply elem_of_cons in Hin as [->|Hin]; [done|]. apply StronglySorted_cons in Hs as [Hx _]. rewrite Forall_forall in Hx. specialize (Hx r Hin).
  assert (Hxt : x ∈ r :: t) by (rewrite <-(elem_of_ordered audit_key), Ho; by left).
  apply elem_of_cons in Hxt as [->|Hxt]; [done|]. destruct (Hold x Hxt) as [H1 H2]. destruct Hx. unfold key_lt, audit_key. cbn. lia.
Qed.
Lemma written_entry_listed_witness : ∃ r, head (ordered audit_key [AuditRow 5 "G" "backfill" None "success" None None 9000; demo_audit 1 9000]) = Some r ∧
  a_id r = 5 ∧ actor_address r = "G" ∧ action r = "backfill" ∧ result r = "success".
Proof.
  apply (written_entry_listed Some Some 5 9000 (Entry "G" "backfill" None "success" None None) [demo_audit 1 9000]); [reflexivity|].
  intros r ->%list_elem_of_singleton. cbn. lia.
Defined.

(** ** Dead letters, the switch, origins *)

Lemma ok_counts l : ok_count true l + ok_count false l = Z.of_nat (length l).
Proof.
  unfold ok_count. induction l as [|x l IH]; [done|]. rewrite !filter_cons. destruct (decide (r_ok x = true)) as [->|Hx].
  - rewrite decide_False by done. cbn [length]. lia.
  - apply not_true_is_false in Hx as ->. rewrite decide_True by done. cbn [length]. lia.
Qed.
(** Every dead letter that was to be replayed is counted once, as a success or a
    failure. *)
Theorem replay_counts f oldest_first body_id t s t' : dlqReplayHandler f oldest_first body_id t = (R_ok s, t') →
  (∀ i, body_id = Some i → replayed s = 1) ∧ (body_id = None → replayed s = Z.of_nat (length (oldest_first t))) ∧
  succeeded s + failed s = replayed s ∧ Z.of_nat (length (results s)) = replayed s.
Proof.
  assert (Hall : ∀ f ids t rs t', replay_all f ids t = (Some rs, t') → length rs = length ids).
  { clear. intros f ids. induction ids as [|i ids IH]; intros t rs t'; cbn; [by intros [= <- _]|]. destruct f as [f|].
    - destruct (f i t) as [[[ok e]|] t1]; [|done]. destruct (replay_all (Some f) ids t1) as [[l|] t2] eqn:Hr; [|done]. intros [= <- _]. cbn. f_equal. by eapply IH.
    - destruct (replay_all None ids t) as [[l|] t2] eqn:Hr; [|done]. intros [= <- _]. cbn. f_equal. by eapply IH. }
  unfold dlqReplayHandler.
  assert (Hrun : ∀ ids, replay_ids f ids t = (R_ok s, t') → replayed s = Z.of_nat (length ids) ∧ succeeded s + failed s = replayed s ∧ Z.of_nat (length (results s)) = replayed s).
  { intros [|i ids]; cbn [replay_ids]; [by intros [= <- _]|]. destruct (replay_all f (i :: ids) t) as [[rs|] t1] eqn:Hr; [|done]. intros [= <- _].
    apply Hall in Hr. cbn [replayed succeeded failed results]. rewrite Hr. split_and!; [done| |done]. rewrite <-Hr. apply ok_counts. }
  destruct body_id as [b|]; cbn [fmap option_fmap option_map].
  - destruct (parse_int b) as [i|]; [|done]. destruct (i <=? 0); [done|]. destruct (2 ^ 31 <=? i); [done|]. case_bool_decide; [|done].
    intros H1. apply Hrun in H1 as (H2 & H3 & H4). split_and!; [by intros|done..].
  - intros H1. apply Hrun in H1 as (H2 & H3 & H4). split_and!; [done|intros _; by rewrite H2, length_fmap|done..].
Qed.
Lemma replay_counts_witness : let t := [DlqRow 7 "u" "p" "e" 1 0 None] in
  ∃ s, dlqReplayHandler None (λ l, l) (Some "7") t = (R_ok s, t) ∧ succeeded s + failed s = replayed s.
Proof.
  eexists. split; [vm_compute; reflexivity|]. eapply (replay_counts None (λ l, l) (Some "7") [DlqRow 7 "u" "p" "e" 1 0 None]). vm_compute. reflexivity.
Defined.
(** The worker exports no [replayDlqItem]: everything is reported as replayed with
    success and nothing is replayed. *)
Theorem nothing_is_replayed f oldest_first t : t ≠ [] → (∀ l, oldest_first l ≡ₚ l) →
  ∃ s, dlqReplayHandler (getReplayFn f) oldest_first None t = (R_ok s, t) ∧ succeeded s = Z.of_nat (length t) ∧ failed s = 0.
Proof.
  intros Ht Ho. assert (getReplayFn f = None) as -> by reflexivity. unfold dlqReplayHandler. cbn [fmap option_fmap option_map].
  assert (Hall : ∀ ids, replay_all None ids t = (Some ((λ i, Replayed i true None) <$> ids), t)).
  { intros ids. induction ids as [|i ids IH]; [done|]. cbn [replay_all]. by rewrite IH. }
  assert (Hc : ∀ ids, ok_count true ((λ i, Replayed i true None) <$> ids) = Z.of_nat (length ids) ∧ ok_count false ((λ i, Replayed i true None) <$> ids) = 0).
  { unfold ok_count. intros ids. induction ids as [|i ids [IH1 IH2]]; [done|]. cbn [fmap list_fmap]. rewrite !filter_cons. cbn [r_ok].
    rewrite decide_True, decide_False by done. cbn [length]. lia. }
  assert (Hlen : length (oldest_first t) = length t) by (by rewrite Ho).
  destruct (oldest_first t) as [|d l]; [destruct t; [done|discriminate Hlen]|]. cbn [fmap list_fmap].
  unfold replay_ids. change (d_id d :: (d_id <$> l)) with (d_id <$> d :: l). rewrite Hall. destruct (Hc (d_id <$> d :: l)) as [H1 H2]. eexists. split; [reflexivity|].
  cbn [succeeded failed]. rewrite H1, H2, length_fmap, Hlen. done.
Qed.
Lemma nothing_is_replayed_witness : let t := [DlqRow 7 "u" "p" "e" 1 0 None] in
  ∃ s, dlqReplayHandler (getReplayFn (λ _ t, (None, t))) (λ l, l) None t = (R_ok s, t) ∧ succeeded s = 1 ∧ failed s = 0.
Proof. apply (nothing_is_replayed (λ _ t, (None, t)) (λ l, l) [DlqRow 7 "u" "p" "e" 1 0 None]); [done|reflexivity]. Defined.

(** A stopped indexer keeps showing its last uptime, and a restart that only
    signals reports success and marks it stopped. *)
Theorem stopped_indexer_shown s e c now : uptimeSeconds (statusHandler c now (markIndexerStopped e s)) = uptimeSeconds s ∧
  restartHandler None s = ((200, "Indexer restart signalled (no active indexer)"), markIndexerStopped None s).
Proof.
  split; [|done]. unfold statusHandler. assert (H : startedAt (refreshFromDb c (markIndexerStopped e s)) = None).
  { destruct c as [[c|]|], e as [m|]; cbn; try done; by destruct (truthy m). }
  rewrite H. destruct c as [[c|]|], e as [m|]; cbn; try done; by destruct (truthy m).
Qed.

(** The origin check: a request is refused exactly when it names an origin
    that is not listed; the headers that let a browser read the answer are set for
    listed origins only, and name the origin itself; preflights go no further. *)
Theorem cors_spec env origin method :
  (corsMiddleware env origin method = Forbidden ↔ ∃ o, origin = Some o ∧ o ≠ "" ∧ o ∉ buildAllowlist env) ∧
  (∀ h o, corsMiddleware env origin method = Pass h ∨ corsMiddleware env origin method = No_content h →
    ("Access-Control-Allow-Origin", o) ∈ h → origin = Some o ∧ o ∈ buildAllowlist env) ∧
  (∀ h, corsMiddleware env origin "OPTIONS" = Pass h → h = []).
Proof.
  unfold corsMiddleware. destruct origin as [o|]; cbn.
  2: { split_and!; [by split; [|intros (? & ? & _)]|intros h o [[= <-]|[=]] Hin; by apply elem_of_nil in Hin|by intros h [= <-]]. }
  destruct (bool_decide_reflect (o ≠ "")) as [Ho|Ho]; unfold truthy; cbn.
  2: { rewrite bool_decide_false by done. cbn. split_and!; [|intros h o' [[= <-]|[=]] Hin; by apply elem_of_nil in Hin|by intros h [= <-]].
       split; [done|]. intros (o' & [= <-] & Hn & _). done. }
  rewrite bool_decide_true by done. cbn. case_bool_decide as Hin; cbn.
  - split_and!.
    + split; [by case_bool_decide|]. intros (o' & [= <-] & _ & Hn). done.
    + intros h o' Hh Ha. assert (h = cors_headers o) as -> by (case_bool_decide; destruct Hh as [[= <-]|[= <-]]; done).
      assert (o' = o) as ->; [|done]. unfold cors_headers in Ha. repeat (apply elem_of_cons in Ha as [[=]|Ha]; try done). by apply elem_of_nil in Ha.
    + done.
  - split_and!; [|by intros h o' [[=]|[=]]|done]. split; [|done]. intros _. by exists o.
Qed.
