(* ===== verification/AdminActions.v ===== *)
(** * Administrative contract calls

    [backend/src/routes/adminContract.ts] behind [authMiddleware] and
    [requireRole] of [Auth], and [middleware/audit.ts]: the two actions, the
    audit record of each and the transaction it sends.  Requests overlap: a step
    is one event of one request, up to its next await.  Loading the configuration,
    the account and the simulation of the transaction are one outcome; the number
    texts and the 64-bit integers of the SDK are parameters. *)
From Stdlib Require Import QArith.
From stdpp Require Import list gmap strings.
From S2P Require Import Prelude Bytes Digits Validation Auth.
#[local] Open Scope Z_scope.

Inductive route := Set_min_deposit_route | Pause_stream_route.
Inductive call := Set_min_deposit (lo : Z) | Pause_stream (recipient : string).
(** What is logged: action, subject and parameters. *)
Record audit_record := AuditRecord {
  ar_timestamp : Z;
  ar_action : string;
  ar_subject : string;
  ar_params : list (string * json) }.

Section actions.
Context {K : Type} `{Jwt K}.
Context (number_text : Q → string).
(** [Uint64.fromString]: [None] when it throws. *)
Context (uint64 : string → option Z).

(** [String(v)] *)
Fixpoint json_text (v : json) : string :=
  match v with
  | JUndefined => "undefined"
  | JNull => "null"
  | JBool b => if b then "true" else "false"
  | JNumber q => number_text q
  | JString s => s
  | JArray l => String.concat "," ((λ x, match x with JUndefined | JNull => "" | _ => json_text x end) <$> l)
  | JObject _ => "[object Object]"
  end.
Definition json_truthy (v : json) : bool :=
  match v with
  | JUndefined | JNull => false
  | JBool b => b
  | JNumber q => negb (Qnum q =? 0)
  | JString s => truthy s
  | JArray _ | JObject _ => true
  end.
(** [req.body?.[k]] of a body that is an object or missing. *)
Definition body_field (k : string) (body : option (list (string * json))) : json :=
  match body with Some kvs => field k kvs | None => JUndefined end.
(** [/^\d+$/] *)
Definition all_digits (s : string) : bool := truthy s && forallb is_digit (chars s).

(** ** One request *)

Inductive phase :=
  | Auditing (r : audit_record) (rt : route) (arg : string)  (** the insert of the record *)
  | Preparing (rt : route) (arg : string)
  | Sending (c : call)
  | Answered (status : Z).
Inductive effect := Logged (id : nat) (r : audit_record) | Inserted (id : nat) (r : audit_record) | Called (id : nat) (c : call).

(** The checks: a refusal, or the argument with the logged parameters. *)
Definition checked (rt : route) (body : option (list (string * json))) : Z + (string * list (string * json)) :=
  match rt with
  | Set_min_deposit_route =>
      match body_field "min_deposit" body with
      | JUndefined | JNull => inl 400
      | v => let minDepositStr := trim (json_text v) in
             if all_digits minDepositStr then inr (minDepositStr, [("min_deposit", JString minDepositStr)]) else inl 400
      end
  | Pause_stream_route =>
      let v := body_field "recipient" body in
      if negb (json_truthy v) then inl 400
      else if stellar_address_re (json_text v) then inr (json_text v, [("recipient", v)]) else inl 400
  end.
Definition action_name (rt : route) : string :=
  match rt with Set_min_deposit_route => "set_min_deposit" | Pause_stream_route => "pause_stream" end.
(** The two middlewares in front of a route. *)
Definition admitted (fresh : K) (header : option string) (w : world K) : Z + user :=
  match authMiddleware fresh header w with
  | Next u => match requireRole "admin" (Some u) with Next u => inr u | Reject s _ => inl s | Throws => inl 500 end
  | Reject s _ => inl s
  | Throws => inl 500
  end.
(** Up to the first await: [auditLog] prints before it queries. *)
Definition start (fresh : K) (rt : route) (header : option string) (body : option (list (string * json))) (w : world K) : phase * option audit_record :=
  match admitted fresh header w with
  | inl status => (Answered status, None)
  | inr u =>
      match checked rt body with
      | inl status => (Answered status, None)
      | inr (arg, params) =>
          let r := AuditRecord (now w) (action_name rt) (address u) params in (Auditing r rt arg, Some r)
      end
  end.
(** The transaction of a route; the high half of the i128 is zero. *)
Definition call_of (rt : route) (arg : string) : option call :=
  match rt with
  | Set_min_deposit_route => Set_min_deposit <$> uint64 arg
  | Pause_stream_route => Some (Pause_stream arg)
  end.
Inductive sent_outcome := Send_threw | Send_error | Send_ok (hash : string).

(** ** Overlapping requests *)

Record system := System {
  auth : world K;
  threads : gmap nat phase;
  trace : list effect (** latest first *) }.
Inductive event :=
  | Request (id : nat) (fresh : K) (rt : route) (header : option string) (body : option (list (string * json)))
  | Insert_settled (id : nat) (ok : bool)
  | Prepared (id : nat) (ok : bool)
  | Sent (id : nat) (o : sent_outcome)
  | Auth_changes (w : world K).
Definition set_phase (id : nat) (p : phase) (s : system) : system := System (auth s) (<[id := p]> (threads s)) (trace s).
Definition emit (e : effect) (s : system) : system := System (auth s) (threads s) (e :: trace s).
(** A failed insert is only printed. *)
Definition step (e : event) (s : system) : system :=
  match e with
  | Request id fresh rt header body =>
      match threads s !! id with
      | Some _ => s
      | None =>
          let '(p, r) := start fresh rt header body (auth s) in
          set_phase id p (match r with Some r => emit (Logged id r) s | None => s end)
      end
  | Insert_settled id ok =>
      match threads s !! id with
      | Some (Auditing r rt arg) => set_phase id (Preparing rt arg) (if ok then emit (Inserted id r) s else s)
      | _ => s
      end
  | Prepared id ok =>
      match threads s !! id with
      | Some (Preparing rt arg) =>
          match (if ok then call_of rt arg else None) with
          | Some c => set_phase id (Sending c) (emit (Called id c) s)
          | None => set_phase id (Answered 500) s
          end
      | _ => s
      end
  | Sent id o =>
      match threads s !! id with
      | Some (Sending c) => set_phase id (Answered (match o with Send_threw => 500 | Send_error => 502 | Send_ok _ => 200 end)) s
      | _ => s
      end
  | Auth_changes w => System w (threads s) (trace s)
  end.
Definition run (es : list event) (s : system) : system := foldl (λ s e, step e s) s es.
Definition fresh_system (w : world K) : system := System w ∅ [].

(** ** Every call is audited *)

Section history.
Context (w0 : world K).
(** In the history [es], request [id] asked for route [rt] with the argument
    [arg], under a token that [authMiddleware] accepted in the state of the
    server at that moment, of the administrator and the time the record names. *)
Definition authenticated (es : list event) (id : nat) (r : audit_record) (rt : route) (arg : string) : Prop :=
  ∃ es1 es2 fresh header body u, es = es1 ++ Request id fresh rt header body :: es2 ∧
    let w := auth (run es1 (fresh_system w0)) in
    authMiddleware fresh header w = Next u ∧ role u = "admin" ∧ ar_subject r = address u ∧ ar_timestamp r = now w ∧
    arg = match rt with
          | Set_min_deposit_route => trim (json_text (body_field "min_deposit" body))
          | Pause_stream_route => json_text (body_field "recipient" body)
          end.
Definition describes (r : audit_record) (rt : route) (arg : string) : Prop :=
  ar_action r = action_name rt ∧
  match rt with
  | Set_min_deposit_route => ar_params r = [("min_deposit", JString arg)] ∧ all_digits arg = true
  | Pause_stream_route => ∃ v, ar_params r = [("recipient", v)] ∧ json_text v = arg ∧ stellar_address_re arg = true
  end.
Definition audited (es : list event) (id : nat) (r : audit_record) (rt : route) (arg : string) (tr : list effect) : Prop :=
  Logged id r ∈ tr ∧ authenticated es id r rt arg ∧ describes r rt arg.
Definition uncalled (id : nat) (tr : list effect) : Prop := ∀ c, Called id c ∉ tr.
Definition phase_ok (es : list event) (id : nat) (p : option phase) (tr : list effect) : Prop :=
  match p with
  | Some (Auditing r rt arg) => audited es id r rt arg tr ∧ uncalled id tr
  | Some (Preparing rt arg) => (∃ r, audited es id r rt arg tr) ∧ uncalled id tr
  | Some _ => True
  | None => uncalled id tr
  end.
Record sound (es : list event) (s : system) : Prop := Sound {
  sound_threads : ∀ id, phase_ok es id (threads s !! id) (trace s);
  sound_calls : ∀ tr1 id c tr2, trace s = tr1 ++ Called id c :: tr2 →
    uncalled id tr2 ∧ ∃ r rt arg, audited es id r rt arg tr2 ∧ call_of rt arg = Some c }.

Lemma authenticated_snoc es e id r rt arg : authenticated es id r rt arg → authenticated (es ++ [e]) id r rt arg.
Proof.
  intros (es1 & es2 & fresh & header & body & u & -> & Hu). exists es1, (es2 ++ [e]), fresh, header, body, u.
  split; [by rewrite <-app_assoc|done].
Qed.
Lemma audited_snoc es e id r rt arg tr : audited es id r rt arg tr → audited (es ++ [e]) id r rt arg tr.
Proof. intros (? & ? & ?). split_and!; [done|by apply authenticated_snoc|done]. Qed.
Lemma sound_snoc es e s : sound es s → sound (es ++ [e]) s.
Proof.
  intros [H1 H2]. split.
  - intros id. specialize (H1 id). destruct (threads s !! id) as [[r rt arg|rt arg| |]|]; cbn in *; try done.
    + destruct H1. split; [by apply audited_snoc|done].
    + destruct H1 as [[r Hr] ?]. split; [exists r; by apply audited_snoc|done].
  - intros tr1 id c tr2 Htr. destruct (H2 _ _ _ _ Htr) as (Hu & r & rt & arg & Ha & Hc).
    split; [done|]. exists r, rt, arg. split; [by apply audited_snoc|done].
Qed.
Lemma audited_cons es e id r rt arg tr : audited es id r rt arg tr → audited es id r rt arg (e :: tr).
Proof. intros (? & ? & ?). split_and!; [by right|done..]. Qed.
Lemma uncalled_cons e id tr : (∀ c, e ≠ Called id c) → uncalled id tr → uncalled id (e :: tr).
Proof. intros He Hu c [Hc|Hc]%elem_of_cons; [by apply (He c)|by apply (Hu c)]. Qed.
Lemma phase_ok_cons es e id p tr : (∀ c, e ≠ Called id c) → phase_ok es id p tr → phase_ok es id p (e :: tr).
Proof.
  intros He. destruct p as [[r rt arg|rt arg| |]|]; cbn; [..|by apply uncalled_cons].
  - intros [? ?]. split; [by apply audited_cons|by apply uncalled_cons].
  - intros [[r ?] ?]. split; [exists r; by apply audited_cons|by apply uncalled_cons].
  - done.
  - done.
Qed.
(** A new phase for one request, with at most one effect that is no call. *)
Lemma sound_phase es s id p : sound es s → phase_ok es id (Some p) (trace s) → sound es (set_phase id p s).
Proof.
  intros [H1 H2] Hp. split; [|done]. intros id'. cbn. destruct (decide (id' = id)) as [->|Hne].
  - by rewrite lookup_insert_eq.
  - rewrite lookup_insert_ne by done. apply H1.
Qed.
Lemma sound_emit es s e : (∀ id c, e ≠ Called id c) → sound es s → sound es (emit e s).
Proof.
  intros He [H1 H2]. split; cbn.
  - intros id. apply phase_ok_cons; [apply He|apply H1].
  - intros [|e' tr1] id c tr2 Heq; [by injection Heq as Heq _; destruct (He _ _ Heq)|]. injection Heq as _ Heq. by eapply H2.
Qed.
Lemma admitted_inv fresh header w u : admitted fresh header w = inr u → authMiddleware fresh header w = Next u ∧ role u = "admin".
Proof.
  unfold admitted, requireRole. destruct (authMiddleware fresh header w) as [u'| |]; [|done..]. case_decide as Hr; [|done]. by intros [= <-].
Qed.
Lemma checked_describes rt body arg params t sub : checked rt body = inr (arg, params) →
  describes (AuditRecord t (action_name rt) sub params) rt arg ∧
  arg = match rt with
        | Set_min_deposit_route => trim (json_text (body_field "min_deposit" body))
        | Pause_stream_route => json_text (body_field "recipient" body)
        end.
Proof.
  unfold checked, describes. destruct rt; cbn [ar_action ar_params action_name].
  - intros Hc. set (v := body_field "min_deposit" body) in *.
    assert ((if all_digits (trim (json_text v)) then inr (trim (json_text v), [("min_deposit", JString (trim (json_text v)))]) else inl 400) = (inr (arg, params) : Z + _)) as Hv.
    { by destruct v. }
    destruct (all_digits (trim (json_text v))) eqn:Hd; [|done]. by injection Hv as <- <-.
  - destruct (negb _); [done|]. destruct (stellar_address_re _) eqn:Hre; [|done]. intros [= <- <-]. split; [|done]. split; [done|]. by eexists.
Qed.
Lemma start_audits es id fresh rt header body p r :
  start fresh rt header body (auth (run es (fresh_system w0))) = (p, r) →
  match r with
  | Some r => ∃ arg, p = Auditing r rt arg ∧ authenticated (es ++ [Request id fresh rt header body]) id r rt arg ∧ describes r rt arg
  | None => ∃ status, p = Answered status
  end.
Proof.
  unfold start. set (w := auth _). destruct (admitted fresh header w) as [st|u] eqn:Ha; [intros [= <- <-]; by eexists|].
  destruct (checked rt body) as [st|[arg params]] eqn:Hc; [intros [= <- <-]; by eexists|]. intros [= <- <-].
  apply admitted_inv in Ha as [Ha Hr]. apply (checked_describes _ _ _ _ (now w) (address u)) in Hc as [Hd Harg].
  exists arg. split; [done|]. split; [|done]. exists es, [], fresh, header, body, u. split_and!; done.
Qed.
Lemma action_step_sound es e : let s := run es (fresh_system w0) in sound es s → sound (es ++ [e]) (step e s).
Proof.
  intros s Hs0. pose proof (sound_snoc es e s Hs0) as Hs. destruct e as [id fresh rt header body|id ok|id ok|id o|w]; cbn [step].
  - destruct (threads s !! id) eqn:Hid; [done|]. destruct (start fresh rt header body (auth s)) as [p r] eqn:Hst. apply (start_audits es id) in Hst.
    pose proof (sound_threads _ s Hs id) as Hu. rewrite Hid in Hu. destruct r as [r|].
    + destruct Hst as (arg & -> & Ha & Hd). apply sound_phase; [by apply sound_emit|]. split; [split_and!; [by left|done..]|]. by apply uncalled_cons.
    + destruct Hst as (st & ->). by apply sound_phase.
  - pose proof (sound_threads _ s Hs id) as Hu. destruct (threads s !! id) as [[r rt arg|rt arg| |]|] eqn:Hid; try done. destruct Hu as [Ha Hu].
    destruct ok; (apply sound_phase; [by try apply sound_emit|]); (split; [exists r; by try apply audited_cons|by try apply uncalled_cons]).
  - pose proof (sound_threads _ s Hs id) as Hu. destruct (threads s !! id) as [[r rt arg|rt arg| |]|] eqn:Hid; try done. destruct Hu as [[r Ha] Hu].
    destruct (if ok then call_of rt arg else None) as [c|] eqn:Hc; [|by apply sound_phase]. destruct ok; [|done]. destruct Hs as [H1 H2]. split.
    + intros id'. cbn. destruct (decide (id' = id)) as [->|Hne]; [by rewrite lookup_insert_eq|]. rewrite lookup_insert_ne by done.
      apply phase_ok_cons; [by intros c' [=]|apply H1].
    + cbn. intros [|e tr1] id' c' tr2; cbn [app].
      * intros [= <- <- <-]. split; [done|]. by exists r, rt, arg.
      * intros [= _ Heq]. by eapply H2.
  - destruct (threads s !! id) as [[r rt arg|rt arg| |]|]; try done. by apply sound_phase.
  - destruct Hs as [H1 H2]. by split.
Qed.
Lemma action_run_sound es : sound es (run es (fresh_system w0)).
Proof.
  induction es as [|e es IH] using rev_ind.
  - split; cbn.
    + intros id. rewrite lookup_empty. intros c Hc. by apply elem_of_nil in Hc.
    + by intros [|? ?] ? ? ?.
  - unfold run. rewrite foldl_app. by apply action_step_sound.
Qed.

(** C21. However the requests overlap and the insert, the simulation and the
    network end: each call of the contract is sent once, by a request that before
    had logged it, with its action, its argument, its time and its caller.  The
    request is one of the history, and when it arrived the server, in the state
    it then had, accepted its token as that of this caller with the role of an
    administrator. *)
Theorem calls_audited es tr1 id c tr2 : trace (run es (fresh_system w0)) = tr1 ++ Called id c :: tr2 →
  uncalled id tr1 ∧ uncalled id tr2 ∧
  ∃ r rt arg, Logged id r ∈ tr2 ∧ authenticated es id r rt arg ∧ describes r rt arg ∧ call_of rt arg = Some c.
Proof.
  intros Htr. pose proof (action_run_sound es) as [_ H2]. destruct (H2 _ _ _ _ Htr) as (Hu & r & rt & arg & (Hl & Ha & Hd) & Hc).
  split_and!; [|done|by exists r, rt, arg]. intros c' Hc'. apply list_elem_of_split in Hc' as (a & b & ->).
  rewrite <-app_assoc in Htr. cbn in Htr. destruct (H2 _ _ _ _ Htr) as (Hu' & _). apply (Hu' c). apply elem_of_app. right. by left.
Qed.
End history.
(** A minimum deposit of 2^64 or more passes the check but cannot be sent: the
    high half of the 128-bit amount is always zero. *)
Theorem large_deposit_fails arg :
  (∀ s v, all_digits s = true → uint64 s = Some v → v = digits_value 0 (chars s) ∧ v < 2 ^ 64) →
  all_digits arg = true → 2 ^ 64 <= digits_value 0 (chars arg) → call_of Set_min_deposit_route arg = None.
Proof.
  intros Hlaw Hd Hbig. cbn. destruct (uint64 arg) as [v|] eqn:Hv; [exfalso|done]. destruct (Hlaw _ _ Hd Hv) as [-> Hlt]. lia.
Qed.
End actions.

Definition demo_uint64 (s : string) : option Z :=
  if all_digits s then (let v := digits_value 0 (chars s) in if v <? 2 ^ 64 then Some v else None) else None.
Lemma large_deposit_fails_witness : checked (λ _, "") Set_min_deposit_route (Some [("min_deposit", JString "18446744073709551616")]) =
    inr ("18446744073709551616", [("min_deposit", JString "18446744073709551616")]) ∧
  call_of demo_uint64 Set_min_deposit_route "18446744073709551616" = None.
Proof.
  split; [vm_compute; reflexivity|]. apply (large_deposit_fails demo_uint64); [|vm_compute; reflexivity|vm_compute; discriminate].
  intros s v Hs. unfold demo_uint64. rewrite Hs. cbv zeta. destruct (Z.ltb_spec (digits_value 0 (chars s)) (2 ^ 64)); [|discriminate].
  intros Hv. injection Hv as <-. split; [reflexivity|assumption].
Defined.
#[local] Existing Instance toy_jwt.
Definition demo_header : option string := Some ("Bearer " +:+ signAccessToken toy_config 7 "GADMIN" "admin" toy_world).
Definition demo_events : list (event (K := Z)) :=
  [Request 0 7 Set_min_deposit_route demo_header (Some [("min_deposit", JString " 500 ")]);
   Request 1 7 Pause_stream_route (Some ("Bearer " +:+ toy_access)) (Some [("recipient", JString toy_address)]);
   Insert_settled 0 false; Prepared 0 true; Sent 0 (Send_ok "aa")].
Lemma calls_audited_witness : threads (run (λ _, "") demo_uint64 demo_events (fresh_system toy_world)) !! 1%nat = Some (Answered 403) ∧
  ∃ r rt arg, Logged 0 r ∈ [Logged 0 (AuditRecord 1000 "set_min_deposit" "GADMIN" [("min_deposit", JString "500")])] ∧
    authenticated (λ _, "") demo_uint64 toy_world demo_events 0 r rt arg ∧ describes (λ _, "") r rt arg ∧ call_of demo_uint64 rt arg = Some (Set_min_deposit 500).
Proof.
  split; [vm_compute; reflexivity|].
  destruct (calls_audited (λ _, "") demo_uint64 toy_world demo_events [] 0 (Set_min_deposit 500)
    [Logged 0 (AuditRecord 1000 "set_min_deposit" "GADMIN" [("min_deposit", JString "500")])]) as (_ & _ & H); [vm_compute; reflexivity|exact H].
Defined.
