(* ===== verification/CreateForm.v ===== *)
(** * The multi-step stream form

    [frontend/src/components/CreateStreamForm.tsx]: the reducer, the checks of
    each step, the deposit that is shown, and the component as a state machine.  A
    step of the model is one event of the page: an input, a choice of token, a
    button, the end of the signature.  The signature is a timer in the source; its
    outcome is an input here, since [onSuccess] may throw. *)
From Stdlib Require Import QArith Qround Lqa.
From stdpp Require Import list.
From S2P Require Import Prelude Bytes Digits Double.
#[local] Open Scope Z_scope.

(** ** [parseFloat] *)

Definition exponent_prefix (l : list ascii) : Z :=
  match l with
  | c :: l' =>
      if decide (lower_char c = "e"%char) then
        match l' with
        | "-"%char :: ds => - digits_value 0 (take_while is_digit ds)
        | "+"%char :: ds => digits_value 0 (take_while is_digit ds)
        | ds => digits_value 0 (take_while is_digit ds)
        end
      else 0
  | [] => 0
  end.
Definition unsigned_prefix (l : list ascii) : double :=
  if decide (take 8 l = chars "Infinity") then DInf false
  else
    let whole := take_while is_digit l in
    let rest := drop_while is_digit l in
    let '(frac, rest) := match rest with "."%char :: r => (take_while is_digit r, drop_while is_digit r) | _ => ([], rest) end in
    match whole ++ frac with
    | [] => DNaN
    | ds => let k := exponent_prefix rest - Z.of_nat (length frac) in
            round64 (digits_value 0 ds * 10 ^ Z.max k 0 # Z.to_pos (10 ^ Z.max (- k) 0))
    end.
Definition parseFloat (s : string) : double :=
  match text_of (drop_while fst (units (chars s))) with
  | "-"%char :: l => negate (unsigned_prefix l)
  | "+"%char :: l => unsigned_prefix l
  | l => unsigned_prefix l
  end.
Example parseFloat_1 : parseFloat " 12.5e1 days" = DFin 125.
Proof. vm_compute. reflexivity. Qed.
Example parseFloat_2 : parseFloat "." = DNaN ∧ parseFloat "-.5e" = DFin (-1 # 2).
Proof. vm_compute. split; reflexivity. Qed.

(** ** Data *)

Inductive StreamStep := recipient_step | token_step | schedule_step | review_step | sign_step.
#[global] Instance StreamStep_eq_dec : EqDecision StreamStep.
Proof. solve_decision. Defined.
Definition stepOrder : list StreamStep := [recipient_step; token_step; schedule_step; review_step; sign_step].
Definition stepIndex (s : StreamStep) : nat :=
  match s with recipient_step => 0 | token_step => 1 | schedule_step => 2 | review_step => 3 | sign_step => 4 end.
Record FormState := State {
  recipientAddress : string;
  tokenAddress : string;
  tokenSymbol : string;
  tokenName : string;
  rateLedger : string;
  cliffDays : string;
  totalDays : string;
  streamId : option string;
  txHash : option string }.
Definition INITIAL_STATE : FormState := State "" "" "" "" "" "" "" None None.
(** The fields with an input of their own. *)
Inductive text_field := F_recipient | F_token | F_rate | F_cliff | F_total.
Inductive FormAction :=
  | SET_FIELD (f : text_field) (value : string)
  | SET_TOKEN (symbol address name : string)
  | SET_RESULT (id hash : string)
  | RESET.
Definition formReducer (s : FormState) (a : FormAction) : FormState :=
  let 'State r ta ts tn ra c t i h := s in
  match a with
  | SET_FIELD F_recipient v => State v ta ts tn ra c t i h
  | SET_FIELD F_token v => State r v ts tn ra c t i h
  | SET_FIELD F_rate v => State r ta ts tn v c t i h
  | SET_FIELD F_cliff v => State r ta ts tn ra v t i h
  | SET_FIELD F_total v => State r ta ts tn ra c v i h
  | SET_TOKEN symbol address name => State r address symbol name ra c t i h
  | SET_RESULT id hash => State r ta ts tn ra c t (Some id) (Some hash)
  | RESET => INITIAL_STATE
  end.
Definition SUPPORTED_TOKENS : list (string * string * string) :=
  [("XLM", "native", "Stellar Lumens");
   ("USDC", "GA5ZSEJYB37JRC5AVCIA5MOP4RHTM335X2KGX3IHOJAPP5RE34K4KZVN", "USD Coin");
   ("AQUA", "GBNZILSTVQZ4R7IKQDGHYGY2QXL5QOFJYQMXPKWRRM5PAV7Y4M67AQUA", "Aquarius")].

(** ** Durations and the deposit *)

Definition SECONDS_PER_LEDGER : double := DFin 5.
Definition daysToLedgers (days : double) : double :=
  math_round (div64 (mul64 (mul64 (mul64 days (DFin 24)) (DFin 60)) (DFin 60)) SECONDS_PER_LEDGER).
Definition le0 (x : double) : bool := match x with DNaN => false | _ => negb (lt64 (DFin 0) x) end.
Inductive deposit := Throws | Null | Deposit (z : Z).
(** [BigInt] of an infinite number throws. *)
Definition computeTotalDeposit (rateLedger totalDays : string) : deposit :=
  let rate := parseFloat rateLedger in
  let days := parseFloat totalDays in
  if is_nan rate || is_nan days || le0 rate || le0 days then Null
  else match math_round (mul64 rate (daysToLedgers days)) with
       | DFin q => Deposit (Qfloor q)
       | _ => Throws
       end.

(** ** Checks *)

Definition includes_star (s : string) : bool := existsb (λ c, bool_decide (c = "*"%char)) (chars s).
Definition le_float (x y : double) : bool := negb (is_nan x) && negb (is_nan y) && negb (lt64 y x).
Definition FormErrors : Type := list (text_field * string).
Definition validateStep (st : StreamStep) (s : FormState) : FormErrors :=
  match st with
  | recipient_step =>
      if negb (truthy (recipientAddress s)) then [(F_recipient, "Recipient address is required.")]
      else if negb (includes_star (recipientAddress s)) && negb (stellar_address_re (recipientAddress s))
           then [(F_recipient, "Invalid Stellar address. Must start with G and be 56 characters.")] else []
  | token_step => if negb (truthy (tokenAddress s)) then [(F_token, "Please select or enter a token.")] else []
  | schedule_step =>
      let rate := parseFloat (rateLedger s) in
      let cliff := parseFloat (cliffDays s) in
      let total := parseFloat (totalDays s) in
      (if negb (truthy (rateLedger s)) || is_nan rate || le0 rate then [(F_rate, "Rate must be a positive number.")] else []) ++
      (if negb (truthy (cliffDays s)) || is_nan cliff || lt64 cliff (DFin 0) then [(F_cliff, "Cliff duration must be 0 or more days.")] else []) ++
      (if negb (truthy (totalDays s)) || is_nan total || le0 total then [(F_total, "Total duration must be a positive number.")]
       else if negb (is_nan cliff) && le_float total cliff then [(F_total, "Total duration must be greater than cliff duration.")] else [])
  | review_step | sign_step => []
  end.

(** ** The component *)

Record form := Form {
  step_shown : StreamStep;
  data : FormState;
  errors : FormErrors;
  custom : bool (** the token step shows the input of an address *);
  signing : bool;
  signError : option string;
  signed_data : list FormState (** ghost: the data at each signature, latest first *) }.
Definition mount : form := Form recipient_step INITIAL_STATE [] false false None [].
Definition dispatch (a : FormAction) (w : form) : form :=
  Form (step_shown w) (formReducer (data w) a) (errors w) (custom w) (signing w) (signError w) (signed_data w).
Definition setErrors (e : FormErrors) (w : form) : form :=
  Form (step_shown w) (data w) e (custom w) (signing w) (signError w) (signed_data w).
(** A new step mounts its own component. *)
Definition setStep (st : StreamStep) (w : form) : form :=
  Form st (data w) (errors w) (if decide (st = step_shown w) then custom w else false) (signing w) (signError w) (signed_data w).
Definition setCustom (b : bool) (w : form) : form :=
  Form (step_shown w) (data w) (errors w) b (signing w) (signError w) (signed_data w).
Definition setSign (b : bool) (e : option string) (l : list FormState) (w : form) : form :=
  Form (step_shown w) (data w) (errors w) (custom w) b e l.
Definition handleNext (w : form) : form :=
  match validateStep (step_shown w) (data w) with
  | [] => let w := setErrors [] w in
          match stepOrder !! S (stepIndex (step_shown w)) with Some next => setStep next w | None => w end
  | errs => setErrors errs w
  end.
Definition handleBack (w : form) : form :=
  let w := setErrors [] w in
  match stepIndex (step_shown w) with
  | O => w
  | S i => match stepOrder !! i with Some prev => setStep prev w | None => w end
  end.
Definition handleSign (w : form) : form := setSign true None (data w :: signed_data w) w.
Definition handleReset (w : form) : form := setSign (signing w) None (signed_data w) (setErrors [] (setStep recipient_step (dispatch RESET w))).
(** The end of [handleSign]; [thrown]: the message of an exception of
    [onSuccess]. *)
Definition finish_sign (id hash : string) (thrown : option string) (w : form) : form :=
  let w := dispatch (SET_RESULT id hash) w in setSign false thrown (signed_data w) w.

Definition input_step (f : text_field) : StreamStep :=
  match f with F_recipient => recipient_step | F_token => token_step | F_rate | F_cliff | F_total => schedule_step end.
Inductive event :=
  | Type_in (f : text_field) (value : string)
  | Choose_token (i : nat)
  | Choose_custom
  | Next
  | Back
  | Sign
  | Signed (id hash : string) (thrown : option string)
  | Create_another.
Definition has_result (w : form) : bool := bool_decide (is_Some (streamId (data w))).
(** The controls on the page: those of the step, and the buttons. *)
Definition step (e : event) (w : form) : form :=
  match e with
  | Type_in f v =>
      if bool_decide (step_shown w = input_step f) && (match f with F_token => custom w | _ => true end) then dispatch (SET_FIELD f v) w else w
  | Choose_token i =>
      if bool_decide (step_shown w = token_step) then
        match SUPPORTED_TOKENS !! i with
        | Some (symbol, address, name) => setCustom false (dispatch (SET_TOKEN symbol address name) w)
        | None => w
        end
      else w
  | Choose_custom => if bool_decide (step_shown w = token_step) then dispatch (SET_TOKEN "" "" "Custom") (setCustom true w) else w
  | Next => if negb (has_result w) && negb (bool_decide (step_shown w = sign_step)) then handleNext w else w
  | Back => if negb (bool_decide (step_shown w = recipient_step)) && negb (has_result w) then handleBack w else w
  | Sign => if negb (has_result w) && bool_decide (step_shown w = sign_step) && negb (signing w) then handleSign w else w
  | Signed id hash thrown => if signing w then finish_sign id hash thrown w else w
  | Create_another => if has_result w then handleReset w else w
  end.
Definition run (es : list event) (w : form) : form := foldl (λ w e, step e w) w es.

(** ** What is signed *)

(** The steps before the one shown are valid. *)
Definition passed (st : StreamStep) (s : FormState) : Prop := ∀ st', (stepIndex st' < stepIndex st)%nat → validateStep st' s = [].
Definition complete (s : FormState) : Prop := passed sign_step s.
Record form_sound (w : form) : Prop := Form_sound {
  sound_passed : passed (step_shown w) (data w);
  sound_signed : Forall complete (signed_data w) }.

Lemma stepOrder_index i st : stepOrder !! i = Some st → stepIndex st = i.
Proof. do 5 (destruct i as [|i]; [by intros [= <-]|]). done. Qed.
Lemma stepIndex_inj a b : stepIndex a = stepIndex b → a = b.
Proof. by destruct a, b. Qed.
(** Typing changes what the step shown and the later ones check. *)
Lemma validate_field st f v s : (stepIndex st < stepIndex (input_step f))%nat → validateStep st (formReducer s (SET_FIELD f v)) = validateStep st s.
Proof. destruct s, f, st; cbn [stepIndex input_step]; intros H; try lia; reflexivity. Qed.
Lemma validate_token st a b c s : (stepIndex st < stepIndex token_step)%nat → validateStep st (formReducer s (SET_TOKEN a b c)) = validateStep st s.
Proof. destruct s, st; cbn [stepIndex]; intros H; try lia; reflexivity. Qed.
Lemma validate_result st a b s : validateStep st (formReducer s (SET_RESULT a b)) = validateStep st s.
Proof. by destruct s, st. Qed.
Lemma passed_le st st' s : (stepIndex st' <= stepIndex st)%nat → passed st s → passed st' s.
Proof. intros Hle Hp x Hx. apply Hp. lia. Qed.
Lemma next_passed st st' s : stepOrder !! S (stepIndex st) = Some st' → validateStep st s = [] → passed st s → passed st' s.
Proof.
  intros Hn Hv Hp x Hx. apply stepOrder_index in Hn. rewrite Hn in Hx. destruct (decide (stepIndex x = stepIndex st)) as [Heq|].
  - by rewrite (stepIndex_inj _ _ Heq).
  - apply Hp. lia.
Qed.
Lemma create_step_sound e w : form_sound w → form_sound (step e w).
Proof.
  intros [H1 H2]. destruct e as [f v|i| | | | |id hash thrown|]; cbn [step].
  - case_bool_decide as Hs; [|by split]. cbn. destruct (match f with F_token => custom w | _ => true end); [|by split].
    split; [|done]. intros st Hst. cbn in *. rewrite validate_field by (by rewrite <-Hs). by apply H1.
  - case_bool_decide as Hs; [|by split]. destruct (SUPPORTED_TOKENS !! i) as [[[a b] c]|]; [|by split].
    split; [|done]. intros st Hst. cbn in *. rewrite validate_token by (by rewrite <-Hs). by apply H1.
  - case_bool_decide as Hs; [|by split]. split; [|done]. intros st Hst. cbn in *. rewrite validate_token by (by rewrite <-Hs). by apply H1.
  - destruct (negb (has_result w) && _); [|by split]. unfold handleNext. destruct (validateStep (step_shown w) (data w)) eqn:Hv; [|by split].
    cbn [setErrors step_shown]. destruct (stepOrder !! _) eqn:Hn; [|by split]. split; [|done]. by eapply next_passed.
  - destruct (negb _ && negb (has_result w)); [|by split]. unfold handleBack. cbn [setErrors step_shown].
    destruct (stepIndex (step_shown w)) as [|i] eqn:Hi; [by split|]. destruct (stepOrder !! i) eqn:Hn; [|by split].
    split; [|done]. cbn. eapply passed_le; [|done]. apply stepOrder_index in Hn. lia.
  - destruct (negb (has_result w)); [|by split]. case_bool_decide as Hs; [|by split]. destruct (signing w); [by split|].
    cbn. split; [done|]. constructor; [|done]. unfold complete. by rewrite <-Hs.
  - destruct (signing w); [|by split]. split; [|done]. intros st Hst. cbn in *. rewrite validate_result. by apply H1.
  - destruct (has_result w); [|by split]. split; [|done]. cbn. intros st Hst. cbn in Hst. lia.
Qed.
Lemma form_signed_sound es : ∀ w, form_sound w → form_sound (run es w).
Proof. induction es as [|e es IH]; intros w Hw; [done|]. by apply IH, create_step_sound. Qed.

Lemma schedule_valid s : validateStep schedule_step s = [] →
  is_nan (parseFloat (rateLedger s)) = false ∧ le0 (parseFloat (rateLedger s)) = false ∧
  is_nan (parseFloat (cliffDays s)) = false ∧ lt64 (parseFloat (cliffDays s)) (DFin 0) = false ∧
  lt64 (parseFloat (cliffDays s)) (parseFloat (totalDays s)) = true ∧
  computeTotalDeposit (rateLedger s) (totalDays s) ≠ Null.
Proof.
  cbn [validateStep]. set (rate := parseFloat (rateLedger s)). set (cliff := parseFloat (cliffDays s)). set (total := parseFloat (totalDays s)).
  intros (H1 & (H2 & H3)%app_nil)%app_nil.
  destruct (negb (truthy (rateLedger s))); [done|]. destruct (is_nan rate) eqn:Hr; [done|]. destruct (le0 rate) eqn:Hr0; [done|].
  destruct (negb (truthy (cliffDays s))); [done|]. destruct (is_nan cliff) eqn:Hc; [done|]. destruct (lt64 cliff (DFin 0)) eqn:Hc0; [done|].
  destruct (negb (truthy (totalDays s))); [done|]. destruct (is_nan total) eqn:Ht; [done|]. destruct (le0 total) eqn:Ht0; [done|].
  unfold le_float in H3. rewrite Hc, Ht in H3. cbn in H3. destruct (lt64 cliff total); [|done]. split_and!; [done..|].
  unfold computeTotalDeposit. fold rate total. rewrite Hr, Ht, Hr0, Ht0. cbn. by destruct (math_round _).
Qed.

(** Whatever is typed, chosen and pressed, also while a signature is under
    way: what is signed has a recipient that is a Stellar address (or a federated
    name), a token, a positive rate, a cliff that is not negative and ends before
    the stream, and a deposit to show; going back and changing an earlier step
    leads through the later checks again. *)
Theorem form_signs_checked_data es s : s ∈ signed_data (run es mount) →
  (includes_star (recipientAddress s) = true ∨ stellar_address_re (recipientAddress s) = true) ∧ tokenAddress s ≠ "" ∧
  le0 (parseFloat (rateLedger s)) = false ∧ lt64 (parseFloat (cliffDays s)) (DFin 0) = false ∧
  lt64 (parseFloat (cliffDays s)) (parseFloat (totalDays s)) = true ∧ computeTotalDeposit (rateLedger s) (totalDays s) ≠ Null.
Proof.
  intros Hs. assert (Hw : form_sound (run es mount)) by (apply form_signed_sound; split; [intros st Hst; cbn in Hst; lia|constructor]).
  destruct Hw as [_ Hw]. rewrite Forall_forall in Hw. specialize (Hw s Hs). unfold complete, passed in Hw.
  pose proof (Hw recipient_step ltac:(cbn; lia)) as H1. pose proof (Hw token_step ltac:(cbn; lia)) as H2.
  destruct (schedule_valid s (Hw schedule_step ltac:(cbn; lia))) as (_ & H3 & _ & H4 & H5 & H6). split_and!; [|..|done|done|done|done].
  - cbn in H1. destruct (truthy (recipientAddress s)); [|done]. destruct (includes_star _); [by left|]. right. by destruct (stellar_address_re _).
  - cbn in H2. destruct (truthy (tokenAddress s)) eqn:Ht; [|done]. by apply bool_decide_eq_true in Ht.
Qed.
Definition demo_address : string := "GAAAAAAAAAAAAAAAAAAAAAAAAAAAAAAAAAAAAAAAAAAAAAAAAAAAAAAA".
Definition demo_fill (rate cliff total : string) : list event :=
  [Type_in F_recipient demo_address; Next; Choose_token 1; Next; Type_in F_rate rate; Type_in F_cliff cliff; Type_in F_total total; Next; Next].
Lemma form_signs_checked_data_witness :
  let s := State demo_address "GA5ZSEJYB37JRC5AVCIA5MOP4RHTM335X2KGX3IHOJAPP5RE34K4KZVN" "USDC" "USD Coin" "0.5" "30" "365" None None in
  computeTotalDeposit "0.5" "365" = Deposit 3153600 ∧ lt64 (parseFloat (cliffDays s)) (parseFloat (totalDays s)) = true.
Proof.
  split; [vm_compute; reflexivity|]. eapply (form_signs_checked_data (demo_fill "0.5" "30" "365" ++ [Sign])). vm_compute. left.
Defined.

(** ** What it lets through *)

(** Going back while the wallet signs and changing the data: the page then shows
    the result with data that was not signed. *)
Theorem result_for_other_data : let w := run (demo_fill "10" "30" "365" ++ [Sign; Back; Back; Type_in F_rate "99"; Signed "s1" "h1" None]) mount in
  streamId (data w) = Some "s1" ∧ rateLedger (data w) = "99" ∧ (rateLedger <$> signed_data w) = ["10"].
Proof. vm_compute. split_and!; reflexivity. Qed.
(** The deposit of figures that pass the checks may be too large for a double:
    rendering it throws. *)
Theorem deposit_throws : let w := run (demo_fill "1e308" "30" "365") mount in
  step_shown w = sign_step ∧ computeTotalDeposit (rateLedger (data w)) (totalDays (data w)) = Throws.
Proof. vm_compute. split; reflexivity. Qed.
(** A federated name is signed as it is, a token may be any text, and the deposit
    may round to zero. *)
Theorem unresolved_name_signed :
  (λ s, (recipientAddress s, tokenAddress s, computeTotalDeposit (rateLedger s) (totalDays s))) <$>
    signed_data (run ([Type_in F_recipient "*"; Next; Choose_custom; Type_in F_token "x"; Next; Type_in F_rate "0.01"; Type_in F_cliff "0";
      Type_in F_total "0.0001"; Next; Next; Sign]) mount) = [("*", "x", Deposit 0)].
Proof. vm_compute. reflexivity. Qed.
(** An exception of [onSuccess] shows no error: the result is shown. *)
Theorem thrown_success : let w := run (demo_fill "10" "30" "365" ++ [Sign; Signed "s1" "h1" (Some "oops")]) mount in
  has_result w = true ∧ signError w = Some "oops".
Proof. vm_compute. split; reflexivity. Qed.
