(* ===== verification/VestingRoutes.v ===== *)
(** * Routes that ask the contract

    [backend/src/routes/vesting.ts] (schedule, claimable amount, streams of a
    sponsor), [claimableBatch.ts] and [buildClaimTx.ts].  Simulations are inputs:
    an exception, an error, or values already printed with [toString]; Horizon is
    a parameter.  In [buildClaimTx] requests overlap and share a Redis cache,
    times are milliseconds; fees are below 10^21, where numbers print their
    digits. *)
From stdpp Require Import list gmap strings.
From S2P Require Import Prelude Bytes Digits ErrorMessages.
#[local] Open Scope Z_scope.

(** ** Schedule and claimable amount *)

(** A simulation: it throws, or it has a result or not. *)
Inductive simulated (A : Type) := Sim_throws | Sim_none | Sim_value (a : A).
Arguments Sim_throws {A}.
Arguments Sim_none {A}.
Arguments Sim_value {A} a.
(** The entries of the map of [get_schedule]: texts and numbers by name. *)
Inductive field_value := Text (s : string) | Number_value (z : Z).
Definition value_text (v : field_value) : string := match v with Text s => s | Number_value z => Z_to_string z end.
(** [Number(v)]: [NaN] for a text that is no number. *)
Definition value_number (v : field_value) : number := match v with Text s => Z_of_string s | Number_value z => Some z end.
Definition map_field (name : string) (entries : list (string * field_value)) : option field_value :=
  (λ x : nat * (string * field_value), x.2.2) <$> list_find (λ e : string * field_value, e.1 = name) entries.
Record schedule := Schedule {
  sc_sponsor : string;
  sc_token : string;
  sc_rate : string;
  sc_cliff : number;
  sc_end : number;
  sc_start : number }.
Definition parseScheduleMap (entries : list (string * field_value)) : schedule :=
  let text (name d : string) := default d (value_text <$> map_field name entries) in
  let num (name : string) := match map_field name entries with Some v => value_number v | None => Some 0 end in
  Schedule (text "sponsor" "") (text "token" "") (text "rate_per_ledger" "0") (num "cliff_ledger") (num "end_ledger") (num "start_ledger").
Inductive vesting_reply :=
  | V_error (status : Z)
  | V_schedule (recipient : string) (s : schedule) (claimable : string) (is_cliff_passed : bool)
  | V_claimable (recipient amount : string).
(** [None]: the ledger query throws.  A void result counts as none. *)
Definition scheduleHandler (recipient : string) (scheduleSim : simulated (list (string * field_value))) (claimSim : simulated string)
    (latest : option Z) : vesting_reply :=
  match scheduleSim, claimSim, latest with
  | Sim_throws, _, _ | _, Sim_throws, _ | _, _, None => V_error 500
  | Sim_none, _, _ => V_error 404
  | Sim_value entries, c, Some sequence =>
      let s := parseScheduleMap entries in
      V_schedule recipient s (match c with Sim_value a => a | _ => "0" end) (match sc_cliff s with Some c => c <=? sequence | None => false end)
  end.
Definition claimableHandler (recipient : string) (sim : simulated string) : vesting_reply :=
  match sim with
  | Sim_throws => V_error 500
  | Sim_none => V_claimable recipient "0"
  | Sim_value a => V_claimable recipient a
  end.

(** ** The streams of a sponsor *)

Record record := Record_ { r_topic : list string; r_xdr : option string; r_ledger : Z; r_id : string; r_paging_token : option string }.
Record sponsor_item := Sponsor_item { si_recipient : string; si_sponsor : string; si_token : string; si_ledger : Z; si_event_id : string }.
Definition includes (needle s : string) : bool := contains (chars needle) (chars s).
Definition is_creation (sponsor : string) (r : record) : bool :=
  match r_topic r with
  | t0 :: rest => includes "stream_created" t0 && match rest with t1 :: _ => bool_decide (t1 = sponsor) | [] => false end
  | [] => false
  end.
Definition item_of (sponsor : string) (r : record) : sponsor_item :=
  Sponsor_item (default "" (r_topic r !! 2%nat)) sponsor (default "" (r_xdr r)) (r_ledger r) (r_id r).
Record sponsor_page := Sponsor_page { sp_items : list sponsor_item; sp_next : option string }.
(** The page of Horizon, as far as its answer is one. *)
Definition sponsorHandler (sponsor : string) (records : list record) : sponsor_page :=
  Sponsor_page (item_of sponsor <$> filter (λ r, is_creation sponsor r = true) records) (last records ≫= r_paging_token).

Section horizon.
(** [GET /contracts/:id/events?order=desc]. *)
Context (fetch : option string → nat → list record).
Fixpoint sponsor_walk (fuel : nat) (sponsor : string) (limit : nat) (cursor : option string) : option (list sponsor_item) :=
  match fuel with
  | O => None
  | S fuel =>
      let p := sponsorHandler sponsor (fetch (if decide (cursor = Some "") then None else cursor) limit) in
      match sp_next p with
      | None => Some (sp_items p)
      | Some c => app (sp_items p) <$> sponsor_walk fuel sponsor limit (Some c)
      end
  end.
End horizon.

(** ** Claimable amounts of many *)

Definition MAX_CLAIMABLE_BATCH_SIZE : nat := 20.
(** The schema of the query, up to its messages. *)
Definition ClaimableBatchQuerySchema (raw : option string) : option (list string) :=
  match raw with
  | None => None
  | Some raw =>
      let l := comma_list raw in
      if truthy raw && forallb stellar_address_re l && (1 <=? length l)%nat && (length l <=? MAX_CLAIMABLE_BATCH_SIZE)%nat then Some l else None
  end.
Inductive batch_reply := B_invalid | B_unavailable | B_results (l : list (string * string)).
(** [contract]: the call with its pairs, an amount [None] where [BigInt] throws;
    [None]: it fails. *)
Definition claimableBatchHandler (contract : list string → option (list (string * option Z))) (raw : option string) : batch_reply :=
  match ClaimableBatchQuerySchema raw with
  | None => B_invalid
  | Some recipients =>
      match contract recipients with
      | None => B_unavailable
      | Some entries =>
          match mapM (λ e : string * option Z, a ← e.2; Some (e.1, Z_to_string a)) entries with
          | Some l => B_results l
          | None => B_unavailable
          end
      end
  end.

(** ** Building a claim transaction *)

Record claim_body := Claim_body {
  transaction_xdr : string;
  retval : string;
  cpu_insns : string;
  mem_bytes : string;
  min_resource_fee : number }.
(** What the network says to one request: the claimable amount (an error, or the
    text of the value if there is one), whether the ledger query succeeds, the
    simulation of the claim, and the assembled transaction. *)
Record claim_sim := Claim_sim { cs_retval : option string; cs_cpu : option string; cs_mem : option string; cs_fee : option Z }.
Record network := Network {
  n_claimable : string + option string;
  n_ledger : bool;
  n_claim : string + claim_sim;
  n_assembled : option string }.
Inductive claim_reply :=
  | C_hit (payload : string)
  | C_miss (body : claim_body)
  | C_error (status : Z).

Section build.
(** [raw_xdr]: the transaction as built, with the account of the recipient and the
    fee; [stringify]: the JSON text of a body. *)
Context (raw_xdr : string → Z → string) (stringify : claim_body → string) (CLAIM_TX_CACHE_TTL_MS : Z).

Definition cacheKey (recipient : string) (fee : Z) : string := "claim-tx:" +:+ recipient +:+ ":" +:+ Z_to_string fee.
(** After the cache missed; [None]: the network throws. *)
Definition build (recipient : string) (fee : Z) (net : option network) : claim_reply :=
  match net with
  | None => C_error 500
  | Some net =>
      match n_claimable net with
      | inl _ => C_error 400
      | inr amount =>
          let claimableAmount := default "0" amount in
          if bool_decide (claimableAmount = "0") then C_error 400
          else match Z_of_string claimableAmount with
               | None => C_error 500
               | Some a =>
                   if a <=? 0 then C_error 400
                   else if negb (n_ledger net) then C_error 500
                   else match n_claim net with
                        | inl _ => C_error 500
                        | inr sim =>
                            C_miss (Claim_body (default (raw_xdr recipient fee) (n_assembled net)) (default claimableAmount (cs_retval sim))
                              (default "0" (cs_cpu sim)) (default "0" (cs_mem sim)) (Some (default 0 (cs_fee sim))))
                        end
               end
      end
  end.

Record answered := Answer { an_recipient : string; an_fee : Z; an_time : Z; an_reply : claim_reply }.
Record built := Built { bt_recipient : string; bt_fee : Z; bt_time : Z; bt_body : claim_body; bt_net : network }.
Record server := Server {
  now : Z;
  cache : option (gmap string (string * Z)) (** [None] without Redis *);
  pending : gmap nat (string * Z);
  answers : list answered (** latest first *);
  history : list built (** latest first *) }.
Inductive event :=
  | Arrive (id : nat) (recipient : string) (fee : Z) (get_works : bool)
  | Finish (id : nat) (net : option network) (set_works : bool)
  | Pass (ms : Z).
Definition cache_get (w : server) (get_works : bool) (k : string) : option string :=
  m ← cache w; if get_works then e ← m !! k; (if decide (now w < e.2 ∧ e.1 ≠ "") then Some e.1 else None) else None.
(** The schema lets through addresses and whole fees from 100 on. *)
Definition step (e : event) (w : server) : server :=
  match e with
  | Arrive id recipient fee get_works =>
      if negb (stellar_address_re recipient) || (fee <? 100) || bool_decide (is_Some (pending w !! id)) then w
      else match cache_get w get_works (cacheKey recipient fee) with
           | Some p => Server (now w) (cache w) (pending w) (Answer recipient fee (now w) (C_hit p) :: answers w) (history w)
           | None => Server (now w) (cache w) (<[id := (recipient, fee)]> (pending w)) (answers w) (history w)
           end
  | Finish id net set_works =>
      match pending w !! id with
      | None => w
      | Some (recipient, fee) =>
          let r := build recipient fee net in
          let a := Answer recipient fee (now w) r :: answers w in
          match r, net with
          | C_miss b, Some net =>
              Server (now w)
                (if set_works then <[cacheKey recipient fee := (stringify b, now w + CLAIM_TX_CACHE_TTL_MS)]> <$> cache w else cache w)
                (delete id (pending w)) a (Built recipient fee (now w) b net :: history w)
          | _, _ => Server (now w) (cache w) (delete id (pending w)) a (history w)
          end
      end
  | Pass ms => Server (now w + Z.max 0 ms) (cache w) (pending w) (answers w) (history w)
  end.
Definition run (es : list event) (w : server) : server := foldl (λ w e, step e w) w es.
Definition started (t : Z) (redis : bool) : server := Server t (if redis then Some ∅ else None) ∅ [] [].
End build.

(** ** A built transaction is fresh and for the caller *)

Lemma cacheKey_inj r f r' f' : stellar_address_re r = true → stellar_address_re r' = true →
  cacheKey r f = cacheKey r' f' → r = r' ∧ f = f'.
Proof.
  assert (Hlen : ∀ s, stellar_address_re s = true → length (chars s) = 56%nat).
  { intros s. unfold stellar_address_re, strkey_re. destruct (chars s) as [|c l]; [done|]. intros [[_ Hl]%andb_true_iff _]%andb_true_iff.
    apply bool_decide_eq_true in Hl. cbn. by rewrite Hl. }
  intros Hr%Hlen Hr'%Hlen Hk%string_app_inj_l. apply (f_equal chars) in Hk. rewrite !string_app_chars in Hk.
  apply app_inj_1 in Hk as [H1 H2]; [|by rewrite Hr, Hr']. split.
  - apply (f_equal of_chars) in H1. by rewrite !of_chars_chars in H1.
  - apply (inj (app (chars ":"))), (f_equal of_chars) in H2. rewrite !of_chars_chars in H2. by apply Z_to_string_inj in H2.
Qed.

Section build_facts.
Context (raw_xdr : string → Z → string) (stringify : claim_body → string) (ttl : Z).
Notation step := (step raw_xdr stringify ttl).
Notation run := (run raw_xdr stringify ttl).

(** A body that was built: for whom, when, and that there was something to
    claim. *)
Definition built_ok (b : built) : Prop :=
  stellar_address_re (bt_recipient b) = true ∧ build raw_xdr (bt_recipient b) (bt_fee b) (Some (bt_net b)) = C_miss (bt_body b) ∧
  ∃ a amount, n_claimable (bt_net b) = inr (Some a) ∧ Z_of_string a = Some amount ∧ 0 < amount.
Definition answer_ok (h : list built) (a : answered) : Prop :=
  match an_reply a with
  | C_hit p => ∃ b, b ∈ h ∧ bt_recipient b = an_recipient a ∧ bt_fee b = an_fee a ∧ p = stringify (bt_body b) ∧
      bt_time b <= an_time a < bt_time b + ttl ∧ built_ok b
  | C_miss body => ∃ b, b ∈ h ∧ bt_recipient b = an_recipient a ∧ bt_fee b = an_fee a ∧ body = bt_body b ∧ bt_time b = an_time a ∧ built_ok b
  | C_error _ => True
  end.
Record server_ok (w : server) : Prop := Server_ok {
  ok_cache : ∀ m k v e, cache w = Some m → m !! k = Some (v, e) → ∃ b, b ∈ history w ∧ k = cacheKey (bt_recipient b) (bt_fee b) ∧
    v = stringify (bt_body b) ∧ e = bt_time b + ttl ∧ bt_time b <= now w;
  ok_pending : ∀ id r f, pending w !! id = Some (r, f) → stellar_address_re r = true;
  ok_history : Forall built_ok (history w);
  ok_answers : Forall (answer_ok (history w)) (answers w) }.

Lemma answer_ok_more h b a : answer_ok h a → answer_ok (b :: h) a.
Proof.
  unfold answer_ok. destruct (an_reply a); [| |done]; intros (x & Hx & H); exists x; (split; [by right|done]).
Qed.
Lemma build_miss r f net b : build raw_xdr r f net = C_miss b → ∃ n, net = Some n ∧
  ∃ a amount, n_claimable n = inr (Some a) ∧ Z_of_string a = Some amount ∧ 0 < amount.
Proof.
  unfold build. destruct net as [n|]; [|done]. intros H. exists n. split; [done|]. destruct (n_claimable n) as [|o]; [done|].
  case_bool_decide as Ha; [done|]. destruct o as [a|]; [|done]. exists a. cbn in *. destruct (Z_of_string a) as [z|]; [|done]. exists z.
  destruct (Z.leb_spec z 0); [done|]. done.
Qed.
Lemma step_server_ok e w : server_ok w → server_ok (step e w).
Proof.
  intros [H1 H2 H3 H4]. destruct e as [id r f gw|id net sw|ms]; cbn [VestingRoutes.step].
  - destruct (stellar_address_re r) eqn:Hr; [|by split]. cbn [negb orb]. destruct ((f <? 100) || _); [by split|].
    destruct (cache_get w gw (cacheKey r f)) as [p|] eqn:Hc; split; cbn [cache now pending history answers]; try done.
    + constructor; [|done]. unfold answer_ok. cbn [an_reply an_recipient an_fee an_time]. unfold cache_get in Hc.
      destruct (cache w) as [m|] eqn:Hm; [|done]. cbn in Hc. destruct gw; [|done]. destruct (m !! cacheKey r f) as [[v e]|] eqn:Hk; [|done].
      cbn in Hc. case_decide as Hd; [|done]. injection Hc as <-. destruct Hd as [Hlt _].
      destruct (H1 m _ _ _ eq_refl Hk) as (b & Hb & Hkey & -> & -> & Ht). pose proof (proj1 (Forall_forall _ _) H3 b Hb) as Hok.
      apply cacheKey_inj in Hkey as [-> ->]; [|done|apply Hok]. exists b. split_and!; [done..|by cbn in Hlt|done].
    + intros id' r' f'. destruct (decide (id' = id)) as [->|]; [rewrite lookup_insert_eq|rewrite lookup_insert_ne by done; apply H2]. by intros [= <- <-].
  - destruct (pending w !! id) as [[r f]|] eqn:Hid; [|by split].
    assert (Hp : ∀ id' r' f', delete id (pending w) !! id' = Some (r', f') → stellar_address_re r' = true).
    { intros id' r' f' [_ Hl]%lookup_delete_Some. by eapply H2. }
    destruct (build raw_xdr r f net) as [p|b|st] eqn:Hb.
    + exfalso. unfold build in Hb. destruct net as [n|]; [|done]. destruct (n_claimable n); [done|]. case_bool_decide; [done|].
      destruct (Z_of_string _); [|done]. destruct (_ <=? 0); [done|]. destruct (negb _); [done|]. by destruct (n_claim n).
    + destruct (build_miss _ _ _ _ Hb) as (n & -> & a & amount & Hn). set (bt := Built r f (now w) b n).
      assert (Hbt : built_ok bt) by (split_and!; [by eapply H2|done|by exists a, amount]).
      split; cbn [cache now pending history answers].
      * assert (Hold : ∀ m k v e, cache w = Some m → m !! k = Some (v, e) → ∃ b0, b0 ∈ bt :: history w ∧ k = cacheKey (bt_recipient b0) (bt_fee b0) ∧
          v = stringify (bt_body b0) ∧ e = bt_time b0 + ttl ∧ bt_time b0 <= now w).
        { intros m k v e Hm Hk. destruct (H1 m k v e Hm Hk) as (b0 & Hin & ?). exists b0. split; [by right|done]. }
        destruct sw; [|done]. intros m k v e Hm Hk. destruct (cache w) as [m0|]; [|done]. injection Hm as <-.
        destruct (decide (k = cacheKey r f)) as [->|]; [rewrite lookup_insert_eq in Hk|rewrite lookup_insert_ne in Hk by done; by eapply Hold].
        injection Hk as <- <-. exists bt. split_and!; [by left|done..|cbn; lia].
      * done.
      * by constructor.
      * constructor; [|eapply Forall_impl; [done|]; intros; by apply answer_ok_more]. exists bt. by split_and!; [left|..].
    + assert (Hg : server_ok (Server (now w) (cache w) (delete id (pending w)) (Answer r f (now w) (C_error st) :: answers w) (history w))).
      { split; cbn; [done..|by constructor]. }
      by destruct net.
  - split; cbn; [|done..]. intros m k v e Hm Hk. destruct (H1 m k v e Hm Hk) as (b & ? & ? & ? & ? & ?). exists b. split_and!; [done..|lia].
Qed.
Lemma run_server_ok es : ∀ w, server_ok w → server_ok (run es w).
Proof. induction es as [|e es IH]; intros w Hw; [done|]. by apply IH, step_server_ok. Qed.

(** C20. A transaction that is answered, from the cache or newly built, was built
    for the recipient and the fee of the request, less than the time to live ago,
    when the network reported something to claim. *)
Theorem claim_tx_fresh es t redis a : a ∈ answers (run es (started t redis)) →
  answer_ok (history (run es (started t redis))) a.
Proof.
  intros Ha. assert (Hw : server_ok (run es (started t redis))).
  { apply run_server_ok. split; cbn; [|by intros ? ? ? Hl; rewrite lookup_empty in Hl|constructor|constructor].
    intros m k v e Hm Hk. destruct redis; [|done]. injection Hm as <-. by rewrite lookup_empty in Hk. }
  destruct Hw as [_ _ _ Hw]. rewrite Forall_forall in Hw. by apply Hw.
Qed.
End build_facts.

Definition demo_net : network := Network (inr (Some "500")) true (inr (Claim_sim (Some "500") None None (Some 77))) (Some "xdr").
Definition demo_rc : string := "GAAAAAAAAAAAAAAAAAAAAAAAAAAAAAAAAAAAAAAAAAAAAAAAAAAAAAAA".
Definition demo_events : list event := [Arrive 0 demo_rc 100 true; Finish 0 (Some demo_net) true; Pass 9999; Arrive 1 demo_rc 100 true].
Lemma claim_tx_fresh_witness :
  answer_ok (λ _ _, "raw") (λ b, transaction_xdr b) 10000 (history (run (λ _ _, "raw") (λ b, transaction_xdr b) 10000 demo_events (started 0 true)))
    (Answer demo_rc 100 9999 (C_hit "xdr")).
Proof. apply (claim_tx_fresh (λ _ _, "raw") (λ b, transaction_xdr b) 10000 demo_events 0 true). vm_compute. left. Defined.

(** ** The walk over the streams of a sponsor *)

(** Following the cursors reads every creation event of the sponsor once, in
    the order of Horizon, though the pages are filtered after they are cut: an
    empty page is not the end. *)
Theorem sponsor_walk_complete fetch all sponsor limit fuel :
  (0 < limit)%nat → (length all < fuel)%nat →
  (∀ n, fetch None n = take n all) →
  (∀ i r c n, all !! i = Some r → r_paging_token r = Some c → fetch (Some c) n = take n (drop (S i) all)) →
  (∀ r, r ∈ all → ∃ c, r_paging_token r = Some c ∧ c ≠ "") →
  sponsor_walk fetch fuel sponsor limit None = Some (item_of sponsor <$> filter (λ r, is_creation sponsor r = true) all).
Proof.
  intros Hl Hfuel Hnone Hcur Htok.
  assert (G : ∀ fuel i cursor, (length (drop i all) < fuel)%nat → cursor ≠ Some "" → (∀ n, fetch cursor n = take n (drop i all)) →
    sponsor_walk fetch fuel sponsor limit cursor = Some (item_of sponsor <$> filter (λ r, is_creation sponsor r = true) (drop i all))).
  { clear fuel Hfuel. induction fuel as [|fuel IH]; intros i cursor Hf Hne Hfetch; [lia|]. cbn [sponsor_walk]. rewrite decide_False by done.
    rewrite Hfetch. set (l := drop i all) in *. cbn [sponsorHandler sp_next sp_items]. destruct (last (take limit l)) as [r|] eqn:Hlast.
    - assert (Hr : ∃ k, take limit l !! k = Some r ∧ S k = length (take limit l)).
      { rewrite last_lookup in Hlast. exists (pred (length (take limit l))). split; [done|]. destruct (take limit l); [done|]. simpl. lia. }
      destruct Hr as (k & Hk & HSk). assert (Hklim : (k < limit)%nat) by (pose proof (length_take_le l limit); rewrite length_take in HSk; lia).
      rewrite lookup_take_lt in Hk by done. unfold l in Hk. rewrite lookup_drop in Hk.
      destruct (Htok r (list_elem_of_lookup_2 _ _ _ Hk)) as (c & Hc & Hcne). cbn [mbind option_bind]. rewrite Hc.
      rewrite (IH (S (i + k)) (Some c)).
      + cbn [fmap option_fmap option_map]. f_equal. rewrite <-fmap_app, <-filter_app. do 2 f_equal.
        replace (drop (S (i + k)) all) with (drop (S k) l) by (unfold l; rewrite drop_drop; f_equal; lia).
        replace (take limit l) with (take (S k) l); [by rewrite take_drop|]. rewrite HSk, length_take.
        destruct (Nat.le_ge_cases limit (length l)); [by rewrite Nat.min_l|]. rewrite Nat.min_r by done. by rewrite !take_ge by done.
      + unfold l in Hf. rewrite length_drop in Hf |- *. pose proof (lookup_lt_Some _ _ _ Hk). lia.
      + congruence.
      + intros n. by apply (Hcur (i + k)%nat r).
    - apply last_None in Hlast. assert (Hnil : l = []) by (destruct l; [done|]; destruct limit; [lia|done]). by rewrite Hnil, take_nil. }
  specialize (G fuel 0%nat None). rewrite drop_0 in G. by apply G.
Qed.
Definition demo_record (i : Z) (topic0 sponsor : string) : record := Record_ [topic0; sponsor; "GR"] (Some "x") i (Z_to_string i) (Some (Z_to_string i)).
Definition demo_records : list record := [demo_record 1 "stream_created" "GS"; demo_record 2 "claim" "GS"; demo_record 3 "stream_created" "GS"].
Definition demo_fetch (c : option string) (n : nat) : list record :=
  match c with
  | None => take n demo_records
  | Some c => match Z_of_string c with Some z => take n (drop (Z.to_nat z) demo_records) | None => [] end
  end.
Lemma sponsor_walk_complete_witness : sponsor_walk demo_fetch 4 "GS" 1 None =
  Some (item_of "GS" <$> filter (λ r, is_creation "GS" r = true) demo_records) ∧
  length (filter (λ r, is_creation "GS" r = true) demo_records) = 2%nat.
Proof.
  split; [|vm_compute; reflexivity]. apply sponsor_walk_complete; [lia|cbn; lia|reflexivity| |].
  - intros [|[|[|i]]] r c n; [intros [= <-] [= <-]; reflexivity..|discriminate].
  - intros r Hr. repeat (apply elem_of_cons in Hr as [->|Hr]; [eexists; split; [reflexivity|discriminate]|]). by apply elem_of_nil in Hr.
Defined.
(** The contract names its event StreamCreated: it is not taken for one. *)
Theorem contract_event_missed sponsor rest x l i t : is_creation sponsor (Record_ ("StreamCreated" :: sponsor :: rest) x l i t) = false.
Proof. reflexivity. Qed.

(** ** Batches *)

(** A batch is answered for one to twenty valid addresses, and the answer has
    the pairs of the contract in their order. *)
Theorem batch_spec contract raw l : claimableBatchHandler contract raw = B_results l →
  ∃ recipients entries, ClaimableBatchQuerySchema raw = Some recipients ∧ (1 <= length recipients <= 20)%nat ∧
    Forall (λ r, stellar_address_re r = true) recipients ∧ contract recipients = Some entries ∧
    Forall2 (λ e p, p.1 = e.1 ∧ e.2 = Z_of_string p.2) entries l.
Proof.
  unfold claimableBatchHandler. destruct (ClaimableBatchQuerySchema raw) as [rs|] eqn:Hs; [|done].
  destruct (contract rs) as [entries|] eqn:Hc; [|done]. destruct (mapM _ entries) as [l'|] eqn:Hm; [|done]. intros [= <-].
  exists rs, entries. split; [done|]. unfold ClaimableBatchQuerySchema in Hs. destruct raw as [raw|]; [|done].
  destruct (truthy raw); [|done]. destruct (forallb stellar_address_re (comma_list raw)) eqn:Hf; [|done].
  destruct (Nat.leb_spec 1 (length (comma_list raw))); [|done]. destruct (Nat.leb_spec (length (comma_list raw)) MAX_CLAIMABLE_BATCH_SIZE); [|done].
  injection Hs as <-. split_and!; [done|done| |done|].
  - rewrite Forall_forall. intros r Hr%list_elem_of_In. by apply (proj1 (forallb_forall _ _) Hf).
  - apply mapM_Some in Hm. eapply Forall2_impl; [done|]. intros [r [a|]] [r' s] Hes; [|done]. injection Hes as <- <-. split; [done|]. cbn. by rewrite Z_of_to_string.
Qed.
Lemma batch_spec_witness : let contract rs := Some ((λ r, (r, Some 5)) <$> rs) in
  ∃ l, claimableBatchHandler contract (Some (demo_rc +:+ " ,")) = B_results l ∧ length l = 1%nat.
Proof.
  eexists. split; [vm_compute; reflexivity|].
  destruct (batch_spec (λ rs, Some ((λ r, (r, Some 5)) <$> rs)) (Some (demo_rc +:+ " ,")) [(demo_rc, "5")]) as (rs & es & H1 & H2 & H3 & H4 & H5);
    [vm_compute; reflexivity|]. reflexivity.
Defined.
(** A simulation that failed has no result: the amount shown is 0, the schedule
    is reported as missing. *)
Theorem failed_simulation_shown recipient entries latest :
  claimableHandler recipient Sim_none = V_claimable recipient "0" ∧ scheduleHandler recipient Sim_none (Sim_value "5") (Some latest) = V_error 404 ∧
  ∃ p, scheduleHandler recipient (Sim_value entries) Sim_none (Some latest) = V_schedule recipient (parseScheduleMap entries) "0" p.
Proof. split_and!; [done..|by eexists]. Qed.
