(* ===== verification/AuthV1.v ===== *)
(** * Authentication v1

    The handlers of [backend/src/routes/authV1.ts] around the signature check of
    [StrKey]: challenge, verification, refresh and the middleware.  Requests
    overlap: a step is one event of one request, up to its next await; the three
    Redis commands of the rate limit are one step that may stop after any of them.
    [jsonwebtoken] is the class [JwtV1]; [Number], the import of a key and the
    check with it are parameters.  The fields of a request body are strings. *)
From stdpp Require Import list gmap strings.
From S2P Require Import Prelude Bytes StrKey.
From S2P Require Auth.
#[local] Open Scope Z_scope.

(** ** Tokens *)

(** Tokens with issuer and audience of the service, times in seconds.  A token
    checks with the key that signed it until its expiry. *)
Class JwtV1 (Priv Pub : Type) := {
  public_of : Priv → Pub;
  sign_rs : Priv → string → Z → Z → string;
  sign_hs : string → string → Z → Z → string;
  verify_rs : Pub → Z → string → option string;
  verify_hs : string → Z → string → option string;
  verify_rs_own : ∀ k s iat exp t, verify_rs (public_of k) t (sign_rs k s iat exp) = if exp <=? t then None else Some s;
  verify_hs_own : ∀ k s iat exp t, verify_hs k t (sign_hs k s iat exp) = if exp <=? t then None else Some s;
  sign_rs_text : ∀ k s iat exp, trim (sign_rs k s iat exp) = sign_rs k s iat exp;
  sign_hs_text : ∀ k s iat exp, trim (sign_hs k s iat exp) = sign_hs k s iat exp }.

(** Counts by address, with their end. *)
#[local] Notation counters := (gmap string (Z * option Z)).

Section auth_v1.
Context {Priv Pub : Type} `{JwtV1 Priv Pub}.
Context (Number : string → number).
Context {Key : Type} (createPublicKey : buffer → option Key) (crypto_verify : Key → buffer → buffer → bool).

(** The environment: keys as far as they are set and readable, and the seconds
    of [JWT_EXPIRY]. *)
Record env := Env {
  JWT_PRIVATE_KEY : option Priv;
  JWT_PUBLIC_KEY : option Pub;
  JWT_SECRET : option string;
  JWT_EXPIRY : Z }.
Inductive sign_key := SignPem (k : Priv) | SignSecret (s : string).
Inductive verify_key := VerifyPem (k : Pub) | VerifySecret (s : string).
Inductive algorithm := RS256 | HS256.
Definition getSignKey (e : env) : option sign_key :=
  match JWT_PRIVATE_KEY e with Some k => Some (SignPem k) | None => SignSecret <$> JWT_SECRET e end.
Definition getVerifyKey (e : env) : option verify_key :=
  match JWT_PUBLIC_KEY e with Some k => Some (VerifyPem k) | None => VerifySecret <$> JWT_SECRET e end.
Definition getAlgorithm (e : env) : algorithm := match JWT_PRIVATE_KEY e with Some _ => RS256 | None => HS256 end.
(** [None]: an exception. *)
Definition sign (e : env) (address : string) (now : Z) : option string :=
  let iat := now / 1000 in
  match getSignKey e, getAlgorithm e with
  | Some (SignPem k), RS256 => Some (sign_rs k address iat (iat + JWT_EXPIRY e))
  | Some (SignSecret s), HS256 => Some (sign_hs s address iat (iat + JWT_EXPIRY e))
  | _, _ => None
  end.
Definition verify (e : env) (token : string) (now : Z) : option string :=
  match getVerifyKey e, getAlgorithm e with
  | Some (VerifyPem k), RS256 => verify_rs k (now / 1000) token
  | Some (VerifySecret s), HS256 => verify_hs s (now / 1000) token
  | _, _ => None
  end.

(** ** The rate limit *)

Definition AUTH_RATE_WINDOW_SEC : Z := 60.
Definition AUTH_RATE_MAX : Z := 10.
(** Redis answers, fails at once, after [INCR], or before [TTL]. *)
Inductive redis_limit := L_ok | L_down | L_incr_only | L_no_ttl.
Definition counted (now : Z) (c : Z * option Z) : bool := match c.2 with Some expiry => now <? expiry | None => true end.
Definition checkAuthRateLimit (o : redis_limit) (now : Z) (ip : string) (cs : counters) : (bool * Z) * counters :=
  match o with
  | L_down => ((true, 0), cs)
  | _ =>
      let old := match cs !! ip with Some c => if counted now c then Some c else None | None => None end in
      let count := default 0 (fst <$> old) + 1 in
      let expiry := default None (snd <$> old) in
      match o with
      | L_incr_only => ((true, 0), <[ip := (count, expiry)]> cs)
      | _ =>
          let expiry := if count =? 1 then Some (now + AUTH_RATE_WINDOW_SEC * 1000) else expiry in
          let cs := <[ip := (count, expiry)]> cs in
          match o with
          | L_no_ttl => ((true, 0), cs)
          | _ => let ttl := match expiry with Some t => (t - now) / 1000 | None => -1 end in
                 ((count <=? AUTH_RATE_MAX, if 0 <? ttl then ttl else AUTH_RATE_WINDOW_SEC), cs)
          end
      end
  end.
Definition extractIp (xff remoteAddress : option string) : string :=
  match xff with
  | Some s => trim (default "" (head (split_on "," s)))
  | None => default "unknown" remoteAddress
  end.

(** ** Handlers *)

Definition NONCE_TTL_SECONDS : Z := 300.
Record verify_request := VerifyRequest { v_address : string; v_nonce : string; v_timestamp : string; v_signature : string }.
Definition message_to_sign (address nonce timestamp : string) : string := address +:+ ":" +:+ nonce +:+ ":" +:+ timestamp.
Definition buildMessage (address nonce timestamp : string) : buffer := string_bytes (message_to_sign address nonce timestamp).
Definition signed (rq : verify_request) : Prop :=
  verifyEd25519Signature createPublicKey crypto_verify (v_address rq) (buildMessage (v_address rq) (v_nonce rq) (v_timestamp rq))
    (to_base64 (from_base64 (v_signature rq))) = true.
#[global] Instance signed_dec rq : Decision (signed rq).
Proof. unfold signed. apply _. Defined.
Inductive reply :=
  | R_error (status : Z)
  | R_challenge (nonce : string) (created_at : Z) (message : string)
  | R_token (token wallet_address : string).
Inductive phase :=
  | C_limit (ip address : string)
  | C_set (address : string)
  | C_done (r : reply)
  | V_limit (ip : string) (rq : verify_request)
  | V_get (rq : verify_request)
  | V_del (rq : verify_request) (stored : string)
  | V_done (rq : verify_request) (r : reply).
Record world := World {
  now : Z;
  nonces : gmap string (string * Z) (** the address of a challenge, and its end *);
  limits : counters;
  threads : gmap nat phase;
  issued : gmap string string (** every nonce issued, with its address *) }.
Definition challenge_checked (raw : string) : phase :=
  let address := trim raw in
  if negb (truthy address) then C_done (R_error 400) else if negb (stellar_address_re address) then C_done (R_error 400) else C_set address.
(** The checks before the nonce is read; [ts] is not [NaN]. *)
Definition in_window (t ts : Z) : bool := (t - ts <=? NONCE_TTL_SECONDS * 1000) && (-30000 <=? t - ts).
Definition verify_checked (t : Z) (rq : verify_request) : phase :=
  if negb (truthy (v_address rq) && truthy (v_nonce rq) && truthy (v_timestamp rq) && truthy (v_signature rq)) then V_done rq (R_error 400)
  else if negb (stellar_address_re (v_address rq)) then V_done rq (R_error 400)
  else match Number (v_timestamp rq) with
       | None => V_done rq (R_error 400)
       | Some ts => if ts <=? 0 then V_done rq (R_error 400) else if in_window t ts then V_get rq else V_done rq (R_error 400)
       end.
(** After the nonce was deleted. *)
Definition verify_rest (e : env) (t : Z) (rq : verify_request) (stored : string) : reply :=
  if negb (bool_decide (stored = v_address rq)) then R_error 400
  else if negb (bool_decide (signed rq)) then R_error 401
  else match sign e (v_address rq) t with Some token => R_token token (v_address rq) | None => R_error 500 end.

Inductive event :=
  | Challenge (id : nat) (ip address : string)
  | Verify (id : nat) (ip : string) (rq : verify_request)
  | Limited (id : nat) (o : redis_limit)
  | Nonce_set (id : nat) (nonce : string) (works : bool)
  | Nonce_got (id : nat) (works : bool)
  | Nonce_deleted (id : nat) (works : bool)
  | Time (t : Z).
Definition set_phase (id : nat) (p : phase) (w : world) : world := World (now w) (nonces w) (limits w) (<[id := p]> (threads w)) (issued w).
Definition set_limits (cs : counters) (w : world) : world := World (now w) (nonces w) cs (threads w) (issued w).
Definition set_nonces (m : gmap string (string * Z)) (w : world) : world := World (now w) m (limits w) (threads w) (issued w).
Definition live_nonce (w : world) (n : string) : option string :=
  match nonces w !! n with Some (a, expiry) => if now w <? expiry then Some a else None | None => None end.
Context (e : env).
(** [randomUUID] gives new nonces. *)
Definition step (ev : event) (w : world) : world :=
  match ev with
  | Challenge id ip address => match threads w !! id with None => set_phase id (C_limit ip address) w | Some _ => w end
  | Verify id ip rq => match threads w !! id with None => set_phase id (V_limit ip rq) w | Some _ => w end
  | Limited id o =>
      match threads w !! id with
      | Some (C_limit ip address) =>
          let '((allowed, _), cs) := checkAuthRateLimit o (now w) ip (limits w) in
          set_phase id (if allowed : bool then challenge_checked address else C_done (R_error 429)) (set_limits cs w)
      | Some (V_limit ip rq) =>
          let '((allowed, _), cs) := checkAuthRateLimit o (now w) ip (limits w) in
          set_phase id (if allowed : bool then verify_checked (now w) rq else V_done rq (R_error 429)) (set_limits cs w)
      | _ => w
      end
  | Nonce_set id nonce works =>
      match threads w !! id with
      | Some (C_set address) =>
          if negb works then set_phase id (C_done (R_error 500)) w
          else if bool_decide (is_Some (issued w !! nonce)) then w
          else World (now w) (<[nonce := (address, now w + NONCE_TTL_SECONDS * 1000)]> (nonces w)) (limits w)
                 (<[id := C_done (R_challenge nonce (now w) (message_to_sign address nonce (Z_to_string (now w))))]> (threads w))
                 (<[nonce := address]> (issued w))
      | _ => w
      end
  | Nonce_got id works =>
      match threads w !! id with
      | Some (V_get rq) =>
          if negb works then set_phase id (V_done rq (R_error 500)) w
          else match live_nonce w (v_nonce rq) with
               | Some stored => set_phase id (V_del rq stored) w
               | None => set_phase id (V_done rq (R_error 400)) w
               end
      | _ => w
      end
  | Nonce_deleted id works =>
      match threads w !! id with
      | Some (V_del rq stored) =>
          if negb works then set_phase id (V_done rq (R_error 500)) w
          else set_phase id (V_done rq (verify_rest e (now w) rq stored)) (set_nonces (delete (v_nonce rq) (nonces w)) w)
      | _ => w
      end
  | Time t => if now w <=? t then World t (nonces w) (limits w) (threads w) (issued w) else w
  end.
Definition run (es : list event) (w : world) : world := foldl (λ w ev, step ev w) w es.
Definition started (t : Z) : world := World t ∅ ∅ ∅ ∅.

Definition authMiddlewareV1 (header : option string) (t : Z) : option string :=
  token ← Auth.bearer header; verify e token t.
Definition refreshHandlerV1 (header : option string) (t : Z) : reply :=
  match Auth.bearer header with
  | None => R_error 401
  | Some token =>
      match verify e token t with
      | Some address => match sign e address t with Some token => R_token token address | None => R_error 401 end
      | None => R_error 401
      end
  end.

(** ** Who gets a token *)

Definition checked (t : Z) (rq : verify_request) : Prop :=
  stellar_address_re (v_address rq) = true ∧ ∃ ts t0, Number (v_timestamp rq) = Some ts ∧ in_window t0 ts = true ∧ t0 <= t.
Definition phase_ok (w : world) (p : phase) : Prop :=
  match p with
  | V_get rq => checked (now w) rq
  | V_del rq stored => checked (now w) rq ∧ issued w !! v_nonce rq = Some stored
  | V_done rq (R_token tok a) => checked (now w) rq ∧ issued w !! v_nonce rq = Some a ∧ nonces w !! v_nonce rq = None ∧
      a = v_address rq ∧ signed rq ∧ ∃ t, t <= now w ∧ sign e a t = Some tok
  | _ => True
  end.
Record sound (w : world) : Prop := Sound {
  sound_nonces : ∀ n a t, nonces w !! n = Some (a, t) → issued w !! n = Some a;
  sound_threads : ∀ id p, threads w !! id = Some p → phase_ok w p }.

Lemma checked_later t t' rq : t <= t' → checked t rq → checked t' rq.
Proof. intros Ht (Ha & ts & t0 & ? & ? & ?). split; [done|]. exists ts, t0. split_and!; [done..|lia]. Qed.
(** What later steps keep of a phase: time passes, nonces are added as new ones
    and deleted. *)
Lemma v1_phase_ok_later w w' p : now w <= now w' → (∀ n a, issued w !! n = Some a → issued w' !! n = Some a) →
  (∀ n, is_Some (issued w !! n) → nonces w !! n = None → nonces w' !! n = None) → phase_ok w p → phase_ok w' p.
Proof.
  intros Ht Hi Hn. destruct p as [| |r| |rq|rq stored|rq [| |tok a]]; cbn; try done.
  - by apply checked_later.
  - intros [? ?]. split; [by eapply checked_later|by apply Hi].
  - intros (? & Hiss & ? & -> & ? & t & ? & ?). split_and!; [by eapply checked_later|by apply Hi|apply Hn; [by eexists|done]|done..|].
    exists t. split; [lia|done].
Qed.
Lemma v1_sound_phase w id p : sound w → phase_ok w p → sound (set_phase id p w).
Proof.
  intros [H1 H2] Hp. split; [done|]. intros id' p'. cbn. destruct (decide (id' = id)) as [->|].
  - rewrite lookup_insert_eq. by intros [= <-].
  - rewrite lookup_insert_ne by done. apply H2.
Qed.
Lemma sound_limits w cs : sound w → sound (set_limits cs w).
Proof. intros [H1 H2]. by split. Qed.
Lemma verify_checked_ok w rq : phase_ok w (verify_checked (now w) rq).
Proof.
  unfold verify_checked. destruct (negb _); [done|]. destruct (stellar_address_re (v_address rq)) eqn:Ha; [|done]. cbn [negb].
  destruct (Number (v_timestamp rq)) as [ts|] eqn:Hts; [|done]. destruct (ts <=? 0); [done|]. destruct (in_window (now w) ts) eqn:Hw; [|done].
  split; [done|]. exists ts, (now w). split_and!; [done..|lia].
Qed.
Lemma v1_step_sound ev w : sound w → sound (step ev w).
Proof.
  intros Hw. destruct ev as [id ip a|id ip rq|id o|id n works|id works|id works|t]; cbn [step].
  - destruct (threads w !! id); [done|]. by apply v1_sound_phase.
  - destruct (threads w !! id); [done|]. by apply v1_sound_phase.
  - destruct (threads w !! id) as [[ip a| | |ip rq| | |]|]; try done; destruct (checkAuthRateLimit o (now w) ip (limits w)) as [[allowed ra] cs];
      (apply v1_sound_phase; [by apply sound_limits|]); destruct allowed; try done.
    + unfold challenge_checked. destruct (negb (truthy (trim a))); [done|]. by destruct (negb (stellar_address_re (trim a))).
    + apply (verify_checked_ok (set_limits cs w)).
  - destruct (threads w !! id) as [[|a| | | | |]|]; try done. destruct works; cbn [negb]; [|by apply v1_sound_phase]. case_bool_decide as Hnew; [done|].
    apply eq_None_not_Some in Hnew. destruct Hw as [H1 H2]. split.
    + intros n' a' t'. cbn. destruct (decide (n' = n)) as [->|]; [rewrite !lookup_insert_eq; by intros [= <- <-]|rewrite !lookup_insert_ne by done; apply H1].
    + intros id' p'. cbn. destruct (decide (id' = id)) as [->|]; [rewrite lookup_insert_eq; by intros [= <-]|]. rewrite lookup_insert_ne by done.
      intros Hp. apply (v1_phase_ok_later w); cbn; [lia| | |by eapply H2].
      * intros n' a' Hi. by rewrite lookup_insert_ne by (intros ->; congruence).
      * intros n' [a' Hi] Hn. by rewrite lookup_insert_ne by (intros ->; congruence).
  - destruct (threads w !! id) as [[| | | |rq| |]|] eqn:Hid; try done. destruct works; cbn [negb]; [|by apply v1_sound_phase].
    unfold live_nonce. destruct (nonces w !! v_nonce rq) as [[a t]|] eqn:Hn; [|by apply v1_sound_phase]. destruct (now w <? t); [|by apply v1_sound_phase].
    apply v1_sound_phase; [done|]. split; [by apply (sound_threads w Hw id (V_get rq))|by eapply (sound_nonces w Hw)].
  - destruct (threads w !! id) as [[| | | | |rq stored|]|] eqn:Hid; try done. destruct works; cbn [negb]; [|by apply v1_sound_phase].
    destruct (sound_threads w Hw id _ Hid) as [Hc Hi]. apply v1_sound_phase.
    + destruct Hw as [H1 H2]. split; cbn; [intros n a t [_ Hl]%lookup_delete_Some; by eapply H1|].
      intros id' p Hp. eapply v1_phase_ok_later; [..|by eapply H2]; cbn; [lia|done|]. intros n _ Hn. by apply lookup_delete_None; right.
    + unfold verify_rest. case_bool_decide as Hst; [|done]. cbn [negb]. case_bool_decide as Hs; [|done]. cbn [negb].
      destruct (sign e (v_address rq) (now w)) as [tok|] eqn:Hsign; [|done]. subst stored.
      split_and!; [done|done|by apply lookup_delete_eq|done|done|]. exists (now w). split; [cbn; lia|done].
  - destruct (Z.leb_spec (now w) t); [|done]. destruct Hw as [H1 H2]. split; [done|]. intros id p Hp. by eapply v1_phase_ok_later; [..|by eapply H2].
Qed.
Lemma v1_run_sound es : ∀ w, sound w → sound (run es w).
Proof. induction es as [|ev es IH]; intros w Hw; [done|]. by apply IH, v1_step_sound. Qed.
Lemma v1_started_sound t : sound (started t).
Proof. split; cbn; intros *; by rewrite lookup_empty. Qed.

(** However requests overlap and Redis fails: a token is issued only for an
    address that signed the nonce it was challenged with; afterwards the nonce is
    gone, so that no later request can read it. *)
Theorem v1_tokens_signed es t id rq tok a : threads (run es (started t)) !! id = Some (V_done rq (R_token tok a)) →
  a = v_address rq ∧ stellar_address_re a = true ∧ issued (run es (started t)) !! v_nonce rq = Some a ∧ signed rq ∧
  live_nonce (run es (started t)) (v_nonce rq) = None ∧ ∃ t1, sign e a t1 = Some tok.
Proof.
  intros Hid. pose proof (v1_run_sound es _ (v1_started_sound t)) as [_ H2].
  destruct (H2 _ _ Hid) as ((Hre & _) & Hi & Hn & -> & Hs & t1 & _ & Htok). split_and!; [done..| |by exists t1].
  unfold live_nonce. by rewrite Hn.
Qed.
(** Node reads a 32-byte buffer as no DER structure: then no signature checks and
    no token is ever issued. *)
Theorem raw_key_rejects_everyone es t id rq tok a : (∀ b, length b = 32%nat → createPublicKey b = None) →
  threads (run es (started t)) !! id ≠ Some (V_done rq (R_token tok a)).
Proof.
  intros Hraw (_ & _ & _ & Hs & _)%v1_tokens_signed. unfold signed, verifyEd25519Signature in Hs.
  destruct (address_bytes (v_address rq)) as [bs|]; [|done]. destruct (Z.ltb_spec (buf_length bs) 35) as [|Hlen]; [done|].
  rewrite Hraw in Hs; [done|]. unfold subarray, buf_length in *. rewrite length_take, length_drop. lia.
Qed.

(** ** What a token is good for *)

(** The keys of the environment belong together. *)
Definition matched : Prop :=
  match JWT_PRIVATE_KEY e with Some k => JWT_PUBLIC_KEY e = Some (public_of k) | None => JWT_PUBLIC_KEY e = None end.
Lemma sign_verify a t t' tok : matched → sign e a t = Some tok →
  trim tok = tok ∧ verify e tok t' = if t / 1000 + JWT_EXPIRY e <=? t' / 1000 then None else Some a.
Proof.
  unfold matched, sign, verify, getSignKey, getVerifyKey, getAlgorithm. destruct (JWT_PRIVATE_KEY e) as [k|].
  - intros ->. intros [= <-]. split; [apply sign_rs_text|apply verify_rs_own].
  - intros ->. destruct (JWT_SECRET e) as [s|]; [|done]. cbn. intros [= <-]. split; [apply sign_hs_text|apply verify_hs_own].
Qed.
(** A token identifies its address until it expires and nobody afterwards,
    and a refresh extends it for the same address only while it is valid. *)
Theorem v1_token_lifetime a t t' tok : matched → sign e a t = Some tok →
  authMiddlewareV1 (Some ("Bearer " +:+ tok)) t' = (if t / 1000 + JWT_EXPIRY e <=? t' / 1000 then None else Some a) ∧
  (∀ tok' a', refreshHandlerV1 (Some ("Bearer " +:+ tok)) t' = R_token tok' a' →
    a' = a ∧ t' / 1000 < t / 1000 + JWT_EXPIRY e ∧ sign e a t' = Some tok').
Proof.
  intros Hm Hs. destruct (sign_verify a t t' tok Hm Hs) as [Ht Hv]. split.
  - unfold authMiddlewareV1. by rewrite Auth.bearer_token.
  - intros tok' a'. unfold refreshHandlerV1. rewrite Auth.bearer_token, Hv by done. destruct (Z.leb_spec (t / 1000 + JWT_EXPIRY e) (t' / 1000)); [done|].
    destruct (sign e a t') as [tok2|]; [|done]. by intros [= <- <-].
Qed.
(** A private key with only a secret to check with: every token is refused. *)
Theorem mismatched_keys_reject k s header t : JWT_PRIVATE_KEY e = Some k → JWT_PUBLIC_KEY e = None → JWT_SECRET e = Some s →
  authMiddlewareV1 header t = None.
Proof.
  intros H1 H2 H3. unfold authMiddlewareV1, verify, getVerifyKey, getAlgorithm. rewrite H1, H2, H3. by destruct (Auth.bearer header).
Qed.
End auth_v1.

(** ** The limit of attempts *)

Fixpoint limit_run (ip : string) (ts : list Z) (cs : counters) : list bool :=
  match ts with
  | [] => []
  | t :: ts => let '((allowed, _), cs) := checkAuthRateLimit L_ok t ip cs in allowed :: limit_run ip ts cs
  end.
Lemma limit_run_counted ip t0 ts : ∀ k cs, cs !! ip = Some (Z.of_nat k, Some (t0 + 60000)) → (1 <= k)%nat →
  Forall (λ t, t < t0 + 60000) ts → limit_run ip ts cs = (λ i, bool_decide (i < 10)%nat) <$> seq k (length ts).
Proof.
  induction ts as [|t ts IH]; intros k cs Hk H1; [done|]. intros [Ht Hts]%Forall_cons. cbn [limit_run length seq fmap list_fmap].
  unfold checkAuthRateLimit. rewrite Hk. unfold counted. cbn [snd]. rewrite (proj2 (Z.ltb_lt t (t0 + 60000))) by done. cbn [fmap option_fmap option_map default fst snd id].
  rewrite (proj2 (Z.eqb_neq (Z.of_nat k + 1) 1)) by lia. rewrite (IH (S k)); [|rewrite lookup_insert_eq; do 2 f_equal; lia|lia|done].
  f_equal. unfold AUTH_RATE_MAX. case_bool_decide; [apply Z.leb_le; lia|apply Z.leb_gt; lia].
Qed.
(** While Redis works, an address gets ten attempts in the minute after its
    first one, whatever their times. *)
Theorem ten_attempts ip t0 ts cs : match cs !! ip with Some c => counted t0 c = false | None => True end →
  Forall (λ t, t0 <= t < t0 + 60000) ts →
  limit_run ip (t0 :: ts) cs = (λ i, bool_decide (i < 10)%nat) <$> seq 0 (S (length ts)).
Proof.
  intros Hcs Hts. cbn [limit_run seq fmap list_fmap]. unfold checkAuthRateLimit.
  assert (match cs !! ip with Some c => if counted t0 c then Some c else None | None => None end = None) as ->.
  { destruct (cs !! ip) as [c|]; [by rewrite Hcs|done]. }
  cbn [fmap option_fmap option_map default id]. change (0 + 1 =? 1) with true. cbv iota. f_equal.
  apply (limit_run_counted ip t0 ts 1); [by rewrite lookup_insert_eq|done|]. eapply Forall_impl; [done|]. cbn. intros; lia.
Qed.
Lemma ten_attempts_witness : limit_run "1.2.3.4" (replicate 12 5000) ∅ =
  [true; true; true; true; true; true; true; true; true; true; false; false].
Proof.
  change (replicate 12 5000) with (5000 :: replicate 11 5000). rewrite (ten_attempts "1.2.3.4" 5000 (replicate 11 5000) ∅).
  - reflexivity.
  - rewrite lookup_empty. exact I.
  - apply Forall_replicate. lia.
Defined.
(** A counter whose [EXPIRE] was lost never ends: after ten attempts the address
    is locked out for good. *)
Theorem lost_expiry_locks_out ip c t cs : cs !! ip = Some (c, None) → 10 <= c →
  ∃ cs', checkAuthRateLimit L_ok t ip cs = ((false, 60), cs') ∧ cs' !! ip = Some (c + 1, None) ∧
  snd (checkAuthRateLimit L_incr_only t ip ∅) !! ip = Some (1, None).
Proof.
  intros Hc H10. unfold checkAuthRateLimit. rewrite Hc. cbn. rewrite (proj2 (Z.eqb_neq (c + 1) 1)) by lia.
  eexists. split; [|split; [by rewrite lookup_insert_eq|]].
  - unfold AUTH_RATE_MAX. rewrite (proj2 (Z.leb_gt (c + 1) 10)) by lia. reflexivity.
  - rewrite lookup_empty. cbn. by rewrite lookup_insert_eq.
Qed.
Lemma lost_expiry_locks_out_witness : ∃ cs', checkAuthRateLimit L_ok (10 ^ 12) "ip" {["ip" := (10, None)]} = ((false, 60), cs').
Proof.
  destruct (lost_expiry_locks_out "ip" 10 (10 ^ 12) {["ip" := (10, None)]}) as (cs' & H & _); [reflexivity|lia|].
  exists cs'. exact H.
Defined.

(** ** An example *)

#[local] Existing Instance Auth.toy_jwt.
#[local] Instance toy_jwt_v1 : JwtV1 Z Z.
Proof.
  refine {| public_of k := k;
    sign_rs k s iat exp := Auth.jwt_sign k "h" (Auth.Claims (Some s) None None) iat exp;
    sign_hs k s iat exp := Auth.jwt_sign (Z.of_nat (String.length k)) "h" (Auth.Claims (Some s) None None) iat exp;
    verify_rs k t tok := match Auth.jwt_verify k (t * 1000) tok with Auth.Verified c => Auth.sub c | _ => None end;
    verify_hs k t tok := match Auth.jwt_verify (Z.of_nat (String.length k)) (t * 1000) tok with Auth.Verified c => Auth.sub c | _ => None end |}.
  - intros k s iat exp t. rewrite Auth.jwt_verify_own, Z.div_mul by done. by destruct (exp <=? t).
  - intros k s iat exp t. rewrite Auth.jwt_verify_own, Z.div_mul by done. by destruct (exp <=? t).
  - intros. apply Auth.jwt_sign_text.
  - intros. apply Auth.jwt_sign_text.
Defined.
Definition demo_env : env := Env (Some 7) (Some 7) None 3600.
Definition demo_address : string := Auth.toy_address.
Definition demo_request : verify_request :=
  VerifyRequest demo_address "n1" "1000" (to_base64 (string_bytes (message_to_sign demo_address "n1" "1000"))).
Definition demo_run (es : list event) : world :=
  run Z_of_string (λ b, Some b) (λ (_ : buffer) m s, bool_decide (m = s)) demo_env es (started 1000).
Definition demo_login : list event :=
  [Challenge 0 "ip" demo_address; Limited 0 L_ok; Nonce_set 0 "n1" true; Verify 1 "ip" demo_request; Limited 1 L_ok; Nonce_got 1 true].
Definition demo_token : string := default "" (sign demo_env demo_address 1000).
Lemma v1_tokens_signed_witness : threads (demo_run (demo_login ++ [Nonce_deleted 1 true])) !! 1%nat = Some (V_done demo_request (R_token demo_token demo_address)) ∧
  live_nonce (demo_run (demo_login ++ [Nonce_deleted 1 true])) "n1" = None.
Proof.
  split; [vm_compute; reflexivity|].
  destruct (v1_tokens_signed Z_of_string (λ b, Some b) (λ (_ : buffer) m s, bool_decide (m = s)) demo_env (demo_login ++ [Nonce_deleted 1 true]) 1000 1 demo_request demo_token demo_address)
    as (_ & _ & _ & _ & H & _); [vm_compute; reflexivity|exact H].
Defined.
Lemma v1_token_lifetime_witness : sign demo_env demo_address 1000 = Some demo_token ∧
  authMiddlewareV1 demo_env (Some ("Bearer " +:+ demo_token)) 5000000 = None.
Proof.
  split; [vm_compute; reflexivity|].
  destruct (v1_token_lifetime demo_env demo_address 1000 5000000 demo_token) as [H _]; [reflexivity|vm_compute; reflexivity|].
  rewrite H. vm_compute. reflexivity.
Defined.
Lemma raw_key_rejects_everyone_witness : threads (run Z_of_string (λ _, None : option buffer) (λ (_ : buffer) m s, bool_decide (m = s)) demo_env
    (demo_login ++ [Nonce_deleted 1 true]) (started 1000)) !! 1%nat ≠ Some (V_done demo_request (R_token demo_token demo_address)).
Proof. apply (raw_key_rejects_everyone Z_of_string (λ _, None : option buffer) (λ (_ : buffer) m s, bool_decide (m = s)) demo_env). reflexivity. Defined.
Lemma mismatched_keys_reject_witness : authMiddlewareV1 (Env (Some 7) None (Some "s") 3600) (Some "Bearer x") 0 = None.
Proof. apply (mismatched_keys_reject (Env (Some 7) None (Some "s") 3600) 7 "s" (Some "Bearer x") 0); reflexivity. Defined.
(** Two requests that read the nonce before either deletes it both get a
    token. *)
Theorem nonce_read_twice : let w := demo_run (demo_login ++ [Verify 2 "ip" demo_request; Limited 2 L_ok; Nonce_got 2 true; Nonce_deleted 1 true; Nonce_deleted 2 true]) in
  threads w !! 1%nat = Some (V_done demo_request (R_token demo_token demo_address)) ∧
  threads w !! 2%nat = Some (V_done demo_request (R_token demo_token demo_address)).
Proof. vm_compute. split; reflexivity. Qed.
