(* ===== verification/Acknowledgments.v ===== *)
(** * Acknowledgments of streams

    [backend/src/routes/acknowledgments.ts] on the table of migration
    [006_create_stream_acknowledgments.ts], and its client:
    [frontend/src/utils/streamAcknowledgments.ts], [freighterSignMessage.ts],
    [hooks/useStreamAcknowledgment.ts] and [StreamAcknowledgmentBanner.tsx].  The
    hook and the server are one transition system: a request is handled and its
    answer arrives in two steps, either of which may fail.  Numbers of a stream
    are given by their text; what the wallet answers and the text of a date are
    parameters. *)
From stdpp Require Import list sorting.
From S2P Require Import Prelude Bytes Validation.
#[local] Open Scope Z_scope.

(** ** The table *)

Inductive AcknowledgmentAction := acknowledge | skip.
#[global] Instance AcknowledgmentAction_eq_dec : EqDecision AcknowledgmentAction.
Proof. solve_decision. Defined.
Definition action_text (a : AcknowledgmentAction) : string := match a with acknowledge => "acknowledge" | skip => "skip" end.

Record ack_row := AckRow {
  recipient : string;
  sponsor : string;
  token : string;
  acknowledged_at : option Z;
  skipped_at : option Z;
  signed_message : option string;
  created_at : Z;
  updated_at : Z }.
(** The unique index. *)
Definition row_key (r : ack_row) : string * string * string := (recipient r, sponsor r, token r).

(** The body of a [POST], and the address it is for. *)
Record post := Post { p_recipient : string; p_sponsor : string; p_token : string; p_action : AcknowledgmentAction; p_message : option string }.
Definition post_key (p : post) : string * string * string := (p_recipient p, p_sponsor p, p_token p).

Definition inserted (now : Z) (p : post) : ack_row :=
  AckRow (p_recipient p) (p_sponsor p) (p_token p)
    (if decide (p_action p = acknowledge) then Some now else None) (if decide (p_action p = skip) then Some now else None)
    (p_message p) now now.
(** [ON CONFLICT DO UPDATE]; the trigger sets [updated_at]. *)
Definition conflicting (now : Z) (p : post) (r : ack_row) : ack_row :=
  AckRow (recipient r) (sponsor r) (token r)
    (if decide (p_action p = acknowledge) then Some now else acknowledged_at r)
    (if decide (p_action p = skip) then Some now else skipped_at r)
    (match p_message p with Some m => Some m | None => signed_message r end) (created_at r) now.
Definition find_row (k : string * string * string) (t : list ack_row) : option ack_row :=
  snd <$> list_find (λ r, row_key r = k) t.
Definition upsert (now : Z) (p : post) (t : list ack_row) : list ack_row :=
  match find_row (post_key p) t with
  | Some _ => (λ r, if decide (row_key r = post_key p) then conflicting now p r else r) <$> t
  | None => t ++ [inserted now p]
  end.

(** A text with a zero byte is refused by PostgreSQL. *)
Definition pg_text (s : string) : bool := forallb (λ c, negb (bool_decide (c = "000"%char))) (chars s).
Definition storable (p : post) : bool := pg_text (p_token p) && match p_message p with Some m => pg_text m | None => true end.

(** ** The handlers *)

Record StreamAcknowledgment := Ack {
  k_recipient : string;
  k_sponsor : string;
  k_token : string;
  k_acknowledged_at : option string;
  k_skipped_at : option string;
  k_signed_message : option string;
  pending : bool }.
(** What the client gets: a status that is not a success, or a body. *)
Inductive answer (A : Type) := Refused (status : Z) | Body (a : A) | Unreachable.
Arguments Refused {A}. Arguments Body {A}. Arguments Unreachable {A}.

Section server.
Context (toISOString : Z → string) (valid_url valid_date : string → bool) (Number : string → option QArith_base.Q) (network_error : string).

Definition toRecord (r : ack_row) : StreamAcknowledgment :=
  let acknowledgedAt := toISOString <$> acknowledged_at r in
  let skippedAt := toISOString <$> skipped_at r in
  Ack (recipient r) (sponsor r) (token r) acknowledgedAt skippedAt (signed_message r)
    (bool_decide (acknowledgedAt = None) && bool_decide (skippedAt = None)).

(** [ORDER BY created_at DESC] *)
Definition newer (a b : ack_row) : Prop := created_at b <= created_at a.
#[global] Instance newer_dec : RelDecision newer.
Proof. intros a b. unfold newer. apply _. Defined.
Definition getAcknowledgmentsHandler (t : list ack_row) (r : string) : answer (list StreamAcknowledgment) :=
  if stellar_address_re r then Body (toRecord <$> merge_sort newer (filter (λ x, recipient x = r) t)) else Refused 400.

(** The body as JSON: an undefined message is left out. *)
Definition body_of (p : post) : json :=
  JObject ([("sponsor", JString (p_sponsor p)); ("token", JString (p_token p)); ("action", JString (action_text (p_action p)))] ++
           match p_message p with Some m => [("signedMessage", JString m)] | None => [] end).
Definition valid_post (p : post) : bool :=
  stellar_address_re (p_recipient p) &&
  bool_decide (is_Some (accepts valid_url valid_date Number CreateAcknowledgmentSchema (body_of p))).
Definition upsertAcknowledgmentHandler (now : Z) (p : post) (t : list ack_row) : answer StreamAcknowledgment * list ack_row :=
  if valid_post p then
    if storable p then
      let t := upsert now p t in
      match find_row (post_key p) t with
      | Some r => (Body (toRecord r), t)
      | None => (Refused 500, t)
      end
    else (Refused 500, t)
  else (Refused 400, t).

(** ** The message *)

Record VestingStream := Stream {
  v_recipient : string;
  v_sponsor : string;
  v_token : string;
  v_rate : string;
  totalDeposit : option string;
  startLedger : option string;
  cliffLedger : option string;
  endLedger : option string }.
Definition optional_line (label suffix : string) (o : option string) : list string :=
  match o with Some v => [label +:+ v +:+ suffix] | None => [] end.
Definition newline : string := String "010" "".
Definition message_lines (s : VestingStream) (network : string) : list string :=
  (["Vesting stream acknowledgment"; "version: 1"; "network: " +:+ network; "sponsor: " +:+ v_sponsor s;
      "recipient: " +:+ v_recipient s; "token: " +:+ v_token s; "rate: " +:+ v_rate s +:+ " tokens per ledger"] ++
     optional_line "total deposit: " (" " +:+ v_token s) (totalDeposit s) ++ optional_line "start ledger: " "" (startLedger s) ++
     optional_line "cliff ledger: " "" (cliffLedger s) ++ optional_line "end ledger: " "" (endLedger s)).
Definition buildAcknowledgmentMessage (s : VestingStream) (network : string) : string := String.concat newline (message_lines s network).

(** *** The wallet *)

Inductive signature := SignedText (s : string) | SignedBytes (b : buffer).
Definition toBase64 (v : signature) : string := match v with SignedText s => s | SignedBytes b => to_base64 b end.
(** The answer of the extension: an error with its message, or a signature. *)
Definition signWithFreighter (result : option string * option signature) : string + string :=
  match result with
  | (Some m, _) => inr (if truthy m then m else "Freighter declined to sign the message")
  | (None, Some (SignedText "")) | (None, None) => inr "Freighter returned an empty signature"
  | (None, Some v) => inl (toBase64 v)
  end.

(** ** The hook *)

Inductive AcknowledgmentPhase := loading | pending_phase | resolved | error_phase.
Definition stream_key (s : VestingStream) : string * string * string := (v_recipient s, v_sponsor s, v_token s).
Definition findRecord (items : list StreamAcknowledgment) (s : VestingStream) : option StreamAcknowledgment :=
  snd <$> list_find (λ i, k_sponsor i = v_sponsor s ∧ k_token i = v_token s) items.

(** A [GET] in flight: the effect that sent it and the stream it closed over. *)
Record load := Load { l_effect : nat; l_stream : VestingStream; l_answer : option (answer (list StreamAcknowledgment)) }.
Inductive stage := Signing | Posting (p : post) | Answered (a : answer StreamAcknowledgment).
Record submission := Submission { s_stream : VestingStream; s_stage : stage }.
Record hook := Hook {
  stream : VestingStream;
  phase : AcknowledgmentPhase;
  record : option StreamAcknowledgment;
  error : option string;
  busy : bool;
  effect : nat;
  loads : list load;
  submissions : list submission }.

Definition setPhase (p : AcknowledgmentPhase) (h : hook) : hook :=
  Hook (stream h) p (record h) (error h) (busy h) (effect h) (loads h) (submissions h).
Definition setRecord (r : option StreamAcknowledgment) (h : hook) : hook :=
  Hook (stream h) (phase h) r (error h) (busy h) (effect h) (loads h) (submissions h).
Definition setError (e : option string) (h : hook) : hook :=
  Hook (stream h) (phase h) (record h) e (busy h) (effect h) (loads h) (submissions h).
Definition setBusy (b : bool) (h : hook) : hook :=
  Hook (stream h) (phase h) (record h) (error h) b (effect h) (loads h) (submissions h).
Definition set_loads (l : list load) (h : hook) : hook :=
  Hook (stream h) (phase h) (record h) (error h) (busy h) (effect h) l (submissions h).
Definition set_submissions (l : list submission) (h : hook) : hook :=
  Hook (stream h) (phase h) (record h) (error h) (busy h) (effect h) (loads h) l.

Definition mount (s : VestingStream) : hook := Hook s loading None None false 0 [Load 0 s None] [].
(** The effect runs again when recipient, sponsor or token changed. *)
Definition rerender (s : VestingStream) (h : hook) : hook :=
  if decide (stream_key s = stream_key (stream h)) then Hook s (phase h) (record h) (error h) (busy h) (effect h) (loads h) (submissions h)
  else Hook s (phase h) (record h) (error h) (busy h) (S (effect h)) (loads h ++ [Load (S (effect h)) s None]) (submissions h).

Definition load_error : string := "Failed to load acknowledgments".
Definition load_arrives (l : load) (h : hook) : hook :=
  if decide (l_effect l = effect h) then
    match l_answer l with
    | Some (Body items) =>
        let found := findRecord items (l_stream l) in
        setPhase (match found with None => pending_phase | Some r => if pending r then pending_phase else resolved end) (setRecord found h)
    | Some (Refused status) => setPhase pending_phase (setError (Some (load_error +:+ " (" +:+ Z_to_string status +:+ ")")) h)
    | _ => setPhase pending_phase (setError (Some network_error) h)
    end
  else h.

Definition post_of (s : VestingStream) (a : AcknowledgmentAction) (m : option string) : post :=
  Post (v_recipient s) (v_sponsor s) (v_token s) a m.
(** A click, while the banner is shown and its buttons are enabled. *)
Definition enabled (h : hook) : bool :=
  match phase h with loading | resolved => false | _ => negb (busy h) end.
Definition click (a : AcknowledgmentAction) (h : hook) : hook :=
  if enabled h then
    let st := match a with acknowledge => Signing | skip => Posting (post_of (stream h) skip None) end in
    set_submissions (submissions h ++ [Submission (stream h) st]) (setError None (setBusy true h))
  else h.
Definition fail (message : string) (h : hook) : hook := setBusy false (setPhase pending_phase (setError (Some message) h)).
Definition drop_submission (i : nat) (h : hook) : hook := set_submissions (delete i (submissions h)) h.
(** The wallet's answer: the message it signed, or the text of an error. *)
Definition signed (i : nat) (r : string + string) (h : hook) : hook :=
  match submissions h !! i with
  | Some (Submission s Signing) =>
      match r with
      | inl m => set_submissions (<[i := Submission s (Posting (post_of s acknowledge (Some m)))]> (submissions h)) h
      | inr e => fail e (drop_submission i h)
      end
  | _ => h
  end.
Definition post_arrives (i : nat) (h : hook) : hook :=
  match submissions h !! i with
  | Some (Submission _ (Answered a)) =>
      match a with
      | Body saved => setBusy false (setPhase resolved (setRecord (Some saved) (drop_submission i h)))
      | Refused status => fail ("Failed to save acknowledgment (" +:+ Z_to_string status +:+ ")") (drop_submission i h)
      | Unreachable => fail network_error (drop_submission i h)
      end
  | _ => h
  end.

(** ** Client and server *)

(** A lost request never reaches the server; [ELost] loses an answer. *)
Inductive event :=
| EServeGet (i : nat) | EGetLost (i : nat) | EGetArrives (i : nat)
| EClick (a : AcknowledgmentAction) | ESigned (i : nat) (r : string + string)
| EServePost (i : nat) (now : Z) | EPostLost (i : nat) | EPostArrives (i : nat)
| EOther (now : Z) (p : post) | ERerender (s : VestingStream).
Definition set_load_answer (i : nat) (a : answer (list StreamAcknowledgment)) (h : hook) : hook :=
  match loads h !! i with Some l => set_loads (<[i := Load (l_effect l) (l_stream l) (Some a)]> (loads h)) h | None => h end.
Definition step (e : event) (st : list ack_row * hook) : list ack_row * hook :=
  let '(t, h) := st in
  match e with
  | EServeGet i =>
      match loads h !! i with
      | Some l => if decide (l_answer l = None) then (t, set_load_answer i (getAcknowledgmentsHandler t (v_recipient (l_stream l))) h) else (t, h)
      | None => (t, h)
      end
  | EGetLost i => (t, set_load_answer i Unreachable h)
  | EGetArrives i =>
      match loads h !! i with
      | Some l => if decide (l_answer l = None) then (t, h) else (t, load_arrives l (set_loads (delete i (loads h)) h))
      | None => (t, h)
      end
  | EClick a => (t, click a h)
  | ESigned i r => (t, signed i r h)
  | EServePost i now =>
      match submissions h !! i with
      | Some (Submission s (Posting p)) =>
          let '(a, t) := upsertAcknowledgmentHandler now p t in
          (t, set_submissions (<[i := Submission s (Answered a)]> (submissions h)) h)
      | _ => (t, h)
      end
  | EPostLost i =>
      match submissions h !! i with
      | Some (Submission s (Posting _ | Answered _)) => (t, set_submissions (<[i := Submission s (Answered Unreachable)]> (submissions h)) h)
      | _ => (t, h)
      end
  | EPostArrives i => (t, post_arrives i h)
  | EOther now p => ((upsertAcknowledgmentHandler now p t).2, h)
  | ERerender s => (t, rerender s h)
  end.
Definition run (es : list event) (st : list ack_row * hook) : list ack_row * hook := foldl (λ st e, step e st) st es.
End server.

(** ** The table: proofs *)

Lemma row_key_conflicting now p r : row_key (conflicting now p r) = row_key r.
Proof. done. Qed.
Lemma find_row_Some k t r : find_row k t = Some r → r ∈ t ∧ row_key r = k.
Proof.
  unfold find_row. destruct (list_find _ t) as [[i x]|] eqn:E; [|done]. intros [= <-].
  apply list_find_Some in E as (Hi & Hk & _). split; [by eapply list_elem_of_lookup_2|done].
Qed.
Lemma find_row_None k t : find_row k t = None ↔ ∀ r, r ∈ t → row_key r ≠ k.
Proof.
  unfold find_row. rewrite fmap_None, list_find_None, Forall_forall. done.
Qed.
Lemma find_row_unique k t r : NoDup (row_key <$> t) → r ∈ t → row_key r = k → find_row k t = Some r.
Proof.
  intros Hnd Hr Hk. destruct (find_row k t) as [x|] eqn:E; [|by eapply find_row_None in E].
  apply find_row_Some in E as [Hx Hkx]. apply list_elem_of_lookup_1 in Hr as [i Hi]. apply list_elem_of_lookup_1 in Hx as [j Hj].
  assert (i = j) as <-; [|congruence].
  eapply (NoDup_lookup (row_key <$> t)); [done|by rewrite list_lookup_fmap, Hi|rewrite list_lookup_fmap, Hj; simpl; congruence].
Qed.
Lemma find_row_upsert now p t k :
  find_row k (upsert now p t) =
    if decide (k = post_key p) then Some (match find_row k t with Some r => conflicting now p r | None => inserted now p end)
    else find_row k t.
Proof.
  unfold upsert. destruct (find_row (post_key p) t) as [r|] eqn:E.
  - assert (Hf : find_row k ((λ r, if decide (row_key r = post_key p) then conflicting now p r else r) <$> t) =
      (λ r, if decide (row_key r = post_key p) then conflicting now p r else r) <$> find_row k t).
    { clear. unfold find_row. rewrite list_find_fmap. rewrite (list_find_ext _ (λ r, row_key r = k)).
      - by destruct (list_find _ t) as [[]|].
      - intros x. simpl. case_decide; by rewrite ?row_key_conflicting. }
    rewrite Hf. case_decide as Hk; [subst; rewrite E; simpl|].
    + apply find_row_Some in E as [_ E]. by rewrite decide_True.
    + destruct (find_row k t) as [x|] eqn:Ek; [|done]. apply find_row_Some in Ek as [_ Ek]. simpl. rewrite decide_False; congruence.
  - unfold find_row in *. case_decide as Hk.
    + subst. rewrite E. apply fmap_None in E. rewrite (list_find_app_r _ _ _ E). simpl. by rewrite decide_True.
    + destruct (list_find (λ r, row_key r = k) t) as [[i x]|] eqn:Ek; [by rewrite (list_find_app_l _ _ _ _ _ Ek)|].
      rewrite (list_find_app_r _ _ _ Ek). simpl. rewrite decide_False; [done|]. intros H. apply Hk. by rewrite <-H.
Qed.
Lemma NoDup_upsert now p t : NoDup (row_key <$> t) → NoDup (row_key <$> upsert now p t).
Proof.
  intros Hnd. unfold upsert. destruct (find_row (post_key p) t) eqn:E.
  - rewrite <-list_fmap_compose. erewrite list_fmap_ext; [exact Hnd|]. intros i x _. simpl. by case_decide.
  - rewrite fmap_app. apply NoDup_app. split_and!; [done| |apply NoDup_singleton].
    intros k (r & -> & Hr)%list_elem_of_fmap Hk%list_elem_of_singleton. eapply find_row_None in E; [|done]. by destruct E.
Qed.

Section proofs.
Context (toISOString : Z → string) (valid_url valid_date : string → bool) (Number : string → option QArith_base.Q) (network_error : string).
Notation handler := (upsertAcknowledgmentHandler toISOString valid_url valid_date Number).
Notation valid_post := (valid_post valid_url valid_date Number).
Notation toRecord := (toRecord toISOString).
Notation step := (step toISOString valid_url valid_date Number network_error).
Notation run := (run toISOString valid_url valid_date Number network_error).

Definition accepted_post (p : post) : bool := valid_post p && storable p.
Lemma handler_table now p t : (handler now p t).2 = if accepted_post p then upsert now p t else t.
Proof.
  unfold upsertAcknowledgmentHandler, accepted_post. destruct (valid_post p), (storable p); try done. simpl. by case_match.
Qed.
(** An accepted request is answered with the row it stored. *)
Lemma handler_answer now p t : accepted_post p = true →
  ∃ r, find_row (post_key p) (upsert now p t) = Some r ∧ (handler now p t).1 = Body (toRecord r).
Proof.
  unfold accepted_post, upsertAcknowledgmentHandler. intros [-> ->]%andb_true_iff. rewrite find_row_upsert, decide_True by done.
  eexists. split; [done|]. simpl. done.
Qed.
Lemma handler_refused now p t : accepted_post p = false → ∃ s, (handler now p t).1 = Refused s.
Proof. unfold accepted_post, upsertAcknowledgmentHandler. destruct (valid_post p), (storable p); try done; intros _; by eexists. Qed.

(** *** The history of a row *)

Definition serve_posts (hist : list (Z * post)) : list ack_row := foldl (λ t e, (handler e.1 e.2 t).2) [] hist.
Definition accepted (k : string * string * string) (hist : list (Z * post)) : list (Z * post) :=
  filter (λ e, accepted_post e.2 = true ∧ post_key e.2 = k) hist.
Definition last_time (a : AcknowledgmentAction) (acc : list (Z * post)) : option Z :=
  last (fst <$> filter (λ e, p_action e.2 = a) acc).
Definition last_message (acc : list (Z * post)) : option string := last (omap (λ e, p_message e.2) acc).
Definition row_of (k : string * string * string) (acc : list (Z * post)) : option ack_row :=
  match acc with
  | [] => None
  | e :: _ => Some (AckRow k.1.1 k.1.2 k.2 (last_time acknowledge acc) (last_time skip acc) (last_message acc) e.1 (default e.1 (last (fst <$> acc))))
  end.

Lemma row_of_snoc k acc now p : post_key p = k →
  row_of k (acc ++ [(now, p)]) = Some (match row_of k acc with Some r => conflicting now p r | None => inserted now p end).
Proof.
  intros <-. assert (Ht : ∀ a, last_time a (acc ++ [(now, p)]) = if decide (p_action p = a) then Some now else last_time a acc).
  { intros a. unfold last_time. rewrite filter_app, fmap_app. rewrite filter_cons. simpl. case_decide; simpl; [by rewrite last_snoc|by rewrite app_nil_r]. }
  assert (Hm : last_message (acc ++ [(now, p)]) = match p_message p with Some m => Some m | None => last_message acc end).
  { unfold last_message. rewrite omap_app. simpl. destruct (p_message p); [by rewrite last_snoc|by rewrite app_nil_r]. }
  destruct acc as [|e acc].
  - simpl. by destruct p as [? ? ? [] [] ].
  - assert (Hu : last (fst <$> (e :: acc) ++ [(now, p)]) = Some now) by (rewrite fmap_app; apply last_snoc).
    unfold row_of. cbn [app]. rewrite app_comm_cons, Ht, Ht, Hm, Hu. unfold conflicting. simpl. by destruct (p_message p).
Qed.
(** What the table holds of a stream after any requests, from anyone and for
    any streams: nothing before the first one that is accepted; then the time
    of the last acknowledgment, the time of the last skip, neither erased by the
    other, the last message that was sent, and the time of the first request. *)
Theorem upserts_spec k hist : find_row k (serve_posts hist) = row_of k (accepted k hist).
Proof.
  induction hist as [|[now p] hist IH] using rev_ind; [done|].
  unfold serve_posts, accepted in *. rewrite foldl_snoc, filter_app, filter_cons. cbn [fst snd].
  rewrite handler_table. destruct (accepted_post p) eqn:Ha.
  - rewrite find_row_upsert. destruct (decide (k = post_key p)) as [->|Hk].
    + rewrite decide_True by done. rewrite row_of_snoc by done. by rewrite IH.
    + rewrite decide_False by (intros [_ ?]; congruence). by rewrite app_nil_r.
  - rewrite decide_False by (intros [? _]; congruence). by rewrite app_nil_r.
Qed.
Lemma NoDup_handler now p t : NoDup (row_key <$> t) → NoDup (row_key <$> (handler now p t).2).
Proof. rewrite handler_table. destruct (accepted_post p); [apply NoDup_upsert|done]. Qed.
Lemma NoDup_serve_posts hist : NoDup (row_key <$> serve_posts hist).
Proof.
  induction hist as [|e hist IH] using rev_ind; [constructor|]. unfold serve_posts in *. rewrite foldl_snoc. by apply NoDup_handler.
Qed.

(** Every row is resolved: the API never answers an item that is pending. *)
Definition settled (r : ack_row) : Prop := is_Some (acknowledged_at r) ∨ is_Some (skipped_at r).
Lemma settled_upsert now p t : Forall settled t → Forall settled (upsert now p t).
Proof.
  intros Ht. assert (Hs : settled (inserted now p) ∧ ∀ r, settled r → settled (conflicting now p r)).
  { unfold settled, inserted, conflicting. destruct p as [? ? ? [] ?]; simpl; naive_solver. }
  unfold upsert. destruct (find_row _ _).
  - rewrite Forall_fmap. eapply Forall_impl; [exact Ht|]. intros r Hr. simpl. case_decide; [by apply Hs|done].
  - apply Forall_app. split; [done|]. by apply Forall_singleton, Hs.
Qed.
Lemma settled_handler now p t : Forall settled t → Forall settled (handler now p t).2.
Proof. rewrite handler_table. destruct (accepted_post p); [apply settled_upsert|done]. Qed.
Lemma settled_serve_posts hist : Forall settled (serve_posts hist).
Proof.
  induction hist as [|e hist IH] using rev_ind; [constructor|]. unfold serve_posts in *. rewrite foldl_snoc. by apply settled_handler.
Qed.
Lemma pending_settled r : settled r → pending (toRecord r) = false.
Proof.
  unfold settled, Acknowledgments.toRecord. simpl. intros [[x ->]|[x ->]]; simpl.
  - done.
  - by rewrite andb_comm.
Qed.

(** *** What the client finds in the list *)

Lemma findRecord_items t s : NoDup (row_key <$> t) → stellar_address_re (v_recipient s) = true →
  ∃ items, getAcknowledgmentsHandler toISOString t (v_recipient s) = Body items ∧ findRecord items s = toRecord <$> find_row (stream_key s) t.
Proof.
  intros Hnd Hr. unfold getAcknowledgmentsHandler. rewrite Hr. eexists. split; [done|].
  unfold findRecord. rewrite list_find_fmap.
  assert (Hin : ∀ r, r ∈ merge_sort newer (filter (λ x, recipient x = v_recipient s) t) ↔ r ∈ t ∧ recipient r = v_recipient s).
  { intros r. rewrite merge_sort_Permutation, list_elem_of_filter. tauto. }
  destruct (list_find _ _) as [[i r]|] eqn:E.
  - apply list_find_Some in E as (Hi & [Hs Ht] & _). apply list_elem_of_lookup_2, Hin in Hi as [Hi Hrec]. simpl.
    rewrite (find_row_unique (stream_key s) t r Hnd Hi); [done|]. unfold row_key, stream_key. simpl in *. congruence.
  - destruct (find_row (stream_key s) t) as [r|] eqn:Ef; [|done]. exfalso. apply find_row_Some in Ef as [Hi Hk].
    unfold row_key, stream_key in Hk. simplify_eq. apply list_find_None in E. rewrite Forall_forall in E.
    apply (E r); [by apply Hin|]. simpl. done.
Qed.

(** The banner comes back exactly for the streams nobody answered for:
    after any requests, opening the page loads to "pending" when none for this
    recipient, sponsor and token was accepted, and to "resolved" when one was. *)
Theorem reload_reflects_history hist s : stellar_address_re (v_recipient s) = true →
  let '(t, h) := run [EServeGet 0; EGetArrives 0] (serve_posts hist, mount s) in
  t = serve_posts hist ∧ loads h = [] ∧
  phase h = (if decide (accepted (stream_key s) hist = []) then pending_phase else resolved) ∧
  record h = toRecord <$> row_of (stream_key s) (accepted (stream_key s) hist).
Proof.
  intros Hr. destruct (findRecord_items (serve_posts hist) s (NoDup_serve_posts hist) Hr) as (items & Hg & Hf).
  set (t := serve_posts hist) in *.
  assert (H1 : step (EServeGet 0) (t, mount s) = (t, set_loads [Load 0 s (Some (Body items))] (mount s))).
  { change (step (EServeGet 0) (t, mount s)) with (t, set_loads [Load 0 s (Some (getAcknowledgmentsHandler toISOString t (v_recipient s)))] (mount s)).
    by rewrite Hg. }
  unfold Acknowledgments.run. cbn [foldl]. rewrite H1. cbn -[findRecord stream_key load_arrives].
  rewrite (decide_False (P := Some (Body items) = None)) by done. unfold load_arrives. cbn -[findRecord stream_key]. rewrite Hf. unfold t. rewrite upserts_spec. split; [done|]. split; [done|].
  destruct (accepted (stream_key s) hist) as [|e acc] eqn:Ea; [done|]. rewrite (decide_False (P := e :: acc = [])) by done.
  split; [|done]. cbn [phase setPhase].
  assert (Hs : settled (AckRow (stream_key s).1.1 (stream_key s).1.2 (stream_key s).2 (last_time acknowledge (e :: acc)) (last_time skip (e :: acc))
      (last_message (e :: acc)) e.1 (default e.1 (last (fst <$> e :: acc))))).
  { pose proof (settled_serve_posts hist) as Hall. rewrite Forall_forall in Hall. apply Hall.
    assert (Hrow := upserts_spec (stream_key s) hist). rewrite Ea in Hrow. by apply find_row_Some in Hrow as [? _]. }
  cbn [row_of fmap option_fmap option_map]. by rewrite pending_settled.
Qed.

(** *** The hook and the server *)

(** What a record claims is in the table. *)
Definition covers (r : ack_row) (rec : StreamAcknowledgment) : Prop :=
  (is_Some (k_acknowledged_at rec) → is_Some (acknowledged_at r)) ∧ (is_Some (k_skipped_at rec) → is_Some (skipped_at r)).
Definition kept (k : string * string * string) (t : list ack_row) (rec : StreamAcknowledgment) : Prop :=
  pending rec = false ∧ ∃ r, find_row k t = Some r ∧ covers r rec.
Lemma kept_handler k now p t rec : kept k t rec → kept k (handler now p t).2 rec.
Proof.
  intros (Hp & r & Hr & Ha & Hs). split; [done|]. rewrite handler_table. destruct (accepted_post p); [|by exists r].
  rewrite find_row_upsert. case_decide; [|by exists r]. rewrite Hr. eexists. split; [done|]. unfold covers, conflicting. simpl.
  split; case_decide; eauto.
Qed.
Lemma kept_row k t r : Forall settled t → find_row k t = Some r → kept k t (toRecord r).
Proof.
  intros Hs Hr. pose proof Hr as [Hin _]%find_row_Some. rewrite Forall_forall in Hs. split; [by apply pending_settled, Hs|].
  exists r. split; [done|]. unfold covers. simpl. by rewrite !fmap_is_Some.
Qed.

Definition good_load (k : string * string * string) (t : list ack_row) (l : load) : Prop :=
  stream_key (l_stream l) = k ∧
  ∀ items rec, l_answer l = Some (Body items) → findRecord items (l_stream l) = Some rec → kept k t rec.
Definition good_submission (k : string * string * string) (t : list ack_row) (sub : submission) : Prop :=
  stream_key (s_stream sub) = k ∧
  match s_stage sub with Posting p => post_key p = k | Answered (Body rec) => kept k t rec | _ => True end.
Record consistent (k : string * string * string) (st : list ack_row * hook) : Prop := {
  keys_ok : NoDup (row_key <$> st.1);
  settled_ok : Forall settled st.1;
  stream_ok : stream_key (stream st.2) = k;
  resolved_ok : phase st.2 = resolved → ∃ rec, record st.2 = Some rec ∧ kept k st.1 rec;
  loads_ok : Forall (good_load k st.1) (loads st.2);
  submissions_ok : Forall (good_submission k st.1) (submissions st.2) }.
(** The component shows one stream: other properties of it may change. *)
Definition one_stream (k : string * string * string) (e : event) : Prop :=
  match e with ERerender s => stream_key s = k | _ => True end.

Lemma consistent_table k now p t h : consistent k (t, h) → consistent k ((handler now p t).2, h).
Proof.
  intros [Hn Hs Hk Hr Hl Hu]. split; simpl in *; [by apply NoDup_handler|by apply settled_handler|done| | |].
  - intros Hp. destruct (Hr Hp) as (rec & ? & ?). exists rec. split; [done|]. by apply kept_handler.
  - eapply Forall_impl; [exact Hl|]. intros l [? Hi]. split; [done|]. intros items rec H1 H2. by eapply kept_handler, Hi.
  - eapply Forall_impl; [exact Hu|]. intros [s st] [? Hi]. split; [done|]. destruct st as [| |[]]; simpl in *; try done. by apply kept_handler.
Qed.
Lemma consistent_fail k t h m : consistent k (t, h) → consistent k (t, fail m h).
Proof. intros [Hn Hs Hk Hr Hl Hu]. by split. Qed.
Lemma consistent_drop k t h i : consistent k (t, h) → consistent k (t, drop_submission i h).
Proof. intros [Hn Hs Hk Hr Hl Hu]. split; simpl in *; try done. by apply Forall_delete. Qed.
Lemma consistent_insert k t h i sub : consistent k (t, h) → good_submission k t sub →
  consistent k (t, set_submissions (<[i := sub]> (submissions h)) h).
Proof. intros [Hn Hs Hk Hr Hl Hu] Hg. split; simpl in *; try done. by apply Forall_insert. Qed.

Lemma step_consistent k e st : one_stream k e → consistent k st → consistent k (step e st).
Proof.
  destruct st as [t h]. intros He Hc. pose proof Hc as [Hn Hs Hk Hr Hl Hu]. simpl in *.
  assert (Hload : ∀ i a, (∀ l items rec, loads h !! i = Some l → a = Body items → findRecord items (l_stream l) = Some rec → kept k t rec) →
    consistent k (t, set_load_answer i a h)).
  { intros i a Ha. unfold set_load_answer. destruct (loads h !! i) as [l|] eqn:Hi; [|done]. split; simpl; try done.
    apply Forall_insert; [done|]. rewrite Forall_lookup in Hl. destruct (Hl i l Hi) as [Hkl _]. split; [done|].
    simpl. intros items rec [= ->] Hf. by eapply Ha. }
  destruct e as [i|i|i|a|i r|i now|i|i|now p|s]; simpl.
  - destruct (loads h !! i) as [l|] eqn:Hi; [|done]. case_decide; [|done]. apply Hload. intros l' items rec Hl' Hb Hf. rewrite Hi in Hl'. injection Hl' as <-.
    rewrite Forall_lookup in Hl. destruct (Hl i l Hi) as [Hkl _].
    destruct (stellar_address_re (v_recipient (l_stream l))) eqn:Hst; [|unfold getAcknowledgmentsHandler in Hb; by rewrite Hst in Hb].
    destruct (findRecord_items t (l_stream l) Hn Hst) as (items' & Hb' & Hf'). rewrite Hb in Hb'. injection Hb' as <-.
    rewrite Hf' in Hf. rewrite Hkl in *. destruct (find_row k t) as [r|] eqn:E; [|done]. injection Hf as <-. by apply kept_row.
  - apply Hload. done.
  - destruct (loads h !! i) as [l|] eqn:Hi; [|done]. case_decide; [done|].
    assert (Hd : consistent k (t, set_loads (delete i (loads h)) h)) by (split; simpl; try done; by apply Forall_delete).
    unfold load_arrives. case_decide; [|done]. rewrite Forall_lookup in Hl. destruct (Hl i l Hi) as [_ Hg].
    destruct Hd as [Hn' Hs' Hk' Hr' Hl' Hu']. destruct (l_answer l) as [[|items|]|] eqn:Ea; try by split.
    split; try done. simpl. intros Hp. destruct (findRecord items (l_stream l)) as [rec|] eqn:Ef; [|done].
    exists rec. split; [done|]. by eapply Hg.
  - unfold click. destruct (enabled h) eqn:Ee; [|done]. split; simpl; try done. apply Forall_app. split; [done|].
    apply Forall_singleton. destruct a; (split; [done|]); simpl; [done|]. unfold post_key, post_of. simpl. by rewrite <-Hk.
  - unfold signed. destruct (submissions h !! i) as [[s []]|] eqn:Hi; try done. rewrite Forall_lookup in Hu. destruct (Hu i _ Hi) as [Hks _].
    destruct r as [m|m]; [|by apply consistent_fail, consistent_drop]. apply consistent_insert; [done|]. by split.
  - destruct (submissions h !! i) as [[s [|p|]]|] eqn:Hi; try done. rewrite Forall_lookup in Hu. destruct (Hu i _ Hi) as [Hks Hkp]. simpl in *.
    pose proof (consistent_table k now p t h Hc) as Hc'.
    destruct (handler now p t) as [a t'] eqn:Eh. simpl in Hc'. apply consistent_insert; [done|]. split; [done|]. simpl.
    destruct a as [|rec|]; try done. destruct (accepted_post p) eqn:Ea.
    + destruct (handler_answer now p t Ea) as (r & Hf & Hb). rewrite Eh in Hb. simpl in Hb. simplify_eq.
      pose proof (handler_table now p t) as Ht. rewrite Eh, Ea in Ht. simpl in Ht. subst t'. apply kept_row; [apply Hc'|by rewrite <-Hkp].
    + destruct (handler_refused now p t Ea) as (x & Hb). rewrite Eh in Hb. by simplify_eq/=.
  - destruct (submissions h !! i) as [[s []]|] eqn:Hi; try done; rewrite Forall_lookup in Hu; destruct (Hu i _ Hi) as [Hks _];
      by apply consistent_insert.
  - unfold post_arrives. destruct (submissions h !! i) as [[s [| |a]]|] eqn:Hi; try done. rewrite Forall_lookup in Hu.
    destruct (Hu i _ Hi) as [_ Hg]. destruct a as [|rec|]; try by apply consistent_fail, consistent_drop.
    destruct (consistent_drop k t h i Hc). split; simpl; try done. intros _. by exists rec.
  - by apply consistent_table.
  - unfold rerender. case_decide as E; [split; simpl; try done|]. destruct E. by rewrite Hk.
Qed.

(** C17. While the component shows one stream, whatever the network, the wallet
    and other visitors do: when it counts the stream as resolved and hides the
    banner, an acknowledgment or a skip of that very stream is stored, with at
    least what the record it holds says. *)
Theorem resolved_is_stored hist s es t h : Forall (one_stream (stream_key s)) es →
  run es (serve_posts hist, mount s) = (t, h) → phase h = resolved →
  ∃ rec r, record h = Some rec ∧ pending rec = false ∧ find_row (stream_key s) t = Some r ∧ settled r ∧ covers r rec.
Proof.
  intros Hes Hrun Hp.
  assert (Hc : consistent (stream_key s) (t, h)).
  { rewrite <-Hrun. unfold Acknowledgments.run.
    assert (H0 : consistent (stream_key s) (serve_posts hist, mount s)).
    { split; simpl; try done; [apply NoDup_serve_posts|apply settled_serve_posts|]. apply Forall_singleton. by split. }
    revert H0. generalize (serve_posts hist, mount s). clear Hrun. induction es as [|e es IH]; [done|]. intros st Hst. simpl.
    apply Forall_cons in Hes as [He Hes]. apply IH; [done|]. by apply step_consistent. }
  destruct Hc as [_ Hs _ Hr _ _]. simpl in *. destruct (Hr Hp) as (rec & Hrec & Hpe & r & Hf & Hcov).
  exists rec, r. split_and!; try done. rewrite Forall_forall in Hs. apply Hs. by apply find_row_Some in Hf as [? _].
Qed.
End proofs.

(** ** The message *)

Definition one_line (s : string) : bool := forallb (λ c, negb (bool_decide (c = "010"%char))) (chars s).
Definition fields (s : VestingStream) (network : string) : list string :=
  [network; v_sponsor s; v_recipient s; v_token s; v_rate s] ++
  omap (λ x : option string, x) [totalDeposit s; startLedger s; cliffLedger s; endLedger s].
Lemma one_line_app a b : one_line (a +:+ b) = one_line a && one_line b.
Proof. unfold one_line. by rewrite string_app_chars, forallb_app. Qed.
Lemma one_line_spec s : one_line s = true ↔ "010"%char ∉ chars s.
Proof.
  unfold one_line. rewrite forallb_forall. setoid_rewrite <-list_elem_of_In. split.
  - intros H Hin. by specialize (H _ Hin).
  - intros H c Hc. destruct (decide (c = "010"%char)) as [->|]; [done|]. by rewrite bool_decide_eq_false_2.
Qed.

Lemma optional_line_one_line label suffix o : one_line label = true → one_line suffix = true →
  forallb one_line (omap (λ x : option string, x) [o]) = true → forallb one_line (optional_line label suffix o) = true.
Proof. intros Hl Hx. destruct o as [v|]; [|done]. simpl. rewrite !one_line_app, Hl, Hx, !andb_true_r. done. Qed.
Lemma message_one_line s n : forallb one_line (fields s n) = true → Forall (λ l, "010"%char ∉ chars l) (message_lines s n).
Proof.
  intros Hf. apply Forall_forall. intros l Hl. apply one_line_spec. revert l Hl.
  enough (Hall : forallb one_line (message_lines s n) = true).
  { rewrite forallb_forall in Hall. intros l Hl. apply Hall. by apply list_elem_of_In. }
  unfold fields in Hf. rewrite forallb_app in Hf. cbn [forallb] in Hf.
  repeat match goal with H : _ && _ = true |- _ => apply andb_true_iff in H as [? ?] end.
  assert (Ho : ∀ o, o ∈ [totalDeposit s; startLedger s; cliffLedger s; endLedger s] → forallb one_line (omap (λ x : option string, x) [o]) = true).
  { intros [v|] Ho; [|done]. simpl. rewrite andb_true_r. rewrite forallb_forall in H0. apply H0. apply list_elem_of_In, list_elem_of_omap. by exists (Some v). }
  unfold message_lines. rewrite !forallb_app. cbn [forallb]. rewrite !one_line_app.
  repeat match goal with H : one_line _ = true |- _ => rewrite H end. simpl.
  rewrite !optional_line_one_line; try done; try (apply Ho; set_solver).
Qed.

(** What a recipient signs says everything of the stream it names: two
    messages are equal only for the same network, sponsor, recipient, token,
    rate, deposit and ledgers, when no field spans lines. *)
Theorem message_binds s n s' n' :
  forallb one_line (fields s n) = true → forallb one_line (fields s' n') = true →
  buildAcknowledgmentMessage s n = buildAcknowledgmentMessage s' n' → s = s' ∧ n = n'.
Proof.
  intros Hs%message_one_line Hs'%message_one_line Heq. apply (f_equal (split_on "010")) in Heq.
  unfold buildAcknowledgmentMessage, newline in Heq. rewrite !split_on_concat in Heq by done. clear Hs Hs'.
  destruct s as [r sp t ra td sl cl el], s' as [r' sp' t' ra' td' sl' cl' el']. unfold message_lines in Heq. cbn -[String.append] in Heq.
  injection Heq as Hn Hsp Hr Ht Hra Hrest.
  apply string_app_inj_l in Hn, Hsp, Hr, Ht. apply string_app_inj_l, string_app_inj_r in Hra. subst. split; [|done].
  assert (td = td' ∧ sl = sl' ∧ cl = cl' ∧ el = el') as (-> & -> & -> & ->); [|done].
  destruct td, td', sl, sl', cl, cl', el, el'; cbn -[String.append] in Hrest; try discriminate Hrest; try (injection Hrest; intros); try discriminate.
  all: repeat match goal with H : _ +:+ _ = _ +:+ _ |- _ => apply string_app_inj_l in H; try apply string_app_inj_r in H end; subst; done.
Qed.

(** ** Another stream *)

Definition demo_sponsor : string := "GAAAAAAAAAAAAAAAAAAAAAAAAAAAAAAAAAAAAAAAAAAAAAAAAAAAAAAA".
Definition demo_recipient : string := "GBBBBBBBBBBBBBBBBBBBBBBBBBBBBBBBBBBBBBBBBBBBBBBBBBBBBBBB".
Definition demo_stream (token : string) : VestingStream := Stream demo_recipient demo_sponsor token "5" (Some "100") None (Some "7") None.
Notation demo_run := (run Z_to_string (λ _, true) (λ _, true) (λ _, None) "Failed to fetch").
(** The answer for the stream that was shown before arrives after the component
    has moved on to another one, and loaded that it is pending. *)
Definition late_answer : list event :=
  [EServeGet 0; EGetArrives 0; EClick acknowledge; ESigned 0 (inl "sig"); EServePost 0 5; ERerender (demo_stream "EURC");
   EServeGet 0; EGetArrives 0; EPostArrives 0].
(** With several streams the banner can hide one that nobody answered for:
    the answer for the stream shown before counts for the one shown now. *)
Theorem resolved_for_another_stream :
  let '(t, h) := demo_run late_answer ([], mount (demo_stream "USDC")) in
  stream h = demo_stream "EURC" ∧ phase h = resolved ∧ find_row (stream_key (demo_stream "EURC")) t = None ∧
  (k_token <$> record h) = Some "USDC".
Proof. vm_compute. done. Qed.

(** ** Witnesses *)

Definition demo_hist : list (Z * post) :=
  [(3, post_of (demo_stream "USDC") skip None); (9, Post "GX" "GX" "T" skip None); (12, post_of (demo_stream "USDC") acknowledge (Some "sig"))].
Example demo_hist_row :
  find_row (stream_key (demo_stream "USDC")) (serve_posts Z_to_string (λ _, true) (λ _, true) (λ _, None) demo_hist) =
  Some (AckRow demo_recipient demo_sponsor "USDC" (Some 12) (Some 3) (Some "sig") 3 12).
Proof. vm_compute. reflexivity. Qed.

Lemma reload_reflects_history_witness :
  stellar_address_re (v_recipient (demo_stream "USDC")) = true ∧
  phase (demo_run [EServeGet 0; EGetArrives 0] (serve_posts Z_to_string (λ _, true) (λ _, true) (λ _, None) demo_hist, mount (demo_stream "USDC"))).2 = resolved.
Proof.
  split; [vm_compute; reflexivity|].
  pose proof (reload_reflects_history Z_to_string (λ _, true) (λ _, true) (λ _, None) "Failed to fetch" demo_hist (demo_stream "USDC") eq_refl) as H.
  destruct (demo_run _ _) as [t h]. destruct H as (_ & _ & H & _). simpl. rewrite H. vm_compute. reflexivity.
Defined.

Definition demo_events : list event :=
  [EServeGet 0; EGetArrives 0; EClick skip; EPostLost 0; EPostArrives 0; EClick acknowledge; ESigned 0 (inl "sig"); EServePost 0 5; EPostArrives 0].
Lemma resolved_is_stored_witness :
  Forall (one_stream (stream_key (demo_stream "USDC"))) demo_events ∧
  phase (demo_run demo_events (serve_posts Z_to_string (λ _, true) (λ _, true) (λ _, None) [], mount (demo_stream "USDC"))).2 = resolved ∧
  ∃ r, find_row (stream_key (demo_stream "USDC"))
    (demo_run demo_events (serve_posts Z_to_string (λ _, true) (λ _, true) (λ _, None) [], mount (demo_stream "USDC"))).1 = Some r ∧ settled r.
Proof.
  assert (H1 : Forall (one_stream (stream_key (demo_stream "USDC"))) demo_events) by repeat constructor.
  split; [exact H1|]. split; [vm_compute; reflexivity|].
  destruct (resolved_is_stored Z_to_string (λ _, true) (λ _, true) (λ _, None) "Failed to fetch" [] (demo_stream "USDC") demo_events _ _ H1
    (surjective_pairing _)) as (rec & r & _ & _ & Hr & Hs & _); [vm_compute; reflexivity|].
  exists r. split; [exact Hr|exact Hs].
Defined.

Lemma message_binds_witness :
  forallb one_line (fields (demo_stream "USDC") "testnet") = true ∧
  buildAcknowledgmentMessage (demo_stream "USDC") "testnet" ≠ buildAcknowledgmentMessage (demo_stream "EURC") "testnet".
Proof.
  split; [vm_compute; reflexivity|]. intros H.
  destruct (message_binds (demo_stream "USDC") "testnet" (demo_stream "EURC") "testnet") as [E _];
    [vm_compute; reflexivity..|exact H|discriminate E].
Defined.
