(* ===== verification/SessionTimeout.v ===== *)
(** * The session timeout

    [frontend/src/hooks/useSessionTimeout.ts] and
    [components/SessionTimeoutProvider.tsx]: the three timers, the activity
    listener and the effect that installs them, with the renders in between.  A
    state update is rendered, and its effects run, before the next timer or user
    event; an update that changes nothing is not rendered, as React documents. *)
From S2P Require Import Prelude.
#[local] Open Scope Z_scope.

(** ** State *)

Record SessionTimeoutConfig := Config { inactivityMs : Z; warningDurationMs : Z; enabled : bool }.
Definition DEFAULT_INACTIVITY_MS : Z := 20 * 60 * 1000.
Definition DEFAULT_WARNING_DURATION_MS : Z := 10 * 60 * 1000.
Definition provider_config : SessionTimeoutConfig := Config (20 * 60 * 1000) (10 * 60 * 1000) true.

(** The timers hold the time they fire; the countdown also what remains. *)
Record hook := Hook {
  lastActivity : Z;
  inactivity : option Z;
  warning : option Z;
  countdown : option (Z * Z);
  isWarning : bool;
  timeRemaining : Z;
  rendered : bool * Z;            (* what the last render read of the two states *)
  listener : option bool;         (* [isWarning] as the installed listener captured it *)
  warned : nat;
  expired : nat }.

Definition set_inactivity (t : option Z) (h : hook) : hook :=
  Hook (lastActivity h) t (warning h) (countdown h) (isWarning h) (timeRemaining h) (rendered h) (listener h) (warned h) (expired h).
Definition set_warning_timer (t : option Z) (h : hook) : hook :=
  Hook (lastActivity h) (inactivity h) t (countdown h) (isWarning h) (timeRemaining h) (rendered h) (listener h) (warned h) (expired h).
Definition set_countdown (t : option (Z * Z)) (h : hook) : hook :=
  Hook (lastActivity h) (inactivity h) (warning h) t (isWarning h) (timeRemaining h) (rendered h) (listener h) (warned h) (expired h).
Definition setIsWarning (b : bool) (h : hook) : hook :=
  Hook (lastActivity h) (inactivity h) (warning h) (countdown h) b (timeRemaining h) (rendered h) (listener h) (warned h) (expired h).
Definition setTimeRemaining (t : Z) (h : hook) : hook :=
  Hook (lastActivity h) (inactivity h) (warning h) (countdown h) (isWarning h) t (rendered h) (listener h) (warned h) (expired h).
Definition set_rendered (r : bool * Z) (h : hook) : hook :=
  Hook (lastActivity h) (inactivity h) (warning h) (countdown h) (isWarning h) (timeRemaining h) r (listener h) (warned h) (expired h).
Definition set_listener (l : option bool) (h : hook) : hook :=
  Hook (lastActivity h) (inactivity h) (warning h) (countdown h) (isWarning h) (timeRemaining h) (rendered h) l (warned h) (expired h).
Definition touch (now : Z) (h : hook) : hook :=
  Hook now (inactivity h) (warning h) (countdown h) (isWarning h) (timeRemaining h) (rendered h) (listener h) (warned h) (expired h).
Definition onWarning (h : hook) : hook :=
  Hook (lastActivity h) (inactivity h) (warning h) (countdown h) (isWarning h) (timeRemaining h) (rendered h) (listener h) (S (warned h)) (expired h).
Definition onExpire (h : hook) : hook :=
  Hook (lastActivity h) (inactivity h) (warning h) (countdown h) (isWarning h) (timeRemaining h) (rendered h) (listener h) (warned h) (S (expired h)).

Section hook.
Context (cfg : SessionTimeoutConfig).

Definition clear_timers (h : hook) : hook := set_countdown None (set_warning_timer None (set_inactivity None h)).
Definition resetActivity (now : Z) (h : hook) : hook :=
  let h := clear_timers (setTimeRemaining (warningDurationMs cfg) (setIsWarning false (touch now h))) in
  if enabled cfg then set_inactivity (Some (now + inactivityMs cfg)) h else h.
Definition dismiss : Z → hook → hook := resetActivity.

(** *** The timers *)

Definition inactivity_fires (now : Z) (h : hook) : hook :=
  set_warning_timer (Some (now + warningDurationMs cfg))
    (set_countdown (Some (now + 1000, warningDurationMs cfg)) (onWarning (setIsWarning true (set_inactivity None h)))).
Definition countdown_ticks (now remaining : Z) (h : hook) : hook :=
  let remaining := remaining - 1000 in
  setTimeRemaining (Z.max 0 remaining) (set_countdown (Some (now + 1000, remaining)) h).
Definition warning_fires (h : hook) : hook := onExpire (setIsWarning false (set_countdown None (set_warning_timer None h))).

(** *** The effect *)

Definition handleActivity (now : Z) (h : hook) : hook :=
  match listener h with Some false => resetActivity now h | _ => h end.
Definition install (now : Z) (h : hook) : hook :=
  if enabled cfg then resetActivity now (set_listener (Some (fst (rendered h))) h) else h.
Definition cleanup (h : hook) : hook := if enabled cfg then set_listener None (clear_timers h) else h.

(** A render of new state; [fresh]: a dependency other than [isWarning] is a new
    object at every render, such as the default [activityEvents] array. *)
Definition render (fresh : bool) (now : Z) (h : hook) : hook :=
  let before := rendered h in
  let h := set_rendered (isWarning h, timeRemaining h) h in
  if fresh || negb (bool_decide (isWarning h = fst before)) then install now (cleanup h) else h.
(** Renders until nothing changes. *)
Fixpoint settle (fuel : nat) (fresh : bool) (now : Z) (h : hook) : hook :=
  match fuel with
  | O => h
  | S fuel => if decide (rendered h = (isWarning h, timeRemaining h)) then h else settle fuel fresh now (render fresh now h)
  end.

Definition mount (now : Z) : hook :=
  install now (Hook now None None None false (warningDurationMs cfg) (false, warningDurationMs cfg) None 0 0).

Inductive event := ETimeInactivity | ETimeWarning | ETimeCountdown | EActivity | EDismiss | EParentRender.
(** A timer fires at its time or later. *)
Definition step (fresh : bool) (now : Z) (e : event) (h : hook) : hook :=
  let h :=
    match e with
    | ETimeInactivity => match inactivity h with Some t => if t <=? now then inactivity_fires now h else h | None => h end
    | ETimeWarning => match warning h with Some t => if t <=? now then warning_fires h else h | None => h end
    | ETimeCountdown => match countdown h with Some (t, r) => if t <=? now then countdown_ticks now r h else h | None => h end
    | EActivity => handleActivity now h
    | EDismiss => dismiss now h
    | EParentRender => render fresh now h
    end in
  settle 3 fresh now h.
Definition run (fresh : bool) (h : hook) (es : list (Z * event)) : hook := foldl (λ h e, step fresh (fst e) (snd e) h) h es.
End hook.

(** ** Proofs *)

(** Between two events no warning is up and the expiry timer is not armed. *)
Record quiet (cfg : SessionTimeoutConfig) (h : hook) : Prop := {
  q_warning : isWarning h = false;
  q_time : timeRemaining h = warningDurationMs cfg;
  q_rendered : rendered h = (false, warningDurationMs cfg);
  q_timer : warning h = None ∧ countdown h = None;
  q_listener : listener h = if enabled cfg then Some false else None;
  q_inactivity : inactivity h = if enabled cfg then Some (lastActivity h + inactivityMs cfg) else None;
  q_expired : expired h = 0%nat }.
Lemma quiet_mount cfg now : quiet cfg (mount cfg now).
Proof. unfold mount, install, resetActivity. destruct (enabled cfg) eqn:E; split; simpl; rewrite ?E; done. Qed.
Lemma quiet_settle cfg n fresh now h : quiet cfg h → settle cfg n fresh now h = h.
Proof. intros [H1 H2 H3 _ _ _ _]. destruct n; [done|]. simpl. rewrite H1, H2, H3. by rewrite decide_True. Qed.
Lemma settle_changed cfg n fresh now h : rendered h ≠ (isWarning h, timeRemaining h) →
  settle cfg (S n) fresh now h = settle cfg n fresh now (render cfg fresh now h).
Proof. intros Hn. simpl. by rewrite decide_False. Qed.
Lemma quiet_reset cfg now h : quiet cfg h → quiet cfg (resetActivity cfg now h).
Proof.
  intros [H1 H2 H3 [H4 H5] H6 H7 H8]. unfold resetActivity. destruct (enabled cfg) eqn:E; split; simpl; rewrite ?E; auto.
Qed.
Lemma quiet_install cfg now h : quiet cfg h → quiet cfg (install cfg now (cleanup cfg (set_rendered (isWarning h, timeRemaining h) h))).
Proof.
  intros [H1 H2 H3 [H4 H5] H6 H7 H8]. unfold install, cleanup, resetActivity. destruct (enabled cfg) eqn:E; split; simpl; rewrite ?E, ?H1, ?H2; auto.
Qed.
Lemma quiet_step cfg fresh now e h : quiet cfg h → quiet cfg (step cfg fresh now e h).
Proof.
  intros Hq. pose proof Hq as [H1 H2 H3 [H4 H5] H6 H7 H8]. unfold step. destruct e.
  - destruct (inactivity h) as [t|] eqn:Ei; [|by rewrite quiet_settle].
    destruct (t <=? now); [|by rewrite quiet_settle].
    destruct (enabled cfg) eqn:E; [|done].
    rewrite settle_changed by (cbn; congruence).
    assert (render cfg fresh now (inactivity_fires cfg now h) =
      Hook now (Some (now + inactivityMs cfg)) None None false (warningDurationMs cfg) (true, timeRemaining h) (Some true) (S (warned h)) (expired h)) as ->.
    { unfold render, inactivity_fires, install, cleanup, resetActivity. cbn. rewrite H3, E, orb_true_r. done. }
    rewrite settle_changed by (cbn; congruence).
    rewrite quiet_settle; unfold render, install, cleanup, resetActivity; cbn; rewrite orb_true_r, E; split; cbn; rewrite ?E; done.
  - rewrite H4. by rewrite quiet_settle.
  - rewrite H5. by rewrite quiet_settle.
  - unfold handleActivity. destruct (listener h) as [[]|] eqn:El; try by rewrite quiet_settle. rewrite quiet_settle; by apply quiet_reset.
  - rewrite quiet_settle; by apply quiet_reset.
  - unfold render. cbn zeta. destruct (fresh || _) eqn:Ef.
    + rewrite quiet_settle; by apply quiet_install.
    + assert (Hh : quiet cfg (set_rendered (isWarning h, timeRemaining h) h)) by (split; simpl; rewrite ?H1, ?H2; auto).
      by rewrite quiet_settle.
Qed.

(** The session never expires: whatever the user does or leaves undone,
    however long, and however the caller passes the callbacks, [onExpire] is
    never called and the warning never stays, because showing it changes a
    dependency of the effect, whose clean-up clears the timers and whose set-up
    starts the inactivity period again. *)
Theorem session_never_expires cfg fresh t es :
  let h := run cfg fresh (mount cfg t) es in
  expired h = 0%nat ∧ warning h = None ∧ isWarning h = false ∧ timeRemaining h = warningDurationMs cfg.
Proof.
  assert (Hq : quiet cfg (run cfg fresh (mount cfg t) es)).
  { unfold run. generalize (quiet_mount cfg t). generalize (mount cfg t). induction es as [|[now e] es IH]; [done|].
    intros h Hh. simpl. apply IH. by apply quiet_step. }
  destruct Hq as [H1 H2 _ [H4 _] _ _ H8]. done.
Qed.

(** Three hours without any activity: the warning has come and gone nine
    times. *)
Example unattended :
  let minutes := List.map (λ k, (Z.of_nat k * 60000, ETimeInactivity)) (seq 1 180) in
  let h := run provider_config true (mount provider_config 0) (flat_map (λ p, [p; (fst p, ETimeWarning); (fst p, ETimeCountdown)]) minutes) in
  (warned h, expired h) = (9%nat, 0%nat).
Proof. vm_compute. reflexivity. Qed.
