(* ===== verification/ClaimableAmount.v ===== *)
(** * The claimable amount on the page

    [frontend/src/hooks/useClaimableAmount.ts] and the request it makes: the
    polling chains, each of which reschedules itself with the closure it started
    with, as a transition system of answers, timers, refreshes, changes of
    recipient and removal of the component. *)
From stdpp Require Import list.
From S2P Require Import Prelude.
#[local] Open Scope Z_scope.

(** ** The hook *)

(** [claimable_amount ?? amount ?? 0] *)
Definition body_amount (claimable_amount amount : option Z) : Z := default (default 0 amount) claimable_amount.

(** The timer and the polls in flight hold the recipient of the closure that
    started them; [isMounted] is the shared ref, [gone] whether the component
    was removed. *)
Record hook := Hook {
  recipient : string;
  isMounted : bool;
  gone : bool;
  amount : option Z;
  loading : bool;
  error : option string;
  lastUpdated : option Z;
  timer : option string;
  polls : list string }.

Definition set_timer (t : option string) (h : hook) : hook :=
  Hook (recipient h) (isMounted h) (gone h) (amount h) (loading h) (error h) (lastUpdated h) t (polls h).
Definition set_polls (l : list string) (h : hook) : hook :=
  Hook (recipient h) (isMounted h) (gone h) (amount h) (loading h) (error h) (lastUpdated h) (timer h) l.
Definition setLoading (b : bool) (h : hook) : hook :=
  Hook (recipient h) (isMounted h) (gone h) (amount h) b (error h) (lastUpdated h) (timer h) (polls h).
Definition succeeded (now v : Z) (h : hook) : hook :=
  Hook (recipient h) (isMounted h) (gone h) (Some v) (loading h) None (Some now) (timer h) (polls h).
Definition failed (m : string) (h : hook) : hook :=
  Hook (recipient h) (isMounted h) (gone h) (amount h) (loading h) (Some m) (lastUpdated h) (timer h) (polls h).

(** [scheduleNext] of the closure for [r]: it replaces whatever timer is armed. *)
Definition scheduleNext (r : string) : hook → hook := set_timer (Some r).
(** [poll().then(scheduleNext)]; without a recipient the poll is over at once. *)
Definition start_poll (r : string) (h : hook) : hook :=
  if decide (r = "") then scheduleNext r (setLoading false h) else set_polls (polls h ++ [r]) h.
Definition answered (now : Z) (i : nat) (res : Z + string) (h : hook) : hook :=
  match polls h !! i with
  | None => h
  | Some r =>
      let h := set_polls (delete i (polls h)) h in
      let h := if isMounted h then setLoading false (match res with inl v => succeeded now v h | inr m => failed m h end) else h in
      scheduleNext r h
  end.
Definition timer_fires (hidden : bool) (h : hook) : hook :=
  match timer h with
  | None => h
  | Some r => if hidden then scheduleNext r h else start_poll r (set_timer None h)
  end.
(** The tab becomes visible, or [refresh]. *)
Definition refresh (h : hook) : hook := if gone h then h else start_poll (recipient h) (set_timer None h).
Definition effect (r : string) (h : hook) : hook :=
  start_poll r (Hook r true (gone h) None true None (lastUpdated h) None (polls h)).
Definition rerender (r : string) (h : hook) : hook := if decide (r = recipient h) then h else effect r h.
Definition unmount (h : hook) : hook :=
  Hook (recipient h) false true (amount h) (loading h) (error h) (lastUpdated h) None (polls h).
Definition mount (r : string) : hook := effect r (Hook r true false None true None None None []).

Inductive event :=
| EAnswer (now : Z) (i : nat) (res : Z + string) | ETimer (hidden : bool) | ERefresh | ERerender (r : string) | EUnmount.
Definition step (h : hook) (e : event) : hook :=
  match e with
  | EAnswer now i res => answered now i res h
  | ETimer hidden => timer_fires hidden h
  | ERefresh => refresh h
  | ERerender r => rerender r h
  | EUnmount => unmount h
  end.
Definition run (h : hook) (es : list event) : hook := foldl step h es.
(** The answers as they arrive, each with the recipient it was asked for. *)
Fixpoint arrivals (h : hook) (es : list event) : list (string * (Z + string)) :=
  match es with
  | [] => []
  | e :: es =>
      match e with
      | EAnswer _ i res => match polls h !! i with Some r => [(r, res)] | None => [] end
      | _ => []
      end ++ arrivals (step h e) es
  end.

(** ** Proofs *)

(** The polling never stops while the component is there: after any
    answers, timers, refreshes and changes of recipient, a poll is in flight or
    the timer is armed. *)
Theorem polling_alive r es : Forall (λ e, e ≠ EUnmount) es →
  let h := run (mount r) es in polls h ≠ [] ∨ is_Some (timer h).
Proof.
  intros Hes. assert (Hp : ∀ r h, polls (start_poll r h) ≠ [] ∨ is_Some (timer (start_poll r h))).
  { intros r' h. unfold start_poll. case_decide; [right; by eexists|left]. simpl. by destruct (polls h). }
  assert (H0 : polls (mount r) ≠ [] ∨ is_Some (timer (mount r))) by apply Hp.
  unfold run. revert H0. generalize (mount r). induction es as [|e es IH]; [done|]. intros h Hh.
  apply Forall_cons in Hes as [He Hes]. simpl. apply IH; [done|]. destruct e as [now i res|hidden| |r'|]; simpl; try done.
  - unfold answered. destruct (polls h !! i); [|done]. right. by eexists.
  - unfold timer_fires. destruct (timer h) as [r'|] eqn:E; [|by rewrite E]. destruct hidden; [right; by eexists|apply Hp].
  - unfold refresh. destruct (gone h); [done|apply Hp].
  - unfold rerender. case_decide; [done|apply Hp].
Qed.

Definition success (a : string * (Z + string)) : option Z := match a.2 with inl v => Some v | inr _ => None end.
Definition last_error (l : list (string * (Z + string))) : option string :=
  match last l with Some (_, inr m) => Some m | _ => None end.
Record follows (r : string) (l : list (string * (Z + string))) (h : hook) : Prop := {
  f_recipient : recipient h = r;
  f_mounted : isMounted h = true ∧ gone h = false;
  f_amount : amount h = last (omap success l);
  f_error : error h = last_error l;
  f_loading : loading h = bool_decide (l = []);
  f_polls : Forall (λ p, p = r) (polls h) ∧ (∀ t, timer h = Some t → t = r) }.
Lemma start_poll_follows r l h : r ≠ "" → follows r l h → follows r l (start_poll r (set_timer None h)).
Proof.
  intros Hr [H1 H2 H3 H4 H5 [H6 H7]]. unfold start_poll. rewrite decide_False by done. split; simpl; try done.
  split; [|done]. apply Forall_app. split; [done|]. by apply Forall_singleton.
Qed.
(** What is shown for one recipient is what its answers say: the amount is
    the last one that was answered, the error that of the last answer, if it
    failed, and "loading" lasts until the first answer; every answer is one for
    that recipient. *)
Theorem display_spec r es : r ≠ "" → Forall (λ e, match e with EUnmount => False | ERerender r' => r' = r | _ => True end) es →
  let l := arrivals (mount r) es in
  let h := run (mount r) es in
  amount h = last (omap success l) ∧ error h = last_error l ∧ loading h = bool_decide (l = []) ∧ Forall (λ a, a.1 = r) l.
Proof.
  intros Hr Hes.
  enough (G : ∀ l0 h, follows r l0 h → follows r (l0 ++ arrivals h es) (run h es) ∧ Forall (λ a, a.1 = r) (arrivals h es)).
  { destruct (G [] (mount r)) as [[] ?]; [|done].
    unfold mount, effect, start_poll. rewrite decide_False by done. split; simpl; try done. split; [|done]. by apply Forall_singleton. }
  induction es as [|e es IH]; intros l0 h Hf; [by rewrite app_nil_r|].
  apply Forall_cons in Hes as [He Hes]. specialize (IH Hes). cbn [arrivals]. change (run h (e :: es)) with (run (step h e) es).
  pose proof Hf as [H1 [H2 H2'] H3 H4 H5 [H6 H7]].
  destruct e as [now i res|hidden| |r'|]; simpl in He |- *; try done.
  - unfold answered. destruct (polls h !! i) as [r'|] eqn:Hi; [|by apply IH].
    assert (r' = r) as -> by (rewrite Forall_lookup in H6; by apply (H6 i)).
    rewrite (assoc_L (++)). cbn [app].
    assert (Hf' : follows r (l0 ++ [(r, res)]) (scheduleNext r (if isMounted h then setLoading false (match res with
      inl v => succeeded now v (set_polls (delete i (polls h)) h) | inr m => failed m (set_polls (delete i (polls h)) h) end)
      else set_polls (delete i (polls h)) h))).
    { rewrite H2. destruct res as [v|m]; split; simpl; try done; rewrite ?omap_app; simpl; rewrite ?last_snoc, ?app_nil_r; try done.
      all: try by (unfold last_error; rewrite last_snoc).
      all: try (rewrite bool_decide_eq_false_2; [done|by destruct l0]).
      all: split; [by apply Forall_delete|by intros t [= <-]]. }
    destruct (IH _ _ Hf') as [Ha Hb]. split; [exact Ha|]. by constructor.
  - unfold timer_fires. destruct (timer h) as [t|] eqn:Ht; [|by apply IH]. rewrite (H7 t) by done. destruct hidden.
    + apply IH. split; simpl; try done. split; [done|by intros ? [= <-]].
    + apply IH. by apply start_poll_follows.
  - apply IH. unfold refresh. rewrite H2', H1. by apply start_poll_follows.
  - subst r'. apply IH. unfold rerender. by rewrite decide_True by done.
Qed.

(** A change of recipient while a poll is in flight can leave the old
    recipient on display for good: its answer arrives, is shown, and its chain
    replaces the timer of the new one, so that only the old one is polled from
    then on. *)
Theorem old_recipient_takes_over v w :
  let h := run (mount "old") [ERerender "new"; EAnswer 1 1 (inl v); EAnswer 2 0 (inl w)] in
  recipient h = "new" ∧ amount h = Some w ∧ polls h = [] ∧ timer h = Some "old".
Proof. done. Qed.
(** A poll in flight when the component goes away starts a timer that is never
    cleared: the polling goes on. *)
Theorem polling_survives_unmount v :
  let h := run (mount "r") [EUnmount; EAnswer 1 0 (inl v); ETimer false] in gone h = true ∧ polls h = ["r"].
Proof. done. Qed.

Lemma polling_alive_witness : Forall (λ e, e ≠ EUnmount) [EAnswer 1 0 (inr "HTTP 500"); ETimer true; ERerender "b"] ∧
  is_Some (last (polls (run (mount "a") [EAnswer 1 0 (inr "HTTP 500"); ETimer true; ERerender "b"]))).
Proof.
  assert (H : Forall (λ e, e ≠ EUnmount) [EAnswer 1 0 (inr "HTTP 500"); ETimer true; ERerender "b"]) by (repeat (apply Forall_cons_2; [done|]); apply Forall_nil_2).
  split; [exact H|]. destruct (polling_alive "a" _ H) as [Hp|[t Ht]]; [by eexists|discriminate Ht].
Defined.
Lemma display_spec_witness :
  let es := [EAnswer 1 0 (inl 5); ETimer false; ERefresh; EAnswer 2 1 (inl 7); EAnswer 3 0 (inr "HTTP 500")] in
  amount (run (mount "a") es) = Some 7 ∧ error (run (mount "a") es) = Some "HTTP 500".
Proof.
  destruct (display_spec "a" [EAnswer 1 0 (inl 5); ETimer false; ERefresh; EAnswer 2 1 (inl 7); EAnswer 3 0 (inr "HTTP 500")])
    as (H1 & H2 & _ & _); [done|repeat (apply Forall_cons_2; [done|]); apply Forall_nil_2|]. split; [rewrite H1|rewrite H2]; reflexivity.
Defined.
