(* ===== verification/WalletBalances.v ===== *)
(** * The balances of the wallet

    [frontend/src/hooks/useWalletBalances.ts]: the mapping of Horizon balances
    and the hook as a transition system of effects, requests in flight and the
    refresh timer. *)
From stdpp Require Import list.
From S2P Require Import Prelude.
#[local] Open Scope Z_scope.

(** ** The hook *)

Inductive asset_type := native | credit_alphanum4 | credit_alphanum12 | liquidity_pool_shares.
#[global] Instance asset_type_eq_dec : EqDecision asset_type.
Proof. solve_decision. Defined.
(** A missing code or issuer prints as [undefined]. *)
Record HorizonBalance := Horizon { kind : asset_type; asset_code : option string; asset_issuer : option string; balance : string }.
Record WalletBalance := Wallet { assetCode : option string; contractAddress : string; w_balance : string }.
Definition text_of_option (o : option string) : string := default "undefined" o.
Definition map_balance (b : HorizonBalance) : WalletBalance :=
  if decide (kind b = native) then Wallet (Some "XLM") "native" (balance b)
  else Wallet (asset_code b) (text_of_option (asset_code b) +:+ ":" +:+ text_of_option (asset_issuer b)) (balance b).
Definition mapHorizonBalances (raw : list HorizonBalance) : list WalletBalance :=
  map_balance <$> filter (λ b, kind b ≠ liquidity_pool_shares) raw.

(** A request in flight: the effect that made it and its address.  A later
    effect has a larger number; [cancelled] is whether it is not the current. *)
Record hook := Hook {
  address : option string;
  effect : nat;
  armed : bool;
  balances : list WalletBalance;
  loading : bool;
  error : option string;
  requests : list (nat * string) }.
Definition put (bs : list WalletBalance) (l : bool) (e : option string) (h : hook) : hook :=
  Hook (address h) (effect h) (armed h) bs l e (requests h).
Definition set_requests (l : list (nat * string)) (h : hook) : hook :=
  Hook (address h) (effect h) (armed h) (balances h) (loading h) (error h) l.
Definition fetchBalances (a : string) (h : hook) : hook :=
  set_requests (requests h ++ [(effect h, a)]) (put (balances h) true None h).
(** The effect, after the clean-up of the one before it; an empty address is
    like none. *)
Definition run_effect (a : option string) (h : hook) : hook :=
  match a with
  | Some a =>
      if truthy a then fetchBalances a (Hook (Some a) (S (effect h)) true (balances h) (loading h) (error h) (requests h))
      else Hook (Some a) (S (effect h)) false [] (loading h) None (requests h)
  | None => Hook None (S (effect h)) false [] (loading h) None (requests h)
  end.
Definition rerender (a : option string) (h : hook) : hook := if decide (a = address h) then h else run_effect a h.
(** [refresh] bumps the tick, another dependency. *)
Definition refresh (h : hook) : hook := run_effect (address h) h.
Definition timer (h : hook) : hook :=
  match address h with Some a => if armed h then fetchBalances a h else h | None => h end.
Definition answered (i : nat) (res : list HorizonBalance + string) (h : hook) : hook :=
  match requests h !! i with
  | None => h
  | Some (e, _) =>
      let h := set_requests (delete i (requests h)) h in
      if decide (e = effect h) then
        match res with
        | inl raw => put (mapHorizonBalances raw) false (error h) h
        | inr m => put (balances h) false (Some m) h
        end
      else h
  end.
Definition mount (a : option string) : hook := run_effect a (Hook a 0 false [] false None []).

Inductive event := EAnswer (i : nat) (res : list HorizonBalance + string) | ETimer | ERefresh | ERerender (a : option string).
Definition step (h : hook) (e : event) : hook :=
  match e with
  | EAnswer i res => answered i res h
  | ETimer => timer h
  | ERefresh => refresh h
  | ERerender a => rerender a h
  end.
Definition run (h : hook) (es : list event) : hook := foldl step h es.

(** ** Proofs *)

(** What was answered for an address. *)
Fixpoint answers_for (a : string) (h : hook) (es : list event) : list (list WalletBalance) :=
  match es with
  | [] => []
  | e :: es =>
      match e with
      | EAnswer i (inl raw) => match requests h !! i with Some (_, a') => if decide (a' = a) then [mapHorizonBalances raw] else [] | None => [] end
      | _ => []
      end ++ answers_for a (step h e) es
  end.
Definition request_ok (h : hook) (q : nat * string) : Prop := (q.1 ≤ effect h)%nat ∧ (q.1 = effect h → address h = Some q.2 ∧ truthy q.2 = true).
Lemma step_requests h e : Forall (request_ok h) (requests h) ∧ (armed h = true → ∃ a, address h = Some a ∧ truthy a = true) →
  Forall (request_ok (step h e)) (requests (step h e)) ∧ (armed (step h e) = true → ∃ a, address (step h e) = Some a ∧ truthy a = true).
Proof.
  intros [Hq Ha].
  assert (Hold : ∀ h', (effect h < effect h')%nat → Forall (request_ok h') (requests h)).
  { intros h' Hlt. eapply Forall_impl; [exact Hq|]. intros [n a] [Hn _]. unfold request_ok. simpl in *. split; [lia|lia]. }
  assert (Heff : ∀ a, Forall (request_ok (run_effect a h)) (requests (run_effect a h)) ∧
    (armed (run_effect a h) = true → ∃ b, address (run_effect a h) = Some b ∧ truthy b = true)).
  { intros [a|]; unfold run_effect; [destruct (truthy a) eqn:Et|]; simpl; (split; [|try done]).
    - apply Forall_app. split; [apply Hold; simpl; lia|]. apply Forall_singleton. split; [done|]. done.
    - intros _. by exists a.
    - apply Hold. simpl. lia.
    - apply Hold. simpl. lia. }
  destruct e as [i res| | |a]; simpl.
  - unfold answered. destruct (requests h !! i) as [[n a]|]; [|done].
    assert (Hd : Forall (request_ok h) (delete i (requests h))) by by apply Forall_delete.
    simpl. case_decide; [|done]. destruct res; done.
  - unfold timer. destruct (address h) as [a|] eqn:Ea; [|by rewrite Ea]. destruct (armed h) eqn:Er; [|by rewrite Ea, Er].
    split; [|by intros _; simpl; rewrite Ea; apply Ha]. simpl. destruct (Ha eq_refl) as (b & Hb & Ht). simplify_eq.
    apply Forall_app. split; [done|]. apply Forall_singleton. by split.
  - apply Heff.
  - unfold rerender. case_decide; [done|apply Heff].
Qed.

(** While one address is connected, what is shown of it is what Horizon
    answered for that very address: nothing yet, or one of the answers, however
    refreshes, the timer and failures interleave. *)
Theorem balances_of_address a es : truthy a = true → Forall (λ e, match e with ERerender a' => a' = Some a | _ => True end) es →
  let h := run (mount (Some a)) es in balances h = [] ∨ balances h ∈ answers_for a (mount (Some a)) es.
Proof.
  intros Hta Hes. enough (G : ∀ h, Forall (request_ok h) (requests h) ∧ (armed h = true → ∃ b, address h = Some b ∧ truthy b = true) → address h = Some a →
    balances (run h es) = balances h ∨ balances (run h es) ∈ answers_for a h es).
  { assert (Hm : mount (Some a) = Hook (Some a) 1 true [] true None [(1%nat, a)]) by (unfold mount, run_effect; by rewrite Hta).
    rewrite Hm. apply G; [|done]. split; [|by exists a]. apply Forall_singleton. by split. }
  induction es as [|e es IH]; intros h Hh Ha; [by left|]. apply Forall_cons in Hes as [He Hes].
  change (run h (e :: es)) with (run (step h e) es). cbn [answers_for].
  assert (Ha' : address (step h e) = Some a).
  { destruct e as [i res| | |a']; simpl.
    - unfold answered. destruct (requests h !! i) as [[n b]|]; [|done]. simpl. case_decide; [|done]. by destruct res.
    - unfold timer. rewrite Ha. by destruct (armed h).
    - unfold refresh, run_effect. rewrite Ha. by destruct (truthy a).
    - subst a'. unfold rerender. by rewrite Ha, decide_True. }
  destruct (IH Hes (step h e) (step_requests h e Hh) Ha') as [H|H]; [|right; apply elem_of_app; by right].
  rewrite H. destruct e as [i res| | |a']; simpl.
  - unfold answered. destruct (requests h !! i) as [[n b]|] eqn:Hi; [|by left]. simpl. case_decide as En; [|by left].
    destruct res as [raw|m]; [|by left]. right. simpl. destruct Hh as [Hq _]. rewrite Forall_lookup in Hq.
    destruct (Hq i _ Hi) as [_ Hb]. simpl in Hb. rewrite Ha in Hb. destruct (Hb En) as [[= <-] _]. rewrite decide_True by done. by left.
  - left. unfold timer. rewrite Ha. by destruct (armed h).
  - left. unfold refresh, run_effect. rewrite Ha, Hta. done.
  - subst a'. left. unfold rerender. by rewrite Ha, decide_True.
Qed.

(** Connecting another wallet keeps the balances of the one before on display,
    for good when the request for the new one fails. *)
Theorem previous_balances_shown bs m :
  let h := run (mount (Some "old")) [EAnswer 0 (inl bs); ERerender (Some "new"); EAnswer 0 (inr m)] in
  address h = Some "new" ∧ balances h = mapHorizonBalances bs.
Proof. done. Qed.

Lemma balances_of_address_witness :
  balances (run (mount (Some "G")) [EAnswer 0 (inl [Horizon native None None "5.0"])]) = [Wallet (Some "XLM") "native" "5.0"] ∧
  [Wallet (Some "XLM") "native" "5.0"] ∈ answers_for "G" (mount (Some "G")) [EAnswer 0 (inl [Horizon native None None "5.0"])].
Proof.
  split; [reflexivity|].
  destruct (balances_of_address "G" [EAnswer 0 (inl [Horizon native None None "5.0"])] eq_refl) as [H|H];
    [repeat (apply Forall_cons_2; [done|]); apply Forall_nil_2|discriminate H|exact H].
Defined.
