(* ===== verification/CachedStreams.v ===== *)
(** * Streams cached for offline use

    [frontend/src/hooks/useCachedStreams.ts] with the entry it keeps through
    [utils/indexedDbCache.ts]: the effect run to its end, online and offline, with
    the ways the cache can fail.  What the page fetches is a parameter. *)
From stdpp Require Import list.
From S2P Require Import Prelude.
#[local] Open Scope Z_scope.

(** ** The hook *)

Section hook.
Context {Stream : Type}.

Record result := Result { r_streams : list Stream; r_total : Z }.
(** The entry of [CACHE_KEY]: the data the hook stores. *)
Record entry := Entry { e_result : result; e_timestamp : Z }.
(** IndexedDB: an error of the open or of the transaction is swallowed, one of
    the request rejects. *)
Inductive put_outcome := Stored | Swallowed | PutRejected (m : string).
Inductive get_outcome := Got | GetSwallowed | GetRejected (m : string).
Definition setCacheEntry (o : put_outcome) (e : entry) (cache : option entry) : option entry * option string :=
  match o with Stored => (Some e, None) | Swallowed => (cache, None) | PutRejected m => (cache, Some m) end.
Definition getCacheEntry (o : get_outcome) (cache : option entry) : option entry + string :=
  match o with Got => inl cache | GetSwallowed => inl None | GetRejected m => inr m end.

Record hook := Hook {
  streams : list Stream;
  total : Z;
  loading : bool;
  error : option string;
  isCached : bool;
  lastUpdated : option Z }.
Definition initial : hook := Hook [] 0 true None false None.
Definition show (r : result) (cached : bool) (t : Z) (e : option string) (h : hook) : hook :=
  Hook (r_streams r) (r_total r) (loading h) e cached (Some t).
Definition setError (e : option string) (h : hook) : hook := Hook (streams h) (total h) (loading h) e (isCached h) (lastUpdated h).
Definition setLoading (b : bool) (h : hook) : hook := Hook (streams h) (total h) b (error h) (isCached h) (lastUpdated h).

Definition no_cache : string := "No cached data available. Please go online to fetch streams.".
(** A run of the effect to its end, for a page and a filter the hook only hands
    to the fetch. *)
Record request := Request { page : Z; filter_text : string; isOnline : bool; now : Z; online : result + string; put : put_outcome; get : get_outcome }.
Definition from_cache (cache : option entry) (missing : hook → hook) (o : get_outcome) (h : hook) : hook + string :=
  match getCacheEntry o cache with
  | inl (Some e) => inl (show (e_result e) true (e_timestamp e) (error h) h)
  | inl None => inl (missing h)
  | inr m => inr m
  end.
(** The [catch] block; a rejection inside it escapes, and only [finally] runs. *)
Definition catch_error (rq : request) (m : string) (cache : option entry) (h : hook) : hook :=
  let h := setError (Some m) h in
  if isOnline rq then
    match getCacheEntry (get rq) cache with
    | inl (Some e) => show (e_result e) true (e_timestamp e) None h
    | _ => h
    end
  else h.
Definition fetchStreams (rq : request) (st : hook * option entry) : hook * option entry :=
  let '(h, cache) := st in
  let h := setError None (setLoading true h) in
  let '(h, cache) :=
    if isOnline rq then
      match online rq with
      | inr m => (catch_error rq m cache h, cache)
      | inl r =>
          let h := show r false (now rq) None h in
          match setCacheEntry (put rq) (Entry r (now rq)) cache with
          | (cache, None) => (h, cache)
          | (cache, Some m) => (catch_error rq m cache h, cache)
          end
      end
    else
      match from_cache cache (setError (Some no_cache)) (get rq) h with
      | inl h => (h, cache)
      | inr m => (catch_error rq m cache h, cache)
      end in
  (setLoading false h, cache).
Definition run (rqs : list request) : hook * option entry := foldl (λ st rq, fetchStreams rq st) (initial, None) rqs.

(** ** Proofs *)

(** The last result that was fetched and stored. *)
Definition stored (rq : request) : option entry :=
  match isOnline rq, online rq, put rq with true, inl r, Stored => Some (Entry r (now rq)) | _, _, _ => None end.
Lemma run_cache rqs : (run rqs).2 = last (omap stored rqs).
Proof.
  induction rqs as [|rq rqs IH] using rev_ind; [done|]. unfold run in *. rewrite foldl_snoc, omap_app.
  destruct (foldl _ _ rqs) as [h cache]. simpl in IH |- *. subst cache. unfold fetchStreams, stored.
  destruct (isOnline rq); [destruct (online rq) as [r|m]; [destruct (put rq)|]|].
  all: simpl; rewrite ?last_snoc, ?app_nil_r; try done.
  unfold from_cache. destruct (getCacheEntry _ _) as [[e|]|m]; done.
Qed.
(** Offline, the hook shows the last result that was fetched and stored, as
    cached and with its time, or says that there is none; it is the same for
    every page and filter. *)
Theorem offline_shows_last rqs rq : isOnline rq = false → get rq = Got →
  let h := (run (rqs ++ [rq])).1 in
  match last (omap stored rqs) with
  | Some e => streams h = r_streams (e_result e) ∧ total h = r_total (e_result e) ∧ isCached h = true ∧
              lastUpdated h = Some (e_timestamp e) ∧ error h = None
  | None => error h = Some no_cache
  end ∧ loading h = false.
Proof.
  intros Ho Hg. pose proof (run_cache rqs) as Hc. unfold run in *. rewrite foldl_snoc. destruct (foldl _ _ rqs) as [h cache].
  simpl in Hc. subst cache. unfold fetchStreams, from_cache. rewrite Ho, Hg. simpl. by destruct (last (omap stored rqs)) as [e|].
Qed.
(** A result that was fetched but not stored is taken off the screen again:
    an older one from the cache replaces it, marked as cached. *)
Theorem rejected_put_hides_result rqs rq r m e : isOnline rq = true → online rq = inl r → put rq = PutRejected m → get rq = Got →
  last (omap stored rqs) = Some e →
  streams (run (rqs ++ [rq])).1 = r_streams (e_result e) ∧ isCached (run (rqs ++ [rq])).1 = true.
Proof.
  intros Ho Hr Hp Hg He. pose proof (run_cache rqs) as Hc. unfold run in *. rewrite foldl_snoc. destruct (foldl _ _ rqs) as [h cache].
  simpl in Hc. subst cache. unfold fetchStreams, catch_error. rewrite Ho, Hr, Hp. simpl. rewrite Hg, He. done.
Qed.
End hook.

Definition demo_requests : list (@request Z) :=
  [Request 1 "all" true 10 (inl (Result [1; 2] 2)) Stored Got; Request 2 "all" true 20 (inl (Result [3] 1)) Stored Got].
Definition demo_offline : @request Z := Request 1 "active" false 30 (inr "") Stored Got.
Lemma offline_shows_last_witness :
  streams (run (demo_requests ++ [demo_offline])).1 = [3] ∧ loading (run (demo_requests ++ [demo_offline])).1 = false.
Proof. destruct (offline_shows_last demo_requests demo_offline eq_refl eq_refl) as [(H & _) Hl]. split; [exact H|exact Hl]. Defined.
Definition demo_put : @request Z := Request 3 "all" true 40 (inl (Result [9] 1)) (PutRejected "QuotaExceededError") Got.
Lemma rejected_put_hides_result_witness : streams (run (demo_requests ++ [demo_put])).1 = [3].
Proof. exact (proj1 (rejected_put_hides_result demo_requests demo_put (Result [9] 1) "QuotaExceededError" (Entry (Result [3] 1) 20) eq_refl eq_refl eq_refl eq_refl eq_refl)). Defined.
