(* ===== verification/Notifications.v ===== *)
(** * Notifications

    [frontend/src/hooks/useNotifications.ts]: the list and the preferences with
    their copies in the local storage, across reloads. *)
From stdpp Require Import list.
From S2P Require Import Prelude.
#[local] Open Scope Z_scope.

(** ** The hook *)

Inductive NotificationEventType := cliff_reached | expiring_soon | claim_available | stream_cancelled.
#[global] Instance NotificationEventType_eq_dec : EqDecision NotificationEventType.
Proof. solve_decision. Defined.
Record AppNotification := Notification {
  id : string;
  type : NotificationEventType;
  title : string;
  message : string;
  timestamp : string;
  read : bool;
  recipient : option string }.
Definition NotificationPreferences := NotificationEventType → bool.
Definition MAX_NOTIFICATIONS : nat := 50.
Definition DEFAULT_PREFS : NotificationPreferences := λ _, true.

(** An entry of the local storage: the text [JSON.stringify] made of a value, or
    one that does not parse. *)
Inductive saved (A : Type) := Absent | Malformed | Saved (a : A).
Arguments Absent {A}. Arguments Malformed {A}. Arguments Saved {A}.
Definition loadFromStorage {A} (s : saved A) (fallback : A) : A := match s with Saved a => a | _ => fallback end.
(** [works] is whether [setItem] does not throw. *)
Definition saveToStorage {A} (works : bool) (value : A) (s : saved A) : saved A := if works then Saved value else s.

Record hook := Hook {
  notifications : list AppNotification;
  preferences : NotificationPreferences;
  stored_notifications : saved (list AppNotification);
  stored_preferences : saved NotificationPreferences }.
Definition setNotifications (f : list AppNotification → list AppNotification) (h : hook) : hook :=
  Hook (f (notifications h)) (preferences h) (stored_notifications h) (stored_preferences h).
Definition unreadCount (h : hook) : nat := length (filter (λ n, read n = false) (notifications h)).
Definition addNotification (n : AppNotification) (h : hook) : hook :=
  if preferences h (type n) then setNotifications (λ prev, take MAX_NOTIFICATIONS (n :: prev)) h else h.
Definition with_read (n : AppNotification) : AppNotification :=
  Notification (id n) (type n) (title n) (message n) (timestamp n) true (recipient n).
Definition markRead (i : string) : hook → hook :=
  setNotifications (fmap (λ n, if decide (id n = i) then with_read n else n)).
Definition markAllRead : hook → hook := setNotifications (fmap with_read).
Definition dismissNotification (i : string) : hook → hook := setNotifications (filter (λ n, id n ≠ i)).
Definition setPreference (t : NotificationEventType) (enabled : bool) (h : hook) : hook :=
  Hook (notifications h) (λ t', if decide (t' = t) then enabled else preferences h t') (stored_notifications h) (stored_preferences h).
(** The two effects. *)
Definition persist (works : bool) (h : hook) : hook :=
  Hook (notifications h) (preferences h) (saveToStorage works (notifications h) (stored_notifications h))
    (saveToStorage works (preferences h) (stored_preferences h)).
Definition mount (works : bool) (sn : saved (list AppNotification)) (sp : saved NotificationPreferences) : hook :=
  persist works (Hook (loadFromStorage sn []) (loadFromStorage sp DEFAULT_PREFS) sn sp).

Inductive event :=
| EAdd (n : AppNotification) | ERead (i : string) | EReadAll | EDismiss (i : string)
| EPreference (t : NotificationEventType) (enabled : bool) | EReload.
Definition step (works : bool) (h : hook) (e : event) : hook :=
  match e with
  | EAdd n => persist works (addNotification n h)
  | ERead i => persist works (markRead i h)
  | EReadAll => persist works (markAllRead h)
  | EDismiss i => persist works (dismissNotification i h)
  | EPreference t b => persist works (setPreference t b h)
  | EReload => mount works (stored_notifications h) (stored_preferences h)
  end.
Definition run (works : bool) (h : hook) (es : list event) : hook := foldl (step works) h es.

(** ** Proofs *)

(** Which type a user may still get. *)
Fixpoint allowed (p : NotificationPreferences) (es : list event) : list AppNotification :=
  match es with
  | [] => []
  | EAdd n :: es => (if p (type n) then [n] else []) ++ allowed p es
  | EPreference t b :: es => allowed (λ t', if decide (t' = t) then b else p t') es
  | _ :: es => allowed p es
  end.
Definition same_up_to_read (a b : AppNotification) : Prop := with_read a = with_read b ∧ (read b = true → read a = true).
Definition shows (l : list AppNotification) (ns : list AppNotification) : Prop :=
  ∃ picked, picked `sublist_of` l ∧ Forall2 same_up_to_read ns picked.

Lemma same_refl n : same_up_to_read n n.
Proof. by split. Qed.
Lemma with_read_idem n : with_read (with_read n) = with_read n.
Proof. done. Qed.
Lemma shows_fmap l ns f : (∀ n, f n = n ∨ f n = with_read n) → shows l ns → shows l (f <$> ns).
Proof.
  intros Hf (p & Hp & H2). exists p. split; [done|]. apply Forall2_fmap_l. eapply Forall2_impl; [exact H2|].
  intros a b [Ha Hb]. simpl. destruct (Hf a) as [->| ->]; [by split|]. by split.
Qed.
Lemma shows_take l ns k : shows l ns → shows l (take k ns).
Proof.
  intros (p & Hp & H2). exists (take k p). split; [|by apply Forall2_take]. etrans; [apply sublist_take|done].
Qed.
Lemma shows_filter l ns P `{!∀ n, Decision (P n)} : shows l ns → shows l (filter P ns).
Proof.
  intros (p & Hp & H2). revert l Hp. induction H2 as [|a b ns p Hab H2 IH]; intros l Hp; [exists []; split; [apply sublist_nil_l|done]|].
  apply sublist_cons_l in Hp as (l1 & l2 & -> & Hp). destruct (IH l2 Hp) as (q & Hq & Hf). rewrite filter_cons. case_decide.
  - exists (b :: q). split; [|by constructor]. apply sublist_cons_l. by exists l1, l2.
  - exists q. split; [|done]. etrans; [exact Hq|]. etrans; [|apply sublist_inserts_l; reflexivity]. by apply sublist_cons.
Qed.

(** Across reloads, with a storage that works, the list holds at most fifty
    notifications, all of types that were enabled when they came, the newest
    first, each as it came but for having been read; and what is stored is what
    is shown. *)
Theorem notifications_spec es :
  let h := run true (mount true Absent Absent) es in
  (length (notifications h) ≤ MAX_NOTIFICATIONS)%nat ∧
  shows (reverse (allowed DEFAULT_PREFS es)) (notifications h) ∧
  stored_notifications h = Saved (notifications h).
Proof.
  enough (G : ∀ es h past, (length (notifications h) ≤ MAX_NOTIFICATIONS)%nat → shows (reverse past) (notifications h) →
    stored_notifications h = Saved (notifications h) → stored_preferences h = Saved (preferences h) →
    let h' := run true h es in
    (length (notifications h') ≤ MAX_NOTIFICATIONS)%nat ∧ shows (reverse (past ++ allowed (preferences h) es)) (notifications h') ∧
    stored_notifications h' = Saved (notifications h')).
  { apply (G es (mount true Absent Absent) []); simpl; try done; [lia|]. exists []. done. }
  clear es. induction es as [|e es IH]; intros h past Hlen Hsh Hs Hp; [by rewrite app_nil_r|].
  change (run true h (e :: es)) with (run true (step true h e) es).
  assert (Hmap : ∀ f, (∀ n, f n = n ∨ f n = with_read n) → let h' := persist true (setNotifications (fmap f) h) in
    (length (notifications h') ≤ MAX_NOTIFICATIONS)%nat ∧ shows (reverse past) (notifications h')).
  { intros f Hf. simpl. rewrite length_fmap. split; [done|by apply shows_fmap]. }
  destruct e as [n|i| |i|t b|]; cbn [allowed].
  - cbn [step]. unfold addNotification. destruct (preferences h (type n)) eqn:Et.
    + cbn [app]. replace (past ++ n :: allowed (preferences h) es) with ((past ++ [n]) ++ allowed (preferences h) es) by by rewrite <-(assoc_L (++)).
      apply (IH (persist true (setNotifications (λ prev, take MAX_NOTIFICATIONS (n :: prev)) h)) (past ++ [n])); try done.
      * cbn -[MAX_NOTIFICATIONS take]. rewrite length_take. lia.
      * cbn -[MAX_NOTIFICATIONS take reverse]. apply shows_take. rewrite reverse_app. destruct Hsh as (p & Hp' & H2).
        exists (n :: p). split; [|constructor; [apply same_refl|done]]. by apply sublist_skip.
    + apply (IH (persist true h) past); done.
  - destruct (Hmap (λ n, if decide (id n = i) then with_read n else n)) as [H1 H2]; [intros n; case_decide; auto|]. by apply (IH (persist true (markRead i h))).
  - destruct (Hmap with_read) as [H1 H2]; [auto|]. by apply (IH (persist true (markAllRead h))).
  - apply (IH (persist true (dismissNotification i h))); try done; simpl; [|by apply shows_filter].
    etrans; [apply length_filter|done].
  - by apply (IH (persist true (setPreference t b h))).
  - assert (Hm : mount true (stored_notifications h) (stored_preferences h) = h) by (rewrite Hs, Hp; destruct h; simpl in *; by subst).
    cbn [step]. rewrite Hm. by apply IH.
Qed.
