(* ===== verification/ArraySort.v ===== *)
(** * [Array.prototype.sort]

    The sort of the language is stable.  For a comparison function whose answers
    come from a total preorder, there is one stable sorted arrangement
    ([stable_sort_unique]); insertion computes it. *)
From Stdlib Require Import Sorting.
From stdpp Require Import list sorting.
From S2P Require Import Prelude.

Section sort.
Context {A : Type} (cmp : A → A → Z).

Fixpoint insert_stable (x : A) (l : list A) : list A :=
  match l with
  | [] => [x]
  | y :: l' => if cmp x y <=? 0 then x :: l else y :: insert_stable x l'
  end.
(** [l.sort(cmp)] *)
Definition stable_sort (l : list A) : list A := foldr insert_stable [] l.

Definition not_after (x y : A) : Prop := cmp x y <= 0.
(** Elements the comparison does not tell apart from [x]. *)
Definition level (x : A) (l : list A) : list A := filter (λ y, cmp x y = 0) l.

(** The answers of a comparison by a total preorder. *)
Class Comparison := {
  cmp_refl x : cmp x x = 0;
  cmp_anti x y : cmp x y <= 0 ↔ 0 <= cmp y x;
  cmp_trans x y z : cmp x y <= 0 → cmp y z <= 0 → cmp x z <= 0 }.

Lemma insert_perm x l : insert_stable x l ≡ₚ x :: l.
Proof.
  induction l as [|y l IH]; [done|]. simpl. case_match; [done|]. rewrite IH. apply Permutation_swap.
Qed.
Lemma stable_sort_perm l : stable_sort l ≡ₚ l.
Proof. induction l as [|x l IH]; [done|]. cbn [stable_sort foldr]. rewrite insert_perm. by apply Permutation_skip. Qed.
Lemma elem_of_stable_sort l x : x ∈ stable_sort l ↔ x ∈ l.
Proof. by rewrite stable_sort_perm. Qed.

Context `{!Comparison}.

Lemma insert_sorted x l : StronglySorted not_after l → StronglySorted not_after (insert_stable x l).
Proof.
  induction 1 as [|y l Hl IH Hy]; simpl; [repeat constructor|].
  destruct (Z.leb_spec (cmp x y) 0) as [Hxy|Hxy].
  - constructor; [by constructor|]. constructor; [done|]. eapply Forall_impl; [exact Hy|]. intros z. by apply cmp_trans.
  - constructor; [done|]. rewrite insert_perm. constructor; [|done]. unfold not_after.
    destruct (cmp_anti x y), (cmp_anti y x). lia.
Qed.
Lemma stable_sort_sorted l : StronglySorted not_after (stable_sort l).
Proof. induction l as [|x l IH]; [constructor|]. by apply insert_sorted. Qed.

Lemma cmp_zero_l x y z : cmp x y = 0 → cmp x z = 0 ↔ cmp y z = 0.
Proof.
  intros E. destruct (cmp_anti x y), (cmp_anti y x), (cmp_anti x z), (cmp_anti z x), (cmp_anti y z), (cmp_anti z y).
  pose proof (cmp_trans x y z). pose proof (cmp_trans z y x). pose proof (cmp_trans y x z). pose proof (cmp_trans z x y). lia.
Qed.
Lemma level_insert u x l : StronglySorted not_after l → level u (insert_stable x l) = level u (x :: l).
Proof.
  induction 1 as [|y l Hl IH Hy]; [done|]. simpl. destruct (Z.leb_spec (cmp x y) 0) as [Hxy|Hxy]; [done|].
  unfold level in *. rewrite !filter_cons, IH, filter_cons.
  destruct (decide (cmp u y = 0)) as [E1|], (decide (cmp u x = 0)) as [E2|]; try done.
  exfalso. pose proof (proj1 (cmp_zero_l u x y E2) E1). lia.
Qed.
(** The order of equal elements is kept. *)
Lemma stable_sort_stable u l : level u (stable_sort l) = level u l.
Proof.
  induction l as [|x l IH]; [done|]. change (stable_sort (x :: l)) with (insert_stable x (stable_sort l)). rewrite level_insert by apply stable_sort_sorted.
  unfold level in *. by rewrite !filter_cons, IH.
Qed.

Lemma head_level x l : StronglySorted not_after (x :: l) → level x (x :: l) = x :: level x l.
Proof. intros _. unfold level. by rewrite filter_cons, decide_True by apply cmp_refl. Qed.
Lemma same_levels_eq l1 l2 : StronglySorted not_after l1 → StronglySorted not_after l2 → (∀ u, level u l1 = level u l2) → l1 = l2.
Proof.
  revert l2. induction l1 as [|x l1 IH]; intros l2 H1 H2 Hlev.
  - destruct l2 as [|y l2]; [done|]. specialize (Hlev y). rewrite head_level in Hlev by done. done.
  - destruct l2 as [|y l2]; [specialize (Hlev x); rewrite head_level in Hlev by done; done|].
    assert (x = y) as <-.
    { inversion H1 as [|? ? ? F1]; inversion H2 as [|? ? ? F2]; subst.
      assert (y ∈ x :: l1) as Hy.
      { assert (y ∈ level y (x :: l1)) as Hin%list_elem_of_filter; [|apply Hin]. rewrite Hlev, head_level by done. by left. }
      assert (x ∈ y :: l2) as Hx.
      { assert (x ∈ level x (y :: l2)) as Hin%list_elem_of_filter; [|apply Hin]. rewrite <-Hlev, head_level by done. by left. }
      assert (cmp x y = 0) as E.
      { rewrite Forall_forall in F1, F2. unfold not_after in *.
        apply elem_of_cons in Hy as [->|Hy]; [apply cmp_refl|]. apply elem_of_cons in Hx as [->|Hx]; [apply cmp_refl|].
        specialize (F1 _ Hy). specialize (F2 _ Hx). pose proof (cmp_anti y x). lia. }
      pose proof (Hlev x) as Hl. rewrite head_level in Hl by done. unfold level in Hl. rewrite filter_cons, decide_True in Hl by done. by injection Hl. }
    f_equal. apply IH; [by inversion H1|by inversion H2|]. intros u. specialize (Hlev u). unfold level in *.
    rewrite !filter_cons in Hlev. case_decide; [by injection Hlev|done].
Qed.
(** Whatever sorts and keeps the order of equal elements computes this. *)
Lemma stable_sort_unique l l' : StronglySorted not_after l' → (∀ u, level u l' = level u l) → l' = stable_sort l.
Proof. intros Hs Hl. apply same_levels_eq; [done|apply stable_sort_sorted|]. intros u. by rewrite stable_sort_stable. Qed.
End sort.

(** Comparing numbers, either way round. *)
Definition ascending {A} (f : A → Z) (a b : A) : Z := f a - f b.
Definition descending {A} (f : A → Z) (a b : A) : Z := f b - f a.
#[export] Instance ascending_comparison {A} (f : A → Z) : Comparison (ascending f).
Proof. unfold ascending. split; intros; lia. Qed.
#[export] Instance descending_comparison {A} (f : A → Z) : Comparison (descending f).
Proof. unfold descending. split; intros; lia. Qed.

(** ** Comparisons built from comparisons *)

Lemma reversed_comparison {A} (cmp : A → A → Z) : Comparison cmp → Comparison (λ x y, - cmp x y).
Proof.
  intros [Hr Ha Ht]. split; intros; [rewrite Hr; lia| |].
  - destruct (Ha x y), (Ha y x). lia.
  - specialize (Ht z y x). destruct (Ha x y), (Ha y x), (Ha y z), (Ha z y), (Ha x z), (Ha z x). lia.
Qed.
Lemma comparison_ext {A} (cmp cmp' : A → A → Z) : (∀ x y, cmp x y = cmp' x y) → Comparison cmp → Comparison cmp'.
Proof. intros He [Hr Ha Ht]. split; intros; rewrite <-?He in *; [apply Hr|apply Ha|by eapply Ht]. Qed.
Lemma keyed_comparison {A B} (f : A → B) (cmp : B → B → Z) : Comparison cmp → Comparison (λ x y, cmp (f x) (f y)).
Proof. intros [Hr Ha Ht]. split; intros; [apply Hr|apply Ha|by eapply Ht]. Qed.

Lemma sorted_within {A} (R R' : A → A → Prop) (P : A → Prop) l : Forall P l → (∀ x y, P x → P y → R x y → R' x y) →
  StronglySorted R l → StronglySorted R' l.
Proof.
  intros HP HR. induction 1 as [|x l Hl IH Hx]; [constructor|]. apply Forall_cons in HP as [HPx HP].
  constructor; [by apply IH|]. rewrite Forall_forall in *. intros y Hy. by apply HR; [|apply HP|apply Hx].
Qed.
Lemma sorted_True {A} (l : list A) : StronglySorted (λ _ _, True) l.
Proof. induction l; constructor; [done|]. by apply Forall_true. Qed.

(** Blank elements after the others, in any order of the others. *)
Section blanks.
Context {A : Type} (blank : A → bool) (cmp : A → A → Z).
Definition blanks_after (x y : A) : Z := if blank x && blank y then 0 else if blank x then 1 else if blank y then -1 else cmp x y.
Context `{!Comparison cmp}.
#[export] Instance blanks_after_comparison : Comparison blanks_after.
Proof.
  unfold blanks_after. split; intros.
  - destruct (blank x); [done|]. by apply cmp_refl.
  - destruct (blank x), (blank y); cbn; try lia. by apply cmp_anti.
  - destruct (blank x), (blank y), (blank z); cbn in *; try lia. by eapply cmp_trans.
Qed.
Lemma level_blank u l : blank u = true → level blanks_after u l = filter (λ x, blank x = true) l.
Proof. intros Hu. apply list_filter_iff. intros x. unfold blanks_after. rewrite Hu. by destruct (blank x). Qed.
Lemma level_present u l : blank u = false → level blanks_after u l = level cmp u (filter (λ x, blank x = false) l).
Proof.
  intros Hu. unfold level. rewrite list_filter_filter. apply list_filter_iff. intros x. unfold blanks_after. rewrite Hu.
  destruct (blank x); cbn; intuition lia.
Qed.
Lemma stable_sort_blanks l : stable_sort blanks_after l =
  stable_sort cmp (filter (λ x, blank x = false) l) ++ filter (λ x, blank x = true) l.
Proof.
  set (pres := stable_sort cmp _). set (bl := filter (λ x, blank x = true) l).
  assert (Hp : Forall (λ x, blank x = false) pres).
  { apply Forall_forall. intros x Hx%elem_of_stable_sort%list_elem_of_filter. tauto. }
  assert (Hb : Forall (λ x, blank x = true) bl).
  { apply Forall_forall. intros x Hx%list_elem_of_filter. tauto. }
  symmetry. apply (stable_sort_unique blanks_after).
  - apply StronglySorted_app. split_and!.
    + intros x y Hx Hy. rewrite Forall_forall in Hp, Hb. unfold not_after, blanks_after. by rewrite (Hp x Hx), (Hb y Hy).
    + apply (sorted_within (not_after cmp) _ _ _ Hp); [|by apply stable_sort_sorted].
      intros x y Hx Hy. unfold not_after, blanks_after. by rewrite Hx, Hy.
    + apply (sorted_within (λ _ _, True) _ _ _ Hb); [|by apply sorted_True].
      intros x y Hx Hy _. unfold not_after, blanks_after. by rewrite Hx, Hy.
  - intros u. destruct (blank u) eqn:Hu.
    + rewrite !(level_blank u) by done. rewrite filter_app, (filter_all _ bl), (filter_none _ pres); [done|..].
      * intros x Hx. rewrite Forall_forall in Hp. by rewrite (Hp x Hx).
      * by apply Forall_forall.
    + rewrite !(level_present u) by done. rewrite filter_app, (filter_all _ pres), (filter_none _ bl), app_nil_r; [by apply stable_sort_stable|..].
      * intros x Hx. rewrite Forall_forall in Hb. by rewrite (Hb x Hx).
      * by apply Forall_forall.
Qed.
End blanks.
