(* ===== verification/Explore.v ===== *)
(** * The stream explorer

    frontend/src/app/explore/page.tsx: filters in the address bar, the rows the
    page filters, sorts and cuts itself when the API does not answer, and the
    page as a transition system: one debounce timer shared by the requests and
    by the pushes of the search text, requests in flight, and navigation. *)
From Stdlib Require Import QArith Qround Sorting.
From stdpp Require Import list sorting.
From S2P Require Import Prelude Bytes Digits UrlText Double ErrorMessages ArraySort.
#[local] Open Scope Z_scope.
(** The parameters of an address. *)
#[local] Notation address := (list (string * string)).

(** ** Data *)

Record Filters := Filters_ {
  f_query : string; f_token : string; f_status : string; f_cliffFrom : string; f_cliffTo : string;
  f_rateMin : string; f_rateMax : string; f_page : double; f_sortField : string; f_sortDir : string }.
(** A row; its numbers are integers. *)
Record StreamRow := Row {
  r_id : string; r_recipient : string; r_sponsor : string; r_token : string;
  r_rate : Z; r_cliffLedger : Z; r_endLedger : Z; r_status : string }.
Record ApiResponse := Response { a_streams : list StreamRow; a_total : Z; a_page : double; a_pageSize : Z }.

Definition PAGE_SIZE : Z := 20.
Definition DEBOUNCE_MS : Z := 300.
Definition MIN_QUERY_LEN : Z := 3.

(** ** The rows of the page *)

Definition letter (i : Z) : string := String (chr (65 + i mod 26)) "".
Definition short_number (n : Z) : string := of_chars (take 4 (chars (Z_to_string n))) +:+ "…".
(** [floor] of a hundred times [Math.random()] is [random100 i]. *)
Definition mock_row (random100 : Z → Z) (i : Z) : StreamRow :=
  Row (Z_to_string (i + 1)) ("G" +:+ letter i +:+ letter (i + 5) +:+ short_number (100000 + i * 7919))
    ("G" +:+ letter (i + 3) +:+ letter (i + 8) +:+ short_number (200000 + i * 3137))
    (default "" (["USDC"; "XLM"; "yXLM"; "StellarX"] !! Z.to_nat (i mod 4))) (random100 i + 1)
    (51200000 + i * 17280) (51200000 + i * 17280 + 6048000)
    (default "" (["active"; "pre-cliff"; "completed"; "cancelled"] !! Z.to_nat (i mod 4))).
Definition generateMockStreams (random100 : Z → Z) (count : nat) : list StreamRow := mock_row random100 ∘ Z.of_nat <$> seq 0 count.
Definition ALL_MOCK_STREAMS (random100 : Z → Z) : list StreamRow := generateMockStreams random100 87.

(** ** Sorting *)

(** Texts are compared by their code units; their UTF-8 bytes are in the same
    order for texts without surrogates. *)
Fixpoint text_cmp (a b : list ascii) : Z :=
  match a, b with
  | [], [] => 0
  | [], _ :: _ => -1
  | _ :: _, [] => 1
  | x :: a', y :: b' => if code x <? code y then -1 else if code y <? code x then 1 else text_cmp a' b'
  end.
Definition on_text (key : StreamRow → string) (a b : StreamRow) : Z := text_cmp (chars (key a)) (chars (key b)).
Definition on_number (key : StreamRow → Z) (a b : StreamRow) : Z := Z.sgn (key a - key b).
Definition field_cmp (field : string) : StreamRow → StreamRow → Z :=
  if bool_decide (field = "recipient") then on_text r_recipient
  else if bool_decide (field = "sponsor") then on_text r_sponsor
  else if bool_decide (field = "token") then on_text r_token
  else if bool_decide (field = "rate") then on_number r_rate
  else if bool_decide (field = "cliff") then on_number r_cliffLedger
  else if bool_decide (field = "end") then on_number r_endLedger
  else if bool_decide (field = "status") then on_text r_status
  else on_text r_id.
Definition row_cmp (f : Filters) (a b : StreamRow) : Z :=
  if bool_decide (f_sortDir f = "asc") then field_cmp (f_sortField f) a b else - field_cmp (f_sortField f) a b.

(** ** Arithmetic on the page *)

(** [Math.max(1, x)] *)
Definition max1 (x : double) : double := if is_nan x then DNaN else if lt64 (of_Z 1) x then x else of_Z 1.
(** [l.slice] truncates its arguments. *)
Definition truncate_Q (q : Q) : Z := if Qle_bool 0 q then Qfloor q else Qceiling q.
Definition whole (n : Z) (x : double) : Z := match x with DNaN => 0 | DInf s => if s then - n else n | DFin q => truncate_Q q end.
Definition slice_list {A} (lo hi : double) (l : list A) : list A :=
  let n := Z.of_nat (length l) in slice_Z (whole n lo) (whole n hi) l.

(** ** The fetch *)

Section page.
(** [toLowerCase], and [String] of a number. *)
Context (toLowerCase : string → string) (number_text : double → string).

Definition given (k v : string) : address := if truthy v then [(k, v)] else [].
(** The query of the request to the API. *)
Definition request_params (f : Filters) : address :=
  (if MIN_QUERY_LEN <=? utf16_length (f_query f) then [("q", f_query f)] else []) ++
  given "token" (f_token f) ++ given "status" (f_status f) ++ given "cliffFrom" (f_cliffFrom f) ++ given "cliffTo" (f_cliffTo f) ++
  given "rateMin" (f_rateMin f) ++ given "rateMax" (f_rateMax f) ++
  [("page", number_text (f_page f)); ("pageSize", Z_to_string PAGE_SIZE); ("sort", f_sortField f +:+ ":" +:+ f_sortDir f)].
Definition request_url (f : Filters) : string := "/api/streams?" +:+ form_pairs (request_params f).

Definition includes (text q : string) : bool := contains (chars q) (chars text).
Definition keep (active : bool) (p : StreamRow → bool) (rows : list StreamRow) : list StreamRow :=
  if active then filter (λ r, p r = true) rows else rows.
Definition query_matches (q : string) (r : StreamRow) : bool :=
  includes (toLowerCase (r_recipient r)) q || includes (toLowerCase (r_sponsor r)) q || includes (toLowerCase (r_token r)) q.
Definition fallback (all : list StreamRow) (f : Filters) : ApiResponse :=
  let q := toLowerCase (f_query f) in
  let rows := keep (MIN_QUERY_LEN <=? utf16_length q) (query_matches q) all in
  let rows := keep (truthy (f_token f)) (λ r, bool_decide (r_token r = f_token f)) rows in
  let rows := keep (truthy (f_status f)) (λ r, bool_decide (r_status r = f_status f)) rows in
  let rows := keep (truthy (f_cliffFrom f)) (λ r, ge64 (of_Z (r_cliffLedger r)) (Number (f_cliffFrom f))) rows in
  let rows := keep (truthy (f_cliffTo f)) (λ r, ge64 (Number (f_cliffTo f)) (of_Z (r_cliffLedger r))) rows in
  let rows := keep (truthy (f_rateMin f)) (λ r, ge64 (of_Z (r_rate r)) (Number (f_rateMin f))) rows in
  let rows := keep (truthy (f_rateMax f)) (λ r, ge64 (Number (f_rateMax f)) (of_Z (r_rate r))) rows in
  let rows := stable_sort (row_cmp f) rows in
  let offset := mul64 (sub64 (f_page f) (of_Z 1)) (of_Z PAGE_SIZE) in
  Response (slice_list offset (add64 offset (of_Z PAGE_SIZE)) rows) (Z.of_nat (length rows)) (f_page f) PAGE_SIZE.

(** What the request meets: no connection, a status outside 200–299, or a body,
    which may not be JSON.  Only the first two fall back: the body is returned
    without being awaited. *)
Inductive api_outcome := NoConnection | NotOk | Body (b : option ApiResponse).
Definition fetchStreams (all : list StreamRow) (f : Filters) (o : api_outcome) : result unit ApiResponse :=
  match o with
  | NoConnection | NotOk => Ok (fallback all f)
  | Body (Some b) => Ok b
  | Body None => Err tt
  end.

(** ** The address bar *)

Definition parseFiltersFromParams (sp : address) : Filters :=
  let sort := split_on ":" (default "status:asc" (sp_get "sort" sp)) in
  let text k := default "" (sp_get k sp) in
  Filters_ (text "q") (text "token") (text "status") (text "cliffFrom") (text "cliffTo") (text "rateMin") (text "rateMax")
    (max1 (Number (default "1" (sp_get "page" sp)))) (default "status" (sort !! 0%nat)) (default "asc" (sort !! 1%nat)).
Definition filtersToParams (f : Filters) : address :=
  given "q" (f_query f) ++ given "token" (f_token f) ++ given "status" (f_status f) ++ given "cliffFrom" (f_cliffFrom f) ++
  given "cliffTo" (f_cliffTo f) ++ given "rateMin" (f_rateMin f) ++ given "rateMax" (f_rateMax f) ++
  (if lt64 (of_Z 1) (f_page f) then [("page", number_text (f_page f))] else []) ++
  (if bool_decide (f_sortField f ≠ "status") || bool_decide (f_sortDir f ≠ "asc")
   then [("sort", f_sortField f +:+ ":" +:+ f_sortDir f)] else []).

(** ** The page *)

(** A pending timer: a request after its delay, or a push of the address. *)
Inductive job := Fetch (f : Filters) (delay : Z) | Push (f : Filters).
Record request := Request { q_filters : Filters; answered : bool }.
Record page_state := Page {
  filters : Filters; result_ : option ApiResponse; loading : bool; error : option string;
  timer : option job; cleanup : bool; requests : list request; pushed : list address }.

Definition too_short (f : Filters) : bool := (0 <? utf16_length (f_query f)) && (utf16_length (f_query f) <? MIN_QUERY_LEN).
(** The effect on [filters], after the clean-up of the run before, if it had one. *)
Definition fetch_effect (p : page_state) : page_state :=
  let t := if cleanup p then None else timer p in
  if too_short (filters p) then Page (filters p) (result_ p) (loading p) (error p) t false (requests p) (pushed p)
  else
    let delay := if MIN_QUERY_LEN <=? utf16_length (f_query (filters p)) then DEBOUNCE_MS else 0 in
    Page (filters p) (result_ p) (loading p) (error p) (Some (Fetch (filters p) delay)) true (requests p) (pushed p).
Definition setFilters (f : Filters) (p : page_state) : page_state :=
  fetch_effect (Page f (result_ p) (loading p) (error p) (timer p) (cleanup p) (requests p) (pushed p)).
Definition push_params (sp : address) (p : page_state) : page_state :=
  Page (filters p) (result_ p) (loading p) (error p) (timer p) (cleanup p) (requests p) (pushed p ++ [sp]).
Definition set_timer (t : option job) (p : page_state) : page_state :=
  Page (filters p) (result_ p) (loading p) (error p) t (cleanup p) (requests p) (pushed p).
Definition pushFilters (f : Filters) (p : page_state) : page_state := push_params (filtersToParams f) p.

Definition updateFilters (next : Filters) (p : page_state) : page_state := setFilters next (pushFilters next p).
Definition with_query (v : string) (f : Filters) : Filters :=
  Filters_ v (f_token f) (f_status f) (f_cliffFrom f) (f_cliffTo f) (f_rateMin f) (f_rateMax f) (of_Z 1) (f_sortField f) (f_sortDir f).
Definition handleQueryChange (v : string) (p : page_state) : page_state :=
  let next := with_query v (filters p) in setFilters next (set_timer (Some (Push next)) p).
Definition with_sort (field dir : string) (f : Filters) : Filters :=
  Filters_ (f_query f) (f_token f) (f_status f) (f_cliffFrom f) (f_cliffTo f) (f_rateMin f) (f_rateMax f) (of_Z 1) field dir.
Definition handleSort (field : string) (p : page_state) : page_state :=
  let f := filters p in
  let dir := if bool_decide (f_sortField f = field) && bool_decide (f_sortDir f = "asc") then "desc" else "asc" in
  updateFilters (with_sort field dir f) p.
Definition with_page (n : double) (f : Filters) : Filters :=
  Filters_ (f_query f) (f_token f) (f_status f) (f_cliffFrom f) (f_cliffTo f) (f_rateMin f) (f_rateMax f) n (f_sortField f) (f_sortDir f).
Definition handlePageChange (n : double) (p : page_state) : page_state := updateFilters (with_page n (filters p)) p.
Definition no_filters : Filters := Filters_ "" "" "" "" "" "" "" (of_Z 1) "status" "asc".
Definition handleReset (p : page_state) : page_state := setFilters no_filters (push_params [] p).
(** The fields of the panel. *)
Inductive panel_field := Token | Status | CliffFrom | CliffTo | RateMin | RateMax.
Definition with_field (k : panel_field) (v : string) (f : Filters) : Filters :=
  let pick k' old := match k, k' with Token, Token | Status, Status | CliffFrom, CliffFrom | CliffTo, CliffTo | RateMin, RateMin | RateMax, RateMax => v | _, _ => old end in
  Filters_ (f_query f) (pick Token (f_token f)) (pick Status (f_status f)) (pick CliffFrom (f_cliffFrom f)) (pick CliffTo (f_cliffTo f))
    (pick RateMin (f_rateMin f)) (pick RateMax (f_rateMax f)) (of_Z 1) (f_sortField f) (f_sortDir f).

(** Events: the handlers, the timer, an answer to request [i], and an address
    that becomes the current one, by a push or by the history of the browser. *)
Inductive explore_event :=
| Typed (v : string) | Panel (k : panel_field) (v : string) | Sorted_ (field : string) | GoTo (n : double) | Reset
| Tick | Answer (i : nat) (r : result unit ApiResponse) | Navigate (sp : address).
Definition run_timer (p : page_state) : page_state :=
  match timer p with
  | None => p
  | Some (Push f) => pushFilters f (set_timer None p)
  | Some (Fetch f _) => Page (filters p) (result_ p) true None None (cleanup p) (requests p ++ [Request f false]) (pushed p)
  end.
Definition answer (i : nat) (r : result unit ApiResponse) (p : page_state) : page_state :=
  match requests p !! i with
  | Some (Request f false) =>
      let rs := <[i := Request f true]> (requests p) in
      match r with
      | Ok data => Page (filters p) (Some data) false (error p) (timer p) (cleanup p) rs (pushed p)
      | Err _ => Page (filters p) (result_ p) false (Some "Failed to load streams. Please try again.") (timer p) (cleanup p) rs (pushed p)
      end
  | _ => p
  end.
Definition explore_step (p : page_state) (e : explore_event) : page_state :=
  match e with
  | Typed v => handleQueryChange v p
  | Panel k v => updateFilters (with_field k v (filters p)) p
  | Sorted_ field => handleSort field p
  | GoTo n => handlePageChange n p
  | Reset => handleReset p
  | Tick => run_timer p
  | Answer i r => answer i r p
  | Navigate sp => setFilters (parseFiltersFromParams sp) p
  end.
(** The first render: both effects run, the first sets the same filters again. *)
Definition explore_mount (sp : address) : page_state :=
  let f := parseFiltersFromParams sp in
  setFilters f (fetch_effect (Page f None false None None false [] [])).
Definition explore_run (sp : address) (es : list explore_event) : page_state := foldl explore_step (explore_mount sp) es.

(** ** What is shown *)

Definition shown_streams (p : page_state) : list StreamRow := match result_ p with Some a => a_streams a | None => [] end.
Definition shown_total (p : page_state) : Z := match result_ p with Some a => a_total a | None => 0 end.
(** [Math.ceil(total / PAGE_SIZE)] *)
Definition totalPages (total : Z) : Z := (total + PAGE_SIZE - 1) / PAGE_SIZE.
Definition hasFilters (f : Filters) : bool :=
  truthy (f_token f) || truthy (f_status f) || truthy (f_cliffFrom f) || truthy (f_cliffTo f) || truthy (f_rateMin f) || truthy (f_rateMax f).
Definition showEmpty (p : page_state) : bool :=
  negb (loading p) && bool_decide (shown_streams p = []) &&
  ((MIN_QUERY_LEN <=? utf16_length (f_query (filters p))) || hasFilters (filters p) || bool_decide (is_Some (result_ p))).
(** The page numbers under the table, for a whole page number. *)
Definition page_numbers (page total : Z) : list Z :=
  (λ i : nat,
     let start := Z.max 1 (page - 2) in
     let last := Z.min total (start + 4) in
     Z.max 1 (last - 4) + Z.of_nat i) <$> seq 0 (Z.to_nat (Z.min 5 total)).
End page.
(** [truncate], for an address in ASCII. *)
Definition truncate (addr : string) (n : Z) : string :=
  if utf16_length addr <=? n * 2 + 3 then addr
  else of_chars (take (Z.to_nat n) (chars addr)) +:+ "…" +:+ of_chars (drop (length (chars addr) - Z.to_nat n) (chars addr)).

(** ** Lemmas: sorting *)

Lemma text_cmp_refl a : text_cmp a a = 0.
Proof. induction a as [|x a IH]; [done|]. simpl. destruct (Z.ltb_spec (code x) (code x)); [lia|done]. Qed.
Lemma text_cmp_opp a b : text_cmp b a = - text_cmp a b.
Proof.
  revert b. induction a as [|x a IH]; intros [|y b]; try done. simpl.
  destruct (Z.ltb_spec (code x) (code y)), (Z.ltb_spec (code y) (code x)); try done; lia.
Qed.
Lemma text_cmp_trans a b c : text_cmp a b <= 0 → text_cmp b c <= 0 → text_cmp a c <= 0.
Proof.
  revert b c. induction a as [|x a IH]; intros [|y b] [|z c]; simpl; try lia.
  destruct (Z.ltb_spec (code x) (code y)), (Z.ltb_spec (code y) (code x)), (Z.ltb_spec (code y) (code z)), (Z.ltb_spec (code z) (code y)),
    (Z.ltb_spec (code x) (code z)), (Z.ltb_spec (code z) (code x)); try lia. apply IH.
Qed.
#[export] Instance on_text_comparison key : Comparison (on_text key).
Proof.
  unfold on_text. split; intros; [apply text_cmp_refl| |by eapply text_cmp_trans].
  rewrite (text_cmp_opp (chars (key x)) (chars (key y))). lia.
Qed.
#[export] Instance on_number_comparison key : Comparison (on_number key).
Proof. unfold on_number. split; intros; lia. Qed.
#[export] Instance field_comparison field : Comparison (field_cmp field).
Proof. unfold field_cmp. repeat case_match; apply _. Qed.
#[export] Instance row_comparison f : Comparison (row_cmp f).
Proof.
  unfold row_cmp. case_match; [apply field_comparison|]. apply reversed_comparison, field_comparison.
Qed.

(** ** Lemmas: pages *)

Lemma page_offset n : 1 <= n → PAGE_SIZE * n < 2 ^ 53 →
  mul64 (sub64 (of_Z n) (of_Z 1)) (of_Z PAGE_SIZE) = DFin (inject_Z (PAGE_SIZE * (n - 1))).
Proof.
  unfold PAGE_SIZE. intros Hn Hb. rewrite (of_Z_exact n) by lia. unfold sub64.
  change (negate (of_Z 1)) with (DFin (inject_Z (-1))). change (of_Z 20) with (DFin (inject_Z 20)).
  rewrite add64_Z, mul64_Z by lia. by rewrite Z.mul_comm.
Qed.
Lemma slice_list_Z {A} lo n (l : list A) : 0 <= lo → 0 <= n →
  slice_list (DFin (inject_Z lo)) (DFin (inject_Z (lo + n))) l = take (Z.to_nat n) (drop (Z.to_nat lo) l).
Proof.
  intros Hlo Hn. assert (Ht : ∀ z, truncate_Q (inject_Z z) = z).
  { intros z. unfold truncate_Q. rewrite Qfloor_Z, Qceiling_Z. by case_match. }
  unfold slice_list, whole. rewrite !Ht. by apply slice_Z_window.
Qed.

(** ** Theorems: the rows *)

Section fallback.
Context (toLowerCase : string → string).
(** One filter for all conditions. *)
Definition wanted (f : Filters) (r : StreamRow) : bool :=
  let q := toLowerCase (f_query f) in
  implb (MIN_QUERY_LEN <=? utf16_length q) (query_matches toLowerCase q r) &&
  implb (truthy (f_token f)) (bool_decide (r_token r = f_token f)) && implb (truthy (f_status f)) (bool_decide (r_status r = f_status f)) &&
  implb (truthy (f_cliffFrom f)) (ge64 (of_Z (r_cliffLedger r)) (Number (f_cliffFrom f))) &&
  implb (truthy (f_cliffTo f)) (ge64 (Number (f_cliffTo f)) (of_Z (r_cliffLedger r))) &&
  implb (truthy (f_rateMin f)) (ge64 (of_Z (r_rate r)) (Number (f_rateMin f))) &&
  implb (truthy (f_rateMax f)) (ge64 (Number (f_rateMax f)) (of_Z (r_rate r))).
Lemma keep_filter active p rows : keep active p rows = filter (λ r, implb active (p r) = true) rows.
Proof.
  unfold keep. destruct active; [done|]. induction rows as [|r rows IH]; [done|]. rewrite filter_cons, decide_True by done. by f_equal.
Qed.
Lemma filter_both (p q : StreamRow → bool) (rows : list StreamRow) : filter (λ r, q r = true) (filter (λ r, p r = true) rows) = filter (λ r, p r && q r = true) rows.
Proof.
  rewrite list_filter_filter. apply list_filter_iff. intros r. rewrite andb_true_iff. tauto.
Qed.
Lemma kept_wanted all f :
  let q := toLowerCase (f_query f) in
  keep (truthy (f_rateMax f)) (λ r, ge64 (Number (f_rateMax f)) (of_Z (r_rate r)))
   (keep (truthy (f_rateMin f)) (λ r, ge64 (of_Z (r_rate r)) (Number (f_rateMin f)))
    (keep (truthy (f_cliffTo f)) (λ r, ge64 (Number (f_cliffTo f)) (of_Z (r_cliffLedger r)))
     (keep (truthy (f_cliffFrom f)) (λ r, ge64 (of_Z (r_cliffLedger r)) (Number (f_cliffFrom f)))
      (keep (truthy (f_status f)) (λ r, bool_decide (r_status r = f_status f))
       (keep (truthy (f_token f)) (λ r, bool_decide (r_token r = f_token f))
        (keep (MIN_QUERY_LEN <=? utf16_length q) (query_matches toLowerCase q) all)))))) = filter (λ r, wanted f r = true) all.
Proof.
  intros q. rewrite !keep_filter, !filter_both. apply list_filter_iff. intros r. unfold wanted. fold q. by rewrite !andb_assoc.
Qed.

Lemma fallback_reference_at all f n : f_page f = of_Z n → 1 <= n → PAGE_SIZE * n < 2 ^ 53 →
  let s := stable_sort (row_cmp f) (filter (λ r, wanted f r = true) all) in
  fallback toLowerCase all f = Response (take 20 (drop (Z.to_nat (PAGE_SIZE * (n - 1))) s)) (Z.of_nat (length s)) (f_page f) PAGE_SIZE.
Proof.
  intros Hp Hn Hb s. unfold fallback. rewrite kept_wanted. fold s. rewrite Hp, page_offset by done. f_equal.
  change (of_Z PAGE_SIZE) with (DFin (inject_Z 20)). unfold PAGE_SIZE in *. rewrite add64_Z by lia. by rewrite slice_list_Z by lia.
Qed.
(** *** What the page is to show, in terms of its own

    The order of texts by their first difference (of bytes, as [text_cmp]
    compares them), the keys of the columns,
    and the conditions of the filters as statements. *)
Inductive text_le : list ascii → list ascii → Prop :=
| text_le_end b : text_le [] b
| text_le_less x y a b : code x < code y → text_le (x :: a) (y :: b)
| text_le_same x a b : text_le a b → text_le (x :: a) (x :: b).
Inductive sort_key := KeyText (s : string) | KeyNumber (n : Z).
#[export] Instance sort_key_eq_dec : EqDecision sort_key.
Proof. solve_decision. Defined.
Definition key_le (k k' : sort_key) : Prop :=
  match k, k' with
  | KeyText s, KeyText s' => text_le (chars s) (chars s')
  | KeyNumber n, KeyNumber n' => n <= n'
  | _, _ => False
  end.
Definition key_of (column : string) (r : StreamRow) : sort_key :=
  match column with
  | "recipient" => KeyText (r_recipient r)
  | "sponsor" => KeyText (r_sponsor r)
  | "token" => KeyText (r_token r)
  | "rate" => KeyNumber (r_rate r)
  | "cliff" => KeyNumber (r_cliffLedger r)
  | "end" => KeyNumber (r_endLedger r)
  | "status" => KeyText (r_status r)
  | _ => KeyText (r_id r)
  end%string.
(** [a] may stand before [b]: any direction but [asc] is the descending one. *)
Definition in_order (f : Filters) (a b : StreamRow) : Prop :=
  let ka := key_of (f_sortField f) a in
  let kb := key_of (f_sortField f) b in
  (f_sortDir f = "asc" → key_le ka kb) ∧ (f_sortDir f ≠ "asc" → key_le kb ka).

(** A number read from a text is at most, or at least, a whole number; what is
    not a number is neither. *)
Definition at_most (x : double) (n : Z) : Prop := x = DInf true ∨ ∃ q, x = DFin q ∧ (q <= inject_Z n)%Q.
Definition at_least (x : double) (n : Z) : Prop := x = DInf false ∨ ∃ q, x = DFin q ∧ (inject_Z n <= q)%Q.
Definition shows (f : Filters) (r : StreamRow) : Prop :=
  (3 <= utf16_length (toLowerCase (f_query f)) →
     ∃ text before after, text ∈ [r_recipient r; r_sponsor r; r_token r] ∧
       chars (toLowerCase text) = before ++ chars (toLowerCase (f_query f)) ++ after) ∧
  (f_token f ≠ "" → r_token r = f_token f) ∧
  (f_status f ≠ "" → r_status r = f_status f) ∧
  (f_cliffFrom f ≠ "" → at_most (Number (f_cliffFrom f)) (r_cliffLedger r)) ∧
  (f_cliffTo f ≠ "" → at_least (Number (f_cliffTo f)) (r_cliffLedger r)) ∧
  (f_rateMin f ≠ "" → at_most (Number (f_rateMin f)) (r_rate r)) ∧
  (f_rateMax f ≠ "" → at_least (Number (f_rateMax f)) (r_rate r)).
(** The numbers of a row are exact as doubles. *)
Definition exact_row (r : StreamRow) : Prop := 0 <= r_cliffLedger r < 2 ^ 53 ∧ 0 <= r_rate r < 2 ^ 53.

Lemma code_eq x y : code x = code y → x = y.
Proof. unfold code. intros H%Nat2Z.inj. rewrite <-(ascii_nat_embedding x), H. apply ascii_nat_embedding. Qed.
Lemma chars_eq s t : chars s = chars t → s = t.
Proof. intros H. by rewrite <-(of_chars_chars s), H, of_chars_chars. Qed.
Lemma text_cmp_le a b : text_cmp a b <= 0 ↔ text_le a b.
Proof.
  split.
  - revert b. induction a as [|x a IH]; intros [|y b]; cbn [text_cmp]; [intros _; constructor|intros _; constructor|lia|].
    destruct (Z.ltb_spec (code x) (code y)) as [H1|H1]; [intros _; by apply text_le_less|].
    destruct (Z.ltb_spec (code y) (code x)) as [|H2]; [lia|]. intros H%IH.
    assert (x = y) as -> by (apply code_eq; lia). by constructor.
  - induction 1 as [b|x y a b H|x a b H IH]; cbn [text_cmp]; [by destruct b|by destruct (Z.ltb_spec (code x) (code y)); lia|].
    by rewrite Z.ltb_irrefl.
Qed.
Lemma text_cmp_eq a b : text_cmp a b = 0 ↔ a = b.
Proof.
  split; [|intros ->; apply text_cmp_refl]. revert b. induction a as [|x a IH]; intros [|y b]; cbn [text_cmp]; try done.
  destruct (Z.ltb_spec (code x) (code y)), (Z.ltb_spec (code y) (code x)); try done. intros H'%IH. f_equal; [apply code_eq; lia|done].
Qed.
(** The comparison of a column is that of its keys. *)
Lemma field_cmp_key column a b :
  (field_cmp column a b <= 0 ↔ key_le (key_of column a) (key_of column b)) ∧
  (field_cmp column a b = 0 ↔ key_of column a = key_of column b).
Proof.
  assert (Ht : ∀ key, (on_text key a b <= 0 ↔ key_le (KeyText (key a)) (KeyText (key b))) ∧
    (on_text key a b = 0 ↔ KeyText (key a) = KeyText (key b))).
  { intros key. unfold on_text. split; [apply text_cmp_le|]. rewrite text_cmp_eq. split; [|by intros [= ->]].
    by intros ->%chars_eq. }
  assert (Hn : ∀ key, (on_number key a b <= 0 ↔ key_le (KeyNumber (key a)) (KeyNumber (key b))) ∧
    (on_number key a b = 0 ↔ KeyNumber (key a) = KeyNumber (key b))).
  { intros key. unfold on_number. cbn [key_le]. split; [lia|]. split; [intros; f_equal; lia|intros [= ->]; lia]. }
  unfold field_cmp. repeat (case_bool_decide; [by subst|]). unfold key_of.
  repeat (case_match; try done).
Qed.
Lemma row_cmp_order f a b : not_after (row_cmp f) a b → in_order f a b.
Proof.
  unfold not_after, row_cmp, in_order. case_bool_decide; intros Hc; (split; intros; [|]); try done; apply field_cmp_key; [done|].
  pose proof (@cmp_anti _ _ (field_comparison (f_sortField f)) b a). lia.
Qed.
Lemma row_cmp_key f a b : row_cmp f a b = 0 ↔ key_of (f_sortField f) a = key_of (f_sortField f) b.
Proof. rewrite <- (proj2 (field_cmp_key _ _ _)). unfold row_cmp. case_bool_decide; lia. Qed.

Lemma contains_split needle hay : contains needle hay = true ↔ ∃ before after, hay = before ++ needle ++ after.
Proof.
  induction hay as [|c hay IH]; cbn [contains]; rewrite orb_true_iff, bool_decide_eq_true; split.
  - intros [H|]; [|done]. exists [], []. rewrite app_nil_r. by rewrite take_nil in H.
  - intros ([|] & after & H); [|done]. left. by destruct needle.
  - intros [H|(before & after & ->)%IH]; [|by exists (c :: before), after].
    exists [], (drop (length needle) (c :: hay)). pose proof (take_drop (length needle) (c :: hay)) as Hd. by rewrite H in Hd.
  - intros ([|x before] & after & H); cbn [app] in H.
    + left. by rewrite H, take_app_length.
    + right. simplify_eq. apply IH. by exists before, after.
Qed.
Lemma ge64_at_most x n : 0 <= n < 2 ^ 53 → ge64 (of_Z n) x = true ↔ at_most x n.
Proof.
  intros Hn. rewrite of_Z_exact by done. unfold at_most, ge64. destruct x as [|[|]|q]; cbn.
  - split; [done|]. intros [?|(? & ? & _)]; done.
  - split; [by left|done].
  - split; [done|]. intros [?|(? & ? & _)]; done.
  - rewrite negb_involutive, Qle_bool_iff. split; [intros; right; by exists q|]. intros [?|(? & [= <-] & ?)]; done.
Qed.
Lemma ge64_at_least x n : 0 <= n < 2 ^ 53 → ge64 x (of_Z n) = true ↔ at_least x n.
Proof.
  intros Hn. rewrite of_Z_exact by done. unfold at_least, ge64. destruct x as [|[|]|q]; cbn.
  - split; [done|]. intros [?|(? & ? & _)]; done.
  - split; [done|]. intros [?|(? & ? & _)]; done.
  - split; [by left|done].
  - rewrite negb_involutive, Qle_bool_iff. split; [intros; right; by exists q|]. intros [?|(? & [= <-] & ?)]; done.
Qed.
Lemma implb_iff (b p : bool) (A B : Prop) : (b = true ↔ A) → (p = true ↔ B) → implb b p = true ↔ (A → B).
Proof. destruct b, p; cbn; naive_solver. Qed.
Lemma and_both (A B C D : Prop) : (A ↔ B) → (C ↔ D) → (A ∧ C ↔ B ∧ D).
Proof. tauto. Qed.
Lemma truthy_iff s : truthy s = true ↔ s ≠ "".
Proof. apply bool_decide_eq_true. Qed.
Lemma wanted_shows f r : exact_row r → wanted f r = true ↔ shows f r.
Proof.
  intros [Hc Hr]. unfold wanted, shows. cbv zeta. rewrite !andb_true_iff, !Logic.and_assoc.
  apply and_both; [|repeat apply and_both; (apply implb_iff; [apply truthy_iff|]);
    (by apply bool_decide_eq_true) || (by apply ge64_at_most) || by apply ge64_at_least].
  apply implb_iff; [apply Z.leb_le|].
  unfold query_matches, includes. rewrite !orb_true_iff, !contains_split. split.
  - intros [[(b & a & H)|(b & a & H)]|(b & a & H)]; eexists _, b, a; (split; [|exact H]); set_solver.
  - intros (t & b & a & Ht & H). rewrite !elem_of_cons in Ht. destruct Ht as [->|[->|[->|Ht]]];
      [by left; left; exists b, a|by left; right; exists b, a|by right; exists b, a|by apply not_elem_of_nil in Ht].
Qed.

(** Two arrangements that agree on every level agree on every key. *)
Lemma same_key_order f s rows k : s ≡ₚ rows → (∀ u, level (row_cmp f) u s = level (row_cmp f) u rows) →
  filter (λ r, key_of (f_sortField f) r = k) s = filter (λ r, key_of (f_sortField f) r = k) rows.
Proof.
  intros Hperm Hlev. destruct (filter (λ r, key_of (f_sortField f) r = k) rows) as [|u l] eqn:E.
  - apply Permutation_nil. rewrite Hperm. by rewrite E.
  - rewrite <-E. assert (u ∈ filter (λ r, key_of (f_sortField f) r = k) rows) as [<- _]%list_elem_of_filter by (rewrite E; by left).
    specialize (Hlev u). unfold level in Hlev.
    rewrite (list_filter_iff _ (λ y, row_cmp f u y = 0)), Hlev; [apply list_filter_iff|];
      intros y; rewrite row_cmp_key; split; congruence.
Qed.

(** C8. The page's own search shows the rows that satisfy every filter: there
    is an arrangement [s] of exactly those rows, in the chosen column's order
    (numbers by size, texts by their first difference, ascending only for
    [asc]) with rows of equal keys in the order they came in, and page [n] is
    the rows 20 (n - 1) to 20 n of [s], the total its length. *)
Theorem fallback_reference all f n : f_page f = of_Z n → 1 <= n → PAGE_SIZE * n < 2 ^ 53 → Forall exact_row all →
  ∃ chosen s, (∀ r, r ∈ all → chosen r = true ↔ shows f r) ∧
    let rows := filter (λ r, chosen r = true) all in
    s ≡ₚ rows ∧ StronglySorted (in_order f) s ∧
    (∀ k, filter (λ r, key_of (f_sortField f) r = k) s = filter (λ r, key_of (f_sortField f) r = k) rows) ∧
    fallback toLowerCase all f = Response (take 20 (drop (Z.to_nat (20 * (n - 1))) s)) (Z.of_nat (length s)) (f_page f) 20.
Proof.
  intros Hp Hn Hb Hall. exists (wanted f), (stable_sort (row_cmp f) (filter (λ r, wanted f r = true) all)).
  rewrite Forall_forall in Hall. split; [by intros r Hr; apply wanted_shows, Hall|]. intros rows.
  pose proof (stable_sort_perm (row_cmp f) rows) as Hperm. split; [done|]. split_and!.
  - apply (sorted_within (not_after (row_cmp f)) _ (λ _, True)); [by apply Forall_true| |apply stable_sort_sorted, _].
    intros a b _ _. apply row_cmp_order.
  - intros k. apply same_key_order; [done|]. intros u. apply stable_sort_stable, _.
  - exact (fallback_reference_at all f n Hp Hn Hb).
Qed.

(** The pages from the first to the last show every wanted row once, in
    order, and every page has the same total. *)
Theorem explore_pages_enumerate all f : PAGE_SIZE * (Z.of_nat (length all) + PAGE_SIZE) < 2 ^ 53 →
  let s := stable_sort (row_cmp f) (filter (λ r, wanted f r = true) all) in
  let pages := seq 1 (Z.to_nat (totalPages (Z.of_nat (length s)))) in
  mjoin ((λ n : nat, a_streams (fallback toLowerCase all (with_page (of_Z (Z.of_nat n)) f))) <$> pages) = s ∧
  s ≡ₚ filter (λ r, wanted f r = true) all ∧
  Forall (λ n : nat, a_total (fallback toLowerCase all (with_page (of_Z (Z.of_nat n)) f)) = Z.of_nat (length s)) pages.
Proof.
  intros Hb s pages. assert (Hs : (length s ≤ length all)%nat).
  { unfold s. rewrite (Permutation_length (stable_sort_perm (row_cmp f) _)). apply length_filter. }
  assert (Hpages : ∀ n : nat, n ∈ pages → fallback toLowerCase all (with_page (of_Z (Z.of_nat n)) f) =
    Response (take 20 (drop ((n - 1) * 20) s)) (Z.of_nat (length s)) (of_Z (Z.of_nat n)) PAGE_SIZE).
  { intros n [Hn1 Hn2]%elem_of_seq. unfold totalPages, PAGE_SIZE in *.
    rewrite (fallback_reference_at all (with_page (of_Z (Z.of_nat n)) f) (Z.of_nat n)); [|done|lia|unfold PAGE_SIZE; dm_lia].
    unfold PAGE_SIZE. by replace (Z.to_nat (20 * (Z.of_nat n - 1))) with ((n - 1) * 20)%nat by lia. }
  split; [|split; [apply stable_sort_perm|]].
  - etrans; [|apply (pages_cover s 20 (Z.to_nat (totalPages (Z.of_nat (length s))))); [lia|unfold totalPages, PAGE_SIZE; dm_lia]].
    f_equal. unfold pages. rewrite <-fmap_S_seq, <-list_fmap_compose. apply list_fmap_ext. intros i n Hi. cbn [compose].
    apply list_elem_of_lookup_2, elem_of_seq in Hi. rewrite Hpages by (apply elem_of_seq; lia). cbn [a_streams]. by rewrite Nat.sub_succ, Nat.sub_0_r.
  - apply Forall_forall. intros n Hn. by rewrite Hpages.
Qed.
End fallback.

(** ** Theorems: the address *)

Lemma sp_get_cons k k' v sp : sp_get k ((k', v) :: sp) = if decide (k' = k) then Some v else sp_get k sp.
Proof.
  unfold sp_get. cbn [list_find fst]. case_decide; [done|]. destruct (list_find _ sp) as [[i [a b]]|]; done.
Qed.
Lemma sp_get_given k k' v sp : sp_get k (given k' v ++ sp) = if decide (k' = k ∧ v ≠ "") then Some v else sp_get k sp.
Proof.
  unfold given, truthy. case_bool_decide; cbn [app]; [rewrite sp_get_cons|]; repeat case_decide; try done; tauto.
Qed.
Lemma sp_get_given_eq k v sp : sp_get k (given k v ++ sp) = if decide (v ≠ "") then Some v else sp_get k sp.
Proof. rewrite sp_get_given. repeat case_decide; try done; naive_solver. Qed.
Lemma sp_get_given_ne k k' v sp : k' ≠ k → sp_get k (given k' v ++ sp) = sp_get k sp.
Proof. intros Hk. rewrite sp_get_given. by rewrite decide_False by naive_solver. Qed.
Definition texts_of (f : Filters) : list string :=
  [f_query f; f_token f; f_status f; f_cliffFrom f; f_cliffTo f; f_rateMin f; f_rateMax f; f_sortField f +:+ ":" +:+ f_sortDir f].
Lemma default_given v : default "" (if decide (v ≠ "") then Some v else None) = v.
Proof. by case_decide; subst. Qed.

Section address.
Context (number_text : double → string) (Hnumber : ∀ n, 1 <= n < 2 ^ 53 → number_text (of_Z n) = Z_to_string n).
Notation filtersToParams := (filtersToParams number_text).
Lemma max1_page n : 1 <= n < 2 ^ 53 → max1 (of_Z n) = of_Z n ∧ lt64 (of_Z 1) (of_Z n) = bool_decide (n ≠ 1).
Proof.
  intros Hn. assert (lt64 (of_Z 1) (of_Z n) = bool_decide (n ≠ 1)) as E.
  { rewrite (of_Z_exact n) by lia. change (of_Z 1) with (DFin (inject_Z 1)). cbn [lt64].
    destruct (Qle_bool (inject_Z n) (inject_Z 1)) eqn:Hq.
    - apply Qle_bool_iff in Hq. rewrite <-Zle_Qle in Hq. by rewrite bool_decide_eq_false_2 by lia.
    - rewrite bool_decide_eq_true_2; [done|]. intros ->. discriminate Hq. }
  split; [|done]. unfold max1. rewrite E. rewrite (of_Z_exact n) by lia. cbn [is_nan].
  case_bool_decide; [done|]. by assert (n = 1) as -> by lia.
Qed.
Lemma sp_get_page f n : f_page f = of_Z n → 1 <= n < 2 ^ 53 → max1 (Number (default "1" (sp_get "page" (filtersToParams f)))) = of_Z n.
Proof.
  intros Hp Hn. destruct (max1_page n Hn) as [Hm Hlt]. unfold Explore.filtersToParams. rewrite Hp, Hlt, !sp_get_given_ne by done.
  case_bool_decide as H1.
  - cbn [app]. rewrite sp_get_cons, decide_True by done. cbn [default id]. by rewrite Hnumber, Number_Z.
  - assert (n = 1) as -> by (destruct (decide (n = 1)); tauto). cbn [app].
    case_match; [|done]. by rewrite sp_get_cons, decide_False.
Qed.
Lemma sp_get_sort f n : f_page f = of_Z n → 1 <= n < 2 ^ 53 →
  default "status:asc" (sp_get "sort" (filtersToParams f)) = f_sortField f +:+ ":" +:+ f_sortDir f.
Proof.
  intros Hp Hn. destruct (max1_page n Hn) as [Hm Hlt]. unfold Explore.filtersToParams. rewrite Hp, Hlt, !sp_get_given_ne by done.
  assert (Hs : default "status:asc" (sp_get "sort" (if bool_decide (f_sortField f ≠ "status") || bool_decide (f_sortDir f ≠ "asc")
     then [("sort", f_sortField f +:+ ":" +:+ f_sortDir f)] else [])) = f_sortField f +:+ ":" +:+ f_sortDir f).
  { destruct (bool_decide (f_sortField f ≠ "status") || bool_decide (f_sortDir f ≠ "asc")) eqn:E; [by rewrite sp_get_cons, decide_True|].
    apply orb_false_iff in E as [E1%bool_decide_eq_false E2%bool_decide_eq_false]. apply dec_stable in E1, E2. by rewrite E1, E2. }
  destruct (bool_decide (n ≠ 1)); cbn [app]; [by rewrite sp_get_cons, decide_False|done].
Qed.
Lemma parse_params f n : f_page f = of_Z n → 1 <= n < 2 ^ 53 → ":"%char ∉ chars (f_sortField f) → ":"%char ∉ chars (f_sortDir f) →
  parseFiltersFromParams (filtersToParams f) = f.
Proof.
  intros Hp Hn H1 H2. unfold parseFiltersFromParams. rewrite (sp_get_page f n), (sp_get_sort f n) by done.
  assert (split_on ":" (f_sortField f +:+ ":" +:+ f_sortDir f) = [f_sortField f; f_sortDir f]) as ->.
  { apply (split_on_concat ":" [f_sortField f; f_sortDir f]); [done|]. by repeat constructor. }
  assert (Hrest : ∀ k, k ≠ "page" → k ≠ "sort" → sp_get k ((if lt64 (of_Z 1) (f_page f) then [("page", number_text (f_page f))] else []) ++
    (if bool_decide (f_sortField f ≠ "status") || bool_decide (f_sortDir f ≠ "asc") then [("sort", f_sortField f +:+ ":" +:+ f_sortDir f)] else [])) = None).
  { intros k Hk1 Hk2. repeat case_match; cbn [app]; repeat rewrite sp_get_cons, decide_False by done; done. }
  unfold Explore.filtersToParams. repeat first [rewrite sp_get_given_eq | rewrite sp_get_given_ne by done].
  rewrite !Hrest, !default_given by done. cbn [lookup list_lookup default]. unfold id.
  rewrite <-Hp. by destruct f.
Qed.
(** An address opened again gives the same filters: writing the parameters
    as text, as a push does, and parsing the text loses nothing, for any whole
    page number and any texts, as long as the sort has no colon in it. *)
Theorem filters_roundtrip f n : f_page f = of_Z n → 1 <= n < 2 ^ 53 → Forall well_formed (texts_of f) →
  ":"%char ∉ chars (f_sortField f) → ":"%char ∉ chars (f_sortDir f) →
  parseFiltersFromParams (parse_form (form_pairs (filtersToParams f))) = f.
Proof.
  intros Hp Hn Hw H1 H2. rewrite parse_form_pairs; [by eapply parse_params|].
  assert (Hg : ∀ k v, well_formed k → well_formed v → Forall (λ kv : string * string, well_formed kv.1 ∧ well_formed kv.2) (given k v)).
  { intros k v Hk Hv. unfold given. case_match; by repeat constructor. }
  unfold texts_of in Hw. rewrite !Forall_cons in Hw. destruct Hw as (Hw1 & Hw2 & Hw3 & Hw4 & Hw5 & Hw6 & Hw7 & Hw8 & _).
  unfold Explore.filtersToParams. rewrite !Forall_app. split_and!; try (by apply Hg).
  - case_match; [|constructor]. rewrite Hp, Hnumber by done. constructor; [|constructor]. split; [done|].
    apply to_utf8_ascii, digits_ascii. lia.
  - case_match; [|constructor]. constructor; [|constructor]. by split.
Qed.
End address.

(** The numbers under the table are consecutive pages of the list, five or
    all of them, and the page shown is one of them. *)
Theorem page_window page total : 1 <= page <= total →
  ∃ a, page_numbers page total = (λ i : nat, a + Z.of_nat i) <$> seq 0 (Z.to_nat (Z.min 5 total)) ∧
    1 <= a ∧ a + Z.min 5 total <= total + 1 ∧ page ∈ page_numbers page total.
Proof.
  intros Hp. exists (Z.max 1 (Z.min total (Z.max 1 (page - 2) + 4) - 4)). split; [done|]. split_and!; [lia..|].
  unfold page_numbers. apply list_elem_of_fmap. eexists (Z.to_nat (page - Z.max 1 (Z.min total (Z.max 1 (page - 2) + 4) - 4))).
  split; [lia|]. apply elem_of_seq. lia.
Qed.
Lemma page_window_witness : 1 <= 9 <= 10 ∧ ∃ a, page_numbers 9 10 = (λ i : nat, a + Z.of_nat i) <$> seq 0 (Z.to_nat (Z.min 5 10)) ∧
  1 <= a ∧ a + Z.min 5 10 <= 10 + 1 ∧ 9 ∈ page_numbers 9 10.
Proof. split; [lia|]. apply (page_window 9 10). lia. Defined.
Example page_window_end : page_numbers 9 10 = [6; 7; 8; 9; 10]. Proof. reflexivity. Qed.

(** ** Theorems: the page *)

Section machine.
Context (number_text : double → string).
Notation step := (explore_step number_text).
Notation run := (explore_run number_text).

(** What holds between two events: a request waits only for the filters of the
    page, a push only for a short query; and with no timer, the last request
    was for the filters, unless their query is short. *)
Definition explore_ok (p : page_state) : Prop :=
  match timer p with
  | Some (Fetch f _) => f = filters p ∧ cleanup p = true ∧ too_short f = false
  | Some (Push _) => too_short (filters p) = true
  | None => too_short (filters p) = false → q_filters <$> last (requests p) = Some (filters p)
  end.
(** Before the effect runs. *)
Definition settable (f : Filters) (p : page_state) : Prop :=
  cleanup p = true ∨ match timer p with Some (Fetch _ _) => False | _ => True end.
Lemma setFilters_ok f p : settable f p → explore_ok (setFilters f p).
Proof.
  unfold setFilters, fetch_effect, explore_ok. cbn [filters]. intros Hs. destruct (too_short f) eqn:Hf; cbn; [|done].
  destruct Hs as [Hs|Hs]; [rewrite Hs; congruence|]. revert Hs. destruct (cleanup p), (timer p) as [[]|]; congruence || done.
Qed.
Lemma ok_settable f p : explore_ok p → settable f p.
Proof. unfold explore_ok, settable. destruct (timer p) as [[]|]; intuition. Qed.
Lemma updateFilters_ok f p : explore_ok p → explore_ok (updateFilters number_text f p).
Proof. intros Hp. by apply setFilters_ok, (ok_settable f). Qed.
Lemma last_answered (rs : list request) i f : rs !! i = Some (Request f false) →
  q_filters <$> last (<[i := Request f true]> rs) = q_filters <$> last rs.
Proof.
  intros Hi. rewrite !last_lookup, length_insert, list_lookup_insert by done.
  destruct (decide (i = pred (length rs))) as [->|]; [|by rewrite decide_False by naive_solver].
  rewrite decide_True by (split; [done|by apply lookup_lt_Some in Hi]). by rewrite Hi.
Qed.
Lemma answer_ok i r p : explore_ok p → explore_ok (answer i r p).
Proof.
  unfold answer. destruct (requests p !! i) as [[f []]|] eqn:Hi; [done| |done]. unfold explore_ok.
  destruct r; cbn [timer filters requests cleanup]; destruct (timer p) as [[]|]; try done; intros Hp; by rewrite last_answered.
Qed.
Lemma explore_tick_ok p : explore_ok p → explore_ok (run_timer number_text p).
Proof.
  unfold run_timer. destruct (timer p) as [[f d|f]|] eqn:Ht; [| |done]; unfold explore_ok at 1; rewrite Ht.
  - intros (-> & _ & _) _. cbn. by rewrite last_snoc.
  - intros Hs. unfold explore_ok. cbn. congruence.
Qed.
Lemma explore_step_ok p e : explore_ok p → explore_ok (step p e).
Proof.
  intros Hp. destruct e; cbn [explore_step]; try by apply updateFilters_ok.
  - apply setFilters_ok. by right.
  - by apply explore_tick_ok.
  - by apply answer_ok.
  - apply setFilters_ok. by apply (ok_settable (parseFiltersFromParams sp)).
Qed.
Lemma mount_ok sp : explore_ok (explore_mount sp).
Proof.
  apply setFilters_ok. unfold fetch_effect, settable. cbn. by destruct (too_short _); [right|left].
Qed.
Lemma explore_run_ok sp es : explore_ok (run sp es).
Proof.
  unfold explore_run. pose proof (mount_ok sp) as H. revert H. generalize (explore_mount sp).
  induction es as [|e es IH]; intros p Hp; [done|]. cbn [foldl]. by apply IH, explore_step_ok.
Qed.
(** No change of the filters is missed: after any events, the query has one
    or two characters, or a request for the filters waits for its delay, or the
    last request sent was for them. *)
Theorem latest_filters_requested sp es :
  let p := run sp es in
  too_short (filters p) = true ∨ (∃ d, timer p = Some (Fetch (filters p) d)) ∨ (∃ b, last (requests p) = Some (Request (filters p) b)).
Proof.
  intros p. pose proof (explore_run_ok sp es) as Hp. fold p in Hp. unfold explore_ok in Hp. destruct (timer p) as [[f d|f]|].
  - destruct Hp as (-> & _). right. left. by exists d.
  - by left.
  - destruct (too_short (filters p)); [by left|]. right. right. specialize (Hp eq_refl).
    destruct (last (requests p)) as [[f b]|]; [|done]. cbn in Hp. injection Hp as ->. by exists b.
Qed.

(** Events that are not the user's. *)
Definition quiet (e : explore_event) : bool := match e with Tick | Answer _ _ => true | _ => false end.
Lemma quiet_no_push es p : forallb quiet es = true → match timer p with Some (Push _) => False | _ => True end →
  pushed (foldl step p es) = pushed p.
Proof.
  revert p. induction es as [|e es IH]; intros p; [done|]. cbn [forallb foldl]. intros [He Hes]%andb_true_iff Ht.
  assert (pushed (step p e) = pushed p ∧ match timer (step p e) with Some (Push _) => False | _ => True end) as [<- Ht'].
  { destruct e; try done; cbn [explore_step].
    - unfold run_timer. destruct (timer p) as [[]|] eqn:Hx; try done. by rewrite Hx.
    - unfold answer. destruct (requests p !! i) as [[f []]|]; [done| |done]. by destruct r. }
  by apply IH.
Qed.
(** A search typed never reaches the address: the effect on the filters
    clears the timer of the push, so waiting pushes nothing. *)
Theorem typed_search_not_pushed p v es : too_short (with_query v (filters p)) = false → forallb quiet es = true →
  pushed (foldl step p (Typed v :: es)) = pushed p.
Proof.
  intros Hv Hes. cbn [foldl explore_step]. unfold handleQueryChange, setFilters, fetch_effect. cbn [filters cleanup timer set_timer].
  rewrite Hv. by rewrite quiet_no_push.
Qed.

(** Changes of the panel, the sort and the page. *)
Definition keeps_query (e : explore_event) : bool := match e with Typed _ | Reset | Navigate _ => false | _ => true end.
Lemma setFilters_short f p : too_short f = true → too_short (filters (setFilters f p)) = true ∧ requests (setFilters f p) = requests p.
Proof. intros Hf. unfold setFilters, fetch_effect. cbn [filters]. by rewrite Hf. Qed.
Lemma short_step p e : explore_ok p → too_short (filters p) = true → keeps_query e = true →
  too_short (filters (step p e)) = true ∧ q_filters <$> requests (step p e) = q_filters <$> requests p.
Proof.
  intros Hp Hs He.
  assert (Hset : ∀ f p', f_query f = f_query (filters p) → requests p' = requests p →
    too_short (filters (setFilters f p')) = true ∧ q_filters <$> requests (setFilters f p') = q_filters <$> requests p).
  { intros f p' Hf <-. destruct (setFilters_short f p') as [-> ->]; [|done]. unfold too_short in *. by rewrite Hf. }
  destruct e; try done; cbn [explore_step]; try by apply Hset.
  - unfold run_timer. unfold explore_ok in Hp. destruct (timer p) as [[f d|f]|]; [|done..]. destruct Hp as (-> & _ & Hp). congruence.
  - unfold answer. destruct (requests p !! i) as [[f []]|] eqn:Hi; [done| |done].
    split; [by destruct r|]. assert (q_filters <$> <[i:=Request f true]> (requests p) = q_filters <$> requests p) as E.
    { rewrite list_fmap_insert. apply list_insert_id. by rewrite list_lookup_fmap, Hi. }
    by destruct r.
Qed.
(** With one or two characters in the search box the list is frozen: the
    panel, the sort and the page buttons change the filters and the address and
    send no request, however long one waits. *)
Theorem short_query_freezes sp es es' : let p := run sp es in too_short (filters p) = true → forallb keeps_query es' = true →
  q_filters <$> requests (run sp (es ++ es')) = q_filters <$> requests p.
Proof.
  intros p. unfold explore_run. rewrite foldl_app. fold (explore_run number_text sp es). fold p.
  pose proof (explore_run_ok sp es) as Hp. fold p in Hp. clearbody p. revert p Hp.
  induction es' as [|e es' IH]; intros p Hp Hs; [done|]. cbn [forallb foldl]. intros [He Hes]%andb_true_iff.
  destruct (short_step p e) as [Hs' <-]; [done..|]. apply IH; [by apply explore_step_ok|done..].
Qed.

(** The page settles: once its timer has run, the last request is for its
    filters, and a good answer to it is what is shown. *)
Theorem explore_settles sp es a : let p := step (run sp es) Tick in too_short (filters p) = false →
  ∃ i b, requests p !! i = Some (Request (filters p) b) ∧ last (requests p) = requests p !! i ∧
    (b = false → let p' := step p (Answer i (Ok a)) in result_ p' = Some a ∧ loading p' = false ∧ filters p' = filters p).
Proof.
  intros p Hs. pose proof (explore_run_ok sp es) as Hp.
  assert (timer p = None) as Ht.
  { unfold p. cbn [explore_step]. unfold run_timer. destruct (timer (run sp es)) as [[]|] eqn:E; done. }
  pose proof (explore_step_ok _ Tick Hp) as Hok. fold p in Hok. unfold explore_ok in Hok. rewrite Ht in Hok. specialize (Hok Hs).
  exists (pred (length (requests p))). rewrite last_lookup in *. destruct (requests p !! _) as [[f b]|] eqn:Hl; [|done].
  cbn in Hok. injection Hok as ->. exists b. do 2 (split; [done|]). intros ->. cbn [explore_step]. unfold answer. by rewrite Hl.
Qed.
End machine.

(** ** Examples and witnesses *)

(** [String] of a whole number, for the examples. *)
Definition whole_text (x : double) : string := match x with DFin q => Z_to_string (Qfloor q) | _ => "NaN" end.
Lemma whole_text_Z n : 1 <= n < 2 ^ 53 → whole_text (of_Z n) = Z_to_string n.
Proof. intros Hn. rewrite of_Z_exact by lia. unfold whole_text. by rewrite Qfloor_Z. Qed.
Definition demo_streams : list StreamRow := generateMockStreams (λ i, i * 37 `mod` 100) 30.
Definition demo_filters : Filters := with_page (of_Z 2) (with_sort "token" "desc" (with_query "" no_filters)).

Lemma demo_exact : Forall exact_row demo_streams.
Proof. apply (bool_decide_unpack _). vm_compute. exact I. Qed.
Lemma fallback_reference_witness :
  (∃ s, s ≡ₚ demo_streams ∧ fallback (λ x, x) demo_streams demo_filters = Response (take 20 (drop 20 s)) 30 (of_Z 2) 20) ∧
  r_id <$> a_streams (fallback (λ x, x) demo_streams demo_filters) = ["21"; "25"; "29"; "4"; "8"; "12"; "16"; "20"; "24"; "28"].
Proof.
  split; [|vm_compute; reflexivity].
  destruct (fallback_reference (λ x, x) demo_streams demo_filters 2 eq_refl ltac:(done) ltac:(done) demo_exact) as (p & s & Hp & Hs & _ & _ & Hf).
  cbv zeta in Hs. rewrite filter_all in Hs.
  - exists s. split; [exact Hs|]. rewrite Hf. rewrite (Permutation_length Hs). reflexivity.
  - intros r Hr. apply Hp; [exact Hr|]. unfold shows. split; [vm_compute; congruence|]. split_and!; intros []; reflexivity.
Defined.
Lemma explore_pages_enumerate_witness : PAGE_SIZE * (Z.of_nat (length demo_streams) + PAGE_SIZE) < 2 ^ 53 ∧
  let s := stable_sort (row_cmp demo_filters) (filter (λ r, wanted (λ x, x) demo_filters r = true) demo_streams) in
  mjoin ((λ n : nat, a_streams (fallback (λ x, x) demo_streams (with_page (of_Z (Z.of_nat n)) demo_filters))) <$> seq 1 2) = s.
Proof.
  split; [done|]. intros s. assert (Hb : PAGE_SIZE * (Z.of_nat (length demo_streams) + PAGE_SIZE) < 2 ^ 53) by done.
  pose proof (explore_pages_enumerate (λ x, x) demo_streams demo_filters Hb) as H. cbv zeta in H. fold s in H.
  assert (Z.to_nat (totalPages (Z.of_nat (length s))) = 2%nat) as Hn by (vm_compute; reflexivity). rewrite Hn in H. apply H.
Defined.
Definition demo_panel : Filters := Filters_ "GA b&c" "USDC" "pre-cliff" "51200000" "" "10" "" (of_Z 3) "rate" "desc".
Lemma filters_roundtrip_witness : parseFiltersFromParams (parse_form (form_pairs (filtersToParams whole_text demo_panel))) = demo_panel ∧
  form_pairs (filtersToParams whole_text demo_panel) =
    "q=GA+b%26c&token=USDC&status=pre-cliff&cliffFrom=51200000&rateMin=10&page=3&sort=rate%3Adesc".
Proof.
  split; [|vm_compute; reflexivity]. apply (filters_roundtrip whole_text whole_text_Z demo_panel 3); [done|done| |by apply (bool_decide_unpack _)|by apply (bool_decide_unpack _)].
  repeat constructor.
Defined.
(** A search is sent after the delay and stays out of the address. *)
Lemma typed_search_not_pushed_witness :
  pushed (foldl (explore_step whole_text) (explore_mount []) [Typed "GAB"; Tick; Answer 0 (Err tt); Tick; Tick]) = [].
Proof. apply (typed_search_not_pushed whole_text (explore_mount []) "GAB" [Tick; Answer 0 (Err tt); Tick; Tick]); reflexivity. Defined.
(** Two characters are pushed: the run of the effect before had no clean-up. *)
Example short_text_pushed : pushed (explore_run whole_text [] [Typed "G"; Typed "GA"; Tick]) = [[("q", "GA")]].
Proof. reflexivity. Qed.
Lemma short_query_freezes_witness :
  q_filters <$> requests (explore_run whole_text [] [Tick; Typed "GA"; Panel Status "active"; Sorted_ "rate"; Tick; Tick]) = [no_filters] ∧
  f_status (filters (explore_run whole_text [] [Tick; Typed "GA"; Panel Status "active"])) = "active".
Proof.
  split; [|reflexivity].
  change (explore_run whole_text [] [Tick; Typed "GA"; Panel Status "active"; Sorted_ "rate"; Tick; Tick])
    with (explore_run whole_text [] ([Tick; Typed "GA"] ++ [Panel Status "active"; Sorted_ "rate"; Tick; Tick])).
  rewrite (short_query_freezes whole_text [] [Tick; Typed "GA"] [Panel Status "active"; Sorted_ "rate"; Tick; Tick]) by reflexivity. reflexivity.
Defined.
Definition demo_answer (n : Z) : ApiResponse := Response [] n (of_Z 1) PAGE_SIZE.
Lemma explore_settles_witness :
  ∃ i b, requests (explore_run whole_text [] [Tick; Typed "USDC"; Tick]) !! i =
    Some (Request (filters (explore_run whole_text [] [Tick; Typed "USDC"; Tick])) b).
Proof.
  destruct (explore_settles whole_text [] [Tick; Typed "USDC"] (demo_answer 4) eq_refl) as (i & b & Hi & _). exists i, b. exact Hi.
Defined.
(** Answers are not matched with the filters: a late one is shown. *)
Example late_answer_shown :
  let p := explore_run whole_text [] [Tick; Typed "USDC"; Tick; Answer 1 (Ok (demo_answer 4)); Answer 0 (Ok (demo_answer 87))] in
  f_query (filters p) = "USDC" ∧ shown_total p = 87 ∧ loading p = false.
Proof. by vm_compute. Qed.
(** The first answer ends the loading of the second request. *)
Example loading_ends_early :
  let p := explore_run whole_text [] [Tick; Sorted_ "rate"; Tick; Answer 0 (Ok (demo_answer 87))] in
  requests p !! 1%nat = Some (Request (with_sort "rate" "asc" no_filters) false) ∧ loading p = false.
Proof. by vm_compute. Qed.
(** Text typed between a push and its navigation is lost. *)
Example navigation_drops_text :
  let es := [Tick; Sorted_ "rate"; Typed "USDC"] in
  f_query (filters (explore_run whole_text [] es)) = "USDC" ∧
  f_query (filters (explore_run whole_text [] (es ++ (Navigate <$> pushed (explore_run whole_text [] es))))) = "".
Proof. by vm_compute. Qed.
(** A page that is not a number counts the rows and shows none. *)
Example nan_page :
  let f := parseFiltersFromParams [("page", "abc")] in
  f_page f = DNaN ∧ fallback (λ x, x) demo_streams f = Response [] 30 DNaN PAGE_SIZE.
Proof. by vm_compute. Qed.
(** A sort field that is none of the seven sorts by the text of the id. *)
Example unknown_field :
  r_id <$> take 4 (a_streams (fallback (λ x, x) demo_streams (parseFiltersFromParams [("sort", "amount:asc")]))) = ["1"; "10"; "11"; "12"].
Proof. by vm_compute. Qed.
(** A sort with no direction in it sorts in descending order, which is not the
    default. *)
Example empty_direction :
  f_sortDir (parseFiltersFromParams [("sort", "rate:")]) = "" ∧ f_sortDir (parseFiltersFromParams [("sort", "rate")]) = "asc".
Proof. by vm_compute. Qed.
(** A body that is not JSON is an error; a status that is not 2xx falls back. *)
Example body_not_awaited :
  fetchStreams (λ x, x) demo_streams demo_filters (Body None) = Err tt ∧
  (∃ a, fetchStreams (λ x, x) demo_streams demo_filters NotOk = Ok a).
Proof. split; [done|]. by eexists. Qed.
