(* ===== verification/DataTable.v ===== *)
(** * The data table

    frontend/src/components/DataTable.tsx, the sorted and paged table of the
    dashboards, and SponsorStreamTable.tsx, which gives it its columns.  [T] is
    the type of a row.  Page numbers are whole, as every caller's are. *)
From Stdlib Require Import QArith Sorting.
From stdpp Require Import list sorting.
From S2P Require Import Prelude Digits Double ArraySort.
#[local] Open Scope Z_scope.

(** ** Data *)

Inductive SortDirection := Asc | Desc.
Inductive SortType := SString | SNumber | SDate.
#[export] Instance direction_eq_dec : EqDecision SortDirection.
Proof. solve_decision. Defined.
(** A [Date] is its time value; [null] and [undefined] are blank. *)
Inductive DataTableValue := VText (s : string) | VNumber (x : double) | VDate (t : double) | VBlank.
Record DataTableSort := Sort { s_key : string; s_direction : SortDirection }.
#[export] Instance sort_eq_dec : EqDecision DataTableSort.
Proof. solve_decision. Defined.
Record DataTableColumn (T : Type) := Column {
  key : string; header : string; sortType : option SortType; sortValue : option (T → DataTableValue); sortable : option bool }.
Arguments Column {T}.
Arguments key {T}.
Arguments header {T}.
Arguments sortType {T}.
Arguments sortValue {T}.
Arguments sortable {T}.
(** The two callbacks are given or not. *)
Record DataTablePagination := Pagination {
  g_page : option Z; g_pageSize : option Z; g_total : option Z; onPageChange : bool; onPageSizeChange : bool }.
Definition no_pagination : DataTablePagination := Pagination None None None false false.
Record DataTableProps (T : Type) := Props { columns : list (DataTableColumn T); data : list T; pagination : DataTablePagination }.
Arguments Props {T}.
Arguments columns {T}.
Arguments data {T}.
Arguments pagination {T}.

Definition DATA_TABLE_PAGE_SIZES : list Z := [10; 25; 50].

(** ** Comparison *)

(** [x === y] *)
Definition eq64 (x y : double) : bool :=
  match x, y with DFin p, DFin q => Qeq_bool p q | DInf s, DInf t => Bool.eqb s t | _, _ => false end.
(** The numbers and the dates of [compareValues]. *)
Definition compare_numbers (left right : double) : Z :=
  if is_nan left && is_nan right then 0 else if is_nan left then 1 else if is_nan right then -1
  else if eq64 left right then 0 else if lt64 left right then -1 else 1.

Definition isBlank (v : DataTableValue) : bool := match v with VBlank => true | _ => false end.

Section table.
(** [String(x)] of a number and of a date, [Date.parse] and [localeCompare]. *)
Context {T : Type} (number_text date_text : double → string) (date_parse : string → double) (collate : string → string → Z).

(** [Number(v)], [toTime(v)] and [String(v)] of a value that is not blank. *)
Definition to_number (v : DataTableValue) : double := match v with VText s => Number s | VNumber x => x | VDate t => t | VBlank => DNaN end.
Definition toTime (v : DataTableValue) : double := match v with VText s => date_parse s | VNumber x => x | VDate t => t | VBlank => DNaN end.
Definition to_text (v : DataTableValue) : string := match v with VText s => s | VNumber x => number_text x | VDate t => date_text t | VBlank => "" end.
Definition compareValues (a b : DataTableValue) (type : SortType) : Z :=
  if isBlank a && isBlank b then 0 else if isBlank a then 1 else if isBlank b then -1
  else match type with
  | SNumber => compare_numbers (to_number a) (to_number b)
  | SDate => compare_numbers (toTime a) (toTime b)
  | SString => collate (to_text a) (to_text b)
  end.

Definition isSortable (c : DataTableColumn T) : bool := bool_decide (sortable c ≠ Some false) && bool_decide (is_Some (sortValue c)).
Definition cellValue (c : DataTableColumn T) (row : T) : DataTableValue := match sortValue c with Some f => f row | None => VBlank end.
Definition sign (d : SortDirection) : Z := if decide (d = Asc) then 1 else -1.
Definition row_order (c : DataTableColumn T) (d : SortDirection) (l r : T) : Z :=
  let a := cellValue c l in
  let b := cellValue c r in
  if isBlank a && isBlank b then 0 else if isBlank a then 1 else if isBlank b then -1
  else sign d * compareValues a b (default SString (sortType c)).
Definition sortRows (rows : list T) (c : DataTableColumn T) (d : SortDirection) : list T := stable_sort (row_order c d) rows.

(** ** The table *)

Record table_state := Table { sort : option DataTableSort; hiddenKeys : list string; page : Z; pageSize : Z }.
Definition table_mount (p : DataTableProps T) (initialSort : option DataTableSort) : table_state :=
  Table initialSort [] (default 1 (g_page (pagination p))) (default 25 (g_pageSize (pagination p))).

Definition isClientPaginated (p : DataTableProps T) : bool := bool_decide (g_total (pagination p) = None).
Definition showPageSize (p : DataTableProps T) : bool := isClientPaginated p || onPageSizeChange (pagination p).
Definition visibleColumns (p : DataTableProps T) (t : table_state) : list (DataTableColumn T) :=
  filter (λ c, key c ∉ hiddenKeys t) (columns p).
Definition column_of (p : DataTableProps T) (k : string) : option (DataTableColumn T) := snd <$> list_find (λ c, key c = k) (columns p).
Definition sortedRows (p : DataTableProps T) (t : table_state) : list T :=
  match sort t with
  | None => data p
  | Some s => match column_of p (s_key s) with None => data p | Some c => sortRows (data p) c (s_direction s) end
  end.
Definition totalRows (p : DataTableProps T) (t : table_state) : Z := default (Z.of_nat (length (sortedRows p t))) (g_total (pagination p)).
(** [Math.max(1, Math.ceil(total / size))] *)
Definition page_count (total size : Z) : Z := Z.max 1 ((total + size - 1) / size).
Definition totalPages (p : DataTableProps T) (t : table_state) : Z := page_count (totalRows p t) (pageSize t).
Definition currentPage (p : DataTableProps T) (t : table_state) : Z := Z.min (default (page t) (g_page (pagination p))) (totalPages p t).
Definition visibleRows (p : DataTableProps T) (t : table_state) : list T :=
  if isClientPaginated p then slice_Z ((currentPage p t - 1) * pageSize t) (currentPage p t * pageSize t) (sortedRows p t)
  else sortedRows p t.
Definition rangeStart (p : DataTableProps T) (t : table_state) : Z :=
  if totalRows p t =? 0 then 0 else (currentPage p t - 1) * pageSize t + 1.
Definition rangeEnd (p : DataTableProps T) (t : table_state) : Z := Z.min (currentPage p t * pageSize t) (totalRows p t).
Definition isEmpty (isLoading : bool) (p : DataTableProps T) (t : table_state) : bool := negb isLoading && bool_decide (visibleRows p t = []).

(** The default labels, and the text for screen readers. *)
Definition showing (from to total : Z) : string :=
  "Showing " +:+ Z_to_string from +:+ " to " +:+ Z_to_string to +:+ " of " +:+ Z_to_string total.
Definition sortedBy (h : string) (d : SortDirection) : string := h +:+ ", sorted " +:+ (if decide (d = Asc) then "ascending" else "descending").
Definition statusText (p : DataTableProps T) (t : table_state) : string :=
  match sort t with
  | Some s => sortedBy (default (s_key s) (header <$> column_of p (s_key s))) (s_direction s) +:+ ". "
  | None => ""
  end +:+ showing (rangeStart p t) (rangeEnd p t) (totalRows p t).
Definition aria_sort (t : table_state) (c : DataTableColumn T) : option string :=
  if isSortable c then
    match sort t with
    | Some s => if decide (s_key s = key c) then Some (if decide (s_direction s = Asc) then "ascending" else "descending") else Some "none"
    | None => Some "none"
    end
  else None.

(** ** The handlers, with the callbacks they call *)

Inductive callback := PageChanged (n : Z) | PageSizeChanged (n : Z).
Definition page_changed (p : DataTableProps T) (n : Z) : list callback := if onPageChange (pagination p) then [PageChanged n] else [].
Definition goToPage (p : DataTableProps T) (next : Z) (t : table_state) : table_state * list callback :=
  let clamped := Z.min (Z.max next 1) (totalPages p t) in
  (Table (sort t) (hiddenKeys t) clamped (pageSize t), page_changed p clamped).
Definition changePageSize (p : DataTableProps T) (next : Z) (t : table_state) : table_state * list callback :=
  (Table (sort t) (hiddenKeys t) 1 next,
   (if onPageSizeChange (pagination p) then [PageSizeChanged next] else []) ++ page_changed p 1).
Definition next_sort (k : string) (previous : option DataTableSort) : option DataTableSort :=
  match previous with
  | Some s => if decide (s_key s = k) then if decide (s_direction s = Asc) then Some (Sort k Desc) else None else Some (Sort k Asc)
  | None => Some (Sort k Asc)
  end.
Definition toggleSort (p : DataTableProps T) (k : string) (t : table_state) : table_state * list callback :=
  let s := next_sort k (sort t) in
  if isClientPaginated p then (Table s (hiddenKeys t) 1 (pageSize t), page_changed p 1)
  else (Table s (hiddenKeys t) (page t) (pageSize t), []).
Definition toggle_key (k : string) (hidden : list string) : list string := if decide (k ∈ hidden) then filter (λ e, e ≠ k) hidden else hidden ++ [k].
Definition toggleColumn (k : string) (t : table_state) : table_state * list callback :=
  (Table (sort t) (toggle_key k (hiddenKeys t)) (page t) (pageSize t), []).

(** What a person can press: the size menu has the three sizes, the sort button
    is on sortable columns. *)
Inductive table_event := GoTo (n : Z) | Size (n : Z) | PressSort (k : string) | PressColumn (k : string).
Definition offered (p : DataTableProps T) (e : table_event) : bool :=
  match e with
  | GoTo _ | PressColumn _ => true
  | Size n => showPageSize p && bool_decide (n ∈ DATA_TABLE_PAGE_SIZES)
  | PressSort k => match column_of p k with Some c => isSortable c | None => false end
  end.
Definition table_step (p : DataTableProps T) (e : table_event) (t : table_state) : table_state * list callback :=
  match e with
  | GoTo n => goToPage p n t
  | Size n => changePageSize p n t
  | PressSort k => toggleSort p k t
  | PressColumn k => toggleColumn k t
  end.
(** A run, with the props of each step. *)
Fixpoint table_run (t : table_state) (es : list (DataTableProps T * table_event)) : table_state :=
  match es with
  | [] => t
  | (p, e) :: es' => table_run (if offered p e then (table_step p e t).1 else t) es'
  end.
End table.

(** ** The table of a sponsor's streams *)

Definition DEFAULT_PAGE_SIZE : Z := 25.
Definition toPageSize (pageSize : Z) : Z := default DEFAULT_PAGE_SIZE (snd <$> list_find (λ size, size = pageSize) DATA_TABLE_PAGE_SIZES).
(** types.ts; the totals of an owner's view are left out. *)
Record VestingStream := Stream {
  id : string; streamId : option Z; recipient : string; sponsor : string; token : string; rate : Z; claimableAmount : Z; status : string;
  startLedger : option Z; cliffLedger : option Z; endLedger : option Z; totalDeposit : option Z;
  clawbackEligible : option bool; clawbackAmount : option Z }.
(** Milliseconds since the epoch; [now] is the time of the render. *)
Definition ledgerToDate (now : Z) (ledger : option Z) : option Z :=
  match ledger with
  | Some l => if l =? 0 then None else Some (now + (l - 51200000) * 5 * 1000)
  | None => None
  end.
Definition date_value (d : option Z) : DataTableValue := match d with Some t => VDate (of_Z t) | None => VBlank end.
Definition sponsor_columns (now : Z) : list (DataTableColumn VestingStream) :=
  [Column "recipient" "Recipient" (Some SString) (Some (λ s, VText (recipient s))) None;
   Column "status" "Status" (Some SString) (Some (λ s, VText (status s))) None;
   Column "cliffDate" "Cliff Date" (Some SDate) (Some (λ s, date_value (ledgerToDate now (cliffLedger s)))) None;
   Column "endDate" "End Date" (Some SDate) (Some (λ s, date_value (ledgerToDate now (endLedger s)))) None;
   Column "claimable" "Claimable" (Some SNumber) (Some (λ s, VNumber (of_Z (claimableAmount s)))) None;
   Column "actions" "Actions" None None (Some false)].
(** The buttons of the last column. *)
Definition cancel_disabled (s : VestingStream) : bool := bool_decide (status s = "cancelled") || bool_decide (status s = "completed").
Definition clawback_shown (s : VestingStream) : bool := bool_decide (clawbackEligible s = Some true).
Definition clawback_disabled (given : bool) (s : VestingStream) : bool :=
  negb given || (negb (bool_decide (status s = "active")) && negb (bool_decide (status s = "pre-cliff"))).
Definition sponsor_props (now : Z) (streams : list VestingStream) (page pageSize total : Z) : DataTableProps VestingStream :=
  Props (sponsor_columns now) streams (Pagination (Some page) (Some (toPageSize pageSize)) (Some total) true false).

(** ** Lemmas: comparison *)

Lemma compare_fin p q : compare_numbers (DFin p) (DFin q) = match (p ?= q)%Q with Eq => 0 | Lt => -1 | Gt => 1 end.
Proof.
  unfold compare_numbers. cbn. destruct (Qcompare_spec p q) as [E|E|E].
  - by rewrite (proj2 (Qeq_bool_iff p q)).
  - destruct (Qeq_bool p q) eqn:Hb; [apply Qeq_bool_iff in Hb; rewrite Hb in E; by apply Qlt_irrefl in E|].
    destruct (Qle_bool q p) eqn:Hl; [|done]. apply Qle_bool_iff in Hl. by apply Qlt_not_le in E.
  - destruct (Qeq_bool p q) eqn:Hb; [apply Qeq_bool_iff in Hb; rewrite Hb in E; by apply Qlt_irrefl in E|].
    by rewrite (proj2 (Qle_bool_iff q p)) by (by apply Qlt_le_weak).
Qed.
Lemma compare_fin_le p q : compare_numbers (DFin p) (DFin q) <= 0 ↔ (p <= q)%Q.
Proof. rewrite compare_fin, Qle_alt. destruct (p ?= q)%Q; split; intros; lia || done. Qed.
Lemma compare_fin_opp p q : compare_numbers (DFin q) (DFin p) = - compare_numbers (DFin p) (DFin q).
Proof. rewrite !compare_fin, <-(Qcompare_antisym p q). by destruct (p ?= q)%Q. Qed.
#[export] Instance compare_numbers_comparison : Comparison compare_numbers.
Proof.
  split.
  - intros [|[]|q]; [done..|]. rewrite compare_fin. by rewrite (proj1 (Qeq_alt q q) (Qeq_refl q)).
  - intros [|[]|p] [|[]|q]; try (cbn; lia). rewrite (compare_fin_opp p q). lia.
  - intros [|[]|p] [|[]|q] [|[]|r]; try (cbn; lia). rewrite !compare_fin_le. apply Qle_trans.
Qed.

(** A permuted list ends with its blanks. *)
Section sorting.
Context {T : Type} (number_text date_text : double → string) (date_parse : string → double) (collate : string → string → Z).
Context `{!Comparison collate}.
Notation compareValues := (compareValues number_text date_text date_parse collate).
Notation row_order := (row_order (T := T) number_text date_text date_parse collate).
Notation sortRows := (sortRows (T := T) number_text date_text date_parse collate).
Notation sortedRows := (sortedRows (T := T) number_text date_text date_parse collate).

(** [compareValues] orders the values, blanks last: its answers are those of a
    total preorder for each of the three types, unparseable numbers and dates
    included, when [localeCompare]'s are. *)
Lemma compareValues_comparison type : Comparison (λ a b, compareValues a b type).
Proof.
  change (Comparison (blanks_after isBlank (λ a b, match type with
    | SNumber => compare_numbers (to_number a) (to_number b) | SDate => compare_numbers (toTime date_parse a) (toTime date_parse b)
    | SString => collate (to_text number_text date_text a) (to_text number_text date_text b) end))).
  apply blanks_after_comparison. destruct type; apply keyed_comparison; apply _.
Qed.
(** The order of the rows with a value. *)
Definition value_order (c : DataTableColumn T) (d : SortDirection) (l r : T) : Z :=
  sign d * compareValues (cellValue c l) (cellValue c r) (default SString (sortType c)).
Definition no_value (c : DataTableColumn T) (row : T) : bool := isBlank (cellValue c row).
#[local] Instance value_comparison c d : Comparison (value_order c d).
Proof.
  pose proof (keyed_comparison (cellValue c) _ (compareValues_comparison (default SString (sortType c)))) as H.
  destruct d; [|apply reversed_comparison in H]; refine (comparison_ext _ _ _ H); intros x y; unfold value_order, sign; cbn [decide]; case_decide; done || lia.
Qed.
#[local] Instance row_comparison c d : Comparison (row_order c d).
Proof. apply (blanks_after_comparison (no_value c) (value_order c d)). Qed.
(** *** What a sorted table is to show, in terms of its own

    What a cell says under its column's type (a column without a type compares
    texts), and which cell may stand before which: numbers and times by size,
    what is no number after all numbers, texts as the collation has them. *)
Inductive cell := CNumber (x : double) | CText (s : string).
Definition reading (type : option SortType) (v : DataTableValue) : option cell :=
  match v, type with
  | VBlank, _ => None
  | VText s, Some SNumber => Some (CNumber (Number s))
  | VText s, Some SDate => Some (CNumber (date_parse s))
  | VText s, _ => Some (CText s)
  | VNumber x, (Some SNumber | Some SDate) => Some (CNumber x)
  | VNumber x, _ => Some (CText (number_text x))
  | VDate t, (Some SNumber | Some SDate) => Some (CNumber t)
  | VDate t, _ => Some (CText (date_text t))
  end.
Definition cell_of (c : DataTableColumn T) (row : T) : option cell :=
  match sortValue c with Some f => reading (sortType c) (f row) | None => None end.
Inductive number_le : double → double → Prop :=
| number_le_nan x : number_le x DNaN
| number_le_least y : number_le (DInf true) y
| number_le_greatest x : x ≠ DNaN → number_le x (DInf false)
| number_le_fin p q : (p <= q)%Q → number_le (DFin p) (DFin q).
Definition cell_le (a b : option cell) : Prop :=
  match a, b with
  | Some (CNumber x), Some (CNumber y) => number_le x y
  | Some (CText s), Some (CText t) => collate s t <= 0
  | _, _ => False
  end.
Definition in_direction (c : DataTableColumn T) (d : SortDirection) (l r : T) : Prop :=
  match d with Asc => cell_le (cell_of c l) (cell_of c r) | Desc => cell_le (cell_of c r) (cell_of c l) end.
Definition same_cell (c : DataTableColumn T) (l r : T) : Prop :=
  cell_le (cell_of c l) (cell_of c r) ∧ cell_le (cell_of c r) (cell_of c l).

Lemma compare_numbers_le x y : compare_numbers x y <= 0 ↔ number_le x y.
Proof.
  split.
  - destruct x as [|[]|p], y as [|[]|q]; try (by rewrite compare_fin_le; constructor); cbn; try (intros; constructor; done); lia.
  - intros [x'|y'|x' Hx|p q H].
    + by destruct x'.
    + by destruct y' as [|[]|].
    + by destruct x' as [|[]|].
    + by apply compare_fin_le.
Qed.
Lemma cell_of_blank c row : cell_of c row = None ↔ no_value c row = true.
Proof.
  unfold cell_of, no_value, cellValue. destruct (sortValue c) as [f|]; [|done].
  unfold reading. by destruct (f row), (sortType c) as [[]|].
Qed.
Lemma compare_cells c l r : no_value c l = false → no_value c r = false →
  compareValues (cellValue c l) (cellValue c r) (default SString (sortType c)) <= 0 ↔ cell_le (cell_of c l) (cell_of c r).
Proof.
  unfold cell_of, no_value, cellValue, DataTable.compareValues. destruct (sortValue c) as [f|]; [|done]. intros Hl Hr.
  rewrite Hl, Hr. cbn [andb]. unfold reading. destruct (f l), (f r); try done; destruct (sortType c) as [[]|]; cbn [cell_le default]; done || apply compare_numbers_le.
Qed.
Lemma value_order_direction c d l r : no_value c l = false → no_value c r = false →
  not_after (value_order c d) l r ↔ in_direction c d l r.
Proof.
  intros Hl Hr. unfold not_after, in_direction. destruct d.
  - rewrite <-compare_cells by done. unfold value_order, sign. rewrite decide_True by done. lia.
  - rewrite <-compare_cells by done. pose proof (@cmp_anti _ _ (value_comparison c Asc) r l) as H.
    unfold value_order, sign in *. rewrite decide_False by done. rewrite !decide_True in H by done. lia.
Qed.

Lemma filter_within {A} (P Q : A → Prop) `{∀ x, Decision (P x), ∀ x, Decision (Q x)} (l : list A) :
  (∀ x, x ∈ l → P x ↔ Q x) → filter P l = filter Q l.
Proof.
  induction l as [|x l IH]; intros HPQ; [done|]. rewrite !filter_cons, IH by (intros; apply HPQ; by right).
  pose proof (HPQ x ltac:(by left)). repeat case_decide; tauto.
Qed.
(** Rows of one level keep their order, in any selection of them. *)
Lemma level_selection (cmp : T → T → Z) s rows (p : T → bool) : s ≡ₚ rows → (∀ u, level cmp u s = level cmp u rows) →
  (∀ x y, x ∈ rows → y ∈ rows → p x = true → p y = true → cmp x y = 0) →
  filter (λ r, p r = true) s = filter (λ r, p r = true) rows.
Proof.
  intros Hperm Hlev Hp. destruct (filter (λ r, p r = true) rows) as [|u l] eqn:E.
  - apply Permutation_nil. rewrite Hperm. by rewrite E.
  - assert (u ∈ filter (λ r, p r = true) rows) as [Hu Hin]%list_elem_of_filter by (rewrite E; by left). rewrite <-E.
    assert (Hsub : ∀ k, (∀ y, y ∈ k → y ∈ rows) → filter (λ r, p r = true) k = filter (λ r, p r = true) (level cmp u k)).
    { intros k Hk. unfold level. rewrite list_filter_filter. apply filter_within. intros y Hy. split; [|tauto].
      intros Hpy. split; [done|]. by apply Hp; [|apply Hk|..]. }
    rewrite (Hsub s), (Hsub rows), Hlev; [done|done|]. intros y. by rewrite Hperm.
Qed.

(** C15. The sort of the table: the rows with a value come first, in the
    order of their cells under the column's type, ascending or descending;
    then the rows without one, in their order, whatever the direction; and rows
    with equal cells keep their order. *)
Theorem sortRows_reference rows c d : ∃ s,
  sortRows rows c d = s ++ filter (λ r, cell_of c r = None) rows ∧
  s ≡ₚ filter (λ r, cell_of c r ≠ None) rows ∧ StronglySorted (in_direction c d) s ∧
  ∀ same : T → bool, (∀ x y, same x = true → same y = true → same_cell c x y) →
    filter (λ r, same r = true) s = filter (λ r, same r = true) rows.
Proof.
  set (valued := filter (λ r, no_value c r = false) rows). exists (stable_sort (value_order c d) valued).
  assert (Hv : ∀ r, no_value c r = false ↔ cell_of c r ≠ None).
  { intros r. rewrite cell_of_blank. by destruct (no_value c r). }
  pose proof (stable_sort_perm (value_order c d) valued) as Hperm. split_and!.
  - etrans; [apply (stable_sort_blanks (no_value c) (value_order c d))|]. f_equal. apply list_filter_iff. intros r. by rewrite cell_of_blank.
  - rewrite Hperm. apply reflexive_eq, list_filter_iff. done.
  - apply (sorted_within (not_after (value_order c d)) _ (λ r, no_value c r = false)); [|by intros; apply value_order_direction|apply stable_sort_sorted, _].
    apply Forall_forall. intros r. rewrite Hperm. by intros [? _]%list_elem_of_filter.
  - intros same Hsame. etrans; [apply (level_selection (value_order c d) _ valued)|].
    + done.
    + intros u. apply stable_sort_stable, _.
    + intros x y [Hx _]%list_elem_of_filter [Hy _]%list_elem_of_filter Sx Sy. destruct (Hsame x y Sx Sy) as [H1 H2].
      pose proof (proj2 (value_order_direction c d x y Hx Hy)) as Hxy. pose proof (proj2 (value_order_direction c d y x Hy Hx)) as Hyx.
      pose proof (@cmp_anti _ _ (value_comparison c d) y x). unfold not_after in *. unfold in_direction in *. destruct d; intuition lia.
    + unfold valued. rewrite list_filter_filter. apply list_filter_iff. intros r. split; [tauto|]. intros Sr. split; [done|].
      apply Hv. intros Hn. destruct (Hsame r r Sr Sr) as [H _]. by rewrite Hn in H.
Qed.
Lemma sortedRows_perm p t : sortedRows p t ≡ₚ data p.
Proof. unfold DataTable.sortedRows. repeat case_match; try done. apply stable_sort_perm. Qed.

(** ** The pages *)

Notation table_step := (table_step (T := T) number_text date_text date_parse collate).
Notation table_run := (table_run (T := T) number_text date_text date_parse collate).
Notation visibleRows := (visibleRows (T := T) number_text date_text date_parse collate).
Notation totalRows := (totalRows (T := T) number_text date_text date_parse collate).
Notation totalPages := (totalPages (T := T) number_text date_text date_parse collate).
Notation currentPage := (currentPage (T := T) number_text date_text date_parse collate).
Notation rangeStart := (rangeStart (T := T) number_text date_text date_parse collate).
Notation rangeEnd := (rangeEnd (T := T) number_text date_text date_parse collate).
Notation goToPage := (goToPage (T := T) number_text date_text date_parse collate).

Definition table_ok (t : table_state) : Prop := 1 <= page t ∧ pageSize t ∈ DATA_TABLE_PAGE_SIZES.
Lemma page_sizes n : n ∈ DATA_TABLE_PAGE_SIZES → 10 <= n <= 50.
Proof. unfold DATA_TABLE_PAGE_SIZES. rewrite !elem_of_cons. intros [->|[->|[->|[]%not_elem_of_nil]]]; lia. Qed.
Lemma page_count_pos total size : 1 <= page_count total size.
Proof. unfold page_count. lia. Qed.
Lemma table_step_ok p e t : table_ok t → offered p e = true → table_ok (table_step p e t).1.
Proof.
  intros [Hp Hs] Ho. destruct e as [n|n|k|k]; cbn; unfold table_ok; cbn.
  - split; [|done]. pose proof (page_count_pos (totalRows p t) (pageSize t)). unfold DataTable.totalPages. lia.
  - cbn in Ho. apply andb_true_iff in Ho as [_ Ho%bool_decide_eq_true]. by split.
  - unfold toggleSort. by case_match.
  - done.
Qed.
Lemma table_run_ok t es : table_ok t → table_ok (table_run t es).
Proof.
  revert t. induction es as [|[p e] es IH]; intros t Ht; [done|]. cbn. apply IH. destruct (offered p e) eqn:Ho; [|done]. by apply table_step_ok.
Qed.
(** The props a table starts with. *)
Definition starts_well (p : DataTableProps T) : Prop :=
  1 <= default 1 (g_page (pagination p)) ∧ default 25 (g_pageSize (pagination p)) ∈ DATA_TABLE_PAGE_SIZES.

Lemma client_page p t : isClientPaginated p = true → table_ok t → 1 <= default 1 (g_page (pagination p)) →
  1 <= currentPage p t <= totalPages p t ∧ totalRows p t = Z.of_nat (length (data p)).
Proof.
  intros Hc [Hp Hs] Hg. split.
  - pose proof (page_count_pos (totalRows p t) (pageSize t)). unfold DataTable.currentPage, DataTable.totalPages in *.
    destruct (g_page (pagination p)); cbn [default id] in *; lia.
  - unfold isClientPaginated in Hc. apply bool_decide_eq_true in Hc. unfold DataTable.totalRows. rewrite Hc. cbn [default id].
    by rewrite (Permutation_length (sortedRows_perm p t)).
Qed.
Lemma client_window p t : isClientPaginated p = true → table_ok t → 1 <= default 1 (g_page (pagination p)) →
  visibleRows p t = take (Z.to_nat (pageSize t)) (drop (Z.to_nat ((currentPage p t - 1) * pageSize t)) (sortedRows p t)).
Proof.
  intros Hc Ht Hg. destruct (client_page p t Hc Ht Hg) as [Hcp _]. destruct Ht as [_ Hs%page_sizes]. unfold DataTable.visibleRows. rewrite Hc.
  replace (currentPage p t * pageSize t) with ((currentPage p t - 1) * pageSize t + pageSize t) by lia. apply slice_Z_window; nia.
Qed.
(** What the table says is what it shows: after any presses, a table that
    pages its own rows shows the rows from the first to the last position it
    announces, in the sorted order, at least one if there is any row, and the
    positions are within the rows. *)
Theorem range_describes_rows p0 s0 es p : starts_well p0 → isClientPaginated p = true → 1 <= default 1 (g_page (pagination p)) →
  let t := table_run (table_mount p0 s0) es in
  let n := Z.of_nat (length (data p)) in
  visibleRows p t = take (Z.to_nat (rangeEnd p t - rangeStart p t + 1)) (drop (Z.to_nat (rangeStart p t - 1)) (sortedRows p t)) ∧
  totalRows p t = n ∧ sortedRows p t ≡ₚ data p ∧
  (0 < n → 1 <= rangeStart p t <= rangeEnd p t ∧ rangeEnd p t <= n ∧
    Z.of_nat (length (visibleRows p t)) = rangeEnd p t - rangeStart p t + 1).
Proof.
  intros Hw Hc Hg t n. assert (Ht : table_ok t) by (by apply table_run_ok).
  destruct (client_page p t Hc Ht Hg) as [Hcp Hn]. rewrite (client_window p t Hc Ht Hg).
  pose proof (Permutation_length (sortedRows_perm p t)) as Hlen. destruct Ht as [_ Hs%page_sizes].
  unfold DataTable.rangeStart, DataTable.rangeEnd, DataTable.totalPages, page_count in *. rewrite Hn in *. fold n in Hcp, Hn |- *.
  destruct (decide (n = 0)) as [H0|H0].
  { split_and!; [|done|by apply sortedRows_perm|lia].
    assert (sortedRows p t = []) as -> by (apply nil_length_inv; lia). by rewrite !drop_nil, !take_nil. }
  assert (0 < n) by lia. set (cp := currentPage p t) in *. set (s := pageSize t) in *.
  assert (Hcs : (cp - 1) * s < n).
  { pose proof (Z.mul_div_le (n + s - 1) s ltac:(lia)). nia. }
  assert (Hmin : Z.min (cp * s) n - ((cp - 1) * s + 1) + 1 = Z.min s (n - (cp - 1) * s)) by lia.
  destruct (Z.eqb_spec n 0) as [?|_]; [done|]. rewrite Hmin. replace ((cp - 1) * s + 1 - 1) with ((cp - 1) * s) by lia.
  assert (0 <= (cp - 1) * s) by nia.
  assert (Hl : Z.of_nat (length (drop (Z.to_nat ((cp - 1) * s)) (sortedRows p t))) = n - (cp - 1) * s) by (rewrite length_drop; lia).
  split_and!; [|done|by apply sortedRows_perm|intros _; rewrite length_take; lia].
  destruct (Z.le_gt_cases s (n - (cp - 1) * s)); [by rewrite Z.min_l by lia|]. rewrite Z.min_r, !take_ge by lia. done.
Qed.

(** Going from page to page shows every row once, in the sorted order. *)
Theorem table_pages_enumerate p t : isClientPaginated p = true → g_page (pagination p) = None → pageSize t ∈ DATA_TABLE_PAGE_SIZES →
  mjoin ((λ i : nat, visibleRows p (goToPage p (Z.of_nat i) t).1) <$> seq 1 (Z.to_nat (totalPages p t))) = sortedRows p t.
Proof.
  intros Hc Hg Hs. assert (Hn : totalRows p t = Z.of_nat (length (sortedRows p t))).
  { unfold isClientPaginated in Hc. apply bool_decide_eq_true in Hc. unfold DataTable.totalRows. by rewrite Hc. }
  pose proof (page_sizes _ Hs) as Hb. set (s := Z.to_nat (pageSize t)).
  etrans; [|apply (pages_cover (sortedRows p t) s (Z.to_nat (totalPages p t)))]; [|unfold s; lia|].
  - f_equal. rewrite <-fmap_S_seq, <-list_fmap_compose. apply list_fmap_ext. intros i n Hi. cbn [compose].
    apply list_elem_of_lookup_2, elem_of_seq in Hi. set (t' := (goToPage p (Z.of_nat (S n)) t).1).
    assert (page t' = Z.of_nat (S n)) as Hp by (cbn; lia).
    rewrite (client_window p t' Hc); [|split; [rewrite Hp; lia|done]|by rewrite Hg].
    change (sortedRows p t') with (sortedRows p t). change (pageSize t') with (pageSize t).
    assert (currentPage p t' = Z.of_nat (S n)) as ->.
    { unfold DataTable.currentPage. rewrite Hg, Hp. cbn [default]. change (totalPages p t') with (totalPages p t). lia. }
    fold s. do 2 f_equal. lia.
  - unfold DataTable.totalPages, page_count. rewrite Hn. set (n := Z.of_nat (length (sortedRows p t))) in *.
    pose proof (Z.mul_div_le (n + pageSize t - 1) (pageSize t) ltac:(lia)) as H1.
    pose proof (Z.mod_pos_bound (n + pageSize t - 1) (pageSize t) ltac:(lia)) as H2.
    pose proof (Z.div_mod (n + pageSize t - 1) (pageSize t) ltac:(lia)) as H3. unfold s. nia.
Qed.

(** Every page a table asks its parent for is one it counts. *)
Theorem asked_pages_exist p e t m : offered p e = true → PageChanged m ∈ (table_step p e t).2 → 1 <= m <= totalPages p (table_step p e t).1.
Proof.
  intros Ho Hm. assert (H1 : ∀ x, PageChanged m ∈ page_changed p x → m = x).
  { unfold page_changed. intros x Hx. destruct (onPageChange (pagination p)); [|by apply not_elem_of_nil in Hx].
    apply list_elem_of_singleton in Hx. congruence. }
  assert (Hpos : ∀ t', 1 <= totalPages p t') by (intros; apply page_count_pos).
  destruct e as [n|n|k|k]; cbn [DataTable.table_step] in *.
  - apply H1 in Hm as ->. change (totalPages p (goToPage p n t).1) with (totalPages p t). specialize (Hpos t). lia.
  - cbn in Hm. apply elem_of_app in Hm as [Hm|Hm].
    + destruct (onPageSizeChange _); [|by apply not_elem_of_nil in Hm]. by apply list_elem_of_singleton in Hm.
    + apply H1 in Hm as ->. split; [lia|apply Hpos].
  - unfold toggleSort in *. destruct (isClientPaginated p); [|by apply not_elem_of_nil in Hm]. apply H1 in Hm as ->. split; [lia|apply Hpos].
  - by apply not_elem_of_nil in Hm.
Qed.
End sorting.

(** ** Sort buttons and columns *)

Section buttons.
Context {T : Type} (number_text date_text : double → string) (date_parse : string → double) (collate : string → string → Z).
(** A sort button goes through three states: ascending, descending, and the
    order of the data. *)
Theorem three_presses (p1 p2 p3 : DataTableProps T) k t : s_key <$> sort t ≠ Some k →
  let t1 := (toggleSort p1 k t).1 in let t2 := (toggleSort p2 k t1).1 in let t3 := (toggleSort p3 k t2).1 in
  sort t1 = Some (Sort k Asc) ∧ sort t2 = Some (Sort k Desc) ∧ sort t3 = None ∧
  ∀ p : DataTableProps T, sortedRows number_text date_text date_parse collate p t3 = data p.
Proof.
  intros Hk t1 t2 t3. assert (Hsort : ∀ p k' t', sort (toggleSort (T := T) p k' t').1 = next_sort k' (sort t')) by (intros; unfold toggleSort; by case_match).
  assert (H1 : sort t1 = Some (Sort k Asc)).
  { unfold t1. rewrite Hsort. unfold next_sort. destruct (sort t) as [s|]; [|done]. cbn in Hk. by rewrite decide_False by congruence. }
  assert (H2 : sort t2 = Some (Sort k Desc)) by (unfold t2; rewrite Hsort, H1; cbn; by rewrite decide_True).
  assert (H3 : sort t3 = None) by (unfold t3; rewrite Hsort, H2; cbn; by rewrite decide_True).
  split_and!; [done..|]. intros p. unfold sortedRows. by rewrite H3.
Qed.
Lemma elem_of_toggle_key k k' hidden : k' ∈ toggle_key k hidden ↔ if decide (k' = k) then k ∉ hidden else k' ∈ hidden.
Proof.
  unfold toggle_key. destruct (decide (k ∈ hidden)) as [Hk|Hk].
  - rewrite list_elem_of_filter. case_decide; subst; tauto.
  - rewrite elem_of_app, list_elem_of_singleton. case_decide; subst; tauto.
Qed.
(** A column button shows or hides its columns and no other, and a second
    press undoes the first. *)
Theorem column_button (p : DataTableProps T) k t :
  let t1 := (toggleColumn k t).1 in
  visibleColumns p (toggleColumn k t1).1 = visibleColumns p t ∧
  ∀ c, c ∈ visibleColumns p t1 ↔ c ∈ columns p ∧ if decide (key c = k) then k ∈ hiddenKeys t else key c ∉ hiddenKeys t.
Proof.
  intros t1. unfold visibleColumns. split.
  - apply list_filter_iff. intros c. unfold t1. cbn. destruct (decide (k ∈ hiddenKeys t)); repeat (rewrite elem_of_toggle_key || case_decide); subst; tauto.
  - intros c. rewrite list_elem_of_filter. unfold t1. cbn. rewrite elem_of_toggle_key. destruct (decide (k ∈ hiddenKeys t)); repeat case_decide; subst; tauto.
Qed.
End buttons.

(** ** The table of a sponsor's streams *)

Section sponsor_table.
Context (number_text date_text : double → string) (date_parse : string → double) (collate : string → string → Z).
Notation table_step := (table_step (T := VestingStream) number_text date_text date_parse collate).
Notation table_run := (table_run (T := VestingStream) number_text date_text date_parse collate).

Lemma toPageSize_allowed n : toPageSize n ∈ DATA_TABLE_PAGE_SIZES.
Proof.
  unfold toPageSize. destruct (list_find _ _) as [[i s]|] eqn:E; [|by apply (bool_decide_unpack _)].
  apply list_find_Some in E as (Hs & _). by apply list_elem_of_lookup_2 in Hs.
Qed.
(** The props of the renders: the page, the rows and the total change. *)
Definition renders (k : Z) (p : DataTableProps VestingStream) : Prop := ∃ now streams page total, p = sponsor_props now streams page k total.
Lemma sponsor_size k es t : Forall (λ pe, renders k pe.1) es → pageSize (table_run t es) = pageSize t.
Proof.
  revert t. induction es as [|[p e] es IH]; intros t; [done|]. rewrite Forall_cons. intros [(now & streams & pg & total & Hp) Hes].
  cbn in Hp. cbn [DataTable.table_run]. rewrite IH by done. destruct (offered p e) eqn:Ho; [|done]. subst p.
  by destruct e.
Qed.
(** The pages of the sponsor's table: whatever is pressed, the table asks
    its page for pages 1 to the number of pages of [toPageSize k] rows, which is
    [k] only for the three sizes of the table. *)
Theorem sponsor_pages k p0 es p e m : renders k p0 → Forall (λ pe, renders k pe.1) es → renders k p → offered p e = true →
  let t := table_run (table_mount p0 None) es in
  PageChanged m ∈ (table_step p e t).2 → 1 <= m <= page_count (default 0 (g_total (pagination p))) (toPageSize k).
Proof.
  intros H0 Hes (now & streams & pg & total & ->) Ho t Hm.
  apply asked_pages_exist in Hm; [|done]. assert (Hsize : pageSize t = toPageSize k).
  { unfold t. rewrite (sponsor_size k) by done. by destruct H0 as (? & ? & ? & ? & ->). }
  assert (pageSize (table_step (sponsor_props now streams pg k total) e t).1 = toPageSize k) as Hs.
  { rewrite <-Hsize. by destruct e. }
  unfold DataTable.totalPages, DataTable.totalRows in Hm. by rewrite Hs in Hm.
Qed.
(** Only streams that can still be cancelled have an active button to cancel
    or to claw back, and a button to claw back needs an eligible stream. *)
Theorem sponsor_buttons s : (cancel_disabled s = false ↔ status s ≠ "cancelled" ∧ status s ≠ "completed") ∧
  (clawback_shown s = true ∧ clawback_disabled true s = false → cancel_disabled s = false ∧ clawbackEligible s = Some true).
Proof.
  unfold cancel_disabled, clawback_shown, clawback_disabled. split.
  - rewrite orb_false_iff, !bool_decide_eq_false. done.
  - intros [H1%bool_decide_eq_true H2]. split; [|done]. apply orb_false_iff in H2 as [_ H2].
    apply andb_false_iff in H2 as [H2|H2]; apply negb_false_iff, bool_decide_eq_true in H2; by rewrite H2.
Qed.
End sponsor_table.

(** ** Examples and witnesses *)

Definition number_column : DataTableColumn (string * DataTableValue) := Column "v" "Value" (Some SNumber) (Some snd) None.
Definition no_text (x : double) : string := "".
Definition no_date (s : string) : double := DNaN.
Definition byte_collate (a b : string) : Z := Z.of_nat (String.length a) - Z.of_nat (String.length b).
#[export] Instance byte_collate_comparison : Comparison byte_collate.
Proof. unfold byte_collate. split; intros; lia. Qed.
Definition demo_rows : list (string * DataTableValue) :=
  [("a", VNumber (of_Z 7)); ("b", VBlank); ("c", VText "x"); ("d", VText "3"); ("e", VBlank); ("f", VNumber (of_Z 7))].
Notation demo_sort := (sortRows no_text no_text no_date byte_collate demo_rows number_column).
(** Blanks stay last in both directions, but the text that is no number, which
    [compareValues] puts with the blanks, comes first in descending order. *)
Example unparseable_first : fst <$> demo_sort Asc = ["d"; "a"; "f"; "c"; "b"; "e"] ∧ fst <$> demo_sort Desc = ["c"; "a"; "f"; "d"; "b"; "e"].
Proof. by vm_compute. Qed.
Lemma sortRows_reference_witness : ∃ s, demo_sort Desc = s ++ [("b", VBlank); ("e", VBlank)] ∧
  StronglySorted (in_direction no_text no_text no_date byte_collate number_column Desc) s ∧ fst <$> s = ["c"; "a"; "f"; "d"].
Proof.
  destruct (sortRows_reference no_text no_text no_date byte_collate demo_rows number_column Desc) as (s & Hs & _ & Ho & _).
  exists s. split; [exact Hs|]. split; [exact Ho|]. apply (app_inv_tail ["b"; "e"]).
  etrans; [symmetry; exact (fmap_app fst s [("b", VBlank); ("e", VBlank)])|].
  etrans; [symmetry; exact (f_equal (fmap fst) Hs)|]. vm_compute. reflexivity.
Defined.

Definition demo_data (n : nat) : list (string * DataTableValue) := (λ i : nat, (Z_to_string (Z.of_nat i), VNumber (of_Z (Z.of_nat (i * 7 `mod` 10))))) <$> seq 0 n.
Definition demo_props (n : nat) : DataTableProps (string * DataTableValue) := Props [number_column] (demo_data n) no_pagination.
Definition demo_presses : list (DataTableProps (string * DataTableValue) * table_event) :=
  [(demo_props 63, Size 10); (demo_props 63, GoTo 7); (demo_props 63, PressColumn "v"); (demo_props 12, GoTo 9)].
(** The data has shrunk: the page is still one of the pages. *)
Lemma range_describes_rows_witness :
  let t := table_run no_text no_text no_date byte_collate (table_mount (demo_props 63) None) demo_presses in
  Z.of_nat (length (visibleRows no_text no_text no_date byte_collate (demo_props 12) t)) = 2 ∧
  statusText no_text no_text no_date byte_collate (demo_props 12) t = "Showing 11 to 12 of 12".
Proof.
  intros t. split; [|vm_compute; reflexivity].
  assert (Hw : starts_well (demo_props 63)) by (split; [done|by apply (bool_decide_unpack _)]).
  destruct (range_describes_rows no_text no_text no_date byte_collate (demo_props 63) None demo_presses (demo_props 12) Hw eq_refl ltac:(done))
    as (_ & _ & _ & H). destruct (H ltac:(done)) as (_ & _ & Hl). etrans; [exact Hl|]. vm_compute. reflexivity.
Defined.
Lemma table_pages_enumerate_witness :
  let t := Table (Some (Sort "v" Asc)) [] 1 10 in let p := demo_props 23 in
  mjoin ((λ i : nat, visibleRows no_text no_text no_date byte_collate p (goToPage no_text no_text no_date byte_collate p (Z.of_nat i) t).1) <$> seq 1 3) =
  sortRows no_text no_text no_date byte_collate (demo_data 23) number_column Asc.
Proof.
  apply (table_pages_enumerate no_text no_text no_date byte_collate (demo_props 23) (Table (Some (Sort "v" Asc)) [] 1 10) eq_refl eq_refl).
  by apply (bool_decide_unpack _).
Defined.
Lemma asked_pages_exist_witness : 1 <= 3 <= 3.
Proof.
  apply (asked_pages_exist no_text no_text no_date byte_collate (Props [number_column] (demo_data 10) (Pagination (Some 2) None (Some 30) true false))
    (GoTo 8) (Table None [] 2 10) 3); [reflexivity|].
  exact (proj2 (list_elem_of_singleton (PageChanged 3) (PageChanged 3)) eq_refl).
Defined.
Lemma three_presses_witness : sort (toggleSort (demo_props 3) "v" (Table None [] 2 10)).1 = Some (Sort "v" Asc).
Proof. apply (three_presses no_text no_text no_date byte_collate (demo_props 3) (demo_props 3) (demo_props 3) "v" (Table None [] 2 10)). done. Defined.

Definition demo_stream (r : string) : VestingStream :=
  Stream r None r "GS" "USDC" 10 1500 "active" None (Some 51300000) (Some 57000000) None (Some true) None.
Definition sponsor_demo (pg k total : Z) : DataTableProps VestingStream := sponsor_props 1700000000000 [demo_stream "GA"; demo_stream "GB"] pg k total.
Lemma sponsor_pages_witness : 1 <= 2 <= page_count 30 (toPageSize 25).
Proof.
  apply (sponsor_pages no_text no_text no_date byte_collate 25 (sponsor_demo 1 25 30) [(sponsor_demo 1 25 30, PressSort "claimable")] (sponsor_demo 1 25 30) (GoTo 2) 2).
  - by repeat eexists.
  - constructor; [by repeat eexists|constructor].
  - by repeat eexists.
  - reflexivity.
  - exact (proj2 (list_elem_of_singleton (PageChanged 2) (PageChanged 2)) eq_refl).
Defined.
(** Pages of 20 streams: the table counts pages of 25, and the last page is
    never asked for. *)
Example last_page_lost : page_count 100 20 = 5 ∧ page_count 100 (toPageSize 20) = 4.
Proof. done. Qed.
(** A table that does not page its rows sorts the rows of the page it has, and
    says that the whole is sorted. *)
Example one_page_sorted :
  let t := (toggleSort (sponsor_demo 2 25 60) "claimable" (table_mount (sponsor_demo 2 25 60) None)).1 in
  statusText no_text no_text no_date byte_collate (sponsor_demo 2 25 60) t = "Claimable, sorted ascending. Showing 26 to 50 of 60" ∧
  length (visibleRows no_text no_text no_date byte_collate (sponsor_demo 2 25 60) t) = 2%nat.
Proof. by vm_compute. Qed.
(** The size a parent gives is read once. *)
Example size_not_followed : pageSize (table_run no_text no_text no_date byte_collate
  (table_mount (Props [number_column] [] (Pagination None (Some 10) None false false)) None)
  [(Props [number_column] [] (Pagination None (Some 50) None false false), GoTo 1)]) = 10.
Proof. done. Qed.
