(* ===== verification/SponsorActions.v ===== *)
(** * The sponsor's page: cancelling and clawing back

    frontend/src/app/sponsor/page.tsx with its two dialogs, CancelStreamModal.tsx
    (and useCancelPreview.ts) and ClawbackStreamModal.tsx, as one transition
    system: the rows of the page, the dialog that is open, the requests that are
    out, and the answers, in any order.  The table and its buttons are
    [DataTable]'s. *)
From Stdlib Require Import QArith.
From stdpp Require Import list.
From S2P Require Import Prelude Digits Double DataTable.
#[local] Open Scope Z_scope.

(** ** Data *)

Definition PAGE_SIZE : Z := 25.
(** The fields of a preview are read one by one, each with a default. *)
Record CancelPreview := Preview { recipientKeeps : option double; sponsorRefund : option double; cliffReached : option bool }.
Record cancel_modal := CancelModal {
  c_id : nat; c_stream : VestingStream; preview : option CancelPreview; previewLoading : bool; previewError : option string;
  confirmAddress : string; c_submitting : bool; txError : option string }.
Record claw_modal := ClawModal {
  k_id : nat; k_stream : VestingStream; step : Z; reason : string; k_submitting : bool; k_error : option string; returnedAmount : option double }.

(** What leaves the page: requests, and transactions given to the wallet. *)
Inductive sent_item :=
| AskPreview (recipient : string)
| BuildCancel (recipient : string)
| BuildClawback (recipient sponsor : string) (streamId : Z) (reason : string)
| SignTx (xdr : string)
| SubmitTx (xdr : string).

(** A cancellation is the dialog that sent it and the stream; a clawback goes
    through three awaits. *)
Inductive claw_stage := Building | Signing (xdr : string) (amount : double) | Submitting (amount : double) | Recovered (amount : double) | Failed.
Record cancel_op := CancelOp { o_modal : nat; o_stream : VestingStream; o_done : bool }.
Record claw_op := ClawOp { w_modal : nat; w_stream : VestingStream; w_stage : claw_stage }.

Record sponsor_page := Page {
  address : option string; streams : list VestingStream; page : Z; total : Z;
  cancelTargetStream : option VestingStream; clawbackTargetStream : option VestingStream; clawbackCompleted : bool;
  cancelDialog : option cancel_modal; clawDialog : option claw_modal; next_modal : nat;
  cancels : list cancel_op; claws : list claw_op; sent : list sent_item }.

(** Field updates. *)
Definition set_rows (rows : list VestingStream) (n : Z) (p : sponsor_page) : sponsor_page :=
  Page (address p) rows (page p) n (cancelTargetStream p) (clawbackTargetStream p) (clawbackCompleted p) (cancelDialog p) (clawDialog p)
    (next_modal p) (cancels p) (claws p) (sent p).
Definition set_targets (c k : option VestingStream) (done : bool) (p : sponsor_page) : sponsor_page :=
  Page (address p) (streams p) (page p) (total p) c k done (cancelDialog p) (clawDialog p) (next_modal p) (cancels p) (claws p) (sent p).
Definition set_dialogs (c : option cancel_modal) (k : option claw_modal) (n : nat) (p : sponsor_page) : sponsor_page :=
  Page (address p) (streams p) (page p) (total p) (cancelTargetStream p) (clawbackTargetStream p) (clawbackCompleted p) c k n
    (cancels p) (claws p) (sent p).
Definition set_ops (c : list cancel_op) (k : list claw_op) (p : sponsor_page) : sponsor_page :=
  Page (address p) (streams p) (page p) (total p) (cancelTargetStream p) (clawbackTargetStream p) (clawbackCompleted p) (cancelDialog p) (clawDialog p)
    (next_modal p) c k (sent p).
Definition send (items : list sent_item) (p : sponsor_page) : sponsor_page :=
  Page (address p) (streams p) (page p) (total p) (cancelTargetStream p) (clawbackTargetStream p) (clawbackCompleted p) (cancelDialog p) (clawDialog p)
    (next_modal p) (cancels p) (claws p) (sent p ++ items).
Definition set_place (a : option string) (n : Z) (p : sponsor_page) : sponsor_page :=
  Page a (streams p) n (total p) (cancelTargetStream p) (clawbackTargetStream p) (clawbackCompleted p) (cancelDialog p) (clawDialog p)
    (next_modal p) (cancels p) (claws p) (sent p).

(** ** The rows *)

Definition connected (p : sponsor_page) : bool := match address p with Some a => truthy a | None => false end.
Definition mock_sponsor (a : string) : list VestingStream :=
  [Stream "1" None "GABC1…XYZ" a "USDC" 10 1500 "active" (Some 51027200) (Some 51113600) (Some 57248000) (Some 63072000) None None;
   Stream "2" None "GDEF2…XYZ" a "USDC" 5 0 "pre-cliff" (Some 51182800) (Some 51459600) (Some 53792800) (Some 12960000) None None;
   Stream "3" None "GHIJ3…XYZ" a "XLM" 20 0 "completed" None None None (Some 5000000) None None].
(** The effect on the address and the page. *)
Definition fetch_rows (p : sponsor_page) : sponsor_page :=
  match address p with
  | Some a =>
      if truthy a then
        let filtered := filter (λ s, sponsor s = a) (mock_sponsor a) in
        let start := (page p - 1) * PAGE_SIZE in
        set_rows (slice_Z start (start + PAGE_SIZE) filtered) (Z.of_nat (length filtered)) p
      else set_rows [] 0 p
  | None => set_rows [] 0 p
  end.

(** ** The dialogs *)

(** The table and the dialogs are on the page only with a wallet and a row. *)
Definition shown (p : sponsor_page) : bool := connected p && negb (bool_decide (streams p = [])).
(** [useCancelPreview] asks when its dialog appears, if there is a recipient. *)
Definition open_cancel (n : nat) (s : VestingStream) : cancel_modal :=
  CancelModal n s None (truthy (recipient s)) None "" false None.
Definition open_claw (n : nat) (s : VestingStream) : claw_modal := ClawModal n s 1 "" false None None.
(** A render: dialogs appear for their targets and disappear with them. *)
Definition render_cancel (p : sponsor_page) : sponsor_page :=
  match cancelTargetStream p with
  | Some s =>
      if shown p then
        match cancelDialog p with
        | Some _ => p
        | None => send (if truthy (recipient s) then [AskPreview (recipient s)] else [])
                    (set_dialogs (Some (open_cancel (next_modal p) s)) (clawDialog p) (S (next_modal p)) p)
        end
      else set_dialogs None (clawDialog p) (next_modal p) p
  | None => set_dialogs None (clawDialog p) (next_modal p) p
  end.
Definition render_claw (p : sponsor_page) : sponsor_page :=
  match clawbackTargetStream p with
  | Some s =>
      if shown p then
        match clawDialog p with
        | Some _ => p
        | None => set_dialogs (cancelDialog p) (Some (open_claw (next_modal p) s)) (S (next_modal p)) p
        end
      else set_dialogs (cancelDialog p) None (next_modal p) p
  | None => set_dialogs (cancelDialog p) None (next_modal p) p
  end.
Definition render (p : sponsor_page) : sponsor_page := render_claw (render_cancel p).

Definition with_cancel (f : cancel_modal → cancel_modal) (p : sponsor_page) : sponsor_page := set_dialogs (f <$> cancelDialog p) (clawDialog p) (next_modal p) p.
Definition with_claw (f : claw_modal → claw_modal) (p : sponsor_page) : sponsor_page := set_dialogs (cancelDialog p) (f <$> clawDialog p) (next_modal p) p.
(** A dialog's own state is set by the dialog's own work only. *)
Definition in_cancel (n : nat) (f : cancel_modal → cancel_modal) : sponsor_page → sponsor_page := with_cancel (λ m, if decide (c_id m = n) then f m else m).
Definition in_claw (n : nat) (f : claw_modal → claw_modal) : sponsor_page → sponsor_page := with_claw (λ m, if decide (k_id m = n) then f m else m).

Definition find_stream (i : string) (p : sponsor_page) : option VestingStream := snd <$> list_find (λ s, id s = i) (streams p).
Definition handleCancelStream (i : string) (p : sponsor_page) : sponsor_page :=
  render (set_targets (find_stream i p) (clawbackTargetStream p) (clawbackCompleted p) p).
Definition handleClawbackStream (i : string) (p : sponsor_page) : sponsor_page :=
  render (set_targets (cancelTargetStream p) (find_stream i p) false p).
Definition with_status (st : string) (s : VestingStream) : VestingStream :=
  Stream (id s) (streamId s) (recipient s) (sponsor s) (token s) (rate s) (claimableAmount s) st (startLedger s) (cliffLedger s) (endLedger s)
    (totalDeposit s) (clawbackEligible s) (clawbackAmount s).
Definition handleCancelSuccess (i : string) (p : sponsor_page) : sponsor_page :=
  render (set_targets None (clawbackTargetStream p) (clawbackCompleted p)
    (set_rows ((λ s, if decide (id s = i) then with_status "cancelled" s else s) <$> streams p) (total p) p)).
Definition handleClawbackClose (p : sponsor_page) : sponsor_page :=
  let removed :=
    match clawbackCompleted p, clawbackTargetStream p with
    | true, Some t => set_rows (filter (λ s, id s ≠ id t) (streams p)) (Z.max (total p - 1) 0) p
    | _, _ => p
    end in
  render (set_targets (cancelTargetStream removed) None false removed).

(** ** Cancelling *)

Definition isAddressConfirmed (m : cancel_modal) : bool := bool_decide (trim (confirmAddress m) = trim (recipient (c_stream m))).
Definition type_address (a : string) (m : cancel_modal) : cancel_modal :=
  CancelModal (c_id m) (c_stream m) (preview m) (previewLoading m) (previewError m) a (c_submitting m) (txError m).
Definition cancel_state (submitting : bool) (error : option string) (m : cancel_modal) : cancel_modal :=
  CancelModal (c_id m) (c_stream m) (preview m) (previewLoading m) (previewError m) (confirmAddress m) submitting error.
Definition previewed (pv : CancelPreview) (error : option string) (m : cancel_modal) : cancel_modal :=
  CancelModal (c_id m) (c_stream m) (Some pv) false error (confirmAddress m) (c_submitting m) (txError m).
(** [handleConfirm] of the cancel dialog, up to its request. *)
Definition confirm_cancel (p : sponsor_page) : sponsor_page :=
  match cancelDialog p with
  | Some m =>
      if negb (isAddressConfirmed m) || c_submitting m then p
      else send [BuildCancel (recipient (c_stream m))]
             (set_ops (cancels p ++ [CancelOp (c_id m) (c_stream m) false]) (claws p) (with_cancel (cancel_state true None) p))
  | None => p
  end.
(** What a request meets: no answer, with the message of the error if it is one,
    or a status with the fields of the body. *)
Inductive reply (B : Type) := NoReply (message : option string) | Reply (code : Z) (body : B).
#[global] Arguments NoReply {B}.
#[global] Arguments Reply {B}.
Definition is_ok (code : Z) : bool := (200 <=? code) && (code <? 300).
(** [buildAndSubmitCancelTx]: the error shown, if any. *)
Definition buildAndSubmitCancelTx (r : reply (option string)) : option string :=
  match r with
  | NoReply msg => Some (default "An unexpected error occurred" msg)
  | Reply code error => if is_ok code then None else Some (default ("Transaction failed (" +:+ Z_to_string code +:+ ")") error)
  end.
Definition cancel_answer (i : nat) (r : reply (option string)) (p : sponsor_page) : sponsor_page :=
  match cancels p !! i with
  | Some (CancelOp n s false) =>
      let p := set_ops (<[i := CancelOp n s true]> (cancels p)) (claws p) p in
      match buildAndSubmitCancelTx r with
      | None => in_cancel n (cancel_state false None) (handleCancelSuccess (id s) p)
      | Some e => in_cancel n (cancel_state false (Some e)) p
      end
  | _ => p
  end.
(** [fetchPreview], for the dialog [n]. *)
Definition preview_result (r : reply CancelPreview) : CancelPreview * option string :=
  match r with
  | Reply code pv =>
      if is_ok code then (pv, None)
      else (Preview (Some (of_Z 0)) (Some (of_Z 0)) (Some false), Some ("Server returned " +:+ Z_to_string code))
  | NoReply msg => (Preview (Some (of_Z 0)) (Some (of_Z 0)) (Some false), Some (default "Failed to load cancel preview" msg))
  end.
Definition preview_answer (n : nat) (r : reply CancelPreview) : sponsor_page → sponsor_page :=
  in_cancel n (λ m, if previewLoading m then let '(pv, e) := preview_result r in previewed pv e m else m).
(** What the dialog shows of the preview: the two amounts and the warning that
    the cliff is not reached. *)
Definition amounts_shown (m : cancel_modal) : double * double :=
  (default (of_Z 0) (preview m ≫= recipientKeeps), default (of_Z 0) (preview m ≫= sponsorRefund)).
Definition cliff_warning (m : cancel_modal) : bool := negb (previewLoading m) && negb (default false (preview m ≫= cliffReached)).
(** Escape and a press outside close the dialog; the button waits for the answer. *)
Definition close_cancel (button : bool) (p : sponsor_page) : sponsor_page :=
  match cancelDialog p with
  | Some m => if button && c_submitting m then p else render (set_targets None (clawbackTargetStream p) (clawbackCompleted p) p)
  | None => p
  end.

(** ** Clawing back *)

Definition claw_state (submitting : bool) (error : option string) (amount : option double) (m : claw_modal) : claw_modal :=
  ClawModal (k_id m) (k_stream m) (step m) (reason m) submitting error amount.
Definition claw_form (n : Z) (r : string) (m : claw_modal) : claw_modal :=
  ClawModal (k_id m) (k_stream m) n r (k_submitting m) (k_error m) (returnedAmount m).
(** The controls of the three steps; after the success only the closing is left. *)
Definition editable (m : claw_modal) : bool := negb (k_submitting m) && bool_decide (returnedAmount m = None).
Definition type_reason (r : string) (m : claw_modal) : claw_modal := if editable m && (step m =? 2) then claw_form (step m) r m else m.
Definition continue_step (m : claw_modal) : claw_modal :=
  if editable m && (step m <? 3) && negb ((step m =? 2) && negb (truthy (trim (reason m)))) then claw_form (step m + 1) (reason m) m else m.
Definition back_step (m : claw_modal) : claw_modal := if editable m && (1 <? step m) then claw_form (step m - 1) (reason m) m else m.

Definition fail_claw (i : nat) (op : claw_op) (msg : option string) (p : sponsor_page) : sponsor_page :=
  in_claw (w_modal op) (claw_state false (Some (default "Clawback failed. Please try again." msg)) None)
    (set_ops (cancels p) (<[i := ClawOp (w_modal op) (w_stream op) Failed]> (claws p)) p).
(** [handleConfirm] of the clawback dialog and [submitClawback], up to its
    request. *)
Definition confirm_claw (p : sponsor_page) : sponsor_page :=
  match clawDialog p with
  | Some m =>
      let s := k_stream m in
      if negb (step m =? 3) || negb (truthy (trim (reason m))) || bool_decide (clawbackAmount s = None) || k_submitting m
         || bool_decide (is_Some (returnedAmount m)) then p
      else
        let i := length (claws p) in
        let p := set_ops (cancels p) (claws p ++ [ClawOp (k_id m) s Building]) (with_claw (claw_state true None None) p) in
        match connected p, address p, streamId s with
        | true, Some a, Some sid => send [BuildClawback (recipient s) a sid (trim (reason m))] p
        | true, Some _, None =>
            fail_claw i (ClawOp (k_id m) s Building) (Some "The on-chain stream identifier is unavailable. Refresh the stream data and try again.") p
        | _, _, _ => fail_claw i (ClawOp (k_id m) s Building) (Some "Connect the sponsoring wallet to continue.") p
        end
  | None => p
  end.
(** The amount of a body: a number, a text, [null], or no field. *)
Inductive amount_field := AmountNumber (x : double) | AmountText (s : string) | AmountNull | AmountAbsent.
Definition amount_number (a : amount_field) : double :=
  match a with AmountNumber x => x | AmountText s => Number s | AmountNull => of_Z 0 | AmountAbsent => DNaN end.
Record build_body := BuildBody { b_error : option string; transaction_xdr : option string; amount : amount_field }.
Definition built (r : reply build_body) : result (option string) (string * double) :=
  match r with
  | NoReply msg => Err msg
  | Reply code b =>
      match is_ok code, transaction_xdr b, amount b with
      | false, _, _ | _, None, _ | _, _, AmountAbsent => Err (Some (default ("Unable to build clawback transaction (" +:+ Z_to_string code +:+ ").") (b_error b)))
      | true, Some x, a =>
          if negb (truthy x) then Err (Some (default ("Unable to build clawback transaction (" +:+ Z_to_string code +:+ ").") (b_error b)))
          else let n := amount_number a in
               if negb (is_finite n) || lt64 n (of_Z 0) then Err (Some "The clawback service returned an invalid recovered amount.") else Ok (x, n)
      end
  end.
Definition build_answer (i : nat) (r : reply build_body) (p : sponsor_page) : sponsor_page :=
  match claws p !! i with
  | Some (ClawOp n s Building) =>
      match built r with
      | Ok (x, a) => send [SignTx x] (set_ops (cancels p) (<[i := ClawOp n s (Signing x a)]> (claws p)) p)
      | Err msg => fail_claw i (ClawOp n s Building) msg p
      end
  | _ => p
  end.
(** The answer of the wallet: an error, or an object with some of the fields. *)
Inductive wallet_answer := WalletThrows (message : option string) | Signed (error signedTxXdr signedXdr : option string).
Definition signed_tx (x : string) (w : wallet_answer) : result (option string) string :=
  match w with
  | WalletThrows msg => Err msg
  | Signed error new old =>
      match error with
      | Some e => if truthy e then Err (Some e) else Ok (default (default x old) new)
      | None => Ok (default (default x old) new)
      end
  end.
Definition sign_answer (i : nat) (w : wallet_answer) (p : sponsor_page) : sponsor_page :=
  match claws p !! i with
  | Some (ClawOp n s (Signing x a)) =>
      match signed_tx x w with
      | Ok x' => send [SubmitTx x'] (set_ops (cancels p) (<[i := ClawOp n s (Submitting a)]> (claws p)) p)
      | Err msg => fail_claw i (ClawOp n s Building) msg p
      end
  | _ => p
  end.
Definition submitted (r : reply (option string)) : option (option string) :=
  match r with
  | NoReply msg => Some msg
  | Reply code error => if is_ok code then None else Some (Some (default ("Clawback transaction failed (" +:+ Z_to_string code +:+ ").") error))
  end.
Definition submit_answer (i : nat) (r : reply (option string)) (p : sponsor_page) : sponsor_page :=
  match claws p !! i with
  | Some (ClawOp n s (Submitting a)) =>
      match submitted r with
      | None =>
          in_claw n (claw_state false None (Some a))
            (set_targets (cancelTargetStream p) (clawbackTargetStream p) true
              (set_ops (cancels p) (<[i := ClawOp n s (Recovered a)]> (claws p)) p))
      | Some msg => fail_claw i (ClawOp n s Building) msg p
      end
  | _ => p
  end.
(** Escape and the two closing buttons wait for the answer. *)
Definition close_claw (p : sponsor_page) : sponsor_page :=
  match clawDialog p with
  | Some m => if k_submitting m then p else handleClawbackClose p
  | None => p
  end.

(** ** The page *)

Inductive sponsor_event :=
| Wallet (a : option string) | SetPage (n : Z) | OpenCancel (i : string) | OpenClawback (i : string)
| TypeAddress (a : string) | ConfirmCancel | CloseCancel (button : bool) | PreviewAnswer (n : nat) (r : reply CancelPreview) | CancelAnswer (i : nat) (r : reply (option string))
| TypeReason (r : string) | Continue | Back | ConfirmClaw | CloseClaw
| BuildAnswer (i : nat) (r : reply build_body) | SignAnswer (i : nat) (w : wallet_answer) | SubmitAnswer (i : nat) (r : reply (option string)).
(** The table is behind an open dialog, which also keeps the focus; its buttons
    are enabled by the row. *)
Definition reachable_row (ok : VestingStream → bool) (i : string) (p : sponsor_page) : bool :=
  shown p && bool_decide (cancelDialog p = None ∧ clawDialog p = None ∧ Exists (λ s, id s = i ∧ ok s = true) (streams p)).
Definition sponsor_step (p : sponsor_page) (e : sponsor_event) : sponsor_page :=
  match e with
  | Wallet a => if decide (a = address p) then p else render (fetch_rows (set_place a (page p) p))
  | SetPage n =>
      if shown p && bool_decide (cancelDialog p = None ∧ clawDialog p = None) && (1 <=? n) && (n <=? page_count (total p) (toPageSize PAGE_SIZE))
         && negb (n =? page p)
      then render (fetch_rows (set_place (address p) n p)) else p
  | OpenCancel i => if reachable_row (λ s, negb (cancel_disabled s)) i p then handleCancelStream i p else p
  | OpenClawback i => if reachable_row (λ s, clawback_shown s && negb (clawback_disabled true s)) i p then handleClawbackStream i p else p
  | TypeAddress a => with_cancel (λ m, if c_submitting m then m else type_address a m) p
  | ConfirmCancel => confirm_cancel p
  | CloseCancel button => close_cancel button p
  | PreviewAnswer n r => preview_answer n r p
  | CancelAnswer i r => cancel_answer i r p
  | TypeReason r => with_claw (type_reason r) p
  | Continue => with_claw continue_step p
  | Back => with_claw back_step p
  | ConfirmClaw => confirm_claw p
  | CloseClaw => close_claw p
  | BuildAnswer i r => build_answer i r p
  | SignAnswer i w => sign_answer i w p
  | SubmitAnswer i r => submit_answer i r p
  end.
Definition sponsor_mount (a : option string) : sponsor_page :=
  render (fetch_rows (Page a [] 1 0 None None false None None 0 [] [] [])).
Definition sponsor_run (a : option string) (es : list sponsor_event) : sponsor_page := foldl sponsor_step (sponsor_mount a) es.

(** ** The clawback as one computation *)

(** What [handleConfirm] does when its three awaits meet [b], [w] and [r]. *)
Definition claw_outcome (b : reply build_body) (w : wallet_answer) (r : reply (option string)) : result (option string) double * list sent_item :=
  match built b with
  | Err msg => (Err msg, [])
  | Ok (x, a) =>
      match signed_tx x w with
      | Err msg => (Err msg, [SignTx x])
      | Ok x' => (match submitted r with None => Ok a | Some msg => Err msg end, [SignTx x; SubmitTx x'])
      end
  end.
(** The dialog ready for its last confirmation. *)
Definition ready (p : sponsor_page) (m : claw_modal) (a : string) (sid : Z) : Prop :=
  clawDialog p = Some m ∧ step m = 3 ∧ truthy (trim (reason m)) = true ∧ is_Some (clawbackAmount (k_stream m)) ∧ k_submitting m = false ∧
  returnedAmount m = None ∧ address p = Some a ∧ truthy a = true ∧ streamId (k_stream m) = Some sid.

Lemma confirm_ready p m a sid : ready p m a sid →
  confirm_claw p = send [BuildClawback (recipient (k_stream m)) a sid (trim (reason m))]
    (set_ops (cancels p) (claws p ++ [ClawOp (k_id m) (k_stream m) Building]) (set_dialogs (cancelDialog p) (Some (claw_state true None None m)) (next_modal p) p)).
Proof.
  intros (Hd & Hs & Hr & [x Hx] & Hb & Hra & Ha & Ht & Hsid). unfold confirm_claw, with_claw, connected. cbn [set_ops set_dialogs address]. rewrite Hd, Hs, Hr, Hx, Hb, Hra, Ha, Ht, Hsid.
  cbn [negb orb Z.eqb Pos.eqb]. rewrite bool_decide_eq_false_2 by done. rewrite bool_decide_eq_false_2 by (by intros [? ?]). done.
Qed.
Lemma last_op (l : list claw_op) o : (l ++ [o]) !! length l = Some o.
Proof. by rewrite lookup_app_r, Nat.sub_diag by done. Qed.
Lemma replace_last (l : list claw_op) o o' : <[length l := o']> (l ++ [o]) = l ++ [o'].
Proof. rewrite insert_app_r_alt by done. by rewrite Nat.sub_diag. Qed.
Section one_operation.
Context (q : sponsor_page) (l : list claw_op) (n : nat) (s : VestingStream) (m : claw_modal).
Context (Hd : clawDialog q = Some m) (Hm : k_id m = n).
Lemma fail_last st msg : claws q = l ++ [ClawOp n s st] → fail_claw (length l) (ClawOp n s Building) msg q =
  set_dialogs (cancelDialog q) (Some (claw_state false (Some (default "Clawback failed. Please try again." msg)) None m)) (next_modal q)
    (set_ops (cancels q) (l ++ [ClawOp n s Failed]) q).
Proof.
  intros Hc. unfold fail_claw, in_claw, with_claw. cbn [w_modal w_stream set_ops clawDialog cancelDialog next_modal]. rewrite Hc, replace_last, Hd.
  cbn [fmap option_fmap option_map]. by rewrite decide_True.
Qed.
Lemma build_last b : claws q = l ++ [ClawOp n s Building] → build_answer (length l) b q =
  match built b with
  | Ok (x, a) => send [SignTx x] (set_ops (cancels q) (l ++ [ClawOp n s (Signing x a)]) q)
  | Err msg => fail_claw (length l) (ClawOp n s Building) msg q
  end.
Proof. intros Hc. unfold build_answer. rewrite Hc, last_op. cbv beta iota. destruct (built b) as [[]|]; [|done]. by rewrite replace_last. Qed.
Lemma sign_last x a w : claws q = l ++ [ClawOp n s (Signing x a)] → sign_answer (length l) w q =
  match signed_tx x w with
  | Ok x' => send [SubmitTx x'] (set_ops (cancels q) (l ++ [ClawOp n s (Submitting a)]) q)
  | Err msg => fail_claw (length l) (ClawOp n s Building) msg q
  end.
Proof. intros Hc. unfold sign_answer. rewrite Hc, last_op. cbv beta iota. destruct (signed_tx x w); [|done]. by rewrite replace_last. Qed.
Lemma submit_last a r : claws q = l ++ [ClawOp n s (Submitting a)] → submit_answer (length l) r q =
  match submitted r with
  | None => set_dialogs (cancelDialog q) (Some (claw_state false None (Some a) m)) (next_modal q)
      (set_targets (cancelTargetStream q) (clawbackTargetStream q) true (set_ops (cancels q) (l ++ [ClawOp n s (Recovered a)]) q))
  | Some msg => fail_claw (length l) (ClawOp n s Building) msg q
  end.
Proof.
  intros Hc. unfold submit_answer. rewrite Hc, last_op. cbv beta iota. rewrite replace_last. destruct (submitted r); [done|].
  unfold in_claw, with_claw. cbn [set_targets set_ops clawDialog cancelDialog next_modal]. rewrite Hd. cbn [fmap option_fmap option_map]. by rewrite decide_True.
Qed.
(** A failed clawback is over: late answers change nothing. *)
Lemma failed_over w r : claws q = l ++ [ClawOp n s Failed] → sign_answer (length l) w q = q ∧ submit_answer (length l) r q = q.
Proof. intros Hc. unfold sign_answer, submit_answer. by rewrite Hc, last_op. Qed.
End one_operation.
(** *** What a clawback is to do, case by case

    The number an amount stands for; an amount that no clawback can recover. *)
Inductive amount_reads : amount_field → double → Prop :=
| reads_number x : amount_reads (AmountNumber x) x
| reads_text s : amount_reads (AmountText s) (Number s)
| reads_null : amount_reads AmountNull (of_Z 0).
Definition invalid_amount (x : double) : Prop := x = DNaN ∨ (∃ s, x = DInf s) ∨ ∃ q, x = DFin q ∧ (q < 0)%Q.
Definition success (code : Z) : Prop := 200 <= code <= 299.
(** An answer with a transaction [x] and the amount [n]. *)
Definition gives (b : reply build_body) (x : string) (n : double) : Prop :=
  ∃ code body, b = Reply code body ∧ success code ∧ transaction_xdr body = Some x ∧ x ≠ "" ∧ amount_reads (amount body) n.
(** The wallet reports no error, and [x'] is what goes to the network for [x]:
    the field [signedTxXdr], or else [signedXdr], or else [x] unsigned. *)
Definition hands_back (w : wallet_answer) (x x' : string) : Prop :=
  ∃ error new old, w = Signed error new old ∧ (error = None ∨ error = Some "") ∧
    (new = Some x' ∨ (new = None ∧ old = Some x') ∨ (new = None ∧ old = None ∧ x' = x)).
Definition try_again : string := "Clawback failed. Please try again.".
(** The message or the amount a clawback ends with, and what it sends after its
    first request, when its awaits meet [b], [w] and [r]. *)
Inductive claw_says (w : wallet_answer) (r : reply (option string)) : reply build_body → result string double → list sent_item → Prop :=
| says_no_answer msg : claw_says w r (NoReply msg) (Err (default try_again msg)) []
| says_not_built code body :
    ¬ success code ∨ transaction_xdr body = None ∨ transaction_xdr body = Some "" ∨ amount body = AmountAbsent →
    claw_says w r (Reply code body) (Err (default ("Unable to build clawback transaction (" +:+ Z_to_string code +:+ ").") (b_error body))) []
| says_bad_amount b x n : gives b x n → invalid_amount n →
    claw_says w r b (Err "The clawback service returned an invalid recovered amount.") []
| says_wallet_throws b x n msg : gives b x n → ¬ invalid_amount n → w = WalletThrows msg →
    claw_says w r b (Err (default try_again msg)) [SignTx x]
| says_wallet_error b x n e new old : gives b x n → ¬ invalid_amount n → w = Signed (Some e) new old → e ≠ "" →
    claw_says w r b (Err e) [SignTx x]
| says_not_sent b x n x' msg : gives b x n → ¬ invalid_amount n → hands_back w x x' → r = NoReply msg →
    claw_says w r b (Err (default try_again msg)) [SignTx x; SubmitTx x']
| says_not_accepted b x n x' code error : gives b x n → ¬ invalid_amount n → hands_back w x x' → r = Reply code error → ¬ success code →
    claw_says w r b (Err (default ("Clawback transaction failed (" +:+ Z_to_string code +:+ ").") error)) [SignTx x; SubmitTx x']
| says_recovered b x n x' code error : gives b x n → ¬ invalid_amount n → hands_back w x x' → r = Reply code error → success code →
    claw_says w r b (Ok n) [SignTx x; SubmitTx x'].

Definition with_default (o : result (option string) double) : result string double :=
  match o with Ok x => Ok x | Err msg => Err (default try_again msg) end.
Lemma is_ok_success code : is_ok code = true ↔ success code.
Proof. unfold is_ok, success. rewrite andb_true_iff, Z.leb_le, Z.ltb_lt. lia. Qed.
Lemma amount_number_reads a x : amount_reads a x ↔ a ≠ AmountAbsent ∧ amount_number a = x.
Proof. split; [by intros []|]. intros [Ha <-]. destruct a; try constructor. done. Qed.
Lemma invalid_amount_test n : negb (is_finite n) || lt64 n (of_Z 0) = true ↔ invalid_amount n.
Proof.
  unfold invalid_amount. rewrite of_Z_exact by done. change (inject_Z 0) with 0%Q. destruct n as [|t|q]; cbn [is_finite lt64 negb orb].
  - split; [by left|done].
  - split; [|done]. intros _. right. left. by exists t.
  - rewrite negb_true_iff. split.
    + intros H. right. right. exists q. split; [done|]. apply Qnot_le_lt. intros Hq%Qle_bool_iff. by rewrite Hq in H.
    + intros [?|[[? ?]|(? & [= <-] & Hq)]]; [done..|]. destruct (Qle_bool 0 q) eqn:E; [|done].
      apply Qle_bool_iff, Qle_not_lt in E. by destruct E.
Qed.
Lemma built_gives b x n : built b = Ok (x, n) ↔ gives b x n ∧ ¬ invalid_amount n.
Proof.
  unfold gives. rewrite <-invalid_amount_test. split.
  - destruct b as [msg|code body]; [done|]. cbn [built]. destruct (is_ok code) eqn:Hc; [|done]. apply is_ok_success in Hc.
    destruct (transaction_xdr body) as [x'|] eqn:Hx; [|done]. destruct (amount body) eqn:Ha; try done;
      (destruct (truthy x') eqn:Ht; [|done]); apply bool_decide_eq_true in Ht; cbn [negb amount_number];
      (match goal with |- context [if ?t then _ else _] => destruct t eqn:Hn end; [done|]); intros [= <- <-];
      (split; [|by rewrite Hn]); eexists code, body; split_and!; try done; rewrite Ha; constructor.
  - intros [(code & body & -> & Hc & Hx & Ht & Hr) Hn]. cbn [built]. apply amount_number_reads in Hr as [Ha <-].
    rewrite (proj2 (is_ok_success code) Hc), Hx. apply not_true_is_false in Hn. unfold truthy. rewrite (bool_decide_eq_true_2 _ Ht). cbn [negb].
    destruct (amount body); try done; by rewrite Hn.
Qed.
Lemma signed_tx_hands_back x w x' : signed_tx x w = Ok x' ↔ hands_back w x x'.
Proof.
  unfold hands_back. split.
  - destruct w as [|error new old]; [done|]. cbn. intros H. exists error, new, old. split; [done|].
    assert (default (default x old) new = x' ∧ (error = None ∨ error = Some "")) as [Hd He].
    { destruct error as [e|]; [|simplify_eq; by auto]. unfold truthy in H. case_bool_decide as Ht; [done|]. simplify_eq. by auto. }
    split; [done|]. destruct new, old; simplify_eq/=; auto.
  - intros (error & new & old & -> & He & H). cbn. assert (default (default x old) new = x') as <- by naive_solver.
    by destruct He as [-> | ->].
Qed.
Lemma submitted_success r : submitted r = None ↔ ∃ code error, r = Reply code error ∧ success code.
Proof.
  destruct r as [msg|code error]; cbn.
  - split; [done|]. by intros (? & ? & ? & _).
  - destruct (is_ok code) eqn:E; [apply is_ok_success in E; split; [by exists code, error|done]|].
    split; [done|]. intros (? & ? & [= <- <-] & H%is_ok_success). congruence.
Qed.
(** The computation says what the cases say. *)
Lemma claw_outcome_says b w r : claw_says w r b (with_default (claw_outcome b w r).1) (claw_outcome b w r).2.
Proof.
  unfold claw_outcome. destruct (built b) as [[x n]|msg] eqn:Hb.
  - apply built_gives in Hb as [Hg Hv]. destruct (signed_tx x w) as [x'|msg] eqn:Hw.
    + apply signed_tx_hands_back in Hw. destruct (submitted r) as [msg|] eqn:Hr; cbn [fst snd with_default].
      * destruct r as [m|code error]; cbn in Hr; [simplify_eq; by eapply says_not_sent|].
        destruct (is_ok code) eqn:Hc; [done|]. simplify_eq. eapply says_not_accepted; [done..|]. rewrite <-is_ok_success. congruence.
      * apply submitted_success in Hr as (code & error & -> & Hc). by eapply says_recovered.
    + destruct w as [m|error new old]; cbn in Hw; [simplify_eq; by eapply says_wallet_throws|].
      destruct error as [e|]; [|done]. destruct (truthy e) eqn:He; [|done]. apply bool_decide_eq_true in He. simplify_eq. by eapply says_wallet_error.
  - destruct b as [m|code body]; cbn [built] in Hb; [simplify_eq; constructor|].
    assert (Hbad : ∀ e : option string, e = Some (default ("Unable to build clawback transaction (" +:+ Z_to_string code +:+ ").") (b_error body)) →
      ¬ success code ∨ transaction_xdr body = None ∨ transaction_xdr body = Some "" ∨ amount body = AmountAbsent →
      claw_says w r (Reply code body) (with_default (Err e)) []) by (intros ? -> H; by constructor).
    destruct (is_ok code) eqn:Hc; [|simplify_eq; apply Hbad; [done|]; left; rewrite <-is_ok_success; congruence].
    apply is_ok_success in Hc. destruct (transaction_xdr body) as [x|] eqn:Hx; [|simplify_eq; apply Hbad; auto].
    assert (amount body = AmountAbsent ∨ amount body ≠ AmountAbsent) as [Ha|Ha] by (destruct (amount body); (by left) || (by right)); [rewrite Ha in Hb; simplify_eq; apply Hbad; auto|].
    destruct (decide (x = "")) as [->|Ht]; [apply Hbad; [by destruct (amount body); injection Hb|auto]|].
    set (n := amount_number (amount body)).
    assert (msg = Some "The clawback service returned an invalid recovered amount." ∧ negb (is_finite n) || lt64 n (of_Z 0) = true) as [-> Hn].
    { unfold n, truthy in *. rewrite (bool_decide_eq_true_2 _ Ht) in Hb. cbn [negb] in Hb.
      destruct (amount body); [..|done]; (match type of Hb with context [if ?t then _ else _] => destruct t eqn:Hn end; [by injection Hb|discriminate Hb]). }
    apply (says_bad_amount _ _ _ x n); [|by apply invalid_amount_test]. exists code, body. split_and!; try done. by apply amount_number_reads.
Qed.
Lemma claw_says_outcome b w r o items : claw_says w r b o items → o = with_default (claw_outcome b w r).1 ∧ items = (claw_outcome b w r).2.
Proof.
  intros H. unfold claw_outcome. destruct H as [msg|code body Hbad|b x n Hg Hn|b x n msg Hg Hn ->|b x n e new old Hg Hn -> He
    |b x n x' msg Hg Hn Hw ->|b x n x' code error Hg Hn Hw -> Hc|b x n x' code error Hg Hn Hw -> Hc].
  - done.
  - cbn. destruct (is_ok code) eqn:Hc; [|done]. apply is_ok_success in Hc. destruct (transaction_xdr body) as [x|]; [|done].
    destruct Hbad as [?|[?|[[= ->]| ->]]]; try done. by destruct (amount body).
  - destruct Hg as (code & body & -> & Hc & Hx & Ht & Hr). apply amount_number_reads in Hr as [Ha <-]. apply invalid_amount_test in Hn.
    cbn [built]. rewrite (proj2 (is_ok_success code) Hc), Hx. unfold truthy. rewrite (bool_decide_eq_true_2 _ Ht). cbn [negb].
    destruct (amount body); try done; by rewrite Hn.
  - by rewrite (proj2 (built_gives b x n) (conj Hg Hn)).
  - rewrite (proj2 (built_gives b x n) (conj Hg Hn)). cbn. unfold truthy. by rewrite bool_decide_eq_true_2.
  - rewrite (proj2 (built_gives b x n) (conj Hg Hn)), (proj2 (signed_tx_hands_back x w x') Hw). done.
  - rewrite (proj2 (built_gives b x n) (conj Hg Hn)), (proj2 (signed_tx_hands_back x w x') Hw). cbn.
    destruct (is_ok code) eqn:E; [by apply is_ok_success in E|done].
  - rewrite (proj2 (built_gives b x n) (conj Hg Hn)), (proj2 (signed_tx_hands_back x w x') Hw). cbn. by rewrite (proj2 (is_ok_success code) Hc).
Qed.

(** C13. A confirmed clawback does what the cases of [claw_says] say, and they
    cover every combination of answers: it asks for the transaction, gives it to
    the wallet, submits what the wallet hands back (the transaction as it was
    built when the answer has neither of the two signed fields), and stops at
    the first failure with its message in the dialog, which can be confirmed
    again.  The amount is shown and the clawback counts as completed exactly
    when all three succeed; the rows are not touched. *)
Theorem clawback_sequence p m a sid b w r : ready p m a sid →
  let i := length (claws p) in
  let p' := foldl sponsor_step p [ConfirmClaw; BuildAnswer i b; SignAnswer i w; SubmitAnswer i r] in
  (∃ outcome items, claw_says w r b outcome items) ∧
  ∀ outcome items, claw_says w r b outcome items →
    sent p' = sent p ++ BuildClawback (recipient (k_stream m)) a sid (trim (reason m)) :: items ∧
    streams p' = streams p ∧ clawbackTargetStream p' = clawbackTargetStream p ∧
    match outcome with
    | Ok x => clawDialog p' = Some (claw_state false None (Some x) m) ∧ clawbackCompleted p' = true
    | Err msg => clawDialog p' = Some (claw_state false (Some msg) None m) ∧ clawbackCompleted p' = clawbackCompleted p
    end.
Proof.
  intros Hready i p'. split; [eexists _, _; apply claw_outcome_says|]. intros outcome items [-> ->]%claw_says_outcome.
  unfold p'. cbn [foldl sponsor_step]. rewrite (confirm_ready _ _ _ _ Hready). clear p'. subst i. set (q := send _ _).
  assert (Hd : clawDialog q = Some (claw_state true None None m)) by done.
  erewrite (build_last q); [|done]. unfold claw_outcome. destruct (built b) as [[x n]|msg]; cycle 1.
  { rewrite (fail_last q _ _ _ _ Hd eq_refl _ _ eq_refl). set (q' := set_dialogs _ _ _ _).
    destruct (failed_over q' (claws p) (k_id m) (k_stream m) w r eq_refl) as [-> ->]. done. }
  set (q1 := send _ _). rewrite (sign_last q1 (claws p) (k_id m) (k_stream m) x n w eq_refl).
  destruct (signed_tx x w) as [x'|msg]; cycle 1.
  { rewrite (fail_last q1 _ _ _ _ Hd eq_refl _ _ eq_refl). set (q' := set_dialogs _ _ _ _).
    destruct (failed_over q' (claws p) (k_id m) (k_stream m) w r eq_refl) as [_ ->]. unfold q', q1, q. cbn. by rewrite <-app_assoc. }
  set (q2 := send _ _). rewrite (submit_last q2 (claws p) _ _ _ Hd eq_refl n r eq_refl).
  destruct (submitted r) as [msg|]; [rewrite (fail_last q2 _ _ _ _ Hd eq_refl _ _ eq_refl)|];
    unfold q2, q1, q; cbn; by rewrite <-!app_assoc.
Qed.

(** ** Which rows disappear *)

Definition pending (st : claw_stage) : bool := match st with Recovered _ | Failed => false | _ => true end.
(** What ties the dialog to the clawbacks: one that waits is the open dialog's,
    and a completed one is of the stream of the dialog. *)
Definition tied (p : sponsor_page) (m : claw_modal) : Prop :=
  (∀ i o, claws p !! i = Some o → pending (w_stage o) = true → w_modal o = k_id m ∧ w_stream o = k_stream m ∧ k_submitting m = true) ∧
  (∀ i j o o', claws p !! i = Some o → claws p !! j = Some o' → pending (w_stage o) = true → pending (w_stage o') = true → i = j) ∧
  (clawbackCompleted p = true → ∃ i n x, claws p !! i = Some (ClawOp n (k_stream m) (Recovered x))).
Definition none_waits (p : sponsor_page) : Prop := Forall (λ o, pending (w_stage o) = false) (claws p).
Definition page_ok (p : sponsor_page) : Prop :=
  match clawbackTargetStream p, clawDialog p with
  | None, None => clawbackCompleted p = false ∧ none_waits p
  | Some s, Some m => k_stream m = s ∧ shown p = true ∧ tied p m
  | _, _ => False
  end.

(** Two pages that differ in nothing the invariant reads. *)
Definition same_claw (p q : sponsor_page) : Prop :=
  clawbackTargetStream q = clawbackTargetStream p ∧ clawDialog q = clawDialog p ∧ clawbackCompleted q = clawbackCompleted p ∧ claws q = claws p.
Lemma page_ok_same p q : same_claw p q → (shown p = true → shown q = true) → page_ok p → page_ok q.
Proof.
  intros (Ht & Hd & Hc & Hw) Hs. unfold page_ok, tied, none_waits. rewrite Ht, Hd, Hc, Hw.
  destruct (clawbackTargetStream p), (clawDialog p); naive_solver.
Qed.
Lemma render_cancel_same p : same_claw p (render_cancel p) ∧ shown (render_cancel p) = shown p.
Proof. unfold render_cancel. destruct (cancelTargetStream p); [destruct (shown p) eqn:Hs; [destruct (cancelDialog p)|]|]; done. Qed.
Lemma render_ok p : page_ok p → page_ok (render p) ∧ clawDialog (render p) = clawDialog p.
Proof.
  intros Hp. destruct (render_cancel_same p) as [Hsame Hsh]. assert (Hp1 : page_ok (render_cancel p)) by (eapply page_ok_same; [done|by rewrite Hsh|done]).
  destruct Hsame as (Ht & Hd & Hc & Hw). unfold render. set (q := render_cancel p) in *. clearbody q.
  unfold render_claw. unfold page_ok in Hp, Hp1. rewrite Ht, Hd in *.
  destruct (clawbackTargetStream p) as [s|] eqn:E1, (clawDialog p) as [m|] eqn:E2; try done.
  - destruct Hp1 as (Hs & Hsh1 & Htied). rewrite Hsh1. split; [|done]. unfold page_ok. by rewrite Ht, Hd.
  - split; [|done]. unfold page_ok. cbn. by rewrite Ht.
Qed.
(** A dialog that opens. *)
Lemma render_new p s : clawbackTargetStream p = Some s → clawDialog p = None → shown p = true → clawbackCompleted p = false → none_waits p →
  page_ok (render p).
Proof.
  intros Ht Hd Hs Hc Hw. destruct (render_cancel_same p) as [(Ht' & Hd' & Hc' & Hw') Hsh]. unfold render. set (q := render_cancel p) in *. clearbody q.
  unfold render_claw. rewrite Ht', Ht, Hsh, Hs, Hd', Hd. unfold page_ok. cbn. rewrite Ht', Ht. split_and!; [done|by rewrite <-Hsh in Hs|].
  unfold none_waits in Hw. rewrite Forall_lookup in Hw. unfold tied. cbn. rewrite Hw', Hc', Hc. split_and!; [|..|done].
  - intros i o Hi Ho. by rewrite (Hw i o Hi) in Ho.
  - intros i j o o' Hi _ Ho _. by rewrite (Hw i o Hi) in Ho.
Qed.

Lemma in_cancel_same n f p : same_claw p (in_cancel n f p) ∧ shown (in_cancel n f p) = shown p.
Proof. done. Qed.
Lemma with_claw_ok f p : (∀ m, k_id (f m) = k_id m ∧ k_stream (f m) = k_stream m ∧ k_submitting (f m) = k_submitting m) → page_ok p → page_ok (with_claw f p).
Proof.
  intros Hf. unfold page_ok, with_claw, tied. cbn. destruct (clawbackTargetStream p) as [s|], (clawDialog p) as [m|]; try done. cbn.
  destruct (Hf m) as (Hi & Hs & Hb). rewrite Hi, Hs, Hb. done.
Qed.
(** The clawback [i] of the open dialog ends, or goes on. *)
Lemma claw_ends i n s st st' f p : claws p !! i = Some (ClawOp n s st) → pending st = true → pending st' = false →
  (∀ m, k_id (f m) = k_id m ∧ k_stream (f m) = k_stream m) → (∃ x, st' = Recovered x) ∨ st' = Failed →
  let q := in_claw n f (set_ops (cancels p) (<[i := ClawOp n s st']> (claws p)) p) in
  page_ok p → page_ok (set_targets (cancelTargetStream q) (clawbackTargetStream q) (match st' with Recovered _ => true | _ => clawbackCompleted p end) q).
Proof.
  intros Hi Hst Hst' Hf Hend q. unfold page_ok, q, in_claw, with_claw, tied, none_waits. cbn.
  destruct (clawbackTargetStream p) as [t|] eqn:Ht, (clawDialog p) as [m|] eqn:Hm; try done.
  - cbn. intros (Hk & Hsh & Hone & Huniq & Hrec). destruct (Hone i _ Hi Hst) as (Hn & Hs & Hsub). cbn in Hn, Hs.
    rewrite decide_True by done. destruct (Hf m) as [Hfi Hfs]. rewrite Hfi, Hfs.
    assert (Hnone : ∀ j o, <[i := ClawOp n s st']> (claws p) !! j = Some o → pending (w_stage o) = true → False).
    { intros j o Hj Ho. apply list_lookup_insert_Some in Hj as [(<- & <- & _)|[Hne Hj]]; [cbn in Ho; congruence|].
      by rewrite (Huniq i j _ _ Hi Hj Hst Ho) in Hne. }
    split_and!; [done|done|naive_solver|naive_solver|]. intros Hdone. destruct Hend as [[x ->]| ->].
    + exists i, n, x. rewrite list_lookup_insert_eq by (by eapply lookup_lt_Some). by rewrite Hs.
    + destruct (Hrec Hdone) as (j & n' & x & Hj). exists j, n', x. rewrite list_lookup_insert_ne; [done|]. intros ->. rewrite Hi in Hj. injection Hj as -> -> ->. done.
  - intros [Hc Hw]. rewrite Forall_lookup in Hw. specialize (Hw i _ Hi). cbn in Hw. congruence.
Qed.
Lemma claw_goes_on i n s st st' p : claws p !! i = Some (ClawOp n s st) → pending st = true → pending st' = true →
  page_ok p → page_ok (set_ops (cancels p) (<[i := ClawOp n s st']> (claws p)) p).
Proof.
  intros Hi Hst Hst'. unfold page_ok, tied, none_waits. cbn.
  assert (Hold : ∀ j o, <[i := ClawOp n s st']> (claws p) !! j = Some o → pending (w_stage o) = true →
    ∃ o', claws p !! j = Some o' ∧ pending (w_stage o') = true ∧ w_modal o' = w_modal o ∧ w_stream o' = w_stream o).
  { intros j o Hj Ho. apply list_lookup_insert_Some in Hj as [(<- & <- & _)|[Hne Hj]]; [by exists (ClawOp n s st)|by exists o]. }
  destruct (clawbackTargetStream p) as [t|], (clawDialog p) as [m|]; try done.
  - intros (Hk & Hsh & Hone & Huniq & Hrec). split_and!; [done|done| | |].
    + intros j o Hj Ho. destruct (Hold j o Hj Ho) as (o' & Hj' & Ho' & <- & <-). by eapply Hone.
    + intros j j' o o' Hj Hj' Ho Ho'. destruct (Hold j o Hj Ho) as (o1 & H1 & H1' & _), (Hold j' o' Hj' Ho') as (o2 & H2 & H2' & _). by eapply Huniq.
    + intros Hdone. destruct (Hrec Hdone) as (j & n' & x & Hj). exists j, n', x. rewrite list_lookup_insert_ne; [done|].
      intros ->. rewrite Hi in Hj. injection Hj as -> -> ->. done.
  - intros [Hc Hw]. rewrite Forall_lookup in Hw. specialize (Hw i _ Hi). cbn in Hw. congruence.
Qed.
Lemma fail_claw_ok i n s st msg p : claws p !! i = Some (ClawOp n s st) → pending st = true → page_ok p → page_ok (fail_claw i (ClawOp n s Building) msg p).
Proof.
  intros Hi Hst. exact (claw_ends i n s st Failed (claw_state false (Some (default "Clawback failed. Please try again." msg)) None) p
    Hi Hst eq_refl (λ m, conj eq_refl eq_refl) (or_intror eq_refl)).
Qed.
Lemma render_closed p : clawbackTargetStream p = None → clawbackCompleted p = false → none_waits p → page_ok (render p).
Proof.
  intros Ht Hc Hw. destruct (render_cancel_same p) as [(Ht' & Hd' & Hc' & Hw') _]. unfold render. set (q := render_cancel p) in *. clearbody q.
  unfold render_claw. rewrite Ht', Ht. unfold page_ok, none_waits. cbn. rewrite Ht', Ht, Hc', Hw'. done.
Qed.
Lemma idle_none_waits p m : page_ok p → clawDialog p = Some m → k_submitting m = false → none_waits p.
Proof.
  unfold page_ok. intros Hp Hd Hs. rewrite Hd in Hp. destruct (clawbackTargetStream p); [|done]. destruct Hp as (_ & _ & Hone & _).
  apply Forall_lookup. intros i o Hi. destruct (pending (w_stage o)) eqn:Ho; [|done]. destruct (Hone i o Hi Ho) as (_ & _ & ?). congruence.
Qed.
Lemma closed_page p : page_ok p → clawDialog p = None → clawbackTargetStream p = None ∧ clawbackCompleted p = false ∧ none_waits p.
Proof. unfold page_ok. intros Hp Hd. rewrite Hd in Hp. by destruct (clawbackTargetStream p). Qed.
Lemma confirm_starts p m : page_ok p → clawDialog p = Some m → k_submitting m = false →
  page_ok (set_ops (cancels p) (claws p ++ [ClawOp (k_id m) (k_stream m) Building]) (with_claw (claw_state true None None) p)).
Proof.
  intros Hp Hd Hs. pose proof (idle_none_waits p m Hp Hd Hs) as Hw. unfold none_waits in Hw. rewrite Forall_lookup in Hw.
  unfold page_ok, tied in *. cbn. rewrite Hd in *. destruct (clawbackTargetStream p) as [t|]; [|done]. cbn. destruct Hp as (Hk & Hsh & Hone & _ & Hrec).
  assert (Hnew : ∀ i o, (claws p ++ [ClawOp (k_id m) (k_stream m) Building]) !! i = Some o → pending (w_stage o) = true →
    i = length (claws p) ∧ o = ClawOp (k_id m) (k_stream m) Building).
  { intros i o Hi Ho. apply lookup_app_Some in Hi as [Hi|[Hge Hi]]; [by rewrite (Hw i o Hi) in Ho|].
    apply list_lookup_singleton_Some in Hi as [Hi <-]. split; [lia|done]. }
  split_and!; [done|done| | |].
  - intros i o Hi Ho. destruct (Hnew i o Hi Ho) as [_ ->]. done.
  - intros i j o o' Hi Hj Ho Ho'. destruct (Hnew i o Hi Ho) as [-> _], (Hnew j o' Hj Ho') as [-> _]. done.
  - intros Hdone. destruct (Hrec Hdone) as (i & n & x & Hi). exists i, n, x. by apply lookup_app_l_Some.
Qed.
Definition keeps_wallet (e : sponsor_event) : bool := match e with Wallet _ => false | _ => true end.
Lemma find_row i ok p : Exists (λ s, id s = i ∧ ok s = true) (streams p) → is_Some (find_stream i p).
Proof.
  rewrite Exists_exists. intros (s & Hs & Hi & _). unfold find_stream. destruct (list_find (λ s, id s = i) (streams p)) as [[j t]|] eqn:E; [by eexists|].
  apply list_find_None in E. rewrite Forall_forall in E. by specialize (E s Hs).
Qed.
Lemma sponsor_step_ok p e : keeps_wallet e = true → page_ok p → page_ok (sponsor_step p e).
Proof.
  intros He Hp. destruct e; try done; cbn [sponsor_step].
  - destruct (_ && _) eqn:Hg; [|done]. rewrite !andb_true_iff, bool_decide_eq_true in Hg. destruct Hg as [[[[_ [_ Hd]] _] _] _].
    destruct (closed_page p Hp Hd) as (Ht & Hc & Hw). apply render_closed; unfold fetch_rows; repeat case_match; done.
  - destruct (reachable_row _ _ _); [|done]. by apply render_ok.
  - destruct (reachable_row _ _ _) eqn:Hg; [|done]. unfold reachable_row in Hg. rewrite andb_true_iff, bool_decide_eq_true in Hg. destruct Hg as (Hsh & _ & Hd & Hex).
    destruct (closed_page p Hp Hd) as (Ht & Hc & Hw). apply find_row in Hex as [s Hs]. by apply (render_new _ s).
  - unfold confirm_cancel. destruct (cancelDialog p); [|done]. by destruct (_ || _).
  - unfold close_cancel. destruct (cancelDialog p); [|done]. destruct (_ && _); [done|]. by apply render_ok.
  - unfold cancel_answer. destruct (cancels p !! i) as [[n s []]|]; [done| |done]. destruct (buildAndSubmitCancelTx r); [done|].
    apply (page_ok_same (handleCancelSuccess (id s) (set_ops (<[i:=CancelOp n s true]> (cancels p)) (claws p) p))); [done|done|].
    unfold handleCancelSuccess. apply render_ok. revert Hp. apply page_ok_same; [done|]. unfold shown, connected. cbn.
    rewrite !andb_true_iff, !negb_true_iff, !bool_decide_eq_false. by intros [? Hne]; split; [|destruct (streams p)].
  - apply with_claw_ok; [|done]. intros m. unfold type_reason. by case_match.
  - apply with_claw_ok; [|done]. intros m. unfold continue_step. by case_match.
  - apply with_claw_ok; [|done]. intros m. unfold back_step. by case_match.
  - unfold confirm_claw. destruct (clawDialog p) as [m|] eqn:Hd; [|done]. destruct (_ || _) eqn:Hg; [done|].
    rewrite !orb_false_iff in Hg. destruct Hg as [[_ Hs] _]. pose proof (confirm_starts p m Hp Hd Hs) as Hq.
    assert (Hfail : ∀ msg, page_ok (fail_claw (length (claws p)) (ClawOp (k_id m) (k_stream m) Building) msg
      (set_ops (cancels p) (claws p ++ [ClawOp (k_id m) (k_stream m) Building]) (with_claw (claw_state true None None) p)))).
    { intros msg. eapply fail_claw_ok; [apply last_op|done|done]. }
    cbv zeta. repeat case_match; first [apply Hfail|exact Hq].
  - unfold close_claw. destruct (clawDialog p) as [m|] eqn:Hd; [|done]. destruct (k_submitting m) eqn:Hs; [done|].
    pose proof (idle_none_waits p m Hp Hd Hs) as Hw. unfold handleClawbackClose. apply render_closed; repeat case_match; done.
  - unfold build_answer. destruct (claws p !! i) as [[n s []]|] eqn:Hi; try done. destruct (built r) as [[x a]|msg]; [|by eapply fail_claw_ok].
    exact (claw_goes_on i n s _ (Signing x a) p Hi eq_refl eq_refl Hp).
  - unfold sign_answer. destruct (claws p !! i) as [[n s []]|] eqn:Hi; try done. destruct (signed_tx _ w) as [x'|msg]; [|by eapply fail_claw_ok].
    exact (claw_goes_on i n s _ (Submitting amount0) p Hi eq_refl eq_refl Hp).
  - unfold submit_answer. destruct (claws p !! i) as [[n s []]|] eqn:Hi; try done. destruct (submitted r) as [msg|]; [by eapply fail_claw_ok|].
    exact (claw_ends i n s _ (Recovered amount0) (claw_state false None (Some amount0)) p Hi eq_refl eq_refl (λ m, conj eq_refl eq_refl) (or_introl (ex_intro _ _ eq_refl)) Hp).
Qed.
Lemma sponsor_run_ok a es : forallb keeps_wallet es = true → page_ok (sponsor_run a es).
Proof.
  unfold sponsor_run. assert (page_ok (sponsor_mount a)) as H by (unfold sponsor_mount; apply render_closed; unfold fetch_rows; repeat case_match; (done || constructor)).
  revert H. generalize (sponsor_mount a). induction es as [|e es IH]; intros p Hp; [done|]. cbn [forallb foldl]. intros [He Hes]%andb_true_iff.
  apply IH; [by apply sponsor_step_ok|done].
Qed.

Lemma render_streams p : streams (render p) = streams p.
Proof. unfold render, render_claw, render_cancel. repeat case_match; done. Qed.
Definition is_preview (x : sent_item) : Prop := match x with AskPreview _ => True | _ => False end.
Lemma render_sent p : claws (render p) = claws p ∧ ∃ items, sent (render p) = sent p ++ items ∧ Forall is_preview items.
Proof.
  assert (H1 : claws (render_cancel p) = claws p ∧ ∃ items, sent (render_cancel p) = sent p ++ items ∧ Forall is_preview items).
  { unfold render_cancel. repeat case_match; split; try done; (exists []; by rewrite app_nil_r) || eexists; split; try done; by repeat constructor. }
  destruct H1 as (Hc & items & Hs & Hf). unfold render, render_claw. split; [repeat case_match; done|]. exists items.
  repeat case_match; (split; [exact Hs|done]).
Qed.

Lemma claw_dialog_target p m : page_ok p → clawDialog p = Some m → clawbackTargetStream p = Some (k_stream m) ∧ tied p m.
Proof. unfold page_ok. intros Hp Hd. rewrite Hd in Hp. destruct (clawbackTargetStream p); [|done]. by destruct Hp as (<- & _ & ?). Qed.
Definition row_event (e : sponsor_event) : bool := match e with Wallet _ | SetPage _ | CloseClaw => true | _ => false end.
Lemma step_rows p e : row_event e = false → id <$> streams (sponsor_step p e) = id <$> streams p.
Proof.
  intros He. destruct e; try done; cbn [sponsor_step].
  - destruct (reachable_row _ _ _); [|done]. unfold handleCancelStream. by rewrite render_streams.
  - destruct (reachable_row _ _ _); [|done]. unfold handleClawbackStream. by rewrite render_streams.
  - unfold confirm_cancel. by repeat case_match.
  - unfold close_cancel. repeat case_match; try done. by rewrite render_streams.
  - unfold cancel_answer. destruct (cancels p !! i) as [[n s []]|]; [done| |done]. destruct (buildAndSubmitCancelTx r); [done|].
    change (streams (in_cancel n (cancel_state false None) ?q)) with (streams q). unfold handleCancelSuccess. rewrite render_streams. cbn.
    rewrite <-list_fmap_compose. apply list_fmap_ext. intros j t _. cbn. by case_decide.
  - unfold confirm_claw. by repeat case_match.
  - unfold build_answer. by repeat case_match.
  - unfold sign_answer. by repeat case_match.
  - unfold submit_answer. by repeat case_match.
Qed.
(** A row disappears only when its clawback has gone through: as long as the
    wallet stays, every event but a change of page keeps the rows, except that
    closing the dialog of a completed clawback takes its stream away. *)
Theorem rows_removed a es e : forallb keeps_wallet es = true → keeps_wallet e = true → (∀ n, e ≠ SetPage n) →
  let p := sponsor_run a es in let p' := sponsor_step p e in
  id <$> streams p' = id <$> streams p ∨
  e = CloseClaw ∧ ∃ i n t x, claws p !! i = Some (ClawOp n t (Recovered x)) ∧ streams p' = filter (λ s, id s ≠ id t) (streams p).
Proof.
  intros Hes He Hn p p'. pose proof (sponsor_run_ok a es Hes) as Hp. fold p in Hp. unfold p'. clearbody p. clear p' Hes.
  destruct (row_event e) eqn:Hrow; [|left; by apply step_rows]. destruct e; try done; [by destruct (Hn n)|]. cbn [sponsor_step].
  unfold close_claw. destruct (clawDialog p) as [m|] eqn:Hd; [|by left]. destruct (k_submitting m); [by left|].
  unfold handleClawbackClose. rewrite render_streams. destruct (claw_dialog_target p m Hp Hd) as [-> (_ & _ & Hrec)].
  destruct (clawbackCompleted p); [|by left]. right. split; [done|]. destruct (Hrec eq_refl) as (i & n & x & Hi). by exists i, n, (k_stream m), x.
Qed.

(** ** Which requests are sent *)

Lemma sent_none p : ∃ items, sent p = sent p ++ items ∧ Forall is_preview items.
Proof. exists []. by rewrite app_nil_r. Qed.
(** What justifies a request that an event sends. *)
Definition justified (p : sponsor_page) (e : sponsor_event) (x : sent_item) : Prop :=
  match x with
  | AskPreview _ => True
  | BuildCancel r => e = ConfirmCancel ∧ ∃ m, cancelDialog p = Some m ∧ r = recipient (c_stream m) ∧ trim (confirmAddress m) = trim r ∧ c_submitting m = false
  | BuildClawback r a sid why => e = ConfirmClaw ∧ ∃ m, clawDialog p = Some m ∧ step m = 3 ∧ why = trim (reason m) ∧ truthy why = true ∧
      k_submitting m = false ∧ returnedAmount m = None ∧ r = recipient (k_stream m) ∧ streamId (k_stream m) = Some sid ∧ address p = Some a
  | SignTx x => ∃ i r n s a, e = BuildAnswer i r ∧ claws p !! i = Some (ClawOp n s Building) ∧ built r = Ok (x, a)
  | SubmitTx x => ∃ i w n s x0 a, e = SignAnswer i w ∧ claws p !! i = Some (ClawOp n s (Signing x0 a)) ∧ signed_tx x0 w = Ok x
  end.
Lemma previews_justified p e p' : (∃ items, sent p' = sent p ++ items ∧ Forall is_preview items) → ∃ items, sent p' = sent p ++ items ∧ Forall (justified p e) items.
Proof. intros (items & Hs & Hf). exists items. split; [done|]. eapply Forall_impl; [exact Hf|]. by intros []. Qed.
(** What leaves the page was asked for: a cancellation by its button, with
    the recipient's address typed and none under way; a clawback by the third
    step, with a reason and none under way; a transaction is given to the wallet
    when the service built it, and sent when the wallet signed it. *)
Lemma requests_justified p e : ∃ items, sent (sponsor_step p e) = sent p ++ items ∧ Forall (justified p e) items.
Proof.
  assert (Hr : ∀ q, sent q = sent p → ∃ items, sent (render q) = sent p ++ items ∧ Forall (justified p e) items).
  { intros q Hq. apply previews_justified. destruct (render_sent q) as (_ & items & Hs & Hf). exists items. by rewrite Hs, Hq. }
  assert (H0 : ∀ q, sent q = sent p → ∃ items, sent q = sent p ++ items ∧ Forall (justified p e) items).
  { intros q ->. apply previews_justified, sent_none. }
  destruct e; cbn [sponsor_step].
  - case_decide; [by apply H0|]. apply Hr. unfold fetch_rows. by repeat case_match.
  - case_match; [|by apply H0]. apply Hr. unfold fetch_rows. by repeat case_match.
  - case_match; [by apply Hr|by apply H0].
  - case_match; [by apply Hr|by apply H0].
  - by apply H0.
  - unfold confirm_cancel. destruct (cancelDialog p) as [m|] eqn:Hd; [|by apply H0]. destruct (_ || _) eqn:Hg; [by apply H0|].
    apply orb_false_iff in Hg as [Hg1%negb_false_iff%bool_decide_eq_true Hg2]. eexists. split; [done|]. repeat constructor. by exists m.
  - unfold close_cancel. destruct (cancelDialog p); [|by apply H0]. case_match; [by apply H0|by apply Hr].
  - by apply H0.
  - unfold cancel_answer. destruct (cancels p !! i) as [[n s []]|]; [by apply H0| |by apply H0]. destruct (buildAndSubmitCancelTx r); [by apply H0|by apply Hr].
  - by apply H0.
  - by apply H0.
  - by apply H0.
  - unfold confirm_claw. destruct (clawDialog p) as [m|] eqn:Hd; [|by apply H0]. destruct (_ || _) eqn:Hg; [by apply H0|].
    rewrite !orb_false_iff in Hg. destruct Hg as [[[[Hg1%negb_false_iff%Z.eqb_eq Hg2%negb_false_iff] _] Hg4] Hg5%bool_decide_eq_false].
    cbv zeta. destruct (connected _); [|by apply H0]. destruct (address _) as [a|] eqn:Ha; [|by apply H0]. destruct (streamId (k_stream m)) as [sid|] eqn:Hsid; [|by apply H0].
    eexists. split; [done|]. repeat constructor. exists m. split_and!; try done. by destruct (returnedAmount m); [destruct Hg5|].
  - unfold close_claw. destruct (clawDialog p); [|by apply H0]. case_match; [by apply H0|]. unfold handleClawbackClose. apply Hr. by repeat case_match.
  - unfold build_answer. destruct (claws p !! i) as [[n s []]|] eqn:Hi; try by apply H0. destruct (built r) as [[x a]|msg] eqn:Hb; [|by apply H0].
    eexists. split; [done|]. repeat constructor. by exists i, r, n, s, a.
  - unfold sign_answer. destruct (claws p !! i) as [[n s []]|] eqn:Hi; try by apply H0. destruct (signed_tx xdr w) as [x|msg] eqn:Hb; [|by apply H0].
    eexists. split; [done|]. repeat constructor. by exists i, w, n, s, xdr, amount0.
  - unfold submit_answer. destruct (claws p !! i) as [[n s []]|] eqn:Hi; try by apply H0. by destruct (submitted r); apply H0.
Qed.

Lemma no_claws_step p e : e ≠ ConfirmClaw → claws p = [] → claws (sponsor_step p e) = [].
Proof.
  intros He Hc. assert (Hr : ∀ q, claws q = [] → claws (render q) = []) by (intros q <-; apply render_sent).
  destruct e; try done; cbn [sponsor_step]; try (progress unfold build_answer, sign_answer, submit_answer; by rewrite Hc).
  - case_decide; [done|]. apply Hr. unfold fetch_rows. by repeat case_match.
  - case_match; [|done]. apply Hr. unfold fetch_rows. by repeat case_match.
  - case_match; [by apply Hr|done].
  - case_match; [by apply Hr|done].
  - unfold confirm_cancel. by repeat case_match.
  - unfold close_cancel. repeat case_match; try done. by apply Hr.
  - unfold cancel_answer. repeat case_match; try done. by apply Hr.
  - unfold close_claw. repeat case_match; try done. unfold handleClawbackClose. apply Hr. by repeat case_match.
Qed.
(** A cancellation never becomes a transaction: whatever is typed, pressed
    and answered, unless a clawback is confirmed, the page asks for previews and
    for transactions to be built, and gives nothing to the wallet nor to the
    network, although an answer marks the row as cancelled. *)
Theorem cancel_submits_nothing a es : forallb (λ e, match e with ConfirmClaw => false | _ => true end) es = true →
  Forall (λ x, match x with AskPreview _ | BuildCancel _ => True | _ => False end) (sent (sponsor_run a es)).
Proof.
  set (fine := λ x, match x with AskPreview _ | BuildCancel _ => True | _ => False end). unfold sponsor_run.
  assert (claws (sponsor_mount a) = [] ∧ Forall fine (sent (sponsor_mount a))) as H.
  { unfold sponsor_mount. set (p0 := fetch_rows _). assert (claws p0 = [] ∧ sent p0 = []) as [Hc Hs] by (unfold p0, fetch_rows; by repeat case_match).
    destruct (render_sent p0) as (-> & items & -> & Hf). rewrite Hs. split; [done|]. eapply Forall_impl; [exact Hf|]. by intros []. }
  revert H. generalize (sponsor_mount a). induction es as [|e es IH]; intros p [Hc Hf]; [done|]. cbn [forallb foldl]. intros [He Hes]%andb_true_iff.
  assert (Hne : e ≠ ConfirmClaw) by (by intros ->). apply IH; [|done]. split; [by apply no_claws_step|].
  destruct (requests_justified p e) as (items & -> & Hj). apply Forall_app. split; [done|]. eapply Forall_impl; [exact Hj|].
  intros []; cbn; rewrite ?Hc; try done.
  - by intros [-> _].
  - by intros (i & r & n & s & x & _ & Hi & _).
  - by intros (i & w & n & s & x & y & _ & Hi & _).
Qed.

(** ** The dialogs *)

(** A preview that fails shows two zeros and says that the cliff is not reached
    and the whole deposit comes back. *)
Lemma failed_preview_says_refund n r p m : (∀ code pv, r = Reply code pv → is_ok code = false) →
  cancelDialog p = Some m → c_id m = n → previewLoading m = true →
  ∃ m' e, cancelDialog (preview_answer n r p) = Some m' ∧ previewError m' = Some e ∧ amounts_shown m' = (of_Z 0, of_Z 0) ∧ cliff_warning m' = true.
Proof.
  intros Hr Hd Hn Hl. unfold preview_answer, in_cancel, with_cancel. cbn. rewrite Hd. cbn. rewrite decide_True, Hl by done.
  destruct r as [msg|code pv]; cbn; [by do 2 eexists|]. rewrite (Hr code pv eq_refl). by do 2 eexists.
Qed.

(** ** Examples and witnesses *)

Definition sponsor_key : string := "GSPONSOR".
Definition eligible (i : string) : VestingStream :=
  Stream i (Some 7) ("GR" +:+ i) sponsor_key "USDC" 10 1500 "active" None (Some 51113600) (Some 57248000) None (Some true) (Some 900).
(** A page with two streams that can be clawed back. *)
Definition demo_page : sponsor_page := set_rows [eligible "a"; eligible "b"] 2 (sponsor_mount (Some sponsor_key)).
Definition to_step3 (i : string) : list sponsor_event := [OpenClawback i; Continue; TypeReason " fraud "; Continue].
Definition run_on (p : sponsor_page) (es : list sponsor_event) : sponsor_page := foldl sponsor_step p es.
Definition body_ok : build_body := BuildBody None (Some "AAAA") (AmountText "900").

Lemma clawback_sequence_witness :
  let p := run_on demo_page (to_step3 "b") in
  let p' := foldl sponsor_step p [ConfirmClaw; BuildAnswer 0 (Reply 200 body_ok); SignAnswer 0 (Signed None (Some "BBBB") None); SubmitAnswer 0 (Reply 200 None)] in
  sent p' = [BuildClawback "GRb" sponsor_key 7 "fraud"; SignTx "AAAA"; SubmitTx "BBBB"] ∧ clawbackCompleted p' = true ∧
  id <$> streams (sponsor_step p' CloseClaw) = ["a"].
Proof.
  intros p p'. set (m := ClawModal 0 (eligible "b") 3 " fraud " false None None).
  assert (Hready : ready p m sponsor_key 7).
  { split_and!; try (vm_compute; reflexivity). by eexists. }
  assert (Hsays : claw_says (Signed None (Some "BBBB") None) (Reply 200 None) (Reply 200 body_ok) (Ok (Number "900")) [SignTx "AAAA"; SubmitTx "BBBB"]).
  { apply (says_recovered _ _ _ "AAAA" (Number "900") "BBBB" 200 None); [| | |done|by unfold success].
    - exists 200, body_ok. split_and!; [done|by unfold success|done|done|constructor].
    - intros H. apply invalid_amount_test in H. vm_compute in H. discriminate H.
    - exists None, (Some "BBBB"), None. auto. }
  destruct (clawback_sequence p m sponsor_key 7 (Reply 200 body_ok) (Signed None (Some "BBBB") None) (Reply 200 None) Hready) as (_ & H).
  destruct (H _ _ Hsays) as (Hs & _ & _ & _ & Hc).
  split; [exact Hs|]. split; [exact Hc|]. vm_compute. reflexivity.
Defined.
(** The wallet gives no signed transaction: the unsigned one is sent. *)
Example unsigned_submitted :
  sent (run_on demo_page (to_step3 "b" ++ [ConfirmClaw; BuildAnswer 0 (Reply 200 body_ok); SignAnswer 0 (Signed None None None)])) =
    [BuildClawback "GRb" sponsor_key 7 "fraud"; SignTx "AAAA"; SubmitTx "AAAA"].
Proof. by vm_compute. Qed.
(** An amount that is [null] counts as zero. *)
Example null_amount : built (Reply 200 (BuildBody None (Some "AAAA") AmountNull)) = Ok ("AAAA", of_Z 0).
Proof. by vm_compute. Qed.

Definition confirmed_cancel (i : string) (r : string) : list sponsor_event := [OpenCancel i; TypeAddress (" " +:+ r); ConfirmCancel].
Lemma cancel_submits_nothing_witness :
  let p := sponsor_run (Some sponsor_key) (confirmed_cancel "1" "GABC1…XYZ" ++ [CancelAnswer 0 (Reply 200 None)]) in
  Forall (λ x, match x with AskPreview _ | BuildCancel _ => True | _ => False end) (sent p) ∧
  (status <$> streams p) = ["cancelled"; "pre-cliff"; "completed"] ∧ sent p = [AskPreview "GABC1…XYZ"; BuildCancel "GABC1…XYZ"].
Proof.
  intros p. split; [|vm_compute; done]. apply (cancel_submits_nothing (Some sponsor_key) (confirmed_cancel "1" "GABC1…XYZ" ++ [CancelAnswer 0 (Reply 200 None)])).
  reflexivity.
Defined.
Lemma rows_removed_witness :
  let es := to_step3 "1" ++ [CloseClaw] in
  id <$> streams (sponsor_step (sponsor_run (Some sponsor_key) es) (OpenCancel "1")) = ["1"; "2"; "3"].
Proof.
  destruct (rows_removed (Some sponsor_key) (to_step3 "1" ++ [CloseClaw]) (OpenCancel "1") eq_refl eq_refl ltac:(done)) as [H|[H _]]; [|discriminate H].
  etrans; [exact H|]. vm_compute. reflexivity.
Defined.
(** A dialog closed with Escape while its request is out: the answer still marks
    the row, and closes the dialog of another stream that was opened since. *)
Example late_success_closes_other_dialog :
  let p := sponsor_run (Some sponsor_key) (confirmed_cancel "1" "GABC1…XYZ" ++ [CloseCancel false; OpenCancel "2"; TypeAddress "GDEF2"]) in
  is_Some (cancelDialog p) ∧
  let p' := sponsor_step p (CancelAnswer 0 (Reply 200 None)) in
  cancelDialog p' = None ∧ (status <$> streams p') = ["cancelled"; "pre-cliff"; "completed"].
Proof. vm_compute. split; [by eexists|done]. Qed.
(** After the wallet left and came back, the answer of an earlier clawback lets
    the dialog of another stream take that stream's row away. *)
Example wrong_stream_removed :
  let p := run_on demo_page (to_step3 "a" ++ [ConfirmClaw; BuildAnswer 0 (Reply 200 body_ok); SignAnswer 0 (Signed None (Some "BBBB") None);
    Wallet None; Wallet (Some sponsor_key); CloseClaw]) in
  let p := set_rows [eligible "a"; eligible "b"] 2 p in
  id <$> streams (run_on p [OpenClawback "b"; SubmitAnswer 0 (Reply 200 None); CloseClaw]) = ["a"].
Proof. by vm_compute. Qed.
