(* ===== verification/StreamsPage.v ===== *)
(** * The streams page

    frontend/src/app/streams/page.tsx with hooks/useStreams.ts: filters, sort,
    selection for a bulk cancellation, paging and export, over the rows of the
    hook.  The rows follow the filter and the page at once, as the hook computes
    them without waiting. *)
From Stdlib Require Import Sorting.
From stdpp Require Import list sorting gmap strings.
From S2P Require Import Prelude Digits Csv ArraySort DataTable.
#[local] Open Scope Z_scope.

(** ** [useStreams] *)

Definition PAGE_SIZE : Z := 25.
Definition BASE_LEDGER : Z := 51200000.
Definition mock_row (i r tok : string) (rt amount : Z) (st : string) (ledgers : option (Z * Z * Z * Z)) : VestingStream :=
  let at_ (f : Z * Z * Z * Z → Z) := f <$> ledgers in
  Stream i None r "GSPON…" tok rt amount st (at_ (λ l, BASE_LEDGER + l.1.1.1)) (at_ (λ l, BASE_LEDGER + l.1.1.2)) (at_ (λ l, BASE_LEDGER + l.1.2)) (at_ snd) None None.
Definition MOCK_STREAMS : list VestingStream :=
  [mock_row "1" "GABC1…XYZ" "USDC" 10 1500 "active" (Some (-172800, -86400, 6048000, 63072000));
   mock_row "2" "GABC2…XYZ" "USDC" 5 0 "pre-cliff" (Some (-17280, 259200, 2592000, 12960000));
   mock_row "3" "GABC3…XYZ" "XLM" 20 0 "completed" None;
   mock_row "4" "GABC4…XYZ" "USDC" 8 0 "cancelled" None;
   mock_row "5" "GABC5…XYZ" "USDC" 15 2200 "active" (Some (-200000, -100000, 5000000, 80000000));
   mock_row "6" "GABC6…XYZ" "XLM" 3 0 "pre-cliff" (Some (-5000, 300000, 1500000, 4500000));
   mock_row "7" "GABC7…XYZ" "USDC" 12 0 "cancelled" None;
   mock_row "8" "GABC8…XYZ" "USDC" 7 0 "completed" None;
   mock_row "9" "GABC9…XYZ" "XLM" 25 3100 "active" (Some (-300000, -200000, 4000000, 100000000));
   mock_row "10" "GABC10…XYZ" "USDC" 6 0 "pre-cliff" (Some (-10000, 150000, 1200000, 7200000))].
Definition with_filter (all : list VestingStream) (f : string) : list VestingStream :=
  if decide (f = "all") then all else filter (λ s, status s = f) all.
Definition hook_rows (all : list VestingStream) (page : Z) (f : string) : list VestingStream * Z :=
  let filtered := with_filter all f in
  let start := (page - 1) * PAGE_SIZE in
  (slice_Z start (start + PAGE_SIZE) filtered, Z.of_nat (length filtered)).

(** ** Sorting *)

Inductive SortField := ClaimableAmount | CliffLedger | EndLedger | Recipient.
#[export] Instance field_eq_dec : EqDecision SortField.
Proof. solve_decision. Defined.
Record SortState := SortBy { field : SortField; dir : SortDirection }.
(** [(a ?? Infinity) - (b ?? Infinity)]: two infinities give [NaN], which a sort
    takes for zero. *)
Definition ledger_cmp (a b : option Z) : Z :=
  match a, b with
  | None, None => 0
  | None, Some _ => 1
  | Some _, None => -1
  | Some x, Some y => x - y
  end.

Section page.
Context (collate : string → string → Z).
Definition field_cmp (f : SortField) (a b : VestingStream) : Z :=
  match f with
  | ClaimableAmount => claimableAmount a - claimableAmount b
  | CliffLedger => ledger_cmp (cliffLedger a) (cliffLedger b)
  | EndLedger => ledger_cmp (endLedger a) (endLedger b)
  | Recipient => collate (recipient a) (recipient b)
  end.
Definition stream_cmp (s : SortState) (a b : VestingStream) : Z := if decide (dir s = Asc) then field_cmp (field s) a b else - field_cmp (field s) a b.
Definition sortStreams (rows : list VestingStream) (s : SortState) : list VestingStream := stable_sort (stream_cmp s) rows.

(** ** The page *)

Inductive ViewMode := Card | TableView.
Record streams_page := SPage {
  viewMode : ViewMode; sort : SortState; tokenFilter : string; selected : gset string;
  cancelTarget : option VestingStream; bulkCancelPending : bool; filter_ : string; page : Z; saved_view : option string }.
(** [loadViewPref] and [saveViewPref]; a storage that throws holds nothing. *)
Definition loadViewPref (stored : option string) : ViewMode := if decide (stored = Some "table") then TableView else Card.
Definition view_text (v : ViewMode) : string := match v with Card => "card" | TableView => "table" end.
Definition streams_mount (stored : option string) : streams_page :=
  SPage (loadViewPref stored) (SortBy ClaimableAmount Desc) "all" ∅ None false "all" 1 stored.

Context (all : list VestingStream).
Definition rawStreams (p : streams_page) : list VestingStream := (hook_rows all (page p) (filter_ p)).1.
Definition total (p : streams_page) : Z := (hook_rows all (page p) (filter_ p)).2.
Definition totalPages (p : streams_page) : Z := (total p + PAGE_SIZE - 1) / PAGE_SIZE.
Definition filteredStreams (p : streams_page) : list VestingStream :=
  sortStreams (if decide (tokenFilter p = "all") then rawStreams p else filter (λ s, token s = tokenFilter p) (rawStreams p)) (sort p).
Definition selectable (s : VestingStream) : bool := bool_decide (status s = "active") || bool_decide (status s = "pre-cliff").
Definition selectableStreams (p : streams_page) : list VestingStream := filter (λ s, selectable s = true) (filteredStreams p).
Definition allSelected (p : streams_page) : bool :=
  bool_decide (selectableStreams p ≠ []) && forallb (λ s, bool_decide (id s ∈ selected p)) (selectableStreams p).
(** The bar counts the selection. *)
Definition selected_count (p : streams_page) : Z := Z.of_nat (size (selected p)).
Inductive content := SearchResultsEmpty | SponsorDashboardEmpty | Rows (rows : list VestingStream).
Definition shown_content (p : streams_page) : content :=
  match filteredStreams p with
  | [] => if decide (filter_ p = "all") then SponsorDashboardEmpty else SearchResultsEmpty
  | rows => Rows rows
  end.

Definition set_selected (s : gset string) (p : streams_page) : streams_page :=
  SPage (viewMode p) (sort p) (tokenFilter p) s (cancelTarget p) (bulkCancelPending p) (filter_ p) (page p) (saved_view p).
Definition set_sort (s : SortState) (p : streams_page) : streams_page :=
  SPage (viewMode p) s (tokenFilter p) (selected p) (cancelTarget p) (bulkCancelPending p) (filter_ p) (page p) (saved_view p).
Definition set_token (t : string) (p : streams_page) : streams_page :=
  SPage (viewMode p) (sort p) t (selected p) (cancelTarget p) (bulkCancelPending p) (filter_ p) (page p) (saved_view p).
Definition set_place (f : string) (n : Z) (p : streams_page) : streams_page :=
  SPage (viewMode p) (sort p) (tokenFilter p) (selected p) (cancelTarget p) (bulkCancelPending p) f n (saved_view p).
Definition set_pending (c : option VestingStream) (b : bool) (p : streams_page) : streams_page :=
  SPage (viewMode p) (sort p) (tokenFilter p) (selected p) c b (filter_ p) (page p) (saved_view p).

(** [setFilter] of the hook. *)
Definition setFilter (f : string) : streams_page → streams_page := set_place f 1.
Definition handleViewToggle (v : ViewMode) (p : streams_page) : streams_page :=
  SPage v (sort p) (tokenFilter p) (selected p) (cancelTarget p) (bulkCancelPending p) (filter_ p) (page p) (Some (view_text v)).
Definition flip (d : SortDirection) : SortDirection := if decide (d = Asc) then Desc else Asc.
Definition handleSort (f : SortField) (p : streams_page) : streams_page :=
  set_sort (if decide (field (sort p) = f) then SortBy f (flip (dir (sort p))) else SortBy f Desc) p.
Definition handleToggleSelect (i : string) (p : streams_page) : streams_page :=
  set_selected (if decide (i ∈ selected p) then selected p ∖ {[i]} else selected p ∪ {[i]}) p.
Definition handleToggleAll (selectAll : bool) (p : streams_page) : streams_page :=
  set_selected (if selectAll then list_to_set (id <$> selectableStreams p) else ∅) p.
Definition handleBulkCancelConfirm (p : streams_page) : streams_page := set_selected ∅ (set_pending (cancelTarget p) false p).

Inductive streams_event :=
| PressStatus (f : string) | PickToken (t : string) | PressSort (f : SortField) | PickSort (s : SortState) | PressView (v : ViewMode)
| ToggleSelect (i : string) | ToggleAll (b : bool) | Clear | AskBulk | BackBulk | ConfirmBulk | ResetFilter | GoPage (n : Z)
| AskCancel (s : VestingStream) | EndCancel.
(** A checkbox is on a visible row that can be cancelled; the page buttons stop at
    the ends. *)
Definition streams_step (p : streams_page) (e : streams_event) : streams_page :=
  match e with
  | PressStatus f => set_selected ∅ (setFilter f p)
  | PickToken t => set_token t p
  | PressSort f => handleSort f p
  | PickSort s => set_sort s p
  | PressView v => handleViewToggle v p
  | ToggleSelect i => if existsb (λ s, bool_decide (id s = i)) (selectableStreams p) then handleToggleSelect i p else p
  | ToggleAll b => if bool_decide (selectableStreams p = []) then p else handleToggleAll b p
  | Clear => set_selected ∅ p
  | AskBulk => if selected_count p =? 0 then p else set_pending (cancelTarget p) true p
  | BackBulk => set_pending (cancelTarget p) false p
  | ConfirmBulk => handleBulkCancelConfirm p
  | ResetFilter => set_token "all" (setFilter "all" p)
  | GoPage n => if (1 <=? n) && (n <=? totalPages p) then set_place (filter_ p) n p else p
  | AskCancel s => if selectable s then set_pending (Some s) (bulkCancelPending p) p else p
  | EndCancel => set_pending None (bulkCancelPending p) p
  end.
Definition streams_run (stored : option string) (es : list streams_event) : streams_page := foldl streams_step (streams_mount stored) es.

(** ** One cancellation, and the export *)

Definition computeCancelAmounts (s : VestingStream) : Z * Z * bool :=
  let reached := bool_decide (status s = "active") in
  let recipientAmount := if reached then claimableAmount s else 0 in
  let whole := default (rate s * 300) (totalDeposit s) in
  (recipientAmount, Z.max 0 (whole - recipientAmount), reached).
Definition csv_header : list string := ["ID"; "Recipient"; "Token"; "Rate"; "Cliff Ledger"; "End Ledger"; "Status"].
Definition csv_row (s : VestingStream) : list string :=
  [id s; recipient s; token s; Z_to_string (rate s); default "" (Z_to_string <$> cliffLedger s); default "" (Z_to_string <$> endLedger s); status s].
Definition quoted (v : string) : list ascii := Csv.quote :: chars v ++ [Csv.quote].
Definition exportCsv (rows : list VestingStream) : list ascii :=
  join Csv.newline (join comma ∘ fmap quoted <$> csv_header :: (csv_row <$> rows)).
End page.

(** ** Lemmas: sorting *)

#[export] Instance ledger_comparison : Comparison ledger_cmp.
Proof. split; [intros [x|]|intros [x|] [y|]|intros [x|] [y|] [z|]]; cbn; lia. Qed.
Section sorting.
Context (collate : string → string → Z) `{!Comparison collate}.
#[export] Instance field_comparison f : Comparison (field_cmp collate f).
Proof.
  destruct f.
  - apply (ascending_comparison claimableAmount).
  - apply (keyed_comparison cliffLedger ledger_cmp), _.
  - apply (keyed_comparison endLedger ledger_cmp), _.
  - by apply (keyed_comparison recipient collate).
Qed.
#[export] Instance stream_comparison s : Comparison (stream_cmp collate s).
Proof. unfold stream_cmp. case_decide; [|apply reversed_comparison]; apply field_comparison. Qed.
(** The sort by any of the four fields equals the reference: there is one
    arrangement of the rows that is sorted in the direction asked and keeps the
    order of equal rows, and it is the one shown, missing ledgers included. *)
Theorem sortStreams_reference rows s l : StronglySorted (not_after (stream_cmp collate s)) l →
  (∀ u, level (stream_cmp collate s) u l = level (stream_cmp collate s) u rows) → sortStreams collate rows s = l.
Proof. intros Hs Hl. symmetry. apply stable_sort_unique; [by apply stream_comparison|done..]. Qed.
End sorting.

(** ** Theorems: the page *)

Section page.
Context (collate : string → string → Z) (all : list VestingStream).
Notation step := (streams_step collate all).
Notation run := (streams_run collate all).
Notation selectableStreams := (selectableStreams collate all).
Notation filteredStreams := (filteredStreams collate all).
Notation allSelected := (allSelected collate all).

Lemma elem_of_slice {A} lo hi (l : list A) x : x ∈ slice_Z lo hi l → x ∈ l.
Proof. unfold slice_Z. intros (i & Hi & _)%elem_of_take. rewrite lookup_drop in Hi. by apply list_elem_of_lookup_2 in Hi. Qed.
Lemma filteredStreams_in p s : s ∈ filteredStreams p → s ∈ all.
Proof.
  unfold StreamsPage.filteredStreams, sortStreams. rewrite elem_of_stable_sort. intros Hs.
  assert (s ∈ rawStreams all p) as Hr by (case_decide; [done|by apply list_elem_of_filter in Hs as [_ ?]]).
  apply elem_of_slice in Hr. unfold with_filter in Hr. case_decide; [done|]. by apply list_elem_of_filter in Hr as [_ ?].
Qed.
(** An id that can be cancelled. *)
Definition cancellable (i : string) : Prop := ∃ s, s ∈ all ∧ id s = i ∧ selectable s = true.
Lemma selectable_cancellable p s : s ∈ selectableStreams p → cancellable (id s).
Proof. unfold StreamsPage.selectableStreams. rewrite list_elem_of_filter. intros [Hs Hp%filteredStreams_in]. by exists s. Qed.
Lemma step_selected p e : (∀ i, i ∈ selected p → cancellable i) → ∀ i, i ∈ selected (step p e) → cancellable i.
Proof.
  intros Hp. destruct e; cbn [streams_step]; try done.
  - destruct (existsb _ _) eqn:He; [|done]. apply existsb_exists in He as (s & Hs%list_elem_of_In & Hid%bool_decide_eq_true).
    intros j. unfold handleToggleSelect. case_decide; cbn.
    + set_solver.
    + rewrite elem_of_union, elem_of_singleton. intros [Hj| ->]; [by apply Hp|]. rewrite <-Hid. by eapply selectable_cancellable.
  - case_bool_decide; [done|]. unfold handleToggleAll. destruct b; cbn; [|set_solver]. intros j.
    rewrite elem_of_list_to_set, list_elem_of_fmap. intros (s & -> & Hs). by eapply selectable_cancellable.
  - case_match; done.
  - case_match; done.
  - case_match; done.
Qed.
(** Only streams that can be cancelled are ever selected. *)
Theorem selection_cancellable stored es i : i ∈ selected (run stored es) → cancellable i.
Proof.
  unfold streams_run. assert (∀ i, i ∈ selected (streams_mount stored) → cancellable i) as H by (intros j Hj; by apply elem_of_empty in Hj).
  revert i H. generalize (streams_mount stored). induction es as [|e es IH]; intros p i Hp; [by apply Hp|]. cbn [foldl]. apply IH.
  by apply step_selected.
Qed.
(** The box in the header selects exactly the visible rows that can be
    cancelled, shows so, and a second press clears the selection. *)
Theorem toggle_all_exact p : selectableStreams p ≠ [] → let p' := step p (ToggleAll true) in
  allSelected p' = true ∧ (∀ i, i ∈ selected p' ↔ ∃ s, s ∈ selectableStreams p ∧ id s = i) ∧ selected (step p' (ToggleAll false)) = ∅.
Proof.
  intros Hne p'. assert (Hp' : p' = handleToggleAll collate all true p) by (unfold p'; cbn; by rewrite bool_decide_eq_false_2).
  assert (Hsel : selectableStreams p' = selectableStreams p) by (by rewrite Hp').
  split_and!.
  - unfold StreamsPage.allSelected. rewrite Hsel, bool_decide_eq_true_2 by done. apply forallb_forall. intros s Hs%list_elem_of_In.
    apply bool_decide_eq_true. rewrite Hp'. cbn. apply elem_of_list_to_set, list_elem_of_fmap. by exists s.
  - intros i. rewrite Hp'. cbn. rewrite elem_of_list_to_set, list_elem_of_fmap. naive_solver.
  - change (step p' (ToggleAll false)) with (if bool_decide (selectableStreams p' = []) then p' else handleToggleAll collate all false p').
    by rewrite Hsel, bool_decide_eq_false_2.
Qed.
(** The page reopens in the view it was left in. *)
Theorem view_restored stored es : viewMode (streams_mount (saved_view (run stored es))) = viewMode (run stored es).
Proof.
  assert (H : ∀ p e, loadViewPref (saved_view p) = viewMode p → loadViewPref (saved_view (step p e)) = viewMode (step p e)).
  { intros p e Hp. destruct e; cbn [streams_step]; try done; repeat case_match; try done. by destruct v. }
  unfold streams_run. cbn. generalize (eq_refl : loadViewPref (saved_view (streams_mount stored)) = viewMode (streams_mount stored)).
  generalize (streams_mount stored). induction es as [|e es IH]; intros p Hp; [done|]. cbn [foldl]. by apply IH, H.
Qed.
Lemma totalPages_pos p : 0 < total all p → 1 <= totalPages all p.
Proof. unfold totalPages, PAGE_SIZE. intros Ht. apply Z.div_le_lower_bound; lia. Qed.
(** The page shown is one of the pages, so a filter that matches a row shows
    one unless the token hides them. *)
Theorem page_in_range stored es : let p := run stored es in 1 <= page p <= Z.max 1 (totalPages all p) ∧ (0 < total all p → rawStreams all p ≠ []).
Proof.
  assert (Hrun : 1 <= page (run stored es) <= Z.max 1 (totalPages all (run stored es))).
  { assert (H : ∀ p e, 1 <= page p <= Z.max 1 (totalPages all p) → 1 <= page (step p e) <= Z.max 1 (totalPages all (step p e))).
    { intros p e Hp. destruct e; cbn [streams_step]; try exact Hp; try (cbn; lia); try (case_match; exact Hp).
      destruct (_ && _) eqn:Hn; [|exact Hp]. change (totalPages all (set_place (filter_ p) n p)) with (totalPages all p). cbn. lia. }
    unfold streams_run. assert (H0 : 1 <= page (streams_mount stored) <= Z.max 1 (totalPages all (streams_mount stored))) by (cbn; lia).
    revert H0. generalize (streams_mount stored). induction es as [|e es IH]; intros p Hp; [done|]. cbn [foldl]. by apply IH, H. }
  intros p. split; [done|]. intros Ht. fold p in Hrun. pose proof (totalPages_pos p Ht).
  unfold rawStreams, hook_rows in *. unfold total, hook_rows in Ht. unfold totalPages, total, hook_rows, PAGE_SIZE in *. cbn [fst snd] in *.
  set (l := with_filter all (filter_ p)) in *. rewrite slice_Z_window by lia. intros Hnil.
  apply (f_equal length) in Hnil. rewrite length_take, length_drop in Hnil. cbn in Hnil.
  pose proof (Z.mul_div_le (Z.of_nat (length l) + 25 - 1) 25 ltac:(lia)). lia.
Qed.
End page.

(** The amounts of a cancellation: nothing for the recipient before the
    cliff, and together the deposit as long as it covers what is claimable. *)
Theorem cancel_amounts s : let whole := default (rate s * 300) (totalDeposit s) in
  let '(recipientAmount, sponsorRefund, reached) := computeCancelAmounts s in
  0 <= sponsorRefund ∧ (reached = false → recipientAmount = 0) ∧
  (0 <= whole → recipientAmount <= whole → recipientAmount + sponsorRefund = whole).
Proof. unfold computeCancelAmounts. cbn zeta iota. case_bool_decide; split_and!; intros; (done || lia). Qed.

(** ** The export *)

Definition plain_fields (s : VestingStream) : Prop := Forall (λ v, Csv.quote ∉ chars v) (csv_row s).
Lemma quoted_enclose v : Csv.quote ∉ chars v → quoted v = enclose (chars v).
Proof.
  intros Hv. unfold quoted, enclose. do 2 f_equal. unfold double_quotes. induction (chars v) as [|c l IH]; [done|].
  rewrite not_elem_of_cons in Hv. destruct Hv as [Hc Hl]. cbn. rewrite decide_False by done. cbn. f_equal. by apply IH.
Qed.
(** The export is CSV, and reading it gives back the header and the fields of
    every row, as long as no field holds a quote. *)
Theorem exportCsv_reads rows : Forall plain_fields rows →
  read_csv (exportCsv rows) = Some ((chars <$> csv_header) :: ((λ s, chars <$> csv_row s) <$> rows)).
Proof.
  intros Hr. assert (Hline : ∀ vs, Forall (λ v, Csv.quote ∉ chars v) vs → quoted <$> vs = enclose <$> (chars <$> vs)).
  { intros vs Hvs. rewrite <-list_fmap_compose. apply list_fmap_ext. intros i v Hv. apply quoted_enclose. exact (Forall_lookup_1 _ _ _ _ Hvs Hv). }
  rewrite <-enclosed_lines_read; [|constructor; [done|by apply Forall_fmap, Forall_true]|done].
  unfold exportCsv. rewrite !fmap_cons. f_equal. f_equal. f_equal.
  rewrite <-!list_fmap_compose. apply list_fmap_ext. intros i s Hs. unfold compose. rewrite Hline; [done|].
  exact (Forall_lookup_1 plain_fields _ _ _ Hr Hs).
Qed.

(** ** Examples and witnesses *)

Definition byte_order (a b : string) : Z := Z.of_nat (String.length a) - Z.of_nat (String.length b).
#[export] Instance byte_order_comparison : Comparison byte_order.
Proof. unfold byte_order. split; intros; lia. Qed.
Notation demo_run := (streams_run byte_order MOCK_STREAMS None).

Lemma sortStreams_reference_witness :
  id <$> sortStreams byte_order (take 4 MOCK_STREAMS) (SortBy EndLedger Desc) = ["3"; "4"; "1"; "2"].
Proof.
  set (l := stable_sort (stream_cmp byte_order (SortBy EndLedger Desc)) (take 4 MOCK_STREAMS)).
  rewrite (sortStreams_reference byte_order (take 4 MOCK_STREAMS) (SortBy EndLedger Desc) l); [vm_compute; reflexivity| |].
  - apply stable_sort_sorted, stream_comparison, _.
  - intros u. apply stable_sort_stable, stream_comparison, _.
Defined.
Lemma selection_cancellable_witness : cancellable MOCK_STREAMS "9".
Proof.
  apply (selection_cancellable byte_order MOCK_STREAMS None [ToggleSelect "9"; ToggleSelect "8"] "9").
  apply (bool_decide_unpack _). vm_compute. exact I.
Defined.
Lemma toggle_all_exact_witness : allSelected byte_order MOCK_STREAMS (streams_step byte_order MOCK_STREAMS (demo_run [PickToken "XLM"]) (ToggleAll true)) = true.
Proof. apply (toggle_all_exact byte_order MOCK_STREAMS (demo_run [PickToken "XLM"])). vm_compute. discriminate. Defined.
Lemma exportCsv_reads_witness :
  length <$> read_csv (exportCsv (take 3 MOCK_STREAMS)) = Some 4%nat.
Proof.
  rewrite (exportCsv_reads (take 3 MOCK_STREAMS)); [reflexivity|]. apply (bool_decide_unpack _). vm_compute. exact I.
Defined.
(** The token filter hides selected rows and keeps them in the selection: the
    bar counts, and the dialog would cancel, a stream that is not on the page. *)
Example hidden_selection :
  let p := demo_run [ToggleSelect "9"; PickToken "USDC"; AskBulk] in
  selected_count p = 1 ∧ bulkCancelPending p = true ∧ forallb (λ s, bool_decide (id s ≠ "9")) (filteredStreams byte_order MOCK_STREAMS p) = true.
Proof. by vm_compute. Qed.
(** The confirmed bulk cancellation only clears the selection. *)
Example bulk_does_nothing :
  let p := demo_run [ToggleAll true; AskBulk; ConfirmBulk] in selected p = ∅ ∧ bulkCancelPending p = false.
Proof. by vm_compute. Qed.
(** A field with a quote: what is exported is not CSV. *)
Example quote_not_escaped :
  read_csv (exportCsv [Stream "1" None (of_chars (chars "a" ++ [Csv.quote] ++ chars "b")) "GS" "USDC" 1 0 "active" None None None None None None]) = None.
Proof. by vm_compute. Qed.
