(* ===== verification/ScheduleVersions.v ===== *)
(** * Schedule versions

    backend/src/schedule-version-recorder.js, which numbers the changes of a
    schedule, as statements that run side by side, and routes/versions.js, which
    answers with a page of them (table: migrations/005).  Timestamps are left
    out; a page number is exact below 2^53, above it finds no rows. *)
From Stdlib Require Import Sorting.
From stdpp Require Import list sorting.
From S2P Require Import Prelude Bytes Digits Validation ArraySort.
#[local] Open Scope Z_scope.

(** ** The table *)

Inductive mutation := MCreated | MModified | MCancelled | MClawback | MCompleted.
#[export] Instance mutation_eq_dec : EqDecision mutation.
Proof. solve_decision. Defined.
(** What a field of an event or of a snapshot holds; [FNull] is also a field that
    is not there. *)
Inductive field := FNull | FText (s : string) | FNumber (z : Z) | FBool (b : bool).
Record version_row := VersionRow {
  v_recipient : string; version_number : Z; mutation_type : mutation; changed_fields : list (string * field); ledger_sequence : Z; tx_hash : option string }.
(** The call: [recordVersion] without its pool. *)
Record write := Write { w_recipient : string; mutationType : mutation; changedFields : list (string * field); ledgerSequence : Z; txHash : option string }.
(** [varchar(56)], [integer] and [varchar(64)]. *)
Definition row_fits (w : write) : bool :=
  (Z.of_nat (length (chars (w_recipient w))) <=? 56) && (- 2 ^ 31 <=? ledgerSequence w) && (ledgerSequence w <? 2 ^ 31)
  && match txHash w with Some t => Z.of_nat (length (chars t)) <=? 64 | None => true end.

Definition of_recipient (r : string) (rows : list version_row) : list version_row := filter (λ x, v_recipient x = r) rows.
(** [COALESCE(MAX(version_number), 0) + 1] *)
Definition next_version (r : string) (rows : list version_row) : Z := foldr Z.max 0 (version_number <$> of_recipient r rows) + 1.
Definition to_row (w : write) (v : Z) : version_row := VersionRow (w_recipient w) v (mutationType w) (changedFields w) (ledgerSequence w) (txHash w).
(** [ON CONFLICT (recipient, version_number) DO NOTHING] *)
Definition conflicts (w : write) (v : Z) (rows : list version_row) : bool :=
  existsb (λ x, bool_decide (v_recipient x = w_recipient w) && (version_number x =? v)) rows.
Definition insert_version (w : write) (v : Z) (rows : list version_row) : list version_row :=
  if conflicts w v rows then rows else rows ++ [to_row w v].

(** Statements side by side: one reads the table as it is when it starts, and
    writes to the table as it is when it ends. *)
Record database := Database { versions : list version_row; running : list (nat * (write * Z)) }.
Inductive action := Start (i : nat) (w : write) | Finish (i : nat).
Definition db_step (d : database) (a : action) : database :=
  match a with
  | Start i w => if row_fits w then Database (versions d) ((i, (w, next_version (w_recipient w) (versions d))) :: running d) else d
  | Finish i =>
      match list_find (λ x, x.1 = i) (running d) with
      | Some (k, (_, (w, v))) => Database (insert_version w v (versions d)) (delete k (running d))
      | None => d
      end
  end.
Definition db_run (acts : list action) : database := foldl db_step (Database [] []) acts.
(** [recordVersion], awaited. *)
Definition recordVersion (w : write) : list action := [Start 0 w; Finish 0].

(** ** The snapshots *)

Definition event := string → field.
(** [a ?? b] *)
Definition or_else (a b : field) : field := match a with FNull => b | _ => a end.
Definition String_of (f : field) : string :=
  match f with FNull => "null" | FText s => s | FNumber z => Z_to_string z | FBool b => if b then "true" else "false" end.
Definition truthy_field (f : field) : bool := match f with FNull => false | FText s => truthy s | FNumber z => negb (z =? 0) | FBool b => b end.
Definition buildCreatedFields (e : event) : list (string * field) :=
  [("sponsor", e "sponsor"); ("token", e "token");
   ("rate_per_ledger", FText (String_of (or_else (or_else (e "rate") (e "rate_per_ledger")) (FText "0"))));
   ("start_ledger", e "start_ledger"); ("cliff_ledger", e "cliff_ledger"); ("end_ledger", e "end_ledger");
   ("total_deposit", if truthy_field (e "total_deposit") then FText (String_of (e "total_deposit")) else FNull)].
Definition buildCancelledFields (e : event) : list (string * field) :=
  [("refunded_amount", FText (String_of (or_else (or_else (e "refunded_amount") (e "amount")) (FText "0")))); ("cliff_passed", e "cliff_passed")].
Definition buildClawbackFields (e : event) : list (string * field) :=
  [("sponsor", e "sponsor"); ("amount", FText (String_of (or_else (e "amount") (FText "0")))); ("reason", e "reason")].
Definition buildCompletedFields (e : event) : list (string * field) :=
  [("token", e "token"); ("total_claimed", FText (String_of (or_else (e "total_claimed") (FText "0"))))].

(** ** The endpoint *)

Record request := Request { params_recipient : option string; url : option string; q_page : option string; q_limit : option string }.
Inductive reply :=
| BadRequest (error : string) | NotFound | InternalError
| Versions (recipient : string) (rows : list version_row) (total page limit : Z).

(** [/\/streams\/([^/]+)\/versions/], anywhere in the address. *)
Fixpoint strip (p l : list ascii) : option (list ascii) :=
  match p, l with
  | [], _ => Some l
  | c :: p', d :: l' => if decide (c = d) then strip p' l' else None
  | _ :: _, [] => None
  end.
Definition not_slash (c : ascii) : bool := negb (bool_decide (c = "/"%char)).
Definition match_here (l : list ascii) : option string :=
  match strip (chars "/streams/") l with
  | Some rest =>
      let seg := take_while not_slash rest in
      match strip (chars "/versions") (drop (length seg) rest) with
      | Some _ => if bool_decide (seg = []) then None else Some (of_chars seg)
      | None => None
      end
  | None => None
  end.
Fixpoint match_url (l : list ascii) : option string :=
  match match_here l with
  | Some r => Some r
  | None => match l with [] => None | _ :: l' => match_url l' end
  end.
Definition recipient_of (q : request) : option string :=
  match params_recipient q with
  | Some r => if truthy r then Some r else match_url (chars (default "" (url q)))
  | None => match_url (chars (default "" (url q)))
  end.
(** [parseInt(...) || d] *)
Definition int_or (d : Z) (s : string) : Z := match parse_int s with Some z => if z =? 0 then d else z | None => d end.
Definition page_of (q : request) : Z := Z.max 1 (int_or 1 (default "1" (q_page q))).
Definition limit_of (q : request) : Z := Z.min 50 (Z.max 1 (int_or 20 (default "20" (q_limit q)))).

(** The two queries; an [OFFSET] is a [bigint]. *)
Definition by_version (rows : list version_row) : list version_row := stable_sort (ascending version_number) rows.
Definition select_versions (r : string) (limit offset : Z) (rows : list version_row) : option (list version_row) :=
  if offset <? 2 ^ 63 then Some (take (Z.to_nat limit) (drop (Z.to_nat offset) (by_version (of_recipient r rows)))) else None.
(** [connected]: the database answers. *)
Definition versionsHandler (connected : bool) (rows : list version_row) (q : request) : reply :=
  match recipient_of q with
  | None => BadRequest "recipient is required"
  | Some r =>
      if negb (stellar_address_re r) then BadRequest "recipient must be a valid Stellar public key"
      else
        let page := page_of q in
        let limit := limit_of q in
        match connected, select_versions r limit ((page - 1) * limit) rows with
        | true, Some found =>
            let total := Z.of_nat (length (of_recipient r rows)) in
            if (total =? 0) && (page =? 1) then NotFound else Versions r found total page limit
        | _, _ => InternalError
        end
  end.

(** ** Lemmas: numbering *)

Lemma max_numbers (n : nat) : foldr Z.max 0 (Z.of_nat <$> seq 1 n) = Z.of_nat n.
Proof.
  assert (H : ∀ k, (0 < n)%nat → foldr Z.max 0 (Z.of_nat <$> seq k n) = Z.of_nat (k + n - 1)).
  { induction n as [|m IH]; intros k Hn; [lia|]. cbn. destruct m; [cbn; lia|]. rewrite IH by lia. lia. }
  destruct n as [|m]; [done|]. by rewrite H by lia.
Qed.
(** The versions of every recipient are 1, 2, 3 and so on, in the order they
    were written, and no statement holds a number beyond the next one. *)
Definition numbered (r : string) (rows : list version_row) : Prop :=
  version_number <$> of_recipient r rows = Z.of_nat <$> seq 1 (length (of_recipient r rows)).
Definition db_ok (d : database) : Prop :=
  (∀ r, numbered r (versions d)) ∧
  Forall (λ x : nat * (write * Z), 1 <= x.2.2 <= next_version (w_recipient x.2.1) (versions d)) (running d).
Lemma next_numbered r rows : numbered r rows → next_version r rows = Z.of_nat (length (of_recipient r rows)) + 1.
Proof. unfold numbered, next_version. intros ->. by rewrite max_numbers. Qed.
Lemma conflicts_numbered w v rows : numbered (w_recipient w) rows → 1 <= v <= next_version (w_recipient w) rows →
  conflicts w v rows = negb (v =? next_version (w_recipient w) rows).
Proof.
  intros Hn Hv. rewrite (next_numbered _ _ Hn) in *. apply eq_true_iff_eq. unfold conflicts. rewrite existsb_exists, negb_true_iff, Z.eqb_neq.
  transitivity (v ∈ version_number <$> of_recipient (w_recipient w) rows).
  - rewrite list_elem_of_fmap. unfold of_recipient. setoid_rewrite list_elem_of_filter. setoid_rewrite andb_true_iff. setoid_rewrite bool_decide_eq_true.
    setoid_rewrite Z.eqb_eq. setoid_rewrite <-list_elem_of_In. naive_solver.
  - rewrite Hn, list_elem_of_fmap. setoid_rewrite elem_of_seq. split.
    + intros (k & -> & Hk). lia.
    + intros Hne. exists (Z.to_nat v). lia.
Qed.
Lemma of_recipient_app r rows x : of_recipient r (rows ++ [x]) = of_recipient r rows ++ (if decide (v_recipient x = r) then [x] else []).
Proof. unfold of_recipient. by rewrite filter_app. Qed.
Lemma insert_numbered w v rows : (∀ r, numbered r rows) → 1 <= v <= next_version (w_recipient w) rows → ∀ r, numbered r (insert_version w v rows).
Proof.
  intros Hn Hv r. unfold insert_version. rewrite conflicts_numbered by done. destruct (Z.eqb_spec v (next_version (w_recipient w) rows)) as [E|]; cbn; [|apply Hn].
  unfold numbered. rewrite of_recipient_app. cbn. case_decide as Hr; [|rewrite app_nil_r; apply Hn]. subst r.
  rewrite fmap_app, length_app, (Hn (w_recipient w)). cbn. rewrite seq_app, fmap_app. f_equal. cbn. rewrite E, (next_numbered _ _ (Hn _)). f_equal. lia.
Qed.
Lemma next_version_grows w v r rows : (∀ r, numbered r rows) → 1 <= v <= next_version (w_recipient w) rows →
  next_version r rows <= next_version r (insert_version w v rows).
Proof.
  intros Hn Hv. rewrite !next_numbered; [|by apply insert_numbered|done]. unfold insert_version. case_match; [lia|].
  rewrite of_recipient_app, length_app. lia.
Qed.
Lemma db_step_ok d a : db_ok d → db_ok (db_step d a).
Proof.
  intros [Hn Hr]. destruct a as [i w|i]; cbn.
  - destruct (row_fits w); [|done]. split; [done|]. constructor; [|done]. cbn. rewrite (next_numbered _ _ (Hn _)). lia.
  - destruct (list_find _ _) as [[k [j [w v]]]|] eqn:Hf; [|done]. apply list_find_Some in Hf as (Hk & _).
    pose proof (Forall_lookup_1 _ _ _ _ Hr Hk) as Hv. cbn in Hv. split; cbn; [by apply insert_numbered|].
    apply Forall_delete. eapply Forall_impl; [exact Hr|]. intros [j' [w' v']]. cbn. pose proof (next_version_grows w v (w_recipient w') (versions d) Hn Hv). lia.
Qed.
Lemma db_run_ok acts : db_ok (db_run acts).
Proof.
  unfold db_run. assert (db_ok (Database [] [])) as H by (by split; [|constructor]). revert H. generalize (Database [] []).
  induction acts as [|a acts IH]; intros d Hd; [done|]. by apply IH, db_step_ok.
Qed.

(** ** Theorems: numbering *)

(** Whatever statements run side by side, the versions of a recipient are
    numbered 1, 2, 3 and so on without a gap, in the order they were written. *)
Theorem versions_numbered acts r : version_number <$> of_recipient r (versions (db_run acts)) =
  Z.of_nat <$> seq 1 (length (of_recipient r (versions (db_run acts)))).
Proof. apply (proj1 (db_run_ok acts) r). Qed.

Lemma finish_at d i k w v : list_find (λ x : nat * (write * Z), x.1 = i) (running d) = Some (k, (i, (w, v))) →
  versions (db_step d (Finish i)) = insert_version w v (versions d).
Proof. intros Hf. cbn. by rewrite Hf. Qed.
Definition statement_of (a : action) : nat := match a with Start i _ => i | Finish i => i end.
(** The statement [i] runs, with the change and the number it started with. *)
Definition holds_number (i : nat) (x : write * Z) (d : database) : Prop :=
  snd <$> list_find (λ y : nat * (write * Z), y.1 = i) (running d) = Some (i, x).
Lemma find_delete (i j k : nat) (x y : nat * (write * Z)) l : j ≠ i → list_find (λ z : nat * (write * Z), z.1 = j) l = Some (k, y) →
  snd <$> list_find (λ z : nat * (write * Z), z.1 = i) l = Some x → snd <$> list_find (λ z : nat * (write * Z), z.1 = i) (delete k l) = Some x.
Proof.
  intros Hij. revert k. induction l as [|z l IH]; intros k Hj Hi; [done|]. cbn [list_find] in *. destruct (decide (z.1 = j)) as [Hz|Hz].
  - simplify_eq. rewrite decide_False in Hi by congruence. cbn.
    destruct (list_find (λ z, z.1 = i) l) as [[? ?]|]; done.
  - destruct (list_find (λ z, z.1 = j) l) as [[k' y']|] eqn:E; [|done]. simplify_eq/=.
    case_decide; [done|]. specialize (IH k' eq_refl). destruct (list_find (λ z, z.1 = i) l) as [[? ?]|] eqn:E'; [|done].
    specialize (IH Hi). by destruct (list_find (λ z, z.1 = i) (delete k' l)) as [[? ?]|].
Qed.
Lemma db_step_holds i x d a : statement_of a ≠ i → holds_number i x d → holds_number i x (db_step d a).
Proof.
  unfold holds_number. intros Ha Hx. destruct a as [j w|j]; cbn [statement_of db_step] in *.
  - destruct (row_fits w); [|done]. cbn [running list_find fst]. rewrite decide_False by done. by destruct (list_find _ _) as [[? ?]|].
  - destruct (list_find (λ y : nat * (write * Z), y.1 = j) (running d)) as [[k [j' [w v]]]|] eqn:E; [|done]. by eapply find_delete.
Qed.
Lemma db_step_appends d a : ∃ l, versions (db_step d a) = versions d ++ l.
Proof.
  destruct a as [j w|j]; cbn [db_step].
  - exists []. rewrite app_nil_r. by destruct (row_fits w).
  - destruct (list_find _ _) as [[k [j' [w v]]]|]; [|exists []; by rewrite app_nil_r]. cbn [versions]. unfold insert_version.
    destruct (conflicts w v (versions d)); [exists []; by rewrite app_nil_r|by eexists].
Qed.
Lemma others_run i x acts d : Forall (λ a, statement_of a ≠ i) acts → holds_number i x d →
  holds_number i x (foldl db_step d acts) ∧ ∃ l, versions (foldl db_step d acts) = versions d ++ l.
Proof.
  intros Hacts. revert d. induction Hacts as [|a acts Ha _ IH]; intros d Hd; [split; [done|exists []; by rewrite app_nil_r]|]. cbn [foldl].
  destruct (IH (db_step d a) (db_step_holds i x d a Ha Hd)) as [H1 [l H2]]. split; [done|]. rewrite H2.
  destruct (db_step_appends d a) as [l' ->]. exists (l' ++ l). by rewrite app_assoc.
Qed.
(** What a started statement does when it ends. *)
Lemma finish_numbered acts i w v : holds_number i (w, v) (db_run acts) →
  versions (db_run (acts ++ [Finish i])) =
    if v =? next_version (w_recipient w) (versions (db_run acts)) then versions (db_run acts) ++ [to_row w v] else versions (db_run acts).
Proof.
  intros Hh. unfold db_run. rewrite foldl_app. change (foldl db_step (Database [] []) acts) with (db_run acts). cbn [foldl].
  unfold holds_number in Hh. apply fmap_Some in Hh as ([k [i' [w' v']]] & Hf & [= <- <- <-]).
  rewrite (finish_at _ _ _ _ _ Hf). destruct (db_run_ok acts) as [Hn Hr].
  apply list_find_Some in Hf as (Hk & _). pose proof (Forall_lookup_1 _ _ _ _ Hr Hk) as Hv. cbn in Hv.
  unfold insert_version. rewrite conflicts_numbered by done. by destruct (_ =? _).
Qed.
(** C16. A change is recorded exactly when no other change of its schedule was
    recorded while its statement ran.  Let the statement start after any history
    and end after any other statements started and ended: if the versions of its
    schedule are still those it started with, they gain one row, with the fields
    of the change and the next number; otherwise the statement ends without an
    error and without a row.  The other schedules are not touched. *)
Theorem recorded_iff pre mid i w : row_fits w = true →
  Forall (λ x : nat * (write * Z), x.1 ≠ i) (running (db_run pre)) → Forall (λ a, statement_of a ≠ i) mid →
  let at_start := of_recipient (w_recipient w) (versions (db_run pre)) in
  let at_end := versions (db_run (pre ++ Start i w :: mid)) in
  let after := versions (db_run ((pre ++ Start i w :: mid) ++ [Finish i])) in
  (of_recipient (w_recipient w) at_end = at_start →
     after = at_end ++ [VersionRow (w_recipient w) (Z.of_nat (length at_start) + 1) (mutationType w) (changedFields w) (ledgerSequence w) (txHash w)]) ∧
  (of_recipient (w_recipient w) at_end ≠ at_start → after = at_end).
Proof.
  intros Hw Hi Hmid at_start at_end after. destruct (db_run_ok pre) as [Hn _].
  set (v := next_version (w_recipient w) (versions (db_run pre))).
  assert (Hs : holds_number i (w, v) (db_step (db_run pre) (Start i w))).
  { unfold holds_number. cbn [db_step]. rewrite Hw. cbn [running list_find fst]. by rewrite decide_True. }
  destruct (others_run i (w, v) mid _ Hmid Hs) as [Hh [l Hl]].
  assert (Hrun : db_run (pre ++ Start i w :: mid) = foldl db_step (db_step (db_run pre) (Start i w)) mid).
  { unfold db_run. by rewrite foldl_app. }
  rewrite <-Hrun in Hh, Hl. pose proof (finish_numbered _ _ _ _ Hh) as Hf. fold after at_end in Hf. fold at_end in Hl.
  assert (Hv0 : versions (db_step (db_run pre) (Start i w)) = versions (db_run pre)) by (cbn [db_step]; by rewrite Hw).
  rewrite Hv0 in Hl. destruct (db_run_ok (pre ++ Start i w :: mid)) as [Hn' _]. fold at_end in Hn'.
  assert (Hv : v = Z.of_nat (length at_start) + 1) by (unfold v; by rewrite next_numbered by apply Hn).
  rewrite (next_numbered _ _ (Hn' _)) in Hf. rewrite Hf. unfold of_recipient in *. rewrite Hl, filter_app. fold at_start.
  set (more := filter _ l). split.
  - intros E. assert (more = []) as -> by (apply (app_inv_head at_start); by rewrite app_nil_r). rewrite app_nil_r, Hv, Z.eqb_refl. done.
  - intros E. destruct more as [|x more]; [by rewrite app_nil_r in E|]. rewrite length_app. cbn [length].
    destruct (Z.eqb_spec v (Z.of_nat (length at_start + S (length more)) + 1)); [lia|]. done.
Qed.
Lemma record_alone d w : db_ok d → running d = [] → row_fits w = true →
  foldl db_step d (recordVersion w) = Database (versions d ++ [to_row w (next_version (w_recipient w) (versions d))]) [].
Proof.
  intros [Hn _] Hr Hw. cbn. rewrite Hw, Hr. cbn. rewrite decide_True by done. cbn. unfold insert_version.
  rewrite conflicts_numbered; [by rewrite Z.eqb_refl|done|rewrite (next_numbered _ _ (Hn _)); lia].
Qed.
(** One after the other, every change is recorded, in order, with nothing
    lost and nothing recorded twice. *)
Theorem sequential_complete ws : Forall (λ w, row_fits w = true) ws →
  let rows := versions (db_run (ws ≫= recordVersion)) in
  ((λ x, (v_recipient x, mutation_type x, changed_fields x, ledger_sequence x, tx_hash x)) <$> rows) =
  ((λ w, (w_recipient w, mutationType w, changedFields w, ledgerSequence w, txHash w)) <$> ws).
Proof.
  intros Hws rows. unfold rows, db_run. clear rows.
  assert (H : ∀ d, db_ok d → running d = [] →
    (λ x, (v_recipient x, mutation_type x, changed_fields x, ledger_sequence x, tx_hash x)) <$> versions (foldl db_step d (ws ≫= recordVersion)) =
    ((λ x, (v_recipient x, mutation_type x, changed_fields x, ledger_sequence x, tx_hash x)) <$> versions d) ++
    ((λ w, (w_recipient w, mutationType w, changedFields w, ledgerSequence w, txHash w)) <$> ws)).
  { induction Hws as [|w ws Hw Hws IH]; intros d Hd Hr; [by rewrite app_nil_r|].
    change ((w :: ws) ≫= recordVersion) with (recordVersion w ++ (ws ≫= recordVersion)). rewrite foldl_app. rewrite record_alone by done.
    rewrite IH; [|rewrite <-record_alone by done; apply (db_step_ok _ (Finish 0)), (db_step_ok _ (Start 0 w)), Hd|done].
    cbn [versions]. by rewrite fmap_app, <-app_assoc. }
  by apply (H (Database [] [])); [split; [|constructor]|].
Qed.
(** Two changes of one schedule whose statements overlap leave one row: the
    second to end is lost, whatever was recorded before. *)
Theorem overlap_loses acts i j w w' : let d := db_run acts in running d = [] → i ≠ j → w_recipient w = w_recipient w' →
  row_fits w = true → row_fits w' = true →
  versions (foldl db_step d [Start i w; Start j w'; Finish i; Finish j]) = versions d ++ [to_row w (next_version (w_recipient w) (versions d))].
Proof.
  intros d Hr Hij Hw Hf Hf'. destruct (db_run_ok acts) as [Hn _]. fold d in Hn. set (v := next_version (w_recipient w) (versions d)).
  assert (Hv : 1 <= v <= next_version (w_recipient w) (versions d)) by (unfold v; rewrite (next_numbered _ _ (Hn _)); lia).
  assert (Hins : insert_version w v (versions d) = versions d ++ [to_row w v]).
  { unfold insert_version. rewrite conflicts_numbered by done. unfold v. by rewrite Z.eqb_refl. }
  cbn [foldl]. assert (Hs : db_step (db_step d (Start i w)) (Start j w') = Database (versions d) [(j, (w', v)); (i, (w, v))]).
  { cbn. rewrite Hf, Hr, Hf'. cbn. by rewrite <-Hw. }
  rewrite Hs. cbn. rewrite decide_False by done. cbn. rewrite decide_True by done. cbn. rewrite decide_True by done. cbn. rewrite Hins.
  unfold insert_version. assert (conflicts w' v (versions d ++ [to_row w v]) = true) as ->; [|done].
  unfold conflicts. rewrite existsb_app. apply orb_true_iff. right. cbn. by rewrite Hw, bool_decide_eq_true_2, Z.eqb_refl.
Qed.

(** ** Theorems: the endpoint *)

Lemma numbered_sorted r rows : numbered r rows → by_version (of_recipient r rows) = of_recipient r rows.
Proof.
  intros Hn. symmetry. apply stable_sort_unique; [apply _| |done]. revert Hn. unfold numbered. generalize (of_recipient r rows) as l.
  assert (H : ∀ l k, version_number <$> l = Z.of_nat <$> seq k (length l) → StronglySorted (not_after (ascending version_number)) l); [|naive_solver].
  induction l as [|x l IH]; intros k Hk; [constructor|]. cbn in Hk. injection Hk as Hx Hl. constructor; [by apply (IH (S k))|].
  apply Forall_forall. intros y Hy. unfold not_after, ascending. assert (version_number y ∈ Z.of_nat <$> seq (S k) (length l)) as Hin.
  { rewrite <-Hl. by apply list_elem_of_fmap_2. }
  apply list_elem_of_fmap in Hin as (n & -> & [Hn _]%elem_of_seq). lia.
Qed.
Lemma limit_bounds q : 1 <= limit_of q <= 50. Proof. unfold limit_of. lia. Qed.
Lemma page_bounds q : 1 <= page_of q. Proof. unfold page_of. lia. Qed.
(** The endpoint, on any table the recorder can leave: a page of a recipient
    with versions holds the versions numbered from (page - 1) * limit + 1 on, at
    most limit of them and none left out, with the total; a recipient without
    versions is not found, on the first page. *)
Theorem versions_page acts q r : let rows := versions (db_run acts) in let mine := of_recipient r rows in
  recipient_of q = Some r → stellar_address_re r = true → page_of q * limit_of q < 2 ^ 63 →
  let first := (page_of q - 1) * limit_of q in let n := Z.of_nat (length mine) in
  versionsHandler true rows q =
    (if (n =? 0) && (page_of q =? 1) then NotFound else Versions r (take (Z.to_nat (limit_of q)) (drop (Z.to_nat first) mine)) n (page_of q) (limit_of q)) ∧
  version_number <$> take (Z.to_nat (limit_of q)) (drop (Z.to_nat first) mine) =
    Z.of_nat <$> seq (S (Z.to_nat first)) (Nat.min (Z.to_nat (limit_of q)) (length mine - Z.to_nat first)).
Proof.
  intros rows mine Hr Hre Hb first n. destruct (db_run_ok acts) as [Hn _]. pose proof (limit_bounds q). pose proof (page_bounds q). split.
  - unfold versionsHandler. rewrite Hr, Hre. cbn [negb]. cbv zeta. unfold select_versions. rewrite numbered_sorted by apply Hn.
    fold rows mine first n. assert (first < 2 ^ 63) by (unfold first; nia). by destruct (Z.ltb_spec first (2 ^ 63)); [|lia].
  - rewrite fmap_take, fmap_drop. pose proof (Hn r : numbered r rows) as Hm. unfold numbered in Hm. fold mine in Hm. rewrite Hm.
    by rewrite <-fmap_drop, <-fmap_take, drop_seq, take_seq.
Qed.
(** Page after page, a client reads every version of a schedule once, in
    order. *)
Theorem versions_enumerated acts r (limit : nat) pages : let mine := of_recipient r (versions (db_run acts)) in (0 < limit)%nat → (length mine ≤ pages * limit)%nat →
  mjoin ((λ i : nat, take limit (drop (i * limit) (by_version mine))) <$> seq 0 pages) = mine ∧
  version_number <$> mine = Z.of_nat <$> seq 1 (length mine).
Proof.
  intros mine Hl Hp. destruct (db_run_ok acts) as [Hn _]. split; [|apply (Hn r)]. rewrite (numbered_sorted r _ (Hn r) : by_version mine = mine). by apply pages_cover.
Qed.

(** ** Examples and witnesses *)

Definition demo_recipient : string := of_chars ("G"%char :: replicate 55 "A"%char).
Definition demo_write (m : mutation) (l : Z) (tx : string) : write := Write demo_recipient m [] l (Some tx).
Definition demo_acts : list action := [demo_write MCreated 100 "t1"; demo_write MModified 120 "t2"; demo_write MCancelled 140 "t3"] ≫= recordVersion.
Definition demo_request (pg lim : string) : request := Request None (Some ("/streams/" +:+ demo_recipient +:+ "/versions")) (Some pg) (Some lim).

Lemma recorded_iff_witness :
  versions (db_run ((demo_acts ++ Start 1 (demo_write MCompleted 150 "t4") :: [Start 2 (demo_write MModified 160 "t5")]) ++ [Finish 1])) =
    versions (db_run demo_acts) ++ [to_row (demo_write MCompleted 150 "t4") 4] ∧
  versions (db_run ((demo_acts ++ Start 1 (demo_write MCompleted 150 "t4") :: [Start 2 (demo_write MModified 160 "t5"); Finish 2]) ++ [Finish 1])) =
    versions (db_run demo_acts) ++ [to_row (demo_write MModified 160 "t5") 4].
Proof.
  split.
  - rewrite (proj1 (recorded_iff demo_acts [Start 2 (demo_write MModified 160 "t5")] 1 (demo_write MCompleted 150 "t4") eq_refl
      (Forall_nil_2 _) ltac:(repeat constructor; discriminate))) by reflexivity. reflexivity.
  - rewrite (proj2 (recorded_iff demo_acts [Start 2 (demo_write MModified 160 "t5"); Finish 2] 1 (demo_write MCompleted 150 "t4") eq_refl
      (Forall_nil_2 _) ltac:(repeat constructor; discriminate))); [reflexivity|]. intros E. apply (f_equal length) in E. vm_compute in E. discriminate E.
Defined.
Lemma sequential_complete_witness : length (versions (db_run demo_acts)) = 3%nat.
Proof.
  rewrite <-(length_fmap (λ x, (v_recipient x, mutation_type x, changed_fields x, ledger_sequence x, tx_hash x))).
  unfold demo_acts. rewrite (sequential_complete [demo_write MCreated 100 "t1"; demo_write MModified 120 "t2"; demo_write MCancelled 140 "t3"]) by (repeat constructor).
  reflexivity.
Defined.
(** The cancellation is lost: two processes recorded at the same time. *)
Lemma overlap_loses_witness :
  mutation_type <$> versions (foldl db_step (db_run demo_acts)
    [Start 1 (demo_write MModified 150 "t4"); Start 2 (demo_write MCancelled 151 "t5"); Finish 1; Finish 2]) =
  [MCreated; MModified; MCancelled; MModified].
Proof.
  rewrite (overlap_loses demo_acts 1 2 (demo_write MModified 150 "t4") (demo_write MCancelled 151 "t5")) by done. reflexivity.
Defined.
(** An event processed again is recorded again. *)
Example replay_recorded_twice :
  (λ x, (version_number x, tx_hash x)) <$> versions (db_run ([demo_write MCreated 100 "t1"; demo_write MCreated 100 "t1"] ≫= recordVersion)) =
  [(1, Some "t1"); (2, Some "t1")].
Proof. reflexivity. Qed.
Lemma versions_page_witness :
  versionsHandler true (versions (db_run demo_acts)) (demo_request "2" "2") =
    Versions demo_recipient [to_row (demo_write MCancelled 140 "t3") 3] 3 2 2.
Proof.
  rewrite (proj1 (versions_page demo_acts (demo_request "2" "2") demo_recipient ltac:(vm_compute; reflexivity) ltac:(vm_compute; reflexivity) ltac:(vm_compute; reflexivity))).
  vm_compute. reflexivity.
Defined.
Lemma versions_enumerated_witness :
  mjoin ((λ i : nat, take 2 (drop (i * 2) (by_version (of_recipient demo_recipient (versions (db_run demo_acts)))))) <$> seq 0 2) =
  of_recipient demo_recipient (versions (db_run demo_acts)).
Proof. apply (versions_enumerated demo_acts demo_recipient 2 2); [lia|]. apply (bool_decide_unpack _). vm_compute. exact I. Defined.
(** An unknown recipient is found on the second page. *)
Example unknown_second_page : versionsHandler true [] (demo_request "2" "20") = Versions demo_recipient [] 0 2 20.
Proof. vm_compute. reflexivity. Qed.
(** A limit of zero is the default, not the smallest. *)
Example limit_zero : limit_of (demo_request "1" "0") = 20 ∧ limit_of (demo_request "1" "-3") = 1.
Proof. by vm_compute. Qed.
(** A deposit of zero is recorded as no deposit when it is a number. *)
Example zero_deposit :
  buildCreatedFields (λ k, if bool_decide (k = "total_deposit") then FNumber 0 else FNull) !! 6%nat = Some ("total_deposit", FNull).
Proof. by vm_compute. Qed.
