(* ===== verification/NotificationJob.v ===== *)
(** * The notification job

    backend/src/jobs/notificationJob.js: the streams it selects, the event it
    announces for each, the webhook with its retries and the email, and the lock
    that keeps two runs apart.  Time is in milliseconds. *)
From Stdlib Require Import Sorting.
From stdpp Require Import list sorting.
From S2P Require Import Prelude Digits ArraySort.
#[local] Open Scope Z_scope.

Definition MAX_RETRIES : nat := 3.
Definition WEBHOOK_RETRY_BASE_MS : Z := 1000.
Definition NOTIFICATION_LEAD_TIME : Z := 100.

(** ** Selection *)

Record stream := Stream {
  id : string; sponsor : string; recipient : string; token : string; rate_per_ledger : string; cliff_ledger : Z; end_ledger : Z;
  email : option string; webhook_url : option string; notify_email : bool; notify_webhook : bool; notify_opt_out : bool }.
Definition between (low high x : Z) : bool := (low <=? x) && (x <=? high).
Definition upcoming (lead current : Z) (s : stream) : bool :=
  negb (notify_opt_out s) && (between current (current + lead) (cliff_ledger s) || between current (current + lead) (end_ledger s)).
(** [ORDER BY cliff_ledger, end_ledger] *)
Definition by_ledgers (a b : stream) : Z :=
  if cliff_ledger a =? cliff_ledger b then end_ledger a - end_ledger b else cliff_ledger a - cliff_ledger b.
Definition fetchUpcomingNotifications (lead current : Z) (streams : list stream) : list stream :=
  stable_sort by_ledgers (filter (λ s, upcoming lead current s = true) streams).

(** ** One notification *)

Inductive event := CliffReached | StreamCompleted.
#[export] Instance event_eq_dec : EqDecision event.
Proof. solve_decision. Defined.
Definition event_name (e : event) : string := match e with CliffReached => "cliff_reached" | StreamCompleted => "stream_completed" end.
(** [e.replace("_", " ")] *)
Definition event_text (e : event) : string := match e with CliffReached => "cliff reached" | StreamCompleted => "stream completed" end.
(** The distance to a ledger ahead; infinite for the others. *)
Definition distance (current ledger : Z) : option Z := if current <? ledger then Some (ledger - current) else None.
(** [a <= b] *)
Definition not_further (a b : option Z) : bool :=
  match a, b with
  | _, None => true
  | None, Some _ => false
  | Some x, Some y => x <=? y
  end.
Definition event_of (s : stream) (current : Z) : event :=
  if not_further (distance current (cliff_ledger s)) (distance current (end_ledger s)) then CliffReached else StreamCompleted.
Definition event_ledger (s : stream) (e : event) : Z := match e with CliffReached => cliff_ledger s | StreamCompleted => end_ledger s end.

(** The body of a webhook. *)
Record payload := Payload {
  pl_event : string; pl_id : string; pl_sponsor : string; pl_recipient : string; pl_token : string; pl_rate : string; pl_cliff : Z; pl_end : Z }.
Definition buildNotificationPayload (s : stream) (eventType : string) : payload :=
  Payload eventType (id s) (sponsor s) (recipient s) (token s) (rate_per_ledger s) (cliff_ledger s) (end_ledger s).
(** A message that leaves the job; [Post] is one attempt at a webhook. *)
Inductive message :=
| Post (url : string) (body : payload)
| Mail (to subject text : string).
(** [sendWebhook]: [answer n] says whether attempt [n] meets a 2xx status in
    time.  The messages, the waits between them, and whether it succeeded. *)
Fixpoint attempts (left_ attempt : nat) (delay : Z) (answer : nat → bool) : nat * list Z * bool :=
  match left_ with
  | O => (O, [], false)
  | S left' =>
      if answer attempt then (1%nat, [], true)
      else match left' with
           | O => (1%nat, [], false)
           | _ => let '(n, waits, ok) := attempts left' (S attempt) (delay * 2) answer in (S n, delay :: waits, ok)
           end
  end.
Definition sendWebhook (answer : nat → bool) : nat * list Z * bool := attempts MAX_RETRIES 1 WEBHOOK_RETRY_BASE_MS answer.

(** What the services do for one stream: the webhook's answers, and whether the
    mail service takes the mail; without its key nothing is sent. *)
Record services := Services { hook_answer : nat → bool; mail_key : bool; mail_accepted : bool }.
Definition wants (flag : bool) (target : option string) : option string :=
  match target with Some t => if flag && truthy t then Some t else None | None => None end.
Definition mail_of (s : stream) (e : event) (to : string) : message :=
  Mail to ("Stream Notification: " +:+ event_name e)
    ("Your stream " +:+ id s +:+ " is " +:+ event_text e +:+ " at ledger " +:+ Z_to_string (event_ledger s e) +:+ ".").
Definition send_mail (v : services) (s : stream) (e : event) : list message * bool :=
  match wants (notify_email s) (email s) with
  | None => ([], true)
  | Some to => if mail_key v then ([mail_of s e to], mail_accepted v) else ([], false)
  end.
(** The messages, and whether it ended without an error. *)
Definition dispatchNotification (v : services) (s : stream) (current : Z) : list message * bool :=
  let e := event_of s current in
  match wants (notify_webhook s) (webhook_url s) with
  | None => send_mail v s e
  | Some url =>
      let '(n, _, ok) := sendWebhook (hook_answer v) in
      let posts := replicate n (Post url (buildNotificationPayload s (event_name e))) in
      if ok then let '(ms, ok') := send_mail v s e in (posts ++ ms, ok') else (posts, false)
  end.
(** The loop of a run; an error is logged and the loop goes on. *)
Definition run_messages (v : stream → services) (lead current : Z) (streams : list stream) : list message :=
  fetchUpcomingNotifications lead current streams ≫= λ s, (dispatchNotification (v s) s current).1.

(** ** The lock *)

Definition LOCK_MS : Z := 240000.
(** When the lock expires, if it is there, and the runs that are going on. *)
Record lock_state := Lock { expires : option Z; going : list (nat * Z) }.
Inductive lock_event := TryRun (p : nat) (t : Z) | EndRun (p : nat) (t : Z).
Definition time_of (e : lock_event) : Z := match e with TryRun _ t | EndRun _ t => t end.
(** [SET NX EX 240]; and [DEL], whoever holds it. *)
Definition lock_step (l : lock_state) (e : lock_event) : lock_state :=
  match e with
  | TryRun p t =>
      if match expires l with Some x => t <? x | None => false end then l
      else Lock (Some (t + LOCK_MS)) ((p, t) :: going l)
  | EndRun p t => if existsb (λ r, bool_decide (r.1 = p)) (going l) then Lock None (filter (λ r, r.1 ≠ p) (going l)) else l
  end.
Definition lock_run (es : list lock_event) : lock_state := foldl lock_step (Lock None []) es.

(** ** Theorems: selection *)

#[export] Instance by_ledgers_comparison : Comparison by_ledgers.
Proof. unfold by_ledgers. split; intros; repeat case_match; lia. Qed.
Lemma selected_in lead current streams s : s ∈ fetchUpcomingNotifications lead current streams ↔ s ∈ streams ∧ notify_opt_out s = false ∧
  (current <= cliff_ledger s <= current + lead ∨ current <= end_ledger s <= current + lead).
Proof.
  unfold fetchUpcomingNotifications. rewrite elem_of_stable_sort, list_elem_of_filter. unfold upcoming, between.
  rewrite andb_true_iff, negb_true_iff, orb_true_iff, !andb_true_iff, !Z.leb_le. tauto.
Qed.
(** A run goes through its streams by cliff and end, each once. *)
Lemma selected_sorted lead current streams : StronglySorted (not_after by_ledgers) (fetchUpcomingNotifications lead current streams) ∧
  fetchUpcomingNotifications lead current streams ≡ₚ filter (λ s, upcoming lead current s = true) streams.
Proof. split; [apply stable_sort_sorted, _|apply stable_sort_perm]. Qed.
(** The messages of a cliff: what a webhook is posted, and the mail. *)
Definition cliff_post (url : string) (s : stream) : message :=
  Post url (Payload "cliff_reached" (id s) (sponsor s) (recipient s) (token s) (rate_per_ledger s) (cliff_ledger s) (end_ledger s)).
Definition cliff_mail (to : string) (s : stream) : message :=
  Mail to "Stream Notification: cliff_reached" ("Your stream " +:+ id s +:+ " is cliff reached at ledger " +:+ Z_to_string (cliff_ledger s) +:+ ".").
(** The recipient asked for a webhook at [url], or for mail at [to]. *)
Definition asks_webhook (s : stream) (url : string) : Prop := notify_webhook s = true ∧ webhook_url s = Some url ∧ url ≠ "".
Definition asks_mail (s : stream) (to : string) : Prop := notify_email s = true ∧ email s = Some to ∧ to ≠ "".
Lemma wants_target (flag : bool) target t : wants flag target = Some t ↔ flag = true ∧ target = Some t ∧ t ≠ "".
Proof.
  unfold wants. destruct target as [u|]; [|naive_solver]. unfold truthy. destruct flag; cbn; [|naive_solver]. case_bool_decide; naive_solver.
Qed.
Lemma wants_none (flag : bool) target : (∀ t, ¬ (flag = true ∧ target = Some t ∧ t ≠ "")) → wants flag target = None.
Proof. intros H. destruct (wants flag target) as [t|] eqn:E; [|done]. apply wants_target in E. by destruct (H t). Qed.
(** A webhook is posted to at least once, and counts as reached when one of its
    three attempts does. *)
Lemma webhook_reached answer : ∃ n ws ok, sendWebhook answer = (S n, ws, ok) ∧ (ok = true ↔ ∃ k, (1 ≤ k ≤ 3)%nat ∧ answer k = true).
Proof.
  unfold sendWebhook. cbn. destruct (answer 1%nat) eqn:H1; [|destruct (answer 2%nat) eqn:H2; [|destruct (answer 3%nat) eqn:H3]];
    do 3 eexists; (split; [done|]); (split; [|try done]); try (intros _; eexists; split; [|eassumption]; lia).
  all: try done. intros (k & Hk & Ha). assert (k = 1 ∨ k = 2 ∨ k = 3)%nat as [->|[->| ->]] by lia; congruence.
Qed.
Lemma cliff_event s c : c < cliff_ledger s → cliff_ledger s <= end_ledger s → event_of s c = CliffReached.
Proof.
  intros Hc He. unfold event_of, distance. destruct (Z.ltb_spec c (cliff_ledger s)); [|lia]. destruct (Z.ltb_spec c (end_ledger s)); [|lia]. cbn.
  by destruct (Z.leb_spec (cliff_ledger s - c) (end_ledger s - c)); [|lia].
Qed.
(** What a run sends for a stream it announces the cliff of. *)
Lemma cliff_messages v s c : event_of s c = CliffReached →
  let ms := (dispatchNotification v s c).1 in
  (∀ url, asks_webhook s url → cliff_post url s ∈ ms) ∧
  (∀ to, asks_mail s to → mail_key v = true → (∀ url, ¬ asks_webhook s url) ∨ (∃ k, (1 ≤ k ≤ 3)%nat ∧ hook_answer v k = true) → cliff_mail to s ∈ ms) ∧
  ∀ m, m ∈ ms → (∃ url, asks_webhook s url ∧ m = cliff_post url s) ∨ (∃ to, asks_mail s to ∧ m = cliff_mail to s).
Proof.
  intros He ms. unfold ms, dispatchNotification. rewrite He.
  assert (Hmail : ∀ m, m ∈ (send_mail v s CliffReached).1 → ∃ to, asks_mail s to ∧ m = cliff_mail to s).
  { unfold send_mail. intros m. destruct (wants (notify_email s) (email s)) as [to|] eqn:Ew; [|by intros ?%not_elem_of_nil]. apply wants_target in Ew.
    destruct (mail_key v); [|by intros ?%not_elem_of_nil]. intros ->%list_elem_of_singleton. by exists to. }
  assert (Hsent : ∀ to, asks_mail s to → mail_key v = true → cliff_mail to s ∈ (send_mail v s CliffReached).1).
  { intros to Ha Hk. unfold send_mail. rewrite (proj2 (wants_target _ _ to) Ha), Hk. by left. }
  destruct (wants (notify_webhook s) (webhook_url s)) as [url|] eqn:Ew.
  - apply wants_target in Ew. destruct (webhook_reached (hook_answer v)) as (n & ws & ok & -> & Hok).
    assert (Hposts : ∀ rest, let l := replicate (S n) (cliff_post url s) ++ rest in cliff_post url s ∈ l) by (intros; by left).
    change (Post url (buildNotificationPayload s (event_name CliffReached))) with (cliff_post url s).
    split_and!.
    + intros url' Ha. assert (url' = url) as -> by (destruct Ha as (_ & ? & _), Ew as (_ & ? & _); congruence).
      destruct ok; [destruct (send_mail v s CliffReached)|]; cbn; by left.
    + intros to Ha Hk Hreach. assert (ok = true) as ->. { apply Hok. destruct Hreach as [Hno|?]; [by destruct (Hno url)|done]. }
      specialize (Hsent to Ha Hk). destruct (send_mail v s CliffReached) as [l b]. cbn [fst] in *. apply elem_of_app. by right.
    + intros m. destruct ok; [destruct (send_mail v s CliffReached) as [l b]; cbn [fst] in *; rewrite elem_of_app; intros [Hm|Hm]; [|right; by apply Hmail]|cbn [fst]; intros Hm];
        apply elem_of_replicate in Hm as [-> _]; left; by exists url.
  - assert (Hno : ∀ url, ¬ asks_webhook s url). { intros url Ha. apply wants_target in Ha. congruence. }
    split_and!; [intros url Ha; by destruct (Hno url)|intros to Ha Hk _; by apply Hsent|]. intros m Hm. right. by apply Hmail.
Qed.
(** Between two runs that are at most the lead apart. *)
Lemma last_run_before lead x cs c0 : (∀ i a b, (c0 :: cs) !! i = Some a → (c0 :: cs) !! S i = Some b → b - a <= lead) → c0 < x →
  Exists (λ c, x <= c) cs → ∃ c, c ∈ c0 :: cs ∧ c < x <= c + lead.
Proof.
  revert c0. induction cs as [|c1 cs IH]; intros c0 Hgap H0 Hex; [by inversion Hex|].
  destruct (Z.le_gt_cases x c1) as [Hx|Hx].
  - exists c0. split; [by left|]. pose proof (Hgap 0%nat c0 c1 eq_refl eq_refl). lia.
  - apply Exists_cons in Hex as [Hex|Hex]; [lia|]. destruct (IH c1) as (c & Hc & Hb); [|lia|done|].
    + intros i a b Ha Hb. by apply (Hgap (S i)).
    + exists c. split; [by right|done].
Qed.
(** C26. A cliff is announced: let the runs of the job be at ledgers at most
    the lead time apart, the first before the cliff of a stream and one at or
    after it, and let the recipient not have opted out.  Then one of the runs
    announces it as a cliff, at its ledger: it posts to the webhook that was asked
    for, it sends the mail that was asked for if the mail service is set up and
    the webhook, if one was asked for too, was reached in its three attempts (a
    webhook that stays down costs the mail), and it says nothing else of the
    stream. *)
Theorem cliff_announced lead c0 cs s (streams : Z → list stream) (v : Z → stream → services) :
  (∀ i a b, (c0 :: cs) !! i = Some a → (c0 :: cs) !! S i = Some b → b - a <= lead) → (∀ c, c ∈ c0 :: cs → s ∈ streams c) →
  notify_opt_out s = false → c0 < cliff_ledger s → Exists (λ c, cliff_ledger s <= c) cs → cliff_ledger s <= end_ledger s →
  ∃ c, c ∈ c0 :: cs ∧ c < cliff_ledger s ∧
    let sent := run_messages (v c) lead c (streams c) in
    (∀ url, asks_webhook s url → cliff_post url s ∈ sent) ∧
    (∀ to, asks_mail s to → mail_key (v c s) = true →
      (∀ url, ¬ asks_webhook s url) ∨ (∃ k, (1 ≤ k ≤ 3)%nat ∧ hook_answer (v c s) k = true) → cliff_mail to s ∈ sent) ∧
    ∀ m, m ∈ (dispatchNotification (v c s) s c).1 → (∃ url, asks_webhook s url ∧ m = cliff_post url s) ∨ (∃ to, asks_mail s to ∧ m = cliff_mail to s).
Proof.
  intros Hgap Hin Ho H0 Hex He. destruct (last_run_before lead _ cs c0 Hgap H0 Hex) as (c & Hc & Hlt & Hle).
  exists c. split; [done|]. split; [done|]. intros sent. destruct (cliff_messages (v c s) s c (cliff_event s c Hlt He)) as (H1 & H2 & H3).
  assert (Hsub : ∀ m, m ∈ (dispatchNotification (v c s) s c).1 → m ∈ sent).
  { intros m Hm. unfold sent, run_messages. apply list_elem_of_bind. exists s. split; [done|]. apply selected_in.
    split; [by apply Hin|]. split; [done|]. left. lia. }
  split_and!; [intros url Hu; by apply Hsub, H1|intros to Ht Hk Hr; by apply Hsub, H2|done].
Qed.
(** The two ledgers that are not ahead of a run are mixed up: a stream whose
    cliff is the current ledger is announced as completed, at its end, however
    far that is; a stream that is over is announced as reaching its cliff. *)
Theorem boundary_misreported s current lead streams : s ∈ streams → notify_opt_out s = false → 0 <= lead →
  (cliff_ledger s = current → current < end_ledger s →
    s ∈ fetchUpcomingNotifications lead current streams ∧ event_of s current = StreamCompleted) ∧
  (cliff_ledger s <= current → end_ledger s = current →
    s ∈ fetchUpcomingNotifications lead current streams ∧ event_of s current = CliffReached).
Proof.
  intros Hs Ho Hl. split; intros H1 H2; (split; [apply selected_in; split_and!; [done|done|lia]|]); unfold event_of, distance;
    destruct (Z.ltb_spec current (cliff_ledger s)), (Z.ltb_spec current (end_ledger s)); try lia; done.
Qed.

(** ** Theorems: sending *)

(** A webhook is tried until it succeeds, at most three times, with waits of
    one and two seconds; it succeeds when its last attempt does. *)
Theorem webhook_retries answer : let '(n, waits, ok) := sendWebhook answer in
  (1 ≤ n ≤ MAX_RETRIES)%nat ∧ waits = take (n - 1) [1000; 2000] ∧ ok = answer n ∧ (∀ k, (1 ≤ k < n)%nat → answer k = false) ∧
  (ok = false → n = MAX_RETRIES).
Proof.
  unfold sendWebhook, MAX_RETRIES. cbn. destruct (answer 1%nat) eqn:H1; [|destruct (answer 2%nat) eqn:H2; [|destruct (answer 3%nat) eqn:H3]];
    (split_and!; try done; try lia; intros k Hk; assert (k = 1 ∨ k = 2)%nat as [->| ->] by lia; done || lia).
Qed.
(** A webhook that keeps failing costs the recipient the email: three posts
    leave, and no mail, whatever the mail service would do. *)
Theorem failed_webhook_skips_mail v s current url : wants (notify_webhook s) (webhook_url s) = Some url → (∀ k, hook_answer v k = false) →
  dispatchNotification v s current = (replicate 3 (Post url (buildNotificationPayload s (event_name (event_of s current)))), false).
Proof. intros Hu Hf. unfold dispatchNotification, sendWebhook. rewrite Hu. cbn. by rewrite !Hf. Qed.

(** ** Theorems: the lock *)

(** Times do not go back, and every run ends before its lock expires. *)
Fixpoint timely (l : lock_state) (now : Z) (es : list lock_event) : Prop :=
  match es with
  | [] => True
  | e :: es' => now <= time_of e ∧ Forall (λ r : nat * Z, time_of e < r.2 + LOCK_MS) (going l) ∧ timely (lock_step l e) (time_of e) es'
  end.
(** As long as every run ends before its lock expires, at most one run is
    going on. *)
Theorem one_run_at_a_time es now : timely (Lock None []) now es → (length (going (lock_run es)) ≤ 1)%nat.
Proof.
  set (ok := λ l, match going l with [] => True | [r] => expires l = Some (r.2 + LOCK_MS) | _ => False end).
  assert (H : ∀ l now', ok l → timely l now' es → ok (foldl lock_step l es)).
  { induction es as [|e es IH]; intros l now' Hl; [done|]. cbn [timely foldl]. intros (_ & Ht & Hes). eapply IH; [|exact Hes].
    destruct l as [x rs]. unfold ok in Hl. cbn [going expires] in *. destruct e as [p t|p t]; cbn [time_of] in Ht.
    - cbn. destruct rs as [|r []]; [|cbn in Hl; subst x|done].
      + by destruct x as [x|]; [destruct (t <? x)|].
      + apply Forall_cons in Ht as [Ht _]. by destruct (Z.ltb_spec t (r.2 + LOCK_MS)); [|lia].
    - cbn. destruct (existsb _ rs) eqn:He; [|done]. destruct rs as [|r []]; [done| |done]. cbn in He. rewrite orb_false_r in He.
      apply bool_decide_eq_true in He. unfold ok. cbn. by rewrite decide_False by tauto. }
  intros Ht. unfold lock_run. specialize (H (Lock None []) now I Ht). unfold ok in H. destruct (going _) as [|r []]; simpl; lia || done.
Qed.

(** ** Examples and witnesses *)

Definition demo_stream (i : string) (cliff end_ : Z) : stream :=
  Stream i "GS" "GR" "CT" "10" cliff end_ (Some "a@b.c") (Some "https://hook") true true false.
Definition never : services := Services (λ _, false) true true.
(** Runs sixty ledgers apart; the stream wants mail only. *)
Definition mail_stream : stream := Stream "1" "GS" "GR" "CT" "10" 1050 9000 (Some "a@b.c") (Some "https://hook") true false false.
Lemma cliff_announced_witness : ∃ c, c ∈ [960; 1020; 1080] ∧
  Mail "a@b.c" "Stream Notification: cliff_reached" "Your stream 1 is cliff reached at ledger 1050." ∈
    run_messages (λ _, never) NOTIFICATION_LEAD_TIME c [mail_stream].
Proof.
  destruct (cliff_announced NOTIFICATION_LEAD_TIME 960 [1020; 1080] mail_stream (λ _, [mail_stream]) (λ _ _, never)) as (c & Hc & _ & _ & Hm & _).
  - intros [|[|[|i]]] a b Ha Hb; simplify_eq/=; unfold NOTIFICATION_LEAD_TIME; lia.
  - intros c _. by left.
  - reflexivity.
  - cbn. lia.
  - right. left. cbn. lia.
  - cbn. lia.
  - exists c. split; [exact Hc|]. apply (Hm "a@b.c"); [done|done|]. left. intros url [H _]. discriminate H.
Defined.
Lemma boundary_misreported_witness : event_of (demo_stream "1" 1000 9000000) 1000 = StreamCompleted.
Proof. apply (boundary_misreported (demo_stream "1" 1000 9000000) 1000 100 [demo_stream "1" 1000 9000000]); cbn; try lia; try done; by left. Defined.
Lemma failed_webhook_skips_mail_witness :
  length (dispatchNotification never (demo_stream "1" 1050 9000) 1000).1 = 3%nat.
Proof. rewrite (failed_webhook_skips_mail never (demo_stream "1" 1050 9000) 1000 "https://hook") by done. reflexivity. Defined.
Lemma one_run_at_a_time_witness : (length (going (lock_run [TryRun 1 0; TryRun 2 1000; EndRun 1 200000; TryRun 3 300000])) ≤ 1)%nat.
Proof. apply (one_run_at_a_time _ 0). cbn. repeat split; try lia; repeat constructor; cbn; lia. Defined.
(** A run that outlives its lock: a second starts, the first ends and removes the
    second's lock, and a third starts beside the second. *)
Example lock_of_another_removed :
  going (lock_run [TryRun 1 0; TryRun 2 300000; EndRun 1 310000; TryRun 3 310001]) = [(3%nat, 310001); (2%nat, 300000)].
Proof. reflexivity. Qed.
(** Runs five minutes, that is sixty ledgers, apart announce a cliff twice. *)
Example announced_twice :
  let s := demo_stream "1" 1090 9000 in
  (λ c, (length (fetchUpcomingNotifications NOTIFICATION_LEAD_TIME c [s]), event_of s c)) <$> [1000; 1060] = [(1%nat, CliffReached); (1%nat, CliffReached)].
Proof. reflexivity. Qed.
