(* ===== verification/PgWire.v ===== *)
(** * A PostgreSQL client on its wire protocol

    infra/lambda/backup-verify/pg.js (terraform/lambdas/backup-verify/pg.js is
    the same file): splitting the byte stream into messages, the messages sent,
    the parsers of what is received, both password schemes, and the two loops
    that consume messages.  A promise of [next] is the flag [pending]; bytes
    arrive as chunks.  Hashes are parameters; TLS is a channel of bytes. *)
From S2P Require Import Prelude Bytes Digits UrlText.

(** ** Bytes and integers *)

Definition int16 (z : Z) : buffer := to_big_endian 2 z.
Definition int32 (z : Z) : buffer := to_big_endian 4 z.
Definition signed (bits u : Z) : Z := if u <? 2 ^ (bits - 1) then u else u - 2 ^ bits.
Definition readInt16BE (off : Z) (b : buffer) : option Z := signed 16 <$> read_be 2 off b.
Definition readInt32BE (off : Z) (b : buffer) : option Z := signed 32 <$> read_be 4 off b.
(** [buf.indexOf(x, off)], [None] for -1. *)
Definition indexOf (x off : Z) (b : buffer) : option Z :=
  (λ p : nat * Z, off + Z.of_nat p.1) <$> list_find (x =.) (drop (Z.to_nat off) b).
(** [buf.toString("utf8", lo, hi)] *)
Definition text (lo hi : Z) (b : buffer) : string := to_utf8 (subarray lo hi b).

(** ** Splitting the stream into messages *)

Definition SSL_REQUEST_CODE : Z := 80877103.
Definition PROTOCOL_VERSION_3 : Z := 196608.
Definition MAX_MESSAGE_BYTES : Z := 64 * 1024 * 1024.

Record message := Message { tag : Z; body : buffer }.
#[global] Instance message_eq_dec : EqDecision message.
Proof. solve_decision. Defined.

(** [MessageStream].  At most one promise of [next] is unsettled. *)
Record reader := Reader { received : buffer; pending : bool; failure : option string }.
Definition empty_reader : reader := Reader [] false None.
(** How the promise of [next] is settled. *)
Inductive settled := Resolved (m : message) | Rejected (e : string).

Definition message_length (b : buffer) : Z := default 0 (readUInt32BE 1 b).
Definition implausible (n : Z) : bool := (n <? 4) || (MAX_MESSAGE_BYTES <? n).
Definition first_message (b : buffer) : message :=
  Message (default 0 (b !! 0%nat)) (subarray 5 (message_length b + 1) b).

(** [_drain]: every complete message is taken off the buffer; it is handed over
    when somebody waits.  A round removes at least five bytes. *)
Fixpoint drain_loop (fuel : nat) (r : reader) : reader * option settled :=
  match fuel with
  | O => (r, None)
  | S fuel' =>
      if buf_length (received r) <? 5 then (r, None)
      else
        let n := message_length (received r) in
        if implausible n then
          let e := "implausible message length " +:+ Z_to_string n in
          (Reader (received r) false (Some e), if pending r then Some (Rejected e) else None)
        else if buf_length (received r) <? n + 1 then (r, None)
        else
          let '(r', s) := drain_loop fuel' (Reader (subarray_from (n + 1) (received r)) false (failure r)) in
          if pending r then (r', Some (Resolved (first_message (received r)))) else (r', s)
  end.
Definition drain (r : reader) : reader * option settled := drain_loop (S (length (received r))) r.

Definition push (chunk : buffer) (r : reader) : reader * option settled :=
  drain (Reader (received r ++ chunk) (pending r) (failure r)).
Definition next (r : reader) : reader * option settled :=
  match failure r with
  | Some e => (r, Some (Rejected e))
  | None => drain (Reader (received r) true None)
  end.

(** ** Messages sent *)

Definition tagged (t : Z) (payload : buffer) : buffer := [t] ++ int32 (buf_length payload + 4) ++ payload.
Definition cstring (s : string) : buffer := string_bytes s ++ [0].
Definition startupMessage (params : list (string * string)) : buffer :=
  let b := int32 PROTOCOL_VERSION_3 ++ (params ≫= λ kv, cstring kv.1 ++ cstring kv.2) ++ [0] in
  int32 (buf_length b + 4) ++ b.
Definition sslRequest : buffer := int32 8 ++ int32 SSL_REQUEST_CODE.

(** ** Messages received *)

(** [parseErrorResponse]: a value without its zero byte makes [indexOf] -1, and
    the loop starts again at 0. *)
Fixpoint error_fields (fuel : nat) (b : buffer) (i : Z) (acc : gmap Z string) : option (gmap Z string) :=
  match fuel with
  | O => None
  | S fuel' =>
      if negb (i <? buf_length b - 1) then Some acc
      else
        let c := default 0 (b !! Z.to_nat i) in
        if c =? 0 then Some acc
        else match indexOf 0 (i + 1) b with
             | Some e => error_fields fuel' b (e + 1) (<[c := text (i + 1) e b]> acc)
             | None => error_fields fuel' b 0 (<[c := ""]> acc)
             end
  end.
Record pg_error := PgError { severity : option string; ecode : option string; emessage : option string; detail : option string }.
Definition parseErrorResponse (fuel : nat) (b : buffer) : option pg_error :=
  (λ fs : gmap Z string, PgError (fs !! 83) (fs !! 67) (fs !! 77) (fs !! 68)) <$> error_fields fuel b 0 ∅.

Definition or_text (o : option string) (d : string) : string :=
  match o with Some s => if truthy s then s else d | None => d end.
Definition formatPgError (e : pg_error) : string :=
  String.concat " " (filter (λ s, truthy s = true)
    [or_text (severity e) "ERROR";
     match ecode e with Some c => if truthy c then "(" +:+ c +:+ ")" else "" | None => "" end;
     or_text (emessage e) "unknown error"; or_text (detail e) ""]).

Record field := Field { name : string; typeOid : Z }.

Fixpoint row_fields (count : nat) (i off : Z) (b : buffer) : result string (list field) :=
  match count with
  | O => Ok []
  | S count' =>
      match indexOf 0 off b with
      | None => Err ("RowDescription field " +:+ Z_to_string i +:+ " has no terminating null byte")
      | Some e =>
          let n := text off e b in
          if buf_length b <? e + 1 + 4 + 2 + 4 then
            Err ("RowDescription field " +:+ Z_to_string i +:+ " (" +:+ n +:+ ") is truncated")
          else
            match row_fields count' (i + 1) (e + 1 + 4 + 2 + 4 + 2 + 4 + 2) b with
            | Ok fs => Ok (Field n (default 0 (readInt32BE (e + 1 + 4 + 2) b)) :: fs)
            | Err m => Err m
            end
      end
  end.
Definition parseRowDescription (b : buffer) : result string (list field) :=
  match readInt16BE 0 b with
  | None => Err "RowDescription is too short to hold a field count"
  | Some count =>
      if count <? 0 then Err ("RowDescription has a negative field count: " +:+ Z_to_string count)
      else row_fields (Z.to_nat count) 0 2 b
  end.

Fixpoint row_values (count : nat) (i off : Z) (b : buffer) : result string (list (option string)) :=
  match count with
  | O => Ok []
  | S count' =>
      match readInt32BE off b with
      | None => Err ("DataRow column " +:+ Z_to_string i +:+ " has no length prefix")
      | Some n =>
          if n =? -1 then
            match row_values count' (i + 1) (off + 4) b with Ok vs => Ok (None :: vs) | Err m => Err m end
          else if n <? 0 then Err ("DataRow column " +:+ Z_to_string i +:+ " has an invalid length: " +:+ Z_to_string n)
          else if buf_length b <? off + 4 + n then
            Err ("DataRow column " +:+ Z_to_string i +:+ " claims " +:+ Z_to_string n +:+ " bytes but only " +:+
                 Z_to_string (buf_length b - (off + 4)) +:+ " remain")
          else
            match row_values count' (i + 1) (off + 4 + n) b with
            | Ok vs => Ok (Some (text (off + 4) (off + 4 + n) b) :: vs)
            | Err m => Err m
            end
      end
  end.

(** A row is an object keyed by the column names, where a later column of the
    same name replaces an earlier one, or an array before any description. *)
Inductive row := RowObject (cols : gmap string (option string)) | RowArray (vals : list (option string)).
Definition from_entries {K} `{Countable K} {V} (kvs : list (K * V)) : gmap K V :=
  foldl (λ m kv, <[kv.1 := kv.2]> m) ∅ kvs.
Definition row_object (fs : list field) (vals : list (option string)) : row :=
  RowObject (from_entries (imap (λ i f, (name f, mjoin (vals !! i))) fs)).
Definition parse_values (b : buffer) : result string (list (option string)) :=
  match readInt16BE 0 b with
  | None => Err "DataRow is too short to hold a column count"
  | Some count =>
      if count <? 0 then Err ("DataRow has a negative column count: " +:+ Z_to_string count)
      else row_values (Z.to_nat count) 0 2 b
  end.
Definition parseDataRow (b : buffer) (fs : option (list field)) : result string row :=
  match parse_values b with
  | Err m => Err m
  | Ok vals => Ok (match fs with Some fs => row_object fs vals | None => RowArray vals end)
  end.

(** What a server sends. *)
Definition encode_column (c : option buffer) : buffer :=
  match c with None => int32 (-1) | Some b => int32 (buf_length b) ++ b end.
Definition encode_row (cols : list (option buffer)) : buffer :=
  int16 (Z.of_nat (length cols)) ++ (cols ≫= encode_column).
(** [attrs] are the table, column, size, modifier and format of the column. *)
Record column := Column { cname : string; table_col : buffer; oid : Z; attrs : buffer }.
Definition encode_field (c : column) : buffer :=
  cstring (cname c) ++ table_col c ++ int32 (oid c) ++ attrs c.
Definition encode_description (cs : list column) : buffer :=
  int16 (Z.of_nat (length cs)) ++ (cs ≫= encode_field).
Definition encode_error (fs : list (Z * string)) : buffer := (fs ≫= λ f, f.1 :: cstring f.2) ++ [0].

(** ** Authentication *)

Definition replace_char (c : ascii) (by_ : string) (s : string) : string :=
  of_chars (chars s ≫= λ x, if decide (x = c) then chars by_ else [x]).
Definition scramClientFirstBare (username clientNonce : string) : string :=
  "n=" +:+ replace_char "," "=2C" (replace_char "=" "=3D" username) +:+ ",r=" +:+ clientNonce.

(** [text.split(",").map(part => [part.slice(0, eq), part.slice(eq + 1)])]:
    without an equals sign, [eq] is -1 and the name loses its last character. *)
Definition attribute (part : string) : string * string :=
  let l := chars part in
  match list_find ("="%char =.) l with
  | Some (i, _) => (of_chars (take i l), of_chars (drop (S i) l))
  | None => (of_chars (take (length l - 1) l), part)
  end.
Definition attributes (s : string) : gmap string string := from_entries (attribute <$> split_on "," s).

Definition xor_bytes (a b : buffer) : buffer := zip_with Z.lxor a b.

Section crypto.
(** [createHash("md5")] in hexadecimal, [createHash("sha256")],
    [createHmac("sha256", key)] and [pbkdf2Sync]. *)
Context (md5_hex : buffer → string) (sha256 : buffer → buffer) (hmac : buffer → buffer → buffer)
  (pbkdf2 : string → buffer → Z → buffer).

Definition md5Password (user password : string) (salt : buffer) : string :=
  "md5" +:+ md5_hex (string_bytes (md5_hex (string_bytes (password +:+ user))) ++ salt).

Record scram_proof := ScramProof { clientFinal : string; expectedServerSignature : string }.
Definition auth_message (username clientNonce serverFirst serverNonce : string) : string :=
  scramClientFirstBare username clientNonce +:+ "," +:+ serverFirst +:+ "," +:+ "c=biws,r=" +:+ serverNonce.
Definition scramClientProof (password username clientNonce serverFirst : string) : result string scram_proof :=
  let attrs := attributes serverFirst in
  let serverNonce := default "" (attrs !! "r") in
  if negb (truthy serverNonce) || negb (starts_with clientNonce serverNonce) then
    Err "SCRAM server nonce does not extend the client nonce"
  else
    match attrs !! "s" with
    | None => Err "The first argument must be of type string or an instance of Buffer"
    | Some s =>
        let salt := from_base64 s in
        match attrs !! "i" ≫= parse_int with
        | Some iterations =>
            if iterations <? 1 then Err ("SCRAM iteration count is invalid: " +:+ default "undefined" (attrs !! "i"))
            else
              let saltedPassword := pbkdf2 password salt iterations in
              let clientKey := hmac saltedPassword (string_bytes "Client Key") in
              let storedKey := sha256 clientKey in
              let authMessage := string_bytes (auth_message username clientNonce serverFirst serverNonce) in
              let proof := xor_bytes clientKey (hmac storedKey authMessage) in
              let serverKey := hmac saltedPassword (string_bytes "Server Key") in
              Ok (ScramProof ("c=biws,r=" +:+ serverNonce +:+ ",p=" +:+ to_base64 proof)
                    (to_base64 (hmac serverKey authMessage)))
        | None => Err ("SCRAM iteration count is invalid: " +:+ default "undefined" (attrs !! "i"))
        end
    end.

(** [verifyScram].  The text it reads starts with the four bytes of the type. *)
Definition verifyScram (b : buffer) (password username clientNonce serverFirst : string) : result string string :=
  let attrs := attributes (to_utf8 b) in
  match scramClientProof password username clientNonce serverFirst with
  | Err m => Err m
  | Ok p =>
      if truthy (default "" (attrs !! "e")) then Err ("SCRAM authentication failed: " +:+ default "" (attrs !! "e"))
      else if bool_decide (attrs !! "v" = Some (expectedServerSignature p)) then Ok (clientFinal p)
      else Err "SCRAM server signature mismatch"
  end.

(** The mechanism names after the type.  When a name lacks its zero byte,
    [indexOf] is -1, an empty text is taken, and reading goes on at 0. *)
Fixpoint mechanisms (fuel : nat) (b : buffer) (off : Z) : option (list string) :=
  match fuel with
  | O => None
  | S fuel' =>
      let e := default (-1) (indexOf 0 off b) in
      if e =? off then Some []
      else (λ ms, (if 0 <=? e then text off e b else "") :: ms) <$> mechanisms fuel' b (e + 1)
  end.

Record login := Login { l_user : string; l_password : string; l_nonce : string; l_server_first : string }.
(** One message of [_authenticate]: go on, having sent some bytes, or be done.
    [AuthStuck] is a loop that does not end within the fuel. *)
Inductive auth_step := AuthMore (l : login) (sent : buffer) | AuthReady | AuthFailed (e : string) | AuthStuck.

Definition authenticate_step (fuel : nat) (l : login) (m : message) : auth_step :=
  let b := body m in
  if tag m =? 69 then
    match parseErrorResponse fuel b with Some e => AuthFailed (formatPgError e) | None => AuthStuck end
  else if negb (tag m =? 82) then if tag m =? 90 then AuthReady else AuthMore l []
  else match readInt32BE 0 b with
  | None => AuthFailed "The value of offset is out of range"
  | Some t =>
      if t =? 0 then AuthMore l []
      else if t =? 3 then AuthMore l (tagged 112 (cstring (l_password l)))
      else if t =? 5 then AuthMore l (tagged 112 (cstring (md5Password (l_user l) (l_password l) (subarray 4 8 b))))
      else if t =? 10 then
        match mechanisms fuel b 4 with
        | None => AuthStuck
        | Some available =>
            if negb (bool_decide ("SCRAM-SHA-256" ∈ available)) then
              AuthFailed ("server offered SASL mechanisms " +:+ String.concat ", " available +:+ "; only SCRAM-SHA-256 is supported")
            else
              let clientFirst := "n,," +:+ scramClientFirstBare (l_user l) (l_nonce l) in
              AuthMore l (tagged 112 (cstring "SCRAM-SHA-256" ++ int32 (utf16_length clientFirst) ++ string_bytes clientFirst))
        end
      else if t =? 11 then
        let serverFirst := to_utf8 (subarray_from 4 b) in
        match verifyScram b (l_password l) (l_user l) (l_nonce l) serverFirst with
        | Ok s => AuthMore (Login (l_user l) (l_password l) (l_nonce l) serverFirst) (tagged 112 (string_bytes s))
        | Err e => AuthFailed e
        end
      else if t =? 12 then
        match verifyScram b (l_password l) (l_user l) (l_nonce l) (l_server_first l) with
        | Ok _ => AuthMore l []
        | Err e => AuthFailed e
        end
      else AuthFailed ("unsupported authentication method " +:+ Z_to_string t)
  end.

End crypto.

(** ** Connection *)

(** [query], message by message. *)
Record query_state := Query { q_fields : option (list field); q_rows : list row }.
Inductive query_step := QueryMore (q : query_state) | QueryDone (rows : list row) (fs : list field) | QueryFailed (e : string) | QueryStuck.
Definition on_message (fuel : nat) (q : query_state) (m : message) : query_step :=
  if tag m =? 84 then
    match parseRowDescription (body m) with Ok fs => QueryMore (Query (Some fs) (q_rows q)) | Err e => QueryFailed e end
  else if tag m =? 68 then
    match parseDataRow (body m) (q_fields q) with
    | Ok r => QueryMore (Query (q_fields q) (q_rows q ++ [r]))
    | Err e => QueryFailed e
    end
  else if tag m =? 69 then
    match parseErrorResponse fuel (body m) with Some e => QueryFailed (formatPgError e) | None => QueryStuck end
  else if tag m =? 90 then QueryDone (q_rows q) (default [] (q_fields q))
  else QueryMore q.

(** A running query with its reader: waiting for a message, or over. *)
Inductive query_run := Waiting (q : query_state) (r : reader) | Over (s : query_step).

(** The loop asks for the next message as soon as one was handed over, before
    more bytes arrive.  What is left in the buffer is no complete message, so
    one [next] is enough. *)
Definition handle (fuel : nat) (q : query_state) (rs : reader * option settled) : query_run :=
  match rs with
  | (r, None) => Waiting q r
  | (r, Some (Rejected e)) => Over (QueryFailed e)
  | (r, Some (Resolved m)) =>
      match on_message fuel q m with
      | QueryMore q' =>
          match next r with
          | (r', None) => Waiting q' r'
          | (r', Some (Rejected e)) => Over (QueryFailed e)
          | (r', Some (Resolved m')) => Over QueryStuck
          end
      | s => Over s
      end
  end.
Definition start_query (fuel : nat) (r : reader) : query_run := handle fuel (Query None []) (next r).
Definition on_chunk (fuel : nat) (s : query_run) (chunk : buffer) : query_run :=
  match s with Waiting q r => handle fuel q (push chunk r) | Over _ => s end.
Definition run_query (fuel : nat) (r : reader) (chunks : list buffer) : query_run :=
  foldl (on_chunk fuel) (start_query fuel r) chunks.

(** [connect]: the listener of the raw socket is installed before the answer to
    the request for TLS arrives, so the answer goes into the buffer as well. *)
Definition negotiated (answer : buffer) : result string reader :=
  let r := (push answer empty_reader).1 in
  if bool_decide (answer !! 0%nat = Some 83) then Ok r else Err "server refused TLS; RDS requires it".

(** ** Lemmas: integers *)

Lemma buf_length_nonneg b : 0 <= buf_length b.
Proof. unfold buf_length. lia. Qed.
Lemma buf_length_cons x b : buf_length (x :: b) = buf_length b + 1.
Proof. unfold buf_length. simpl. lia. Qed.
Lemma buf_length_int32 z : buf_length (int32 z) = 4.
Proof. unfold buf_length, int32. by rewrite length_to_big_endian. Qed.
Lemma buf_length_int16 z : buf_length (int16 z) = 2.
Proof. unfold buf_length, int16. by rewrite length_to_big_endian. Qed.
Lemma buf_length_nil : buf_length [] = 0.
Proof. done. Qed.
#[local] Hint Rewrite buf_length_nil buf_length_cons buf_length_app buf_length_int32 buf_length_int16 : blen.
Ltac blen := autorewrite with blen in *; repeat match goal with |- context [buf_length ?b] =>
  lazymatch goal with H : 0 <= buf_length b |- _ => fail | _ => pose proof (buf_length_nonneg b) end end; try lia.

Lemma signed_mod k z : 0 < k → - 2 ^ (k - 1) <= z < 2 ^ (k - 1) → signed k (z mod 2 ^ k) = z.
Proof.
  intros Hk Hz. unfold signed. assert (2 ^ k = 2 * 2 ^ (k - 1)) as E by (rewrite <-Z.pow_succ_r by lia; f_equal; lia).
  destruct (decide (0 <= z)).
  - rewrite Z.mod_small by lia. destruct (Z.ltb_spec z (2 ^ (k - 1))); lia.
  - replace (z mod 2 ^ k) with (z + 2 ^ k) by (apply Z.mod_unique with (-1); lia).
    destruct (Z.ltb_spec (z + 2 ^ k) (2 ^ (k - 1))); lia.
Qed.
Lemma readInt32BE_at off pre z post : off = buf_length pre → - 2 ^ 31 <= z < 2 ^ 31 →
  readInt32BE off (pre ++ int32 z ++ post) = Some z.
Proof.
  intros -> Hz. unfold readInt32BE. rewrite (read_be_middle 4) by (try done; apply buf_length_int32).
  unfold int32. rewrite big_endian_to_big_endian. cbn [fmap option_fmap option_map].
  change (256 ^ Z.of_nat 4) with (2 ^ 32). by rewrite signed_mod by lia.
Qed.
Lemma readInt16BE_at z post : - 2 ^ 15 <= z < 2 ^ 15 → readInt16BE 0 (int16 z ++ post) = Some z.
Proof.
  intros Hz. unfold readInt16BE. change (int16 z ++ post) with ([] ++ int16 z ++ post).
  rewrite (read_be_middle 2) by (try done; apply buf_length_int16).
  unfold int16. rewrite big_endian_to_big_endian. cbn [fmap option_fmap option_map].
  change (256 ^ Z.of_nat 2) with (2 ^ 16). by rewrite signed_mod by lia.
Qed.
Lemma subarray_at lo hi a b c : lo = buf_length a → hi = lo + buf_length b → subarray lo hi (a ++ b ++ c) = b.
Proof.
  intros -> ->. rewrite (assoc_L (++)), subarray_app_l; [|apply buf_length_nonneg|blen].
  by apply subarray_app_r.
Qed.
Lemma subarray_from_at n a b : n = buf_length a → subarray_from n (a ++ b) = b.
Proof. intros ->. unfold subarray_from, buf_length. by rewrite Nat2Z.id, drop_app_length. Qed.

(** ** Lemmas: framing *)

Definition encode (m : message) : buffer := tagged (tag m) (body m).
(** The bound on messages the code accepts. *)
Definition sendable (m : message) : Prop := buf_length (body m) + 4 <= MAX_MESSAGE_BYTES.
(** A beginning of a message, possibly empty, but not the whole. *)
Definition unfinished (b : buffer) : Prop := ∃ m rest, sendable m ∧ encode m = b ++ rest ∧ rest ≠ [].

Lemma buf_length_encode m : buf_length (encode m) = buf_length (body m) + 5.
Proof. unfold encode, tagged. blen. Qed.
Lemma MAX_value : MAX_MESSAGE_BYTES = 67108864. Proof. done. Qed.
Lemma length_field m rest : sendable m → readUInt32BE 1 (encode m ++ rest) = Some (buf_length (body m) + 4).
Proof.
  unfold sendable. rewrite MAX_value. intros Hm. unfold readUInt32BE, encode, tagged.
  rewrite <-!(assoc_L (++)). rewrite (read_be_middle 4 1 [tag m]) by (try done; apply buf_length_int32).
  unfold int32. rewrite big_endian_to_big_endian, Z.mod_small; [done|]. pose proof (buf_length_nonneg (body m)).
  change (256 ^ Z.of_nat 4) with (2 ^ 32). lia.
Qed.
Lemma plausible m : sendable m → implausible (buf_length (body m) + 4) = false.
Proof. unfold sendable, implausible. pose proof (buf_length_nonneg (body m)). lia. Qed.
Lemma first_message_encode m rest : sendable m → first_message (encode m ++ rest) = m.
Proof.
  intros Hm. unfold first_message, message_length. rewrite length_field by done. cbn [default id].
  destruct m as [t b]. unfold encode, tagged. cbn [tag body]. f_equal.
  rewrite <-!(assoc_L (++)). rewrite (assoc_L (++) [t] (int32 _)). apply subarray_at; blen.
Qed.

Lemma drain_loop_message fuel m rest p f : sendable m →
  drain_loop (S fuel) (Reader (encode m ++ rest) p f) =
  (let '(r', s) := drain_loop fuel (Reader rest false f) in if p then (r', Some (Resolved m)) else (r', s)).
Proof.
  intros Hm. cbn [drain_loop received pending failure]. unfold message_length. rewrite length_field by done. cbn [default id].
  rewrite plausible by done. pose proof (buf_length_encode m). pose proof (buf_length_nonneg (body m)). pose proof (buf_length_nonneg rest).
  destruct (Z.ltb_spec (buf_length (encode m ++ rest)) 5); [blen|].
  destruct (Z.ltb_spec (buf_length (encode m ++ rest)) (buf_length (body m) + 4 + 1)); [blen|].
  rewrite subarray_from_at by lia. by rewrite first_message_encode.
Qed.
Lemma subarray_1_5 b1 b2 : 5 <= buf_length b1 → readUInt32BE 1 (b1 ++ b2) = readUInt32BE 1 b1.
Proof.
  intros H. unfold readUInt32BE, read_be. rewrite buf_length_app, subarray_app_l by lia. pose proof (buf_length_nonneg b2).
  destruct (Z.leb_spec (1 + 4) (buf_length b1 + buf_length b2)), (Z.leb_spec (1 + 4) (buf_length b1)); try done; lia.
Qed.
Lemma drain_loop_unfinished fuel b p f : unfinished b → drain_loop fuel (Reader b p f) = (Reader b p f, None).
Proof.
  intros (m & rest & Hm & E & Hr). destruct fuel as [|fuel]; [done|]. cbn [drain_loop received].
  destruct (Z.ltb_spec (buf_length b) 5) as [|H5]; [done|].
  assert (message_length b = buf_length (body m) + 4) as ->.
  { unfold message_length. rewrite <-(subarray_1_5 b rest), <-E by done.
    by rewrite <-(app_nil_r (encode m)), length_field. }
  rewrite plausible by done. pose proof (f_equal buf_length E) as El. rewrite buf_length_encode, buf_length_app in El.
  assert (0 < buf_length rest) by (destruct rest; [done|]; unfold buf_length; simpl; lia).
  destruct (Z.ltb_spec (buf_length b) (buf_length (body m) + 4 + 1)); [done|lia].
Qed.
Lemma length_encode_pos m : (0 < length (encode m))%nat.
Proof. pose proof (buf_length_encode m). pose proof (buf_length_nonneg (body m)). unfold buf_length in *. lia. Qed.
Lemma drain_loop_messages ms b p f fuel : Forall sendable ms → unfinished b → (length ms < fuel)%nat →
  drain_loop fuel (Reader ((ms ≫= encode) ++ b) p f) =
  (Reader b (p && bool_decide (ms = [])) f, if p then Resolved <$> head ms else None).
Proof.
  intros Hms Hb. revert p fuel. induction Hms as [|m ms Hm Hms IH]; intros p fuel Hf.
  - simpl. rewrite drain_loop_unfinished by done. rewrite andb_true_r. by destruct p.
  - destruct fuel as [|fuel]; [simpl in Hf; lia|]. cbn [mbind list_bind]. rewrite <-(assoc_L (++)).
    rewrite drain_loop_message by done. rewrite IH by (simpl in Hf; lia). cbn [andb head fmap option_fmap option_map].
    rewrite andb_false_r. by destruct p.
Qed.
Lemma length_messages ms : (length ms ≤ length (ms ≫= encode))%nat.
Proof. induction ms as [|m ms IH]; [done|]. rewrite bind_cons, length_app. pose proof (length_encode_pos m). cbn [length]. lia. Qed.
Lemma drain_messages ms b p f : Forall sendable ms → unfinished b →
  drain (Reader ((ms ≫= encode) ++ b) p f) =
  (Reader b (p && bool_decide (ms = [])) f, if p then Resolved <$> head ms else None).
Proof.
  intros Hms Hb. apply drain_loop_messages; [done..|]. cbn [received]. rewrite length_app. pose proof (length_messages ms). lia.
Qed.
Lemma unfinished_nil : unfinished [].
Proof. exists (Message 0 []), (encode (Message 0 [])). split; [unfold sendable, buf_length; rewrite MAX_value; simpl; lia|]. split; [done|]. done. Qed.
Lemma drain_unfinished b p f : unfinished b → drain (Reader b p f) = (Reader b p f, None).
Proof. apply drain_loop_unfinished. Qed.

(** ** Lemmas: parsers *)

Lemma indexOf_spec x off b e : 0 <= off → indexOf x off b = Some e → off <= e < buf_length b.
Proof.
  intros Ho. unfold indexOf. rewrite fmap_Some. intros ((i, y) & (Hi & _)%list_find_Some & ->).
  apply lookup_lt_Some in Hi. rewrite length_drop in Hi. unfold buf_length. simpl. lia.
Qed.
Lemma indexOf_cstring off pre s post : off = buf_length pre → 0 ∉ string_bytes s →
  indexOf 0 off (pre ++ cstring s ++ post) = Some (off + buf_length (string_bytes s)).
Proof.
  intros -> Hs. unfold indexOf.
  replace (Z.to_nat (buf_length pre)) with (length pre) by (unfold buf_length; lia). rewrite drop_app_length. unfold cstring. rewrite <-(assoc_L (++)).
  rewrite list_find_app_r.
  - simpl. unfold buf_length. f_equal.
  - apply list_find_None, Forall_forall. intros y Hy <-. done.
Qed.

(** Columns of a row, at a position. *)
Definition decoded (c : option buffer) : option string := to_utf8 <$> c.
Definition column_ok (c : option buffer) : Prop := match c with Some b => buf_length b < 2 ^ 31 | None => True end.
Lemma row_values_encode cols i pre post : Forall column_ok cols →
  row_values (length cols) i (buf_length pre) (pre ++ (cols ≫= encode_column) ++ post) = Ok (decoded <$> cols).
Proof.
  intros Hc. revert i pre. induction Hc as [|c cols Hc Hcols IH]; intros i pre; [done|].
  rewrite bind_cons. cbn [length row_values].
  assert (Hrest : ∀ j, row_values (length cols) j (buf_length (pre ++ encode_column c)) (pre ++ (encode_column c ++ (cols ≫= encode_column)) ++ post) = Ok (decoded <$> cols)).
  { intros j. rewrite <-(IH j (pre ++ encode_column c)). by rewrite <-!(assoc_L (++)). }
  destruct c as [b|]; cbn [encode_column column_ok] in *.
  - rewrite <-!(assoc_L (++)) in *. pose proof (buf_length_nonneg b). rewrite readInt32BE_at by (try done; lia).
    destruct (Z.eqb_spec (buf_length b) (-1)); [lia|]. destruct (Z.ltb_spec (buf_length b) 0); [lia|].
    destruct (Z.ltb_spec (buf_length (pre ++ int32 (buf_length b) ++ b ++ (cols ≫= encode_column) ++ post)) (buf_length pre + 4 + buf_length b)); [blen|].
    specialize (Hrest (i + 1)). replace (buf_length (pre ++ int32 (buf_length b) ++ b)) with (buf_length pre + 4 + buf_length b) in Hrest by blen.
    rewrite Hrest. cbn [fmap list_fmap option_fmap option_map]. unfold text. do 3 f_equal.
    rewrite (assoc_L (++) pre (int32 _)), subarray_at; [done|blen|blen].
  - rewrite <-!(assoc_L (++)) in *. rewrite readInt32BE_at by (try done; lia).
    specialize (Hrest (i + 1)). replace (buf_length (pre ++ int32 (-1))) with (buf_length pre + 4) in Hrest by blen.
    cbn [Z.eqb Pos.eqb]. by rewrite Hrest.
Qed.
Lemma signed_bounds k z : 0 < k → 0 <= z < 2 ^ k → - 2 ^ (k - 1) <= signed k z < 2 ^ (k - 1) ∧ signed k z mod 2 ^ k = z.
Proof.
  intros Hk Hz. unfold signed. assert (2 ^ k = 2 * 2 ^ (k - 1)) as E by (rewrite <-Z.pow_succ_r by lia; f_equal; lia).
  destruct (Z.ltb_spec z (2 ^ (k - 1))); (split; [lia|]); [by apply Z.mod_small|].
  symmetry. apply Z.mod_unique with (-1); lia.
Qed.
Lemma to_big_endian_mod n z : to_big_endian n (z mod 256 ^ Z.of_nat n) = to_big_endian n z.
Proof.
  rewrite <-(to_big_endian_big_endian (to_big_endian n z)) by apply to_big_endian_bytes.
  by rewrite length_to_big_endian, big_endian_to_big_endian.
Qed.
(** Bytes that were read are those of the value. *)
Lemma read_be_inv n pre b z : Forall is_byte b → read_be (Z.of_nat n) (buf_length pre) (pre ++ b) = Some z →
  0 <= z < 256 ^ Z.of_nat n ∧ b = to_big_endian n z ++ drop n b.
Proof.
  intros Hb Hz. unfold read_be in Hz.
  pose proof (buf_length_nonneg pre). destruct (Z.leb_spec 0 (buf_length pre)); [|lia].
  destruct (Z.leb_spec (buf_length pre + Z.of_nat n) (buf_length (pre ++ b))) as [Hl|]; [|done]. cbn [andb] in Hz.
  rewrite buf_length_app in Hl. assert (n ≤ length b)%nat as Hlb by (unfold buf_length in *; lia).
  assert (length (take n b) = n) as Hlt by (rewrite length_take; lia).
  rewrite <-(take_drop n b), subarray_at in Hz; [|done|unfold buf_length; lia].
  injection Hz as <-. assert (Forall is_byte (take n b)) as Ht by (by apply Forall_take).
  pose proof (big_endian_bounds _ Ht) as Hbd. unfold buf_length in Hbd. rewrite Hlt in Hbd. split; [done|].
  rewrite <-(take_drop n b) at 1. f_equal.
  rewrite <-Hlt at 2. by rewrite to_big_endian_big_endian.
Qed.
Lemma read_int32_inv pre b n : Forall is_byte b → readInt32BE (buf_length pre) (pre ++ b) = Some n →
  - 2 ^ 31 <= n < 2 ^ 31 ∧ ∃ b', b = int32 n ++ b'.
Proof.
  intros Hb. unfold readInt32BE. rewrite fmap_Some. intros (z & Hz & ->).
  destruct (read_be_inv 4 pre b z Hb Hz) as [Hbd E]. change (256 ^ Z.of_nat 4) with (2 ^ 32) in Hbd.
  destruct (signed_bounds 32 z) as [Hs Hm]; [lia..|]. split; [done|]. exists (drop 4 b). rewrite E at 1. f_equal.
  unfold int32. rewrite <-(to_big_endian_mod 4 (signed 32 z)). change (256 ^ Z.of_nat 4) with (2 ^ 32). by rewrite Hm.
Qed.
Lemma read_int16_inv b n : Forall is_byte b → readInt16BE 0 b = Some n →
  - 2 ^ 15 <= n < 2 ^ 15 ∧ ∃ b', b = int16 n ++ b'.
Proof.
  intros Hb. unfold readInt16BE. rewrite fmap_Some. intros (z & Hz & ->).
  destruct (read_be_inv 2 [] b z Hb Hz) as [Hbd E]. change (256 ^ Z.of_nat 2) with (2 ^ 16) in Hbd.
  destruct (signed_bounds 16 z) as [Hs Hm]; [lia..|]. split; [done|]. exists (drop 2 b). rewrite E at 1. f_equal.
  unfold int16. rewrite <-(to_big_endian_mod 2 (signed 16 z)). change (256 ^ Z.of_nat 2) with (2 ^ 16). by rewrite Hm.
Qed.

Lemma row_values_sound n i pre b vs : Forall is_byte b →
  row_values n i (buf_length pre) (pre ++ b) = Ok vs →
  ∃ cols post, b = (cols ≫= encode_column) ++ post ∧ length cols = n ∧ Forall column_ok cols ∧ vs = decoded <$> cols.
Proof.
  revert i pre b vs. induction n as [|n IH]; intros i pre b vs Hb.
  - intros [= <-]. by exists [], b.
  - cbn [row_values]. destruct (readInt32BE (buf_length pre) (pre ++ b)) as [z|] eqn:Hz; [|done].
    destruct (read_int32_inv _ _ _ Hb Hz) as (Hzb & b' & ->). apply Forall_app in Hb as [_ Hb'].
    destruct (Z.eqb_spec z (-1)) as [->|Hz1].
    + rewrite (assoc_L (++)). replace (buf_length pre + 4) with (buf_length (pre ++ int32 (-1))) by blen.
      destruct (row_values n _ _ _) as [vs'|] eqn:Hr; [|done]. intros [= <-].
      destruct (IH _ _ _ _ Hb' Hr) as (cols & post & -> & <- & Hok & ->).
      exists (None :: cols), post. rewrite bind_cons. split; [by rewrite <-!(assoc_L (++))|]. split; [done|]. by split; [constructor|].
    + destruct (Z.ltb_spec z 0); [done|]. destruct (Z.ltb_spec (buf_length (pre ++ int32 z ++ b')) (buf_length pre + 4 + z)) as [|Hl]; [done|].
      assert (z <= buf_length b') as Hzl by (revert Hl; blen).
      assert (∃ c b2, b' = c ++ b2 ∧ buf_length c = z) as (c & b2 & -> & Hbl).
      { exists (take (Z.to_nat z) b'), (drop (Z.to_nat z) b'). rewrite take_drop. split; [done|]. unfold buf_length in *. rewrite length_take. lia. }
      assert (text (buf_length pre + 4) (buf_length pre + 4 + z) (pre ++ int32 z ++ c ++ b2) = to_utf8 c) as ->.
      { unfold text. rewrite (assoc_L (++) pre), subarray_at; [done|blen|blen]. }
      replace (pre ++ int32 z ++ c ++ b2) with ((pre ++ int32 z ++ c) ++ b2) by (by rewrite <-!(assoc_L (++))).
      replace (buf_length pre + 4 + z) with (buf_length (pre ++ int32 z ++ c)) by blen.
      destruct (row_values n _ _ _) as [vs'|] eqn:Hr; [|done]. intros [= <-]. apply Forall_app in Hb' as [_ Hb2].
      destruct (IH _ _ _ _ Hb2 Hr) as (cols & post & -> & <- & Hok & ->).
      exists (Some c :: cols), post. rewrite bind_cons. cbn [encode_column]. rewrite Hbl.
      split; [by rewrite <-!(assoc_L (++))|]. split; [done|]. split; [|done]. constructor; [|done]. cbn [column_ok]. lia.
Qed.

(** Names and texts a server can send: no zero byte, and UTF-8. *)
Definition sendable_text (s : string) : Prop := 0 ∉ string_bytes s ∧ to_utf8 (string_bytes s) = s.
Lemma text_cstring pre s post lo : lo = buf_length pre → sendable_text s →
  text lo (lo + buf_length (string_bytes s)) (pre ++ cstring s ++ post) = s.
Proof.
  intros -> [_ Hs]. unfold text, cstring. rewrite <-(assoc_L (++)), subarray_at by blen. done.
Qed.

Definition column_sendable (c : column) : Prop :=
  sendable_text (cname c) ∧ buf_length (table_col c) = 6 ∧ buf_length (attrs c) = 8 ∧ - 2 ^ 31 <= oid c < 2 ^ 31.
Lemma row_fields_encode cs i pre post : Forall column_sendable cs →
  row_fields (length cs) i (buf_length pre) (pre ++ (cs ≫= encode_field) ++ post) = Ok ((λ c, Field (cname c) (oid c)) <$> cs).
Proof.
  intros Hc. revert i pre. induction Hc as [|c cs (Hn & Ht & Ha & Ho) Hcs IH]; intros i pre; [done|].
  rewrite bind_cons. cbn [length row_fields]. specialize (IH (i + 1) (pre ++ encode_field c)).
  change (encode_field c) with (cstring (cname c) ++ table_col c ++ int32 (oid c) ++ attrs c) in *.
  rewrite <-!(assoc_L (++)) in *. rewrite indexOf_cstring by (done || apply Hn).
  rewrite text_cstring by done.
  set (s := string_bytes (cname c)) in *. assert (Hcs' : buf_length (cstring (cname c)) = buf_length s + 1) by (unfold cstring; fold s; blen).
  match goal with |- context [Z.ltb ?a ?b] => destruct (Z.ltb_spec a b) as [Hlt|] end; [exfalso; revert Hlt; blen|].
  assert (Hr : readInt32BE (buf_length pre + buf_length s + 1 + 4 + 2)
    (pre ++ cstring (cname c) ++ table_col c ++ int32 (oid c) ++ attrs c ++ (cs ≫= encode_field) ++ post) = Some (oid c)).
  { rewrite (assoc_L (++) pre), (assoc_L (++) (pre ++ _)). apply readInt32BE_at; [blen|done]. }
  rewrite Hr. revert IH.
  match goal with |- row_fields _ _ ?x _ = _ → _ =>
    replace x with (buf_length pre + buf_length s + 1 + 4 + 2 + 4 + 2 + 4 + 2) by blen end.
  by intros ->.
Qed.

Definition field_sendable (f : Z * string) : Prop := 0 < f.1 ∧ sendable_text f.2.
Notation error_bytes fs := (mbind (M := list) (λ f : Z * string, f.1 :: cstring f.2) fs).
Lemma error_fields_step fuel pre c s post acc : 0 < c → sendable_text s → post ≠ [] →
  error_fields (S fuel) (pre ++ (c :: cstring s) ++ post) (buf_length pre) acc =
  error_fields fuel (pre ++ (c :: cstring s) ++ post) (buf_length (pre ++ c :: cstring s)) (<[c := s]> acc).
Proof.
  intros Hc Hs Hp. cbn [error_fields].
  assert (0 < buf_length post) by (destruct post; [done|unfold buf_length; simpl; lia]).
  destruct (Z.ltb_spec (buf_length pre) (buf_length (pre ++ (c :: cstring s) ++ post) - 1)) as [|Hl]; [|revert Hl; cbn [app]; blen].
  cbn [negb]. assert ((pre ++ (c :: cstring s) ++ post) !! Z.to_nat (buf_length pre) = Some c) as ->.
  { unfold buf_length. rewrite Nat2Z.id, lookup_app_r, Nat.sub_diag by lia. done. }
  cbn [default id]. destruct (Z.eqb_spec c 0); [lia|].
  change ((c :: cstring s) ++ post) with ([c] ++ cstring s ++ post). rewrite (assoc_L (++)).
  assert (buf_length pre + 1 = buf_length (pre ++ [c])) as -> by blen.
  rewrite indexOf_cstring, text_cstring by (done || apply Hs). f_equal. unfold cstring. blen.
Qed.

(** ** Lemmas: queries *)

(** [arrives b cs mss b']: with [b] in the buffer, each chunk completes the
    messages of the list beside it, and [b'] is left over. *)
Inductive arrives : buffer → list buffer → list (list message) → buffer → Prop :=
| arrives_nil b : arrives b [] [] b
| arrives_cons b c ms b1 cs mss b2 : b ++ c = (ms ≫= encode) ++ b1 → Forall sendable ms → unfinished b1 →
    arrives b1 cs mss b2 → arrives b (c :: cs) (ms :: mss) b2.
(** The loop of [query] over a list of messages. *)
Fixpoint consume (fuel : nat) (q : query_state) (ms : list message) : query_step :=
  match ms with
  | [] => QueryMore q
  | m :: ms => match on_message fuel q m with QueryMore q' => consume fuel q' ms | s => s end
  end.
Definition run_of (b : buffer) (s : query_step) : query_run :=
  match s with QueryMore q => Waiting q (Reader b true None) | s => Over s end.

Lemma over_stays fuel s cs : foldl (on_chunk fuel) (Over s) cs = Over s.
Proof. by induction cs. Qed.
Lemma push_messages ms b b' chunk p f : b ++ chunk = (ms ≫= encode) ++ b' → Forall sendable ms → unfinished b' →
  push chunk (Reader b p f) = (Reader b' (p && bool_decide (ms = [])) f, if p then Resolved <$> head ms else None).
Proof. intros E Hms Hb. unfold push. cbn [received pending failure]. rewrite E. by apply drain_messages. Qed.
Lemma run_chunks fuel b cs mss b' q : arrives b cs mss b' →
  foldl (on_chunk fuel) (Waiting q (Reader b true None)) cs = run_of b' (consume fuel q (omap head mss)).
Proof.
  intros H. revert q. induction H as [|b c ms b1 cs mss b2 E Hms Hb _ IH]; intros q; [done|].
  cbn [foldl on_chunk]. rewrite (push_messages ms b b1 c) by done. destruct ms as [|m ms].
  - simpl. apply IH.
  - cbn [head fmap option_fmap option_map handle andb omap list_omap consume]. rewrite bool_decide_eq_false_2 by done.
    cbn [andb]. destruct (on_message fuel q m) as [q'| | |]; [|apply over_stays..].
    unfold next. cbn [failure received]. rewrite drain_unfinished by done. apply IH.
Qed.

Definition reply (cs : list column) (rows : list (list (option buffer))) (complete : buffer) (status : Z) : list message :=
  Message 84 (encode_description cs) :: ((λ r, Message 68 (encode_row r)) <$> rows) ++ [Message 67 complete; Message 90 [status]].
Definition fields_of (cs : list column) : list field := (λ c, Field (cname c) (oid c)) <$> cs.

Lemma parseRowDescription_encode cs : Forall column_sendable cs → Z.of_nat (length cs) < 2 ^ 15 →
  parseRowDescription (encode_description cs) = Ok (fields_of cs).
Proof.
  intros Hcs Hl. unfold parseRowDescription, encode_description. rewrite readInt16BE_at by lia.
  destruct (Z.ltb_spec (Z.of_nat (length cs)) 0); [lia|]. rewrite Nat2Z.id.
  pose proof (row_fields_encode cs 0 (int16 (Z.of_nat (length cs))) [] Hcs) as Hrow.
  rewrite buf_length_int16, app_nil_r in Hrow. exact Hrow.
Qed.
Lemma parse_values_encode cols post : Forall column_ok cols → Z.of_nat (length cols) < 2 ^ 15 →
  parse_values (encode_row cols ++ post) = Ok (decoded <$> cols).
Proof.
  intros Hc Hl. unfold parse_values, encode_row. rewrite <-(assoc_L (++)), readInt16BE_at by lia.
  destruct (Z.ltb_spec (Z.of_nat (length cols)) 0); [lia|]. rewrite Nat2Z.id.
  pose proof (row_values_encode cols 0 (int16 (Z.of_nat (length cols))) post Hc) as Hrow.
  rewrite buf_length_int16 in Hrow. exact Hrow.
Qed.
Definition row_sendable (r : list (option buffer)) : Prop := Forall column_ok r ∧ Z.of_nat (length r) < 2 ^ 15.
Lemma parseDataRow_encode r cs : row_sendable r →
  parseDataRow (encode_row r) (Some (fields_of cs)) = Ok (row_object (fields_of cs) (decoded <$> r)).
Proof. intros [Hr Hl]. unfold parseDataRow. rewrite <-(app_nil_r (encode_row r)), parse_values_encode by done. done. Qed.
Lemma consume_reply fuel cs rows complete status : Forall column_sendable cs → Z.of_nat (length cs) < 2 ^ 15 → Forall row_sendable rows →
  consume fuel (Query None []) (reply cs rows complete status) =
  QueryDone ((λ r, row_object (fields_of cs) (decoded <$> r)) <$> rows) (fields_of cs).
Proof.
  intros Hcs Hl Hrows. unfold reply. cbn [consume]. unfold on_message at 1. cbn [tag body Z.eqb Pos.eqb q_rows].
  rewrite parseRowDescription_encode by done.
  change ((λ r, row_object (fields_of cs) (decoded <$> r)) <$> rows) with ([] ++ ((λ r, row_object (fields_of cs) (decoded <$> r)) <$> rows)).
  generalize (@nil row) as acc. induction Hrows as [|r rows Hr Hrows IH]; intros acc; [by rewrite app_nil_r|].
  rewrite !fmap_cons. cbn [app consume]. unfold on_message at 1. cbn [tag body Z.eqb Pos.eqb q_rows q_fields].
  rewrite parseDataRow_encode by done. rewrite IH. by rewrite <-(assoc_L (++)).
Qed.

(** ** Lemmas: passwords *)

Lemma attribute_split (n v : string) : "="%char ∉ chars n → attribute (n +:+ "=" +:+ v) = (n, v).
Proof.
  intros Hn. unfold attribute. rewrite !string_app_chars. change (chars "=") with ["="%char].
  assert (list_find ("="%char =.) (chars n ++ ["="%char] ++ chars v) = Some (length (chars n), "="%char)) as ->.
  { rewrite list_find_app_r by (apply list_find_None, Forall_forall; intros c Hc <-; done). done. }
  rewrite take_app_length. change (["="%char] ++ chars v) with ("="%char :: chars v).
  rewrite drop_app. rewrite drop_ge by lia. replace (S (length (chars n)) - length (chars n))%nat with 1%nat by lia.
  change ([] ++ drop 1 ("="%char :: chars v)) with (chars v). by rewrite !of_chars_chars.
Qed.
Lemma attribute_name (part : string) l c r : chars part = l ++ c :: "="%char :: r → "="%char ∉ l → c ≠ "="%char →
  (attribute part).1 = of_chars (l ++ [c]).
Proof.
  intros E Hl Hc. unfold attribute. rewrite E.
  assert (list_find ("="%char =.) (l ++ c :: "="%char :: r) = Some (length (l ++ [c]), "="%char)) as ->.
  { change (c :: "="%char :: r) with ([c] ++ "="%char :: r). rewrite (assoc_L (++)), list_find_app_r.
    - done.
    - apply list_find_None, Forall_forall. intros x Hx <-. apply elem_of_app in Hx as [?|Hx%list_elem_of_singleton]; [done|congruence]. }
  cbn [fst]. f_equal. change (c :: "="%char :: r) with ([c] ++ "="%char :: r). by rewrite (assoc_L (++)), take_app_length.
Qed.

Lemma base64_char_not_comma n : 0 <= n < 64 → base64_char n ≠ ","%char.
Proof.
  intros Hn. assert (Hall : forallb (λ k, bool_decide (base64_char (Z.of_nat k) ≠ ","%char)) (seq 0 64) = true) by (vm_compute; reflexivity).
  rewrite forallb_forall in Hall. specialize (Hall (Z.to_nat n)). rewrite in_seq in Hall.
  specialize (Hall ltac:(lia)). apply bool_decide_eq_true in Hall. by rewrite Z2Nat.id in Hall by lia.
Qed.
Lemma to_base64_no_comma b : Forall is_byte b → ","%char ∉ chars (to_base64 b).
Proof.
  unfold to_base64. rewrite chars_of_chars.
  induction b as [|x|x y|x y z b IH] using buffer_ind3; intros Hb; byte_bounds; cbn [split_bytes];
    rewrite ?not_elem_of_cons; repeat split; auto using not_elem_of_nil; try (apply not_eq_sym, base64_char_not_comma; dm_lia); try done.
Qed.
Lemma digits_no_comma n : 0 <= n → ","%char ∉ chars (Z_to_string n).
Proof.
  intros Hn Hin. destruct (chars_Z_to_string n Hn) as (Hd & _). rewrite forallb_forall in Hd.
  apply list_elem_of_In, Hd in Hin. done.
Qed.

Lemma xor_twice a b : length a = length b → xor_bytes (xor_bytes a b) b = a.
Proof.
  revert b. induction a as [|x a IH]; intros [|y b]; try done. intros [= Hl]. unfold xor_bytes in *. simpl.
  by rewrite IH, Z.lxor_assoc, Z.lxor_nilpotent, Z.lxor_0_r.
Qed.
Lemma is_byte_testbit x : 0 <= x → (∀ i, 8 <= i → Z.testbit x i = false) → is_byte x.
Proof.
  intros Hx Hb. split; [done|]. destruct (decide (x = 0)) as [->|]; [lia|].
  apply (Z.log2_lt_pow2 x 8); [lia|]. destruct (Z.le_gt_cases 8 (Z.log2 x)) as [H|]; [|done].
  pose proof (Hb _ H) as Hf. by rewrite Z.bit_log2 in Hf by lia.
Qed.
Lemma xor_byte x y : is_byte x → is_byte y → is_byte (Z.lxor x y).
Proof.
  intros [Hx Hx'] [Hy Hy']. apply is_byte_testbit; [by apply Z.lxor_nonneg|]. intros i Hi. rewrite Z.lxor_spec.
  rewrite !Z.bits_above_log2; [done|lia|..|lia|]; (apply Z.le_lt_trans with (Z.log2 255); [apply Z.log2_le_mono; lia|change (Z.log2 255) with 7; lia]).
Qed.
Lemma xor_bytes_bytes a b : Forall is_byte a → Forall is_byte b → Forall is_byte (xor_bytes a b).
Proof. intros Ha. revert b. induction Ha; intros b Hb; destruct Hb; constructor; auto using xor_byte. Qed.

(** The first message of a server, and the check it does of a proof. *)
Definition server_first (nonce : string) (salt : buffer) (iterations : Z) : string :=
  String.concat "," ["r=" +:+ nonce; "s=" +:+ to_base64 salt; "i=" +:+ Z_to_string iterations].
Definition proof_accepted (sha256 : buffer → buffer) (hmac : buffer → buffer → buffer) (storedKey authMessage proof : buffer) : Prop :=
  sha256 (xor_bytes proof (hmac storedKey authMessage)) = storedKey.

Lemma no_comma_app a b : ","%char ∉ chars a → ","%char ∉ chars b → ","%char ∉ chars (a +:+ b).
Proof. rewrite string_app_chars, not_elem_of_app. done. Qed.
Lemma server_first_parts nonce salt iterations : ","%char ∉ chars nonce → Forall is_byte salt → 0 <= iterations →
  split_on "," (server_first nonce salt iterations) = ["r=" +:+ nonce; "s=" +:+ to_base64 salt; "i=" +:+ Z_to_string iterations].
Proof.
  intros Hn Hs Hi. apply split_on_concat; [done|].
  repeat apply Forall_cons_2; [| | |by apply Forall_nil_2]; (apply no_comma_app; [apply (bool_decide_unpack _); vm_compute; exact I|]);
    [done|by apply to_base64_no_comma|by apply digits_no_comma].
Qed.
Definition server_attributes (nonce : string) (salt : buffer) (iterations : Z) : gmap string string :=
  <["i" := Z_to_string iterations]> (<["s" := to_base64 salt]> {["r" := nonce]}).
Lemma server_first_attributes nonce salt iterations : ","%char ∉ chars nonce → Forall is_byte salt → 0 <= iterations →
  attributes (server_first nonce salt iterations) = server_attributes nonce salt iterations.
Proof.
  intros Hn Hs Hi. unfold attributes. rewrite server_first_parts by done. cbn [fmap list_fmap].
  change ("r=" +:+ nonce) with ("r" +:+ "=" +:+ nonce). change ("s=" +:+ to_base64 salt) with ("s" +:+ "=" +:+ to_base64 salt).
  change ("i=" +:+ Z_to_string iterations) with ("i" +:+ "=" +:+ Z_to_string iterations).
  rewrite (attribute_split "r"), (attribute_split "s"), (attribute_split "i") by (apply (bool_decide_unpack _); vm_compute; exact I).
  done.
Qed.
Lemma ascii_app a b : Forall is_ascii_char (chars a) → Forall is_ascii_char (chars b) → Forall is_ascii_char (chars (a +:+ b)).
Proof. rewrite string_app_chars. by apply Forall_app_2. Qed.
Lemma base64_char_ascii n : 0 <= n < 64 → is_ascii_char (base64_char n).
Proof.
  intros Hn. assert (Hall : forallb (λ k, code (base64_char (Z.of_nat k)) <? 128) (seq 0 64) = true) by (vm_compute; reflexivity).
  rewrite forallb_forall in Hall. specialize (Hall (Z.to_nat n)). rewrite in_seq in Hall.
  specialize (Hall ltac:(lia)). rewrite Z2Nat.id in Hall by lia. unfold is_ascii_char. lia.
Qed.
Lemma to_base64_ascii b : Forall is_byte b → Forall is_ascii_char (chars (to_base64 b)).
Proof.
  unfold to_base64. rewrite chars_of_chars.
  induction b as [|x|x y|x y z b IH] using buffer_ind3; intros Hb; byte_bounds; cbn [split_bytes];
    repeat apply Forall_cons_2; auto using Forall_nil_2; try (apply base64_char_ascii; dm_lia); by vm_compute.
Qed.

(** The text [verifyScram] makes of a first message: the four bytes of the type
    stay in front, so its first attribute is not called r. *)
Definition type_text : string := bytes_string (int32 11).
Lemma first_text nonce salt iterations : Forall is_ascii_char (chars nonce) → Forall is_byte salt → 0 <= iterations →
  to_utf8 (int32 11 ++ string_bytes (server_first nonce salt iterations)) = type_text +:+ server_first nonce salt iterations.
Proof.
  intros Hn Hs Hi. transitivity (to_utf8 (string_bytes (type_text +:+ server_first nonce salt iterations))).
  { reflexivity. }
  apply to_utf8_ascii, ascii_app; [by vm_compute; repeat constructor|]. unfold server_first. cbn [String.concat].
  rewrite !string_app_chars, !Forall_app.
  repeat split; first [done|by apply to_base64_ascii|by apply digits_ascii|by repeat constructor].
Qed.
Lemma type_text_attributes nonce salt iterations : ","%char ∉ chars nonce → Forall is_byte salt → 0 <= iterations →
  attributes (type_text +:+ server_first nonce salt iterations) =
  <["i" := Z_to_string iterations]> (<["s" := to_base64 salt]> {[type_text +:+ "r" := nonce]}).
Proof.
  intros Hn Hs Hi. unfold attributes.
  change (type_text +:+ server_first nonce salt iterations) with
    (String.concat "," [(type_text +:+ "r") +:+ "=" +:+ nonce; "s" +:+ "=" +:+ to_base64 salt; "i" +:+ "=" +:+ Z_to_string iterations]).
  change "," with (String "," ""). rewrite split_on_concat; [|done|].
  - cbn [fmap list_fmap]. rewrite (attribute_split (type_text +:+ "r")), (attribute_split "s"), (attribute_split "i")
      by (apply (bool_decide_unpack _); vm_compute; exact I). done.
  - repeat apply Forall_cons_2; [| | |by apply Forall_nil_2]; (apply no_comma_app; [apply (bool_decide_unpack _); vm_compute; exact I|]);
      (apply no_comma_app; [apply (bool_decide_unpack _); vm_compute; exact I|]);
      [done|by apply to_base64_no_comma|by apply digits_no_comma].
Qed.

Section proof.
Context (sha256 : buffer → buffer) (hmac : buffer → buffer → buffer) (pbkdf2 : string → buffer → Z → buffer).
Lemma scramClientProof_value password username clientNonce ext salt iterations :
  ","%char ∉ chars (clientNonce +:+ ext) → clientNonce +:+ ext ≠ "" → Forall is_byte salt → 1 <= iterations →
  let nonce := clientNonce +:+ ext in
  let first := server_first nonce salt iterations in
  let salted := pbkdf2 password salt iterations in
  let key := hmac salted (string_bytes "Client Key") in
  let msg := string_bytes (auth_message username clientNonce first nonce) in
  scramClientProof sha256 hmac pbkdf2 password username clientNonce first =
  Ok (ScramProof ("c=biws,r=" +:+ nonce +:+ ",p=" +:+ to_base64 (xor_bytes key (hmac (sha256 key) msg)))
        (to_base64 (hmac (hmac salted (string_bytes "Server Key")) msg))).
Proof.
  intros Hc Hne Hs Hi nonce first salted key msg. unfold scramClientProof.
  unfold first. rewrite server_first_attributes by (done || lia).
  assert (attrs_r : server_attributes nonce salt iterations !! "r" = Some nonce).
  { unfold server_attributes. by rewrite !lookup_insert_ne, lookup_singleton_eq by done. }
  assert (attrs_s : server_attributes nonce salt iterations !! "s" = Some (to_base64 salt)).
  { unfold server_attributes. by rewrite lookup_insert_ne, lookup_insert_eq by done. }
  assert (attrs_i : server_attributes nonce salt iterations !! "i" = Some (Z_to_string iterations)).
  { unfold server_attributes. by rewrite lookup_insert_eq. }
  rewrite attrs_r, attrs_s, attrs_i. cbn [default id mbind option_bind].
  assert (truthy nonce = true) as -> by by apply bool_decide_eq_true. unfold nonce at 1. rewrite starts_with_app. cbn [negb orb].
  rewrite parse_int_text by lia. destruct (Z.ltb_spec iterations 1); [lia|]. by rewrite from_to_base64.
Qed.
End proof.

Lemma error_fields_encode fs pre rest acc : Forall field_sendable fs → rest ≠ [] →
  ∀ fuel, error_fields (length fs + fuel) (pre ++ error_bytes fs ++ rest) (buf_length pre) acc =
    error_fields fuel (pre ++ error_bytes fs ++ rest) (buf_length (pre ++ error_bytes fs)) (foldl (λ m kv, <[kv.1 := kv.2]> m) acc fs).
Proof.
  intros Hfs Hr fuel. revert pre acc. induction Hfs as [|[c s] fs [Hc Hs] Hfs IH]; intros pre acc; [by rewrite app_nil_r|].
  rewrite bind_cons. cbn [length Nat.add fst snd foldl] in *. rewrite <-!(assoc_L (++)).
  rewrite error_fields_step; [|done|done|by destruct (error_bytes fs)].
  specialize (IH (pre ++ c :: cstring s) (<[c := s]> acc)). rewrite <-!(assoc_L (++)) in IH. exact IH.
Qed.

(** A last field without its zero byte sends the loop back to the start. *)
Lemma error_fields_again fs c t fuel : Forall field_sendable fs → 0 < c → 0 ∉ t → t ≠ [] →
  ∀ done_ todo acc, fs = done_ ++ todo →
    error_fields fuel (error_bytes fs ++ c :: t) (buf_length (error_bytes done_)) acc = None.
Proof.
  intros Hfs Hc H0 Ht. induction fuel as [|fuel IH]; intros done_ todo acc E; [done|].
  destruct todo as [|[c1 s] todo].
  - rewrite app_nil_r in E. subst done_. cbn [error_fields].
    assert (0 < buf_length t) by (destruct t; [done|unfold buf_length; simpl; lia]).
    destruct (Z.ltb_spec (buf_length (error_bytes fs)) (buf_length (error_bytes fs ++ c :: t) - 1)) as [|Hl]; [|revert Hl; blen].
    cbn [negb]. assert ((error_bytes fs ++ c :: t) !! Z.to_nat (buf_length (error_bytes fs)) = Some c) as ->.
    { unfold buf_length. by rewrite Nat2Z.id, lookup_app_r, Nat.sub_diag by lia. }
    cbn [default id]. destruct (Z.eqb_spec c 0); [lia|].
    assert (indexOf 0 (buf_length (error_bytes fs) + 1) (error_bytes fs ++ c :: t) = None) as ->.
    { unfold indexOf. change (c :: t) with ([c] ++ t). rewrite (assoc_L (++)).
      replace (Z.to_nat (buf_length (error_bytes fs) + 1)) with (length (error_bytes fs ++ [c])) by (unfold buf_length; rewrite length_app; simpl; lia).
      rewrite drop_app_length. rewrite fmap_None. apply list_find_None, Forall_forall. by intros y Hy <-. }
    apply (IH [] fs). done.
  - subst fs. apply Forall_app in Hfs as Hsplit. destruct Hsplit as [_ [[Hc1 Hs] _]%Forall_cons].
    rewrite bind_app, bind_cons. cbn [fst snd]. rewrite <-!(assoc_L (++)).
    rewrite error_fields_step; [|done|done|by destruct (error_bytes todo)].
    specialize (IH (done_ ++ [(c1, s)]) todo (<[c1 := s]> acc)). rewrite <-(assoc_L (++)) in IH. specialize (IH eq_refl).
    rewrite !bind_app, !bind_cons in IH. cbn [fst snd] in IH. rewrite app_nil_r in IH. rewrite <-!(assoc_L (++)) in IH. exact IH.
Qed.

Lemma run_query_chunks fuel chunks mss b : arrives [] chunks mss b →
  run_query fuel empty_reader chunks = run_of b (consume fuel (Query None []) (omap head mss)).
Proof. apply run_chunks. Qed.

(** ** Theorems: the stream of messages *)

(** What the promises of a reader are settled with, chunk by chunk. *)
Fixpoint settlements (r : reader) (chunks : list buffer) : list settled :=
  match chunks with
  | [] => []
  | c :: cs => let '(r', s) := push c r in option_list s ++ settlements r' cs
  end.
Lemma settlements_idle cs : Forall (λ c, c = []) cs → settlements (Reader [] false None) cs = [].
Proof. induction 1 as [|c cs -> _ IH]; [done|]. cbn [settlements]. apply IH. Qed.
Lemma settlements_cut b m cs : sendable m → b ++ mjoin cs = encode m → unfinished b →
  settlements (Reader b true None) cs = [Resolved m].
Proof.
  intros Hm. revert b. induction cs as [|c cs IH]; intros b E Hb; [change (mjoin []) with (@nil Z) in E|change (mjoin (c :: cs)) with (c ++ mjoin cs) in E].
  - rewrite app_nil_r in E. subst b. destruct Hb as (m' & rest & Hm' & E & Hr).
    pose proof (length_field m rest Hm) as H1. rewrite <-E in H1.
    pose proof (length_field m' [] Hm') as H2. rewrite app_nil_r, H1 in H2. injection H2 as H2.
    apply (f_equal buf_length) in E. rewrite buf_length_app, !buf_length_encode in E.
    destruct rest; [done|]. rewrite buf_length_cons in E. pose proof (buf_length_nonneg rest). lia.
  - cbn [settlements]. destruct (decide (mjoin cs = [])) as [Hn|Hn].
    + rewrite Hn, app_nil_r in E. rewrite (push_messages [m] b [] c); [|by rewrite E, bind_cons, !app_nil_r|by constructor|apply unfinished_nil].
      cbn [head fmap option_fmap option_map option_list app]. f_equal.
      rewrite bool_decide_eq_false_2 by done. apply settlements_idle.
      clear -Hn. induction cs as [|x cs IH]; [done|]. change (mjoin (x :: cs)) with (x ++ mjoin cs) in Hn. apply app_eq_nil in Hn as [-> Hn]. constructor; auto.
    + rewrite (push_messages [] b (b ++ c) c).
      * cbn [head fmap option_fmap option_map option_list app andb]. rewrite bool_decide_eq_true_2 by done.
        apply IH; [by rewrite <-(assoc_L (++))|]. exists m, (mjoin cs). by rewrite <-(assoc_L (++)).
      * done.
      * constructor.
      * exists m, (mjoin cs). by rewrite <-(assoc_L (++)).
Qed.
(** A message is reassembled whatever the chunks it is cut into: nothing is
    handed over before its last byte, then exactly that message. *)
Theorem message_reassembled m chunks : sendable m → mjoin chunks = encode m →
  settlements (next empty_reader).1 chunks = [Resolved m].
Proof. intros Hm E. apply settlements_cut; [done|done|apply unfinished_nil]. Qed.
Lemma message_reassembled_witness :
  settlements (next empty_reader).1 [[90; 0]; [0; 0]; []; [5]; [73]] = [Resolved (Message 90 [73])].
Proof. apply (message_reassembled (Message 90 [73])); [by vm_compute|reflexivity]. Defined.

(** Of the messages one chunk completes, the first is handed over and the
    others are dropped: a query sees only the first message of each chunk.  What
    it does with those is the loop over the list of them. *)
Theorem query_sees_heads fuel chunks mss b : arrives [] chunks mss b →
  run_query fuel empty_reader chunks = run_of b (consume fuel (Query None []) (omap head mss)).
Proof. apply run_query_chunks. Qed.

(** When every message arrives in chunks of its own, a query returns all
    rows, each an object of the named columns with the text of its values. *)
Theorem query_returns_rows fuel cs rows complete status chunks mss :
  Forall column_sendable cs → Z.of_nat (length cs) < 2 ^ 15 → Forall row_sendable rows →
  arrives [] chunks mss [] → Forall (λ ms, (length ms ≤ 1)%nat) mss → mjoin mss = reply cs rows complete status →
  run_query fuel empty_reader chunks =
  Over (QueryDone ((λ r, row_object (fields_of cs) (decoded <$> r)) <$> rows) (fields_of cs)).
Proof.
  intros Hcs Hl Hrows Ha H1 E. rewrite (run_query_chunks fuel chunks mss []) by done.
  assert (omap head mss = mjoin mss) as ->.
  { clear -H1. induction H1 as [|[|m [|? ?]] mss Hm _ IH]; [done|exact IH|by cbn; f_equal|simpl in Hm; lia]. }
  rewrite E, consume_reply by done. done.
Qed.

(** A reply that arrives in one chunk, as short replies do, never ends the
    query: the first message is read, the rest is gone, and nothing follows. *)
Theorem one_chunk_never_answered fuel cs rows complete status :
  Forall column_sendable cs → Z.of_nat (length cs) < 2 ^ 15 → Forall sendable (reply cs rows complete status) →
  run_query fuel empty_reader [reply cs rows complete status ≫= encode] = Waiting (Query (Some (fields_of cs)) []) (Reader [] true None).
Proof.
  intros Hcs Hl Hs. rewrite (run_query_chunks fuel _ [reply cs rows complete status] []).
  - cbn [omap list_omap head reply consume]. unfold on_message. cbn [tag body Z.eqb Pos.eqb]. by rewrite parseRowDescription_encode.
  - econstructor; [by rewrite app_nil_r|done|apply unfinished_nil|constructor].
Qed.

(** The listener of the raw socket has read the answer to the request for TLS. *)
Definition misframed (n : Z) : string := "implausible message length " +:+ Z_to_string n.
Lemma settlements_failed b e cs : (∃ n, drain (Reader b false (Some e)) = (Reader b false (Some e), None) ∧ 5 <= buf_length b ∧
    message_length b = n ∧ implausible n = true ∧ e = misframed n) →
  settlements (Reader b false (Some e)) cs = [].
Proof.
  revert b. induction cs as [|c cs IH]; intros b (n & _ & H5 & Hn & Hi & ->); [done|]. cbn [settlements]. unfold push, drain.
  cbn [drain_loop received pending failure]. pose proof (buf_length_nonneg c).
  destruct (Z.ltb_spec (buf_length (b ++ c)) 5) as [Hl|_]; [revert Hl; blen|].
  assert (message_length (b ++ c) = n) as Hm by (unfold message_length in *; by rewrite subarray_1_5).
  rewrite Hm, Hi. cbn [option_list app]. fold (misframed n). apply IH. exists n.
  assert (5 <= buf_length (b ++ c)) by (blen). repeat split; try done. unfold drain. cbn [drain_loop received pending failure].
  destruct (Z.ltb_spec (buf_length (b ++ c)) 5) as [Hl|_]; [lia|]. by rewrite Hm, Hi.
Qed.
Lemma settlements_misframed b cs t : (length b < 4)%nat → head (b ++ mjoin cs) = Some t → 5 <= t → Forall is_byte (b ++ mjoin cs) →
  settlements (Reader (83 :: b) true None) cs = [] ∧ (length (b ++ mjoin cs) < 4)%nat ∨
  ∃ n, MAX_MESSAGE_BYTES < n ∧ settlements (Reader (83 :: b) true None) cs = [Rejected (misframed n)].
Proof.
  intros Hb Ht H5 Hbytes. revert b Hb Ht Hbytes. induction cs as [|c cs IH]; intros b Hb Ht Hbytes.
  { left. split; [done|]. change (mjoin []) with (@nil Z). by rewrite app_nil_r. }
  change (mjoin (c :: cs)) with (c ++ mjoin cs) in *. rewrite (assoc_L (++)) in *.
  cbn [settlements]. unfold push, drain. cbn [received pending failure app drain_loop]. rewrite buf_length_cons.
  destruct (Z.ltb_spec (buf_length (b ++ c) + 1) 5) as [Hl|Hl].
  { cbn [option_list app]. apply IH; [unfold buf_length in *; lia|done|done]. }
  right. assert (∃ x y z rest, b ++ c = t :: x :: y :: z :: rest) as (x & y & z & rest & E).
  { revert Ht Hl. destruct (b ++ c) as [|t' [|x [|y [|z rest]]]]; intros Ht' Hl; rewrite ?buf_length_cons, ?buf_length_nil in Hl; try lia. injection Ht' as ->. eauto. }
  rewrite E in *. assert (message_length (83 :: t :: x :: y :: z :: rest) = ((t * 256 + x) * 256 + y) * 256 + z) as Hm.
  { unfold message_length. change (83 :: t :: x :: y :: z :: rest) with ([83] ++ [t; x; y; z] ++ rest). unfold readUInt32BE.
    by rewrite (read_be_middle 4). }
  rewrite Hm. set (n := ((t * 256 + x) * 256 + y) * 256 + z) in *.
  assert (MAX_MESSAGE_BYTES < n) as Hn.
  { rewrite MAX_value. apply Forall_app in Hbytes as [Hbytes _]. rewrite !Forall_cons in Hbytes. unfold is_byte in Hbytes. lia. }
  exists n. split; [done|]. assert (implausible n = true) as Hi by (unfold implausible; lia). rewrite Hi. cbn [option_list app]. f_equal.
  apply settlements_failed. exists n. fold (misframed n). unfold drain. cbn [drain_loop received pending failure]. rewrite Hm, Hi.
  rewrite buf_length_cons. destruct (Z.ltb_spec (buf_length (t :: x :: y :: z :: rest) + 1) 5); [lia|]. by repeat split.
Qed.

(** No connection is ever established: the byte that accepts TLS is taken
    for the tag of the first message, so whatever the server sends after it, no
    message is handed over, and four bytes are enough to end the connection
    with an implausible length. *)
Theorem connect_never_succeeds r chunks t rest : negotiated [83] = Ok r → mjoin chunks = t :: rest → 5 <= t → Forall is_byte (t :: rest) →
  settlements (next r).1 chunks = [] ∧ (length rest < 3)%nat ∨
  ∃ n, MAX_MESSAGE_BYTES < n ∧ settlements (next r).1 chunks = [Rejected (misframed n)].
Proof.
  intros Hr E Ht Hb. change (Ok (E := string) (Reader [83] false None) = Ok r) in Hr. injection Hr as <-.
  destruct (settlements_misframed [] chunks t) as [[H1 H2]|Hn]; [simpl; lia|cbn [app]; by rewrite E|done|cbn [app]; by rewrite E|left|by right].
  split; [done|]. cbn [app] in H2. rewrite E in H2. simpl in H2. lia.
Qed.
Lemma connect_never_succeeds_witness :
  settlements (next (Reader [83] false None)).1 [encode (Message 82 (int32 0))] = [Rejected (misframed 1375731712)].
Proof.
  destruct (connect_never_succeeds (Reader [83] false None) [encode (Message 82 (int32 0))] 82 [0; 0; 0; 8; 0; 0; 0; 0]) as [[H _]|(n & _ & H)];
    [reflexivity|reflexivity|lia|repeat (apply Forall_cons_2; [unfold is_byte; lia|]); apply Forall_nil_2| |].
  - vm_compute in H. discriminate.
  - reflexivity.
Defined.

(** ** Theorems: the parsers *)

(** C25. The row parser accepts exactly the encodings of rows, with anything
    after them: it answers with values when, and only when, the bytes begin
    with a count and that many columns, and the values are their text. *)
Theorem data_row_exact b vs : Forall is_byte b →
  parse_values b = Ok vs ↔
  ∃ cols post, b = encode_row cols ++ post ∧ row_sendable cols ∧ vs = decoded <$> cols.
Proof.
  intros Hb. split.
  - unfold parse_values. destruct (readInt16BE 0 b) as [count|] eqn:Hc; [|done].
    destruct (read_int16_inv _ _ Hb Hc) as (Hcb & b' & ->). apply Forall_app in Hb as [_ Hb'].
    destruct (Z.ltb_spec count 0); [done|]. rewrite <-(buf_length_int16 count). intros Hv.
    destruct (row_values_sound _ _ _ _ _ Hb' Hv) as (cols & post & -> & Hn & Hok & ->).
    exists cols, post. unfold encode_row, row_sendable. rewrite Hn, Z2Nat.id by lia.
    split; [by rewrite <-(assoc_L (++))|]. split; [|done]. split; [done|lia].
  - intros (cols & post & -> & [Hc Hl] & ->). by apply parse_values_encode.
Qed.
Lemma data_row_exact_witness : parse_values (encode_row [Some [52; 50]; None] ++ [7]) = Ok [Some "42"; None].
Proof.
  change (encode_row [Some [52; 50]; None] ++ [7]) with [0; 2; 0; 0; 0; 2; 52; 50; 255; 255; 255; 255; 7].
  apply data_row_exact; [repeat (apply Forall_cons_2; [unfold is_byte; lia|]); apply Forall_nil_2|]. exists [Some [52; 50]; None], [7].
  split; [reflexivity|]. split; [|reflexivity]. split; [repeat constructor; cbn; unfold buf_length; simpl; lia|simpl; lia].
Defined.

(** Column names and types are read back as sent, and so is an error with
    its fields; but an error whose last text lacks its zero byte is read for
    ever: no number of rounds is enough. *)
Theorem descriptions_and_errors_read cs fs c t : Forall column_sendable cs → Z.of_nat (length cs) < 2 ^ 15 →
  Forall field_sendable fs → 0 < c → 0 ∉ t → t ≠ [] →
  parseRowDescription (encode_description cs) = Ok (fields_of cs) ∧
  (∀ fuel, (length fs < fuel)%nat → error_fields fuel (encode_error fs) 0 ∅ = Some (from_entries fs)) ∧
  (∀ fuel, parseErrorResponse fuel (error_bytes fs ++ c :: t) = None).
Proof.
  intros Hcs Hl Hfs Hc H0 Ht. split; [by apply parseRowDescription_encode|]. split.
  - intros fuel Hf. pose proof (error_fields_encode fs [] [0] ∅ Hfs ltac:(done) (fuel - length fs)) as E.
    replace (length fs + (fuel - length fs))%nat with fuel in E by lia. unfold encode_error. cbn [app] in E.
    change (buf_length []) with 0 in E. rewrite E. destruct (fuel - length fs)%nat as [|k] eqn:Hk; [lia|]. cbn [error_fields].
    destruct (Z.ltb_spec (buf_length (error_bytes fs)) (buf_length (error_bytes fs ++ [0]) - 1)) as [Hlt|]; [revert Hlt; blen|]. done.
  - intros fuel. unfold parseErrorResponse. by rewrite (error_fields_again fs c t fuel Hfs Hc H0 Ht [] fs ∅).
Qed.
Definition n_field : column := Column "n" [0; 0; 0; 0; 0; 0] 20 [0; 8; 255; 255; 255; 255; 0; 0].
Lemma text_sendable s : forallb (λ c, (0 <? code c) && (code c <? 128)) (chars s) = true → sendable_text s.
Proof.
  intros Hs. rewrite forallb_forall in Hs. split.
  - unfold string_bytes. intros (c & Hc & Hin)%list_elem_of_fmap. apply list_elem_of_In, Hs in Hin. lia.
  - apply to_utf8_ascii, Forall_forall. intros c Hc%list_elem_of_In%Hs. unfold is_ascii_char. lia.
Qed.
Lemma n_field_sendable : column_sendable n_field.
Proof. split; [by apply text_sendable|]. repeat split; cbn; lia. Qed.
Lemma descriptions_and_errors_read_witness :
  parseRowDescription (encode_description [n_field]) = Ok [Field "n" 20] ∧
  error_fields 4 (encode_error [(83, "FATAL"); (67, "28P01")]) 0 ∅ = Some {[83 := "FATAL"; 67 := "28P01"]} ∧
  parseErrorResponse 1000 [83; 70; 0; 67; 50; 56] = None.
Proof.
  destruct (descriptions_and_errors_read [n_field] [(83, "FATAL"); (67, "28P01")] 67 [50; 56]) as (H1 & H2 & _);
    [by constructor; [apply n_field_sendable|]|simpl; lia|repeat (apply Forall_cons_2; [split; [cbn; lia|by apply text_sendable]|]); apply Forall_nil_2|lia| |done|].
  { apply (bool_decide_unpack _). vm_compute. exact I. }
  destruct (descriptions_and_errors_read [n_field] [(83, "F")] 67 [50; 56]) as (_ & _ & H3);
    [by constructor; [apply n_field_sendable|]|simpl; lia|repeat (apply Forall_cons_2; [split; [cbn; lia|by apply text_sendable]|]); apply Forall_nil_2|lia| |done|].
  { apply (bool_decide_unpack _). vm_compute. exact I. }
  split; [exact H1|]. split; [|exact (H3 1000%nat)]. rewrite H2 by (simpl; lia). vm_compute. reflexivity.
Defined.

Lemma query_sees_heads_witness :
  run_query 9 empty_reader [encode (Message 67 [0]) ++ encode (Message 90 [73])] = Waiting (Query None []) (Reader [] true None).
Proof.
  rewrite (query_sees_heads 9 _ [[Message 67 [0]; Message 90 [73]]] []); [reflexivity|].
  econstructor; [reflexivity|repeat (apply Forall_cons_2; [by vm_compute|]); apply Forall_nil_2|apply unfinished_nil|constructor].
Defined.
Lemma own_chunks ms : Forall sendable ms → arrives [] (encode <$> ms) ((λ m, [m]) <$> ms) [].
Proof.
  induction 1 as [|m ms Hm _ IH]; [constructor|]. rewrite !fmap_cons.
  apply (arrives_cons _ _ [m] []); [by rewrite bind_cons, !app_nil_r|by constructor|apply unfinished_nil|exact IH].
Qed.
Lemma n_reply_sendable : Forall sendable (reply [n_field] [[Some [52; 50]]] [83; 0] 73).
Proof. repeat (apply Forall_cons_2; [by vm_compute|]). apply Forall_nil_2. Qed.
Lemma n_row_sendable : row_sendable [Some [52; 50]].
Proof. split; [repeat constructor; cbn; unfold buf_length; simpl; lia|simpl; lia]. Qed.
Lemma query_returns_rows_witness :
  run_query 9 empty_reader (encode <$> reply [n_field] [[Some [52; 50]]] [83; 0] 73) =
  Over (QueryDone [RowObject {["n" := Some "42"]}] [Field "n" 20]).
Proof.
  rewrite (query_returns_rows 9 [n_field] [[Some [52; 50]]] [83; 0] 73 _ ((λ m, [m]) <$> reply [n_field] [[Some [52; 50]]] [83; 0] 73));
    [reflexivity|by constructor; [apply n_field_sendable|]|simpl; lia|by constructor; [apply n_row_sendable|]|
     apply own_chunks, n_reply_sendable|by repeat constructor|reflexivity].
Defined.
Lemma one_chunk_never_answered_witness :
  run_query 9 empty_reader [reply [n_field] [[Some [52; 50]]] [83; 0] 73 ≫= encode] = Waiting (Query (Some [Field "n" 20]) []) (Reader [] true None).
Proof. apply (one_chunk_never_answered 9 [n_field]); [by constructor; [apply n_field_sendable|]|simpl; lia|apply n_reply_sendable]. Defined.

(** ** Theorems: passwords *)

(** The proof of a SCRAM exchange is the one a server accepts: for a nonce
    that extends the client's, any salt and any iteration count, the response
    carries the nonce of the server and a proof from which the server's check
    gets the stored key back, and the expected signature is the server's. *)
Theorem scram_proof_verifies sha256 hmac pbkdf2 password username clientNonce ext salt iterations :
  (∀ k m, length (hmac k m) = 32%nat ∧ Forall is_byte (hmac k m)) →
  ","%char ∉ chars (clientNonce +:+ ext) → clientNonce +:+ ext ≠ "" → Forall is_byte salt → 1 <= iterations →
  let nonce := clientNonce +:+ ext in
  let first := server_first nonce salt iterations in
  let salted := pbkdf2 password salt iterations in
  let msg := string_bytes (auth_message username clientNonce first nonce) in
  ∃ p b64, scramClientProof sha256 hmac pbkdf2 password username clientNonce first = Ok p ∧
    attributes (clientFinal p) !! "r" = Some nonce ∧ attributes (clientFinal p) !! "p" = Some b64 ∧
    proof_accepted sha256 hmac (sha256 (hmac salted (string_bytes "Client Key"))) msg (from_base64 b64) ∧
    expectedServerSignature p = to_base64 (hmac (hmac salted (string_bytes "Server Key")) msg).
Proof.
  intros Hh Hc Hne Hs Hi nonce first salted msg.
  set (key := hmac salted (string_bytes "Client Key")). set (proof := xor_bytes key (hmac (sha256 key) msg)).
  assert (Forall is_byte proof) as Hp by (apply xor_bytes_bytes; apply Hh).
  eexists _, (to_base64 proof). split; [by apply scramClientProof_value|]. cbn [clientFinal expectedServerSignature].
  fold nonce first salted msg key proof.
  assert (attributes ("c=biws,r=" +:+ nonce +:+ ",p=" +:+ to_base64 proof) =
    <["p" := to_base64 proof]> (<["r" := nonce]> {["c" := "biws"]})) as ->.
  { unfold attributes. change ("c=biws,r=" +:+ nonce +:+ ",p=" +:+ to_base64 proof) with
      (("c" +:+ "=" +:+ "biws") +:+ "," +:+ ("r" +:+ "=" +:+ nonce +:+ "," +:+ "p" +:+ "=" +:+ to_base64 proof)).
    rewrite (text_assoc "=" nonce), (text_assoc "r").
    change (("c" +:+ "=" +:+ "biws") +:+ "," +:+ ("r" +:+ "=" +:+ nonce) +:+ "," +:+ "p" +:+ "=" +:+ to_base64 proof) with
      (String.concat (String "," "") ["c" +:+ "=" +:+ "biws"; "r" +:+ "=" +:+ nonce; "p" +:+ "=" +:+ to_base64 proof]).
    rewrite split_on_concat; [|done|].
    - cbn [fmap list_fmap]. rewrite (attribute_split "c"), (attribute_split "r"), (attribute_split "p")
        by (apply (bool_decide_unpack _); vm_compute; exact I). done.
    - repeat apply Forall_cons_2; [apply (bool_decide_unpack _); vm_compute; exact I| | |by apply Forall_nil_2];
        (apply no_comma_app; [apply (bool_decide_unpack _); vm_compute; exact I|]);
        (apply no_comma_app; [apply (bool_decide_unpack _); vm_compute; exact I|]); [done|by apply to_base64_no_comma]. }
  split; [by rewrite lookup_insert_ne, lookup_insert_eq by done|]. split; [by rewrite lookup_insert_eq|]. split; [|done].
  unfold proof_accepted. rewrite from_to_base64 by done. unfold proof. rewrite xor_twice; [done|].
  transitivity 32%nat; [|symmetry]; apply Hh.
Qed.
Definition toy_hmac (k m : buffer) : buffer := take 32 (((λ x, (x + big_endian k) mod 256) <$> m) ++ replicate 32 7).
Lemma toy_hmac_ok k m : length (toy_hmac k m) = 32%nat ∧ Forall is_byte (toy_hmac k m).
Proof.
  unfold toy_hmac. split; [rewrite length_take, length_app, length_replicate; lia|].
  apply Forall_take, Forall_app. split; [|by apply Forall_replicate; unfold is_byte; lia].
  apply Forall_fmap, Forall_true. intros x. cbn. unfold is_byte. pose proof (Z.mod_pos_bound (x + big_endian k) 256). lia.
Qed.
Lemma scram_proof_verifies_witness : ∃ p b64,
  scramClientProof (λ b, b) toy_hmac (λ _ b _, b) "pencil" "user" "abc" (server_first "abcxyz" [1; 2; 3] 4096) = Ok p ∧
  attributes (clientFinal p) !! "p" = Some b64.
Proof.
  destruct (scram_proof_verifies (λ b, b) toy_hmac (λ _ b _, b) "pencil" "user" "abc" "xyz" [1; 2; 3] 4096) as (p & b64 & H1 & _ & H2 & _);
    [apply toy_hmac_ok| |done|repeat (apply Forall_cons_2; [unfold is_byte; lia|]); apply Forall_nil_2|lia|].
  - apply (bool_decide_unpack _). vm_compute. exact I.
  - by exists p, b64.
Defined.

(** The login loop never completes such an exchange: it checks the final
    signature already on the first message, which has none, so every correct
    first message of a server ends the connection. *)
Theorem scram_login_fails md5 sha256 hmac pbkdf2 fuel l ext salt iterations :
  let nonce := l_nonce l +:+ ext in
  ","%char ∉ chars nonce → nonce ≠ "" → Forall is_ascii_char (chars nonce) → Forall is_byte salt → 1 <= iterations →
  authenticate_step md5 sha256 hmac pbkdf2 fuel l (Message 82 (int32 11 ++ string_bytes (server_first nonce salt iterations))) =
  AuthFailed "SCRAM server signature mismatch".
Proof.
  intros nonce Hc Hne Ha Hs Hi. unfold authenticate_step. cbn [tag body Z.eqb Pos.eqb negb].
  pose proof (readInt32BE_at 0 [] 11 (string_bytes (server_first nonce salt iterations)) eq_refl ltac:(lia)) as Hr. cbn [app] in Hr.
  rewrite Hr. cbn [Z.eqb Pos.eqb]. rewrite subarray_from_at by (by rewrite buf_length_int32).
  unfold verifyScram. rewrite first_text by (done || lia). rewrite type_text_attributes by (done || lia).
  rewrite to_utf8_ascii.
  - unfold nonce at 1. rewrite scramClientProof_value by done. cbn [expectedServerSignature].
    rewrite !(lookup_insert_ne _ _ "e"), !(lookup_insert_ne _ _ "v"), !lookup_singleton_ne by done. done.
  - unfold server_first. cbn [String.concat]. rewrite !string_app_chars, !Forall_app.
    repeat split; first [done|by apply to_base64_ascii|by apply digits_ascii; lia|by repeat constructor].
Qed.
Lemma scram_login_fails_witness :
  authenticate_step (λ _, "") (λ b, b) toy_hmac (λ _ b _, b) 9 (Login "user" "pencil" "abc" "")
    (Message 82 (int32 11 ++ string_bytes (server_first "abcxyz" [1; 2; 3] 4096))) = AuthFailed "SCRAM server signature mismatch".
Proof.
  apply (scram_login_fails (λ _, "") (λ b, b) toy_hmac (λ _ b _, b) 9 (Login "user" "pencil" "abc" "") "xyz");
    [|done|by vm_compute; repeat constructor|repeat (apply Forall_cons_2; [unfold is_byte; lia|]); apply Forall_nil_2|lia].
  apply (bool_decide_unpack _). vm_compute. exact I.
Defined.
