(* ===== verification/BackupVerify.v ===== *)
(** * The verification of backups

    infra/lambda/backup-verify/index.js (terraform/lambdas/backup-verify/index.js
    is the same file): polling with a deadline, the removal of leftovers, the
    restore of the newest snapshot, the row counts, and a run with its clean-up
    and its metric.  The services are a parameter: what they answer to a command
    may depend on everything sent before. *)
From stdpp Require Import list.
From S2P Require Import Prelude ArraySort.

(** ** The services *)

Record error := Error { e_name : string; e_message : string }.
(** [throw new Error(m)] and [throw new CheckFailure(m)], whose name is the one
    it inherits. *)
Definition plain_error (m : string) : error := Error "Error" m.
Definition CheckFailure (m : string) : error := Error "Error" m.

Inductive command :=
| ListTagged (prefix : string)
| Describe (id : string)
| Delete (id : string)
| ListSnapshots (source : string)
| RestoreSnapshot (id snapshot : string)
| PutMetric (value : Z)
| Connect (host : string)
| Query (sql : string)
| EndConnection.
#[global] Instance command_eq_dec : EqDecision command.
Proof. solve_decision. Defined.

Record instance := Instance_ { i_id : string; i_status : option string; i_endpoint : option string }.
Record snapshot := Snapshot { s_id : string; s_created : Z }.

(** The clock and the commands sent so far. *)
Record world := World { clock : Z; trace : list command }.

(** What the services answer, and after how long.  A row of a result has the
    value of the column [n], [None] for null. *)
Record services := Services {
  list_tagged : world → string → result error (list instance) * Z;
  describe : world → string → result error (list instance) * Z;
  delete : world → string → result error unit * Z;
  list_snapshots : world → string → result error (list snapshot) * Z;
  restore : world → string → string → result error unit * Z;
  put_metric : world → Z → result error unit * Z;
  open_connection : world → string → result error unit * Z;
  run_sql : world → string → result error (list (option string)) * Z }.

Definition send {A} (c : command) (answer : world → result error A * Z) : M world error A :=
  λ w, ((answer w).1, World (clock w + Z.max 0 (answer w).2) (trace w ++ [c])).

(** ** Configuration *)

Record config_t := Config {
  sourceInstance : string; dbUser : string; dbPassword : string; dbName : string; dbPort : number;
  securityGroupIds : list string; instanceClass : string; identifierPrefix : string; tables : list string;
  namespace : string; metricName : string; environment : string;
  restoreTimeoutMs : number; deleteTimeoutMs : number; pollIntervalMs : number }.

Section config.
(** [process.env] and [Number] of a text. *)
Context (env : string → option string) (Number : string → number).
Definition required (name : string) : result error string :=
  match env name with
  | Some v => if truthy v then Ok v else Err (plain_error (name +:+ " is not set"))
  | None => Err (plain_error (name +:+ " is not set"))
  end.
Definition env_number (name : string) (d : Z) : number := match env name with Some v => Number v | None => Some d end.
Definition and_then {A B} (r : result error A) (f : A → result error B) : result error B :=
  match r with Ok a => f a | Err e => Err e end.
Definition config : result error config_t :=
  and_then (required "SOURCE_DB_INSTANCE_ID") (λ source,
  and_then (required "DB_USERNAME") (λ user,
  and_then (required "DB_PASSWORD") (λ password,
  and_then (required "DB_NAME") (λ name,
  and_then (required "SECURITY_GROUP_IDS") (λ groups,
  and_then (required "EXPECTED_TABLES") (λ expected,
  Ok (Config source user password name (env_number "DB_PORT" 5432)
    (comma_list groups) (default "db.t3.micro" (env "RESTORE_INSTANCE_CLASS"))
    (default "vesting-restore-test" (env "RESTORE_ID_PREFIX")) (comma_list expected)
    (default "VestingApp" (env "METRIC_NAMESPACE")) (default "BackupRestoreSuccess" (env "METRIC_NAME"))
    (default "unknown" (env "ENVIRONMENT"))
    (env_number "RESTORE_TIMEOUT_MS" (30 * 60 * 1000)) (env_number "DELETE_TIMEOUT_MS" (10 * 60 * 1000))
    (env_number "POLL_INTERVAL_MS" (30 * 1000))))))))).
End config.

(** ** Polling *)

(** [sleep]: a timer of less than a millisecond, or of NaN, takes one. *)
Definition sleep (ms : number) : M world error unit :=
  λ w, (Ok tt, World (clock w + match ms with Some n => Z.max 1 n | None => 1 end) (trace w)).
Definition number_add (a b : number) : number := x ← a; y ← b; Some (x + y).
(** [a >= b] *)
Definition number_ge (a b : number) : bool := match a, b with Some x, Some y => y <=? x | _, _ => false end.
Definition seconds_text (ms : number) : string := match ms with Some n => Z_to_string ((n + 500) / 1000) | None => "NaN" end.

Inductive probed (A : Type) := Done (value : A) | Going (detail : option string).
Arguments Done {A} value.
Arguments Going {A} detail.

Definition out_of_fuel : error := Error "out of fuel" "".
Definition timed_out (timeoutMs : number) (description : string) (last : option string) : error :=
  plain_error ("timed out after " +:+ seconds_text timeoutMs +:+ "s waiting for " +:+ description +:+
    match last with Some l => if truthy l then " (last seen: " +:+ l +:+ ")" else "" | None => "" end).

Fixpoint poll {A} (fuel : nat) (probe : M world error (probed A)) (deadline timeoutMs intervalMs : number) (description : string) :
    M world error A :=
  match fuel with
  | O => throw out_of_fuel
  | S fuel' =>
      let! state := probe in
      match state with
      | Done v => ret v
      | Going last =>
          let! w := get in
          if number_ge (number_add (Some (clock w)) intervalMs) deadline then throw (timed_out timeoutMs description last)
          else sleep intervalMs ;;; poll fuel' probe deadline timeoutMs intervalMs description
      end
  end.
Definition waitFor {A} (fuel : nat) (probe : M world error (probed A)) (timeoutMs intervalMs : number) (description : string) : M world error A :=
  let! w := get in poll fuel probe (number_add (Some (clock w)) timeoutMs) timeoutMs intervalMs description.

(** ** The steps of a run *)

Section run.
Context (rds : services) (cfg : config_t) (fuel : nat).
(** [new Date(ms).toISOString()] and [Number] of a text. *)
Context (toISOString : Z → string) (Number : string → number).

Definition isNotFound (e : error) : bool :=
  bool_decide (e_name e = "DBInstanceNotFound") || bool_decide (e_name e = "DBInstanceNotFoundFault").

Definition delete_instance (id : string) : M world error unit := send (Delete id) (λ w, delete rds w id).
(** The tag is only in the filter of the request; the code checks the prefix. *)
Definition deleteStrayInstances : M world error nat :=
  let! listed := send (ListTagged (identifierPrefix cfg)) (λ w, list_tagged rds w (identifierPrefix cfg)) in
  let strays := filter (λ db, starts_with (identifierPrefix cfg +:+ "-") (i_id db) = true) listed in
  for_each strays (λ db, delete_instance (i_id db)) ;;; ret (length strays).

Definition describe_instance (id : string) : M world error (option instance) :=
  let! res := send (Describe id) (λ w, describe rds w id) in ret (head res).
Definition gone_probe (id : string) : M world error (probed bool) :=
  try_catch (let! db := describe_instance id in ret (Going (db ≫= i_status)))
    (λ e, if isNotFound e then ret (Done true) else throw e).
Definition waitForDeleted (id : string) : M world error unit :=
  waitFor fuel (gone_probe id) (deleteTimeoutMs cfg) (pollIntervalMs cfg) (id +:+ " to be deleted") ;;; ret tt.

Definition newest (snapshots : list snapshot) : option snapshot := head (stable_sort (descending s_created) snapshots).
Definition latestRestorableSnapshot : M world error string :=
  let! snapshots := send (ListSnapshots (sourceInstance cfg)) (λ w, list_snapshots rds w (sourceInstance cfg)) in
  match newest snapshots with
  | None => throw (plain_error ("no available automated snapshot found for " +:+ sourceInstance cfg +:+
                     "; automated backups may be disabled or expired"))
  | Some s => ret (s_id s)
  end.

Definition nowUtcDigits (ms : Z) : string := of_chars (take 14 (filter (λ c, is_digit c = true) (chars (toISOString ms)))).
Definition is_id_char (c : ascii) : bool := in_range 97 122 c || is_digit c || bool_decide (c = "-"%char).
(** [/^[a-z][a-z0-9-]{0,62}$/] *)
Definition instance_id_re (s : string) : bool :=
  match chars s with
  | c :: l => in_range 97 122 c && forallb is_id_char l && (Z.of_nat (length l) <=? 62)
  | [] => false
  end.
Definition newInstanceId : M world error string :=
  let! w := get in
  let id := identifierPrefix cfg +:+ "-" +:+ nowUtcDigits (clock w) in
  if instance_id_re id then ret id else throw (plain_error ("generated an invalid DB instance identifier: " +:+ id)).

Definition available_probe (id snapshotId : string) : M world error (probed (option instance)) :=
  let! db := describe_instance id in
  match db ≫= i_status with
  | Some status =>
      if bool_decide (status = "available") then ret (Done db)
      else if bool_decide (status = "failed") || bool_decide (status = "incompatible-restore") then
        throw (CheckFailure ("restore of " +:+ snapshotId +:+ " ended in state " +:+ status))
      else ret (Going (Some status))
  | None => ret (Going None)
  end.
Definition restoreSnapshot (snapshotId : string) : M world error string :=
  let! id := newInstanceId in
  send (RestoreSnapshot id snapshotId) (λ w, restore rds w id snapshotId) ;;;
  waitFor fuel (available_probe id snapshotId) (restoreTimeoutMs cfg) (pollIntervalMs cfg) (id +:+ " to become available") ;;;
  ret id.

(** [/^[a-z_][a-z0-9_]*$/] *)
Definition table_re (s : string) : bool :=
  match chars s with
  | c :: l => (in_range 97 122 c || bool_decide (c = "_"%char)) &&
              forallb (λ c, in_range 97 122 c || is_digit c || bool_decide (c = "_"%char)) l
  | [] => false
  end.
Definition quoted (s : string) : string := String (chr 34) (s +:+ String (chr 34) "").
Definition count_sql (table : string) : string := "SELECT count(*)::bigint AS n FROM " +:+ quoted table.
(** [Number(rows[0]?.n)] *)
Definition row_count (rows : list (option string)) : number :=
  match rows with
  | [] => NaN
  | None :: _ => Some 0
  | Some s :: _ => Number s
  end.
Definition count_table (counts : gmap string Z) (table : string) : M world error (gmap string Z) :=
  if negb (table_re table) then throw (CheckFailure ("refusing to query unexpected table name: " +:+ table))
  else
    let! rows := send (Query (count_sql table)) (λ w, run_sql rds w (count_sql table)) in
    match row_count rows with
    | Some n => if n <? 0 then throw (CheckFailure ("could not read a row count for " +:+ table)) else ret (<[table := n]> counts)
    | None => throw (CheckFailure ("could not read a row count for " +:+ table))
    end.
(** [finally { db.end() }] *)
Definition with_end {A} (m : M world error A) : M world error A :=
  λ w, let '(r, w') := m w in (r, World (clock w') (trace w' ++ [EndConnection])).
Definition verifyTables (endpoint : string) : M world error (gmap string Z) :=
  send (Connect endpoint) (λ w, open_connection rds w endpoint) ;;;
  with_end (fold_each (tables cfg) ∅ count_table).

(** The [try] block of the run: the instance it knows of, and how it ended.  The
    identifier is assigned when [restoreSnapshot] has returned. *)
Definition restored : M world error string := let! s := latestRestorableSnapshot in restoreSnapshot s.
Definition check_restored (id : string) : M world error (gmap string Z) :=
  let! db := describe_instance id in
  match db ≫= i_endpoint with
  | Some endpoint => if truthy endpoint then verifyTables endpoint else throw (CheckFailure (id +:+ " has no endpoint to connect to"))
  | None => throw (CheckFailure (id +:+ " has no endpoint to connect to"))
  end.
Definition attempt (w : world) : option string * result error (gmap string Z) * world :=
  match restored w with
  | (Err e, w1) => (None, Err e, w1)
  | (Ok id, w1) => let '(r, w2) := check_restored id w1 in (Some id, r, w2)
  end.
Definition swallow (m : M world error unit) : M world error unit := try_catch m (λ _, ret tt).
Definition clean_up (id : option string) : M world error unit :=
  match id with
  | Some id => swallow (delete_instance id ;;; waitForDeleted id)
  | None => ret tt
  end.
Definition publishMetric (value : Z) : M world error unit := send (PutMetric value) (λ w, put_metric rds w value).

(** The result of a run: the instance, the counts and the duration. *)
Definition runBackupVerify : M world error (string * gmap string Z * Z) :=
  let! started := get in
  deleteStrayInstances ;;;
  (λ w,
    let '(id, r, w1) := attempt w in
    let w2 := (clean_up id w1).2 in
    let w3 := (swallow (publishMetric (if is_ok r then 1 else 0)) w2).2 in
    (match r with Ok counts => Ok (default "" id, counts, clock w3 - clock started) | Err e => Err e end, w3)).
Definition runCleanup : M world error nat := deleteStrayInstances.
End run.
(** [handler]: the configuration is read first; without it nothing is sent. *)
Definition handler (rds : services) (fuel : nat) (toISOString : Z → string) (Number : string → number)
    (env : string → option string) (action : option string) : M world error (option (string * gmap string Z * Z)) :=
  match config env Number with
  | Err e => throw e
  | Ok cfg =>
      if decide (action = Some "cleanup") then runCleanup rds cfg ;;; ret None
      else let! r := runBackupVerify rds cfg fuel toISOString Number in ret (Some r)
  end.

(** ** Lemmas: polling *)

Lemma poll_ends {A} fuel (probe : M world error (probed A)) deadline t i desc w :
  (∀ w, clock w <= clock (probe w).2) → 1 <= i → (0 < fuel)%nat → deadline - clock w <= Z.of_nat fuel * i →
  ∃ w1, clock w <= clock w1 ∧ (w1 = w ∨ clock w1 < deadline) ∧
    poll fuel probe (Some deadline) t (Some i) desc w =
      match probe w1 with
      | (Err e, w2) => (Err e, w2)
      | (Ok (Done v), w2) => (Ok v, w2)
      | (Ok (Going l), w2) => (Err (timed_out t desc l), w2)
      end ∧
    (∀ l w2, probe w1 = (Ok (Going l), w2) → deadline <= clock w2 + i).
Proof.
  intros Hp Hi. revert w. induction fuel as [|fuel IH]; intros w Hf Hd; [lia|]. clear Hf.
  cbn [poll]. unfold bind at 1. pose proof (Hp w) as Hw. destruct (probe w) as [[[v|l]|e] w2] eqn:E; cbn [snd] in Hw.
  - exists w. rewrite E. split; [lia|]. split; [by left|]. by split.
  - unfold bind at 1, get at 1. cbn [number_add mbind option_bind number_ge].
    destruct (Z.leb_spec deadline (clock w2 + i)) as [Hge|Hlt].
    + exists w. rewrite E. split; [lia|]. split; [by left|]. split; [done|]. by intros l' w2' [= _ <-].
    + unfold bind at 1, sleep at 1. rewrite Z.max_r by lia.
      destruct (IH (World (clock w2 + i) (trace w2))) as (w1 & H1 & H2 & H3 & H4).
      { destruct fuel; [|lia]. cbn in Hd. lia. } { cbn [clock]. lia. }
      cbn [clock] in *. exists w1. split; [lia|]. split; [|done]. right. destruct H2 as [->|]; cbn [clock]; lia.
  - exists w. rewrite E. split; [lia|]. split; [by left|]. by split.
Qed.

(** ** Lemmas: what is sent *)

(** Every command [m] sends satisfies [P]. *)
Definition emits {A} (P : command → Prop) (m : M world error A) : Prop :=
  ∀ w, ∃ cs, trace (m w).2 = trace w ++ cs ∧ Forall P cs.
Section emits.
Context (P : command → Prop).
Lemma emits_quiet {A} (m : M world error A) : (∀ w, trace (m w).2 = trace w) → emits P m.
Proof. intros H w. exists []. by rewrite app_nil_r. Qed.
Lemma emits_ret {A} (a : A) : emits P (ret a). Proof. by apply emits_quiet. Qed.
Lemma emits_throw {A} e : emits P (throw (A := A) e). Proof. by apply emits_quiet. Qed.
Lemma emits_get : emits P get. Proof. by apply emits_quiet. Qed.
Lemma emits_sleep ms : emits P (sleep ms). Proof. by apply emits_quiet. Qed.
Lemma emits_send {A} c (f : world → result error A * Z) : P c → emits P (send c f).
Proof. intros Hc w. exists [c]. by split; [|constructor]. Qed.
Lemma emits_seq {A B} (m : M world error A) (k : result error A → M world error B) :
  emits P m → (∀ r, emits P (k r)) → emits P (λ w, let '(r, w') := m w in k r w').
Proof.
  intros Hm Hk w. destruct (Hm w) as (cs & E & Hcs). destruct (m w) as [r w']. cbn [snd] in *.
  destruct (Hk r w') as (cs' & E' & Hcs'). exists (cs ++ cs'). rewrite E', E, (assoc_L (++)). split; [done|]. by apply Forall_app.
Qed.
Lemma emits_bind {A B} (m : M world error A) (k : A → M world error B) : emits P m → (∀ a, emits P (k a)) → emits P (bind m k).
Proof.
  intros Hm Hk w. destruct (emits_seq m (λ r, match r with Ok a => k a | Err e => throw e end) Hm) with (w := w) as (cs & E & H).
  { intros [a|e]; [apply Hk|apply emits_throw]. }
  exists cs. split; [|done]. rewrite <-E. unfold bind. by destruct (m w) as [[a|e] w'].
Qed.
Lemma emits_try {A} (m : M world error A) h : emits P m → (∀ e, emits P (h e)) → emits P (try_catch m h).
Proof.
  intros Hm Hk w. destruct (emits_seq m (λ r, match r with Ok a => ret a | Err e => h e end) Hm) with (w := w) as (cs & E & H).
  { intros [a|e]; [apply emits_ret|apply Hk]. }
  exists cs. split; [|done]. rewrite <-E. unfold try_catch. by destruct (m w) as [[a|e] w'].
Qed.
Lemma emits_for_each {A} (xs : list A) f : (∀ x, x ∈ xs → emits P (f x)) → emits P (for_each xs f).
Proof.
  induction xs as [|x xs IH]; intros Hf; [apply emits_ret|]. apply emits_bind; [apply Hf; by left|]. intros _. apply IH. intros y Hy. apply Hf. by right.
Qed.
Lemma emits_fold_each {A B} (xs : list A) (b : B) f : (∀ b x, emits P (f b x)) → emits P (fold_each xs b f).
Proof. intros Hf. revert b. induction xs as [|x xs IH]; intros b; [apply emits_ret|]. apply emits_bind; [apply Hf|apply IH]. Qed.
Lemma emits_poll {A} fuel (probe : M world error (probed A)) d t i desc : emits P probe → emits P (poll fuel probe d t i desc).
Proof.
  intros Hp. induction fuel as [|fuel IH]; [apply emits_throw|]. cbn [poll]. apply emits_bind; [done|]. intros [v|l]; [apply emits_ret|].
  apply emits_bind; [apply emits_get|]. intros w. case_match; [apply emits_throw|]. apply emits_bind; [apply emits_sleep|]. intros _. apply IH.
Qed.
Lemma emits_waitFor {A} fuel (probe : M world error (probed A)) t i desc : emits P probe → emits P (waitFor fuel probe t i desc).
Proof. intros Hp. apply emits_bind; [apply emits_get|]. intros w. by apply emits_poll. Qed.
End emits.
#[local] Hint Resolve emits_ret emits_throw emits_get emits_sleep emits_send emits_bind emits_try emits_for_each emits_fold_each emits_waitFor : emits.

Section lemmas.
Context (rds : services) (cfg : config_t) (fuel : nat) (toISOString : Z → string) (Number : string → number).
Notation deleteStrayInstances := (deleteStrayInstances rds cfg).
Notation restoreSnapshot := (restoreSnapshot rds cfg fuel toISOString).
Notation restored := (restored rds cfg fuel toISOString).
Notation check_restored := (check_restored rds cfg Number).
Notation attempt := (attempt rds cfg fuel toISOString Number).
Notation clean_up := (clean_up rds cfg fuel).
Notation run := (runBackupVerify rds cfg fuel toISOString Number).

(** An identifier made by this function. *)
Definition own_prefix (id : string) : Prop := starts_with (identifierPrefix cfg +:+ "-") id = true.
Definition own (id : string) : Prop := own_prefix id ∧ instance_id_re id = true.

Section emitted.
Context (P : command → Prop).
Lemma emits_describe id : P (Describe id) → emits P (describe_instance rds id).
Proof. unfold describe_instance. eauto with emits. Qed.
Lemma emits_stray : P (ListTagged (identifierPrefix cfg)) → (∀ id, own_prefix id → P (Delete id)) → emits P deleteStrayInstances.
Proof.
  intros Hl Hd. apply emits_bind; [by apply emits_send|]. intros dbs. apply emits_bind; [|eauto with emits].
  apply emits_for_each. intros db [Hp _]%list_elem_of_filter. by apply emits_send, Hd.
Qed.
Lemma emits_restored : P (ListSnapshots (sourceInstance cfg)) → (∀ id s, own id → P (RestoreSnapshot id s)) → (∀ id, P (Describe id)) →
  emits P restored.
Proof.
  intros Hl Hr Hd. apply emits_bind.
  - apply emits_bind; [by apply emits_send|]. intros ss. destruct (newest ss); eauto with emits.
  - intros s w. unfold BackupVerify.restoreSnapshot, newInstanceId. unfold bind at 1 2, get at 1.
    set (id := identifierPrefix cfg +:+ "-" +:+ nowUtcDigits toISOString (clock w)).
    destruct (instance_id_re id) eqn:Hid; [|by exists []; rewrite app_nil_r]. cbn [ret].
    apply emits_bind; [apply emits_send, Hr; split; [|done]|intros _; apply emits_bind; [|eauto with emits]].
    + unfold own_prefix, id. rewrite text_assoc. apply starts_with_app.
    + apply emits_waitFor, emits_bind; [by apply emits_describe|]. intros db. repeat case_match; eauto with emits.
Qed.
Lemma emits_check id : P (Describe id) → (∀ h, P (Connect h)) → P EndConnection → (∀ t, table_re t = true → P (Query (count_sql t))) →
  emits P (check_restored id).
Proof.
  intros Hd Hc He Hq. apply emits_bind; [by apply emits_describe|]. intros db.
  destruct (db ≫= i_endpoint) as [h|]; [|apply emits_throw]. case_match; [|apply emits_throw].
  apply emits_bind; [by apply emits_send|]. intros _. unfold with_end.
  assert (emits P (fold_each (tables cfg) ∅ (count_table rds Number))) as Hf.
  { apply emits_fold_each. intros m t. unfold count_table. destruct (table_re t) eqn:Ht; [|apply emits_throw].
    apply emits_bind; [by apply emits_send, Hq|]. intros rows. repeat case_match; eauto with emits. }
  intros w. destruct (Hf w) as (cs & E & Hcs). destruct (fold_each _ _ _ w) as [r w']. cbn [snd trace] in *.
  exists (cs ++ [EndConnection]). rewrite E, (assoc_L (++)). split; [done|]. apply Forall_app. by split; [|constructor].
Qed.
Lemma emits_clean_up id : (∀ i, id = Some i → P (Delete i) ∧ P (Describe i)) → emits P (clean_up id).
Proof.
  intros Hid. destruct id as [i|]; [|apply emits_ret]. destruct (Hid i eq_refl) as [Hd Hs].
  apply emits_try; [|eauto with emits]. apply emits_bind; [by apply emits_send|]. intros _.
  apply emits_bind; [|eauto with emits]. apply emits_waitFor, emits_try.
  - apply emits_bind; [by apply emits_describe|]. eauto with emits.
  - intros e. case_match; eauto with emits.
Qed.
End emitted.

Lemma restoreSnapshot_own s w id w' : restoreSnapshot s w = (Ok id, w') → own id.
Proof.
  unfold BackupVerify.restoreSnapshot. intros (id' & w1 & Hid & H)%bind_inv_ok.
  apply bind_inv_ok in H as (? & w2 & _ & H). apply bind_inv_ok in H as (? & w3 & _ & H). injection H as -> _.
  unfold newInstanceId in Hid. apply bind_inv_ok in Hid as (? & ? & [= <- <-] & Hid).
  destruct (instance_id_re _) eqn:Hre; [|done]. injection Hid as <- <-. split; [|done].
  unfold own_prefix. rewrite text_assoc. apply starts_with_app.
Qed.
Lemma attempt_own w id r w' : attempt w = (Some id, r, w') → own id.
Proof.
  unfold BackupVerify.attempt. destruct (restored w) as [[i|e] w1] eqn:E; [|done].
  unfold BackupVerify.restored in E. apply bind_inv_ok in E as (s & w2 & _ & E). apply restoreSnapshot_own in E.
  destruct (check_restored i w1). by intros [= <- <- <-].
Qed.
Lemma attempt_emits P w : P (ListSnapshots (sourceInstance cfg)) → (∀ id s, own id → P (RestoreSnapshot id s)) → (∀ id, P (Describe id)) →
  (∀ h, P (Connect h)) → P EndConnection → (∀ t, table_re t = true → P (Query (count_sql t))) →
  ∃ cs, trace (attempt w).2 = trace w ++ cs ∧ Forall P cs.
Proof.
  intros. unfold BackupVerify.attempt. destruct (emits_restored P) with (w := w) as (cs & E & Hcs); [done..|].
  destruct (restored w) as [[i|e] w1]; cbn [snd] in *; [|by exists cs].
  destruct (emits_check P i) with (w := w1) as (cs' & E' & Hcs'); [done..|].
  destruct (check_restored i w1) as [r w2]. cbn [snd] in *. exists (cs ++ cs'). rewrite E', E, (assoc_L (++)). split; [done|]. by apply Forall_app.
Qed.
End lemmas.

(** ** Theorems *)

(** Polling ends: with an interval of a millisecond or more and one round per
    interval in the budget, the outcome is that of one probe, which began before
    the deadline unless it is the first, and a timeout is reported only when the
    next probe would begin at the deadline or later. *)
Theorem waitFor_bounded {A} fuel (probe : M world error (probed A)) t i desc w :
  (∀ w, clock w <= clock (probe w).2) → 1 <= i → (0 < fuel)%nat → t <= Z.of_nat fuel * i →
  ∃ w1, clock w <= clock w1 ∧ (w1 = w ∨ clock w1 < clock w + t) ∧
    waitFor fuel probe (Some t) (Some i) desc w =
      match probe w1 with
      | (Err e, w2) => (Err e, w2)
      | (Ok (Done v), w2) => (Ok v, w2)
      | (Ok (Going l), w2) => (Err (timed_out (Some t) desc l), w2)
      end ∧
    (∀ l w2, probe w1 = (Ok (Going l), w2) → clock w + t <= clock w2 + i).
Proof.
  intros Hp Hi Hf Ht. unfold waitFor, bind at 1, get at 1. cbn [number_add mbind option_bind]. apply poll_ends; [done..|lia].
Qed.
(** A probe of a thing that is still starting, after [d] milliseconds. *)
Definition slow_probe (d : Z) : M world error (probed string) := λ w, (Ok (Going (Some "creating")), World (clock w + d) (trace w)).
Lemma waitFor_bounded_witness :
  waitFor 4 (slow_probe 5) (Some 100) (Some 30) "db" (World 0 []) =
  (Err (timed_out (Some 100) "db" (Some "creating")), World 75 []).
Proof.
  destruct (waitFor_bounded 4 (slow_probe 5) 100 30 "db" (World 0 [])) as (w1 & _ & _ & _ & _);
    [intros w; simpl; lia|lia|lia|lia|]. vm_compute. reflexivity.
Defined.

(** An interval that is not a number, as any text with a unit gives, makes
    the polling endless: no number of rounds is enough while nothing is done. *)
Theorem nan_interval_never_ends {A} fuel (probe : M world error (probed A)) deadline t desc w :
  (∀ w, ∃ l, (probe w).1 = Ok (Going l)) → (poll fuel probe deadline t NaN desc w).1 = Err out_of_fuel.
Proof.
  intros Hp. revert w. induction fuel as [|fuel IH]; intros w; [done|]. cbn [poll]. unfold bind at 1.
  destruct (Hp w) as [l Hl]. destruct (probe w) as [r w2]. cbn [fst] in Hl. subst r. unfold bind at 1, get at 1.
  assert (number_ge (number_add (Some (clock w2)) NaN) deadline = false) as -> by done. unfold bind at 1. apply IH.
Qed.
Lemma nan_interval_never_ends_witness : (poll 50 (slow_probe 5) (Some 100) (Some 100) NaN "db" (World 0 [])).1 = Err out_of_fuel.
Proof. apply nan_interval_never_ends. intros w. by exists (Some "creating"). Defined.

(** Commands that touch nothing but what this function made: it deletes and
    creates under its own prefix, and its statements count rows of plainly
    named tables. *)
Definition harmless (cfg : config_t) (c : command) : Prop :=
  match c with
  | Delete id => own_prefix cfg id
  | RestoreSnapshot id _ => own cfg id
  | Query sql => ∃ t, table_re t = true ∧ sql = count_sql t
  | _ => True
  end.
(** C27. Whatever the services answer, a run deletes only instances under its own
    prefix, restores only to a fresh identifier of that form, and sends no
    statement but the count of a table whose name is a plain identifier. *)
Theorem run_is_harmless rds cfg fuel toISOString Number w :
  ∃ cs, trace (runBackupVerify rds cfg fuel toISOString Number w).2 = trace w ++ cs ∧ Forall (harmless cfg) cs.
Proof.
  unfold runBackupVerify, bind at 1, get at 1. apply emits_bind; [by apply emits_stray|]. intros n w1.
  destruct (attempt_emits rds cfg fuel toISOString Number (harmless cfg) w1) as (cs & E & Hcs); [done| |done..|intros t Ht; by exists t|].
  { intros id s. cbn. done. }
  destruct (attempt rds cfg fuel toISOString Number w1) as [[id r] w2] eqn:Ha. cbn [snd] in E.
  destruct (emits_clean_up rds cfg fuel (harmless cfg) id) with (w := w2) as (cs2 & E2 & Hcs2).
  { intros i ->. by destruct (attempt_own _ _ _ _ _ _ _ _ _ Ha). }
  assert (Hp : emits (harmless cfg) (swallow (publishMetric rds (if is_ok r then 1 else 0)))).
  { apply emits_try; [by apply emits_send|intros; apply emits_ret]. }
  destruct (Hp (clean_up rds cfg fuel id w2).2) as (cs3 & E3 & Hcs3). cbn [snd].
  exists (cs ++ cs2 ++ cs3). rewrite E3, E2, E, <-!(assoc_L (++)). split; [done|]. by rewrite !Forall_app.
Qed.

(** *** The verdict *)

Lemma count_tables rds Number (m : gmap string Z) ts w m' w' : map_Forall (λ _ n, 0 <= n) m →
  fold_each ts m (count_table rds Number) w = (Ok m', w') →
  Forall (λ t, table_re t = true) ts ∧ dom m' = dom m ∪ list_to_set ts ∧ map_Forall (λ _ n, 0 <= n) m'.
Proof.
  revert m w. induction ts as [|t ts IH]; intros m w Hm.
  - intros [= <- <-]. split; [constructor|]. split; [set_solver|done].
  - cbn [fold_each]. intros (m1 & w1 & H1 & H2)%bind_inv_ok. unfold count_table in H1.
    destruct (table_re t) eqn:Ht; [|done]. cbn [negb] in H1. apply bind_inv_ok in H1 as (rows & w2 & _ & H1).
    destruct (row_count Number rows) as [n|]; [|done]. destruct (Z.ltb_spec n 0); [done|]. injection H1 as <- <-.
    destruct (IH (<[t := n]> m) w2) as (Hf & Hd & Ha); [by apply map_Forall_insert_2|done|].
    split; [by constructor|]. split; [|done]. rewrite Hd, dom_insert_L. set_solver.
Qed.
Lemma check_counts rds cfg Number id w m w' : check_restored rds cfg Number id w = (Ok m, w') →
  Forall (λ t, table_re t = true) (tables cfg) ∧ dom m = list_to_set (tables cfg) ∧ map_Forall (λ _ n, 0 <= n) m.
Proof.
  unfold check_restored. intros (db & w1 & _ & H)%bind_inv_ok. destruct (db ≫= i_endpoint) as [h|]; [|done].
  destruct (truthy h); [|done]. apply bind_inv_ok in H as (? & w2 & _ & H). unfold with_end in H.
  destruct (fold_each _ _ _ w2) as [r w3] eqn:E. injection H as -> <-.
  destruct (count_tables _ _ _ _ _ _ _ (map_Forall_empty _) E) as (Hf & Hd & Ha). split; [done|]. split; [|done]. rewrite Hd. set_solver.
Qed.
Lemma clean_up_deletes rds cfg fuel id w : ∃ cs, trace (clean_up rds cfg fuel (Some id) w).2 = trace w ++ Delete id :: cs ∧
  Forall (λ c, ∀ v, c ≠ PutMetric v) cs.
Proof.
  cbn [clean_up]. unfold swallow, try_catch, bind at 1, delete_instance, send at 1.
  assert (H : emits (λ c, ∀ v, c ≠ PutMetric v) (waitForDeleted rds cfg fuel id)).
  { apply emits_bind; [|intros; apply emits_ret]. apply emits_waitFor, emits_try.
    - apply emits_bind; [by apply emits_describe|]. intros; apply emits_ret.
    - intros e. case_match; [apply emits_ret|apply emits_throw]. }
  destruct (delete rds w id).1 as [[]|e]; [|by exists []].
  destruct (H (World (clock w + Z.max 0 (delete rds w id).2) (trace w ++ [Delete id]))) as (cs & E & Hcs). exists cs. split; [|done].
  cbn [trace] in E. rewrite <-(assoc_L (++)) in E. cbn [app] in E. rewrite <-E.
  by destruct (waitForDeleted _ _ _ _ _) as [[[]|] ?].
Qed.

(** A run that got past its preflight publishes exactly one metric, as its
    last command: 1 when it succeeds and 0 when it fails.  It succeeds only
    after every expected table was counted, and whenever it knows the instance
    it restored, it asks for its deletion. *)
Theorem run_verdict rds cfg fuel toISOString Number w n w1 r w' :
  deleteStrayInstances rds cfg w = (Ok n, w1) → runBackupVerify rds cfg fuel toISOString Number w = (r, w') →
  ∃ cs, trace w' = trace w1 ++ cs ++ [PutMetric (if is_ok r then 1 else 0)] ∧ Forall (λ c, ∀ v, c ≠ PutMetric v) cs ∧
    (∀ id, (attempt rds cfg fuel toISOString Number w1).1.1 = Some id → Delete id ∈ cs) ∧
    match r with
    | Ok (id, counts, _) => (attempt rds cfg fuel toISOString Number w1).1.1 = Some id ∧
        Forall (λ t, table_re t = true) (tables cfg) ∧ dom counts = list_to_set (tables cfg) ∧ map_Forall (λ _ n, 0 <= n) counts
    | Err _ => True
    end.
Proof.
  intros Hd. unfold runBackupVerify, bind at 1, get at 1. unfold bind at 1. rewrite Hd. clear Hd.
  destruct (attempt_emits rds cfg fuel toISOString Number (λ c, ∀ v, c ≠ PutMetric v) w1) as (cs1 & E1 & Hcs1); [done..|].
  destruct (attempt rds cfg fuel toISOString Number w1) as [[id r0] w2] eqn:Ha. cbn [fst snd] in *.
  assert (∃ cs2, trace (clean_up rds cfg fuel id w2).2 = trace w2 ++ cs2 ∧ Forall (λ c, ∀ v, c ≠ PutMetric v) cs2 ∧ (∀ i, id = Some i → Delete i ∈ cs2))
    as (cs2 & E2 & Hcs2 & Hdel).
  { destruct id as [i|]; [|by exists []; rewrite app_nil_r]. destruct (clean_up_deletes rds cfg fuel i w2) as (cs & E & Hcs).
    exists (Delete i :: cs). split; [done|]. split; [by constructor|]. intros ? [= <-]. by left. }
  set (w3 := (clean_up rds cfg fuel id w2).2) in *.
  assert (E3 : ∀ v, trace (swallow (publishMetric rds v) w3).2 = trace w3 ++ [PutMetric v]).
  { intros v. unfold swallow, try_catch, publishMetric, send. by destruct (put_metric rds w3 v).1. }
  intros [= <- <-]. exists (cs1 ++ cs2). split; [|split; [by apply Forall_app|split]].
  - rewrite E3, E2, E1, <-!(assoc_L (++)). by destruct r0.
  - intros i Hi. apply elem_of_app. right. by apply Hdel.
  - destruct r0 as [counts|e]; [|done]. unfold attempt in Ha.
    destruct (restored rds cfg fuel toISOString w1) as [[i|e] wa]; [|done].
    destruct (check_restored rds cfg Number i wa) as [rc wb] eqn:Hc. injection Ha as <- -> <-. split; [done|]. by eapply check_counts.
Qed.

(** An instance whose restore did not become available is not deleted by its
    run: when [restoreSnapshot] throws, nothing is, although the command to
    create the instance may have been sent. *)
Theorem failed_restore_leaks rds cfg fuel toISOString Number w n w1 e w2 :
  deleteStrayInstances rds cfg w = (Ok n, w1) → restored rds cfg fuel toISOString w1 = (Err e, w2) →
  ∃ cs, trace (runBackupVerify rds cfg fuel toISOString Number w).2 = trace w1 ++ cs ∧ ∀ id, Delete id ∉ cs.
Proof.
  intros Hd Hr. unfold runBackupVerify, bind at 1, get at 1. unfold bind at 1. rewrite Hd. unfold attempt. rewrite Hr. cbn [clean_up is_ok snd].
  destruct (emits_restored rds cfg fuel toISOString (λ c, ∀ id, c ≠ Delete id)) with (w := w1) as (cs & E & Hcs); [done..|].
  rewrite Hr in E. cbn [snd] in E.
  assert (∀ v, trace (swallow (publishMetric rds v) w2).2 = trace w2 ++ [PutMetric v]) as E3.
  { intros v. unfold swallow, try_catch, publishMetric, send. by destruct (put_metric rds w2 v).1. }
  exists (cs ++ [PutMetric 0]). rewrite (assoc_L (++)), <-E. split; [apply E3|].
  intros id [Hin|Hin%list_elem_of_singleton]%elem_of_app; [|done]. rewrite Forall_forall in Hcs. by apply (Hcs _ Hin id).
Qed.

(** A preflight that fails ends the run without a metric. *)
Theorem preflight_failure_silent rds cfg fuel toISOString Number w e w1 : deleteStrayInstances rds cfg w = (Err e, w1) →
  runBackupVerify rds cfg fuel toISOString Number w = (Err e, w1) ∧ ∃ cs, trace w1 = trace w ++ cs ∧ ∀ v, PutMetric v ∉ cs.
Proof.
  intros Hd. split; [unfold runBackupVerify, bind at 1, get at 1; unfold bind at 1; by rewrite Hd|].
  destruct (emits_stray rds cfg (λ c, ∀ v, c ≠ PutMetric v)) with (w := w) as (cs & E & Hcs); [done..|].
  rewrite Hd in E. exists cs. split; [done|]. intros v Hin. rewrite Forall_forall in Hcs. by apply (Hcs _ Hin v).
Qed.
(** The snapshot restored is one of those listed, and none is younger. *)
Theorem newest_spec l s : newest l = Some s → s ∈ l ∧ ∀ s', s' ∈ l → s_created s' <= s_created s.
Proof.
  unfold newest. intros Hs. pose proof (stable_sort_sorted (descending s_created) l) as Hsort.
  destruct (stable_sort (descending s_created) l) as [|x l'] eqn:E; [done|]. injection Hs as ->.
  assert (Hin : ∀ y, y ∈ l ↔ y ∈ s :: l') by (intros y; by rewrite <-E, elem_of_stable_sort).
  split; [apply Hin; by left|]. intros s' Hs'. apply Hin, elem_of_cons in Hs' as [->|H]; [done|].
  inversion Hsort as [|? ? ? F]; subst. rewrite Forall_forall in F. specialize (F _ H). unfold not_after, descending in F. lia.
Qed.

(** ** Examples: one year-2026 morning *)

Definition demo_cfg : config_t :=
  Config "prod-db" "u" "p" "vesting" (Some 5432) ["sg"] "db.t3.micro" "vesting-restore-test" ["events"; "claims"]
    "VestingApp" "BackupRestoreSuccess" "prod" (Some 600000) (Some 120000) (Some 30000).
Definition demo_iso (ms : Z) : string := "2026-01-04T03:00:00.000Z".
(** Services that list [strays], restore within a minute unless [stuck], forget
    deleted instances, and count 42 rows. *)
Definition demo (strays : list instance) (stuck : bool) : services :=
  Services (λ _ _, (Ok strays, 100))
    (λ w id, (if bool_decide (Delete id ∈ trace w) then Err (Error "DBInstanceNotFound" "gone")
              else Ok [Instance_ id (Some (if stuck || (clock w <? 60000) then "creating" else "available")) (Some "10.0.0.1")], 200))
    (λ _ _, (Ok tt, 100)) (λ _ _, (Ok [Snapshot "old" 1; Snapshot "new" 3; Snapshot "mid" 2], 100))
    (λ _ _ _, (Ok tt, 100)) (λ _ _, (Ok tt, 100)) (λ _ _, (Ok tt, 50)) (λ _ _, (Ok [Some "42"], 50)).
Definition demo_run (strays : list instance) (stuck : bool) := runBackupVerify (demo strays stuck) demo_cfg 100 demo_iso Z_of_string (World 0 []).
Definition demo_id : string := "vesting-restore-test-20260104030000".

Example demo_passes : (demo_run [] false).1 = Ok (demo_id, {["events" := 42; "claims" := 42]}, 61650).
Proof. vm_compute. reflexivity. Qed.
Lemma run_verdict_witness : ∃ cs, trace (demo_run [] false).2 = [ListTagged "vesting-restore-test"] ++ cs ++ [PutMetric 1] ∧ Delete demo_id ∈ cs.
Proof.
  destruct (run_verdict (demo [] false) demo_cfg 100 demo_iso Z_of_string (World 0 []) 0 (World 100 [ListTagged "vesting-restore-test"])
    (demo_run [] false).1 (demo_run [] false).2) as (cs & E & _ & Hd & _); [reflexivity|apply surjective_pairing|].
  exists cs. split; [|by apply Hd; vm_compute]. rewrite E. reflexivity.
Defined.
Lemma failed_restore_leaks_witness : RestoreSnapshot demo_id "new" ∈ trace (demo_run [] true).2 ∧
  ∃ cs, trace (demo_run [] true).2 = [ListTagged "vesting-restore-test"] ++ cs ∧ ∀ id, Delete id ∉ cs.
Proof.
  split; [apply (bool_decide_unpack _); vm_compute; exact I|].
  apply (failed_restore_leaks (demo [] true) demo_cfg 100 demo_iso Z_of_string (World 0 []) 0 (World 100 [ListTagged "vesting-restore-test"])
    (match (restored (demo [] true) demo_cfg 100 demo_iso (World 100 [ListTagged "vesting-restore-test"])).1 with Err e => e | Ok _ => out_of_fuel end)
    (restored (demo [] true) demo_cfg 100 demo_iso (World 100 [ListTagged "vesting-restore-test"])).2); [reflexivity|vm_compute; reflexivity].
Defined.
Definition denied : services :=
  Services (λ _ _, (Err (Error "AccessDenied" "no"), 100)) (describe (demo [] false)) (delete (demo [] false)) (list_snapshots (demo [] false))
    (restore (demo [] false)) (put_metric (demo [] false)) (open_connection (demo [] false)) (run_sql (demo [] false)).
Lemma preflight_failure_silent_witness :
  runBackupVerify denied demo_cfg 100 demo_iso Z_of_string (World 0 []) = (Err (Error "AccessDenied" "no"), World 100 [ListTagged "vesting-restore-test"]).
Proof. apply (preflight_failure_silent denied demo_cfg 100 demo_iso Z_of_string (World 0 []) (Error "AccessDenied" "no")). reflexivity. Defined.
Lemma newest_spec_witness : Snapshot "new" 3 ∈ [Snapshot "old" 1; Snapshot "new" 3; Snapshot "mid" 2].
Proof. apply (newest_spec [Snapshot "old" 1; Snapshot "new" 3; Snapshot "mid" 2] (Snapshot "new" 3)). reflexivity. Defined.
(** An instance without the tag is deleted when the service lists it: only the
    prefix is checked, although both conditions are said to be. *)
Example untagged_deleted : Delete "vesting-restore-test-keep" ∈ trace (demo_run [Instance_ "vesting-restore-test-keep" (Some "available") None] false).2.
Proof. apply (bool_decide_unpack _). vm_compute. exact I. Qed.
Example missing_password_sends_nothing :
  handler (demo [] false) 100 demo_iso Z_of_string (λ _, None) None (World 0 []) = (Err (plain_error "SOURCE_DB_INSTANCE_ID is not set"), World 0 []).
Proof. reflexivity. Qed.
