(* ===== verification/Rotation.v ===== *)
(** * Rotation of the database password

    terraform/modules/secrets/rotation/index.js: the generated password and its
    URL, the four steps over the versions of the secret, and the probe that logs
    in to PostgreSQL, whose messages are compared with those of [PgWire].  Hashes
    are parameters; Secrets Manager keeps versions with their staging labels, and
    drops a version that has none left. *)
From stdpp Require Import list.
From S2P Require Import Prelude Bytes UrlText PgWire.

(** ** The password *)

Definition PASSWORD_ALPHABET : list ascii :=
  chars "ABCDEFGHIJKLMNOPQRSTUVWXYZabcdefghijklmnopqrstuvwxyz0123456789-_.+!#%^*?".
Definition PASSWORD_LENGTH : Z := 40.
(** [bytes] are those of [crypto.randomBytes]. *)
Definition password_char (b : Z) : ascii :=
  default "A"%char (PASSWORD_ALPHABET !! Z.to_nat (b mod Z.of_nat (length PASSWORD_ALPHABET))).
Definition generatePassword (bytes : buffer) : string := of_chars (password_char <$> take (Z.to_nat PASSWORD_LENGTH) bytes).

Record creds := Creds { username : string; password : string; host : string; port : Z; dbname : string }.
#[export] Instance creds_eq_dec : EqDecision creds.
Proof. solve_decision. Defined.
Definition buildDatabaseUrl (c : creds) (pw : string) : string :=
  "postgres://" +:+ username c +:+ ":" +:+ encodeURIComponent pw +:+ "@" +:+ host c +:+ ":" +:+ Z_to_string (port c) +:+ "/" +:+ dbname c.

(** ** The probe *)

Definition SSL_REQUEST : buffer := [0; 0; 0; 8; 4; 210; 22; 47].
Definition PROTOCOL_3_0 : Z := 196608.
Definition startup (user database : string) : buffer :=
  let params := string_bytes "user" ++ [0] ++ string_bytes user ++ [0] ++ string_bytes "database" ++ [0] ++ string_bytes database ++ [0; 0] in
  int32 (8 + buf_length params) ++ int32 PROTOCOL_3_0 ++ params.
Definition typedMessage (t : Z) (payload : buffer) : buffer := [t] ++ int32 (5 + buf_length payload) ++ payload.
Definition passwordMessage (digest : string) : buffer := typedMessage 112 (string_bytes digest).
Definition queryMessage (sql : string) : buffer := typedMessage 81 (string_bytes sql ++ [0]).

(** [salt.toString("hex")] *)
Definition hex_byte (b : Z) : list ascii :=
  let digit z := chr (if z <? 10 then 48 + z else 87 + z) in [digit (b / 16); digit (b mod 16)].
Definition to_hex (b : buffer) : string := of_chars (b ≫= hex_byte).
Definition md5Digest (md5_hex : buffer → string) (pw user : string) (salt : buffer) : string :=
  "md5" +:+ md5_hex (string_bytes (md5_hex (string_bytes (pw +:+ user)) +:+ to_hex salt)).

Record target := Target { t_user : string; t_password : string; t_database : string; t_query : string }.
(** A probe: how it ended, if it did, and what it wrote, encrypted or not. *)
Inductive ended := Passed | Refused (e : string) | Crashed.
Record probe := Probe { p_buffer : buffer; negotiating : bool; secured : bool; p_ended : option ended; written : list (bool * buffer) }.
Definition finish (e : ended) (p : probe) : probe :=
  Probe (p_buffer p) (negotiating p) (secured p) (match p_ended p with None => Some e | s => s end) (written p).
Definition write (b : buffer) (p : probe) : probe :=
  Probe (p_buffer p) (negotiating p) (secured p) (p_ended p) (written p ++ [(secured p, b)]).

(** [buf.subarray(lo, hi)]: a negative index counts from the end. *)
Definition at_index (n i : Z) : Z := if i <? 0 then Z.max 0 (n + i) else Z.min n i.
Definition slice (lo hi : Z) (b : buffer) : buffer := subarray (at_index (buf_length b) lo) (at_index (buf_length b) hi) b.
Definition slice_from (lo : Z) (b : buffer) : buffer := subarray_from (at_index (buf_length b) lo) b.

Section probe.
Context (md5_hex : buffer → string) (tgt : target).

(** One message; the loop goes on unless the probe has ended.  A message of type
    R without its four bytes throws in the listener of the socket. *)
Definition on_probe_message (t : Z) (b : buffer) (p : probe) : probe :=
  if t =? 82 then
    match readInt32BE 0 b with
    | None => finish Crashed p
    | Some authType =>
        if authType =? 0 then write (queryMessage (t_query tgt)) p
        else if authType =? 5 then write (passwordMessage (md5Digest md5_hex (t_password tgt) (t_user tgt) (subarray 4 8 b))) p
        else finish (Refused ("unsupported postgres auth type " +:+ Z_to_string authType)) p
    end
  else if t =? 90 then finish Passed p
  else if t =? 69 then finish (Refused ("postgres error: " +:+ to_utf8 b)) p
  else p.
Definition with_buffer (b : buffer) (p : probe) : probe := Probe b (negotiating p) (secured p) (p_ended p) (written p).

(** [drain]; [None] when the rounds are used up. *)
Fixpoint drain_probe (fuel : nat) (p : probe) : option probe :=
  match fuel with
  | O => None
  | S fuel' =>
      match p_ended p with
      | Some _ => Some p
      | None =>
          if negotiating p then
            match p_buffer p with
            | [] => Some p
            | flag :: rest =>
                if flag =? 83 then Some (Probe rest false true None (written p))
                else drain_probe fuel' (write (startup (t_user tgt) (t_database tgt)) (Probe rest false (secured p) None (written p)))
            end
          else if buf_length (p_buffer p) <? 5 then Some p
          else
            let b := p_buffer p in
            let n := default 0 (readInt32BE 1 b) in
            if buf_length b <? n + 1 then Some p
            else drain_probe fuel' (on_probe_message (default 0 (b !! 0%nat)) (slice 5 (n + 1) b) (with_buffer (slice_from (n + 1) b) p))
      end
  end.

(** What happens to a probe: bytes on its socket, the end of the TLS handshake,
    an error of a socket, the timer. *)
Inductive probe_event := Bytes (chunk : buffer) | Handshake | SocketError (e : string) | Timeout.
Definition probe_step (p : probe) (e : probe_event) : option probe :=
  match e with
  | Bytes chunk => let b := p_buffer p ++ chunk in drain_probe (S (S (length b))) (with_buffer b p)
  | Handshake => Some (write (startup (t_user tgt) (t_database tgt)) p)
  | SocketError e => Some (finish (Refused e) p)
  | Timeout => Some (finish (Refused "postgres probe timed out") p)
  end.
Definition pgQuery (es : list probe_event) : option probe :=
  foldl (λ p e, p ≫= λ p, probe_step p e) (Some (Probe [] true false None [(false, SSL_REQUEST)])) es.
End probe.

(** ** The steps *)

Record version := Version { v_id : string; v_secret : creds; v_url : string; v_stages : list string }.
(** The versions of the secret, the password the instance accepts, the clock,
    and the [UpdateSecretCommand]s sent: the token and the stages of each. *)
Record vault := Vault { versions : list version; db_password : string; v_clock : Z; updates : list (option string * list string) }.
Record failed := Failed { f_name : string; f_message : string }.

Definition has_stage (stage : string) (v : version) : Prop := stage ∈ v_stages v.
#[global] Instance has_stage_dec stage v : Decision (has_stage stage v).
Proof. unfold has_stage. apply _. Defined.
Definition staged (stage : string) (vs : list version) : option version := snd <$> list_find (has_stage stage) vs.
Definition getSecret (stage : string) : M vault failed version :=
  λ s, (match staged stage (versions s) with
        | Some v => Ok v
        | None => Err (Failed "ResourceNotFoundException" "Secrets Manager can't find the specified secret value for staging label")
        end, s).

(** [PutSecretValueCommand]: an identifier in use is refused unless the value
    is the same, which changes nothing; a new version takes its labels from the
    others, and a version left without a label is deprecated, which lets the
    service delete it: it is gone. *)
Definition unlabelled (v o : version) : version := Version (v_id o) (v_secret o) (v_url o) (filter (λ st, st ∉ v_stages v) (v_stages o)).
Definition put_version (v : version) : M vault failed unit :=
  let! s := get in
  match snd <$> list_find (λ o, v_id o = v_id v) (versions s) with
  | Some o =>
      if bool_decide (v_secret o = v_secret v ∧ v_url o = v_url v) then ret tt
      else throw (Failed "ResourceExistsException" "You can't use ClientRequestToken for two different values")
  | None => modify (λ s, Vault (v :: filter (λ o, v_stages o ≠ []) (unlabelled v <$> versions s)) (db_password s) (v_clock s) (updates s))
  end.
Definition createSecret (token : string) (bytes : buffer) : M vault failed unit :=
  let! current := getSecret "AWSCURRENT" in
  try_catch (let! pending := getSecret "AWSPENDING" in ret tt)
    (λ err, if bool_decide (f_name err = "ResourceNotFoundException") then
              let pw := generatePassword bytes in
              let c := v_secret current in
              put_version (Version token (Creds (username c) pw (host c) (port c) (dbname c)) (buildDatabaseUrl c pw) ["AWSPENDING"])
            else throw err).

(** [waitForAvailable]; [status] is what RDS answers at a time. *)
Definition WAIT_MS : Z := 5000.
Fixpoint wait_loop (fuel : nat) (status : Z → string) (name : string) (deadline timeoutMs : Z) : M vault failed unit :=
  match fuel with
  | O => throw (Failed "out of fuel" "")
  | S fuel' =>
      let! s := get in
      let st := status (v_clock s) in
      if bool_decide (st = "available") then ret tt
      else if deadline <? v_clock s then
        throw (Failed "Error" ("instance " +:+ name +:+ " still " +:+ st +:+ " after " +:+ Z_to_string timeoutMs +:+ "ms"))
      else modify (λ s, Vault (versions s) (db_password s) (v_clock s + WAIT_MS) (updates s)) ;;; wait_loop fuel' status name deadline timeoutMs
  end.
Definition waitForAvailable (fuel : nat) (status : Z → string) (name : string) (timeoutMs : Z) : M vault failed unit :=
  let! s := get in wait_loop fuel status name (v_clock s + timeoutMs) timeoutMs.
Definition SET_TIMEOUT : Z := 15 * 60 * 1000.
(** [refusal] is the error [ModifyDBInstanceCommand] ends with, if it does. *)
Definition setSecret (fuel : nat) (refusal : string → option failed) (status : Z → string) (name : string) : M vault failed unit :=
  let! pending := getSecret "AWSPENDING" in
  (match refusal (password (v_secret pending)) with
   | Some err => throw err
   | None => modify (λ s, Vault (versions s) (password (v_secret pending)) (v_clock s) (updates s))
   end) ;;;
  waitForAvailable fuel status name SET_TIMEOUT.

(** [testSecret]: [outcome] is how the probe ends with the credentials it gets. *)
Definition testSecret (outcome : target → ended) : M vault failed unit :=
  let! pending := getSecret "AWSPENDING" in
  let c := v_secret pending in
  match outcome (Target (username c) (password c) (dbname c) "SELECT 1") with
  | Passed => ret tt
  | Refused e => throw (Failed "Error" e)
  | Crashed => throw (Failed "uncaught exception" "")
  end.

(** What [finishSecret] asks for. *)
Inductive decision := AlreadyCurrent | RestorePending | Promote (stages : list string).
Definition finish_decision (vs : list version) : decision :=
  let currentId := v_id <$> staged "AWSCURRENT" vs in
  let pendingId := v_id <$> staged "AWSPENDING" vs in
  let previousId := v_id <$> staged "AWSPREVIOUS" vs in
  if bool_decide (pendingId ≠ None ∧ currentId = pendingId) then AlreadyCurrent
  else if bool_decide (currentId ≠ None ∧ previousId ≠ None ∧ currentId = previousId) then RestorePending
  else Promote (["AWSPENDING"; "AWSCURRENT"] ++ match currentId with Some _ => ["AWSPREVIOUS"] | None => [] end).
(** [update] is what the service makes of [UpdateSecretCommand] with its token
    and stages. *)
Definition update_secret (update : option string → list string → vault → vault) (token : option string) (stages : list string) (s : vault) : vault :=
  let s' := update token stages s in Vault (versions s') (db_password s') (v_clock s') (updates s ++ [(token, stages)]).
Definition finishSecret (update : option string → list string → vault → vault) (token : string) : M vault failed decision :=
  let! s := get in
  match finish_decision (versions s) with
  | AlreadyCurrent => ret AlreadyCurrent
  | RestorePending => modify (update_secret update None ["AWSPENDING"]) ;;; ret RestorePending
  | Promote stages => modify (update_secret update (Some token) stages) ;;; ret (Promote stages)
  end.

(** [handler] *)
Record setting := Setting {
  bytes_of : string → buffer; modify_refusal : string → option failed; status_at : Z → string; instance_name : string;
  login_outcome : target → ended; update_effect : option string → list string → vault → vault }.
Definition rotation_handler (e : setting) (fuel : nat) (step token : string) : M vault failed unit :=
  if bool_decide (step = "createSecret") then createSecret token (bytes_of e token)
  else if bool_decide (step = "setSecret") then setSecret fuel (modify_refusal e) (status_at e) (instance_name e)
  else if bool_decide (step = "testSecret") then testSecret (login_outcome e)
  else if bool_decide (step = "finishSecret") then finishSecret (update_effect e) token ;;; ret tt
  else throw (Failed "Error" ("unexpected rotation step: " +:+ step)).
(** Steps as the service calls them, each with its token; a failed step is
    followed by others. *)
Definition rotation_run (e : setting) (fuel : nat) (calls : list (string * string)) (s : vault) : vault :=
  foldl (λ s c, (rotation_handler e fuel c.1 c.2 s).2) s calls.

(** ** Lemmas *)

Lemma password_char_in b : 0 <= b → password_char b ∈ PASSWORD_ALPHABET.
Proof.
  intros Hb. unfold password_char. change (Z.of_nat (length PASSWORD_ALPHABET)) with 72.
  destruct (PASSWORD_ALPHABET !! Z.to_nat (b mod 72)) as [c|] eqn:E; [by eapply list_elem_of_lookup_2|].
  apply lookup_ge_None in E. change (length PASSWORD_ALPHABET) with 72%nat in E. pose proof (Z.mod_pos_bound b 72). lia.
Qed.

Definition alive (p : probe) : Prop := p_ended p = None.
(** The messages one after the other, up to the end of the probe. *)
Definition answered md5_hex tgt (p : probe) (m : message) : probe :=
  match p_ended p with Some _ => p | None => on_probe_message md5_hex tgt (tag m) (body m) p end.
Lemma answered_alive md5_hex tgt p m : alive p → answered md5_hex tgt p m = on_probe_message md5_hex tgt (tag m) (body m) p.
Proof. unfold answered, alive. by intros ->. Qed.
Lemma answered_ended md5_hex tgt ms p : p_ended p ≠ None → foldl (answered md5_hex tgt) p ms = p.
Proof. induction ms as [|m ms IH]; [done|]. intros H. simpl. unfold answered at 2. destruct (p_ended p); [by apply IH|done]. Qed.
Lemma on_message_buffer md5_hex tgt t b p buf : on_probe_message md5_hex tgt t b (with_buffer buf p) = with_buffer buf (on_probe_message md5_hex tgt t b p).
Proof. unfold on_probe_message. repeat case_match; done. Qed.
Lemma on_message_flags md5_hex tgt t b p : negotiating (on_probe_message md5_hex tgt t b p) = negotiating p.
Proof. unfold on_probe_message. repeat case_match; done. Qed.
Lemma with_buffer_twice b1 b2 p : with_buffer b1 (with_buffer b2 p) = with_buffer b1 p.
Proof. done. Qed.

Lemma signed_length m rest : sendable m → readInt32BE 1 (encode m ++ rest) = Some (buf_length (body m) + 4).
Proof.
  intros Hm. pose proof (buf_length_nonneg (body m)). unfold sendable in Hm. rewrite MAX_value in Hm.
  unfold encode, tagged. rewrite <-!(assoc_L (++)). apply (readInt32BE_at 1 [tag m]); [done|lia].
Qed.
Lemma at_index_in n i : 0 <= i <= n → at_index n i = i.
Proof. unfold at_index. intros. destruct (Z.ltb_spec i 0); lia. Qed.
Lemma drain_probe_unfinished md5_hex tgt fuel b p : unfinished b → negotiating p = false → p_buffer p = b → drain_probe md5_hex tgt (S fuel) p = Some p.
Proof.
  intros (m & rest & Hm & E & Hr) Hn Hb. cbn [drain_probe]. destruct (p_ended p); [done|]. rewrite Hn, Hb.
  destruct (Z.ltb_spec (buf_length b) 5) as [|H5]; [done|].
  assert (readInt32BE 1 b = Some (buf_length (body m) + 4)) as ->.
  { rewrite <-(signed_length m [] Hm), app_nil_r, E. unfold readInt32BE. f_equal. symmetry. by apply subarray_1_5. }
  cbn [default id]. pose proof (f_equal buf_length E) as El. rewrite buf_length_encode, buf_length_app in El.
  assert (0 < buf_length rest) by (destruct rest; [done|]; unfold buf_length; simpl; lia).
  destruct (Z.ltb_spec (buf_length b) (buf_length (body m) + 4 + 1)); [done|lia].
Qed.
Lemma drain_probe_messages md5_hex tgt ms b p fuel : Forall sendable ms → unfinished b → negotiating p = false → (length ms < fuel)%nat →
  ∃ buf, drain_probe md5_hex tgt fuel (with_buffer ((ms ≫= encode) ++ b) p) = Some (with_buffer buf (foldl (answered md5_hex tgt) p ms)) ∧
    (p_ended (foldl (answered md5_hex tgt) p ms) = None → buf = b).
Proof.
  intros Hms Hb. revert p fuel. induction Hms as [|m ms Hm Hms IH]; intros p [|fuel] Hn Hf; [simpl in Hf; lia| |simpl in Hf; lia|].
  - exists b. split; [|done]. by apply (drain_probe_unfinished _ _ _ b).
  - cbn [foldl]. unfold answered at 2 4. destruct (p_ended p) as [e|] eqn:He.
    { rewrite answered_ended by by rewrite He. eexists. split; [cbn [drain_probe with_buffer p_ended]; by rewrite He|]. by rewrite He. }
    cbn [drain_probe with_buffer p_ended negotiating p_buffer]. rewrite He, Hn. rewrite bind_cons, <-(assoc_L (++)).
    set (rest := (ms ≫= encode) ++ b) in *.
    pose proof (buf_length_encode m) as Hl. pose proof (buf_length_nonneg (body m)). pose proof (buf_length_nonneg rest).
    assert (Hlr : buf_length (encode m ++ rest) = buf_length (body m) + 5 + buf_length rest) by (rewrite buf_length_app; lia).
    rewrite Hlr. destruct (Z.ltb_spec (buf_length (body m) + 5 + buf_length rest) 5); [lia|].
    rewrite signed_length by done. cbn [default id].
    destruct (Z.ltb_spec (buf_length (body m) + 5 + buf_length rest) (buf_length (body m) + 4 + 1)); [lia|].
    assert (slice 5 (buf_length (body m) + 4 + 1) (encode m ++ rest) = body m) as ->.
    { unfold slice. rewrite !at_index_in by lia. pose proof (first_message_encode m rest Hm) as Hfm. unfold first_message, message_length in Hfm.
      rewrite length_field in Hfm by done. cbn [default id] in Hfm. by rewrite <-Hfm at 3. }
    assert (slice_from (buf_length (body m) + 4 + 1) (encode m ++ rest) = rest) as ->.
    { unfold slice_from. rewrite at_index_in by lia. apply subarray_from_at. lia. }
    assert (default 0 ((encode m ++ rest) !! 0%nat) = tag m) as -> by done.
    match goal with |- context [on_probe_message _ _ _ _ ?q] => assert (q = with_buffer rest p) as -> end.
    { unfold with_buffer. cbn. by rewrite ?Hn, ?He. }
    rewrite on_message_buffer. apply IH; [by rewrite on_message_flags|simpl in Hf; lia].
Qed.
Lemma probe_chunks md5_hex tgt b chunks mss b' p : arrives b chunks mss b' → unfinished b → negotiating p = false →
  ∃ buf, foldl (λ p e, p ≫= λ p, probe_step md5_hex tgt p e) (Some (with_buffer b p)) (Bytes <$> chunks) =
    Some (with_buffer buf (foldl (answered md5_hex tgt) p (mjoin mss))).
Proof.
  intros H. revert p. induction H as [b|b c ms b1 cs mss b2 E Hms Hb1 _ IH]; intros p Hb Hn; [by exists b|].
  cbn [fmap list_fmap foldl mbind option_bind probe_step with_buffer p_buffer]. change (mjoin (ms :: mss)) with (ms ++ mjoin mss).
  rewrite E, foldl_app.
  change (Probe (b ++ c) (negotiating p) (secured p) (p_ended p) (written p)) with (with_buffer (b ++ c) p).
  destruct (drain_probe_messages md5_hex tgt ms b1 p (S (S (length ((ms ≫= encode) ++ b1))))) as (buf & Hd & Hbuf); [done..| |].
  { rewrite length_app. pose proof (length_messages ms). lia. }
  match goal with |- context [drain_probe _ _ _ ?q] => assert (q = with_buffer ((ms ≫= encode) ++ b1) p) as -> by done end.
  rewrite Hd. set (p1 := foldl (answered md5_hex tgt) p ms) in *.
  assert (Hn1 : negotiating p1 = false).
  { unfold p1. clear -Hn. revert p Hn. induction ms as [|m ms IH]; intros p Hn; [done|]. simpl. apply IH. unfold answered. case_match; [done|]. by rewrite on_message_flags. }
  destruct (p_ended p1) as [e|] eqn:He; [|rewrite Hbuf by done; by apply IH].
  rewrite answered_ended by by rewrite He. clear IH. exists (foldl (λ b c, b ++ c) buf cs). clear -He. revert buf.
  induction cs as [|c cs IH]; intros buf; [done|]. cbn [fmap list_fmap foldl mbind option_bind probe_step].
  cbn [drain_probe with_buffer p_ended p_buffer negotiating secured written]. rewrite He. rewrite <-IH. unfold with_buffer. by rewrite He.
Qed.

(** ** Theorems: the password *)

(** A generated password has forty characters of the alphabet, none of those
    RDS refuses, and the URL carries it: the percent-encoded text has no
    character that ends the password, and decodes to it. *)
Theorem password_usable bytes : (40 ≤ length bytes)%nat → Forall is_byte bytes →
  let pw := generatePassword bytes in
  length (chars pw) = 40%nat ∧
  Forall (λ c, c ∈ PASSWORD_ALPHABET ∧ c ∉ chars "/@ " ∧ code c ≠ 34 ∧ 32 < code c < 127) (chars pw) ∧
  decodeURIComponent (encodeURIComponent pw) = Some pw ∧
  Forall (λ c, c ∉ chars ":/?#@ ") (chars (encodeURIComponent pw)).
Proof.
  intros Hl Hb pw. assert (Hc : chars pw = password_char <$> take 40 bytes) by (unfold pw, generatePassword; by rewrite chars_of_chars).
  assert (Hall : Forall (λ c, c ∈ PASSWORD_ALPHABET) (chars pw)).
  { rewrite Hc. apply Forall_fmap, Forall_take. eapply Forall_impl; [exact Hb|]. intros b [Hb0 _]. by apply password_char_in. }
  assert (Halph : forallb (λ c, bool_decide (c ∉ chars "/@ ") && bool_decide (code c ≠ 34) && bool_decide (32 < code c < 127)) PASSWORD_ALPHABET = true)
    by (vm_compute; reflexivity).
  rewrite forallb_forall in Halph.
  assert (Hf : Forall (λ c, c ∈ PASSWORD_ALPHABET ∧ c ∉ chars "/@ " ∧ code c ≠ 34 ∧ 32 < code c < 127) (chars pw)).
  { eapply Forall_impl; [exact Hall|]. intros c Hin. split; [done|]. apply list_elem_of_In, Halph in Hin.
    rewrite !andb_true_iff, !bool_decide_eq_true in Hin. by destruct Hin as [[? ?] ?]. }
  split; [rewrite Hc, length_fmap, length_take; lia|]. split; [done|]. split.
  - apply decode_encodeURIComponent. clear -Hf. induction Hf as [|c l (_ & _ & _ & Hr) _ IH]; [done|]. cbn [valid_utf8].
    destruct (Z.ltb_spec (code c) 128); [done|lia].
  - pose proof (encodeURIComponent_chars pw) as He. eapply Forall_impl; [exact He|].
    assert (Hsafe : ∀ c, (uri_safe c || bool_decide (c = "%"%char)) && negb (bool_decide (c ∉ chars ":/?#@ ")) = false)
      by (intros [[] [] [] [] [] [] [] []]; vm_compute; reflexivity).
    intros c Hin. specialize (Hsafe c). apply dec_stable. intros Hno. rewrite (bool_decide_eq_false_2 _ Hno) in Hsafe.
    destruct Hin as [Hin| ->]; [by rewrite Hin in Hsafe|discriminate Hsafe].
Qed.
Lemma password_usable_witness : decodeURIComponent (encodeURIComponent (generatePassword (replicate 40 71))) = Some (generatePassword (replicate 40 71)).
Proof. apply (password_usable (replicate 40 71)); [simpl; lia|apply Forall_replicate; unfold is_byte; lia]. Defined.
(** The alphabet does not divide 256: each of the first forty characters is made
    by four byte values, each of the others by three. *)
Example biased_alphabet : (λ k, length (filter (λ b : nat, (b mod 72)%nat = k) (seq 0 256))) <$> seq 0 72 = replicate 40 4%nat ++ replicate 32 3%nat.
Proof. vm_compute. reflexivity. Qed.

(** ** Theorems: the probe *)

(** However the server's messages are cut into chunks or put together, the
    probe handles each of them in order until it has ended. *)
Theorem probe_handles_all md5_hex tgt b chunks mss b' p : arrives b chunks mss b' → unfinished b → negotiating p = false →
  ∃ buf, foldl (λ p e, p ≫= λ p, probe_step md5_hex tgt p e) (Some (with_buffer b p)) (Bytes <$> chunks) =
    Some (with_buffer buf (foldl (answered md5_hex tgt) p (mjoin mss))).
Proof. apply probe_chunks. Qed.
Definition quiet_tag (m : message) : Prop := tag m ≠ 82 ∧ tag m ≠ 90 ∧ tag m ≠ 69.
(** The probe passes at the first ReadyForQuery: a server that asks for no
    password passes without one, before the statement has been answered. *)
Theorem probe_passes_without_password md5_hex tgt p ms s : alive p → Forall quiet_tag ms →
  let p' := foldl (answered md5_hex tgt) p (Message 82 (int32 0) :: ms ++ [Message 90 s]) in
  p_ended p' = Some Passed ∧ written p' = written p ++ [(secured p, queryMessage (t_query tgt))].
Proof.
  intros Ha Hms.
  assert (Hq : ∀ q, alive q → foldl (answered md5_hex tgt) q ms = q).
  { intros q Hq. induction Hms as [|m ms (H1 & H2 & H3) _ IH]; [done|]. cbn [foldl]. rewrite answered_alive by done.
    unfold on_probe_message. destruct (Z.eqb_spec (tag m) 82), (Z.eqb_spec (tag m) 90), (Z.eqb_spec (tag m) 69); done. }
  set (p1 := write (queryMessage (t_query tgt)) p). assert (H1 : alive p1) by done.
  assert (foldl (answered md5_hex tgt) p (Message 82 (int32 0) :: ms ++ [Message 90 s]) = finish Passed p1) as ->.
  { cbn [foldl]. rewrite (answered_alive _ _ p) by done. rewrite foldl_app.
    change (on_probe_message md5_hex tgt (tag (Message 82 (int32 0))) (body (Message 82 (int32 0))) p) with p1.
    rewrite Hq by done. cbn [foldl]. by rewrite answered_alive. }
  unfold finish. cbn. by rewrite Ha.
Qed.
Lemma probe_handles_all_witness : ∃ buf,
  foldl (λ p e, p ≫= λ p, probe_step (λ _, "") (Target "u" "pw" "d" "SELECT 1") p e) (Some (with_buffer [] (Probe [] false true None [])))
    (Bytes <$> [encode (Message 82 (int32 0)) ++ encode (Message 90 [73])]) =
  Some (with_buffer buf (Probe [] false true (Some Passed) [(true, queryMessage "SELECT 1")])).
Proof.
  apply (probe_handles_all (λ _, "") (Target "u" "pw" "d" "SELECT 1") [] _ [[Message 82 (int32 0); Message 90 [73]]] [] (Probe [] false true None []));
    [|apply unfinished_nil|reflexivity].
  econstructor; [reflexivity|repeat (apply Forall_cons_2; [by vm_compute|]); apply Forall_nil_2|apply unfinished_nil|constructor].
Defined.
Lemma probe_passes_without_password_witness :
  p_ended (foldl (answered (λ _, "") (Target "u" "pw" "d" "SELECT 1")) (Probe [] false true None []) [Message 82 (int32 0); Message 83 [65; 0]; Message 90 [73]]) = Some Passed.
Proof.
  apply (probe_passes_without_password (λ _, "") (Target "u" "pw" "d" "SELECT 1") (Probe [] false true None []) [Message 83 [65; 0]] [73]);
    [reflexivity|by constructor].
Defined.

(** Its own messages are malformed: the length counts one byte too many, so a
    reader of the protocol waits for a byte that is never sent. *)
Theorem typed_message_unread t payload : buf_length payload + 5 <= MAX_MESSAGE_BYTES →
  drain (Reader (typedMessage t payload) true None) = (Reader (typedMessage t payload) true None, None) ∧
  ∀ x, drain (Reader (typedMessage t payload ++ [x]) true None) = (Reader [] false None, Some (Resolved (Message t (payload ++ [x])))).
Proof.
  intros Hl. assert (E : ∀ x, typedMessage t payload ++ [x] = encode (Message t (payload ++ [x]))).
  { intros x. unfold typedMessage, encode, tagged. cbn [tag body]. rewrite buf_length_app. change (buf_length [x]) with 1.
    replace (buf_length payload + 1 + 4) with (5 + buf_length payload) by lia. by rewrite <-!(assoc_L (++)). }
  assert (Hs : ∀ x, sendable (Message t (payload ++ [x]))).
  { intros x. unfold sendable. cbn [body]. rewrite buf_length_app. change (buf_length [x]) with 1. lia. }
  split.
  - apply drain_unfinished. exists (Message t (payload ++ [0])), [0]. by rewrite E.
  - intros x. rewrite E. pose proof (drain_messages [Message t (payload ++ [x])] [] true None) as H.
    rewrite bind_cons, !app_nil_r in H. apply H; [by constructor|apply unfinished_nil].
Qed.
Lemma typed_message_unread_witness : drain (Reader (typedMessage 112 [109]) true None) = (Reader (typedMessage 112 [109]) true None, None).
Proof. apply (typed_message_unread 112 [109]). vm_compute. discriminate. Defined.

(** The answer to an MD5 challenge is wrong: it hashes the salt as
    hexadecimal text, where the protocol, as [PgWire.md5Password] has it, hashes
    its four bytes; were they equal, MD5 would collide. *)
Theorem md5_answer_wrong md5_hex pw user salt : length salt = 4%nat →
  md5Digest md5_hex pw user salt = md5Password md5_hex user pw salt → ∃ x y, x ≠ y ∧ md5_hex x = md5_hex y.
Proof.
  intros Hl H. unfold md5Digest, md5Password in H. apply string_app_inj_l in H.
  eexists _, _. split; [|exact H]. set (inner := md5_hex (string_bytes (pw +:+ user))). intros E. apply (f_equal length) in E.
  unfold string_bytes, to_hex in E. rewrite string_app_chars, chars_of_chars, fmap_app, !length_app, !length_fmap in E.
  destruct salt as [|a [|b [|c [|d [|e salt]]]]]; try done. simpl in E. lia.
Qed.
Lemma md5_answer_wrong_witness : ∃ x y : buffer, x ≠ y ∧ (λ _ : buffer, "d41d8cd98f00b204e9800998ecf8427e") x = (λ _ : buffer, "d41d8cd98f00b204e9800998ecf8427e") y.
Proof. apply (md5_answer_wrong (λ _, "d41d8cd98f00b204e9800998ecf8427e") "pw" "u" [1; 2; 3; 4]); reflexivity. Defined.
(** A server that wants SCRAM, the default since PostgreSQL 14, is refused. *)
Example scram_server_refused :
  p_ended (foldl (answered (λ _, "") (Target "u" "pw" "d" "SELECT 1")) (Probe [] false true None []) [Message 82 (int32 10 ++ cstring "SCRAM-SHA-256" ++ [0])])
  = Some (Refused "unsupported postgres auth type 10").
Proof. vm_compute. reflexivity. Qed.

(** A message that gives its length as -1 keeps the listener in its loop:
    nothing is taken off the buffer, and no number of rounds is enough. *)
Theorem negative_length_loops md5_hex tgt fuel t rest p : alive p → negotiating p = false → t ≠ 82 → t ≠ 90 → t ≠ 69 →
  p_buffer p = t :: int32 (-1) ++ rest → drain_probe md5_hex tgt fuel p = None.
Proof.
  intros Ha Hn H1 H2 H3 Hb. induction fuel as [|fuel IH]; [done|]. cbn [drain_probe]. rewrite Ha, Hn, Hb.
  pose proof (buf_length_nonneg rest). assert (Hl : buf_length (t :: int32 (-1) ++ rest) = buf_length rest + 5).
  { rewrite buf_length_cons, buf_length_app, buf_length_int32. lia. }
  rewrite Hl. destruct (Z.ltb_spec (buf_length rest + 5) 5); [lia|].
  assert (readInt32BE 1 (t :: int32 (-1) ++ rest) = Some (-1)) as -> by (apply (readInt32BE_at 1 [t]); [done|lia]).
  cbn [default id]. change (-1 + 1) with 0. destruct (Z.ltb_spec (buf_length rest + 5) 0); [lia|].
  assert (slice_from 0 (t :: int32 (-1) ++ rest) = t :: int32 (-1) ++ rest) as ->.
  { unfold slice_from. rewrite at_index_in by lia. done. }
  change (default 0 ((t :: int32 (-1) ++ rest) !! 0%nat)) with t. unfold on_probe_message.
  destruct (Z.eqb_spec t 82), (Z.eqb_spec t 90), (Z.eqb_spec t 69); try done.
  assert (with_buffer (t :: int32 (-1) ++ rest) p = p) as ->; [|apply IH]. destruct p. cbn in *. by subst.
Qed.
Lemma negative_length_loops_witness : drain_probe (λ _, "") (Target "u" "pw" "d" "SELECT 1") 99 (Probe [83; 255; 255; 255; 255] false true None []) = None.
Proof. apply (negative_length_loops _ _ 99 83 []); [reflexivity|reflexivity|lia|lia|lia|reflexivity]. Defined.

(** ** Theorems: the steps *)

(** A version labelled as current or pending has the password. *)
Definition labelled (pw : string) (s : vault) : Prop :=
  ∃ v, v ∈ versions s ∧ password (v_secret v) = pw ∧ (has_stage "AWSCURRENT" v ∨ has_stage "AWSPENDING" v).
(** [UpdateSecret] without a value, as documented: it changes the description
    or the key of the secret, never a version, a label or the database. *)
Definition metadata_only (e : setting) : Prop :=
  ∀ o l s, versions (update_effect e o l s) = versions s ∧ db_password (update_effect e o l s) = db_password s.
Lemma staged_cons stage v vs : staged stage (v :: vs) = if decide (has_stage stage v) then Some v else staged stage vs.
Proof. unfold staged. cbn [list_find]. case_decide; [done|]. by destruct (list_find _ vs) as [[i x]|]. Qed.
Lemma staged_Some stage vs v : staged stage vs = Some v → v ∈ vs ∧ has_stage stage v.
Proof.
  unfold staged. rewrite fmap_Some. intros ([i x] & (Hi & Hx & _)%list_find_Some & ->). split; [by eapply list_elem_of_lookup_2|done].
Qed.
Lemma staged_None stage vs v : staged stage vs = None → v ∈ vs → ¬ has_stage stage v.
Proof. unfold staged. rewrite fmap_None, list_find_None, Forall_forall. intros H Hv. by apply H. Qed.
Lemma wait_loop_vault fuel status name d t s :
  versions (wait_loop fuel status name d t s).2 = versions s ∧ db_password (wait_loop fuel status name d t s).2 = db_password s ∧
  updates (wait_loop fuel status name d t s).2 = updates s.
Proof.
  revert s. induction fuel as [|fuel IH]; intros s; [done|]. cbn [wait_loop]. unfold bind, get, modify.
  case_match; [done|]. case_match; [done|]. cbn [versions db_password v_clock updates].
  apply (IH (Vault (versions s) (db_password s) (v_clock s + WAIT_MS) (updates s))).
Qed.
(** A new pending version takes no label but the pending one. *)
Lemma put_pending_labelled token c url s r s' pw : staged "AWSPENDING" (versions s) = None → labelled pw s →
  put_version (Version token c url ["AWSPENDING"]) s = (r, s') → labelled pw s'.
Proof.
  intros Hn (o & Ho & Hpw & Hst). unfold put_version, bind, get, ret, throw, modify. intros H.
  destruct (snd <$> list_find _ (versions s)) as [o1|]; [case_bool_decide; simplify_eq; by exists o|]. simplify_eq.
  destruct Hst as [Hst|Hst]; [|by apply (staged_None _ _ o) in Hn].
  assert (Hst' : "AWSCURRENT" ∈ v_stages (unlabelled (Version token c url ["AWSPENDING"]) o)).
  { cbn. apply list_elem_of_filter. split; [|exact Hst]. by intros ?%list_elem_of_singleton. }
  exists (unlabelled (Version token c url ["AWSPENDING"]) o). split_and!; [|done|by left]. right.
  apply list_elem_of_filter. split; [|by apply list_elem_of_fmap_2]. intros E. rewrite E in Hst'. by apply not_elem_of_nil in Hst'.
Qed.
Lemma create_labelled token bytes s pw : labelled pw s →
  labelled pw (createSecret token bytes s).2 ∧ db_password (createSecret token bytes s).2 = db_password s.
Proof.
  intros Hs. unfold createSecret, try_catch, bind, getSecret, ret. destruct (staged "AWSCURRENT" (versions s)) as [c|]; [|done].
  destruct (staged "AWSPENDING" (versions s)) eqn:Hn; [done|]. cbn [f_name]. rewrite bool_decide_eq_true_2 by done.
  destruct (put_version _ s) as [r s'] eqn:Hp. split; [by eapply put_pending_labelled|]. revert Hp. unfold put_version, bind, get, ret, throw, modify.
  destruct (snd <$> list_find _ (versions s)); [case_bool_decide|]; intros ?; by simplify_eq.
Qed.
(** What setSecret does to the instance. *)
Lemma set_outcome fuel refusal status name s :
  let s' := (setSecret fuel refusal status name s).2 in
  versions s' = versions s ∧ updates s' = updates s ∧
  (db_password s' = db_password s ∨ ∃ v, staged "AWSPENDING" (versions s) = Some v ∧ db_password s' = password (v_secret v)) ∧
  ((setSecret fuel refusal status name s).1 = Ok tt → ∃ v, staged "AWSPENDING" (versions s) = Some v ∧ db_password s' = password (v_secret v)).
Proof.
  unfold setSecret, waitForAvailable, bind, getSecret, modify, get, throw. destruct (staged "AWSPENDING" (versions s)) as [v|]; [|split_and!; try done; by left].
  destruct (refusal _) as [err|]; [split_and!; try done; by left|]. cbn [v_clock].
  set (s1 := Vault (versions s) (password (v_secret v)) (v_clock s) (updates s)).
  destruct (wait_loop_vault fuel status name (v_clock s + SET_TIMEOUT) SET_TIMEOUT s1) as (H1 & H2 & H3). cbv zeta. rewrite H1, H2, H3.
  split_and!; [done|done|right|intros _]; by exists v.
Qed.
Lemma finish_keeps e token s : metadata_only e →
  let s' := (finishSecret (update_effect e) token s).2 in versions s' = versions s ∧ db_password s' = db_password s.
Proof.
  intros Hu. unfold finishSecret, bind, get, modify, ret. destruct (finish_decision (versions s)); cbn [snd]; [done|apply Hu..].
Qed.
Lemma test_keeps outcome s : (testSecret outcome s).2 = s.
Proof. unfold testSecret, bind, getSecret, ret, throw. destruct (staged "AWSPENDING" (versions s)); [|done]. by destruct (outcome _). Qed.
Lemma handler_labelled e fuel step token s : metadata_only e → labelled (db_password s) s →
  labelled (db_password (rotation_handler e fuel step token s).2) (rotation_handler e fuel step token s).2.
Proof.
  intros Hu Hs. unfold rotation_handler. repeat case_bool_decide; subst.
  - destruct (create_labelled token (bytes_of e token) s _ Hs) as [H ->]. exact H.
  - destruct (set_outcome fuel (modify_refusal e) (status_at e) (instance_name e) s) as (Hv & _ & [Hd|(v & Hp & Hd)] & _);
      rewrite Hd; unfold labelled; rewrite Hv; [exact Hs|]. apply staged_Some in Hp as [Hin Hst]. exists v. auto.
  - by rewrite test_keeps.
  - destruct (finish_keeps e token s Hu) as [Hv Hd]. unfold bind. destruct (finishSecret (update_effect e) token s) as [[d|err] s1]; cbn [snd] in *;
      unfold ret; cbn [snd]; rewrite Hd; unfold labelled; by rewrite Hv.
  - done.
Qed.
Lemma run_labelled e fuel calls s : metadata_only e → labelled (db_password s) s →
  labelled (db_password (rotation_run e fuel calls s)) (rotation_run e fuel calls s).
Proof.
  intros Hu. unfold rotation_run. revert s. induction calls as [|c calls IH]; intros s Hs; [done|]. cbn [foldl]. apply IH. by apply handler_labelled.
Qed.
(** The handler runs the step of that name. *)
Lemma finish_step e fuel token s : rotation_handler e fuel "finishSecret" token s = bind (finishSecret (update_effect e) token) (λ _, ret tt) s.
Proof. done. Qed.

Lemma promotion_decision vs c : staged "AWSCURRENT" vs = Some c → v_id <$> staged "AWSPENDING" vs ≠ Some (v_id c) →
  v_id <$> staged "AWSPREVIOUS" vs ≠ Some (v_id c) → finish_decision vs = Promote ["AWSPENDING"; "AWSCURRENT"; "AWSPREVIOUS"].
Proof.
  intros Hc Hp Hv. unfold finish_decision. rewrite Hc. cbn [fmap option_fmap option_map].
  rewrite bool_decide_eq_false_2 by (intros [_ H]; by rewrite H in Hp). by rewrite bool_decide_eq_false_2 by (intros (_ & _ & H); by rewrite H in Hv).
Qed.
(** A put of a pending version leaves the current one first in line. *)
Lemma create_current token bytes s c : staged "AWSCURRENT" (versions s) = Some c →
  ∃ c', staged "AWSCURRENT" (versions (createSecret token bytes s).2) = Some c' ∧ v_id c' = v_id c ∧ v_secret c' = v_secret c.
Proof.
  intros Hc. unfold createSecret, try_catch, bind, getSecret, ret. rewrite Hc.
  destruct (staged "AWSPENDING" (versions s)); [by exists c|]. cbn [f_name]. rewrite bool_decide_eq_true_2 by done.
  unfold put_version, bind, get, ret, throw, modify.
  destruct (snd <$> list_find _ (versions s)); [case_bool_decide; by exists c|]. cbn [snd versions].
  set (v := Version _ _ _ _). exists (unlabelled v c). split_and!; [|done..]. clear -Hc.
  rewrite staged_cons, decide_False by (by intros ?%list_elem_of_singleton). revert Hc. induction (versions s) as [|o vs IH]; [done|].
  rewrite staged_cons. rewrite fmap_cons, filter_cons. case_decide as Ho.
  - intros [= ->]. assert (has_stage "AWSCURRENT" (unlabelled v c)) as Hu.
    { apply list_elem_of_filter. split; [|exact Ho]. by intros ?%list_elem_of_singleton. }
    rewrite decide_True; [by rewrite staged_cons, decide_True|]. intros E. unfold has_stage in Hu. rewrite E in Hu. by apply not_elem_of_nil in Hu.
  - intros Hc. assert (¬ has_stage "AWSCURRENT" (unlabelled v o)) by (by intros [_ ?]%list_elem_of_filter).
    case_decide; [rewrite staged_cons, decide_False by done|]; by apply IH.
Qed.

(** C9. The password is never lost: through any sequence of steps, with
    failures, repetitions and tokens used again, the instance accepts the
    password of a version that still carries the current or the pending label,
    although a version that loses its labels is deleted.  In every state so
    reached, a completed setSecret leaves the instance with the password of the
    pending version; testSecret changes nothing and completes only if the login
    with the pending version's user, password and database passed; and
    finishSecret, when no label but the current is on the current version, asks
    once, with its token, for the pending, the current and the previous label. *)
Theorem password_never_lost e fuel calls s : metadata_only e → labelled (db_password s) s →
  let s' := rotation_run e fuel calls s in
  labelled (db_password s') s' ∧
  (∀ token, (rotation_handler e fuel "setSecret" token s').1 = Ok tt →
     ∃ v, staged "AWSPENDING" (versions s') = Some v ∧ db_password (rotation_handler e fuel "setSecret" token s').2 = password (v_secret v)) ∧
  (∀ token, (rotation_handler e fuel "testSecret" token s').2 = s' ∧
     ((rotation_handler e fuel "testSecret" token s').1 = Ok tt →
      ∃ v, staged "AWSPENDING" (versions s') = Some v ∧
        login_outcome e (Target (username (v_secret v)) (password (v_secret v)) (dbname (v_secret v)) "SELECT 1") = Passed)) ∧
  (∀ token c, staged "AWSCURRENT" (versions s') = Some c → v_id <$> staged "AWSPENDING" (versions s') ≠ Some (v_id c) →
     v_id <$> staged "AWSPREVIOUS" (versions s') ≠ Some (v_id c) →
     updates (rotation_handler e fuel "finishSecret" token s').2 = updates s' ++ [(Some token, ["AWSPENDING"; "AWSCURRENT"; "AWSPREVIOUS"])]).
Proof.
  intros Hu Hs s'. split; [by apply run_labelled|]. clearbody s'. split_and!.
  - intros token H. apply (set_outcome fuel (modify_refusal e) (status_at e) (instance_name e) s'). exact H.
  - intros token. split; [apply (test_keeps (login_outcome e) s')|].
    change (rotation_handler e fuel "testSecret" token s') with (testSecret (login_outcome e) s').
    unfold testSecret, bind, getSecret, ret, throw. destruct (staged "AWSPENDING" (versions s')) as [v|]; [|done].
    destruct (login_outcome _ _) eqn:Ho; try done. intros _. by exists v.
  - intros token c Hc Hp Hv. rewrite finish_step. unfold finishSecret, bind, get. rewrite (promotion_decision _ c) by done. done.
Qed.

(** No step moves the current label: [UpdateSecret] has no stages to set, so
    whatever is called, clients that read the current version keep the password
    they had, also after the instance was given another. *)
Theorem current_never_moves e fuel calls s c : metadata_only e → staged "AWSCURRENT" (versions s) = Some c →
  ∃ c', staged "AWSCURRENT" (versions (rotation_run e fuel calls s)) = Some c' ∧ v_id c' = v_id c ∧ v_secret c' = v_secret c.
Proof.
  intros Hu. unfold rotation_run. revert s c. induction calls as [|[step token] calls IH]; intros s c Hc; [by exists c|]. cbn [foldl fst snd].
  assert (∃ c1, staged "AWSCURRENT" (versions (rotation_handler e fuel step token s).2) = Some c1 ∧ v_id c1 = v_id c ∧ v_secret c1 = v_secret c) as (c1 & H1 & H2 & H3).
  { unfold rotation_handler. repeat case_bool_decide; subst.
    - by apply create_current.
    - rewrite (proj1 (set_outcome fuel (modify_refusal e) (status_at e) (instance_name e) s)). by exists c.
    - rewrite test_keeps. by exists c.
    - destruct (finish_keeps e token s Hu) as [Hv _]. unfold bind, ret. exists c.
      destruct (finishSecret (update_effect e) token s) as [[d|err] s1]; cbn [snd] in *; by rewrite Hv.
    - by exists c. }
  destruct (IH _ _ H1) as (c2 & ? & ? & ?). exists c2. split_and!; [done|congruence..].
Qed.

(** A rotation that starts while the pending label is on the current
    version changes nothing: no password is generated, the current one is
    applied again, and there is nothing to promote. *)
Theorem rotation_stands_still e fuel token s v : staged "AWSCURRENT" (versions s) = Some v → staged "AWSPENDING" (versions s) = Some v →
  modify_refusal e (password (v_secret v)) = None →
  let s' := rotation_run e fuel [("createSecret", token); ("setSecret", token); ("testSecret", token); ("finishSecret", token)] s in
  versions s' = versions s ∧ db_password s' = password (v_secret v) ∧ updates s' = updates s.
Proof.
  intros Hc Hp Hr. unfold rotation_run. cbn [foldl fst snd].
  assert ((rotation_handler e fuel "createSecret" token s).2 = s) as ->.
  { change (rotation_handler e fuel "createSecret" token s) with (createSecret token (bytes_of e token) s).
    unfold createSecret, bind, getSecret, try_catch. by rewrite Hc, Hp. }
  change (rotation_handler e fuel "setSecret" token s) with (setSecret fuel (modify_refusal e) (status_at e) (instance_name e) s).
  set (s1 := (setSecret fuel (modify_refusal e) (status_at e) (instance_name e) s).2).
  assert (versions s1 = versions s ∧ db_password s1 = password (v_secret v) ∧ updates s1 = updates s) as (H1 & H2 & H3).
  { unfold s1, setSecret, waitForAvailable, bind, getSecret, modify, get. rewrite Hp, Hr.
    set (s' := Vault (versions s) (password (v_secret v)) (v_clock s) (updates s)).
    by destruct (wait_loop_vault fuel (status_at e) (instance_name e) (v_clock s' + SET_TIMEOUT) SET_TIMEOUT s') as (-> & -> & ->). }
  change (rotation_handler e fuel "testSecret" token s1) with (testSecret (login_outcome e) s1). rewrite test_keeps, finish_step.
  unfold finishSecret, bind, get, ret, finish_decision. rewrite H1, Hc, Hp. by rewrite bool_decide_eq_true_2.
Qed.
(** Whenever another version is pending, or none is, the last step asks for
    one version to carry the pending and the current label, and the previous one
    too: the state in which the next rotation stands still. *)
Theorem promotion_asked vs c : staged "AWSCURRENT" vs = Some c → v_id <$> staged "AWSPENDING" vs ≠ Some (v_id c) →
  v_id <$> staged "AWSPREVIOUS" vs ≠ Some (v_id c) → finish_decision vs = Promote ["AWSPENDING"; "AWSCURRENT"; "AWSPREVIOUS"].
Proof. apply promotion_decision. Qed.

(** Waiting for the instance ends within the timeout and one more interval. *)
Theorem wait_bounded fuel status name t s : 0 <= t → t + WAIT_MS < Z.of_nat fuel * WAIT_MS →
  v_clock (waitForAvailable fuel status name t s).2 <= v_clock s + t + WAIT_MS ∧
  (waitForAvailable fuel status name t s).1 ≠ Err (Failed "out of fuel" "").
Proof.
  intros Ht Hf. unfold waitForAvailable, bind, get. unfold WAIT_MS in *.
  assert (H : ∀ s0, v_clock s0 <= v_clock s + t + 5000 → v_clock s + t + 5000 < v_clock s0 + Z.of_nat fuel * 5000 →
    v_clock (wait_loop fuel status name (v_clock s + t) t s0).2 <= v_clock s + t + 5000 ∧
    (wait_loop fuel status name (v_clock s + t) t s0).1 ≠ Err (Failed "out of fuel" "")); [|apply H; lia].
  clear Hf. induction fuel as [|fuel IH]; intros s0 H1 H2; [lia|]. cbn [wait_loop]. unfold bind, get, modify.
  case_bool_decide; [done|]. destruct (Z.ltb_spec (v_clock s + t) (v_clock s0)).
  - split; [done|]. intros [=].
  - apply IH; cbn [v_clock]; unfold WAIT_MS; lia.
Qed.
Lemma wait_bounded_witness : v_clock (waitForAvailable 9 (λ _, "modifying") "db" 20000 (Vault [] "" 0 [])).2 <= 25000.
Proof. apply (wait_bounded 9 (λ _, "modifying") "db" 20000 (Vault [] "" 0 [])); unfold WAIT_MS; lia. Defined.

Definition demo_secret : creds := Creds "app" "old" "db.internal" 5432 "vesting".
Definition demo_setting : setting := Setting (λ _, replicate 40 1) (λ _, None) (λ _, "available") "db" (λ _, Passed) (λ _ _ s, s).
Definition settled_vault : vault := Vault [Version "v1" demo_secret "" ["AWSCURRENT"; "AWSPENDING"]] "old" 0 [].
Definition fresh_vault : vault := Vault [Version "v1" demo_secret "" ["AWSCURRENT"]] "old" 0 [].
Definition four_steps : list (string * string) := [("createSecret", "v2"); ("setSecret", "v2"); ("testSecret", "v2"); ("finishSecret", "v2")].
Example first_rotation : db_password (rotation_run demo_setting 9 four_steps fresh_vault) = generatePassword (replicate 40 1).
Proof. vm_compute. reflexivity. Qed.
Lemma password_never_lost_witness :
  labelled (generatePassword (replicate 40 1)) (rotation_run demo_setting 9 four_steps fresh_vault) ∧
  updates (rotation_handler demo_setting 9 "finishSecret" "v2" (rotation_run demo_setting 9 (take 3 four_steps) fresh_vault)).2 =
    [(Some "v2", ["AWSPENDING"; "AWSCURRENT"; "AWSPREVIOUS"])].
Proof.
  assert (Hu : metadata_only demo_setting) by done.
  assert (Hs : labelled (db_password fresh_vault) fresh_vault).
  { exists (Version "v1" demo_secret "" ["AWSCURRENT"]). split; [by left|]. split; [done|]. left. by left. }
  split.
  - destruct (password_never_lost demo_setting 9 four_steps fresh_vault Hu Hs) as [H _]. rewrite first_rotation in H. exact H.
  - destruct (password_never_lost demo_setting 9 (take 3 four_steps) fresh_vault Hu Hs) as (_ & _ & _ & H).
    apply (H "v2" (Version "v1" demo_secret "" ["AWSCURRENT"])); [vm_compute; reflexivity|vm_compute; discriminate|vm_compute; discriminate].
Defined.
(** After a whole rotation the secret still shows the old password. *)
Lemma current_never_moves_witness : password ∘ v_secret <$> staged "AWSCURRENT" (versions (rotation_run demo_setting 9 four_steps fresh_vault)) = Some "old" ∧
  db_password (rotation_run demo_setting 9 four_steps fresh_vault) ≠ "old".
Proof.
  split; [|rewrite first_rotation; vm_compute; discriminate].
  destruct (current_never_moves demo_setting 9 four_steps fresh_vault (Version "v1" demo_secret "" ["AWSCURRENT"]) ltac:(done) eq_refl) as (c & Hc & _ & Hs).
  rewrite Hc. simpl. by rewrite Hs.
Defined.
Lemma rotation_stands_still_witness : versions (rotation_run demo_setting 9 four_steps settled_vault) = versions settled_vault.
Proof. apply (rotation_stands_still demo_setting 9 "v2" settled_vault (Version "v1" demo_secret "" ["AWSCURRENT"; "AWSPENDING"])); reflexivity. Defined.
Lemma promotion_asked_witness : finish_decision (versions fresh_vault) = Promote ["AWSPENDING"; "AWSCURRENT"; "AWSPREVIOUS"].
Proof. apply (promotion_asked _ (Version "v1" demo_secret "" ["AWSCURRENT"])); [reflexivity|discriminate|discriminate]. Defined.
