(* ===== verification/Shutdown.v ===== *)
(** * Graceful shutdown

    src/server/shutdown.js, the manager that counts the requests in flight,
    waits for them when a signal arrives, runs the registered teardown handlers
    one after the other, and ends the process, as a machine over the events of
    the server.  Log records are left out. *)
From stdpp Require Import list.
From S2P Require Import Prelude.

(** ** The manager *)

(** What a teardown handler calls. *)
Inductive handler := Calls (target method : string) | Nothing | Custom (n : nat).
(** A response: refused while shutting down, counted, or counted and over. *)
Inductive response := Refused | InFlight | Over.
#[global] Instance response_eq_dec : EqDecision response.
Proof. solve_decision. Defined.
(** Where [performShutdown] is: not called, waiting for the next check, with
    the handler of an index running, or after its last statement. *)
Inductive phase := Serving | Waiting | Tearing (k : nat) | Completed.
Record manager := Manager {
  isShuttingDown : bool; inFlightCount : Z; timeoutMs : Z;
  teardownHandlers : list (string * handler);   (* a [Map], in insertion order *)
  responses : list response;
  stage : phase;
  forceTimer : bool;                            (* the timer is pending *)
  ran : list (string * handler);                (* handlers called, in order *)
  accepting : bool;                             (* the server was not closed *)
  exits : list Z                                (* calls of [process.exit] *)
}.
Definition set_count (n : Z) (rs : list response) (m : manager) : manager :=
  Manager (isShuttingDown m) n (timeoutMs m) (teardownHandlers m) rs (stage m) (forceTimer m) (ran m) (accepting m) (exits m).
Definition set_handlers (hs : list (string * handler)) (m : manager) : manager :=
  Manager (isShuttingDown m) (inFlightCount m) (timeoutMs m) hs (responses m) (stage m) (forceTimer m) (ran m) (accepting m) (exits m).
Definition set_stage (p : phase) (t : bool) (rn : list (string * handler)) (ex : list Z) (m : manager) : manager :=
  Manager (isShuttingDown m) (inFlightCount m) (timeoutMs m) (teardownHandlers m) (responses m) p t rn (accepting m) ex.

(** [Map.prototype.set]: an entry that is there keeps its place. *)
Fixpoint map_set (name : string) (h : handler) (hs : list (string * handler)) : list (string * handler) :=
  match hs with
  | [] => [(name, h)]
  | (k, h') :: hs => if decide (k = name) then (k, h) :: hs else (k, h') :: map_set name h hs
  end.
Definition registerTeardown (name : string) (h : handler) (m : manager) : manager :=
  set_handlers (map_set name h (teardownHandlers m)) m.

(** The clients the constructor may be given, with the methods they have. *)
Record clients := Clients { dbPool : option (bool * bool); redisClient : option (bool * bool); eventWorker : option bool }.
Definition either (target first second : string) (has : bool * bool) : handler :=
  if has.1 then Calls target first else if has.2 then Calls target second else Nothing.
Definition ShutdownManager (timeout : option Z) (c : clients) : manager :=
  let m := Manager false 0 (default 30000 timeout) [] [] Serving false [] true [] in
  let m := match dbPool c with Some has => registerTeardown "dbPool" (either "dbPool" "end" "drain" has) m | None => m end in
  let m := match redisClient c with Some has => registerTeardown "redisClient" (either "redisClient" "quit" "disconnect" has) m | None => m end in
  match eventWorker c with
  | Some stop => registerTeardown "eventWorker" (if stop then Calls "eventWorker" "stop" else Nothing) m
  | None => m
  end.

(** ** Requests *)

(** [getInFlightMiddleware]: a request gets its answer at once, or is counted. *)
Definition request (m : manager) : manager :=
  if isShuttingDown m then set_count (inFlightCount m) (responses m ++ [Refused]) m
  else set_count (inFlightCount m + 1) (responses m ++ [InFlight]) m.
(** [cleanup]: the listener of both [finish] and [close], which removes itself
    from both. *)
Definition cleanup (i : nat) (m : manager) : manager :=
  match responses m !! i with
  | Some InFlight => set_count (Z.max 0 (inFlightCount m - 1)) (<[i := Over]> (responses m)) m
  | _ => m
  end.

(** ** [performShutdown] *)

(** The loop over the handlers from an index on, up to the next [await]. *)
Definition teardown (k : nat) (m : manager) : manager :=
  match teardownHandlers m !! k with
  | Some h => set_stage (Tearing k) (forceTimer m) (ran m ++ [h]) (exits m) m
  | None => set_stage Completed false (ran m) (exits m ++ [0]) m
  end.
(** [check] of [waitForInFlightRequests], and what follows when it resolves. *)
Definition check (m : manager) : manager :=
  if inFlightCount m =? 0 then teardown 0 m else set_stage Waiting (forceTimer m) (ran m) (exits m) m.
Definition performShutdown (m : manager) : manager :=
  if isShuttingDown m then m
  else check (Manager true (inFlightCount m) (timeoutMs m) (teardownHandlers m) (responses m) (stage m) true (ran m) false (exits m)).

(** [Finish] and [Close] are the two events of a response, [Check] the timer of
    fifty milliseconds, [Settled] the end of the handler that runs, and [Force]
    the timer of [timeoutMs]. *)
Inductive server_event :=
| Request | Finish (i : nat) | Close (i : nat) | Register (name : string) (h : handler)
| Signal | Check50 | Settled (ok : bool) | Force.
(** [process.exit] does not return: nothing happens afterwards. *)
Definition server_step (m : manager) (e : server_event) : manager :=
  match exits m with
  | _ :: _ => m
  | [] =>
      match e with
      | Request => request m
      | Finish i | Close i => cleanup i m
      | Register name h => registerTeardown name h m
      | Signal => performShutdown m
      | Check50 => match stage m with Waiting => check m | _ => m end
      | Settled _ => match stage m with Tearing k => teardown (S k) m | _ => m end
      | Force => if forceTimer m then set_stage (stage m) false (ran m) (exits m ++ [1]) m else m
      end
  end.
Definition server_run (m : manager) (es : list server_event) : manager := foldl server_step m es.

(** ** The invariant *)

Definition open_responses (m : manager) : list response := filter (λ r, r = InFlight) (responses m).
Definition names (hs : list (string * handler)) : list string := hs.*1.
#[local] Arguments names : simpl never.

(** The stage and what it implies: handlers run in the order of their
    registration, and only once no request is in flight. *)
Definition stage_ok (m : manager) : Prop :=
  match stage m with
  | Serving => isShuttingDown m = false ∧ ran m = [] ∧ exits m = [] ∧ forceTimer m = false
  | Waiting => isShuttingDown m = true ∧ ran m = []
  | Tearing k => isShuttingDown m = true ∧ inFlightCount m = 0 ∧
      (k < length (teardownHandlers m))%nat ∧ names (ran m) = take (S k) (names (teardownHandlers m))
  | Completed => isShuttingDown m = true ∧ inFlightCount m = 0 ∧ names (ran m) = names (teardownHandlers m)
  end.
Definition exits_ok (m : manager) : Prop :=
  match stage m with Completed => exits m = [0] ∧ forceTimer m = false | _ => exits m = [] ∨ exits m = [1] end.
Definition server_ok (m : manager) : Prop :=
  inFlightCount m = Z.of_nat (length (open_responses m)) ∧ stage_ok m ∧ exits_ok m.

(** ** Theorems *)

Lemma map_set_names name h hs : ∃ more, names (map_set name h hs) = names hs ++ more.
Proof.
  induction hs as [|[k h'] hs [more IH]]; [by exists [name]|]. cbn [map_set]. case_decide; [by exists []; rewrite app_nil_r|].
  exists more. unfold names in *. cbn. by f_equal.
Qed.
Lemma names_length hs : length (names hs) = length hs. Proof. apply length_fmap. Qed.

Lemma open_insert rs i : rs !! i = Some InFlight →
  length (filter (λ r, r = InFlight) rs) = S (length (filter (λ r, r = InFlight) (<[i := Over]> rs))).
Proof.
  revert i. induction rs as [|r rs IH]; intros [|i] Hi; [done..| |].
  - injection Hi as ->. change (<[0%nat:=Over]> (InFlight :: rs)) with (Over :: rs).
    rewrite filter_cons_True by done. by rewrite filter_cons_False by done.
  - change (<[S i:=Over]> (r :: rs)) with (r :: <[i:=Over]> rs). specialize (IH i Hi). rewrite !filter_cons.
    destruct (decide (r = InFlight)); simpl; lia.
Qed.

Lemma open_app rs r : length (filter (λ r, r = InFlight) (rs ++ [r])) =
  (length (filter (λ r, r = InFlight) rs) + if decide (r = InFlight) then 1 else 0)%nat.
Proof. rewrite filter_app, length_app, filter_cons. by destruct (decide (r = InFlight)). Qed.

Lemma teardown_ok k m : inFlightCount m = Z.of_nat (length (open_responses m)) → isShuttingDown m = true → inFlightCount m = 0 →
  exits m = [] → (k ≤ length (teardownHandlers m))%nat → names (ran m) = take k (names (teardownHandlers m)) → server_ok (teardown k m).
Proof.
  intros Hc Hs H0 He Hk Hr. unfold teardown. destruct (teardownHandlers m !! k) as [h|] eqn:Hh.
  - split; [done|]. cbn. split; [|by left]. split_and!; try done; [by eapply lookup_lt_Some|].
    unfold names in *. rewrite fmap_app, Hr. symmetry. apply take_S_r. by rewrite list_lookup_fmap, Hh.
  - split; [done|]. cbn. rewrite He. split; [|done]. split_and!; try done. apply lookup_ge_None in Hh. etrans; [exact Hr|].
    apply take_ge. by rewrite names_length.
Qed.
Lemma check_ok m : inFlightCount m = Z.of_nat (length (open_responses m)) → isShuttingDown m = true → ran m = [] → exits m = [] → server_ok (check m).
Proof.
  intros Hc Hs Hr He. unfold check. destruct (Z.eqb_spec (inFlightCount m) 0).
  - apply teardown_ok; try done; [lia|by rewrite Hr].
  - split; [done|]. cbn. by rewrite He; auto.
Qed.

Lemma server_step_ok m e : server_ok m → server_ok (server_step m e).
Proof.
  intros Hok. unfold server_step. destruct (exits m) as [|x ex] eqn:He; [|done]. pose proof Hok as (Hc & Hs & Hx).
  assert (Hclean : ∀ i, server_ok (cleanup i m)).
  { intros i. unfold cleanup. destruct (responses m !! i) as [[]|] eqn:Hi; try done.
    pose proof (open_insert _ _ Hi) as Hl. unfold open_responses in Hc. rewrite Hl in Hc. split; [cbn; unfold open_responses; cbn; lia|].
    split; [|done]. unfold stage_ok in *. cbn. destruct (stage m); naive_solver lia. }
  destruct e as [|i|i|name h| | |ok|]; try done.
  - unfold request. destruct (isShuttingDown m) eqn:Hd.
    + split; [|done]. unfold open_responses in *. change (responses (set_count _ ?rs m)) with rs. rewrite open_app. cbn [decide]. by rewrite Nat.add_0_r.
    + split; [unfold open_responses in *; change (responses (set_count _ ?rs m)) with rs; rewrite open_app; change (inFlightCount _) with (inFlightCount m + 1); rewrite decide_True by done; lia|].
      split; [|done]. unfold stage_ok in *. cbn. destruct (stage m); [done|exfalso; destruct Hs; congruence..].
  - split; [done|]. split; [|done]. unfold stage_ok in *. cbn. destruct (map_set_names name h (teardownHandlers m)) as [more Hn].
    destruct (stage m) as [| |k|] eqn:Hst; [done..| |].
    + destruct Hs as (? & ? & Hk & Hr). assert (Hl := f_equal length Hn). rewrite length_app, !names_length in Hl.
      split_and!; try done; [lia|]. rewrite Hr, Hn, take_app_le; [done|]. rewrite names_length. lia.
    + unfold exits_ok in Hx. rewrite Hst in Hx. naive_solver congruence.
  - unfold performShutdown. destruct (isShuttingDown m) eqn:Hd; [done|]. unfold stage_ok in Hs. apply check_ok; try done.
    destruct (stage m); naive_solver congruence.
  - unfold stage_ok in Hs. destruct (stage m) eqn:Hst; try done. destruct Hs. by apply check_ok.
  - unfold stage_ok in Hs. destruct (stage m) eqn:Hst; try done. destruct Hs as (? & ? & ? & ?). by apply teardown_ok.
  - destruct (forceTimer m) eqn:Hf; [|done]. split; [done|]. unfold exits_ok in *. cbn. split.
    + unfold stage_ok in *. cbn. destruct (stage m); naive_solver congruence.
    + destruct (stage m) eqn:Hst; [naive_solver..|]. rewrite He in Hx. naive_solver.
Qed.

Lemma constructed timeout c : server_ok (ShutdownManager timeout c).
Proof. destruct c as [[[[] []]|] [[[] []]|] [[]|]]; split_and!; try done; by left. Qed.
Lemma server_run_ok timeout c es : server_ok (server_run (ShutdownManager timeout c) es).
Proof.
  pose proof (constructed timeout c) as H. revert H. generalize (ShutdownManager timeout c). unfold server_run.
  induction es as [|e es IH]; intros m H; [done|]. by apply IH, server_step_ok.
Qed.

(** However requests come and end and whenever the signal arrives: the count
    is the number of requests in flight; a teardown handler runs only after the
    signal and with none in flight; the handlers run in the order of their
    registration, each once; and the process ends at most once, with 0 after
    every handler or with 1 before. *)
Theorem shutdown_in_order timeout c es : let m := server_run (ShutdownManager timeout c) es in
  inFlightCount m = Z.of_nat (length (open_responses m)) ∧
  (ran m ≠ [] → isShuttingDown m = true ∧ open_responses m = []) ∧
  names (ran m) = take (length (ran m)) (names (teardownHandlers m)) ∧
  (exits m = [] ∨ exits m = [0] ∧ names (ran m) = names (teardownHandlers m) ∨ exits m = [1]).
Proof.
  intros m. destruct (server_run_ok timeout c es) as (Hc & Hs & Hx). fold m in Hc, Hs, Hx. split; [done|].
  assert (Hopen : inFlightCount m = 0 → open_responses m = []) by (intros H0; apply nil_length_inv; lia).
  unfold stage_ok, exits_ok in *. destruct (stage m) as [| |k|].
  - destruct Hs as (_ & -> & He & _). naive_solver.
  - destruct Hs as (_ & ->). naive_solver.
  - destruct Hs as (? & ? & Hk & Hr). split_and!; [by auto| |naive_solver]. rewrite Hr.
    assert (Hl := f_equal length Hr). rewrite length_take, !names_length in Hl. f_equal. lia.
  - destruct Hs as (? & ? & Hr). split_and!; [by auto| |naive_solver]. rewrite Hr.
    assert (Hl := f_equal length Hr). rewrite !names_length in Hl. rewrite take_ge; [done|]. rewrite names_length. lia.
Qed.

(** After the signal every request is refused and no further one is counted;
    a second signal changes nothing. *)
Theorem refused_after_signal m e : isShuttingDown m = true →
  isShuttingDown (server_step m e) = true ∧ inFlightCount (server_step m e) <= Z.max 0 (inFlightCount m) ∧
  (exits m = [] → responses (server_step m Request) = responses m ++ [Refused]) ∧ server_step m Signal = m.
Proof.
  intros Hd. unfold server_step. destruct (exits m); [|split_and!; try done; lia]. split_and!.
  - destruct e; cbn; unfold request, cleanup, performShutdown, check, teardown; rewrite ?Hd; repeat case_match; done.
  - destruct e; cbn; unfold request, cleanup, performShutdown, check, teardown; rewrite ?Hd; repeat case_match; cbn; lia.
  - intros _. unfold request. by rewrite Hd.
  - unfold performShutdown. by rewrite Hd.
Qed.
Lemma refused_after_signal_witness : let m := server_run (ShutdownManager None (Clients None None None)) [Request; Signal] in
  isShuttingDown m = true ∧ responses (server_step m Request) = [InFlight; Refused].
Proof.
  intros m. assert (Hd : isShuttingDown m = true) by reflexivity. split; [done|].
  destruct (refused_after_signal m Request Hd) as (_ & _ & Hr & _). rewrite Hr by reflexivity. reflexivity.
Defined.

Lemma settle_all oks k m : stage m = Tearing k → exits m = [] → length oks = (length (teardownHandlers m) - k)%nat →
  stage_ok m → let m' := server_run m (Settled <$> oks) in
  exits m' = [0] ∧ ran m' = ran m ++ drop (S k) (teardownHandlers m).
Proof.
  revert k m. induction oks as [|ok oks IH]; intros k m Hst He Hlen Hok m'; unfold stage_ok in Hok; rewrite Hst in Hok;
    destruct Hok as (Hd & H0 & Hk & Hr); [cbn in Hlen; lia|].
  unfold m', server_run. cbn [fmap list_fmap foldl]. unfold server_step at 2 4. rewrite He, Hst. unfold teardown.
  destruct (teardownHandlers m !! S k) as [h|] eqn:Hh.
  - apply lookup_lt_Some in Hh as Hlt. set (q := set_stage _ _ _ _ m).
    destruct (IH (S k) q eq_refl He) as [He' Hr']; [cbn in *; lia| |].
    { unfold stage_ok. cbn. split_and!; try done. unfold names in *. rewrite fmap_app, Hr. symmetry.
      apply take_S_r. by rewrite list_lookup_fmap, Hh. }
    split; [done|]. etrans; [exact Hr'|]. cbn. rewrite <-app_assoc. f_equal. symmetry. by apply drop_S.
  - apply lookup_ge_None in Hh. assert (oks = []) as -> by (apply nil_length_inv; cbn in Hlen; lia). cbn. rewrite He.
    split; [done|]. by rewrite drop_ge, app_nil_r.
Qed.
(** Once the requests in flight are over, the next check and the ends of the
    handlers, failed or not, bring the process to its end: every handler has
    run, and the exit code is 0. *)
Theorem shutdown_completes m oks : stage m = Waiting → isShuttingDown m = true → ran m = [] → exits m = [] → inFlightCount m = 0 →
  length oks = length (teardownHandlers m) →
  let m' := server_run m (Check50 :: (Settled <$> oks)) in exits m' = [0] ∧ ran m' = teardownHandlers m.
Proof.
  intros Hst Hd Hr He H0 Hlen m'. unfold m', server_run. cbn [foldl]. unfold server_step at 2 4. rewrite He, Hst. unfold check. rewrite H0. cbn [Z.eqb].
  unfold teardown. destruct (teardownHandlers m) as [|h hs] eqn:Hh.
  - assert (oks = []) as -> by by apply nil_length_inv. cbn. by rewrite He, Hr.
  - cbn [lookup list_lookup]. set (q := set_stage _ _ _ _ m).
    destruct (settle_all oks 0 q eq_refl He) as [He' Hr']; [cbn; rewrite Hh, Hlen; cbn; lia| |].
    { unfold stage_ok. cbn. rewrite Hh, Hr. split_and!; try done. cbn. lia. }
    split; [done|]. etrans; [exact Hr'|]. cbn. by rewrite Hr, Hh.
Qed.
Lemma shutdown_completes_witness :
  let m := server_run (ShutdownManager None (Clients (Some (true, false)) (Some (false, true)) None)) [Request; Signal; Close 0] in
  ran (server_run m (Check50 :: (Settled <$> [false; true]))) =
    [("dbPool", Calls "dbPool" "end"); ("redisClient", Calls "redisClient" "disconnect")].
Proof.
  intros m. destruct (shutdown_completes m [false; true]) as [_ ->]; reflexivity.
Defined.

(** A request that never ends keeps the process alive for the whole time
    limit, and then no handler runs: the pool, the cache and the worker are
    not closed. *)
Theorem forced_exit_skips_teardown timeout c n :
  let m := server_run (ShutdownManager timeout c) (Request :: Signal :: repeat Check50 n ++ [Force]) in
  exits m = [1] ∧ ran m = [] ∧ stage m = Waiting.
Proof.
  intros m. unfold m, server_run. cbn [foldl]. rewrite foldl_app.
  assert (Hw : ∀ q, stage q = Waiting → inFlightCount q = 1 → exits q = [] → foldl server_step q (repeat Check50 n) = q).
  { clear. intros q Hst Hc He. induction n as [|n IH]; [done|]. cbn. unfold server_step at 2. rewrite He, Hst. unfold check. rewrite Hc. cbn.
    replace (set_stage Waiting (forceTimer q) (ran q) (exits q) q) with q; [done|]. destruct q. cbn in *. by subst. }
  rewrite Hw; by destruct c as [[[[] []]|] [[[] []]|] [[]|]].
Qed.
