(* ===== verification/Drain.v ===== *)
(** * The drain endpoint

    src/server/drain.js: the token check, the limit of one execution per five
    minutes, the selection of the streams that are over, and the two answers.
    Times are milliseconds.  [jsonwebtoken] and the hash are parameters. *)
From Stdlib Require Import QArith.
From stdpp Require Import list.
From S2P Require Import Prelude Digits Double.
#[local] Open Scope Z_scope.

(** ** Values of a request *)

(** A field of a body, a query or a token; an object stands for its text,
    which is what it is converted to. *)
Inductive value := Absent | Null | Bool (b : bool) | Num (x : double) | Text (s : string) | Object (text : string).
Definition to_number (v : value) : double :=
  match v with
  | Absent => DNaN
  | Null => of_Z 0
  | Bool b => of_Z (if b then 1 else 0)
  | Num x => x
  | Text s | Object s => Number s
  end.
Definition truthy_value (v : value) : bool :=
  match v with
  | Absent | Null => false
  | Bool b => b
  | Num x => match x with DNaN => false | DInf _ => true | DFin q => negb (is_zero q) end
  | Text s => truthy s
  | Object _ => true
  end.
(** [v ?? w] *)
Definition or_value (v w : value) : value := match v with Absent | Null => w | _ => v end.
Definition is_text (s : string) (v : value) : bool := match v with Text t => bool_decide (t = s) | _ => false end.
Definition is_true (v : value) : bool := match v with Bool b => b | _ => false end.

Record stream := Stream { recipient : string; end_ledger : Z }.
Record claims := Claims { role : value; scope : value; isAdmin : value }.
Record drain_request := Drain {
  authorization : option string;
  query_dry_run : value; body_dry_run : value;
  current_ledger : value;
  body_delay : value; query_delay : value
}.
Record drained := Drained { d_recipient : string; d_end_ledger : Z; tx_hash : option string }.
Record drain_error := Refusal { status : Z; message : string }.
Inductive drain_answer :=
| Limited (remainingSecs : Z)
| Answer (scanned eligible submitted : nat) (dry_run : bool) (streams : list drained)
| Failed (e : drain_error).               (* [next(err)] *)

(** [options.jwtSecret || process.env.JWT_SECRET || 'secret-key'] *)
Definition secret (option_secret env_secret : option string) : string :=
  match option_secret with
  | Some s => if truthy s then s else match env_secret with Some e => if truthy e then e else "secret-key" | None => "secret-key" end
  | None => match env_secret with Some e => if truthy e then e else "secret-key" | None => "secret-key" end
  end.

Lemma filter_agree {A} (P Q : A → Prop) `{!∀ x, Decision (P x), !∀ x, Decision (Q x)} (l : list A) :
  Forall (λ x, P x ↔ Q x) l → filter P l = filter Q l.
Proof. induction 1 as [|x l Hx _ IH]; [done|]. rewrite !filter_cons. repeat case_decide; by rewrite ?IH; tauto || f_equal. Qed.

Section drain.
Context (verify : string → string → option claims) (sha256 : string → string).
Context (jwtSecret : string) (cooldownMs : Z) (streams : list stream) (getCurrentLedger : Z).

(** ** [verifyAdminJwt] *)

Definition MISSING_HEADER : drain_error := Refusal 401 "Missing or invalid Authorization header".
Definition SCOPE_REQUIRED : drain_error := Refusal 403 "Admin scope required".
Definition INVALID_TOKEN : drain_error := Refusal 401 "Invalid JWT token".
(** [authHeader.split(' ')[1]] of a header that starts with [Bearer]. *)
Definition token_of (header : string) : string := default "" (split_on " " header !! 1%nat).
Definition verifyAdminJwt (header : option string) : result drain_error claims :=
  match header with
  | None => Err MISSING_HEADER
  | Some h =>
      if negb (truthy h) || negb (starts_with "Bearer " h) then Err MISSING_HEADER
      else match verify (token_of h) jwtSecret with
           | None => Err INVALID_TOKEN
           | Some d =>
               if negb (is_text "admin" (role d)) && negb (is_text "admin" (scope d)) && negb (truthy_value (isAdmin d))
               then Err SCOPE_REQUIRED else Ok d
           end
  end.

(** ** [getDrainHandler] *)

Definition isDryRun (r : drain_request) : bool :=
  is_text "true" (query_dry_run r) || is_true (query_dry_run r) || is_true (body_dry_run r) || is_text "true" (body_dry_run r).
(** [Math.ceil((cooldownMs - (now - last)) / 1000)]: the quotient of such
    integers is rounded by less than a thousandth, so the ceiling is exact. *)
Definition remaining (now last : Z) : Z := - (- (cooldownMs - (now - last)) / 1000).
Definition isExpired (current delay : value) (s : stream) : bool :=
  lt64 (add64 (of_Z (end_ledger s)) (to_number delay)) (to_number current).
Definition eligible_streams (r : drain_request) : list stream :=
  let current := or_value (current_ledger r) (Num (of_Z getCurrentLedger)) in
  let delay := or_value (or_value (body_delay r) (query_delay r)) (Num (of_Z 10)) in
  filter (λ s, isExpired current delay s = true) streams.
(** [stamp] is [Date.now()] while the streams are processed, and the state is
    [lastDrainTime]. *)
Definition drain (now : Z) (stamp : nat → Z) (r : drain_request) (lastDrainTime : Z) : drain_answer * Z :=
  match verifyAdminJwt (authorization r) with
  | Err e => (Failed e, lastDrainTime)
  | Ok _ =>
      if negb (isDryRun r) && (0 <? lastDrainTime) && (now - lastDrainTime <? cooldownMs) then
        (Limited (remaining now lastDrainTime), lastDrainTime)
      else
        let el := eligible_streams r in
        if isDryRun r then
          (Answer (length streams) (length el) 0 true ((λ s, Drained (recipient s) (end_ledger s) None) <$> el), lastDrainTime)
        else
          let processed := imap (λ i s, Drained (recipient s) (end_ledger s)
                                          (Some (sha256 (recipient s +:+ ":" +:+ Z_to_string (stamp i))))) el in
          (Answer (length streams) (length el) (length processed) false processed, now)
  end.

(** A sequence of requests, each at its time. *)
Fixpoint drain_run (calls : list (Z * (nat → Z) * drain_request)) (last : Z) : list (Z * drain_answer) :=
  match calls with
  | [] => []
  | (now, stamp, r) :: calls => let '(a, last') := drain now stamp r last in (now, a) :: drain_run calls last'
  end.
(** The times of the executions. *)
Definition executed (log : list (Z * drain_answer)) : list Z :=
  omap (λ ta, match ta.2 with Answer _ _ _ false _ => Some ta.1 | _ => None end) log.

(** ** Theorems *)

(** [t]s at least [gap] apart. *)
Fixpoint apart (gap : Z) (l : list Z) : Prop :=
  match l with
  | t :: ((u :: _) as l') => gap <= u - t ∧ apart gap l'
  | _ => True
  end.

Lemma drain_cases now stamp r last :
  (executed [(now, (drain now stamp r last).1)] = [] ∧ (drain now stamp r last).2 = last) ∨
  (executed [(now, (drain now stamp r last).1)] = [now] ∧ (drain now stamp r last).2 = now ∧ (last <= 0 ∨ cooldownMs <= now - last)).
Proof.
  unfold drain. destruct (verifyAdminJwt _); [|by left]. destruct (isDryRun r); [by left|]. cbn [negb andb].
  destruct (Z.ltb_spec 0 last), (Z.ltb_spec (now - last) cooldownMs); cbn [andb]; [by left|right; split_and!; [done..|lia]..].
Qed.
Lemma executed_cons x log : executed (x :: log) = executed [x] ++ executed log.
Proof. unfold executed. cbn. by destruct (x.2) as [| ? ? ? [] ?|]. Qed.

Lemma drains_apart_from calls last : 0 < last → Forall (λ c, 0 < c.1.1) calls → apart cooldownMs (last :: executed (drain_run calls last)).
Proof.
  revert last. induction calls as [|[[now stamp] r] calls IH]; intros last Hl [Hn Hc]%Forall_cons || intros last Hl _; [done|].
  cbn [drain_run]. destruct (drain_cases now stamp r last) as [[He Hs]|(He & Hs & Hgap)]; destruct (drain now stamp r last) as [a last'];
    cbn [fst snd] in *; subst last'; rewrite executed_cons, He; cbn [app].
  - by apply IH.
  - split; [lia|]. by apply IH.
Qed.
(** Executions are at least the cooldown apart, whoever asks and whatever lies
    between them: refused calls and dry runs move nothing. *)
Theorem drains_apart calls : Forall (λ c, 0 < c.1.1) calls → apart cooldownMs (executed (drain_run calls 0)).
Proof.
  induction calls as [|[[now stamp] r] calls IH]; intros Hc; [done|]. apply Forall_cons in Hc as [Hn Hc]. cbn [drain_run].
  destruct (drain_cases now stamp r 0) as [[He Hs]|(He & Hs & Hgap)]; destruct (drain now stamp r 0) as [a last'];
    cbn [fst snd] in *; subst last'; rewrite executed_cons, He; cbn [app]; [by apply IH|]. by apply drains_apart_from.
Qed.

(** Only a header with a token that verifies, of an administrator, is answered
    with anything else than a refusal; and refusals change nothing. *)
Theorem drain_authorised now stamp r last :
  match (drain now stamp r last).1 with
  | Failed e => (drain now stamp r last).2 = last ∧ (status e = 401 ∨ status e = 403)
  | _ => ∃ h d, authorization r = Some h ∧ starts_with "Bearer " h = true ∧ verify (token_of h) jwtSecret = Some d ∧
      (role d = Text "admin" ∨ scope d = Text "admin" ∨ truthy_value (isAdmin d) = true)
  end.
Proof.
  unfold drain. destruct (verifyAdminJwt (authorization r)) as [d|e] eqn:Hv; unfold verifyAdminJwt in Hv.
  - destruct (authorization r) as [h|]; [|done]. destruct (truthy h), (starts_with "Bearer " h) eqn:Hb; try done. cbn [negb orb] in Hv.
    destruct (verify _ _) as [d'|] eqn:Hd; [|done].
    assert (role d' = Text "admin" ∨ scope d' = Text "admin" ∨ truthy_value (isAdmin d') = true) as Hrole.
    { unfold is_text in Hv. destruct (role d') as [| | | |t|], (scope d') as [| | | |u|], (truthy_value (isAdmin d'));
        repeat case_bool_decide; subst; try done; auto. }
    repeat case_match; simplify_eq; by eexists _, _.
  - cbn. split; [done|]. repeat case_match; simplify_eq; auto.
Qed.

(** A dry run reports the streams an execution at that time would process,
    and leaves the limit alone. *)
Theorem dry_run_previews now stamp last r r' : isDryRun r = true → isDryRun r' = false → authorization r' = authorization r →
  eligible_streams r' = eligible_streams r → last <= 0 →
  match (drain now stamp r last).1, (drain now stamp r' last).1 with
  | Answer n k j _ rows, Answer n' k' j' _ rows' => n = n' ∧ k = k' ∧ j = 0%nat ∧ j' = k' ∧
      ((λ x, (d_recipient x, d_end_ledger x)) <$> rows) = ((λ x, (d_recipient x, d_end_ledger x)) <$> rows')
  | Failed e, Failed e' => e = e'
  | _, _ => False
  end ∧ (drain now stamp r last).2 = last.
Proof.
  intros Hd Hd' Ha He Hl. unfold drain. rewrite Ha, Hd, Hd', He. destruct (verifyAdminJwt _); [|done]. cbn [negb andb].
  destruct (Z.ltb_spec 0 last); [lia|]. cbn [andb fst snd]. rewrite length_imap. split_and!; try done.
  apply list_eq. intros i. rewrite !list_lookup_fmap, list_lookup_imap. by destruct (eligible_streams r !! i).
Qed.

(** With whole numbers, the streams processed are those whose end lies more
    than the delay before the ledger; with something that is no number, none. *)
Theorem eligible_exact r : let current := or_value (current_ledger r) (Num (of_Z getCurrentLedger)) in
  let delay := or_value (or_value (body_delay r) (query_delay r)) (Num (of_Z 10)) in
  (∀ c d, to_number current = of_Z c → to_number delay = of_Z d → 0 <= c < 2 ^ 52 → 0 <= d < 2 ^ 52 →
    Forall (λ s, 0 <= end_ledger s < 2 ^ 52) streams →
    eligible_streams r = filter (λ s, (end_ledger s + d <? c) = true) streams) ∧
  (to_number current = DNaN ∨ to_number delay = DNaN → eligible_streams r = []).
Proof.
  clear verify sha256 jwtSecret. intros current delay. unfold eligible_streams. fold current delay. split.
  - intros c d Hc Hd Bc Bd Hs. apply filter_agree. eapply Forall_impl; [exact Hs|]. intros s Be. cbn in Be. unfold isExpired.
    rewrite Hc, Hd, !of_Z_small, add64_Z by lia. cbn [lt64]. rewrite negb_true_iff, <-not_true_iff_false, Qle_bool_iff, <-Zle_Qle, Z.ltb_lt. lia.
  - intros Hn. apply filter_none. intros s _. unfold isExpired. destruct Hn as [-> | ->]; cbn; [by destruct (add64 _ _)|].
    by destruct (of_Z (end_ledger s)).
Qed.

(** An execution submits nothing: it takes no stream away, so that the next
    one, after the cooldown, reports the same streams as submitted again. *)
Theorem drained_again now now' stamp stamp' r last : isDryRun r = false → is_ok (verifyAdminJwt (authorization r)) = true →
  last <= 0 → cooldownMs <= now' - now →
  match (drain now stamp r last).1, (drain now' stamp' r (drain now stamp r last).2).1 with
  | Answer _ _ j false rows, Answer _ _ j' false rows' => j = j' ∧ j = length (eligible_streams r) ∧ d_recipient <$> rows = d_recipient <$> rows'
  | _, _ => False
  end.
Proof.
  intros Hd Hv Hl Hgap. unfold drain. rewrite Hd. destruct (verifyAdminJwt _); [|done]. cbn [negb andb].
  destruct (Z.ltb_spec 0 last); [lia|]. cbn [andb fst snd]. replace (now' - now <? cooldownMs) with false by lia. rewrite andb_false_r.
  cbn [fst]. rewrite !length_imap. split_and!; try done.
  apply list_eq. intros i. rewrite !list_lookup_fmap, !list_lookup_imap. by destruct (eligible_streams r !! i).
Qed.
End drain.

Definition demo_drain (d : value) : drain_request := Drain (Some "Bearer t") Absent d Absent Absent (Text "20").
Definition demo_verify (t _ : string) : option claims := if decide (t = "t") then Some (Claims (Text "admin") Absent Absent) else None.
Definition demo_streams : list stream := [Stream "A" 100; Stream "B" 280; Stream "C" 500].

Lemma drains_apart_witness :
  executed (drain_run demo_verify (λ x, x) "s" 300000 demo_streams 300
    [(5, λ _, 5, demo_drain Absent); (300004, λ _, 0, demo_drain Absent); (300005, λ _, 0, demo_drain Absent)] 0) = [5; 300005] ∧
  apart 300000 [5; 300005].
Proof.
  split; [vm_compute; reflexivity|].
  assert (H := drains_apart demo_verify (λ x, x) "s" 300000 demo_streams 300
    [(5, λ _, 5, demo_drain Absent); (300004, λ _, 0, demo_drain Absent); (300005, λ _, 0, demo_drain Absent)]).
  apply (H ltac:(repeat constructor)).
Defined.
Lemma dry_run_previews_witness : (drain demo_verify (λ x, x) "s" 300000 demo_streams 300 5 (λ _, 5) (demo_drain (Bool true)) 0).1 =
  Answer 3 1 0 true [Drained "A" 100 None] ∧ (drain demo_verify (λ x, x) "s" 300000 demo_streams 300 5 (λ _, 5) (demo_drain (Bool true)) 0).2 = 0.
Proof.
  split; [vm_compute; reflexivity|].
  apply (dry_run_previews demo_verify (λ x, x) "s" 300000 demo_streams 300 5 (λ _, 5) 0 (demo_drain (Bool true)) (demo_drain Absent)); done.
Defined.
Lemma eligible_exact_witness : eligible_streams demo_streams 300 (demo_drain Absent) = [Stream "A" 100].
Proof.
  destruct (eligible_exact demo_streams 300 (demo_drain Absent)) as [H _].
  rewrite (H 300 20); [vm_compute; reflexivity|vm_compute; reflexivity|vm_compute; reflexivity|done|done|repeat constructor; done].
Defined.
Lemma drained_again_witness : isDryRun (demo_drain Absent) = false ∧
  match (drain demo_verify (λ x, x) "s" 300000 demo_streams 300 5 (λ _, 5) (demo_drain Absent) 0).1,
    (drain demo_verify (λ x, x) "s" 300000 demo_streams 300 400000 (λ _, 7) (demo_drain Absent) 5).1 with
  | Answer _ _ j false rows, Answer _ _ j' false rows' => j = j' ∧ j = 1%nat ∧ d_recipient <$> rows = d_recipient <$> rows'
  | _, _ => False
  end.
Proof.
  split; [reflexivity|].
  exact (drained_again demo_verify (λ x, x) "s" 300000 demo_streams 300 5 400000 (λ _, 5) (λ _, 7) (demo_drain Absent) 0 eq_refl eq_refl ltac:(done) ltac:(lia)).
Defined.
