(* ===== verification/HorizonPool.v ===== *)
(** * The pool of Horizon endpoints

    src/server/horizon.js: up to three endpoints with their failure counts and
    circuit breakers, requests that rotate over them and fail over, and the
    status reports.  Requests overlap at their [fetch].  The breaker is the
    library's, a class here; times are milliseconds. *)
From stdpp Require Import list.
From S2P Require Import Prelude.

(** ** The library's breaker *)

(** [state === Open]; [execute] up to the call ([None]: rejected without a
    call); and what the outcome of a call does. *)
Class Breaker (B : Type) := {
  fresh : Z → Z → B;
  is_open : B → bool;
  admits : Z → B → option B;
  succeeded : B → B;
  failed : Z → B → B
}.

Section pool.
Context {B : Type} `{!Breaker B}.
(** [new URL(path, base)], [None] when it throws. *)
Context (resolve : string → string → option string).

(** ** Endpoints *)

Record endpoint := Endpoint { url : string; consecutiveFailures : Z; isHealthy : bool; lastFailureTime : Z; breaker : B }.
(** A request with the endpoints still to try (and how many there were), or
    settled.  The first endpoint of the list is the one being asked. *)
Inductive outcome := Answered (status : Z) | Unavailable | Failed (lastError : option string).
Inductive progress := Trying (path : string) (n : nat) (rest : list nat) | Settled (o : outcome).
Record pool := Pool {
  endpoints : list endpoint; cooldownMs : Z; maxFailures : Z; roundRobinIndex : nat;
  progresses : list progress; calls : list (nat * string)     (* the calls of [fetch]: endpoint and URL *)
}.
Definition with_requests (rs : list progress) (p : pool) : pool :=
  Pool (endpoints p) (cooldownMs p) (maxFailures p) (roundRobinIndex p) rs (calls p).
Definition with_endpoint (e : nat) (f : endpoint → endpoint) (p : pool) : pool :=
  Pool (alter f e (endpoints p)) (cooldownMs p) (maxFailures p) (roundRobinIndex p) (progresses p) (calls p).
Definition with_index (k : nat) (p : pool) : pool :=
  Pool (endpoints p) (cooldownMs p) (maxFailures p) k (progresses p) (calls p).
Definition with_call (c : nat * string) (p : pool) : pool :=
  Pool (endpoints p) (cooldownMs p) (maxFailures p) (roundRobinIndex p) (progresses p) (calls p ++ [c]).

Definition DEFAULT_ENDPOINTS : list string := ["http://127.0.0.1:8666"; "https://horizon-testnet.stellar.org"].
(** [options.endpoints], [HORIZON_ENDPOINTS], [HORIZON_URL], in this order. *)
Definition raw_endpoints (given : option (list string)) (endpoints_env url_env : option string) : list string :=
  match given with
  | Some l => l
  | None =>
      match endpoints_env with
      | Some s => if truthy s then split_on "," s else match url_env with Some u => if truthy u then [u] else DEFAULT_ENDPOINTS | None => DEFAULT_ENDPOINTS end
      | None => match url_env with Some u => if truthy u then [u] else DEFAULT_ENDPOINTS | None => DEFAULT_ENDPOINTS end
      end
  end.
Definition HorizonManager (raw : list string) (cooldown maximum : option Z) : pool :=
  let c := default 60000 cooldown in
  let m := default 3 maximum in
  Pool ((λ u, Endpoint u 0 true 0 (fresh c m)) <$> filter (λ u, truthy u = true) (trim <$> take 3 raw)) c m 0 [] [].

(** [getHealthyEndpoints], as indices. *)
Definition selectable (now : Z) (cooldown : Z) (ep : endpoint) : bool :=
  if negb (isHealthy ep) then cooldown <=? now - lastFailureTime ep else negb (is_open (breaker ep)).
Definition getHealthyEndpoints (now : Z) (p : pool) : list nat :=
  filter (λ e, match endpoints p !! e with Some ep => selectable now (cooldownMs p) ep | None => false end = true)
    (seq 0 (length (endpoints p))).

(** ** [executeRequest] *)

Definition recovered (ep : endpoint) : endpoint := Endpoint (url ep) 0 true (lastFailureTime ep) (breaker ep).
Definition fell (now maximum : Z) (ep : endpoint) : endpoint :=
  let n := consecutiveFailures ep + 1 in
  Endpoint (url ep) n (if maximum <=? n then false else isHealthy ep) now (breaker ep).
Definition with_breaker (b : B) (ep : endpoint) : endpoint :=
  Endpoint (url ep) (consecutiveFailures ep) (isHealthy ep) (lastFailureTime ep) b.
Definition OPEN_MESSAGE : string := "Execution prevented because the circuit breaker is open".
Definition URL_MESSAGE : string := "Invalid URL".

(** The loop over the rotated endpoints up to the next [fetch]. *)
Fixpoint attempt (now : Z) (path : string) (n : nat) (rest : list nat) (lastError : option string) (p : pool) : progress * pool :=
  match rest with
  | [] => (Settled (Failed lastError), p)
  | e :: rest' =>
      let p := with_index ((roundRobinIndex p + 1) mod n) p in
      match endpoints p !! e with
      | None => attempt now path n rest' lastError p
      | Some ep =>
          match resolve path (url ep) with
          | None => attempt now path n rest' (Some URL_MESSAGE) (with_endpoint e (fell now (maxFailures p)) p)
          | Some target =>
              match admits now (breaker ep) with
              | None => attempt now path n rest' (Some OPEN_MESSAGE) (with_endpoint e (fell now (maxFailures p)) p)
              | Some b => (Trying path n rest, with_call (e, target) (with_endpoint e (with_breaker b) p))
              end
          end
      end
  end.
(** The endpoints in the order of the loop: [(startIndex + i) % healthy.length]. *)
Definition rotation (start : nat) (healthy : list nat) : list nat :=
  (λ i, default 0%nat (healthy !! ((start + i) mod length healthy)%nat)) <$> seq 0 (length healthy).
Definition executeRequest (now : Z) (path : string) (p : pool) : pool :=
  let healthy := getHealthyEndpoints now p in
  if decide (healthy = []) then with_requests (progresses p ++ [Settled Unavailable]) p
  else
    let start := (roundRobinIndex p mod length healthy)%nat in
    let '(r, p') := attempt now path (length healthy) (rotation start healthy) None p in
    with_requests (progresses p' ++ [r]) p'.

(** What [fetch] ends with: a status, or an error with its message. *)
Definition fetched : Type := Z + string.
Definition failure_of (f : fetched) : option string :=
  match f with
  | inl status => if 500 <=? status then Some ("Horizon server error: " +:+ Z_to_string status) else None
  | inr m => Some m
  end.
Definition answer (now : Z) (i : nat) (f : fetched) (p : pool) : pool :=
  match progresses p !! i with
  | Some (Trying path n (e :: rest)) =>
      match failure_of f with
      | None =>
          let p := with_endpoint e (λ ep, recovered (with_breaker (succeeded (breaker ep)) ep)) p in
          with_requests (<[i := Settled (Answered (match f with inl s => s | inr _ => 0 end))]> (progresses p)) p
      | Some m =>
          let p := with_endpoint e (λ ep, fell now (maxFailures p) (with_breaker (failed now (breaker ep)) ep)) p in
          let '(r, p') := attempt now path n rest (Some m) p in
          with_requests (<[i := r]> (progresses p')) p'
      end
  | _ => p
  end.

Inductive pool_event := Ask (now : Z) (path : string) | Reply (now : Z) (i : nat) (f : fetched).
Definition pool_step (p : pool) (e : pool_event) : pool :=
  match e with Ask now path => executeRequest now path p | Reply now i f => answer now i f p end.
Definition pool_run (p : pool) (es : list pool_event) : pool := foldl pool_step p es.

(** ** Reports *)

Inductive health := Healthy | Degraded | Down.
#[global] Instance health_eq_dec : EqDecision health.
Proof. solve_decision. Defined.
Record endpoint_report := Report { e_url : string; e_healthy : bool; e_failures : Z; e_open : bool }.
Definition getHealthStatus (now : Z) (p : pool) : health * list endpoint_report :=
  let healthy := getHealthyEndpoints now p in
  (if (0 <? Z.of_nat (length healthy)) then (if decide (length healthy = length (endpoints p)) then Healthy else Degraded) else Down,
   (λ ep, Report (url ep) (isHealthy ep && negb (is_open (breaker ep))) (consecutiveFailures ep) (is_open (breaker ep))) <$> endpoints p).
(** [true] for [open]. *)
Definition getCircuitBreakerStatus (p : pool) : bool :=
  existsb (λ ep, negb (isHealthy ep) || is_open (breaker ep)) (endpoints p).
(** [/health/horizon], and [/health] of index.js: status and endpoints shown. *)
Definition horizon_health (now : Z) (p : pool) : Z * list string :=
  let '(h, eps) := getHealthStatus now p in
  if decide (h = Down) then (503, []) else (200, e_url <$> eps).
Definition server_health (now : Z) (p : pool) : Z * string :=
  if decide ((getHealthStatus now p).1 = Down) then (503, "degraded") else (200, "ok").
End pool.
Arguments endpoint B : clear implicits.
Arguments pool B : clear implicits.

(** ** Lemmas *)

Section proofs.
Context {B : Type} `{!Breaker B}.
Context (resolve : string → string → option string).
Notation attempt := (attempt resolve).
Notation executeRequest := (executeRequest resolve).
Notation answer := (answer resolve).
Notation pool_step := (pool_step resolve).
Notation pool_run := (pool_run resolve).
Implicit Types p : pool B.

Lemma rotation_eq start h : (start < length h)%nat → rotation start h = drop start h ++ take start h.
Proof.
  intros Hs. apply list_eq. intros i. unfold rotation. rewrite list_lookup_fmap.
  destruct (decide (i < length h)%nat) as [Hi|Hi]; cycle 1.
  { rewrite lookup_seq_ge by lia. symmetry. apply lookup_ge_None. rewrite length_app, length_drop, length_take. lia. }
  rewrite lookup_seq_lt by done. cbn [fmap option_fmap option_map Nat.add].
  destruct (decide (start + i < length h)%nat) as [Hlt|Hge].
  - rewrite Nat.mod_small by lia. rewrite lookup_app_l by (rewrite length_drop; lia). rewrite lookup_drop.
    destruct (lookup_lt_is_Some_2 h (start + i)%nat) as [x ->]; [lia|done].
  - replace ((start + i) mod length h)%nat with (start + i - length h)%nat.
    + rewrite lookup_app_r by (rewrite length_drop; lia). rewrite length_drop. rewrite lookup_take_lt by lia.
      replace (i - (length h - start))%nat with (start + i - length h)%nat by lia.
      destruct (lookup_lt_is_Some_2 h (start + i - length h)%nat) as [x ->]; [lia|done].
    + apply (Nat.mod_unique _ _ 1); lia.
Qed.
Lemma rotation_perm start h : (start < length h)%nat → rotation start h ≡ₚ h.
Proof. intros Hs. rewrite rotation_eq by done. rewrite Permutation_app_comm. by rewrite take_drop. Qed.
Lemma healthy_NoDup now p : NoDup (getHealthyEndpoints now p).
Proof. apply NoDup_filter, NoDup_seq. Qed.
Lemma healthy_in now p e : e ∈ getHealthyEndpoints now p ↔ ∃ ep, endpoints p !! e = Some ep ∧ selectable now (cooldownMs p) ep = true.
Proof.
  unfold getHealthyEndpoints. rewrite list_elem_of_filter, elem_of_seq. split.
  - intros [Hs _]. destruct (endpoints p !! e) as [ep|]; [by exists ep|done].
  - intros (ep & He & Hs). rewrite He. split; [done|]. apply lookup_lt_Some in He. lia.
Qed.

(** *** What does not depend on the endpoints tried *)

(** A property of endpoints that the two outcomes and the breaker's entry keep
    is kept by every step. *)
Section each_endpoint.
Variable P : pool B → endpoint B → Prop.
Hypothesis P_params : ∀ p p' ep, P p ep → cooldownMs p = cooldownMs p' → maxFailures p = maxFailures p' → P p' ep.
Hypothesis P_breaker : ∀ p ep b, P p ep → P p (with_breaker b ep).
Hypothesis P_fell : ∀ p now ep, P p ep → P p (fell now (maxFailures p) ep).
Hypothesis P_recovered : ∀ p ep, P p ep → P p (recovered ep).

Definition all_endpoints p : Prop := Forall (P p) (endpoints p).
Lemma with_endpoint_all e f p : all_endpoints p → (∀ ep, P p ep → P p (f ep)) → all_endpoints (with_endpoint e f p).
Proof.
  intros Ha Hf. unfold all_endpoints in *. cbn. apply Forall_alter.
  - eapply Forall_impl; [exact Ha|]. intros ep Hep. by apply (P_params _ _ _ Hep).
  - intros x _ Hx. apply (P_params p); [|done..]. apply Hf. by apply (P_params _ _ _ Hx).
Qed.
Lemma attempt_all now path n rest err p : all_endpoints p → all_endpoints (attempt now path n rest err p).2.
Proof.
  revert err p. induction rest as [|e rest IH]; intros err p Ha; [done|]. cbn [HorizonPool.attempt]. set (q := with_index _ p).
  assert (Hq : all_endpoints q) by (eapply Forall_impl; [exact Ha|]; intros ? Hep; by apply (P_params _ _ _ Hep)).
  destruct (endpoints q !! e) as [ep|]; [|by apply IH]. destruct (resolve path (url ep)); cycle 1.
  { apply IH, with_endpoint_all; [done|]. intros ?. apply (P_fell q). }
  destruct (admits now (breaker ep)) as [b|]; cycle 1.
  { apply IH, with_endpoint_all; [done|]. intros ?. apply (P_fell q). }
  assert (Hw : all_endpoints (with_endpoint e (with_breaker b) q)) by (apply with_endpoint_all; auto).
  eapply Forall_impl; [exact Hw|]. intros x Hx. by apply (P_params _ _ _ Hx).
Qed.
Lemma step_all p ev : all_endpoints p → all_endpoints (pool_step p ev).
Proof.
  assert (Hreq : ∀ rs q, all_endpoints q → all_endpoints (with_requests rs q)).
  { intros rs q Hq. eapply Forall_impl; [exact Hq|]. intros x Hx. by apply (P_params _ _ _ Hx). }
  intros Ha. destruct ev as [now path|now i f]; cbn [HorizonPool.pool_step].
  - unfold HorizonPool.executeRequest. case_decide; [by apply Hreq|].
    pose proof (attempt_all now path (length (getHealthyEndpoints now p)) (rotation (roundRobinIndex p mod length (getHealthyEndpoints now p)) (getHealthyEndpoints now p)) None p Ha) as Ha'.
    destruct (attempt _ _ _ _ _ _) as [r p']. by apply Hreq.
  - unfold HorizonPool.answer. destruct (progresses p !! i) as [[path n [|e rest]|]|]; try done. destruct (failure_of f) as [m|].
    + set (q := with_endpoint _ _ p). assert (Hq : all_endpoints q) by (apply with_endpoint_all; [done|]; auto).
      pose proof (attempt_all now path n rest (Some m) q Hq) as Ha'. destruct (attempt _ _ _ _ _ _) as [r p']. by apply Hreq.
    + apply Hreq, with_endpoint_all; [done|]. auto.
Qed.
Lemma run_all p es : all_endpoints p → all_endpoints (pool_run p es).
Proof. unfold HorizonPool.pool_run. revert p. induction es as [|e es IH]; intros p Ha; [done|]. by apply IH, step_all. Qed.
End each_endpoint.

(** ** Theorems *)

(** An endpoint counts as healthy exactly while it has failed less than the
    maximum number of times in a row, through any overlapping requests. *)
Theorem healthy_while_few_failures raw cooldown maximum es : 1 <= default 3 maximum →
  let p := pool_run (HorizonManager raw cooldown maximum) es in
  Forall (λ ep, 0 <= consecutiveFailures ep ∧ (isHealthy ep = true ↔ consecutiveFailures ep < default 3 maximum)) (endpoints p).
Proof.
  intros Hm p.
  assert (H : all_endpoints (λ q ep, maxFailures q = default 3 maximum ∧ 0 <= consecutiveFailures ep ∧
    (isHealthy ep = true ↔ consecutiveFailures ep < default 3 maximum)) p).
  { apply run_all.
    - intros q q' ep Hq _ <-. done.
    - done.
    - intros q now ep (Hq & H0 & Hh). unfold fell. cbn. rewrite Hq. split; [done|]. split; [lia|].
      destruct (Z.leb_spec (default 3 maximum) (consecutiveFailures ep + 1)); split; try done; [lia|]. intros _. apply Hh. lia.
    - intros q ep (Hq & _ & _). cbn. split; [done|]. split; [lia|]. split; [lia|done].
    - unfold all_endpoints. cbn. apply Forall_fmap, Forall_forall. intros u _. cbn. split; [done|]. split; [lia|]. split; [lia|done]. }
  eapply Forall_impl; [exact H|]. cbn. tauto.
Qed.

(** *** Failover *)

(** A request that runs alone: every [fetch] is answered at once, with what
    [f] says of the endpoint. *)
Fixpoint finish (fuel : nat) (now : Z) (i : nat) (f : nat → fetched) (p : pool B) : pool B :=
  match fuel, progresses p !! i with
  | S fuel, Some (Trying _ _ (e :: _)) => finish fuel now i f (answer now i (f e) p)
  | _, _ => p
  end.
(** What an endpoint is good for: it is called, and whether it serves. *)
Definition called (now : Z) (path : string) p (e : nat) : option (nat * string) :=
  ep ← endpoints p !! e; target ← resolve path (url ep); _ ← admits now (breaker ep); Some (e, target).
Definition serves (now : Z) (path : string) (f : nat → fetched) p (e : nat) : Prop :=
  is_Some (called now path p e) ∧ failure_of (f e) = None.
#[local] Instance serves_dec now path f p e : Decision (serves now path f p e).
Proof. apply _. Defined.
Definition status_of (f : fetched) : Z := match f with inl s => s | inr _ => 0 end.

Lemma called_other now path p q e : endpoints q !! e = endpoints p !! e → called now path q e = called now path p e.
Proof. unfold called. by intros ->. Qed.
Lemma serves_other now path f p q e : endpoints q !! e = endpoints p !! e → serves now path f q e ↔ serves now path f p e.
Proof. intros He. unfold serves. by rewrite (called_other _ _ _ _ _ He). Qed.
Lemma with_endpoint_other e f p x : x ≠ e → endpoints (with_endpoint e f p) !! x = endpoints p !! x.
Proof. intros Hx. cbn. by rewrite list_lookup_alter_ne. Qed.

Lemma list_find_agree {A} (P Q : A → Prop) `{!∀ x, Decision (P x), !∀ x, Decision (Q x)} l :
  (∀ x, x ∈ l → P x ↔ Q x) → list_find P l = list_find Q l.
Proof.
  induction l as [|x l IH]; intros Hpq; [done|]. cbn. pose proof (Hpq x ltac:(left)) as Hx.
  rewrite IH by (intros y Hy; apply Hpq; by right). repeat case_decide; tauto || done.
Qed.
Lemma omap_agree {A C} (g h : A → option C) (l : list A) : (∀ x, x ∈ l → g x = h x) → omap g l = omap h l.
Proof. induction l as [|x l IH]; intros H; [done|]. cbn. rewrite (H x), IH; [done|intros; apply H; by right|left]. Qed.

Lemma attempt_requests now path n rest err p rs :
  attempt now path n rest err (with_requests rs p) = ((attempt now path n rest err p).1, with_requests rs (attempt now path n rest err p).2).
Proof.
  revert err p. induction rest as [|e rest IH]; intros err p; [done|]. cbn [HorizonPool.attempt].
  change (with_index _ (with_requests rs p)) with (with_requests rs (with_index ((roundRobinIndex p + 1) mod n) p)). set (q := with_index _ p).
  change (endpoints (with_requests rs q)) with (endpoints q). change (maxFailures (with_requests rs q)) with (maxFailures q).
  destruct (endpoints q !! e) as [ep|]; [|apply IH].
  destruct (resolve path (url ep)); [destruct (admits now (breaker ep))|]; [done|..];
    change (with_endpoint e ?g (with_requests rs q)) with (with_requests rs (with_endpoint e g q)); apply IH.
Qed.
Lemma attempt_progresses now path n rest err p : progresses (attempt now path n rest err p).2 = progresses p.
Proof.
  pose proof (attempt_requests now path n rest err p (progresses p)) as H. replace (with_requests (progresses p) p) with p in H by by destruct p.
  rewrite H at 1. done.
Qed.

(** The first endpoint of a list that serves, and the list up to it. *)
Definition first_serving now path f p (l : list nat) : option nat := snd <$> list_find (serves now path f p) l.
Definition tried now path f p (l : list nat) : list nat :=
  match list_find (serves now path f p) l with Some (k, _) => take (S k) l | None => l end.
Lemma first_cons_skip now path f p q e l : ¬ serves now path f p e → e ∉ l → (∀ x, x ≠ e → endpoints q !! x = endpoints p !! x) →
  first_serving now path f p (e :: l) = first_serving now path f q l ∧
  omap (called now path p) (tried now path f p (e :: l)) = option_list (called now path p e) ++ omap (called now path q) (tried now path f q l).
Proof.
  intros Hs He Hq. assert (Hfind : list_find (serves now path f p) l = list_find (serves now path f q) l).
  { apply list_find_agree. intros x Hx. symmetry. apply serves_other, Hq. by intros ->. }
  assert (Hc : omap (called now path p) (tried now path f q l) = omap (called now path q) (tried now path f q l)).
  { apply omap_agree. intros x Hx. symmetry. apply called_other, Hq. intros ->. apply He. revert Hx. unfold tried.
    destruct (list_find (serves now path f q) l) as [[k y]|]; [|done]. intros Hx. apply elem_of_take in Hx as (i & Hi & _). by apply list_elem_of_lookup_2 in Hi. }
  unfold first_serving, tried in *. cbn [list_find]. rewrite decide_False by done. rewrite Hfind.
  destruct (list_find (serves now path f q) l) as [[k y]|]; cbn; rewrite <-Hc; by destruct (called now path p e).
Qed.

Definition loop_result now path f p (l : list nat) (err : option string) : outcome :=
  match first_serving now path f p l with Some e => Answered (status_of (f e)) | None => Failed err end.
(** The loop from any of its points on, with the answers to its calls. *)
Lemma loop_spec now path n f rest : NoDup rest → ∀ err p fuel, (length rest ≤ fuel)%nat →
  let '(r, p') := attempt now path n rest err p in
  let q := finish fuel now (length (progresses p)) f (with_requests (progresses p ++ [r]) p') in
  (∃ err', progresses q = progresses p ++ [Settled (loop_result now path f p rest err')]) ∧
  calls q = calls p ++ omap (called now path p) (tried now path f p rest).
Proof.
  induction rest as [|e rest IH]; intros Hnd err p fuel Hfuel.
  { cbn. assert (Hend : ∀ i q, finish fuel now i f q = q ∨ ∃ a b c d, progresses q !! i = Some (Trying a b (c :: d))).
    { intros i q. destruct fuel; [by left|]. cbn. destruct (progresses q !! i) as [[? ? [|? ?]|]|]; try (by left). right. by do 4 eexists. }
    destruct (Hend (length (progresses p)) (with_requests (progresses p ++ [Settled (Failed err)]) p)) as [-> | (a & b & c & d & H)].
    - split; [by exists err|]. by rewrite app_nil_r.
    - cbn in H. by rewrite list_lookup_middle in H. }
  apply NoDup_cons in Hnd as [He Hnd]. cbn [HorizonPool.attempt]. set (p1 := with_index _ p).
  assert (Hskip : ∀ err2 q, progresses q = progresses p → calls q = calls p ++ option_list (called now path p e) →
    (∀ x, x ≠ e → endpoints q !! x = endpoints p !! x) → ¬ serves now path f p e → ∀ fuel, (length rest ≤ fuel)%nat →
    let '(r, p') := attempt now path n rest err2 q in
    let q' := finish fuel now (length (progresses p)) f (with_requests (progresses p ++ [r]) p') in
    (∃ err', progresses q' = progresses p ++ [Settled (loop_result now path f p (e :: rest) err')]) ∧
    calls q' = calls p ++ omap (called now path p) (tried now path f p (e :: rest))).
  { intros err2 q Hp Hc Ho Hs fuel' Hf'. specialize (IH Hnd err2 q fuel' Hf'). destruct (attempt _ _ _ _ _ _) as [r p'].
    rewrite Hp, Hc in IH. destruct (first_cons_skip now path f p q e rest Hs He Ho) as [H1 H2]. unfold loop_result in *.
    rewrite H1, H2. by rewrite (assoc_L (++)). }
  cbn in Hfuel. assert (Hnone : called now path p e = None → ¬ serves now path f p e) by (intros Hn [[? ?] _]; congruence).
  change (endpoints p1 !! e) with (endpoints p !! e). destruct (endpoints p !! e) as [ep|] eqn:Hep; cycle 1.
  { assert (Hn : called now path p e = None) by (unfold called; by rewrite Hep).
    apply Hskip; try done; [by rewrite Hn, app_nil_r|auto|lia]. }
  destruct (resolve path (url ep)) as [target|] eqn:Ht; cycle 1.
  { assert (Hn : called now path p e = None) by (unfold called; rewrite Hep; cbn; by rewrite Ht).
    apply Hskip; try done; [by rewrite Hn, app_nil_r|intros; by rewrite with_endpoint_other|auto|lia]. }
  destruct (admits now (breaker ep)) as [b|] eqn:Hb; cycle 1.
  { assert (Hn : called now path p e = None) by (unfold called; rewrite Hep; cbn; rewrite Ht; cbn; by rewrite Hb).
    apply Hskip; try done; [by rewrite Hn, app_nil_r|intros; by rewrite with_endpoint_other|auto|lia]. }
  assert (Hc : called now path p e = Some (e, target)) by (unfold called; rewrite Hep; cbn; rewrite Ht; cbn; by rewrite Hb).
  destruct fuel as [|fuel]; [lia|]. cbn [finish]. cbn [progresses with_requests]. rewrite list_lookup_middle by done.
  set (p2 := with_call _ _). unfold HorizonPool.answer. cbn [progresses with_requests]. rewrite list_lookup_middle by done.
  destruct (failure_of (f e)) as [m|] eqn:Hm.
  - set (p3 := with_endpoint e _ (with_requests _ p2)).
    assert (p3 = with_requests (progresses p ++ [Trying path n (e :: rest)]) (with_requests (progresses p) p3)) as -> by done.
    rewrite attempt_requests. set (p4 := with_requests (progresses p) p3).
    assert (Hstart := Hskip (Some m) p4 eq_refl). rewrite Hc in Hstart. specialize (Hstart eq_refl).
    destruct (attempt now path n rest (Some m) p4) as [r p'] eqn:Ha. cbn [fst snd].
    cbn [progresses with_requests]. rewrite insert_app_r_alt, Nat.sub_diag by done. cbn [insert list_insert].
    apply Hstart; [|by intros [_ ?]; congruence|lia].
    intros x Hx. cbn. by rewrite !list_lookup_alter_ne.
  - assert (Hs : serves now path f p e) by (split; [by rewrite Hc|done]).
    cbn [progresses with_requests with_endpoint]. rewrite insert_app_r_alt, Nat.sub_diag by done. cbn [insert list_insert].
    set (q := with_requests _ _). assert (Hq : progresses q = progresses p ++ [Settled (Answered (status_of (f e)))]) by done.
    assert (finish fuel now (length (progresses p)) f q = q) as ->.
    { destruct fuel; [done|]. cbn [finish]. by rewrite Hq, list_lookup_middle. }
    rewrite Hq. unfold loop_result, first_serving, tried. cbn [list_find]. rewrite decide_True by done. cbn. rewrite Hc. split; [by exists None|done].
Qed.

(** A request that is not overlapped asks the usable endpoints one after the
    other, from where the rotation stands, each at most once, and is answered
    by the first that serves it; it fails only when none does. *)
Theorem failover now path f p : let healthy := getHealthyEndpoints now p in
  let order := rotation (roundRobinIndex p mod length healthy) healthy in
  let q := finish (length healthy) now (length (progresses p)) f (executeRequest now path p) in
  healthy ≠ [] → order ≡ₚ healthy ∧
  (∃ err, progresses q = progresses p ++ [Settled (loop_result now path f p order err)]) ∧
  calls q = calls p ++ omap (called now path p) (tried now path f p order).
Proof.
  intros healthy order q Hne. assert (Hl : (0 < length healthy)%nat) by (destruct healthy; [done|cbn; lia]).
  assert (Hperm : order ≡ₚ healthy) by (apply rotation_perm, Nat.mod_upper_bound; lia). split; [done|].
  assert (Hnd : NoDup order) by (rewrite Hperm; apply healthy_NoDup).
  pose proof (loop_spec now path (length healthy) f order Hnd None p (length healthy)) as H.
  specialize (H ltac:(by rewrite (Permutation_length Hperm))). unfold q, HorizonPool.executeRequest. fold healthy. rewrite decide_False by done. fold order.
  destruct (attempt now path (length healthy) order None p) as [r p'] eqn:Ha.
  pose proof (attempt_progresses now path (length healthy) order None p) as Hp. rewrite Ha in Hp. cbn [snd] in Hp. rewrite Hp. exact H.
Qed.

(** *** An endpoint that is lost *)

(** No request that is running is still to try the endpoint. *)
Definition idle (e : nat) p : Prop := Forall (λ r, match r with Trying _ _ rest => e ∉ rest | Settled _ => True end) (progresses p).
Definition calls_to (e : nat) p : list (nat * string) := filter (λ c, c.1 = e) (calls p).
Definition lost (e : nat) (ep : endpoint B) p : Prop := endpoints p !! e = Some ep ∧ idle e p.

Lemma attempt_lost now path n rest err p e ep : e ∉ rest → lost e ep p →
  let '(r, p') := attempt now path n rest err p in
  lost e ep p' ∧ calls_to e p' = calls_to e p ∧ match r with Trying _ _ rest => e ∉ rest | Settled _ => True end.
Proof.
  revert err p. induction rest as [|x rest IH]; intros err p He Hl; [done|]. cbn [HorizonPool.attempt].
  apply not_elem_of_cons in He as [Hx He]. set (q := with_index _ p). assert (Hq : lost e ep q) by done.
  assert (Hw : ∀ g, lost e ep (with_endpoint x g q)) by (intros g; destruct Hq; split; [by rewrite with_endpoint_other|done]).
  change (calls_to e p) with (calls_to e q).
  destruct (endpoints q !! x) as [ex|]; [|by apply IH]. destruct (resolve path (url ex)) as [target|]; [|by apply (IH _ (with_endpoint x _ q))].
  destruct (admits now (breaker ex)); [|by apply (IH _ (with_endpoint x _ q))].
  split; [apply Hw|]. split; [|by apply not_elem_of_cons]. unfold calls_to. cbn. rewrite filter_app, filter_cons_False by (cbn; congruence).
  by rewrite app_nil_r.
Qed.
Lemma idle_app e rs r p : idle e (with_requests rs p) → match r with Trying _ _ rest => e ∉ rest | Settled _ => True end →
  idle e (with_requests (rs ++ [r]) p).
Proof. intros H Hr. apply Forall_app. split; [exact H|]. by repeat constructor. Qed.

Lemma step_lost p ev e ep : isHealthy ep = true → is_open (breaker ep) = true → lost e ep p →
  lost e ep (pool_step p ev) ∧ calls_to e (pool_step p ev) = calls_to e p.
Proof.
  intros Hh Ho [He Hi]. destruct ev as [now path|now i f]; cbn [HorizonPool.pool_step].
  - unfold HorizonPool.executeRequest. case_decide as Hd.
    { split; [|done]. split; [done|]. by apply idle_app; [destruct p|]. }
    set (h := getHealthyEndpoints now p) in *. assert (Hn : e ∉ rotation (roundRobinIndex p mod length h) h).
    { rewrite rotation_perm by (apply Nat.mod_upper_bound; by destruct h). unfold h. rewrite healthy_in. intros (ep' & He' & Hs).
      simplify_eq. unfold selectable in Hs. by rewrite Hh, Ho in Hs. }
    pose proof (attempt_lost now path (length h) _ None p e ep Hn (conj He Hi)) as Ha. destruct (attempt _ _ _ _ _ _) as [r p'].
    destruct Ha as ([He' Hi'] & Hc & Hr). split; [|done]. split; [done|]. by apply idle_app; [destruct p'|].
  - unfold HorizonPool.answer. destruct (progresses p !! i) as [[path n [|x rest]|]|] eqn:Hp; try done.
    pose proof (Forall_lookup_1 _ _ _ _ Hi Hp) as [Hx Hr]%not_elem_of_cons.
    assert (Hw : ∀ g, lost e ep (with_endpoint x g p)) by (intros g; split; [by rewrite with_endpoint_other|done]).
    destruct (failure_of f) as [m|].
    + set (q := with_endpoint x _ p). pose proof (attempt_lost now path n rest (Some m) q e ep Hr (Hw _)) as Ha.
      destruct (attempt _ _ _ _ _ _) as [r p']. destruct Ha as ([He' Hi'] & Hc & Hr'). split; [|done]. split; [done|].
      unfold idle. cbn. by apply Forall_insert.
    + split; [|done]. split; [apply (Hw _)|]. unfold idle. cbn. by apply Forall_insert.
Qed.
(** An endpoint that counts as healthy while its breaker is open is never
    used again, whatever happens: requests pass it over because of the breaker,
    and only a request could close the breaker. *)
Theorem endpoint_lost p es e ep : endpoints p !! e = Some ep → isHealthy ep = true → is_open (breaker ep) = true → idle e p →
  endpoints (pool_run p es) !! e = Some ep ∧ calls_to e (pool_run p es) = calls_to e p ∧
  ∀ now, e ∉ getHealthyEndpoints now (pool_run p es).
Proof.
  intros He Hh Ho Hi. assert (Hr : lost e ep (pool_run p es) ∧ calls_to e (pool_run p es) = calls_to e p).
  { unfold HorizonPool.pool_run. assert (Hl : lost e ep p) by done. clear He Hi. revert p Hl.
    induction es as [|ev es IH]; intros p Hl; [done|]. cbn [foldl]. destruct (step_lost p ev e ep Hh Ho Hl) as [Hl' Hc].
    destruct (IH _ Hl') as [H1 H2]. split; [done|]. by rewrite H2. }
  destruct Hr as [[Hl _] Hc]. split_and!; [done..|]. intros now. rewrite healthy_in. intros (ep' & He' & Hs). rewrite Hl in He'. simplify_eq.
  unfold selectable in Hs. by rewrite Hh, Ho in Hs.
Qed.

(** *** The reports *)

(** The reports disagree: when every endpoint has failed and its cooldown is
    over, the status is healthy and the server answers 200, although no request
    has succeeded since, while the breaker report says open. *)
Theorem reports_disagree now p : endpoints p ≠ [] →
  Forall (λ ep, isHealthy ep = false ∧ cooldownMs p <= now - lastFailureTime ep) (endpoints p) →
  (getHealthStatus now p).1 = Healthy ∧ server_health now p = (200, "ok") ∧ getCircuitBreakerStatus p = true ∧
  Forall (λ r, e_healthy r = false) (getHealthStatus now p).2.
Proof.
  intros Hne Hall. assert (Hh : getHealthyEndpoints now p = seq 0 (length (endpoints p))).
  { unfold getHealthyEndpoints. apply filter_all. intros e [_ He]%elem_of_seq. cbn in He.
    destruct (lookup_lt_is_Some_2 _ _ He) as [ep Hep]. rewrite Hep. destruct (Forall_lookup_1 _ _ _ _ Hall Hep) as [H1 H2].
    unfold selectable. rewrite H1. cbn. by apply Z.leb_le. }
  assert (Hs : (getHealthStatus now p).1 = Healthy).
  { unfold getHealthStatus. rewrite Hh, length_seq. cbn [fst]. rewrite decide_True by done. destruct (endpoints p); [done|]. by cbn. }
  split; [done|]. split; [unfold server_health; by rewrite Hs|]. split.
  - unfold getCircuitBreakerStatus. destruct (endpoints p) as [|ep eps]; [done|]. apply Forall_cons in Hall as [[H1 _] _]. cbn. by rewrite H1.
  - unfold getHealthStatus. cbn [snd]. apply Forall_fmap. eapply Forall_impl; [exact Hall|]. intros ep [H1 _]. cbn. by rewrite H1.
Qed.
End proofs.

(** ** Witnesses *)

(** A breaker that opens after a number of failures in a row and lets one call
    through after a time. *)
Inductive demo_state := Closed | Open (since : Z) | HalfOpen.
Record demo_breaker := DemoBreaker { b_after : Z; b_max : Z; b_count : Z; b_state : demo_state }.
#[local] Instance demo_ops : Breaker demo_breaker := {
  fresh c m := DemoBreaker c m 0 Closed;
  is_open b := match b_state b with Open _ => true | _ => false end;
  admits now b := match b_state b with
    | Closed => Some b
    | Open t => if b_after b <=? now - t then Some (DemoBreaker (b_after b) (b_max b) (b_count b) HalfOpen) else None
    | HalfOpen => None
    end;
  succeeded b := DemoBreaker (b_after b) (b_max b) 0 (match b_state b with HalfOpen => Closed | s => s end);
  failed now b := DemoBreaker (b_after b) (b_max b) (b_count b + 1)
    (match b_state b with
     | Closed => if b_max b <=? b_count b + 1 then Open now else Closed
     | HalfOpen => Open now
     | s => s
     end)
}.
Definition demo_resolve (path base : string) : option string := Some (base +:+ path).
Definition demo_pool : pool demo_breaker := HorizonManager ["http://a"; " http://b "; ""] (Some 100) None.

Lemma healthy_while_few_failures_witness :
  let p := pool_run demo_resolve demo_pool [Ask 0 "/"; Reply 1 0 (inl 503)] in
  Forall (λ ep, 0 <= consecutiveFailures ep ∧ (isHealthy ep = true ↔ consecutiveFailures ep < 3)) (endpoints p) ∧
  consecutiveFailures <$> endpoints p = [1; 0].
Proof.
  split; [|vm_compute; reflexivity].
  apply (healthy_while_few_failures demo_resolve ["http://a"; " http://b "; ""] (Some 100) None [Ask 0 "/"; Reply 1 0 (inl 503)]). done.
Defined.
Lemma failover_witness : let f := λ e : nat, if decide (e = 0%nat) then inl 503 else inl 404 : fetched in
  getHealthyEndpoints 5 demo_pool = [0; 1]%nat ∧
  progresses (finish demo_resolve 2 5 0 f (executeRequest demo_resolve 5 "/x" demo_pool)) = [Settled (Answered 404)] ∧
  calls (finish demo_resolve 2 5 0 f (executeRequest demo_resolve 5 "/x" demo_pool)) = [(0%nat, "http://a/x"); (1%nat, "http://b/x")].
Proof.
  intros f. split; [vm_compute; reflexivity|].
  destruct (failover demo_resolve 5 "/x" f demo_pool) as (_ & (err & Hp) & Hc); [vm_compute; discriminate|].
  change (length (getHealthyEndpoints 5 demo_pool)) with 2%nat in Hp, Hc. change (length (progresses demo_pool)) with 0%nat in Hp, Hc.
  rewrite Hp, Hc. split; vm_compute; reflexivity.
Defined.
(** Four requests to the only endpoint overlap; three fail and open the
    breaker, the fourth succeeds late: the endpoint is lost. *)
Definition demo_single : pool demo_breaker := HorizonManager ["http://a"] (Some 100) None.
Definition lost_pool : pool demo_breaker := pool_run demo_resolve demo_single
  [Ask 0 "/"; Ask 0 "/"; Ask 0 "/"; Ask 0 "/"; Reply 1 0 (inr "timeout"); Reply 2 1 (inr "timeout"); Reply 3 2 (inr "timeout"); Reply 4 3 (inl 200)].
Definition lost_endpoint : endpoint demo_breaker := Endpoint "http://a" 0 true 3 (DemoBreaker 100 3 0 (Open 3)).
Lemma endpoint_lost_witness : endpoints lost_pool = [lost_endpoint] ∧
  ∀ es, endpoints (pool_run demo_resolve lost_pool es) !! 0%nat = Some lost_endpoint.
Proof.
  assert (He : endpoints lost_pool = [lost_endpoint]) by (vm_compute; reflexivity). split; [exact He|]. intros es.
  assert (Hl : endpoints lost_pool !! 0%nat = Some lost_endpoint) by (rewrite He; reflexivity).
  assert (Hi : idle 0 lost_pool).
  { unfold idle. assert (progresses lost_pool = [Settled (Failed (Some "timeout")); Settled (Failed (Some "timeout")); Settled (Failed (Some "timeout")); Settled (Answered 200)]) as ->
      by (vm_compute; reflexivity). repeat constructor. }
  exact (proj1 (endpoint_lost demo_resolve lost_pool es 0 lost_endpoint Hl eq_refl eq_refl Hi)).
Defined.
Lemma reports_disagree_witness :
  let p := pool_run demo_resolve demo_single [Ask 0 "/"; Reply 1 0 (inl 500); Ask 2 "/"; Reply 3 1 (inl 500); Ask 4 "/"; Reply 5 2 (inl 500)] in
  (getHealthStatus 105 p).1 = Healthy ∧ getCircuitBreakerStatus p = true ∧ server_health 104 p = (503, "degraded").
Proof.
  intros p. destruct (reports_disagree 105 p) as (H1 & _ & H3 & _); [vm_compute; discriminate| |].
  - change (endpoints p) with [Endpoint "http://a" 3 false 5 (DemoBreaker 100 3 3 (Open 5))]. repeat constructor; vm_compute; try reflexivity; discriminate.
  - split_and!; [done..|vm_compute; reflexivity].
Defined.
