(* ===== verification/Logger.v ===== *)
(** * The structured logger of the server

    src/server/logger.js: thresholds and children, the record of a call, and the
    line [JSON.stringify] makes of it with the logger's replacer.  Objects that
    may be shared are cells of a heap, so that references can repeat and form
    cycles; keys are not array indices. *)
From stdpp Require Import list.
From S2P Require Import Prelude Bytes Double Digits.

(** ** Values *)

Inductive value :=
| Undefined | Null | Bool (b : bool) | Num (x : double) | BigInt (n : Z) | Str (s : string)
| Error (name message : string) (code : value) (stack : string)
| Fresh (fields : list (string * value))     (* an object nothing else refers to *)
| Ref (id : nat).                            (* an object of the heap *)
Inductive cell := Object (fields : list (string * value)) | Array (items : list value).
Definition heap := list cell.

(** ** Levels *)

Definition LEVELS (level : string) : option Z :=
  if decide (level = "debug") then Some 10 else if decide (level = "info") then Some 20
  else if decide (level = "warn") then Some 30 else if decide (level = "error") then Some 40 else None.
(** What [options.level] may be: a name, or the number of a parent. *)
Inductive raw_level := Name (s : string) | Number (n : Z).
(** A threshold; [None] is the value a property of every object has, to which
    no number compares. *)
Definition resolveThreshold (raw : option raw_level) : option Z :=
  let level := match raw with
    | None => ""
    | Some (Name s) => to_lower s
    | Some (Number n) => if n =? 0 then "" else Z_to_string n
    end in
  match LEVELS level with
  | Some n => Some n
  | None => if decide (level = "constructor" ∨ level = "__proto__") then None else Some 20
  end.

Record logger := Logger {
  service : string; env : string; file : option string; threshold : option Z; bindings : list (string * value)
}.
Record environment := Env {
  SERVICE_NAME : option string; ENVIRONMENT : option string; NODE_ENV : option string; LOG_FILE : option string; LOG_LEVEL : option string
}.
Record options := Options {
  o_service : option string; o_env : option string; o_file : option string; o_level : option raw_level; o_bindings : option (list (string * value))
}.
Definition or_else {A} (a b : option A) : option A := match a with Some _ => a | None => b end.
Definition construct (e : environment) (o : options) : logger :=
  Logger (default "api-server" (or_else (o_service o) (SERVICE_NAME e)))
    (default "development" (or_else (o_env o) (or_else (ENVIRONMENT e) (NODE_ENV e))))
    (or_else (o_file o) (LOG_FILE e))
    (resolveThreshold (or_else (o_level o) (or_else (Name <$> LOG_LEVEL e) (Some (Name "info")))))
    (default [] (o_bindings o)).
(** Assignment to a property: a property that is there keeps its place. *)
Fixpoint assign (k : string) (v : value) (fields : list (string * value)) : list (string * value) :=
  match fields with
  | [] => [(k, v)]
  | (k', v') :: fields => if decide (k' = k) then (k, v) :: fields else (k', v') :: assign k v fields
  end.
(** [{ ...a, ...b }] *)
Definition spread (a b : list (string * value)) : list (string * value) := foldl (λ o kv, assign kv.1 kv.2 o) a b.
(** [child]: the level handed on is the parent's number. *)
Definition child (e : environment) (l : logger) (more : list (string * value)) : logger :=
  construct e (Options (Some (service l)) (Some (env l)) (file l) (Number <$> threshold l) (Some (spread (bindings l) more))).
Definition isLevelEnabled (l : logger) (level : string) : bool :=
  match LEVELS level, threshold l with Some n, Some t => t <=? n | _, _ => false end.

(** ** [JSON.stringify] *)

Definition BACKSLASH : ascii := chr 92.
Definition QUOTE : ascii := chr 34.
Definition hex (z : Z) : ascii := chr (if z <? 10 then 48 + z else 87 + z).
Definition escape (c : ascii) : list ascii :=
  let z := code c in
  if z =? 34 then [BACKSLASH; QUOTE] else if z =? 92 then [BACKSLASH; BACKSLASH]
  else if z =? 8 then [BACKSLASH; "b"%char] else if z =? 9 then [BACKSLASH; "t"%char] else if z =? 10 then [BACKSLASH; "n"%char]
  else if z =? 12 then [BACKSLASH; "f"%char] else if z =? 13 then [BACKSLASH; "r"%char]
  else if z <? 32 then [BACKSLASH; "u"%char; "0"%char; "0"%char; hex (z / 16); hex (z mod 16)]
  else [c].
Definition quote_chars (l : list ascii) : list ascii := QUOTE :: (l ≫= escape) ++ [QUOTE].
Definition quote (s : string) : string := of_chars (quote_chars (chars s)).

Section stringify.
Context (number_text : double → string) (text_of : value → string) (H : heap).

Definition braces (parts : list string) : string := "{" +:+ String.concat "," parts +:+ "}".
Definition brackets (parts : list string) : string := "[" +:+ String.concat "," parts +:+ "]".
(** [serializeError] *)
Definition error_fields (name message : string) (code : value) (stack : string) : list (string * value) :=
  [("name", Str name); ("message", Str message)] ++
  match code with Undefined => [] | _ => [("code", code)] end ++
  (if truthy stack then [("stack", Str stack)] else []).
Definition serializeError (err : value) : value :=
  match err with
  | Error name message code stack => Fresh (error_fields name message code stack)
  | _ => Fresh [("message", Str (text_of err))]
  end.

(** The members of an object and the elements of an array, one after the
    other, with the objects seen so far; members without a text are left out. *)
Fixpoint members (go : list nat → value → option (option string * list nat)) (fields : list (string * value)) (seen : list nat)
  : option (list string * list nat) :=
  match fields with
  | [] => Some ([], seen)
  | (k, v) :: fields =>
      '(t, seen) ← go seen v;
      '(ts, seen) ← members go fields seen;
      Some (match t with Some t => (quote k +:+ ":" +:+ t) :: ts | None => ts end, seen)
  end.
Fixpoint elements (go : list nat → value → option (option string * list nat)) (items : list value) (seen : list nat)
  : option (list string * list nat) :=
  match items with
  | [] => Some ([], seen)
  | v :: items =>
      '(t, seen) ← go seen v;
      '(ts, seen) ← elements go items seen;
      Some (default "null" t :: ts, seen)
  end.
(** A value with the objects seen so far: its text, [None] for what is left
    out, and the objects seen afterwards.  The outer option is the fuel. *)
Fixpoint stringify (fuel : nat) (seen : list nat) (v : value) : option (option string * list nat) :=
  match fuel with
  | O => None
  | S fuel =>
      match v with
      | Undefined => Some (None, seen)
      | Null => Some (Some "null", seen)
      | Bool b => Some (Some (if b then "true" else "false"), seen)
      | Num x => Some (Some (if is_finite x then number_text x else "null"), seen)
      | BigInt n => Some (Some (quote (Z_to_string n)), seen)
      | Str s => Some (Some (quote s), seen)
      | Error name message code stack =>
          '(ts, seen) ← members (stringify fuel) (error_fields name message code stack) seen; Some (Some (braces ts), seen)
      | Fresh fields => '(ts, seen) ← members (stringify fuel) fields seen; Some (Some (braces ts), seen)
      | Ref id =>
          if decide (id ∈ seen) then Some (Some (quote "[Circular]"), seen)
          else match H !! id with
               | Some (Object fields) => '(ts, seen) ← members (stringify fuel) fields (id :: seen); Some (Some (braces ts), seen)
               | Some (Array items) => '(ts, seen) ← elements (stringify fuel) items (id :: seen); Some (Some (brackets ts), seen)
               | None => Some (None, seen)
               end
      end
  end.

(** ** A call of the logger *)

Definition NEWLINE : string := String (chr 10) "".
Definition record_of (l : logger) (ts level msg : string) (fields : list (string * value)) : value :=
  Fresh (spread (spread [("ts", Str ts); ("level", Str level); ("service", Str (service l)); ("env", Str (env l)); ("msg", Str msg)]
    (bindings l)) fields).
(** What a call writes, and where: its file, or the standard output; to the
    standard error if that write fails with a message. *)
Inductive target := Stdout | File (name : string) | Stderr.
Definition write (fuel : nat) (l : logger) (now level msg : string) (fields : list (string * value)) (failing : option string) : list (target * string) :=
  if negb (isLevelEnabled l level) then []
  else match stringify fuel [] (record_of l now level msg fields) with
       | Some (Some t, _) =>
           match failing with
           | Some m => [(Stderr, "log write failed: " +:+ m +:+ NEWLINE)]
           | None => [(match file l with Some f => if truthy f then File f else Stdout | None => Stdout end, t +:+ NEWLINE)]
           end
       | _ => []
       end.
Definition field_of (k : string) (fields : list (string * value)) : value :=
  match list_find (λ kv : string * value, kv.1 = k) fields with Some (_, (_, v)) => v | None => Undefined end.
(** [error]: the field [err] as plain data. *)
Definition error_call (fields : list (string * value)) : list (string * value) :=
  let rest := filter (λ kv : string * value, kv.1 ≠ "err") fields in
  match field_of "err" fields with
  | Undefined => rest
  | err => spread rest [("err", serializeError err)]
  end.
End stringify.

(** ** Fuel *)

(** How deep a value is nested, and what the objects not seen yet may add. *)
Fixpoint depth (v : value) : nat :=
  match v with
  | Error _ _ code _ => S (Nat.max 1 (depth code))
  | Fresh fields => S (foldr (λ kv n, Nat.max (depth kv.2) n) 0%nat fields)
  | _ => 1
  end.
Definition cell_depth (c : cell) : nat :=
  match c with
  | Object fields => foldr (λ kv n, Nat.max (depth kv.2) n) 0%nat fields
  | Array items => foldr (λ v n, Nat.max (depth v) n) 0%nat items
  end.
Definition unseen (H : heap) (seen : list nat) : nat :=
  sum_list_with (λ id, if decide (id ∈ seen) then 0%nat else default 0%nat (cell_depth <$> H !! id)) (seq 0 (length H)).
Definition enough (H : heap) (v : value) : nat := (depth v + unseen H [])%nat.

Lemma sum_list_with_mono {A} (f g : A → nat) l : (∀ x, (f x ≤ g x)%nat) → (sum_list_with f l ≤ sum_list_with g l)%nat.
Proof. intros Hfg. induction l as [|x l IH]; [done|]. cbn. specialize (Hfg x). lia. Qed.
Lemma unseen_mono H seen seen' : seen ⊆ seen' → (unseen H seen' ≤ unseen H seen)%nat.
Proof. intros Hs. apply sum_list_with_mono. intros id. destruct (decide (id ∈ seen')), (decide (id ∈ seen)); lia || set_solver. Qed.
Lemma unseen_cons H seen id c : H !! id = Some c → id ∉ seen → (unseen H (id :: seen) + cell_depth c ≤ unseen H seen)%nat.
Proof.
  intros Hc Hid. unfold unseen. apply lookup_lt_Some in Hc as Hlt.
  assert (Hseq : seq 0 (length H) = seq 0 id ++ id :: seq (S id) (length H - S id)).
  { replace (length H) with (id + S (length H - S id))%nat at 1 by lia. by rewrite seq_app. }
  rewrite Hseq, !sum_list_with_app. cbn [sum_list_with]. rewrite (decide_False (P := id ∈ seen)) by done.
  rewrite decide_True by left. rewrite Hc. change (default 0%nat (cell_depth <$> Some c)) with (cell_depth c).
  assert (Hm : ∀ l, (sum_list_with (λ i, if decide (i ∈ id :: seen) then 0%nat else default 0%nat (cell_depth <$> H !! i)) l
    ≤ sum_list_with (λ i, if decide (i ∈ seen) then 0%nat else default 0%nat (cell_depth <$> H !! i)) l)%nat).
  { intros l. apply sum_list_with_mono. intros i. destruct (decide (i ∈ id :: seen)), (decide (i ∈ seen)); lia || set_solver. }
  pose proof (Hm (seq 0 id)). pose proof (Hm (seq (S id) (length H - S id))). lia.
Qed.

Section proofs.
Context (number_text : double → string) (H : heap).
Notation stringify := (stringify number_text H).

Lemma members_total go n fields seen :
  (∀ seen v, (depth v + unseen H seen ≤ n)%nat → ∃ t seen', go seen v = Some (t, seen') ∧ seen ⊆ seen') →
  (foldr (λ kv n, Nat.max (depth kv.2) n) 0%nat fields + unseen H seen ≤ n)%nat →
  ∃ ts seen', members go fields seen = Some (ts, seen') ∧ seen ⊆ seen'.
Proof.
  intros Hgo. revert seen. induction fields as [|[k v] fields IH]; intros seen Hn; [by eexists _, _|]. cbn in Hn |- *.
  destruct (Hgo seen v) as (t & s1 & -> & H1); [lia|]. cbn. pose proof (unseen_mono H _ _ H1).
  destruct (IH s1) as (ts & s2 & -> & H2); [lia|]. cbn. eexists _, _. split; [done|]. by etrans.
Qed.
Lemma elements_total go n items seen :
  (∀ seen v, (depth v + unseen H seen ≤ n)%nat → ∃ t seen', go seen v = Some (t, seen') ∧ seen ⊆ seen') →
  (foldr (λ v n, Nat.max (depth v) n) 0%nat items + unseen H seen ≤ n)%nat →
  ∃ ts seen', elements go items seen = Some (ts, seen') ∧ seen ⊆ seen'.
Proof.
  intros Hgo. revert seen. induction items as [|v items IH]; intros seen Hn; [by eexists _, _|]. cbn in Hn |- *.
  destruct (Hgo seen v) as (t & s1 & -> & H1); [lia|]. cbn. pose proof (unseen_mono H _ _ H1).
  destruct (IH s1) as (ts & s2 & -> & H2); [lia|]. cbn. eexists _, _. split; [done|]. by etrans.
Qed.
Lemma error_fields_depth name message code stack :
  (foldr (λ kv n, Nat.max (depth kv.2) n) 0 (error_fields name message code stack) ≤ Nat.max 1 (depth code))%nat.
Proof. unfold error_fields. destruct code, (truthy stack); cbn; lia. Qed.

Lemma depth_pos v : (1 ≤ depth v)%nat.
Proof. destruct v; cbn [depth]; lia. Qed.
Lemma stringify_total fuel seen v : (depth v + unseen H seen ≤ fuel)%nat → ∃ t seen', stringify fuel seen v = Some (t, seen') ∧ seen ⊆ seen'.
Proof.
  revert seen v. induction fuel as [|fuel IH]; intros seen v Hf; [pose proof (depth_pos v); lia|].
  destruct v as [| | | | | |name message code stack|fields|id]; cbn [Logger.stringify]; try by eexists _, _.
  - pose proof (error_fields_depth name message code stack). cbn [depth] in Hf.
    destruct (members_total _ fuel (error_fields name message code stack) seen IH) as (ts & s' & -> & Hs); [lia|]. by eexists _, _.
  - cbn [depth] in Hf. destruct (members_total _ fuel fields seen IH) as (ts & s' & -> & Hs); [lia|]. by eexists _, _.
  - case_decide as Hid; [by eexists _, _|]. destruct (H !! id) as [c|] eqn:Hc; [|by eexists _, _].
    pose proof (unseen_cons H seen id c Hc Hid) as Hu. cbn [depth] in Hf. destruct c as [fields|items]; cbn [cell_depth] in Hu.
    + destruct (members_total _ fuel fields (id :: seen) IH) as (ts & s' & -> & Hs); [lia|]. eexists _, _. split; [done|]. set_solver.
    + destruct (elements_total _ fuel items (id :: seen) IH) as (ts & s' & -> & Hs); [lia|]. eexists _, _. split; [done|]. set_solver.
Qed.
(** Every value is written, whatever its references: cycles end. *)
Theorem stringify_terminates v fuel : (enough H v ≤ fuel)%nat → is_Some (stringify fuel [] v).
Proof. intros Hf. destruct (stringify_total fuel [] v Hf) as (t & s & -> & _). by eexists. Qed.

(** ** One line *)

Definition one_line (s : string) : Prop := chr 10 ∉ chars s.
Lemma escape_line c : chr 10 ∉ escape c.
Proof. destruct c as [[] [] [] [] [] [] [] []]; vm_compute; intros Hc; repeat (apply elem_of_cons in Hc as [Hc|Hc]; [discriminate|]); by apply elem_of_nil in Hc. Qed.
Lemma record_line_app s t : one_line s → one_line t → one_line (s +:+ t).
Proof. unfold one_line. rewrite string_app_chars, elem_of_app. tauto. Qed.
Lemma quote_line s : one_line (quote s).
Proof.
  unfold one_line, quote. rewrite chars_of_chars. unfold quote_chars. rewrite elem_of_cons, elem_of_app, list_elem_of_singleton.
  intros [Hc|[Hc|Hc]]; [done| |done]. apply list_elem_of_bind in Hc as (c & Hc & _). by apply escape_line in Hc.
Qed.
Lemma concat_line l : Forall one_line l → one_line (String.concat "," l).
Proof.
  intros Hl. induction Hl as [|x [|y l] Hx Hl IH]; [by intros ?%elem_of_nil|done|].
  change (String.concat "," (x :: y :: l)) with (x +:+ "," +:+ String.concat "," (y :: l)).
  apply record_line_app; [done|]. apply record_line_app; [|done]. by intros ?%list_elem_of_singleton.
Qed.
Lemma wrap_line a b l : one_line a → one_line b → Forall one_line l → one_line (a +:+ String.concat "," l +:+ b).
Proof. intros Ha Hb Hl. apply record_line_app; [done|]. apply record_line_app; [|done]. by apply concat_line. Qed.
Lemma one_line_const s : existsb (λ c, bool_decide (c = chr 10)) (chars s) = false → one_line s.
Proof. intros Hs Hc. apply (proj2 (not_true_iff_false _)) in Hs. apply Hs, existsb_exists. exists (chr 10). split; [by apply list_elem_of_In|done]. Qed.

Lemma members_line go fields seen ts seen' : (∀ seen v t seen', go seen v = Some (Some t, seen') → one_line t) →
  members go fields seen = Some (ts, seen') → Forall one_line ts.
Proof.
  intros Hgo. revert seen ts. induction fields as [|[k v] fields IH]; intros seen ts; [by intros [= <- <-]|]. cbn.
  destruct (go seen v) as [[t s1]|] eqn:Hv; [|done]. cbn. destruct (members go fields s1) as [[ts' s2]|] eqn:Hm; [|done]. intros [= <- <-].
  pose proof (IH _ _ Hm) as Hts. destruct t as [t|]; [|done]. constructor; [|done].
  apply record_line_app; [apply quote_line|]. apply record_line_app; [by apply one_line_const|]. by eapply Hgo.
Qed.
Lemma elements_line go items seen ts seen' : (∀ seen v t seen', go seen v = Some (Some t, seen') → one_line t) →
  elements go items seen = Some (ts, seen') → Forall one_line ts.
Proof.
  intros Hgo. revert seen ts. induction items as [|v items IH]; intros seen ts; [by intros [= <- <-]|]. cbn.
  destruct (go seen v) as [[t s1]|] eqn:Hv; [|done]. cbn. destruct (elements go items s1) as [[ts' s2]|] eqn:Hm; [|done]. intros [= <- <-].
  constructor; [|by eapply IH]. destruct t as [t|]; [by eapply Hgo|by apply one_line_const].
Qed.
Lemma stringify_line fuel seen v t seen' : (∀ x, one_line (number_text x)) → stringify fuel seen v = Some (Some t, seen') → one_line t.
Proof.
  intros Hnum. revert seen v t seen'. induction fuel as [|fuel IH]; intros seen v t seen'; [done|].
  assert (Hobj : ∀ fields s, ('(ts, seen) ← members (stringify fuel) fields s; Some (Some (braces ts), seen)) = Some (Some t, seen') → one_line t).
  { intros fields s. destruct (members (stringify fuel) fields s) as [[ts s']|] eqn:Hm; [|done]. cbn. intros [= <- <-].
    apply wrap_line; [by apply one_line_const..|]. by eapply members_line. }
  destruct v as [| |b|x|z|s|name message code stack|fields|id]; cbn [Logger.stringify]; try (by apply Hobj).
  - done.
  - intros [= <- <-]. by apply one_line_const.
  - intros [= <- <-]. destruct b; by apply one_line_const.
  - intros [= <- <-]. destruct (is_finite x); [apply Hnum|by apply one_line_const].
  - intros [= <- <-]. apply quote_line.
  - intros [= <- <-]. apply quote_line.
  - case_decide; [intros [= <- <-]; apply quote_line|]. destruct (H !! id) as [[fields|items]|]; [apply Hobj| |done].
    destruct (elements (stringify fuel) items (id :: seen)) as [[ts s']|] eqn:Hm; [|done]. cbn. intros [= <- <-].
    apply wrap_line; [by apply one_line_const..|]. by eapply elements_line.
Qed.

(** Whatever is logged, cycles and newlines included, a call whose level is
    enabled writes exactly one line, and one whose level is not writes nothing. *)
Theorem one_record_per_line l now level msg fields fuel : (∀ x, one_line (number_text x)) →
  (enough H (record_of l now level msg fields) ≤ fuel)%nat →
  let out := write number_text H fuel l now level msg fields None in
  if isLevelEnabled l level then ∃ t, out = [(match file l with Some f => if truthy f then File f else Stdout | None => Stdout end, t +:+ NEWLINE)] ∧ one_line t
  else out = [].
Proof.
  intros Hnum Hf out. unfold out, write. destruct (isLevelEnabled l level); [|done]. cbn [negb].
  destruct fuel as [|fuel]; [pose proof (depth_pos (record_of l now level msg fields)); unfold enough in Hf; lia|].
  destruct (stringify_terminates _ _ Hf) as [[t s] Ht]. rewrite Ht.
  assert (Hs : is_Some t).
  { unfold record_of in Ht. cbn [Logger.stringify] in Ht. destruct (members _ _ _) as [[ts s']|]; [|done]. cbn in Ht. by injection Ht as <- _. }
  destruct Hs as [t' ->]. exists t'. split; [done|]. by eapply stringify_line.
Qed.
End proofs.

(** ** Strings are read back *)

Definition unhex (c : ascii) : Z := if is_digit c then code c - 48 else code c - 87.
Definition unescape (c : ascii) : ascii :=
  if decide (c = "b"%char) then chr 8 else if decide (c = "t"%char) then chr 9 else if decide (c = "n"%char) then chr 10
  else if decide (c = "f"%char) then chr 12 else if decide (c = "r"%char) then chr 13 else c.
(** A reader of JSON strings, from after the opening quote: the characters,
    and what follows the closing one. *)
Fixpoint read_string (l : list ascii) : option (list ascii * list ascii) :=
  match l with
  | [] => None
  | c :: l =>
      if decide (c = QUOTE) then Some ([], l)
      else if decide (c = BACKSLASH) then
        match l with
        | e :: l =>
            if decide (e = "u"%char) then
              match l with
              | _ :: _ :: x :: y :: l => '(cs, rest) ← read_string l; Some (chr (unhex x * 16 + unhex y) :: cs, rest)
              | _ => None
              end
            else '(cs, rest) ← read_string l; Some (unescape e :: cs, rest)
        | [] => None
        end
      else '(cs, rest) ← read_string l; Some (c :: cs, rest)
  end.
Lemma read_escape c l : read_string (escape c ++ l) = '(cs, rest) ← read_string l; Some (c :: cs, rest).
Proof. destruct c as [[] [] [] [] [] [] [] []]; reflexivity. Qed.
(** A reader of JSON gets every string back, and the text after it. *)
Theorem quote_read l rest : match quote_chars l ++ rest with q :: l' => q = QUOTE ∧ read_string l' = Some (l, rest) | [] => False end.
Proof.
  unfold quote_chars. cbn [app]. split; [done|]. rewrite <-(assoc_L (++)). induction l as [|c l IH]; [done|].
  cbn [mbind list_bind]. rewrite <-(assoc_L (++)), read_escape. by rewrite IH.
Qed.

(** ** Levels and references *)

(** A child does not inherit the level: it logs from [info] on, whatever its
    parent's threshold. *)
Theorem child_forgets_level e l more : threshold l ∈ [Some 10; Some 20; Some 30; Some 40] → threshold (child e l more) = Some 20.
Proof. rewrite !elem_of_cons, elem_of_nil. unfold child, construct. cbn. by intros [->|[->|[->|[->|[]]]]]. Qed.
Lemma child_forgets_level_witness : let e := Env None None None None (Some "error") in
  let l := construct e (Options None None None None None) in
  isLevelEnabled l "info" = false ∧ isLevelEnabled (child e l []) "info" = true.
Proof.
  intros e l. split; [reflexivity|]. unfold isLevelEnabled. rewrite (child_forgets_level e l []); [reflexivity|]. set_solver.
Defined.

(** An object that is logged twice, without any cycle, is called circular the
    second time, and its data is left out. *)
Theorem shared_called_circular number_text H id k k' fuel : is_Some (H !! id) → (enough H (Fresh [(k, Ref id)]) ≤ fuel)%nat →
  ∃ t s, stringify number_text H fuel [] (Fresh [(k, Ref id); (k', Ref id)]) =
    Some (Some (braces [quote k +:+ ":" +:+ t; quote k' +:+ ":" +:+ quote "[Circular]"]), s).
Proof.
  intros [c Hc] Hf. assert (Hu : (2 + unseen H [] ≤ fuel)%nat) by (unfold enough in Hf; cbn [depth foldr snd] in Hf; lia).
  pose proof (unseen_cons H [] id c Hc ltac:(by intros ?%elem_of_nil)) as Hd. destruct fuel as [|[|fuel]]; [lia..|].
  assert (Hfirst : ∃ t s, stringify number_text H (S fuel) [] (Ref id) = Some (Some t, s) ∧ id ∈ s).
  { cbn [stringify]. rewrite decide_False by (by intros ?%elem_of_nil). rewrite Hc.
    destruct c as [fields|items]; cbn [cell_depth] in Hd.
    - destruct (members_total H _ fuel fields [id] (stringify_total number_text H fuel)) as (ts & s & -> & Hs); [lia|]. eexists _, s. split; [done|]. set_solver.
    - destruct (elements_total H _ fuel items [id] (stringify_total number_text H fuel)) as (ts & s & -> & Hs); [lia|]. eexists _, s. split; [done|]. set_solver. }
  destruct Hfirst as (t & s & Ht & Hs). exists t, s. change (stringify number_text H (S (S fuel)) [] (Fresh ?f)) with
    ('(ts, seen) ← members (stringify number_text H (S fuel)) f []; Some (Some (braces ts), seen)).
  cbn [members]. rewrite Ht. cbn [mbind option_bind]. assert (stringify number_text H (S fuel) s (Ref id) = Some (Some (quote "[Circular]"), s)) as ->.
  { cbn [stringify]. by rewrite decide_True. }
  done.
Qed.
Definition demo_heap : heap := [Object [("name", Str "a"); ("self", Ref 0)]].
Definition no_text (x : double) : string := "0".
Lemma stringify_terminates_witness : stringify no_text demo_heap 3 [] (Ref 0) =
  Some (Some (braces [quote "name" +:+ ":" +:+ quote "a"; quote "self" +:+ ":" +:+ quote "[Circular]"]), [0%nat]) ∧ is_Some (stringify no_text demo_heap 3 [] (Ref 0)).
Proof. split; [reflexivity|]. apply stringify_terminates. vm_compute. repeat constructor. Defined.
Lemma shared_called_circular_witness : ∃ t s, stringify no_text [Object [("n", Num DNaN)]] 9 [] (Fresh [("a", Ref 0); ("b", Ref 0)]) =
  Some (Some (braces [quote "a" +:+ ":" +:+ t; quote "b" +:+ ":" +:+ quote "[Circular]"]), s).
Proof. apply shared_called_circular; [by eexists|]. vm_compute. repeat constructor. Defined.
Lemma one_record_per_line_witness : let l := Logger "api" "test" None (Some 20) [] in
  ∃ t, write no_text demo_heap 9 l "now" "info" "two" [("msg", Str (String (chr 10) "x")); ("o", Ref 0)] None = [(Stdout, t +:+ NEWLINE)] ∧ one_line t.
Proof.
  intros l. apply (one_record_per_line no_text demo_heap l "now" "info" "two" [("msg", Str (String (chr 10) "x")); ("o", Ref 0)] 9).
  - intros x. by apply one_line_const.
  - vm_compute. repeat constructor.
Defined.
