(* ===== verification/Reconnect.v ===== *)
(** * A WebSocket that reconnects

    frontend/src/utils/websocket.ts, the manager with its backoff, as a machine
    over the calls of its user and the events of its sockets and timers, and
    hooks/useNotificationWebSocket.ts, which feeds notifications from it.  A
    socket behaves as the platform's: it opens and receives only before it is
    closed.  Delays are milliseconds. *)
From stdpp Require Import list.
From S2P Require Import Prelude UrlText.

(** ** The manager *)

Inductive ready := Connecting | Open | Closing | Closed.
#[global] Instance ready_eq_dec : EqDecision ready.
Proof. solve_decision. Defined.
(** A socket; [hooked] until its [onclose] is taken away. *)
Record socket := Socket { readyState : ready; hooked : bool }.
Inductive timer_state := Pending | Gone.
Record timer := Timer { delay : Z; t_state : timer_state }.
Record options := Options { url : string; initialDelay : Z; maxDelay : Z; backoffFactor : Z; maxAttempts : Z }.
(** What happened: sockets created, callbacks called, and data sent. *)
Inductive happening := Dialled (url : string) | Opened | Received (data : string) | ClosedWith (code : Z) | Errored | Sent (i : nat) (data : string).
Record manager := Manager {
  opts : options;
  greeting : option string;          (* what [onOpen] sends *)
  sockets : list socket;
  ws : option nat;
  reconnectAttempts : Z;
  timers : list timer;
  reconnectTimer : option nat;
  destroyed : bool;
  trace : list happening
}.
Definition defaults (url : string) (initial maximum factor attempts : option Z) : options :=
  Options url (default 1000 initial) (default 30000 maximum) (default 2 factor) (default 0 attempts).
Definition create (o : options) (g : option string) : manager := Manager o g [] None 0 [] None false [].
Definition set_sockets (ss : list socket) (w : option nat) (m : manager) : manager :=
  Manager (opts m) (greeting m) ss w (reconnectAttempts m) (timers m) (reconnectTimer m) (destroyed m) (trace m).
Definition set_timers (n : Z) (ts : list timer) (t : option nat) (m : manager) : manager :=
  Manager (opts m) (greeting m) (sockets m) (ws m) n ts t (destroyed m) (trace m).
Definition note (h : happening) (m : manager) : manager :=
  Manager (opts m) (greeting m) (sockets m) (ws m) (reconnectAttempts m) (timers m) (reconnectTimer m) (destroyed m) (trace m ++ [h]).
Definition set_destroyed (m : manager) : manager :=
  Manager (opts m) (greeting m) (sockets m) (ws m) (reconnectAttempts m) (timers m) (reconnectTimer m) true (trace m).

Definition connect (m : manager) : manager :=
  if destroyed m then m
  else note (Dialled (url (opts m))) (set_sockets (sockets m ++ [Socket Connecting true]) (Some (length (sockets m))) m).
(** [send]: on the current socket, if it is open. *)
Definition send (data : string) (m : manager) : manager :=
  match ws m with
  | Some i => match sockets m !! i with Some (Socket Open _) => note (Sent i data) m | _ => m end
  | None => m
  end.
(** The delay before an attempt.  The powers of a factor that is a power of two
    are exact; where another factor's are rounded, they are above the cap. *)
Definition backoff (o : options) (attempts : Z) : Z := Z.min (initialDelay o * backoffFactor o ^ attempts) (maxDelay o).
Definition scheduleReconnect (m : manager) : manager :=
  if (0 <? maxAttempts (opts m)) && (maxAttempts (opts m) <=? reconnectAttempts m) then m
  else set_timers (reconnectAttempts m + 1) (timers m ++ [Timer (backoff (opts m) (reconnectAttempts m)) Pending]) (Some (length (timers m))) m.
Definition clear (t : timer) : timer := Timer (delay t) Gone.
Definition hang_up (s : socket) : socket := Socket (match readyState s with Closed => Closed | _ => Closing end) false.
Definition destroy (m : manager) : manager :=
  let m := set_destroyed m in
  let m := match reconnectTimer m with
           | Some t => set_timers (reconnectAttempts m) (alter clear t (timers m)) None m
           | None => m
           end in
  match ws m with
  | Some i => set_sockets (alter hang_up i (sockets m)) None m
  | None => m
  end.

Definition at_socket (i : nat) (r : ready) (m : manager) : manager :=
  set_sockets (alter (λ s, Socket r (hooked s)) i (sockets m)) (ws m) m.
Definition on_open (i : nat) (m : manager) : manager :=
  match sockets m !! i with
  | Some (Socket Connecting _) =>
      let m := note Opened (set_timers 0 (timers m) (reconnectTimer m) (at_socket i Open m)) in
      match greeting m with Some g => send g m | None => m end
  | _ => m
  end.
Definition on_message (i : nat) (data : string) (m : manager) : manager :=
  match sockets m !! i with Some (Socket Open _) => note (Received data) m | _ => m end.
Definition on_close (i : nat) (code : Z) (m : manager) : manager :=
  match sockets m !! i with
  | Some (Socket Closed _) | None => m
  | Some (Socket _ hook) =>
      let m := at_socket i Closed m in
      if hook then
        let m := note (ClosedWith code) m in
        if negb (destroyed m) && negb (code =? 1000) then scheduleReconnect m else m
      else m
  end.
Definition on_error (i : nat) (m : manager) : manager :=
  match sockets m !! i with Some (Socket Closed _) | None => m | Some _ => note Errored m end.
Definition fire (k : nat) (m : manager) : manager :=
  match timers m !! k with
  | Some (Timer _ Pending) =>
      let m := set_timers (reconnectAttempts m) (alter clear k (timers m)) (reconnectTimer m) m in
      if destroyed m then m else connect m
  | _ => m
  end.

Inductive ws_event := Connect | Send (data : string) | Destroy
| Opens (i : nat) | Message (i : nat) (data : string) | Fails (i : nat) | Closes (i : nat) (code : Z) | Fires (k : nat).
Definition ws_step (m : manager) (e : ws_event) : manager :=
  match e with
  | Connect => connect m
  | Send data => send data m
  | Destroy => destroy m
  | Opens i => on_open i m
  | Message i data => on_message i data m
  | Fails i => on_error i m
  | Closes i code => on_close i code m
  | Fires k => fire k m
  end.
Definition ws_run (m : manager) (es : list ws_event) : manager := foldl ws_step m es.

(** ** The hook *)

(** A frame's data, parsed: no JSON, [null], or a value with these members;
    [in_defaults] is [type in EVENT_DEFAULTS] for a type that is not falsy. *)
Inductive event_type := cliff_reached | claim_available | expiring_soon | stream_cancelled.
Definition type_name (t : event_type) : string :=
  match t with cliff_reached => "cliff_reached" | claim_available => "claim_available" | expiring_soon => "expiring_soon" | stream_cancelled => "stream_cancelled" end.
Definition all_types : list event_type := [cliff_reached; claim_available; expiring_soon; stream_cancelled].
Definition EVENT_DEFAULTS (t : event_type) : string * string :=
  match t with
  | cliff_reached => ("Cliff Reached", "Your vesting cliff has been reached. Tokens are now available to claim.")
  | claim_available => ("Claim Available", "New tokens are available for you to claim.")
  | expiring_soon => ("Stream Expiring Soon", "Your vesting stream will expire within 7 days.")
  | stream_cancelled => ("Stream Cancelled", "Your vesting stream has been cancelled.")
  end.
(** The names every object inherits. *)
Definition inherited : list string :=
  ["constructor"; "__defineGetter__"; "__defineSetter__"; "hasOwnProperty"; "__lookupGetter__"; "__lookupSetter__"; "isPrototypeOf";
   "propertyIsEnumerable"; "toString"; "valueOf"; "__proto__"; "toLocaleString"].
Record frame := Frame { f_type : option string; f_recipient : option string; f_title : option string; f_message : option string }.
Inductive parsed := NotJson | NullJson | Data (f : frame).
Record notification := Notification { n_type : string; n_title : option string; n_message : option string; n_recipient : string }.
(** The outcome of a frame: ignored, an exception in the handler, or a
    notification, whose texts may be undefined. *)
Inductive handled := Ignored | Threw | Added (n : notification).
Definition type_of_name (s : string) : option event_type := snd <$> list_find (λ t, type_name t = s) all_types.
Definition onMessage (recipientAddress : string) (p : parsed) : handled :=
  match p with
  | NotJson => Ignored
  | NullJson => Threw
  | Data f =>
      match f_type f with
      | None => Ignored
      | Some t =>
          if negb (truthy t) || negb (bool_decide (t ∈ (type_name <$> all_types) ++ inherited)) then Ignored
          else if match f_recipient f with Some r => truthy r && negb (bool_decide (r = recipientAddress)) | None => false end then Ignored
          else
            let texts := EVENT_DEFAULTS <$> type_of_name t in
            Added (Notification t (match f_title f with Some s => Some s | None => fst <$> texts end)
                                  (match f_message f with Some s => Some s | None => snd <$> texts end)
                                  (default recipientAddress (f_recipient f)))
      end
  end.
(** [NEXT_PUBLIC_WS_URL], or the page's own host over [ws] or [wss]. *)
Definition buildWsUrl (ws_env : option string) (window : option (string * string)) (recipientAddress : string) : string :=
  match ws_env with
  | Some base => base
  | None =>
      match window with
      | Some (protocol, host) => (if decide (protocol = "https:") then "wss" else "ws") +:+ "://" +:+ host
      | None => "ws://localhost:3001"
      end
  end +:+ "/ws/notifications?recipient=" +:+ encodeURIComponent recipientAddress.
Definition hook_manager (ws_env : option string) (window : option (string * string)) (subscribeMsg recipientAddress : string) : manager :=
  connect (create (Options (buildWsUrl ws_env window recipientAddress) 1000 30000 2 0) (Some subscribeMsg)).

(** ** Lemmas *)

(** A socket that may still ask for a reconnection, and a timer that will
    make one. *)
Definition live (s : socket) : nat := match readyState s with Closed => 0 | _ => if hooked s then 1 else 0 end.
Definition due (t : timer) : nat := match t_state t with Pending => 1 | Gone => 0 end.
Definition busy (m : manager) : nat := (sum_list_with live (sockets m) + sum_list_with due (timers m))%nat.
Definition is_dial (h : happening) : bool := match h with Dialled _ => true | _ => false end.
Definition dials (m : manager) : nat := length (filter (λ h, is_dial h = true) (trace m)).

Lemma sum_alter {A} (f : A → nat) (g : A → A) i (l : list A) x : l !! i = Some x →
  (sum_list_with f (alter g i l) + f x = sum_list_with f l + f (g x))%nat.
Proof.
  revert i. induction l as [|y l IH]; intros [|i] Hi; [done..| |]; cbn in *.
  - injection Hi as ->. lia.
  - specialize (IH i Hi). change (alter g (S i) (y :: l)) with (y :: alter g i l) in *. cbn. lia.
Qed.
Lemma sum_alter_le {A} (f : A → nat) (g : A → A) i (l : list A) : (∀ x, (f (g x) ≤ f x)%nat) → (sum_list_with f (alter g i l) ≤ sum_list_with f l)%nat.
Proof.
  intros Hg. revert i. induction l as [|y l IH]; intros [|i]; [done..| |].
  - change (alter g 0 (y :: l)) with (g y :: l). cbn. specialize (Hg y). lia.
  - change (alter g (S i) (y :: l)) with (y :: alter g i l). cbn. specialize (IH i). lia.
Qed.
Lemma busy_note h m : busy (note h m) = busy m. Proof. done. Qed.
Lemma busy_connect m : busy (connect m) = (busy m + if destroyed m then 0 else 1)%nat.
Proof. unfold connect. destruct (destroyed m); [lia|]. unfold busy. cbn. rewrite sum_list_with_app. cbn. lia. Qed.
Lemma busy_send data m : busy (send data m) = busy m.
Proof. unfold send. by repeat case_match. Qed.
Lemma busy_schedule m : (busy (scheduleReconnect m) ≤ busy m + 1)%nat ∧
  (maxAttempts (opts m) = 0 → busy (scheduleReconnect m) = (busy m + 1)%nat).
Proof.
  unfold scheduleReconnect. destruct (_ && _) eqn:Hm; [split; [lia|intros H0; rewrite H0 in Hm; discriminate]|].
  unfold busy. cbn. rewrite sum_list_with_app. cbn. lia.
Qed.
Lemma busy_destroy m : (busy (destroy m) ≤ busy m)%nat.
Proof.
  assert (Hc : ∀ t, (due (clear t) ≤ due t)%nat) by (intros [? []]; cbn; lia).
  assert (Hh : ∀ s, (live (hang_up s) ≤ live s)%nat) by (intros [[] []]; cbn; lia).
  unfold destroy, busy. destruct (reconnectTimer _) as [t|], (ws _) as [i|]; cbn [sockets timers set_sockets set_timers set_destroyed];
    try pose proof (sum_alter_le due clear t (timers m) Hc); try pose proof (sum_alter_le live hang_up i (sockets m) Hh); lia.
Qed.
Lemma busy_open i m : busy (on_open i m) = busy m.
Proof.
  unfold on_open. destruct (sockets m !! i) as [[[] h]|] eqn:Hi; try done. set (q := note _ _).
  assert (Hq : busy q = busy m).
  { unfold busy, q. cbn. pose proof (sum_alter live (λ s, Socket Open (hooked s)) i (sockets m) _ Hi) as Hs. destruct h; cbn in Hs; lia. }
  destruct (greeting q); [by rewrite busy_send|done].
Qed.
Lemma busy_closed i m s : sockets m !! i = Some s → (busy (at_socket i Closed m) + live s = busy m)%nat.
Proof. intros Hi. unfold busy. cbn. pose proof (sum_alter live (λ s, Socket Closed (hooked s)) i (sockets m) _ Hi) as Hs. cbn in Hs. lia. Qed.
Lemma busy_close i code m : (busy (on_close i code m) ≤ busy m)%nat ∧
  (maxAttempts (opts m) = 0 → destroyed m = false → code ≠ 1000 → busy (on_close i code m) = busy m).
Proof.
  unfold on_close. destruct (sockets m !! i) as [[r h]|] eqn:Hi; [|split; [lia|done]]. pose proof (busy_closed i m _ Hi) as Hb.
  destruct r; [..|split; [lia|done]]; (destruct h; cbn [live readyState hooked] in Hb; [|split; [lia|intros; lia]]; set (q := note _ _); assert (Hq : busy q = busy (at_socket i Closed m)) by done;
    destruct (busy_schedule q) as [H1 H2]; change (destroyed q) with (destroyed m); change (maxAttempts (opts q)) with (maxAttempts (opts m)) in H2;
    destruct (Z.eqb_spec code 1000), (destroyed m); cbn [negb andb]; split; intros; try done; try lia; specialize (H2 ltac:(done)); lia).
Qed.
Lemma busy_fire k m : (busy (fire k m) ≤ busy m)%nat ∧ (destroyed m = false → busy (fire k m) = busy m).
Proof.
  unfold fire. destruct (timers m !! k) as [[d []]|] eqn:Hk; [|split; [lia|done]..]. set (q := set_timers _ _ _ m).
  assert (Hq : (busy q + 1 = busy m)%nat) by (unfold busy, q; cbn; pose proof (sum_alter due clear k (timers m) _ Hk) as Hs; cbn in Hs; lia).
  change (destroyed q) with (destroyed m). destruct (destroyed m) eqn:Hd; [split; [lia|done]|]. rewrite busy_connect. change (destroyed q) with (destroyed m). rewrite Hd. split; [lia|intros; lia].
Qed.
Lemma busy_error i m : busy (on_error i m) = busy m.
Proof. unfold on_error. by repeat case_match. Qed.
Lemma busy_message i d m : busy (on_message i d m) = busy m.
Proof. unfold on_message. by repeat case_match. Qed.

Definition is_connect (e : ws_event) : bool := match e with Connect => true | _ => false end.
Lemma step_busy m e : (busy (ws_step m e) ≤ busy m + if is_connect e then 1 else 0)%nat.
Proof.
  destruct e as [|d| |i|i d|i|i code|k]; cbn [ws_step is_connect].
  - rewrite busy_connect. destruct (destroyed m); lia.
  - rewrite busy_send. lia.
  - pose proof (busy_destroy m). lia.
  - rewrite busy_open. lia.
  - rewrite busy_message. lia.
  - rewrite busy_error. lia.
  - destruct (busy_close i code m). lia.
  - destruct (busy_fire k m). lia.
Qed.

(** What every step leaves alone. *)
Ltac quiet := unfold destroy, on_open, on_message, on_close, on_error, fire, scheduleReconnect, connect, send; repeat (case_match; cbn; try done).
Lemma step_opts m e : opts (ws_step m e) = opts m.
Proof. destruct e; cbn [ws_step]; quiet. Qed.
Lemma step_destroyed m e : destroyed m = true → destroyed (ws_step m e) = true.
Proof. intros Hd. destruct e; cbn [ws_step]; quiet; unfold note, set_sockets in *; cbn in *; congruence. Qed.

(** ** Theorems *)

Definition connects (es : list ws_event) : nat := length (filter (λ e, is_connect e = true) es).
(** There are never more connections and scheduled attempts than calls of
    [connect]: one call keeps one, through any closes, errors and timers. *)
Theorem one_connection_per_call o g es : (busy (ws_run (create o g) es) ≤ connects es)%nat.
Proof.
  assert (H : ∀ m, (busy (ws_run m es) ≤ busy m + connects es)%nat); [|apply (H (create o g))].
  unfold ws_run, connects. induction es as [|e es IH]; intros m; [cbn; lia|]. cbn [foldl]. specialize (IH (ws_step m e)). pose proof (step_busy m e).
  rewrite filter_cons. destruct (is_connect e); case_decide; try done; cbn [length] in *; lia.
Qed.

Lemma connect_dials m : destroyed m = true → connect m = m.
Proof. unfold connect. by intros ->. Qed.
Lemma step_dials m e : destroyed m = true → dials (ws_step m e) = dials m ∧ length (sockets (ws_step m e)) = length (sockets m).
Proof.
  intros Hd. unfold dials. assert (Hn : ∀ h l, is_dial h = false → length (filter (λ h, is_dial h = true) (l ++ [h])) = length (filter (λ h, is_dial h = true) l)).
  { intros h l Hh. rewrite filter_app, length_app, filter_cons_False by congruence. cbn. lia. }
  destruct e; cbn [ws_step]; [by rewrite connect_dials|..]; quiet; unfold note, set_sockets, set_timers, set_destroyed in *; cbn in *;
    rewrite ?length_alter, ?Hn by done; split; congruence.
Qed.
(** [destroy] is final: no connection is opened afterwards, whatever timers,
    sockets and callers do. *)
Theorem destroy_final m es : let m' := destroy m in
  destroyed (ws_run m' es) = true ∧ dials (ws_run m' es) = dials m' ∧ length (sockets (ws_run m' es)) = length (sockets m').
Proof.
  intros m'. assert (Hd : destroyed m' = true) by (unfold m', destroy; repeat case_match; done).
  revert Hd. generalize m'. clear m'. unfold ws_run. induction es as [|e es IH]; intros q Hd; [done|]. cbn [foldl].
  destruct (step_dials q e Hd) as [<- <-]. apply IH, step_destroyed, Hd.
Qed.

Definition delay_ok (o : options) (t : timer) : Prop := Z.min (initialDelay o) (maxDelay o) <= delay t <= maxDelay o.
Definition delays_ok (o : options) (m : manager) : Prop :=
  opts m = o ∧ Forall (delay_ok o) (timers m) ∧ 0 <= reconnectAttempts m ∧ (0 < maxAttempts o → reconnectAttempts m <= maxAttempts o).
Lemma schedule_delays o m : 0 <= initialDelay o → 1 <= backoffFactor o → delays_ok o m → delays_ok o (scheduleReconnect m).
Proof.
  intros Hi Hf (Ho & Ht & H0 & Hm). unfold scheduleReconnect. rewrite Ho. destruct (_ && _) eqn:Hlim; [done|].
  split; [done|]. cbn. split_and!; [|lia|].
  - apply Forall_app. split; [done|]. apply Forall_singleton. unfold delay_ok, backoff. cbn.
    pose proof (Z.pow_pos_nonneg (backoffFactor o) (reconnectAttempts m)). nia.
  - intros Hpos. apply andb_false_iff in Hlim as [Hlim|Hlim]; lia.
Qed.
Lemma clear_delays o k n t m : delays_ok o m → n = reconnectAttempts m → delays_ok o (set_timers n (alter clear k (timers m)) t m).
Proof. intros (Ho & Ht & H0 & Hm) ->. split_and!; try done. cbn. apply Forall_alter; [done|]. by intros. Qed.
Lemma reset_delays o t m : delays_ok o m → delays_ok o (set_timers 0 (timers m) t m).
Proof. intros (Ho & Ht & H0 & Hm). split_and!; try done. cbn. lia. Qed.
Lemma step_delays o m e : 0 <= initialDelay o → 1 <= backoffFactor o → delays_ok o m → delays_ok o (ws_step m e).
Proof.
  intros Hi Hf Hok. destruct e as [|d| |i|i d|i|i code|k]; cbn [ws_step].
  - unfold connect. by destruct (destroyed m).
  - unfold send. by repeat case_match.
  - unfold destroy. destruct (reconnectTimer _) as [t|].
    + pose proof (clear_delays o t (reconnectAttempts m) None m Hok eq_refl). by case_match.
    + by case_match.
  - unfold on_open. destruct (sockets m !! i) as [[[] h]|]; try done. pose proof (reset_delays o (reconnectTimer m) m Hok).
    unfold send. by repeat case_match.
  - unfold on_message. by repeat case_match.
  - unfold on_error. by repeat case_match.
  - unfold on_close. destruct (sockets m !! i) as [[r h]|]; [|done].
    assert (Hs : ∀ q, delays_ok o q → delays_ok o (if h then if negb (destroyed q) && negb (code =? 1000) then scheduleReconnect q else q else q)).
    { intros q Hq. destruct h; [|done]. destruct (_ && _); [by apply schedule_delays|done]. }
    destruct r; try done; destruct h; try done; by apply (Hs (note (ClosedWith code) (at_socket i Closed m))).
  - unfold fire. destruct (timers m !! k) as [[d []]|]; try done.
    pose proof (clear_delays o k (reconnectAttempts m) (reconnectTimer m) m Hok eq_refl). case_match; [done|]. unfold connect. by case_match.
Qed.
(** Delays stay between the first and the cap, and the attempts within their
    limit, through every run. *)
Theorem delays_bounded o g es : 0 <= initialDelay o → 1 <= backoffFactor o → delays_ok o (ws_run (create o g) es).
Proof.
  intros Hi Hf. assert (Hok : delays_ok o (create o g)) by (split_and!; cbn; done || lia). revert Hok. generalize (create o g).
  unfold ws_run. induction es as [|e es IH]; intros q Hq; [done|]. by apply IH, step_delays.
Qed.

(** The manager of the hook never gives up: as long as it is not destroyed
    and no server closed with code 1000, there is one connection or one
    scheduled attempt, whatever fails. *)
Definition quits (e : ws_event) : bool := match e with Connect | Destroy => true | Closes _ code => code =? 1000 | _ => false end.
Theorem hook_keeps_trying ws_env window msg r es : Forall (λ e, quits e = false) es →
  busy (ws_run (hook_manager ws_env window msg r) es) = 1%nat.
Proof.
  intros Hes. set (m := hook_manager ws_env window msg r).
  assert (H : maxAttempts (opts m) = 0 ∧ destroyed m = false ∧ busy m = 1%nat) by done. revert H. generalize m. clear m.
  unfold ws_run. induction Hes as [|e es He _ IH]; intros m (Ho & Hd & Hb); [done|]. cbn [foldl]. apply IH. rewrite step_opts. split; [done|]. split.
  - destruct e; cbn [ws_step]; try done; quiet; unfold note, set_sockets in *; cbn in *; congruence.
  - destruct e as [|d| |i|i d|i|i code|k]; try done; cbn [ws_step]; cbn in He.
    + by rewrite busy_send. + by rewrite busy_open. + by rewrite busy_message. + by rewrite busy_error.
    + destruct (busy_close i code m) as [_ H]. rewrite H; [done..|]. lia.
    + destruct (busy_fire k m) as [_ H]. by rewrite H.
Qed.
(** *** Consecutive failures *)

(** After [k] failures: the socket of the next attempt is connecting, and
    every timer has fired. *)
Definition failed_times (o : options) (k : nat) (m : manager) : Prop :=
  opts m = o ∧ length (sockets m) = S k ∧ sockets m !! k = Some (Socket Connecting true) ∧ reconnectAttempts m = Z.of_nat k ∧
  destroyed m = false ∧ delay <$> timers m = (λ j, backoff o (Z.of_nat j)) <$> seq 0 k.
(** Each attempt fails, and its timer fires. *)
Definition failures (n : nat) : list ws_event := seq 0 n ≫= λ i, [Closes i 1006; Fires i].

Lemma failure_round o k m : (maxAttempts o = 0 ∨ Z.of_nat k < maxAttempts o) → failed_times o k m →
  failed_times o (S k) (ws_run m [Closes k 1006; Fires k]).
Proof.
  intros Hmax (Ho & Hl & Hs & Ha & Hd & Ht). assert (Hn : length (timers m) = k).
  { apply (f_equal length) in Ht. by rewrite !length_fmap, length_seq in Ht. }
  unfold ws_run. cbn [foldl ws_step]. unfold on_close. rewrite Hs. cbn [note destroyed at_socket set_sockets]. rewrite Hd. cbn [negb andb Z.eqb Pos.eqb].
  unfold scheduleReconnect. cbn [opts maxAttempts reconnectAttempts note at_socket set_sockets timers]. rewrite Ho, Ha.
  replace ((0 <? maxAttempts o) && (maxAttempts o <=? Z.of_nat k)) with false by (destruct (Z.ltb_spec 0 (maxAttempts o)), (Z.leb_spec (maxAttempts o) (Z.of_nat k)); done || lia).
  unfold fire. cbn [timers set_timers]. rewrite list_lookup_middle by done. cbn [destroyed set_timers note at_socket set_sockets]. rewrite Hd.
  unfold connect. cbn [destroyed set_timers note at_socket set_sockets]. rewrite Hd. split_and!.
  - done.
  - cbn. rewrite length_app, length_alter, Hl. cbn. lia.
  - cbn. by rewrite list_lookup_middle by (by rewrite length_alter).
  - cbn. lia.
  - done.
  - change (delay <$> alter clear k (timers m ++ [Timer (backoff o (Z.of_nat k)) Pending]) = (λ j, backoff o (Z.of_nat j)) <$> seq 0 (S k)).
    rewrite alter_app_r_alt, Hn, Nat.sub_diag by lia. rewrite seq_S, !fmap_app, Ht. done.
Qed.
Lemma failures_run o g n : (maxAttempts o = 0 ∨ Z.of_nat n <= maxAttempts o) → failed_times o n (ws_run (create o g) (Connect :: failures n)).
Proof.
  unfold failures. induction n as [|n IH]; intros Hmax; [by split_and!|].
  rewrite seq_S, bind_app. change (Connect :: ?a ++ ?b) with ((Connect :: a) ++ b). unfold ws_run. rewrite foldl_app. cbn [mbind list_bind app Nat.add].
  apply failure_round; [lia|]. apply IH. lia.
Qed.
(** The waits after consecutive failures grow by the factor up to the cap;
    an attempt that succeeds starts over with the first delay. *)
Theorem backoff_sequence o g n : (maxAttempts o = 0 ∨ Z.of_nat n <= maxAttempts o) →
  let m := ws_run (create o g) (Connect :: failures n) in
  delay <$> timers m = (λ j, backoff o (Z.of_nat j)) <$> seq 0 n ∧ reconnectAttempts (ws_step m (Opens n)) = 0.
Proof.
  intros Hmax m. destruct (failures_run o g n Hmax) as (Ho & Hl & Hs & Ha & Hd & Ht). fold m in Ho, Hl, Hs, Ha, Hd, Ht. split; [done|].
  cbn [ws_step]. unfold on_open. rewrite Hs. unfold send. by repeat case_match.
Qed.
(** With a limit, the attempt after that many failures is the last: its
    failure schedules nothing, and nothing is left that would connect. *)
Theorem gives_up o g n : 0 < maxAttempts o → n = Z.to_nat (maxAttempts o) →
  let m := ws_run (create o g) (Connect :: failures n ++ [Closes n 1006]) in busy m = 0%nat ∧ length (sockets m) = S n.
Proof.
  intros Hpos Hn m. destruct (failures_run o g n) as (Ho & Hl & Hs & Ha & Hd & Ht); [lia|].
  assert (Hb := one_connection_per_call o g (Connect :: failures n)).
  assert (connects (Connect :: failures n) = 1%nat) as H1.
  { unfold connects. rewrite filter_cons_True by done. cbn [length]. f_equal. unfold failures. rewrite filter_none; [done|].
    intros e (i & He & _)%list_elem_of_bind. rewrite !elem_of_cons, elem_of_nil in He. by destruct He as [->|[->|[]]]. }
  rewrite H1 in Hb. unfold m. change (Connect :: ?a ++ ?b) with ((Connect :: a) ++ b). unfold ws_run in *. rewrite foldl_app.
  set (q := foldl _ _ (Connect :: failures n)) in *. cbn [foldl ws_step]. unfold on_close. rewrite Hs. cbn [note destroyed at_socket set_sockets]. rewrite Hd.
  cbn [negb andb Z.eqb Pos.eqb]. unfold scheduleReconnect. cbn [opts maxAttempts reconnectAttempts note at_socket set_sockets timers]. rewrite Ho, Ha.
  replace ((0 <? maxAttempts o) && (maxAttempts o <=? Z.of_nat n)) with true by (destruct (Z.ltb_spec 0 (maxAttempts o)), (Z.leb_spec (maxAttempts o) (Z.of_nat n)); done || lia).
  pose proof (busy_closed n q _ Hs) as Hc. cbn [live readyState hooked] in Hc. split; [rewrite busy_note; lia|]. cbn. by rewrite length_alter.
Qed.

(** *** Two connections *)

(** [connect] twice leaves two sockets; [destroy] closes only the last one,
    so that the first still receives, and calls back, after it. *)
Theorem destroy_leaks o g d :
  let m := ws_run (create o g) [Connect; Connect; Opens 0; Opens 1; Destroy; Message 0 d] in
  destroyed m = true ∧ sockets m !! 0%nat = Some (Socket Open true) ∧ last (trace m) = Some (Received d).
Proof. intros m. unfold m. destruct g; split_and!; reflexivity. Qed.

(** ** The hook's frames *)

(** A frame of one of the four types for this recipient, or for none, adds
    the notification of its texts or the default ones; a frame of another
    recipient adds nothing. *)
Theorem frames_added r t f : f_type f = Some (type_name t) → truthy r = true →
  onMessage r (Data f) =
    if match f_recipient f with Some r' => negb (truthy r') || bool_decide (r' = r) | None => true end then
      Added (Notification (type_name t) (Some (default (EVENT_DEFAULTS t).1 (f_title f))) (Some (default (EVENT_DEFAULTS t).2 (f_message f)))
              (default r (f_recipient f)))
    else Ignored.
Proof.
  intros Ht Hr. unfold onMessage. rewrite Ht. destruct t; cbn [type_name]; destruct (f_recipient f) as [r'|];
    try (destruct (truthy r'), (bool_decide (r' = r)); cbn; try done); cbn; by destruct (f_title f), (f_message f).
Qed.
(** A type that names a property of every object passes for an event: it
    becomes a notification of that type, without texts. *)
Theorem inherited_name_added r t : t ∈ inherited →
  onMessage r (Data (Frame (Some t) None None None)) = Added (Notification t None None r).
Proof. unfold inherited. rewrite !elem_of_cons, elem_of_nil. intros Ht. repeat destruct Ht as [->|Ht]; done. Qed.

(** ** Witnesses *)

Lemma delays_bounded_witness : delays_ok (defaults "ws://h" None None None None)
  (ws_run (create (defaults "ws://h" None None None None) None) (Connect :: failures 7)) ∧
  delay <$> timers (ws_run (create (defaults "ws://h" None None None None) None) (Connect :: failures 7)) = [1000; 2000; 4000; 8000; 16000; 30000; 30000].
Proof. split; [apply delays_bounded; cbn; lia|vm_compute; reflexivity]. Defined.
Lemma hook_keeps_trying_witness : busy (ws_run (hook_manager None (Some ("https:", "app")) "hello" "G") [Opens 0; Closes 0 1006; Fires 0; Fails 1; Closes 1 1011]) = 1%nat.
Proof. apply hook_keeps_trying. repeat constructor. Defined.
Lemma backoff_sequence_witness :
  delay <$> timers (ws_run (create (Options "u" 10 35 2 3) None) (Connect :: failures 3)) = [10; 20; 35].
Proof. destruct (backoff_sequence (Options "u" 10 35 2 3) None 3) as [-> _]; [right; done|reflexivity]. Defined.
Lemma gives_up_witness : busy (ws_run (create (Options "u" 10 35 2 3) None) (Connect :: failures 3 ++ [Closes 3 1006])) = 0%nat.
Proof. apply (gives_up (Options "u" 10 35 2 3) None 3); reflexivity. Defined.
Lemma frames_added_witness : onMessage "G" (Data (Frame (Some "cliff_reached") (Some "H") None None)) = Ignored.
Proof. rewrite (frames_added "G" cliff_reached (Frame (Some "cliff_reached") (Some "H") None None)); reflexivity. Defined.
Lemma inherited_name_added_witness : onMessage "G" (Data (Frame (Some "toString") None None None)) = Added (Notification "toString" None None "G").
Proof. apply inherited_name_added. unfold inherited. set_solver. Defined.
