(* ===== verification/WalletSession.v ===== *)
(** * The wallet session

    frontend/src/contexts/WalletContext.tsx: the address, provider and network
    of the page, what of them is kept in the local storage, the silent check on
    mount, and [connect] with its four waits, as a transition system.  The
    balances are [WalletBalances]'s. *)
From stdpp Require Import list.
From S2P Require Import Prelude.

(** ** State *)

(** The three keys of the storage; [None] for a storage whose every access
    throws. *)
Record stored := Stored { KEY_ADDRESS : option string; KEY_PROVIDER : option string; KEY_NETWORK : option string }.
(** A call of [connect], at the [await] it is at, or over. *)
Inductive connecting := IsConnected | RequestAccess | SetAllowed | GetAddress | Connected | Rejected (message : string).
Record session := Session {
  address : option string; provider : option string; network : string;
  freighterInstalled : option bool; modalOpen : bool;
  storage : option stored;
  silent : option string;            (* the cached address of a check on mount that is out *)
  connects : list connecting;
  crashed : bool                     (* an effect threw *)
}.
Definition set_wallet (a p : option string) (s : session) : session :=
  Session a p (network s) (freighterInstalled s) (modalOpen s) (storage s) (silent s) (connects s) (crashed s).
Definition set_storage (st : option stored) (s : session) : session :=
  Session (address s) (provider s) (network s) (freighterInstalled s) (modalOpen s) st (silent s) (connects s) (crashed s).
Definition set_connect (i : nat) (c : connecting) (s : session) : session :=
  Session (address s) (provider s) (network s) (freighterInstalled s) (modalOpen s) (storage s) (silent s) (<[i := c]> (connects s)) (crashed s).
Definition set_installed (b : bool) (s : session) : session :=
  Session (address s) (provider s) (network s) (Some b) (modalOpen s) (storage s) (silent s) (connects s) (crashed s).

(** The three initial states, then the effect, which reads the storage
    without a [try]. *)
Definition mount (st : option stored) : session :=
  let s := Session (st ≫= KEY_ADDRESS) (st ≫= KEY_PROVIDER) (default "testnet" (st ≫= KEY_NETWORK)) None false st None [] false in
  match st with
  | None => Session (address s) (provider s) (network s) None false st None [] true
  | Some k =>
      match KEY_ADDRESS k with
      | Some cached => if truthy cached then Session (address s) (provider s) (network s) None false st (Some cached) [] false else s
      | None => s
      end
  end.

(** Writes inside a [try]. *)
Definition store_wallet (a p : string) (st : option stored) : option stored := (λ k, Stored (Some a) (Some p) (KEY_NETWORK k)) <$> st.
Definition forget_wallet (st : option stored) : option stored := (λ k, Stored None None (KEY_NETWORK k)) <$> st.
Definition forget_address (st : option stored) : option stored := (λ k, Stored None (KEY_PROVIDER k) (KEY_NETWORK k)) <$> st.
Definition store_network (n : string) (st : option stored) : option stored := (λ k, Stored (KEY_ADDRESS k) (KEY_PROVIDER k) (Some n)) <$> st.

(** The answer to the check on mount; [None] for a rejection. *)
Definition silent_answer (r : option bool) (s : session) : session :=
  match silent s with
  | None => s
  | Some cached =>
      let s := Session (address s) (provider s) (network s) (freighterInstalled s) (modalOpen s) (storage s) None (connects s) (crashed s) in
      if default false r then set_wallet (Some cached) (provider s) s else set_storage (forget_address (storage s)) s
  end.

(** What the wallet answers to a call: a flag, nothing, an address with an
    error text, or a rejection. *)
Inductive wallet_reply := Flag (b : bool) | Done | Address (a error : string) | Failure (message : string).
Definition NOT_INSTALLED : string := "Freighter not installed".
Definition connect_step (i : nat) (r : wallet_reply) (s : session) : session :=
  match connects s !! i, r with
  | Some (Connected | Rejected _), _ | None, _ => s
  | Some _, Failure m => set_connect i (Rejected m) s
  | Some IsConnected, Flag b =>
      if b then set_connect i RequestAccess (set_installed true s)
      else set_connect i (Rejected NOT_INSTALLED) (set_installed false s)
  | Some RequestAccess, Done => set_connect i SetAllowed s
  | Some SetAllowed, Done => set_connect i GetAddress s
  | Some GetAddress, Address a error =>
      if truthy error then set_connect i (Rejected error) s
      else set_connect i Connected (set_storage (store_wallet a "freighter" (storage s)) (set_wallet (Some a) (Some "freighter") s))
  | Some _, _ => s
  end.
Definition connect (s : session) : session :=
  Session (address s) (provider s) (network s) (freighterInstalled s) (modalOpen s) (storage s) (silent s) (connects s ++ [IsConnected]) (crashed s).
Definition connectWithProvider (p a : string) (s : session) : session :=
  set_storage (store_wallet a p (storage s)) (set_wallet (Some a) (Some p) s).
Definition disconnect (s : session) : session := set_storage (forget_wallet (storage s)) (set_wallet None None s).
Definition switchNetwork (n : string) (s : session) : session :=
  Session (address s) (provider s) n (freighterInstalled s) (modalOpen s) (store_network n (storage s)) (silent s) (connects s) (crashed s).
Definition set_modal (b : bool) (s : session) : session :=
  Session (address s) (provider s) (network s) (freighterInstalled s) b (storage s) (silent s) (connects s) (crashed s).

Inductive wallet_event :=
| SilentAnswer (r : option bool) | Connect | Reply (i : nat) (r : wallet_reply) | ConnectWith (p a : string)
| Disconnect | Switch (n : string) | OpenModal | CloseModal.
Definition wallet_step (s : session) (e : wallet_event) : session :=
  match e with
  | SilentAnswer r => silent_answer r s
  | Connect => connect s
  | Reply i r => connect_step i r s
  | ConnectWith p a => connectWithProvider p a s
  | Disconnect => disconnect s
  | Switch n => switchNetwork n s
  | OpenModal => set_modal true s
  | CloseModal => set_modal false s
  end.
Definition wallet_run (s : session) (es : list wallet_event) : session := foldl wallet_step s es.

(** ** Theorems *)

(** The page and the storage agree on the wallet. *)
Definition mirrored (s : session) : Prop :=
  silent s = None ∧ ∃ k, storage s = Some k ∧ KEY_ADDRESS k = address s ∧ KEY_PROVIDER k = provider s ∧
    (KEY_NETWORK k = Some (network s) ∨ KEY_NETWORK k = None ∧ network s = "testnet").
Lemma session_mirrored s e : mirrored s → mirrored (wallet_step s e).
Proof.
  intros (Hs & k & Hk & Ha & Hp & Hn). destruct e as [r| |i r|p a| |n| |]; cbn [wallet_step].
  - unfold silent_answer. rewrite Hs. split; [done|]. by exists k.
  - split; [done|]. by exists k.
  - assert (Hc : ∀ c, mirrored (set_connect i c s)) by (intros c; split; [done|by exists k]).
    assert (Hi : ∀ c b, mirrored (set_connect i c (set_installed b s))) by (intros c b; split; [done|by exists k]).
    unfold connect_step. destruct (connects s !! i) as [[]|], r as [[]| |a error|m]; try apply Hc; try apply Hi; try (split; [done|by exists k]).
    destruct (truthy error); [apply Hc|]. split; [done|]. cbn. rewrite Hk. by eexists.
  - split; [done|]. cbn. rewrite Hk. by eexists.
  - split; [done|]. cbn. rewrite Hk. by eexists.
  - split; [done|]. cbn. rewrite Hk. eexists. split; [done|]. cbn. by auto.
  - split; [done|]. by exists k.
  - split; [done|]. by exists k.
Qed.
(** Once the check on mount is answered well, or was not needed, what the page
    shows is what the storage holds, through every operation; so a reload
    restores it. *)
Theorem reload_restores k r es : (∀ c, KEY_ADDRESS k = Some c → truthy c = true → r = Some true) →
  let s := wallet_run (mount (Some k)) (SilentAnswer r :: es) in
  mirrored s ∧ address (mount (storage s)) = address s ∧ provider (mount (storage s)) = provider s ∧ network (mount (storage s)) = network s.
Proof.
  intros Hr s. assert (Hm : mirrored (wallet_step (mount (Some k)) (SilentAnswer r))).
  { cbn [wallet_step]. unfold mount. cbn. destruct (KEY_ADDRESS k) as [c|] eqn:Ha; [destruct (truthy c) eqn:Hc|]; unfold silent_answer; cbn.
    - rewrite (Hr c) by done. split; [done|]. exists k. cbn. split_and!; try done. destruct (KEY_NETWORK k); auto.
    - split; [done|]. exists k. cbn. split_and!; try done. destruct (KEY_NETWORK k); auto.
    - split; [done|]. exists k. cbn. split_and!; try done. destruct (KEY_NETWORK k); auto. }
  assert (Hs : mirrored s).
  { unfold s, wallet_run. cbn [foldl]. revert Hm. generalize (wallet_step (mount (Some k)) (SilentAnswer r)). clear.
    induction es as [|e es IH]; intros q Hq; [done|]. by apply IH, session_mirrored. }
  split; [done|]. destruct Hs as (_ & k' & Hk & Ha & Hp & Hn). rewrite Hk. unfold mount. cbn. rewrite Ha, Hp.
  assert (default "testnet" (KEY_NETWORK k') = network s) as -> by (by destruct Hn as [-> | [-> ->]]).
  destruct (address s) as [c|] eqn:E; [destruct (truthy c)|]; cbn; split_and!; try done.
Qed.
Lemma reload_restores_witness : let s := wallet_run (mount (Some (Stored (Some "GA") (Some "albedo") None))) [SilentAnswer (Some true); Switch "mainnet"] in
  address (mount (storage s)) = Some "GA" ∧ network (mount (storage s)) = "mainnet".
Proof.
  intros s. destruct (reload_restores (Stored (Some "GA") (Some "albedo") None) (Some true) [Switch "mainnet"]) as (_ & Ha & _ & Hn); [done|].
  change (wallet_run _ _) with s in Ha, Hn. rewrite Ha, Hn. split; reflexivity.
Defined.

(** A check on mount that fails empties the storage, but not the page: the
    address stays shown, and is gone after the next reload. *)
Theorem failed_check_keeps_address a p n r : truthy a = true → r ≠ Some true →
  let s := wallet_run (mount (Some (Stored (Some a) p n))) [SilentAnswer r] in
  address s = Some a ∧ provider s = p ∧ address (mount (storage s)) = None ∧ provider (mount (storage s)) = p.
Proof. intros Ha Hr s. unfold s, wallet_run, mount. cbn. rewrite Ha. destruct r as [[]|]; done. Qed.
Lemma failed_check_keeps_address_witness : address (wallet_run (mount (Some (Stored (Some "GA") None None))) [SilentAnswer None]) = Some "GA".
Proof. apply (failed_check_keeps_address "GA" None None None); done. Defined.

(** A disconnection before the check on mount is answered is undone by the
    answer: the address comes back, without a provider, while the storage says
    that nobody is connected. *)
Theorem disconnect_undone a p n : truthy a = true →
  let s := wallet_run (mount (Some (Stored (Some a) p n))) [Disconnect; SilentAnswer (Some true)] in
  address s = Some a ∧ provider s = None ∧ storage s = Some (Stored None None n).
Proof. intros Ha s. unfold s, wallet_run, mount. cbn. rewrite Ha. done. Qed.
Lemma disconnect_undone_witness : address (wallet_run (mount (Some (Stored (Some "GA") None None))) [Disconnect; SilentAnswer (Some true)]) = Some "GA".
Proof. apply (disconnect_undone "GA" None None). done. Defined.

(** A storage that throws is survived by the initial states, but not by the
    effect on mount. *)
Theorem blocked_storage_crashes : crashed (mount None) = true ∧ ∀ k, crashed (mount (Some k)) = false.
Proof. split; [done|]. intros k. unfold mount. by repeat case_match. Qed.

(** [connect] on its own: the answers of the wallet, in order. *)
Definition wallet_sequence (i : nat) (found : bool) (a error : string) : list wallet_event :=
  [Reply i (Flag found); Reply i Done; Reply i Done; Reply i (Address a error)].
(** It sets and stores the address exactly when the extension is there and
    gives one without an error; otherwise it rejects with the reason and leaves
    the wallet as it was. *)
Theorem connect_outcome s found a error : let i := length (connects s) in
  let s' := wallet_run s (Connect :: wallet_sequence i found a error) in
  freighterInstalled s' = Some found ∧
  if found && negb (truthy error) then
    address s' = Some a ∧ provider s' = Some "freighter" ∧ storage s' = store_wallet a "freighter" (storage s) ∧ connects s' = connects s ++ [Connected]
  else address s' = address s ∧ provider s' = provider s ∧ storage s' = storage s ∧
    connects s' = connects s ++ [Rejected (if found then error else NOT_INSTALLED)].
Proof.
  intros i s'. set (q := connect s). assert (Hq : connects q = connects s ++ [IsConnected]) by done.
  assert (Hi : ∀ c p, length (connects p) = S i → connects (set_connect i c p) !! i = Some c ∧ length (connects (set_connect i c p)) = S i).
  { intros c p Hl. cbn. rewrite length_insert. split; [|done]. apply list_lookup_insert_eq. lia. }
  assert (Hl : length (connects q) = S i) by (rewrite Hq, length_app; cbn; lia).
  assert (H0 : connects q !! i = Some IsConnected) by (rewrite Hq; by apply list_lookup_middle).
  assert (Hend : ∀ c d, <[i := d]> (connects s ++ [c]) = connects s ++ [d]) by (intros; by rewrite insert_app_r_alt, Nat.sub_diag by done).
  assert (Hat : ∀ c p r, connects p !! i = Some c → connect_step i r p = match Some c, r with
    | Some (Connected | Rejected _), _ | None, _ => p
    | Some _, Failure m => set_connect i (Rejected m) p
    | Some IsConnected, Flag b => if b then set_connect i RequestAccess (set_installed true p) else set_connect i (Rejected NOT_INSTALLED) (set_installed false p)
    | Some RequestAccess, Done => set_connect i SetAllowed p
    | Some SetAllowed, Done => set_connect i GetAddress p
    | Some GetAddress, Address a error => if truthy error then set_connect i (Rejected error) p
        else set_connect i Connected (set_storage (store_wallet a "freighter" (storage p)) (set_wallet (Some a) (Some "freighter") p))
    | Some _, _ => p end) by (intros c p r Hc; unfold connect_step; by rewrite Hc).
  unfold s', wallet_run, wallet_sequence. cbn [foldl wallet_step]. fold q. rewrite (Hat _ q _ H0). destruct found; cbn [andb].
  - set (q1 := set_connect i RequestAccess _). destruct (Hi RequestAccess (set_installed true q) Hl) as [H1 L1]. fold q1 in H1, L1.
    rewrite (Hat _ q1 _ H1). set (q2 := set_connect i SetAllowed q1). destruct (Hi SetAllowed q1 L1) as [H2 L2]. fold q2 in H2, L2.
    rewrite (Hat _ q2 _ H2). set (q3 := set_connect i GetAddress q2). destruct (Hi GetAddress q2 L2) as [H3 L3]. fold q3 in H3, L3.
    rewrite (Hat _ q3 _ H3). unfold q3, q2, q1. destruct (truthy error); cbn [negb]; (split; [done|]); (split_and!; [done..|]);
      cbn [connects set_connect set_storage set_wallet set_installed]; by rewrite Hq, !list_insert_insert_eq, Hend.
  - set (q1 := set_connect i _ _). destruct (Hi (Rejected NOT_INSTALLED) (set_installed false q) Hl) as [H1 L1]. fold q1 in H1, L1.
    rewrite !(Hat _ q1 _ H1). (split; [done|]); (split_and!; [done..|]). unfold q1. cbn [connects set_connect set_installed]. by rewrite Hq, Hend.
Qed.
