(* ===== verification/Startup.v ===== *)
(** * Configuration and start-up checks

    backend/src/config.ts, the schema of the environment and its parsing;
    lib.js, the required variables and the SDK that is loaded on first use;
    contract-version.js, the cached version and its comparison; startup.js, the
    checks before the server starts.  Schemas are data, as in [Validation]; the
    URL parser and the RPC server are parameters. *)
From Stdlib Require Import QArith.
From stdpp Require Import list.
From S2P Require Import Prelude Digits Double Validation.
#[local] Open Scope Z_scope.

(** ** The schema *)

Inductive number_check := Integral | AtLeast (n : Z) | AtMost (n : Z) | Positive64.
(** The kinds of fields: texts with a least length, URLs, enums, numbers
    written as text, lists separated by commas, and flags.  A default stands for
    a variable that is not set. *)
Inductive field_schema :=
| TextField (d : option string) (min : Z)
| UrlField
| EnumField (values : list string) (d : string)
| NumberField (d : string) (checks : list number_check)
| ListField (d : string)
| FlagField (d : string).
Inductive setting := SText (s : string) | SNumber (x : double) | SList (l : list string) | SFlag (b : bool).

Definition csvArray (s : string) : list string := comma_list s.
Definition booleanString (s : string) : bool := bool_decide (to_lower s ∈ ["true"; "1"; "yes"]).

Definition PositiveInt : list number_check := [Integral; Positive64].
Definition configSchema : list (string * field_schema) := [
  ("port", NumberField "3000" [Integral; AtLeast 1; AtMost 65535]);
  ("nodeEnv", EnumField ["development"; "test"; "staging"; "production"] "development");
  ("horizonUrl", UrlField);
  ("networkPassphrase", TextField None 1);
  ("vestingContractId", TextField None 1);
  ("databaseUrl", UrlField);
  ("dbPoolMax", NumberField "10" PositiveInt);
  ("redisUrl", UrlField);
  ("redisTtlSeconds", NumberField "300" PositiveInt);
  ("webhookSecret", TextField None 16);
  ("webhookAllowedUrls", ListField "");
  ("otlpEndpoint", TextField (Some "") 0);
  ("otelServiceName", TextField (Some "vesting-backend") 0);
  ("otelServiceVersion", TextField (Some "0.0.0") 0);
  ("otelSampleRate", NumberField "0.1" [AtLeast 0; AtMost 1]);
  ("jwtSecret", TextField None 32);
  ("jwtExpiresIn", TextField (Some "1h") 0);
  ("corsAllOrigins", FlagField "false");
  ("rateLimitIpMax", NumberField "100" PositiveInt);
  ("rateLimitKeyMax", NumberField "1000" PositiveInt);
  ("rateLimitWriteMax", NumberField "10" PositiveInt);
  ("rateLimitWindowSec", NumberField "60" PositiveInt);
  ("rateLimitBypassIps", ListField "");
  ("rateLimitBypassKeys", ListField "");
  ("logLevel", EnumField ["trace"; "debug"; "info"; "warn"; "error"; "fatal"] "info");
  ("expectedContractVersion", TextField (Some "") 0);
  ("allowVersionMismatch", FlagField "false")].
(** The object [parseConfig] hands to the schema: fields and variables. *)
Definition env_names : list (string * string) := [
  ("port", "PORT"); ("nodeEnv", "NODE_ENV"); ("horizonUrl", "HORIZON_URL"); ("networkPassphrase", "NETWORK_PASSPHRASE");
  ("vestingContractId", "VESTING_CONTRACT_ID"); ("databaseUrl", "DATABASE_URL"); ("dbPoolMax", "DB_POOL_MAX"); ("redisUrl", "REDIS_URL");
  ("redisTtlSeconds", "REDIS_TTL_SECONDS"); ("webhookSecret", "WEBHOOK_SECRET"); ("webhookAllowedUrls", "WEBHOOK_ALLOWED_URLS");
  ("otlpEndpoint", "OTEL_EXPORTER_OTLP_ENDPOINT"); ("otelServiceName", "OTEL_SERVICE_NAME"); ("otelServiceVersion", "OTEL_SERVICE_VERSION");
  ("otelSampleRate", "OTEL_SAMPLE_RATE"); ("jwtSecret", "JWT_SECRET"); ("jwtExpiresIn", "JWT_EXPIRES_IN"); ("corsAllOrigins", "CORS_ALL_ORIGINS");
  ("logLevel", "LOG_LEVEL"); ("rateLimitIpMax", "RATE_LIMIT_IP_MAX"); ("rateLimitKeyMax", "RATE_LIMIT_KEY_MAX");
  ("rateLimitWriteMax", "RATE_LIMIT_WRITE_MAX"); ("rateLimitWindowSec", "RATE_LIMIT_WINDOW_SEC");
  ("rateLimitBypassIps", "RATE_LIMIT_BYPASS_IPS"); ("rateLimitBypassKeys", "RATE_LIMIT_BYPASS_KEYS")].
Definition assoc {A} (k : string) (l : list (string * A)) : option A :=
  match list_find (λ kv : string * A, kv.1 = k) l with Some (_, (_, v)) => Some v | None => None end.

(** ** Parsing *)

(** Why a field is refused; the library writes the messages. *)
Inductive problem := Required | TooShort | InvalidUrl | NotInEnum | NotANumber | Check (c : number_check).
Definition environment := string → option string.

Section config.
Context (valid_url : string → bool).

Definition passes (x : double) (c : number_check) : bool :=
  match c with
  | Integral => is_integer64 x
  | AtLeast n => ge64 x (of_Z n)
  | AtMost n => ge64 (of_Z n) x
  | Positive64 => lt64 (of_Z 0) x
  end.
Definition accept (f : field_schema) (v : option string) : result (list problem) setting :=
  match f with
  | TextField d min =>
      match match v with Some s => Some s | None => d end with
      | None => Err [Required]
      | Some s => if min <=? js_length s then Ok (SText s) else Err [TooShort]
      end
  | UrlField => match v with None => Err [Required] | Some s => if valid_url s then Ok (SText s) else Err [InvalidUrl] end
  | EnumField values d => let s := default d v in if decide (s ∈ values) then Ok (SText s) else Err [NotInEnum]
  | NumberField d checks =>
      let x := Number (default d v) in
      if is_nan x then Err [NotANumber]
      else match filter (λ c, passes x c = false) checks with [] => Ok (SNumber x) | cs => Err (Check <$> cs) end
  | ListField d => Ok (SList (csvArray (default d v)))
  | FlagField d => Ok (SFlag (booleanString (default d v)))
  end.
Definition raw (env : environment) (k : string) : option string := assoc k env_names ≫= env.
Definition fields (env : environment) : list (string * result (list problem) setting) :=
  (λ kf, (kf.1, accept kf.2 (raw env kf.1))) <$> configSchema.
Definition issues (env : environment) : list (string * problem) :=
  fields env ≫= λ kr, match kr.2 with Err ps => (λ p, (kr.1, p)) <$> ps | Ok _ => [] end.
Definition settings (env : environment) : list (string * setting) :=
  omap (λ kr, match kr.2 with Ok v => Some (kr.1, v) | Err _ => None end) (fields env).
(** The configuration, or the issues written before [process.exit(1)]. *)
Definition parseConfig (env : environment) : result (list (string * problem)) (list (string * setting)) :=
  match issues env with [] => Ok (settings env) | ps => Err ps end.

Definition text_setting (k : string) (c : list (string * setting)) : option string :=
  match assoc k c with Some (SText s) => Some s | _ => None end.
Definition flag_setting (k : string) (c : list (string * setting)) : option bool :=
  match assoc k c with Some (SFlag b) => Some b | _ => None end.
End config.

(** ** Required variables *)

Definition REQUIRED : list string := ["HORIZON_URL"; "NETWORK_PASSPHRASE"; "CONTRACT_ID"].
Definition ADMIN_REQUIRED : list string := ["ADMIN_API_KEY"; "SPONSOR_SECRET_KEY"; "SOROBAN_RPC_URL"].
Definition unset (env : environment) (k : string) : bool := match env k with Some s => negb (truthy s) | None => true end.
Definition missing (env : environment) (vars : list string) : list string := filter (λ k, unset env k = true) vars.
(** [loadConfig]: the variables, or the missing ones, named in the error. *)
Definition loadConfig (env : environment) (requireAdmin : bool) : result (list string) (list (string * string)) :=
  let vars := if requireAdmin then REQUIRED ++ ADMIN_REQUIRED else REQUIRED in
  match missing env vars with
  | [] => Ok (omap (λ k, (λ s, (k, s)) <$> env k) vars)
  | ms => Err ms
  end.

(** ** The version of the contract *)

Definition CACHE_TTL_MS : Z := 5 * 60 * 1000.
(** The module's cache, and whether [_sdk] is set. *)
Record versions := Versions { cache : option (string * Z); sdk : bool }.
(** A configuration as these functions read it. *)
Record app_config := AppConfig {
  expectedContractVersion : option string; EXPECTED_CONTRACT_VERSION : option string;
  allowVersionMismatch : option bool; ALLOW_VERSION_MISMATCH : option bool;
  sorobanRpcUrl : option string; SOROBAN_RPC_URL : option string
}.
Definition or_else {A} (a b : option A) : option A := match a with Some _ => a | None => b end.
Definition SDK_ERROR : string := "Cannot read properties of undefined (reading 'Server')".
Definition version_text (sequence : Z) : string := "ledger-" +:+ Z_to_string sequence.

Section versions.
(** The latest ledger a server at a URL gives, or the message of the error; a
    server without a URL is asked as well. *)
Context (rpc : option string → result string Z).

Definition cached (now : Z) (w : versions) : option string :=
  match cache w with Some (v, expiresAt) => if now <? expiresAt then Some v else None | None => None end.
Definition getContractVersion (now : Z) (c : app_config) (w : versions) : result string string * versions :=
  match cached now w with
  | Some v => (Ok v, w)
  | None =>
      if sdk w then
        match rpc (or_else (sorobanRpcUrl c) (SOROBAN_RPC_URL c)) with
        | Ok n => (Ok (version_text n), Versions (Some (version_text n, now + CACHE_TTL_MS)) true)
        | Err m => (Err m, w)
        end
      else (Err SDK_ERROR, w)
  end.
Definition mismatch (expected actual : string) : string :=
  "Contract version mismatch: expected " +:+ String (chr 34) expected +:+ String (chr 34) ", got " +:+ String (chr 34) actual +:+ String (chr 34) "".
(** The version, and whether a warning was logged. *)
Definition checkContractVersion (now : Z) (c : app_config) (w : versions) : result string (string * bool) * versions :=
  let expected := default "" (or_else (expectedContractVersion c) (EXPECTED_CONTRACT_VERSION c)) in
  let '(r, w') := getContractVersion now c w in
  (match r with
   | Err m => Err m
   | Ok actual =>
       if negb (truthy expected) || bool_decide (actual = expected) then Ok (actual, false)
       else if default false (or_else (allowVersionMismatch c) (ALLOW_VERSION_MISMATCH c)) then Ok (actual, true)
       else Err (mismatch expected actual)
   end, w').

(** ** The checks before the server starts *)

Inductive started := Running (version : option string) | Exited (why : string + list string).
Definition runStartupChecks (env : environment) (now : Z) (c : app_config) (w : versions) : started * versions :=
  match missing env REQUIRED with
  | [] =>
      match or_else (or_else (sorobanRpcUrl c) (SOROBAN_RPC_URL c)) (env "SOROBAN_RPC_URL") with
      | Some url =>
          if truthy url then
            let '(r, w') := checkContractVersion now c w in
            (match r with Ok (v, _) => Running (Some v) | Err m => Exited (inl m) end, w')
          else (Running None, w)
      | None => (Running None, w)
      end
  | ms => (Exited (inr ms), w)
  end.
End versions.

(** ** Theorems: the configuration *)

#[local] Opaque configSchema.
Section config_theorems.
Context (valid_url : string → bool).
Notation accept := (accept valid_url).
Notation parseConfig := (parseConfig valid_url).
Notation issues := (issues valid_url).

(** What a field's schema promises of its value. *)
Definition well_typed (f : field_schema) (v : setting) : Prop :=
  match f, v with
  | TextField _ min, SText s => min <= js_length s
  | UrlField, SText s => valid_url s = true
  | EnumField values _, SText s => s ∈ values
  | NumberField _ checks, SNumber x => is_nan x = false ∧ Forall (λ c, passes x c = true) checks
  | ListField _, SList l => Forall (λ x, truthy x = true ∧ ∃ y, x = trim y) l
  | FlagField _, SFlag _ => True
  | _, _ => False
  end.
Lemma accept_well_typed f v x : accept f v = Ok x → well_typed f x.
Proof.
  destruct f as [d min| |values d|d checks|d|d]; cbn.
  - destruct v as [s|]; [|destruct d as [s|]; [|done]]; (destruct (Z.leb_spec min (js_length s)); [|done]); by intros [= <-].
  - destruct v as [s|]; [|done]. destruct (valid_url s) eqn:Hu; [|done]. by intros [= <-].
  - case_decide; [|done]. by intros [= <-].
  - destruct (is_nan _) eqn:Hn; [done|]. destruct (filter _ checks) as [|c cs] eqn:Hf; [|done]. intros [= <-]. split; [done|].
    apply Forall_forall. intros c Hc. destruct (passes (Number (default d v)) c) eqn:Hp; [done|].
    assert (c ∈ []) as ?%elem_of_nil; [|done]. rewrite <-Hf. by apply list_elem_of_filter.
  - intros [= <-]. cbn. apply Forall_forall. unfold csvArray, comma_list. intros y [Ht Hy]%list_elem_of_filter. split; [done|].
    apply list_elem_of_fmap in Hy as (z & -> & _). by exists z.
  - by intros [= <-].
Qed.

Lemma issues_in env k : k ∈ (issues env).*1 ↔ ∃ f ps, (k, f) ∈ configSchema ∧ accept f (raw env k) = Err ps ∧ ps ≠ [].
Proof.
  unfold Startup.issues. rewrite list_elem_of_fmap. split.
  - intros ([k' p] & -> & Hp). apply list_elem_of_bind in Hp as ([k2 r] & Hp & Hr). apply list_elem_of_fmap in Hr as ([k3 f] & [= -> ->] & Hf).
    cbn in Hp. destruct (accept f (raw env k3)) as [|ps] eqn:Ha; [by apply elem_of_nil in Hp|].
    apply list_elem_of_fmap in Hp as (p' & [= -> ->] & Hp). exists f, ps. split_and!; [done..|]. intros ->. by apply elem_of_nil in Hp.
  - intros (f & ps & Hf & Ha & Hps). destruct ps as [|p ps]; [done|]. exists (k, p). split; [done|]. apply list_elem_of_bind.
    exists (k, accept f (raw env k)). split; [|by apply list_elem_of_fmap; exists (k, f)]. cbn. rewrite Ha. by left.
Qed.
Lemma accept_problem f v ps : accept f v = Err ps → ps ≠ [].
Proof.
  destruct f as [d min| |values d|d checks|d|d]; cbn; repeat case_match; try done; intros [= <-]; done.
Qed.

(** A configuration that is accepted has every field of the schema, with a
    value of its type: ports in range, secrets long enough, positive limits,
    lists without blanks. *)
Theorem config_well_typed env c : parseConfig env = Ok c →
  Forall (λ kf, ∃ v, (kf.1, v) ∈ c ∧ accept kf.2 (raw env kf.1) = Ok v ∧ well_typed kf.2 v) configSchema.
Proof.
  unfold Startup.parseConfig. destruct (issues env) as [|i rest] eqn:Hi; [|done]. intros [= <-]. apply Forall_forall. intros [k f] Hk. cbn.
  destruct (accept f (raw env k)) as [v|ps] eqn:Ha.
  - exists v. split; [|split; [done|by eapply accept_well_typed]]. apply list_elem_of_omap. exists (k, Ok v). split; [|done].
    apply list_elem_of_fmap. exists (k, f). cbn. by rewrite Ha.
  - exfalso. assert (k ∈ (issues env).*1) as Hin; [|by rewrite Hi in Hin; apply elem_of_nil in Hin].
    apply issues_in. exists f, ps. split_and!; [done..|]. by eapply accept_problem.
Qed.
(** A configuration that is refused names every field that is wrong, not only
    the first, and no other. *)
Theorem every_problem_named env problems k : parseConfig env = Err problems →
  k ∈ problems.*1 ↔ ∃ f ps, (k, f) ∈ configSchema ∧ accept f (raw env k) = Err ps.
Proof.
  unfold Startup.parseConfig. destruct (issues env) as [|i rest] eqn:Hi; [done|]. intros [= <-]. rewrite <-Hi, issues_in.
  split; [naive_solver|]. intros (f & ps & H1 & H2). exists f, ps. split_and!; [done..|]. by eapply accept_problem.
Qed.

(** What the version check reads is never set: the two variables its
    documentation names are not handed to the schema, so that every accepted
    configuration has the defaults, and the check compares nothing. *)
Lemma assoc_settings env k f v : (k, f) ∈ configSchema → accept f (raw env k) = Ok v → assoc k (settings valid_url env) = Some v.
Proof.
  intros Hk Ha. unfold assoc, settings, fields.
  assert (Hnd : NoDup configSchema.*1) by (apply (bool_decide_unpack _); vm_compute; exact I).
  revert Hk Hnd. induction configSchema as [|[k' f'] l IH]; [by intros ?%elem_of_nil|]. cbn [fmap list_fmap fst snd].
  intros Hk [Hnot Hnd]%NoDup_cons. apply elem_of_cons in Hk as [[= <- <-]|Hk].
  - rewrite Ha. cbn. by rewrite decide_True.
  - assert (k' ≠ k) by (intros ->; apply Hnot; by apply list_elem_of_fmap; exists (k, f)). specialize (IH Hk Hnd).
    cbn [omap list_omap snd fst]. destruct (accept f' (raw env k')); [|done]. cbn [list_find fst]. rewrite decide_False by done.
    destruct (list_find _ _) as [[i [k2 v2]]|]; [done|done].
Qed.
Theorem version_check_unset env c : parseConfig env = Ok c →
  text_setting "expectedContractVersion" c = Some "" ∧ flag_setting "allowVersionMismatch" c = Some false.
Proof.
  unfold Startup.parseConfig. destruct (issues env); [|done]. intros [= <-]. unfold text_setting, flag_setting.
  rewrite (assoc_settings env "expectedContractVersion" (TextField (Some "") 0) (SText "")); [| |done].
  - rewrite (assoc_settings env "allowVersionMismatch" (FlagField "false") (SFlag false)); [done| |done].
    with_strategy transparent [configSchema] (unfold configSchema; repeat first [left|right]).
  - with_strategy transparent [configSchema] (unfold configSchema; repeat first [left|right]).
Qed.
End config_theorems.

(** ** Theorems: required variables *)

(** [loadConfig] succeeds exactly when every variable has a text, and then
    gives all of them; otherwise the error names exactly the missing ones. *)
Theorem loadConfig_complete env (admin : bool) : let vars := (if admin then REQUIRED ++ ADMIN_REQUIRED else REQUIRED) in
  match loadConfig env admin with
  | Ok c => c.*1 = vars ∧ (∀ k s, (k, s) ∈ c → env k = Some s ∧ truthy s = true)
  | Err ms => ms ≠ [] ∧ (∀ k, k ∈ ms ↔ k ∈ vars ∧ unset env k = true)
  end.
Proof.
  intros vars. unfold loadConfig. fold vars. destruct (missing env vars) as [|m ms] eqn:Hm.
  - assert (Hset : ∀ k, k ∈ vars → ∃ s, env k = Some s ∧ truthy s = true).
    { intros k Hk. destruct (unset env k) eqn:Hu.
      - assert (k ∈ missing env vars) as Hin by (by apply list_elem_of_filter). rewrite Hm in Hin. by apply elem_of_nil in Hin.
      - unfold unset in Hu. destruct (env k) as [s|]; [|done]. exists s. by destruct (truthy s). }
    clear Hm. clearbody vars. induction vars as [|k vars IH]; [split; [done|]; by intros ? ? ?%elem_of_nil|].
    destruct (Hset k) as (s & Hs & Ht); [by left|]. destruct IH as [H1 H2]; [intros; apply Hset; by right|].
    cbn. rewrite Hs. cbn. split; [by f_equal|]. intros k' s' [[= -> ->]|Hin]%elem_of_cons; [done|]. by apply H2.
  - split; [done|]. intros k. rewrite <-Hm. unfold missing. rewrite list_elem_of_filter. tauto.
Qed.

(** ** Theorems: the version *)

Section version_theorems.
Context (rpc : option string → result string Z).
Notation getContractVersion := (getContractVersion rpc).
Notation checkContractVersion := (checkContractVersion rpc).
Notation runStartupChecks := (runStartupChecks rpc).

(** A version is read again when five minutes have passed, and not before:
    what is answered was read from the server at most that long ago. *)
Theorem version_fresh now now' c c' w : now <= now' → cached now w = None → is_ok (getContractVersion now c w).1 = true →
  let w' := (getContractVersion now c w).2 in
  getContractVersion now' c' w' =
    if now' - now <? CACHE_TTL_MS then ((getContractVersion now c w).1, w')
    else match rpc (or_else (sorobanRpcUrl c') (SOROBAN_RPC_URL c')) with
         | Ok n => (Ok (version_text n), Versions (Some (version_text n, now' + CACHE_TTL_MS)) true)
         | Err m => (Err m, w')
         end.
Proof.
  intros Hn Hc Hok. cbv zeta. revert Hok. unfold Startup.getContractVersion. rewrite Hc. intros Hok.
  destruct (sdk w); [|done]. destruct (rpc _) as [n|m]; [|done]. cbn [fst snd is_ok]. unfold cached. cbn [cache sdk].
  destruct (Z.ltb_spec now' (now + CACHE_TTL_MS)), (Z.ltb_spec (now' - now) CACHE_TTL_MS); done || lia.
Qed.

(** With an expected version the check passes on that version, warns on
    another one if that is allowed, and fails otherwise; without one it passes
    on whatever is read. *)
Theorem version_compared now c w n : cached now w = None → sdk w = true → rpc (or_else (sorobanRpcUrl c) (SOROBAN_RPC_URL c)) = Ok n →
  let expected := default "" (or_else (expectedContractVersion c) (EXPECTED_CONTRACT_VERSION c)) in
  let allowed := default false (or_else (allowVersionMismatch c) (ALLOW_VERSION_MISMATCH c)) in
  (checkContractVersion now c w).1 =
    if decide (expected = "" ∨ expected = version_text n) then Ok (version_text n, false)
    else if allowed then Ok (version_text n, true) else Err (mismatch expected (version_text n)).
Proof.
  intros Hc Hs Hr expected allowed. unfold Startup.checkContractVersion, Startup.getContractVersion. rewrite Hc, Hs, Hr.
  cbn [fst]. fold expected allowed. case_decide as Hd.
  - assert (negb (truthy expected) || bool_decide (version_text n = expected) = true) as ->; [|done].
    destruct Hd as [-> | ->]; [done|]. rewrite bool_decide_true by done. by rewrite orb_true_r.
  - assert (negb (truthy expected) || bool_decide (version_text n = expected) = false) as ->.
    { apply orb_false_iff. split; [|apply bool_decide_false; intros Heq; apply Hd; by right]. destruct expected; [|done]. exfalso. apply Hd. by left. }
    by destruct allowed.
Qed.

(** The first check always ends the process: the SDK starts to load when it is
    first asked for, which is too late for that use of it.  So a server for which
    an RPC URL is configured does not start, whatever the server answers. *)
Theorem first_check_exits env now c url : missing env REQUIRED = [] →
  or_else (or_else (sorobanRpcUrl c) (SOROBAN_RPC_URL c)) (env "SOROBAN_RPC_URL") = Some url → truthy url = true →
  (runStartupChecks env now c (Versions None false)).1 = Exited (inl SDK_ERROR).
Proof. intros Hm Hu Ht. unfold Startup.runStartupChecks. by rewrite Hm, Hu, Ht. Qed.

(** With an SDK that is loaded and the configuration of [parseConfig], which
    has no RPC URL, the variable lets the check run, but the server is asked
    without a URL; and the version found is never compared. *)
Theorem parsed_config_asks_nowhere valid_url env now c w url n : parseConfig valid_url env = Ok c → missing env REQUIRED = [] →
  env "SOROBAN_RPC_URL" = Some url → truthy url = true → cached now w = None → sdk w = true → rpc None = Ok n →
  let ac := AppConfig (text_setting "expectedContractVersion" c) None (flag_setting "allowVersionMismatch" c) None None None in
  (runStartupChecks env now ac w).1 = Running (Some (version_text n)).
Proof.
  intros Hp Hm Hu Ht Hc Hs Hr ac. destruct (version_check_unset _ _ _ Hp) as [He Ha]. unfold Startup.runStartupChecks. rewrite Hm.
  change (or_else (or_else (sorobanRpcUrl ac) (SOROBAN_RPC_URL ac)) (env "SOROBAN_RPC_URL")) with (env "SOROBAN_RPC_URL"). rewrite Hu, Ht. pose proof (version_compared now ac w n Hc Hs Hr) as H. cbn [expectedContractVersion EXPECTED_CONTRACT_VERSION ac] in H.
  rewrite He in H. cbn [or_else default from_option id] in H. rewrite decide_True in H by by left.
  destruct (checkContractVersion now ac w) as [r w']. cbn [fst] in *. by rewrite H.
Qed.
End version_theorems.

(** ** Witnesses *)

Definition demo_env (k : string) : option string :=
  assoc k [("HORIZON_URL", "https://h"); ("NETWORK_PASSPHRASE", "Test"); ("VESTING_CONTRACT_ID", "C1"); ("CONTRACT_ID", "C1"); ("DATABASE_URL", "postgres://d");
           ("REDIS_URL", "redis://r"); ("WEBHOOK_SECRET", "0123456789abcdef"); ("JWT_SECRET", "0123456789abcdef0123456789abcdef");
           ("PORT", "0x50"); ("RATE_LIMIT_BYPASS_IPS", " 10.0.0.1,, 10.0.0.2 "); ("SOROBAN_RPC_URL", "https://rpc"); ("EXPECTED_CONTRACT_VERSION", "ledger-1")].
Definition demo_config : list (string * setting) := settings (λ _, true) demo_env.
Lemma demo_parses : parseConfig (λ _, true) demo_env = Ok demo_config.
Proof. vm_compute. reflexivity. Qed.
Lemma config_well_typed_witness : assoc "rateLimitBypassIps" demo_config = Some (SList ["10.0.0.1"; "10.0.0.2"]) ∧
  Forall (λ kf, ∃ v, (kf.1, v) ∈ demo_config ∧ accept (λ _, true) kf.2 (raw demo_env kf.1) = Ok v ∧ well_typed (λ _, true) kf.2 v) configSchema.
Proof. split; [vm_compute; reflexivity|]. exact (config_well_typed (λ _, true) demo_env demo_config demo_parses). Defined.
Definition poor_env (k : string) : option string := if decide (k = "PORT") then Some "70000" else demo_env k.
Lemma every_problem_named_witness : parseConfig (λ _, false) poor_env =
    Err [("port", Check (AtMost 65535)); ("horizonUrl", InvalidUrl); ("databaseUrl", InvalidUrl); ("redisUrl", InvalidUrl)] ∧
  ("redisUrl" ∈ ["port"; "horizonUrl"; "databaseUrl"; "redisUrl"] ↔ ∃ f ps, ("redisUrl", f) ∈ configSchema ∧ accept (λ _, false) f (raw poor_env "redisUrl") = Err ps).
Proof.
  assert (H : parseConfig (λ _, false) poor_env =
    Err [("port", Check (AtMost 65535)); ("horizonUrl", InvalidUrl); ("databaseUrl", InvalidUrl); ("redisUrl", InvalidUrl)]) by (vm_compute; reflexivity).
  split; [exact H|]. exact (every_problem_named (λ _, false) poor_env _ "redisUrl" H).
Defined.
Lemma version_check_unset_witness : demo_env "EXPECTED_CONTRACT_VERSION" = Some "ledger-1" ∧ text_setting "expectedContractVersion" demo_config = Some "".
Proof. split; [reflexivity|]. apply (version_check_unset (λ _, true) demo_env demo_config demo_parses). Defined.
Definition demo_rpc (u : option string) : result string Z := Ok 7.
Definition demo_app : app_config := AppConfig (Some "ledger-8") None None None (Some "https://rpc") None.
Lemma version_fresh_witness : (getContractVersion demo_rpc 200000 demo_app (getContractVersion demo_rpc 0 demo_app (Versions None true)).2).1 = Ok "ledger-7".
Proof. rewrite (version_fresh demo_rpc 0 200000 demo_app demo_app (Versions None true)); [reflexivity|lia|reflexivity|reflexivity]. Defined.
Lemma version_compared_witness : (checkContractVersion demo_rpc 0 demo_app (Versions None true)).1 = Err (mismatch "ledger-8" "ledger-7").
Proof. rewrite (version_compared demo_rpc 0 demo_app (Versions None true) 7); reflexivity. Defined.
Lemma first_check_exits_witness : (runStartupChecks demo_rpc demo_env 0 demo_app (Versions None false)).1 = Exited (inl SDK_ERROR).
Proof. apply (first_check_exits demo_rpc demo_env 0 demo_app "https://rpc"); vm_compute; reflexivity. Defined.
Lemma parsed_config_asks_nowhere_witness :
  (runStartupChecks demo_rpc demo_env 0 (AppConfig (text_setting "expectedContractVersion" demo_config) None (flag_setting "allowVersionMismatch" demo_config) None None None)
     (Versions None true)).1 = Running (Some "ledger-7").
Proof. apply (parsed_config_asks_nowhere demo_rpc (λ _, true) demo_env 0 demo_config (Versions None true) "https://rpc" 7 demo_parses); vm_compute; reflexivity. Defined.
