(* ===== verification/CliffCountdown.v ===== *)
(** * The cliff countdown

    frontend/src/components/CliffCountdown.tsx: the text of the countdown, the
    live ledger with its polls, and the component as a transition system whose
    effects run after each render.  Times are milliseconds and ledgers whole
    numbers below 2^40, for which the quotients by whole seconds, minutes, hours
    and days round to the same whole part; the elapsed time is computed with
    [Double]. *)
From Stdlib Require Import QArith Qround Lqa Sorting.
From stdpp Require Import list.
From S2P Require Import Prelude Digits Double DoubleOrder.
#[local] Open Scope Z_scope.

(** ** Constants and texts *)

Definition LEDGERS_PER_SECOND : Z := 5.
Definition SECONDS_PER_MINUTE : Z := 60.
Definition SECONDS_PER_HOUR : Z := 60 * SECONDS_PER_MINUTE.
Definition SECONDS_PER_DAY : Z := 24 * SECONDS_PER_HOUR.
Definition ONE_WEEK_SECONDS : Z := 7 * SECONDS_PER_DAY.
Definition LAST_HOUR_SECONDS : Z := SECONDS_PER_HOUR.
Definition POLL_INTERVAL_MS : Z := 5000.
Definition ONE_HOUR_MS : Z := 60 * 60 * 1000.
Definition ONE_MINUTE_MS : Z := 60 * 1000.
Definition ONE_SECOND_MS : Z := 1000.

(** [None] is a number that is not finite. *)
Definition validLedger (value : option Z) : Z := match value with Some n => if 0 <=? n then n else 0 | None => 0 end.
Definition countdownIntervalMs (remainingSeconds : Z) : Z :=
  if remainingSeconds <=? LAST_HOUR_SECONDS then ONE_SECOND_MS
  else if remainingSeconds <=? ONE_WEEK_SECONDS then ONE_MINUTE_MS else ONE_HOUR_MS.
Definition pad2 (n : Z) : string := (if n <? 10 then "0" else "") +:+ Z_to_string n.
Definition days_of (seconds : Z) : Z := seconds / SECONDS_PER_DAY.
Definition hours_of (seconds : Z) : Z := seconds / SECONDS_PER_HOUR.
Definition day_hours (seconds : Z) : Z := seconds mod SECONDS_PER_DAY / SECONDS_PER_HOUR.
Definition hour_minutes (seconds : Z) : Z := seconds mod SECONDS_PER_HOUR / SECONDS_PER_MINUTE.
Definition formatCountdown (remainingSeconds : Z) : string :=
  let seconds := Z.max 0 remainingSeconds in
  if ONE_WEEK_SECONDS <? seconds then
    Z_to_string (days_of seconds) +:+ " days " +:+ pad2 (day_hours seconds) +:+ " hours remaining"
  else if LAST_HOUR_SECONDS <? seconds then
    Z_to_string (days_of seconds) +:+ " days " +:+ Z_to_string (day_hours seconds) +:+ " hours " +:+ Z_to_string (hour_minutes seconds) +:+ " minutes remaining"
  else pad2 (hours_of seconds) +:+ ":" +:+ pad2 (hour_minutes seconds) +:+ ":" +:+ pad2 (seconds mod SECONDS_PER_MINUTE) +:+ " until cliff".

(** ** The ledger *)

(** What a poll gets: no answer in time or a failure, a status that is not ok,
    or a body, whose [result] may have a number as its [sequence]. *)
Inductive rpc_answer := Unreachable | NotOk | Body (sequence : option Z).
Definition fetchCurrentLedger (a : rpc_answer) : option Z := match a with Body s => s | _ => None end.
Definition POLL_ERROR : string := "Unable to reach Soroban RPC. Showing last known ledger.".

(** ** The component *)

(** State and refs, in the order of the code: the hook's ledger, the ticker, what
    fires [onReached] ([shown] is the ledger and the time left of the last
    render, which the effects compare with), and the claim. *)
Record live_ledger := Live { currentLedger : Z; loading : bool; error : option string; firstFetchDone : bool }.
Record ticker := Ticker { now : option Z; anchor : option (Z * Z) }.
Record firing := Firing { reachedRef : bool; shown : option (Z * Z); calls : nat }.
Record claiming := Claiming { claimPending : bool; claimError : option string; claims : nat }.
(** The two props that are ledgers, as they are given, and the state. *)
Record countdown := Countdown { cliffLedger : option Z; initialLedger : option Z; live : live_ledger; tick_of : ticker; fire : firing; claim : claiming }.
Definition cliff (s : countdown) : Z := validLedger (cliffLedger s).
Definition disabled (s : countdown) : bool := cliff s <=? validLedger (initialLedger s).
Definition with_live (l : live_ledger) (s : countdown) : countdown := Countdown (cliffLedger s) (initialLedger s) l (tick_of s) (fire s) (claim s).
Definition with_now (t : Z) (s : countdown) : countdown :=
  Countdown (cliffLedger s) (initialLedger s) (live s) (Ticker (Some t) (anchor (tick_of s))) (fire s) (claim s).
Definition with_claim (c : claiming) (s : countdown) : countdown := Countdown (cliffLedger s) (initialLedger s) (live s) (tick_of s) (fire s) c.
Definition with_props (c l : option Z) (s : countdown) : countdown := Countdown c l (live s) (tick_of s) (fire s) (claim s).

Definition max0 (x : double) : double := if is_nan x || lt64 (of_Z 0) x then x else of_Z 0.
Definition to_Z (x : double) : Z := match x with DFin q => Qfloor q | _ => 0 end.
Definition initialRemainingSeconds (cliff ledger : Z) : Z := Z.max 0 ((cliff - ledger) * LEDGERS_PER_SECOND).
Definition elapsedSeconds (k : ticker) : double :=
  match anchor k, now k with
  | Some (_, timestamp), Some n => max0 (div64 (of_Z (n - timestamp)) (of_Z 1000))
  | _, _ => of_Z 0
  end.
Definition remaining_of (initial : Z) (elapsed : double) : Z := to_Z (max0 (math_ceil (sub64 (of_Z initial) elapsed))).
Definition remainingSeconds (s : countdown) : Z :=
  remaining_of (initialRemainingSeconds (cliff s) (currentLedger (live s))) (elapsedSeconds (tick_of s)).
(** What the screen has, from the last render. *)
Definition shownSeconds (s : countdown) : option Z := option_map snd (shown (fire s)).
Definition reached (s : countdown) : bool := bool_decide (shownSeconds s = Some 0).
Definition intervalMs (s : countdown) : option Z := option_map countdownIntervalMs (shownSeconds s).

(** One render and its effects: the anchor when the ledger changed, then
    [onReached] when [reached] did or the callback itself ([fresh]).  The value
    of [reached] is the one of this render, before the new anchor. *)
Definition ledger_changed (s : countdown) : bool := match shown (fire s) with Some (l, _) => negb (l =? currentLedger (live s)) | None => true end.
Definition reached_changed (s : countdown) : bool :=
  match shown (fire s) with Some (_, r) => negb (Bool.eqb (r =? 0) (remainingSeconds s =? 0)) | None => true end.
Definition effects (t : Z) (fresh : bool) (s : countdown) : countdown :=
  let ref := if ledger_changed s then false else reachedRef (fire s) in
  let fires := (fresh || reached_changed s) && (remainingSeconds s =? 0) && negb ref in
  Countdown (cliffLedger s) (initialLedger s) (live s)
    (if ledger_changed s then Ticker (Some t) (Some (currentLedger (live s), t)) else tick_of s)
    (Firing (ref || fires) (Some (currentLedger (live s), remainingSeconds s)) (if fires then S (calls (fire s)) else calls (fire s)))
    (claim s).

(** A state that is set to what it was does not render again. *)
Definition rendered_state (s : countdown) := (currentLedger (live s), loading (live s), error (live s), now (tick_of s), claimPending (claim s), claimError (claim s)).
Definition same_state (s s' : countdown) : bool := bool_decide (rendered_state s = rendered_state s').
(** A render, and the one that follows when its effects set [now]. *)
Definition commit (t : Z) (s : countdown) : countdown :=
  let s' := effects t false s in if same_state s s' then s' else effects t false s'.
Definition update (t : Z) (s s' : countdown) : countdown := if same_state s s' then s' else commit t s'.

(** The first render; its effects start the first poll, unless polling is off. *)
Definition mount (t : Z) (cliffLedger initialLedger : option Z) : countdown :=
  let s := effects t true (Countdown cliffLedger initialLedger (Live (validLedger initialLedger) false None false) (Ticker None None) (Firing false None 0) (Claiming false None 0)) in
  commit t (with_live (Live (currentLedger (live s)) (negb (disabled s)) None false) s).
(** The end of a poll. *)
Definition polled (t : Z) (a : rpc_answer) (s : countdown) : countdown :=
  let ledger := fetchCurrentLedger a in
  update t s (with_live (Live (default (currentLedger (live s)) ledger) false (match ledger with Some _ => None | None => Some POLL_ERROR end) true) s).
(** The interval, which runs only while the cliff is ahead. *)
Definition tick (t : Z) (s : countdown) : countdown := if reached s then s else update t s (with_now t s).
(** Other props: the ledger is set again when its prop changed, and polling
    starts again when it was off. *)
Definition reprops (t : Z) (c l : option Z) (fresh : bool) (s : countdown) : countdown :=
  let s1 := effects t fresh (with_props c l s) in
  let changed := negb (bool_decide (l = initialLedger s)) in
  let done := firstFetchDone (live s) && negb changed in
  let starts := disabled s && negb (disabled s1) in
  update t s1 (with_live (Live (if changed then validLedger l else currentLedger (live s)) (loading (live s) || (starts && negb done)) (error (live s)) done) s1).
(** The button is there once the cliff is reached, and disabled while a claim
    is pending or nothing is claimable. *)
Definition handleClaim (t : Z) (claimable : option Z) (s : countdown) : countdown :=
  if reached s && negb (claimPending (claim s)) && negb (bool_decide (claimable = Some 0))
  then update t s (with_claim (Claiming true None (S (claims (claim s)))) s) else s.
(** The failure is the message of an [Error], or another value. *)
Definition claim_settled (t : Z) (failure : option (option string)) (s : countdown) : countdown :=
  if claimPending (claim s)
  then update t s (with_claim (Claiming false (match failure with Some m => Some (default "Claim failed" m) | None => claimError (claim s) end) (claims (claim s))) s)
  else s.

Inductive countdown_event := Polled (t : Z) (a : rpc_answer) | Tick (t : Z) | Props (t : Z) (c l : option Z) (fresh : bool)
  | Claim (t : Z) (claimable : option Z) | ClaimSettled (t : Z) (failure : option (option string)).
Definition countdown_step (s : countdown) (e : countdown_event) : countdown :=
  match e with
  | Polled t a => polled t a s
  | Tick t => tick t s
  | Props t c l fresh => reprops t c l fresh s
  | Claim t c => handleClaim t c s
  | ClaimSettled t f => claim_settled t f s
  end.
Definition countdown_run (s : countdown) (es : list countdown_event) : countdown := foldl countdown_step s es.
Definition estimatedDays (s : countdown) : Z := (remainingSeconds s + SECONDS_PER_DAY - 1) / SECONDS_PER_DAY.

(** ** Theorems: the texts *)

Definition digit_value (c : ascii) : Z := code c - 48.
(** A reader of the clock of the last hour. *)
Definition read_clock (s : string) : option Z :=
  match chars s with
  | h1 :: h2 :: _ :: m1 :: m2 :: _ :: s1 :: s2 :: _ =>
      Some ((digit_value h1 * 10 + digit_value h2) * 3600 + (digit_value m1 * 10 + digit_value m2) * 60 + (digit_value s1 * 10 + digit_value s2))
  | _ => None
  end.
Definition clock_reads (n : nat) : bool := bool_decide (read_clock (formatCountdown (Z.of_nat n)) = Some (Z.of_nat n)).
Lemma clock_reads_all : forallb clock_reads (seq 0 3601) = true.
Proof. vm_compute. reflexivity. Qed.
(** In the last hour the clock shown is the number of seconds left, to the
    second. *)
Theorem last_hour_clock s : 0 <= s <= LAST_HOUR_SECONDS → read_clock (formatCountdown s) = Some s.
Proof.
  intros Hs. change LAST_HOUR_SECONDS with 3600 in Hs. rewrite <-(Z2Nat.id s) by lia.
  assert (H : clock_reads (Z.to_nat s) = true) by (refine (proj1 (forallb_forall clock_reads _) clock_reads_all _ _); apply in_seq; lia).
  by apply bool_decide_eq_true in H.
Qed.
(** Before it, what is shown falls short of the time left by less than the
    unit that is left out: a minute in the last week, an hour before. *)
Theorem countdown_parts s : 0 <= s →
  0 <= s - (days_of s * SECONDS_PER_DAY + day_hours s * SECONDS_PER_HOUR) < SECONDS_PER_HOUR ∧
  0 <= s - (days_of s * SECONDS_PER_DAY + day_hours s * SECONDS_PER_HOUR + hour_minutes s * SECONDS_PER_MINUTE) < SECONDS_PER_MINUTE ∧
  0 <= day_hours s < 24 ∧ 0 <= hour_minutes s < 60.
Proof.
  intros Hs. unfold days_of, day_hours, hour_minutes. change SECONDS_PER_DAY with 86400. change SECONDS_PER_HOUR with 3600. change SECONDS_PER_MINUTE with 60.
  assert (s mod 3600 = s mod 86400 mod 3600) as -> by (rewrite <-(Z.mod_mod_divide s 86400 3600); [done|by exists 24]).
  pose proof (Z.div_mod s 86400). pose proof (Z.mod_pos_bound s 86400). set (r := s mod 86400) in *.
  pose proof (Z.div_mod r 3600). pose proof (Z.mod_pos_bound r 3600). set (q := r mod 3600) in *. pose proof (Z.div_mod q 60). pose proof (Z.mod_pos_bound q 60). lia.
Qed.

(** ** Theorems: the time left *)

Lemma le_of_Z m x q : 0 <= m < 2 ^ 53 → (inject_Z m <= x)%Q → round64 x = DFin q → (inject_Z m <= q)%Q.
Proof.
  intros Hm Hx Hr. assert (H : le64 (round64 (inject_Z m)) (round64 x)) by (apply round64_mono; [rewrite <-(Zle_Qle 0); lia|done]).
  change (round64 (inject_Z m)) with (of_Z m) in H. rewrite of_Z_exact, Hr in H by done. exact H.
Qed.
Lemma ge_of_Z m x q : 0 <= m < 2 ^ 53 → (0 <= x <= inject_Z m)%Q → round64 x = DFin q → (q <= inject_Z m)%Q.
Proof.
  intros Hm Hx Hr. assert (H : le64 (round64 x) (round64 (inject_Z m))) by (apply round64_mono; lra).
  change (round64 (inject_Z m)) with (of_Z m) in H. rewrite of_Z_exact, Hr in H by done. exact H.
Qed.
(** A quotient by 1000 keeps its whole part when it is rounded, and is not
    rounded up past the next millisecond. *)
Lemma thousandth e : 0 <= e < 2 ^ 43 → ∃ d, div64 (of_Z e) (of_Z 1000) = DFin d ∧ (inject_Z (e / 1000) <= d)%Q ∧ (d <= inject_Z (e / 1000 + 1) - (1 # 2000))%Q.
Proof.
  intros He. rewrite !of_Z_exact by lia. change (div64 (DFin (inject_Z e)) (DFin (inject_Z 1000))) with (round64 (inject_Z e / inject_Z 1000)).
  destruct (Z.eq_dec e 0) as [->|Hne]. { exists 0%Q. by vm_compute. }
  pose proof (Z.div_mod e 1000 ltac:(done)). pose proof (Z.mod_pos_bound e 1000 ltac:(done)). set (k := e / 1000) in *.
  assert (Hx : (inject_Z e / inject_Z 1000 == inject_Z e * (1 # 1000))%Q) by done.
  assert (H1 : (1 <= inject_Z e)%Q) by (change 1%Q with (inject_Z 1); rewrite <-Zle_Qle; lia).
  assert (H2 : (inject_Z e <= inject_Z (2 ^ 43))%Q) by (rewrite <-Zle_Qle; lia).
  assert (H3 : (inject_Z 1000 * inject_Z k <= inject_Z e)%Q) by (rewrite <-inject_Z_mult, <-Zle_Qle; lia).
  assert (H4 : (inject_Z e <= inject_Z 1000 * inject_Z k + 999)%Q) by (change 999%Q with (inject_Z 999); rewrite <-inject_Z_mult, <-inject_Z_plus, <-Zle_Qle; lia).
  set (x := (inject_Z e / inject_Z 1000)%Q) in *. change (inject_Z 1000) with 1000%Q in *. change (inject_Z (2 ^ 43)) with 8796093022208%Q in *.
  destruct (round64_near x) as (d & Hd & Hn & _). { change (inject_Z (2 ^ 100)) with (1267650600228229401496703205376 # 1)%Q. change (2 ^ 100)%positive with 1267650600228229401496703205376%positive. lra. }
  exists d. split; [done|]. split; [refine (le_of_Z k x d _ _ Hd); [lia|lra]|].
  unfold near in Hn. rewrite Qabs_le_iff in Hn by done. rewrite inject_Z_plus. change (inject_Z (2 ^ 53)) with 9007199254740992%Q in Hn. change (inject_Z 1) with 1%Q. lra.
Qed.
Lemma max0_small q : max0 (DFin q) = if Qle_bool q 0 then of_Z 0 else DFin q.
Proof. unfold max0. change (of_Z 0) with (DFin 0). cbn [lt64 is_nan orb]. by destruct (Qle_bool q 0). Qed.
Lemma max0_nonneg q : (0 <= q)%Q → ∃ p, max0 (DFin q) = DFin p ∧ (p == q)%Q.
Proof.
  intros Hq. rewrite max0_small. destruct (Qle_bool q 0) eqn:E; [|by exists q]. apply Qle_bool_iff in E. exists 0%Q. split; [done|lra].
Qed.
Lemma Qceiling_unique q z : (inject_Z (z - 1) < q)%Q → (q <= inject_Z z)%Q → Qceiling q = z.
Proof.
  intros H1 H2. pose proof (Qceiling_lt q) as H3. pose proof (Qle_ceiling q) as H4.
  assert (inject_Z (z - 1) < inject_Z (Qceiling q))%Q as H5 by lra. assert (inject_Z (Qceiling q - 1) < inject_Z z)%Q as H6 by lra.
  rewrite <-Zlt_Qlt in H5, H6. lia.
Qed.
Lemma round64_nonpos y : (y <= 0)%Q → max0 (math_ceil (round64 y)) = DFin 0.
Proof.
  destruct y as [[|n|n] d]; intros Hy; [done|done|]. unfold round64. cbn [Qnum Qden].
  pose proof (round_pos_nonneg (Zpos n) (Zpos d) ltac:(done) ltac:(done)) as H. destruct (round_pos _ _) as [|[]|q]; cbn in H; try done.
  cbn [negate math_ceil]. rewrite max0_small. cbn [le64] in H.
  assert (E : Qle_bool (inject_Z (Qceiling (Qred (- q)))) 0 = true); [|by rewrite E].
  apply Qle_bool_iff. change 0%Q with (inject_Z 0). rewrite <-Zle_Qle. change 0 with (Qceiling 0). apply Qceiling_resp_le. rewrite Qred_correct. lra.
Qed.
Lemma inject_sub a b : (inject_Z (a - b) == inject_Z a - inject_Z b)%Q.
Proof. unfold Qminus. by rewrite <-inject_Z_opp, <-inject_Z_plus. Qed.
(** Taking a fraction of seconds off whole seconds and rounding up. *)
Lemma remaining_round i k d : 0 <= i < 2 ^ 40 → 0 <= k → (inject_Z k <= d)%Q → (d <= inject_Z (k + 1) - (1 # 2000))%Q →
  remaining_of i (DFin d) = Z.max 0 (i - k).
Proof.
  intros Hi Hk H1 H2. unfold remaining_of, sub64. rewrite of_Z_exact by lia. cbn [negate add64].
  assert (Hy : (inject_Z i + Qred (- d) == inject_Z i - d)%Q) by (rewrite Qred_correct; ring).
  set (y := (inject_Z i + Qred (- d))%Q) in *. rewrite inject_Z_plus in H2. change (inject_Z 1) with 1%Q in H2.
  destruct (Z.le_gt_cases i k) as [Hik|Hik].
  { rewrite round64_nonpos; [by rewrite Z.max_l by lia|]. rewrite Zle_Qle in Hik. lra. }
  assert (Hm : (inject_Z i - inject_Z k == inject_Z (i - k))%Q) by (by rewrite inject_sub).
  assert (H3 : (inject_Z (i - k) <= inject_Z (2 ^ 40))%Q) by (rewrite <-Zle_Qle; lia). change (inject_Z (2 ^ 40)) with 1099511627776%Q in H3.
  assert (H4 : (1 <= inject_Z (i - k))%Q) by (change 1%Q with (inject_Z 1); rewrite <-Zle_Qle; lia).
  destruct (round64_near y) as (q & Hq & Hn & _).
  { change (inject_Z (2 ^ 100)) with (1267650600228229401496703205376 # 1)%Q. change (2 ^ 100)%positive with 1267650600228229401496703205376%positive. lra. }
  rewrite Hq. cbn [math_ceil]. assert (Hle : (q <= inject_Z (i - k))%Q) by (refine (ge_of_Z (i - k) y q _ _ Hq); [lia|lra]).
  unfold near in Hn. rewrite Qabs_le_iff in Hn by done. change (inject_Z (2 ^ 53)) with 9007199254740992%Q in Hn.
  assert (Hs : (inject_Z (i - k - 1) == inject_Z (i - k) - 1)%Q) by (by rewrite inject_sub).
  rewrite (Qceiling_unique q (i - k)) by lra. rewrite max0_small.
  destruct (Qle_bool (inject_Z (i - k)) 0) eqn:E; [apply Qle_bool_iff in E; lra|]. cbn [to_Z]. rewrite Qfloor_Z. lia.
Qed.
Lemma elapsed_reads k n ts l : anchor k = Some (l, ts) → now k = Some n → elapsedSeconds k = max0 (div64 (of_Z (n - ts)) (of_Z 1000)).
Proof. unfold elapsedSeconds. by intros -> ->. Qed.
(** The time left is the time of the ledgers that are left, less the whole
    seconds since the ledger was read, although it is computed with fractions
    and rounded. *)
Theorem remaining_exact i n ts l : 0 <= i < 2 ^ 40 → 0 <= n - ts < 2 ^ 43 →
  remaining_of i (elapsedSeconds (Ticker (Some n) (Some (l, ts)))) = Z.max 0 (i - (n - ts) / 1000).
Proof.
  intros Hi He. rewrite (elapsed_reads _ n ts l) by done. destruct (thousandth (n - ts) He) as (d & -> & H1 & H2).
  assert (H0 : 0 <= (n - ts) / 1000) by (apply Z.div_pos; lia). assert (Hd : (0 <= d)%Q) by (rewrite Zle_Qle in H0; change (inject_Z 0) with 0%Q in H0; lra).
  rewrite max0_small. destruct (Qle_bool d 0) eqn:E.
  - apply Qle_bool_iff in E. assert (H3 : (inject_Z ((n - ts) / 1000) <= 0)%Q) by lra. change 0%Q with (inject_Z 0) in H3. rewrite <-Zle_Qle in H3.
    replace ((n - ts) / 1000) with 0 by lia. change (of_Z 0) with (DFin 0). apply remaining_round; [done|done|by vm_compute|by vm_compute].
  - by apply remaining_round.
Qed.

(** *** A countdown that only ticks *)

Lemma last_default {A} (l : list A) d d' : l ≠ [] → List.last l d = List.last l d'.
Proof. induction l as [|x [|y l] IH]; [done|done|]. intros _. by apply IH. Qed.

Section ticking.
Context (c L t0 : Z) (HL : 0 <= L < c) (Hc : (c - L) * 5 < 2 ^ 40).
(** The seconds left at time [n] to a cliff [c - L] ledgers away at [t0]. *)
Definition left_at (n : Z) : Z := Z.max 0 (5 * (c - L) - (n - t0) / 1000).
Definition counted (n : Z) : countdown :=
  Countdown (Some c) (Some L) (Live L true None false) (Ticker (Some n) (Some (L, t0)))
    (Firing (left_at n =? 0) (Some (L, left_at n)) (if left_at n =? 0 then 1 else 0)) (Claiming false None 0).
Lemma left_at_later n n' : n <= n' → left_at n = 0 → left_at n' = 0.
Proof. intros Hn. unfold left_at. pose proof (Z.div_le_mono (n - t0) (n' - t0) 1000). lia. Qed.
Lemma ledgers_left : initialRemainingSeconds (validLedger (Some c)) L = 5 * (c - L).
Proof. unfold initialRemainingSeconds, validLedger. change LEDGERS_PER_SECOND with 5. destruct (Z.leb_spec 0 c); lia. Qed.
Lemma left_seconds f n : 0 <= n - t0 < 2 ^ 43 →
  remainingSeconds (Countdown (Some c) (Some L) (Live L true None false) (Ticker (Some n) (Some (L, t0))) f (Claiming false None 0)) = left_at n.
Proof.
  intros Hn. unfold remainingSeconds, cliff. cbn [cliffLedger live currentLedger tick_of]. rewrite ledgers_left.
  by rewrite remaining_exact by lia.
Qed.
Lemma left_at_start : left_at t0 = 5 * (c - L).
Proof. unfold left_at. rewrite Z.sub_diag, Zdiv_0_l. lia. Qed.
Lemma mount_counted : mount t0 (Some c) (Some L) = counted t0.
Proof.
  unfold mount. assert (Hv : validLedger (Some L) = L) by (unfold validLedger; by destruct (Z.leb_spec 0 L); lia). rewrite Hv.
  set (s0 := Countdown _ _ _ _ _ _). assert (H0 : remainingSeconds s0 = 5 * (c - L)).
  { unfold remainingSeconds, s0, cliff. cbn [cliffLedger live currentLedger tick_of]. rewrite ledgers_left.
    change (elapsedSeconds _) with (DFin (inject_Z 0)). rewrite (remaining_round _ 0) by (lia || by vm_compute). lia. }
  assert (H1 : effects t0 true s0 = Countdown (Some c) (Some L) (Live L false None false) (Ticker (Some t0) (Some (L, t0)))
    (Firing false (Some (L, 5 * (c - L))) 0) (Claiming false None 0)).
  { unfold effects. rewrite H0. cbn. by destruct (Z.eqb_spec (5 * (c - L)) 0); [lia|]. }
  rewrite H1. assert (disabled (Countdown (Some c) (Some L) (Live L false None false) (Ticker (Some t0) (Some (L, t0)))
    (Firing false (Some (L, 5 * (c - L))) 0) (Claiming false None 0)) = false) as ->.
  { unfold disabled, cliff. cbn [cliffLedger initialLedger]. rewrite Hv. unfold validLedger. destruct (Z.leb_spec 0 c); apply Z.leb_gt; lia. }
  cbn [live currentLedger negb with_live cliffLedger initialLedger tick_of fire claim]. unfold with_live. cbn [cliffLedger initialLedger tick_of fire claim].
  unfold commit, effects, ledger_changed, reached_changed. cbn [fire shown live currentLedger reachedRef calls tick_of claim cliffLedger initialLedger].
  rewrite left_seconds, left_at_start, Z.eqb_refl by lia. cbn [negb]. destruct (Z.eqb_spec (5 * (c - L)) 0); [lia|]. cbn [Bool.eqb negb orb andb].
  unfold same_state. rewrite bool_decide_eq_true_2 by done. unfold counted. rewrite left_at_start. by destruct (Z.eqb_spec (5 * (c - L)) 0); [lia|].
Qed.
Lemma tick_counted n t : left_at n ≠ 0 → 0 <= t - t0 < 2 ^ 43 → tick t (counted n) = counted t.
Proof.
  intros Hn Ht. unfold tick, reached. change (shownSeconds (counted n)) with (Some (left_at n)). rewrite bool_decide_eq_false_2 by congruence.
  unfold update. destruct (decide (t = n)) as [->|Hne]; [by unfold same_state; rewrite bool_decide_eq_true_2|].
  assert (same_state (counted n) (with_now t (counted n)) = false) as ->.
  { apply bool_decide_eq_false. unfold rendered_state, with_now, counted. cbn. congruence. }
  unfold commit, effects, ledger_changed, reached_changed, with_now, counted.
  cbn [fire shown live currentLedger reachedRef calls tick_of claim cliffLedger initialLedger anchor].
  rewrite left_seconds, Z.eqb_refl by done. cbn [negb orb]. destruct (Z.eqb_spec (left_at n) 0); [done|].
  unfold same_state. destruct (Z.eqb_spec (left_at t) 0); cbn [Bool.eqb negb andb]; by rewrite bool_decide_eq_true_2.
Qed.
Lemma ticks_counted ts n : StronglySorted Z.le (n :: ts) → t0 <= n → Forall (λ t, t - t0 < 2 ^ 43) ts →
  ∃ k, countdown_run (counted n) (Tick <$> ts) = counted k ∧ k <= List.last ts n ∧ (k = List.last ts n ∨ left_at k = 0).
Proof.
  revert n. induction ts as [|t ts IH]; intros n Hs H0 Hb; [exists n; cbn; split_and!; [done|lia|by left]|].
  inversion Hs as [|? ? Hs' Hle]. subst. apply Forall_cons in Hle as [Hle _]. apply Forall_cons in Hb as [Hb Hbs].
  assert (Hlast : ∀ d, List.last (t :: ts) d = List.last ts t). { intros d. clear. destruct ts as [|x l]; [done|]. exact (last_default (x :: l) d t ltac:(done)). }
  rewrite Hlast. destruct (decide (left_at n = 0)) as [Hz|Hz].
  - exists n. split; [|split; [|by right]].
    + assert (Hst : ∀ t, tick t (counted n) = counted n).
      { intros t'. unfold tick, reached. change (shownSeconds (counted n)) with (Some (left_at n)). by rewrite Hz, bool_decide_eq_true_2. }
      clear -Hst. unfold countdown_run. generalize (t :: ts). intros l. induction l as [|x l IHl]; [done|]. cbn [fmap list_fmap foldl countdown_step]. by rewrite Hst.
    + rewrite <-(Hlast n). clear -Hs. revert n Hs. induction (t :: ts) as [|x l IHl]; intros n Hs; [cbn; lia|]. inversion Hs as [|? ? Hs1 Hf]. subst.
      apply Forall_cons in Hf as [Hx _]. destruct l as [|y l]; [done|]. change (List.last (x :: y :: l) n) with (List.last (y :: l) n).
      etrans; [exact Hx|]. rewrite <-(last_default (y :: l) x n) by done. by apply IHl.
  - change (countdown_run (counted n) (Tick <$> (t :: ts))) with (countdown_run (tick t (counted n)) (Tick <$> ts)).
    rewrite tick_counted by (done || lia). apply IH; [done|lia|done].
Qed.
End ticking.

(** C24. A countdown that starts [c - L] ledgers before the cliff and is only
    ticked shows, after ticks at any times, five seconds for each of these
    ledgers less the whole seconds that have passed, and never less than zero,
    although the code computes it with fractions that are rounded; and it has
    called [onReached] once if that is zero, and not at all before. *)
Theorem countdown_shows c L t0 ts : 0 <= L < c → (c - L) * 5 < 2 ^ 40 → StronglySorted Z.le (t0 :: ts) → Forall (λ t, t - t0 < 2 ^ 43) ts →
  let s := countdown_run (mount t0 (Some c) (Some L)) (Tick <$> ts) in
  let seconds := Z.max 0 (5 * (c - L) - (List.last ts t0 - t0) / 1000) in
  shownSeconds s = Some seconds ∧ calls (fire s) = if seconds =? 0 then 1%nat else 0%nat.
Proof.
  intros HL Hc Hs Hb s seconds. destruct (ticks_counted c L t0 HL Hc ts t0 Hs ltac:(lia) Hb) as (k & Hk & Hle & Hlast).
  unfold s. rewrite mount_counted by done. rewrite Hk. unfold shownSeconds, counted. cbn.
  change seconds with (left_at c L t0 (List.last ts t0)).
  assert (left_at c L t0 k = left_at c L t0 (List.last ts t0)) as ->; [|done].
  destruct Hlast as [-> |Hz]; [done|]. by rewrite Hz, (left_at_later _ _ _ k).
Qed.
Lemma countdown_shows_witness : let s := countdown_run (mount 1000 (Some 102) (Some 100)) (Tick <$> [2500; 4999; 12000]) in
  shownSeconds s = Some 0 ∧ calls (fire s) = 1%nat.
Proof.
  apply (countdown_shows 102 100 1000 [2500; 4999; 12000]); [lia|lia| |].
  - repeat constructor; lia.
  - repeat constructor; lia.
Defined.

(** ** Theorems: the renders *)

Lemma effects_live t f s : live (effects t f s) = live s. Proof. done. Qed.
Lemma effects_claim t f s : claim (effects t f s) = claim s. Proof. done. Qed.
Lemma commit_live t s : live (commit t s) = live s. Proof. unfold commit. by destruct (same_state _ _). Qed.
Lemma commit_claim t s : claim (commit t s) = claim s. Proof. unfold commit. by destruct (same_state _ _). Qed.
Lemma update_live t s s' : live (update t s s') = live s'. Proof. unfold update. destruct (same_state _ _); [done|apply commit_live]. Qed.
Lemma update_claim t s s' : claim (update t s s') = claim s'. Proof. unfold update. destruct (same_state _ _); [done|apply commit_claim]. Qed.
#[export] Hint Rewrite effects_live effects_claim commit_live commit_claim update_live update_claim : renders.

(** The render of the ledger is over, and [onReached] was called as often as
    [reachedRef] says since the call count was [n]. *)
Definition settled (s : countdown) : Prop := option_map fst (shown (fire s)) = Some (currentLedger (live s)).
Definition fired (s : countdown) : nat := Nat.b2n (reachedRef (fire s)).
Definition calls_kept (s s' : countdown) : Prop :=
  currentLedger (live s') = currentLedger (live s) ∧ settled s' ∧ (calls (fire s') + fired s = calls (fire s) + fired s')%nat ∧ (fired s <= fired s')%nat.
Lemma settled_unchanged s : settled s → ledger_changed s = false.
Proof. unfold settled, ledger_changed. destruct (shown (fire s)) as [[l r]|]; [|done]. cbn. intros [= ->]. by rewrite Z.eqb_refl. Qed.
Lemma calls_kept_refl s : settled s → calls_kept s s. Proof. by repeat split. Qed.
Lemma calls_kept_trans s1 s2 s3 : calls_kept s1 s2 → calls_kept s2 s3 → calls_kept s1 s3.
Proof. intros (H1 & H2 & H3 & H4) (H5 & H6 & H7 & H8). split; [congruence|]. split; [done|]. lia. Qed.
Lemma effects_kept t f s : settled s → calls_kept s (effects t f s).
Proof.
  intros Hs. unfold calls_kept, settled, fired, effects. rewrite settled_unchanged by done. cbn [live fire reachedRef shown calls option_map fst].
  split; [done|]. split; [done|]. destruct (reachedRef (fire s)), ((f || reached_changed s) && (remainingSeconds s =? 0)); cbn; lia.
Qed.
Lemma commit_kept t s : settled s → calls_kept s (commit t s).
Proof.
  intros Hs. unfold commit. pose proof (effects_kept t false s Hs) as H. destruct (same_state _ _); [done|].
  refine (calls_kept_trans _ _ _ H _). apply effects_kept. apply H.
Qed.
(** What is written before a render leaves the count alone. *)
Lemma update_kept t s s' : fire s' = fire s → currentLedger (live s') = currentLedger (live s) → settled s → calls_kept s (update t s s').
Proof.
  intros Hf Hl Hs. assert (Hs' : settled s') by (unfold settled in *; congruence). assert (H : calls_kept s s') by (unfold calls_kept, fired; rewrite Hf, Hl; done).
  unfold update. destruct (same_state _ _); [done|]. exact (calls_kept_trans _ _ _ H (commit_kept t s' Hs')).
Qed.
Lemma mount_settled t c l : settled (mount t c l).
Proof.
  unfold mount. set (s := effects _ _ _). assert (H : settled s) by done.
  assert (H' : settled (with_live (Live (currentLedger (live s)) (negb (disabled s)) None false) s)) by done. exact (proj1 (proj2 (commit_kept t _ H'))).
Qed.

(** Events that bring no other ledger than [l]. *)
Definition brings (l : Z) (e : countdown_event) : Prop :=
  match e with Polled _ a => fetchCurrentLedger a = None ∨ fetchCurrentLedger a = Some l | Props _ _ p _ => validLedger p = l | _ => True end.
Lemma step_kept s e : settled s → brings (currentLedger (live s)) e → calls_kept s (countdown_step s e).
Proof.
  intros Hs He. pose proof (calls_kept_refl s Hs). destruct e as [t a|t|t c l f|t c|t f]; cbn [countdown_step brings] in *.
  - unfold polled. apply update_kept; [done| |done]. by destruct He as [->| ->].
  - unfold tick. destruct (reached s); [done|]. by apply update_kept.
  - unfold reprops. set (s1 := effects t f (with_props c l s)). assert (H1 : calls_kept s s1) by (apply (effects_kept t f (with_props c l s)); exact Hs).
    refine (calls_kept_trans _ _ _ H1 _). apply update_kept; [done| |apply H1]. rewrite He. by destruct (negb _).
  - unfold handleClaim. destruct (_ && _); [|done]. by apply update_kept.
  - unfold claim_settled. destruct (claimPending _); [|done]. by apply update_kept.
Qed.
Lemma run_kept s es : settled s → Forall (brings (currentLedger (live s))) es → calls_kept s (countdown_run s es).
Proof.
  unfold countdown_run. revert s. induction es as [|e es IH]; intros s Hs Hes; [by apply calls_kept_refl|]. apply Forall_cons in Hes as [He Hes].
  pose proof (step_kept s e Hs He) as H. refine (calls_kept_trans _ _ _ H _). destruct H as (Hl & Hs' & _). apply IH; [done|]. by rewrite Hl.
Qed.
(** While the ledger stays the same, [onReached] is called at most once, and
    not again once it was, whatever the clock, the props and the claims do. *)
Theorem once_per_ledger s es : settled s → Forall (brings (currentLedger (live s))) es →
  (calls (fire (countdown_run s es)) <= S (calls (fire s)))%nat ∧
  (reachedRef (fire s) = true → calls (fire (countdown_run s es)) = calls (fire s)).
Proof.
  intros Hs Hes. destruct (run_kept s es Hs Hes) as (_ & _ & H & Hm). unfold fired in *.
  destruct (reachedRef (fire s)), (reachedRef (fire (countdown_run s es))); cbn in *; lia.
Qed.
Example once_per_ledger_witness : let s := mount 0 (Some 101) (Some 100) in let s' := countdown_run s [Tick 5000; Tick 6000; Props 6000 (Some 101) (Some 100) true] in
  Nat.leb (calls (fire s')) 1 = true.
Proof.
  apply Nat.leb_le. refine (proj1 (once_per_ledger (mount 0 (Some 101) (Some 100)) [Tick 5000; Tick 6000; Props 6000 (Some 101) (Some 100) true] _ _)); [by apply mount_settled|by repeat constructor].
Defined.

(** A claim is under way when one was started that is not settled. *)
Definition settles (e : countdown_event) : bool := match e with ClaimSettled _ _ => true | _ => false end.
Lemma step_claims s e : (claims (claim (countdown_step s e)) + Nat.b2n (claimPending (claim s)) <=
  claims (claim s) + Nat.b2n (claimPending (claim (countdown_step s e))) + Nat.b2n (settles e))%nat.
Proof.
  destruct e as [t a|t|t c l f|t c|t f]; cbn [countdown_step settles].
  - unfold polled. rewrite update_claim. cbn. lia.
  - unfold tick. destruct (reached s); [|rewrite update_claim]; cbn; lia.
  - unfold reprops. rewrite update_claim. cbn. lia.
  - unfold handleClaim. destruct (claimPending (claim s)) eqn:E. { rewrite andb_false_r. cbn. rewrite E. cbn. lia. }
    destruct (_ && _); [rewrite update_claim; cbn; lia|]. rewrite E. cbn. lia.
  - unfold claim_settled. destruct (claimPending (claim s)) eqn:E; [rewrite update_claim; cbn; lia|]. rewrite E. cbn. lia.
Qed.
(** One claim at a time: of the claims that were started all but one have been
    settled, however often the button is pressed. *)
Theorem claims_one_at_a_time s es : claimPending (claim s) = false →
  (claims (claim (countdown_run s es)) <= claims (claim s) + length (filter (λ e, settles e = true) es) + Nat.b2n (claimPending (claim (countdown_run s es))))%nat.
Proof.
  intros Hp. enough (H : (claims (claim (countdown_run s es)) + Nat.b2n (claimPending (claim s)) <=
    claims (claim s) + length (filter (λ e, settles e = true) es) + Nat.b2n (claimPending (claim (countdown_run s es))))%nat) by (rewrite Hp in H; cbn in H; lia).
  clear Hp. unfold countdown_run. revert s. induction es as [|e es IH]; intros s; [cbn; lia|].
  cbn [foldl]. specialize (IH (countdown_step s e)). pose proof (step_claims s e). rewrite filter_cons. destruct (decide (settles e = true)) as [E|E%not_true_is_false]; rewrite E in *; cbn in *; lia.
Qed.

(** ** Theorems: past the cliff *)

Lemma round64_not_nan q : is_nan (round64 q) = false.
Proof.
  destruct q as [[|n|n] d]; [done| |]; unfold round64; cbn [Qnum Qden]; pose proof (round_pos_nonneg (Zpos n) (Zpos d) ltac:(done) ltac:(done)) as H;
    by destruct (round_pos _ _).
Qed.
Lemma zero_nonneg : le64 (DFin 0) (of_Z 0). Proof. by vm_compute. Qed.
Lemma elapsed_nonneg k : le64 (DFin 0) (elapsedSeconds k).
Proof.
  unfold elapsedSeconds. destruct (anchor k) as [[l ts]|], (now k) as [n|]; try exact zero_nonneg.
  pose proof (round64_not_nan (inject_Z (n - ts))) as H. change (round64 (inject_Z (n - ts))) with (of_Z (n - ts)) in H. change (of_Z 1000) with (DFin 1000).
  destruct (of_Z (n - ts)) as [|[]|q]; [discriminate H|exact zero_nonneg|exact I|]. cbn [div64 is_zero Qnum Z.eqb]. pose proof (round64_not_nan (q / 1000)) as H'.
  destruct (round64 _) as [|[]|p]; [discriminate H'|exact zero_nonneg|exact I|]. rewrite max0_small. destruct (Qle_bool p 0) eqn:E; [exact zero_nonneg|]. cbn [le64].
  destruct (Qlt_le_dec 0 p); [lra|]. apply Qle_bool_iff in q0. congruence.
Qed.
(** No clock brings a reached cliff back. *)
Lemma remaining_zero k : remaining_of 0 (elapsedSeconds k) = 0.
Proof.
  pose proof (elapsed_nonneg k) as H. unfold remaining_of, sub64. change (of_Z 0) with (DFin 0). destruct (elapsedSeconds k) as [|[]|d]; [done|done|reflexivity|].
  cbn [negate add64 le64] in *. rewrite round64_nonpos; [done|]. rewrite Qred_correct. lra.
Qed.
Lemma past_remaining s : cliff s <= currentLedger (live s) → remainingSeconds s = 0.
Proof.
  intros H. unfold remainingSeconds, initialRemainingSeconds. rewrite Z.max_l by (change LEDGERS_PER_SECOND with 5; lia). apply remaining_zero.
Qed.
(** A cliff that is past when the component is mounted is reported once, however
    long it stays on the screen. *)
Theorem past_cliff t c l es : validLedger c <= validLedger l → Forall (brings (validLedger l)) es →
  reached (mount t c l) = true ∧ calls (fire (countdown_run (mount t c l) es)) = 1%nat.
Proof.
  intros Hc Hes. set (s0 := Countdown c l (Live (validLedger l) false None false) (Ticker None None) (Firing false None 0) (Claiming false None 0)).
  set (s1 := with_live (Live (validLedger l) (negb (disabled s0)) None false) (effects t true s0)).
  assert (Hr0 : remainingSeconds s0 = 0) by (by apply past_remaining). assert (Hm : mount t c l = commit t s1) by done.
  assert (H1 : settled s1) by done. pose proof (commit_kept t s1 H1) as Hk. rewrite <-Hm in Hk.
  assert (Hl : currentLedger (live (mount t c l)) = validLedger l) by (rewrite (proj1 Hk); done).
  assert (Hf : calls (fire s1) = 1%nat ∧ reachedRef (fire s1) = true) by (subst s1; unfold with_live, effects; cbn [fire calls reachedRef]; rewrite Hr0; done).
  rewrite <-Hl in Hes. pose proof (run_kept (mount t c l) es (proj1 (proj2 Hk)) Hes) as Hk'. split.
  - rewrite Hm. unfold commit. assert (remainingSeconds (effects t false s1) = 0 ∧ remainingSeconds s1 = 0) as [E1 E2] by (split; apply past_remaining; done).
    unfold reached, shownSeconds. destruct (same_state _ _); cbn [fire effects shown option_map snd]; by rewrite ?E1, ?E2.
  - destruct Hk as (_ & _ & H2 & H3), Hk' as (_ & _ & H4 & H5), Hf as [H6 H7]. unfold fired in *. rewrite H6, H7 in *.
    pose proof (Nat.b2n_le_1 (reachedRef (fire (mount t c l)))). pose proof (Nat.b2n_le_1 (reachedRef (fire (countdown_run (mount t c l) es)))). cbn in *. lia.
Qed.
Example past_cliff_witness : let s := mount 0 (Some 100) (Some 100) in
  reached s = true ∧ calls (fire (countdown_run s [Tick 5000; Props 6000 (Some 90) (Some 100) true; Claim 7000 None])) = 1%nat.
Proof. apply (past_cliff 0 (Some 100) (Some 100) [Tick 5000; Props 6000 (Some 90) (Some 100) true; Claim 7000 None]); [done|by repeat constructor]. Defined.

(** ** Theorems: a new ledger *)

Lemma effects_tick t f s : settled s → tick_of (effects t f s) = tick_of s.
Proof. intros Hs. unfold effects. by rewrite settled_unchanged. Qed.
Lemma update_tick t s s' : settled s' → tick_of (update t s s') = tick_of s'.
Proof.
  intros Hs. unfold update, commit. destruct (same_state s s'); [done|]. destruct (same_state _ _); rewrite ?effects_tick; done.
Qed.
(** A failed poll keeps the ledger and the clock it is counted from, and says
    so. *)
Theorem failed_poll s t a : settled s → fetchCurrentLedger a = None → let s' := polled t a s in
  currentLedger (live s') = currentLedger (live s) ∧ tick_of s' = tick_of s ∧ error (live s') = Some POLL_ERROR ∧ loading (live s') = false.
Proof.
  intros Hs Ha s'. subst s'. unfold polled. rewrite update_live, Ha. split; [done|]. split; [by rewrite update_tick|done].
Qed.
Example failed_poll_witness : tick_of (polled 9000 NotOk (mount 0 (Some 120) (Some 100))) = tick_of (mount 0 (Some 120) (Some 100)).
Proof. apply (failed_poll (mount 0 (Some 120) (Some 100)) 9000 NotOk); [apply mount_settled|done]. Defined.

(** A new ledger is drawn once with the time that passed since the one before:
    the cliff counts as reached when that time covers what is left now, and
    [onReached] is called while there are ledgers to go. *)
Theorem reached_early s t n l ts r L : settled s → shownSeconds s = Some r → r <> 0 → tick_of s = Ticker (Some n) (Some (l, ts)) →
  L <> currentLedger (live s) → 0 < cliff s - L < 2 ^ 36 → 0 <= n - ts < 2 ^ 43 → (cliff s - L) * 5 <= (n - ts) / 1000 → t <> n →
  let s' := polled t (Body (Some L)) s in
  calls (fire s') = S (calls (fire s)) ∧ reached s' = false ∧ shownSeconds s' = Some ((cliff s - L) * 5).
Proof.
  intros Hs Hr Hr0 Ht HL Hi Hn Hle Htn s'. subst s'. unfold polled. cbn [fetchCurrentLedger default].
  set (s1 := with_live _ s). assert (Hc : ledger_changed s1 = true).
  { unfold ledger_changed, settled in *. cbn. destruct (shown (fire s)) as [[l' r']|]; [|done]. cbn in Hs. injection Hs as ->. apply negb_true_iff, Z.eqb_neq. congruence. }
  assert (E0 : same_state s s1 = false) by (apply bool_decide_eq_false; unfold rendered_state; cbn; congruence).
  assert (Hinit : initialRemainingSeconds (cliff s) L = (cliff s - L) * 5) by (unfold initialRemainingSeconds; change LEDGERS_PER_SECOND with 5; lia).
  assert (R1 : remainingSeconds s1 = 0).
  { unfold remainingSeconds. change (cliff s1) with (cliff s). change (tick_of s1) with (tick_of s). change (currentLedger (live s1)) with L. rewrite Hinit, Ht, remaining_exact by lia. lia. }
  assert (C1 : reached_changed s1 = true).
  { unfold reached_changed. rewrite R1. unfold shownSeconds in Hr. cbn. destruct (shown (fire s)) as [[l' r']|]; [|done]. cbn in Hr. injection Hr as ->. apply Z.eqb_neq in Hr0. by rewrite Hr0. }
  set (s2 := effects t false s1). assert (F2 : s2 = Countdown (cliffLedger s) (initialLedger s) (live s1) (Ticker (Some t) (Some (L, t))) (Firing true (Some (L, 0)) (S (calls (fire s)))) (claim s)).
  { subst s2. unfold effects. rewrite Hc, C1, R1. done. }
  assert (E1 : same_state s1 s2 = false).
  { apply bool_decide_eq_false. rewrite F2. unfold rendered_state. cbn. rewrite Ht. cbn. congruence. }
  assert (R2 : remainingSeconds s2 = (cliff s - L) * 5).
  { rewrite F2. unfold remainingSeconds. cbn [tick_of live]. change (cliff (Countdown _ _ _ _ _ _)) with (cliff s). change (currentLedger (live s1)) with L.
    rewrite Hinit, remaining_exact by lia. rewrite Z.sub_diag, Zdiv_0_l. lia. }
  unfold update. rewrite E0. unfold commit. fold s2. rewrite E1.
  assert (S2 : shown (fire (effects t false s2)) = Some (L, (cliff s - L) * 5)) by (change (Some (L, remainingSeconds s2) = Some (L, (cliff s - L) * 5)); by rewrite R2).
  split; [|unfold reached, shownSeconds; rewrite S2; cbn; split; [apply bool_decide_eq_false; intros [= H]; lia|done]].
  clearbody s2. unfold effects. cbn [fire calls]. rewrite R2. assert ((cliff s - L) * 5 =? 0 = false) as -> by (apply Z.eqb_neq; lia). rewrite andb_false_r. cbn. by rewrite F2.
Qed.
Definition stale_session : countdown := countdown_run (mount 0 (Some 120) (Some 100)) [Polled 1000 Unreachable; Tick 60000].
Example reached_early_witness : let s' := polled 61000 (Body (Some 110)) stale_session in
  calls (fire s') = S (calls (fire stale_session)) ∧ reached s' = false ∧ shownSeconds s' = Some ((cliff stale_session - 110) * 5).
Proof. refine (reached_early stale_session 61000 60000 100 0 40 110 _ _ _ _ _ _ _ _ _); vm_compute; first [reflexivity|discriminate|split; first [reflexivity|discriminate]]. Defined.
(** It is called again for the same cliff when another ledger says that there is
    still time to go. *)
Example onReached_twice : calls (fire (countdown_run (mount 0 (Some 120) (Some 119)) [Tick 5000; Polled 5500 (Body (Some 118)); Tick 15500])) = 2%nat.
Proof. by vm_compute. Qed.
